(* ===== verification/_CoqProject ===== *)
-Q . S2P
Prelude.v
KList.v
Bitmap.v
TicketLock.v
RingBuffer.v
ObjectPool.v
CapTypes.v
CSpace.v
Capability.v
CapForest.v
CapForestOps.v
CapInv.v
CapOps.v
CSpaceInv.v
CSpaceLife.v
CapProps.v
CapTheorems.v
CapSystem.v
PhysMem.v
Buddy.v
BuddyInv.v
BuddyOps.v
BuddyInit.v
BuddyTheorems.v
PageTable.v
PageTableInv.v
PageTableOps.v
PageTableTheorems.v
SchedTypes.v
Sched.v
Threads.v
Smp.v
OrdList.v
Sleep.v
SwTimer.v
SchedRep.v
SchedInv.v
SchedOps.v
SchedCalls.v
SchedThreads.v
SchedCreate.v
SchedSleep.v
SchedInit.v
SchedSmp.v
SchedSystem.v
SchedTheorems.v
SwTimerSpec.v
TimerTheorems.v
Notification.v
NotificationSpec.v
NotificationTheorems.v
UserTimer.v
UserTimerSpec.v
UserTimerTheorems.v
Arinc.v
ArincTheorems.v
Slab.v
SlabInv.v
SlabSteps.v
SlabTheorems.v
Kmalloc.v
KmallocInv.v
KmallocTheorems.v
Rbtree.v
RbtreeInv.v
RbtreeSteps.v
RbtreeInsert.v
RbtreeWalk.v
RbtreeDelete.v
RbtreeTheorems.v
VmSpace.v
VmPages.v
VmSpaceInv.v
VmSpaceSteps.v
VmSpaceCalls.v
VmSpaceRuns.v
VmSpaceTheorems.v
KString.v
KStringSpec.v
KStringTheorems.v
