(* ===== verification/Prelude.v ===== *)
(** * AISafeOS64: a verification development of the microkernel core

    AISafeOS64 is a capability-based microkernel for AArch64 written in C
    (src/kernel, src/include/kernel).  This library is a shallow embedding of
    its core mechanisms in Rocq and proves what makes them correct.

    ** The program and its parts

    - Basic data structures: circular intrusive lists
      (include/kernel/list.h), the 256-bit priority bitmap
      (include/kernel/bitmap.h), ticket locks (kernel/sched/spinlock.c), the
      byte ring buffer of IPC (kernel/ipc/ring_buffer.c), object pools
      (kernel/mm/object_pool.c), and the string library
      (lib/kernel_string.c) with the copies to and from user memory
      (kernel/mm/uaccess.c).  Every other part is built from these.
    - Capabilities: CSpaces hold tables of capabilities, and capabilities form
      a forest of derivations (kernel/cap/cspace.c, kernel/cap/capability.c).
    - Memory: the buddy allocator of page frames (kernel/mm/phys_mem.c), the
      four-level page tables (kernel/mm/page_table.c) and the slab caches
      (kernel/mm/slab.c) that take their pages from it, the first-fit heap
      (kernel/mm/kmalloc.c), and address spaces (kernel/mm/vmspace.c): a page
      table, an ASID and a red-black tree (kernel/mm/rbtree.c) of regions each.
    - Scheduling: per-CPU ready queues, scheduling classes, threads, sleeping,
      software timers, load balancing between CPUs (kernel/sched: scheduler.c,
      sched_class.c, sched_rr.c, thread.c, timer.c, smp.c, stack_guard.c), and
      the partition windows of ARINC 653 (arinc653.c).
    - Communication: notifications, words of signal bits on which a thread
      blocks and that threads, interrupt handlers and user timers signal
      (kernel/ipc/notification.c, kernel/sched/user_timer.c).

    ** Conventions of the model

    A w-bit integer is a [Z] with its wrap-around written out ([u8], [u16],
    [u32], [u64]).  A C function is a Rocq function on a record of the static
    data it touches, named like the C function.  [None] is undefined behaviour:
    a NULL or wild dereference, an index out of range, a remainder by zero, or
    fuel that ran out.  So [f s = Some s'] also says that the call is memory
    safe and returns; no theorem about a call is conditional on its returning.
    Pointers to pool entries are their indices, pointers to embedded list nodes
    are constructors of an address type, NULL is [None].

    Granularity.  A call is one transition of the state unless said otherwise.
    Where the C function holds one lock around its whole body, that the lock
    provides this is the theorem of TicketLock.v.  Split into the sections
    between which the code gives up its locks or has none: [slab_alloc] (three
    transitions), [ipc_notification_wait] (four), the turns of the migration loop
    of [smp_load_balance] (one each).  One transition although the code holds its
    locks only in parts or not at all: the calls of thread.c, [smp_idle_balance],
    [cspace_create] and [cspace_destroy] (pool and hash index), the lookup of a
    CSpace before its lock is taken, notification calls other than waits, and the
    calls of vmspace.c; other CPUs acting in the middle of these are not covered.

    ** Files

    Foundations
    - Prelude: integers, error codes, array access, [memcpy], tactics
      ([case_if], [zify_bool], [inv_run]), the hint database [kernel].
    - KList: list.h on a store of nodes; [dll h hd xs] is the abstraction of a
      circular list to the sequence [xs].  Programs of list calls refine
      programs on sequences.
    - Bitmap: bitmap.h; the four words behave as a set of priorities and the
      search yields its maximum.
    - TicketLock: spinlock.c as a step relation whose steps are the single
      atomic accesses, interleaved over n CPUs; it refines a FIFO queue of
      waiters: mutual exclusion, no deadlock.
    - RingBuffer: ring_buffer.c refines a bounded FIFO of bytes.
    - ObjectPool: object_pool.c refines a set of live objects.
    - KString: lib/kernel_string.c and kernel/mm/uaccess.c on a memory of bytes.
      KStringSpec: the loops against sequences, strings and numerals.
      KStringTheorems: copies are exact for every overlap, strings are built,
      compared and searched as sequences, numbers are read as they are printed,
      and user copies stay below the addresses of the kernel.

    Capabilities
    - CapTypes, CSpace, Capability: data and every function of cspace.c and
      capability.c.  The slab allocator that provides the tables is the class
      [SlabOps]; what cspace.c needs of it is [SlabSpec] (CSpaceInv).  It is an
      interface although slab.c is modelled (Slab): there the law on sizes fails,
      objects are always of 64 bytes (SlabTheorems), so that the capability
      theorems speak of cspace.c and capability.c over an allocator that keeps
      its contract.
    - CapForest, CapForestOps: the derivation forest of one table.
    - CapInv, CapOps, CSpaceInv, CSpaceLife: [cap_inv] and its preservation.
    - CapProps, CapTheorems, CapSystem: the invariant holds along every
      sequence of calls from initialisation on, within and between CSpaces of at
      most 128 slots; authority is confined; revocation takes everything recorded
      below a capability in its CSpace; failed calls have no effect.  Left out
      are moves of a capability that has children to another CSpace
      ([cap_op_ok]), which corrupt the tables; CapSystem runs them.

    Memory
    - PhysMem: phys_mem.c.  Buddy, BuddyInv, BuddyOps, BuddyInit: blocks tile
      the managed frames.  BuddyTheorems: blocks handed out are aligned,
      disjoint and inside the range; a request is refused exactly when no
      aligned free block exists; a released block can be allocated again.
    - PageTable: page_table.c on the page allocator of PhysMem; the translation
      cache is part of the state.  PageTableInv: tables as labelled trees.
      PageTableOps: each function against them.  PageTableTheorems: page tables
      implement a map from pages to descriptors per root with the set of the
      2 MB ranges that have a last-level table, also while other clients use the
      page allocator; no stale cached translation of a root in use; mapping,
      lookup and unmapping are inverse; descriptors grant the rights asked for.
    - Slab: slab.c on the page allocator.  SlabInv: caches as sequences of nodes,
      every page with one owner.  SlabSteps: each function, and each of the three
      parts of [slab_alloc].  SlabTheorems: the caches implement sets of objects
      in use under any interleaving; objects do not overlap.
    - Kmalloc: kmalloc.c on a store of block headers.  KmallocInv: the headers
      that tile the heap as a sequence of blocks, splitting and merging.  KmallocTheorems: the heap implements a set of disjoint blocks,
      whatever callers write into them, and refuses a request exactly when no
      contiguous free range is large enough.
    - Rbtree: rbtree.c on a store of nodes with parent pointers.  RbtreeInv: the
      store against inductive trees, places as paths of frames; RbtreeSteps,
      RbtreeInsert, RbtreeWalk, RbtreeDelete: rotations and recolourings as
      operations on trees, the two repair loops, walking, searching.
      RbtreeTheorems: insertion keeps the tree red-black and in order; searches
      take 2 log2 (n + 1) turns; deletion is right for [deletable] nodes and
      follows a NULL pointer for those that [crashes] names.
    - VmSpace: vmspace.c on page tables, page allocator and one store of tree
      nodes for all spaces.
      VmPages: the loops over pages as updates of the map of a page table.
      VmSpaceInv: the invariant of spaces, regions and frames.  VmSpaceSteps,
      VmSpaceCalls: each function keeps it.  VmSpaceRuns: runs of calls
      ([vm_op], [run_vm], [vm_ok]) and the specification [vm_spec].
      VmSpaceTheorems: spaces implement maps of pages and disjoint regions;
      anonymous pages share no frames; a space with regions can not be destroyed.
    Scheduling
    - SchedTypes, Sched, Threads, Sleep, SwTimer, Smp: data and functions of
      kernel/sched; [c] is always the CPU that executes, [hal_get_cpu_id()].
      Stack allocation is the class [StackSlab] (the slab caches of scheduler.c);
      timer callbacks and the hardware counter are parameters.
    - OrdList: the ordered insertion shared by sleep queues and timers.
    - SchedRep, SchedInv: the queues as sequences, and the invariant: every
      ready thread waits in exactly one queue of its priority, a running thread
      runs on exactly one CPU, bitmaps and counts agree with the queues, sleep
      queues are sorted and hold exactly the sleeping threads.
    - SchedOps, SchedCalls, SchedThreads, SchedCreate, SchedSleep, SchedSmp:
      every call keeps the invariant.  SchedInit: start-up
      establishes it.  SchedSystem: runs of calls ([sop], [run_op], [op_ok]).
    - SchedTheorems: the invariant in every reachable state, no thread is lost,
      [schedule] runs a highest-priority waiting thread, the timer interrupt
      wakes exactly the due threads, balancing conserves threads, bounds of
      slices and intervals.  Runs: executions outside the conditions.
    - SwTimerSpec, TimerTheorems: the timer interrupt fires expired timers in the
      order of their expiry, runs their callbacks in that order and rearms
      periodic ones; the nanosecond clock is exact below its overflow.
    - Arinc, ArincTheorems: arinc653.c; the windows of an accepted schedule
      follow one another, each for its length, for any number of ticks.

    Communication
    - Notification: notification.c; a wait is four transitions.
      NotificationSpec: each call against the invariant of the table.
      NotificationTheorems: calls interleaved with the scheduler ([nop],
      [run_nop], [nop_ok], [nreach]) are safe, in the waiting state a matching
      signal wakes the waiter and delivers the bits, identifiers of destroyed notifications are
      refused.
    - UserTimer, UserTimerSpec, UserTimerTheorems: user_timer.c over
      notifications ([uop], [run_uop], [ureach]); the tick ends and catches up
      with every missed period; the active list stays ordered.

    ** Fuel

    A C loop that is not bounded by a constant takes fuel, and every theorem
    about it proves that the fuel given is enough.  List traversals of the
    capability system get one more than all slots of all CSpaces; hash chains
    one more than the number of CSpaces; revocation one more than the slots of
    the CSpace, which bounds the descendants.  [SCHED_FUEL] and [LIST_FUEL] are
    257, one more than the 256 threads; [SLEEP_FUEL] is 256, as a thread sleeps
    at most once; the timer loop gets the number of timers in the queue; the
    user timer tick takes its fuel as an argument and is proved to need exactly
    the number of expiries and one round more;
    [CLASS_FUEL] is 4 for the three classes.  Splitting and merging of blocks
    take at most [MAX_ORDER] rounds, placing blocks at initialisation at most
    one per frame.  The loops of vmspace.c over the pages of a range take
    [page_turns] rounds, one more than there are pages; the loop of
    [vmspace_destroy] is treated for every fuel.  A loop over a string takes the
    number of mapped bytes, as it reads another one in every round.

    ** Conditions of the theorems

    [op_ok] (SchedSystem) names the conditions under which a call is covered:
    suspension and priority changes act on a thread whose queue belongs to the
    calling CPU or that is not queued, idle threads are neither suspended nor
    slept nor migrated, threads are created while the CPU does not switch and
    with a stack available, and balancing runs while no other thread has the
    priority of the idle threads, a turn of its loop not with one thread waiting
    on the source.  SchedTheorems.Runs executes the code where they do not
    hold.  [nop_ok] and [uop_ok] add: only live notifications are destroyed, a
    thread inside a wait makes no other call, timer identifier 0 is not used and
    timer identifiers have not run out; NotificationTheorems and
    UserTimerTheorems run the code outside these conditions.  [sl_ok] asks that a
    cache is created in zeroed memory and for at most 2^63 bytes, and that nobody
    uses it while it is destroyed.  [vm_ok] keeps
    the requests to address spaces below 2^48, which is all that page tables
    translate, and asks that a region is unmapped as a whole, owns its frames and
    is one that [rb_delete] can take out.  All theorems on page frames, page
    tables, slab caches and address spaces assume a base address aligned to the
    largest block, 8 MB ([mem_layout]), and leave out [phys_mem_reserve]; the
    kernel passes a page-aligned base, and BuddyTheorems runs the code where the
    base is not aligned and where pages are reserved.  The translation cache may
    load translations of any root in use under any identifier; nothing is claimed
    of the translations of freed roots, nor of which space uses a translation.

    ** Not modelled

    Register contexts, assembly and devices; interrupt masking of the irqsave
    lock variants; weak memory order (the lock model is sequentially
    consistent); shared memory objects, IPC endpoints and channels, mutexes, processes, signals, file system and sockets; the C
    libraries and user-space services.
    capability_inheritable.c is not part of the build.  [schedule] is modelled
    up to the change of register context; what the resumed thread does next is
    the next call of the run. *)

From stdpp Require Export base tactics option list gmap numbers sets.
From Stdlib Require Export ZArith Lia.

(** ** Scopes and conventions *)

Declare Scope kernel_scope.
Delimit Scope kernel_scope with kernel.
Open Scope Z_scope.

(** ** Machine integers

    A w-bit unsigned integer of the source is a [Z]; the wrap-around that C
    performs on conversion and arithmetic is written out with these. *)

Definition u8 (x : Z) : Z := x mod 2 ^ 8.
Definition u16 (x : Z) : Z := x mod 2 ^ 16.
Definition u32 (x : Z) : Z := x mod 2 ^ 32.
Definition u64 (x : Z) : Z := x mod 2 ^ 64.

(** ** Status codes (include/kernel/errno.h, include/kernel/types.h) *)

Definition KERNEL_OK : Z := 0.
Definition EPERM : Z := 1.
Definition ENOENT : Z := 2.
Definition ESRCH : Z := 3.
Definition EAGAIN : Z := 11.
Definition ENOMEM : Z := 12.
Definition EACCES : Z := 13.
Definition EFAULT : Z := 14.
Definition EBUSY : Z := 16.
Definition EEXIST : Z := 17.
Definition EINVAL : Z := 22.
Definition ENOSYS : Z := 38.
Definition ETIMEDOUT : Z := 116.

(** The page size of include/kernel/page_table.h. *)
Definition PAGE_SIZE_4K : Z := 4096.

(** No kernel object (include/kernel/types.h). *)
Definition KOBJ_ID_INVALID : Z := 0.
Definition CONFIG_MAX_CPUS : Z := 8.

(** ** Undefined behaviour

    A computation that would dereference an invalid pointer or index an array
    out of range is [None]; [x ← c; k] is the bind of that monad (stdpp's
    [option]).  A theorem whose conclusion is [f s = Some s'] therefore also
    says that the call is memory safe. *)

(** Array access with the [uint32_t] indices of the source. *)
Definition zlookup {A} (l : list A) (i : Z) : option A :=
  if 0 <=? i then l !! Z.to_nat i else None.

Definition zupdate {A} (l : list A) (i : Z) (x : A) : option (list A) :=
  match zlookup l i with
  | Some _ => Some (<[Z.to_nat i := x]> l)
  | None => None
  end.

Notation "l .[ i ]" := (zlookup l i) (at level 2, left associativity, format "l .[ i ]") : kernel_scope.
Open Scope kernel_scope.

(** [memcpy(dst + doff, src + soff, n)] within two byte arrays; [None] when the
    copied range leaves either array. *)
Definition memcpy (dst : list Z) (doff : Z) (src : list Z) (soff n : Z) : option (list Z) :=
  if (0 <=? n) && (0 <=? doff) && (doff + n <=? Z.of_nat (length dst))
     && (0 <=? soff) && (soff + n <=? Z.of_nat (length src))
  then Some (take (Z.to_nat doff) dst ++ take (Z.to_nat n) (drop (Z.to_nat soff) src)
             ++ drop (Z.to_nat (doff + n)) dst)
  else None.

(** [memset(dst + off, v, n)] within an array. *)
Definition memset {A} (dst : list A) (off : Z) (v : A) (n : Z) : option (list A) :=
  if (0 <=? n) && (0 <=? off) && (off + n <=? Z.of_nat (length dst))
  then Some (take (Z.to_nat off) dst ++ replicate (Z.to_nat n) v
             ++ drop (Z.to_nat (off + n)) dst)
  else None.

(** ** Tactics *)

(** Case analysis on the conditions of translated code. *)
Ltac case_if :=
  match goal with
  | |- context [if ?b then _ else _] => destruct b eqn:?
  | H : context [if ?b then _ else _] |- _ => destruct b eqn:?
  end.

Ltac zify_bool :=
  repeat match goal with
  | H : (_ <? _) = true |- _ => apply Z.ltb_lt in H
  | H : (_ <? _) = false |- _ => apply Z.ltb_ge in H
  | H : (_ <=? _) = true |- _ => apply Z.leb_le in H
  | H : (_ <=? _) = false |- _ => apply Z.leb_gt in H
  | H : (_ >? _) = true |- _ => rewrite Z.gtb_ltb in H; apply Z.ltb_lt in H
  | H : (_ >? _) = false |- _ => rewrite Z.gtb_ltb in H; apply Z.ltb_ge in H
  | H : (_ >=? _) = true |- _ => rewrite Z.geb_leb in H; apply Z.leb_le in H
  | H : (_ >=? _) = false |- _ => rewrite Z.geb_leb in H; apply Z.leb_gt in H
  | H : (_ =? _) = true |- _ => apply Z.eqb_eq in H
  | H : (_ =? _) = false |- _ => apply Z.eqb_neq in H
  | H : negb _ = true |- _ => apply negb_true_iff in H
  | H : negb _ = false |- _ => apply negb_false_iff in H
  | H : _ && _ = true |- _ => apply andb_true_iff in H; destruct H
  | H : _ || _ = false |- _ => apply orb_false_iff in H; destruct H
  | H : bool_decide _ = true |- _ => apply bool_decide_eq_true_1 in H
  | H : bool_decide _ = false |- _ => apply bool_decide_eq_false_1 in H
  end.

(** Inversion of a successful run of monadic code. *)
Ltac inv_run H :=
  repeat first
    [ progress simplify_eq
    | progress cbn in H
    | match type of H with
      | mbind _ _ = Some _ => apply bind_Some in H; destruct H as (? & ? & H)
      | (if ?b then _ else _) = Some _ => destruct b eqn:?
      | match ?x with _ => _ end = Some _ => destruct x eqn:?
      end ].

Create HintDb kernel discriminated.

(** One step of monadic code, without unfolding what follows. *)
Lemma some_bind {A B} (f : A → option B) (x : A) : (Some x ≫= f) = f x.
Proof. done. Qed.

(** ** Machine-integer lemmas *)

Lemma u8_range x : 0 <= u8 x < 2 ^ 8.
Proof. apply Z.mod_pos_bound. lia. Qed.
Lemma u16_range x : 0 <= u16 x < 2 ^ 16.
Proof. apply Z.mod_pos_bound. lia. Qed.
Lemma u32_range x : 0 <= u32 x < 2 ^ 32.
Proof. apply Z.mod_pos_bound. lia. Qed.
Lemma u64_range x : 0 <= u64 x < 2 ^ 64.
Proof. apply Z.mod_pos_bound. lia. Qed.

Lemma u8_small x : 0 <= x < 2 ^ 8 → u8 x = x.
Proof. apply Z.mod_small. Qed.
Lemma u16_small x : 0 <= x < 2 ^ 16 → u16 x = x.
Proof. apply Z.mod_small. Qed.
Lemma u32_small x : 0 <= x < 2 ^ 32 → u32 x = x.
Proof. apply Z.mod_small. Qed.
Lemma u64_small x : 0 <= x < 2 ^ 64 → u64 x = x.
Proof. apply Z.mod_small. Qed.

#[export] Hint Resolve u8_range u16_range u32_range u64_range : kernel.
#[export] Hint Resolve u8_small u16_small u32_small u64_small : kernel.

(** ** Array lemmas *)

Section zarray.
Context {A : Type}.
Implicit Types (l : list A) (i j : Z) (x : A).

Lemma zlookup_Some_lt l i x : zlookup l i = Some x → 0 <= i < Z.of_nat (length l).
Proof.
  unfold zlookup. destruct (Z.leb_spec 0 i); [|done].
  intros ?%lookup_lt_Some. lia.
Qed.

Lemma zlookup_is_Some l i : is_Some (zlookup l i) ↔ 0 <= i < Z.of_nat (length l).
Proof.
  split; [intros [x ?%zlookup_Some_lt]; done|].
  intros Hi. unfold zlookup. destruct (Z.leb_spec 0 i); [|lia].
  apply lookup_lt_is_Some. lia.
Qed.

Lemma zlookup_nat l (n : nat) : zlookup l (Z.of_nat n) = l !! n.
Proof. unfold zlookup. destruct (Z.leb_spec 0 (Z.of_nat n)); [|lia]. by rewrite Nat2Z.id. Qed.

Lemma zupdate_Some l i x l' :
  zupdate l i x = Some l' ↔ 0 <= i < Z.of_nat (length l) ∧ l' = <[Z.to_nat i := x]> l.
Proof.
  unfold zupdate. destruct (zlookup l i) eqn:E.
  - apply zlookup_Some_lt in E. naive_solver.
  - split; [done|]. intros [Hi _]. apply zlookup_is_Some in Hi as [? Hi]. congruence.
Qed.

Lemma zupdate_total l i x :
  0 <= i < Z.of_nat (length l) → zupdate l i x = Some (<[Z.to_nat i := x]> l).
Proof. intros. by apply zupdate_Some. Qed.

Lemma zlookup_insert_eq l i x :
  0 <= i < Z.of_nat (length l) → zlookup (<[Z.to_nat i := x]> l) i = Some x.
Proof.
  intros. unfold zlookup. destruct (Z.leb_spec 0 i); [|lia].
  apply list_lookup_insert_eq. lia.
Qed.

Lemma zlookup_insert_ne l i j x :
  0 <= i → i ≠ j → zlookup (<[Z.to_nat i := x]> l) j = zlookup l j.
Proof.
  intros. unfold zlookup. destruct (Z.leb_spec 0 j); [|done].
  apply list_lookup_insert_ne. lia.
Qed.

Lemma zupdate_length l i x l' : zupdate l i x = Some l' → length l' = length l.
Proof. intros [_ ->]%zupdate_Some. apply length_insert. Qed.
End zarray.

Lemma bind_ext_in (xs : list Z) (f g : Z → list Z) : (∀ x, x ∈ xs → g x = f x) → xs ≫= g = xs ≫= f.
Proof.
  intros He. induction xs as [|x xs IH]; [done|]. rewrite !bind_cons, IH, He; [done|set_solver|].
  intros y Hy. apply He. set_solver.
Qed.

(** ** Copying *)

Lemma memcpy_Some dst doff src soff n :
  0 <= n → 0 <= doff → doff + n <= Z.of_nat (length dst) →
  0 <= soff → soff + n <= Z.of_nat (length src) →
  ∃ r, memcpy dst doff src soff n = Some r ∧ length r = length dst ∧
       ∀ k : nat, r !! k = if decide (doff <= Z.of_nat k < doff + n)
                           then src !! Z.to_nat (soff + (Z.of_nat k - doff)) else dst !! k.
Proof.
  intros H1 H2 H3 H4 H5. unfold memcpy.
  replace (0 <=? n) with true by lia. replace (0 <=? doff) with true by lia.
  replace (doff + n <=? _) with true by lia. replace (0 <=? soff) with true by lia.
  replace (soff + n <=? _) with true by lia. simpl.
  eexists. split_and!; [done| |].
  - rewrite !length_app, !length_take, !length_drop. lia.
  - intros k. rewrite lookup_app. destruct (decide (k < Z.to_nat doff)%nat) as [Hk|Hk].
    + rewrite lookup_take_lt by done.
      destruct (dst !! k) eqn:E; [|apply lookup_ge_None in E; lia].
      rewrite decide_False by lia. done.
    + rewrite lookup_take_ge by lia. rewrite length_take, Nat.min_l by lia.
      rewrite lookup_app. destruct (decide (k < Z.to_nat (doff + n))%nat) as [Hk'|Hk'].
      * rewrite lookup_take_lt, lookup_drop by lia. rewrite decide_True by lia.
        replace (Z.to_nat soff + (k - Z.to_nat doff))%nat
          with (Z.to_nat (soff + (Z.of_nat k - doff))) by lia.
        destruct (src !! _) eqn:E; [done|]. apply lookup_ge_None in E. lia.
      * rewrite lookup_take_ge by lia. rewrite decide_False by lia.
        rewrite length_take, length_drop, lookup_drop. f_equal. lia.
Qed.

Lemma memset_Some {A} (dst : list A) off v n :
  0 <= n → 0 <= off → off + n <= Z.of_nat (length dst) →
  ∃ r, memset dst off v n = Some r ∧ length r = length dst ∧
       ∀ k : nat, r !! k = if decide (off <= Z.of_nat k < off + n) then Some v else dst !! k.
Proof.
  intros H1 H2 H3. unfold memset.
  replace (0 <=? n) with true by lia. replace (0 <=? off) with true by lia.
  replace (off + n <=? _) with true by lia. simpl.
  eexists. split_and!; [done| |].
  - rewrite !length_app, length_take, length_drop, length_replicate. lia.
  - intros k. destruct (decide (k < Z.to_nat off)%nat).
    + rewrite lookup_app_l, lookup_take_lt by (rewrite ?length_take; lia).
      by rewrite decide_False by lia.
    + rewrite lookup_app_r, length_take by (rewrite ?length_take; lia).
      destruct (decide (Z.of_nat k < off + n)).
      * rewrite lookup_app_l, lookup_replicate_2 by (rewrite ?length_replicate; lia).
        by rewrite decide_True by lia.
      * rewrite lookup_app_r, lookup_drop, length_replicate by (rewrite ?length_replicate; lia).
        rewrite decide_False by lia. f_equal. lia.
Qed.

(** ** 64-bit words, bit by bit *)

Lemma u64_bit n : 0 <= n < 64 → u64 (Z.shiftl 1 n) = 2 ^ n.
Proof.
  intros. rewrite Z.shiftl_1_l. apply u64_small. split; [apply Z.pow_nonneg; lia|].
  apply Z.pow_lt_mono_r; lia.
Qed.

Lemma land_bit_test w n : 0 <= n < 64 → negb (Z.land w (u64 (Z.shiftl 1 n)) =? 0) = Z.testbit w n.
Proof.
  intros Hn. rewrite u64_bit by done. destruct (Z.testbit w n) eqn:E.
  - apply negb_true_iff, Z.eqb_neq. intros H0.
    apply (f_equal (λ x, Z.testbit x n)) in H0.
    rewrite Z.land_spec, E, Z.pow2_bits_true, Z.bits_0 in H0 by lia. done.
  - apply negb_false_iff, Z.eqb_eq. apply Z.bits_inj_0. intros m.
    rewrite Z.land_spec. destruct (decide (m = n)) as [->|]; [by rewrite E|].
    rewrite Z.pow2_bits_false by lia. apply andb_false_r.
Qed.

Lemma testbit_set_word w n m :
  0 <= n < 64 → 0 <= m < 64 →
  Z.testbit (Z.lor w (u64 (Z.shiftl 1 n))) m = (m =? n) || Z.testbit w m.
Proof.
  intros Hn Hm. rewrite u64_bit, Z.lor_spec by done.
  rewrite Z.pow2_bits_eqb, Z.eqb_sym by lia. apply orb_comm.
Qed.

Lemma testbit_u64 x m : 0 <= m < 64 → Z.testbit (u64 x) m = Z.testbit x m.
Proof. intros. unfold u64. apply Z.mod_pow2_bits_low. lia. Qed.

Lemma testbit_clear_word w n m :
  0 <= n < 64 → 0 <= m < 64 →
  Z.testbit (Z.land w (u64 (Z.lnot (u64 (Z.shiftl 1 n))))) m = negb (m =? n) && Z.testbit w m.
Proof.
  intros Hn Hm. rewrite Z.land_spec, testbit_u64, Z.lnot_spec by lia.
  rewrite u64_bit, Z.pow2_bits_eqb, Z.eqb_sym by lia. apply andb_comm.
Qed.

Lemma word_bound_bits w : 0 <= w → (∀ m, 64 <= m → Z.testbit w m = false) → w < 2 ^ 64.
Proof.
  intros H0 Hb. destruct (decide (w = 0)) as [->|]; [lia|].
  destruct (Z.lt_ge_cases w (2 ^ 64)) as [|Hge]; [done|].
  pose proof (Z.log2_le_pow2 w 64) as H1. 
  assert (64 <= Z.log2 w) as H2 by (apply H1; lia).
  specialize (Hb (Z.log2 w) H2). rewrite Z.bit_log2 in Hb by lia. done.
Qed.

Lemma word_high_bits w m : 0 <= w < 2 ^ 64 → 64 <= m → Z.testbit w m = false.
Proof.
  intros Hw Hm. rewrite <-(Z.mod_small w (2 ^ 64)) by done.
  apply Z.mod_pow2_bits_high. lia.
Qed.

Lemma lor_word a b : 0 <= a < 2 ^ 64 → 0 <= b < 2 ^ 64 → 0 <= Z.lor a b < 2 ^ 64.
Proof.
  intros. assert (0 <= Z.lor a b) by (apply Z.lor_nonneg; lia). split; [done|].
  apply word_bound_bits; [done|]. intros m Hm. by rewrite Z.lor_spec, !word_high_bits.
Qed.

Lemma land_word a b : 0 <= a < 2 ^ 64 → 0 <= Z.land a b < 2 ^ 64.
Proof.
  intros. assert (0 <= Z.land a b) by (apply Z.land_nonneg; lia). split; [done|].
  apply word_bound_bits; [done|]. intros m Hm. by rewrite Z.land_spec, word_high_bits.
Qed.

(** ** Lists *)

Lemma fmap_filter_ext {A B} (f : A → B) (P : A → Prop) (Q : B → Prop)
    `{∀ x, Decision (P x), ∀ x, Decision (Q x)} (l : list A) :
  (∀ x, x ∈ l → P x ↔ Q (f x)) → f <$> filter P l = filter Q (f <$> l).
Proof.
  induction l as [|x l IH]; intros Hl; [done|]. rewrite fmap_cons, !filter_cons.
  assert (P x ↔ Q (f x)) as Hx by (apply Hl; left).
  rewrite <- IH by (intros; apply Hl; by right).
  repeat case_decide; naive_solver.
Qed.

Lemma filter_id {A} (P : A → Prop) `{∀ x, Decision (P x)} (l : list A) :
  (∀ x, x ∈ l → P x) → filter P l = l.
Proof.
  induction l as [|x l IH]; intros Hl; [done|].
  rewrite filter_cons_True by (apply Hl; left). f_equal. apply IH. intros y Hy. apply Hl. by right.
Qed.
