(* ===== verification/KList.v ===== *)
(** * Intrusive doubly linked lists (include/kernel/list.h)

    [struct list_head] nodes live in a store addressed by a countable type of
    node addresses [L]; a component that embeds nodes in its objects chooses
    [L] (one constructor per embedded node or list head).  NULL is [None].
    Every operation is the sequence of pointer assignments of the header, and
    is [None] when the C code would dereference NULL or an address that is not
    a node.

    The abstraction is [dll h hd xs]: the circular list headed at [hd] visits
    exactly the nodes [xs], in order, forwards and backwards.  Each operation
    is proved to refine the corresponding operation on the sequence [xs], to
    be memory safe, and to leave all other nodes alone. *)

From S2P Require Import Prelude.

Set Default Goal Selector "!".

Section klist.
Context {L : Type} `{!EqDecision L, !Countable L}.

(** ** The nodes and their store *)

Record list_head := LH { next : option L; prev : option L }.

Implicit Types (h : gmap L list_head) (l hd : L) (p q : option L) (xs ys : list L).

(** [p->next] and [p->prev] *)
Definition get_next h p : option (option L) := l ← p; n ← h !! l; Some (next n).
Definition get_prev h p : option (option L) := l ← p; n ← h !! l; Some (prev n).

(** [p->next = v] and [p->prev = v] *)
Definition set_next p v h : option (gmap L list_head) :=
  l ← p; n ← h !! l; Some (<[l := LH v (prev n)]> h).
Definition set_prev p v h : option (gmap L list_head) :=
  l ← p; n ← h !! l; Some (<[l := LH (next n) v]> h).

(** ** The operations of list.h *)

Definition INIT_LIST_HEAD p h : option (gmap L list_head) :=
  match p with
  | None => Some h
  | Some _ => h ← set_next p p h; set_prev p p h
  end.

Definition __list_add (new_node prv nxt : option L) h : option (gmap L list_head) :=
  match new_node, prv, nxt with
  | Some _, Some _, Some _ =>
      h ← set_prev nxt new_node h;
      h ← set_next new_node nxt h;
      h ← set_prev new_node prv h;
      set_next prv new_node h
  | _, _, _ => Some h
  end.

Definition list_add (new_node head : option L) h : option (gmap L list_head) :=
  match new_node, head with
  | Some _, Some _ => n ← get_next h head; __list_add new_node head n h
  | _, _ => Some h
  end.

Definition list_add_tail (new_node head : option L) h : option (gmap L list_head) :=
  match new_node, head with
  | Some _, Some _ => p ← get_prev h head; __list_add new_node p head h
  | _, _ => Some h
  end.

Definition __list_del (prv nxt : option L) h : option (gmap L list_head) :=
  match prv, nxt with
  | Some _, Some _ => h ← set_prev nxt prv h; set_next prv nxt h
  | _, _ => Some h
  end.

Definition list_del (entry : option L) h : option (gmap L list_head) :=
  match entry with
  | None => Some h
  | Some _ =>
      p ← get_prev h entry; n ← get_next h entry;
      h ← __list_del p n h;
      h ← set_next entry None h;
      set_prev entry None h
  end.

Definition list_del_init (entry : option L) h : option (gmap L list_head) :=
  match entry with
  | None => Some h
  | Some _ =>
      p ← get_prev h entry; n ← get_next h entry;
      h ← __list_del p n h;
      INIT_LIST_HEAD entry h
  end.

Definition list_empty (head : option L) h : option bool :=
  match head with
  | None => Some true
  | Some _ => n ← get_next h head; Some (bool_decide (n = head))
  end.

Definition list_is_first (entry head : option L) h : option bool :=
  match entry, head with
  | Some _, Some _ => n ← get_next h head; Some (bool_decide (n = entry))
  | _, _ => Some false
  end.

Definition list_is_last (entry head : option L) h : option bool :=
  match entry, head with
  | Some _, Some _ => p ← get_prev h head; Some (bool_decide (p = entry))
  | _, _ => Some false
  end.

Definition list_splice (lst head : option L) h : option (gmap L list_head) :=
  match lst, head with
  | Some _, Some _ =>
      e ← list_empty lst h;
      if (e : bool) then Some h else
        first ← get_next h lst;
        last ← get_prev h lst;
        h ← set_prev first head h;
        n ← get_next h head;
        h ← set_prev n last h;
        n ← get_next h head;
        h ← set_next last n h;
        h ← set_next head first h;
        INIT_LIST_HEAD lst h
  | _, _ => Some h
  end.

(** The loop [for (pos = head->next; pos != head; pos = pos->next)]: the nodes
    it visits, in order.  [None] when [fuel] runs out or a pointer is bad. *)
Fixpoint list_visit (fuel : nat) (pos head : option L) h : option (list L) :=
  match fuel with
  | O => None
  | S fuel =>
      if bool_decide (pos = head) then Some []
      else
        l ← pos;
        n ← get_next h pos;
        rest ← list_visit fuel n head h;
        Some (l :: rest)
  end.

Definition list_for_each (fuel : nat) (head : option L) h : option (list L) :=
  n ← get_next h head; list_visit fuel n head h.

Definition list_count_nodes (fuel : nat) (head : option L) h : option Z :=
  match head with
  | None => Some 0
  | Some _ => xs ← list_for_each fuel head h; Some (u32 (Z.of_nat (length xs)))
  end.

#[local] Arguments set_next : simpl never.
#[local] Arguments set_prev : simpl never.
#[local] Arguments get_next : simpl never.
#[local] Arguments get_prev : simpl never.

(** ** Abstraction: circular lists as sequences *)

Definition nxt h l : option L := h !! l ≫= next.
Definition prv h l : option L := h !! l ≫= prev.

Definition link h (a b : L) : Prop := nxt h a = Some b ∧ prv h b = Some a.

(** A chain of links from [a] through [xs] to [b]. *)
Fixpoint lseg h (a : L) xs (b : L) : Prop :=
  match xs with
  | [] => link h a b
  | x :: xs => link h a x ∧ lseg h x xs b
  end.

Definition dll h hd xs : Prop := NoDup (hd :: xs) ∧ lseg h hd xs hd.

(** The cells outside [xs] are untouched and no cell appears or disappears. *)
Definition same_except xs h h' : Prop :=
  dom h' = dom h ∧ ∀ l, l ∉ xs → h' !! l = h !! l.

(** *** Segments *)

Lemma lseg_app h a xs x ys b :
  lseg h a (xs ++ x :: ys) b ↔ lseg h a xs x ∧ lseg h x ys b.
Proof.
  revert a. induction xs as [|y xs IH]; intros a; simpl; [done|].
  rewrite IH. tauto.
Qed.

Lemma lseg_snoc h a xs x b : lseg h a (xs ++ [x]) b ↔ lseg h a xs x ∧ link h x b.
Proof. apply lseg_app. Qed.

Lemma lseg_ext h h' a xs b :
  lseg h a xs b →
  (∀ l, l ∈ a :: xs → nxt h' l = nxt h l) →
  (∀ l, l ∈ b :: xs → prv h' l = prv h l) →
  lseg h' a xs b.
Proof.
  revert a. induction xs as [|x xs IH]; intros a; simpl.
  - intros [Hn Hp] En Ep. split; [rewrite En|rewrite Ep]; set_solver.
  - intros [[Hn Hp] Hseg] En Ep. split.
    + split; [rewrite En|rewrite Ep]; set_solver.
    + apply IH; [done|set_solver..].
Qed.

Lemma nxt_is_Some h a b : nxt h a = Some b → a ∈ dom h.
Proof. unfold nxt. intros (n & ? & _)%bind_Some. by eapply elem_of_dom_2. Qed.

Lemma prv_is_Some h a b : prv h a = Some b → a ∈ dom h.
Proof. unfold prv. intros (n & ? & _)%bind_Some. by eapply elem_of_dom_2. Qed.

Lemma lseg_dom h a xs b x : lseg h a xs b → x ∈ a :: b :: xs → x ∈ dom h.
Proof.
  revert a. induction xs as [|y xs IH]; intros a; simpl.
  - intros [Hn Hp]. apply nxt_is_Some in Hn. apply prv_is_Some in Hp. set_solver.
  - intros [[Hn Hp] Hseg] Hx.
    destruct (decide (x = a)) as [->|]; [by eapply nxt_is_Some|].
    apply (IH y Hseg). set_solver.
Qed.

(** First and last node of a segment. *)
Lemma lseg_first h a xs b : lseg h a xs b → nxt h a = Some (default b (head xs)).
Proof. destruct xs; simpl; [intros [? _]|intros [[? _] _]]; done. Qed.

Lemma lseg_last h a xs b : lseg h a xs b → prv h b = Some (default a (last xs)).
Proof.
  destruct xs as [|x xs _] using rev_ind; [intros [_ ?]; done|].
  rewrite lseg_snoc, last_snoc. intros [_ [_ ?]]. done.
Qed.

(** *** Reading and writing pointers *)

Lemma get_next_nxt h l x : nxt h l = Some x → get_next h (Some l) = Some (Some x).
Proof. unfold nxt, get_next. simpl. intros (n & -> & E)%bind_Some. simpl. by rewrite E. Qed.

Lemma get_prev_prv h l x : prv h l = Some x → get_prev h (Some l) = Some (Some x).
Proof. unfold prv, get_prev. simpl. intros (n & -> & E)%bind_Some. simpl. by rewrite E. Qed.

Lemma set_next_spec l v h :
  l ∈ dom h →
  ∃ h', set_next (Some l) v h = Some h' ∧ dom h' = dom h ∧
        (∀ k, k ≠ l → h' !! k = h !! k) ∧
        (∀ k, nxt h' k = if decide (k = l) then v else nxt h k) ∧
        (∀ k, prv h' k = prv h k).
Proof.
  intros [n Hn]%elem_of_dom. unfold set_next. cbn. rewrite Hn. simpl.
  eexists. split; [done|]. split; [|split; [|split]].
  - apply dom_insert_lookup_L. eauto.
  - intros k Hk. by apply lookup_insert_ne.
  - intros k. unfold nxt. rewrite lookup_insert. repeat case_decide; by subst.
  - intros k. unfold prv. rewrite lookup_insert. case_decide; [subst|done]. by rewrite Hn.
Qed.

Lemma set_prev_spec l v h :
  l ∈ dom h →
  ∃ h', set_prev (Some l) v h = Some h' ∧ dom h' = dom h ∧
        (∀ k, k ≠ l → h' !! k = h !! k) ∧
        (∀ k, prv h' k = if decide (k = l) then v else prv h k) ∧
        (∀ k, nxt h' k = nxt h k).
Proof.
  intros [n Hn]%elem_of_dom. unfold set_prev. cbn. rewrite Hn. simpl.
  eexists. split; [done|]. split; [|split; [|split]].
  - apply dom_insert_lookup_L. eauto.
  - intros k Hk. by apply lookup_insert_ne.
  - intros k. unfold prv. rewrite lookup_insert. repeat case_decide; by subst.
  - intros k. unfold nxt. rewrite lookup_insert. case_decide; [subst|done]. by rewrite Hn.
Qed.

(** *** Circular lists *)

Lemma dll_nil h hd : dll h hd [] ↔ link h hd hd.
Proof. unfold dll. split; [intros [_ ?]; done|]. split; [|done]. apply NoDup_singleton. Qed.

Lemma dll_NoDup h hd xs : dll h hd xs → NoDup xs ∧ hd ∉ xs.
Proof. intros [[??]%NoDup_cons _]. done. Qed.

Lemma dll_dom h hd xs x : dll h hd xs → x ∈ hd :: xs → x ∈ dom h.
Proof. intros [_ Hs] Hx. apply (lseg_dom _ _ _ _ _ Hs). set_solver. Qed.

Lemma dll_first h hd xs : dll h hd xs → nxt h hd = Some (default hd (head xs)).
Proof. intros [_ Hs]. by apply lseg_first in Hs. Qed.

Lemma dll_last h hd xs : dll h hd xs → prv h hd = Some (default hd (last xs)).
Proof. intros [_ Hs]. by apply lseg_last in Hs. Qed.

(** A list depends on its own cells only. *)
Lemma dll_frame ws h h' hd xs :
  dll h hd xs → same_except ws h h' → (∀ x, x ∈ hd :: xs → x ∉ ws) → dll h' hd xs.
Proof.
  intros [Hnd Hs] [_ Hsame] Hdisj. split; [done|].
  eapply lseg_ext; [done|..]; intros l Hl; unfold nxt, prv; by rewrite Hsame by eauto.
Qed.

Lemma same_except_trans ws1 ws2 h1 h2 h3 :
  same_except ws1 h1 h2 → same_except ws2 h2 h3 → same_except (ws1 ++ ws2) h1 h3.
Proof.
  intros [Hd1 H1] [Hd2 H2]. split; [congruence|].
  intros l Hl. rewrite H2, H1; set_solver.
Qed.

Lemma same_except_mono ws ws' h h' :
  same_except ws h h' → (∀ x, x ∈ ws → x ∈ ws') → same_except ws' h h'.
Proof. intros [Hd H] Hsub. split; [done|]. intros l Hl. apply H. set_solver. Qed.

Lemma same_except_refl ws h : same_except ws h h.
Proof. done. Qed.

(** Redirecting the last link of a segment. *)
Lemma lseg_retarget h h' a xs b c :
  NoDup (a :: xs) → lseg h a xs b →
  (∀ l, l ∈ a :: xs → l ≠ default a (last xs) → nxt h' l = nxt h l) →
  nxt h' (default a (last xs)) = Some c →
  (∀ l, l ∈ xs → prv h' l = prv h l) →
  prv h' c = Some (default a (last xs)) →
  lseg h' a xs c.
Proof.
  destruct xs as [|x xs _] using rev_ind; [by intros; split|].
  rewrite last_snoc, !lseg_snoc. simpl. intros Hnd [Hs _] Hn Hnx Hp Hpc.
  split; [|done]. eapply lseg_ext; [done| |set_solver].
  intros l Hl. apply Hn; [set_solver|]. intros ->.
  apply (NoDup_app (a :: xs) [x]) in Hnd. set_solver.
Qed.

(** Redirecting the first link of a segment. *)
Lemma lseg_resource h h' a xs b c :
  b ∉ xs → NoDup xs → lseg h a xs b →
  (∀ l, l ∈ xs → nxt h' l = nxt h l) →
  nxt h' c = Some (default b (head xs)) →
  (∀ l, l ∈ b :: xs → l ≠ default b (head xs) → prv h' l = prv h l) →
  prv h' (default b (head xs)) = Some c →
  lseg h' c xs b.
Proof.
  destruct xs as [|x xs]; [by intros; split|]. simpl.
  intros Hb [Hx Hnd]%NoDup_cons [_ Hs] Hn Hc Hp Hpx. split; [done|].
  eapply lseg_ext; [done|set_solver|]. intros l Hl. apply Hp; set_solver.
Qed.

Lemma lseg_app_inv h a xs ys b :
  lseg h a (xs ++ ys) b →
  lseg h a xs (default b (head ys)) ∧ lseg h (default a (last xs)) ys b.
Proof.
  destruct xs as [|x xs _] using rev_ind.
  - simpl. intros Hs. split; [|done]. apply lseg_first in Hs as Hf.
    destruct ys; simpl in *; [done|]. by destruct Hs.
  - rewrite last_snoc. intros Hs. rewrite <-app_assoc in Hs. simpl in Hs.
    apply lseg_app in Hs as [Hs1 Hs2]. split; [|done].
    apply lseg_snoc. split; [done|]. destruct ys; simpl in *; [done|by destruct Hs2].
Qed.

Lemma default_last_in hd xs : default hd (last xs) ∈ hd :: xs.
Proof.
  destruct xs as [|x xs _] using rev_ind; [set_solver|]. rewrite last_snoc. set_solver.
Qed.

Lemma default_head_in hd xs : default hd (head xs) ∈ hd :: xs.
Proof. destruct xs; set_solver. Qed.

(** *** The net effect of the pointer assignments *)

Lemma __list_add_effect (new p n : L) h :
  new ∈ dom h → p ∈ dom h → n ∈ dom h →
  ∃ h', __list_add (Some new) (Some p) (Some n) h = Some h' ∧
        same_except [new; p; n] h h' ∧
        (∀ k, nxt h' k = if decide (k = p) then Some new
                         else if decide (k = new) then Some n else nxt h k) ∧
        (∀ k, prv h' k = if decide (k = new) then Some p
                         else if decide (k = n) then Some new else prv h k).
Proof.
  intros Hnew Hp Hn. simpl.
  destruct (set_prev_spec n (Some new) h) as (h1 & -> & D1 & F1 & P1 & N1); [done|]. simpl.
  destruct (set_next_spec new (Some n) h1) as (h2 & -> & D2 & F2 & N2 & P2); [congruence|]. simpl.
  destruct (set_prev_spec new (Some p) h2) as (h3 & -> & D3 & F3 & P3 & N3); [congruence|]. simpl.
  destruct (set_next_spec p (Some new) h3) as (h4 & -> & D4 & F4 & N4 & P4); [congruence|].
  exists h4. split_and!; [done|split; [congruence|]| |].
  - intros k Hk. rewrite F4, F3, F2, F1; set_solver.
  - intros k. rewrite N4, N3, N2, N1. done.
  - intros k. rewrite P4, P3, P2, P1. done.
Qed.

Lemma __list_del_effect (p n : L) h :
  p ∈ dom h → n ∈ dom h →
  ∃ h', __list_del (Some p) (Some n) h = Some h' ∧
        same_except [p; n] h h' ∧
        (∀ k, nxt h' k = if decide (k = p) then Some n else nxt h k) ∧
        (∀ k, prv h' k = if decide (k = n) then Some p else prv h k).
Proof.
  intros Hp Hn. simpl.
  destruct (set_prev_spec n (Some p) h) as (h1 & -> & D1 & F1 & P1 & N1); [done|]. simpl.
  destruct (set_next_spec p (Some n) h1) as (h2 & -> & D2 & F2 & N2 & P2); [congruence|].
  exists h2. split_and!; [done|split; [congruence|]| |].
  - intros k Hk. rewrite F2, F1; set_solver.
  - intros k. by rewrite N2, N1.
  - intros k. by rewrite P2, P1.
Qed.

Lemma INIT_LIST_HEAD_effect l h :
  l ∈ dom h →
  ∃ h', INIT_LIST_HEAD (Some l) h = Some h' ∧ same_except [l] h h' ∧ h' !! l = Some (LH (Some l) (Some l)).
Proof.
  intros [n Hn]%elem_of_dom. unfold INIT_LIST_HEAD, set_next, set_prev. simpl.
  rewrite Hn. simpl. rewrite lookup_insert_eq. simpl. rewrite insert_insert_eq.
  eexists. split_and!; [done|split|].
  - apply dom_insert_lookup_L. eauto.
  - intros k Hk. apply lookup_insert_ne. set_solver.
  - apply lookup_insert_eq.
Qed.

Lemma INIT_LIST_HEAD_spec l h :
  l ∈ dom h → ∃ h', INIT_LIST_HEAD (Some l) h = Some h' ∧ same_except [l] h h' ∧ dll h' l [].
Proof.
  intros (h' & E & F & Hl)%INIT_LIST_HEAD_effect. exists h'. split_and!; [done..|].
  apply dll_nil. unfold link, nxt, prv. by rewrite Hl.
Qed.

(** A node of [hd :: xs] that is not the default is in the list. *)
Lemma default_head_not_in hd xs ys :
  (∀ x, x ∈ xs → x ∉ ys) → hd ∉ xs → default hd (head ys) ∉ xs.
Proof. destruct ys; set_solver. Qed.

Lemma default_last_not_in hd xs ys :
  (∀ x, x ∈ xs → x ∉ ys) → hd ∉ ys → default hd (last xs) ∉ ys.
Proof.
  intros Hd Hhd. pose proof (default_last_in hd xs) as [->|]%elem_of_cons; [done|auto].
Qed.

(** *** Insertion *)

Lemma __list_add_spec h hd xs ys new :
  dll h hd (xs ++ ys) → new ∈ dom h → new ∉ hd :: xs ++ ys →
  ∃ h', __list_add (Some new) (Some (default hd (last xs)))
                   (Some (default hd (head ys))) h = Some h' ∧
        dll h' hd (xs ++ new :: ys) ∧ same_except (new :: hd :: xs ++ ys) h h'.
Proof.
  intros [Hnd Hs] Hdom Hnew.
  pose proof (default_last_in hd xs) as Hp. pose proof (default_head_in hd ys) as Hn.
  destruct (__list_add_effect new (default hd (last xs)) (default hd (head ys)) h)
    as (h' & -> & F & N & P); [done|eapply lseg_dom; [done|set_solver]..|].
  exists h'. split_and!; [done| |eapply same_except_mono; [done|set_solver]].
  apply lseg_app_inv in Hs as [Hs1 Hs2].
  apply NoDup_cons in Hnd as [Hhd Hnd]. apply NoDup_app in Hnd as (Hx & Hxy & Hy).
  assert (new ∉ xs ∧ new ∉ ys ∧ new ≠ hd ∧ hd ∉ xs ∧ hd ∉ ys) as (?&?&?&?&?) by set_solver.
  pose proof (default_head_not_in hd xs ys Hxy ltac:(done)).
  pose proof (default_last_not_in hd xs ys Hxy ltac:(done)).
  assert (new ≠ default hd (head ys)) by set_solver.
  assert (new ≠ default hd (last xs)) by set_solver.
  split.
  { apply NoDup_cons. split; [set_solver|]. apply NoDup_app. rewrite NoDup_cons. set_solver. }
  apply lseg_app. split.
  - eapply lseg_retarget; [|exact Hs1|..].
    + by apply NoDup_cons.
    + intros l Hl Hne. rewrite N, !decide_False; [done|set_solver|done].
    + by rewrite N, decide_True.
    + intros l Hl. rewrite P, !decide_False; [done|congruence..].
    + by rewrite P, decide_True.
  - eapply lseg_resource; [done|done|exact Hs2|..].
    + intros l Hl. rewrite N, !decide_False; [done|congruence..].
    + by rewrite N, decide_False, decide_True.
    + intros l Hl Hne. rewrite P, !decide_False; [done|done|set_solver].
    + by rewrite P, decide_False, decide_True.
Qed.

(** [list_add_tail] appends. *)
Lemma list_add_tail_spec h hd xs new :
  dll h hd xs → new ∈ dom h → new ∉ hd :: xs →
  ∃ h', list_add_tail (Some new) (Some hd) h = Some h' ∧
        dll h' hd (xs ++ [new]) ∧ same_except (new :: hd :: xs) h h'.
Proof.
  intros Hdll Hdom Hnew. unfold list_add_tail.
  rewrite (get_prev_prv _ _ _ (dll_last _ _ _ Hdll)). simpl mbind. cbn.
  pose proof (__list_add_spec h hd xs [] new) as H. rewrite app_nil_r in H. by apply H.
Qed.

(** [list_add] pushes in front. *)
Lemma list_add_head_spec h hd xs new :
  dll h hd xs → new ∈ dom h → new ∉ hd :: xs →
  ∃ h', list_add (Some new) (Some hd) h = Some h' ∧
        dll h' hd (new :: xs) ∧ same_except (new :: hd :: xs) h h'.
Proof.
  intros Hdll Hdom Hnew. unfold list_add.
  rewrite (get_next_nxt _ _ _ (dll_first _ _ _ Hdll)). cbn.
  apply (__list_add_spec h hd [] xs new Hdll Hdom Hnew).
Qed.

(** *** Removal *)

Lemma lseg_join h a xs ys b :
  lseg h a xs (default b (head ys)) → lseg h (default a (last xs)) ys b → lseg h a (xs ++ ys) b.
Proof.
  destruct xs as [|x xs _] using rev_ind; [done|].
  rewrite last_snoc, lseg_snoc, <-app_assoc. simpl. rewrite lseg_app. tauto.
Qed.

Lemma lseg_unlink h h' hd xs e ys :
  NoDup (hd :: xs ++ e :: ys) → lseg h hd (xs ++ e :: ys) hd →
  (∀ k, k ≠ e → nxt h' k = if decide (k = default hd (last xs))
                           then Some (default hd (head ys)) else nxt h k) →
  (∀ k, k ≠ e → prv h' k = if decide (k = default hd (head ys))
                           then Some (default hd (last xs)) else prv h k) →
  dll h' hd (xs ++ ys).
Proof.
  intros Hnd [Hs1 Hs2]%lseg_app N P.
  apply NoDup_cons in Hnd as [Hhd Hnd].
  apply NoDup_app in Hnd as (Hx & Hxy & [Hey Hy]%NoDup_cons).
  assert (e ∉ xs ∧ e ≠ hd ∧ hd ∉ xs ∧ hd ∉ ys) as (?&?&?&?) by set_solver.
  assert (∀ x, x ∈ xs → x ∉ ys) as Hxy' by set_solver.
  pose proof (default_head_not_in hd xs ys Hxy' ltac:(done)).
  pose proof (default_last_not_in hd xs ys Hxy' ltac:(done)).
  assert (e ≠ default hd (head ys)) by (pose proof (default_head_in hd ys); set_solver).
  assert (e ≠ default hd (last xs)) by (pose proof (default_last_in hd xs); set_solver).
  split; [apply NoDup_cons; split; [set_solver|]; apply NoDup_app; set_solver|].
  apply lseg_join.
  - eapply lseg_retarget; [|exact Hs1|..].
    + by apply NoDup_cons.
    + intros l Hl Hne. rewrite N, decide_False; [done|done|set_solver].
    + by rewrite N, decide_True.
    + intros l Hl. rewrite P, decide_False; [done|congruence..].
    + by rewrite P, decide_True.
  - eapply lseg_resource; [done|done|exact Hs2|..].
    + intros l Hl. rewrite N, decide_False; [done|congruence..].
    + by rewrite N, decide_True.
    + intros l Hl Hne. rewrite P, decide_False; [done|done|set_solver].
    + by rewrite P, decide_True.
Qed.

(** Reading the neighbours of a node of a list. *)
Lemma dll_neighbours h hd xs e ys :
  dll h hd (xs ++ e :: ys) →
  get_prev h (Some e) = Some (Some (default hd (last xs))) ∧
  get_next h (Some e) = Some (Some (default hd (head ys))).
Proof.
  intros [_ [Hs1 Hs2]%lseg_app]. split.
  - apply get_prev_prv, (lseg_last _ _ _ _ Hs1).
  - apply get_next_nxt, (lseg_first _ _ _ _ Hs2).
Qed.

(** The common part of [list_del] and [list_del_init]. *)
Lemma __list_del_spec h hd xs e ys :
  dll h hd (xs ++ e :: ys) →
  ∃ h', __list_del (Some (default hd (last xs))) (Some (default hd (head ys))) h = Some h' ∧
        same_except (hd :: xs ++ ys) h h' ∧ e ∈ dom h' ∧
        ∀ h'', same_except [e] h' h'' → dll h'' hd (xs ++ ys).
Proof.
  intros Hdll. pose proof Hdll as [Hnd Hs].
  destruct (__list_del_effect (default hd (last xs)) (default hd (head ys)) h)
    as (h' & -> & F & N & P).
  { eapply dll_dom; [done|]. pose proof (default_last_in hd xs). set_solver. }
  { eapply dll_dom; [done|]. pose proof (default_head_in hd ys). set_solver. }
  exists h'. split_and!; [done| | |].
  - eapply same_except_mono; [done|].
    pose proof (default_head_in hd ys). pose proof (default_last_in hd xs). set_solver.
  - destruct F as [-> _]. eapply dll_dom; [done|set_solver].
  - intros h'' [_ F'']. eapply lseg_unlink; [done..| |]; intros k Hk;
      unfold nxt, prv in *; rewrite F'' by set_solver; eauto.
Qed.

(** [list_del_init] removes the entry and leaves it self-linked. *)
Lemma list_del_init_spec h hd xs e ys :
  dll h hd (xs ++ e :: ys) →
  ∃ h', list_del_init (Some e) h = Some h' ∧ dll h' hd (xs ++ ys) ∧ dll h' e [] ∧
        same_except (e :: hd :: xs ++ ys) h h'.
Proof.
  intros Hdll. unfold list_del_init.
  destruct (dll_neighbours _ _ _ _ _ Hdll) as [-> ->]. cbn [mbind option_bind].
  destruct (__list_del_spec _ _ _ _ _ Hdll) as (h1 & -> & F1 & Hd & Hrest). cbn [mbind option_bind].
  destruct (INIT_LIST_HEAD_spec e h1 Hd) as (h2 & -> & F2 & He).
  exists h2. split_and!; [done|by apply Hrest|done|].
  eapply same_except_mono; [by eapply same_except_trans|set_solver].
Qed.

(** On a self-linked entry [list_del_init] does nothing. *)
Lemma list_del_init_self h e : dll h e [] → list_del_init (Some e) h = Some h.
Proof.
  intros [Hn Hp]%dll_nil. unfold list_del_init.
  rewrite (get_prev_prv _ _ _ Hp), (get_next_nxt _ _ _ Hn). cbn.
  unfold nxt, prv in *. apply bind_Some in Hn as ([a b] & He & Hn).
  rewrite He in Hp. cbn in *. simplify_eq.
  unfold set_next, set_prev. cbn.
  repeat (rewrite ?He, ?lookup_insert_eq; cbn). rewrite !insert_insert_eq.
  f_equal. by apply insert_id.
Qed.

(** [list_del] removes the entry and poisons its pointers with NULL. *)
Lemma list_del_spec h hd xs e ys :
  dll h hd (xs ++ e :: ys) →
  ∃ h', list_del (Some e) h = Some h' ∧ dll h' hd (xs ++ ys) ∧
        h' !! e = Some (LH None None) ∧ same_except (e :: hd :: xs ++ ys) h h'.
Proof.
  intros Hdll. unfold list_del.
  destruct (dll_neighbours _ _ _ _ _ Hdll) as [-> ->]. cbn [mbind option_bind].
  destruct (__list_del_spec _ _ _ _ _ Hdll) as (h1 & -> & F1 & Hd & Hrest). cbn [mbind option_bind].
  apply elem_of_dom in Hd as [n He]. unfold set_next, set_prev. cbn. rewrite He. cbn.
  rewrite lookup_insert_eq. cbn. rewrite insert_insert_eq.
  assert (same_except [e] h1 (<[e := LH None None]> h1)) as F2.
  { split; [by apply dom_insert_lookup_L; eauto|]. intros l Hl. apply lookup_insert_ne. set_solver. }
  eexists. split_and!; [done|by apply Hrest|by apply lookup_insert_eq|].
  eapply same_except_mono; [by eapply same_except_trans|set_solver].
Qed.

(** *** Queries and traversal *)

Lemma list_empty_spec h hd xs : dll h hd xs → list_empty (Some hd) h = Some (bool_decide (xs = [])).
Proof.
  intros Hdll. unfold list_empty. rewrite (get_next_nxt _ _ _ (dll_first _ _ _ Hdll)). cbn.
  f_equal. apply bool_decide_ext. apply dll_NoDup in Hdll as [_ Hhd].
  destruct xs as [|x xs]; [done|]. cbn. split; [intros; simplify_eq; set_solver|done].
Qed.

Lemma list_is_first_spec h hd xs e :
  dll h hd xs → e ≠ hd →
  list_is_first (Some e) (Some hd) h = Some (bool_decide (head xs = Some e)).
Proof.
  intros Hdll Hne. unfold list_is_first. rewrite (get_next_nxt _ _ _ (dll_first _ _ _ Hdll)). cbn.
  f_equal. apply bool_decide_ext. destruct xs; cbn; naive_solver.
Qed.

Lemma list_is_last_spec h hd xs e :
  dll h hd xs → e ≠ hd →
  list_is_last (Some e) (Some hd) h = Some (bool_decide (last xs = Some e)).
Proof.
  intros Hdll Hne. unfold list_is_last. rewrite (get_prev_prv _ _ _ (dll_last _ _ _ Hdll)). cbn.
  f_equal. apply bool_decide_ext. destruct (last xs); cbn; naive_solver.
Qed.

Lemma list_visit_spec h hd a xs fuel :
  lseg h a xs hd → hd ∉ xs → (length xs < fuel)%nat →
  list_visit fuel (nxt h a) (Some hd) h = Some xs.
Proof.
  revert a fuel. induction xs as [|x xs IH]; intros a fuel Hs Hhd Hf.
  - destruct fuel; [simpl in *; lia|]. destruct Hs as [-> _]. cbn. by rewrite bool_decide_eq_true_2.
  - destruct fuel; [simpl in *; lia|]. destruct Hs as [[-> _] Hs]. cbn.
    apply not_elem_of_cons in Hhd as [Hne Hhd].
    rewrite bool_decide_eq_false_2 by congruence.
    pose proof (lseg_first _ _ _ _ Hs) as Hfi.
    rewrite (get_next_nxt _ _ _ Hfi). cbn. rewrite <-Hfi, IH; [done..|simpl in *; lia].
Qed.

(** The traversal loops visit exactly the nodes of the list and terminate. *)
Lemma list_for_each_spec h hd xs fuel :
  dll h hd xs → (length xs < fuel)%nat → list_for_each fuel (Some hd) h = Some xs.
Proof.
  intros Hdll Hf. unfold list_for_each. pose proof (dll_first _ _ _ Hdll) as Hfi.
  rewrite (get_next_nxt _ _ _ Hfi). cbn. rewrite <-Hfi.
  apply dll_NoDup in Hdll as H. apply list_visit_spec; [apply Hdll|tauto|done].
Qed.

Lemma list_count_nodes_spec h hd xs fuel : dll h hd xs → (length xs < fuel)%nat →
  list_count_nodes fuel (Some hd) h = Some (u32 (Z.of_nat (length xs))).
Proof. intros Hd Hf. unfold list_count_nodes. by rewrite (list_for_each_spec _ _ xs). Qed.

(** *** Splicing *)

Lemma last_cons_default (a x : L) xs : default a (last (x :: xs)) = default x (last xs).
Proof.
  destruct xs as [|y xs]; [done|]. rewrite last_cons_cons.
  destruct (last (y :: xs)) eqn:E; [done|by apply last_None in E].
Qed.

Lemma list_splice_nil h lst hd : dll h lst [] → list_splice (Some lst) (Some hd) h = Some h.
Proof. intros Hdll. unfold list_splice. by rewrite (list_empty_spec _ _ _ Hdll). Qed.

Lemma list_splice_effect h lst hd (f e n : L) :
  nxt h lst = Some f → prv h lst = Some e → nxt h hd = Some n → lst ≠ f →
  f ∈ dom h → e ∈ dom h → n ∈ dom h →
  ∃ h1 h', list_splice (Some lst) (Some hd) h = Some h' ∧
        same_except [f; n; e; hd] h h1 ∧ same_except [lst] h1 h' ∧ dll h' lst [] ∧
        (∀ k, nxt h1 k = if decide (k = hd) then Some f
                         else if decide (k = e) then Some n else nxt h k) ∧
        (∀ k, prv h1 k = if decide (k = n) then Some e
                         else if decide (k = f) then Some hd else prv h k).
Proof.
  intros Hf He Hn Hne Df De Dn. unfold list_splice, list_empty.
  rewrite (get_next_nxt _ _ _ Hf), (get_prev_prv _ _ _ He). cbn [mbind option_bind].
  rewrite bool_decide_eq_false_2 by congruence.
  apply nxt_is_Some in Hf as Dlst. apply nxt_is_Some in Hn as Dhd.
  destruct (set_prev_spec f (Some hd) h) as (h1 & -> & D1 & F1 & P1 & N1); [done|].
  cbn [mbind option_bind]. rewrite (get_next_nxt h1 hd n) by congruence. cbn [mbind option_bind].
  destruct (set_prev_spec n (Some e) h1) as (h2 & -> & D2 & F2 & P2 & N2); [congruence|].
  cbn [mbind option_bind]. rewrite (get_next_nxt h2 hd n) by congruence. cbn [mbind option_bind].
  destruct (set_next_spec e (Some n) h2) as (h3 & -> & D3 & F3 & N3 & P3); [congruence|].
  cbn [mbind option_bind].
  destruct (set_next_spec hd (Some f) h3) as (h4 & -> & D4 & F4 & N4 & P4); [congruence|].
  cbn [mbind option_bind].
  destruct (INIT_LIST_HEAD_spec lst h4) as (h5 & -> & F5 & Hl); [congruence|].
  exists h4, h5. split_and!; [done|split; [congruence|]|done|done| |].
  - intros k Hk. rewrite F4, F3, F2, F1; set_solver.
  - intros k. by rewrite N4, N3, N2, N1.
  - intros k. by rewrite P4, P3, P2, P1.
Qed.

(** [list_splice] moves all nodes of [lst] to the front of [hd]. *)
Lemma list_splice_spec h lst hd x xs ys :
  dll h lst (x :: xs) → dll h hd ys → (∀ l, l ∈ lst :: x :: xs → l ∉ hd :: ys) →
  ∃ h', list_splice (Some lst) (Some hd) h = Some h' ∧
        dll h' hd ((x :: xs) ++ ys) ∧ dll h' lst [] ∧
        same_except (lst :: (x :: xs) ++ hd :: ys) h h'.
Proof.
  intros H1 H2 Hdisj.
  pose proof (dll_last _ _ _ H1) as He. rewrite last_cons_default in He.
  pose proof (default_last_in x xs) as Hein. pose proof (default_head_in hd ys) as Hnin.
  set (e := default x (last xs)) in *. set (n := default hd (head ys)) in *.
  destruct H1 as [Hnd1 Hs1] eqn:EH1. clear EH1. apply NoDup_cons in Hnd1 as [Hlst Hnd1].
  destruct (list_splice_effect h lst hd x e n) as (h1 & h' & -> & F1 & F2 & Hl & N & P).
  { by apply (dll_first _ _ _ H1). }
  { done. }
  { by apply (dll_first _ _ _ H2). }
  { set_solver. }
  { eapply dll_dom; [exact H1|set_solver]. }
  { eapply dll_dom; [exact H1|set_solver]. }
  { eapply dll_dom; [exact H2|set_solver]. }
  exists h'. split_and!; [done| |done|].
  2: { eapply same_except_mono; [by eapply same_except_trans|set_solver]. }
  assert (∀ l, l ∈ x :: xs → l ∉ ys ∧ l ≠ hd ∧ l ≠ n) as Hd by set_solver.
  apply (dll_frame [lst] h1); [|done|set_solver].
  destruct H2 as [[Hhd Hndy]%NoDup_cons Hs2]. destruct Hs1 as [_ Hs1]. split.
  { apply NoDup_cons. split; [set_solver|]. apply NoDup_app. set_solver. }
  apply (lseg_join h1 hd (x :: xs) ys hd); rewrite ?last_cons_default; fold n; fold e.
  - split.
    { split; [by rewrite N, decide_True|]. rewrite P, decide_False by set_solver. by rewrite decide_True. }
    eapply lseg_retarget; [done|exact Hs1|..]; fold e.
    + intros l Hl' Hne. rewrite N, !decide_False; [done|done|set_solver].
    + rewrite N, decide_False, decide_True; [done|done|set_solver].
    + intros l Hl'. rewrite P, !decide_False; [done|..].
      * apply NoDup_cons in Hnd1. intros ->. set_solver.
      * set_solver.
    + by rewrite P, decide_True.
  - eapply lseg_resource; [done|done|exact Hs2|..]; fold n.
    + intros l Hl'. rewrite N, !decide_False; [done|set_solver..].
    + rewrite N, decide_False, decide_True; [done|done|set_solver].
    + intros l Hl' Hne. rewrite P, !decide_False; [done|set_solver..].
    + by rewrite P, decide_True.
Qed.
End klist.

(** ** Safe traversal

    [for (pos = head->next, n = pos->next; pos != head; pos = n, n = pos->next)]
    with a body that may change the store and may [break].  [heap] projects the
    node store out of the state the body works on. *)

Section safe_loop.
Context {L : Type} `{!EqDecision L, !Countable L} {X : Type}.
Context (heap : X → gmap L (@list_head L)).

(** The body returns [true] for [break]. *)
Fixpoint safe_loop (fuel : nat) (pos n head : option L) (body : L → X → option (bool * X))
    (x : X) : option X :=
  match fuel with
  | O => None
  | S fuel =>
      if bool_decide (pos = head) then Some x
      else
        l ← pos;
        r ← body l x;
        if (r.1 : bool) then Some r.2
        else n' ← get_next (heap r.2) n; safe_loop fuel n n' head body r.2
  end.

Definition list_for_each_safe (fuel : nat) (head : option L) (body : L → X → option (bool * X))
    (x : X) : option X :=
  pos ← get_next (heap x) head; n ← get_next (heap x) pos; safe_loop fuel pos n head body x.

(** Loop rule: [P rest x] holds when [rest] is still to be visited.  It must
    keep the first node of [rest] linked to the second, and the head readable. *)
Lemma list_for_each_safe_spec (hd : L) (body : L → X → option (bool * X))
    (P : list L → X → Prop) (Q : X → Prop) xs x fuel :
  (∀ l rest y, P (l :: rest) y → l ≠ hd ∧ nxt (heap y) l = Some (default hd (head rest))) →
  (∀ y, P [] y → is_Some (get_next (heap y) (Some hd))) →
  (∀ l rest y, P (l :: rest) y →
     ∃ b y', body l y = Some (b, y') ∧ if (b : bool) then Q y' else P rest y') →
  (∀ y, P [] y → Q y) →
  P xs x → nxt (heap x) hd = Some (default hd (head xs)) → (length xs < fuel)%nat →
  ∃ x', list_for_each_safe fuel (Some hd) body x = Some x' ∧ Q x'.
Proof.
  intros Hl Hhd Hbody HQ HP Hfirst Hf. unfold list_for_each_safe.
  rewrite (get_next_nxt _ _ _ Hfirst). cbn [mbind option_bind].
  assert (∀ ys y, P ys y → is_Some (get_next (heap y) (Some (default hd (head ys))))) as Hnext.
  { intros [|l ys] y Hy; cbn [head from_option id]; [by apply Hhd|].
    destruct (Hl _ _ _ Hy) as [_ Hn]. erewrite get_next_nxt by exact Hn. done. }
  destruct (Hnext _ _ HP) as [n Hn]. rewrite Hn. cbn [mbind option_bind]. clear Hfirst.
  revert x n fuel HP Hn Hf. induction xs as [|l xs IH]; intros x n fuel HP Hn Hf;
    destruct fuel as [|fuel]; cbn [length] in Hf; try lia; cbn [head from_option id safe_loop] in *.
  { rewrite bool_decide_eq_true_2 by done. eauto. }
  destruct (Hl _ _ _ HP) as [Hne Hln]. rewrite bool_decide_eq_false_2 by congruence.
  cbn [mbind option_bind]. destruct (Hbody _ _ _ HP) as (b & y & -> & Hy).
  cbn [mbind option_bind fst snd]. destruct b; [eauto|].
  erewrite get_next_nxt in Hn by exact Hln. injection Hn as <-.
  destruct (Hnext _ _ Hy) as [n' Hn']. rewrite Hn'. cbn [mbind option_bind].
  apply IH; [done|done|lia].
Qed.
End safe_loop.

(** ** Families of disjoint lists

    A store of nodes partitioned into circular lists: [M !! hd = Some xs] when
    [hd] heads the list [xs].  A detached (self-linked) node is the head of an
    empty list, so insertion consumes an entry of [M] and removal creates one. *)

Section family.
Context {L : Type} `{!EqDecision L, !Countable L}.
Implicit Types (h : gmap L (@list_head L)) (M : gmap L (list L)).

Definition lists_rep h M : Prop :=
  (∀ hd xs, M !! hd = Some xs → dll h hd xs) ∧
  (∀ hd1 xs1 hd2 xs2 x, M !! hd1 = Some xs1 → M !! hd2 = Some xs2 →
     x ∈ hd1 :: xs1 → x ∈ hd2 :: xs2 → hd1 = hd2).

Lemma lists_rep_dll h M hd xs : lists_rep h M → M !! hd = Some xs → dll h hd xs.
Proof. intros [H _]. apply H. Qed.

(** Framing: the lists of [M] that own no node of [W] survive a change of [W]. *)
Lemma lists_rep_frame h h' M hd xs (W : list L) :
  lists_rep h M → same_except W h h' → M !! hd = Some xs →
  (∀ x, x ∈ W → ∃ hd' xs', M !! hd' = Some xs' ∧ x ∈ hd' :: xs' ∧ hd' ≠ hd) →
  dll h' hd xs.
Proof.
  intros [Hl Hu] HW Hhd Hown. eapply dll_frame; [by apply Hl|done|].
  intros x Hx (hd' & xs' & H' & Hx' & Hne)%Hown. apply Hne. by eapply (Hu hd' xs' hd xs x).
Qed.

(** Insertion of a detached node anywhere in a list. *)
Lemma lists_rep_insert h h' M hd xs ys new :
  lists_rep h M → M !! hd = Some (xs ++ ys) → M !! new = Some [] → new ≠ hd →
  dll h' hd (xs ++ new :: ys) → same_except (new :: hd :: xs ++ ys) h h' →
  lists_rep h' (<[hd := xs ++ new :: ys]> (delete new M)).
Proof.
  intros Hrep Hhd Hnew Hne Hdll HW. pose proof Hrep as [Hl Hu]. split.
  - intros hd' xs'. rewrite lookup_insert_Some, lookup_delete_Some.
    intros [[<- <-]|(Hn1 & Hn2 & H')]; [done|].
    eapply lists_rep_frame; [done..|]. intros x [->|Hx]%elem_of_cons.
    + exists new, []. set_solver.
    + exists hd, (xs ++ ys). set_solver.
  - intros hd1 xs1 hd2 xs2 x. rewrite !lookup_insert_Some, !lookup_delete_Some.
    intros [[<- <-]|(? & ? & H1)] [[<- <-]|(? & ? & H2)] Hx1 Hx2; [done| | |by eapply Hu].
    + exfalso. destruct (decide (x = new)) as [->|].
      * assert (new = hd2) by (eapply (Hu new [] hd2 _ new); [done..|set_solver|done]). done.
      * assert (hd = hd2) by (eapply (Hu hd (xs ++ ys) hd2 _ x); [done..|set_solver|done]). done.
    + exfalso. destruct (decide (x = new)) as [->|].
      * assert (new = hd1) by (eapply (Hu new [] hd1 _ new); [done..|set_solver|done]). done.
      * assert (hd = hd1) by (eapply (Hu hd (xs ++ ys) hd1 _ x); [done..|set_solver|done]). done.
Qed.

(** A detached node is foreign to the other lists. *)
Lemma lists_rep_detached h M hd xs new :
  lists_rep h M → M !! hd = Some xs → M !! new = Some [] → new ≠ hd →
  new ∈ dom h ∧ new ∉ hd :: xs.
Proof.
  intros [Hl Hu] Hhd Hnew Hne. split.
  - eapply dll_dom; [by apply Hl|set_solver].
  - intros Hin. apply Hne. eapply (Hu new [] hd xs new); [done..|set_solver|done].
Qed.

Lemma lists_rep_add_tail h M hd xs new :
  lists_rep h M → M !! hd = Some xs → M !! new = Some [] → new ≠ hd →
  ∃ h', list_add_tail (Some new) (Some hd) h = Some h' ∧
        lists_rep h' (<[hd := xs ++ [new]]> (delete new M)) ∧ dom h' = dom h.
Proof.
  intros Hrep Hhd Hnew Hne.
  destruct (lists_rep_detached _ _ _ _ _ Hrep Hhd Hnew Hne) as [Hd Hni].
  destruct (list_add_tail_spec h hd xs new) as (h' & -> & Hdll & HW); [by eapply lists_rep_dll|done..|].
  exists h'. split_and!; [done| |apply HW].
  apply (lists_rep_insert h h' M hd xs [] new); rewrite ?app_nil_r; done.
Qed.

Lemma lists_rep_add h M hd xs new :
  lists_rep h M → M !! hd = Some xs → M !! new = Some [] → new ≠ hd →
  ∃ h', list_add (Some new) (Some hd) h = Some h' ∧
        lists_rep h' (<[hd := new :: xs]> (delete new M)) ∧ dom h' = dom h.
Proof.
  intros Hrep Hhd Hnew Hne.
  destruct (lists_rep_detached _ _ _ _ _ Hrep Hhd Hnew Hne) as [Hd Hni].
  destruct (list_add_head_spec h hd xs new) as (h' & -> & Hdll & HW); [by eapply lists_rep_dll|done..|].
  exists h'. split_and!; [done| |apply HW].
  by apply (lists_rep_insert h h' M hd [] xs new).
Qed.

(** Removal of a node: it becomes detached. *)
Lemma lists_rep_del_init h M hd xs e ys :
  lists_rep h M → M !! hd = Some (xs ++ e :: ys) →
  ∃ h', list_del_init (Some e) h = Some h' ∧
        lists_rep h' (<[e := []]> (<[hd := xs ++ ys]> M)) ∧ dom h' = dom h.
Proof.
  intros Hrep Hhd. pose proof Hrep as [Hl Hu]. pose proof (Hl _ _ Hhd) as Hdll.
  destruct (list_del_init_spec _ _ _ _ _ Hdll) as (h' & -> & Hdll' & He & HW).
  exists h'. split_and!; [done| |apply HW].
  assert (hd ≠ e) as Hne by (apply dll_NoDup in Hdll; set_solver).
  assert (e ∉ xs ++ ys) as Hni.
  { apply dll_NoDup in Hdll as [Hnd _]. apply NoDup_app in Hnd as (?&?&[]%NoDup_cons). set_solver. }
  split.
  - intros hd' xs'. rewrite !lookup_insert_Some.
    intros [[<- <-]|(Hn1 & [[<- <-]|(Hn2 & H')])]; [done|done|].
    eapply lists_rep_frame; [done..|]. intros x Hx. exists hd, (xs ++ e :: ys). set_solver.
  - assert (∀ hd' xs', M !! hd' = Some xs' → hd ≠ hd' → e ∉ hd' :: xs') as Hfor.
    { intros hd' xs' H' Hn Hin. apply Hn. eapply (Hu _ _ _ _ e); [done..|set_solver|done]. }
    assert (∀ hd' xs' x, M !! hd' = Some xs' → hd ≠ hd' → x ∈ hd :: xs ++ ys → x ∉ hd' :: xs') as Hfor'.
    { intros hd' xs' x H' Hn Hx Hin. apply Hn. eapply (Hu _ _ _ _ x); [done..|set_solver|done]. }
    intros hd1 xs1 hd2 xs2 x. rewrite !lookup_insert_Some.
    intros [[<- <-]|(? & [[<- <-]|(? & H1)])] [[<- <-]|(? & [[<- <-]|(? & H2)])] Hx1 Hx2;
      try done; try (by eapply Hu); exfalso.
    + apply list_elem_of_singleton in Hx1 as ->. set_solver.
    + apply list_elem_of_singleton in Hx1 as ->. by eapply Hfor.
    + apply list_elem_of_singleton in Hx2 as ->. set_solver.
    + by eapply Hfor'.
    + apply list_elem_of_singleton in Hx2 as ->. by eapply Hfor.
    + by eapply Hfor'.
Qed.

(** ** Refinement: any program of list operations

    [abs_op] is the sequence-level meaning of each operation on a family. *)

Inductive list_op :=
  | OpAddTail (new hd : L)
  | OpAdd (new hd : L)
  | OpDelInit (e : L).

Definition run_op (o : list_op) h : option (gmap L (@list_head L)) :=
  match o with
  | OpAddTail new hd => list_add_tail (Some new) (Some hd) h
  | OpAdd new hd => list_add (Some new) (Some hd) h
  | OpDelInit e => list_del_init (Some e) h
  end.

Fixpoint run_ops (os : list list_op) h : option (gmap L (@list_head L)) :=
  match os with
  | [] => Some h
  | o :: os => h ← run_op o h; run_ops os h
  end.

Inductive abs_op : list_op → gmap L (list L) → gmap L (list L) → Prop :=
  | abs_add_tail new hd xs M :
      M !! hd = Some xs → M !! new = Some [] → new ≠ hd →
      abs_op (OpAddTail new hd) M (<[hd := xs ++ [new]]> (delete new M))
  | abs_add new hd xs M :
      M !! hd = Some xs → M !! new = Some [] → new ≠ hd →
      abs_op (OpAdd new hd) M (<[hd := new :: xs]> (delete new M))
  | abs_del hd xs e ys M :
      M !! hd = Some (xs ++ e :: ys) →
      abs_op (OpDelInit e) M (<[e := []]> (<[hd := xs ++ ys]> M))
  | abs_del_detached e M :
      M !! e = Some [] → abs_op (OpDelInit e) M M.

Inductive abs_ops : list list_op → gmap L (list L) → gmap L (list L) → Prop :=
  | abs_ops_nil M : abs_ops [] M M
  | abs_ops_cons o os M1 M2 M3 : abs_op o M1 M2 → abs_ops os M2 M3 → abs_ops (o :: os) M1 M3.

Lemma run_op_refines o h M M' :
  lists_rep h M → abs_op o M M' → ∃ h', run_op o h = Some h' ∧ lists_rep h' M' ∧ dom h' = dom h.
Proof.
  intros Hrep Hop. destruct Hop; cbn [run_op].
  - by apply lists_rep_add_tail.
  - by apply lists_rep_add.
  - by apply lists_rep_del_init.
  - exists h. rewrite list_del_init_self; [done|]. by eapply lists_rep_dll.
Qed.

Lemma run_ops_refines os h M M' :
  lists_rep h M → abs_ops os M M' → ∃ h', run_ops os h = Some h' ∧ lists_rep h' M' ∧ dom h' = dom h.
Proof.
  intros Hrep Hops. revert h Hrep. induction Hops as [|o os M1 M2 M3 Ho Hos IH]; intros h Hrep.
  - by exists h.
  - destruct (run_op_refines _ _ _ _ Hrep Ho) as (h1 & E1 & Hrep1 & D1). simpl. rewrite E1.
    destruct (IH _ Hrep1) as (h2 & E2 & Hrep2 & D2). exists h2. split_and!; [done..|congruence].
Qed.

(** C39: Any program of list_add, list_add_tail and list_del_init calls that is
    meaningful on sequences runs on the pointers without fault, and afterwards
    every list head traverses, forwards and node by node, exactly the sequence
    that the abstract program computed. *)
Theorem list_programs_refine_sequences os h M M' :
  lists_rep h M → abs_ops os M M' →
  ∃ h', run_ops os h = Some h' ∧ lists_rep h' M' ∧
    ∀ hd xs fuel, M' !! hd = Some xs → (length xs < fuel)%nat →
      list_for_each fuel (Some hd) h' = Some xs ∧
      list_count_nodes fuel (Some hd) h' = Some (u32 (Z.of_nat (length xs))).
Proof.
  intros Hrep Hops. destruct (run_ops_refines _ _ _ _ Hrep Hops) as (h' & E & Hrep' & _).
  exists h'. split; [done|]. split; [done|]. intros hd xs fuel HM Hf.
  pose proof (lists_rep_dll _ _ _ _ Hrep' HM) as Hd. split; [by apply list_for_each_spec|].
  by apply list_count_nodes_spec.
Qed.
End family.

Arguments list_head : clear implicits.
Arguments LH {L} _ _.

(** Three self-linked nodes, the first of which is used as a list head. *)
Definition demo_nodes : gmap nat (list_head nat) :=
  <[0%nat := LH (Some 0%nat) (Some 0%nat)]> (<[1%nat := LH (Some 1%nat) (Some 1%nat)]>
  (<[2%nat := LH (Some 2%nat) (Some 2%nat)]> ∅)).
Definition demo_family : gmap nat (list nat) := <[0%nat := []]> (<[1%nat := []]> (<[2%nat := []]> ∅)).

Lemma demo_nodes_rep : lists_rep demo_nodes demo_family.
Proof.
  assert (∀ hd xs, demo_family !! hd = Some xs → xs = [] ∧ (hd = 0 ∨ hd = 1 ∨ hd = 2)%nat) as Hf.
  { intros hd xs H. unfold demo_family in H. do 3 (apply lookup_insert_Some in H as [[<- <-]|[_ H]]; [auto|]).
    done. }
  split.
  - intros hd xs (-> & [->|[->| ->]])%Hf; by apply dll_nil.
  - intros hd1 xs1 hd2 xs2 x [-> _]%Hf [-> _]%Hf. set_solver.
Qed.

Lemma list_programs_refine_sequences_witness :
  ∃ h', run_ops [OpAddTail 1%nat 0%nat; OpAdd 2%nat 0%nat; OpDelInit 1%nat] demo_nodes = Some h' ∧
    list_for_each 5 (Some 0%nat) h' = Some [2%nat].
Proof.
  destruct (list_programs_refine_sequences [OpAddTail 1%nat 0%nat; OpAdd 2%nat 0%nat; OpDelInit 1%nat]
    demo_nodes demo_family (<[1%nat := []]> (<[0%nat := [2%nat]]>
      (<[0%nat := [2%nat; 1%nat]]> (delete 2%nat (<[0%nat := [1%nat]]> (delete 1%nat demo_family)))))))
    as (h' & E & _ & H).
  - apply demo_nodes_rep.
  - econstructor; [apply (abs_add_tail 1%nat 0%nat []); reflexivity || discriminate|].
    econstructor; [apply (abs_add 2%nat 0%nat [1%nat]); reflexivity || discriminate|].
    econstructor; [apply (abs_del 0%nat [2%nat] 1%nat []); reflexivity|]. constructor.
  - exists h'. split; [exact E|]. apply H; [reflexivity|]. simpl. lia.
Defined.
