(* ===== verification/Bitmap.v ===== *)
(** * The 256-bit priority bitmap (include/kernel/bitmap.h)

    Four 64-bit words with O(1) search for the highest set bit, the structure
    behind the scheduler's choice of the next thread.  The words stay at their
    width: [bm_wf] says they are [uint64_t], every operation keeps it.  The
    abstraction of a bitmap is its set of bits, read by [bitmap256_test]. *)

From S2P Require Import Prelude.

Set Default Goal Selector "!".

(** ** Data *)

Definition BITMAP256_BITS : Z := 256.
Definition BITMAP256_BITS_PER_WORD : Z := 64.
Definition BITMAP256_WORDS : Z := 4.

Record bitmap256_t := Bitmap256 { bits : list Z }.

(** ** Compiler builtins on a non-zero 64-bit word *)

(** [__builtin_clzll]: leading zeros. *)
Definition clzll (w : Z) : Z := 63 - Z.log2 w.

(** [__builtin_ctzll]: trailing zeros. *)
Fixpoint ctz_pos (p : positive) : Z :=
  match p with xO p => 1 + ctz_pos p | _ => 0 end.
Definition ctzll (w : Z) : Z := match w with Zpos p => ctz_pos p | _ => 64 end.

(** [__builtin_popcountll]: number of set bits. *)
Fixpoint popcount_pos (p : positive) : Z :=
  match p with xH => 1 | xO p => popcount_pos p | xI p => 1 + popcount_pos p end.
Definition popcountll (w : Z) : Z := match w with Zpos p => popcount_pos p | _ => 0 end.

(** ** Operations

    The queries take a pointer, NULL being [None].  The updates take the object
    itself: called with NULL they return without touching anything. *)

Definition BITMAP256_INIT : bitmap256_t := Bitmap256 [0; 0; 0; 0].

Definition bitmap256_clear_all (bm : bitmap256_t) : option bitmap256_t :=
  b ← zupdate (bits bm) 0 0;
  b ← zupdate b 1 0;
  b ← zupdate b 2 0;
  b ← zupdate b 3 0;
  Some (Bitmap256 b).

Definition bitmap256_set (bm : bitmap256_t) (bit : Z) : option bitmap256_t :=
  if BITMAP256_BITS <=? bit then Some bm
  else
    let word := bit / BITMAP256_BITS_PER_WORD in
    let offset := bit mod BITMAP256_BITS_PER_WORD in
    w ← (bits bm).[word];
    b ← zupdate (bits bm) word (Z.lor w (u64 (Z.shiftl 1 offset)));
    Some (Bitmap256 b).

Definition bitmap256_clear (bm : bitmap256_t) (bit : Z) : option bitmap256_t :=
  if BITMAP256_BITS <=? bit then Some bm
  else
    let word := bit / BITMAP256_BITS_PER_WORD in
    let offset := bit mod BITMAP256_BITS_PER_WORD in
    w ← (bits bm).[word];
    b ← zupdate (bits bm) word (Z.land w (u64 (Z.lnot (u64 (Z.shiftl 1 offset)))));
    Some (Bitmap256 b).

Definition bitmap256_test (bm : option bitmap256_t) (bit : Z) : option bool :=
  match bm with
  | None => Some false
  | Some bm =>
  if BITMAP256_BITS <=? bit then Some false
  else
    let word := bit / BITMAP256_BITS_PER_WORD in
    let offset := bit mod BITMAP256_BITS_PER_WORD in
    w ← (bits bm).[word];
    Some (negb (Z.land w (u64 (Z.shiftl 1 offset)) =? 0))
  end.

(** The loop [for (word_idx = BITMAP256_WORDS; word_idx > 0; word_idx--)]. *)
Fixpoint find_highest_from (bm : bitmap256_t) (word_idx : nat) : option Z :=
  match word_idx with
  | O => Some BITMAP256_BITS
  | S idx =>
      w ← (bits bm).[Z.of_nat idx];
      if negb (w =? 0)
      then Some (Z.of_nat idx * BITMAP256_BITS_PER_WORD
                 + (BITMAP256_BITS_PER_WORD - 1) - clzll w)
      else find_highest_from bm idx
  end.

Definition bitmap256_find_highest (bm : option bitmap256_t) : option Z :=
  match bm with
  | None => Some BITMAP256_BITS
  | Some bm => find_highest_from bm (Z.to_nat BITMAP256_WORDS)
  end.

(** The loop [for (word_idx = 0; word_idx < BITMAP256_WORDS; word_idx++)], with
    the number of words left to search as the decreasing argument. *)
Fixpoint find_lowest_from (bm : bitmap256_t) (left : nat) : option Z :=
  match left with
  | O => Some BITMAP256_BITS
  | S left' =>
      let word_idx := BITMAP256_WORDS - Z.of_nat left in
      w ← (bits bm).[word_idx];
      if negb (w =? 0)
      then Some (word_idx * BITMAP256_BITS_PER_WORD + ctzll w)
      else find_lowest_from bm left'
  end.

Definition bitmap256_find_lowest (bm : option bitmap256_t) : option Z :=
  match bm with
  | None => Some BITMAP256_BITS
  | Some bm => find_lowest_from bm (Z.to_nat BITMAP256_WORDS)
  end.

Definition bitmap256_empty (bm : option bitmap256_t) : option bool :=
  match bm with
  | None => Some true
  | Some bm =>
      a ← (bits bm).[0]; b ← (bits bm).[1]; c ← (bits bm).[2]; d ← (bits bm).[3];
      Some (Z.lor (Z.lor (Z.lor a b) c) d =? 0)
  end.

Definition bitmap256_count (bm : option bitmap256_t) : option Z :=
  match bm with
  | None => Some 0
  | Some bm =>
      a ← (bits bm).[0]; b ← (bits bm).[1]; c ← (bits bm).[2]; d ← (bits bm).[3];
      Some (u32 (popcountll a + popcountll b + popcountll c + popcountll d))
  end.

Definition bitmap256_merge (dst src : bitmap256_t) : option bitmap256_t :=
  d0 ← (bits dst).[0]; s0 ← (bits src).[0]; b ← zupdate (bits dst) 0 (Z.lor d0 s0);
  d1 ← (bits dst).[1]; s1 ← (bits src).[1]; b ← zupdate b 1 (Z.lor d1 s1);
  d2 ← (bits dst).[2]; s2 ← (bits src).[2]; b ← zupdate b 2 (Z.lor d2 s2);
  d3 ← (bits dst).[3]; s3 ← (bits src).[3]; b ← zupdate b 3 (Z.lor d3 s3);
  Some (Bitmap256 b).

(** ** Well-formedness and the set of bits *)

Definition bm_wf (bm : bitmap256_t) : Prop :=
  length (bits bm) = 4%nat ∧ Forall (λ w, 0 <= w < 2 ^ 64) (bits bm).

(** The bit at position [b], as a mathematical set. *)
Definition has_bit (bm : bitmap256_t) (b : Z) : bool :=
  Z.testbit (default 0 (bits bm).[b / 64]) (b mod 64).

(** The number of set bits of [f] among the first [n]. *)
Fixpoint bitsum (f : Z → bool) (n : nat) : Z :=
  match n with O => 0 | S n => bitsum f n + Z.b2z (f (Z.of_nat n)) end.

(** ** The operations as operations on the set of bits *)

Section ops.
Context (bm : bitmap256_t) (Hwf : bm_wf bm).

Lemma wf_word i : 0 <= i < 4 → ∃ w, (bits bm).[i] = Some w ∧ 0 <= w < 2 ^ 64.
Proof.
  intros Hi. destruct Hwf as [Hlen Hall].
  assert (is_Some (bits bm).[i]) as [w Hw] by (apply zlookup_is_Some; lia).
  exists w. split; [done|]. unfold zlookup in Hw. destruct (Z.leb_spec 0 i); [|done].
  by eapply (Forall_lookup_1 _ _ _ _ Hall).
Qed.

Lemma bit_index b : 0 <= b < 256 → 0 <= b / 64 < 4 ∧ 0 <= b mod 64 < 64.
Proof. intros. split; [|apply Z.mod_pos_bound; lia]. split; [apply Z.div_pos; lia|apply Z.div_lt_upper_bound; lia]. Qed.

Lemma bitmap256_test_spec b : 0 <= b < 256 → bitmap256_test (Some bm) b = Some (has_bit bm b).
Proof.
  intros Hb. unfold bitmap256_test, BITMAP256_BITS, BITMAP256_BITS_PER_WORD, has_bit.
  destruct (bit_index b Hb) as [Hi Ho]. destruct (Z.leb_spec 256 b); [lia|].
  destruct (wf_word _ Hi) as (w & -> & Hw). cbn. by rewrite land_bit_test.
Qed.

Lemma update_wf i w : 0 <= i < 4 → 0 <= w < 2 ^ 64 → bm_wf (Bitmap256 (<[Z.to_nat i := w]> (bits bm))).
Proof.
  intros Hi Hw. destruct Hwf as [Hlen Hall]. split; simpl; [by rewrite length_insert|].
  apply Forall_insert; [done|lia].
Qed.

Lemma has_bit_update b i w :
  0 <= i < 4 → has_bit (Bitmap256 (<[Z.to_nat i := w]> (bits bm))) b
  = if decide (b / 64 = i) then Z.testbit w (b mod 64) else has_bit bm b.
Proof.
  intros Hi. destruct Hwf as [Hlen _]. unfold has_bit. simpl. case_decide as E.
  - rewrite E, zlookup_insert_eq by lia. done.
  - by rewrite zlookup_insert_ne by lia.
Qed.

Lemma same_word b c : b / 64 = c / 64 → (c mod 64 =? b mod 64) = (c =? b).
Proof. intros E. pose proof (Z.div_mod b 64). pose proof (Z.div_mod c 64). lia. Qed.

Lemma bitmap256_set_spec b :
  0 <= b < 256 →
  ∃ bm', bitmap256_set bm b = Some bm' ∧ bm_wf bm' ∧
         ∀ c, 0 <= c < 256 → has_bit bm' c = (c =? b) || has_bit bm c.
Proof.
  intros Hb. unfold bitmap256_set, BITMAP256_BITS, BITMAP256_BITS_PER_WORD.
  destruct (bit_index b Hb) as [Hi Ho]. destruct (Z.leb_spec 256 b); [lia|].
  destruct (wf_word _ Hi) as (w & E & Hw). rewrite E. cbn.
  destruct Hwf as [Hlen _]. rewrite zupdate_total by lia. cbn. eexists. split_and!; [done| |].
  - apply update_wf; [done|]. apply lor_word; [done|]. apply u64_range.
  - intros c Hc. rewrite has_bit_update by done. destruct (bit_index c Hc). case_decide as D.
    + rewrite testbit_set_word by done. rewrite same_word by done.
      f_equal. unfold has_bit. by rewrite D, E.
    + destruct (Z.eqb_spec c b) as [->|]; done.
Qed.

Lemma bitmap256_clear_spec b :
  0 <= b < 256 →
  ∃ bm', bitmap256_clear bm b = Some bm' ∧ bm_wf bm' ∧
         ∀ c, 0 <= c < 256 → has_bit bm' c = negb (c =? b) && has_bit bm c.
Proof.
  intros Hb. unfold bitmap256_clear, BITMAP256_BITS, BITMAP256_BITS_PER_WORD.
  destruct (bit_index b Hb) as [Hi Ho]. destruct (Z.leb_spec 256 b); [lia|].
  destruct (wf_word _ Hi) as (w & E & Hw). rewrite E. cbn.
  destruct Hwf as [Hlen _]. rewrite zupdate_total by lia. cbn. eexists. split_and!; [done| |].
  - apply update_wf; [done|]. by apply land_word.
  - intros c Hc. rewrite has_bit_update by done. destruct (bit_index c Hc). case_decide as D.
    + rewrite testbit_clear_word by done. rewrite same_word by done.
      f_equal. unfold has_bit. by rewrite D, E.
    + destruct (Z.eqb_spec c b) as [->|]; done.
Qed.

(** *** Searching *)

Lemma has_bit_word i b w : (bits bm).[i] = Some w → b / 64 = i → has_bit bm b = Z.testbit w (b mod 64).
Proof. intros E <-. unfold has_bit. by rewrite E. Qed.

Lemma find_highest_from_spec n :
  (n <= 4)%nat →
  ∃ r, find_highest_from bm n = Some r ∧
    ((r = 256 ∧ ∀ c, 0 <= c < 64 * Z.of_nat n → has_bit bm c = false) ∨
     (0 <= r < 64 * Z.of_nat n ∧ has_bit bm r = true ∧
      ∀ c, r < c < 64 * Z.of_nat n → has_bit bm c = false)).
Proof.
  induction n as [|n IH]; intros Hn; [exists 256; split; [done|]; left; split; [done|lia]|].
  destruct (wf_word (Z.of_nat n)) as (w & E & Hw); [lia|]. cbn [find_highest_from]. rewrite E.
  cbn [mbind option_bind]. destruct (Z.eqb_spec w 0) as [->|Hw0]; cbn [negb].
  - destruct IH as (r & -> & Hr); [lia|]. exists r. split; [done|].
    assert (∀ c, 64 * Z.of_nat n <= c < 64 * Z.of_nat (S n) → has_bit bm c = false) as Hz.
    { intros c Hc. rewrite (has_bit_word _ _ _ E); [apply Z.bits_0|].
      symmetry. apply (Z.div_unique c 64 (Z.of_nat n) (c - 64 * Z.of_nat n)); lia. }
    destruct Hr as [[-> Hr]|(Hr & Hb & Hm)]; [left|right]; split_and!; try done; try lia.
    + intros c Hc. destruct (Z.lt_ge_cases c (64 * Z.of_nat n)); [apply Hr|apply Hz]; lia.
    + intros c Hc. destruct (Z.lt_ge_cases c (64 * Z.of_nat n)); [apply Hm|apply Hz]; lia.
  - pose proof (Z.log2_nonneg w).
    assert (Z.log2 w < 64) by (apply Z.log2_lt_pow2; lia).
    unfold clzll, BITMAP256_BITS_PER_WORD. eexists. split; [done|]. right.
    replace (Z.of_nat n * 64 + (64 - 1) - (63 - Z.log2 w)) with (64 * Z.of_nat n + Z.log2 w) by lia.
    assert (∀ k, 0 <= k < 64 → has_bit bm (64 * Z.of_nat n + k) = Z.testbit w k) as Hk.
    { intros k Hk. rewrite (has_bit_word _ _ _ E).
      - f_equal. symmetry. apply (Z.mod_unique _ 64 (Z.of_nat n)); lia.
      - symmetry. apply (Z.div_unique _ 64 (Z.of_nat n) k); lia. }
    split_and!; [lia..| |].
    + rewrite Hk by lia. apply Z.bit_log2. lia.
    + intros c Hc. replace c with (64 * Z.of_nat n + (c - 64 * Z.of_nat n)) by lia.
      rewrite Hk by lia. apply Z.bits_above_log2; lia.
Qed.

(** The O(1) search agrees with the set: it returns the greatest element, or
    256 exactly when the set is empty. *)
Lemma bitmap256_find_highest_spec :
  ∃ r, bitmap256_find_highest (Some bm) = Some r ∧
    ((r = 256 ∧ ∀ c, 0 <= c < 256 → has_bit bm c = false) ∨
     (0 <= r < 256 ∧ has_bit bm r = true ∧ ∀ c, r < c < 256 → has_bit bm c = false)).
Proof. apply (find_highest_from_spec 4). lia. Qed.

Lemma ctz_pos_spec p :
  0 <= ctz_pos p ∧ Z.testbit (Zpos p) (ctz_pos p) = true ∧
  ∀ k, 0 <= k < ctz_pos p → Z.testbit (Zpos p) k = false.
Proof.
  induction p as [p IH|p IH|]; cbn [ctz_pos].
  - split_and!; [lia|done|lia].
  - destruct IH as (H0 & Hb & Hl). split_and!; [lia| |].
    + change (Zpos p~0) with (2 * Zpos p). rewrite Z.add_comm.
      change (ctz_pos p + 1) with (Z.succ (ctz_pos p)). by rewrite Z.testbit_even_succ.
    + intros k Hk. change (Zpos p~0) with (2 * Zpos p).
      destruct (decide (k = 0)) as [->|]; [apply Z.testbit_even_0|].
      replace k with (Z.succ (k - 1)) by lia. rewrite Z.testbit_even_succ by lia. apply Hl. lia.
  - split_and!; [lia|done|lia].
Qed.

Lemma find_lowest_from_spec n :
  (n <= 4)%nat →
  ∃ r, find_lowest_from bm n = Some r ∧
    ((r = 256 ∧ ∀ c, 64 * (4 - Z.of_nat n) <= c < 256 → has_bit bm c = false) ∨
     (64 * (4 - Z.of_nat n) <= r < 256 ∧ has_bit bm r = true ∧
      ∀ c, 64 * (4 - Z.of_nat n) <= c < r → has_bit bm c = false)).
Proof.
  induction n as [|n IH]; intros Hn; [exists 256; split; [done|]; left; split; [done|lia]|].
  cbn [find_lowest_from]. unfold BITMAP256_WORDS, BITMAP256_BITS_PER_WORD.
  set (i := 4 - Z.of_nat (S n)). assert (0 <= i < 4) as Hi by lia.
  destruct (wf_word i Hi) as (w & E & Hw). rewrite E. cbn [mbind option_bind].
  assert (∀ k, 0 <= k < 64 → has_bit bm (64 * i + k) = Z.testbit w k) as Hk.
  { intros k Hk. rewrite (has_bit_word _ _ _ E).
    - f_equal. symmetry. apply (Z.mod_unique _ 64 i); lia.
    - symmetry. apply (Z.div_unique _ 64 i k); lia. }
  destruct (Z.eqb_spec w 0) as [->|Hw0]; cbn [negb].
  - destruct IH as (r & -> & Hr); [lia|]. exists r. split; [done|].
    assert (∀ c, 64 * i <= c < 64 * i + 64 → has_bit bm c = false) as Hz.
    { intros c Hc. replace c with (64 * i + (c - 64 * i)) by lia. rewrite Hk by lia. apply Z.bits_0. }
    destruct Hr as [[-> Hr]|(Hr & Hb & Hm)]; [left|right]; split_and!; try done; try lia.
    + intros c Hc. destruct (Z.lt_ge_cases c (64 * i + 64)); [apply Hz|apply Hr]; lia.
    + intros c Hc. destruct (Z.lt_ge_cases c (64 * i + 64)); [apply Hz|apply Hm]; lia.
  - destruct w as [|p|p]; [done| |lia]. unfold ctzll.
    destruct (ctz_pos_spec p) as (H0 & Hb & Hl).
    assert (ctz_pos p < 64).
    { destruct (Z.lt_ge_cases (ctz_pos p) 64) as [|Hge]; [done|].
      by rewrite (word_high_bits (Zpos p)) in Hb. }
    eexists. split; [done|]. right. replace (i * 64) with (64 * i) by lia. split_and!; [lia..| |].
    + by rewrite Hk by lia.
    + intros c Hc. replace c with (64 * i + (c - 64 * i)) by lia. rewrite Hk by lia. apply Hl. lia.
Qed.

Lemma bitmap256_find_lowest_spec :
  ∃ r, bitmap256_find_lowest (Some bm) = Some r ∧
    ((r = 256 ∧ ∀ c, 0 <= c < 256 → has_bit bm c = false) ∨
     (0 <= r < 256 ∧ has_bit bm r = true ∧ ∀ c, 0 <= c < r → has_bit bm c = false)).
Proof. apply (find_lowest_from_spec 4). lia. Qed.

(** *** Emptiness and population count *)

#[local] Arguments Z.to_nat !_ /.
#[local] Arguments Pos.to_nat !_ /.

Lemma wf_words : ∃ a b c d, bits bm = [a; b; c; d] ∧
  0 <= a < 2 ^ 64 ∧ 0 <= b < 2 ^ 64 ∧ 0 <= c < 2 ^ 64 ∧ 0 <= d < 2 ^ 64.
Proof.
  destruct Hwf as [Hlen Hall]. destruct (bits bm) as [|a [|b [|c [|d [|]]]]] eqn:E; try done.
  rewrite !Forall_cons in Hall. destruct Hall as (?&?&?&?&_). by exists a, b, c, d.
Qed.

Lemma bitmap256_empty_spec :
  bitmap256_empty (Some bm) = Some (bool_decide (bits bm = [0; 0; 0; 0])).
Proof.
  unfold bitmap256_empty. destruct wf_words as (a & b & c & d & -> & ? & ? & ? & ?).
  cbn. f_equal. apply eq_bool_prop_intro.
  rewrite !Is_true_true, Z.eqb_eq, bool_decide_eq_true.
  rewrite !Z.lor_eq_0_iff. naive_solver.
Qed.

Lemma bitsum_succ f n : bitsum f (S n) = Z.b2z (f 0) + bitsum (λ k, f (Z.succ k)) n.
Proof.
  induction n as [|n IH]; [cbn [bitsum]; change (Z.of_nat 0) with 0; lia|].
  cbn [bitsum] in *. rewrite IH.
  replace (Z.succ (Z.of_nat n)) with (Z.of_nat (S n)) by lia. lia.
Qed.

Lemma bitsum_add f n m : bitsum f (n + m) = bitsum f n + bitsum (λ k, f (Z.of_nat n + k)) m.
Proof.
  induction m as [|m IH]; [rewrite Nat.add_0_r; simpl; lia|].
  rewrite Nat.add_succ_r. cbn [bitsum]. rewrite IH, Nat2Z.inj_add. lia.
Qed.

Lemma bitsum_ext f g n : (∀ k, 0 <= k < Z.of_nat n → f k = g k) → bitsum f n = bitsum g n.
Proof.
  induction n as [|n IH]; intros H; [done|]. cbn [bitsum].
  rewrite IH, H; [done|lia|]. intros; apply H; lia.
Qed.

Lemma bitsum_zero n : bitsum (Z.testbit 0) n = 0.
Proof. induction n as [|n IH]; [done|]. cbn [bitsum]. by rewrite IH, Z.bits_0. Qed.

Lemma popcount_pos_bitsum p n :
  Zpos p < 2 ^ Z.of_nat n → popcount_pos p = bitsum (Z.testbit (Zpos p)) n.
Proof.
  revert n. induction p as [p IH|p IH|]; intros [|n] Hn; try (simpl in Hn; lia);
    rewrite bitsum_succ; cbn [popcount_pos].
  - rewrite (IH n); [|rewrite Nat2Z.inj_succ, Z.pow_succ_r in Hn; lia].
    rewrite (bitsum_ext (λ k, Z.testbit (Zpos p~1) (Z.succ k)) (Z.testbit (Zpos p))); [done|].
    intros k Hk. change (Zpos p~1) with (2 * Zpos p + 1). apply Z.testbit_odd_succ. lia.
  - rewrite (IH n); [|rewrite Nat2Z.inj_succ, Z.pow_succ_r in Hn; lia].
    rewrite (bitsum_ext (λ k, Z.testbit (Zpos p~0) (Z.succ k)) (Z.testbit (Zpos p))); [done|].
    intros k Hk. change (Zpos p~0) with (2 * Zpos p). apply Z.testbit_even_succ. lia.
  - rewrite (bitsum_ext _ (Z.testbit 0)), bitsum_zero; [done|].
    intros k Hk. rewrite Z.bits_0. apply Z.bits_above_log2; simpl; lia.
Qed.

Lemma popcountll_bitsum w : 0 <= w < 2 ^ 64 → popcountll w = bitsum (Z.testbit w) 64.
Proof.
  intros Hw. destruct w as [|p|p]; [|apply popcount_pos_bitsum; apply Hw|lia].
  by rewrite bitsum_zero.
Qed.

Lemma bitsum_bounds f n : 0 <= bitsum f n <= Z.of_nat n.
Proof. induction n as [|n IH]; [simpl; lia|]. cbn [bitsum]. destruct (f _); simpl Z.b2z; lia. Qed.

Lemma bitmap256_count_spec : bitmap256_count (Some bm) = Some (bitsum (has_bit bm) 256).
Proof.
  destruct wf_words as (a & b & c & d & E & Ha & Hb & Hc & Hd).
  change 256%nat with (64 + (64 + (64 + 64)))%nat. rewrite !bitsum_add.
  assert (bitmap256_count (Some bm)
          = Some (u32 (popcountll a + popcountll b + popcountll c + popcountll d))) as ->.
  { unfold bitmap256_count. by rewrite E. }
  rewrite !popcountll_bitsum by done.
  change (Z.of_nat 64) with 64.
  rewrite (bitsum_ext (has_bit bm) (Z.testbit a)),
    (bitsum_ext (λ k, has_bit bm (64 + k)) (Z.testbit b)),
    (bitsum_ext (λ k, has_bit bm (64 + (64 + k))) (Z.testbit c)),
    (bitsum_ext (λ k, has_bit bm (64 + (64 + (64 + k)))) (Z.testbit d)).
  { rewrite u32_small; [f_equal; lia|].
    pose proof (bitsum_bounds (Z.testbit a) 64). pose proof (bitsum_bounds (Z.testbit b) 64).
    pose proof (bitsum_bounds (Z.testbit c) 64). pose proof (bitsum_bounds (Z.testbit d) 64). lia. }
  all: intros k Hk; unfold has_bit; rewrite E;
    match goal with |- context [?x / 64] =>
      pose proof (Z.div_mod x 64 ltac:(lia)); pose proof (Z.mod_pos_bound x 64 ltac:(lia)) end.
  - replace ((64 + (64 + (64 + k))) / 64) with 3 by lia. cbn. f_equal. lia.
  - replace ((64 + (64 + k)) / 64) with 2 by lia. cbn. f_equal. lia.
  - replace ((64 + k) / 64) with 1 by lia. cbn. f_equal. lia.
  - replace (k / 64) with 0 by lia. cbn. f_equal. lia.
Qed.

Lemma bitmap256_clear_all_spec :
  ∃ bm', bitmap256_clear_all bm = Some bm' ∧ bm_wf bm' ∧ ∀ c, has_bit bm' c = false.
Proof.
  destruct wf_words as (a & b & c & d & E & _). unfold bitmap256_clear_all. rewrite E. cbn.
  eexists. split_and!; [done|split; [done|repeat constructor; lia]|].
  intros k. unfold has_bit. simpl.
  destruct (zlookup [0; 0; 0; 0] (k / 64)) as [w|] eqn:Ew; simpl; [|apply Z.bits_0].
  apply zlookup_Some_lt in Ew as Hr. simpl in Hr.
  assert (k / 64 = 0 ∨ k / 64 = 1 ∨ k / 64 = 2 ∨ k / 64 = 3) as [F|[F|[F|F]]] by lia;
    rewrite F in Ew; cbn in Ew; simplify_eq; apply Z.bits_0.
Qed.
End ops.

#[local] Arguments Z.to_nat !_ /.
#[local] Arguments Pos.to_nat !_ /.

Lemma bitmap256_merge_spec dst src :
  bm_wf dst → bm_wf src →
  ∃ bm', bitmap256_merge dst src = Some bm' ∧ bm_wf bm' ∧
         ∀ c, 0 <= c < 256 → has_bit bm' c = has_bit dst c || has_bit src c.
Proof.
  intros Hd Hs.
  destruct (wf_words dst Hd) as (a & b & c & d & E & ? & ? & ? & ?).
  destruct (wf_words src Hs) as (a' & b' & c' & d' & E' & ? & ? & ? & ?).
  unfold bitmap256_merge. rewrite E, E'. cbn. eexists. split_and!; [done| |].
  - split; [done|]. simpl. rewrite !Forall_cons. split_and!; try (by apply lor_word). by apply Forall_nil.
  - intros k Hk. unfold has_bit. simpl. rewrite E, E'. destruct (bit_index k Hk) as [Hi _].
    assert (k / 64 = 0 ∨ k / 64 = 1 ∨ k / 64 = 2 ∨ k / 64 = 3) as [F|[F|[F|F]]] by lia;
      rewrite F; cbn; apply Z.lor_spec.
Qed.

(** ** Programs of set and clear against the set of bits *)

Inductive bm_op := BSet (b : Z) | BClear (b : Z).

Definition bm_bit (o : bm_op) : Z := match o with BSet b | BClear b => b end.

Fixpoint run_bm (ops : list bm_op) (bm : bitmap256_t) : option bitmap256_t :=
  match ops with
  | [] => Some bm
  | BSet b :: ops => bm ← bitmap256_set bm b; run_bm ops bm
  | BClear b :: ops => bm ← bitmap256_clear bm b; run_bm ops bm
  end.

Fixpoint run_set (ops : list bm_op) (X : gset Z) : gset Z :=
  match ops with
  | [] => X
  | BSet b :: ops => run_set ops ({[b]} ∪ X)
  | BClear b :: ops => run_set ops (X ∖ {[b]})
  end.

(** [bm] holds exactly the elements of [X]. *)
Definition bm_rep (bm : bitmap256_t) (X : gset Z) : Prop :=
  bm_wf bm ∧ ∀ c, 0 <= c < 256 → has_bit bm c = bool_decide (c ∈ X).

Lemma run_bm_refines ops bm X : bm_rep bm X → Forall (λ o, 0 <= bm_bit o < 256) ops →
  ∃ bm', run_bm ops bm = Some bm' ∧ bm_rep bm' (run_set ops X).
Proof.
  intros Hrep Hops. revert bm X Hrep. induction Hops as [|o ops Ho _ IH]; intros bm X [Hwf Hx]; [by exists bm|].
  destruct o as [b|b]; cbn [run_bm run_set bm_bit] in *.
  - destruct (bitmap256_set_spec bm Hwf b Ho) as (bm1 & -> & Hwf1 & H1). cbn. apply IH. split; [done|].
    intros c Hc. rewrite H1, Hx by done. destruct (Z.eqb_spec c b); cbn; symmetry;
      [apply bool_decide_eq_true; set_solver|apply bool_decide_ext; set_solver].
  - destruct (bitmap256_clear_spec bm Hwf b Ho) as (bm1 & -> & Hwf1 & H1). cbn. apply IH. split; [done|].
    intros c Hc. rewrite H1, Hx by done. destruct (Z.eqb_spec c b); cbn; symmetry;
      [apply bool_decide_eq_false; set_solver|apply bool_decide_ext; set_solver].
Qed.

Lemma bm_rep_empty : bm_rep BITMAP256_INIT ∅.
Proof.
  split; [split; [done|repeat constructor; lia]|]. intros c Hc.
  assert (has_bit BITMAP256_INIT c = false) as ->; [|symmetry; by apply bool_decide_eq_false].
  unfold has_bit. destruct (bit_index c Hc) as [Hi _].
  assert (c / 64 = 0 ∨ c / 64 = 1 ∨ c / 64 = 2 ∨ c / 64 = 3) as Hd by lia.
  destruct Hd as [->|[->|[->| ->]]]; apply Z.bits_0.
Qed.

(** C40: After any sequence of set and clear calls on an empty bitmap,
    [bitmap256_find_highest] returns the greatest member of the set of
    priorities (256 when it is empty), [bitmap256_find_lowest] the least, and
    [bitmap256_test] decides membership. *)
Theorem bitmap_tracks_set ops : Forall (λ o, 0 <= bm_bit o < 256) ops →
  ∃ bm hi lo, run_bm ops BITMAP256_INIT = Some bm ∧
    bitmap256_find_highest (Some bm) = Some hi ∧ bitmap256_find_lowest (Some bm) = Some lo ∧
    let X := run_set ops ∅ in
    (∀ c, 0 <= c < 256 → bitmap256_test (Some bm) c = Some (bool_decide (c ∈ X))) ∧
    ((hi = 256 ∧ ∀ c, 0 <= c < 256 → c ∉ X) ∨
     (0 <= hi < 256 ∧ hi ∈ X ∧ ∀ c, hi < c < 256 → c ∉ X)) ∧
    ((lo = 256 ∧ ∀ c, 0 <= c < 256 → c ∉ X) ∨
     (0 <= lo < 256 ∧ lo ∈ X ∧ ∀ c, 0 <= c < lo → c ∉ X)).
Proof.
  intros Hops. destruct (run_bm_refines ops _ _ bm_rep_empty Hops) as (bm & E & Hwf & Hx).
  assert (∀ c, 0 <= c < 256 → has_bit bm c = true → c ∈ run_set ops ∅) as Ht
    by (intros c Hc; rewrite Hx by done; apply bool_decide_eq_true).
  assert (∀ c, 0 <= c < 256 → has_bit bm c = false → c ∉ run_set ops ∅) as Hf
    by (intros c Hc; rewrite Hx by done; apply bool_decide_eq_false).
  destruct (bitmap256_find_highest_spec bm Hwf) as (hi & Eh & Hh).
  destruct (bitmap256_find_lowest_spec bm Hwf) as (lo & El & Hl).
  exists bm, hi, lo. split; [done|]. split; [done|]. split; [done|]. split; [|split].
  - intros c Hc. by rewrite bitmap256_test_spec, Hx.
  - destruct Hh as [[-> H]|(Hr & H & Hmax)]; [left; split; [done|]; auto|right]. split; [done|].
    split; [auto|]. intros c Hc. apply Hf; [lia|auto].
  - destruct Hl as [[-> H]|(Hr & H & Hmin)]; [left; split; [done|]; auto|right]. split; [done|].
    split; [auto|]. intros c Hc. apply Hf; [lia|auto].
Qed.

Lemma bitmap_tracks_set_witness : ∃ bm hi, run_bm [BSet 3; BSet 200; BSet 255; BClear 255] BITMAP256_INIT = Some bm ∧
  bitmap256_find_highest (Some bm) = Some hi ∧ hi = 200.
Proof.
  destruct (bitmap_tracks_set [BSet 3; BSet 200; BSet 255; BClear 255]) as (bm & hi & lo & E & Eh & _).
  - repeat constructor; cbn; lia.
  - exists bm, hi. split; [exact E|]. split; [exact Eh|]. vm_compute in E. injection E as <-.
    vm_compute in Eh. by injection Eh as <-.
Defined.

(** On a well-formed bitmap [bitmap256_count] is the number of set bits,
    [bitmap256_empty] tells whether there is none, and [bitmap256_merge] is the
    union. *)
Theorem bitmap_count_empty_merge bm src : bm_wf bm → bm_wf src →
  bitmap256_count (Some bm) = Some (bitsum (has_bit bm) 256) ∧
  bitmap256_empty (Some bm) = Some (bool_decide (bits bm = [0; 0; 0; 0])) ∧
  ∃ bm', bitmap256_merge bm src = Some bm' ∧ bm_wf bm' ∧
    ∀ c, 0 <= c < 256 → has_bit bm' c = has_bit bm c || has_bit src c.
Proof.
  intros H1 H2. split; [by apply bitmap256_count_spec|]. split; [by apply bitmap256_empty_spec|].
  by apply bitmap256_merge_spec.
Qed.

Lemma bitmap_count_empty_merge_witness :
  bitmap256_count (Some (Bitmap256 [5; 0; 0; 2 ^ 63])) = Some 3 ∧
  ∃ bm', bitmap256_merge (Bitmap256 [5; 0; 0; 2 ^ 63]) (Bitmap256 [2; 0; 0; 0]) = Some bm'.
Proof.
  destruct (bitmap_count_empty_merge (Bitmap256 [5; 0; 0; 2 ^ 63]) (Bitmap256 [2; 0; 0; 0]))
    as (H1 & _ & bm' & H2 & _); [split; [done|repeat constructor; cbn; lia]..|].
  split; [rewrite H1; vm_compute; reflexivity|]. exists bm'. exact H2.
Defined.
