(* ===== verification/TicketLock.v ===== *)
(** * The ticket spinlock (kernel/sched/spinlock.c)

    Every shared structure of the kernel is guarded by a [TicketLock_t], so the
    other components are modelled sequentially; this file justifies that.  The
    lock is modelled as a concurrent program: each CPU has a program counter
    inside [ticket_lock_acquire], [ticket_lock_release] or
    [ticket_lock_try_acquire], a step is one atomic access of the C code, and
    CPUs interleave arbitrarily.  The counters are [uint32_t] and wrap.

    The specification is a FIFO queue of CPUs whose head is the only one that
    may be inside the critical section ([alock]); [step_simulates] is the
    simulation that gives mutual exclusion, first-come-first-served order and
    absence of deadlock. *)

From S2P Require Import Prelude.

Set Default Goal Selector "!".

(** ** The lock and the program counters *)

Record TicketLock_t := TicketLock { next_ticket : Z; serving_ticket : Z }.

Definition ticket_lock_init : TicketLock_t := TicketLock 0 0.

Definition ticket_lock_is_held (lock : option TicketLock_t) : bool :=
  match lock with
  | None => false
  | Some l => negb (next_ticket l =? serving_ticket l)
  end.

(** Where a CPU stands, with the locals of the C function it is in. *)
Inductive pc :=
  | Idle                       (* outside the lock functions, lock not held *)
  | Spin (my_ticket : Z)       (* acquire: between the fetch-add and leaving the loop *)
  | Crit (my_ticket : Z)       (* acquired *)
  | RelLoaded (my_ticket serving : Z)  (* release: serving loaded, next not yet *)
  | RelStore (my_ticket serving : Z)   (* release: test passed, store pending *)
  | TryLoaded (expected : Z)   (* try_acquire: next loaded *)
  | TryCas (expected : Z).     (* try_acquire: lock seen free, CAS pending *)

#[export] Instance pc_eq_dec : EqDecision pc.
Proof. solve_decision. Defined.

Record lock_state := LockState { lock : TicketLock_t; pcs : list pc }.

(** ** Steps: one per atomic access of spinlock.c *)

Inductive step : lock_state → lock_state → Prop :=
  (* ticket_lock_acquire *)
  | step_fetch_next i l ps :
      ps !! i = Some Idle →
      step (LockState l ps)
           (LockState (TicketLock (u32 (next_ticket l + 1)) (serving_ticket l))
                      (<[i := Spin (next_ticket l)]> ps))
  | step_spin_enter i t l ps :
      ps !! i = Some (Spin t) → serving_ticket l = t →
      step (LockState l ps) (LockState l (<[i := Crit t]> ps))
  | step_spin_wait i t l ps :
      ps !! i = Some (Spin t) → serving_ticket l ≠ t →
      step (LockState l ps) (LockState l ps)
  (* ticket_lock_release *)
  | step_release_load i t l ps :
      ps !! i = Some (Crit t) →
      step (LockState l ps) (LockState l (<[i := RelLoaded t (serving_ticket l)]> ps))
  | step_release_noop i t s l ps :
      ps !! i = Some (RelLoaded t s) → s = next_ticket l →
      step (LockState l ps) (LockState l (<[i := Idle]> ps))
  | step_release_test i t s l ps :
      ps !! i = Some (RelLoaded t s) → s ≠ next_ticket l →
      step (LockState l ps) (LockState l (<[i := RelStore t s]> ps))
  | step_release_store i t s l ps :
      ps !! i = Some (RelStore t s) →
      step (LockState l ps)
           (LockState (TicketLock (next_ticket l) (u32 (s + 1))) (<[i := Idle]> ps))
  (* ticket_lock_try_acquire *)
  | step_try_load i l ps :
      ps !! i = Some Idle →
      step (LockState l ps) (LockState l (<[i := TryLoaded (next_ticket l)]> ps))
  | step_try_busy i e l ps :
      ps !! i = Some (TryLoaded e) → serving_ticket l ≠ e →
      step (LockState l ps) (LockState l (<[i := Idle]> ps))
  | step_try_free i e l ps :
      ps !! i = Some (TryLoaded e) → serving_ticket l = e →
      step (LockState l ps) (LockState l (<[i := TryCas e]> ps))
  | step_try_cas_fail i e l ps :
      ps !! i = Some (TryCas e) → next_ticket l ≠ e →
      step (LockState l ps) (LockState l (<[i := Idle]> ps))
  | step_try_cas_ok i e l ps :
      ps !! i = Some (TryCas e) → next_ticket l = e →
      step (LockState l ps)
           (LockState (TicketLock (u32 (e + 1)) (serving_ticket l)) (<[i := Crit e]> ps)).

Definition init_state (n : nat) : lock_state := LockState ticket_lock_init (replicate n Idle).

(** A pending compare-and-swap is not overtaken by a full turn (2^32 tickets)
    of the counter: the next ticket handed out is not the one it expects. *)
Definition no_wrap (s : lock_state) : Prop :=
  ∀ i e, pcs s !! i = Some (TryCas e) → u32 (next_ticket (lock s) + 1) ≠ e.

Definition step_nw (s s' : lock_state) : Prop := step s s' ∧ no_wrap s.

Definition reachable (n : nat) (s : lock_state) : Prop := rtc step_nw (init_state n) s.

(** ** The specification: a queue of CPUs *)

(** [queue]: the CPUs that asked for the lock, in order; the head holds it once
    [entered]. *)
Record alock := ALock { queue : list nat; entered : bool }.

Inductive astep : alock → alock → Prop :=
  | astep_stutter a : astep a a
  | astep_request i q e : i ∉ q → astep (ALock q e) (ALock (q ++ [i]) e)
  | astep_enter i q : astep (ALock (i :: q) false) (ALock (i :: q) true)
  | astep_request_enter i : astep (ALock [] false) (ALock [i] true)
  | astep_leave i q : astep (ALock (i :: q) true) (ALock q false).

(** ** The simulation relation *)

Definition pc_ticket (p : pc) : option Z :=
  match p with
  | Spin t | Crit t | RelLoaded t _ | RelStore t _ => Some t
  | _ => None
  end.

Definition in_crit (p : pc) : bool :=
  match p with Crit _ | RelLoaded _ _ | RelStore _ _ => true | _ => false end.

(** Locals that must agree with the shared counters. *)
Definition pc_ok (l : TicketLock_t) (q : list nat) (p : pc) : Prop :=
  match p with
  | RelLoaded t s | RelStore t s => s = serving_ticket l
  | TryCas e => next_ticket l = e → q = []
  | _ => True
  end.

Record sim (n : nat) (s : lock_state) (a : alock) : Prop := {
  sim_len : length (pcs s) = n;
  sim_serving : 0 <= serving_ticket (lock s) < 2 ^ 32;
  sim_next : next_ticket (lock s)
             = u32 (serving_ticket (lock s) + Z.of_nat (length (queue a)));
  sim_ticket : ∀ d i, queue a !! d = Some i →
     ∃ p, pcs s !! i = Some p ∧
          pc_ticket p = Some (u32 (serving_ticket (lock s) + Z.of_nat d)) ∧
          in_crit p = bool_decide (d = 0%nat) && entered a;
  sim_others : ∀ i p, pcs s !! i = Some p → i ∉ queue a → pc_ticket p = None;
  sim_nodup : NoDup (queue a);
  sim_entered : entered a = true → queue a ≠ [];
  sim_ok : ∀ i p, pcs s !! i = Some p → pc_ok (lock s) (queue a) p
}.

(** ** Arithmetic of the wrapping counters *)

Lemma u32_add_inj s a b :
  0 <= a < 2 ^ 32 → 0 <= b < 2 ^ 32 → u32 (s + a) = u32 (s + b) → a = b.
Proof. unfold u32. intros Ha Hb E. pose proof (Z.div_mod (s + a) (2 ^ 32)). pose proof (Z.div_mod (s + b) (2 ^ 32)). nia. Qed.

Lemma u32_succ_l s a : u32 (u32 s + a) = u32 (s + a).
Proof. unfold u32. apply Z.add_mod_idemp_l. lia. Qed.

(** ** Consequences of the relation *)

Section sim_facts.
Context (n : nat) (Hn : Z.of_nat n < 2 ^ 32) (l : TicketLock_t) (ps : list pc) (a : alock).
Context (Hsim : sim n (LockState l ps) a).

Lemma sim_lookup i : i ∈ queue a → ∃ p, ps !! i = Some p ∧ is_Some (pc_ticket p).
Proof.
  intros [d Hd]%list_elem_of_lookup. destruct (sim_ticket _ _ _ Hsim _ _ Hd) as (p & ? & Ht & _).
  exists p. rewrite Ht. eauto.
Qed.

Lemma sim_queue_lt i : i ∈ queue a → (i < n)%nat.
Proof. intros (p & Hp & _)%sim_lookup. rewrite <-(sim_len _ _ _ Hsim). by eapply lookup_lt_Some. Qed.

Lemma sim_queue_length : (length (queue a) <= n)%nat.
Proof.
  rewrite <-(length_seq n 0). apply submseteq_length, NoDup_submseteq; [apply (sim_nodup _ _ _ Hsim)|].
  intros i Hi%sim_queue_lt. apply elem_of_seq. lia.
Qed.

Lemma sim_not_queued i p : ps !! i = Some p → pc_ticket p = None → i ∉ queue a.
Proof. intros Hp Ht (p' & Hp' & [t Ht'])%sim_lookup. congruence. Qed.

(** A CPU that is not queued leaves room for one more ticket. *)
Lemma sim_room i p : ps !! i = Some p → pc_ticket p = None → (length (queue a) < n)%nat.
Proof.
  intros Hp Ht. pose proof (sim_not_queued _ _ Hp Ht) as Hi.
  assert (length (i :: queue a) <= length (seq 0 n))%nat as H; [|rewrite length_seq in H; simpl in H; lia].
  apply submseteq_length, NoDup_submseteq; [by apply NoDup_cons; split; [|apply (sim_nodup _ _ _ Hsim)]|].
  intros j [->|Hj%sim_queue_lt]%elem_of_cons; apply elem_of_seq; [|lia].
  apply lookup_lt_Some in Hp. rewrite (sim_len _ _ _ Hsim : length ps = n) in Hp. lia.
Qed.

Lemma sim_position i p t :
  ps !! i = Some p → pc_ticket p = Some t →
  ∃ d, queue a !! d = Some i ∧ t = u32 (serving_ticket l + Z.of_nat d) ∧
       in_crit p = bool_decide (d = 0%nat) && entered a.
Proof.
  intros Hp Ht. destruct (decide (i ∈ queue a)) as [[d Hd]%list_elem_of_lookup|Hi].
  - destruct (sim_ticket _ _ _ Hsim _ _ Hd) as (p' & Hp' & Ht' & Hc). simpl in *.
    exists d. rewrite Hp in Hp'. simplify_eq. done.
  - pose proof (sim_others _ _ _ Hsim _ _ Hp Hi). congruence.
Qed.

(** Only the head of the queue can be inside, and it holds the serving ticket. *)
Lemma sim_inside i p :
  ps !! i = Some p → in_crit p = true →
  ∃ q, a = ALock (i :: q) true ∧ pc_ticket p = Some (serving_ticket l).
Proof.
  intros Hp Hc. assert (∃ t, pc_ticket p = Some t) as [t Ht] by (destruct p; naive_solver).
  destruct (sim_position _ _ _ Hp Ht) as (d & Hd & -> & E). rewrite Hc in E. symmetry in E.
  apply andb_true_iff in E as [->%bool_decide_eq_true_1 He].
  destruct a as [[|j q] e]; simpl in *; simplify_eq. exists q. split; [done|].
  rewrite Ht, Z.add_0_r, u32_small; [done|]. apply (sim_serving _ _ _ Hsim).
Qed.

(** The queued CPU whose ticket is being served is the head. *)
Lemma sim_serving_head i t :
  ps !! i = Some (Spin t) → serving_ticket l = t → ∃ q, a = ALock (i :: q) false.
Proof.
  intros Hp Hs. destruct (sim_position _ _ t Hp eq_refl) as (d & Hd & Ht & E).
  pose proof sim_queue_length. apply lookup_lt_Some in Hd as Hlt.
  pose proof (sim_serving _ _ _ Hsim) as Hr. simpl in Hr.
  assert (Z.of_nat d = 0).
  { apply (u32_add_inj (serving_ticket l)); [lia..|]. rewrite <-Ht, Z.add_0_r, u32_small; done. }
  assert (d = 0%nat) as -> by lia. destruct a as [[|j q] e]; simpl in *; simplify_eq.
  by exists q.
Qed.

(** Changing a program counter without touching its ticket or the lock. *)
Lemma sim_update i p p' :
  ps !! i = Some p → pc_ticket p' = pc_ticket p → in_crit p' = in_crit p →
  pc_ok l (queue a) p' → sim n (LockState l (<[i := p']> ps)) a.
Proof.
  intros Hp Ht Hc Hok. apply lookup_lt_Some in Hp as Hlt. destruct Hsim. simpl in *.
  split; simpl; try done.
  - by rewrite length_insert.
  - intros d j Hd. destruct (sim_ticket0 _ _ Hd) as (pj & Hj & Htj & Hcj).
    destruct (decide (i = j)) as [<-|Hne].
    + exists p'. rewrite list_lookup_insert_eq by done. rewrite Hj in Hp. simplify_eq.
      split_and!; [done|congruence|congruence].
    + exists pj. by rewrite list_lookup_insert_ne.
  - intros j pj. rewrite list_lookup_insert_Some. intros [(<- & <- & _)|[? Hj]] Hi.
    + rewrite Ht. by eapply sim_others0.
    + by eapply sim_others0.
  - intros j pj. rewrite list_lookup_insert_Some. intros [(<- & <- & _)|[? Hj]]; [done|by eapply sim_ok0].
Qed.
End sim_facts.

(** ** The simulation, step by step *)

(** A CPU that is not queued takes the next ticket, spinning (acquire) or
    already inside (a successful try on a free lock). *)
Lemma sim_take n l ps a i p p' e' :
  Z.of_nat n < 2 ^ 32 → sim n (LockState l ps) a → no_wrap (LockState l ps) →
  ps !! i = Some p → pc_ticket p = None →
  pc_ticket p' = Some (next_ticket l) → in_crit p' = bool_decide (queue a = []) && e' →
  (∀ l' q, pc_ok l' q p') → (queue a ≠ [] → e' = entered a) →
  sim n (LockState (TicketLock (u32 (next_ticket l + 1)) (serving_ticket l)) (<[i := p']> ps))
      (ALock (queue a ++ [i]) e').
Proof.
  intros Hn Hsim Hnw Hp Hpt Ht Hc Hok He'.
  pose proof (sim_room _ _ _ _ Hsim _ _ Hp Hpt) as Hroom.
  pose proof (sim_not_queued _ _ _ _ Hsim _ _ Hp Hpt) as Hi.
  apply lookup_lt_Some in Hp as Hlt.
  destruct Hsim as [Hlen Hsv Hnx Htk Hot Hnd Hen Hpc]. simpl in *. split; simpl.
  - by rewrite length_insert.
  - done.
  - rewrite Hnx, u32_succ_l, length_app. simpl. f_equal. lia.
  - intros d j [Hd|[Hd Hj]]%lookup_app_Some.
    + destruct (Htk _ _ Hd) as (pj & Hj & Htj & Hcj). exists pj.
      assert (i ≠ j) by (intros <-; apply Hi, list_elem_of_lookup; eauto).
      rewrite list_lookup_insert_ne by done. split_and!; [done..|].
      rewrite Hcj. f_equal. symmetry. apply He'. intros E. by rewrite E in Hd.
    + destruct (d - length (queue a))%nat eqn:Ed; [|done]. simpl in Hj. simplify_eq.
      assert (d = length (queue a)) as -> by lia. exists p'.
      rewrite list_lookup_insert_eq by done. split_and!; [done|congruence|].
      rewrite Hc. f_equal. apply bool_decide_ext. by rewrite length_zero_iff_nil.
  - intros j pj. rewrite list_lookup_insert_Some, elem_of_app, list_elem_of_singleton.
    intros [(<- & <- & _)|[? Hj]] Hni; [tauto|]. eapply Hot; [done|tauto].
  - apply NoDup_app. split_and!; [done| |apply NoDup_singleton].
    intros x Hx ->%list_elem_of_singleton. done.
  - intros _ E. by apply app_nil in E as [_ ?].
  - intros j pj. rewrite list_lookup_insert_Some. intros [(<- & <- & _)|[? Hj]]; [done|].
    specialize (Hpc _ _ Hj). destruct pj; simpl in *; try done.
    intros E. exfalso. by eapply Hnw.
Qed.

(** The CPU inside stores the successor of the serving ticket and leaves. *)
Lemma sim_leave n l ps i p q :
  Z.of_nat n < 2 ^ 32 → sim n (LockState l ps) (ALock (i :: q) true) → ps !! i = Some p →
  sim n (LockState (TicketLock (next_ticket l) (u32 (serving_ticket l + 1))) (<[i := Idle]> ps))
      (ALock q false).
Proof.
  intros Hn Hsim Hp. pose proof (sim_queue_length _ _ _ _ Hsim) as Hql. simpl in Hql.
  pose proof (sim_inside _ _ _ _ Hsim) as Hin.
  apply lookup_lt_Some in Hp as Hlt.
  destruct Hsim as [Hlen Hsv Hnx Htk Hot Hnd Hen Hpc]. simpl in *.
  apply NoDup_cons in Hnd as [Hi Hnd]. split; simpl.
  - by rewrite length_insert.
  - apply u32_range.
  - rewrite Hnx, u32_succ_l. f_equal. lia.
  - intros d j Hd. destruct (Htk (S d) j Hd) as (pj & Hj & Htj & Hcj). exists pj.
    assert (i ≠ j) by (intros <-; apply Hi, list_elem_of_lookup; eauto).
    rewrite list_lookup_insert_ne by done. split_and!; [done| |].
    + rewrite Htj, u32_succ_l. do 2 f_equal. lia.
    + by rewrite Hcj, andb_false_r.
  - intros j pj. rewrite list_lookup_insert_Some. intros [(<- & <- & _)|[? Hj]] Hni; [done|].
    eapply Hot; [done|set_solver].
  - done.
  - done.
  - intros j pj. rewrite list_lookup_insert_Some. intros [(<- & <- & _)|[Hne Hj]]; [done|].
    specialize (Hpc _ _ Hj). specialize (Hin _ _ Hj).
    destruct pj as [| | |t s|t s| |e]; simpl in *; try done; [naive_solver..|].
    intros E. by apply Hpc in E.
Qed.

Lemma sim_init n : sim n (init_state n) (ALock [] false).
Proof.
  split; simpl; try done.
  - apply length_replicate.
  - intros i p [? _]%lookup_replicate. by subst.
  - apply NoDup_nil_2.
  - intros i p [? _]%lookup_replicate. by subst.
Qed.

Lemma step_simulates n s s' a :
  Z.of_nat n < 2 ^ 32 → sim n s a → step_nw s s' → ∃ a', astep a a' ∧ sim n s' a'.
Proof.
  intros Hn Hsim [Hstep Hnw].
  destruct Hstep as [i l ps Hp|i t l ps Hp Hs|i t l ps Hp Hs|i t l ps Hp|i t s l ps Hp Hs|i t s l ps Hp Hs
    |i t s l ps Hp|i l ps Hp|i e l ps Hp Hs|i e l ps Hp Hs|i e l ps Hp Hs|i e l ps Hp Hs].
  - (* fetch-and-add *)
    exists (ALock (queue a ++ [i]) (entered a)). split.
    { destruct a. apply astep_request. by eapply sim_not_queued. }
    eapply sim_take; try done. simpl.
    case_bool_decide as E; [|done]. simpl. destruct (entered a) eqn:Ee; [|done].
    exfalso. by eapply (sim_entered _ _ _ Hsim).
  - (* the ticket is served *)
    destruct (sim_serving_head _ Hn _ _ _ Hsim _ _ Hp Hs) as [q ->].
    exists (ALock (i :: q) true). split; [apply astep_enter|].
    apply lookup_lt_Some in Hp as Hlt.
    destruct Hsim as [Hlen Hsv Hnx Htk Hot Hnd Hen Hpc]. simpl in *. split; simpl; try done.
    + by rewrite length_insert.
    + intros d j Hd. destruct (Htk _ _ Hd) as (pj & Hj & Htj & Hcj).
      destruct d as [|d]; simpl in *; simplify_eq.
      * exists (Crit (serving_ticket l)). by rewrite list_lookup_insert_eq.
      * exists pj. assert (i ≠ j).
        { intros <-. apply NoDup_cons in Hnd as [Hi _]. apply Hi, list_elem_of_lookup. eauto. }
        by rewrite list_lookup_insert_ne.
    + intros j pj. rewrite list_lookup_insert_Some. intros [(<- & <- & _)|[? Hj]] Hi; [set_solver|].
      by eapply Hot.
    + intros j pj. rewrite list_lookup_insert_Some. intros [(<- & <- & _)|[? Hj]]; [done|by eapply Hpc].
  - exists a. split; [apply astep_stutter|done].
  - exists a. split; [apply astep_stutter|]. by eapply sim_update.
  - (* a holder never sees the lock free *)
    exfalso. destruct (sim_inside _ _ _ _ Hsim _ _ Hp eq_refl) as (q & -> & Ht).
    pose proof (sim_ok _ _ _ Hsim _ _ Hp) as Hk. simpl in Hk.
    pose proof (sim_queue_length _ _ _ _ Hsim) as Hql. simpl in Hql.
    pose proof (sim_serving _ _ _ Hsim) as Hr. simpl in Hr.
    pose proof (sim_next _ _ _ Hsim) as Hnx. simpl in Hnx.
    assert (Z.of_nat (S (length q)) = 0); [|lia].
    apply (u32_add_inj (serving_ticket l)); [lia..|]. rewrite <-Hnx, Z.add_0_r, u32_small; congruence.
  - exists a. split; [apply astep_stutter|]. eapply sim_update; try done.
    by apply (sim_ok _ _ _ Hsim _ _ Hp).
  - (* the store of the release *)
    destruct (sim_inside _ _ _ _ Hsim _ _ Hp eq_refl) as (q & -> & Ht).
    pose proof (sim_ok _ _ _ Hsim _ _ Hp) as Hk. simpl in Hk. subst s.
    exists (ALock q false). split; [apply astep_leave|]. by eapply sim_leave.
  - exists a. split; [apply astep_stutter|]. by eapply sim_update.
  - exists a. split; [apply astep_stutter|]. by eapply sim_update.
  - exists a. split; [apply astep_stutter|]. eapply sim_update; try done. simpl. intros E.
    pose proof (sim_queue_length _ _ _ _ Hsim) as Hql.
    pose proof (sim_serving _ _ _ Hsim) as Hr. simpl in Hr.
    pose proof (sim_next _ _ _ Hsim) as Hnx. simpl in Hnx.
    assert (Z.of_nat (length (queue a)) = 0); [|destruct (queue a); [done|simpl in *; lia]].
    apply (u32_add_inj (serving_ticket l)); [lia..|]. rewrite <-Hnx, Z.add_0_r, u32_small; congruence.
  - exists a. split; [apply astep_stutter|]. by eapply sim_update.
  - (* a successful compare-and-swap finds the lock free *)
    pose proof (sim_ok _ _ _ Hsim _ _ Hp Hs) as Hq.
    destruct a as [q ent]. simpl in Hq. subst q. destruct ent.
    { exfalso. by eapply (sim_entered _ _ _ Hsim). }
    exists (ALock [i] true). split; [apply astep_request_enter|]. subst e.
    eapply (sim_take n l ps (ALock [] false) i _ (Crit (next_ticket l)) true); done.
Qed.

Lemma reachable_sim n s :
  Z.of_nat n < 2 ^ 32 → reachable n s → ∃ a, rtc astep (ALock [] false) a ∧ sim n s a.
Proof.
  intros Hn. unfold reachable. revert s.
  apply (rtc_ind_r (λ s, ∃ a, rtc astep (ALock [] false) a ∧ sim n s a)).
  - exists (ALock [] false). split; [done|apply sim_init].
  - intros s1 s2 _ Hs (a & Ha & Hsim). destruct (step_simulates _ _ _ _ Hn Hsim Hs) as (a' & Ha' & Hsim').
    exists a'. split; [by eapply rtc_r|done].
Qed.

(** ** Theorems *)

(** C37: The ticket lock refines a FIFO queue: every interleaving of the atomic
    accesses of acquire, release and try_acquire on [n] CPUs (fewer than 2^32,
    and no pending CAS overtaken by a full turn of the 32-bit counter) is
    matched by a run of the queue specification, with the CPU at position [d]
    of the queue holding the ticket [serving + d] (mod 2^32) and only the head
    ever inside. *)
Theorem ticket_lock_refines_queue n s :
  Z.of_nat n < 2 ^ 32 → reachable n s →
  ∃ a, rtc astep (ALock [] false) a ∧ sim n s a.
Proof. apply reachable_sim. Qed.

(** Mutual exclusion: two CPUs are never both between a successful acquire
    (or try_acquire) and the store of their release. *)
Theorem ticket_lock_mutual_exclusion n s i j p p' :
  Z.of_nat n < 2 ^ 32 → reachable n s →
  pcs s !! i = Some p → in_crit p = true →
  pcs s !! j = Some p' → in_crit p' = true → i = j.
Proof.
  intros Hn Hr Hi Hpi Hj Hpj. destruct (reachable_sim _ _ Hn Hr) as (a & _ & Hsim).
  destruct s as [l ps].
  destruct (sim_inside _ _ _ _ Hsim _ _ Hi Hpi) as (q & -> & _).
  destruct (sim_inside _ _ _ _ Hsim _ _ Hj Hpj) as (q' & ? & _). naive_solver.
Qed.

(** No lost lock: whenever the lock is taken ([ticket_lock_is_held]) some
    CPU owns the ticket being served, and that CPU has a step that changes the
    state (it enters, or moves on in its critical section or release): the
    spinning CPUs are never left waiting for a ticket nobody will pass on. *)
Theorem ticket_lock_no_deadlock n s :
  Z.of_nat n < 2 ^ 32 → reachable n s → ticket_lock_is_held (Some (lock s)) = true →
  ∃ i p s', pcs s !! i = Some p ∧ pc_ticket p = Some (serving_ticket (lock s)) ∧
            step s s' ∧ pcs s' !! i ≠ pcs s !! i.
Proof.
  intros Hn Hr Hh. destruct (reachable_sim _ _ Hn Hr) as (a & _ & Hsim). destruct s as [l ps]. simpl in *.
  pose proof (sim_serving _ _ _ Hsim) as Hsv. pose proof (sim_next _ _ _ Hsim) as Hnx. simpl in *.
  destruct (queue a) as [|i q] eqn:Eq.
  { rewrite Z.add_0_r, u32_small in Hnx by done. rewrite Hnx in Hh. zify_bool. done. }
  destruct (sim_ticket _ _ _ Hsim 0%nat i) as (p & Hp & Ht & _); [by rewrite Eq|]. simpl in *.
  rewrite Z.add_0_r, u32_small in Ht by done.
  apply lookup_lt_Some in Hp as Hlt. zify_bool.
  destruct p as [|t|t|t s|t s| |]; simpl in Ht; simplify_eq; exists i; eexists.
  - exists (LockState l (<[i := Crit (serving_ticket l)]> ps)). split_and!; [done..|by econstructor|].
    simpl. rewrite list_lookup_insert_eq; [congruence|done].
  - exists (LockState l (<[i := RelLoaded (serving_ticket l) (serving_ticket l)]> ps)).
    split_and!; [done..|by econstructor|]. simpl. rewrite list_lookup_insert_eq; [congruence|done].
  - exists (LockState l (<[i := RelStore (serving_ticket l) s]> ps)).
    pose proof (sim_ok _ _ _ Hsim _ _ Hp) as Hk. simpl in Hk. subst s.
    split_and!; [done..|by econstructor|]. simpl. rewrite list_lookup_insert_eq; [congruence|done].
  - exists (LockState (TicketLock (next_ticket l) (u32 (s + 1))) (<[i := Idle]> ps)).
    split_and!; [done..|by econstructor|]. simpl. rewrite list_lookup_insert_eq; [congruence|done].
Qed.

(** ** Witnesses: two CPUs, one holding the lock and one waiting *)

Definition two_cpu_state : lock_state := LockState (TicketLock 2 0) [Crit 0; Spin 1].

Lemma two_cpu_reachable : reachable 2 two_cpu_state.
Proof.
  assert (∀ l ps, Forall (λ p, match p with TryCas _ => False | _ => True end) ps →
                  no_wrap (LockState l ps)) as Hnw.
  { intros l ps Hall i e He. simpl in He. by apply (Forall_lookup_1 _ _ _ _ Hall) in He. }
  eapply rtc_l; [split; [by apply (step_fetch_next 0)|apply Hnw; repeat constructor]|].
  eapply rtc_l; [split; [by apply (step_spin_enter 0 0)|apply Hnw; repeat constructor]|].
  eapply rtc_l; [split; [by apply (step_fetch_next 1)|apply Hnw; repeat constructor]|].
  apply rtc_refl.
Qed.

Lemma ticket_lock_refines_queue_witness :
  ∃ a, rtc astep (ALock [] false) a ∧ sim 2 two_cpu_state a.
Proof. apply ticket_lock_refines_queue; [done|apply two_cpu_reachable]. Defined.

Lemma ticket_lock_mutual_exclusion_witness : (0 = 0)%nat.
Proof.
  apply (ticket_lock_mutual_exclusion 2 two_cpu_state 0 0 (Crit 0) (Crit 0));
    [done|apply two_cpu_reachable|reflexivity..].
Defined.

Lemma ticket_lock_no_deadlock_witness :
  ∃ i p s', pcs two_cpu_state !! i = Some p ∧ pc_ticket p = Some 0 ∧
            step two_cpu_state s' ∧ pcs s' !! i ≠ pcs two_cpu_state !! i.
Proof. apply (ticket_lock_no_deadlock 2); [done|apply two_cpu_reachable|reflexivity]. Defined.
