(* ===== verification/RingBuffer.v ===== *)
(** * The IPC ring buffer (kernel/ipc/ring_buffer.c)

    A byte queue over a fixed buffer with wrap-around copies.  The model keeps
    the [uint64_t] positions and the two [memcpy] calls of the wrapping case;
    the specification is a bounded FIFO of bytes. *)

From S2P Require Import Prelude.

Set Default Goal Selector "!".

(** ** Data *)

Record ring_buffer_t := RingBuffer {
  buffer : list Z;   (* the bytes of the caller's buffer *)
  size : Z;
  rhead : Z;         (* head: write position *)
  rtail : Z;         (* tail: read position *)
  count : Z
}.

(** ** Operations.  [None] for a pointer argument is NULL. *)

Definition ring_buffer_init (rb : option ring_buffer_t) (buf : option (list Z)) (sz : Z)
  : option ring_buffer_t * Z :=
  match rb, buf with
  | Some _, Some b =>
      if sz =? 0 then (rb, - EINVAL) else (Some (RingBuffer b sz 0 0 0), KERNEL_OK)
  | _, _ => (rb, - EINVAL)
  end.

(** The copy of [ring_buffer_write], one [memcpy] or two: the buffer and [head]
    after it. *)
Definition write_copy (rb : ring_buffer_t) (data : list Z) (len : Z) : option (list Z * Z) :=
  if u64 (rhead rb + len) <=? size rb then
    b ← memcpy (buffer rb) (rhead rb) data 0 len;
    Some (b, u64 (rhead rb + len))
  else
    let first_part := u64 (size rb - rhead rb) in
    b ← memcpy (buffer rb) (rhead rb) data 0 first_part;
    b ← memcpy b 0 data first_part (u64 (len - first_part));
    Some (b, u64 (len - first_part)).

(** The locked part of [ring_buffer_write], after the parameter check. *)
Definition ring_buffer_write_locked (rb : ring_buffer_t) (data : list Z) (len : Z)
  : option (ring_buffer_t * Z) :=
  let space := u64 (size rb - count rb) in
  if space <? len then Some (rb, - ENOMEM)
  else
    p ← write_copy rb data len;
    Some (RingBuffer p.1 (size rb) p.2 (rtail rb) (u64 (count rb + len)), KERNEL_OK).

Definition ring_buffer_write (rb : option ring_buffer_t) (data : option (list Z)) (len : Z)
  : option (option ring_buffer_t * Z) :=
  match rb, data with
  | Some r, Some d =>
      if len =? 0 then Some (rb, - EINVAL)
      else p ← ring_buffer_write_locked r d len; Some (Some p.1, p.2)
  | _, _ => Some (rb, - EINVAL)
  end.

(** The copy of [ring_buffer_read]: the caller's buffer and [tail] after it. *)
Definition read_copy (rb : ring_buffer_t) (dst : list Z) (len : Z) : option (list Z * Z) :=
  if u64 (rtail rb + len) <=? size rb then
    d ← memcpy dst 0 (buffer rb) (rtail rb) len;
    Some (d, u64 (rtail rb + len))
  else
    let first_part := u64 (size rb - rtail rb) in
    d ← memcpy dst 0 (buffer rb) (rtail rb) first_part;
    d ← memcpy d first_part (buffer rb) 0 (u64 (len - first_part));
    Some (d, u64 (len - first_part)).

(** The locked part of [ring_buffer_read]; [dst] is the caller's buffer, whose
    bytes after the call are part of the result. *)
Definition ring_buffer_read_locked (rb : ring_buffer_t) (dst : list Z) (len : Z)
  : option (ring_buffer_t * list Z * Z) :=
  if count rb =? 0 then Some (rb, dst, - EAGAIN)
  else
    let avail := count rb in
    let len := if avail <? len then avail else len in
    p ← read_copy rb dst len;
    Some (RingBuffer (buffer rb) (size rb) (rhead rb) p.2 (u64 (count rb - len)),
          p.1, KERNEL_OK).

Definition ring_buffer_read (rb : option ring_buffer_t) (data : option (list Z)) (len : Z)
  : option (option ring_buffer_t * option (list Z) * Z) :=
  match rb, data with
  | Some r, Some d =>
      if len =? 0 then Some (rb, data, - EINVAL)
      else p ← ring_buffer_read_locked r d len; Some (Some p.1.1, Some p.1.2, p.2)
  | _, _ => Some (rb, data, - EINVAL)
  end.

Definition ring_buffer_space (rb : option ring_buffer_t) : Z :=
  match rb with None => 0 | Some rb => u64 (size rb - count rb) end.

Definition ring_buffer_available (rb : option ring_buffer_t) : Z :=
  match rb with None => 0 | Some rb => count rb end.

Definition ring_buffer_clear (rb : option ring_buffer_t) : option ring_buffer_t :=
  match rb with
  | None => None
  | Some rb => Some (RingBuffer (buffer rb) (size rb) 0 0 0)
  end.

(** ** Invariant and contents *)

Definition wrap (n k : Z) : Z := if k <? n then k else k - n.

(** The buffer really has [size] bytes (less than 2^63, so positions never
    overflow), and [head] is [count] bytes after [tail], modulo [size].  Both
    positions may rest at [size] itself. *)
Record rb_inv (rb : ring_buffer_t) : Prop := {
  inv_size : Z.of_nat (length (buffer rb)) = size rb ∧ 0 < size rb < 2 ^ 63;
  inv_tail : 0 <= rtail rb <= size rb;
  inv_head : 0 <= rhead rb <= size rb;
  inv_count : 0 <= count rb <= size rb;
  inv_pos : rhead rb = rtail rb + count rb ∨ rhead rb = rtail rb + count rb - size rb
}.

(** The bytes in the queue, oldest first. *)
Definition contents (rb : ring_buffer_t) : list Z :=
  (λ i : nat, default 0 (buffer rb !! Z.to_nat (wrap (size rb) (rtail rb + Z.of_nat i))))
    <$> seq 0 (Z.to_nat (count rb)).

(** ** Specification: a bounded FIFO of bytes *)

Inductive rb_op := RWrite (data : list Z) | RRead (len : Z) | RClear.

(** What the caller sees: the status and the bytes delivered. *)
Definition rb_out : Type := Z * list Z.

Definition fifo_exec (cap : Z) (op : rb_op) (q : list Z) : list Z * rb_out :=
  match op with
  | RWrite data =>
      if bool_decide (data = []) then (q, (- EINVAL, []))
      else if cap - Z.of_nat (length q) <? Z.of_nat (length data) then (q, (- ENOMEM, []))
      else (q ++ data, (KERNEL_OK, []))
  | RRead len =>
      if len =? 0 then (q, (- EINVAL, []))
      else if bool_decide (q = []) then (q, (- EAGAIN, []))
      else (drop (Z.to_nat len) q, (KERNEL_OK, take (Z.to_nat len) q))
  | RClear => ([], (KERNEL_OK, []))
  end.

(** A client call on a live ring buffer.  The caller of [ring_buffer_read]
    supplies [len] bytes of its own; the bytes delivered are as many as
    [ring_buffer_available] dropped by. *)
Definition rb_exec (op : rb_op) (rb : option ring_buffer_t)
  : option (option ring_buffer_t * rb_out) :=
  match op with
  | RWrite data =>
      r ← ring_buffer_write rb (Some data) (Z.of_nat (length data)); Some (r.1, (r.2, []))
  | RRead len =>
      r ← ring_buffer_read rb (Some (replicate (Z.to_nat len) 0)) len;
      let '(rb', d, st) := r in
      let n := ring_buffer_available rb - ring_buffer_available rb' in
      Some (rb', (st, take (Z.to_nat n) (default [] d)))
  | RClear => Some (ring_buffer_clear rb, (KERNEL_OK, []))
  end.

Fixpoint rb_execs (ops : list rb_op) (rb : option ring_buffer_t)
  : option (option ring_buffer_t * list rb_out) :=
  match ops with
  | [] => Some (rb, [])
  | op :: ops =>
      r ← rb_exec op rb; r' ← rb_execs ops r.1; Some (r'.1, r.2 :: r'.2)
  end.

Fixpoint fifo_execs (cap : Z) (ops : list rb_op) (q : list Z) : list Z * list rb_out :=
  match ops with
  | [] => (q, [])
  | op :: ops =>
      let r := fifo_exec cap op q in
      let r' := fifo_execs cap ops r.1 in (r'.1, r.2 :: r'.2)
  end.

(** The arguments of a call fit the [uint64_t] of the interface. *)
Definition rb_op_ok (op : rb_op) : Prop :=
  match op with
  | RWrite data => Z.of_nat (length data) < 2 ^ 64
  | RRead len => 0 <= len < 2 ^ 64
  | RClear => True
  end.

(** ** Lemmas *)

Lemma contents_length rb : length (contents rb) = Z.to_nat (count rb).
Proof. unfold contents. by rewrite length_fmap, length_seq. Qed.

Lemma contents_lookup rb (i : nat) :
  rb_inv rb → Z.of_nat i < count rb →
  contents rb !! i = buffer rb !! Z.to_nat (wrap (size rb) (rtail rb + Z.of_nat i)).
Proof.
  intros [[? ?] ? ? ? ?] Hi. unfold contents.
  rewrite list_lookup_fmap, lookup_seq_lt by lia. cbn.
  destruct (buffer rb !! _) eqn:E; [done|]. apply lookup_ge_None in E.
  unfold wrap in E. case_if; zify_bool; lia.
Qed.

(** Two queues with the same count and the same bytes are equal. *)
Lemma contents_ext rb (l : list Z) :
  rb_inv rb → count rb = Z.of_nat (length l) →
  (∀ i : nat, Z.of_nat i < count rb →
     buffer rb !! Z.to_nat (wrap (size rb) (rtail rb + Z.of_nat i)) = l !! i) →
  contents rb = l.
Proof.
  intros Hinv Hc H. apply list_eq. intros i.
  destruct (decide (Z.of_nat i < count rb)).
  - by rewrite contents_lookup, H.
  - rewrite (proj2 (lookup_ge_None _ _)); [|rewrite contents_length; lia].
    symmetry. apply lookup_ge_None. lia.
Qed.

Lemma write_locked_full rb data len :
  rb_inv rb → size rb - count rb < len →
  ring_buffer_write_locked rb data len = Some (rb, - ENOMEM).
Proof.
  intros [[? ?] ? ? ? ?] ?. unfold ring_buffer_write_locked. rewrite (u64_small (_ - _)) by lia.
  by rewrite (proj2 (Z.ltb_lt _ _)).
Qed.

(** Index arithmetic on wrapped positions. *)
Ltac wrap_solve :=
  unfold wrap in *;
  repeat match goal with
    |- context [?a <? ?b] => destruct (Z.ltb_spec a b)
  end; repeat case_decide; try lia; try done; f_equal; lia.

Lemma write_copy_spec rb data len :
  rb_inv rb → 0 < len → len <= size rb - count rb → len <= Z.of_nat (length data) →
  ∃ b h, write_copy rb data len = Some (b, h) ∧
    length b = length (buffer rb) ∧ 0 <= h <= size rb ∧
    (h = rhead rb + len ∨ size rb < rhead rb + len ∧ h = rhead rb + len - size rb) ∧
    (∀ k : nat, Z.of_nat k < len →
       b !! Z.to_nat (wrap (size rb) (rhead rb + Z.of_nat k)) = data !! k) ∧
    (∀ k : nat, Z.of_nat k < count rb →
       b !! Z.to_nat (wrap (size rb) (rtail rb + Z.of_nat k))
       = buffer rb !! Z.to_nat (wrap (size rb) (rtail rb + Z.of_nat k))).
Proof.
  intros [[Hlen ?] ? ? ? Hpos] ? ? ?. unfold write_copy.
  rewrite (u64_small (rhead rb + len)) by lia. cbv zeta.
  destruct (Z.leb_spec (rhead rb + len) (size rb)) as [?|?].
  - destruct (memcpy_Some (buffer rb) (rhead rb) data 0 len) as (b & -> & ? & Hb); [lia..|].
    exists b, (rhead rb + len). split_and!; [done|done|lia..|by left| |]; intros k Hk.
    + rewrite Hb. wrap_solve.
    + rewrite Hb. wrap_solve.
  - rewrite !(u64_small (size rb - rhead rb)) by lia.
    rewrite (u64_small (len - _)) by lia.
    destruct (memcpy_Some (buffer rb) (rhead rb) data 0 (size rb - rhead rb))
      as (b1 & -> & ? & Hb1); [lia..|]. cbn [mbind option_bind].
    destruct (memcpy_Some b1 0 data (size rb - rhead rb) (len - (size rb - rhead rb)))
      as (b & -> & ? & Hb); [lia..|]. cbn [mbind option_bind].
    exists b, (len - (size rb - rhead rb)).
    split_and!; [done|congruence|lia..|right; lia| |]; intros k Hk; rewrite Hb, Hb1;
      wrap_solve.
Qed.

Lemma write_locked_spec rb data len :
  rb_inv rb → 0 < len → len <= size rb - count rb → len <= Z.of_nat (length data) →
  ∃ rb', ring_buffer_write_locked rb data len = Some (rb', KERNEL_OK) ∧ rb_inv rb' ∧
         size rb' = size rb ∧ contents rb' = contents rb ++ take (Z.to_nat len) data.
Proof.
  intros Hinv ? ? ?. pose proof Hinv as [[Hlen ?] ? ? ? Hpos].
  unfold ring_buffer_write_locked. rewrite (u64_small (size rb - count rb)) by lia.
  rewrite (u64_small (count rb + len)), (proj2 (Z.ltb_ge _ _)) by lia.
  destruct (write_copy_spec rb data len)
    as (b & h & -> & Hb & Hh & Hh' & Hnew & Hold); [done..|].
  cbn [mbind option_bind fst snd]. eexists. split; [done|].
  assert (rb_inv (RingBuffer b (size rb) h (rtail rb) (count rb + len))) as Hinv'.
  { split; cbn; lia. }
  split_and!; [done|done|]. apply contents_ext; [done|..]; cbn [buffer count size rtail].
  - rewrite length_app, contents_length, length_take. lia.
  - intros i Hi. rewrite lookup_app. destruct (contents rb !! i) eqn:E.
    + pose proof (lookup_lt_Some _ _ _ E) as Hl. rewrite contents_length in Hl.
      rewrite <- E, contents_lookup, Hold by (done || lia). done.
    + apply lookup_ge_None in E. rewrite contents_length in *.
      rewrite lookup_take_lt by lia. rewrite <- Hnew by lia. wrap_solve.
Qed.

Lemma read_copy_spec rb dst n :
  rb_inv rb → 0 < n <= count rb → n <= Z.of_nat (length dst) →
  ∃ d t, read_copy rb dst n = Some (d, t) ∧
    length d = length dst ∧ 0 <= t <= size rb ∧
    (t = rtail rb + n ∨ size rb < rtail rb + n ∧ t = rtail rb + n - size rb) ∧
    (∀ k : nat, Z.of_nat k < n →
       d !! k = buffer rb !! Z.to_nat (wrap (size rb) (rtail rb + Z.of_nat k))) ∧
    (∀ k : nat, n <= Z.of_nat k → d !! k = dst !! k).
Proof.
  intros [[Hlen ?] ? ? ? Hpos] ? ?. unfold read_copy.
  rewrite (u64_small (rtail rb + n)) by lia. cbv zeta.
  destruct (Z.leb_spec (rtail rb + n) (size rb)) as [?|?].
  - destruct (memcpy_Some dst 0 (buffer rb) (rtail rb) n) as (b & -> & ? & Hb); [lia..|].
    exists b, (rtail rb + n). split_and!; [done|done|lia..|by left| |]; intros k Hk; rewrite Hb.
    + wrap_solve.
    + wrap_solve.
  - rewrite !(u64_small (size rb - rtail rb)) by lia. rewrite (u64_small (n - _)) by lia.
    destruct (memcpy_Some dst 0 (buffer rb) (rtail rb) (size rb - rtail rb))
      as (b1 & -> & ? & Hb1); [lia..|]. cbn [mbind option_bind].
    destruct (memcpy_Some b1 (size rb - rtail rb) (buffer rb) 0 (n - (size rb - rtail rb)))
      as (b & -> & ? & Hb); [lia..|]. cbn [mbind option_bind].
    exists b, (n - (size rb - rtail rb)).
    split_and!; [done|congruence|lia..|right; lia| |]; intros k Hk; rewrite Hb, Hb1;
      wrap_solve.
Qed.

Lemma read_locked_spec rb dst len :
  rb_inv rb → 0 < len → len <= Z.of_nat (length dst) → 0 < count rb →
  ∃ rb' d, ring_buffer_read_locked rb dst len = Some (rb', d, KERNEL_OK) ∧ rb_inv rb' ∧
           size rb' = size rb ∧ count rb - count rb' = Z.min len (count rb) ∧
           contents rb' = drop (Z.to_nat len) (contents rb) ∧
           d = take (Z.to_nat len) (contents rb) ++ drop (Z.to_nat (Z.min len (count rb))) dst.
Proof.
  intros Hinv ? ? Hc. pose proof Hinv as [[Hlen ?] ? ? ? Hpos].
  unfold ring_buffer_read_locked. rewrite (proj2 (Z.eqb_neq _ _)) by lia. cbv zeta.
  replace (if count rb <? len then count rb else len) with (Z.min len (count rb))
    by (destruct (Z.ltb_spec (count rb) len); lia).
  set (n := Z.min len (count rb)). assert (0 < n <= count rb ∧ n <= len) as [? ?] by lia.
  rewrite (u64_small (count rb - n)) by lia.
  destruct (read_copy_spec rb dst n) as (d & t & -> & Hd & Ht & Ht' & Hnew & Hold); [done|lia..|].
  cbn [mbind option_bind fst snd]. do 2 eexists. split; [done|].
  assert (rb_inv (RingBuffer (buffer rb) (size rb) (rhead rb) t (count rb - n))) as Hinv'.
  { split; cbn; lia. }
  split_and!; [done|done|cbn; lia|..].
  - apply contents_ext; [done|..]; cbn [buffer count size rtail].
    + rewrite length_drop, contents_length. lia.
    + intros i Hi. rewrite lookup_drop, contents_lookup by (done || lia). wrap_solve.
  - apply list_eq. intros k. destruct (decide (Z.of_nat k < n)).
    + rewrite Hnew, lookup_app_l by (rewrite ?length_take, ?contents_length; lia).
      rewrite lookup_take_lt, contents_lookup by (done || lia). done.
    + rewrite Hold, lookup_app_r by (rewrite ?length_take, ?contents_length; lia).
      rewrite lookup_drop, length_take, contents_length. f_equal. lia.
Qed.

Lemma rb_exec_refines op rb :
  rb_inv rb → rb_op_ok op →
  ∃ rb' out, rb_exec op (Some rb) = Some (Some rb', out) ∧ rb_inv rb' ∧ size rb' = size rb ∧
    fifo_exec (size rb) op (contents rb) = (contents rb', out).
Proof.
  intros Hinv Hop. pose proof Hinv as [[Hlen ?] ? ? ? Hpos].
  destruct op as [data|len|]; cbn [rb_exec fifo_exec ring_buffer_write ring_buffer_read
    ring_buffer_clear ring_buffer_available mbind option_bind rb_op_ok] in *.
  - destruct (decide (data = [])) as [->|Hd].
    { cbn. by exists rb, (- EINVAL, []). }
    assert (0 < Z.of_nat (length data)) by (destruct data; [done|cbn; lia]).
    rewrite (proj2 (Z.eqb_neq _ _)), bool_decide_eq_false_2 by (done || lia).
    rewrite contents_length. rewrite Z2Nat.id by lia.
    destruct (Z.ltb_spec (size rb - count rb) (Z.of_nat (length data))).
    + rewrite write_locked_full by (done || lia). cbn. by exists rb, (- ENOMEM, []).
    + destruct (write_locked_spec rb data (Z.of_nat (length data)))
        as (rb' & -> & ? & ? & Hc); [done|lia..|]. cbn.
      exists rb', (KERNEL_OK, []). rewrite Nat2Z.id, take_ge in Hc by lia. by rewrite Hc.
  - destruct (Z.eqb_spec len 0) as [->|?].
    { cbn. rewrite Z.sub_diag. cbn. by exists rb, (- EINVAL, []). }
    destruct (decide (count rb = 0)) as [Hc|Hc].
    + unfold ring_buffer_read_locked. rewrite (proj2 (Z.eqb_eq _ _)) by done. cbn.
      rewrite Z.sub_diag. rewrite bool_decide_eq_true_2.
      { by exists rb, (- EAGAIN, []). }
      apply length_zero_iff_nil. rewrite contents_length. lia.
    + destruct (read_locked_spec rb (replicate (Z.to_nat len) 0) len)
        as (rb' & d & -> & ? & ? & Hn & Hc' & ->); [done|lia|rewrite length_replicate; lia|lia|].
      cbn [mbind option_bind fst snd default id ring_buffer_available]. rewrite bool_decide_eq_false_2.
      2: { intros E%(f_equal length). rewrite contents_length in E. cbn in E. lia. }
      rewrite Hn. rewrite take_app_length' by (rewrite length_take, contents_length; lia).
      eexists rb', _. rewrite Hc'. by split_and!.
  - eexists _, _. split; [done|]. split_and!; [split; cbn; lia|done|done].
Qed.

Lemma ring_buffer_init_spec rb0 buf :
  buf ≠ [] → Z.of_nat (length buf) < 2 ^ 63 →
  ∃ rb, ring_buffer_init (Some rb0) (Some buf) (Z.of_nat (length buf)) = (Some rb, KERNEL_OK)
        ∧ rb_inv rb ∧ size rb = Z.of_nat (length buf) ∧ contents rb = [].
Proof.
  intros Hne ?. assert (0 < Z.of_nat (length buf)) by (destruct buf; [done|cbn; lia]).
  unfold ring_buffer_init. rewrite (proj2 (Z.eqb_neq _ _)) by lia.
  eexists. split; [done|]. split_and!; [split; cbn; lia|done|done].
Qed.

Lemma rb_execs_refines ops rb :
  rb_inv rb → Forall rb_op_ok ops →
  ∃ rb' outs, rb_execs ops (Some rb) = Some (Some rb', outs) ∧ rb_inv rb' ∧
    size rb' = size rb ∧ fifo_execs (size rb) ops (contents rb) = (contents rb', outs).
Proof.
  intros Hinv Hops. revert rb Hinv. induction Hops as [|op ops Hop _ IH]; intros rb Hinv.
  { by eexists _, _. }
  destruct (rb_exec_refines op rb) as (rb1 & out & Hr & Hinv1 & Hs1 & Hf); [done..|].
  destruct (IH rb1) as (rb' & outs & Hr' & ? & ? & Hf'); [done|].
  exists rb', (out :: outs). cbn. rewrite Hr. cbn. rewrite Hr'. cbn.
  split_and!; [done|done|congruence|]. rewrite Hf. cbn. rewrite <- Hs1, Hf'. done.
Qed.

(** ** Theorems *)

(** C36: the ring buffer is a bounded FIFO of bytes.  From [ring_buffer_init] on
    a buffer of less than 2^63 bytes, every sequence of writes, reads and
    clears runs without leaving the buffer and returns exactly the statuses and
    bytes of the abstract queue of that capacity: a write that does not fit is
    refused whole with -ENOMEM, a read delivers the oldest bytes in order, and
    the wrapping copies are invisible. *)
Theorem ring_buffer_refines_fifo (rb0 : ring_buffer_t) (buf : list Z) (ops : list rb_op) :
  buf ≠ [] → Z.of_nat (length buf) < 2 ^ 63 → Forall rb_op_ok ops →
  ∃ rb rb' outs,
    ring_buffer_init (Some rb0) (Some buf) (Z.of_nat (length buf)) = (Some rb, KERNEL_OK) ∧
    rb_execs ops (Some rb) = Some (Some rb', outs) ∧
    fifo_execs (Z.of_nat (length buf)) ops [] = (contents rb', outs) ∧
    ring_buffer_available (Some rb') = Z.of_nat (length (contents rb')) ∧
    ring_buffer_space (Some rb') = Z.of_nat (length buf) - Z.of_nat (length (contents rb')).
Proof.
  intros Hne Hlen Hops.
  destruct (ring_buffer_init_spec rb0 buf) as (rb & Hi & Hinv & Hs & Hc); [done..|].
  destruct (rb_execs_refines ops rb) as (rb' & outs & Hr & Hinv' & Hs' & Hf); [done..|].
  exists rb, rb', outs. rewrite Hs, Hc in Hf. destruct Hinv'.
  split_and!; [done..| |]; cbn; rewrite contents_length; [lia|].
  rewrite u64_small; lia.
Qed.

Lemma ring_buffer_refines_fifo_witness :
  ∃ rb rb' outs,
    ring_buffer_init (Some (RingBuffer [] 0 0 0 0)) (Some [0; 0; 0; 0]) 4 = (Some rb, KERNEL_OK) ∧
    rb_execs [RWrite [1; 2; 3]; RRead 2; RWrite [4; 5; 6]; RWrite [7]; RRead 9] (Some rb)
      = Some (Some rb', outs) ∧
    outs = [(0, []); (0, [1; 2]); (0, []); (-12, []); (0, [3; 4; 5; 6])].
Proof.
  destruct (ring_buffer_refines_fifo (RingBuffer [] 0 0 0 0) [0; 0; 0; 0]
    [RWrite [1; 2; 3]; RRead 2; RWrite [4; 5; 6]; RWrite [7]; RRead 9])
    as (rb & rb' & outs & H1 & H2 & H3 & _ & _); [done|cbn; lia|repeat constructor; cbn; lia|].
  exists rb, rb', outs. split; [exact H1|]. split; [exact H2|].
  vm_compute in H3. injection H3 as _ <-. reflexivity.
Defined.
