(* ===== verification/ObjectPool.v ===== *)
(** * Fixed-size object pools (kernel/mm/object_pool.c)

    A pool hands out equally sized objects of one buffer; the free objects are
    the first [free_count] entries of an index stack.  The specification is the
    set of live objects: an allocation returns an object that is not live, a
    free ends one life, and the leak iterator visits exactly the live ones. *)

From S2P Require Import Prelude.

Set Default Goal Selector "!".

(** ** Data *)

(** Pointers are addresses, [None] is NULL; [free_stack] is the array it points
    to.  The bytes of the buffer are kept beside the pool, in [world]. *)
Record object_pool_t := ObjectPool {
  buffer : option Z;
  obj_size : Z;
  capacity : Z;
  free_stack : option (list Z);
  free_count : Z;
  alloc_count : Z
}.

Record world := World { pool : object_pool_t; bytes : list Z }.

(** ** Operations *)

(** [for (i = 0; i < capacity; i++) free_stack[i] = (capacity - 1) - i] *)
Fixpoint fill_stack (n : nat) (i cap : Z) (st : list Z) : option (list Z) :=
  match n with
  | O => Some st
  | S n => st ← zupdate st i (u32 (u32 (cap - 1) - i)); fill_stack n (i + 1) cap st
  end.

Definition object_pool_init (w : option world) (buf : option Z) (osize cap : Z)
    (stack : option (list Z)) : option (option world * Z) :=
  match w, buf, stack with
  | Some w0, Some _, Some st =>
      if osize =? 0 then Some (w, - EINVAL)
      else if cap =? 0 then Some (w, - EINVAL)
      else
        st ← fill_stack (Z.to_nat cap) 0 cap st;
        (* the product is an uint32_t *)
        b ← memset (bytes w0) 0 0 (u32 (osize * cap));
        Some (Some (World (ObjectPool buf osize cap (Some st) cap 0) b), KERNEL_OK)
  | _, _, _ => Some (w, - EINVAL)
  end.

(** The result is the returned pointer. *)
Definition object_pool_alloc (w : world) : option (world * option Z) :=
  match buffer (pool w), free_stack (pool w) with
  | Some buf, Some st =>
      let p := pool w in
      if free_count p =? 0 then Some (w, None)
      else
        let fc := u32 (free_count p - 1) in
        index ← st.[fc];
        let p' := ObjectPool (buffer p) (obj_size p) (capacity p) (Some st) fc
                             (u32 (alloc_count p + 1)) in
        b ← memset (bytes w) (u64 (index * obj_size p)) 0 (obj_size p);
        Some (World p' b, Some (buf + u64 (index * obj_size p)))
  | _, _ => Some (w, None)
  end.

Definition object_pool_free (w : world) (obj : option Z) : option world :=
  match obj, buffer (pool w), free_stack (pool w) with
  | Some o, Some buf, Some st =>
      let p := pool w in
      let offset := u64 (o - buf) in
      if offset >=? u64 (obj_size p * capacity p) then Some w
      else if negb (offset mod obj_size p =? 0) then Some w
      else
        let index := u32 (offset / obj_size p) in
        if free_count p >=? capacity p then Some w
        else
          st' ← zupdate st (free_count p) index;
          Some (World (ObjectPool (buffer p) (obj_size p) (capacity p) (Some st')
                                  (u32 (free_count p + 1)) (alloc_count p)) (bytes w))
  | _, _, _ => Some w
  end.

Definition object_pool_owns (p : object_pool_t) (obj : option Z) : bool :=
  match obj, buffer p with
  | Some o, Some buf =>
      let offset := u64 (o - buf) in
      let total_size := u64 (obj_size p * capacity p) in
      if offset >=? total_size then false
      else if negb (offset mod obj_size p =? 0) then false else true
  | _, _ => false
  end.

Definition object_pool_free_count (p : option object_pool_t) : Z :=
  match p with None => 0 | Some p => free_count p end.

Definition object_pool_used_count (p : option object_pool_t) : Z :=
  match p with None => 0 | Some p => u32 (capacity p - free_count p) end.

Definition OBJ_POOL_FOREACH_MAX_CAPACITY : Z := 1024.
Definition OBJ_POOL_FOREACH_BITMAP_WORDS : Z := (OBJ_POOL_FOREACH_MAX_CAPACITY + 31) / 32.

(** First loop of [object_pool_foreach]: mark the free indices. *)
Fixpoint mark_free (n : nat) (i : Z) (cap : Z) (st bitmap : list Z) : option (list Z) :=
  match n with
  | O => Some bitmap
  | S n =>
      index ← st.[i];
      bitmap ← (if index <? cap then
                  w ← bitmap.[index / 32];
                  zupdate bitmap (index / 32) (u32 (Z.lor w (u64 (Z.shiftl 1 (index mod 32)))))
                else Some bitmap);
      mark_free n (i + 1) cap st bitmap
  end.

(** Second loop: the objects passed to the callback, in order. *)
Fixpoint visit_used (n : nat) (i buf osize : Z) (bitmap : list Z) : option (list Z) :=
  match n with
  | O => Some []
  | S n =>
      w ← bitmap.[i / 32];
      rest ← visit_used n (i + 1) buf osize bitmap;
      if Z.land w (u64 (Z.shiftl 1 (i mod 32))) =? 0
      then Some ((buf + u64 (i * osize)) :: rest) else Some rest
  end.

(** [bitmap0] is what the stack holds where the local array [bitmap] lies; the
    result lists the callback's arguments. *)
Definition object_pool_foreach (bitmap0 : list Z) (p : object_pool_t) : option (list Z) :=
  match buffer p, free_stack p with
  | Some buf, Some st =>
      if capacity p >? OBJ_POOL_FOREACH_MAX_CAPACITY then Some []
      else
        let bitmap_words := u32 (capacity p + 31) / 32 in
        bm ← memset bitmap0 0 0 bitmap_words;
        bm ← mark_free (Z.to_nat (free_count p)) 0 (capacity p) st bm;
        visit_used (Z.to_nat (capacity p)) 0 buf (obj_size p) bm
  | _, _ => Some []
  end.

(** ** Specification *)

Inductive pool_op := PAlloc | PFree (obj : option Z).

Definition pool_exec (op : pool_op) (w : world) : option (world * option Z) :=
  match op with
  | PAlloc => object_pool_alloc w
  | PFree o => w' ← object_pool_free w o; Some (w', None)
  end.

Section spec.
(** Where the buffer lies and its shape. *)
Context (base osize cap : Z).

Definition obj_addr (i : Z) : Z := base + i * osize.

Definition is_obj (a : Z) : Prop := ∃ i, 0 <= i < cap ∧ a = obj_addr i.

(** One call on the set of live objects. *)
Inductive apool_step (live : gset Z) : pool_op → option Z → gset Z → Prop :=
  | a_alloc a : is_obj a → a ∉ live → apool_step live PAlloc (Some a) ({[a]} ∪ live)
  | a_full : (∀ a, is_obj a → a ∈ live) → apool_step live PAlloc None live
  | a_free a : a ∈ live → apool_step live (PFree (Some a)) None (live ∖ {[a]})
  | a_free_null : apool_step live (PFree None) None live
  | a_free_foreign a : ¬ is_obj a → apool_step live (PFree (Some a)) None live.

(** The caller's duty: no object is freed twice. *)
Definition client_ok (live : gset Z) (op : pool_op) : Prop :=
  match op with PFree (Some a) => is_obj a → a ∈ live | _ => True end.

(** The indices on the stack. *)
Definition free_list (p : object_pool_t) : list Z :=
  take (Z.to_nat (free_count p)) (default [] (free_stack p)).

(** The pool represents the live set. *)
Record pool_rep (w : world) (live : gset Z) : Prop := PoolRep {
  rep_buffer : buffer (pool w) = Some base;
  rep_size : obj_size (pool w) = osize;
  rep_cap : capacity (pool w) = cap;
  rep_bytes : Z.of_nat (length (bytes w)) = osize * cap;
  rep_stack : ∃ st, free_stack (pool w) = Some st ∧ Z.of_nat (length st) = cap;
  rep_count : 0 <= free_count (pool w) <= cap;
  rep_nodup : NoDup (free_list (pool w));
  rep_free : ∀ i, i ∈ free_list (pool w) → 0 <= i < cap;
  rep_live : ∀ a, a ∈ live ↔ ∃ i, 0 <= i < cap ∧ a = obj_addr i ∧ i ∉ free_list (pool w)
}.

(** The bytes of the object at address [a]. *)
Definition obj_bytes (w : world) (a : Z) : list Z :=
  take (Z.to_nat osize) (drop (Z.to_nat (a - base)) (bytes w)).

(** ** Lemmas *)

Context (Hsize : 0 < osize < 2 ^ 32) (Hcap : 0 < cap < 2 ^ 32).
Context (Hbase : 0 < base) (Hend : base + osize * cap <= 2 ^ 64).

Lemma obj_addr_inj i j : obj_addr i = obj_addr j → i = j.
Proof. unfold obj_addr. nia. Qed.

Lemma obj_offset_bound i : 0 <= i < cap → 0 <= i * osize ∧ i * osize + osize <= osize * cap.
Proof. nia. Qed.

Lemma free_list_length w live : pool_rep w live →
  Z.of_nat (length (free_list (pool w))) = free_count (pool w).
Proof.
  intros []. destruct rep_stack0 as (st & Hst & ?). unfold free_list. rewrite Hst. cbn.
  rewrite length_take. lia.
Qed.

(** A pool with a live object has room on its stack. *)
Lemma live_room w live a : pool_rep w live → a ∈ live → free_count (pool w) < cap.
Proof.
  intros Hrep Ha. rewrite <- (free_list_length w live) by done.
  apply (rep_live _ _ Hrep) in Ha as (i & Hi & _ & Hn).
  assert (NoDup (i :: free_list (pool w))) as Hnd
    by (constructor; [done|apply (rep_nodup _ _ Hrep)]).
  apply (NoDup_submseteq _ (seqZ 0 cap)) in Hnd.
  - apply submseteq_length in Hnd. rewrite length_seqZ in Hnd. cbn in Hnd. lia.
  - intros j Hj. apply elem_of_seqZ. apply elem_of_cons in Hj as [->|Hj]; [lia|].
    apply (rep_free _ _ Hrep) in Hj. lia.
Qed.

(** The address tests of [object_pool_free] and [object_pool_owns] decide
    whether the pointer is an object of the pool. *)
Lemma offset_checks a : 0 <= a < 2 ^ 64 →
  if u64 (a - base) >=? u64 (osize * cap) then ¬ is_obj a
  else if negb (u64 (a - base) mod osize =? 0) then ¬ is_obj a
  else let i := u32 (u64 (a - base) / osize) in 0 <= i < cap ∧ a = obj_addr i.
Proof.
  intros Ha. rewrite (u64_small (osize * cap)) by nia.
  assert (∀ i, 0 <= i < cap → u64 (obj_addr i - base) = i * osize) as Hoff.
  { intros i ?%obj_offset_bound. unfold obj_addr. rewrite u64_small; lia. }
  rewrite Z.geb_leb. destruct (Z.leb_spec (osize * cap) (u64 (a - base))) as [Hge|Hlt].
  { intros (i & Hi & ->). rewrite Hoff in Hge by done. nia. }
  pose proof (u64_range (a - base)) as Hr.
  destruct (Z.eqb_spec (u64 (a - base) mod osize) 0) as [Hm|Hm]; cbn.
  - set (o := u64 (a - base)) in *. pose proof (Z.div_mod o osize ltac:(lia)) as Hd.
    assert (0 <= o / osize < cap) as Hi.
    { split; [apply Z.div_pos; lia|apply Z.div_lt_upper_bound; lia]. }
    rewrite (u32_small (o / osize)) by lia. split; [done|]. unfold obj_addr.
    assert (o = a - base).
    { unfold o in *. destruct (decide (base <= a)); [rewrite u64_small; lia|].
      assert (u64 (a - base) = a - base + 2 ^ 64) as E.
      { unfold u64. rewrite <- (Z.mod_small (a - base + 2 ^ 64) (2 ^ 64)) by lia.
        symmetry. rewrite <- (Z.mul_1_l (2 ^ 64)) at 1. apply Z_mod_plus_full. }
      lia. }
    lia.
  - intros (i & Hi & ->). rewrite Hoff in Hm by done. apply Hm, Z_mod_mult.
Qed.

Lemma object_pool_owns_spec w live a : pool_rep w live → 0 <= a < 2 ^ 64 →
  object_pool_owns (pool w) (Some a) = true ↔ is_obj a.
Proof.
  intros [] Ha. unfold object_pool_owns. rewrite rep_buffer0, rep_size0, rep_cap0.
  pose proof (offset_checks a Ha) as Hc. repeat case_if; split; try done.
  intros _. by exists (u32 (u64 (a - base) / osize)).
Qed.

(** Popping the stack: the index becomes live. *)
Lemma alloc_spec w live : pool_rep w live →
  (free_count (pool w) = 0 ∧ object_pool_alloc w = Some (w, None)) ∨
  ∃ w' i, object_pool_alloc w = Some (w', Some (obj_addr i)) ∧ 0 <= i < cap ∧
    obj_addr i ∉ live ∧ pool_rep w' ({[obj_addr i]} ∪ live) ∧
    memset (bytes w) (i * osize) 0 osize = Some (bytes w').
Proof.
  intros Hrep. pose proof Hrep as []. destruct rep_stack0 as (st & Hst & Hlen).
  unfold object_pool_alloc. rewrite rep_buffer0, Hst.
  destruct (Z.eqb_spec (free_count (pool w)) 0) as [?|Hne]; [by left|right].
  cbv zeta. rewrite (u32_small (free_count (pool w) - 1)) by lia.
  destruct (st !! Z.to_nat (free_count (pool w) - 1)) as [i|] eqn:Ei;
    [|apply lookup_ge_None in Ei; lia].
  assert (st.[free_count (pool w) - 1] = Some i) as ->.
  { unfold zlookup. by rewrite (proj2 (Z.leb_le _ _)) by lia. }
  cbn [mbind option_bind].
  assert (free_list (pool w) = take (Z.to_nat (free_count (pool w) - 1)) st ++ [i]) as Hfl.
  { unfold free_list. rewrite Hst. cbn. rewrite <- (take_S_r _ _ _ Ei). f_equal. lia. }
  assert (0 <= i < cap) as Hi by (apply rep_free0; rewrite Hfl; set_solver).
  pose proof (obj_offset_bound i Hi).
  rewrite rep_size0, (u64_small (i * osize)) by lia.
  destruct (memset_Some (bytes w) (i * osize) 0 osize) as (b & Hb & Hbl & _); [lia..|].
  rewrite Hb. cbn [mbind option_bind]. eexists _, i. split; [done|]. split; [done|].
  rewrite Hfl in *. apply NoDup_app in rep_nodup0 as (Hnd & Hni & _).
  split_and!; [|split; cbn [pool bytes buffer obj_size capacity free_stack free_count];
                 unfold free_list; cbn [free_count free_stack default id]|done].
  - rewrite rep_live0. intros (j & _ & E%obj_addr_inj & Hj). subst j. set_solver.
  - done.
  - done.
  - done.
  - lia.
  - eauto.
  - lia.
  - done.
  - intros j Hj. apply rep_free0. set_solver.
  - intros a. rewrite elem_of_union, elem_of_singleton, rep_live0. split.
    + intros [->|(j & ? & -> & Hj)]; [|set_solver].
      exists i. split; [done|]. split; [done|]. intros Hin. apply (Hni i Hin). set_solver.
    + intros (j & ? & -> & Hj). destruct (decide (i = j)) as [->|]; [by left|right].
      exists j. split; [done|]. split; [done|]. set_solver.
Qed.

(** Pushing a live object's index. *)
Lemma free_live_spec w live a : pool_rep w live → a ∈ live →
  ∃ w', object_pool_free w (Some a) = Some w' ∧ pool_rep w' (live ∖ {[a]}) ∧
        bytes w' = bytes w.
Proof.
  intros Hrep Ha. pose proof (live_room w live a Hrep Ha) as Hroom.
  pose proof Hrep as []. destruct rep_stack0 as (st & Hst & Hlen).
  apply rep_live0 in Ha as (i & Hi & -> & Hni). pose proof (obj_offset_bound i Hi).
  pose proof (offset_checks (obj_addr i) ltac:(unfold obj_addr; lia)) as Hc.
  unfold object_pool_free. rewrite rep_buffer0, Hst, rep_size0, rep_cap0.
  case_if; [destruct Hc; by exists i|]. case_if; [destruct Hc; by exists i|].
  destruct Hc as [Hj E%obj_addr_inj]. rewrite <- E.
  rewrite Z.geb_leb, (proj2 (Z.leb_gt _ _)) by lia.
  rewrite zupdate_total by lia. cbn [mbind option_bind].
  rewrite (u32_small (free_count (pool w) + 1)) by lia.
  eexists. split; [done|]. split; [|done]. revert rep_nodup0 rep_free0 rep_live0 Hni.
  unfold free_list. rewrite Hst. cbn [default id]. intros Hnd Hfree Hlive Hni.
  assert (take (Z.to_nat (free_count (pool w) + 1)) (<[Z.to_nat (free_count (pool w)):=i]> st)
          = take (Z.to_nat (free_count (pool w))) st ++ [i]) as Hfl.
  { replace (Z.to_nat (free_count (pool w) + 1))
      with (S (Z.to_nat (free_count (pool w)))) by lia.
    rewrite (take_S_r _ _ i) by (apply list_lookup_insert_eq; lia).
    by rewrite take_insert_ge by lia. }
  split; cbn [pool bytes buffer obj_size capacity free_stack free_count]; try done;
    unfold free_list; cbn [free_count free_stack default id]; try rewrite Hfl.
  - eexists. rewrite length_insert. eauto.
  - lia.
  - apply NoDup_app. split_and!; [done|set_solver|apply NoDup_singleton].
  - intros j Hj'. apply elem_of_app in Hj' as [?|?%list_elem_of_singleton]; [auto|by subst].
  - intros a. rewrite elem_of_difference, elem_of_singleton, Hlive. split.
    + intros [(j & ? & -> & Hnj) Hne]. exists j. split; [done|]. split; [done|].
      rewrite elem_of_app, list_elem_of_singleton. intros [?| ->]; done.
    + intros (j & ? & -> & Hnj). rewrite elem_of_app, list_elem_of_singleton in Hnj. split.
      * exists j. naive_solver.
      * intros ->%obj_addr_inj. naive_solver.
Qed.

Lemma free_foreign_spec w live a : pool_rep w live → 0 <= a < 2 ^ 64 → ¬ is_obj a →
  object_pool_free w (Some a) = Some w.
Proof.
  intros [] Ha Hn. destruct rep_stack0 as (st & Hst & Hlen).
  pose proof (offset_checks a Ha) as Hc.
  unfold object_pool_free. rewrite rep_buffer0, Hst, rep_size0, rep_cap0.
  case_if; [done|]. case_if; [done|]. destruct Hn. eexists. apply Hc.
Qed.

(** Clearing one object leaves every other object's bytes alone. *)
Lemma obj_bytes_cleared w w' i j : Z.of_nat (length (bytes w)) = osize * cap →
  0 <= i < cap → 0 <= j < cap →
  memset (bytes w) (i * osize) 0 osize = Some (bytes w') →
  obj_bytes w' (obj_addr j)
  = if decide (i = j) then replicate (Z.to_nat osize) 0 else obj_bytes w (obj_addr j).
Proof.
  intros Hlen Hi Hj Hm. pose proof (obj_offset_bound i Hi). pose proof (obj_offset_bound j Hj).
  destruct (memset_Some (bytes w) (i * osize) 0 osize) as (b & Hb & Hbl & Hk); [lia..|].
  assert (b = bytes w') as -> by congruence. unfold obj_bytes, obj_addr.
  replace (base + j * osize - base) with (j * osize) by lia.
  apply list_eq. intros k. destruct (decide (k < Z.to_nat osize)%nat).
  - rewrite lookup_take_lt, lookup_drop, Hk by lia. destruct (decide (i = j)) as [->|].
    + rewrite decide_True, lookup_replicate_2 by lia. done.
    + rewrite decide_False by nia. rewrite lookup_take_lt, lookup_drop by lia. done.
  - rewrite lookup_take_ge by lia. destruct (decide (i = j)).
    + symmetry. apply lookup_ge_None. rewrite length_replicate. lia.
    + by rewrite lookup_take_ge by lia.
Qed.

(** *** The leak iterator *)

Definition bm_bit (bm : list Z) (j : Z) : bool :=
  Z.testbit (default 0 bm.[j / 32]) (j mod 32).

Lemma bm_bit_update bm j w : 0 <= j → bm.[j / 32] = Some w →
  ∃ bm', zupdate bm (j / 32) (u32 (Z.lor w (u64 (Z.shiftl 1 (j mod 32))))) = Some bm' ∧
    length bm' = length bm ∧ ∀ k, 0 <= k → bm_bit bm' k = (k =? j) || bm_bit bm k.
Proof.
  intros Hj Hw. pose proof (zlookup_Some_lt _ _ _ Hw).
  rewrite zupdate_total by done. eexists. split; [done|]. rewrite length_insert.
  split; [done|]. intros k Hk.
  pose proof (Z.mod_pos_bound j 32 ltac:(lia)). pose proof (Z.mod_pos_bound k 32 ltac:(lia)).
  pose proof (Z.div_mod j 32 ltac:(lia)). pose proof (Z.div_mod k 32 ltac:(lia)). unfold bm_bit. destruct (decide (j / 32 = k / 32)) as [E|E].
  - rewrite <- E, zlookup_insert_eq, Hw by done. cbn. unfold u32.
    rewrite Z.mod_pow2_bits_low, testbit_set_word by lia.
    f_equal. apply eq_true_iff_eq. rewrite !Z.eqb_eq. lia.
  - rewrite zlookup_insert_ne by lia. rewrite (proj2 (Z.eqb_neq k j)); [done|]. congruence.
Qed.

Lemma mark_free_spec n i st bm :
  0 <= i → i + Z.of_nat n <= Z.of_nat (length st) → cap <= 32 * Z.of_nat (length bm) →
  (∀ x, x ∈ take n (drop (Z.to_nat i) st) → 0 <= x < cap) →
  ∃ bm', mark_free n i cap st bm = Some bm' ∧ length bm' = length bm ∧
    ∀ k, 0 <= k → bm_bit bm' k = bool_decide (k ∈ take n (drop (Z.to_nat i) st)) || bm_bit bm k.
Proof.
  revert i bm. induction n as [|n IH]; intros i bm Hi Hn Hbm Hst; cbn [mark_free].
  { exists bm. split_and!; [done..|]. intros k _. cbn. by rewrite bool_decide_eq_false_2 by set_solver. }
  assert (is_Some (st.[i])) as [x Hx] by (apply zlookup_is_Some; lia).
  rewrite Hx. cbn [mbind option_bind].
  assert (drop (Z.to_nat i) st = x :: drop (Z.to_nat (i + 1)) st) as Hdr.
  { rewrite (drop_S _ x (Z.to_nat i)); [f_equal; f_equal; lia|].
    revert Hx. unfold zlookup. by rewrite (proj2 (Z.leb_le _ _)). }
  rewrite Hdr in *. cbn [take] in *.
  assert (0 <= x < cap) as Hxr by (apply Hst; set_solver).
  rewrite (proj2 (Z.ltb_lt _ _)) by lia.
  assert (is_Some (bm.[x / 32])) as [w Hw].
  { apply zlookup_is_Some. split; [apply Z.div_pos; lia|apply Z.div_lt_upper_bound; lia]. }
  rewrite Hw. cbn [mbind option_bind].
  destruct (bm_bit_update bm x w) as (bm1 & E1 & Hl1 & Hb1); [lia|done|].
  rewrite E1. cbn [mbind option_bind].
  destruct (IH (i + 1) bm1) as (bm' & -> & Hl' & Hk); [lia..| |]; [set_solver|].
  exists bm'. split; [done|]. split; [congruence|]. intros k Hk0. rewrite Hk, Hb1 by done.
  rewrite orb_assoc. f_equal. apply eq_true_iff_eq.
  rewrite orb_true_iff, !bool_decide_eq_true, Z.eqb_eq. set_solver.
Qed.

Lemma visit_used_spec n i bm :
  0 <= i → i + Z.of_nat n <= cap → cap <= 32 * Z.of_nat (length bm) →
  visit_used n i base osize bm
  = Some (obj_addr <$> filter (λ j, bm_bit bm j = false) (seqZ i (Z.of_nat n))).
Proof.
  revert i. induction n as [|n IH]; intros i Hi Hn Hbm; cbn [visit_used]; [done|].
  assert (is_Some (bm.[i / 32])) as [w Hw].
  { apply zlookup_is_Some. split; [apply Z.div_pos; lia|apply Z.div_lt_upper_bound; lia]. }
  rewrite Hw. cbn [mbind option_bind]. rewrite IH by lia. cbn [mbind option_bind].
  pose proof (Z.mod_pos_bound i 32 ltac:(lia)).
  rewrite (seqZ_cons i) by lia. rewrite filter_cons.
  replace (Z.pred (Z.of_nat (S n))) with (Z.of_nat n) by lia.
  assert ((Z.land w (u64 (Z.shiftl 1 (i mod 32))) =? 0) = negb (bm_bit bm i)) as ->.
  { unfold bm_bit. rewrite Hw. cbn [default id from_option]. rewrite <- land_bit_test by lia.
    by rewrite negb_involutive. }
  pose proof (obj_offset_bound i ltac:(lia)). rewrite u64_small by lia.
  destruct (bm_bit bm i) eqn:E; cbn [negb].
  - by rewrite decide_False by congruence.
  - by rewrite decide_True by done.
Qed.

Lemma foreach_spec bitmap0 w live : pool_rep w live → cap <= 1024 → length bitmap0 = 32%nat →
  object_pool_foreach bitmap0 (pool w)
  = Some (filter (.∈ live) (obj_addr <$> seqZ 0 cap)).
Proof.
  intros [] Hc Hb0. destruct rep_stack0 as (st & Hst & Hlen).
  unfold object_pool_foreach, OBJ_POOL_FOREACH_MAX_CAPACITY.
  rewrite rep_buffer0, Hst, rep_size0, rep_cap0. rewrite Z.gtb_ltb, (proj2 (Z.ltb_ge _ _)) by lia.
  rewrite (u32_small (cap + 31)) by lia. cbv zeta.
  pose proof (Z.div_mod (cap + 31) 32 ltac:(lia)).
  pose proof (Z.mod_pos_bound (cap + 31) 32 ltac:(lia)).
  destruct (memset_Some bitmap0 0 0 ((cap + 31) / 32)) as (bm & -> & Hl & Hbm); [lia..|].
  cbn [mbind option_bind]. unfold free_list in *. rewrite Hst in *. cbn [default id] in *.
  destruct (mark_free_spec (Z.to_nat (free_count (pool w))) 0 st bm)
    as (bm' & -> & Hl' & Hbits); [lia..|exact rep_free0|].
  cbn [mbind option_bind]. rewrite visit_used_spec by lia. rewrite Z2Nat.id by lia.
  f_equal. apply fmap_filter_ext. intros j Hj%elem_of_seqZ. rewrite Hbits by lia. change (Z.to_nat 0) with 0%nat.
  rewrite drop_0. cbn. rewrite orb_false_iff, bool_decide_eq_false, rep_live0.
  assert (bm_bit bm j = false) as Hz.
  { unfold bm_bit. pose proof (Z.div_mod j 32 ltac:(lia)).
    pose proof (Z.mod_pos_bound j 32 ltac:(lia)). unfold zlookup.
    rewrite (proj2 (Z.leb_le _ _)) by lia. rewrite Hbm, decide_True by lia.
    apply Z.testbit_0_l. }
  split; [intros [? _]; exists j; split; [lia|done]|].
  intros (k & ? & ->%obj_addr_inj & ?). done.
Qed.

(** *** Initialisation *)

Lemma fill_stack_spec n i st : 0 <= i → i + Z.of_nat n = cap → Z.of_nat (length st) = cap →
  ∃ st', fill_stack n i cap st = Some st' ∧ length st' = length st ∧
    ∀ k : nat, st' !! k = if decide (i <= Z.of_nat k < cap)
                          then Some (cap - 1 - Z.of_nat k) else st !! k.
Proof.
  revert i st. induction n as [|n IH]; intros i st Hi Hn Hst; cbn [fill_stack].
  { exists st. split_and!; [done..|]. intros k. by rewrite decide_False by lia. }
  rewrite (u32_small (cap - 1)), u32_small by lia.
  rewrite zupdate_total by lia. cbn [mbind option_bind].
  destruct (IH (i + 1) (<[Z.to_nat i := cap - 1 - i]> st)) as (st' & -> & Hl & Hk);
    [lia..|rewrite length_insert; lia|].
  exists st'. rewrite length_insert in Hl. split_and!; [done..|]. intros k. rewrite Hk.
  destruct (decide (Z.of_nat k = i)) as [E|].
  - rewrite decide_False, decide_True by lia. subst i.
    rewrite Nat2Z.id. apply list_lookup_insert_eq. lia.
  - rewrite list_lookup_insert_ne by lia. repeat case_decide; (done || lia).
Qed.

Lemma init_spec w0 st : Z.of_nat (length (bytes w0)) = osize * cap →
  Z.of_nat (length st) = cap →
  ∃ w, object_pool_init (Some w0) (Some base) osize cap (Some st) = Some (Some w, KERNEL_OK) ∧
       pool_rep w ∅.
Proof.
  intros Hb Hst. unfold object_pool_init.
  rewrite !(proj2 (Z.eqb_neq _ _)) by lia.
  destruct (fill_stack_spec (Z.to_nat cap) 0 st) as (st' & -> & Hl & Hk); [lia..|].
  cbn [mbind option_bind]. pose proof (u32_range (osize * cap)).
  assert (u32 (osize * cap) <= osize * cap) by (apply Z.mod_le; lia).
  destruct (memset_Some (bytes w0) 0 0 (u32 (osize * cap))) as (b & -> & Hbl & _); [lia..|].
  cbn [mbind option_bind]. eexists. split; [done|].
  assert (∀ x, x ∈ take (Z.to_nat cap) st' ↔ 0 <= x < cap) as Hin.
  { intros x. rewrite take_ge, list_elem_of_lookup by lia. split.
    - intros [k Hx]. rewrite Hk in Hx. pose proof (lookup_lt_Some st k x) as Hlt.
      case_decide; [injection Hx as <-; lia|]. apply Hlt in Hx. lia.
    - intros Hx. exists (Z.to_nat (cap - 1 - x)). rewrite Hk, decide_True by lia.
      f_equal. lia. }
  split; cbn [pool bytes buffer obj_size capacity free_stack free_count]; try done;
    unfold free_list; cbn [free_count free_stack default id].
  - lia.
  - exists st'. split; [done|lia].
  - lia.
  - apply NoDup_alt. intros i j x. rewrite take_ge, !Hk by lia.
    pose proof (lookup_lt_Some st i x). pose proof (lookup_lt_Some st j x).
    intros Hi Hj. repeat case_decide; simplify_eq; try lia;
      repeat match goal with H : st !! _ = Some _ |- _ => apply lookup_lt_Some in H end; lia.
  - intros i. apply Hin.
  - intros a. split; [set_solver|]. intros (i & Hi & _ & []). by apply Hin.
Qed.
End spec.

(** ** Runs of a pool *)

(** The shape of a pool whose buffer lies inside the address space. *)
Definition pool_layout (base osize cap : Z) : Prop :=
  0 < osize < 2 ^ 32 ∧ 0 < cap < 2 ^ 32 ∧ 0 < base ∧ base + osize * cap <= 2 ^ 64.

(** Bookkeeping of the caller: what is live after a call that returned [r]. *)
Definition live_after (live : gset Z) (op : pool_op) (r : option Z) : gset Z :=
  match op, r with
  | PAlloc, Some a => {[a]} ∪ live
  | PFree (Some a), _ => live ∖ {[a]}
  | _, _ => live
  end.

Definition op_in_range (op : pool_op) : Prop :=
  match op with PFree (Some a) => 0 <= a < 2 ^ 64 | _ => True end.

(** The states and live sets that well-behaved clients reach from
    [object_pool_init]. *)
Inductive pool_reach (base osize cap : Z) : world → gset Z → Prop :=
  | reach_init w0 st w :
      Z.of_nat (length (bytes w0)) = osize * cap → Z.of_nat (length st) = cap →
      object_pool_init (Some w0) (Some base) osize cap (Some st) = Some (Some w, KERNEL_OK) →
      pool_reach base osize cap w ∅
  | reach_step w live op w' r :
      pool_reach base osize cap w live → op_in_range op → client_ok base osize cap live op →
      pool_exec op w = Some (w', r) →
      pool_reach base osize cap w' (live_after live op r).

Section runs.
Context (base osize cap : Z) (Hlay : pool_layout base osize cap).

Lemma exec_spec w live op : pool_rep base osize cap w live → op_in_range op →
  client_ok base osize cap live op →
  ∃ w' r, pool_exec op w = Some (w', r) ∧
    apool_step base osize cap live op r (live_after live op r) ∧
    pool_rep base osize cap w' (live_after live op r) ∧
    (∀ a, a ∈ live → obj_bytes base osize w' a = obj_bytes base osize w a) ∧
    (∀ a, r = Some a → obj_bytes base osize w' a = replicate (Z.to_nat osize) 0).
Proof using Hlay.
  destruct Hlay as (? & ? & ? & ?). intros Hrep Hr Hok.
  pose proof (rep_live _ _ _ _ _ Hrep) as Hlive. destruct op as [|[a|]]; cbn [pool_exec].
  - destruct (alloc_spec base osize cap ltac:(done) ltac:(done) ltac:(done) ltac:(done) w live Hrep)
      as [[Hz ->]|(w' & i & -> & Hi & Hni & Hrep' & Hm)].
    + exists w, None. split_and!; [done|apply a_full|done..].
      intros a (i & Hi & ->). apply Hlive. exists i. split_and!; [lia..|done|].
      unfold free_list. rewrite Hz. apply not_elem_of_nil.
    + exists w', (Some (obj_addr base osize i)). cbn [live_after].
      split_and!; [done|apply a_alloc; [by exists i|done]|done|..].
      * intros a Ha. pose proof Ha as (j & Hj & -> & _)%Hlive.
        rewrite (obj_bytes_cleared base osize cap) with (w := w) (i := i); try done.
        { rewrite decide_False; [done|]. by intros ->. }
        apply (rep_bytes _ _ _ _ _ Hrep).
      * intros a [= <-].
        rewrite (obj_bytes_cleared base osize cap) with (w := w) (i := i); try done.
        { by rewrite decide_True. }
        apply (rep_bytes _ _ _ _ _ Hrep).
  - destruct (decide (a ∈ live)) as [Ha|Ha].
    + destruct (free_live_spec base osize cap ltac:(done) ltac:(done) ltac:(done) ltac:(done)
        w live a Hrep Ha) as (w' & -> & Hrep' & Hb).
      eexists w', None. split_and!; [done|by apply a_free|done| |done].
      intros a' _. unfold obj_bytes. by rewrite Hb.
    + rewrite (free_foreign_spec base osize cap) with (live := live); try done; [|auto].
      exists w, None. cbn [live_after]. rewrite difference_disjoint_L by set_solver.
      split_and!; [done|apply a_free_foreign; auto|done..].
  - exists w, None. split_and!; [done|apply a_free_null|done..].
Qed.

Lemma reach_rep w live : pool_reach base osize cap w live → pool_rep base osize cap w live.
Proof using Hlay.
  induction 1 as [w0 st w Hb Hst Hi|w live op w' r _ IH Hr Hok He].
  - destruct Hlay as (? & ? & ? & ?).
    destruct (init_spec base osize cap ltac:(done) ltac:(done) ltac:(done) ltac:(done) w0 st)
      as (w1 & Hi' & Hrep); [done..|]. congruence.
  - destruct (exec_spec w live op) as (w1 & r1 & He1 & _ & Hrep & _); [done..|]. congruence.
Qed.
End runs.

(** ** Theorems *)

(** C38: the object pool implements a set of live objects.  In every state that
    clients reach from [object_pool_init] without freeing an object twice, each
    call runs inside its arrays and is a step of the specification: an
    allocation returns an object of the pool that is not live, or NULL exactly
    when all are; a free ends one life or ignores a foreign pointer.  The
    object returned is zeroed and the bytes of live objects never change. *)
Theorem object_pool_refines_live_set (base osize cap : Z) (w : world) (live : gset Z)
    (op : pool_op) :
  pool_layout base osize cap → pool_reach base osize cap w live → op_in_range op →
  client_ok base osize cap live op →
  ∃ w' r, pool_exec op w = Some (w', r) ∧
    apool_step base osize cap live op r (live_after live op r) ∧
    pool_reach base osize cap w' (live_after live op r) ∧
    (∀ a, a ∈ live → obj_bytes base osize w' a = obj_bytes base osize w a) ∧
    (∀ a, r = Some a → obj_bytes base osize w' a = replicate (Z.to_nat osize) 0).
Proof.
  intros Hlay Hreach Hr Hok.
  destruct (exec_spec base osize cap Hlay w live op) as (w' & r & He & Hs & _ & Hb & Hz);
    [by apply reach_rep|done..|].
  exists w', r. split_and!; [done|done|by eapply reach_step|done..].
Qed.

(** [object_pool_foreach] reports exactly the live objects, each once and in
    address order, for pools of at most 1024 objects, whatever the
    uninitialised bitmap on its stack held; a larger pool reports nothing. *)
Theorem object_pool_foreach_live (base osize cap : Z) (w : world) (live : gset Z)
    (bitmap0 : list Z) :
  pool_layout base osize cap → pool_reach base osize cap w live →
  length bitmap0 = Z.to_nat OBJ_POOL_FOREACH_BITMAP_WORDS →
  object_pool_foreach bitmap0 (pool w)
  = Some (if cap <=? OBJ_POOL_FOREACH_MAX_CAPACITY
          then filter (.∈ live) (obj_addr base osize <$> seqZ 0 cap) else []).
Proof.
  intros Hlay Hreach%reach_rep Hb; [|done]. destruct Hlay as (? & ? & ? & ?).
  destruct (Z.leb_spec cap OBJ_POOL_FOREACH_MAX_CAPACITY).
  - by apply foreach_spec.
  - destruct Hreach. destruct rep_stack0 as (st & Hst & _). unfold object_pool_foreach.
    rewrite rep_buffer0, Hst, rep_cap0. by rewrite Z.gtb_ltb, (proj2 (Z.ltb_lt _ _)).
Qed.

(** *** Witnesses: three objects of two bytes at address 4096 *)

Definition demo_world : world := World (ObjectPool None 0 0 None 0 0) [9; 9; 9; 9; 9; 9].
Definition demo_pool : world :=
  World (ObjectPool (Some 4096) 2 3 (Some [2; 1; 0]) 3 0) [0; 0; 0; 0; 0; 0].
Definition demo_pool1 : world :=
  World (ObjectPool (Some 4096) 2 3 (Some [2; 1; 0]) 2 1) [0; 0; 0; 0; 0; 0].

Lemma demo_layout : pool_layout 4096 2 3.
Proof. repeat split; lia. Qed.

Lemma demo_reach : pool_reach 4096 2 3 demo_pool1 {[4096]}.
Proof.
  replace ({[4096]} : gset Z) with (live_after ∅ PAlloc (Some 4096))
    by (cbn; set_solver).
  apply (reach_step 4096 2 3 demo_pool); [|exact I|exact I|vm_compute; reflexivity].
  apply (reach_init 4096 2 3 demo_world [7; 7; 7]); vm_compute; reflexivity.
Qed.

Lemma object_pool_refines_live_set_witness :
  ∃ w' r, pool_exec PAlloc demo_pool1 = Some (w', r) ∧
    apool_step 4096 2 3 {[4096]} PAlloc r (live_after {[4096]} PAlloc r).
Proof.
  destruct (object_pool_refines_live_set 4096 2 3 demo_pool1 {[4096]} PAlloc)
    as (w' & r & H1 & H2 & _); [exact demo_layout|exact demo_reach|exact I|exact I|].
  exists w', r. split; assumption.
Defined.

Lemma object_pool_foreach_live_witness :
  object_pool_foreach (replicate 32 12345) (pool demo_pool1) = Some [4096].
Proof.
  rewrite (object_pool_foreach_live 4096 2 3 demo_pool1 {[4096]});
    [vm_compute; reflexivity|exact demo_layout|exact demo_reach|reflexivity].
Defined.
