(* ===== verification/CapTypes.v ===== *)
(** * Capabilities: data and permission matrix

    The types of include/kernel/capability.h and include/kernel/cspace.h, the
    static state of kernel/cap/cspace.c, and the permission matrix of
    kernel/cap/capability.c. *)

From S2P Require Import Prelude KList.

Set Default Goal Selector "!".

(** ** Constants *)

Definition CAP_RIGHT_READ : Z := Z.shiftl 1 0.
Definition CAP_RIGHT_WRITE : Z := Z.shiftl 1 1.
Definition CAP_RIGHT_EXECUTE : Z := Z.shiftl 1 2.
Definition CAP_RIGHT_GRANT : Z := Z.shiftl 1 3.
Definition CAP_RIGHT_REVOKE : Z := Z.shiftl 1 4.
Definition CAP_RIGHT_NONE : Z := 0.

Definition CAP_MAX_DERIVE_DEPTH : Z := 8.
Definition CAP_SLOT_INVALID : Z := 0xFFFFFFFF.

Definition CONFIG_MAX_CSPACES : Z := 32.
Definition CSPACE_MAX_CAPACITY : Z := 256.
Definition CSPACE_HASH_BUCKETS : Z := 32.
Definition CSPACE_HASH_MASK : Z := CSPACE_HASH_BUCKETS - 1.
Definition REVOKE_STACK_SIZE : Z := CONFIG_MAX_CSPACES * 4.

(** [kobj_type_t] values (an argument of that type may hold any integer). *)
Definition KOBJ_THREAD : Z := 0.
Definition KOBJ_ENDPOINT : Z := 1.
Definition KOBJ_NOTIFICATION : Z := 2.
Definition KOBJ_CSPACE : Z := 3.
Definition KOBJ_VM_SPACE : Z := 4.
Definition KOBJ_PAGE_FRAME : Z := 5.
Definition KOBJ_INTERRUPT : Z := 6.
Definition KOBJ_DEVICE : Z := 7.
Definition KOBJ_CHANNEL : Z := 8.
Definition KOBJ_CONNECTION : Z := 9.
Definition KOBJ_SHM : Z := 10.
Definition KOBJ_FD : Z := 11.
Definition KOBJ_INODE : Z := 12.
Definition KOBJ_MEMORY_REGION : Z := 13.
Definition KOBJ_TYPE_COUNT : Z := 14.

(** ** Capabilities *)

Inductive cap_state_t := CAP_STATE_FREE | CAP_STATE_VALID | CAP_STATE_REVOKED.

#[global] Instance cap_state_eq_dec : EqDecision cap_state_t.
Proof. solve_decision. Defined.

(** The scalar fields of [cap_t]; its two list nodes live in the node store at
    [CapChildren t i] and [CapSibling t i]. *)
Record cap_t := Cap {
  state : cap_state_t;
  kobj_type : Z;
  rights : Z;
  badge : Z;
  kobj_id : Z;
  parent_slot : Z;
  cspace_root : Z;
  derive_depth : Z;
  inheritable : bool
}.

(** All bytes zero ([CAP_STATE_FREE] is 0). *)
Definition cap_zero : cap_t := Cap CAP_STATE_FREE 0 0 0 0 0 0 0 false.

Definition set_state v c := Cap v (kobj_type c) (rights c) (badge c) (kobj_id c)
  (parent_slot c) (cspace_root c) (derive_depth c) (inheritable c).
Definition set_badge v c := Cap (state c) (kobj_type c) (rights c) v (kobj_id c)
  (parent_slot c) (cspace_root c) (derive_depth c) (inheritable c).
Definition set_parent v c := Cap (state c) (kobj_type c) (rights c) (badge c) (kobj_id c)
  v (cspace_root c) (derive_depth c) (inheritable c).

(** ** Addresses of list nodes

    [CapBase t i] is [&cap_table[i]] itself, which the free list stores in
    [sibling.next] through a cast; [t] names the cap table. *)
Inductive caddr :=
  | CapBase (t i : Z)
  | CapChildren (t i : Z)
  | CapSibling (t i : Z)
  | CsChildren (c : Z)
  | CsNode (c : Z).

#[global] Instance caddr_eq_dec : EqDecision caddr.
Proof. solve_decision. Defined.

#[global] Instance caddr_countable : Countable caddr.
Proof.
  refine (inj_countable'
    (λ a, match a with
          | CapBase t i => (0, t, i) | CapChildren t i => (1, t, i) | CapSibling t i => (2, t, i)
          | CsChildren c => (3, c, 0) | CsNode c => (4, c, 0) end)
    (λ p : Z * Z * Z, let '(k, t, i) := p in
       if k =? 0 then CapBase t i else if k =? 1 then CapChildren t i
       else if k =? 2 then CapSibling t i else if k =? 3 then CsChildren t else CsNode t) _).
  by intros [].
Defined.

Notation nodes := (gmap caddr (list_head caddr)).

(** ** Capability spaces *)

Record kobj_header_t := Header { type : Z; id : Z; ref_count : Z; parent_id : Z }.

Record cspace_t := CSpace {
  header : kobj_header_t;
  cap_table : option Z;
  capacity : Z;
  used_count : Z;
  root_slot : Z;
  free_head : Z
}.

Definition cspace_zero : cspace_t := CSpace (Header 0 0 0 0) None 0 0 0 0.

Record cspace_hash_node_t := HashNode {
  key : Z;
  value : option Z;   (* index in the CSpace pool *)
  hnext : option Z    (* next: index in the node pool *)
}.

(** ** The static state of cspace.c, the cap tables and the node store *)

Record kstate := KState {
  s_cspace_pool : list cspace_t;
  s_cspace_free_stack : list Z;
  s_cspace_free_count : Z;
  s_cspace_id_counter : Z;
  s_cspace_hash : list (option Z);
  s_hash_nodes : list cspace_hash_node_t;
  tables : gmap Z (list cap_t);
  lists : nodes
}.

Definition upd_pool v s := KState v (s_cspace_free_stack s) (s_cspace_free_count s)
  (s_cspace_id_counter s) (s_cspace_hash s) (s_hash_nodes s) (tables s) (lists s).
Definition upd_free st n s := KState (s_cspace_pool s) st n
  (s_cspace_id_counter s) (s_cspace_hash s) (s_hash_nodes s) (tables s) (lists s).
Definition upd_counter v s := KState (s_cspace_pool s) (s_cspace_free_stack s)
  (s_cspace_free_count s) v (s_cspace_hash s) (s_hash_nodes s) (tables s) (lists s).
Definition upd_hash hs ns s := KState (s_cspace_pool s) (s_cspace_free_stack s)
  (s_cspace_free_count s) (s_cspace_id_counter s) hs ns (tables s) (lists s).
Definition upd_tables v s := KState (s_cspace_pool s) (s_cspace_free_stack s)
  (s_cspace_free_count s) (s_cspace_id_counter s) (s_cspace_hash s) (s_hash_nodes s) v (lists s).
Definition upd_lists v s := KState (s_cspace_pool s) (s_cspace_free_stack s)
  (s_cspace_free_count s) (s_cspace_id_counter s) (s_cspace_hash s) (s_hash_nodes s) (tables s) v.

(** A CSpace pointer is an index in the pool; a cap pointer is a table and a
    slot. *)
Definition get_cs (s : kstate) (c : Z) : option cspace_t := (s_cspace_pool s).[c].
Definition set_cs (c : Z) (v : cspace_t) (s : kstate) : option kstate :=
  p ← zupdate (s_cspace_pool s) c v; Some (upd_pool p s).

Definition get_cap (s : kstate) (t i : Z) : option cap_t := tb ← tables s !! t; tb.[i].
Definition set_cap (t i : Z) (v : cap_t) (s : kstate) : option kstate :=
  tb ← tables s !! t; tb' ← zupdate tb i v; Some (upd_tables (<[t := tb']> (tables s)) s).

(** A list operation on the node store. *)
Definition on_lists (f : nodes → option nodes) (s : kstate) : option kstate :=
  h ← f (lists s); Some (upd_lists h s).

(** [memset(cap, 0, sizeof(cap_t))] *)
Definition zero_cap (t i : Z) (s : kstate) : option kstate :=
  s ← set_cap t i cap_zero s;
  Some (upd_lists (<[CapChildren t i := LH None None]>
                  (<[CapSibling t i := LH None None]> (lists s))) s).

(** [cap->sibling.next = p] *)
Definition set_sibling_next (t i : Z) (p : option caddr) (s : kstate) : option kstate :=
  on_lists (set_next (Some (CapSibling t i)) p) s.

Definition init_children (t i : Z) (s : kstate) : option kstate :=
  on_lists (INIT_LIST_HEAD (Some (CapChildren t i))) s.
Definition init_sibling (t i : Z) (s : kstate) : option kstate :=
  on_lists (INIT_LIST_HEAD (Some (CapSibling t i))) s.

(** [container_of(node, cap_t, sibling)] *)
Definition cap_from_sibling (a : caddr) : option (Z * Z) :=
  match a with CapSibling t i => Some (t, i) | _ => None end.

(** [cap - &cap_table[0]] for a pointer into that table. *)
Definition slot_of (t : Z) (p : Z * Z) : option Z := if p.1 =? t then Some p.2 else None.

(** ** Permission matrix *)

Record cap_type_rights_t := CapTypeRights {
  tr_type : Z; allowed_rights : Z; mandatory_rights : Z
}.

Definition R := CAP_RIGHT_READ.
Definition RW := Z.lor CAP_RIGHT_READ CAP_RIGHT_WRITE.
Definition RWX := Z.lor RW CAP_RIGHT_EXECUTE.
Definition with_grant (r : Z) := Z.lor r CAP_RIGHT_GRANT.
Definition with_revoke (r : Z) := Z.lor r CAP_RIGHT_REVOKE.

Definition s_cap_type_rights_table : list cap_type_rights_t :=
  [ CapTypeRights KOBJ_THREAD (with_revoke (with_grant RW)) R;
    CapTypeRights KOBJ_ENDPOINT (with_grant RW) R;
    CapTypeRights KOBJ_NOTIFICATION (with_grant RW) R;
    CapTypeRights KOBJ_CSPACE (with_revoke (with_grant RW)) R;
    CapTypeRights KOBJ_VM_SPACE (with_grant RWX) R;
    CapTypeRights KOBJ_PAGE_FRAME RWX R;
    CapTypeRights KOBJ_INTERRUPT (with_grant R) R;
    CapTypeRights KOBJ_DEVICE (with_grant RWX) R;
    CapTypeRights KOBJ_CHANNEL (with_revoke (with_grant RW)) R;
    CapTypeRights KOBJ_CONNECTION (with_grant RW) R;
    CapTypeRights KOBJ_SHM (with_grant RW) R;
    CapTypeRights KOBJ_FD (with_revoke (with_grant RW)) R;
    CapTypeRights KOBJ_INODE (with_revoke (with_grant RWX)) R;
    CapTypeRights KOBJ_MEMORY_REGION (with_revoke (with_grant RWX)) R ].

(** The search loop: the first entry with that type. *)
Fixpoint find_type_entry (tbl : list cap_type_rights_t) (ty : Z) : option cap_type_rights_t :=
  match tbl with
  | [] => None
  | e :: tbl => if tr_type e =? ty then Some e else find_type_entry tbl ty
  end.

Definition cap_validate_rights_for_type (ty r : Z) : Z :=
  if ty >=? KOBJ_TYPE_COUNT then - EINVAL
  else match find_type_entry s_cap_type_rights_table ty with
       | None => - EINVAL
       | Some entry =>
           if negb (Z.land r (allowed_rights entry) =? r) then - EINVAL
           else if negb (Z.land r (mandatory_rights entry) =? mandatory_rights entry)
                then - EINVAL else KERNEL_OK
       end.

(** [cap_rights_check] of capability.h *)
Definition cap_rights_check (c : cap_t) (required : Z) : bool :=
  Z.land (rights c) required =? required.

(** [cap_inheritable_check] of capability.h *)
Definition cap_inheritable_check (c : cap_t) : bool := inheritable c.
