(* ===== verification/CSpace.v ===== *)
(** * Capability spaces (kernel/cap/cspace.c)

    The CSpace pool, the hash index from object ids to CSpaces, the cap tables
    with their free lists, and every operation of the file.

    An operation is one transition of the state.  The slot operations hold the
    lock of their CSpace throughout.  [cspace_create] and [cspace_destroy] hold
    the lock of the pool only while they take or return a pool entry, and that of
    the CSpace only while they clear its slots; they allocate and free the table
    and change the hash index, which lookups read, outside of any lock.  Calls
    that run on another CPU inside a creation or destruction are not covered. *)

From S2P Require Import Prelude KList CapTypes.

Set Default Goal Selector "!".

(** ** The slab allocator as cspace.c sees it

    [caches[i]] is asked for blocks that hold [(i + 1) * 64] capabilities.  A
    block is a table name and the capabilities its raw memory holds.  The
    allocator is an interface here: slab.c itself is modelled in Slab, where
    [SlabTheorems.objects_are_64_bytes] shows that its objects are smaller than
    what is asked for, so that tables taken from it overlap.  What is proved of
    capabilities is proved for an allocator that keeps the contract
    [CSpaceInv.SlabSpec]. *)
Class SlabOps (A : Type) := {
  slab_create : Z → Z → A → A * Z;
  slab_destroy : Z → A → A;
  slab_alloc : Z → A → option (Z * list cap_t * A);
  slab_free : Z → Z → A → A
}.

(** ** Hash index *)

Definition cspace_hash_index (i : Z) : Z := Z.land i CSPACE_HASH_MASK.

Definition cspace_hash_register (i c : Z) (s : kstate) : option kstate :=
  let bucket := cspace_hash_index i in
  if c >=? CONFIG_MAX_CSPACES then Some s
  else
    first ← (s_cspace_hash s).[bucket];
    ns ← zupdate (s_hash_nodes s) c (HashNode i (Some c) first);
    hs ← zupdate (s_cspace_hash s) bucket (Some c);
    Some (upd_hash hs ns s).

(** The search loop of [cspace_hash_unregister]; the chain is never longer than
    the node pool. *)
Fixpoint hash_unregister_loop (fuel : nat) (i bucket : Z) (prev curr : option Z) (s : kstate)
  : option kstate :=
  match fuel with
  | O => None
  | S fuel =>
      match curr with
      | None => Some s
      | Some n =>
          node ← (s_hash_nodes s).[n];
          if key node =? i then
            s ← match prev with
                | None => hs ← zupdate (s_cspace_hash s) bucket (hnext node);
                          Some (upd_hash hs (s_hash_nodes s) s)
                | Some p =>
                    pn ← (s_hash_nodes s).[p];
                    ns ← zupdate (s_hash_nodes s) p (HashNode (key pn) (value pn) (hnext node));
                    Some (upd_hash (s_cspace_hash s) ns s)
                end;
            ns ← zupdate (s_hash_nodes s) n (HashNode KOBJ_ID_INVALID None None);
            Some (upd_hash (s_cspace_hash s) ns s)
          else hash_unregister_loop fuel i bucket curr (hnext node) s
      end
  end.

Definition hash_fuel : nat := S (Z.to_nat CONFIG_MAX_CSPACES).

Definition cspace_hash_unregister (i : Z) (s : kstate) : option kstate :=
  let bucket := cspace_hash_index i in
  curr ← (s_cspace_hash s).[bucket];
  hash_unregister_loop hash_fuel i bucket None curr s.

(** ** The CSpace pool *)

Definition cspace_pool_alloc (s : kstate) : option (kstate * option Z * Z) :=
  if s_cspace_free_count s =? 0 then Some (s, None, - ENOMEM)
  else
    let n := u32 (s_cspace_free_count s - 1) in
    idx ← (s_cspace_free_stack s).[n];
    Some (upd_free (s_cspace_free_stack s) n s, Some idx, KERNEL_OK).

Definition cspace_pool_free (c : option Z) (s : kstate) : option kstate :=
  match c with
  | None => Some s
  | Some c =>
      if s_cspace_free_count s >=? CONFIG_MAX_CSPACES then Some s
      else if c >=? CONFIG_MAX_CSPACES then Some s
      else
        s ← set_cs c cspace_zero s;
        let s := upd_lists (<[CsChildren c := LH None None]>
                           (<[CsNode c := LH None None]> (lists s))) s in
        st ← zupdate (s_cspace_free_stack s) (s_cspace_free_count s) c;
        Some (upd_free st (u32 (s_cspace_free_count s + 1)) s)
  end.

(** ** The cap table of a fresh CSpace *)

(** [memset(cap_table, 0, sizeof(cap_t) * capacity)] *)
Fixpoint zero_caps (n : nat) (t i : Z) (s : kstate) : option kstate :=
  match n with
  | O => Some s
  | S n => s ← zero_cap t i s; zero_caps n t (i + 1) s
  end.

(** First loop: state and list heads. *)
Fixpoint init_caps (n : nat) (t i : Z) (s : kstate) : option kstate :=
  match n with
  | O => Some s
  | S n =>
      cap ← get_cap s t i;
      s ← set_cap t i (set_state CAP_STATE_FREE cap) s;
      s ← init_children t i s;
      s ← init_sibling t i s;
      init_caps n t (i + 1) s
  end.

(** Second loop: chain slots 1 .. capacity-1 through [sibling.next]. *)
Fixpoint chain_caps (n : nat) (t i cap : Z) (s : kstate) : option kstate :=
  match n with
  | O => Some s
  | S n =>
      s ← set_sibling_next t i (if i + 1 <? cap then Some (CapBase t (i + 1)) else None) s;
      chain_caps n t (i + 1) cap s
  end.

Definition cspace_init_cap_table (c : Z) (s : kstate) : option kstate :=
  cs ← get_cs s c;
  t ← cap_table cs;
  s ← zero_caps (Z.to_nat (capacity cs)) t 0 s;
  s ← init_caps (Z.to_nat (capacity cs)) t 0 s;
  s ← chain_caps (Z.to_nat (capacity cs - 1)) t 1 (capacity cs) s;
  set_cs c (CSpace (header cs) (cap_table cs) (capacity cs) (used_count cs) (root_slot cs)
                   (if capacity cs >? 1 then 1 else CAP_SLOT_INVALID)) s.

Definition cspace_create_root_cap (c : Z) (s : kstate) : option (kstate * Z) :=
  cs ← get_cs s c;
  t ← cap_table cs;
  old ← get_cap s t 0;
  s ← set_cap t 0 (Cap CAP_STATE_VALID KOBJ_CSPACE (with_revoke (with_grant RW)) 0
                       (id (header cs)) CAP_SLOT_INVALID 0 0 (inheritable old)) s;
  s ← init_children t 0 s;
  s ← init_sibling t 0 s;
  s ← set_cs c (CSpace (header cs) (cap_table cs) (capacity cs) 1 0 (free_head cs)) s;
  Some (s, KERNEL_OK).

(** ** Subsystem *)

Fixpoint init_free_stack (n : nat) (i : Z) (st : list Z) : option (list Z) :=
  match n with
  | O => Some st
  | S n =>
      st ← zupdate st i (u32 (u32 (CONFIG_MAX_CSPACES - 1) - i)); init_free_stack n (i + 1) st
  end.

Section ops.
Context {A : Type} `{!SlabOps A}.

Definition sizeof_cap_t : Z := 64.
Definition CAP_TABLE_CACHES : Z := CSPACE_MAX_CAPACITY / 64 + 1.

Fixpoint destroy_caches (n : nat) (i : Z) (a : A) : A :=
  match n with O => a | S n => destroy_caches n (i + 1) (slab_destroy i a) end.

(** The cache creation loop, with its clean-up on failure. *)
Fixpoint create_caches (n : nat) (i : Z) (a : A) : A * Z :=
  match n with
  | O => (a, KERNEL_OK)
  | S n =>
      let '(a, ret) := slab_create i (sizeof_cap_t * (u32 ((i + 1) * 64))) a in
      if negb (ret =? KERNEL_OK) then (destroy_caches (Z.to_nat i) 0 a, - ENOMEM)
      else create_caches n (i + 1) a
  end.

(** The CSpace list nodes of the static pool are zeroed with it. *)
Fixpoint zero_cs_nodes (n : nat) (c : Z) (h : nodes) : nodes :=
  match n with
  | O => h
  | S n => zero_cs_nodes n (c + 1) (<[CsChildren c := LH None None]> (<[CsNode c := LH None None]> h))
  end.

Definition cspace_subsys_init (a : A) (s : kstate) : option (A * kstate * Z) :=
  st ← init_free_stack (Z.to_nat CONFIG_MAX_CSPACES) 0 (s_cspace_free_stack s);
  let s := KState (replicate (Z.to_nat CONFIG_MAX_CSPACES) cspace_zero) st CONFIG_MAX_CSPACES 1
             (replicate (Z.to_nat CSPACE_HASH_BUCKETS) None)
             (replicate (Z.to_nat CONFIG_MAX_CSPACES) (HashNode 0 None None))
             (tables s) (zero_cs_nodes (Z.to_nat CONFIG_MAX_CSPACES) 0 (lists s)) in
  let '(a, ret) := create_caches (Z.to_nat CAP_TABLE_CACHES) 0 a in
  Some (a, s, ret).

(** The memory of a block that the allocator hands out: the raw capabilities and
    their list nodes. *)
Fixpoint block_nodes (n : nat) (t i : Z) (h : nodes) : nodes :=
  match n with
  | O => h
  | S n => block_nodes n t (i + 1)
             (<[CapChildren t i := LH None None]> (<[CapSibling t i := LH None None]> h))
  end.

Definition add_block (t : Z) (raw : list cap_t) (s : kstate) : kstate :=
  upd_lists (block_nodes (length raw) t 0 (lists s)) (upd_tables (<[t := raw]> (tables s)) s).

Definition cspace_create (cap : Z) (out_cspace : bool) (a : A) (s : kstate)
  : option (A * kstate * option Z * Z) :=
  if negb out_cspace then Some (a, s, None, - EINVAL)
  else if (cap =? 0) || (cap >? CSPACE_MAX_CAPACITY) then Some (a, s, None, - EINVAL)
  else
    r ← cspace_pool_alloc s;
    let '(s, cs, ret) := r in
    if negb (ret =? KERNEL_OK) then Some (a, s, None, ret)
    else
      c ← cs;
      let new_id := s_cspace_id_counter s in
      let s := upd_counter (u32 (s_cspace_id_counter s + 1)) s in
      old ← get_cs s c;
      match slab_alloc (cap / 64) a with
      | None =>
          s ← set_cs c (CSpace (Header KOBJ_CSPACE new_id 1 KOBJ_ID_INVALID) None cap
                               (used_count old) (root_slot old) (free_head old)) s;
          s ← cspace_pool_free (Some c) s;
          Some (a, s, None, - ENOMEM)
      | Some (t, raw, a) =>
          let s := add_block t raw s in
          s ← set_cs c (CSpace (Header KOBJ_CSPACE new_id 1 KOBJ_ID_INVALID) (Some t) cap
                               0 CAP_SLOT_INVALID CAP_SLOT_INVALID) s;
          s ← on_lists (INIT_LIST_HEAD (Some (CsChildren c))) s;
          s ← on_lists (INIT_LIST_HEAD (Some (CsNode c))) s;
          s ← cspace_init_cap_table c s;
          r ← cspace_create_root_cap c s;
          let '(s, ret) := r in
          if negb (ret =? KERNEL_OK) then
            s ← cspace_pool_free (Some c) s; Some (a, s, None, ret)
          else
            s ← cspace_hash_register new_id c s;
            Some (a, s, Some c, KERNEL_OK)
      end.

(** The clean-up loop of [cspace_destroy]. *)
Fixpoint destroy_caps (n : nat) (t i : Z) (s : kstate) : option kstate :=
  match n with
  | O => Some s
  | S n =>
      cap ← get_cap s t i;
      s ← (if bool_decide (state cap = CAP_STATE_VALID) then
             s ← (if negb (parent_slot cap =? CAP_SLOT_INVALID)
                  then on_lists (list_del (Some (CapSibling t i))) s else Some s);
             s ← init_children t i s;
             set_cap t i (set_state CAP_STATE_FREE cap) s
           else Some s);
      destroy_caps n t (i + 1) s
  end.

(** The memory of the table leaves the state when the slab takes it back. *)
Definition remove_block (t : Z) (s : kstate) : kstate := upd_tables (delete t (tables s)) s.

Definition cspace_destroy (cs : option Z) (a : A) (s : kstate) : option (A * kstate) :=
  match cs with
  | None => Some (a, s)
  | Some c =>
      v ← get_cs s c;
      s ← (if capacity v =? 0 then Some s
           else t ← cap_table v; destroy_caps (Z.to_nat (capacity v)) t 0 s);
      let v := CSpace (header v) (cap_table v) (capacity v) 0 CAP_SLOT_INVALID CAP_SLOT_INVALID in
      s ← set_cs c v s;
      s ← on_lists (list_del (Some (CsNode c))) s;
      s ← on_lists (INIT_LIST_HEAD (Some (CsChildren c))) s;
      s ← cspace_hash_unregister (id (header v)) s;
      let '(a, s) := match cap_table v with
                     | Some t => (slab_free (capacity v / 64) t a, remove_block t s)
                     | None => (a, s)
                     end in
      s ← cspace_pool_free (Some c) s;
      Some (a, s)
  end.
End ops.

(** ** Slots *)

Definition set_free_head (v : Z) (cs : cspace_t) : cspace_t :=
  CSpace (header cs) (cap_table cs) (capacity cs) (used_count cs) (root_slot cs) v.
Definition set_used (v : Z) (cs : cspace_t) : cspace_t :=
  CSpace (header cs) (cap_table cs) (capacity cs) v (root_slot cs) (free_head cs).

(** The index of [sibling.next], cast to a cap pointer, in [cap_table]: defined
    when the stored pointer is the address of a capability of that table. *)
Definition free_link (t : Z) (p : option caddr) : option Z :=
  match p with
  | None => Some CAP_SLOT_INVALID
  | Some (CapBase t' i) => slot_of t (t', i)
  | Some _ => None
  end.

Definition cspace_alloc_slot (cs : option Z) (out_slot : bool) (s : kstate)
  : option (kstate * option Z * Z) :=
  match cs with
  | None => Some (s, None, - EINVAL)
  | Some c =>
      if negb out_slot then Some (s, None, - EINVAL)
      else
        v ← get_cs s c;
        if free_head v =? CAP_SLOT_INVALID then Some (s, None, - ENOMEM)
        else
          t ← cap_table v;
          _ ← get_cap s t (free_head v);
          p ← get_next (lists s) (Some (CapSibling t (free_head v)));
          nf ← free_link t p;
          s ← set_cs c (set_free_head nf v) s;
          s ← zero_cap t (free_head v) s;
          Some (s, Some (free_head v), KERNEL_OK)
  end.

(** Return a wiped slot to the head of the free list and drop the use count. *)
Definition push_free (c t slot : Z) (s : kstate) : option kstate :=
  v ← get_cs s c;
  s ← set_sibling_next t slot
        (if negb (free_head v =? CAP_SLOT_INVALID) then Some (CapBase t (free_head v)) else None) s;
  set_cs c (set_used (if used_count v >? 0 then used_count v - 1 else used_count v)
           (set_free_head slot v)) s.

Definition cspace_free_slot (cs : option Z) (slot : Z) (s : kstate) : option kstate :=
  match cs with
  | None => Some s
  | Some c =>
      v ← get_cs s c;
      if slot >=? capacity v then Some s
      else
        t ← cap_table v;
        cap ← get_cap s t slot;
        if bool_decide (state cap = CAP_STATE_FREE) then Some s
        else
          s ← (if negb (parent_slot cap =? CAP_SLOT_INVALID)
               then on_lists (list_del (Some (CapSibling t slot))) s else Some s);
          s ← init_children t slot s;
          s ← zero_cap t slot s;
          push_free c t slot s
  end.

Definition cspace_insert_cap (cs : option Z) (slot ty kid r bdg parent : Z) (s : kstate)
  : option (kstate * Z) :=
  match cs with
  | None => Some (s, - EINVAL)
  | Some c =>
      v ← get_cs s c;
      if slot >=? capacity v then Some (s, - EINVAL)
      else if ty >=? KOBJ_TYPE_COUNT then Some (s, - EINVAL)
      else
        t ← cap_table v;
        cap ← get_cap s t slot;
        if negb (bool_decide (state cap = CAP_STATE_FREE)) then Some (s, - EINVAL)
        else
          let cap' := Cap CAP_STATE_VALID ty r bdg kid parent (root_slot v)
                          (derive_depth cap) (inheritable cap) in
          s ← set_cap t slot cap' s;
          s ← init_children t slot s;
          s ← init_sibling t slot s;
          if negb (parent =? CAP_SLOT_INVALID) then
            if parent >=? capacity v then
              s ← set_cap t slot (set_state CAP_STATE_FREE cap') s; Some (s, - EINVAL)
            else
              pc ← get_cap s t parent;
              if negb (bool_decide (state pc = CAP_STATE_VALID)) then
                s ← set_cap t slot (set_state CAP_STATE_FREE cap') s; Some (s, - EINVAL)
              else
                s ← on_lists (list_add_tail (Some (CapSibling t slot))
                                            (Some (CapChildren t parent))) s;
                s ← set_cs c (set_used (u32 (used_count v + 1)) v) s;
                Some (s, KERNEL_OK)
          else
            s ← set_cs c (set_used (u32 (used_count v + 1)) v) s;
            Some (s, KERNEL_OK)
  end.

(** ** Lookup *)

(** The result is a cap pointer, [None] for NULL. *)
Definition cspace_lookup (s : kstate) (cs : option Z) (slot : Z) : option (option (Z * Z)) :=
  match cs with
  | None => Some None
  | Some c =>
      v ← get_cs s c;
      if slot >=? capacity v then Some None
      else
        t ← cap_table v;
        cap ← get_cap s t slot;
        if negb (bool_decide (state cap = CAP_STATE_VALID)) then Some None
        else Some (Some (t, slot))
  end.

Fixpoint hash_find (fuel : nat) (s : kstate) (root : Z) (node : option Z) : option (option (option Z)) :=
  match fuel with
  | O => None
  | S fuel =>
      match node with
      | None => Some None
      | Some n =>
          nd ← (s_hash_nodes s).[n];
          if key nd =? root then Some (Some (value nd)) else hash_find fuel s root (hnext nd)
      end
  end.

Fixpoint linear_find (n : nat) (s : kstate) (root i : Z) : option (option Z) :=
  match n with
  | O => Some None
  | S n =>
      v ← get_cs s i;
      if (type (header v) =? KOBJ_CSPACE) && negb (id (header v) =? KOBJ_ID_INVALID)
         && (root_slot v =? root)
      then Some (Some i) else linear_find n s root (i + 1)
  end.

Definition cspace_from_root (s : kstate) (root : Z) : option (option Z) :=
  first ← (s_cspace_hash s).[cspace_hash_index root];
  r ← hash_find hash_fuel s root first;
  match r with
  | Some v => Some v
  | None => linear_find (Z.to_nat CONFIG_MAX_CSPACES) s root 0
  end.

(** [current] is [kthread_get_current()]: the thread's [cspace] field. *)
Definition cspace_get_current (current : option (option Z)) : option Z :=
  match current with None => None | Some cs => cs end.

(** ** Capacity *)

Fixpoint resize_caps (n : nat) (t i : Z) (c : Z) (s : kstate) : option kstate :=
  match n with
  | O => Some s
  | S n =>
      s ← zero_cap t i s;
      s ← init_children t i s;
      s ← init_sibling t i s;
      v ← get_cs s c;
      s ← set_sibling_next t i
            (if negb (free_head v =? CAP_SLOT_INVALID) then Some (CapBase t (free_head v))
             else None) s;
      s ← set_cs c (set_free_head i v) s;
      resize_caps n t (i + 1) c s
  end.

Definition cspace_resize (cs : option Z) (new_capacity : Z) (s : kstate) : option (kstate * Z) :=
  match cs with
  | None => Some (s, - EINVAL)
  | Some c =>
      v ← get_cs s c;
      if new_capacity <=? capacity v then Some (s, - EINVAL)
      else if new_capacity >? CSPACE_MAX_CAPACITY then Some (s, - EINVAL)
      else
        t ← cap_table v;
        s ← resize_caps (Z.to_nat (new_capacity - capacity v)) t (capacity v) c s;
        v ← get_cs s c;
        s ← set_cs c (CSpace (header v) (cap_table v) new_capacity (used_count v)
                             (root_slot v) (free_head v)) s;
        Some (s, KERNEL_OK)
  end.

(** The three outputs of [cspace_get_stats]: total, used and free. *)
Definition cspace_get_stats (v : option cspace_t) : option (Z * Z * Z) :=
  match v with
  | None => None
  | Some v => Some (capacity v, used_count v, u32 (capacity v - used_count v))
  end.
