(* ===== verification/Capability.v ===== *)
(** * Capability operations (kernel/cap/capability.c)

    Every operation of the file, on the state of CapTypes and with the CSpace
    functions of CSpace.  An operation finds its CSpaces through the hash index,
    without a lock, and then holds their locks to its end; here it is one
    transition, so that a CSpace does not go away in between.  [cap_lock_order]
    is the order in which the two-CSpace operations take their locks. *)

From S2P Require Import Prelude KList CapTypes CSpace.

Set Default Goal Selector "!".

(** ** Locking two CSpaces

    The sequence of locks that [cap_lock_dual] acquires; pool entries lie in
    address order. *)
Definition cap_lock_dual (a b : Z) : list Z :=
  if a =? b then [a] else if a <? b then [a; b] else [b; a].

(** The sequence that [cap_unlock_dual] releases. *)
Definition cap_unlock_dual (a b : Z) : list Z :=
  if a =? b then [a] else if a <? b then [b; a] else [a; b].

(** ** Insertion with the lock held *)

(** The depth computation of [cap_insert_locked]: an error or the new depth. *)
Definition insert_depth (v : cspace_t) (t parent : Z) (s : kstate) : option (Z + Z) :=
  if negb (parent =? CAP_SLOT_INVALID) then
    if parent >=? capacity v then Some (inl (- EINVAL))
    else
      pc ← get_cap s t parent;
      if negb (bool_decide (state pc = CAP_STATE_VALID)) then Some (inl (- EINVAL))
      else if derive_depth pc >=? CAP_MAX_DERIVE_DEPTH then Some (inl (- EINVAL))
      else Some (inr (u8 (derive_depth pc + 1)))
  else Some (inr 0).

Definition cap_insert_locked (c slot ty kid r bdg parent : Z) (s : kstate)
  : option (kstate * Z) :=
  v ← get_cs s c;
  if slot >=? capacity v then Some (s, - EINVAL)
  else
    t ← cap_table v;
    cap ← get_cap s t slot;
    if negb (bool_decide (state cap = CAP_STATE_FREE)) then Some (s, - EINVAL)
    else if negb (cap_validate_rights_for_type ty r =? KERNEL_OK) then Some (s, - EINVAL)
    else
      d ← insert_depth v t parent s;
      match d with
      | inl e => Some (s, e)
      | inr new_depth =>
          s ← set_cap t slot (Cap CAP_STATE_VALID ty r bdg kid parent (root_slot v)
                                  new_depth (inheritable cap)) s;
          s ← init_children t slot s;
          s ← init_sibling t slot s;
          s ← (if negb (parent =? CAP_SLOT_INVALID)
               then on_lists (list_add_tail (Some (CapSibling t slot))
                                            (Some (CapChildren t parent))) s
               else Some s);
          s ← set_cs c (set_used (u32 (used_count v + 1)) v) s;
          Some (s, KERNEL_OK)
      end.

Definition capability_subsys_init : Z := KERNEL_OK.

(** ** Resolution of the arguments

    [cs ← resolve; ...] with the [-EINVAL] and [-ENOENT] exits that every
    operation starts with. *)

(** Parameter check and [cspace_from_root] of one CSpace. *)
Definition resolve (s : kstate) (root slot : Z) : option (option Z) :=
  if (root =? CAP_SLOT_INVALID) || (slot =? CAP_SLOT_INVALID) then Some None
  else cspace_from_root s root.

(** Lookup of a VALID capability: its table and contents. *)
Definition lookup_valid (s : kstate) (c slot : Z) : option (option (Z * cap_t)) :=
  p ← cspace_lookup s (Some c) slot;
  match p with
  | None => Some None
  | Some (t, i) =>
      cap ← get_cap s t i;
      if negb (bool_decide (state cap = CAP_STATE_VALID)) then Some None
      else Some (Some (t, cap))
  end.

(** The common prefix of the two-CSpace operations: both CSpaces and the source
    capability, or the error returned. *)
Definition resolve_dual (s : kstate) (src_root src_slot dst_root dst_slot : Z)
  : option (Z + (Z * Z * Z * cap_t)) :=
  if (src_root =? CAP_SLOT_INVALID) || (src_slot =? CAP_SLOT_INVALID) then Some (inl (- EINVAL))
  else if (dst_root =? CAP_SLOT_INVALID) || (dst_slot =? CAP_SLOT_INVALID)
  then Some (inl (- EINVAL))
  else
    src ← cspace_from_root s src_root;
    match src with
    | None => Some (inl (- EINVAL))
    | Some sc =>
        dst ← cspace_from_root s dst_root;
        match dst with
        | None => Some (inl (- EINVAL))
        | Some dc =>
            r ← lookup_valid s sc src_slot;
            match r with
            | None => Some (inl (- ENOENT))
            | Some (t, cap) =>
                if Z.land (rights cap) CAP_RIGHT_GRANT =? CAP_RIGHT_NONE
                then Some (inl (- EACCES))
                else Some (inr (sc, dc, t, cap))
            end
        end
    end.

(** ** Copy *)

Definition cap_copy (src_root src_slot dst_root dst_slot rights_mask : Z) (s : kstate)
  : option (kstate * Z) :=
  r ← resolve_dual s src_root src_slot dst_root dst_slot;
  match r with
  | inl e => Some (s, e)
  | inr (sc, dc, t, src) =>
      if negb (inheritable src) then Some (s, - EACCES)
      else
        let dest_rights := if negb (rights_mask =? 0) then Z.land (rights src) rights_mask
                           else rights src in
        if negb (Z.land dest_rights (rights src) =? dest_rights) then Some (s, - EACCES)
        else cap_insert_locked dc dst_slot (kobj_type src) (kobj_id src) dest_rights
                               (badge src) src_slot s
  end.

(** ** Move *)

(** The loop that redirects the children handed over to the destination. *)
Definition reparent_body (dst_slot : Z) (a : caddr) (s : kstate) : option (bool * kstate) :=
  p ← cap_from_sibling a;
  child ← get_cap s p.1 p.2;
  s ← set_cap p.1 p.2 (set_parent dst_slot child) s;
  Some (false, s).

(** No list is longer than all slots of all CSpaces. *)
Definition list_fuel : nat := S (Z.to_nat (CONFIG_MAX_CSPACES * CSPACE_MAX_CAPACITY)).

Definition wipe_cap (t i : Z) (s : kstate) : option kstate :=
  s ← zero_cap t i s;
  s ← set_cap t i (set_parent CAP_SLOT_INVALID cap_zero) s;
  s ← init_children t i s;
  init_sibling t i s.

Definition cap_move (src_root src_slot dst_root dst_slot : Z) (s : kstate)
  : option (kstate * Z) :=
  r ← resolve_dual s src_root src_slot dst_root dst_slot;
  match r with
  | inl e => Some (s, e)
  | inr (sc, dc, t, src) =>
      r ← cap_insert_locked dc dst_slot (kobj_type src) (kobj_id src) (rights src)
                            (badge src) (parent_slot src) s;
      let '(s, ret) := r in
      if negb (ret =? KERNEL_OK) then Some (s, ret)
      else
        dv ← get_cs s dc;
        dt ← cap_table dv;
        e ← list_empty (Some (CapChildren t src_slot)) (lists s);
        s ← (if (e : bool) then Some s
             else on_lists (list_splice (Some (CapChildren t src_slot))
                                        (Some (CapChildren dt dst_slot))) s);
        s ← list_for_each_safe lists list_fuel (Some (CapChildren dt dst_slot))
                               (reparent_body dst_slot) s;
        src ← get_cap s t src_slot;
        s ← (if negb (parent_slot src =? CAP_SLOT_INVALID)
             then on_lists (list_del_init (Some (CapSibling t src_slot))) s else Some s);
        s ← wipe_cap t src_slot s;
        Some (s, KERNEL_OK)
  end.

(** ** Revocation *)

(** State of the inner loop: the explicit stack (top first) and [overflow]. *)
Record revoke_run := Revoke { rv_state : kstate; rv_stack : list Z; rv_overflow : bool }.

(** Push one child, or [break] when the stack is full. *)
Definition push_body (t : Z) (a : caddr) (r : revoke_run) : option (bool * revoke_run) :=
  p ← cap_from_sibling a;
  if Z.of_nat (length (rv_stack r)) <? REVOKE_STACK_SIZE then
    child_idx ← slot_of t p;
    Some (false, Revoke (rv_state r) (child_idx :: rv_stack r) (rv_overflow r))
  else Some (true, Revoke (rv_state r) (rv_stack r) true).

(** One iteration of the outer loop for the slot popped from the stack. *)
Definition revoke_one (c cur : Z) (r : revoke_run) : option revoke_run :=
  l ← lookup_valid (rv_state r) c cur;
  match l with
  | None => Some r
  | Some (t, _) =>
      r ← list_for_each_safe (λ r, lists (rv_state r)) list_fuel (Some (CapChildren t cur))
                             (push_body t) r;
      s ← on_lists (list_del_init (Some (CapSibling t cur))) (rv_state r);
      s ← init_children t cur s;
      s ← wipe_cap t cur s;
      s ← push_free c t cur s;
      Some (Revoke s (rv_stack r) (rv_overflow r))
  end.

Fixpoint revoke_loop (fuel : nat) (c : Z) (r : revoke_run) : option revoke_run :=
  match rv_stack r with
  | [] => Some r
  | cur :: stk =>
      match fuel with
      | O => None
      | S fuel =>
          r ← revoke_one c cur (Revoke (rv_state r) stk (rv_overflow r));
          revoke_loop fuel c r
      end
  end.

(** Each valid capability is freed once and pushes at most a full stack. *)
Definition revoke_fuel (v : cspace_t) : nat :=
  S (Z.to_nat (REVOKE_STACK_SIZE * capacity v)).

Definition cap_revoke (root slot : Z) (s : kstate) : option (kstate * Z) :=
  cs ← resolve s root slot;
  match cs with
  | None => Some (s, - EINVAL)
  | Some c =>
      l ← lookup_valid s c slot;
      match l with
      | None => Some (s, - ENOENT)
      | Some (t, target) =>
          if Z.land (rights target) CAP_RIGHT_REVOKE =? CAP_RIGHT_NONE then Some (s, - EACCES)
          else
            v ← get_cs s c;
            r ← revoke_loop (revoke_fuel v) c (Revoke s [slot] false);
            Some (rv_state r, if rv_overflow r then - ENOMEM else KERNEL_OK)
      end
  end.

(** ** Deletion *)

Definition orphan_body (a : caddr) (s : kstate) : option (bool * kstate) :=
  p ← cap_from_sibling a;
  child ← get_cap s p.1 p.2;
  s ← set_cap p.1 p.2 (set_parent CAP_SLOT_INVALID child) s;
  s ← on_lists (list_del_init (Some a)) s;
  Some (false, s).

Definition cap_delete (root slot : Z) (s : kstate) : option (kstate * Z) :=
  cs ← resolve s root slot;
  match cs with
  | None => Some (s, - EINVAL)
  | Some c =>
      p ← cspace_lookup s (Some c) slot;
      match p with
      | None => Some (s, - ENOENT)
      | Some (t, i) =>
          target ← get_cap s t i;
          s ← (if negb (parent_slot target =? CAP_SLOT_INVALID)
               then on_lists (list_del_init (Some (CapSibling t i))) s else Some s);
          s ← list_for_each_safe lists list_fuel (Some (CapChildren t i)) orphan_body s;
          s ← wipe_cap t i s;
          Some (s, KERNEL_OK)
      end
  end.

(** ** Validation and queries *)

(** The second component is the capability pointer output. *)
Definition cap_validate (root slot required : Z) (s : kstate) : option (option (Z * Z) * Z) :=
  cs ← resolve s root slot;
  match cs with
  | None => Some (None, - EINVAL)
  | Some c =>
      l ← lookup_valid s c slot;
      match l with
      | None => Some (None, - ENOENT)
      | Some (t, cap) =>
          if negb (cap_rights_check cap required) then Some (None, - EACCES)
          else Some (Some (t, slot), KERNEL_OK)
      end
  end.

Definition cap_get_object_type (root slot : Z) (s : kstate) : option Z :=
  cs ← resolve s root slot;
  match cs with
  | None => Some KOBJ_TYPE_COUNT
  | Some c =>
      l ← lookup_valid s c slot;
      match l with
      | None => Some KOBJ_TYPE_COUNT
      | Some (_, cap) => Some (kobj_type cap)
      end
  end.

Definition cap_badge_update (root slot new_badge : Z) (s : kstate) : option (kstate * Z) :=
  cs ← resolve s root slot;
  match cs with
  | None => Some (s, - EINVAL)
  | Some c =>
      l ← lookup_valid s c slot;
      match l with
      | None => Some (s, - ENOENT)
      | Some (t, cap) =>
          if Z.land (rights cap) CAP_RIGHT_WRITE =? CAP_RIGHT_NONE then Some (s, - EACCES)
          else s ← set_cap t slot (set_badge new_badge cap) s; Some (s, KERNEL_OK)
      end
  end.

Definition cap_rights_derive_check (root slot request : Z) (s : kstate) : option Z :=
  cs ← resolve s root slot;
  match cs with
  | None => Some (- EINVAL)
  | Some c =>
      l ← lookup_valid s c slot;
      match l with
      | None => Some (- ENOENT)
      | Some (_, cap) =>
          if Z.land (rights cap) CAP_RIGHT_GRANT =? CAP_RIGHT_NONE then Some (- EACCES)
          else if negb (Z.land request (rights cap) =? request) then Some (- EACCES)
          else Some KERNEL_OK
      end
  end.

(** ** Mint *)

Definition cap_mint (root slot ty kid r bdg : Z) (s : kstate) : option (kstate * Z) :=
  if root =? CAP_SLOT_INVALID then Some (s, - EINVAL)
  else if slot =? CAP_SLOT_INVALID then Some (s, - EINVAL)
  else if ty >=? KOBJ_TYPE_COUNT then Some (s, - EINVAL)
  else
    cs ← cspace_from_root s root;
    match cs with
    | None => Some (s, - EINVAL)
    | Some c =>
        v ← get_cs s c;
        p ← cspace_lookup s (Some c) (root_slot v);
        match p with
        | None => Some (s, - ENOENT)
        | Some (t, i) =>
            root_cap ← get_cap s t i;
            let WG := Z.lor CAP_RIGHT_WRITE CAP_RIGHT_GRANT in
            if negb (Z.land (rights root_cap) WG =? WG) then Some (s, - EACCES)
            else cap_insert_locked c slot ty kid r bdg CAP_SLOT_INVALID s
        end
    end.

(** ** Derive *)

Definition cap_derive (src_root src_slot dst_root dst_slot new_rights bdg : Z) (s : kstate)
  : option (kstate * Z) :=
  r ← resolve_dual s src_root src_slot dst_root dst_slot;
  match r with
  | inl e => Some (s, e)
  | inr (sc, dc, t, src) =>
      if negb (Z.land new_rights (rights src) =? new_rights) then Some (s, - EACCES)
      else if new_rights =? rights src then Some (s, - EINVAL)
      else cap_insert_locked dc dst_slot (kobj_type src) (kobj_id src) new_rights bdg src_slot s
  end.

(** ** Information *)

Record cap_info_t := CapInfo {
  ci_type : Z; ci_rights : Z; ci_badge : Z; ci_id : Z; ci_state : cap_state_t; child_count : Z
}.

Definition cap_get_info (root slot : Z) (info : bool) (s : kstate) : option (option cap_info_t * Z) :=
  if negb info then Some (None, - EINVAL)
  else
    cs ← resolve s root slot;
    match cs with
    | None => Some (None, - EINVAL)
    | Some c =>
        p ← cspace_lookup s (Some c) slot;
        match p with
        | None => Some (None, - ENOENT)
        | Some (t, i) =>
            cap ← get_cap s t i;
            n ← list_count_nodes list_fuel (Some (CapChildren t i)) (lists s);
            Some (Some (CapInfo (kobj_type cap) (rights cap) (badge cap) (kobj_id cap)
                                (state cap) n), KERNEL_OK)
        end
    end.

Definition CONFIG_MAX_THREADS : Z := 256.

Definition cap_migrate_context (thread_id old_cpu new_cpu : Z) : Z :=
  if thread_id >=? CONFIG_MAX_THREADS then - EINVAL else KERNEL_OK.

(** ** Integrity self-check *)

(** Checks a, c, d and e of one VALID capability. *)
Definition integrity_fields_ok (v : cspace_t) (t : Z) (cap : cap_t) (s : kstate) : option bool :=
  ok ← (if negb (parent_slot cap =? CAP_SLOT_INVALID) then
          if parent_slot cap >=? capacity v then Some false
          else
            parent ← get_cap s t (parent_slot cap);
            Some (bool_decide (state parent = CAP_STATE_VALID)
                  && (derive_depth cap =? derive_depth parent + 1)
                  && (Z.land (rights cap) (rights parent) =? rights cap))
        else Some (derive_depth cap =? 0));
  Some (ok && (cap_validate_rights_for_type (kobj_type cap) (rights cap) =? KERNEL_OK)).

(** Check b: the loop over the children; [true] once it failed. *)
Definition integrity_body (t i : Z) (a : caddr) (r : kstate * bool)
  : option (bool * (kstate * bool)) :=
  p ← cap_from_sibling a;
  child ← get_cap r.1 p.1 p.2;
  child_idx ← slot_of t p;
  if negb (parent_slot child =? child_idx) && negb (parent_slot child =? i)
  then Some (true, (r.1, true)) else Some (false, r).

Fixpoint integrity_loop (n : nat) (v : cspace_t) (t i total failed : Z) (s : kstate)
  : option (Z * Z) :=
  match n with
  | O => Some (total, failed)
  | S n =>
      cap ← get_cap s t i;
      if negb (bool_decide (state cap = CAP_STATE_VALID))
      then integrity_loop n v t (i + 1) total failed s
      else
        ok ← integrity_fields_ok v t cap s;
        if negb (ok : bool) then integrity_loop n v t (i + 1) (total + 1) (failed + 1) s
        else
          r ← list_for_each_safe (λ r : kstate * bool, lists r.1) list_fuel
                                 (Some (CapChildren t i)) (integrity_body t i) (s, false);
          integrity_loop n v t (i + 1) (total + 1) (if (r.2 : bool) then failed + 1 else failed) s
  end.

(** The result: total, passed and failed. *)
Definition cap_integrity_check (root : Z) (result : bool) (s : kstate)
  : option (option (Z * Z * Z) * Z) :=
  if negb result then Some (None, - EINVAL)
  else if root =? CAP_SLOT_INVALID then Some (None, - EINVAL)
  else
    cs ← cspace_from_root s root;
    match cs with
    | None => Some (None, - EINVAL)
    | Some c =>
        v ← get_cs s c;
        r ← (if capacity v =? 0 then Some (0, 0)
             else t ← cap_table v; integrity_loop (Z.to_nat (capacity v)) v t 0 0 0 s);
        Some (Some (r.1, u32 (r.1 - r.2), r.2), KERNEL_OK)
    end.

(** ** Minting for file descriptors, inodes and memory regions *)

(** READ, plus WRITE and EXECUTE as the access bits ask. *)
Definition access_rights (mode : Z) : Z :=
  let r := CAP_RIGHT_READ in
  let r := if negb (Z.land mode 2 =? 0) then Z.lor r CAP_RIGHT_WRITE else r in
  if negb (Z.land mode 4 =? 0) then Z.lor r CAP_RIGHT_EXECUTE else r.

Definition cap_mint_for_fd (root slot fd access_mode : Z) (s : kstate) : option (kstate * Z) :=
  if access_mode =? 0 then Some (s, - EINVAL)
  else cap_mint root slot KOBJ_FD fd (access_rights access_mode) 0 s.

Definition cap_mint_for_inode (root slot inode_id file_type : Z) (s : kstate)
  : option (kstate * Z) :=
  let r := Z.lor CAP_RIGHT_READ CAP_RIGHT_EXECUTE in
  let r := if (file_type =? 1) || (file_type =? 2) then Z.lor r CAP_RIGHT_WRITE else r in
  cap_mint root slot KOBJ_INODE (u32 inode_id) r 0 s.

Definition cap_mint_for_memory_region (root slot region access : Z) (s : kstate)
  : option (kstate * Z) :=
  if access =? 0 then Some (s, - EINVAL)
  else cap_mint root slot KOBJ_MEMORY_REGION region (access_rights access) 0 s.
