(* ===== verification/CapForest.v ===== *)
(** * The derivation forest of a CSpace

    One cap table with its list nodes, as a forest: every VALID capability heads
    a circular list of exactly its children, children point back to their
    parent and lie strictly deeper.  [P] is a set of pending capabilities:
    those an operation has cut off from their parent and not yet dealt with;
    between operations it is empty.

    This file has the invariant and the transformations that make capabilities
    pending: detaching from the parent and freeing.  CapForestOps has the
    others. *)

From stdpp Require Import functions.
From S2P Require Import Prelude KList CapTypes.

Set Default Goal Selector "!".

(** ** Definitions *)

(** What every VALID capability satisfies on its own. *)
Definition cap_ok (c : cap_t) : Prop :=
  cap_validate_rights_for_type (kobj_type c) (rights c) = KERNEL_OK ∧
  0 <= derive_depth c <= CAP_MAX_DERIVE_DEPTH.

Section forest.
(** The table's name and the capacity of its CSpace. *)
Context (t n : Z).
Implicit Types (tb : list cap_t) (h : nodes) (K : Z → list Z) (P : gset Z).

Definition valid tb (i : Z) (c : cap_t) : Prop :=
  0 <= i < n ∧ tb.[i] = Some c ∧ state c = CAP_STATE_VALID.

Definition invalid tb (i : Z) : Prop := ∀ c, ¬ valid tb i c.

(** The nodes of other tables and of CSpaces. *)
Definition foreign (a : caddr) : Prop := ∀ i, a ≠ CapChildren t i ∧ a ≠ CapSibling t i.

(** The nodes that belong to no list of the forest. *)
Definition unowned tb P (a : caddr) : Prop :=
  ∃ i, 0 <= i < n ∧
    (a = CapSibling t i ∧ (i ∈ P ∨ invalid tb i) ∨ a = CapChildren t i ∧ invalid tb i).

Record pforest tb h K P : Prop := PForest {
  pf_n : 0 <= n <= CSPACE_MAX_CAPACITY;
  pf_len : n <= Z.of_nat (length tb);
  pf_dom : ∀ i, 0 <= i < n → CapChildren t i ∈ dom h ∧ CapSibling t i ∈ dom h;
  pf_kids : ∀ i c, valid tb i c → dll h (CapChildren t i) (CapSibling t <$> K i);
  pf_child : ∀ i c j, valid tb i c →
    j ∈ K i ↔ j ∉ P ∧ ∃ cj, valid tb j cj ∧ parent_slot cj = i;
  pf_root : ∀ j c, valid tb j c → j ∉ P → parent_slot c = CAP_SLOT_INVALID →
    dll h (CapSibling t j) [];
  pf_parent : ∀ j c, valid tb j c → j ∉ P → parent_slot c ≠ CAP_SLOT_INVALID →
    ∃ cp, valid tb (parent_slot c) cp ∧ derive_depth cp < derive_depth c;
  pf_pend : ∀ j, j ∈ P → (∃ c, valid tb j c) ∧
    ∃ a b, nxt h (CapSibling t j) = Some a ∧ prv h (CapSibling t j) = Some b ∧
           unowned tb P a ∧ unowned tb P b;
  pf_ok : ∀ j c, valid tb j c → cap_ok c
}.

(** ** Basic facts *)

Lemma valid_inj tb i c c' : valid tb i c → valid tb i c' → c = c'.
Proof. intros (_ & ? & _) (_ & ? & _). congruence. Qed.

Lemma valid_dec tb i : {c | valid tb i c} + {invalid tb i}.
Proof.
  destruct (decide (0 <= i < n)) as [Hi|Hi]; [|by right; intros c [? _]].
  destruct (tb.[i]) as [c|] eqn:E; [|right; intros c (_ & ? & _); congruence].
  destruct (decide (state c = CAP_STATE_VALID)) as [Hs|Hs].
  - left. exists c. split; [done|by split].
  - right. intros c' (_ & ? & ?). congruence.
Qed.

Lemma valid_insert_ne tb i j c x : 0 <= j → i ≠ j →
  valid (<[Z.to_nat j := x]> tb) i c ↔ valid tb i c.
Proof. intros ? ?. unfold valid. rewrite zlookup_insert_ne by done. done. Qed.

Lemma valid_insert_eq tb j c x : 0 <= j < Z.of_nat (length tb) →
  valid (<[Z.to_nat j := x]> tb) j c ↔ 0 <= j < n ∧ c = x ∧ state x = CAP_STATE_VALID.
Proof.
  intros ?. unfold valid. rewrite zlookup_insert_eq by done. naive_solver.
Qed.

Lemma fmap_sibling_elem (l : list Z) j : CapSibling t j ∈ CapSibling t <$> l ↔ j ∈ l.
Proof. rewrite list_elem_of_fmap. split; [intros (? & [= <-] & ?); done|eauto]. Qed.

Lemma children_not_sibling (l : list Z) i : CapChildren t i ∉ CapSibling t <$> l.
Proof. rewrite list_elem_of_fmap. by intros (? & ? & ?). Qed.

Section facts.
Context tb h K P (HF : pforest tb h K P).

Lemma kids_valid i c j : valid tb i c → j ∈ K i →
  j ∉ P ∧ ∃ cj, valid tb j cj ∧ parent_slot cj = i.
Proof. intros Hi Hj. by apply (pf_child _ _ _ _ HF i c j Hi). Qed.

(** Children lists of different capabilities share no member. *)
Lemma kids_disjoint i1 c1 i2 c2 j : valid tb i1 c1 → valid tb i2 c2 →
  j ∈ K i1 → j ∈ K i2 → i1 = i2.
Proof.
  intros H1 H2 (_ & cj & Hj & <-)%(kids_valid _ _ _ H1) (_ & cj' & Hj' & <-)%(kids_valid _ _ _ H2).
  by rewrite (valid_inj _ _ _ _ Hj Hj').
Qed.

Lemma kids_nodup i c : valid tb i c → NoDup (K i).
Proof.
  intros Hi. destruct (dll_NoDup _ _ _ (pf_kids _ _ _ _ HF i c Hi)) as [Hnd _].
  by apply NoDup_fmap_1 in Hnd.
Qed.

Lemma parent_not_invalid i c : valid tb i c → i ≠ CAP_SLOT_INVALID.
Proof.
  intros [? _] ->. pose proof (pf_n _ _ _ _ HF).
  unfold CSPACE_MAX_CAPACITY, CAP_SLOT_INVALID in *. lia.
Qed.

(** A capability is not its own child. *)
Lemma kids_irrefl i c : valid tb i c → i ∉ K i.
Proof.
  intros Hi Hin. destruct (kids_valid _ _ _ Hi Hin) as (HP & c' & Hc' & Hpar).
  destruct (pf_parent _ _ _ _ HF i c' Hc' HP) as (cp & Hcp & Hd).
  { rewrite Hpar. by eapply parent_not_invalid. }
  rewrite Hpar in Hcp. rewrite (valid_inj _ _ _ _ Hcp Hc') in Hd. lia.
Qed.

(** The nodes of the forest's lists are owned. *)
Lemma kids_owned i c a : valid tb i c →
  a ∈ CapChildren t i :: (CapSibling t <$> K i) → ¬ unowned tb P a.
Proof.
  intros Hi [->|Ha]%elem_of_cons (k & _ & Hk).
  - destruct Hk as [[? _]|[[= <-] Hinv]]; [done|by apply (Hinv c)].
  - apply list_elem_of_fmap in Ha as (j & -> & Hj).
    destruct (kids_valid _ _ _ Hi Hj) as (HP & cj & Hcj & _).
    destruct Hk as [[[= <-] [?|Hinv]]|[? _]]; [done|by apply (Hinv cj)|done].
Qed.

Lemma sibling_owned j c : valid tb j c → j ∉ P → ¬ unowned tb P (CapSibling t j).
Proof.
  intros Hj HP (k & _ & [[[= <-] [?|Hinv]]|[? _]]); [done|by apply (Hinv c)|done].
Qed.

Lemma unowned_dom a : unowned tb P a → a ∈ dom h.
Proof. intros (i & Hi & [[-> _]|[-> _]]); by apply (pf_dom _ _ _ _ HF i). Qed.
End facts.

Lemma unowned_mono tb tb' P P' a :
  (∀ i, 0 <= i < n → i ∈ P ∨ invalid tb i → i ∈ P' ∨ invalid tb' i) →
  (∀ i, 0 <= i < n → invalid tb i → invalid tb' i) →
  unowned tb P a → unowned tb' P' a.
Proof. intros HP Hi (i & Hr & [[-> ?]|[-> ?]]); exists i; naive_solver. Qed.

(** The neighbours of a list member lie in the list. *)
Lemma dll_member h hd xs x : dll h hd xs → x ∈ xs →
  ∃ a b, nxt h x = Some a ∧ prv h x = Some b ∧ a ∈ hd :: xs ∧ b ∈ hd :: xs.
Proof.
  intros Hd Hx. apply list_elem_of_split in Hx as (l1 & l2 & ->).
  destruct (dll_neighbours _ _ _ _ _ Hd) as [Hp Hn].
  unfold get_prev, get_next in *. cbn in *.
  apply bind_Some in Hp as (nd & E & Hp). apply bind_Some in Hn as (nd' & E' & Hn).
  injection Hp as Hp. injection Hn as Hn.
  unfold nxt, prv. rewrite E in *. injection E' as <-. cbn. rewrite Hp, Hn.
  pose proof (default_last_in hd l1). pose proof (default_head_in hd l2).
  do 2 eexists. split_and!; [done..| |]; set_solver.
Qed.

(** ** Changing nodes

    [pforest_nodes]: a change of nodes that touches no list of the forest, and
    keeps the pending siblings linked to unowned nodes. *)
Lemma pforest_nodes tb h h' K P :
  pforest tb h K P → dom h' = dom h →
  (∀ a, ¬ unowned tb P a → h' !! a = h !! a) →
  (∀ j, j ∈ P → ∃ a b, nxt h' (CapSibling t j) = Some a ∧ prv h' (CapSibling t j) = Some b ∧
                       unowned tb P a ∧ unowned tb P b) →
  pforest tb h' K P.
Proof.
  intros HF Hdom Hown Hpend. pose proof HF as [pf_n0 pf_len0 pf_dom0 pf_kids0 pf_child0 pf_root0 pf_parent0 pf_pend0 pf_ok0].
  assert (∀ hd xs, dll h hd xs → (∀ a, a ∈ hd :: xs → ¬ unowned tb P a) → dll h' hd xs) as Hdll.
  { intros hd xs [Hnd Hs] Ho. split; [done|]. eapply lseg_ext; [exact Hs|..].
    all: intros x Hx; unfold nxt, prv; rewrite Hown; [done|apply Ho; set_solver]. }
  split; try done.
  - by rewrite Hdom.
  - intros i c Hi. apply Hdll; [eauto|]. intros a Ha. by eapply kids_owned.
  - intros j c Hj HP Hr. apply Hdll; [eauto|]. intros a ->%list_elem_of_singleton.
    by eapply sibling_owned.
  - intros j Hj. split; [by apply pf_pend0|auto].
Qed.

(** ** Detaching a capability from its parent ([list_del_init(&cap->sibling)]) *)

Definition cut (j p : Z) K : Z → list Z := <[p := filter (.≠ j) (K p)]> K.

Lemma filter_ne_mid (xs ys : list Z) j : NoDup (xs ++ j :: ys) →
  filter (.≠ j) (xs ++ j :: ys) = xs ++ ys.
Proof.
  intros (_ & Hx & [Hy _]%NoDup_cons)%NoDup_app. rewrite filter_app, filter_cons_False by naive_solver.
  f_equal; apply filter_id; intros z Hz ->; [|done]. apply (Hx j Hz). left.
Qed.

(** Detaching a child. *)
Lemma detach_child tb h K P j c : pforest tb h K P → valid tb j c → j ∉ P →
  parent_slot c ≠ CAP_SLOT_INVALID →
  ∃ h', list_del_init (Some (CapSibling t j)) h = Some h' ∧
        pforest tb h' (cut j (parent_slot c) K) ({[j]} ∪ P) ∧
        dll h' (CapSibling t j) [] ∧ dom h' = dom h ∧
        (∀ a, foreign a → h' !! a = h !! a) ∧
        (∀ y, y ∈ P → h' !! CapSibling t y = h !! CapSibling t y).
Proof.
  intros HF Hj HP Hpar. destruct (pf_parent _ _ _ _ HF j c Hj HP Hpar) as (cp & Hp & Hd).
  set (p := parent_slot c) in *.
  assert (j ∈ K p) as Hin by (apply (pf_child _ _ _ _ HF p cp j Hp); split; [done|by exists c]).
  pose proof (kids_nodup _ _ _ _ HF _ _ Hp) as Hnd.
  apply list_elem_of_split in Hin as (xs & ys & EK).
  pose proof (pf_kids _ _ _ _ HF p cp Hp) as Hdll. rewrite EK, fmap_app, fmap_cons in Hdll.
  destruct (list_del_init_spec _ _ _ _ _ Hdll) as (h' & E & Hdll' & Hself & Hsame).
  assert (cut j p K = <[p := xs ++ ys]> K) as ->.
  { unfold cut. rewrite EK in Hnd |- *. by rewrite filter_ne_mid. }
  rewrite <- fmap_app in Hdll', Hsame.
  assert (∀ a, a ∈ CapSibling t j :: CapChildren t p :: (CapSibling t <$> xs ++ ys) ↔
               a = CapChildren t p ∨ a ∈ CapSibling t <$> K p) as HW.
  { intros a. rewrite EK, !fmap_app, fmap_cons. set_solver. }
  assert (∀ x, x ∈ P → x ∉ K p) as HPK.
  { intros x Hx Hk. by destruct (kids_valid _ _ _ _ HF p cp x Hp Hk). }
  exists h'. split; [done|]. split; [|split; [done|split; [apply Hsame|split]]].
  3: { intros y Hy. apply Hsame. rewrite HW, fmap_sibling_elem. intros [?|?]; [done|].
       by apply (HPK y). }
  2: { intros a Ha. apply Hsame. rewrite HW. intros [->|(k & -> & _)%list_elem_of_fmap].
       - by destruct (Ha p).
       - by destruct (Ha k). }
  assert (∀ a, a ≠ CapChildren t p → a ∉ CapSibling t <$> K p → h' !! a = h !! a) as Hrest.
  { intros a ? ?. apply Hsame. rewrite HW. naive_solver. }
  assert (∀ hd l, dll h hd l → (∀ a, a ∈ hd :: l → a ≠ CapChildren t p ∧ a ∉ CapSibling t <$> K p) →
                  dll h' hd l) as Hframe.
  { intros hd l [Hn Hs] Ha. split; [done|]. eapply lseg_ext; [exact Hs|..].
    all: intros x Hx; unfold nxt, prv; rewrite Hrest; [done|apply Ha; set_solver..]. }
  assert (j ∉ xs ++ ys) as Hjn.
  { rewrite EK in Hnd. apply NoDup_app in Hnd as (_ & ? & []%NoDup_cons). set_solver. }
  pose proof HF as [pf_n0 pf_len0 pf_dom0 pf_kids0 pf_child0 pf_root0 pf_parent0 pf_pend0 pf_ok0]. split; try done.
  - intros i Hi. destruct Hsame as [-> _]. auto.
  - intros i ci Hi. destruct (decide (i = p)) as [->|Hne].
    + by rewrite fn_lookup_insert.
    + rewrite fn_lookup_insert_ne by done. apply Hframe; [eauto|]. intros a [->|Ha]%elem_of_cons.
      * split; [congruence|]. apply children_not_sibling.
      * apply list_elem_of_fmap in Ha as (k & -> & Hk). split; [done|].
        rewrite fmap_sibling_elem. intros Hk'. apply Hne. by eapply kids_disjoint.
  - intros i ci x Hi. rewrite not_elem_of_union, elem_of_singleton.
    destruct (decide (i = p)) as [->|Hne].
    + rewrite fn_lookup_insert. pose proof (pf_child0 p ci x Hi) as Hx. rewrite EK in Hx.
      destruct (decide (x = j)) as [->|Hxj]; [naive_solver|].
      assert (x ∈ xs ++ ys ↔ x ∈ xs ++ j :: ys) as -> by set_solver. rewrite Hx. naive_solver.
    + rewrite fn_lookup_insert_ne by done. rewrite (pf_child0 i ci x Hi). split; [|naive_solver].
      intros [? (cx & Hx & Hpx)]. split; [|eauto]. split; [|done]. intros ->.
      rewrite (valid_inj _ _ _ _ Hx Hj) in Hpx. done.
  - intros x cx Hx [Hxj HxP]%not_elem_of_union Hr. apply Hframe; [eauto|].
    intros a ->%list_elem_of_singleton. split; [done|]. rewrite fmap_sibling_elem. intros Hk.
    destruct (kids_valid _ _ _ _ HF p cp x Hp Hk) as (_ & cx' & Hx' & Hpx).
    rewrite (valid_inj _ _ _ _ Hx' Hx) in Hpx. rewrite Hr in Hpx.
    by eapply (parent_not_invalid _ _ _ _ HF p).
  - intros x cx Hx [Hxj HxP]%not_elem_of_union. eauto.
  - assert (∀ a, unowned tb P a → unowned tb ({[j]} ∪ P) a) as Hmono.
    { intros a. apply unowned_mono; [|done]. intros i _. set_solver. }
    intros x [->%elem_of_singleton|Hx]%elem_of_union.
    + split; [eauto|]. apply dll_nil in Hself as [Hs1 Hs2]. do 2 eexists. split_and!; [done..| |];
        (exists j; split; [apply Hj|left; split; [done|left; set_solver]]).
    + destruct (pf_pend0 x Hx) as (Hv & a & b & Ha & Hb & Hua & Hub). split; [done|].
      exists a, b. unfold nxt, prv in *. rewrite Hrest; [by split_and!; auto|done|].
      rewrite fmap_sibling_elem. by apply HPK.
Qed.

(** Detaching a capability without parent: it is self-linked already. *)
Lemma detach_root tb h K P j c : pforest tb h K P → valid tb j c → j ∉ P →
  parent_slot c = CAP_SLOT_INVALID →
  list_del_init (Some (CapSibling t j)) h = Some h ∧
  pforest tb h K ({[j]} ∪ P) ∧ dll h (CapSibling t j) [].
Proof.
  intros HF Hj HP Hr. pose proof (pf_root _ _ _ _ HF j c Hj HP Hr) as Hself.
  split; [by apply list_del_init_self|]. split; [|done].
  pose proof HF as [pf_n0 pf_len0 pf_dom0 pf_kids0 pf_child0 pf_root0 pf_parent0 pf_pend0 pf_ok0]. split; try done.
  - intros i ci x Hi. rewrite not_elem_of_union, elem_of_singleton, (pf_child0 i ci x Hi).
    split; [|naive_solver]. intros [? (cx & Hx & Hpx)]. split; [|eauto]. split; [|done]. intros ->.
    rewrite (valid_inj _ _ _ _ Hx Hj), Hr in Hpx. by eapply (parent_not_invalid _ _ _ _ HF i).
  - intros x cx Hx [? ?]%not_elem_of_union. eauto.
  - intros x cx Hx [? ?]%not_elem_of_union. eauto.
  - assert (∀ a, unowned tb P a → unowned tb ({[j]} ∪ P) a) as Hmono.
    { intros a. apply unowned_mono; [|done]. intros i _. set_solver. }
    intros x [->%elem_of_singleton|Hx]%elem_of_union.
    + split; [eauto|]. apply dll_nil in Hself as [Hs1 Hs2]. do 2 eexists. split_and!; [done..| |];
        (exists j; split; [apply Hj|left; split; [done|left; set_solver]]).
    + destruct (pf_pend0 x Hx) as (Hv & a & b & Ha & Hb & Hua & Hub). split; [done|].
      exists a, b. by split_and!; auto.
Qed.

(** Detaching a pending capability only rewires unowned nodes. *)
Lemma detach_pending tb h K P j : pforest tb h K P → j ∈ P →
  ∃ h', list_del_init (Some (CapSibling t j)) h = Some h' ∧ pforest tb h' K P ∧
        dll h' (CapSibling t j) [] ∧ dom h' = dom h ∧ (∀ a, foreign a → h' !! a = h !! a).
Proof.
  intros HF Hj. destruct (pf_pend _ _ _ _ HF j Hj) as (_ & a & b & Ha & Hb & Hua & Hub).
  unfold list_del_init. rewrite (get_prev_prv _ _ _ Hb), (get_next_nxt _ _ _ Ha).
  cbn [mbind option_bind].
  destruct (__list_del_effect b a h) as (h1 & -> & F1 & N1 & P1).
  { by eapply unowned_dom. } { by eapply unowned_dom. }
  cbn [mbind option_bind].
  assert (CapSibling t j ∈ dom h1) as Hd.
  { destruct F1 as [-> _]. by eapply nxt_is_Some. }
  destruct (INIT_LIST_HEAD_effect _ _ Hd) as (h2 & -> & F2 & E2).
  assert (∀ x, x ∈ [b; a; CapSibling t j] → unowned tb P x) as HW.
  { destruct (pf_pend _ _ _ _ HF j Hj) as ((cj & Hcj) & _).
    intros x Hx. rewrite !elem_of_cons, elem_of_nil in Hx. destruct Hx as [->|[->|[->|[]]]]; [done..|].
    exists j. split; [apply Hcj|]. left. split; [done|by left]. }
  assert (∀ x, ¬ unowned tb P x → h2 !! x = h !! x) as Hrest.
  { intros x Hx. destruct F1 as [_ F1], F2 as [_ F2]. rewrite F2, F1; [done| |].
    - intros Hx'. apply Hx, HW. set_solver.
    - intros Hx'. apply Hx, HW. set_solver. }
  exists h2. split; [done|]. assert (dom h2 = dom h) as Hdom by (destruct F1, F2; congruence).
  split_and!; [|apply dll_nil; unfold link, nxt, prv; by rewrite E2|done|].
  - eapply pforest_nodes; [done|done|done|]. intros x Hx.
    destruct (pf_pend _ _ _ _ HF x Hx) as (_ & a' & b' & Ha' & Hb' & Hua' & Hub').
    destruct (decide (x = j)) as [->|Hne].
    + exists (CapSibling t j), (CapSibling t j). unfold nxt, prv. rewrite E2. cbn.
      split_and!; [done..| |]; apply HW; set_solver.
    + assert (h2 !! CapSibling t x = h1 !! CapSibling t x) as E.
      { apply F2. set_solver. }
      unfold nxt, prv in *. rewrite E, N1, P1.
      exists (if decide (CapSibling t x = b) then a else a'),
             (if decide (CapSibling t x = a) then b else b').
      split_and!; repeat case_decide; done.
  - intros x Hx. apply Hrest. intros (i & _ & [[-> _]|[-> _]]); by destruct (Hx i).
Qed.

(** All three cases. *)
Lemma detach tb h K P j c : pforest tb h K P → valid tb j c →
  ∃ h' K', list_del_init (Some (CapSibling t j)) h = Some h' ∧
    pforest tb h' K' ({[j]} ∪ P) ∧ K' j = K j ∧
    dll h' (CapSibling t j) [] ∧ dom h' = dom h ∧ (∀ a, foreign a → h' !! a = h !! a).
Proof.
  intros HF Hj. destruct (decide (j ∈ P)) as [HP|HP].
  { destruct (detach_pending _ _ _ _ _ HF HP) as (h' & ? & ? & ? & ? & ?). exists h', K.
    rewrite (subseteq_union_1_L {[j]} P) by set_solver. by split_and!. }
  destruct (decide (parent_slot c = CAP_SLOT_INVALID)) as [Hr|Hr].
  { destruct (detach_root _ _ _ _ _ _ HF Hj HP Hr) as (? & ? & ?). exists h, K. by split_and!. }
  destruct (detach_child _ _ _ _ _ _ HF Hj HP Hr) as (h' & ? & ? & ? & ? & ? & _).
  exists h', (cut j (parent_slot c) K). split_and!; [done..| |done|done|done].
  unfold cut. rewrite fn_lookup_insert_ne; [done|]. intros Hp.
  destruct (pf_parent _ _ _ _ HF j c Hj HP Hr) as (cp & Hcp & Hd). rewrite Hp in Hcp.
  rewrite (valid_inj _ _ _ _ Hcp Hj) in Hd. lia.
Qed.

(** ** Freeing a pending capability: its children become pending *)

Lemma free_pending tb h h' K P j x : pforest tb h K P → j ∈ P →
  state x ≠ CAP_STATE_VALID → dom h' = dom h →
  (∀ a, a ≠ CapChildren t j → a ≠ CapSibling t j → h' !! a = h !! a) →
  pforest (<[Z.to_nat j := x]> tb) h' K (list_to_set (K j) ∪ P ∖ {[j]}).
Proof.
  intros HF Hj Hx Hdom Hsame. pose proof HF as [pf_n0 pf_len0 pf_dom0 pf_kids0 pf_child0 pf_root0 pf_parent0 pf_pend0 pf_ok0].
  destruct (pf_pend0 j Hj) as ((cj & Hcj) & _). pose proof Hcj as (Hjr & Hjt & _).
  assert (∀ i c, valid (<[Z.to_nat j := x]> tb) i c ↔ i ≠ j ∧ valid tb i c) as Hv.
  { intros i c. destruct (decide (i = j)) as [->|Hne].
    - rewrite valid_insert_eq by lia. naive_solver.
    - rewrite valid_insert_ne by lia. naive_solver. }
  assert (∀ i, invalid tb i → invalid (<[Z.to_nat j := x]> tb) i) as Hinv.
  { intros i Hi c [_ ?]%Hv. by apply (Hi c). }
  assert (invalid (<[Z.to_nat j := x]> tb) j) as Hinvj by (intros c [? _]%Hv; done).
  assert (∀ a, unowned tb P a → unowned (<[Z.to_nat j := x]> tb) (list_to_set (K j) ∪ P ∖ {[j]}) a)
    as Hmono.
  { intros a. apply unowned_mono; [|auto]. intros i _ [Hi|Hi]; [|auto].
    destruct (decide (i = j)) as [->|]; [auto|set_solver]. }
  assert (∀ hd l, dll h hd l → CapChildren t j ∉ hd :: l → CapSibling t j ∉ hd :: l → dll h' hd l)
    as Hframe.
  { intros hd l [Hn Hs] H1 H2. split; [done|]. eapply lseg_ext; [exact Hs|..].
    all: intros y Hy; unfold nxt, prv; rewrite Hsame; [done|set_solver..]. }
  assert (∀ i c y, valid tb i c → y ∈ K i → y ≠ j) as HKj.
  { intros i c y Hi Hy ->. by destruct (kids_valid _ _ _ _ HF i c j Hi Hy). }
  split.
  - done.
  - by rewrite length_insert.
  - by rewrite Hdom.
  - intros i c [Hne Hi]%Hv. apply Hframe; [eauto|..].
    + apply not_elem_of_cons. split; [congruence|apply children_not_sibling].
    + apply not_elem_of_cons. split; [done|]. rewrite fmap_sibling_elem. intros ?. by eapply HKj.
  - intros i c y [Hne Hi]%Hv. rewrite (pf_child0 i c y Hi).
    rewrite not_elem_of_union, elem_of_list_to_set, not_elem_of_difference, elem_of_singleton.
    split.
    + intros [HyP (cy & Hy & Hpy)]. split.
      * split; [|auto]. intros (_ & cy' & Hy' & Hpy')%(kids_valid _ _ _ _ HF j cj y Hcj).
        rewrite (valid_inj _ _ _ _ Hy' Hy) in Hpy'. congruence.
      * exists cy. rewrite Hv. naive_solver.
    + intros [[_ HP'] (cy & [Hyj Hy]%Hv & Hpy)]. naive_solver.
  - intros y cy [Hne Hy]%Hv HP Hr. apply Hframe; [eapply pf_root0; [done|set_solver|done]|set_solver..].
  - intros y cy [Hne Hy]%Hv HP Hr. assert (y ∉ P) as HyP by set_solver.
    destruct (pf_parent0 y cy Hy HyP Hr) as (cp & Hp & Hd). exists cp. rewrite Hv. split; [|done].
    split; [|done]. intros Hpj. apply HP, elem_of_union_l, elem_of_list_to_set.
    apply (pf_child0 j cj y Hcj). eauto.
  - intros y [Hy%elem_of_list_to_set|[Hy Hyj]%elem_of_difference]%elem_of_union.
    + destruct (kids_valid _ _ _ _ HF j cj y Hcj Hy) as (HyP & cy & Hcy & Hpy).
      assert (y ≠ j) as Hne by exact (HKj j cj y Hcj Hy). split; [exists cy; by rewrite Hv|].
      destruct (dll_member _ _ _ (CapSibling t y) (pf_kids0 j cj Hcj)) as (a & b & Ha & Hb & Hia & Hib);
        [by apply fmap_sibling_elem|].
      exists a, b. unfold nxt, prv in *. rewrite Hsame by congruence.
      assert (∀ z, z ∈ CapChildren t j :: (CapSibling t <$> K j) →
                   unowned (<[Z.to_nat j := x]> tb) (list_to_set (K j) ∪ P ∖ {[j]}) z) as Hun.
      { intros z [->|Hz]%elem_of_cons; [exists j; by split; [|right]|].
        apply list_elem_of_fmap in Hz as (k & -> & Hk).
        destruct (kids_valid _ _ _ _ HF j cj k Hcj Hk) as (_ & ck & [Hkr _] & _).
        exists k. split; [done|]. left. split; [done|]. left. set_solver. }
      split_and!; auto.
    + apply not_elem_of_singleton in Hyj.
      destruct (pf_pend0 y Hy) as ((cy & Hcy) & a & b & Ha & Hb & Hua & Hub).
      split; [exists cy; by rewrite Hv|]. exists a, b. unfold nxt, prv in *.
      rewrite Hsame by congruence. split_and!; auto.
  - intros y cy [_ Hy]%Hv. eauto.
Qed.
End forest.

Arguments valid_inj {n}.
Arguments valid_dec {n}.
Arguments fmap_sibling_elem {t}.
Arguments children_not_sibling {t}.
Arguments pf_n {t n}.
Arguments pf_len {t n}.
Arguments pf_dom {t n}.
Arguments pf_kids {t n}.
Arguments pf_child {t n}.
Arguments pf_root {t n}.
Arguments pf_parent {t n}.
Arguments pf_pend {t n}.
Arguments pf_ok {t n}.
Arguments kids_valid {t n}.
Arguments kids_disjoint {t n}.
Arguments kids_nodup {t n}.
Arguments kids_irrefl {t n}.
Arguments parent_not_invalid {t n}.
