(* ===== verification/CapForestOps.v ===== *)
(** * Growing and reshaping the derivation forest

    The transformations of the forest of CapForest that leave nothing pending:
    orphaning, insertion, relabelling and handing children over. *)

From stdpp Require Import functions.
From S2P Require Import Prelude KList CapTypes CapForest.

Set Default Goal Selector "!".

Section forest_ops.
Context (t n : Z).
Implicit Types (tb : list cap_t) (h : nodes) (K : Z → list Z) (P : gset Z).
#[local] Notation valid := (valid n).
#[local] Notation invalid := (invalid n).
#[local] Notation unowned := (unowned t n).
#[local] Notation pforest := (pforest t n).
#[local] Notation foreign := (foreign t).

(** ** Orphaning: a detached pending capability becomes a root *)

Lemma orphan_pending tb h K P j c : pforest tb h K P → j ∈ P → valid tb j c →
  (∀ y, y ∈ P → dll h (CapSibling t y) []) →
  pforest (<[Z.to_nat j := set_parent CAP_SLOT_INVALID c]> tb) h K (P ∖ {[j]}).
Proof.
  intros HF Hj Hc Hself. pose proof HF as [pf_n0 pf_len0 pf_dom0 pf_kids0 pf_child0 pf_root0 pf_parent0 pf_pend0 pf_ok0]. pose proof Hc as (Hjr & Hjt & Hjs).
  set (tb' := <[Z.to_nat j := set_parent CAP_SLOT_INVALID c]> tb).
  assert (∀ i ci, valid tb' i ci ↔
    i = j ∧ ci = set_parent CAP_SLOT_INVALID c ∨ i ≠ j ∧ valid tb i ci) as Hv.
  { intros i ci. destruct (decide (i = j)) as [->|Hne]; unfold tb'.
    - rewrite valid_insert_eq by lia. naive_solver.
    - rewrite valid_insert_ne by lia. naive_solver. }
  assert (∀ i ci, valid tb' i ci → ∃ c', valid tb i c' ∧ derive_depth c' = derive_depth ci)
    as Hdep by (intros i ci [[-> ->]|[_ ?]]%Hv; eauto).
  split.
  - done.
  - unfold tb'. by rewrite length_insert.
  - done.
  - intros i ci Hi. destruct (Hdep i ci Hi) as (? & ? & _). eauto.
  - intros i ci y Hi. destruct (Hdep i ci Hi) as (c' & Hi' & _). rewrite (pf_child0 i c' y Hi').
    rewrite not_elem_of_difference, elem_of_singleton. split.
    + intros [HyP (cy & Hy & Hpy)]. split; [auto|]. exists cy. rewrite Hv.
      split; [|done]. right. split; [by intros ->|done].
    + intros [HyP (cy & [[-> ->]|[Hne Hy]]%Hv & Hpy)].
      * cbn in Hpy. subst i. by destruct (parent_not_invalid _ _ _ _ HF _ _ Hi').
      * naive_solver.
  - intros y cy [[-> ->]|[Hne Hy]]%Hv HyP Hr; [by apply Hself|].
    eapply pf_root0; [done|set_solver|done].
  - intros y cy [[-> ->]|[Hne Hy]]%Hv HyP Hr; [done|].
    destruct (pf_parent0 y cy Hy ltac:(set_solver) Hr) as (cp & Hp & Hd).
    destruct (decide (parent_slot cy = j)) as [Hpj|].
    + exists (set_parent CAP_SLOT_INVALID c). rewrite Hv. split; [by left|].
      rewrite Hpj in Hp. by rewrite (valid_inj _ _ _ _ Hp Hc) in Hd.
    + exists cp. rewrite Hv. naive_solver.
  - intros y [Hy Hne]%elem_of_difference. pose proof Hne as Hne'%not_elem_of_singleton.
    destruct (pf_pend0 y Hy) as ((cy & Hcy) & _).
    split; [exists cy; rewrite Hv; by right|].
    destruct (Hself y Hy) as [_ [Hs1 Hs2]]. do 2 eexists. split_and!; [done..| |];
      (exists y; split; [apply Hcy|left; split; [done|left; set_solver]]).
  - intros y cy [[-> ->]|[_ Hy]]%Hv; [|eauto]. apply (pf_ok0 j c Hc).
Qed.

(** ** Inserting a capability in a slot that is not VALID *)

Definition ins (slot p : Z) K : Z → list Z :=
  if p =? CAP_SLOT_INVALID then <[slot := []]> K else <[p := K p ++ [slot]]> (<[slot := []]> K).

Lemma insert_root tb h h2 K slot x :
  pforest tb h K ∅ → 0 <= slot < n → invalid tb slot → state x = CAP_STATE_VALID → cap_ok x →
  parent_slot x = CAP_SLOT_INVALID →
  same_except [CapChildren t slot; CapSibling t slot] h h2 →
  dll h2 (CapChildren t slot) [] → dll h2 (CapSibling t slot) [] →
  pforest (<[Z.to_nat slot := x]> tb) h2 (<[slot := []]> K) ∅.
Proof.
  intros HF Hsl Hinv Hst Hok Hpar [Hdom Hsame] Hch Hsib. pose proof HF as [pf_n0 pf_len0 pf_dom0 pf_kids0 pf_child0 pf_root0 pf_parent0 pf_pend0 pf_ok0].
  assert (∀ i ci, valid (<[Z.to_nat slot := x]> tb) i ci ↔
    i = slot ∧ ci = x ∨ i ≠ slot ∧ valid tb i ci) as Hv.
  { intros i ci. destruct (decide (i = slot)) as [->|Hne].
    - rewrite valid_insert_eq by lia. naive_solver.
    - rewrite valid_insert_ne by lia. naive_solver. }
  assert (∀ i ci y, valid tb i ci → y ∈ K i → y ≠ slot) as HK.
  { intros i ci y Hi Hy ->. destruct (kids_valid _ _ _ _ HF i ci slot Hi Hy) as (_ & c & Hc & _).
    by apply (Hinv c). }
  assert (∀ hd l, dll h hd l → CapChildren t slot ∉ hd :: l → CapSibling t slot ∉ hd :: l →
                  dll h2 hd l) as Hframe.
  { intros hd l [Hn Hs] H1 H2. split; [done|]. eapply lseg_ext; [exact Hs|..].
    all: intros y Hy; unfold nxt, prv; rewrite Hsame; [done|set_solver]. }
  split.
  - done.
  - by rewrite length_insert.
  - by rewrite Hdom.
  - intros i ci [[-> ->]|[Hne Hi]]%Hv; [by rewrite fn_lookup_insert|].
    rewrite fn_lookup_insert_ne by done. apply Hframe; [eauto|..]; apply not_elem_of_cons.
    + split; [congruence|apply children_not_sibling].
    + split; [done|]. rewrite fmap_sibling_elem. intros Hk. by eapply HK.
  - intros i ci y Hi. apply Hv in Hi as [[-> ->]|[Hne Hi]].
    + rewrite fn_lookup_insert. split; [set_solver|]. intros [_ (cy & [[-> ->]|[Hy1 Hy]]%Hv & Hpy)].
      * rewrite Hpar in Hpy. unfold CAP_SLOT_INVALID, CSPACE_MAX_CAPACITY in *. lia.
      * destruct (decide (parent_slot cy = CAP_SLOT_INVALID)) as [E|E].
        -- unfold CAP_SLOT_INVALID, CSPACE_MAX_CAPACITY in *. lia.
        -- destruct (pf_parent0 y cy Hy ltac:(set_solver) E) as (cp & Hp & _).
           rewrite Hpy in Hp. by destruct (Hinv cp).
    + rewrite fn_lookup_insert_ne by done. rewrite (pf_child0 i ci y Hi). split.
      * intros [_ (cy & Hy & Hpy)]. split; [set_solver|]. exists cy. rewrite Hv. split; [|done].
        right. split; [|done]. intros ->. by apply (Hinv cy).
      * intros [_ (cy & [[-> ->]|[_ Hy]]%Hv & Hpy)]; [|split; [set_solver|eauto]].
        rewrite Hpar in Hpy. destruct (parent_not_invalid _ _ _ _ HF _ _ Hi). done.
  - intros y cy [[-> ->]|[Hne Hy]]%Hv _ Hr; [done|].
    apply Hframe; [eapply pf_root0; [done|set_solver|done]|set_solver..].
  - intros y cy [[-> ->]|[Hne Hy]]%Hv _ Hr; [done|].
    destruct (pf_parent0 y cy Hy ltac:(set_solver) Hr) as (cp & Hp & Hd). exists cp. rewrite Hv.
    split; [right; split; [|done]|done]. intros E. rewrite E in Hp. by apply (Hinv cp).
  - set_solver.
  - intros y cy [[-> ->]|[_ Hy]]%Hv; [done|eauto].
Qed.

(** Attaching a root below a parent ([list_add_tail(&cap->sibling, &parent->children)]). *)
Lemma attach tb h K j c p cp : pforest tb h K ∅ → valid tb j c →
  parent_slot c = CAP_SLOT_INVALID → valid tb p cp → derive_depth cp < derive_depth c →
  ∃ h', list_add_tail (Some (CapSibling t j)) (Some (CapChildren t p)) h = Some h' ∧
    pforest (<[Z.to_nat j := set_parent p c]> tb) h' (<[p := K p ++ [j]]> K) ∅ ∧
    dom h' = dom h ∧ (∀ a, foreign a → h' !! a = h !! a).
Proof.
  intros HF Hj Hr Hp Hd. pose proof HF as [pf_n0 pf_len0 pf_dom0 pf_kids0 pf_child0 pf_root0 pf_parent0 pf_pend0 pf_ok0]. pose proof Hj as (Hjr & Hjt & Hjs).
  assert (∀ i ci, valid tb i ci → j ∉ K i) as HjK.
  { intros i ci Hi Hin. destruct (kids_valid _ _ _ _ HF i ci j Hi Hin) as (_ & c' & Hc' & Hpc').
    rewrite (valid_inj _ _ _ _ Hc' Hj), Hr in Hpc'. by destruct (parent_not_invalid _ _ _ _ HF _ _ Hi). }
  assert (CapSibling t j ∉ CapChildren t p :: (CapSibling t <$> K p)) as Hni.
  { apply not_elem_of_cons. split; [done|]. rewrite fmap_sibling_elem. by eapply HjK. }
  destruct (list_add_tail_spec h (CapChildren t p) (CapSibling t <$> K p) (CapSibling t j))
    as (h' & E & Hdll & Hdom & Hsame); [by eapply pf_kids0|by apply pf_dom0|done|].
  exists h'. split; [done|].
  assert (∀ i ci, valid (<[Z.to_nat j := set_parent p c]> tb) i ci ↔
    i = j ∧ ci = set_parent p c ∨ i ≠ j ∧ valid tb i ci) as Hv.
  { intros i ci. destruct (decide (i = j)) as [->|Hne].
    - rewrite valid_insert_eq by lia. naive_solver.
    - rewrite valid_insert_ne by lia. naive_solver. }
  assert (∀ i ci, valid (<[Z.to_nat j := set_parent p c]> tb) i ci →
    ∃ c', valid tb i c' ∧ derive_depth c' = derive_depth ci) as Hdep
    by (intros i ci [[-> ->]|[_ ?]]%Hv; eauto).
  assert (∀ hd l, dll h hd l → (∀ a, a ∈ hd :: l → a ≠ CapSibling t j ∧ a ≠ CapChildren t p ∧
                    a ∉ CapSibling t <$> K p) → dll h' hd l) as Hframe.
  { intros hd l [Hn Hs] Ha. split; [done|]. eapply lseg_ext; [exact Hs|..].
    all: intros y Hy; unfold nxt, prv; rewrite Hsame; [done|]; specialize (Ha y); set_solver. }
  split; [|split; [done|]].
  2: { intros a Ha. apply Hsame. destruct (Ha p), (Ha j). rewrite !not_elem_of_cons.
       split_and!; [done..|]. intros (k & -> & _)%list_elem_of_fmap. by destruct (Ha k). }
  assert (j ≠ p) as Hjp.
  { intros ->. rewrite (valid_inj _ _ _ _ Hp Hj) in Hd. lia. }
  split.
  - done.
  - by rewrite length_insert.
  - by rewrite Hdom.
  - intros i ci Hi. destruct (Hdep i ci Hi) as (c' & Hi' & _). destruct (decide (i = p)) as [->|Hne].
    + rewrite fn_lookup_insert, fmap_app. done.
    + rewrite fn_lookup_insert_ne by done. apply Hframe; [eauto|]. intros a [->|Ha]%elem_of_cons.
      * split; [done|]. split; [congruence|]. apply children_not_sibling.
      * apply list_elem_of_fmap in Ha as (k & -> & Hk). split.
        { intros [= ->]. by eapply HjK. }
        split; [done|]. rewrite fmap_sibling_elem. intros Hk'. apply Hne. by eapply kids_disjoint.
  - intros i ci y Hi. destruct (Hdep i ci Hi) as (c' & Hi' & _).
    assert (y ∈ <[p := K p ++ [j]]> K i ↔ y ∈ K i ∨ i = p ∧ y = j) as ->.
    { destruct (decide (i = p)) as [->|].
      - rewrite fn_lookup_insert. set_solver.
      - rewrite fn_lookup_insert_ne by done. naive_solver. }
    rewrite (pf_child0 i c' y Hi'). split.
    + intros [[_ (cy & Hy & Hpy)]|[-> ->]].
      * split; [set_solver|]. exists cy. rewrite Hv. split; [|done]. right. split; [|done].
        intros ->. rewrite (valid_inj _ _ _ _ Hy Hj), Hr in Hpy.
        by destruct (parent_not_invalid _ _ _ _ HF _ _ Hi').
      * split; [set_solver|]. exists (set_parent p c). rewrite Hv. naive_solver.
    + intros [_ (cy & [[-> ->]|[Hne Hy]]%Hv & Hpy)]; [cbn in Hpy; auto|].
      left. split; [set_solver|eauto].
  - intros y cy [[-> ->]|[Hne Hy]]%Hv _ Hry.
    + cbn in Hry. subst p. by destruct (parent_not_invalid _ _ _ _ HF _ _ Hp).
    + apply Hframe; [eapply pf_root0; [done|set_solver|done]|].
      intros a ->%list_elem_of_singleton. split; [congruence|]. split; [done|].
      rewrite fmap_sibling_elem. intros Hk.
      destruct (kids_valid _ _ _ _ HF p cp y Hp Hk) as (_ & cy' & Hy' & Hpy).
      rewrite (valid_inj _ _ _ _ Hy' Hy), Hry in Hpy.
      subst p. by destruct (parent_not_invalid _ _ _ _ HF _ _ Hp).
  - intros y cy Hy _ Hry. apply Hv in Hy as [[-> ->]|[Hne Hy]]; cbn [parent_slot derive_depth set_parent].
    + exists cp. rewrite Hv. naive_solver.
    + destruct (pf_parent0 y cy Hy ltac:(set_solver) Hry) as (cq & Hq & Hdq).
      destruct (decide (parent_slot cy = j)) as [Hpj|].
      * exists (set_parent p c). rewrite Hv. split; [by left|].
        rewrite Hpj in Hq. by rewrite (valid_inj _ _ _ _ Hq Hj) in Hdq.
      * exists cq. rewrite Hv. naive_solver.
  - set_solver.
  - intros y cy [[-> ->]|[_ Hy]]%Hv; [|eauto]. apply (pf_ok0 j c Hj).
Qed.

(** ** Insertion as the code performs it *)
Lemma insert_spec tb h K slot x :
  pforest tb h K ∅ → 0 <= slot < n → invalid tb slot → state x = CAP_STATE_VALID → cap_ok x →
  (parent_slot x ≠ CAP_SLOT_INVALID →
     ∃ cp, valid tb (parent_slot x) cp ∧ derive_depth cp < derive_depth x) →
  ∃ h1 h2 h3, INIT_LIST_HEAD (Some (CapChildren t slot)) h = Some h1 ∧
    INIT_LIST_HEAD (Some (CapSibling t slot)) h1 = Some h2 ∧
    (if negb (parent_slot x =? CAP_SLOT_INVALID)
     then list_add_tail (Some (CapSibling t slot)) (Some (CapChildren t (parent_slot x))) h2
     else Some h2) = Some h3 ∧
    pforest (<[Z.to_nat slot := x]> tb) h3 (ins slot (parent_slot x) K) ∅ ∧
    dom h3 = dom h ∧ (∀ a, foreign a → h3 !! a = h !! a).
Proof.
  intros HF Hsl Hinv Hst Hok Hpar.
  destruct (pf_dom _ _ _ _ HF slot Hsl) as [Hdc Hds].
  destruct (INIT_LIST_HEAD_spec _ _ Hdc) as (h1 & E1 & [D1 F1] & L1).
  destruct (INIT_LIST_HEAD_spec (CapSibling t slot) h1) as (h2 & E2 & [D2 F2] & L2); [by rewrite D1|].
  assert (same_except [CapChildren t slot; CapSibling t slot] h h2) as F.
  { split; [congruence|]. intros a Ha. rewrite F2, F1; set_solver. }
  assert (dll h2 (CapChildren t slot) []) as L1'.
  { apply dll_nil in L1. apply dll_nil. unfold link, nxt, prv in *. rewrite F2; [done|set_solver]. }
  assert (∀ a, foreign a → h2 !! a = h !! a) as Hfor.
  { intros a Ha. apply F. destruct (Ha slot). set_solver. }
  exists h1, h2. unfold ins. destruct (Z.eqb_spec (parent_slot x) CAP_SLOT_INVALID) as [Hr|Hr]; cbn [negb].
  - exists h2. split_and!; [done..| |apply F|done]. by eapply insert_root.
  - destruct (Hpar Hr) as (cp & Hp & Hd).
    pose proof (insert_root tb h h2 K slot (set_parent CAP_SLOT_INVALID x) HF Hsl Hinv Hst Hok eq_refl
                  F L1' L2) as HF2.
    assert (parent_slot x ≠ slot) as Hne by (intros E; rewrite E in Hp; by apply (Hinv cp)).
    pose proof (pf_len _ _ _ _ HF) as Hlen.
    destruct (attach _ _ _ slot (set_parent CAP_SLOT_INVALID x) (parent_slot x) cp HF2)
      as (h3 & E3 & HF3 & D3 & F3).
    { rewrite valid_insert_eq by lia. naive_solver. }
    { done. }
    { rewrite valid_insert_ne by lia. done. }
    { done. }
    exists h3. rewrite list_insert_insert_eq in HF3. rewrite fn_lookup_insert_ne in HF3 by done.
    split_and!; [done..| | |].
    + by destruct x.
    + destruct F. congruence.
    + intros a Ha. rewrite F3, Hfor; done.
Qed.

(** ** Changes that keep the shape: badge updates *)
Lemma pforest_relabel tb h K P j c c' : pforest tb h K P → valid tb j c →
  state c' = CAP_STATE_VALID → parent_slot c' = parent_slot c →
  derive_depth c' = derive_depth c → cap_ok c' →
  pforest (<[Z.to_nat j := c']> tb) h K P.
Proof.
  intros HF Hj Hs Hp Hd Hok. pose proof HF as [pf_n0 pf_len0 pf_dom0 pf_kids0 pf_child0 pf_root0 pf_parent0 pf_pend0 pf_ok0]. pose proof Hj as (Hjr & Hjt & Hjs).
  assert (∀ i ci, valid (<[Z.to_nat j := c']> tb) i ci ↔
    i = j ∧ ci = c' ∨ i ≠ j ∧ valid tb i ci) as Hv.
  { intros i ci. destruct (decide (i = j)) as [->|Hne].
    - rewrite valid_insert_eq by lia. naive_solver.
    - rewrite valid_insert_ne by lia. naive_solver. }
  assert (∀ i ci, valid (<[Z.to_nat j := c']> tb) i ci → ∃ c0, valid tb i c0 ∧
    parent_slot c0 = parent_slot ci ∧ derive_depth c0 = derive_depth ci) as Hto.
  { intros i ci [[-> ->]|[_ ?]]%Hv; eauto. }
  assert (∀ i ci, valid tb i ci → ∃ c0, valid (<[Z.to_nat j := c']> tb) i c0 ∧
    parent_slot c0 = parent_slot ci ∧ derive_depth c0 = derive_depth ci) as Hfrom.
  { intros i ci Hi. destruct (decide (i = j)) as [->|Hne].
    - rewrite (valid_inj _ _ _ _ Hi Hj). exists c'. rewrite Hv. naive_solver.
    - exists ci. rewrite Hv. naive_solver. }
  split; try done.
  - by rewrite length_insert.
  - intros i ci (c0 & ? & _)%Hto. eauto.
  - intros i ci y (c0 & Hi & _)%Hto. rewrite (pf_child0 i c0 y Hi).
    split; intros [? (cy & Hy & <-)]; (split; [done|]).
    + destruct (Hfrom _ _ Hy) as (? & ? & ? & _). eauto.
    + destruct (Hto _ _ Hy) as (? & ? & ? & _). eauto.
  - intros y cy (c0 & Hy & <- & _)%Hto. eauto.
  - intros y cy (c0 & Hy & <- & <-)%Hto HP Hr.
    destruct (pf_parent0 y c0 Hy HP Hr) as (cp & Hcp & Hdp).
    destruct (Hfrom _ _ Hcp) as (cp' & ? & _ & E). exists cp'. rewrite E. done.
  - intros y Hy. destruct (pf_pend0 y Hy) as ((cy & Hcy) & a & b & Ha & Hb & Hua & Hub).
    split; [destruct (Hfrom _ _ Hcy) as (? & ? & _); eauto|].
    assert (∀ i, invalid tb i → invalid (<[Z.to_nat j := c']> tb) i) as Hinv.
    { intros i Hi ci (c0 & ? & _)%Hto. by apply (Hi c0). }
    exists a, b. split_and!; [done..| |]; (eapply unowned_mono; [| |done]); naive_solver.
  - intros y cy [[-> ->]|[_ Hy]]%Hv; eauto.
Qed.

(** ** Handing the children of one capability to another without children *)

Definition reparented (ks : list Z) (dst : Z) tb tb' : Prop :=
  length tb' = length tb ∧
  ∀ i, 0 <= i → tb'.[i] = (if decide (i ∈ ks) then set_parent dst <$> tb.[i] else tb.[i]).

Lemma hand_over tb tb' h h' K src dst cs cd :
  pforest tb h K ∅ → valid tb src cs → valid tb dst cd → src ≠ dst →
  K dst = [] → dst ∉ K src → derive_depth cd <= derive_depth cs →
  dll h' (CapChildren t dst) (CapSibling t <$> K src) → dll h' (CapChildren t src) [] →
  same_except (CapChildren t src :: CapChildren t dst :: (CapSibling t <$> K src)) h h' →
  reparented (K src) dst tb tb' →
  pforest tb' h' (<[dst := K src]> (<[src := []]> K)) ∅.
Proof.
  intros HF Hs Hd Hne Hkd Hdk Hdep Hld Hls [Hdom Hsame] [Hlen Hre]. pose proof HF as [pf_n0 pf_len0 pf_dom0 pf_kids0 pf_child0 pf_root0 pf_parent0 pf_pend0 pf_ok0].
  assert (∀ i ci, valid tb' i ci ↔ ∃ c0, valid tb i c0 ∧
    ci = if decide (i ∈ K src) then set_parent dst c0 else c0) as Hv.
  { intros i ci. unfold valid. split.
    - intros (Hi & Ht & Hst). rewrite Hre in Ht by lia. destruct (decide (i ∈ K src)).
      + apply fmap_Some in Ht as (c0 & ? & ->). exists c0. split; [|done]. by split_and!; try lia.
      + exists ci. split; [|done]. by split_and!; try lia.
    - intros (c0 & (Hi & Ht & Hst) & ->). split; [done|]. rewrite Hre by lia. rewrite Ht.
      by destruct (decide (i ∈ K src)). }
  assert (∀ y cy, valid tb y cy → y ∈ K src → parent_slot cy = src) as Hks.
  { intros y cy Hy Hk. destruct (kids_valid _ _ _ _ HF src cs y Hs Hk) as (_ & c0 & Hc0 & <-).
    by rewrite (valid_inj _ _ _ _ Hy Hc0). }
  assert (∀ hd l, dll h hd l → (∀ a, a ∈ hd :: l → a ≠ CapChildren t src ∧ a ≠ CapChildren t dst ∧
                    a ∉ CapSibling t <$> K src) → dll h' hd l) as Hframe.
  { intros hd l [Hn Hs'] Ha. split; [done|]. eapply lseg_ext; [exact Hs'|..].
    all: intros y Hy; unfold nxt, prv; rewrite Hsame; [done|]; specialize (Ha y); set_solver. }
  split.
  - done.
  - lia.
  - by rewrite Hdom.
  - intros i ci (c0 & Hi & ->)%Hv. destruct (decide (i = dst)) as [->|Hid];
      [by rewrite fn_lookup_insert|rewrite fn_lookup_insert_ne by done].
    destruct (decide (i = src)) as [->|His];
      [by rewrite fn_lookup_insert|rewrite fn_lookup_insert_ne by done].
    apply Hframe; [eauto|]. intros a [->|Ha]%elem_of_cons.
    + split; [congruence|]. split; [congruence|]. apply children_not_sibling.
    + apply list_elem_of_fmap in Ha as (k & -> & Hk). split; [done|]. split; [done|].
      rewrite fmap_sibling_elem. intros Hk'. apply His. by eapply kids_disjoint.
  - intros i ci y (c0 & Hi & ->)%Hv.
    assert (y ∈ <[dst := K src]> (<[src := []]> K) i ↔
            i = dst ∧ y ∈ K src ∨ i ≠ dst ∧ i ≠ src ∧ y ∈ K i) as ->.
    { destruct (decide (i = dst)) as [->|]; [rewrite fn_lookup_insert; naive_solver|].
      rewrite fn_lookup_insert_ne by done. destruct (decide (i = src)) as [->|].
      - rewrite fn_lookup_insert. set_solver.
      - rewrite fn_lookup_insert_ne by done. naive_solver. }
    split.
    + intros [[-> Hy]|(Hid & His & Hy)]; (split; [set_solver|]).
      * destruct (kids_valid _ _ _ _ HF src cs y Hs Hy) as (_ & cy & Hcy & _).
        exists (set_parent dst cy). rewrite Hv. split; [|done]. exists cy. by rewrite decide_True.
      * destruct (kids_valid _ _ _ _ HF i c0 y Hi Hy) as (_ & cy & Hcy & Hpy).
        exists cy. rewrite Hv. split; [|done]. exists cy. rewrite decide_False; [done|].
        intros Hk. apply His. rewrite <- Hpy. exact (Hks y cy Hcy Hk).
    + intros [_ (cy & (cy0 & Hy & ->)%Hv & Hpy)]. destruct (decide (y ∈ K src)) as [Hk|Hk].
      * left. cbn in Hpy. done.
      * assert (y ∈ K i) as Hyi by (apply (pf_child0 i c0 y Hi); split; [set_solver|eauto]).
        right. split; [|split; [|done]]; intros ->; [|done]. rewrite Hkd in Hyi. set_solver.
  - intros y cy (c0 & Hy & ->)%Hv _ Hr. destruct (decide (y ∈ K src)) as [Hk|Hk].
    + cbn in Hr. subst dst. by destruct (parent_not_invalid _ _ _ _ HF _ _ Hd).
    + apply Hframe; [eapply pf_root0; [done|set_solver|done]|].
      intros a ->%list_elem_of_singleton. split; [done|]. split; [done|]. by rewrite fmap_sibling_elem.
  - intros y cy (c0 & Hy & ->)%Hv _ Hr.
    assert (∀ i ci, valid tb i ci → ∃ c', valid tb' i c' ∧ derive_depth c' = derive_depth ci) as Hup.
    { intros i ci Hi. exists (if decide (i ∈ K src) then set_parent dst ci else ci). rewrite Hv.
      split; [eauto|]. by destruct (decide (i ∈ K src)). }
    destruct (decide (y ∈ K src)) as [Hk|Hk].
    + cbn [parent_slot derive_depth set_parent]. destruct (Hup _ _ Hd) as (cd' & Hcd & E).
      exists cd'. split; [done|]. pose proof (Hks y c0 Hy Hk) as Hpy.
      destruct (pf_parent0 y c0 Hy ltac:(set_solver)) as (cp & Hcp & Hlt).
      { rewrite Hpy. by eapply parent_not_invalid. }
      rewrite Hpy in Hcp. rewrite (valid_inj _ _ _ _ Hcp Hs) in Hlt. lia.
    + destruct (pf_parent0 y c0 Hy ltac:(set_solver) Hr) as (cp & Hcp & Hlt).
      destruct (Hup _ _ Hcp) as (cp' & ? & E). exists cp'. rewrite E. done.
  - set_solver.
  - intros y cy (c0 & Hy & ->)%Hv. destruct (decide (y ∈ K src)); [|eauto]. apply (pf_ok0 y c0 Hy).
Qed.
End forest_ops.
