(* ===== verification/CapInv.v ===== *)
(** * The capability invariant and its preservation

    [cap_inv]: every live CSpace has its own cap table holding a derivation
    forest, and resolving a root never fails or yields a dead CSpace.  Every
    operation of capability.c works inside one table ([touches]), so the
    preservation proofs combine a forest transformation with one framing
    lemma. *)

From stdpp Require Import functions.
From S2P Require Import Prelude KList CapTypes CSpace Capability CapForest CapForestOps.

Set Default Goal Selector "!".

#[local] Arguments set_cap : simpl never.
#[local] Arguments get_cap : simpl never.
#[local] Arguments set_cs : simpl never.
#[local] Arguments get_cs : simpl never.

(** ** The invariant *)

Definition live (v : cspace_t) : Prop :=
  type (header v) = KOBJ_CSPACE ∧ id (header v) ≠ KOBJ_ID_INVALID.

(** The forest of CSpace [v], with [P] pending. *)
Definition forest_at (s : kstate) (v : cspace_t) (t : Z) (tb : list cap_t) (K : Z → list Z)
    (P : gset Z) : Prop :=
  cap_table v = Some t ∧ tables s !! t = Some tb ∧ pforest t (capacity v) tb (lists s) K P.

Record cap_inv (s : kstate) : Prop := CapInv {
  ci_forest : ∀ c v, get_cs s c = Some v → live v → ∃ t tb K, forest_at s v t tb K ∅;
  ci_distinct : ∀ c1 v1 c2 v2 t, get_cs s c1 = Some v1 → live v1 → get_cs s c2 = Some v2 →
    live v2 → cap_table v1 = Some t → cap_table v2 = Some t → c1 = c2;
  ci_slot : ∀ c v, get_cs s c = Some v → live v → 0 <= root_slot v;
  ci_root : ∀ root, ∃ oc, cspace_from_root s root = Some oc ∧
    ∀ c, oc = Some c → ∃ v, get_cs s c = Some v ∧ live v
}.

(** ** Framing *)

(** What no operation on capabilities changes in a CSpace. *)
Definition same_cspace (v v' : cspace_t) : Prop :=
  header v' = header v ∧ cap_table v' = cap_table v ∧ capacity v' = capacity v ∧
  root_slot v' = root_slot v.

(** Only CSpace [c] and table [t] change. *)
Record touches (c t : Z) (s s' : kstate) : Prop := Touches {
  to_hash : s_cspace_hash s' = s_cspace_hash s;
  to_nodes : s_hash_nodes s' = s_hash_nodes s;
  to_stack : s_cspace_free_stack s' = s_cspace_free_stack s;
  to_count : s_cspace_free_count s' = s_cspace_free_count s;
  to_counter : s_cspace_id_counter s' = s_cspace_id_counter s;
  to_cs : ∀ i, i ≠ c → get_cs s' i = get_cs s i;
  to_c : ∀ v, get_cs s c = Some v → ∃ v', get_cs s' c = Some v' ∧ same_cspace v v';
  to_none : get_cs s c = None → get_cs s' c = None;
  to_tables : ∀ t', t' ≠ t → tables s' !! t' = tables s !! t';
  to_dom : dom (lists s') = dom (lists s);
  to_lists : ∀ a, foreign t a → lists s' !! a = lists s !! a
}.

#[global] Instance touches_refl c t : Reflexive (touches c t).
Proof. intros s. split; try done. intros v Hv. exists v. by repeat split. Qed.

#[global] Instance touches_trans c t : Transitive (touches c t).
Proof.
  intros s1 s2 s3 [] []. split; try congruence.
  - intros i Hi. rewrite to_cs1, to_cs0; done.
  - intros v Hv. destruct (to_c0 v Hv) as (v' & Hv' & E1 & E2 & E3 & E4).
    destruct (to_c1 v' Hv') as (v'' & Hv'' & F1 & F2 & F3 & F4). exists v''.
    split; [done|]. repeat split; congruence.
  - auto.
  - intros t' Ht. rewrite to_tables1, to_tables0; done.
  - intros a Ha. rewrite to_lists1, to_lists0; done.
Qed.

Lemma hash_find_ext fuel s s' root n : s_hash_nodes s' = s_hash_nodes s →
  hash_find fuel s' root n = hash_find fuel s root n.
Proof.
  intros E. revert n. induction fuel as [|fuel IH]; intros n; [done|]. cbn. rewrite E.
  destruct n as [n|]; [|done]. destruct (s_hash_nodes s).[n]; [|done]. cbn.
  destruct (key _ =? root); [done|apply IH].
Qed.

Lemma linear_find_ext n s s' root i :
  (∀ j, (λ v, (header v, root_slot v)) <$> get_cs s' j = (λ v, (header v, root_slot v)) <$> get_cs s j) →
  linear_find n s' root i = linear_find n s root i.
Proof.
  intros E. revert i. induction n as [|n IH]; intros i; [done|]. cbn [linear_find].
  specialize (E i). destruct (get_cs s i) as [v|], (get_cs s' i) as [v'|]; try done.
  cbn in E. injection E as E1 E2. cbn [mbind option_bind]. rewrite E1, E2.
  case_if; [done|apply IH].
Qed.

(** A forest depends only on its own nodes. *)
Lemma forest_frame t n tb (h h' : nodes) K P : pforest t n tb h K P → dom h ⊆ dom h' →
  (∀ i, h' !! CapChildren t i = h !! CapChildren t i ∧ h' !! CapSibling t i = h !! CapSibling t i) →
  pforest t n tb h' K P.
Proof.
  intros HF Hdom Hsame.
  assert (∀ hd xs, dll h hd xs → (∀ a, a ∈ hd :: xs → h' !! a = h !! a) → dll h' hd xs) as Hdll.
  { intros hd xs [Hnd Hs] Ho. split; [done|]. eapply lseg_ext; [exact Hs|..].
    all: intros x Hx; unfold nxt, prv; rewrite Ho; [done|set_solver]. }
  destruct HF as [pf_n0 pf_len0 pf_dom0 pf_kids0 pf_child0 pf_root0 pf_parent0 pf_pend0 pf_ok0].
  split; try done.
  - intros i Hi. destruct (pf_dom0 i Hi). set_solver.
  - intros i ci Hi. apply Hdll; [eauto|]. intros a [->|Ha]%elem_of_cons; [apply Hsame|].
    apply list_elem_of_fmap in Ha as (k & -> & _). apply Hsame.
  - intros j cj Hj HP Hr. apply Hdll; [eauto|]. intros a ->%list_elem_of_singleton. apply Hsame.
  - intros j Hj. destruct (pf_pend0 j Hj) as (? & a & b & Ha & Hb & ? & ?). split; [done|].
    exists a, b. unfold nxt, prv in *. destruct (Hsame j) as [_ ->]. done.
Qed.

Section frame.
Context c t s s' (HT : touches c t s s').

Lemma touches_cs i v : get_cs s i = Some v → ∃ v', get_cs s' i = Some v' ∧ same_cspace v v'.
Proof using HT.
  intros Hv. destruct (decide (i = c)) as [->|Hne]; [by apply (to_c _ _ _ _ HT)|].
  exists v. rewrite (to_cs _ _ _ _ HT) by done. by repeat split.
Qed.

Lemma touches_cs_inv i v' : get_cs s' i = Some v' → ∃ v, get_cs s i = Some v ∧ same_cspace v v'.
Proof using HT.
  intros Hv. destruct (get_cs s i) as [v|] eqn:E.
  - destruct (touches_cs i v E) as (v1 & H1 & H2). exists v. split; [done|]. congruence.
  - destruct (decide (i = c)) as [->|Hne].
    + rewrite (to_none _ _ _ _ HT E) in Hv. done.
    + rewrite (to_cs _ _ _ _ HT) in Hv by done. congruence.
Qed.

Lemma touches_from_root root : cspace_from_root s' root = cspace_from_root s root.
Proof using HT.
  unfold cspace_from_root. rewrite (to_hash _ _ _ _ HT).
  destruct (s_cspace_hash s).[_] as [first|]; cbn [mbind option_bind]; [|done].
  rewrite (hash_find_ext _ s) by apply HT.
  destruct (hash_find _ _ _ _) as [[]|]; cbn [mbind option_bind]; [done| |done].
  apply linear_find_ext. intros j.
  destruct (get_cs s j) as [v|] eqn:E.
  - destruct (touches_cs j v E) as (v' & -> & H1 & _ & _ & H4). cbn. by rewrite H1, H4.
  - destruct (get_cs s' j) as [v'|] eqn:E'; [|done].
    destruct (touches_cs_inv j v' E') as (v & ? & _). congruence.
Qed.

(** The forest of another table survives. *)
Lemma touches_forest v t' tb K P : t' ≠ t → forest_at s v t' tb K P → forest_at s' v t' tb K P.
Proof using HT.
  intros Hne (H1 & H2 & HF). split; [done|]. split; [by rewrite (to_tables _ _ _ _ HT)|].
  apply (forest_frame t' _ tb (lists s)); [done|by rewrite (to_dom _ _ _ _ HT)|].
  intros i. split; apply (to_lists _ _ _ _ HT); intros k; split; congruence.
Qed.
End frame.

(** An operation that ends with the forest of its own table intact preserves
    the invariant. *)
Lemma cap_inv_touches c t s s' v tb' K' :
  cap_inv s → get_cs s c = Some v → live v → cap_table v = Some t → touches c t s s' →
  tables s' !! t = Some tb' → pforest t (capacity v) tb' (lists s') K' ∅ → cap_inv s'.
Proof.
  intros Hinv Hc Hl Ht HT Htb HF. split.
  - intros i w' Hi Hw. destruct (touches_cs_inv _ _ _ _ HT i w' Hi) as (w & Hw0 & E1 & E2 & E3 & E4).
    destruct (decide (i = c)) as [->|Hne].
    + assert (w = v) as -> by congruence. exists t, tb', K'. split; [congruence|].
      split; [done|]. by rewrite E3.
    + assert (live w) as Hlw by (unfold live in *; by rewrite <- E1).
      destruct (ci_forest _ Hinv i w Hw0 Hlw) as (t1 & tb1 & K1 & HF1).
      assert (t1 ≠ t) as Hnt.
      { intros ->. apply Hne. eapply (ci_distinct _ Hinv); [exact Hw0|done|exact Hc|done|apply HF1|done]. }
      destruct (touches_forest _ _ _ _ HT _ _ _ _ _ Hnt HF1) as (F1 & F2 & F3).
      exists t1, tb1, K1. split; [congruence|]. split; [done|]. by rewrite E3.
  - intros c1 v1 c2 v2 t0 H1 L1 H2 L2 T1 T2.
    destruct (touches_cs_inv _ _ _ _ HT _ _ H1) as (w1 & W1 & E1 & E2 & _).
    destruct (touches_cs_inv _ _ _ _ HT _ _ H2) as (w2 & W2 & F1 & F2 & _).
    unfold live in *. rewrite E1 in L1. rewrite F1 in L2.
    eapply (ci_distinct _ Hinv c1 w1 c2 w2 t0); unfold live; try done; congruence.
  - intros i w' Hi Hw. destruct (touches_cs_inv _ _ _ _ HT i w' Hi) as (w & Hw0 & E1 & _ & _ & E4).
    rewrite E4. apply (ci_slot _ Hinv i w Hw0). unfold live in *. by rewrite <- E1.
  - intros root. rewrite (touches_from_root _ _ _ _ HT).
    destruct (ci_root _ Hinv root) as (oc & E & Hoc). exists oc. split; [done|].
    intros c0 Hc0. destruct (Hoc c0 Hc0) as (w & Hw & Hlw).
    destruct (touches_cs _ _ _ _ HT c0 w Hw) as (w' & ? & E1 & _). exists w'. split; [done|].
    unfold live in *. by rewrite E1.
Qed.

(** ** Primitive steps *)

Lemma get_cap_at s t tb i : tables s !! t = Some tb → get_cap s t i = tb.[i].
Proof. intros E. unfold get_cap. by rewrite E. Qed.

Lemma set_cap_at c s t tb i x : tables s !! t = Some tb → 0 <= i < Z.of_nat (length tb) →
  ∃ s', set_cap t i x s = Some s' ∧ touches c t s s' ∧
        tables s' !! t = Some (<[Z.to_nat i := x]> tb) ∧ lists s' = lists s ∧
        s_cspace_pool s' = s_cspace_pool s.
Proof.
  intros E Hi. unfold set_cap. rewrite E. cbn [mbind option_bind]. rewrite zupdate_total by done.
  cbn [mbind option_bind]. eexists. split; [done|]. split_and!; cbn; try done.
  - split; cbn; try done.
    + intros v Hv. exists v. by repeat split.
    + intros t' Ht. by rewrite lookup_insert_ne.
  - by rewrite lookup_insert_eq.
Qed.

Lemma on_lists_Some f s h : f (lists s) = Some h → on_lists f s = Some (upd_lists h s).
Proof. intros E. unfold on_lists. by rewrite E. Qed.

(** A list operation confined to the nodes of table [t]. *)
Lemma on_lists_at c t s f h' : f (lists s) = Some h' → dom h' = dom (lists s) →
  (∀ a, foreign t a → h' !! a = lists s !! a) →
  ∃ s', on_lists f s = Some s' ∧ touches c t s s' ∧ tables s' = tables s ∧ lists s' = h' ∧
        s_cspace_pool s' = s_cspace_pool s.
Proof.
  intros E Hd Hf. unfold on_lists. rewrite E. cbn [mbind option_bind]. eexists. split; [done|].
  split_and!; try done. split; cbn; try done. intros v Hv. exists v. by repeat split.
Qed.

Lemma set_cs_at t s c v v' : get_cs s c = Some v → same_cspace v v' →
  ∃ s', set_cs c v' s = Some s' ∧ touches c t s s' ∧ tables s' = tables s ∧ lists s' = lists s ∧
        get_cs s' c = Some v'.
Proof.
  unfold get_cs, set_cs. intros E Hsame. pose proof (zlookup_Some_lt _ _ _ E).
  rewrite zupdate_total by done. cbn [mbind option_bind]. eexists. split; [done|].
  split_and!; try done.
  - split; cbn; try done.
    + intros i Hi. unfold get_cs. cbn. apply zlookup_insert_ne; [lia|done].
    + intros w Hw. exists v'. unfold get_cs in *. cbn. rewrite zlookup_insert_eq by done.
      split; [done|]. congruence.
    + intros Hn. unfold get_cs in *. congruence.
  - cbn. by apply zlookup_insert_eq.
Qed.

(** ** Lookup *)

Section lookup.
Context s c v t tb K P (Hc : get_cs s c = Some v) (HF : forest_at s v t tb K P).

Lemma forest_slot i : 0 <= i < capacity v → ∃ x, tb.[i] = Some x.
Proof using HF.
  intros Hi. destruct HF as (_ & _ & HF'). pose proof (pf_len _ _ _ _ HF').
  apply zlookup_is_Some. lia.
Qed.

Lemma cspace_lookup_spec slot : 0 <= slot →
  cspace_lookup s (Some c) slot
  = Some (match valid_dec (n := capacity v) tb slot with
          | inleft _ => Some (t, slot) | inright _ => None end).
Proof using Hc HF.
  intros Hs. unfold cspace_lookup. rewrite Hc. cbn [mbind option_bind]. rewrite Z.geb_leb.
  destruct HF as (Ht & Htb & HF'). destruct (valid_dec tb slot) as [[x (Hr & Hx & Hst)]|Hinv].
  - rewrite (proj2 (Z.leb_gt _ _)), Ht by lia. cbn [mbind option_bind].
    rewrite (get_cap_at s t tb) by done. rewrite Hx. cbn [mbind option_bind]. by rewrite Hst.
  - destruct (Z.leb_spec (capacity v) slot); [done|]. rewrite Ht. cbn [mbind option_bind].
    rewrite (get_cap_at s t tb) by done. destruct (forest_slot slot) as [x Hx]; [lia|].
    rewrite Hx. cbn [mbind option_bind].
    rewrite bool_decide_eq_false_2; [done|]. intros Hst. apply (Hinv x). split; [lia|done].
Qed.

Lemma lookup_valid_spec slot : 0 <= slot →
  lookup_valid s c slot
  = Some (match valid_dec (n := capacity v) tb slot with
          | inleft (exist _ x _) => Some (t, x) | inright _ => None end).
Proof using Hc HF.
  intros Hs. unfold lookup_valid. rewrite cspace_lookup_spec by done. cbn [mbind option_bind].
  destruct (valid_dec tb slot) as [[x (Hr & Hx & Hst)]|Hinv]; [|done].
  destruct HF as (Ht & Htb & HF'). rewrite (get_cap_at s t tb) by done. rewrite Hx.
  cbn [mbind option_bind]. by rewrite Hst.
Qed.
End lookup.

(** ** Insertion *)

(** The capability that [cap_insert_locked] writes. *)
Definition new_cap (ty kid r bdg parent root depth : Z) (inh : bool) : cap_t :=
  Cap CAP_STATE_VALID ty r bdg kid parent root depth inh.

(** The parent accepted by [cap_insert_locked] and the depth it gives. *)
Definition parent_accepts (n : Z) (tb : list cap_t) (parent depth : Z) : Prop :=
  parent = CAP_SLOT_INVALID ∧ depth = 0 ∨
  parent ≠ CAP_SLOT_INVALID ∧ ∃ cp, valid n tb parent cp ∧
    derive_depth cp < CAP_MAX_DERIVE_DEPTH ∧ depth = derive_depth cp + 1.

Section insert.
Context s c v t tb K (Hc : get_cs s c = Some v) (HF : forest_at s v t tb K ∅).

Lemma insert_depth_spec parent : 0 <= parent →
  (∃ depth, insert_depth v t parent s = Some (inr depth) ∧
            parent_accepts (capacity v) tb parent depth) ∨
  (insert_depth v t parent s = Some (inl (- EINVAL)) ∧
   ∀ depth, ¬ parent_accepts (capacity v) tb parent depth).
Proof using HF.
  intros Hp. unfold insert_depth, parent_accepts. destruct HF as (Ht & Htb & HF').
  pose proof (pf_n _ _ _ _ HF') as Hn. unfold CSPACE_MAX_CAPACITY in Hn.
  destruct (Z.eqb_spec parent CAP_SLOT_INVALID) as [->|Hne]; cbn [negb]; [left; eauto|].
  rewrite Z.geb_leb. destruct (Z.leb_spec (capacity v) parent) as [Hge|Hlt].
  { right. split; [done|]. intros d [[? _]|(_ & cp & [? _] & _)]; [done|lia]. }
  rewrite (get_cap_at s t tb) by done.
  destruct (forest_slot s v t tb K ∅ HF parent) as [x Hx]; [lia|]. rewrite Hx.
  cbn [mbind option_bind]. case_bool_decide as Hst; cbn [negb].
  - assert (valid (capacity v) tb parent x) as Hv by (split; [lia|done]).
    pose proof (pf_ok _ _ _ _ HF' _ _ Hv) as [_ Hd]. unfold CAP_MAX_DERIVE_DEPTH in *.
    rewrite Z.geb_leb. destruct (Z.leb_spec 8 (derive_depth x)).
    + right. split; [done|]. intros d [[? _]|(_ & cp & Hcp & ? & _)]; [done|].
      rewrite (valid_inj _ _ _ _ Hcp Hv) in *. lia.
    + left. rewrite u8_small by lia. eexists. split; [done|]. right. eauto.
  - right. split; [done|]. intros d [[? _]|(_ & cp & (_ & ? & ?) & _)]; [done|]. congruence.
Qed.

(** The outcome of an insertion: refused without effect, or one new VALID
    capability in a slot that was FREE. *)
Definition insert_allowed (slot ty r parent depth : Z) : Prop :=
  0 <= slot < capacity v ∧ (∃ old, tb.[slot] = Some old ∧ state old = CAP_STATE_FREE) ∧
  cap_validate_rights_for_type ty r = KERNEL_OK ∧ parent_accepts (capacity v) tb parent depth.

Lemma cap_insert_locked_spec slot ty kid r bdg parent : 0 <= slot → 0 <= parent →
  (cap_insert_locked c slot ty kid r bdg parent s = Some (s, - EINVAL) ∧
   ∀ depth, ¬ insert_allowed slot ty r parent depth) ∨
  ∃ s' depth inh, cap_insert_locked c slot ty kid r bdg parent s = Some (s', KERNEL_OK) ∧
    insert_allowed slot ty r parent depth ∧ touches c t s s' ∧
    tables s' !! t = Some (<[Z.to_nat slot := new_cap ty kid r bdg parent (root_slot v) depth inh]> tb) ∧
    pforest t (capacity v) (<[Z.to_nat slot := new_cap ty kid r bdg parent (root_slot v) depth inh]> tb)
            (lists s') (ins slot parent K) ∅.
Proof using Hc HF.
  intros Hsl Hpar. pose proof HF as (Ht & Htb & HF'). unfold cap_insert_locked, insert_allowed.
  rewrite Hc. cbn [mbind option_bind]. rewrite Z.geb_leb.
  destruct (Z.leb_spec (capacity v) slot) as [Hge|Hlt]; [left; split; [done|intros d [? _]; lia]|].
  rewrite Ht. cbn [mbind option_bind]. rewrite (get_cap_at s t tb) by done.
  destruct (forest_slot s v t tb K ∅ HF slot) as [old Hold]; [lia|]. rewrite Hold.
  cbn [mbind option_bind]. case_bool_decide as Hst; cbn [negb];
    [|left; split; [done|]; intros d (_ & (? & ? & ?) & _); congruence].
  destruct (Z.eqb_spec (cap_validate_rights_for_type ty r) KERNEL_OK) as [Hr|Hr]; cbn [negb];
    [|left; split; [done|]; intros d (_ & _ & ? & _); done].
  destruct (insert_depth_spec parent Hpar) as [(depth & -> & Hacc)|[-> Hno]]; cbn [mbind option_bind];
    [|left; split; [done|]; intros d (_ & _ & _ & ?); by eapply Hno].
  right. set (x := new_cap ty kid r bdg parent (root_slot v) depth (inheritable old)).
  pose proof (pf_len _ _ _ _ HF') as Hlen.
  assert (invalid (capacity v) tb slot) as Hinv by (intros y (_ & ? & ?); congruence).
  assert (0 <= depth <= CAP_MAX_DERIVE_DEPTH) as Hdepth.
  { destruct Hacc as [[_ ->]|(_ & cp & Hcp & ? & ->)]; unfold CAP_MAX_DERIVE_DEPTH in *; [lia|].
    pose proof (pf_ok _ _ _ _ HF' _ _ Hcp) as [_ ?]. lia. }
  destruct (set_cap_at c s t tb slot x) as (s1 & E1 & T1 & B1 & L1 & P1); [done|lia|].
  unfold x in E1. unfold new_cap in E1. rewrite E1. cbn [mbind option_bind].
  destruct (insert_spec t (capacity v) tb (lists s) K slot x) as (h1 & h2 & h3 & F1 & F2 & F3 & HF3 & D3 & G3);
    [done|lia|done|done|done|..].
  { intros Hp. destruct Hacc as [[? _]|(_ & cp & Hcp & ? & Hd)]; [done|].
    exists cp. split; [done|]. cbn. lia. }
  destruct (pf_dom _ _ _ _ HF' slot) as [Hdc Hds]; [lia|].
  destruct (INIT_LIST_HEAD_effect _ _ Hdc) as (h1' & F1' & [Dh1 Gh1] & _).
  assert (h1' = h1) as -> by congruence.
  destruct (INIT_LIST_HEAD_effect (CapSibling t slot) h1) as (h2' & F2' & [Dh2 Gh2] & _);
    [by rewrite Dh1|]. assert (h2' = h2) as -> by congruence.
  assert (∀ a, foreign t a → h1 !! a = lists s !! a) as G1 by (intros a Ha; apply Gh1; destruct (Ha slot); set_solver).
  assert (∀ a, foreign t a → h2 !! a = h1 !! a) as G2 by (intros a Ha; apply Gh2; destruct (Ha slot); set_solver).
  unfold init_children, init_sibling.
  destruct (on_lists_at c t s1 (INIT_LIST_HEAD (Some (CapChildren t slot))) h1)
    as (s2 & -> & T2 & B2 & L2 & P2); [by rewrite L1|by rewrite L1|by rewrite L1|].
  cbn [mbind option_bind].
  destruct (on_lists_at c t s2 (INIT_LIST_HEAD (Some (CapSibling t slot))) h2)
    as (s3 & -> & T3 & B3 & L3 & P3); [by rewrite L2|by rewrite L2|by rewrite L2|].
  cbn [mbind option_bind].
  assert (∃ s4, (if negb (parent =? CAP_SLOT_INVALID)
                 then on_lists (list_add_tail (Some (CapSibling t slot)) (Some (CapChildren t parent))) s3
                 else Some s3) = Some s4 ∧ touches c t s3 s4 ∧ tables s4 = tables s3 ∧ lists s4 = h3 ∧
                s_cspace_pool s4 = s_cspace_pool s3) as (s4 & -> & T4 & B4 & L4 & P4).
  { cbn [x new_cap parent_slot] in F3. destruct (parent =? CAP_SLOT_INVALID); cbn [negb] in *.
    - exists s3. split; [done|]. split; [reflexivity|]. split; [done|]. split; congruence.
    - apply on_lists_at; rewrite L3; [done|congruence|]. intros a Ha. rewrite G3, G2, G1; done. }
  cbn [mbind option_bind].
  destruct (set_cs_at t s4 c v (set_used (u32 (used_count v + 1)) v)) as (s5 & -> & T5 & B5 & L5 & _).
  { unfold get_cs in *. congruence. } { done. }
  cbn [mbind option_bind]. exists s5, depth, (inheritable old). split; [done|]. split_and!.
  - lia.
  - done.
  - eauto.
  - done.
  - done.
  - by etrans; [exact T1|etrans; [exact T2|etrans; [exact T3|etrans; [exact T4|exact T5]]]].
  - rewrite B5, B4, B3, B2. exact B1.
  - rewrite L5, L4. exact HF3.
Qed.
End insert.

(** ** Resolving arguments *)

(** A root resolves to a live CSpace with its forest, or to nothing. *)
Lemma from_root_forest s root : cap_inv s →
  cspace_from_root s root = Some None ∨
  ∃ c v t tb K, cspace_from_root s root = Some (Some c) ∧ get_cs s c = Some v ∧ live v ∧
                forest_at s v t tb K ∅.
Proof.
  intros Hinv. destruct (ci_root _ Hinv root) as ([c|] & E & Hoc); [right|by left].
  destruct (Hoc c eq_refl) as (v & Hv & Hl).
  destruct (ci_forest _ Hinv c v Hv Hl) as (t & tb & K & HF). by exists c, v, t, tb, K.
Qed.

(** The outcome of the common prefix: an error, or a VALID source capability
    with the GRANT right and a live destination. *)
Inductive dual_spec (s : kstate) (sr ss dr ds : Z) : Z + (Z * Z * Z * cap_t) → Prop :=
  | dual_err e : e ∈ [- EINVAL; - ENOENT; - EACCES] → dual_spec s sr ss dr ds (inl e)
  | dual_ok sc sv t tb K src dc dv dt dtb dK :
      ds ≠ CAP_SLOT_INVALID →
      cspace_from_root s sr = Some (Some sc) → get_cs s sc = Some sv → live sv →
      forest_at s sv t tb K ∅ →
      cspace_from_root s dr = Some (Some dc) → get_cs s dc = Some dv → live dv →
      forest_at s dv dt dtb dK ∅ →
      valid (capacity sv) tb ss src → Z.land (rights src) CAP_RIGHT_GRANT ≠ CAP_RIGHT_NONE →
      dual_spec s sr ss dr ds (inr (sc, dc, t, src)).

Lemma resolve_dual_spec s sr ss dr ds : cap_inv s → 0 <= ss →
  ∃ r, resolve_dual s sr ss dr ds = Some r ∧ dual_spec s sr ss dr ds r.
Proof.
  intros Hinv Hss. unfold resolve_dual.
  assert (∀ e, e ∈ [- EINVAL; - ENOENT; - EACCES] →
    ∃ r, Some (inl e) = Some r ∧ dual_spec s sr ss dr ds r) as Herr
    by (intros e He; eexists; split; [done|by apply dual_err]).
  case_if; [apply Herr; set_solver|]. case_if; [apply Herr; set_solver|].
  apply orb_false_iff in Heqb0 as [_ Hds%Z.eqb_neq].
  destruct (from_root_forest s sr Hinv) as [->|(sc & sv & t & tb & K & E1 & Hsc & Hsl & HF)];
    cbn [mbind option_bind]; [apply Herr; set_solver|]. rewrite E1. cbn [mbind option_bind].
  destruct (from_root_forest s dr Hinv) as [->|(dc & dv & dt & dtb & dK & E2 & Hdc & Hdl & HD)];
    cbn [mbind option_bind]; [apply Herr; set_solver|]. rewrite E2. cbn [mbind option_bind].
  rewrite (lookup_valid_spec s sc sv t tb K ∅) by done. cbn [mbind option_bind].
  destruct (valid_dec tb ss) as [[src Hsrc]|]; [|apply Herr; set_solver].
  case_if; [apply Herr; set_solver|]. apply Z.eqb_neq in Heqb0.
  eexists. split; [done|]. by apply (dual_ok s sr ss dr ds sc sv t tb K src dc dv dt dtb dK).
Qed.

(** ** What an operation may do to the capabilities

    [cap_at s c i x]: CSpace [c] is live and holds the VALID capability [x] in
    slot [i]. *)
Definition cap_at (s : kstate) (c i : Z) (x : cap_t) : Prop :=
  ∃ v t tb, get_cs s c = Some v ∧ live v ∧ cap_table v = Some t ∧ tables s !! t = Some tb ∧
            valid (capacity v) tb i x.

(** The capabilities after an operation that touched one table. *)
Lemma cap_at_touches c t s s' v tb tb' i0 i x :
  cap_inv s → get_cs s c = Some v → live v → cap_table v = Some t → touches c t s s' →
  tables s !! t = Some tb → tables s' !! t = Some tb' →
  cap_at s' i0 i x ↔ (i0 = c ∧ valid (capacity v) tb' i x) ∨ (i0 ≠ c ∧ cap_at s i0 i x).
Proof.
  intros Hinv Hc Hl Ht HT Htb Htb'. split.
  - intros (w' & t1 & tb1 & Hw & Hlw & Ht1 & Htb1 & Hv).
    destruct (touches_cs_inv _ _ _ _ HT i0 w' Hw) as (w & Hw0 & E1 & E2 & E3 & E4).
    rewrite E2 in Ht1. rewrite E3 in Hv. assert (live w) as Hlw0 by (unfold live in *; by rewrite <- E1).
    destruct (decide (i0 = c)) as [->|Hne]; [left|right]; (split; [done|]).
    + assert (w = v) as -> by congruence. assert (t1 = t) as -> by congruence. congruence.
    + exists w, t1, tb1. split_and!; try done; try apply Hlw0.
      rewrite <- (to_tables _ _ _ _ HT t1); [done|]. intros ->. apply Hne.
      by eapply (ci_distinct _ Hinv i0 w c v t).
  - intros [[-> Hv]|[Hne (w & t1 & tb1 & Hw & Hlw & Ht1 & Htb1 & Hv)]].
    + destruct (touches_cs _ _ _ _ HT c v Hc) as (v' & Hv' & E1 & E2 & E3 & E4).
      exists v', t, tb'. rewrite E2, E3. split_and!; try done; unfold live in *; rewrite E1; apply Hl.
    + exists w, t1, tb1. rewrite (to_cs _ _ _ _ HT) by done.
      split_and!; try done; try apply Hlw. rewrite (to_tables _ _ _ _ HT t1); [done|]. intros ->.
      apply Hne. by eapply (ci_distinct _ Hinv i0 w c v t).
Qed.

Lemma cap_at_inj s c i x y : cap_at s c i x → cap_at s c i y → x = y.
Proof.
  intros (v & t & tb & ? & ? & ? & ? & Hy1) (v' & t' & tb' & ? & ? & ? & ? & Hy2).
  assert (v' = v) as -> by congruence. assert (t' = t) as -> by congruence.
  assert (tb' = tb) as -> by congruence. by eapply valid_inj.
Qed.

(** An insertion that succeeded: the new capability and nothing else. *)
Lemma insert_effect s c v t tb K slot ty kid r bdg parent :
  cap_inv s → get_cs s c = Some v → live v → forest_at s v t tb K ∅ → 0 <= slot → 0 <= parent →
  (cap_insert_locked c slot ty kid r bdg parent s = Some (s, - EINVAL)) ∨
  ∃ s' x, cap_insert_locked c slot ty kid r bdg parent s = Some (s', KERNEL_OK) ∧ cap_inv s' ∧
    kobj_type x = ty ∧ kobj_id x = kid ∧ rights x = r ∧ badge x = bdg ∧ parent_slot x = parent ∧
    parent_accepts (capacity v) tb parent (derive_depth x) ∧
    cap_validate_rights_for_type ty r = KERNEL_OK ∧ (∀ y, ¬ cap_at s c slot y) ∧
    touches c t s s' ∧
    ∀ i0 i y, cap_at s' i0 i y ↔ (i0 = c ∧ i = slot ∧ y = x) ∨ cap_at s i0 i y.
Proof.
  intros Hinv Hc Hl HF Hsl Hpar.
  destruct (cap_insert_locked_spec s c v t tb K Hc HF slot ty kid r bdg parent Hsl Hpar)
    as [[E _]|(s' & depth & inh & E & Hall & HT & Htb' & HF')]; [by left|right].
  set (x := new_cap ty kid r bdg parent (root_slot v) depth inh) in *.
  destruct Hall as (Hr & (old & Hold & Hst) & Hok & Hacc). pose proof HF as (Ht & Htb & HF0).
  pose proof (pf_len _ _ _ _ HF0) as Hlen.
  assert (∀ y, ¬ cap_at s c slot y) as Hno.
  { intros y (v1 & t1 & tb1 & ? & _ & ? & ? & _ & Hy & ?).
    assert (v1 = v) as -> by congruence. assert (t1 = t) as -> by congruence. congruence. }
  exists s', x. split; [done|]. split; [by eapply cap_inv_touches|].
  split_and!; try done. intros i0 i y.
  rewrite (cap_at_touches c t s s' v tb _ i0 i y Hinv Hc Hl Ht HT Htb Htb'). split.
  - intros [[-> Hv]|[Hne Hat]]; [|by right].
    destruct (decide (i = slot)) as [->|Hi].
    + left. apply valid_insert_eq in Hv; [naive_solver|lia].
    + right. apply valid_insert_ne in Hv; [|lia|done]. by exists v, t, tb.
  - intros [(-> & -> & ->)|Hat].
    + left. split; [done|]. apply valid_insert_eq; [lia|done].
    + destruct (decide (i0 = c)) as [->|Hne]; [left|by right]. split; [done|].
      assert (i ≠ slot) as Hi by (intros ->; by apply (Hno y)).
      apply valid_insert_ne; [lia|done|].
      destruct Hat as (v1 & t1 & tb1 & ? & _ & ? & ? & Hy).
      assert (v1 = v) as -> by congruence. assert (t1 = t) as -> by congruence. congruence.
Qed.
