(* ===== verification/CapOps.v ===== *)
(** * Deletion, revocation and move on the derivation forest

    The specifications of the operations of capability.c that take capabilities
    apart: what they do to the forest of their CSpace, that they terminate, and
    which capabilities exist afterwards. *)

From stdpp Require Import functions.
From S2P Require Import Prelude KList CapTypes CSpace Capability CapForest CapForestOps CapInv.

Set Default Goal Selector "!".

#[local] Arguments set_cap : simpl never.
#[local] Arguments get_cap : simpl never.
#[local] Arguments set_cs : simpl never.
#[local] Arguments get_cs : simpl never.

(** ** Wiping a slot *)

Definition wiped : cap_t := set_parent CAP_SLOT_INVALID cap_zero.

(** The nodes of other slots and tables are as before. *)
Definition only_slot (t i : Z) (h h' : nodes) : Prop :=
  ∀ a, a ≠ CapChildren t i → a ≠ CapSibling t i → h' !! a = h !! a.

Section wipe.
Context (c t i : Z).

Lemma init_nodes_at s a : a = CapChildren t i ∨ a = CapSibling t i → a ∈ dom (lists s) →
  ∃ s', on_lists (INIT_LIST_HEAD (Some a)) s = Some s' ∧ touches c t s s' ∧
        tables s' = tables s ∧ s_cspace_pool s' = s_cspace_pool s ∧
        only_slot t i (lists s) (lists s').
Proof.
  intros Ha Hd. destruct (INIT_LIST_HEAD_effect a (lists s) Hd) as (h' & E & [D F] & _).
  assert (∀ b, b ≠ CapChildren t i → b ≠ CapSibling t i → h' !! b = lists s !! b) as Hb.
  { intros b ? ?. apply F. set_solver. }
  destruct (on_lists_at c t s (INIT_LIST_HEAD (Some a)) h') as (s' & -> & T & B & L & Pl);
    [done|done| |].
  { intros b Hf. destruct (Hf i). by apply Hb. }
  exists s'. split_and!; try done. unfold only_slot. by rewrite L.
Qed.

Lemma wipe_cap_at s tb : tables s !! t = Some tb → 0 <= i < Z.of_nat (length tb) →
  CapChildren t i ∈ dom (lists s) → CapSibling t i ∈ dom (lists s) →
  ∃ s', wipe_cap t i s = Some s' ∧ touches c t s s' ∧
        tables s' !! t = Some (<[Z.to_nat i := wiped]> tb) ∧
        s_cspace_pool s' = s_cspace_pool s ∧ only_slot t i (lists s) (lists s').
Proof.
  intros Htb Hi Hc Hs. unfold wipe_cap, zero_cap.
  destruct (set_cap_at c s t tb i cap_zero) as (s1 & -> & T1 & B1 & L1 & P1); [done..|].
  cbn [mbind option_bind].
  set (s2 := upd_lists _ s1).
  assert (touches c t s1 s2) as T2.
  { split; cbn; try done.
    - intros v Hv. exists v. by repeat split.
    - rewrite !dom_insert_L, L1. set_solver.
    - intros a Ha. destruct (Ha i). by rewrite !lookup_insert_ne by done. }
  destruct (set_cap_at c s2 t (<[Z.to_nat i:=cap_zero]> tb) i wiped) as (s3 & E3 & T3 & B3 & L3 & P3).
  { done. } { by rewrite length_insert. }
  unfold wiped in E3. rewrite E3. cbn [mbind option_bind]. rewrite list_insert_insert_eq in B3.
  assert (dom (lists s3) = dom (lists s)) as D3.
  { rewrite L3, (to_dom _ _ _ _ T2), L1. done. }
  unfold init_children, init_sibling.
  destruct (init_nodes_at s3 (CapChildren t i)) as (s4 & -> & T4 & B4 & P4 & O4);
    [by left|by rewrite D3|]. cbn [mbind option_bind].
  destruct (init_nodes_at s4 (CapSibling t i)) as (s5 & -> & T5 & B5 & P5 & O5);
    [by right|by rewrite (to_dom _ _ _ _ T4), D3|].
  exists s5. split; [done|]. split_and!.
  - etrans; [exact T1|]. etrans; [exact T2|]. etrans; [exact T3|]. by etrans.
  - rewrite B5, B4. exact B3.
  - rewrite P5, P4, P3. exact P1.
  - intros a H1 H2. rewrite O5, O4, L3 by done. cbn. rewrite !lookup_insert_ne by congruence.
    by rewrite L1.
Qed.
End wipe.

(** ** Children lists are short *)

Lemma kids_length t n tb h K P i x : pforest t n tb h K P → valid n tb i x →
  (length (K i) < list_fuel)%nat.
Proof.
  intros HF Hi. pose proof (kids_nodup _ _ _ _ HF i x Hi) as Hnd.
  pose proof (pf_n _ _ _ _ HF) as Hn.
  assert (length (K i) ≤ length (seqZ 0 n))%nat as Hl.
  { apply submseteq_length, NoDup_submseteq; [done|]. intros j Hj.
    destruct (kids_valid _ _ _ _ HF i x j Hi Hj) as (_ & y & [? _] & _). apply elem_of_seqZ. lia. }
  rewrite length_seqZ in Hl. unfold list_fuel, CONFIG_MAX_CSPACES, CSPACE_MAX_CAPACITY in *. lia.
Qed.

(** The pointers a traversal of a children list reads. *)
Lemma kids_next h t i k rest :
  dll h (CapChildren t i) (CapSibling t <$> k :: rest) →
  CapSibling t k ≠ CapChildren t i ∧
  nxt h (CapSibling t k) = Some (default (CapChildren t i) (head (CapSibling t <$> rest))).
Proof.
  intros [_ [_ Hs]]. split; [done|]. apply (lseg_first _ _ _ _ Hs).
Qed.

(** ** Deletion *)

Section delete.
Context s c v t tb K (Hc : get_cs s c = Some v) (HF : forest_at s v t tb K ∅).

(** The state while the children are being orphaned. *)
Definition orphaning (i : Z) (rest : list Z) (s' : kstate) : Prop :=
  ∃ done tb' K', K i = done ++ rest ∧ touches c t s s' ∧ tables s' !! t = Some tb' ∧
    reparented done CAP_SLOT_INVALID tb tb' ∧
    pforest t (capacity v) tb' (lists s') K' {[i]} ∧ K' i = rest ∧
    dll (lists s') (CapSibling t i) [].

Lemma valid_reparented ks dst tb' i x : reparented ks dst tb tb' → 
  valid (capacity v) tb' i x ↔
  ∃ y, valid (capacity v) tb i y ∧ x = if decide (i ∈ ks) then set_parent dst y else y.
Proof.
  intros [_ Hre]. unfold valid. split.
  - intros (Hi & Hx & Hst). rewrite Hre in Hx by lia. case_decide.
    + apply fmap_Some in Hx as (y & Hy & ->). exists y. split; [|done]. split; [done|]. by split.
    + exists x. split; [|done]. split; [done|]. by split.
  - intros (y & (Hi & Hy & Hst) & ->). split; [done|]. rewrite Hre by lia. rewrite Hy.
    by case_decide.
Qed.

Lemma orphan_step i k rest s' : orphaning i (k :: rest) s' →
  ∃ s'', orphan_body (CapSibling t k) s' = Some (false, s'') ∧ orphaning i rest s''.
Proof.
  intros (dn & tb' & K' & HK & HT & Htb' & Hre & HF' & HKi & Hself).
  assert (∃ xi, valid (capacity v) tb' i xi) as (xi & Hxi)
    by (by apply (pf_pend _ _ _ _ HF'); set_solver).
  destruct (kids_valid _ _ _ _ HF' i xi k Hxi) as (HkP & xk & Hxk & Hpk);
    [rewrite HKi; left|].
  pose proof (pf_len _ _ _ _ HF') as Hlen. pose proof Hxk as (Hkr & Hkt & _).
  assert (parent_slot xk ≠ CAP_SLOT_INVALID) as Hpn
    by (rewrite Hpk; by eapply parent_not_invalid).
  destruct (detach_child t _ _ _ _ _ k xk HF' Hxk HkP Hpn)
    as (h1 & E1 & HF1 & Hk1 & D1 & G1 & Hsame).
  unfold orphan_body. cbn [cap_from_sibling mbind option_bind fst snd].
  rewrite (get_cap_at s' t tb') by done. rewrite Hkt. cbn [mbind option_bind].
  destruct (set_cap_at c s' t tb' k (set_parent CAP_SLOT_INVALID xk))
    as (s1 & -> & T1 & B1 & L1 & P1); [done|lia|]. cbn [mbind option_bind].
  destruct (on_lists_at c t s1 (list_del_init (Some (CapSibling t k))) h1)
    as (s2 & -> & T2 & B2 & L2 & P2); [by rewrite L1|by rewrite L1|by rewrite L1|].
  cbn [mbind option_bind]. exists s2. split; [done|].
  assert (({[k]} ∪ {[i]}) ∖ {[k]} = ({[i]} : gset Z)) as HP by set_solver.
  assert (dll h1 (CapSibling t i) []) as Hi1.
  { apply dll_nil in Hself. apply dll_nil. unfold link, nxt, prv in *.
    rewrite Hsame by set_solver. done. }
  exists (dn ++ [k]), (<[Z.to_nat k := set_parent CAP_SLOT_INVALID xk]> tb'), (cut k i K').
  split_and!.
  - by rewrite <- app_assoc.
  - etrans; [exact HT|]. by etrans.
  - rewrite B2. exact B1.
  - pose proof Hre as [Hl Hr]. split; [by rewrite length_insert|]. intros j Hj.
    destruct (decide (j = k)) as [->|Hne].
    + rewrite zlookup_insert_eq by lia. rewrite decide_True by set_solver.
      rewrite Hr in Hkt by lia. rewrite decide_False in Hkt.
      { by rewrite Hkt. }
      intros Hdn. pose proof (kids_nodup _ _ _ _ (proj2 (proj2 HF)) i) as Hnd.
      apply (valid_reparented dn CAP_SLOT_INVALID tb' i xi Hre) in Hxi as (y & Hy & _).
      specialize (Hnd y Hy). rewrite HK in Hnd. apply NoDup_app in Hnd as (_ & Hd & _).
      apply (Hd k Hdn). left.
    + rewrite zlookup_insert_ne by lia. rewrite Hr by done.
      destruct (decide (j ∈ dn)), (decide (j ∈ dn ++ [k])); set_solver.
  - rewrite L2. rewrite <- HP. eapply orphan_pending; [by rewrite Hpk in HF1|set_solver|done|].
    intros y [->%elem_of_singleton| ->%elem_of_singleton]%elem_of_union; done.
  - unfold cut. rewrite fn_lookup_insert, HKi. rewrite filter_cons_False by naive_solver.
    apply filter_id. intros y Hy ->. pose proof (kids_nodup _ _ _ _ HF' i xi Hxi) as Hnd.
    rewrite HKi in Hnd. apply NoDup_cons in Hnd as [? _]. done.
  - by rewrite L2.
Qed.

Lemma orphan_loop i x s1 : orphaning i (K i) s1 → valid (capacity v) tb i x →
  ∃ s2, list_for_each_safe lists list_fuel (Some (CapChildren t i)) orphan_body s1 = Some s2 ∧
        orphaning i [] s2.
Proof.
  intros Ho Hx.
  assert (∀ rest y, orphaning i rest y → dll (lists y) (CapChildren t i) (CapSibling t <$> rest)) as Hd.
  { intros rest y (dn & tb' & K' & _ & _ & _ & _ & HF' & <- & _).
    destruct (pf_pend _ _ _ _ HF' i) as ((xi & Hxi) & _); [set_solver|].
    apply (pf_kids _ _ _ _ HF' i xi Hxi). }
  apply (list_for_each_safe_spec lists (CapChildren t i) orphan_body
    (λ l y, ∃ rest, l = CapSibling t <$> rest ∧ orphaning i rest y) (orphaning i []) (CapSibling t <$> K i)).
  - intros l rest y ([|k rest'] & [= -> ->] & Hy). apply kids_next, Hd, Hy.
  - intros y ([|] & [=] & Hy). apply Hd in Hy. erewrite get_next_nxt by apply (dll_first _ _ _ Hy). done.
  - intros l rest y ([|k rest'] & [= -> ->] & Hy).
    destruct (orphan_step _ _ _ _ Hy) as (y' & -> & Hy'). exists false, y'. split; [done|]. eauto.
  - intros y ([|] & [=] & Hy). done.
  - eauto.
  - apply (dll_first _ _ _ (Hd _ _ Ho)).
  - rewrite length_fmap. eapply kids_length; [apply HF|done].
Qed.

(** The table after [cap_delete]: the slot is wiped and its children are roots. *)
Definition deleted (i : Z) (tb' : list cap_t) : Prop :=
  ∃ tb1, reparented (K i) CAP_SLOT_INVALID tb tb1 ∧ tb' = <[Z.to_nat i := wiped]> tb1.

(** The source leaves the list of its parent. *)
Lemma detach_orphaning i x : valid (capacity v) tb i x →
  ∃ s1, (if negb (parent_slot x =? CAP_SLOT_INVALID)
         then on_lists (list_del_init (Some (CapSibling t i))) s else Some s) = Some s1 ∧ orphaning i (K i) s1.
Proof.
  intros Hx. pose proof HF as (Ht & Htb & HF').
  destruct (Z.eqb_spec (parent_slot x) CAP_SLOT_INVALID) as [Hr|Hr]; cbn [negb].
  - destruct (detach_root t _ _ _ _ _ i x HF' Hx ltac:(set_solver) Hr) as (_ & H2 & H3).
    rewrite union_empty_r_L in H2. exists s. split; [done|]. exists [], tb, K.
    by split_and!.
  - destruct (detach_child t _ _ _ _ _ i x HF' Hx ltac:(set_solver) Hr)
      as (h1 & E1 & H2 & H3 & D1 & G1 & _). rewrite union_empty_r_L in H2.
    destruct (on_lists_at c t s (list_del_init (Some (CapSibling t i))) h1)
      as (s1 & -> & T1 & B1 & L1 & _); [done..|].
    exists s1. split; [done|]. exists [], tb, (cut i (parent_slot x) K).
    assert (cut i (parent_slot x) K i = K i) as Hcut.
    { unfold cut. rewrite fn_lookup_insert_ne; [done|]. intros Hp.
      destruct (pf_parent _ _ _ _ HF' i x Hx ltac:(set_solver) Hr) as (cp & Hcp & Hd).
      rewrite Hp in Hcp. rewrite (valid_inj _ _ _ _ Hcp Hx) in Hd. lia. }
    split_and!; try done; [by rewrite B1|by rewrite L1..].
Qed.

(** A slot without children left is wiped. *)
Lemma wipe_orphaned i x s2 : valid (capacity v) tb i x → orphaning i [] s2 →
  ∃ s', wipe_cap t i s2 = Some s' ∧ touches c t s s' ∧ ∃ tb' K', tables s' !! t = Some tb' ∧ deleted i tb' ∧
    pforest t (capacity v) tb' (lists s') K' ∅.
Proof.
  intros Hx Ho2. destruct Ho2 as (dn & tb2 & K2 & HK & T2 & B2 & Hre & HF2 & HKi & _).
  rewrite app_nil_r in HK. subst dn. pose proof (pf_len _ _ _ _ HF2) as Hlen.
  destruct (pf_dom _ _ _ _ HF2 i) as [Hdc Hds]; [apply Hx|].
  destruct (wipe_cap_at c t i s2 tb2) as (s3 & -> & T3 & B3 & P3 & O3);
    [done|destruct Hx; lia|done..|].
  exists s3. split; [done|]. split; [by etrans|].
  exists (<[Z.to_nat i := wiped]> tb2), K2. split_and!; [done|by exists tb2|].
  pose proof (free_pending t _ tb2 (lists s2) (lists s3) K2 {[i]} i wiped HF2) as Hfree.
  rewrite HKi in Hfree.
  replace (list_to_set [] ∪ {[i]} ∖ {[i]}) with (∅ : gset Z) in Hfree by set_solver.
  apply Hfree; [set_solver|done|apply T3|exact O3].
Qed.

Lemma delete_spec i x : valid (capacity v) tb i x →
  ∃ s', (s1 ← (if negb (parent_slot x =? CAP_SLOT_INVALID)
               then on_lists (list_del_init (Some (CapSibling t i))) s else Some s);
         s2 ← list_for_each_safe lists list_fuel (Some (CapChildren t i)) orphan_body s1;
         wipe_cap t i s2) = Some s' ∧
    touches c t s s' ∧ ∃ tb' K', tables s' !! t = Some tb' ∧ deleted i tb' ∧
      pforest t (capacity v) tb' (lists s') K' ∅.
Proof.
  intros Hx. destruct (detach_orphaning i x Hx) as (s1 & -> & Ho). cbn [mbind option_bind].
  destruct (orphan_loop i x s1 Ho Hx) as (s2 & -> & Ho2). cbn [mbind option_bind]. by eapply wipe_orphaned.
Qed.
End delete.

(** ** Revocation *)

(** Pushing the children: all of them when they fit on the stack. *)
Lemma push_spec t i ks s stk ovf :
  dll (lists s) (CapChildren t i) (CapSibling t <$> ks) → (length ks < list_fuel)%nat →
  ∃ pushed ovf', list_for_each_safe (λ r, lists (rv_state r)) list_fuel (Some (CapChildren t i))
      (push_body t) (Revoke s stk ovf) = Some (Revoke s (reverse pushed ++ stk) ovf') ∧
    pushed `prefix_of` ks ∧
    (Z.of_nat (length stk + length ks) <= REVOKE_STACK_SIZE → ovf' = ovf) ∧
    (ovf' = false → pushed = ks ∧ ovf = false).
Proof.
  intros Hd Hf.
  destruct (list_for_each_safe_spec (λ r, lists (rv_state r)) (CapChildren t i) (push_body t)
    (λ l r, ∃ dn rest, ks = dn ++ rest ∧ l = CapSibling t <$> rest ∧
                       r = Revoke s (reverse dn ++ stk) ovf)
    (λ r, ∃ pushed ovf', r = Revoke s (reverse pushed ++ stk) ovf' ∧ pushed `prefix_of` ks ∧
       (Z.of_nat (length stk + length ks) <= REVOKE_STACK_SIZE → ovf' = ovf) ∧
       (ovf' = false → pushed = ks ∧ ovf = false))
    (CapSibling t <$> ks) (Revoke s stk ovf) list_fuel) as (r & E & pushed & ovf' & -> & Hp).
  - intros l rest r (dn & [|k rest'] & -> & [= -> ->] & ->). cbn [rv_state].
    rewrite fmap_app, fmap_cons in Hd. destruct Hd as [Hnd [_ Hs]%lseg_app].
    split; [done|]. apply (lseg_first _ _ _ _ Hs).
  - intros r (dn & [|] & -> & [=] & ->). cbn [rv_state].
    erewrite get_next_nxt by apply (dll_first _ _ _ Hd). done.
  - intros l rest r (dn & [|k rest'] & -> & [= -> ->] & ->). unfold push_body.
    cbn [cap_from_sibling mbind option_bind rv_stack rv_state rv_overflow].
    destruct (Z.ltb_spec (Z.of_nat (length (reverse dn ++ stk))) REVOKE_STACK_SIZE) as [Hlt|Hge].
    + unfold slot_of. cbn [fst snd]. rewrite Z.eqb_refl. cbn [mbind option_bind].
      eexists false, _. split; [done|]. exists (dn ++ [k]), rest'. rewrite <- app_assoc.
      split_and!; [done|done|]. by rewrite reverse_app.
    + eexists true, _. split; [done|]. exists dn, true. split; [done|].
      split; [by exists (k :: rest')|]. split; [|done].
      rewrite length_app in Hge. rewrite length_reverse in Hge. rewrite length_app. cbn. lia.
  - intros r (dn & [|] & -> & [=] & ->). exists dn, ovf. rewrite app_nil_r. naive_solver.
  - exists [], ks. naive_solver.
  - cbn [rv_state]. apply (dll_first _ _ _ Hd).
  - by rewrite length_fmap.
  - exists pushed, ovf'. by rewrite E.
Qed.

Lemma push_free_at c t i s v : get_cs s c = Some v → CapSibling t i ∈ dom (lists s) →
  ∃ s', push_free c t i s = Some s' ∧ touches c t s s' ∧ tables s' = tables s ∧
        only_slot t i (lists s) (lists s').
Proof.
  intros Hv Hd. unfold push_free, set_sibling_next. rewrite Hv. cbn [mbind option_bind].
  set (p := if negb (free_head v =? CAP_SLOT_INVALID) then _ else None).
  destruct (set_next_spec (CapSibling t i) p (lists s) Hd) as (h1 & E1 & D1 & F1 & _).
  destruct (on_lists_at c t s (set_next (Some (CapSibling t i)) p) h1)
    as (s1 & -> & T1 & B1 & L1 & P1); [done|done| |].
  { intros a Ha. destruct (Ha i). by apply F1. }
  cbn [mbind option_bind].
  destruct (set_cs_at t s1 c v (set_used (if used_count v >? 0 then used_count v - 1
    else used_count v) (set_free_head i v))) as (s2 & -> & T2 & B2 & L2 & _).
  { unfold get_cs in *. congruence. } { done. }
  exists s2. split_and!; [done|by etrans|congruence|]. intros a Ha1 Ha2. rewrite L2, L1. by apply F1.
Qed.

Section revoke.
Context (c t n : Z).

(** CSpace [c] with table [t] and capacity [n]: its forest with [P] pending. *)
Definition rforest (s : kstate) (tb : list cap_t) (K : Z → list Z) (P : gset Z) : Prop :=
  ∃ v, get_cs s c = Some v ∧ capacity v = n ∧ forest_at s v t tb K P.

(** One iteration: the slot is freed, its children are pending and on the stack. *)
Lemma revoke_one_spec s tb K P cur x stk ovf : rforest s tb K P → valid n tb cur x →
  ∃ s' K' pushed ovf', revoke_one c cur (Revoke s stk ovf)
      = Some (Revoke s' (reverse pushed ++ stk) ovf') ∧
    touches c t s s' ∧ rforest s' (<[Z.to_nat cur := wiped]> tb) K' (list_to_set (K cur) ∪ P ∖ {[cur]}) ∧
    pushed `prefix_of` K cur ∧
    (Z.of_nat (length stk + length (K cur)) <= REVOKE_STACK_SIZE → ovf' = ovf) ∧
    (ovf' = false → pushed = K cur ∧ ovf = false).
Proof.
  intros (v & Hv & Hn & HF) Hx. rewrite <- Hn in Hx. pose proof HF as (Ht & Htb & HF').
  unfold revoke_one. cbn [rv_state].
  rewrite (lookup_valid_spec s c v t tb K P) by (done || destruct Hx; lia).
  cbn [mbind option_bind]. destruct (valid_dec tb cur) as [[y Hy]|Hno]; [|by destruct (Hno x)].
  destruct (push_spec t cur (K cur) s stk ovf) as (pushed & ovf' & -> & Hpre & Hov & Hall).
  { apply (pf_kids _ _ _ _ HF' cur x Hx). } { by eapply kids_length. }
  cbn [mbind option_bind rv_state rv_stack rv_overflow].
  destruct (detach t _ _ _ _ _ cur x HF' Hx) as (h1 & K' & E1 & HF1 & HK' & Hself & D1 & G1).
  destruct (on_lists_at c t s (list_del_init (Some (CapSibling t cur))) h1)
    as (s1 & -> & T1 & B1 & L1 & P1); [done..|]. cbn [mbind option_bind].
  destruct (pf_dom _ _ _ _ HF' cur) as [Hdc Hds]; [apply Hx|].
  unfold init_children.
  destruct (init_nodes_at c t cur s1 (CapChildren t cur)) as (s2 & -> & T2 & B2 & P2 & O2);
    [by left|by rewrite (to_dom _ _ _ _ T1)|]. cbn [mbind option_bind].
  pose proof (pf_len _ _ _ _ HF') as Hlen.
  assert (dom (lists s2) = dom (lists s)) as D2 by (rewrite (to_dom _ _ _ _ T2); apply T1).
  destruct (wipe_cap_at c t cur s2 tb) as (s3 & -> & T3 & B3 & P3 & O3);
    [by rewrite B2, B1|destruct Hx; lia|by rewrite D2..|]. cbn [mbind option_bind].
  assert (get_cs s3 c = Some v) as Hv3 by (unfold get_cs in *; congruence).
  destruct (push_free_at c t cur s3 v Hv3) as (s4 & -> & T4 & B4 & O4);
    [by rewrite (to_dom _ _ _ _ T3), D2|]. cbn [mbind option_bind].
  assert (touches c t s s4) as T.
  { etrans; [exact T1|]. etrans; [exact T2|]. by etrans. }
  exists s4, K', pushed, ovf'. split; [done|]. split; [done|]. split; [|done].
  destruct (to_c _ _ _ _ T v Hv) as (v' & Hv' & E1' & E2' & E3' & E4').
  exists v'. split; [done|]. split; [congruence|]. split; [congruence|]. rewrite B4.
  split; [done|]. rewrite E3'.
  replace (P ∖ {[cur]}) with ((({[cur]} : gset Z) ∪ P) ∖ {[cur]}) by set_solver.
  rewrite <- HK'. apply (free_pending t (capacity v) tb h1); [done|set_solver|done| |].
  - rewrite (to_dom _ _ _ _ T), <- D1. done.
  - intros a H1 H2. rewrite O4, O3, O2, L1; done.
Qed.

(** The set of VALID slots, the measure of the loop. *)
Definition vset (tb : list cap_t) : gset Z :=
  list_to_set (filter (λ i, bool_decide (state <$> tb.[i] = Some CAP_STATE_VALID) = true) (seqZ 0 n)).

Lemma elem_of_vset tb i : i ∈ vset tb ↔ ∃ x, valid n tb i x.
Proof.
  unfold vset, valid. rewrite elem_of_list_to_set, list_elem_of_filter, elem_of_seqZ, bool_decide_eq_true.
  split.
  - intros [(x & Hs & Hx)%fmap_Some ?]. exists x. split; [lia|done].
  - intros (x & ? & -> & Hs). cbn. split; [by f_equal|lia].
Qed.

Lemma vset_size tb : 0 <= n → Z.of_nat (size (vset tb)) <= n.
Proof.
  intros Hn. unfold vset. rewrite size_list_to_set.
  - pose proof (length_filter (λ i, bool_decide (state <$> tb.[i] = Some CAP_STATE_VALID) = true) (seqZ 0 n)).
    rewrite length_seqZ in *. lia.
  - apply NoDup_filter, NoDup_seqZ.
Qed.

Lemma valid_wiped tb i x cur : 0 <= cur < Z.of_nat (length tb) →
  valid n (<[Z.to_nat cur := wiped]> tb) i x ↔ i ≠ cur ∧ valid n tb i x.
Proof.
  intros Hcur. destruct (decide (i = cur)) as [->|Hne].
  - rewrite valid_insert_eq by done. naive_solver.
  - rewrite valid_insert_ne by lia. naive_solver.
Qed.

(** Invariant of the loop: the stack lists pending slots once each, all of them
    unless it overflowed.  [D] is a set of slots closed under children in the
    table [tb0] the revocation started from. *)
Record rloop (tb0 : list cap_t) (D : Z → Prop) (r : revoke_run) (tb : list cap_t)
    (K : Z → list Z) (P : gset Z) : Prop := RLoop {
  rl_forest : rforest (rv_state r) tb K P;
  rl_nodup : NoDup (rv_stack r);
  rl_stack : ∀ i, i ∈ rv_stack r → i ∈ P ∧ D i;
  rl_all : rv_overflow r = false → ∀ i, i ∈ P → i ∈ rv_stack r;
  rl_sub : ∀ i x, valid n tb i x → valid n tb0 i x;
  rl_out : ∀ i x, valid n tb0 i x → ¬ D i → valid n tb i x
}.

Lemma stack_bound s tb K P cur x stk : rforest s tb K P → valid n tb cur x → cur ∉ stk →
  NoDup stk → (∀ i, i ∈ stk → i ∈ P) →
  Z.of_nat (length stk + length (K cur)) < n.
Proof.
  intros (v & Hv & Hn & Ht & Htb & HF) Hx Hni Hnd HP. rewrite Hn in HF.
  assert (NoDup (cur :: stk ++ K cur)) as Hnd'.
  { apply NoDup_cons. split.
    - rewrite elem_of_app. intros [?|?]; [done|]. by eapply kids_irrefl.
    - apply NoDup_app. split_and!; [done| |by eapply kids_nodup].
      intros i Hi Hk. destruct (kids_valid _ _ _ _ HF cur x i Hx Hk) as [? _]. naive_solver. }
  apply (NoDup_submseteq _ (seqZ 0 n)) in Hnd'.
  - apply submseteq_length in Hnd'. rewrite length_seqZ in Hnd'. cbn in Hnd'. rewrite length_app in Hnd'.
    pose proof (pf_n _ _ _ _ HF). lia.
  - intros i Hi. apply elem_of_seqZ. assert (∃ y, valid n tb i y) as (y & [? _]); [|lia].
    apply elem_of_cons in Hi as [->|[Hi|Hi]%elem_of_app]; [eauto| |].
    + by apply (pf_pend _ _ _ _ HF), HP.
    + destruct (kids_valid _ _ _ _ HF cur x i Hx Hi) as (_ & y & ? & _). eauto.
Qed.

Context (D : Z → Prop) (tb0 : list cap_t).
Context (HD : ∀ i x, valid n tb0 i x → D (parent_slot x) → D i).

Lemma rloop_step r tb K P cur stk : rloop tb0 D r tb K P → rv_stack r = cur :: stk →
  ∃ r' tb' K' P', revoke_one c cur (Revoke (rv_state r) stk (rv_overflow r)) = Some r' ∧
    touches c t (rv_state r) (rv_state r') ∧ rloop tb0 D r' tb' K' P' ∧
    (size (vset tb') < size (vset tb))%nat ∧ (n <= REVOKE_STACK_SIZE → rv_overflow r' = rv_overflow r).
Proof using HD.
  intros [HF Hnd Hstk Hall Hsub Hout] E. rewrite E in *. apply NoDup_cons in Hnd as [Hni Hnd].
  destruct (Hstk cur) as [HP HDc]; [left|].
  pose proof HF as (v & Hv & Hn & _ & _ & HF'). rewrite Hn in HF'.
  destruct (pf_pend _ _ _ _ HF' cur HP) as ((x & Hx) & _).
  pose proof (pf_len _ _ _ _ HF') as Hlen. pose proof Hx as [Hcr _].
  assert (∀ i, i ∈ stk → i ∈ P) as HstkP by (intros i Hi; by apply Hstk; right).
  pose proof (stack_bound _ _ _ _ _ _ stk HF Hx Hni Hnd HstkP) as Hb.
  destruct (revoke_one_spec _ _ _ _ _ _ stk (rv_overflow r) HF Hx)
    as (s' & K' & pushed & ovf' & -> & HT & HF2 & Hpre & Hov & Hpa).
  assert (∀ i, i ∈ pushed → i ∈ K cur) as Hsubp.
  { intros i Hi. destruct Hpre as [l ->]. set_solver. }
  eexists _, _, _, _. split; [done|]. split; [done|]. split_and!.
  - split; cbn [rv_state rv_stack rv_overflow].
    + exact HF2.
    + apply NoDup_app. rewrite reverse_Permutation. split_and!; [|..|done].
      * pose proof (kids_nodup _ _ _ _ HF' cur x Hx) as Hk. destruct Hpre as [l Hl].
        rewrite Hl in Hk. by apply NoDup_app in Hk as [? _].
      * intros i Hi%elem_of_reverse%Hsubp Hs%HstkP.
        by destruct (kids_valid _ _ _ _ HF' cur x i Hx Hi).
    + intros i [Hi%elem_of_reverse%Hsubp|Hi]%elem_of_app.
      * split; [set_solver|]. destruct (kids_valid _ _ _ _ HF' cur x i Hx Hi) as (_ & y & Hy & Hp).
        apply (HD i y); [auto|]. by rewrite Hp.
      * split; [|apply Hstk; by right].
        apply elem_of_union_r, elem_of_difference. split; [auto|].
        apply not_elem_of_singleton. by intros ->.
    + intros Ho i Hi. destruct (Hpa Ho) as [-> Ho'].
      apply elem_of_app. rewrite elem_of_reverse.
      apply elem_of_union in Hi as [Hi%elem_of_list_to_set|[Hi Hne]%elem_of_difference]; [by left|right].
      apply (Hall Ho') in Hi. apply elem_of_cons in Hi as [->|?]; [|done]. set_solver.
    + intros i y [_ ?]%valid_wiped; [auto|lia].
    + intros i y Hy Hn'. apply valid_wiped; [lia|]. split; [by intros ->|auto].
  - apply subset_size. split.
    + intros i. rewrite !elem_of_vset. intros (y & [_ Hy]%valid_wiped); [eauto|lia].
    + intros Hs. assert (cur ∈ vset tb) as Hc by (apply elem_of_vset; eauto).
      apply Hs, elem_of_vset in Hc as (y & [? _]%valid_wiped); [done|lia].
  - intros Hle. cbn. apply Hov. lia.
Qed.

(** The loop terminates within its fuel and empties the stack. *)
Lemma rloop_spec fuel r tb K P : rloop tb0 D r tb K P → (size (vset tb) ≤ fuel)%nat →
  ∃ r' tb' K' P', revoke_loop fuel c r = Some r' ∧ touches c t (rv_state r) (rv_state r') ∧
    rloop tb0 D r' tb' K' P' ∧ rv_stack r' = [] ∧
    (n <= REVOKE_STACK_SIZE → rv_overflow r' = rv_overflow r).
Proof using HD.
  revert r tb K P. induction fuel as [|fuel IH]; intros r tb K P HR Hsz.
  - destruct (rv_stack r) as [|cur stk] eqn:E.
    + exists r, tb, K, P. cbn [revoke_loop]. rewrite E. by split_and!.
    + destruct (rl_stack _ _ _ _ _ _ HR cur) as [HP _]; [rewrite E; left|].
      destruct HR as [(v & _ & Hn & _ & _ & HF) _ _ _ _ _]. rewrite Hn in HF.
      destruct (pf_pend _ _ _ _ HF cur HP) as (Hx%elem_of_vset & _).
      assert (size (vset tb) = 0%nat) as Hz%size_empty_inv by lia. clear -Hz Hx. set_solver.
  - destruct (rv_stack r) as [|cur stk] eqn:E.
    + exists r, tb, K, P. cbn [revoke_loop]. rewrite E. by split_and!.
    + destruct (rloop_step _ _ _ _ _ _ HR E) as (r1 & tb1 & K1 & P1 & E1 & T1 & HR1 & Hlt & Ho1).
      destruct (IH r1 tb1 K1 P1 HR1 ltac:(lia)) as (r2 & tb2 & K2 & P2 & E2 & T2 & HR2 & Hs2 & Ho2).
      exists r2, tb2, K2, P2. cbn [revoke_loop]. rewrite E, E1. cbn [mbind option_bind].
      split; [done|]. split; [by etrans|]. split; [done|]. split; [done|].
      intros. rewrite Ho2, Ho1; done.
Qed.
End revoke.

(** The descendants of a slot: itself, its children, theirs, ... *)
Inductive desc (n : Z) (tb : list cap_t) (root : Z) : Z → Prop :=
  | desc_self : desc n tb root root
  | desc_child i x : valid n tb i x → desc n tb root (parent_slot x) → desc n tb root i.

(** The whole traversal from [slot].  Without overflow exactly the descendants
    are freed and the forest is intact; the overflow flag can only be raised
    in tables larger than the stack. *)
Lemma revoke_spec s c v t tb K slot x :
  get_cs s c = Some v → forest_at s v t tb K ∅ → valid (capacity v) tb slot x →
  ∃ r, revoke_loop (revoke_fuel v) c (Revoke s [slot] false) = Some r ∧
    touches c t s (rv_state r) ∧
    (capacity v <= REVOKE_STACK_SIZE → rv_overflow r = false) ∧
    ∃ tb' K' P', tables (rv_state r) !! t = Some tb' ∧
      pforest t (capacity v) tb' (lists (rv_state r)) K' P' ∧
      (∀ i y, valid (capacity v) tb' i y → valid (capacity v) tb i y) ∧
      (∀ i y, valid (capacity v) tb i y → ¬ desc (capacity v) tb slot i → valid (capacity v) tb' i y) ∧
      (rv_overflow r = false → P' = ∅ ∧ ∀ i, desc (capacity v) tb slot i → invalid (capacity v) tb' i).
Proof.
  intros Hc HF Hx. pose proof HF as (Ht & Htb & HF'). set (n := capacity v) in *.
  assert (rforest c t n s tb K ∅) as HR by (by exists v).
  destruct (revoke_one_spec c t n s tb K ∅ slot x [] false HR Hx)
    as (s1 & K1 & pushed & ovf1 & E1 & T1 & HF1 & Hpre & Hov1 & Hall1).
  set (tb1 := <[Z.to_nat slot := wiped]> tb) in *.
  pose proof (pf_len _ _ _ _ HF') as Hlen. pose proof (pf_n _ _ _ _ HF') as Hn.
  assert (∀ i y, valid n tb1 i y ↔ i ≠ slot ∧ valid n tb i y) as Hv1.
  { intros i y. apply valid_wiped. destruct Hx; lia. }
  assert (∀ i, i ∈ pushed → i ∈ K slot) as Hsubp by (intros i Hi; destruct Hpre as [l ->]; set_solver).
  assert (∀ i, i ∈ K slot → desc n tb slot i) as Hkd.
  { intros i Hi. destruct (kids_valid _ _ _ _ HF' slot x i Hx Hi) as (_ & y & Hy & Hp).
    apply (desc_child _ _ _ i y Hy). rewrite Hp. apply desc_self. }
  replace (list_to_set (K slot) ∪ ∅ ∖ {[slot]}) with (list_to_set (K slot) : gset Z) in HF1 by set_solver.
  assert (rloop c t n tb1 (desc n tb slot) (Revoke s1 (reverse pushed ++ []) ovf1) tb1 K1
            (list_to_set (K slot))) as HL.
  { rewrite app_nil_r. split; cbn [rv_state rv_stack rv_overflow]; try done.
    - rewrite reverse_Permutation. pose proof (kids_nodup _ _ _ _ HF' slot x Hx) as Hk.
      destruct Hpre as [l Hl]. rewrite Hl in Hk. by apply NoDup_app in Hk as [? _].
    - intros i Hi%elem_of_reverse%Hsubp. split; [set_solver|auto].
    - intros Ho i Hi. destruct (Hall1 Ho) as [-> _]. rewrite elem_of_reverse. set_solver. }
  destruct (rloop_spec c t n (desc n tb slot) tb1) with (fuel := Z.to_nat (REVOKE_STACK_SIZE * n))
    (r := Revoke s1 (reverse pushed ++ []) ovf1) (tb := tb1) (K := K1)
    (P := (list_to_set (K slot) : gset Z)) as (r & tb2 & K2 & P2 & E2 & T2 & HR2 & Hs2 & Ho2).
  { intros i y [_ Hy]%Hv1 Hd. by eapply desc_child. }
  { exact HL. }
  { pose proof (vset_size n tb1 ltac:(lia)). unfold REVOKE_STACK_SIZE, CONFIG_MAX_CSPACES. lia. }
  exists r. split.
  { unfold revoke_fuel. cbn [revoke_loop rv_stack rv_state rv_overflow]. rewrite E1.
    cbn [mbind option_bind]. exact E2. }
  cbn [rv_state] in T2. split; [by etrans|]. split.
  { intros Hle. rewrite Ho2 by done. cbn [rv_overflow]. apply Hov1. cbn [length].
    pose proof (stack_bound c t n s tb K ∅ slot x [] HR Hx ltac:(set_solver) ltac:(constructor)
                  ltac:(set_solver)) as Hb. cbn [length] in Hb. lia. }
  destruct HR2 as [(v2 & Hv2 & Hn2 & Ht2 & Htb2 & HF2) Hnd Hst Hall Hsub Hout]. rewrite Hn2 in HF2.
  exists tb2, K2, P2. split; [done|]. split; [done|]. split_and!.
  - intros i y Hy%Hsub. by apply Hv1.
  - intros i y Hy Hd. apply Hout; [|done]. apply Hv1. split; [|done]. intros ->. apply Hd, desc_self.
  - intros Ho. assert (P2 = ∅) as HP2.
    { apply set_eq. intros i. split; [|set_solver]. intros Hi. apply (Hall Ho) in Hi.
      rewrite Hs2 in Hi. set_solver. }
    split; [done|]. intros i. induction 1 as [|i y Hy Hd IH].
    + intros y Hy%Hsub. apply Hv1 in Hy as [? _]. done.
    + intros z Hz. pose proof Hz as Hz'%Hsub. apply Hv1 in Hz' as [_ Hz'].
      assert (z = y) as -> by (by eapply valid_inj).
      assert (parent_slot y ≠ CAP_SLOT_INVALID) as Hp.
      { intros E. rewrite E in Hd. inversion Hd as [Es|? ? Hv _]; subst.
        - destruct (parent_not_invalid _ _ _ _ HF' _ _ Hx). congruence.
        - by destruct (parent_not_invalid _ _ _ _ HF' _ _ Hv). }
      destruct (pf_parent _ _ _ _ HF2 i y Hz ltac:(rewrite HP2; set_solver) Hp) as (cp & Hcp & _).
      by apply (IH cp).
Qed.

(** ** Move within a CSpace *)

(** The redirection loop over the children now under [dst]. *)
Lemma reparent_loop c t s tb dst ks : tables s !! t = Some tb →
  dll (lists s) (CapChildren t dst) (CapSibling t <$> ks) → NoDup ks → (length ks < list_fuel)%nat →
  (∀ k, k ∈ ks → 0 <= k < Z.of_nat (length tb)) →
  ∃ s' tb', list_for_each_safe lists list_fuel (Some (CapChildren t dst)) (reparent_body dst) s = Some s' ∧
    touches c t s s' ∧ lists s' = lists s ∧ s_cspace_pool s' = s_cspace_pool s ∧
    tables s' !! t = Some tb' ∧ reparented ks dst tb tb'.
Proof.
  intros Htb Hd Hnd Hf Hks.
  destruct (list_for_each_safe_spec lists (CapChildren t dst) (reparent_body dst)
    (λ l s', ∃ dn rest tb', ks = dn ++ rest ∧ l = CapSibling t <$> rest ∧ touches c t s s' ∧
       lists s' = lists s ∧ s_cspace_pool s' = s_cspace_pool s ∧ tables s' !! t = Some tb' ∧
       reparented dn dst tb tb')
    (λ s', ∃ tb', touches c t s s' ∧ lists s' = lists s ∧ s_cspace_pool s' = s_cspace_pool s ∧
       tables s' !! t = Some tb' ∧ reparented ks dst tb tb')
    (CapSibling t <$> ks) s list_fuel) as (s' & E & tb' & Hres).
  - intros l rest s' (dn & [|k rest'] & tb' & -> & [= -> ->] & _ & -> & _).
    rewrite fmap_app, fmap_cons in Hd. destruct Hd as [_ [_ Hs]%lseg_app].
    split; [done|]. apply (lseg_first _ _ _ _ Hs).
  - intros s' (dn & [|] & tb' & -> & [=] & _ & -> & _).
    erewrite get_next_nxt by apply (dll_first _ _ _ Hd). done.
  - intros l rest s' (dn & [|k rest'] & tb' & -> & [= -> ->] & HT & HL & HP & Htb' & Hl & Hre).
    unfold reparent_body. cbn [cap_from_sibling mbind option_bind fst snd].
    rewrite (get_cap_at s' t tb') by done.
    assert (0 <= k < Z.of_nat (length tb)) as Hk by (apply Hks; set_solver).
    destruct (proj2 (zlookup_is_Some tb k) Hk) as [y Hy].
    assert (k ∉ dn) as Hkd by (apply NoDup_app in Hnd as (_ & Hx & _); set_solver).
    rewrite Hre, decide_False, Hy by (done || lia). cbn [mbind option_bind].
    destruct (set_cap_at c s' t tb' k (set_parent dst y)) as (s1 & -> & T1 & B1 & L1 & P1);
      [done|lia|]. cbn [mbind option_bind].
    eexists false, s1. split; [done|]. exists (dn ++ [k]), rest', (<[Z.to_nat k := set_parent dst y]> tb').
    rewrite <- app_assoc. split; [done|]. split; [done|]. split; [by etrans|].
    split; [congruence|]. split; [congruence|]. split; [done|].
    split; [by rewrite length_insert|]. intros j Hj. destruct (decide (j = k)) as [->|Hne].
    + rewrite zlookup_insert_eq by lia. rewrite decide_True by set_solver. by rewrite Hy.
    + rewrite zlookup_insert_ne by lia. rewrite Hre by done.
      destruct (decide (j ∈ dn)), (decide (j ∈ dn ++ [k])); set_solver.
  - intros s' (dn & [|] & tb' & -> & [=] & ?). exists tb'. rewrite app_nil_r. naive_solver.
  - exists [], ks, tb. by split_and!.
  - apply (dll_first _ _ _ Hd).
  - by rewrite length_fmap.
  - exists s', tb'. naive_solver.
Qed.

Section move.
Context s c v t tb K (Hc : get_cs s c = Some v) (HF : forest_at s v t tb K ∅).

(** The splice, or nothing when there are no children. *)
Lemma splice_kids src dst xs xd :
  valid (capacity v) tb src xs → valid (capacity v) tb dst xd → src ≠ dst → K dst = [] →
  ∃ s1, (e ← list_empty (Some (CapChildren t src)) (lists s);
         if (e : bool) then Some s
         else on_lists (list_splice (Some (CapChildren t src)) (Some (CapChildren t dst))) s) = Some s1 ∧
    touches c t s s1 ∧ tables s1 = tables s ∧ s_cspace_pool s1 = s_cspace_pool s ∧
    dll (lists s1) (CapChildren t dst) (CapSibling t <$> K src) ∧ dll (lists s1) (CapChildren t src) [] ∧
    same_except (CapChildren t src :: CapChildren t dst :: (CapSibling t <$> K src)) (lists s) (lists s1).
Proof using Hc HF.
  intros Hs Hd Hne Hkd. pose proof HF as (Ht & Htb & HF').
  pose proof (pf_kids _ _ _ _ HF' src xs Hs) as Ls. pose proof (pf_kids _ _ _ _ HF' dst xd Hd) as Ld.
  rewrite Hkd in Ld. rewrite (list_empty_spec _ _ _ Ls). cbn [mbind option_bind].
  case_bool_decide as He.
  - exists s. rewrite He in *. split; [done|]. split; [reflexivity|]. by split_and!.
  - destruct (K src) as [|k ks] eqn:EK; [done|]. rewrite fmap_cons in *.
    destruct (list_splice_spec (lists s) (CapChildren t src) (CapChildren t dst)
      (CapSibling t k) (CapSibling t <$> ks) []) as (h1 & E1 & D1 & D2 & Hsame); [done|done| |].
    { intros a Ha Hb. apply list_elem_of_singleton in Hb as ->.
      apply elem_of_cons in Ha as [?|Ha]; [congruence|].
      rewrite <- fmap_cons in Ha. by apply children_not_sibling in Ha. }
    rewrite app_nil_r in D1.
    assert (same_except (CapChildren t src :: CapChildren t dst :: CapSibling t k
      :: (CapSibling t <$> ks)) (lists s) h1) as Hsame'.
    { eapply same_except_mono; [exact Hsame|]. set_solver. }
    destruct (on_lists_at c t s (list_splice (Some (CapChildren t src)) (Some (CapChildren t dst))) h1)
      as (s1 & -> & T1 & B1 & L1 & P1); [done|apply Hsame'| |].
    { intros a Ha. apply Hsame'. destruct (Ha src), (Ha dst). rewrite !not_elem_of_cons.
      split_and!; [done..| |]; [by destruct (Ha k)|].
      intros (j & -> & _)%list_elem_of_fmap. by destruct (Ha j). }
    exists s1. rewrite L1. split_and!; try done; apply Hsame'.
Qed.

(** The table after a move: the source is wiped, its children belong to the
    destination. *)
Definition moved (src dst : Z) (tb' : list cap_t) : Prop :=
  ∃ tb1, reparented (K src) dst tb tb1 ∧ tb' = <[Z.to_nat src := wiped]> tb1.

Lemma move_tail_spec src dst xs xd :
  valid (capacity v) tb src xs → valid (capacity v) tb dst xd → src ≠ dst → K dst = [] →
  dst ∉ K src → derive_depth xd <= derive_depth xs →
  ∃ s', (s1 ← (e ← list_empty (Some (CapChildren t src)) (lists s);
               if (e : bool) then Some s
               else on_lists (list_splice (Some (CapChildren t src)) (Some (CapChildren t dst))) s);
         s2 ← list_for_each_safe lists list_fuel (Some (CapChildren t dst)) (reparent_body dst) s1;
         src_cap ← get_cap s2 t src;
         s3 ← (if negb (parent_slot src_cap =? CAP_SLOT_INVALID)
               then on_lists (list_del_init (Some (CapSibling t src))) s2 else Some s2);
         wipe_cap t src s3) = Some s' ∧
    touches c t s s' ∧ ∃ tb' K', tables s' !! t = Some tb' ∧ moved src dst tb' ∧
      pforest t (capacity v) tb' (lists s') K' ∅.
Proof using Hc HF.
  intros Hs Hd Hne Hkd Hdk Hdep. pose proof HF as (Ht & Htb & HF').
  pose proof (kids_nodup _ _ _ _ HF' src xs Hs) as Hnd. pose proof (pf_len _ _ _ _ HF') as Hlen.
  destruct (splice_kids src dst xs xd) as (s1 & -> & T1 & B1 & P1 & Ld1 & Ls1 & F1); [done..|].
  cbn [mbind option_bind].
  destruct (reparent_loop c t s1 tb dst (K src)) as (s2 & tb2 & -> & T2 & L2 & P2 & B2 & Hre);
    [congruence|done|done|by eapply kids_length| |].
  { intros k Hk. destruct (kids_valid _ _ _ _ HF' src xs k Hs Hk) as (_ & y & [? _] & _). lia. }
  cbn [mbind option_bind].
  assert (pforest t (capacity v) tb2 (lists s2) (<[dst := K src]> (<[src := []]> K)) ∅) as HF2.
  { rewrite L2. by eapply (hand_over t _ tb tb2 (lists s) (lists s1) K src dst xs xd). }
  assert (src ∉ K src) as Hsk by (by eapply kids_irrefl).
  assert (valid (capacity v) tb2 src xs) as Hs2.
  { apply (valid_reparented v tb (K src) dst tb2 src xs Hre). exists xs. by rewrite decide_False. }
  rewrite (get_cap_at s2 t tb2) by done. pose proof Hs2 as (Hsr & -> & _). cbn [mbind option_bind].
  set (K2 := <[dst := K src]> (<[src := []]> K)) in *.
  assert (K2 src = []) as HK2.
  { unfold K2. rewrite fn_lookup_insert_ne, fn_lookup_insert by done. done. }
  assert (∃ s3 K3, (if negb (parent_slot xs =? CAP_SLOT_INVALID)
     then on_lists (list_del_init (Some (CapSibling t src))) s2 else Some s2) = Some s3 ∧
     touches c t s2 s3 ∧ tables s3 = tables s2 ∧ K3 src = [] ∧
     pforest t (capacity v) tb2 (lists s3) K3 {[src]}) as (s3 & K3 & -> & T3 & B3 & HK3 & HF3).
  { destruct (Z.eqb_spec (parent_slot xs) CAP_SLOT_INVALID) as [Hr|Hr]; cbn [negb].
    - destruct (detach_root t _ _ _ _ _ src xs HF2 Hs2 ltac:(set_solver) Hr) as (_ & Hp & _).
      rewrite union_empty_r_L in Hp. exists s2, K2. split; [done|]. split; [reflexivity|]. by split_and!.
    - destruct (detach t _ _ _ _ _ src xs HF2 Hs2) as (h3 & K3 & E3 & Hp & HK3 & _ & D3 & G3).
      rewrite union_empty_r_L in Hp.
      destruct (on_lists_at c t s2 (list_del_init (Some (CapSibling t src))) h3)
        as (s3 & -> & T3 & B3 & L3 & P3); [done..|].
      exists s3, K3. rewrite L3. split_and!; try done. by rewrite HK3. }
  cbn [mbind option_bind]. destruct (pf_dom _ _ _ _ HF3 src) as [Hdc Hds]; [done|].
  destruct Hre as [Hl2 Hre].
  destruct (wipe_cap_at c t src s3 tb2) as (s4 & -> & T4 & B4 & P4 & O4); [congruence|lia|done..|].
  exists s4. split; [done|]. split; [etrans; [exact T1|]; etrans; [exact T2|]; by etrans|].
  exists (<[Z.to_nat src := wiped]> tb2), K3. split_and!; [done|by exists tb2|].
  pose proof (free_pending t _ tb2 (lists s3) (lists s4) K3 {[src]} src wiped HF3) as Hfree.
  rewrite HK3 in Hfree.
  replace (list_to_set [] ∪ {[src]} ∖ {[src]}) with (∅ : gset Z) in Hfree by set_solver.
  apply Hfree; [set_solver|done|apply T4|exact O4].
Qed.
End move.
