(* ===== verification/CSpaceInv.v ===== *)
(** * The CSpace pool, its hash index and the creation of CSpaces

    [pool_inv]: the free stack holds exactly the dead pool entries, the hash
    chains hold exactly the live CSpaces under their ids, and ids are unique.
    From it: resolving a root is total, finds a CSpace by its id, and never
    yields a dead one.  [cspace_create] is proved against the contract that
    cspace.c expects of the slab allocator ([SlabSpec]). *)

From stdpp Require Import functions.
From S2P Require Import Prelude KList CapTypes CSpace Capability CapForest CapForestOps CapInv CapOps.

Set Default Goal Selector "!".

#[local] Arguments set_cap : simpl never.
#[local] Arguments get_cap : simpl never.
#[local] Arguments set_cs : simpl never.
#[local] Arguments get_cs : simpl never.

(** ** The invariant *)

(** The chain of hash nodes from [first]. *)
Fixpoint chain (ns : list cspace_hash_node_t) (first : option Z) (cs : list Z) : Prop :=
  match cs with
  | [] => first = None
  | c :: cs => first = Some c ∧ ∃ nd, ns.[c] = Some nd ∧ chain ns (hnext nd) cs
  end.

Definition live_at (s : kstate) (c : Z) (v : cspace_t) : Prop := get_cs s c = Some v ∧ live v.

Record pool_inv (s : kstate) : Prop := PoolInv {
  pi_pool : Z.of_nat (length (s_cspace_pool s)) = CONFIG_MAX_CSPACES;
  pi_stack : Z.of_nat (length (s_cspace_free_stack s)) = CONFIG_MAX_CSPACES;
  pi_hash : Z.of_nat (length (s_cspace_hash s)) = CSPACE_HASH_BUCKETS;
  pi_nodes : Z.of_nat (length (s_hash_nodes s)) = CONFIG_MAX_CSPACES;
  pi_count : 0 <= s_cspace_free_count s <= CONFIG_MAX_CSPACES;
  pi_nodup : NoDup (take (Z.to_nat (s_cspace_free_count s)) (s_cspace_free_stack s));
  pi_free : ∀ i, i ∈ take (Z.to_nat (s_cspace_free_count s)) (s_cspace_free_stack s) ↔
    0 <= i < CONFIG_MAX_CSPACES ∧ ∀ v, ¬ live_at s i v;
  pi_ids : ∀ c v, live_at s c v → 0 < id (header v) < s_cspace_id_counter s;
  pi_counter : 1 <= s_cspace_id_counter s < 2 ^ 32;
  pi_unique : ∀ c1 v1 c2 v2, live_at s c1 v1 → live_at s c2 v2 →
    id (header v1) = id (header v2) → c1 = c2;
  pi_chain : ∀ b, 0 <= b < CSPACE_HASH_BUCKETS → ∃ first cs, (s_cspace_hash s).[b] = Some first ∧
    chain (s_hash_nodes s) first cs ∧ NoDup cs ∧
    (∀ c, c ∈ cs ↔ ∃ v, live_at s c v ∧ cspace_hash_index (id (header v)) = b);
  pi_entry : ∀ c v, live_at s c v → ∃ nx, (s_hash_nodes s).[c] = Some (HashNode (id (header v)) (Some c) nx);
  pi_lists : ∀ c, 0 <= c < CONFIG_MAX_CSPACES → CsChildren c ∈ dom (lists s) ∧ CsNode c ∈ dom (lists s);
  pi_self : ∀ c v, live_at s c v → lists s !! CsNode c = Some (LH (Some (CsNode c)) (Some (CsNode c)))
}.

Lemma hash_index_range i : 0 <= cspace_hash_index i < CSPACE_HASH_BUCKETS.
Proof.
  unfold cspace_hash_index, CSPACE_HASH_MASK, CSPACE_HASH_BUCKETS.
  change (32 - 1) with (Z.ones 5). rewrite Z.land_ones by lia. apply Z.mod_pos_bound. lia.
Qed.

(** ** Resolving *)

Lemma live_range s c v : pool_inv s → live_at s c v → 0 <= c < CONFIG_MAX_CSPACES.
Proof.
  intros Hp [Hc _]. apply zlookup_Some_lt in Hc. rewrite (pi_pool _ Hp) in Hc. done.
Qed.

Lemma nodup_pool_length (cs : list Z) : NoDup cs → (∀ c, c ∈ cs → 0 <= c < CONFIG_MAX_CSPACES) →
  (length cs < hash_fuel)%nat.
Proof.
  intros Hnd Hr. apply (NoDup_submseteq _ (seqZ 0 CONFIG_MAX_CSPACES)) in Hnd.
  - apply submseteq_length in Hnd. rewrite length_seqZ in Hnd. unfold hash_fuel. lia.
  - intros c Hc%Hr. apply elem_of_seqZ. lia.
Qed.

Lemma hash_find_chain s root fuel first cs :
  chain (s_hash_nodes s) first cs → (length cs < fuel)%nat →
  (∀ c, c ∈ cs → ∃ k nx, (s_hash_nodes s).[c] = Some (HashNode k (Some c) nx)) →
  (∃ c nx, c ∈ cs ∧ (s_hash_nodes s).[c] = Some (HashNode root (Some c) nx) ∧
           hash_find fuel s root first = Some (Some (Some c))) ∨
  (hash_find fuel s root first = Some None ∧
   ∀ c nd, c ∈ cs → (s_hash_nodes s).[c] = Some nd → key nd ≠ root).
Proof.
  revert first cs. induction fuel as [|fuel IH]; intros first cs Hch Hl He; [lia|].
  destruct cs as [|c cs]; cbn [chain] in Hch.
  { subst first. right. split; [done|]. set_solver. }
  destruct Hch as (-> & nd & Hnd & Hch). cbn [hash_find]. rewrite Hnd. cbn [mbind option_bind].
  destruct (He c) as (k & nx & E); [left|]. rewrite E in Hnd. injection Hnd as <-. cbn [key value hnext] in *.
  destruct (Z.eqb_spec k root) as [->|Hk].
  - left. exists c, nx. split; [left|done].
  - destruct (IH nx cs Hch) as [(c' & nx' & Hin & H1 & H2)|[H1 H2]]; [cbn in Hl; lia|set_solver| |].
    + left. exists c', nx'. split; [by right|done].
    + right. split; [done|]. intros c' nd' [->|Hc']%elem_of_cons Hn'; [|by eapply H2].
      rewrite E in Hn'. by injection Hn' as <-.
Qed.

Lemma linear_find_total s root n i : 0 <= i →
  i + Z.of_nat n <= Z.of_nat (length (s_cspace_pool s)) →
  ∃ r, linear_find n s root i = Some r ∧
       ∀ c, r = Some c → ∃ v, live_at s c v ∧ root_slot v = root.
Proof.
  revert i. induction n as [|n IH]; intros i Hi Hn; cbn [linear_find]; [by exists None|].
  destruct (proj2 (zlookup_is_Some (s_cspace_pool s) i)) as [v Hv]; [lia|].
  unfold get_cs at 1. rewrite Hv. cbn [mbind option_bind]. case_if.
  - exists (Some i). split; [done|]. intros c [= <-]. exists v. zify_bool. by repeat split.
  - apply IH; lia.
Qed.

(** [cspace_from_root] finds a live CSpace by its id. *)
Lemma from_root_id s c v : pool_inv s → live_at s c v →
  cspace_from_root s (id (header v)) = Some (Some c).
Proof.
  intros Hp Hl. pose proof (pi_ids _ Hp c v Hl) as Hid. unfold cspace_from_root.
  destruct (pi_chain _ Hp (cspace_hash_index (id (header v)))) as (first & cs & -> & Hch & Hnd & Hcs);
    [apply hash_index_range|]. cbn [mbind option_bind].
  destruct (hash_find_chain s (id (header v)) hash_fuel first cs Hch)
    as [(c' & nx & Hin & Hn & ->)|[_ Hno]].
  - apply nodup_pool_length; [done|]. intros c0 (v0 & Hv0 & _)%Hcs. by eapply live_range.
  - intros c0 (v0 & Hv0 & _)%Hcs. destruct (pi_entry _ Hp c0 v0 Hv0) as (nx & ?). eauto.
  - cbn [mbind option_bind]. f_equal. f_equal.
    apply Hcs in Hin as (v' & Hv' & _). destruct (pi_entry _ Hp c' v' Hv') as (nx' & E).
    rewrite E in Hn. injection Hn as Hid' _. by eapply (pi_unique _ Hp c' v' c v).
  - exfalso. destruct (pi_entry _ Hp c v Hl) as (nx & E).
    eapply (Hno c); [|exact E|done]. apply Hcs. eauto.
Qed.

(** Resolving any root is total and yields live CSpaces only. *)
Lemma from_root_total s root : pool_inv s →
  ∃ r, cspace_from_root s root = Some r ∧
       ∀ c, r = Some c → ∃ v, live_at s c v ∧ (id (header v) = root ∨ root_slot v = root).
Proof.
  intros Hp. unfold cspace_from_root.
  destruct (pi_chain _ Hp (cspace_hash_index root)) as (first & cs & -> & Hch & Hnd & Hcs);
    [apply hash_index_range|]. cbn [mbind option_bind].
  destruct (hash_find_chain s root hash_fuel first cs Hch)
    as [(c' & nx & Hin & Hn & ->)|[-> _]].
  - apply nodup_pool_length; [done|]. intros c0 (v0 & Hv0 & _)%Hcs. by eapply live_range.
  - intros c0 (v0 & Hv0 & _)%Hcs. destruct (pi_entry _ Hp c0 v0 Hv0) as (nx & ?). eauto.
  - cbn [mbind option_bind]. exists (Some c'). split; [done|]. intros c [= <-].
    apply Hcs in Hin as (v & Hv & _). destruct (pi_entry _ Hp c' v Hv) as (nx' & E).
    rewrite E in Hn. injection Hn as Hid _. eauto.
  - cbn [mbind option_bind].
    destruct (linear_find_total s root (Z.to_nat CONFIG_MAX_CSPACES) 0) as (r & E & Hf);
      [lia|rewrite (pi_pool _ Hp); unfold CONFIG_MAX_CSPACES; lia|].
    exists r. split; [exact E|]. intros c Hc. destruct (Hf c Hc) as (v & ? & ?). eauto.
Qed.

(** ** Initialising a cap table *)

Section table.
Context (c t : Z).

Lemma zero_cap_at s tb i : tables s !! t = Some tb → 0 <= i < Z.of_nat (length tb) →
  CapChildren t i ∈ dom (lists s) → CapSibling t i ∈ dom (lists s) →
  ∃ s', zero_cap t i s = Some s' ∧ touches c t s s' ∧ s_cspace_pool s' = s_cspace_pool s ∧
        tables s' !! t = Some (<[Z.to_nat i := cap_zero]> tb).
Proof.
  intros Htb Hi Hdc Hds. unfold zero_cap.
  destruct (set_cap_at c s t tb i cap_zero) as (s1 & -> & T1 & B1 & L1 & P1); [done..|].
  cbn [mbind option_bind]. eexists. split; [done|]. split_and!; [|done|exact B1].
  etrans; [exact T1|]. split; cbn; try done.
  - intros v Hv. exists v. by repeat split.
  - rewrite !dom_insert_L, L1. set_solver.
  - intros a Ha. destruct (Ha i). by rewrite !lookup_insert_ne by done.
Qed.

Lemma zero_caps_spec n i s tb : tables s !! t = Some tb → 0 <= i →
  i + Z.of_nat n <= Z.of_nat (length tb) →
  (∀ j, 0 <= j < Z.of_nat (length tb) → CapChildren t j ∈ dom (lists s) ∧ CapSibling t j ∈ dom (lists s)) →
  ∃ s' tb', zero_caps n t i s = Some s' ∧ touches c t s s' ∧ s_cspace_pool s' = s_cspace_pool s ∧
    tables s' !! t = Some tb' ∧ length tb' = length tb ∧
    ∀ j, 0 <= j → tb'.[j] = if decide (i <= j < i + Z.of_nat n) then Some cap_zero else tb.[j].
Proof.
  revert i s tb. induction n as [|n IH]; intros i s tb Htb Hi Hn Hd; cbn [zero_caps].
  { exists s, tb. split; [done|]. split; [reflexivity|]. split_and!; try done.
    intros j _. by rewrite decide_False by lia. }
  destruct (Hd i) as [Hdc Hds]; [lia|].
  destruct (zero_cap_at s tb i) as (s1 & -> & T1 & P1 & B1); [done|lia|done..|].
  cbn [mbind option_bind].
  destruct (IH (i + 1) s1 _ B1) as (s2 & tb2 & -> & T2 & P2 & B2 & Hl & Hj).
  { lia. } { rewrite length_insert. lia. }
  { rewrite length_insert, (to_dom _ _ _ _ T1). done. }
  rewrite length_insert in Hl. exists s2, tb2. split; [done|]. split; [by etrans|].
  split_and!; try congruence. intros j Hj0. rewrite Hj by done.
  destruct (decide (j = i)) as [->|Hne].
  - rewrite decide_False, decide_True by lia. apply zlookup_insert_eq. lia.
  - rewrite zlookup_insert_ne by lia. repeat case_decide; (done || lia).
Qed.

Lemma init_caps_spec n i s tb : tables s !! t = Some tb → 0 <= i →
  i + Z.of_nat n <= Z.of_nat (length tb) →
  (∀ j, 0 <= j < Z.of_nat (length tb) → CapChildren t j ∈ dom (lists s) ∧ CapSibling t j ∈ dom (lists s)) →
  (∀ j, i <= j < i + Z.of_nat n → tb.[j] = Some cap_zero) →
  ∃ s', init_caps n t i s = Some s' ∧ touches c t s s' ∧ s_cspace_pool s' = s_cspace_pool s ∧
    tables s' !! t = Some tb.
Proof.
  revert i s. induction n as [|n IH]; intros i s Htb Hi Hn Hd Hz; cbn [init_caps].
  { exists s. split; [done|]. split; [reflexivity|]. done. }
  rewrite (get_cap_at s t tb) by done. rewrite (Hz i) by lia. cbn [mbind option_bind].
  destruct (set_cap_at c s t tb i (set_state CAP_STATE_FREE cap_zero)) as (s1 & -> & T1 & B1 & L1 & P1);
    [done|lia|]. cbn [mbind option_bind].
  rewrite list_insert_id in B1.
  2: { pose proof (Hz i ltac:(lia)) as E. unfold zlookup in E.
       by rewrite (proj2 (Z.leb_le _ _)) in E. }
  destruct (Hd i) as [Hdc Hds]; [lia|]. unfold init_children, init_sibling.
  destruct (init_nodes_at c t i s1 (CapChildren t i)) as (s2 & -> & T2 & B2 & P2 & _);
    [by left|by rewrite L1|]. cbn [mbind option_bind].
  destruct (init_nodes_at c t i s2 (CapSibling t i)) as (s3 & -> & T3 & B3 & P3 & _);
    [by right|by rewrite (to_dom _ _ _ _ T2), L1|]. cbn [mbind option_bind].
  assert (touches c t s s3) as T by (etrans; [exact T1|]; by etrans).
  destruct (IH (i + 1) s3) as (s4 & -> & T4 & P4 & B4); [congruence|lia|lia| | |].
  { rewrite (to_dom _ _ _ _ T). done. } { intros j Hj. apply Hz. lia. }
  exists s4. split; [done|]. split; [by etrans|]. split; congruence.
Qed.

(** The free list: each slot of the range points to the next one. *)
Definition free_next (cap j : Z) : option caddr :=
  if j + 1 <? cap then Some (CapBase t (j + 1)) else None.

Lemma chain_caps_spec n i cap s : 
  (∀ j, i <= j < i + Z.of_nat n → CapSibling t j ∈ dom (lists s)) →
  ∃ s', chain_caps n t i cap s = Some s' ∧ touches c t s s' ∧ s_cspace_pool s' = s_cspace_pool s ∧
    tables s' = tables s ∧
    (∀ j, i <= j < i + Z.of_nat n → get_next (lists s') (Some (CapSibling t j)) = Some (free_next cap j)) ∧
    (∀ a, (∀ j, i <= j < i + Z.of_nat n → a ≠ CapSibling t j) → lists s' !! a = lists s !! a).
Proof.
  revert i s. induction n as [|n IH]; intros i s Hd; cbn [chain_caps].
  { exists s. split; [done|]. split; [reflexivity|]. split_and!; try done. intros j ?. lia. }
  assert (CapSibling t i ∈ dom (lists s)) as Hdi by (apply Hd; lia).
  unfold set_sibling_next. fold (free_next cap i).
  destruct (set_next_spec (CapSibling t i) (free_next cap i) (lists s) Hdi) as (h1 & E1 & D1 & F1 & N1 & _).
  destruct (on_lists_at c t s (set_next (Some (CapSibling t i)) (free_next cap i)) h1)
    as (s1 & -> & T1 & B1 & L1 & P1); [done|done| |].
  { intros a Ha. destruct (Ha i). by apply F1. }
  cbn [mbind option_bind].
  destruct (IH (i + 1) s1) as (s2 & -> & T2 & P2 & B2 & Hn & Hf).
  { intros j Hj. rewrite L1, D1. apply Hd. lia. }
  exists s2. split; [done|]. split; [by etrans|]. split; [congruence|]. split; [congruence|]. split.
  - intros j Hj. destruct (decide (j = i)) as [->|Hne]; [|apply Hn; lia].
    unfold get_next. cbn [mbind option_bind]. rewrite Hf by (intros k Hk [= ->]; lia).
    rewrite L1. pose proof (N1 (CapSibling t i)) as N. rewrite decide_True in N by done.
    unfold nxt in N. apply elem_of_dom in Hdi as [nd Hnd].
    unfold set_next in E1. cbn in E1. rewrite Hnd in E1. cbn in E1. injection E1 as <-.
    by rewrite lookup_insert_eq.
  - intros a Ha. rewrite Hf by (intros k Hk; apply Ha; lia). rewrite L1. apply F1. apply Ha. lia.
Qed.
End table.

(** ** The contract of the slab allocator

    A block handed out is in use nowhere else and holds at least the capabilities
    its cache is for; a release takes it out of use.  slab.c keeps the first and
    the last ([SlabTheorems.slab_refines_sets]) and breaks the second. *)

Class SlabSpec (A : Type) `{!SlabOps A} := {
  slab_live : A → gset Z;
  slab_alloc_fresh i a t raw a' : slab_alloc i a = Some (t, raw, a') →
    t ∉ slab_live a ∧ slab_live a' = {[t]} ∪ slab_live a;
  slab_alloc_size i a t raw a' : 0 <= i → slab_alloc i a = Some (t, raw, a') →
    (i + 1) * 64 <= Z.of_nat (length raw);
  slab_free_live i t a : t ∈ slab_live a → slab_live (slab_free i t a) = slab_live a ∖ {[t]}
}.

(** ** Creation *)

Definition root_cap (i : Z) : cap_t :=
  Cap CAP_STATE_VALID KOBJ_CSPACE (with_revoke (with_grant RW)) 0 i CAP_SLOT_INVALID 0 0 false.

Definition new_cspace (i t cap : Z) : cspace_t :=
  CSpace (Header KOBJ_CSPACE i 1 KOBJ_ID_INVALID) (Some t) cap 1 0
         (if cap >? 1 then 1 else CAP_SLOT_INVALID).

Lemma block_nodes_spec t n i h :
  (∀ j, i <= j < i + Z.of_nat n → CapChildren t j ∈ dom (block_nodes n t i h) ∧
                                  CapSibling t j ∈ dom (block_nodes n t i h)) ∧
  dom h ⊆ dom (block_nodes n t i h) ∧
  (∀ a, foreign t a → block_nodes n t i h !! a = h !! a).
Proof.
  revert i h. induction n as [|n IH]; intros i h; cbn [block_nodes].
  { split_and!; try done. intros j ?. lia. }
  set (h1 := <[CapChildren t i := _]> _). destruct (IH (i + 1) h1) as (H1 & H2 & H3).
  assert (CapChildren t i ∈ dom h1 ∧ CapSibling t i ∈ dom h1 ∧ dom h ⊆ dom h1) as (Ha & Hb & Hs).
  { unfold h1. rewrite !dom_insert_L. set_solver. }
  split_and!.
  - intros j Hj. destruct (decide (j = i)) as [->|]; [split; apply H2; done|apply H1; lia].
  - by etrans.
  - intros a Ha'. rewrite H3 by done. unfold h1. destruct (Ha' i).
    by rewrite !lookup_insert_ne by done.
Qed.

(** The table part of creation: from a fresh block to a table with its root
    capability and free list. *)
Lemma init_table_spec s c t cap v tb :
  get_cs s c = Some v → cap_table v = Some t → capacity v = cap → 0 < cap →
  tables s !! t = Some tb → cap <= Z.of_nat (length tb) →
  (∀ j, 0 <= j < Z.of_nat (length tb) → CapChildren t j ∈ dom (lists s) ∧ CapSibling t j ∈ dom (lists s)) →
  ∃ s' tb', (s1 ← cspace_init_cap_table c s; cspace_create_root_cap c s1) = Some (s', KERNEL_OK) ∧
    touches c t s (upd_pool (s_cspace_pool s) s') ∧
    s_cspace_pool s' = <[Z.to_nat c := CSpace (header v) (Some t) cap 1 0
                                        (if cap >? 1 then 1 else CAP_SLOT_INVALID)]> (s_cspace_pool s) ∧
    tables s' !! t = Some tb' ∧ length tb' = length tb ∧
    tb'.[0] = Some (root_cap (id (header v))) ∧ (∀ j, 1 <= j < cap → tb'.[j] = Some cap_zero) ∧
    dll (lists s') (CapChildren t 0) [] ∧ dll (lists s') (CapSibling t 0) [] ∧
    (∀ j, 1 <= j < cap → get_next (lists s') (Some (CapSibling t j)) = Some (free_next t cap j)).
Proof.
  intros Hv Ht Hcap Hpos Htb Hlen Hd. unfold cspace_init_cap_table. rewrite Hv. cbn [mbind option_bind].
  rewrite Ht, Hcap. cbn [mbind option_bind].
  destruct (zero_caps_spec c t (Z.to_nat cap) 0 s tb) as (s1 & tb1 & -> & T1 & P1 & B1 & Hl1 & Hj1);
    [done|lia|lia|done|]. cbn [mbind option_bind].
  destruct (init_caps_spec c t (Z.to_nat cap) 0 s1 tb1) as (s2 & -> & T2 & P2 & B2);
    [done|lia|lia|..].
  { rewrite Hl1, (to_dom _ _ _ _ T1). done. }
  { intros j Hj. rewrite Hj1, decide_True by lia. done. }
  cbn [mbind option_bind].
  assert (dom (lists s2) = dom (lists s)) as D2 by (rewrite (to_dom _ _ _ _ T2); apply T1).
  destruct (chain_caps_spec c t (Z.to_nat (cap - 1)) 1 cap s2) as (s3 & -> & T3 & P3 & B3 & N3 & F3).
  { intros j Hj. rewrite D2. apply Hd. lia. }
  cbn [mbind option_bind].
  assert (get_cs s3 c = Some v) as Hv3 by (unfold get_cs in *; congruence).
  set (v4 := CSpace (header v) (Some t) cap (used_count v) (root_slot v)
                    (if cap >? 1 then 1 else CAP_SLOT_INVALID)).
  destruct (set_cs_at t s3 c v v4) as (s4 & E4 & T4 & B4 & L4 & G4); [done|by repeat split|].
  rewrite E4. cbn [mbind option_bind].
  unfold cspace_create_root_cap. rewrite G4. cbn [mbind option_bind cap_table v4].
  assert (tables s4 !! t = Some tb1) as Htb4 by (rewrite B4, B3; done).
  rewrite (get_cap_at s4 t tb1) by done. rewrite Hj1, decide_True by lia. cbn [mbind option_bind].
  destruct (set_cap_at c s4 t tb1 0 (root_cap (id (header v)))) as (s5 & E5 & T5 & B5 & L5 & P5);
    [done|lia|]. unfold root_cap in E5. cbn [header v4 inheritable cap_zero]. rewrite E5.
  cbn [mbind option_bind]. destruct (Hd 0) as [Hdc Hds]; [lia|].
  unfold init_children, init_sibling.
  assert (dom (lists s5) = dom (lists s)) as D5.
  { rewrite L5, L4, (to_dom _ _ _ _ T3). exact D2. }
  destruct (INIT_LIST_HEAD_spec (CapChildren t 0) (lists s5)) as (h6 & E6 & [D6 F6] & L6); [by rewrite D5|].
  destruct (on_lists_at c t s5 _ h6 E6 D6) as (s6 & -> & T6 & B6 & L6' & P6).
  { intros a Ha. destruct (Ha 0). apply F6. set_solver. }
  cbn [mbind option_bind]. subst h6.
  destruct (INIT_LIST_HEAD_spec (CapSibling t 0) (lists s6)) as (h7 & E7 & [D7 F7] & L7);
    [by rewrite D6, D5|].
  destruct (on_lists_at c t s6 _ h7 E7 D7) as (s7 & -> & T7 & B7 & L7' & P7).
  { intros a Ha. destruct (Ha 0). apply F7. set_solver. }
  cbn [mbind option_bind]. subst h7.
  assert (get_cs s7 c = Some v4) as Hv7 by (unfold get_cs in *; congruence).
  unfold set_cs. pose proof (zlookup_Some_lt _ _ _ Hv7) as Hcr. rewrite zupdate_total by done.
  cbn [mbind option_bind]. eexists _, (<[Z.to_nat 0 := root_cap (id (header v))]> tb1).
  split; [done|].
  assert (touches c t s s7) as T.
  { etrans; [exact T1|]. etrans; [exact T2|]. etrans; [exact T3|]. etrans; [exact T4|].
    etrans; [exact T5|]. by etrans. }
  assert (s_cspace_pool s7 = <[Z.to_nat c := v4]> (s_cspace_pool s)) as Hp7.
  { rewrite P7, P6, P5. unfold set_cs in E4. unfold get_cs in Hv3.
    rewrite zupdate_total in E4 by (by apply zlookup_Some_lt in Hv3).
    cbn in E4. injection E4 as <-. cbn. by rewrite P3, P2, P1. }
  split_and!; cbn [tables lists s_cspace_pool upd_pool].
  - destruct T. split; cbn; try done. intros w Hw. exists w. by repeat split.
  - by rewrite Hp7, list_insert_insert_eq.
  - rewrite B7, B6. exact B5.
  - by rewrite length_insert.
  - apply zlookup_insert_eq. lia.
  - intros j Hj. rewrite zlookup_insert_ne by lia. rewrite Hj1, decide_True by lia. done.
  - apply dll_nil in L6. apply dll_nil. unfold link, nxt, prv in *. rewrite F7; [done|set_solver].
  - done.
  - intros j Hj. specialize (N3 j ltac:(lia)). unfold get_next in *. cbn [mbind option_bind] in *.
    rewrite F7, F6, L5, L4; [done|..]; (rewrite list_elem_of_singleton; intros [=]; lia).
Qed.

Section create.
Context {A : Type} `{!SlabOps A, !SlabSpec A}.

(** The tables in use are blocks the allocator knows to be handed out. *)
Definition blocks_inv (a : A) (s : kstate) : Prop :=
  ∀ c v t, live_at s c v → cap_table v = Some t → t ∈ slab_live a.

(** What a successful creation changes. *)
Record created (s s' : kstate) (c t cap : Z) (tb : list cap_t) : Prop := Created {
  cr_index : (s_cspace_free_stack s).[s_cspace_free_count s - 1] = Some c;
  cr_stack : s_cspace_free_stack s' = s_cspace_free_stack s;
  cr_count : s_cspace_free_count s' = s_cspace_free_count s - 1;
  cr_counter : s_cspace_id_counter s' = u32 (s_cspace_id_counter s + 1);
  cr_pool : s_cspace_pool s' = <[Z.to_nat c := new_cspace (s_cspace_id_counter s) t cap]> (s_cspace_pool s);
  cr_hash : ∃ first, (s_cspace_hash s).[cspace_hash_index (s_cspace_id_counter s)] = Some first ∧
    s_cspace_hash s' = <[Z.to_nat (cspace_hash_index (s_cspace_id_counter s)) := Some c]> (s_cspace_hash s) ∧
    s_hash_nodes s' = <[Z.to_nat c := HashNode (s_cspace_id_counter s) (Some c) first]> (s_hash_nodes s);
  cr_table : tables s' !! t = Some tb;
  cr_tables : ∀ t', t' ≠ t → tables s' !! t' = tables s !! t';
  cr_len : cap <= Z.of_nat (length tb);
  cr_root : tb.[0] = Some (root_cap (s_cspace_id_counter s));
  cr_zero : ∀ j, 1 <= j < cap → tb.[j] = Some cap_zero;
  cr_sub : dom (lists s) ⊆ dom (lists s');
  cr_dom : ∀ j, 0 <= j < cap → CapChildren t j ∈ dom (lists s') ∧ CapSibling t j ∈ dom (lists s');
  cr_lists : ∀ x, foreign t x → x ≠ CsChildren c → x ≠ CsNode c → lists s' !! x = lists s !! x;
  cr_node : lists s' !! CsNode c = Some (LH (Some (CsNode c)) (Some (CsNode c)));
  cr_kids : dll (lists s') (CapChildren t 0) [];
  cr_sib : dll (lists s') (CapSibling t 0) [];
  cr_free : ∀ j, 1 <= j < cap → get_next (lists s') (Some (CapSibling t j)) = Some (free_next t cap j)
}.

Lemma cspace_create_spec a s cap t raw a' : pool_inv s → 0 < cap <= CSPACE_MAX_CAPACITY →
  0 < s_cspace_free_count s → slab_alloc (cap / 64) a = Some (t, raw, a') →
  ∃ s' c tb, cspace_create cap true a s = Some (a', s', Some c, KERNEL_OK) ∧ created s s' c t cap tb.
Proof.
  intros Hp Hcap Hfc Hsl. unfold cspace_create. cbn [negb].
  rewrite (proj2 (Z.eqb_neq cap 0)), Z.gtb_ltb, (proj2 (Z.ltb_ge _ _)) by lia. cbn [orb].
  unfold cspace_pool_alloc. rewrite (proj2 (Z.eqb_neq _ 0)) by lia.
  pose proof (pi_count _ Hp) as Hcount. unfold CONFIG_MAX_CSPACES in Hcount.
  rewrite (u32_small (s_cspace_free_count s - 1)) by lia.
  destruct (proj2 (zlookup_is_Some (s_cspace_free_stack s) (s_cspace_free_count s - 1))) as [c Hc].
  { rewrite (pi_stack _ Hp). unfold CONFIG_MAX_CSPACES. lia. }
  rewrite Hc. cbn [mbind option_bind]. change (negb (KERNEL_OK =? KERNEL_OK)) with false. cbv iota.
  set (s2 := upd_counter _ _).
  assert (0 <= c < CONFIG_MAX_CSPACES) as Hcr.
  { apply (pi_free _ Hp c). unfold zlookup in Hc. rewrite (proj2 (Z.leb_le _ _)) in Hc by lia.
    apply list_elem_of_lookup. exists (Z.to_nat (s_cspace_free_count s - 1)).
    rewrite lookup_take_lt by lia. done. }
  destruct (proj2 (zlookup_is_Some (s_cspace_pool s) c)) as [old Hold];
    [by rewrite (pi_pool _ Hp)|].
  change (get_cs s2 c) with (s_cspace_pool s).[c]. rewrite Hold. cbn [mbind option_bind].
  rewrite Hsl. set (s3 := add_block t raw s2).
  set (v4 := CSpace _ (Some t) cap 0 _ _).
  unfold set_cs at 1. change (s_cspace_pool s3) with (s_cspace_pool s).
  rewrite zupdate_total by (by rewrite (pi_pool _ Hp)). cbn [mbind option_bind].
  set (s4 := upd_pool _ s3).
  destruct (block_nodes_spec t (length raw) 0 (lists s)) as (Hb1 & Hb2 & Hb3).
  assert (lists s4 = block_nodes (length raw) t 0 (lists s)) as L4 by done.
  destruct (pi_lists _ Hp c Hcr) as [Hdc Hdn].
  destruct (INIT_LIST_HEAD_effect (CsChildren c) (lists s4)) as (h5 & E5 & [D5 F5] & _);
    [rewrite L4; by apply Hb2|].
  rewrite (on_lists_Some _ s4 h5 E5). cbn [mbind option_bind].
  destruct (INIT_LIST_HEAD_effect (CsNode c) h5) as (h6 & E6 & [D6 F6] & N6);
    [rewrite D5, L4; by apply Hb2|].
  rewrite (on_lists_Some _ (upd_lists h5 s4) h6 E6). cbn [mbind option_bind].
  set (s6 := upd_lists h6 (upd_lists h5 s4)).
  assert (cap <= Z.of_nat (length raw)) as Hraw.
  { pose proof (slab_alloc_size _ _ _ _ _ (Z.div_pos cap 64 ltac:(lia) ltac:(lia)) Hsl).
    pose proof (Z.div_mod cap 64 ltac:(lia)). pose proof (Z.mod_pos_bound cap 64 ltac:(lia)). lia. }
  assert (get_cs s6 c = Some v4) as Hv6.
  { unfold get_cs. cbn. apply zlookup_insert_eq. by rewrite (pi_pool _ Hp). }
  assert (∀ j, 0 <= j < Z.of_nat (length raw) →
    CapChildren t j ∈ dom (lists s6) ∧ CapSibling t j ∈ dom (lists s6)) as Hd6.
  { intros j Hj. cbn [lists s6 upd_lists]. rewrite D6, D5, L4. apply Hb1. lia. }
  destruct (init_table_spec s6 c t cap v4 raw) as (s7 & tb & E7 & T7 & P7 & B7 & Hl7 & R7 & Z7 & K7 & S7 & N7);
    [done|done|done|lia|by cbn; rewrite lookup_insert_eq|done|done|].
  apply bind_Some in E7 as (s6' & E7a & E7b). rewrite E7a. cbn [mbind option_bind]. rewrite E7b.
  cbn [mbind option_bind]. change (negb (KERNEL_OK =? KERNEL_OK)) with false. cbv iota.
  unfold cspace_hash_register. unfold CONFIG_MAX_CSPACES in Hcr at 1.
  rewrite Z.geb_leb, (proj2 (Z.leb_gt _ _)) by (unfold CONFIG_MAX_CSPACES in *; lia).
  assert (s_cspace_hash s7 = s_cspace_hash s) as Hh7 by exact (to_hash _ _ _ _ T7).
  assert (s_hash_nodes s7 = s_hash_nodes s) as Hn7 by exact (to_nodes _ _ _ _ T7).
  change (s_cspace_id_counter (upd_free (s_cspace_free_stack s) (s_cspace_free_count s - 1) s))
    with (s_cspace_id_counter s). rewrite Hh7, Hn7.
  pose proof (hash_index_range (s_cspace_id_counter s)) as Hbr.
  destruct (proj2 (zlookup_is_Some (s_cspace_hash s) (cspace_hash_index (s_cspace_id_counter s))))
    as [first Hfirst]; [by rewrite (pi_hash _ Hp)|].
  rewrite Hfirst. cbn [mbind option_bind].
  rewrite (zupdate_total (s_hash_nodes s)) by (by rewrite (pi_nodes _ Hp)). cbn [mbind option_bind].
  rewrite (zupdate_total (s_cspace_hash s)) by (by rewrite (pi_hash _ Hp)). cbn [mbind option_bind].
  eexists _, c, tb. split; [done|].
  split; cbn [s_cspace_pool s_cspace_free_stack s_cspace_free_count s_cspace_id_counter s_cspace_hash
    s_hash_nodes tables lists upd_hash].
  - exact Hc.
  - exact (to_stack _ _ _ _ T7).
  - exact (to_count _ _ _ _ T7).
  - exact (to_counter _ _ _ _ T7).
  - rewrite P7. cbn [s6 s4 s_cspace_pool upd_lists upd_pool]. by rewrite list_insert_insert_eq.
  - by exists first.
  - exact B7.
  - intros t' Ht. pose proof (to_tables _ _ _ _ T7 t' Ht) as E. cbn in E. rewrite E.
    by rewrite lookup_insert_ne.
  - lia.
  - exact R7.
  - exact Z7.
  - pose proof (to_dom _ _ _ _ T7) as E. cbn in E. rewrite E, D6, D5, L4. done.
  - intros j Hj. pose proof (to_dom _ _ _ _ T7) as E. cbn [lists upd_pool] in E. rewrite E.
    apply Hd6. lia.
  - intros x Hx H1 H2. pose proof (to_lists _ _ _ _ T7 x Hx) as E. cbn in E. rewrite E.
    rewrite F6, F5, L4, Hb3; [done|done|set_solver..].
  - pose proof (to_lists _ _ _ _ T7 (CsNode c) ltac:(intros k; split; discriminate)) as E. cbn in E.
    by rewrite E.
  - exact K7.
  - exact S7.
  - exact N7.
Qed.

Lemma created_index s s' c t cap tb : pool_inv s → 0 < s_cspace_free_count s → created s s' c t cap tb →
  0 <= c < CONFIG_MAX_CSPACES ∧ (∀ v, ¬ live_at s c v) ∧
  take (Z.to_nat (s_cspace_free_count s)) (s_cspace_free_stack s)
  = take (Z.to_nat (s_cspace_free_count s - 1)) (s_cspace_free_stack s) ++ [c].
Proof.
  intros Hp Hfc Hcr. pose proof (cr_index _ _ _ _ _ _ Hcr) as Hc. unfold zlookup in Hc.
  rewrite (proj2 (Z.leb_le _ _)) in Hc by lia.
  assert (take (Z.to_nat (s_cspace_free_count s)) (s_cspace_free_stack s)
    = take (Z.to_nat (s_cspace_free_count s - 1)) (s_cspace_free_stack s) ++ [c]) as Htake.
  { rewrite <- (take_S_r _ _ _ Hc). f_equal. lia. }
  assert (c ∈ take (Z.to_nat (s_cspace_free_count s)) (s_cspace_free_stack s)) as Hin
    by (rewrite Htake; set_solver).
  apply (pi_free _ Hp) in Hin as [? ?]. done.
Qed.

Lemma created_live s s' c t cap tb i v : pool_inv s → 0 < s_cspace_free_count s →
  created s s' c t cap tb →
  live_at s' i v ↔ (i = c ∧ v = new_cspace (s_cspace_id_counter s) t cap) ∨ live_at s i v.
Proof.
  intros Hp Hfc Hcr. destruct (created_index s s' c t cap tb Hp Hfc Hcr) as (Hr & Hnl & _).
  pose proof (pi_counter _ Hp). unfold live_at, get_cs. rewrite (cr_pool _ _ _ _ _ _ Hcr).
  destruct (decide (i = c)) as [->|Hne].
  - rewrite zlookup_insert_eq by (by rewrite (pi_pool _ Hp)). split.
    + intros [[= <-] _]. by left.
    + intros [[_ ->]|Hl]; [|by destruct (Hnl v)]. split; [done|]. split; [done|].
      cbn. unfold KOBJ_ID_INVALID. lia.
  - rewrite zlookup_insert_ne by lia. naive_solver.
Qed.

Lemma chain_frame ns ns' first cs : chain ns first cs → (∀ c, c ∈ cs → ns'.[c] = ns.[c]) →
  chain ns' first cs.
Proof.
  revert first. induction cs as [|c cs IH]; intros first; [done|]. cbn [chain].
  intros (-> & nd & Hnd & Hch) He. split; [done|]. exists nd. rewrite He by left.
  split; [done|]. apply IH; [done|]. intros c' Hc'. apply He. by right.
Qed.

Lemma created_pool_inv s s' c t cap tb : pool_inv s → 0 < s_cspace_free_count s →
  s_cspace_id_counter s + 1 < 2 ^ 32 → created s s' c t cap tb → pool_inv s'.
Proof.
  intros Hp Hfc Hid Hcr. destruct (created_index s s' c t cap tb Hp Hfc Hcr) as (Hr & Hnl & Htake).
  pose proof (created_live s s' c t cap tb) as Hlive. pose proof (cr_hash _ _ _ _ _ _ Hcr) as (first & Hf & Hh & Hns).
  set (nid := s_cspace_id_counter s) in *. set (b0 := cspace_hash_index nid) in *.
  pose proof (pi_nodup _ Hp) as Hnd. rewrite Htake in Hnd. apply NoDup_app in Hnd as (Hnd & Hni & _).
  pose proof (pi_count _ Hp). pose proof (pi_counter _ Hp) as Hctr.
  assert (0 <= b0 < CSPACE_HASH_BUCKETS) as Hb0 by apply hash_index_range.
  assert (∀ c', c' ≠ c → (s_hash_nodes s').[c'] = (s_hash_nodes s).[c']) as Hnode.
  { intros c' Hne. rewrite Hns. apply zlookup_insert_ne; [lia|done]. }
  split.
  - rewrite (cr_pool _ _ _ _ _ _ Hcr), length_insert. apply Hp.
  - rewrite (cr_stack _ _ _ _ _ _ Hcr). apply Hp.
  - rewrite Hh, length_insert. apply Hp.
  - rewrite Hns, length_insert. apply Hp.
  - rewrite (cr_count _ _ _ _ _ _ Hcr). lia.
  - by rewrite (cr_count _ _ _ _ _ _ Hcr), (cr_stack _ _ _ _ _ _ Hcr).
  - intros i. rewrite (cr_count _ _ _ _ _ _ Hcr), (cr_stack _ _ _ _ _ _ Hcr).
    pose proof (pi_free _ Hp i) as Hi. rewrite Htake, elem_of_app, list_elem_of_singleton in Hi. split.
    + intros Hin. destruct (proj1 Hi (or_introl Hin)) as [? Hno]. split; [done|].
      intros v [[-> _]|Hv]%Hlive; [|by apply (Hno v)|done..]. apply (Hni c Hin). set_solver.
    + intros [Hri Hno]. destruct (proj2 Hi) as [?| ->]; [|done|].
      { split; [done|]. intros v Hv. apply (Hno v). apply Hlive; auto. }
      exfalso. eapply Hno. apply Hlive; auto.
  - intros i v [[-> ->]|Hv]%Hlive; [| |done..]; rewrite (cr_counter _ _ _ _ _ _ Hcr), u32_small by lia.
    + cbn. lia.
    + pose proof (pi_ids _ Hp i v Hv) as Hx. fold nid in Hx. lia.
  - rewrite (cr_counter _ _ _ _ _ _ Hcr), u32_small by lia. lia.
  - intros c1 v1 c2 v2 H1 H2. apply Hlive in H1; [|done..]. apply Hlive in H2; [|done..].
    destruct H1 as [[-> ->]|H1], H2 as [[-> ->]|H2]; cbn; [done| | |by apply (pi_unique _ Hp)].
    + pose proof (pi_ids _ Hp c2 v2 H2) as Hx. fold nid in Hx. lia.
    + pose proof (pi_ids _ Hp c1 v1 H1) as Hx. fold nid in Hx. lia.
  - intros b Hb. destruct (pi_chain _ Hp b Hb) as (fb & cs & Hfb & Hch & Hndc & Hcs).
    assert (c ∉ cs) as Hcn by (intros (v & Hv & _)%Hcs; by apply (Hnl v)).
    assert (chain (s_hash_nodes s') fb cs) as Hch'.
    { eapply chain_frame; [done|]. intros c' Hc'. apply Hnode. by intros ->. }
    rewrite Hh. destruct (decide (b = b0)) as [->|Hne].
    + exists (Some c), (c :: cs). rewrite zlookup_insert_eq by (by rewrite (pi_hash _ Hp)).
      split; [done|]. split_and!.
      * cbn. split; [done|]. eexists. rewrite Hns. split; [apply zlookup_insert_eq; by rewrite (pi_nodes _ Hp)|].
        cbn. rewrite <- Hns. assert (first = fb) as -> by congruence. done.
      * by apply NoDup_cons.
      * intros c'. rewrite elem_of_cons, Hcs. split.
        -- intros [->|(v & Hv & ?)]; [eexists; split; [apply Hlive; auto|done]|].
           exists v. split; [apply Hlive; auto|done].
        -- intros (v & Hv%Hlive & Hix); [|done..]. destruct Hv as [[-> ->]|Hv]; [by left|right; eauto].
    + exists fb, cs. rewrite zlookup_insert_ne by lia. split; [done|]. split_and!; [done..|].
      intros c'. rewrite Hcs. split; intros (v & Hv & Hix); exists v; (split; [|done]).
      * apply Hlive; auto.
      * apply Hlive in Hv as [[-> ->]|Hv]; [by destruct Hne|done..].
  - intros i v [[-> ->]|Hv]%Hlive; [| |done..].
    + exists first. rewrite Hns. apply zlookup_insert_eq. by rewrite (pi_nodes _ Hp).
    + rewrite Hnode by (intros ->; by apply (Hnl v)). by apply (pi_entry _ Hp).
  - intros i Hi. destruct (pi_lists _ Hp i Hi). pose proof (cr_sub _ _ _ _ _ _ Hcr). set_solver.
  - intros i v [[-> ->]|Hv]%Hlive; [apply Hcr| |done..]. rewrite (cr_lists _ _ _ _ _ _ Hcr).
    + by apply (pi_self _ Hp i v).
    + intros k; split; discriminate.
    + discriminate.
    + intros [= ->]. by apply (Hnl v).
Qed.

(** The forest of a new CSpace: its root capability alone. *)
Lemma created_forest s s' c t cap tb : 0 < cap <= CSPACE_MAX_CAPACITY → created s s' c t cap tb →
  pforest t cap tb (lists s') (λ _, []) ∅.
Proof.
  intros Hcap Hcr.
  assert (∀ i x, valid cap tb i x ↔ i = 0 ∧ x = root_cap (s_cspace_id_counter s)) as Hv.
  { intros i x. unfold valid. split.
    - intros (Hi & Hx & Hs). destruct (decide (i = 0)) as [->|].
      + rewrite (cr_root _ _ _ _ _ _ Hcr) in Hx. by injection Hx as <-.
      + rewrite (cr_zero _ _ _ _ _ _ Hcr) in Hx by lia. by injection Hx as <-.
    - intros [-> ->]. split; [lia|]. by rewrite (cr_root _ _ _ _ _ _ Hcr). }
  split.
  - lia.
  - apply Hcr.
  - apply (cr_dom _ _ _ _ _ _ Hcr).
  - intros i x [-> _]%Hv. apply Hcr.
  - intros i x j [-> _]%Hv. split; [set_solver|]. intros [_ (y & [_ ->]%Hv & Hp)].
    cbn in Hp. unfold CAP_SLOT_INVALID in Hp. lia.
  - intros j x [-> _]%Hv _ _. apply Hcr.
  - intros j x [_ ->]%Hv _ Hp. done.
  - set_solver.
  - intros j x [_ ->]%Hv. split; [done|]. cbn. unfold CAP_MAX_DERIVE_DEPTH. lia.
Qed.

Lemma created_cap_inv a s s' c t cap tb : pool_inv s → 0 < s_cspace_free_count s →
  s_cspace_id_counter s + 1 < 2 ^ 32 → 0 < cap <= CSPACE_MAX_CAPACITY →
  cap_inv s → blocks_inv a s → t ∉ slab_live a → created s s' c t cap tb → cap_inv s'.
Proof.
  intros Hp Hfc Hid Hcap Hinv Hbl Ht Hcr.
  pose proof (created_live s s' c t cap tb) as Hlive.
  pose proof (created_pool_inv _ _ _ _ _ _ Hp Hfc Hid Hcr) as Hp'.
  split.
  - intros i v Hi Hl. destruct (proj1 (Hlive i v Hp Hfc Hcr) (conj Hi Hl)) as [[-> ->]|[Hi' _]].
    + exists t, tb, (λ _, []). split; [done|]. split; [apply Hcr|]. by eapply created_forest.
    + destruct (ci_forest _ Hinv i v Hi' Hl) as (t1 & tb1 & K1 & Ht1 & Htb1 & HF1).
      assert (t1 ≠ t) as Hne.
      { intros ->. apply Ht. by apply (Hbl i v t). }
      exists t1, tb1, K1. split; [done|]. split; [by rewrite (cr_tables _ _ _ _ _ _ Hcr)|].
      apply (forest_frame t1 (capacity v) tb1 (lists s)); [done| |].
      * apply (cr_sub _ _ _ _ _ _ Hcr).
      * intros i0. split; apply (cr_lists _ _ _ _ _ _ Hcr); try done; intros k; split; congruence.
  - intros c1 v1 c2 v2 t0 H1 L1 H2 L2 T1 T2.
    destruct (proj1 (Hlive c1 v1 Hp Hfc Hcr) (conj H1 L1)) as [[-> ->]|[H1' _]],
             (proj1 (Hlive c2 v2 Hp Hfc Hcr) (conj H2 L2)) as [[-> ->]|[H2' _]]; cbn in *; simplify_eq.
    + done.
    + destruct Ht. by apply (Hbl c2 v2 t0).
    + destruct Ht. by apply (Hbl c1 v1 t0).
    + by eapply (ci_distinct _ Hinv c1 v1 c2 v2 t0).
  - intros i v Hi Hl. destruct (proj1 (Hlive i v Hp Hfc Hcr) (conj Hi Hl)) as [[-> ->]|[Hi' _]]; [done|].
    by apply (ci_slot _ Hinv i v).
  - intros root. destruct (from_root_total s' root Hp') as (r & E & Hr). exists r. split; [done|].
    intros c0 Hc0. destruct (Hr c0 Hc0) as (v & [? ?] & _). eauto.
Qed.
End create.

(** ** Initialisation of the subsystem *)

Section init.
Context {A : Type} `{!SlabOps A, !SlabSpec A}.

Lemma init_free_stack_spec st : Z.of_nat (length st) = CONFIG_MAX_CSPACES →
  init_free_stack (Z.to_nat CONFIG_MAX_CSPACES) 0 st = Some (reverse (seqZ 0 CONFIG_MAX_CSPACES)).
Proof.
  intros Hl. assert (length st = 32%nat) as Hl' by (unfold CONFIG_MAX_CSPACES in Hl; lia). clear Hl.
  do 32 (destruct st as [|? st]; [done|]). destruct st; [|done]. vm_compute. reflexivity.
Qed.

Lemma zero_cs_nodes_spec n c h :
  (∀ i, c <= i < c + Z.of_nat n →
     CsChildren i ∈ dom (zero_cs_nodes n c h) ∧ CsNode i ∈ dom (zero_cs_nodes n c h)) ∧
  dom h ⊆ dom (zero_cs_nodes n c h).
Proof.
  revert c h. induction n as [|n IH]; intros c h; cbn [zero_cs_nodes].
  { split; [intros i ?; lia|done]. }
  set (h1 := <[CsChildren c := _]> _). destruct (IH (c + 1) h1) as [H1 H2].
  assert (CsChildren c ∈ dom h1 ∧ CsNode c ∈ dom h1 ∧ dom h ⊆ dom h1) as (Ha & Hb & Hs).
  { unfold h1. rewrite !dom_insert_L. set_solver. }
  split; [|by etrans]. intros i Hi. destruct (decide (i = c)) as [->|]; [split; by apply H2|apply H1; lia].
Qed.

Lemma cspace_subsys_init_spec (a : A) s : Z.of_nat (length (s_cspace_free_stack s)) = CONFIG_MAX_CSPACES →
  ∃ a' s' ret, cspace_subsys_init a s = Some (a', s', ret) ∧ pool_inv s' ∧ cap_inv s' ∧
    (∀ c v, ¬ live_at s' c v) ∧ s_cspace_free_count s' = CONFIG_MAX_CSPACES ∧ s_cspace_id_counter s' = 1.
Proof.
  intros Hl. unfold cspace_subsys_init. rewrite (init_free_stack_spec _ Hl). cbn [mbind option_bind].
  destruct (create_caches _ _ a) as [a' ret]. eexists a', _, ret. split; [done|].
  set (s' := KState _ _ _ _ _ _ _ _).
  assert (∀ c v, ¬ live_at s' c v) as Hno.
  { intros c v [Hc [Ht _]]. unfold get_cs, zlookup in Hc. cbn [s_cspace_pool s'] in Hc. case_if; [|done].
    apply lookup_replicate in Hc as [-> _]. done. }
  assert (pool_inv s') as Hp.
  { split; try done; cbn [s_cspace_pool s_cspace_free_stack s_cspace_free_count s_cspace_hash s_hash_nodes s'].
    - rewrite take_ge by (rewrite length_reverse, length_seqZ; lia).
      rewrite reverse_Permutation. apply NoDup_seqZ.
    - intros i. rewrite take_ge by (rewrite length_reverse, length_seqZ; lia).
      rewrite elem_of_reverse, elem_of_seqZ. split; [intros; split; [lia|apply Hno]|lia].
    - intros c v Hv. destruct (Hno c v Hv).
    - intros c1 v1 c2 v2 Hv. destruct (Hno c1 v1 Hv).
    - intros b Hb. exists None, []. split.
      + unfold zlookup. rewrite (proj2 (Z.leb_le _ _)) by lia. apply lookup_replicate_2. lia.
      + split_and!; [done|constructor|]. intros c. split; [intros []%elem_of_nil|]. intros (v & Hv & _).
        destruct (Hno c v Hv).
    - intros c v Hv. destruct (Hno c v Hv).
    - intros c Hc. apply zero_cs_nodes_spec. lia.
    - intros c v Hv. destruct (Hno c v Hv). }
  split_and!; try done. split.
  - intros c v H1 H2. destruct (Hno c v (conj H1 H2)).
  - intros c1 v1 c2 v2 t H1 L1. destruct (Hno c1 v1 (conj H1 L1)).
  - intros c v H1 H2. destruct (Hno c v (conj H1 H2)).
  - intros root. destruct (from_root_total s' root Hp) as (r & E & Hr). exists r. split; [done|].
    intros c0 Hc0. destruct (Hr c0 Hc0) as (v & Hv & _). destruct (Hno c0 v Hv).
Qed.

(** The whole system invariant. *)
Definition sys_inv (a : A) (s : kstate) : Prop := pool_inv s ∧ cap_inv s ∧ blocks_inv a s.

Lemma cspace_create_inv a s cap t raw a' : sys_inv a s → 0 < cap <= CSPACE_MAX_CAPACITY →
  0 < s_cspace_free_count s → s_cspace_id_counter s + 1 < 2 ^ 32 →
  slab_alloc (cap / 64) a = Some (t, raw, a') →
  ∃ s' c v, cspace_create cap true a s = Some (a', s', Some c, KERNEL_OK) ∧ sys_inv a' s' ∧
    live_at s' c v ∧ id (header v) = s_cspace_id_counter s ∧ capacity v = cap ∧
    cspace_from_root s' (id (header v)) = Some (Some c) ∧
    (∀ w, ¬ live_at s c w) ∧ (∀ i w, live_at s' i w ↔ (i = c ∧ w = v) ∨ live_at s i w) ∧
    ∃ tb, created s s' c t cap tb.
Proof.
  intros (Hp & Hinv & Hbl) Hcap Hfc Hid Hsl.
  destruct (cspace_create_spec a s cap t raw a' Hp Hcap Hfc Hsl) as (s' & c & tb & E & Hcr).
  destruct (slab_alloc_fresh _ _ _ _ _ Hsl) as [Hfr Hlv].
  pose proof (created_live s s' c t cap tb) as Hlive.
  pose proof (created_pool_inv _ _ _ _ _ _ Hp Hfc Hid Hcr) as Hp'.
  assert (live_at s' c (new_cspace (s_cspace_id_counter s) t cap)) as Hl by (apply Hlive; auto).
  exists s', c, (new_cspace (s_cspace_id_counter s) t cap). split; [done|]. split.
  { split; [done|]. split; [exact (created_cap_inv a s s' c t cap tb Hp Hfc Hid Hcap Hinv Hbl Hfr Hcr)|].
    intros i v t1 [[-> ->]|Hv]%Hlive Ht1; [| |done..].
    - cbn in Ht1. rewrite Hlv. set_solver.
    - rewrite Hlv. apply elem_of_union_r. by apply (Hbl i v). }
  split_and!; try done; try apply Hl.
  - by apply from_root_id.
  - by destruct (created_index _ _ _ _ _ _ Hp Hfc Hcr) as (_ & ? & _).
  - intros i w. by apply Hlive.
  - eauto.
Qed.
End init.
