(* ===== verification/CSpaceLife.v ===== *)
(** * The life of a CSpace

    Calls on capabilities keep the pool invariant of CSpaceInv, and
    [cspace_destroy] undoes [cspace_create]: it empties the table, leaves the
    hash index, gives the block back to the slab allocator and the pool entry
    to the free stack. *)

From S2P Require Import Prelude KList CapTypes CSpace Capability CapForest CapForestOps CapInv CapOps CSpaceInv.

Set Default Goal Selector "!".

#[local] Arguments set_cap : simpl never.
#[local] Arguments get_cap : simpl never.
#[local] Arguments set_cs : simpl never.
#[local] Arguments get_cs : simpl never.

(** ** Calls on capabilities *)

Section stays.
Context c t s s' (HT : touches c t s s').

Lemma touches_pool_length : length (s_cspace_pool s') = length (s_cspace_pool s).
Proof using HT.
  assert (∀ i, is_Some (s_cspace_pool s').[i] ↔ is_Some (s_cspace_pool s).[i]) as Hd.
  { intros i. split.
    - intros [v Hv]. destruct (touches_cs_inv _ _ _ _ HT i v Hv) as (w & ? & _). by exists w.
    - intros [v Hv]. destruct (touches_cs _ _ _ _ HT i v Hv) as (w & ? & _). by exists w. }
  setoid_rewrite zlookup_is_Some in Hd.
  pose proof (Hd (Z.of_nat (length (s_cspace_pool s)))) as H1.
  pose proof (Hd (Z.of_nat (length (s_cspace_pool s')))) as H2. lia.
Qed.

Lemma touches_live i v' : live_at s' i v' → ∃ v, live_at s i v ∧ same_cspace v v'.
Proof using HT.
  intros [Hv Hl]. destruct (touches_cs_inv _ _ _ _ HT i v' Hv) as (v & Hv0 & Hs).
  exists v. split; [|done]. split; [done|]. destruct Hs as [E _]. unfold live in *. by rewrite <- E.
Qed.

Lemma touches_live_back i v : live_at s i v → ∃ v', live_at s' i v' ∧ same_cspace v v'.
Proof using HT.
  intros [Hv Hl]. destruct (touches_cs _ _ _ _ HT i v Hv) as (v' & Hv' & Hs).
  exists v'. split; [|done]. split; [done|]. destruct Hs as [E _]. unfold live in *. by rewrite E.
Qed.

Lemma pool_inv_touches : pool_inv s → pool_inv s'.
Proof using HT.
  intros Hp. split.
  - rewrite touches_pool_length. apply Hp.
  - rewrite (to_stack _ _ _ _ HT). apply Hp.
  - rewrite (to_hash _ _ _ _ HT). apply Hp.
  - rewrite (to_nodes _ _ _ _ HT). apply Hp.
  - rewrite (to_count _ _ _ _ HT). apply Hp.
  - rewrite (to_count _ _ _ _ HT), (to_stack _ _ _ _ HT). apply Hp.
  - intros i. rewrite (to_count _ _ _ _ HT), (to_stack _ _ _ _ HT), (pi_free _ Hp).
    split; intros [Hi Hn]; (split; [done|]); intros v Hv.
    + destruct (touches_live _ _ Hv) as (w & Hw & _). by apply (Hn w).
    + destruct (touches_live_back _ _ Hv) as (w & Hw & _). by apply (Hn w).
  - intros i v Hv. destruct (touches_live _ _ Hv) as (w & Hw & E & _).
    rewrite E, (to_counter _ _ _ _ HT). by apply (pi_ids _ Hp i w).
  - rewrite (to_counter _ _ _ _ HT). apply Hp.
  - intros c1 v1 c2 v2 H1 H2. destruct (touches_live _ _ H1) as (w1 & Hw1 & E1 & _).
    destruct (touches_live _ _ H2) as (w2 & Hw2 & E2 & _). rewrite E1, E2. by apply (pi_unique _ Hp).
  - intros b Hb. destruct (pi_chain _ Hp b Hb) as (first & cs & Hf & Hch & Hnd & Hcs).
    exists first, cs. rewrite (to_hash _ _ _ _ HT), (to_nodes _ _ _ _ HT). split_and!; try done.
    intros i. rewrite Hcs. split; intros (v & Hv & Hix).
    + destruct (touches_live_back _ _ Hv) as (w & Hw & E & _). exists w. by rewrite E.
    + destruct (touches_live _ _ Hv) as (w & Hw & E & _). exists w. by rewrite <- E.
  - intros i v Hv. destruct (touches_live _ _ Hv) as (w & Hw & E & _).
    rewrite (to_nodes _ _ _ _ HT), E. by apply (pi_entry _ Hp).
  - intros i Hi. rewrite (to_dom _ _ _ _ HT). by apply (pi_lists _ Hp).
  - intros i v Hv. destruct (touches_live _ _ Hv) as (w & Hw & _).
    rewrite (to_lists _ _ _ _ HT) by (intros k; split; discriminate). by apply (pi_self _ Hp i w).
Qed.
End stays.

(** ** Leaving the hash index *)

(** The chain with another tail after node [p]. *)
Lemma chain_replace ns ns' first pre p tl nd tl' :
  chain ns first (pre ++ p :: tl) → (∀ c, c ∈ pre → ns'.[c] = ns.[c]) → ns'.[p] = Some nd →
  chain ns' (hnext nd) tl' → chain ns' first (pre ++ p :: tl').
Proof.
  revert first. induction pre as [|x pre IH]; intros first; cbn [chain app].
  - intros [-> _] _ Hp Htl. split; [done|]. by exists nd.
  - intros (-> & nx & Hx & Hch) He Hp Htl. split; [done|]. exists nx. rewrite He by left.
    split; [done|]. apply IH; [done| |done..]. intros c Hc. apply He. by right.
Qed.

Lemma chain_node ns first pre x rest : chain ns first (pre ++ x :: rest) →
  ∃ nd, ns.[x] = Some nd ∧ chain ns (hnext nd) rest.
Proof.
  revert first. induction pre as [|p pre IH]; intros first; cbn [app chain].
  - intros (_ & nd & ? & ?). eauto.
  - intros (_ & nd & _ & H). by eapply IH.
Qed.

(** What unregistering [c] makes of the index. *)
Record unregistered (s s' : kstate) (c b : Z) (cs : list Z) : Prop := Unregistered {
  ur_len : length (s_cspace_hash s') = length (s_cspace_hash s) ∧
           length (s_hash_nodes s') = length (s_hash_nodes s);
  ur_hash : ∀ b', b' ≠ b → (s_cspace_hash s').[b'] = (s_cspace_hash s).[b'];
  ur_chain : ∃ first', (s_cspace_hash s').[b] = Some first' ∧
    chain (s_hash_nodes s') first' (filter (λ c', c' ≠ c) cs);
  ur_nodes : ∀ c', c' ∉ cs → (s_hash_nodes s').[c'] = (s_hash_nodes s).[c'];
  ur_keys : ∀ c' k v nx, c' ≠ c → (s_hash_nodes s).[c'] = Some (HashNode k v nx) →
    ∃ nx', (s_hash_nodes s').[c'] = Some (HashNode k v nx')
}.

Section unregister.
Context s b first cs c i (Hb : 0 <= b < Z.of_nat (length (s_cspace_hash s)))
  (Hfirst : (s_cspace_hash s).[b] = Some first) (Hch : chain (s_hash_nodes s) first cs) (Hnd : NoDup cs)
  (Hkey : ∀ c' nd, c' ∈ cs → (s_hash_nodes s).[c'] = Some nd → key nd = i ↔ c' = c).

Lemma filter_ne_not_in (l : list Z) : c ∉ l → filter (λ c', c' ≠ c) l = l.
Proof. intros Hn. apply filter_id. by intros x Hx ->. Qed.

(** The node is the first of its chain. *)
Lemma unregister_first rest nd : cs = c :: rest → (s_hash_nodes s).[c] = Some nd →
  chain (s_hash_nodes s) (hnext nd) rest →
  unregistered s (upd_hash (<[Z.to_nat b := hnext nd]> (s_cspace_hash s))
    (<[Z.to_nat c := HashNode KOBJ_ID_INVALID None None]> (s_hash_nodes s)) s) c b cs.
Proof using All.
  intros Hcs Hc Hrest. pose proof (zlookup_Some_lt _ _ _ Hc) as Hcr. subst cs.
  apply NoDup_cons in Hnd as [Hcn _]. split; cbn [s_cspace_hash s_hash_nodes upd_hash].
  - by rewrite !length_insert.
  - intros b' Hb'. apply zlookup_insert_ne; lia.
  - exists (hnext nd). split; [by apply zlookup_insert_eq|].
    rewrite filter_cons_False, filter_ne_not_in by tauto.
    eapply chain_frame; [exact Hrest|]. intros q Hq. rewrite zlookup_insert_ne; [done|lia|]. by intros ->.
  - intros q Hq. rewrite zlookup_insert_ne; [done|lia|]. set_solver.
  - intros q k v nx Hq Hqs. rewrite zlookup_insert_ne by lia. eauto.
Qed.

(** The node has a predecessor [p]. *)
Lemma unregister_after pre p pn rest nd : cs = pre ++ p :: c :: rest →
  (s_hash_nodes s).[p] = Some pn → (s_hash_nodes s).[c] = Some nd →
  chain (s_hash_nodes s) (hnext nd) rest →
  unregistered s (upd_hash (s_cspace_hash s)
    (<[Z.to_nat c := HashNode KOBJ_ID_INVALID None None]>
      (<[Z.to_nat p := HashNode (key pn) (value pn) (hnext nd)]> (s_hash_nodes s))) s) c b cs.
Proof using All.
  intros Hcs Hp Hc Hrest. pose proof (zlookup_Some_lt _ _ _ Hc) as Hcr.
  pose proof (zlookup_Some_lt _ _ _ Hp) as Hpr. subst cs.
  pose proof Hnd as (_ & Hn2 & Hn3)%NoDup_app. apply NoDup_cons in Hn3 as [Hpn Hn3].
  apply NoDup_cons in Hn3 as [Hcn _]. assert (p ≠ c) as Hpc by set_solver.
  assert (c ∉ pre ∧ p ∉ pre) as [Hcp Hpp] by (split; intros H; apply (Hn2 _ H); set_solver).
  split; cbn [s_cspace_hash s_hash_nodes upd_hash].
  - by rewrite !length_insert.
  - done.
  - exists first. split; [done|].
    rewrite filter_app, filter_cons_True, filter_cons_False, !filter_ne_not_in by tauto.
    eapply (chain_replace (s_hash_nodes s)); [exact Hch| | |].
    + intros q Hq. rewrite !zlookup_insert_ne; [done|lia|..]; try lia; by intros ->.
    + rewrite zlookup_insert_ne by lia. by apply zlookup_insert_eq.
    + cbn. eapply chain_frame; [exact Hrest|]. intros q Hq.
      rewrite !zlookup_insert_ne; [done|lia|..]; try lia; intros ->; set_solver.
  - intros q Hq. rewrite !zlookup_insert_ne; [done|lia|..]; try lia; set_solver.
  - intros q k v nx Hq Hqs. rewrite zlookup_insert_ne by lia. destruct (decide (q = p)) as [->|Hqp].
    + rewrite zlookup_insert_eq by done. rewrite Hp in Hqs. injection Hqs as ->. eauto.
    + rewrite zlookup_insert_ne by lia. eauto.
Qed.

Lemma unregister_loop_spec fuel pre rest : cs = pre ++ rest → c ∈ rest → (length rest < fuel)%nat →
  ∃ s', hash_unregister_loop fuel i b (last pre) (head rest) s = Some s' ∧
        s' = upd_hash (s_cspace_hash s') (s_hash_nodes s') s ∧ unregistered s s' c b cs.
Proof using All.
  revert pre rest. induction fuel as [|fuel IH]; intros pre rest Hcs Hin Hf; [lia|].
  destruct rest as [|x rest]; [by apply elem_of_nil in Hin|]. cbn [hash_unregister_loop head].
  destruct (chain_node (s_hash_nodes s) first pre x rest) as (nd & Hx & Hrest); [by rewrite <- Hcs|].
  rewrite Hx. cbn [mbind option_bind].
  assert (x ∈ cs) as Hxc by (rewrite Hcs; set_solver).
  pose proof (Hkey x nd Hxc Hx) as Hk. pose proof (zlookup_Some_lt _ _ _ Hx) as Hxr.
  destruct (Z.eqb_spec (key nd) i) as [E|E].
  - apply Hk in E as ->. destruct (last pre) as [p|] eqn:Hlast.
    + apply last_Some in Hlast as [pre' ->]. rewrite <- app_assoc in Hcs. cbn in Hcs.
      destruct (chain_node (s_hash_nodes s) first pre' p (c :: rest)) as (pn & Hp & _); [by rewrite <- Hcs|].
      pose proof (zlookup_Some_lt _ _ _ Hp). rewrite Hp. cbn [mbind option_bind].
      rewrite zupdate_total by done. cbn [mbind option_bind s_hash_nodes upd_hash].
      rewrite zupdate_total by (by rewrite length_insert). cbn [mbind option_bind].
      eexists. split; [done|]. split; [done|]. by eapply unregister_after.
    + apply last_None in Hlast as ->. rewrite zupdate_total by done.
      cbn [mbind option_bind s_hash_nodes upd_hash]. rewrite zupdate_total by done. cbn [mbind option_bind].
      eexists. split; [done|]. split; [done|]. by eapply unregister_first.
  - assert (x ≠ c) as Hne by tauto. destruct (IH (pre ++ [x]) rest) as (s' & E' & Hu).
    + by rewrite <- app_assoc.
    + set_solver.
    + cbn in Hf. lia.
    + exists s'. split; [|done]. rewrite last_snoc in E'. rewrite <- E'. f_equal.
      destruct rest as [|y rest]; [by rewrite elem_of_cons in Hin; destruct Hin as [->|[]%elem_of_nil]|].
      destruct Hrest as [-> _]. done.
Qed.
End unregister.

(** ** Emptying the table *)

Section empty.
Context (t : Z).

(** Nodes of the table, and nodes whose pointers stay among them. *)
Definition inside (h : nodes) (a : caddr) : Prop := a ∈ dom h ∧ ¬ foreign t a.

Definition links_in (h : nodes) (x : caddr) : Prop :=
  (∀ a, nxt h x = Some a → inside h a) ∧ (∀ a, prv h x = Some a → inside h a).

(** The change of a step that only moves pointers inside the table. *)
Definition tame (h h' : nodes) : Prop :=
  dom h' = dom h ∧ (∀ a, foreign t a → h' !! a = h !! a) ∧ (∀ x, links_in h x → links_in h' x).

#[local] Instance tame_trans : Transitive tame.
Proof.
  intros h1 h2 h3 (D1 & F1 & L1) (D2 & F2 & L2). split_and!.
  - congruence.
  - intros a Ha. by rewrite F2, F1.
  - auto.
Qed.

Lemma tame_set_next h l v : inside h l → (∀ a, v = Some a → inside h a) →
  ∃ h', set_next (Some l) v h = Some h' ∧ tame h h'.
Proof.
  intros [Hl Hin] Hv. destruct (set_next_spec l v h Hl) as (h' & E & D & F & N & P).
  exists h'. split; [done|]. split_and!; [done| |].
  - intros a Ha. apply F. by intros ->.
  - intros x [Hn Hp]. unfold links_in, inside. rewrite D. setoid_rewrite P. setoid_rewrite N.
    split; [|done]. intros a. case_decide; [apply Hv|apply Hn].
Qed.

Lemma tame_set_prev h l v : inside h l → (∀ a, v = Some a → inside h a) →
  ∃ h', set_prev (Some l) v h = Some h' ∧ tame h h'.
Proof.
  intros [Hl Hin] Hv. destruct (set_prev_spec l v h Hl) as (h' & E & D & F & P & N).
  exists h'. split; [done|]. split_and!; [done| |].
  - intros a Ha. apply F. by intros ->.
  - intros x [Hn Hp]. unfold links_in, inside. rewrite D. setoid_rewrite P. setoid_rewrite N.
    split; [done|]. intros a. case_decide; [apply Hv|apply Hp].
Qed.

Lemma inside_tame h h' a : tame h h' → inside h a → inside h' a.
Proof. intros (D & _) [H ?]. split; [by rewrite D|done]. Qed.

Lemma tame_list_del h e : inside h e → links_in h e → ∃ h', list_del (Some e) h = Some h' ∧ tame h h'.
Proof.
  intros He [Hn Hp]. pose proof He as [[nd Hd]%elem_of_dom _]. unfold list_del, get_prev, get_next.
  cbn [mbind option_bind]. rewrite Hd. cbn [mbind option_bind]. unfold nxt, prv in *. rewrite Hd in *.
  cbn in Hn, Hp.
  assert (∃ h1, __list_del (prev nd) (next nd) h = Some h1 ∧ (h1 = h ∨ tame h h1)) as (h1 & E1 & T1).
  { destruct (prev nd) as [p|], (next nd) as [q|]; cbn [__list_del]; eauto.
    destruct (tame_set_prev h q (Some p)) as (h1 & E1 & T1); [by apply Hn|intros a [= <-]; by apply Hp|].
    destruct (tame_set_next h1 p (Some q)) as (h2 & E2 & T2).
    - eapply inside_tame; [done|]. by apply Hp.
    - intros a [= <-]. eapply inside_tame; [done|]. by apply Hn.
    - rewrite E1. cbn. exists h2. split; [done|]. right. by etrans. }
  rewrite E1. cbn [mbind option_bind].
  assert (inside h1 e) as He1 by (destruct T1 as [->|T1]; [done|by eapply inside_tame]).
  destruct (tame_set_next h1 e None) as (h2 & -> & T2); [done..|]. cbn [mbind option_bind].
  destruct (tame_set_prev h2 e None) as (h3 & -> & T3); [by eapply inside_tame|done|].
  exists h3. split; [done|]. destruct T1 as [->|T1]; repeat (etrans; [done|]); by etrans.
Qed.

Lemma tame_init h a : inside h a → ∃ h', INIT_LIST_HEAD (Some a) h = Some h' ∧ tame h h'.
Proof.
  intros Ha. unfold INIT_LIST_HEAD.
  destruct (tame_set_next h a (Some a)) as (h1 & -> & T1); [done|by intros ? [= <-]|]. cbn [mbind option_bind].
  destruct (tame_set_prev h1 a (Some a)) as (h2 & -> & T2);
    [by eapply inside_tame|intros ? [= <-]; by eapply inside_tame|].
  exists h2. split; [done|]. by etrans.
Qed.
End empty.

Lemma inside_children t h i : CapChildren t i ∈ dom h → inside t h (CapChildren t i).
Proof. intros H. split; [done|]. intros Hf. by destruct (Hf i). Qed.

Lemma inside_sibling t h i : CapSibling t i ∈ dom h → inside t h (CapSibling t i).
Proof. intros H. split; [done|]. intros Hf. by destruct (Hf i). Qed.

(** The sibling links of a child lie inside its table. *)
Lemma forest_links t n tb h K j x : pforest t n tb h K ∅ → valid n tb j x →
  parent_slot x ≠ CAP_SLOT_INVALID → links_in t h (CapSibling t j).
Proof.
  intros HF Hx Hp. destruct (pf_parent _ _ _ _ HF j x Hx ltac:(set_solver) Hp) as (cp & Hcp & _).
  assert (j ∈ K (parent_slot x)) as Hk.
  { apply (pf_child _ _ _ _ HF _ cp j Hcp). split; [set_solver|eauto]. }
  pose proof (pf_kids _ _ _ _ HF _ _ Hcp) as Hd.
  assert (∀ a, a ∈ CapChildren t (parent_slot x) :: (CapSibling t <$> K (parent_slot x)) → inside t h a) as Hin.
  { intros a [->|(k & -> & Hk')%list_elem_of_fmap]%elem_of_cons.
    - apply inside_children. apply (pf_dom _ _ _ _ HF). by destruct Hcp.
    - apply inside_sibling. destruct (kids_valid _ _ _ _ HF _ _ _ Hcp Hk') as (_ & ck & [? _] & _).
      by apply (pf_dom _ _ _ _ HF). }
  destruct (dll_member h _ _ (CapSibling t j) Hd) as (a & b & Ha & Hb & Hai & Hbi).
  { apply list_elem_of_fmap. eauto. }
  split; intros y Hy; apply Hin; congruence.
Qed.

(** Leaving the parent's list. *)
Lemma destroy_unlink c t i x s : CapSibling t i ∈ dom (lists s) →
  (parent_slot x ≠ CAP_SLOT_INVALID → links_in t (lists s) (CapSibling t i)) →
  ∃ s', (if negb (parent_slot x =? CAP_SLOT_INVALID)
         then on_lists (list_del (Some (CapSibling t i))) s else Some s) = Some s' ∧
    touches c t s s' ∧ tables s' = tables s ∧ s_cspace_pool s' = s_cspace_pool s ∧
    (∀ a, links_in t (lists s) a → links_in t (lists s') a).
Proof.
  intros Hd Hl. destruct (Z.eqb_spec (parent_slot x) CAP_SLOT_INVALID) as [|Hp]; cbn [negb].
  { exists s. by split_and!. }
  destruct (tame_list_del t (lists s) (CapSibling t i)) as (h & E & D & F & K);
    [by apply inside_sibling|by apply Hl|].
  destruct (on_lists_at c t s (list_del (Some (CapSibling t i))) h E D F) as (s' & -> & T & B & L & P).
  exists s'. split_and!; try done. by rewrite L.
Qed.

(** One iteration on a VALID slot. *)
Lemma destroy_cap_spec c t i x s tb : tables s !! t = Some tb → 0 <= i < Z.of_nat (length tb) →
  CapChildren t i ∈ dom (lists s) → CapSibling t i ∈ dom (lists s) →
  (parent_slot x ≠ CAP_SLOT_INVALID → links_in t (lists s) (CapSibling t i)) →
  ∃ s', (s ← (if negb (parent_slot x =? CAP_SLOT_INVALID)
              then on_lists (list_del (Some (CapSibling t i))) s else Some s);
         s ← init_children t i s; set_cap t i (set_state CAP_STATE_FREE x) s) = Some s' ∧
    touches c t s s' ∧ s_cspace_pool s' = s_cspace_pool s ∧
    tables s' !! t = Some (<[Z.to_nat i := set_state CAP_STATE_FREE x]> tb) ∧
    (∀ a, links_in t (lists s) a → links_in t (lists s') a).
Proof.
  intros Htb Hi Hc Hs Hl. destruct (destroy_unlink c t i x s Hs Hl) as (s1 & -> & T1 & B1 & P1 & K1).
  cbn [mbind option_bind].
  destruct (tame_init t (lists s1) (CapChildren t i)) as (h2 & E2 & D2 & F2 & K2).
  { apply inside_children. by rewrite (to_dom _ _ _ _ T1). }
  destruct (on_lists_at c t s1 (INIT_LIST_HEAD (Some (CapChildren t i))) h2 E2 D2 F2)
    as (s2 & Es2 & T2 & B2 & L2 & P2).
  unfold init_children. rewrite Es2. cbn [mbind option_bind].
  destruct (set_cap_at c s2 t tb i (set_state CAP_STATE_FREE x)) as (s3 & -> & T3 & B3 & L3 & P3);
    [congruence|lia|].
  exists s3. split; [done|]. split; [by do 2 (etrans; [done|])|]. split; [congruence|]. split; [done|].
  intros a Ha. rewrite L3, L2. by apply K2, K1.
Qed.

Lemma destroy_caps_spec c t n i s tb : 0 <= i → tables s !! t = Some tb →
  i + Z.of_nat n <= Z.of_nat (length tb) →
  (∀ j, i <= j < i + Z.of_nat n → CapChildren t j ∈ dom (lists s) ∧ CapSibling t j ∈ dom (lists s)) →
  (∀ j x, i <= j < i + Z.of_nat n → tb.[j] = Some x → state x = CAP_STATE_VALID →
     parent_slot x ≠ CAP_SLOT_INVALID → links_in t (lists s) (CapSibling t j)) →
  ∃ s', destroy_caps n t i s = Some s' ∧ touches c t s s' ∧ s_cspace_pool s' = s_cspace_pool s.
Proof.
  revert i s tb. induction n as [|n IH]; intros i s tb Hi Htb Hlen Hdom Hlink; cbn [destroy_caps].
  { exists s. by split_and!. }
  destruct (proj2 (zlookup_is_Some tb i)) as [x Hx]; [lia|].
  rewrite (get_cap_at s t tb) by done. rewrite Hx. cbn [mbind option_bind].
  destruct (Hdom i ltac:(lia)) as [Hc Hs]. case_bool_decide as Hst; cbn [mbind option_bind].
  - destruct (destroy_cap_spec c t i x s tb Htb ltac:(lia) Hc Hs) as (s1 & E1 & T1 & P1 & B1 & K1).
    { intros Hp. apply (Hlink i x); [lia|done..]. }
    rewrite E1. cbn [mbind option_bind].
    destruct (IH (i + 1) s1 _ ltac:(lia) B1) as (s2 & E2 & T2 & P2); [rewrite length_insert; lia| | |].
    + intros j Hj. rewrite (to_dom _ _ _ _ T1). apply Hdom. lia.
    + intros j y Hj Hy Hst' Hp. apply K1. rewrite zlookup_insert_ne in Hy by lia.
      apply (Hlink j y); [lia|done..].
    + exists s2. split; [done|]. split; [by etrans|congruence].
  - apply (IH (i + 1) s tb); [lia|done|lia| |].
    + intros j Hj. apply Hdom. lia.
    + intros j y Hj. apply Hlink. lia.
Qed.

(** ** Destruction *)

Section destroy.
Context {A : Type} `{!SlabOps A, !SlabSpec A}.

(** What [cspace_destroy] changes. *)
Record destroyed (s s' : kstate) (c t : Z) : Prop := Destroyed {
  de_pool : s_cspace_pool s' = <[Z.to_nat c := cspace_zero]> (s_cspace_pool s);
  de_stack : s_cspace_free_stack s' = <[Z.to_nat (s_cspace_free_count s) := c]> (s_cspace_free_stack s);
  de_count : s_cspace_free_count s' = s_cspace_free_count s + 1;
  de_counter : s_cspace_id_counter s' = s_cspace_id_counter s;
  de_tables : ∀ t', t' ≠ t → tables s' !! t' = tables s !! t';
  de_dom : dom (lists s') = dom (lists s);
  de_lists : ∀ x, foreign t x → x ≠ CsChildren c → x ≠ CsNode c → lists s' !! x = lists s !! x
}.

(** A live CSpace leaves room on the free stack. *)
Lemma pool_room s c v : pool_inv s → live_at s c v → s_cspace_free_count s < CONFIG_MAX_CSPACES.
Proof.
  intros Hp Hl. pose proof (pi_count _ Hp). pose proof (live_range _ _ _ Hp Hl).
  assert (c ∉ take (Z.to_nat (s_cspace_free_count s)) (s_cspace_free_stack s)) as Hc
    by (intros [_ Hn]%(pi_free _ Hp); by apply (Hn v)).
  assert (NoDup (c :: take (Z.to_nat (s_cspace_free_count s)) (s_cspace_free_stack s))) as Hnd
    by (apply NoDup_cons; split; [done|apply Hp]).
  apply nodup_pool_length in Hnd.
  - cbn in Hnd. rewrite length_take in Hnd. pose proof (pi_stack _ Hp). unfold hash_fuel in Hnd. lia.
  - intros c' [->|Hc']%elem_of_cons; [done|]. by apply (pi_free _ Hp).
Qed.

(** Unregistering the live CSpace [c] of [s] under its own id, in a state with
    the index of [s]. *)
Lemma hash_unregister_spec s s0 c v : pool_inv s → live_at s c v →
  s_cspace_hash s0 = s_cspace_hash s → s_hash_nodes s0 = s_hash_nodes s →
  ∃ s' cs, cspace_hash_unregister (id (header v)) s0 = Some s' ∧
    s' = upd_hash (s_cspace_hash s') (s_hash_nodes s') s0 ∧
    (∀ c', c' ∈ cs ↔ ∃ v', live_at s c' v' ∧
       cspace_hash_index (id (header v')) = cspace_hash_index (id (header v))) ∧ NoDup cs ∧
    unregistered s s' c (cspace_hash_index (id (header v))) cs.
Proof.
  intros Hp Hl Hh Hns. set (b := cspace_hash_index (id (header v))).
  pose proof (hash_index_range (id (header v))) as Hb. fold b in Hb.
  destruct (pi_chain _ Hp b Hb) as (first & cs & Hf & Hch & Hnd & Hcs).
  unfold cspace_hash_unregister. fold b. rewrite Hh, Hf. cbn [mbind option_bind].
  destruct (unregister_loop_spec s0 b first cs c (id (header v))) with (fuel := hash_fuel) (pre := @nil Z) (rest := cs)
    as (s' & E & Hr & Hu); [by rewrite Hh, (pi_hash _ Hp)|by rewrite Hh|by rewrite Hns|done| |done| | |].
  - intros c' nd Hc' Hn. rewrite Hns in Hn. apply Hcs in Hc' as (v' & Hv' & _).
    destruct (pi_entry _ Hp c' v' Hv') as (nx & E). rewrite E in Hn. injection Hn as <-. cbn [key].
    split; [by apply (pi_unique _ Hp c' v' c v)|]. intros ->. destruct Hv' as [H1 _], Hl as [H2 _].
    congruence.
  - apply Hcs. eauto.
  - apply nodup_pool_length; [done|]. intros c0 (v0 & Hv0 & _)%Hcs. by eapply live_range.
  - exists s', cs. split; [|split; [done|split; [done|split; [done|]]]].
    + rewrite <- E. f_equal. destruct cs as [|c0 cs]; [done|]. by destruct Hch as [-> _].
    + destruct Hu as [U1 U2 U3 U4 U5]. rewrite Hh, Hns in *. by split.
Qed.

Lemma list_del_self_node (h : nodes) l : h !! l = Some (LH (Some l) (Some l)) →
  list_del (Some l) h = Some (<[l := LH None None]> h).
Proof.
  intros E. unfold list_del, get_prev, get_next, __list_del, set_prev, set_next. simpl. rewrite E. simpl.
  rewrite !E. simpl. rewrite !lookup_insert_eq. simpl. rewrite !insert_insert_eq, lookup_insert_eq. simpl.
  rewrite !insert_insert_eq, ?lookup_insert_eq. simpl. by rewrite ?insert_insert_eq.
Qed.

Lemma pool_free_spec s c : 0 <= c < CONFIG_MAX_CSPACES → 0 <= s_cspace_free_count s < CONFIG_MAX_CSPACES →
  Z.of_nat (length (s_cspace_pool s)) = CONFIG_MAX_CSPACES →
  Z.of_nat (length (s_cspace_free_stack s)) = CONFIG_MAX_CSPACES →
  cspace_pool_free (Some c) s = Some (KState (<[Z.to_nat c := cspace_zero]> (s_cspace_pool s))
    (<[Z.to_nat (s_cspace_free_count s) := c]> (s_cspace_free_stack s)) (s_cspace_free_count s + 1)
    (s_cspace_id_counter s) (s_cspace_hash s) (s_hash_nodes s) (tables s)
    (<[CsChildren c := LH None None]> (<[CsNode c := LH None None]> (lists s)))).
Proof.
  intros Hc Hn Hp Hs. unfold cspace_pool_free. rewrite !Z.geb_leb, !(proj2 (Z.leb_gt _ _)) by lia.
  unfold set_cs. rewrite zupdate_total by lia. cbn [mbind option_bind].
  cbn [s_cspace_free_stack s_cspace_free_count upd_lists upd_pool lists]. rewrite zupdate_total by lia.
  cbn [mbind option_bind]. rewrite u32_small by (unfold CONFIG_MAX_CSPACES in *; lia). done.
Qed.

(** The block goes back, the entry is wiped and pushed, the index forgets it. *)
Lemma cspace_destroy_spec a s c v t : pool_inv s → cap_inv s → live_at s c v → cap_table v = Some t →
  ∃ s' cs, cspace_destroy (Some c) a s = Some (slab_free (capacity v / 64) t a, s') ∧
    destroyed s s' c t ∧
    (∀ c', c' ∈ cs ↔ ∃ v', live_at s c' v' ∧
       cspace_hash_index (id (header v')) = cspace_hash_index (id (header v))) ∧ NoDup cs ∧
    unregistered s s' c (cspace_hash_index (id (header v))) cs.
Proof.
  intros Hp Hinv Hl Ht. pose proof Hl as [Hc Hlv]. pose proof (live_range _ _ _ Hp Hl) as Hr.
  pose proof (pool_room _ _ _ Hp Hl) as Hroom. pose proof (pi_count _ Hp) as Hcnt.
  destruct (ci_forest _ Hinv c v Hc Hlv) as (t' & tb & K & Ht' & Htb & HF).
  assert (t' = t) as -> by congruence. pose proof (pf_n _ _ _ _ HF). pose proof (pf_len _ _ _ _ HF).
  unfold cspace_destroy. rewrite Hc. cbn [mbind option_bind]. rewrite Ht.
  assert (∃ s1, (if capacity v =? 0 then Some s
     else t ← Some t; destroy_caps (Z.to_nat (capacity v)) t 0 s) = Some s1 ∧ touches c t s s1 ∧
     s_cspace_pool s1 = s_cspace_pool s) as (s1 & -> & T1 & P1).
  { case_if; [by exists s|]. cbn [mbind option_bind].
    apply (destroy_caps_spec c t (Z.to_nat (capacity v)) 0 s tb); [lia|done|lia| |].
    - intros j Hj. apply (pf_dom _ _ _ _ HF). lia.
    - intros j x Hj Hx Hst Hpar. eapply forest_links; [done| |done]. split; [lia|done]. }
  cbn [mbind option_bind cap_table capacity header]. pose proof (pool_inv_touches _ _ _ _ T1 Hp) as Hp1.
  assert (live_at s1 c v) as Hl1 by (split; [unfold get_cs; rewrite P1; exact Hc|done]).
  unfold set_cs at 1. rewrite zupdate_total by (rewrite (pi_pool _ Hp1); lia). cbn [mbind option_bind].
  set (s2 := upd_pool _ s1).
  rewrite (on_lists_Some _ s2 _ (list_del_self_node (lists s2) (CsNode c) (pi_self _ Hp1 c v Hl1))).
  cbn [mbind option_bind]. set (s3 := upd_lists _ s2).
  destruct (INIT_LIST_HEAD_effect (CsChildren c) (lists s3)) as (h4 & E4 & [D4 F4] & _).
  { cbn. rewrite dom_insert_L. apply elem_of_union_r. by apply (pi_lists _ Hp1). }
  rewrite (on_lists_Some _ s3 h4 E4). cbn [mbind option_bind].
  set (s4 := upd_lists h4 s3).
  destruct (hash_unregister_spec s s4 c v Hp Hl) as (s5 & cs & E5 & R5 & Hcs & Hnd & Hu);
    [apply (to_hash _ _ _ _ T1)|apply (to_nodes _ _ _ _ T1)|].
  rewrite E5. cbn [mbind option_bind].
  assert (s_cspace_free_count s5 = s_cspace_free_count s) as N5 by (rewrite R5; apply (to_count _ _ _ _ T1)).
  assert (s_cspace_free_stack s5 = s_cspace_free_stack s) as S5 by (rewrite R5; apply (to_stack _ _ _ _ T1)).
  assert (s_cspace_pool s5 = s_cspace_pool s2) as P5 by (by rewrite R5).
  assert (lists s5 = h4) as L5 by (by rewrite R5).
  rewrite (pool_free_spec (remove_block t s5) c);
    cbn [remove_block upd_tables s_cspace_pool s_cspace_free_stack s_cspace_free_count s_cspace_id_counter lists].
  2: done. 2: lia. 2: rewrite P5; cbn; by rewrite length_insert, P1, (pi_pool _ Hp). 2: rewrite S5; apply Hp.
  cbn [mbind option_bind]. eexists _, cs. split; [done|].
  split; [split; cbn|split; [done|split; [done|by destruct Hu]]].
  - rewrite P5. cbn. by rewrite list_insert_insert_eq, P1.
  - by rewrite S5, N5.
  - by rewrite N5.
  - rewrite R5. apply (to_counter _ _ _ _ T1).
  - intros t' Hne. rewrite lookup_delete_ne by done. rewrite R5. cbn. by apply (to_tables _ _ _ _ T1).
  - rewrite L5, !dom_insert_L, D4. cbn. rewrite dom_insert_L, (to_dom _ _ _ _ T1).
    destruct (pi_lists _ Hp c Hr). set_solver.
  - intros x Hx H1 H2. rewrite !lookup_insert_ne by done. rewrite L5, F4 by set_solver. cbn.
    rewrite lookup_insert_ne by done. by apply (to_lists _ _ _ _ T1).
Qed.

Section after.
Context s s' c t v cs (Hp : pool_inv s) (Hl : live_at s c v) (Hd : destroyed s s' c t)
  (Hcs : ∀ c', c' ∈ cs ↔ ∃ v', live_at s c' v' ∧
     cspace_hash_index (id (header v')) = cspace_hash_index (id (header v)))
  (Hnd : NoDup cs) (Hu : unregistered s s' c (cspace_hash_index (id (header v))) cs).

Lemma destroyed_live i w : live_at s' i w ↔ i ≠ c ∧ live_at s i w.
Proof using Hp Hl Hd.
  pose proof (live_range _ _ _ Hp Hl) as Hr. unfold live_at, get_cs. rewrite (de_pool _ _ _ _ Hd).
  destruct (decide (i = c)) as [->|Hne].
  - rewrite zlookup_insert_eq by (by rewrite (pi_pool _ Hp)). split; [|tauto]. by intros [[= <-] [? _]].
  - rewrite zlookup_insert_ne by lia. tauto.
Qed.

Lemma destroyed_stack :
  take (Z.to_nat (s_cspace_free_count s')) (s_cspace_free_stack s')
  = take (Z.to_nat (s_cspace_free_count s)) (s_cspace_free_stack s) ++ [c].
Proof using Hp Hl Hd.
  pose proof (pool_room _ _ _ Hp Hl). pose proof (pi_count _ Hp). pose proof (pi_stack _ Hp).
  rewrite (de_count _ _ _ _ Hd), (de_stack _ _ _ _ Hd).
  replace (Z.to_nat (s_cspace_free_count s + 1)) with (S (Z.to_nat (s_cspace_free_count s))) by lia.
  rewrite (take_S_r _ _ c) by (apply list_lookup_insert_eq; lia). by rewrite take_insert_ge by lia.
Qed.

(** The chain of bucket [b] afterwards. *)
Lemma destroyed_chain b : 0 <= b < CSPACE_HASH_BUCKETS → ∃ first cs',
  (s_cspace_hash s').[b] = Some first ∧ chain (s_hash_nodes s') first cs' ∧ NoDup cs' ∧
  ∀ c', c' ∈ cs' ↔ ∃ v', live_at s' c' v' ∧ cspace_hash_index (id (header v')) = b.
Proof using All.
  intros Hb. destruct (decide (b = cspace_hash_index (id (header v)))) as [->|Hne].
  - destruct (ur_chain _ _ _ _ _ Hu) as (first & Hf & Hch). exists first, (filter (λ c', c' ≠ c) cs).
    split; [done|]. split; [done|]. split; [by apply NoDup_filter|]. intros c'.
    rewrite list_elem_of_filter, Hcs. setoid_rewrite destroyed_live. naive_solver.
  - destruct (pi_chain _ Hp b Hb) as (first & cs' & Hf & Hch & Hnd' & Hcs').
    exists first, cs'. rewrite (ur_hash _ _ _ _ _ Hu) by done. split; [done|].
    assert (∀ c', c' ∈ cs' → c' ∉ cs) as Hdis.
    { intros c' (w & [Hw _] & E)%Hcs' (w' & [Hw' _] & E')%Hcs. congruence. }
    split; [|split; [done|]].
    + eapply chain_frame; [done|]. intros c' Hc'. apply (ur_nodes _ _ _ _ _ Hu). by apply Hdis.
    + intros c'. rewrite Hcs'. setoid_rewrite destroyed_live. split; [|naive_solver].
      intros (w & Hw & E). exists w. split; [|done]. split; [|done]. intros ->.
      destruct Hw as [Hw _], Hl as [Hv _]. congruence.
Qed.

Lemma destroyed_pool_inv : pool_inv s'.
Proof using All.
  pose proof (pool_room _ _ _ Hp Hl). pose proof (pi_count _ Hp). split.
  - rewrite (de_pool _ _ _ _ Hd), length_insert. apply Hp.
  - rewrite (de_stack _ _ _ _ Hd), length_insert. apply Hp.
  - destruct (ur_len _ _ _ _ _ Hu) as [-> _]. apply Hp.
  - destruct (ur_len _ _ _ _ _ Hu) as [_ ->]. apply Hp.
  - rewrite (de_count _ _ _ _ Hd). lia.
  - rewrite destroyed_stack. apply NoDup_app. split; [apply Hp|]. split; [|apply NoDup_singleton].
    intros x [_ Hx]%(pi_free _ Hp) ->%list_elem_of_singleton. by apply (Hx v).
  - intros i. rewrite destroyed_stack, elem_of_app, list_elem_of_singleton, (pi_free _ Hp).
    setoid_rewrite destroyed_live. split.
    + intros [[? Hn]| ->]; [split; [done|]; naive_solver|]. split; [by eapply live_range|]. naive_solver.
    + intros [? Hn]. destruct (decide (i = c)); naive_solver.
  - intros i w [_ Hw]%destroyed_live. rewrite (de_counter _ _ _ _ Hd). by apply (pi_ids _ Hp i).
  - rewrite (de_counter _ _ _ _ Hd). apply Hp.
  - intros c1 v1 c2 v2 [_ H1]%destroyed_live [_ H2]%destroyed_live. by apply (pi_unique _ Hp).
  - apply destroyed_chain.
  - intros i w [Hne Hw]%destroyed_live. destruct (pi_entry _ Hp i w Hw) as (nx & E).
    by apply (ur_keys _ _ _ _ _ Hu i _ _ nx).
  - intros i Hi. rewrite (de_dom _ _ _ _ Hd). by apply (pi_lists _ Hp).
  - intros i w [Hne Hw]%destroyed_live. rewrite (de_lists _ _ _ _ Hd).
    + by apply (pi_self _ Hp i w).
    + intros k; split; discriminate.
    + discriminate.
    + congruence.
Qed.

Context (Hinv : cap_inv s) (Ht : cap_table v = Some t).

(** The tables of the other CSpaces are as they were. *)
Lemma destroyed_forest i w t1 tb1 K : i ≠ c → live_at s i w → forest_at s w t1 tb1 K ∅ →
  forest_at s' w t1 tb1 K ∅.
Proof using Hd Hl Hinv Ht.
  intros Hne [Hw Hlw] (Ht1 & Htb1 & HF). destruct Hl as [Hc Hlv].
  assert (t1 ≠ t) as Hnt.
  { intros ->. apply Hne. by eapply (ci_distinct _ Hinv i w c v). }
  split; [done|]. split; [by rewrite (de_tables _ _ _ _ Hd)|].
  apply (forest_frame t1 (capacity w) tb1 (lists s)); [done|by rewrite (de_dom _ _ _ _ Hd)|].
  intros k. split; apply (de_lists _ _ _ _ Hd); try done; intros j; split; congruence.
Qed.

Lemma destroyed_cap_inv : cap_inv s'.
Proof using All.
  pose proof destroyed_pool_inv as Hp'. split.
  - intros i w Hi Hw. destruct (proj1 (destroyed_live i w) (conj Hi Hw)) as [Hne Hl0].
    destruct (ci_forest _ Hinv i w) as (t1 & tb1 & K & HF); [apply Hl0..|].
    exists t1, tb1, K. by apply (destroyed_forest i).
  - intros c1 v1 c2 v2 t0 H1 L1 H2 L2.
    destruct (proj1 (destroyed_live c1 v1) (conj H1 L1)) as [_ [? ?]].
    destruct (proj1 (destroyed_live c2 v2) (conj H2 L2)) as [_ [? ?]]. by apply (ci_distinct _ Hinv).
  - intros i w Hi Hw. destruct (proj1 (destroyed_live i w) (conj Hi Hw)) as [_ [? ?]].
    by apply (ci_slot _ Hinv i w).
  - intros root. destruct (from_root_total s' root Hp') as (r & E & Hr). exists r. split; [done|].
    intros c0 Hc0. destruct (Hr c0 Hc0) as (w & [? ?] & _). eauto.
Qed.

Lemma destroyed_caps c0 i y : cap_at s' c0 i y ↔ c0 ≠ c ∧ cap_at s c0 i y.
Proof using Hp Hl Hd Hinv Ht.
  split.
  - intros (w & t1 & tb1 & Hw & Hlw & Ht1 & Htb1 & Hy).
    destruct (proj1 (destroyed_live c0 w) (conj Hw Hlw)) as [Hne Hl0]. split; [done|].
    destruct (ci_forest _ Hinv c0 w) as (t2 & tb2 & K & HF); [apply Hl0..|].
    destruct (destroyed_forest c0 w t2 tb2 K Hne Hl0 HF) as (? & ? & _).
    assert (t1 = t2) as -> by congruence. assert (tb1 = tb2) as -> by congruence.
    destruct Hl0, HF as (? & ? & _). by exists w, t2, tb2.
  - intros [Hne (w & t1 & tb1 & Hw & Hlw & Ht1 & Htb1 & Hy)].
    destruct (proj2 (destroyed_live c0 w) (conj Hne (conj Hw Hlw))) as [? ?].
    destruct (ci_forest _ Hinv c0 w Hw Hlw) as (t2 & tb2 & K & HF).
    destruct (destroyed_forest c0 w t2 tb2 K Hne (conj Hw Hlw) HF) as (? & ? & _). destruct HF as (? & ? & _).
    assert (t1 = t2) as -> by congruence. assert (tb1 = tb2) as -> by congruence. by exists w, t2, tb2.
Qed.
End after.

Lemma cspace_destroy_inv a s c v : sys_inv a s → live_at s c v →
  ∃ a' s', cspace_destroy (Some c) a s = Some (a', s') ∧ sys_inv a' s' ∧
    s_cspace_free_count s' = s_cspace_free_count s + 1 ∧
    s_cspace_id_counter s' = s_cspace_id_counter s ∧
    (∀ i w, live_at s' i w ↔ i ≠ c ∧ live_at s i w) ∧
    (∀ c0 i y, cap_at s' c0 i y ↔ c0 ≠ c ∧ cap_at s c0 i y).
Proof.
  intros (Hp & Hinv & Hbl) Hl. pose proof Hl as [Hc Hlv].
  destruct (ci_forest _ Hinv c v Hc Hlv) as (t & tb & K & Ht & _).
  destruct (cspace_destroy_spec a s c v t Hp Hinv Hl Ht) as (s' & cs & E & Hd & Hcs & Hnd & Hu).
  exists (slab_free (capacity v / 64) t a), s'. split; [done|].
  pose proof (destroyed_live s s' c t v Hp Hl Hd) as Hlive. split; [|split_and!].
  - split; [by eapply destroyed_pool_inv|]. split; [by eapply destroyed_cap_inv|].
    intros i w t1 [Hne [Hw Hlw]]%Hlive Ht1. rewrite slab_free_live by (by apply (Hbl c v)).
    apply elem_of_difference. split; [by apply (Hbl i w)|].
    rewrite elem_of_singleton. intros ->. apply Hne. by eapply (ci_distinct _ Hinv i w c v).
  - apply Hd.
  - apply Hd.
  - done.
  - intros c0 i y. by eapply destroyed_caps.
Qed.
End destroy.

(** ** Failed creation *)

Section failed.
Context {A : Type} `{!SlabOps A, !SlabSpec A}.

(** A dead entry was wiped and an id was used up. *)
Record wiped_entry (s s' : kstate) (c : Z) : Prop := WipedEntry {
  we_dead : ∀ v, ¬ live_at s c v;
  we_range : 0 <= c < CONFIG_MAX_CSPACES;
  we_pool : s_cspace_pool s' = <[Z.to_nat c := cspace_zero]> (s_cspace_pool s);
  we_stack : s_cspace_free_stack s' = s_cspace_free_stack s;
  we_count : s_cspace_free_count s' = s_cspace_free_count s;
  we_counter : s_cspace_id_counter s' = s_cspace_id_counter s + 1 ∧ s_cspace_id_counter s' < 2 ^ 32;
  we_hash : s_cspace_hash s' = s_cspace_hash s;
  we_nodes : s_hash_nodes s' = s_hash_nodes s;
  we_tables : tables s' = tables s;
  we_dom : dom (lists s') = dom (lists s);
  we_lists : ∀ x, x ≠ CsChildren c → x ≠ CsNode c → lists s' !! x = lists s !! x
}.

Section keep.
Context s s' c (Hp : pool_inv s) (Hw : wiped_entry s s' c).

Lemma wiped_live i v : live_at s' i v ↔ live_at s i v.
Proof using Hp Hw.
  pose proof (we_range _ _ _ Hw). unfold live_at, get_cs. rewrite (we_pool _ _ _ Hw).
  destruct (decide (i = c)) as [->|Hne].
  - rewrite zlookup_insert_eq by (by rewrite (pi_pool _ Hp)). split; [by intros [[= <-] [? _]]|].
    intros Hv. by destruct (we_dead _ _ _ Hw v).
  - by rewrite zlookup_insert_ne by lia.
Qed.

Lemma wiped_pool_inv : pool_inv s'.
Proof using Hp Hw.
  pose proof Hw as [Hd Hr E1 E2 E3 E4 E5 E6 E7 E8 E9]. pose proof Hp as [P1 P2 P3 P4 P5 P6 P7 P8 P9 P10 P11 P12 P13 P14].
  split; rewrite ?E1, ?E2, ?E3, ?E5, ?E6, ?E8, ?length_insert; try done.
  - intros i. rewrite P7. by setoid_rewrite wiped_live.
  - intros i v Hv%wiped_live. specialize (P8 i v Hv). lia.
  - lia.
  - intros c1 v1 c2 v2 ?%wiped_live ?%wiped_live. by apply P10.
  - intros b Hb. setoid_rewrite wiped_live. by apply P11.
  - intros i v ?%wiped_live. by apply P12.
  - intros i v Hv%wiped_live. rewrite E9; [by apply (P14 i v)|discriminate|].
    intros [= ->]. by apply (Hd v).
Qed.

Lemma wiped_cap_inv : cap_inv s → cap_inv s'.
Proof using Hp Hw.
  intros Hinv. pose proof wiped_live as Hlive. split.
  - intros i v Hi Hv. destruct (proj1 (Hlive i v) (conj Hi Hv)) as [? ?].
    destruct (ci_forest _ Hinv i v) as (t & tb & K & Ht & Htb & HF); [done..|].
    exists t, tb, K. split; [done|]. split; [by rewrite (we_tables _ _ _ Hw)|].
    apply (forest_frame t (capacity v) tb (lists s)); [done|by rewrite (we_dom _ _ _ Hw)|].
    intros k. split; by apply (we_lists _ _ _ Hw).
  - intros c1 v1 c2 v2 t H1 L1 H2 L2. destruct (proj1 (Hlive c1 v1) (conj H1 L1)), (proj1 (Hlive c2 v2) (conj H2 L2)).
    by apply (ci_distinct _ Hinv).
  - intros i v Hi Hv. destruct (proj1 (Hlive i v) (conj Hi Hv)). by apply (ci_slot _ Hinv i v).
  - intros root. destruct (from_root_total s' root wiped_pool_inv) as (r & E & Hr). exists r. split; [done|].
    intros c0 Hc0. destruct (Hr c0 Hc0) as (v & [? ?] & _). eauto.
Qed.
End keep.

(** Every way [cspace_create] can fail; only running out of slab memory touches
    the state, and then without effect on any CSpace. *)
Lemma cspace_create_fails a s cap : pool_inv s → 0 <= cap → s_cspace_id_counter s + 1 < 2 ^ 32 →
  (cap = 0 ∨ CSPACE_MAX_CAPACITY < cap ∨ s_cspace_free_count s = 0 ∨ slab_alloc (cap / 64) a = None) →
  ∃ s' ret, cspace_create cap true a s = Some (a, s', None, ret) ∧ (ret = - EINVAL ∨ ret = - ENOMEM) ∧
    (s' = s ∨ ∃ c, wiped_entry s s' c).
Proof.
  intros Hp Hcap Hid Hwhy. unfold cspace_create. cbn [negb]. rewrite Z.gtb_ltb.
  destruct (Z.eqb_spec cap 0); cbn [orb]; [by exists s, (- EINVAL); auto|].
  destruct (Z.ltb_spec CSPACE_MAX_CAPACITY cap); [by exists s, (- EINVAL); auto|].
  unfold cspace_pool_alloc. pose proof (pi_count _ Hp) as Hcnt.
  destruct (Z.eqb_spec (s_cspace_free_count s) 0) as [|Hfc]; cbn [mbind option_bind]; [by exists s, (- ENOMEM); auto|].
  destruct Hwhy as [?|[?|[?|Hsl]]]; [done|lia|done|]. unfold CONFIG_MAX_CSPACES in Hcnt.
  rewrite (u32_small (s_cspace_free_count s - 1)) by lia.
  destruct (proj2 (zlookup_is_Some (s_cspace_free_stack s) (s_cspace_free_count s - 1))) as [c Hc].
  { rewrite (pi_stack _ Hp). unfold CONFIG_MAX_CSPACES. lia. }
  rewrite Hc. cbn [mbind option_bind]. change (negb (KERNEL_OK =? KERNEL_OK)) with false. cbv iota.
  assert (0 <= c < CONFIG_MAX_CSPACES ∧ ∀ v, ¬ live_at s c v) as [Hcr Hdead].
  { apply (pi_free _ Hp c). unfold zlookup in Hc. rewrite (proj2 (Z.leb_le _ _)) in Hc by lia.
    apply list_elem_of_lookup. exists (Z.to_nat (s_cspace_free_count s - 1)). by rewrite lookup_take_lt by lia. }
  set (s1 := upd_counter _ _). change (get_cs s1 c) with (s_cspace_pool s).[c].
  destruct (proj2 (zlookup_is_Some (s_cspace_pool s) c)) as [old Hold]; [by rewrite (pi_pool _ Hp)|].
  rewrite Hold. cbn [mbind option_bind]. rewrite Hsl. unfold set_cs.
  rewrite zupdate_total by (cbn; by rewrite (pi_pool _ Hp)). cbn [mbind option_bind].
  rewrite (pool_free_spec _ c); cbn [s1 upd_pool upd_counter upd_free s_cspace_pool s_cspace_free_count s_cspace_free_stack
    s_cspace_id_counter s_cspace_hash s_hash_nodes tables lists].
  2: done. 2: unfold CONFIG_MAX_CSPACES; lia. 2: rewrite length_insert; apply Hp. 2: apply Hp.
  cbn [mbind option_bind]. eexists _, _. split; [done|]. split; [by right|]. right. exists c.
  destruct (pi_lists _ Hp c Hcr). pose proof (pi_counter _ Hp).
  split; cbn; try done.
  - by rewrite list_insert_insert_eq.
  - apply list_insert_id. unfold zlookup in Hc. by rewrite (proj2 (Z.leb_le _ _)) in Hc by lia.
  - lia.
  - rewrite u32_small by lia. lia.
  - rewrite !dom_insert_L. set_solver.
  - intros x Hx1 Hx2. by rewrite !lookup_insert_ne.
Qed.
End failed.
