(* ===== verification/CapProps.v ===== *)
(** * What the capability system guarantees

    The theorems about kernel/cap: the derivation forest is an invariant of all
    operations, authority only shrinks, revocation is complete, and each
    operation does what its interface says on every branch. *)

From stdpp Require Import functions.
From S2P Require Import Prelude KList CapTypes CSpace Capability CapForest CapForestOps CapInv CapOps.
From S2P Require Import CSpaceInv.

Set Default Goal Selector "!".

#[local] Arguments set_cap : simpl never.
#[local] Arguments get_cap : simpl never.
#[local] Arguments set_cs : simpl never.
#[local] Arguments get_cs : simpl never.

(** ** Rights *)

Definition subrights (r r' : Z) : Prop := Z.land r r' = r.

#[global] Instance subrights_refl : Reflexive subrights.
Proof. intros r. apply Z.land_diag. Qed.

#[global] Instance subrights_trans : Transitive subrights.
Proof. intros a b c H1 H2. unfold subrights in *. rewrite <- H1 at 1. by rewrite <- Z.land_assoc, H2. Qed.

(** [y] gives no more than [x] on the same object. *)
Definition dominates (x y : cap_t) : Prop :=
  kobj_type y = kobj_type x ∧ kobj_id y = kobj_id x ∧ subrights (rights y) (rights x).

#[global] Instance dominates_refl : Reflexive dominates.
Proof. intros x. by split_and!. Qed.

#[global] Instance dominates_trans : Transitive dominates.
Proof.
  intros x y z (? & ? & ?) (? & ? & ?). split_and!; [congruence..|]. by etrans.
Qed.

(** The matrix accepts every weakening that keeps READ. *)
Lemma rights_matrix_weaken ty r r' :
  cap_validate_rights_for_type ty r = KERNEL_OK → subrights r' r →
  Z.land r' CAP_RIGHT_READ = CAP_RIGHT_READ →
  cap_validate_rights_for_type ty r' = KERNEL_OK.
Proof.
  unfold cap_validate_rights_for_type. case_if; [done|].
  assert (∀ e, find_type_entry s_cap_type_rights_table ty = Some e → mandatory_rights e = CAP_RIGHT_READ)
    as Hm.
  { intros e. unfold s_cap_type_rights_table. cbn [find_type_entry].
    repeat (case_if; [by intros [= <-]|]). done. }
  destruct (find_type_entry _ ty) as [e|]; [|done]. rewrite (Hm e eq_refl).
  destruct (Z.eqb_spec (Z.land r (allowed_rights e)) r) as [Ha|Ha]; [|done].
  intros _ Hs Hr. assert (subrights r' (allowed_rights e)) as ->%Z.eqb_eq by (by trans r).
  cbn [negb]. by rewrite (proj2 (Z.eqb_eq _ _) Hr).
Qed.

(** ** Effects of the operations *)

(** What the argument checks of the one-CSpace operations leave. *)
Lemma resolve_spec s root slot : cap_inv s →
  resolve s root slot = Some None ∨
  ∃ c v t tb K, root ≠ CAP_SLOT_INVALID ∧ slot ≠ CAP_SLOT_INVALID ∧
    resolve s root slot = Some (Some c) ∧ cspace_from_root s root = Some (Some c) ∧
    get_cs s c = Some v ∧ live v ∧ forest_at s v t tb K ∅.
Proof.
  intros Hinv. unfold resolve. destruct (Z.eqb_spec root CAP_SLOT_INVALID); cbn [orb]; [by left|].
  destruct (Z.eqb_spec slot CAP_SLOT_INVALID); cbn [orb]; [by left|].
  destruct (from_root_forest s root Hinv) as [->|(c & v & t & tb & K & E & Hr)]; [by left|right].
  exists c, v, t, tb, K. naive_solver.
Qed.

Lemma cap_at_forest s c v t tb K P i x : get_cs s c = Some v → live v → forest_at s v t tb K P →
  cap_at s c i x ↔ valid (capacity v) tb i x.
Proof.
  intros Hc Hl (Ht & Htb & _). split.
  - intros (v1 & t1 & tb1 & ? & _ & ? & ? & Hv). assert (v1 = v) as -> by congruence.
    assert (t1 = t) as -> by congruence. congruence.
  - intros Hv. by exists v, t, tb.
Qed.

(** Being a child, by list and by parent pointer. *)
Lemma reparent_cond t n tb h K slot x i y0 dst : pforest t n tb h K ∅ → valid n tb slot x →
  valid n tb i y0 →
  (if decide (i ∈ K slot) then set_parent dst y0 else y0)
  = if parent_slot y0 =? slot then set_parent dst y0 else y0.
Proof.
  intros HF Hx Hy. destruct (Z.eqb_spec (parent_slot y0) slot) as [Hp|Hp].
  - rewrite decide_True; [done|]. apply (pf_child _ _ _ _ HF slot x i Hx). split; [set_solver|eauto].
  - rewrite decide_False; [done|]. intros Hk.
    destruct (kids_valid _ _ _ _ HF slot x i Hx Hk) as (_ & z & Hz & Hzp).
    by rewrite (valid_inj _ _ _ _ Hz Hy) in Hzp.
Qed.

(** The table of the CSpace changed as [Q] says; nothing else did. *)
Definition cspace_effect (s s' : kstate) (c : Z) (Q : Z → cap_t → Prop) : Prop :=
  ∀ c0 i y, cap_at s' c0 i y ↔ (c0 = c ∧ Q i y) ∨ (c0 ≠ c ∧ cap_at s c0 i y).

(** The call worked inside the tables of CSpaces, one after the other. *)
Definition stays : kstate → kstate → Prop := rtc (λ s s', ∃ c t, touches c t s s').

#[global] Instance stays_refl : Reflexive stays.
Proof. intros s. apply rtc_refl. Qed.

Lemma stays_touches c t s s' : touches c t s s' → stays s s'.
Proof. intros HT. apply rtc_once. by exists c, t. Qed.

Lemma stays_twice c t c' t' s s1 s' : touches c t s s1 → touches c' t' s1 s' → stays s s'.
Proof. intros H1 H2. eapply rtc_l; [by exists c, t|]. by eapply stays_touches. Qed.

Section effects.
Context s (Hinv : cap_inv s).

(** Small CSpaces never overflow the revocation stack. *)
Definition small (s : kstate) : Prop :=
  ∀ c v, get_cs s c = Some v → live v → capacity v <= REVOKE_STACK_SIZE.

Lemma small_touches c t s1 s2 : touches c t s1 s2 → small s1 → small s2.
Proof.
  intros HT Hsm i v' Hi Hl. destruct (touches_cs_inv _ _ _ _ HT i v' Hi) as (v & Hv & E1 & _ & -> & _).
  apply (Hsm i v Hv). unfold live in *. by rewrite <- E1.
Qed.

Lemma small_stays s1 s2 : stays s1 s2 → small s1 → small s2.
Proof. clear Hinv. induction 1 as [|s1 s2 s3 (c & t & HT) _ IH]; intros Hsm; [done|]. apply IH. by eapply small_touches. Qed.

(** *** Derive, copy and mint *)

(** The outcome of an operation that inserts one capability [x]. *)
Definition inserts (s' : kstate) (c slot : Z) (x : cap_t) : Prop :=
  cap_inv s' ∧ stays s s' ∧ (∀ y, ¬ cap_at s c slot y) ∧
  0 <= derive_depth x <= CAP_MAX_DERIVE_DEPTH ∧
  ∀ c0 i y, cap_at s' c0 i y ↔ (c0 = c ∧ i = slot ∧ y = x) ∨ cap_at s c0 i y.

Lemma insert_inserts c v t tb K slot ty kid r bdg parent :
  get_cs s c = Some v → live v → forest_at s v t tb K ∅ → 0 <= slot → 0 <= parent →
  cap_insert_locked c slot ty kid r bdg parent s = Some (s, - EINVAL) ∨
  ∃ s' x, cap_insert_locked c slot ty kid r bdg parent s = Some (s', KERNEL_OK) ∧
    inserts s' c slot x ∧ kobj_type x = ty ∧ kobj_id x = kid ∧ rights x = r ∧ badge x = bdg ∧
    parent_slot x = parent ∧ parent_accepts (capacity v) tb parent (derive_depth x) ∧
    cap_validate_rights_for_type ty r = KERNEL_OK.
Proof using Hinv.
  intros Hc Hl HF Hs Hp.
  destruct (insert_effect s c v t tb K slot ty kid r bdg parent)
    as [E|(s' & x & E & Hi & H1 & H2 & H3 & H4 & H5 & H6 & H7 & H8 & HT & H9)]; [done..|by left|].
  right. exists s', x. split; [done|]. split; [|done]. split; [done|]. split; [by eapply stays_touches|].
  split; [done|]. split; [|done].
  destruct H6 as [[_ ->]|(_ & cp & Hcp & ? & ->)]; unfold CAP_MAX_DERIVE_DEPTH in *; [lia|].
  destruct HF as (_ & _ & HF). destruct (pf_ok _ _ _ _ HF _ _ Hcp) as [_ ?]. lia.
Qed.

Lemma cap_derive_spec sr ss dr ds r bdg : 0 <= ss → 0 <= ds →
  (∃ e, cap_derive sr ss dr ds r bdg s = Some (s, e) ∧ e ∈ [- EINVAL; - ENOENT; - EACCES]) ∨
  ∃ s' sc src dc x, cap_derive sr ss dr ds r bdg s = Some (s', KERNEL_OK) ∧
    cspace_from_root s sr = Some (Some sc) ∧ cspace_from_root s dr = Some (Some dc) ∧
    cap_at s sc ss src ∧ Z.land (rights src) CAP_RIGHT_GRANT ≠ CAP_RIGHT_NONE ∧
    inserts s' dc ds x ∧ dominates src x ∧ rights x = r ∧ r ≠ rights src ∧ badge x = bdg ∧
    parent_slot x = ss.
Proof using Hinv.
  intros Hss Hds. unfold cap_derive.
  destruct (resolve_dual_spec s sr ss dr ds Hinv Hss) as (r0 & -> & Hr0). cbn [mbind option_bind].
  destruct Hr0 as [e He|sc sv t tb K src dc dv dt dtb dK Hdn E1 Hsc Hsl HF E2 Hdc Hdl HD Hv Hg].
  { left. by exists e. }
  assert (∀ e, e ∈ [- EINVAL; - ENOENT; - EACCES] → ∃ e', Some (s, e) = Some (s, e') ∧
    e' ∈ [- EINVAL; - ENOENT; - EACCES]) as Herr by eauto.
  destruct (Z.eqb_spec (Z.land r (rights src)) r) as [Hsub|]; cbn [negb]; [|left; apply Herr; set_solver].
  destruct (Z.eqb_spec r (rights src)) as [|Hne]; [left; apply Herr; set_solver|].
  destruct (insert_inserts dc dv dt dtb dK ds (kobj_type src) (kobj_id src) r bdg ss)
    as [->|(s' & x & -> & Hins & ? & ? & Hrx & ? & ? & _)]; [done..|left; apply Herr; set_solver|].
  right. exists s', sc, src, dc, x. split_and!; try done.
  - by eapply cap_at_forest.
  - split_and!; [done..|]. unfold subrights. by rewrite Hrx.
Qed.

Lemma cap_copy_spec sr ss dr ds mask : 0 <= ss → 0 <= ds →
  (∃ e, cap_copy sr ss dr ds mask s = Some (s, e) ∧ e ∈ [- EINVAL; - ENOENT; - EACCES]) ∨
  ∃ s' sc src dc x, cap_copy sr ss dr ds mask s = Some (s', KERNEL_OK) ∧
    cspace_from_root s sr = Some (Some sc) ∧ cspace_from_root s dr = Some (Some dc) ∧
    cap_at s sc ss src ∧ Z.land (rights src) CAP_RIGHT_GRANT ≠ CAP_RIGHT_NONE ∧
    inheritable src = true ∧ inserts s' dc ds x ∧ dominates src x ∧ badge x = badge src ∧
    rights x = (if mask =? 0 then rights src else Z.land (rights src) mask) ∧ parent_slot x = ss.
Proof using Hinv.
  intros Hss Hds. unfold cap_copy.
  destruct (resolve_dual_spec s sr ss dr ds Hinv Hss) as (r0 & -> & Hr0). cbn [mbind option_bind].
  destruct Hr0 as [e He|sc sv t tb K src dc dv dt dtb dK Hdn E1 Hsc Hsl HF E2 Hdc Hdl HD Hv Hg].
  { left. by exists e. }
  assert (∀ e, e ∈ [- EINVAL; - ENOENT; - EACCES] → ∃ e', Some (s, e) = Some (s, e') ∧
    e' ∈ [- EINVAL; - ENOENT; - EACCES]) as Herr by eauto.
  destruct (inheritable src) eqn:Hinh; cbn [negb]; [|left; apply Herr; set_solver].
  set (dr' := if negb (mask =? 0) then _ else _).
  destruct (Z.eqb_spec (Z.land dr' (rights src)) dr') as [Hsub|]; cbn [negb]; [|left; apply Herr; set_solver].
  destruct (insert_inserts dc dv dt dtb dK ds (kobj_type src) (kobj_id src) dr' (badge src) ss)
    as [->|(s' & x & -> & Hins & ? & ? & Hrx & ? & ? & _)]; [done..|left; apply Herr; set_solver|].
  right. exists s', sc, src, dc, x. split_and!; try done.
  - by eapply cap_at_forest.
  - split_and!; [done..|]. unfold subrights. by rewrite Hrx.
  - rewrite Hrx. unfold dr'. by destruct (mask =? 0).
Qed.

Lemma cap_mint_spec root slot ty kid r bdg : 0 <= slot →
  (∃ e, cap_mint root slot ty kid r bdg s = Some (s, e) ∧ e ∈ [- EINVAL; - ENOENT; - EACCES]) ∨
  ∃ s' c rc x, cap_mint root slot ty kid r bdg s = Some (s', KERNEL_OK) ∧
    cspace_from_root s root = Some (Some c) ∧
    (∃ v, get_cs s c = Some v ∧ cap_at s c (root_slot v) rc) ∧
    subrights (Z.lor CAP_RIGHT_WRITE CAP_RIGHT_GRANT) (rights rc) ∧
    inserts s' c slot x ∧ kobj_type x = ty ∧ kobj_id x = kid ∧ rights x = r ∧ badge x = bdg ∧
    parent_slot x = CAP_SLOT_INVALID ∧ derive_depth x = 0 ∧
    cap_validate_rights_for_type ty r = KERNEL_OK.
Proof using Hinv.
  intros Hs. unfold cap_mint.
  assert (∀ e, e ∈ [- EINVAL; - ENOENT; - EACCES] → ∃ e', Some (s, e) = Some (s, e') ∧
    e' ∈ [- EINVAL; - ENOENT; - EACCES]) as Herr by eauto.
  case_if; [left; apply Herr; set_solver|]. case_if; [left; apply Herr; set_solver|].
  case_if; [left; apply Herr; set_solver|].
  destruct (from_root_forest s root Hinv) as [->|(c & v & t & tb & K & E & Hc & Hl & HF)];
    cbn [mbind option_bind]; [left; apply Herr; set_solver|]. rewrite E. cbn [mbind option_bind].
  rewrite Hc. cbn [mbind option_bind]. pose proof (ci_slot _ Hinv c v Hc Hl) as Hrs.
  rewrite (cspace_lookup_spec s c v t tb K ∅) by done. cbn [mbind option_bind].
  destruct (valid_dec tb (root_slot v)) as [[rc Hrc]|]; [|left; apply Herr; set_solver].
  destruct HF as (Ht & Htb & HF') eqn:EHF. rewrite (get_cap_at s t tb) by done.
  pose proof Hrc as (_ & -> & _). cbn [mbind option_bind].
  case_if; [left; apply Herr; set_solver|]. zify_bool.
  destruct (insert_inserts c v t tb K slot ty kid r bdg CAP_SLOT_INVALID)
    as [->|(s' & x & -> & Hins & H1 & H2 & H3 & H4 & H5 & H6 & H7)]; [done..|left; apply Herr; set_solver|].
  right. exists s', c, rc, x. split_and!; try done.
  - exists v. split; [done|]. by eapply cap_at_forest.
  - unfold subrights. by rewrite Z.land_comm.
  - by destruct H6 as [[_ ?]|[? _]].
Qed.

(** *** Deletion *)

Lemma cap_delete_spec root slot : 0 <= slot →
  (∃ e, cap_delete root slot s = Some (s, e) ∧ e ∈ [- EINVAL; - ENOENT]) ∨
  ∃ s' c x, cap_delete root slot s = Some (s', KERNEL_OK) ∧
    cspace_from_root s root = Some (Some c) ∧ cap_at s c slot x ∧ cap_inv s' ∧ stays s s' ∧
    cspace_effect s s' c (λ i y, i ≠ slot ∧ ∃ y0, cap_at s c i y0 ∧
      y = if parent_slot y0 =? slot then set_parent CAP_SLOT_INVALID y0 else y0).
Proof using Hinv.
  intros Hs. unfold cap_delete.
  destruct (resolve_spec s root slot Hinv) as [->|(c & v & t & tb & K & _ & _ & -> & Er & Hc & Hl & HF)];
    cbn [mbind option_bind]; [left; eexists; split; [done|set_solver]|].
  rewrite (cspace_lookup_spec s c v t tb K ∅) by done. cbn [mbind option_bind].
  destruct (valid_dec tb slot) as [[x Hx]|]; [|left; eexists; split; [done|set_solver]].
  pose proof HF as (Ht & Htb & HF'). rewrite (get_cap_at s t tb) by done.
  pose proof Hx as (Hxr & -> & _). cbn [mbind option_bind].
  destruct (delete_spec s c v t tb K Hc HF slot x Hx) as (s' & E & HT & tb' & K' & Htb' & Hdel & HF2).
  apply bind_Some in E as (s1 & E1 & E). apply bind_Some in E as (s2 & E2 & E).
  rewrite E1. cbn [mbind option_bind]. rewrite E2. cbn [mbind option_bind]. rewrite E.
  cbn [mbind option_bind]. right. exists s', c, x. split; [done|]. split; [done|].
  split; [by eapply cap_at_forest|]. split; [by eapply cap_inv_touches|].
  split; [by eapply stays_touches|]. intros c0 i y.
  rewrite (cap_at_touches c t s s' v tb tb' c0 i y Hinv Hc Hl Ht HT Htb Htb').
  destruct Hdel as (tb1 & Hre & ->). pose proof (pf_len _ _ _ _ HF') as Hlen.
  assert (valid (capacity v) (<[Z.to_nat slot:=wiped]> tb1) i y ↔
    i ≠ slot ∧ ∃ y0, cap_at s c i y0 ∧
      y = if parent_slot y0 =? slot then set_parent CAP_SLOT_INVALID y0 else y0) as ->; [|done].
  rewrite valid_wiped by (destruct Hre as [-> _]; lia).
  rewrite (valid_reparented v tb (K slot) CAP_SLOT_INVALID tb1 i y Hre).
  setoid_rewrite (cap_at_forest s c v t tb K ∅); [|done..].
  split; intros [Hne (y0 & Hy0 & ->)]; (split; [done|]); exists y0; (split; [done|]);
    by rewrite (reparent_cond t (capacity v) tb (lists s) K slot x i y0).
Qed.

(** *** Revocation *)

Lemma cap_revoke_spec root slot : 0 <= slot →
  (∃ e, cap_revoke root slot s = Some (s, e) ∧ e ∈ [- EINVAL; - ENOENT; - EACCES]) ∨
  ∃ s' ret c v t tb x, cap_revoke root slot s = Some (s', ret) ∧
    cspace_from_root s root = Some (Some c) ∧ get_cs s c = Some v ∧ live v ∧ cap_table v = Some t ∧
    tables s !! t = Some tb ∧ valid (capacity v) tb slot x ∧
    Z.land (rights x) CAP_RIGHT_REVOKE ≠ CAP_RIGHT_NONE ∧
    (ret = KERNEL_OK ∨ ret = - ENOMEM) ∧ (capacity v <= REVOKE_STACK_SIZE → ret = KERNEL_OK) ∧
    stays s s' ∧
    (∀ c0 i y, cap_at s' c0 i y → cap_at s c0 i y) ∧
    (∀ c0 i y, cap_at s c0 i y → ¬ (c0 = c ∧ desc (capacity v) tb slot i) → cap_at s' c0 i y) ∧
    (ret = KERNEL_OK → cap_inv s' ∧ ∀ i y, desc (capacity v) tb slot i → ¬ cap_at s' c i y).
Proof using Hinv.
  intros Hs. unfold cap_revoke.
  destruct (resolve_spec s root slot Hinv) as [->|(c & v & t & tb & K & _ & _ & -> & Er & Hc & Hl & HF)];
    cbn [mbind option_bind]; [left; eexists; split; [done|set_solver]|].
  rewrite (lookup_valid_spec s c v t tb K ∅) by done. cbn [mbind option_bind].
  destruct (valid_dec tb slot) as [[x Hx]|]; [|left; eexists; split; [done|set_solver]].
  case_if; [left; eexists; split; [done|set_solver]|]. zify_bool.
  rewrite Hc. cbn [mbind option_bind]. pose proof HF as (Ht & Htb & HF').
  destruct (revoke_spec s c v t tb K slot x Hc HF Hx)
    as (r & -> & HT & Hsm & tb' & K' & P' & Htb' & HF2 & Hsub & Hout & Hok).
  cbn [mbind option_bind]. right.
  exists (rv_state r), (if rv_overflow r then - ENOMEM else KERNEL_OK), c, v, t, tb, x.
  assert (∀ c0 i y, cap_at (rv_state r) c0 i y ↔
    (c0 = c ∧ valid (capacity v) tb' i y) ∨ (c0 ≠ c ∧ cap_at s c0 i y)) as Hat.
  { intros c0 i y. by apply (cap_at_touches c t s (rv_state r) v tb tb'). }
  split; [done|]. do 7 (split; [done|]). split_and!.
  - destruct (rv_overflow r); auto.
  - intros Hle. by rewrite Hsm.
  - by eapply stays_touches.
  - intros c0 i y [[-> Hy]|[_ ?]]%Hat; [|done]. apply (cap_at_forest s c v t tb K ∅); auto.
  - intros c0 i y Hy Hnd. apply Hat. destruct (decide (c0 = c)) as [->|]; [left|by right].
    split; [done|]. apply Hout; [by apply (cap_at_forest s c v t tb K ∅)|naive_solver].
  - intros Hret. assert (rv_overflow r = false) as Ho by (by destruct (rv_overflow r)).
    destruct (Hok Ho) as [-> Hfreed]. split; [by eapply cap_inv_touches|].
    intros i y Hd Hy. apply Hat in Hy as [[_ Hy]|[? _]]; [|done]. by apply (Hfreed i Hd y).
Qed.

(** *** Move within a CSpace *)

Lemma cap_move_spec root src droot dst : 0 <= src → 0 <= dst → cspace_from_root s droot = cspace_from_root s root →
  (∃ e, cap_move root src droot dst s = Some (s, e) ∧ e ∈ [- EINVAL; - ENOENT; - EACCES]) ∨
  ∃ s' c x y, cap_move root src droot dst s = Some (s', KERNEL_OK) ∧
    cspace_from_root s root = Some (Some c) ∧ cap_at s c src x ∧ (∀ z, ¬ cap_at s c dst z) ∧
    kobj_type y = kobj_type x ∧ kobj_id y = kobj_id x ∧ rights y = rights x ∧ badge y = badge x ∧
    parent_slot y = parent_slot x ∧ cap_inv s' ∧ stays s s' ∧
    cspace_effect s s' c (λ i z, (i = dst ∧ z = y) ∨ (i ≠ src ∧ i ≠ dst ∧ ∃ z0, cap_at s c i z0 ∧
      z = if parent_slot z0 =? src then set_parent dst z0 else z0)).
Proof using Hinv.
  intros Hs Hd Hsame. unfold cap_move.
  destruct (resolve_dual_spec s root src droot dst Hinv Hs) as (r0 & -> & Hr0). cbn [mbind option_bind].
  destruct Hr0 as [e He|c v t tb K x dc dv dt dtb dK Hdn E1 Hc Hl HF E2 Hdc Hdl HD Hx Hg].
  { left. by exists e. }
  assert (dc = c) as -> by congruence. clear E2 Hdc Hdl HD dv dt dtb dK.
  pose proof HF as (Ht & Htb & HF').
  assert (0 <= parent_slot x) as Hpx.
  { destruct (decide (parent_slot x = CAP_SLOT_INVALID)) as [->|Hp]; [done|].
    destruct (pf_parent _ _ _ _ HF' src x Hx ltac:(set_solver) Hp) as (cp & [? _] & _). lia. }
  destruct (cap_insert_locked_spec s c v t tb K Hc HF dst (kobj_type x) (kobj_id x) (rights x)
    (badge x) (parent_slot x) Hd Hpx) as [[-> _]|(s1 & depth & inh & -> & Hall & T1 & B1 & HF1)];
    cbn [mbind option_bind]; [left; eexists; split; [done|set_solver]|].
  change (negb (KERNEL_OK =? KERNEL_OK)) with false. cbv iota.
  set (y := new_cap _ _ _ _ _ _ _ _) in *. set (tb1 := <[Z.to_nat dst := y]> tb) in *.
  destruct Hall as (Hdr & (old & Hold & Hfree) & _ & Hacc). pose proof (pf_len _ _ _ _ HF') as Hlen.
  assert (invalid (capacity v) tb dst) as Hinvd by (intros z (_ & ? & ?); congruence).
  assert (src ≠ dst) as Hne by (intros ->; by apply (Hinvd x)).
  destruct (to_c _ _ _ _ T1 v Hc) as (v1 & Hv1 & F1 & F2 & F3 & F4).
  rewrite Hv1. cbn [mbind option_bind]. rewrite F2, Ht. cbn [mbind option_bind].
  assert (valid (capacity v) tb1 src x) as Hx1 by (apply valid_insert_ne; [lia|done..]).
  assert (valid (capacity v) tb1 dst y) as Hy1 by (apply valid_insert_eq; [lia|done]).
  assert (parent_slot x ≠ src) as Hps.
  { intros Hp. destruct (pf_parent _ _ _ _ HF' src x Hx ltac:(set_solver)) as (cp & Hcp & Hlt).
    { rewrite Hp. by eapply (parent_not_invalid _ _ _ _ HF'). }
    rewrite Hp in Hcp. rewrite (valid_inj _ _ _ _ Hcp Hx) in Hlt. lia. }
  assert (ins dst (parent_slot x) K src = K src ∧ ins dst (parent_slot x) K dst = []) as [HK1 HK2].
  { unfold ins. destruct (Z.eqb_spec (parent_slot x) CAP_SLOT_INVALID) as [|Hp].
    - by rewrite fn_lookup_insert, fn_lookup_insert_ne by done.
    - assert (parent_slot x ≠ dst) as Hpd.
      { intros E. destruct (pf_parent _ _ _ _ HF' src x Hx ltac:(set_solver) Hp) as (cp & Hcp & _).
        rewrite E in Hcp. by apply (Hinvd cp). }
      rewrite !fn_lookup_insert_ne, fn_lookup_insert by done. done. }
  assert (forest_at s1 v1 t tb1 (ins dst (parent_slot x) K) ∅) as HFA.
  { split; [congruence|]. split; [done|]. by rewrite F3. }
  destruct (move_tail_spec s1 c v1 t tb1 _ Hv1 HFA src dst x y) as (s' & E & HT & tb' & K' & Htb' & Hmv & HF2);
    [by rewrite F3|by rewrite F3|done|done| | |].
  { rewrite HK1. intros Hk. destruct (kids_valid _ _ _ _ HF' src x dst Hx Hk) as (_ & z & Hz & _).
    by apply (Hinvd z). }
  { cbn. destruct Hacc as [[_ ->]|(Hp & cp & Hcp & _ & ->)].
    - destruct (pf_ok _ _ _ _ HF' _ _ Hx) as [_ ?]. lia.
    - destruct (pf_parent _ _ _ _ HF' src x Hx ltac:(set_solver) Hp) as (cq & Hcq & ?).
      rewrite (valid_inj _ _ _ _ Hcp Hcq). lia. }
  apply bind_Some in E as (s2 & E2 & E). apply bind_Some in E2 as (e & Ee & E2).
  rewrite Ee. cbn [mbind option_bind]. rewrite E2. cbn [mbind option_bind].
  apply bind_Some in E as (s3 & E3 & E). rewrite E3. cbn [mbind option_bind].
  apply bind_Some in E as (x3 & E4 & E). rewrite E4. cbn [mbind option_bind].
  apply bind_Some in E as (s4 & E5 & E). rewrite E5. cbn [mbind option_bind]. rewrite E.
  cbn [mbind option_bind]. right. rewrite F3 in HF2.
  assert (touches c t s s') as TT by (by etrans).
  exists s', c, x, y. split; [done|]. split; [done|]. split; [by eapply cap_at_forest|].
  split. { intros z Hz%(cap_at_forest s c v t tb K ∅); [|done..]. by apply (Hinvd z). }
  do 5 (split; [done|]). split; [by eapply cap_inv_touches|]. split; [by eapply stays_touches|].
  intros c0 i z. rewrite (cap_at_touches c t s s' v tb tb' c0 i z Hinv Hc Hl Ht TT Htb Htb').
  destruct Hmv as (tb2 & Hre & ->). rewrite HK1 in Hre.
  assert (valid (capacity v) (<[Z.to_nat src:=wiped]> tb2) i z ↔
    i = dst ∧ z = y ∨ i ≠ src ∧ i ≠ dst ∧ ∃ z0, cap_at s c i z0 ∧
      z = if parent_slot z0 =? src then set_parent dst z0 else z0) as ->; [|done].
  rewrite valid_wiped by (destruct Hre as [-> _]; unfold tb1; rewrite length_insert; destruct Hx; lia).
  rewrite <- F3, (valid_reparented v1 tb1 (K src) dst tb2 i z Hre), F3.
  setoid_rewrite (cap_at_forest s c v t tb K ∅); [|done..].
  assert (dst ∉ K src) as Hdk.
  { intros Hk. destruct (kids_valid _ _ _ _ HF' src x dst Hx Hk) as (_ & w & Hw & _).
    by apply (Hinvd w). }
  destruct (decide (i = dst)) as [->|Hid].
  - split.
    + intros [_ (z0 & Hz0 & ->)]. left. rewrite decide_False by done. split; [done|].
      by eapply valid_inj.
    + intros [[_ ->]|(_ & [] & _)]; [|done]. split; [done|]. exists y. by rewrite decide_False.
  - unfold tb1. setoid_rewrite valid_insert_ne; [|lia..]. split.
    + intros [Hi (z0 & Hz0 & ->)]. right. split; [done|]. split; [done|]. exists z0. split; [done|].
      by rewrite (reparent_cond t (capacity v) tb (lists s) K src x i z0).
    + intros [[? _]|(Hi & _ & z0 & Hz0 & ->)]; [done|]. split; [done|]. exists z0. split; [done|].
      by rewrite (reparent_cond t (capacity v) tb (lists s) K src x i z0).
Qed.

(** *** Move to another CSpace *)

(** A loop over an empty list. *)
Lemma for_each_nil {X} (f : X → nodes) a body (x : X) : dll (f x) a [] → list_for_each_safe f list_fuel (Some a) body x = Some x.
Proof.
  intros Hd. destruct (list_for_each_safe_spec f a body (λ l y, l = [] ∧ y = x) (λ y, y = x) [] x list_fuel) as (y & E & ->).
  - by intros l rest y [? _].
  - intros y [_ ->]. by erewrite get_next_nxt by apply (dll_first _ _ _ Hd).
  - by intros l rest y [? _].
  - by intros y [_ ->].
  - done.
  - apply (dll_first _ _ _ Hd).
  - unfold list_fuel. cbn. lia.
  - done.
Qed.

(** A capability that is the parent of none. *)
Definition leaf (s : kstate) (c i : Z) : Prop := ∀ j y, cap_at s c j y → parent_slot y ≠ i.

Lemma leaf_kids s0 c v t tb K i x : get_cs s0 c = Some v → live v → forest_at s0 v t tb K ∅ → valid (capacity v) tb i x → leaf s0 c i → K i = [].
Proof.
  intros Hc Hl HF Hx Hlf. pose proof HF as (_ & _ & HF'). destruct (K i) as [|j l] eqn:E; [done|]. destruct (kids_valid _ _ _ _ HF' i x j Hx) as (_ & y & Hy & Hp); [rewrite E; by left|].
  exfalso. apply (Hlf j y); [by eapply cap_at_forest|done].
Qed.

Lemma cap_move_across sr src dr dst : 0 <= src → 0 <= dst →
  (∀ sc dc, cspace_from_root s sr = Some (Some sc) → cspace_from_root s dr = Some (Some dc) → sc ≠ dc ∧ leaf s sc src) →
  (∃ e, cap_move sr src dr dst s = Some (s, e) ∧ e ∈ [- EINVAL; - ENOENT; - EACCES]) ∨
  ∃ s' sc dc x y, cap_move sr src dr dst s = Some (s', KERNEL_OK) ∧
    cspace_from_root s sr = Some (Some sc) ∧ cspace_from_root s dr = Some (Some dc) ∧ cap_at s sc src x ∧ (∀ z, ¬ cap_at s dc dst z) ∧
    kobj_type y = kobj_type x ∧ kobj_id y = kobj_id x ∧ rights y = rights x ∧ badge y = badge x ∧
    parent_slot y = parent_slot x ∧ cap_inv s' ∧ stays s s' ∧
    ∀ c i z, cap_at s' c i z ↔ (c = dc ∧ i = dst ∧ z = y) ∨ (cap_at s c i z ∧ ¬ (c = sc ∧ i = src)).
Proof using Hinv.
  intros Hs Hd Hacross. unfold cap_move.
  destruct (resolve_dual_spec s sr src dr dst Hinv Hs) as (r0 & -> & Hr0). cbn [mbind option_bind].
  destruct Hr0 as [e He|c v t tb K x dc dv dt dtb dK Hdn E1 Hc Hl HF E2 Hdc Hdl HD Hx Hg]; [left; by exists e|].
  destruct (Hacross c dc E1 E2) as [Hne Hlf]. pose proof HF as (Ht & Htb & HF'). pose proof HD as (Hdt & Hdtb & HD').
  assert (0 <= parent_slot x) as Hpx.
  { destruct (decide (parent_slot x = CAP_SLOT_INVALID)) as [->|Hp]; [done|].
    destruct (pf_parent _ _ _ _ HF' src x Hx ltac:(set_solver) Hp) as (cp & [? _] & _). lia. }
  assert (t ≠ dt) as Htd by (intros <-; by apply Hne, (ci_distinct _ Hinv c v dc dv t)).
  destruct (insert_effect s dc dv dt dtb dK dst (kobj_type x) (kobj_id x) (rights x) (badge x) (parent_slot x))
    as [->|(s1 & y & -> & Hi1 & Y1 & Y2 & Y3 & Y4 & Y5 & Hacc & _ & Hfree & HT & Hat)]; [done..|left; eexists; split; [done|set_solver]|].
  cbn [mbind option_bind]. change (negb (KERNEL_OK =? KERNEL_OK)) with false. cbv iota.
  destruct (to_c _ _ _ _ HT dv Hdc) as (dv1 & Hdv1 & F1 & F2 & F3 & F4). rewrite Hdv1. cbn [mbind option_bind]. rewrite F2, Hdt. cbn [mbind option_bind].
  assert (get_cs s1 c = Some v) as Hc1 by (rewrite (to_cs _ _ _ _ HT) by done; done).
  pose proof (touches_forest _ _ _ _ HT v t tb K ∅ Htd HF) as HF1. pose proof HF1 as (_ & Htb1 & HF1').
  pose proof (leaf_kids s c v t tb K src x Hc Hl HF Hx Hlf) as HK.
  assert (dll (lists s1) (CapChildren t src) []) as Hsrc by (pose proof (pf_kids _ _ _ _ HF1' src x Hx) as Hk; by rewrite HK in Hk).
  rewrite (list_empty_spec _ _ _ Hsrc), bool_decide_eq_true_2 by done. cbn [mbind option_bind].
  assert (dll (lists s1) (CapChildren dt dst) []) as Hdst.
  { assert (live dv1) as Hdl1 by (unfold live in *; by rewrite F1). destruct (ci_forest _ Hi1 dc dv1 Hdv1 Hdl1) as (t1 & tb1 & K1 & HD1). pose proof HD1 as (Ht1 & _ & HD1').
    assert (t1 = dt) as -> by congruence. assert (valid (capacity dv1) tb1 dst y) as Hy1 by (apply (cap_at_forest s1 dc dv1 dt tb1 K1 ∅); [done..|]; apply Hat; by left).
    pose proof (pf_kids _ _ _ _ HD1' dst y Hy1) as Hk. rewrite (leaf_kids s1 dc dv1 dt tb1 K1 dst y) in Hk; try done. intros j z [(_ & -> & ->)|Hz]%Hat.
    - rewrite Y5. intros Hp. destruct Hacc as [[Hp' _]|(_ & cp & Hcp & _)]; [congruence|]. rewrite Hp in Hcp. apply (Hfree cp). by eapply cap_at_forest.
    - apply (cap_at_forest s dc dv dt dtb dK ∅) in Hz; [|done..]. intros Hp. destruct (pf_parent _ _ _ _ HD' j z Hz ltac:(set_solver)) as (cp & Hcp & _); [by rewrite Hp|]. rewrite Hp in Hcp. apply (Hfree cp). by eapply cap_at_forest. }
  rewrite for_each_nil by done. cbn [mbind option_bind]. rewrite (get_cap_at s1 t tb) by done. pose proof Hx as (_ & -> & _). cbn [mbind option_bind].
  destruct (detach_orphaning s1 c v t tb K Hc1 HF1 src x Hx) as (s2 & E3 & Ho). rewrite E3. cbn [mbind option_bind]. rewrite HK in Ho.
  destruct (wipe_orphaned s1 c v t tb K Hc1 HF1 src x s2 Hx Ho) as (s' & -> & HT2 & tb' & K' & Htb' & Hdel & HF2). cbn [mbind option_bind].
  right. exists s', c, dc, x, y. split; [done|]. split; [done|]. split; [done|]. split; [by eapply cap_at_forest|]. split; [done|]. do 5 (split; [done|]).
  split; [by eapply (cap_inv_touches c t s1)|]. split; [by eapply stays_twice|]. intros c0 i z.
  rewrite (cap_at_touches c t s1 s' v tb tb' c0 i z Hi1 Hc1 Hl Ht HT2 Htb1 Htb'). destruct Hdel as (tb1 & Hre & ->). rewrite HK in Hre. pose proof (pf_len _ _ _ _ HF') as Hlen.
  assert (valid (capacity v) (<[Z.to_nat src:=wiped]> tb1) i z ↔ i ≠ src ∧ cap_at s c i z) as ->.
  { rewrite valid_wiped by (destruct Hre as [-> _], Hx; lia). rewrite (valid_reparented v tb [] CAP_SLOT_INVALID tb1 i z Hre), (cap_at_forest s c v t tb K ∅) by done.
    split; intros [Hi Hz]; (split; [done|]); [destruct Hz as (z0 & Hz0 & ->); by rewrite decide_False by set_solver|exists z; by rewrite decide_False by set_solver]. }
  rewrite Hat. clear -Hne Hfree. split.
  - intros [(-> & Hi & Hz)|(Hc0 & [(-> & -> & ->)|Hz])]; [right; naive_solver|by left|right; naive_solver].
  - intros [(-> & -> & ->)|[Hz Hno]]; [right; split; [done|by left]|]. destruct (decide (c0 = c)) as [->|Hc0]; [left; naive_solver|right; split; [done|by right]].
Qed.

(** *** Badge update *)

Lemma cap_badge_update_spec root slot b : 0 <= slot →
  (∃ e, cap_badge_update root slot b s = Some (s, e) ∧ e ∈ [- EINVAL; - ENOENT; - EACCES]) ∨
  ∃ s' c x, cap_badge_update root slot b s = Some (s', KERNEL_OK) ∧
    cspace_from_root s root = Some (Some c) ∧ cap_at s c slot x ∧
    Z.land (rights x) CAP_RIGHT_WRITE ≠ CAP_RIGHT_NONE ∧ cap_inv s' ∧ stays s s' ∧
    cspace_effect s s' c (λ i y, ∃ y0, cap_at s c i y0 ∧ y = if i =? slot then set_badge b y0 else y0).
Proof using Hinv.
  intros Hs. unfold cap_badge_update.
  destruct (resolve_spec s root slot Hinv) as [->|(c & v & t & tb & K & _ & _ & -> & Er & Hc & Hl & HF)];
    cbn [mbind option_bind]; [left; eexists; split; [done|set_solver]|].
  rewrite (lookup_valid_spec s c v t tb K ∅) by done. cbn [mbind option_bind].
  destruct (valid_dec tb slot) as [[x Hx]|]; [|left; eexists; split; [done|set_solver]].
  case_if; [left; eexists; split; [done|set_solver]|]. zify_bool.
  pose proof HF as (Ht & Htb & HF'). pose proof (pf_len _ _ _ _ HF') as Hlen. pose proof Hx as [Hxr _].
  destruct (set_cap_at c s t tb slot (set_badge b x)) as (s' & -> & HT & B & L & _); [done|lia|].
  cbn [mbind option_bind]. right. exists s', c, x. split; [done|]. split; [done|].
  split; [by eapply cap_at_forest|]. split; [done|].
  split. { eapply cap_inv_touches; [done..|]. rewrite L. eapply pforest_relabel; try done.
           - apply Hx.
           - apply (pf_ok _ _ _ _ HF' _ _ Hx). }
  split; [by eapply stays_touches|]. intros c0 i y.
  rewrite (cap_at_touches c t s s' v tb _ c0 i y Hinv Hc Hl Ht HT Htb B).
  assert (valid (capacity v) (<[Z.to_nat slot:=set_badge b x]> tb) i y ↔
    ∃ y0, cap_at s c i y0 ∧ y = if i =? slot then set_badge b y0 else y0) as ->; [|done].
  setoid_rewrite (cap_at_forest s c v t tb K ∅); [|done..].
  destruct (Z.eqb_spec i slot) as [->|Hi].
  - rewrite valid_insert_eq by lia. split.
    + intros (_ & -> & _). eauto.
    + intros (y0 & Hy0 & ->). rewrite (valid_inj _ _ _ _ Hy0 Hx). split_and!; try lia; [done|apply Hx].
  - rewrite valid_insert_ne by lia. naive_solver.
Qed.
End effects.
