(* ===== verification/CapTheorems.v ===== *)
(** * Theorems about the capability system

    The properties of kernel/cap, stated over arbitrary sequences of calls where
    that makes sense, with a booted example system as witness. *)

From S2P Require Import Prelude KList CapTypes CSpace Capability CapForest CapInv CapOps CSpaceInv.
From S2P Require Import CapProps.

Set Default Goal Selector "!".

#[local] Arguments set_cap : simpl never.
#[local] Arguments get_cap : simpl never.
#[local] Arguments set_cs : simpl never.
#[local] Arguments get_cs : simpl never.

(** ** Calls *)

(** The state-changing calls of capability.c. *)
Inductive cap_op :=
  | OpMint (root slot ty kid r bdg : Z)
  | OpCopy (src_root src_slot dst_root dst_slot mask : Z)
  | OpDerive (src_root src_slot dst_root dst_slot r bdg : Z)
  | OpMove (src_root src_slot dst_root dst_slot : Z)
  | OpRevoke (root slot : Z)
  | OpDelete (root slot : Z)
  | OpBadge (root slot bdg : Z).

Definition run_cap_op (op : cap_op) (s : kstate) : option (kstate * Z) :=
  match op with
  | OpMint root slot ty kid r bdg => cap_mint root slot ty kid r bdg s
  | OpCopy sr ss dr ds mask => cap_copy sr ss dr ds mask s
  | OpDerive sr ss dr ds r bdg => cap_derive sr ss dr ds r bdg s
  | OpMove sr ss dr ds => cap_move sr ss dr ds s
  | OpRevoke root slot => cap_revoke root slot s
  | OpDelete root slot => cap_delete root slot s
  | OpBadge root slot bdg => cap_badge_update root slot bdg s
  end.

Fixpoint run_cap_ops (ops : list cap_op) (s : kstate) : option (kstate * list Z) :=
  match ops with
  | [] => Some (s, [])
  | op :: ops =>
      r ← run_cap_op op s; r' ← run_cap_ops ops r.1; Some (r'.1, r.2 :: r'.2)
  end.

(** Slot arguments are unsigned. *)
Definition op_range (op : cap_op) : Prop :=
  match op with
  | OpMint _ slot _ _ _ _ | OpRevoke _ slot | OpDelete _ slot | OpBadge _ slot _ => 0 <= slot
  | OpCopy _ ss _ ds _ | OpDerive _ ss _ ds _ _ | OpMove _ ss _ ds => 0 <= ss ∧ 0 <= ds
  end.

(** A capability that is moved to another CSpace is the parent of none: the code
    would link its children, slots of the old table, into the new one. *)
Definition move_ok (s : kstate) (sr ss dr : Z) : Prop :=
  ∀ sc dc, cspace_from_root s sr = Some (Some sc) → cspace_from_root s dr = Some (Some dc) → sc = dc ∨ leaf s sc ss.

Definition cap_op_ok (op : cap_op) (s : kstate) : Prop :=
  op_range op ∧ match op with OpMove sr ss dr _ => move_ok s sr ss dr | _ => True end.

(** Each call of the sequence is allowed in the state in which it is made. *)
Fixpoint cap_ops_ok (ops : list cap_op) (s : kstate) : Prop :=
  match ops with
  | [] => True
  | op :: ops => cap_op_ok op s ∧ ∀ s' ret, run_cap_op op s = Some (s', ret) → cap_ops_ok ops s'
  end.

(** A condition that does not depend on the state. *)
Definition op_static (op : cap_op) : Prop := op_range op ∧ match op with OpMove sr _ dr _ => sr = dr | _ => True end.

Lemma static_ok ops s : Forall op_static ops → cap_ops_ok ops s.
Proof.
  intros Hops. revert s. induction Hops as [|op ops [Hr Hm] _ IH]; intros s; [done|]. split; [split; [done|]|by intros; apply IH].
  destruct op; try done. subst. intros sc dc H1 H2. left. congruence.
Qed.

Definition is_mint (op : cap_op) : Prop := match op with OpMint _ _ _ _ _ _ => True | _ => False end.

(** Every capability of [s'] is covered by one of [s]. *)
Definition confined (s s' : kstate) : Prop :=
  ∀ c i y, cap_at s' c i y → ∃ c0 i0 y0, cap_at s c0 i0 y0 ∧ dominates y0 y.

Lemma cap_at_self s c i y : cap_at s c i y → ∃ c0 i0 y0, cap_at s c0 i0 y0 ∧ dominates y0 y.
Proof. intros Hy. exists c, i, y. by split. Qed.

Lemma confined_refl s : confined s s.
Proof. intros c i y. apply cap_at_self. Qed.

Lemma confined_trans s1 s2 s3 : confined s1 s2 → confined s2 s3 → confined s1 s3.
Proof.
  intros H12 H23 c i y Hy. destruct (H23 c i y Hy) as (c1 & i1 & y1 & Hy1 & Hd1).
  destruct (H12 _ _ _ Hy1) as (c2 & i2 & y2 & Hy2 & Hd2). exists c2, i2, y2. split; [done|]. by etrans.
Qed.

Lemma inserts_confined s s' c slot x c0 i0 y0 : inserts s s' c slot x → cap_at s c0 i0 y0 →
  dominates y0 x → confined s s'.
Proof.
  intros (_ & _ & _ & _ & Hat) Hy Hd c1 i y [(-> & -> & ->)|Hc]%Hat; [by exists c0, i0, y0|].
  by eapply cap_at_self.
Qed.

(** One call: it runs, an error leaves the state alone, the invariant is kept,
    and no authority appears except by minting. *)
Lemma run_cap_op_spec s op : cap_inv s → small s → cap_op_ok op s →
  ∃ s' ret, run_cap_op op s = Some (s', ret) ∧ (ret ≠ KERNEL_OK → s' = s) ∧ cap_inv s' ∧ stays s s' ∧
    (¬ is_mint op → confined s s').
Proof.
  intros Hinv Hsm [Hop Hmv].
  assert (∀ (e : Z) (l : list Z), e ∈ l → ∃ s' ret, Some (s, e) = Some (s', ret) ∧ (ret ≠ KERNEL_OK → s' = s) ∧
    cap_inv s' ∧ stays s s' ∧ (¬ is_mint op → confined s s')) as Herr.
  { intros e l _. exists s, e. split_and!; try done. intros _. apply confined_refl. }
  destruct op as [root slot ty kid r bdg|sr ss dr ds mask|sr ss dr ds r bdg|sr src dr dst|root slot|root slot|root slot b];
    cbn [run_cap_op op_range is_mint] in *.
  - destruct (cap_mint_spec s Hinv root slot ty kid r bdg Hop)
      as [(e & -> & He)|(s' & c & rc & x & -> & _ & _ & _ & (Hi & Hs & _) & _)]; [by eapply Herr|].
    exists s', KERNEL_OK. split_and!; try done; auto.
  - destruct Hop as [Hss Hds]. destruct (cap_copy_spec s Hinv sr ss dr ds mask Hss Hds)
      as [(e & -> & He)|(s' & sc & src & dc & x & -> & _ & _ & Hat & _ & _ & Hins & Hd & _)]; [by eapply Herr|].
    pose proof Hins as (Hi & Hs & _). exists s', KERNEL_OK. split_and!; try done; auto.
    intros _. by eapply inserts_confined.
  - destruct Hop as [Hss Hds]. destruct (cap_derive_spec s Hinv sr ss dr ds r bdg Hss Hds)
      as [(e & -> & He)|(s' & sc & src & dc & x & -> & _ & _ & Hat & _ & Hins & Hd & _)]; [by eapply Herr|].
    pose proof Hins as (Hi & Hs & _). exists s', KERNEL_OK. split_and!; try done; auto.
    intros _. by eapply inserts_confined.
  - destruct Hop as [Hss Hds]. destruct (decide (cspace_from_root s dr = cspace_from_root s sr)) as [Hsame|Hdiff].
    + destruct (cap_move_spec s Hinv sr src dr dst Hss Hds Hsame)
        as [(e & -> & He)|(s' & c & x & y & -> & _ & Hat & _ & H1 & H2 & H3 & _ & _ & Hi & Hs & Heff)];
        [by eapply Herr|].
      exists s', KERNEL_OK. split_and!; try done; auto. intros _ c1 i z Hz.
      apply Heff in Hz as [[-> [[-> ->]|(_ & _ & z0 & Hz0 & ->)]]|[_ Hz]].
      * exists c, src, x. split; [done|]. split_and!; [done..|]. unfold subrights. rewrite H3. apply Z.land_diag.
      * exists c, i, z0. split; [done|]. destruct (_ =? _); by split_and!.
      * by eapply cap_at_self.
    + destruct (cap_move_across s Hinv sr src dr dst Hss Hds)
        as [(e & -> & He)|(s' & sc & dc & x & y & -> & _ & _ & Hat & _ & H1 & H2 & H3 & _ & _ & Hi & Hs & Heff)]; [|by eapply Herr|].
      { intros sc dc E1 E2. destruct (Hmv sc dc E1 E2) as [->|Hlf]; [congruence|]. split; [congruence|done]. }
      exists s', KERNEL_OK. split_and!; try done; auto. intros _ c1 i z [(-> & -> & ->)|[Hz _]]%Heff; [|by eapply cap_at_self].
      exists sc, src, x. split; [done|]. split_and!; [done..|]. unfold subrights. rewrite H3. apply Z.land_diag.
  - destruct (cap_revoke_spec s Hinv root slot Hop)
      as [(e & -> & He)|(s' & ret & c & v & t & tb & x & -> & _ & Hc & Hl & _ & _ & _ & _ & _ & Hok & Hs & Hsub & _ & Hi)];
      [by eapply Herr|].
    specialize (Hok (Hsm c v Hc Hl)) as ->. destruct (Hi eq_refl) as [? _].
    exists s', KERNEL_OK. split_and!; try done; auto.
    intros _ c1 i y Hy. by eapply cap_at_self, Hsub.
  - destruct (cap_delete_spec s Hinv root slot Hop)
      as [(e & -> & He)|(s' & c & x & -> & _ & _ & Hi & Hs & Heff)]; [by eapply Herr|].
    exists s', KERNEL_OK. split_and!; try done; auto. intros _ c1 i z Hz.
    apply Heff in Hz as [[-> (_ & z0 & Hz0 & ->)]|[_ Hz]]; [|by eapply cap_at_self].
    exists c, i, z0. split; [done|]. destruct (_ =? _); by split_and!.
  - destruct (cap_badge_update_spec s Hinv root slot b Hop)
      as [(e & -> & He)|(s' & c & x & -> & _ & _ & _ & Hi & Hs & Heff)]; [by eapply Herr|].
    exists s', KERNEL_OK. split_and!; try done; auto. intros _ c1 i z Hz.
    apply Heff in Hz as [[-> (z0 & Hz0 & ->)]|[_ Hz]]; [|by eapply cap_at_self].
    exists c, i, z0. split; [done|]. destruct (_ =? _); by split_and!.
Qed.

Lemma run_cap_ops_spec ops s : cap_inv s → small s → cap_ops_ok ops s →
  ∃ s' rets, run_cap_ops ops s = Some (s', rets) ∧ cap_inv s' ∧ small s' ∧
    (Forall (λ op, ¬ is_mint op) ops → confined s s').
Proof.
  revert s. induction ops as [|op ops IH]; intros s Hinv Hsm Hops.
  { exists s, []. split_and!; try done. intros _. apply confined_refl. }
  destruct Hops as [Hop Hops]. destruct (run_cap_op_spec s op Hinv Hsm Hop) as (s1 & ret & E1 & _ & Hi1 & Hs1 & Hc1).
  destruct (IH s1 Hi1 (small_stays _ _ Hs1 Hsm) (Hops s1 ret E1)) as (s2 & rets & E2 & Hi2 & Hs2 & Hc2).
  exists s2, (ret :: rets). cbn [run_cap_ops]. rewrite E1. cbn [mbind option_bind fst snd].
  rewrite E2. cbn [mbind option_bind fst snd]. split_and!; try done.
  intros [? ?]%Forall_cons. eapply confined_trans; eauto.
Qed.

(** ** An example system: one CSpace of ten slots

    An allocator that meets the contract of [SlabSpec]: its state is the list of
    live blocks, a new block is named above all of them. *)

#[global] Instance bump_ops : SlabOps (list Z) := {|
  slab_create i size a := (a, KERNEL_OK);
  slab_destroy i a := a;
  slab_alloc i a := let t := foldr Z.max 0 a + 1 in
    Some (t, replicate (Z.to_nat ((i + 1) * 64)) cap_zero, t :: a);
  slab_free i t a := filter (λ t', t' ≠ t) a
|}.

Lemma foldr_max_le (l : list Z) t : t ∈ l → t <= foldr Z.max 0 l.
Proof. induction 1; cbn; lia. Qed.

#[global] Instance bump_spec : SlabSpec (list Z).
Proof.
  refine {| slab_live a := list_to_set a |}.
  - intros i a t raw a' [= <- <- <-]. split; [|done].
    rewrite elem_of_list_to_set. intros H%foldr_max_le. lia.
  - intros i a t raw a' Hi [= <- <- <-]. rewrite length_replicate. lia.
  - intros i t a _. cbn. apply set_eq. intros j.
    rewrite elem_of_difference, !elem_of_list_to_set, list_elem_of_filter. set_solver.
Defined.

Lemma bump_caches n i (a : list Z) : create_caches n i a = (a, KERNEL_OK).
Proof. revert i. induction n as [|n IH]; intros i; [done|]. cbn. apply IH. Qed.

Definition power_on : kstate := KState [] (replicate 32 0) 0 0 [] [] ∅ ∅.

Definition demo_boot : option kstate :=
  r ← cspace_subsys_init [] power_on;
  r ← cspace_create 10 true r.1.1 r.1.2;
  Some r.1.1.2.

Lemma demo_inv : ∃ s, demo_boot = Some s ∧ cap_inv s ∧ small s.
Proof.
  destruct (cspace_subsys_init_spec [] power_on) as (a & s0 & ret & E0 & Hp & Hc & Hno & Hfc & Hid);
    [done|].
  assert (a = []) as ->.
  { unfold cspace_subsys_init in E0. apply bind_Some in E0 as (st & _ & E0).
    rewrite bump_caches in E0.
    apply (f_equal (λ o : option (list Z * kstate * Z), from_option (λ r, r.1.1) a o)) in E0. symmetry. exact E0. }
  destruct (cspace_create_inv [] s0 10 1 (replicate 64 cap_zero) [1]) as (s & c & v & E & (_ & Hi & _) & Hl & _ & Hcap & _ & _ & Hlive & _).
  - split; [done|]. split; [done|]. intros c v t Hv. destruct (Hno c v Hv).
  - unfold CSPACE_MAX_CAPACITY. lia.
  - rewrite Hfc. unfold CONFIG_MAX_CSPACES. lia.
  - rewrite Hid. lia.
  - reflexivity.
  - exists s. split; [|split; [done|]].
    + unfold demo_boot. rewrite E0. cbn [mbind option_bind fst snd]. by rewrite E.
    + intros i w Hi' Hw. destruct (proj1 (Hlive i w) (conj Hi' Hw)) as [[-> ->]|Hw'];
        [rewrite Hcap; unfold REVOKE_STACK_SIZE, CONFIG_MAX_CSPACES; lia|destruct (Hno i w Hw')].
Qed.

#[global] Opaque demo_boot.

(** The example system after some calls. *)
Definition demo_after (ops : list cap_op) : option kstate :=
  s ← demo_boot; r ← run_cap_ops ops s; Some r.1.

Lemma demo_after_inv ops : Forall op_static ops →
  ∃ s, demo_after ops = Some s ∧ cap_inv s ∧ small s.
Proof.
  intros Hops. destruct demo_inv as (s0 & E0 & Hi & Hs).
  destruct (run_cap_ops_spec ops s0 Hi Hs (static_ok ops s0 Hops)) as (s & rets & E & Hi' & Hs' & _).
  exists s. unfold demo_after. rewrite E0. cbn [mbind option_bind]. rewrite E.
  cbn [mbind option_bind fst]. exact (conj eq_refl (conj Hi' Hs')).
Qed.

#[global] Opaque demo_after.

(** [runs_to ops f P]: in the example system after [ops], the call [f] returns
    and its result satisfies [P]; decided by evaluation. *)
Definition runs_to {B} (ops : list cap_op) (f : kstate → option B) (P : B → bool) : bool :=
  match (s ← demo_after ops; f s) with Some r => P r | None => false end.

Lemma runs_to_true {B} ops (f : kstate → option B) P s :
  demo_after ops = Some s → runs_to ops f P = true → ∃ r, f s = Some r ∧ P r = true.
Proof.
  intros E. unfold runs_to. rewrite E. cbn [mbind option_bind]. destruct (f s); [eauto|done].
Qed.

Lemma runs_ok ops (f : kstate → option (kstate * Z)) s :
  demo_after ops = Some s → runs_to ops f (λ r, r.2 =? KERNEL_OK) = true →
  ∃ s', f s = Some (s', KERNEL_OK).
Proof.
  intros E H. destruct (runs_to_true _ _ _ _ E H) as ([s' r] & Hr & Hok). exists s'.
  rewrite Hr. cbn in Hok. by apply Z.eqb_eq in Hok as ->.
Qed.

(** The capability that the code finds in a slot of root [root]. *)
Definition look (root slot : Z) (s : kstate) : option (option cap_t) :=
  c ← cspace_from_root s root;
  match c with
  | None => Some None
  | Some c => l ← lookup_valid s c slot; Some (option_map snd l)
  end.

Lemma look_cap_at s root slot x : cap_inv s → 0 <= slot → look root slot s = Some (Some x) →
  ∃ c, cspace_from_root s root = Some (Some c) ∧ cap_at s c slot x.
Proof.
  intros Hi Hs E. unfold look in E.
  destruct (from_root_forest s root Hi) as [E1|(c & v & t & tb & K & E1 & Hc & Hl & HF)];
    rewrite E1 in E; cbn [mbind option_bind] in E; [done|].
  rewrite (lookup_valid_spec s c v t tb K ∅) in E by done. cbn [mbind option_bind] in E.
  destruct (valid_dec tb slot) as [[y Hy]|Hno]; cbn in E; [|done]. injection E as <-.
  exists c. split; [done|]. by eapply cap_at_forest.
Qed.

Lemma demo_look ops s root slot (P : cap_t → bool) : cap_inv s → 0 <= slot → demo_after ops = Some s →
  runs_to ops (look root slot) (from_option P false) = true →
  ∃ c x, cspace_from_root s root = Some (Some c) ∧ cap_at s c slot x ∧ P x = true.
Proof.
  intros Hi Hs E H. destruct (runs_to_true _ _ _ _ E H) as ([x|] & El & HP); [|done].
  destruct (look_cap_at s root slot x Hi Hs El) as (c & ? & ?). eauto.
Qed.

(** A thread capability with every right in slot 1, a weaker one derived from it
    in slot 2 and one derived from that in slot 3. *)
Definition demo_ops : list cap_op :=
  [OpMint 1 1 KOBJ_THREAD 7 (with_revoke (with_grant RW)) 0;
   OpDerive 1 1 1 2 (with_grant RW) 5; OpDerive 1 2 1 3 (with_grant R) 6].

Lemma demo_ops_range : Forall op_static demo_ops.
Proof. repeat constructor; cbn; lia. Qed.

(** ** The whole interface *)

(** Started in a state that satisfies the invariant (each CSpace's VALID
    slots form a derivation forest whose child lists are well-formed intrusive
    lists, with bounded depth and rights allowed by the type matrix), any
    sequence of mint, copy, derive, move, revoke, delete and badge calls runs
    without undefined behaviour, every loop terminating, and ends in such a
    state. *)
Theorem cap_ops_keep_invariant ops s : cap_inv s → small s → cap_ops_ok ops s →
  ∃ s' rets, run_cap_ops ops s = Some (s', rets) ∧ cap_inv s' ∧ small s'.
Proof.
  intros Hi Hs Ho. destruct (run_cap_ops_spec ops s Hi Hs Ho) as (s' & rets & ? & ? & ? & _). eauto 6.
Qed.

Lemma cap_ops_keep_invariant_witness : ∃ s s' rets, demo_boot = Some s ∧
  run_cap_ops demo_ops s = Some (s', rets) ∧ cap_inv s' ∧ small s'.
Proof.
  destruct demo_inv as (s & E & Hi & Hs).
  destruct (cap_ops_keep_invariant demo_ops s Hi Hs (static_ok _ s demo_ops_range)) as (s' & rets & H). eauto.
Defined.

(** C33: Authority is confined.  After any sequence of copy, derive, move, revoke,
    delete and badge calls, within one CSpace or across several, every capability
    that exists names an object that a capability named before, with a subset of
    that capability's rights.  The state before meets the invariant, the CSpaces
    have at most 128 slots, the size of the revocation stack, and no capability
    that has children is moved to another CSpace ([cap_ops_ok]). *)
Theorem cap_authority_confined ops s s' rets : cap_inv s → small s → cap_ops_ok ops s →
  Forall (λ op, ¬ is_mint op) ops → run_cap_ops ops s = Some (s', rets) → confined s s'.
Proof.
  intros Hi Hs Ho Hm E. destruct (run_cap_ops_spec ops s Hi Hs Ho) as (s1 & rets1 & E1 & _ & _ & Hc).
  rewrite E in E1. injection E1 as <- <-. auto.
Qed.

Lemma cap_authority_confined_witness : ∃ s s' rets, demo_after demo_ops = Some s ∧
  run_cap_ops [OpDelete 1 1; OpDerive 1 2 1 4 R 9] s = Some (s', rets) ∧ confined s s'.
Proof.
  destruct (demo_after_inv demo_ops demo_ops_range) as (s & E & Hi & Hs).
  set (ops := [OpDelete 1 1; OpDerive 1 2 1 4 R 9]).
  assert (cap_ops_ok ops s) as Ho by (apply static_ok; repeat constructor; cbn; lia).
  destruct (run_cap_ops_spec ops s Hi Hs Ho) as (s' & rets & E1 & _).
  exists s, s', rets. split; [done|]. split; [done|].
  apply (cap_authority_confined ops s s' rets Hi Hs Ho); [|done]. repeat constructor; cbn; tauto.
Defined.

(** C35: In a state that meets the invariant and whose CSpaces have at most 128
    slots, every mint, copy, derive, move, revoke, delete and badge call returns,
    and one that returns an error leaves the whole state as it was.  Moves of a
    capability with children to another CSpace are left out ([cap_op_ok]); in
    larger CSpaces a revocation may return ENOMEM after it has freed some
    capabilities. *)
Theorem cap_failed_op_no_effect op s : cap_inv s → small s → cap_op_ok op s →
  ∃ s' ret, run_cap_op op s = Some (s', ret) ∧ (ret ≠ KERNEL_OK → s' = s).
Proof.
  intros Hi Hs Ho. destruct (run_cap_op_spec s op Hi Hs Ho) as (s' & ret & ? & ? & _). eauto.
Qed.

Lemma cap_failed_op_no_effect_witness : ∃ s, demo_after demo_ops = Some s ∧
  run_cap_op (OpDerive 1 3 1 4 RW 0) s = Some (s, - EACCES).
Proof.
  destruct (demo_after_inv demo_ops demo_ops_range) as (s & E & Hi & Hs). exists s. split; [done|].
  destruct (cap_failed_op_no_effect (OpDerive 1 3 1 4 RW 0) s Hi Hs) as (s' & ret & E1 & Hno);
    [split; [cbn; lia|done]|].
  assert (runs_to demo_ops (run_cap_op (OpDerive 1 3 1 4 RW 0)) (λ r, r.2 =? - EACCES) = true) as Hr
    by (vm_compute; reflexivity).
  destruct (runs_to_true _ _ _ _ E Hr) as (r & E2 & Hret). rewrite E1 in E2. injection E2 as <-.
  apply Z.eqb_eq in Hret. cbn in Hret. subst ret. by rewrite Hno in E1.
Defined.

(** ** Single operations *)

Lemma err_not_ok e : e ∈ [- EINVAL; - ENOENT; - EACCES] → e ≠ KERNEL_OK.
Proof. set_unfold. unfold KERNEL_OK, EINVAL, ENOENT, EACCES. lia. Qed.

(** An error outcome contradicts success. *)
Lemma err_contra {B} (o : option (B * Z)) (s s' : B) e (l : list Z) :
  o = Some (s, e) → e ∈ l → l ⊆ [- EINVAL; - ENOENT; - EACCES] → o = Some (s', KERNEL_OK) → False.
Proof. intros -> He Hl [= _ ->]. by apply Hl, err_not_ok in He. Qed.

(** A successful [cap_derive] puts into the free destination slot a
    capability for the same object whose rights are a proper subset of the
    source's, a child of the source slot; the source holds GRANT, and nothing
    else changes in any CSpace. *)
Theorem cap_derive_strict s s' sr ss dr ds r bdg : cap_inv s → 0 <= ss → 0 <= ds →
  cap_derive sr ss dr ds r bdg s = Some (s', KERNEL_OK) →
  ∃ sc dc src x, cspace_from_root s sr = Some (Some sc) ∧ cspace_from_root s dr = Some (Some dc) ∧
    cap_at s sc ss src ∧ Z.land (rights src) CAP_RIGHT_GRANT ≠ CAP_RIGHT_NONE ∧
    kobj_type x = kobj_type src ∧ kobj_id x = kobj_id src ∧ badge x = bdg ∧ parent_slot x = ss ∧
    rights x = r ∧ subrights r (rights src) ∧ r ≠ rights src ∧
    derive_depth x <= CAP_MAX_DERIVE_DEPTH ∧ (∀ y, ¬ cap_at s dc ds y) ∧
    ∀ c i y, cap_at s' c i y ↔ (c = dc ∧ i = ds ∧ y = x) ∨ cap_at s c i y.
Proof.
  intros Hi Hss Hds E. destruct (cap_derive_spec s Hi sr ss dr ds r bdg Hss Hds)
    as [(e & E1 & He)|(s1 & sc & src & dc & x & E1 & E2 & E3 & Hat & Hg & Hins & (? & ? & Hsub) & Hr & Hne & Hb & Hp)].
  { by destruct (err_contra _ _ _ _ _ E1 He (reflexivity _) E). }
  rewrite E in E1. injection E1 as <-. destruct Hins as (_ & _ & Hfree & Hdep & Heff).
  exists sc, dc, src, x. rewrite Hr in Hsub. split_and!; try done. lia.
Qed.

Lemma cap_derive_strict_witness : ∃ s s', demo_after demo_ops = Some s ∧
  cap_derive 1 2 1 4 RW 9 s = Some (s', KERNEL_OK) ∧
  ∃ c x, cap_at s' c 4 x ∧ rights x = RW.
Proof.
  destruct (demo_after_inv demo_ops demo_ops_range) as (s & E & Hi & Hs).
  destruct (runs_ok demo_ops (cap_derive 1 2 1 4 RW 9) s E) as [s' E']; [vm_compute; reflexivity|].
  exists s, s'. split; [exact E|]. split; [exact E'|].
  destruct (cap_derive_strict s s' 1 2 1 4 RW 9 Hi ltac:(lia) ltac:(lia) E')
    as (sc & dc & src & x & _ & _ & _ & _ & _ & _ & _ & _ & Hr & _ & _ & _ & _ & Heff).
  exists dc, x. split; [apply Heff; left; repeat split|exact Hr].
Defined.

(** [slot] of CSpace [c] is in range and FREE. *)
Definition slot_free (s : kstate) (c slot : Z) : Prop :=
  ∃ v t tb x, get_cs s c = Some v ∧ cap_table v = Some t ∧ tables s !! t = Some tb ∧
    0 <= slot < capacity v ∧ tb.[slot] = Some x ∧ state x = CAP_STATE_FREE.

(** Within one CSpace [cap_derive] does succeed whenever the interface says
    so: the source holds GRANT, the new rights are a proper subset that keeps
    READ, the source is not at maximal depth and the destination slot is free. *)
Theorem cap_derive_succeeds s root c src dst x r bdg : cap_inv s →
  cspace_from_root s root = Some (Some c) → root ≠ CAP_SLOT_INVALID → src ≠ CAP_SLOT_INVALID →
  dst ≠ CAP_SLOT_INVALID → cap_at s c src x → Z.land (rights x) CAP_RIGHT_GRANT ≠ CAP_RIGHT_NONE →
  subrights r (rights x) → r ≠ rights x → Z.land r CAP_RIGHT_READ = CAP_RIGHT_READ →
  derive_depth x < CAP_MAX_DERIVE_DEPTH → slot_free s c dst →
  ∃ s', cap_derive root src root dst r bdg s = Some (s', KERNEL_OK).
Proof.
  intros Hi Er Hrt Hsrc Hdst (v & t & tb & Hc & Hl & Ht & Htb & Hx) Hg Hsub Hne Hrd Hd Hfree.
  destruct (ci_forest _ Hi c v Hc Hl) as (t' & tb' & K & HF). pose proof HF as (Ht' & Htb' & HF').
  assert (t' = t) as -> by congruence. assert (tb' = tb) as -> by congruence.
  destruct Hfree as (v1 & t1 & tb1 & old & Hv1 & Ht1 & Htb1 & Hr & Hold & Hst).
  assert (v1 = v) as -> by congruence. assert (t1 = t) as -> by congruence.
  assert (tb1 = tb) as -> by congruence.
  unfold cap_derive, resolve_dual. rewrite !(proj2 (Z.eqb_neq _ _)) by done. cbn [orb].
  rewrite Er. cbn [mbind option_bind]. pose proof Hx as [Hxr _].
  rewrite (lookup_valid_spec s c v t tb K ∅) by (done || lia). cbn [mbind option_bind].
  destruct (valid_dec tb src) as [[y Hy]|Hno]; [|by apply Hno in Hx].
  rewrite (valid_inj _ _ _ _ Hy Hx). rewrite (proj2 (Z.eqb_neq _ _)) by done. cbn [mbind option_bind].
  unfold subrights in Hsub. rewrite (proj2 (Z.eqb_eq _ _) Hsub). cbn [negb].
  rewrite (proj2 (Z.eqb_neq _ _)) by done.
  destruct (cap_insert_locked_spec s c v t tb K Hc HF dst (kobj_type x) (kobj_id x) r bdg src)
    as [[_ Hno]|(s' & d & inh & E & _)]; [lia..| |by exists s'].
  destruct (Hno (derive_depth x + 1)). split; [done|]. split; [by exists old|]. split.
  - eapply rights_matrix_weaken; [apply (pf_ok _ _ _ _ HF' _ _ Hx)|done..].
  - right. split; [done|]. by exists x.
Qed.

(** The slot as the code finds it. *)
Definition look_free (root slot : Z) (s : kstate) : option bool :=
  c ← cspace_from_root s root; c ← c; v ← get_cs s c; t ← cap_table v; x ← get_cap s t slot;
  Some ((0 <=? slot) && (slot <? capacity v) && bool_decide (state x = CAP_STATE_FREE)).

Lemma look_slot_free s root slot c : cspace_from_root s root = Some (Some c) →
  look_free root slot s = Some true → slot_free s c slot.
Proof.
  intros Er E. unfold look_free in E. rewrite Er in E. cbn [mbind option_bind] in E.
  apply bind_Some in E as (v & Hv & E). apply bind_Some in E as (t & Ht & E).
  apply bind_Some in E as (x & Hx & E). unfold get_cap in Hx. apply bind_Some in Hx as (tb & Htb & Hx).
  injection E as E. apply andb_true_iff in E as [E Hst%bool_decide_eq_true].
  exists v, t, tb, x. split_and!; try done; lia.
Qed.

Lemma demo_slot_free ops s root slot c : demo_after ops = Some s →
  cspace_from_root s root = Some (Some c) →
  runs_to ops (look_free root slot) (λ b, b) = true → slot_free s c slot.
Proof.
  intros E Er H. destruct (runs_to_true _ _ _ _ E H) as (b & Hb & ->). by eapply look_slot_free.
Qed.

Definition derivable (x : cap_t) (r : Z) : bool :=
  negb (Z.land (rights x) CAP_RIGHT_GRANT =? CAP_RIGHT_NONE) && (Z.land r (rights x) =? r)
  && negb (r =? rights x) && (derive_depth x <? CAP_MAX_DERIVE_DEPTH).

Lemma cap_derive_succeeds_witness : ∃ s s', demo_after demo_ops = Some s ∧
  cap_derive 1 3 1 4 R 9 s = Some (s', KERNEL_OK).
Proof.
  destruct (demo_after_inv demo_ops demo_ops_range) as (s & E & Hi & Hs). exists s.
  destruct (demo_look demo_ops s 1 3 (λ x, derivable x R) Hi ltac:(lia) E) as (c & x & Er & Hx & Hd);
    [vm_compute; reflexivity|].
  assert (slot_free s c 4) as Hfree
    by (apply (demo_slot_free demo_ops s 1 4 c E Er); vm_compute; reflexivity).
  unfold derivable in Hd. rewrite !andb_true_iff, !negb_true_iff, !Z.eqb_neq, Z.eqb_eq, Z.ltb_lt in Hd.
  destruct Hd as [[[Hg Hsub] Hne] Hlt].
  destruct (cap_derive_succeeds s 1 c 3 4 x R 9 Hi Er) as [s' E'];
    [discriminate..|exact Hx|exact Hg|exact Hsub|exact Hne|reflexivity|exact Hlt|exact Hfree|].
  exists s'. split; [exact E|exact E'].
Defined.

(** Minting needs WRITE and GRANT on the CSpace's root capability, gives
    exactly the capability asked for, as a root of the derivation forest, and
    only with rights the type matrix allows. *)
Theorem cap_mint_guarded s s' root slot ty kid r bdg : cap_inv s → 0 <= slot →
  cap_mint root slot ty kid r bdg s = Some (s', KERNEL_OK) →
  ∃ c v rc x, cspace_from_root s root = Some (Some c) ∧ get_cs s c = Some v ∧
    cap_at s c (root_slot v) rc ∧
    subrights (Z.lor CAP_RIGHT_WRITE CAP_RIGHT_GRANT) (rights rc) ∧
    cap_validate_rights_for_type ty r = KERNEL_OK ∧ (∀ y, ¬ cap_at s c slot y) ∧
    kobj_type x = ty ∧ kobj_id x = kid ∧ rights x = r ∧ badge x = bdg ∧
    parent_slot x = CAP_SLOT_INVALID ∧ derive_depth x = 0 ∧
    ∀ c0 i y, cap_at s' c0 i y ↔ (c0 = c ∧ i = slot ∧ y = x) ∨ cap_at s c0 i y.
Proof.
  intros Hi Hs E. destruct (cap_mint_spec s Hi root slot ty kid r bdg Hs)
    as [(e & E1 & He)|(s1 & c & rc & x & E1 & E2 & (v & Hv & Hrc) & Hsub & (_ & _ & Hfree & _ & Heff) & Hx)].
  { by destruct (err_contra _ _ _ _ _ E1 He (reflexivity _) E). }
  rewrite E in E1. injection E1 as <-. destruct Hx as (? & ? & ? & ? & ? & ? & ?).
  exists c, v, rc, x. split_and!; done.
Qed.

Lemma cap_mint_guarded_witness : ∃ s s', demo_after [] = Some s ∧
  cap_mint 1 5 KOBJ_CHANNEL 12 RW 3 s = Some (s', KERNEL_OK) ∧
  ∃ c x, cap_at s' c 5 x ∧ kobj_id x = 12 ∧ parent_slot x = CAP_SLOT_INVALID.
Proof.
  destruct (demo_after_inv []) as (s & E & Hi & Hs); [constructor|].
  destruct (runs_ok [] (cap_mint 1 5 KOBJ_CHANNEL 12 RW 3) s E) as [s' E']; [vm_compute; reflexivity|].
  exists s, s'. split; [exact E|]. split; [exact E'|].
  destruct (cap_mint_guarded s s' 1 5 KOBJ_CHANNEL 12 RW 3 Hi ltac:(lia) E')
    as (c & v & rc & x & _ & _ & _ & _ & _ & _ & _ & Hid & _ & _ & Hp & _ & Heff).
  exists c, x. split; [apply Heff; left; repeat split|]. split; [exact Hid|exact Hp].
Defined.





(** A successful [cap_delete] frees exactly the named slot; the capabilities
    derived from it stay, as roots of their own, and all others are unchanged. *)
Theorem cap_delete_orphans s s' root slot : cap_inv s → 0 <= slot →
  cap_delete root slot s = Some (s', KERNEL_OK) →
  ∃ c x, cspace_from_root s root = Some (Some c) ∧ cap_at s c slot x ∧ cap_inv s' ∧
    ∀ c0 i y, cap_at s' c0 i y ↔
      (c0 = c ∧ i ≠ slot ∧ ∃ y0, cap_at s c i y0 ∧
         y = if parent_slot y0 =? slot then set_parent CAP_SLOT_INVALID y0 else y0) ∨
      (c0 ≠ c ∧ cap_at s c0 i y).
Proof.
  intros Hi Hs E. destruct (cap_delete_spec s Hi root slot Hs)
    as [(e & E1 & He)|(s1 & c & x & E1 & E2 & Hx & Hi' & _ & Heff)].
  { destruct (err_contra _ _ _ _ _ E1 He ltac:(set_solver) E). }
  rewrite E in E1. injection E1 as <-. exists c, x. split_and!; done.
Qed.

Lemma cap_delete_orphans_witness : ∃ s s', demo_after demo_ops = Some s ∧
  cap_delete 1 2 s = Some (s', KERNEL_OK) ∧
  ∃ c y, cap_at s' c 3 y ∧ parent_slot y = CAP_SLOT_INVALID.
Proof.
  destruct (demo_after_inv demo_ops demo_ops_range) as (s & E & Hi & Hs).
  destruct (runs_ok demo_ops (cap_delete 1 2) s E) as [s' E']; [vm_compute; reflexivity|].
  exists s, s'. split; [exact E|]. split; [exact E'|].
  destruct (demo_look demo_ops s 1 3 (λ x, parent_slot x =? 2) Hi ltac:(lia) E)
    as (c & x & Er & Hx & Hp); [vm_compute; reflexivity|].
  destruct (cap_delete_orphans s s' 1 2 Hi ltac:(lia) E') as (c1 & x1 & Er1 & _ & _ & Heff).
  rewrite Er in Er1. injection Er1 as <-. exists c, (set_parent CAP_SLOT_INVALID x).
  split; [|reflexivity]. apply Heff. left. split; [reflexivity|]. split; [discriminate|].
  exists x. split; [exact Hx|]. rewrite Hp. reflexivity.
Defined.

(** A successful [cap_move] inside a CSpace moves the capability with its
    object, rights, badge and parent to the free destination, empties the
    source, redirects the children to the destination, and changes nothing
    else. *)
Theorem cap_move_within s s' root src dst : cap_inv s → 0 <= src → 0 <= dst →
  cap_move root src root dst s = Some (s', KERNEL_OK) →
  ∃ c x y, cspace_from_root s root = Some (Some c) ∧ cap_at s c src x ∧ (∀ z, ¬ cap_at s c dst z) ∧
    kobj_type y = kobj_type x ∧ kobj_id y = kobj_id x ∧ rights y = rights x ∧ badge y = badge x ∧
    parent_slot y = parent_slot x ∧ cap_inv s' ∧
    ∀ c0 i z, cap_at s' c0 i z ↔
      (c0 = c ∧ ((i = dst ∧ z = y) ∨ (i ≠ src ∧ i ≠ dst ∧ ∃ z0, cap_at s c i z0 ∧
         z = if parent_slot z0 =? src then set_parent dst z0 else z0))) ∨
      (c0 ≠ c ∧ cap_at s c0 i z).
Proof.
  intros Hi Hs Hd E. destruct (cap_move_spec s Hi root src root dst Hs Hd eq_refl)
    as [(e & E1 & He)|(s1 & c & x & y & E1 & E2 & Hx & Hfree & ? & ? & ? & ? & ? & Hi' & _ & Heff)].
  { by destruct (err_contra _ _ _ _ _ E1 He (reflexivity _) E). }
  rewrite E in E1. injection E1 as <-. exists c, x, y. split_and!; done.
Qed.

Lemma cap_move_within_witness : ∃ s s', demo_after demo_ops = Some s ∧
  cap_move 1 2 1 6 s = Some (s', KERNEL_OK) ∧
  ∃ c y z, cap_at s' c 6 y ∧ cap_at s' c 3 z ∧ parent_slot z = 6.
Proof.
  destruct (demo_after_inv demo_ops demo_ops_range) as (s & E & Hi & Hs).
  destruct (runs_ok demo_ops (cap_move 1 2 1 6) s E) as [s' E']; [vm_compute; reflexivity|].
  exists s, s'. split; [exact E|]. split; [exact E'|].
  destruct (demo_look demo_ops s 1 3 (λ x, parent_slot x =? 2) Hi ltac:(lia) E)
    as (c & x & Er & Hx & Hp); [vm_compute; reflexivity|].
  destruct (cap_move_within s s' 1 2 6 Hi ltac:(lia) ltac:(lia) E')
    as (c1 & x1 & y & Er1 & _ & _ & _ & _ & _ & _ & _ & _ & Heff).
  rewrite Er in Er1. injection Er1 as <-. exists c, y, (set_parent 6 x). split; [|split; [|reflexivity]].
  - apply Heff. left. split; [reflexivity|]. left. split; reflexivity.
  - apply Heff. left. split; [reflexivity|]. right. split; [discriminate|]. split; [discriminate|].
    exists x. split; [exact Hx|]. rewrite Hp. reflexivity.
Defined.

(** [cap_validate] always returns, and answers exactly: OK with the slot's
    address when the root resolves and the slot holds a VALID capability with
    all required rights, EACCES when it holds one that lacks some, ENOENT when
    it holds none, EINVAL when the arguments do not resolve. *)
Theorem cap_validate_correct s root slot required : cap_inv s → 0 <= slot →
  ∃ out ret, cap_validate root slot required s = Some (out, ret) ∧
    match (if (root =? CAP_SLOT_INVALID) || (slot =? CAP_SLOT_INVALID) then None
           else default None (cspace_from_root s root)) with
    | None => out = None ∧ ret = - EINVAL
    | Some c =>
        (ret = KERNEL_OK ∧ ∃ v t x, get_cs s c = Some v ∧ cap_table v = Some t ∧ out = Some (t, slot) ∧
           cap_at s c slot x ∧ subrights required (rights x)) ∨
        (ret = - EACCES ∧ out = None ∧ ∃ x, cap_at s c slot x ∧ ¬ subrights required (rights x)) ∨
        (ret = - ENOENT ∧ out = None ∧ ∀ x, ¬ cap_at s c slot x)
    end.
Proof.
  intros Hi Hs. unfold cap_validate, resolve. destruct ((root =? _) || _); cbn [mbind option_bind]; [by exists None, (- EINVAL)|].
  destruct (from_root_forest s root Hi) as [->|(c & v & t & tb & K & -> & Hc & Hl & HF)];
    cbn [mbind option_bind]; [by exists None, (- EINVAL)|].
  rewrite (lookup_valid_spec s c v t tb K ∅ Hc HF slot Hs). cbn [mbind option_bind].
  pose proof HF as (Ht & _).
  destruct (valid_dec tb slot) as [[x Hx]|Hno].
  - assert (cap_at s c slot x) as Hat by (by eapply cap_at_forest).
    unfold cap_rights_check. destruct (Z.eqb_spec (Z.land (rights x) required) required) as [Hr|Hr]; cbn [negb];
      eexists _, _; (split; [done|]).
    + left. split; [done|]. exists v, t, x. split_and!; try done. unfold subrights. by rewrite Z.land_comm.
    + right; left. split; [done|]. split; [done|]. exists x. split; [done|].
      unfold subrights. by rewrite Z.land_comm.
  - eexists _, _. split; [done|]. right; right. split; [done|]. split; [done|].
    intros x Hx%(cap_at_forest s c v t tb K ∅); [|done..]. by apply (Hno x).
Qed.

Lemma cap_validate_correct_witness : ∃ s out ret, demo_after demo_ops = Some s ∧
  cap_validate 1 3 R s = Some (out, ret).
Proof.
  destruct (demo_after_inv demo_ops demo_ops_range) as (s & E & Hi & Hs).
  destruct (cap_validate_correct s 1 3 R Hi ltac:(lia)) as (out & ret & E' & _).
  exists s, out, ret. split; [exact E|exact E'].
Defined.
