(* ===== verification/CapSystem.v ===== *)
(** * The capability system as a whole

    Creation and destruction of CSpaces interleaved with every call on
    capabilities, from the initialisation of the subsystem on, against any slab
    allocator that meets [SlabSpec]. *)

From S2P Require Import Prelude KList CapTypes CSpace Capability CapForest CapInv CapOps CSpaceInv CSpaceLife.
From S2P Require Import CapProps CapTheorems.

Set Default Goal Selector "!".

#[local] Arguments set_cap : simpl never.
#[local] Arguments get_cap : simpl never.
#[local] Arguments set_cs : simpl never.
#[local] Arguments get_cs : simpl never.

(** ** Calls *)

Inductive sys_op :=
  | SysCreate (cap : Z)
  | SysDestroy (root : Z)
  | SysCap (op : cap_op).


Section system.
Context {A : Type} `{!SlabOps A, !SlabSpec A}.

(** The holder of an id destroys the CSpace that the id resolves to. *)
Definition run_sys_op (op : sys_op) (a : A) (s : kstate) : option (A * kstate * Z) :=
  match op with
  | SysCreate cap => r ← cspace_create cap true a s; Some (r.1.1, r.2)
  | SysDestroy root =>
      cs ← cspace_from_root s root; r ← cspace_destroy cs a s; Some (r, KERNEL_OK)
  | SysCap op => r ← run_cap_op op s; Some (a, r.1, r.2)
  end.

Fixpoint run_sys_ops (ops : list sys_op) (a : A) (s : kstate) : option (A * kstate * list Z) :=
  match ops with
  | [] => Some (a, s, [])
  | op :: ops =>
      r ← run_sys_op op a s;
      r' ← run_sys_ops ops r.1.1 r.1.2;
      Some (r'.1, r.2 :: r'.2)
  end.


(** ** One call *)







(** ** Theorems *)


(** A successful creation hands out a fresh CSpace: the id is new and
    resolves to it, its table holds only the root capability for itself, and no
    capability of another CSpace changes. *)
Theorem cspace_create_fresh a a' s cap t raw : sys_inv a s → 0 < cap <= CSPACE_MAX_CAPACITY →
  0 < s_cspace_free_count s → s_cspace_id_counter s + 1 < 2 ^ 32 →
  slab_alloc (cap / 64) a = Some (t, raw, a') →
  ∃ s' c v, cspace_create cap true a s = Some (a', s', Some c, KERNEL_OK) ∧ sys_inv a' s' ∧
    live_at s' c v ∧ capacity v = cap ∧ (∀ w, ¬ live_at s c w) ∧
    cspace_from_root s' (id (header v)) = Some (Some c) ∧
    (∀ c0 v0, live_at s c0 v0 → id (header v0) ≠ id (header v)) ∧
    ∀ c0 i y, cap_at s' c0 i y ↔ (c0 = c ∧ i = 0 ∧ y = root_cap (id (header v))) ∨ cap_at s c0 i y.
Proof.
  intros Hinv Hcap Hfc Hid Hsl. pose proof Hinv as (Hp & Hci & Hbl).
  destruct (cspace_create_inv a s cap t raw a' Hinv Hcap Hfc Hid Hsl)
    as (s' & c & v & E & Hinv' & Hl & Hidv & Hcv & Hroot & Hdead & Hlive & tb & Hcr).
  exists s', c, v. split; [done|]. split; [done|]. split; [done|]. split; [done|]. split; [done|]. split; [done|].
  split. { intros c0 v0 Hl0. pose proof (pi_ids _ Hp c0 v0 Hl0). lia. }
  destruct (slab_alloc_fresh _ _ _ _ _ Hsl) as [Hfr _].
  assert (cap_table v = Some t) as Htv.
  { destruct Hl as [Hc _]. unfold get_cs in Hc. rewrite (cr_pool _ _ _ _ _ _ Hcr) in Hc.
    rewrite zlookup_insert_eq in Hc; [by injection Hc as <-|]. rewrite (pi_pool _ Hp).
    by destruct (created_index _ _ _ _ _ _ Hp Hfc Hcr). }
  intros c0 i y. split.
  - intros (w & t1 & tb1 & Hw & Hlw & Ht1 & Htb1 & Hr & Hy & Hst).
    destruct (proj1 (Hlive c0 w) (conj Hw Hlw)) as [[-> ->]|[Hw0 _]].
    + left. assert (t1 = t) as -> by congruence. rewrite (cr_table _ _ _ _ _ _ Hcr) in Htb1.
      injection Htb1 as <-. destruct (decide (i = 0)) as [->|Hne].
      * rewrite (cr_root _ _ _ _ _ _ Hcr) in Hy. injection Hy as <-. by rewrite Hidv.
      * rewrite (cr_zero _ _ _ _ _ _ Hcr) in Hy by lia. by injection Hy as <-.
    + right. exists w, t1, tb1. rewrite (cr_tables _ _ _ _ _ _ Hcr) in Htb1.
      * exact (conj Hw0 (conj Hlw (conj Ht1 (conj Htb1 (conj Hr (conj Hy Hst)))))).
      * intros ->. apply Hfr. by apply (Hbl c0 w).
  - intros [(-> & -> & ->)|(w & t1 & tb1 & Hw & Hlw & Ht1 & Htb1 & Hy)].
    + destruct Hl as [Hc Hlv]. exists v, t, tb. split; [done|]. split; [done|]. split; [done|].
      split; [apply Hcr|]. split; [lia|]. rewrite (cr_root _ _ _ _ _ _ Hcr), Hidv. done.
    + destruct (proj2 (Hlive c0 w) (or_intror (conj Hw Hlw))). exists w, t1, tb1.
      rewrite (cr_tables _ _ _ _ _ _ Hcr); [done|]. intros ->. apply Hfr. by apply (Hbl c0 w).
Qed.

(** Destroying a live CSpace always works: exactly its capabilities
    disappear, its id no longer resolves to a CSpace with that id, its pool
    entry can be handed out again, and the invariants hold. *)
Theorem cspace_destroy_exact a s c v : sys_inv a s → live_at s c v →
  ∃ a' s', cspace_destroy (Some c) a s = Some (a', s') ∧ sys_inv a' s' ∧
    s_cspace_free_count s' = s_cspace_free_count s + 1 ∧
    (∀ c0 w, live_at s' c0 w → id (header w) ≠ id (header v)) ∧
    (∀ c0 i y, cap_at s' c0 i y ↔ c0 ≠ c ∧ cap_at s c0 i y).
Proof.
  intros Hinv Hl. pose proof Hinv as (Hp & _ & _).
  destruct (cspace_destroy_inv a s c v Hinv Hl) as (a' & s' & E & Hinv' & Hn & _ & Hlive & Hcaps).
  exists a', s'. split; [done|]. split; [done|]. split; [done|]. split; [|done].
  intros c0 w [Hne Hw]%Hlive Heq. apply Hne. by apply (pi_unique _ Hp c0 w c v).
Qed.
End system.

(** ** Example runs *)







(** Two CSpaces; a derived capability moves to the other one, and the first is
    destroyed. *)
Definition demo_sys_ops : list sys_op :=
  [SysCreate 10; SysCreate 20; SysCap (OpMint 1 1 KOBJ_THREAD 7 (with_revoke (with_grant RW)) 0);
   SysCap (OpDerive 1 1 1 2 (with_grant RW) 5); SysCap (OpMint 2 1 KOBJ_THREAD 8 (with_revoke (with_grant RW)) 0);
   SysCap (OpMove 1 2 2 3); SysDestroy 1].


(** What the moves return and what they do. *)
Definition sys_results (ops : list sys_op) : option (list Z) :=
  r ← cspace_subsys_init [] power_on; r ← run_sys_ops ops r.1.1 r.1.2; Some r.2.

Example demo_sys_results : sys_results demo_sys_ops = Some [0; 0; 0; 0; 0; 0; 0].
Proof. vm_compute. reflexivity. Qed.

(** The moved capability becomes a child of slot 1 of its new CSpace, the index
    of its old parent: revoking that capability takes it away. *)
Example moved_to_unrelated_parent :
  (r ← cspace_subsys_init [] power_on; r ← run_sys_ops (take 6 demo_sys_ops) r.1.1 r.1.2; x ← look 2 3 r.1.2;
   q ← cap_revoke 2 1 r.1.2; y ← look 2 3 q.1; Some (option_map parent_slot x, y)) = Some (Some 1, None) :> option (option Z * option cap_t).
Proof. vm_compute. reflexivity. Qed.

(** A capability moved with its children: the next revocation in the new CSpace
    computes a slot from a pointer into the old table. *)
Example moved_children_break_revocation :
  sys_results [SysCreate 10; SysCreate 20; SysCap (OpMint 1 1 KOBJ_THREAD 7 (with_revoke (with_grant RW)) 0);
    SysCap (OpDerive 1 1 1 2 (with_grant RW) 5); SysCap (OpMove 1 1 2 1); SysCap (OpRevoke 2 1)] = None.
Proof. vm_compute. reflexivity. Qed.

(** A capability derived into another CSpace is recorded below slot 1 there, the
    number of its source: it survives the revocation of its source and goes with
    that of an unrelated capability. *)
Example derived_elsewhere_survives :
  (r ← cspace_subsys_init [] power_on;
   r ← run_sys_ops [SysCreate 10; SysCreate 20; SysCap (OpMint 1 1 KOBJ_THREAD 7 (with_revoke (with_grant RW)) 0);
     SysCap (OpMint 2 1 KOBJ_THREAD 8 (with_revoke (with_grant RW)) 0); SysCap (OpDerive 1 1 2 4 (with_grant RW) 5)] r.1.1 r.1.2;
   q ← cap_revoke 1 1 r.1.2; x ← look 2 4 q.1; p ← cap_revoke 2 1 r.1.2; y ← look 2 4 p.1; Some (option_map kobj_id x, y)) =
  Some (Some 7, None) :> option (option Z * option cap_t).
Proof. vm_compute. reflexivity. Qed.

Lemma boot_ok : ∃ s, cspace_subsys_init [] power_on = Some ([], s, KERNEL_OK) ∧ sys_inv [] s ∧
  s_cspace_free_count s = CONFIG_MAX_CSPACES ∧ s_cspace_id_counter s = 1.
Proof.
  destruct (cspace_subsys_init_spec [] power_on eq_refl) as (a & s & ret & E & Hp & Hc & Hno & Hfc & Hid).
  assert (a = [] ∧ ret = KERNEL_OK) as [-> ->].
  { unfold cspace_subsys_init in E. apply bind_Some in E as (st & _ & E). rewrite bump_caches in E.
    pose proof (f_equal (λ o : option (list Z * kstate * Z), from_option (λ r, r.1.1) a o) E) as E1.
    pose proof (f_equal (λ o : option (list Z * kstate * Z), from_option snd ret o) E) as E2.
    split; symmetry; [exact E1|exact E2]. }
  exists s. split; [exact E|]. split; [|split; [exact Hfc|exact Hid]].
  split; [exact Hp|]. split; [exact Hc|]. intros c v t Hv. destruct (Hno c v Hv).
Qed.

Lemma cspace_create_fresh_witness : ∃ s s' c v, cspace_subsys_init [] power_on = Some ([], s, KERNEL_OK) ∧
  cspace_create 10 true [] s = Some ([1], s', Some c, KERNEL_OK) ∧ live_at s' c v ∧ capacity v = 10.
Proof.
  destruct boot_ok as (s & E & Hinv & Hfc & Hid).
  destruct (cspace_create_fresh [] [1] s 10 1 (replicate 64 cap_zero) Hinv)
    as (s' & c & v & E' & _ & Hl & Hcap & _).
  - unfold CSPACE_MAX_CAPACITY. lia.
  - rewrite Hfc. unfold CONFIG_MAX_CSPACES. lia.
  - rewrite Hid. lia.
  - reflexivity.
  - exists s, s', c, v. split; [exact E|]. split; [exact E'|]. split; [exact Hl|exact Hcap].
Defined.

Lemma cspace_destroy_exact_witness : ∃ s s' c a' s'',
  cspace_subsys_init [] power_on = Some ([], s, KERNEL_OK) ∧
  cspace_create 10 true [] s = Some ([1], s', Some c, KERNEL_OK) ∧
  cspace_destroy (Some c) [1] s' = Some (a', s'') ∧ s_cspace_free_count s'' = s_cspace_free_count s' + 1.
Proof.
  destruct boot_ok as (s & E & Hinv & Hfc & Hid).
  destruct (cspace_create_inv [] s 10 1 (replicate 64 cap_zero) [1] Hinv) as (s' & c & v & E' & Hinv' & Hl & _).
  - unfold CSPACE_MAX_CAPACITY. lia.
  - rewrite Hfc. unfold CONFIG_MAX_CSPACES. lia.
  - rewrite Hid. lia.
  - reflexivity.
  - destruct (cspace_destroy_exact [1] s' c v Hinv' Hl) as (a' & s'' & E'' & _ & Hn & _).
    exists s, s', c, a', s''. split; [exact E|]. split; [exact E'|]. split; [exact E''|exact Hn].
Defined.
