(* ===== verification/PhysMem.v ===== *)
(** * Physical page frames (kernel/mm/phys_mem.c)

    The buddy allocator: the frame descriptors, one intrusive free list per
    order, and every operation of the file.  Each operation holds the buddy
    lock around its body, so it is one transition of the state. *)

From S2P Require Import Prelude KList.

Set Default Goal Selector "!".

(** ** Data *)

Definition CONFIG_PAGE_SIZE : Z := 4096.
Definition MAX_ORDER : Z := 11.
Definition MAX_PHYS_PAGES : Z := 8192.
Definition INVALID_PADDR : Z := 0.

Inductive page_state_t := PAGE_FREE | PAGE_ALLOCATED | PAGE_RESERVED | PAGE_KERNEL | PAGE_DEVICE.

#[global] Instance page_state_eq_dec : EqDecision page_state_t.
Proof. solve_decision. Defined.

(** A descriptor; its list node is kept in the store of nodes. *)
Record page_frame_t := Frame {
  phys_addr : Z; fstate : page_state_t; ref_count : Z; order : Z
}.

Definition frame_zero : page_frame_t := Frame 0 PAGE_FREE 0 0.
Definition set_order k f := Frame (phys_addr f) (fstate f) (ref_count f) k.
Definition set_ref n f := Frame (phys_addr f) (fstate f) n (order f).

(** [&s_buddy.free_lists[k]] and [&s_page_frames[i].buddy_list] *)
Inductive baddr := FreeList (k : Z) | FrameNode (i : Z).

#[global] Instance baddr_eq_dec : EqDecision baddr.
Proof. solve_decision. Defined.

#[global] Instance baddr_countable : Countable baddr.
Proof.
  refine (inj_countable' (λ a, match a with FreeList k => inl k | FrameNode i => inr i end)
                         (λ p, match p with inl k => FreeList k | inr i => FrameNode i end) _).
  by intros [].
Defined.

Notation bnodes := (gmap baddr (list_head baddr)).

Record phys_mem_stats_t := Stats {
  st_total : Z; st_free : Z; st_kernel : Z; st_reserved : Z; st_device : Z; st_allocs : Z; st_frees : Z
}.

Record pm := PM {
  s_page_frames : list page_frame_t;
  bnode : bnodes;
  free_counts : list Z;
  total_pages : Z;
  free_pages : Z;
  s_stats : phys_mem_stats_t;
  s_frame_count : Z;
  s_mem_base : Z
}.

Definition upd_frames v s := PM v (bnode s) (free_counts s) (total_pages s) (free_pages s) (s_stats s)
  (s_frame_count s) (s_mem_base s).
Definition upd_bnode v s := PM (s_page_frames s) v (free_counts s) (total_pages s) (free_pages s) (s_stats s)
  (s_frame_count s) (s_mem_base s).
Definition upd_counts v s := PM (s_page_frames s) (bnode s) v (total_pages s) (free_pages s) (s_stats s)
  (s_frame_count s) (s_mem_base s).
Definition upd_totals fp st s := PM (s_page_frames s) (bnode s) (free_counts s) (total_pages s) fp st
  (s_frame_count s) (s_mem_base s).

Definition get_frame (s : pm) (i : Z) : option page_frame_t := (s_page_frames s).[i].
Definition set_frame (i : Z) (f : page_frame_t) (s : pm) : option pm :=
  fs ← zupdate (s_page_frames s) i f; Some (upd_frames fs s).
Definition on_bnode (f : bnodes → option bnodes) (s : pm) : option pm :=
  h ← f (bnode s); Some (upd_bnode h s).

(** [free_counts[k] += d] *)
Definition add_count (k d : Z) (s : pm) : option pm :=
  c ← (free_counts s).[k]; cs ← zupdate (free_counts s) k (u32 (c + d)); Some (upd_counts cs s).

(** [list_del(node); INIT_LIST_HEAD(node)] *)
Definition list_remove (p : option baddr) (s : pm) : option pm :=
  s ← on_bnode (list_del p) s; on_bnode (INIT_LIST_HEAD p) s.

(** ** Addresses *)

Definition phys_to_index (s : pm) (paddr : Z) : Z := u32 (u64 (paddr - s_mem_base s) / CONFIG_PAGE_SIZE).

Definition index_to_phys (s : pm) (index : Z) : Z := u64 (s_mem_base s + u64 (index * CONFIG_PAGE_SIZE)).

Definition is_buddy_aligned (s : pm) (paddr ord : Z) : bool :=
  let block_size := u64 (Z.shiftl CONFIG_PAGE_SIZE ord) in
  u64 (paddr - s_mem_base s) mod block_size =? 0.

Definition buddy_address (paddr ord : Z) : Z := Z.lxor paddr (u64 (Z.shiftl CONFIG_PAGE_SIZE ord)).

(** ** Initialisation *)

Fixpoint init_free_lists (n : nat) (i : Z) (s : pm) : option pm :=
  match n with
  | O => Some s
  | S n =>
      s ← on_bnode (INIT_LIST_HEAD (Some (FreeList i))) s;
      cs ← zupdate (free_counts s) i 0;
      init_free_lists n (i + 1) (upd_counts cs s)
  end.

Fixpoint init_frames (n : nat) (i : Z) (s : pm) : option pm :=
  match n with
  | O => Some s
  | S n =>
      s ← set_frame i (Frame (index_to_phys s i) PAGE_FREE 0 0) s;
      s ← on_bnode (INIT_LIST_HEAD (Some (FrameNode i))) s;
      init_frames n (i + 1) s
  end.

(** The inner [while (pages_remaining >= block_pages)]: the state with the
    remaining pages and the next index. *)
Fixpoint place_blocks (fuel : nat) (k remaining idx : Z) (s : pm) : option (pm * Z * Z) :=
  let block_pages := u32 (Z.shiftl 1 k) in
  if remaining >=? block_pages then
    match fuel with
    | O => None
    | S fuel =>
        f ← get_frame s idx;
        s ← set_frame idx (Frame (phys_addr f) PAGE_FREE (ref_count f) (u8 k)) s;
        s ← on_bnode (list_add_tail (Some (FrameNode idx)) (Some (FreeList k))) s;
        s ← add_count k 1 s;
        place_blocks fuel k (u32 (remaining - block_pages)) (u32 (idx + block_pages))
          (upd_totals (u32 (free_pages s + block_pages)) (s_stats s) s)
    end
  else Some (s, remaining, idx).

(** The outer loop, from [MAX_ORDER] down. *)
Fixpoint place_orders (n : nat) (k remaining idx : Z) (s : pm) : option pm :=
  match n with
  | O => Some s
  | S n =>
      r ← place_blocks (Z.to_nat MAX_PHYS_PAGES) k remaining idx s;
      let '(s, remaining, idx) := r in
      if remaining =? 0 then Some s
      else if k =? 0 then Some s
      else place_orders n (k - 1) remaining idx s
  end.

Fixpoint zero_nodes (n : nat) (i : Z) (h : bnodes) : bnodes :=
  match n with
  | O => h
  | S n => zero_nodes n (i + 1) (<[FrameNode i := LH None None]> h)
  end.

(** Both [memset]s: the descriptors with their nodes, and the statistics. *)
Definition clear_frames (total base : Z) (s : pm) : pm :=
  PM (replicate (Z.to_nat MAX_PHYS_PAGES) frame_zero)
     (zero_nodes (Z.to_nat MAX_PHYS_PAGES) 0 (bnode s)) (free_counts s) total 0
     (Stats total 0 0 0 0 0 0) total base.

(** The rest of [phys_mem_init] once the data is cleared. *)
Definition init_cleared (total : Z) (s : pm) : option (pm * Z) :=
  s ← init_free_lists (Z.to_nat (MAX_ORDER + 1)) 0 s;
  s ← init_frames (Z.to_nat total) 0 s;
  s ← place_orders (Z.to_nat (MAX_ORDER + 1)) MAX_ORDER total 0 s;
  let st := s_stats s in
  Some (upd_totals (free_pages s)
          (Stats (st_total st) (free_pages s) (st_kernel st) (st_reserved st) (st_device st)
                 (st_allocs st) (st_frees st)) s, KERNEL_OK).

Definition phys_mem_init (mem_base mem_size : Z) (s : pm) : option (pm * Z) :=
  if mem_base =? 0 then Some (s, - EINVAL)
  else if negb (mem_base mod CONFIG_PAGE_SIZE =? 0) then Some (s, - EINVAL)
  else if (mem_size =? 0) || negb (mem_size mod CONFIG_PAGE_SIZE =? 0) then Some (s, - EINVAL)
  else
    let total := u32 (mem_size / CONFIG_PAGE_SIZE) in
    if total >? MAX_PHYS_PAGES then Some (s, - EINVAL)
    else init_cleared total (clear_frames total mem_base s).

(** ** Allocation *)

(** The first order from [k] on with a free block; [MAX_ORDER + 1] when none. *)
Fixpoint find_order (n : nat) (k : Z) (s : pm) : option Z :=
  match n with
  | O => Some k
  | S n =>
      e ← list_empty (Some (FreeList k)) (bnode s);
      if (e : bool) then find_order n (k + 1) s else Some k
  end.

(** The splitting loop on the block at frame [i]. *)
Fixpoint split_loop (n : nat) (cur ord i : Z) (s : pm) : option pm :=
  if cur >? ord then
    match n with
    | O => None
    | S n =>
        let cur := cur - 1 in
        f ← get_frame s i;
        let right_addr := u64 (phys_addr f + u64 (Z.shiftl CONFIG_PAGE_SIZE cur)) in
        let right_index := phys_to_index s right_addr in
        rf ← get_frame s right_index;
        s ← set_frame right_index (Frame (phys_addr rf) PAGE_FREE 0 (u8 cur)) s;
        s ← on_bnode (INIT_LIST_HEAD (Some (FrameNode right_index))) s;
        s ← on_bnode (list_add (Some (FrameNode right_index)) (Some (FreeList cur))) s;
        s ← add_count cur 1 s;
        split_loop n cur ord i s
    end
  else Some s.

(** The frame of a list node. *)
Definition list_entry (p : option baddr) : option Z :=
  match p with Some (FrameNode i) => Some i | _ => None end.

Definition phys_mem_alloc_pages (ord : Z) (s : pm) : option (pm * Z) :=
  if ord >? MAX_ORDER then Some (s, INVALID_PADDR)
  else
    cur ← find_order (Z.to_nat (MAX_ORDER + 1 - ord)) ord s;
    if cur >? MAX_ORDER then Some (s, INVALID_PADDR)
    else
      node ← get_next (bnode s) (Some (FreeList cur));
      s ← list_remove node s;
      s ← add_count cur (- 1) s;
      i ← list_entry node;
      s ← split_loop (Z.to_nat MAX_ORDER) cur ord i s;
      let nr_pages := u32 (Z.shiftl 1 ord) in
      f ← get_frame s i;
      s ← set_frame i (Frame (phys_addr f) PAGE_ALLOCATED 1 (u8 ord)) s;
      let st := s_stats s in
      Some (upd_totals (u32 (free_pages s - nr_pages))
              (Stats (st_total st) (u32 (st_free st - nr_pages)) (st_kernel st) (st_reserved st)
                     (st_device st) (u32 (st_allocs st + 1)) (st_frees st)) s,
            phys_addr f).

Definition phys_mem_alloc_page (s : pm) : option (pm * Z) := phys_mem_alloc_pages 0 s.

(** ** Release *)

(** The merging loop: the frame and order of the block it ends with. *)
Fixpoint merge_loop (n : nat) (i ord : Z) (s : pm) : option (pm * Z * Z) :=
  if ord <? MAX_ORDER then
    match n with
    | O => None
    | S n =>
        f ← get_frame s i;
        let buddy_addr := buddy_address (phys_addr f) ord in
        if buddy_addr <? s_mem_base s then Some (s, i, ord)
        else
          let b := phys_to_index s buddy_addr in
          if b >=? s_frame_count s then Some (s, i, ord)
          else
            bf ← get_frame s b;
            if negb (bool_decide (fstate bf = PAGE_FREE)) then Some (s, i, ord)
            else if negb (order bf =? ord) then Some (s, i, ord)
            else
              s ← list_remove (Some (FrameNode b)) s;
              s ← add_count ord (- 1) s;
              let i' := if is_buddy_aligned s (phys_addr f) (ord + 1) then i
                        else if buddy_addr <? phys_addr f then b else i in
              f' ← get_frame s i';
              s ← set_frame i' (set_order (u8 (ord + 1)) f') s;
              merge_loop n i' (ord + 1) s
    end
  else Some (s, i, ord).

Definition phys_mem_free_pages (paddr ord : Z) (s : pm) : option pm :=
  if paddr =? INVALID_PADDR then Some s
  else if ord >? MAX_ORDER then Some s
  else
    let i := phys_to_index s paddr in
    if i >=? s_frame_count s then Some s
    else
      f ← get_frame s i;
      if negb (bool_decide (fstate f = PAGE_ALLOCATED)) then Some s
      else
        let n := if ref_count f >? 0 then ref_count f - 1 else ref_count f in
        s ← set_frame i (set_ref n f) s;
        if n >? 0 then Some s
        else
          r ← merge_loop (Z.to_nat MAX_ORDER) i ord s;
          let '(s, i, ord) := r in
          f ← get_frame s i;
          s ← set_frame i (Frame (phys_addr f) PAGE_FREE 0 (order f)) s;
          s ← on_bnode (INIT_LIST_HEAD (Some (FrameNode i))) s;
          s ← on_bnode (list_add (Some (FrameNode i)) (Some (FreeList ord))) s;
          s ← add_count ord 1 s;
          let nr_pages := u32 (Z.shiftl 1 ord) in
          let st := s_stats s in
          Some (upd_totals (u32 (free_pages s + nr_pages))
                  (Stats (st_total st) (u32 (st_free st + nr_pages)) (st_kernel st) (st_reserved st)
                         (st_device st) (st_allocs st) (u32 (st_frees st + 1))) s).

Definition phys_mem_free_page (paddr : Z) (s : pm) : option pm := phys_mem_free_pages paddr 0 s.

(** ** Queries and reservation *)

(** The index of the descriptor returned; [None] for NULL. *)
Definition phys_mem_get_frame (paddr : Z) (s : pm) : option Z :=
  if paddr <? s_mem_base s then None
  else if paddr >=? u64 (s_mem_base s + u64 (s_frame_count s * CONFIG_PAGE_SIZE)) then None
  else if negb (paddr mod CONFIG_PAGE_SIZE =? 0) then None
  else
    let index := phys_to_index s paddr in
    if index >=? s_frame_count s then None else Some index.

Definition phys_mem_get_stats (stats : bool) (s : pm) : option phys_mem_stats_t :=
  if stats then Some (s_stats s) else None.

(** One frame of [phys_mem_reserve]. *)
Definition reserve_frame (i : Z) (s : pm) : option pm :=
  f ← get_frame s i;
  let st := s_stats s in
  match fstate f with
  | PAGE_FREE =>
      next ← get_next (bnode s) (Some (FrameNode i));
      s ← match next with
          | Some _ =>
              s ← list_remove (Some (FrameNode i)) s;
              if order f <=? MAX_ORDER then add_count (order f) (- 1) s else Some s
          | None => Some s
          end;
      s ← set_frame i (Frame (phys_addr f) PAGE_RESERVED 0 0) s;
      Some (upd_totals (u32 (free_pages s - 1))
              (Stats (st_total st) (u32 (st_free st - 1)) (st_kernel st) (u32 (st_reserved st + 1))
                     (st_device st) (st_allocs st) (st_frees st)) s)
  | PAGE_KERNEL =>
      Some (upd_totals (free_pages s)
              (Stats (st_total st) (st_free st) (st_kernel st) (u32 (st_reserved st + 1))
                     (st_device st) (st_allocs st) (st_frees st)) s)
  | _ => Some s
  end.

Fixpoint reserve_loop (n : nat) (i : Z) (s : pm) : option pm :=
  match n with
  | O => Some s
  | S n => s ← reserve_frame i s; reserve_loop n (i + 1) s
  end.

Definition phys_mem_reserve (base size : Z) (s : pm) : option (pm * Z) :=
  if size =? 0 then Some (s, - EINVAL)
  else if negb (base mod CONFIG_PAGE_SIZE =? 0) then Some (s, - EINVAL)
  else
    let end_addr := u64 (Z.shiftl (Z.shiftr (u64 (base + size)) 12) 12) in
    if base <? s_mem_base s then Some (s, - EINVAL)
    else if end_addr >? u64 (s_mem_base s + u64 (s_frame_count s * CONFIG_PAGE_SIZE))
    then Some (s, - EINVAL)
    else
      let start_index := phys_to_index s base in
      let end_index := phys_to_index s end_addr in
      s ← reserve_loop (Z.to_nat (end_index - start_index)) start_index s;
      Some (s, KERNEL_OK).

(** ** Small runs *)

(** The image before the first call: the heads of the free lists exist. *)
Definition pm_image : pm :=
  PM [] (<[FreeList 0 := LH None None]> (<[FreeList 1 := LH None None]> (<[FreeList 2 := LH None None]>
    (<[FreeList 3 := LH None None]> (<[FreeList 4 := LH None None]> (<[FreeList 5 := LH None None]>
    (<[FreeList 6 := LH None None]> (<[FreeList 7 := LH None None]> (<[FreeList 8 := LH None None]>
    (<[FreeList 9 := LH None None]> (<[FreeList 10 := LH None None]> (<[FreeList 11 := LH None None]> ∅))))))))))))
    (replicate 12 0) 0 0 (Stats 0 0 0 0 0 0 0) 0 0.
