(* ===== verification/Buddy.v ===== *)
(** * Tilings by aligned blocks

    The mathematics of the buddy allocator: the frames are tiled by aligned
    blocks of power-of-two size, a block splits into two halves and a block and
    its buddy merge into one. *)

From S2P Require Import Prelude KList PhysMem.

Set Default Goal Selector "!".

(** ** Aligned ranges *)

Lemma pow2_pos k : 0 <= k → 0 < 2 ^ k.
Proof. intros. by apply Z.pow_pos_nonneg. Qed.

Lemma pow2_split k m : 0 <= m <= k → 2 ^ k = 2 ^ (k - m) * 2 ^ m.
Proof. intros. rewrite <- Z.pow_add_r by lia. f_equal. lia. Qed.

Lemma pow2_succ k : 0 <= k → 2 ^ (k + 1) = 2 * 2 ^ k.
Proof. intros. rewrite Z.pow_add_r by lia. change (2 ^ 1) with 2. lia. Qed.

(** A smaller aligned range lies inside a larger one or apart from it. *)
Lemma nested_or_apart a k b m : 0 <= m <= k → (2 ^ k | a) → (2 ^ m | b) →
  (a <= b ∧ b + 2 ^ m <= a + 2 ^ k) ∨ b + 2 ^ m <= a ∨ a + 2 ^ k <= b.
Proof.
  intros Hm [q ->] [r ->]. rewrite (pow2_split k m) by done.
  pose proof (pow2_pos m ltac:(lia)). pose proof (pow2_pos (k - m) ltac:(lia)).
  set (w := 2 ^ m) in *. set (c := 2 ^ (k - m)) in *.
  destruct (Z.lt_trichotomy r (q * c)) as [Hlt|[Heq|Hgt]].
  - right; left. nia.
  - left. nia.
  - destruct (Z.lt_ge_cases r (q * c + c)); [left; nia|right; right; nia].
Qed.

(** ** Buddies *)

Definition buddy (i k : Z) : Z := if Z.odd (i / 2 ^ k) then i - 2 ^ k else i + 2 ^ k.

Lemma buddy_cases q k : 0 <= k →
  (Z.odd q = true ∧ buddy (q * 2 ^ k) k = (q - 1) * 2 ^ k) ∨
  (Z.odd q = false ∧ buddy (q * 2 ^ k) k = (q + 1) * 2 ^ k).
Proof.
  intros Hk. pose proof (pow2_pos k Hk). unfold buddy. rewrite Z.div_mul by lia.
  destruct (Z.odd q); [left|right]; (split; [done|lia]).
Qed.

Lemma buddy_involutive i k : 0 <= k → (2 ^ k | i) → buddy (buddy i k) k = i.
Proof.
  intros Hk [q ->]. destruct (buddy_cases q k Hk) as [[Hq ->]|[Hq ->]].
  - destruct (buddy_cases (q - 1) k Hk) as [[Hq' _]|[_ ->]]; [|lia].
    rewrite Z.odd_sub, Hq in Hq'. done.
  - destruct (buddy_cases (q + 1) k Hk) as [[_ ->]|[Hq' _]]; [lia|].
    rewrite Z.odd_add, Hq in Hq'. done.
Qed.

Lemma buddy_aligned i k : 0 <= k → (2 ^ k | i) → (2 ^ k | buddy i k).
Proof.
  intros Hk [q ->]. destruct (buddy_cases q k Hk) as [[_ ->]|[_ ->]]; apply Z.divide_factor_r.
Qed.

Lemma buddy_ne i k : 0 <= k → buddy i k ≠ i.
Proof. intros Hk. pose proof (pow2_pos k Hk). unfold buddy. destruct (Z.odd _); lia. Qed.

(** The block that a block and its buddy form. *)
Lemma buddy_pair i k : 0 <= k → (2 ^ k | i) →
  (2 ^ (k + 1) | Z.min i (buddy i k)) ∧
  (buddy i k = i + 2 ^ k ∨ buddy i k = i - 2 ^ k) ∧
  Z.min i (buddy i k) = (if Z.odd (i / 2 ^ k) then buddy i k else i).
Proof.
  intros Hk [q ->]. pose proof (pow2_pos k Hk). rewrite Z.div_mul by lia.
  pose proof (Z.div2_odd q) as Hdiv. rewrite pow2_succ by done.
  destruct (buddy_cases q k Hk) as [[Hq ->]|[Hq ->]]; rewrite Hq in *; cbn [Z.b2z] in Hdiv.
  - rewrite Z.min_r by nia. split_and!; [exists (Z.div2 q); nia|lia|done].
  - rewrite Z.min_l by nia. split_and!; [exists (Z.div2 q); nia|lia|done].
Qed.

(** ** Tilings *)

Definition is_order (k : Z) : Prop := 0 <= k <= MAX_ORDER.

Record tiling (n : Z) (T : Z → Z → Prop) : Prop := Tiling {
  ti_blk : ∀ i k, T i k → 0 <= k <= MAX_ORDER ∧ 0 <= i ∧ i + 2 ^ k <= n ∧ (2 ^ k | i);
  ti_disj : ∀ i k j m, T i k → T j m → (i = j ∧ k = m) ∨ i + 2 ^ k <= j ∨ j + 2 ^ m <= i;
  ti_cover : ∀ p, 0 <= p < n → ∃ i k, T i k ∧ i <= p < i + 2 ^ k
}.

Lemma tiling_ext n (T T' : Z → Z → Prop) : (∀ i k, T i k ↔ T' i k) → tiling n T → tiling n T'.
Proof. intros He [H1 H2 H3]. split; setoid_rewrite <- He; done. Qed.

Section tiling.
Context n T (HT : tiling n T).

Lemma tiling_unique i k m : T i k → T i m → k = m.
Proof using HT.
  intros H1 H2. destruct (ti_blk _ _ HT _ _ H1) as (? & _). destruct (ti_blk _ _ HT _ _ H2) as (? & _).
  pose proof (pow2_pos k ltac:(lia)). pose proof (pow2_pos m ltac:(lia)).
  destruct (ti_disj _ _ HT _ _ _ _ H1 H2) as [[_ ?]|[?|?]]; [done|lia..].
Qed.

(** A page of the buddy belongs to a block that starts there and is no larger. *)
Lemma buddy_head i k : T i k → k < MAX_ORDER → 0 <= buddy i k < n → ∃ m, T (buddy i k) m ∧ m <= k.
Proof using HT.
  intros Hi Hk Hb. destruct (ti_blk _ _ HT _ _ Hi) as (Hk0 & Hi0 & Hin & Hal).
  destruct (ti_cover _ _ HT _ Hb) as (j & m & Hj & Hr).
  destruct (ti_blk _ _ HT _ _ Hj) as (Hm0 & Hj0 & Hjn & Hjal).
  pose proof (buddy_aligned i k ltac:(lia) Hal) as Hbal.
  destruct (buddy_pair i k ltac:(lia) Hal) as (Hpair & Hpos & _).
  pose proof (pow2_pos k ltac:(lia)) as Hpk. pose proof (pow2_pos m ltac:(lia)) as Hpm.
  destruct (Z.le_gt_cases m k) as [Hle|Hgt].
  - assert (j = buddy i k) as <-; [|by exists m].
    destruct (nested_or_apart (buddy i k) k j m) as [?|[?|?]]; [lia|done..|lia|lia|lia].
  - exfalso. destruct (nested_or_apart j m (Z.min i (buddy i k)) (k + 1)) as [Hn|[Hn|Hn]]; [lia|done..| | |];
      pose proof (pow2_succ k ltac:(lia)).
    + destruct (ti_disj _ _ HT _ _ _ _ Hi Hj) as [[_ ?]|[?|?]]; lia.
    + lia.
    + lia.
Qed.

(** Adding an aligned block at the end. *)
Lemma tiling_extend k : is_order k → (2 ^ k | n) → 0 <= n → tiling (n + 2 ^ k) (λ j m, T j m ∨ (j = n ∧ m = k)).
Proof using HT.
  intros Hk Hal Hn. pose proof (pow2_pos k (proj1 Hk)) as Hp. split.
  - intros j m [Hj|[-> ->]].
    + destruct (ti_blk _ _ HT _ _ Hj) as (? & ? & ? & ?). split; [done|]. split; [done|]. split; [lia|done].
    + split; [done|]. split; [lia|]. split; [lia|done].
  - intros i m j m' [Hi|[-> ->]] [Hj|[-> ->]]; [by apply (ti_disj _ _ HT)|..|tauto].
    + destruct (ti_blk _ _ HT _ _ Hi) as (_ & _ & ? & _). lia.
    + destruct (ti_blk _ _ HT _ _ Hj) as (_ & _ & ? & _). lia.
  - intros p Hp'. destruct (Z.lt_ge_cases p n) as [Hlt|Hge].
    + destruct (ti_cover _ _ HT p ltac:(lia)) as (i & m & Hi & Hr). exists i, m. tauto.
    + exists n, k. split; [tauto|lia].
Qed.

(** Splitting a block into halves. *)
Lemma tiling_split i k : 0 <= k → T i (k + 1) →
  tiling n (λ j m, (T j m ∧ ¬ (j = i ∧ m = k + 1)) ∨ (m = k ∧ (j = i ∨ j = i + 2 ^ k))).
Proof using HT.
  intros Hk Hi. destruct (ti_blk _ _ HT _ _ Hi) as (Hk0 & Hi0 & Hin & [q Hal]).
  pose proof (pow2_pos k Hk) as Hp. pose proof (pow2_succ k Hk) as Hsucc. split.
  - intros j m [[Hj _]|[-> [->| ->]]]; [by apply (ti_blk _ _ HT)|..]; (split; [lia|]); (split; [lia|]);
      (split; [lia|]).
    + exists (2 * q). lia.
    + exists (2 * q + 1). lia.
  - assert (∀ j m, T j m → ¬ (j = i ∧ m = k + 1) → i + 2 ^ (k + 1) <= j ∨ j + 2 ^ m <= i) as Hout.
    { intros j m Hj Hne. destruct (ti_disj _ _ HT _ _ _ _ Hi Hj) as [[? ?]|?]; [|done]. by destruct Hne. }
    intros j m j' m' [[Hj Hne]|[-> Hj]] [[Hj' Hne']|[-> Hj']].
    + by apply (ti_disj _ _ HT).
    + specialize (Hout _ _ Hj Hne). destruct (ti_blk _ _ HT _ _ Hj) as (? & _).
      pose proof (pow2_pos m ltac:(lia)). lia.
    + specialize (Hout _ _ Hj' Hne'). destruct (ti_blk _ _ HT _ _ Hj') as (? & _).
      pose proof (pow2_pos m' ltac:(lia)). lia.
    + lia.
  - intros p Hr. destruct (ti_cover _ _ HT p Hr) as (j & m & Hj & Hjr).
    destruct (decide (j = i ∧ m = k + 1)) as [[-> ->]|Hne]; [|exists j, m; tauto].
    destruct (Z.lt_ge_cases p (i + 2 ^ k)); [exists i, k|exists (i + 2 ^ k), k]; (split; [tauto|lia]).
Qed.

(** Merging a block with its buddy. *)
Lemma tiling_merge i k : k < MAX_ORDER → T i k → T (buddy i k) k →
  tiling n (λ j m, (T j m ∧ ¬ (m = k ∧ (j = i ∨ j = buddy i k))) ∨ (j = Z.min i (buddy i k) ∧ m = k + 1)).
Proof using HT.
  intros Hk Hi Hb. destruct (ti_blk _ _ HT _ _ Hi) as (Hk0 & Hi0 & Hin & Hal).
  destruct (ti_blk _ _ HT _ _ Hb) as (_ & Hb0 & Hbn & _). pose proof (pow2_pos k ltac:(lia)) as Hp.
  destruct (buddy_pair i k ltac:(lia) Hal) as (Hpair & Hpos & _). pose proof (pow2_succ k ltac:(lia)) as Hsucc.
  split.
  - intros j m [[Hj _]|[-> ->]]; [by apply (ti_blk _ _ HT)|]. split_and!; [lia..|done].
  - assert (∀ j m, T j m → ¬ (m = k ∧ (j = i ∨ j = buddy i k)) →
      Z.min i (buddy i k) + 2 ^ (k + 1) <= j ∨ j + 2 ^ m <= Z.min i (buddy i k)) as Hout.
    { intros j m Hj Hne. destruct (ti_disj _ _ HT _ _ _ _ Hi Hj) as [[-> ->]|H1]; [tauto|].
      destruct (ti_disj _ _ HT _ _ _ _ Hb Hj) as [[<- ->]|H2]; [tauto|].
      destruct (ti_blk _ _ HT _ _ Hj) as (Hm & _). pose proof (pow2_pos m ltac:(lia)). lia. }
    intros j m j' m' [[Hj Hne]|[-> ->]] [[Hj' Hne']|[-> ->]].
    + by apply (ti_disj _ _ HT).
    + specialize (Hout _ _ Hj Hne). lia.
    + specialize (Hout _ _ Hj' Hne'). lia.
    + lia.
  - intros p Hr. destruct (ti_cover _ _ HT p Hr) as (j & m & Hj & Hjr).
    destruct (decide (m = k ∧ (j = i ∨ j = buddy i k))) as [[-> Hj']|Hne]; [|exists j, m; tauto].
    exists (Z.min i (buddy i k)), (k + 1). split; [tauto|]. lia.
Qed.
End tiling.
