(* ===== verification/BuddyInv.v ===== *)
(** * The invariant of the buddy allocator

    The free lists, the allocated blocks and at most one pending block tile the
    managed frames; the descriptors of block heads say so.  The hypothesis that
    the base address is a multiple of the largest block (8 MiB) is what makes
    the exclusive-or of [buddy_address] agree with the blocks, which are aligned
    relative to the base. *)

From stdpp Require Import functions.
From S2P Require Import Prelude KList PhysMem Buddy.

Set Default Goal Selector "!".

#[local] Arguments Z.pow : simpl never.

(** ** Addresses *)

Section address.
Context (base n : Z).

Record mem_layout : Prop := MemLayout {
  ml_base : 0 < base ∧ base + n * CONFIG_PAGE_SIZE < 2 ^ 63;
  ml_align : (CONFIG_PAGE_SIZE * 2 ^ MAX_ORDER | base);
  ml_pages : 0 < n <= MAX_PHYS_PAGES
}.

Definition addr (i : Z) : Z := base + i * CONFIG_PAGE_SIZE.

Context (HL : mem_layout).

Lemma addr_range i : 0 <= i <= n → 0 < addr i < 2 ^ 63.
Proof using HL.
  destruct HL as [[? ?] _ [? ?]]. unfold addr, CONFIG_PAGE_SIZE, MAX_PHYS_PAGES in *. intros. nia.
Qed.

Lemma addr_inj i j : addr i = addr j → i = j.
Proof. unfold addr, CONFIG_PAGE_SIZE. lia. Qed.

Lemma phys_to_index_addr s i : s_mem_base s = base → 0 <= i <= n → phys_to_index s (addr i) = i.
Proof using HL.
  intros Hb Hi. pose proof (addr_range i Hi). destruct HL as [[? ?] _ [? ?]].
  unfold phys_to_index. rewrite Hb. unfold addr, CONFIG_PAGE_SIZE, MAX_PHYS_PAGES in *.
  replace (base + i * 4096 - base) with (i * 4096) by lia. rewrite u64_small by lia.
  rewrite Z.div_mul by lia. apply u32_small. lia.
Qed.

Lemma index_to_phys_addr s i : s_mem_base s = base → 0 <= i <= n → index_to_phys s i = addr i.
Proof using HL.
  intros Hb Hi. pose proof (addr_range i Hi). destruct HL as [[? ?] _ [? ?]].
  unfold index_to_phys. rewrite Hb. unfold addr, CONFIG_PAGE_SIZE, MAX_PHYS_PAGES in *.
  rewrite (u64_small (i * 4096)) by lia. apply u64_small. lia.
Qed.

(** The size of a block in bytes. *)
Lemma block_bytes k : 0 <= k <= MAX_ORDER → u64 (Z.shiftl CONFIG_PAGE_SIZE k) = CONFIG_PAGE_SIZE * 2 ^ k.
Proof.
  intros Hk. rewrite Z.shiftl_mul_pow2 by lia. apply u64_small. pose proof (pow2_pos k ltac:(lia)).
  pose proof (Z.pow_le_mono_r 2 k MAX_ORDER ltac:(lia) ltac:(lia)) as Hle.
  unfold CONFIG_PAGE_SIZE, MAX_ORDER in *. change (2 ^ 11) with 2048 in Hle. lia.
Qed.

Lemma lxor_pow2 a m : 0 <= m → Z.lxor a (2 ^ m) = if Z.testbit a m then a - 2 ^ m else a + 2 ^ m.
Proof.
  intros Hm. assert (∀ a, Z.testbit a m = false → Z.lxor a (2 ^ m) = a + 2 ^ m) as Hadd.
  { intros b Hb. symmetry. apply Z.add_nocarry_lxor. apply Z.bits_inj'. intros p Hp.
    rewrite Z.land_spec, Z.bits_0, Z.pow2_bits_eqb by done. destruct (Z.eqb_spec m p) as [->|]; [|by rewrite andb_false_r].
    by rewrite Hb. }
  destruct (Z.testbit a m) eqn:E; [|by apply Hadd].
  pose proof (Hadd (Z.lxor a (2 ^ m))) as H. rewrite Z.lxor_spec, E, Z.pow2_bits_true in H by done.
  specialize (H eq_refl). rewrite Z.lxor_assoc, Z.lxor_nilpotent, Z.lxor_0_r in H. lia.
Qed.

(** The bit that tells left and right halves apart. *)
Lemma addr_bit i k : 0 <= k < MAX_ORDER → Z.testbit (addr i) (12 + k) = Z.odd (i / 2 ^ k).
Proof using HL.
  intros Hk. destruct HL as [_ [q Hq] _]. rewrite Z.testbit_odd, Z.shiftr_div_pow2 by lia. unfold addr. rewrite Hq.
  unfold CONFIG_PAGE_SIZE. change 4096 with (2 ^ 12). rewrite Z.pow_add_r by lia.
  rewrite (pow2_split MAX_ORDER (k + 1)) by lia. rewrite pow2_succ by lia.
  pose proof (pow2_pos k ltac:(lia)). pose proof (pow2_pos 12 ltac:(lia)).
  rewrite <- Z.div_div by lia.
  replace (q * (2 ^ 12 * (2 ^ (MAX_ORDER - (k + 1)) * (2 * 2 ^ k))) + i * 2 ^ 12)
    with ((2 * (q * 2 ^ (MAX_ORDER - (k + 1))) * 2 ^ k + i) * 2 ^ 12) by ring.
  rewrite Z.div_mul, Z.div_add_l by lia. by rewrite Z.odd_add, Z.odd_mul.
Qed.

Lemma buddy_address_addr i k : 0 <= k < MAX_ORDER → (2 ^ k | i) → buddy_address (addr i) k = addr (buddy i k).
Proof using HL.
  intros Hk Hal. unfold buddy_address. rewrite block_bytes by lia.
  replace (CONFIG_PAGE_SIZE * 2 ^ k) with (2 ^ (12 + k)) by (rewrite Z.pow_add_r by lia; done).
  rewrite lxor_pow2, addr_bit by lia. unfold buddy, addr. rewrite Z.pow_add_r by lia.
  unfold CONFIG_PAGE_SIZE. change 4096 with (2 ^ 12). destruct (Z.odd _); ring.
Qed.

Lemma is_buddy_aligned_addr s i k : s_mem_base s = base → 0 <= i <= n → 0 <= k < MAX_ORDER → (2 ^ k | i) →
  is_buddy_aligned s (addr i) (k + 1) = negb (Z.odd (i / 2 ^ k)).
Proof using HL.
  intros Hb Hi Hk [q ->]. unfold is_buddy_aligned. rewrite block_bytes, Hb by lia.
  pose proof (addr_range _ Hi). destruct HL as [[? ?] _ [? ?]]. unfold addr, CONFIG_PAGE_SIZE, MAX_PHYS_PAGES in *.
  replace (base + q * 2 ^ k * 4096 - base) with (q * 2 ^ k * 4096) by lia. rewrite u64_small by lia.
  pose proof (pow2_pos k ltac:(lia)). rewrite Z.div_mul, pow2_succ by lia.
  replace (q * 2 ^ k * 4096) with (q * (4096 * 2 ^ k)) by ring.
  replace (4096 * (2 * 2 ^ k)) with (2 * (4096 * 2 ^ k)) by ring.
  rewrite Z.mul_mod_distr_r by lia. rewrite Zmod_odd. destruct (Z.odd q); cbn; [apply Z.eqb_neq; lia|done].
Qed.
End address.

(** ** The free lists *)

(** The list of each order holds the frames [F] names, and no frame is on two. *)
Record flists (n : Z) (h : bnodes) (F : Z → list Z) : Prop := FLists {
  fl_dll : ∀ k, is_order k → dll h (FreeList k) (FrameNode <$> F k);
  fl_dom : ∀ i, 0 <= i < n → FrameNode i ∈ dom h;
  fl_disj : ∀ k m i, is_order k → is_order m → i ∈ F k → i ∈ F m → k = m
}.

Lemma elem_FrameNode i (l : list Z) : FrameNode i ∈ FrameNode <$> l ↔ i ∈ l.
Proof. rewrite list_elem_of_fmap. naive_solver. Qed.

(** A change confined to the list of order [k] and the node of [i]. *)
Lemma flists_frame n h h' F k m i : flists n h F → is_order k → is_order m → k ≠ m → i ∉ F m →
  same_except (FrameNode i :: FreeList k :: (FrameNode <$> F k)) h h' →
  dll h' (FreeList m) (FrameNode <$> F m).
Proof.
  intros HF Hk Hm Hne Hi HS. eapply dll_frame; [by apply (fl_dll _ _ _ HF)|done|].
  intros x [->|(j & -> & Hj)%list_elem_of_fmap]%elem_of_cons Hx.
  - rewrite !elem_of_cons in Hx. destruct Hx as [?|[[=]|(j & ? & _)%list_elem_of_fmap]]; congruence.
  - rewrite !elem_of_cons in Hx. destruct Hx as [[= ->]|[?|Hx%elem_FrameNode]]; [done..|].
    apply Hne. by eapply (fl_disj _ _ _ HF k m j).
Qed.

Section lists.
Context (n : Z).

Lemma flists_remove h F k xs b ys : flists n h F → is_order k → F k = xs ++ b :: ys →
  ∃ h1 h', list_del (Some (FrameNode b)) h = Some h1 ∧ INIT_LIST_HEAD (Some (FrameNode b)) h1 = Some h' ∧
    flists n h' (<[k := xs ++ ys]> F).
Proof.
  intros HF Hk Hx. pose proof (fl_dll _ _ _ HF k Hk) as Hd. rewrite Hx, fmap_app, fmap_cons in Hd.
  pose proof Hd as Hnd. apply dll_NoDup in Hnd as [Hnd Hhd].
  destruct (list_del_spec _ _ _ _ _ Hd) as (h1 & E1 & Hd1 & He1 & S1).
  destruct (INIT_LIST_HEAD_effect (FrameNode b) h1) as (h' & E2 & S2 & _); [by apply elem_of_dom_2 in He1|].
  assert (b ∉ xs ++ ys) as Hb.
  { rewrite <- fmap_cons, <- fmap_app in Hnd. apply NoDup_fmap_1 in Hnd.
    apply NoDup_app in Hnd as (_ & H2 & [H3 _]%NoDup_cons). intros [Hi|Hi]%elem_of_app; [|done].
    apply (H2 b Hi). left. }
  assert (same_except (FrameNode b :: FreeList k :: (FrameNode <$> F k)) h h') as HS.
  { eapply same_except_mono; [by eapply same_except_trans|]. rewrite Hx, fmap_app, fmap_cons. set_solver. }
  exists h1, h'. split_and!; [done..|]. split.
  - intros m Hm. destruct (decide (m = k)) as [->|Hne].
    + rewrite fn_lookup_insert, fmap_app. eapply dll_frame; [exact Hd1|exact S2|].
      intros x Hx'. rewrite list_elem_of_singleton. intros ->.
      apply elem_of_cons in Hx' as [?|Hx']; [done|]. rewrite <- fmap_app, elem_FrameNode in Hx'. done.
    + rewrite fn_lookup_insert_ne by done. eapply (flists_frame n h h' F k m b); try done.
      intros Hbm. apply Hne. eapply (fl_disj _ _ _ HF m k b); try done. rewrite Hx. set_solver.
  - intros i Hi. destruct HS as [-> _]. by apply (fl_dom _ _ _ HF).
  - assert (∀ j i, i ∈ (<[k := xs ++ ys]> F : Z → list Z) j → i ∈ F j) as Hsub.
    { intros j i. destruct (decide (j = k)) as [->|]; [rewrite fn_lookup_insert, Hx; set_solver|].
      by rewrite fn_lookup_insert_ne. }
    intros m1 m2 i H1 H2 ?%Hsub ?%Hsub. by apply (fl_disj _ _ _ HF m1 m2 i).
Qed.

(** [ins]: at the front or at the back. *)
Lemma flists_link h F k i l' h' : flists n h F → is_order k → 0 <= i < n → (∀ m, is_order m → i ∉ F m) →
  l' = i :: F k ∨ l' = F k ++ [i] → dll h' (FreeList k) (FrameNode <$> l') →
  same_except (FrameNode i :: FreeList k :: (FrameNode <$> F k)) h h' →
  flists n h' (<[k := l']> F).
Proof.
  intros HF Hk Hi Hno Hl Hd HS.
  assert (∀ j, j ∈ l' ↔ j = i ∨ j ∈ F k) as Hin by (intros j; destruct Hl as [->| ->]; set_solver).
  split.
  - intros m Hm. destruct (decide (m = k)) as [->|Hne]; [by rewrite fn_lookup_insert|].
    rewrite fn_lookup_insert_ne by done. eapply (flists_frame n h h' F k m i); try done. by apply Hno.
  - intros j Hj. destruct HS as [-> _]. by apply (fl_dom _ _ _ HF).
  - assert (∀ m j, is_order m → j ∈ (<[k := l']> F : Z → list Z) m → (j = i ∧ m = k) ∨ (j ≠ i ∧ j ∈ F m)) as Hcase.
    { intros m j Hm. destruct (decide (m = k)) as [->|].
      - rewrite fn_lookup_insert, Hin. destruct (decide (j = i)); [by left|]. naive_solver.
      - rewrite fn_lookup_insert_ne by done. intros Hj. right. split; [|done]. intros ->. by apply (Hno m). }
    intros m1 m2 j H1 H2 [[-> ->]|[? ?]]%Hcase [[? ->]|[? ?]]%Hcase; try done.
    by apply (fl_disj _ _ _ HF m1 m2 j).
Qed.

Lemma flists_insert h F k i : flists n h F → is_order k → 0 <= i < n → (∀ m, is_order m → i ∉ F m) →
  ∃ h1 h', INIT_LIST_HEAD (Some (FrameNode i)) h = Some h1 ∧
    list_add (Some (FrameNode i)) (Some (FreeList k)) h1 = Some h' ∧ flists n h' (<[k := i :: F k]> F).
Proof.
  intros HF Hk Hi Hno. pose proof (fl_dll _ _ _ HF k Hk) as Hd.
  destruct (INIT_LIST_HEAD_effect (FrameNode i) h) as (h1 & E1 & S1 & _); [by apply (fl_dom _ _ _ HF)|].
  assert (FrameNode i ∉ FreeList k :: (FrameNode <$> F k)) as Hni.
  { rewrite elem_of_cons, elem_FrameNode. intros [?|?]; [done|]. by apply (Hno k). }
  assert (dll h1 (FreeList k) (FrameNode <$> F k)) as Hd1.
  { eapply dll_frame; [exact Hd|exact S1|]. intros x Hx. rewrite list_elem_of_singleton. by intros ->. }
  destruct (list_add_head_spec h1 (FreeList k) (FrameNode <$> F k) (FrameNode i)) as (h' & E2 & Hd2 & S2);
    [done|destruct S1 as [-> _]; by apply (fl_dom _ _ _ HF)|done|].
  exists h1, h'. split_and!; [done..|]. eapply (flists_link h F k i); try done; [by left|].
  eapply same_except_mono; [by eapply same_except_trans|]. set_solver.
Qed.

Lemma flists_append h F k i : flists n h F → is_order k → 0 <= i < n → (∀ m, is_order m → i ∉ F m) →
  ∃ h', list_add_tail (Some (FrameNode i)) (Some (FreeList k)) h = Some h' ∧ flists n h' (<[k := F k ++ [i]]> F).
Proof.
  intros HF Hk Hi Hno. pose proof (fl_dll _ _ _ HF k Hk) as Hd.
  destruct (list_add_tail_spec h (FreeList k) (FrameNode <$> F k) (FrameNode i)) as (h' & E2 & Hd2 & S2);
    [done|by apply (fl_dom _ _ _ HF)| |].
  { rewrite elem_of_cons, elem_FrameNode. intros [?|?]; [done|]. by apply (Hno k). }
  exists h'. split; [done|]. eapply (flists_link h F k i); try done; [by right|]. by rewrite fmap_app.
Qed.
End lists.

(** ** Representation *)

Section rep.
Context (base n : Z) (HL : mem_layout base n).

(** The descriptors and lists say that the blocks of [F] are free. *)
Record brep (s : pm) (F : Z → list Z) : Prop := BRep {
  br_base : s_mem_base s = base;
  br_count : s_frame_count s = n;
  br_len : Z.of_nat (length (s_page_frames s)) = MAX_PHYS_PAGES;
  br_addr : ∀ i f, 0 <= i < n → get_frame s i = Some f → phys_addr f = addr base i;
  br_lists : flists n (bnode s) F;
  br_counts : ∀ k, is_order k → (free_counts s).[k] = Some (Z.of_nat (length (F k)));
  br_range : ∀ k i, is_order k → i ∈ F k → 0 <= i < n;
  br_free : ∀ k i, is_order k → i ∈ F k → ∃ f, get_frame s i = Some f ∧ fstate f = PAGE_FREE ∧ order f = k
}.

(** The blocks of [Al] are allocated. *)
Definition bal (s : pm) (Al : gmap Z Z) : Prop :=
  ∀ i k, Al !! i = Some k → ∃ f, get_frame s i = Some f ∧ fstate f = PAGE_ALLOCATED ∧ order f = k ∧ ref_count f = 1.

Lemma get_frame_total s F i : brep s F → 0 <= i < n → ∃ f, get_frame s i = Some f ∧ phys_addr f = addr base i.
Proof using HL.
  intros HB Hi. destruct HL as [_ _ Hn].
  destruct (proj2 (zlookup_is_Some (s_page_frames s) i)) as [f Hf]; [rewrite (br_len _ _ HB); lia|].
  exists f. split; [done|]. by apply (br_addr _ _ HB).
Qed.

Lemma free_length s F k : brep s F → is_order k → Z.of_nat (length (F k)) <= MAX_PHYS_PAGES.
Proof using HL.
  intros HB Hk. pose proof (fl_dll _ _ _ (br_lists _ _ HB) k Hk) as [Hnd _]%dll_NoDup.
  apply NoDup_fmap_1 in Hnd.
  assert (F k ⊆+ seqZ 0 n) as Hs%submseteq_length.
  { apply NoDup_submseteq; [done|]. intros i Hi. rewrite elem_of_seqZ. pose proof (br_range _ _ HB k i Hk Hi). lia. }
  rewrite length_seqZ in Hs. destruct HL as [_ _ Hn]. lia.
Qed.

Lemma raw_remove s F k xs b ys : brep s F → is_order k → F k = xs ++ b :: ys →
  ∃ s1 s', list_remove (Some (FrameNode b)) s = Some s1 ∧ add_count k (- 1) s1 = Some s' ∧
    s_page_frames s' = s_page_frames s ∧ brep s' (<[k := xs ++ ys]> F).
Proof using HL.
  intros HB Hk Hx. pose proof (free_length s F k HB Hk) as Hlen.
  destruct (flists_remove n (bnode s) F k xs b ys (br_lists _ _ HB) Hk Hx) as (h1 & h2 & E1 & E2 & HF).
  unfold list_remove, on_bnode. rewrite E1. cbn [mbind option_bind bnode upd_bnode]. rewrite E2.
  cbn [mbind option_bind]. exists (upd_bnode h2 (upd_bnode h1 s)). unfold add_count. cbn [free_counts upd_bnode].
  pose proof (br_counts _ _ HB k Hk) as Hc. rewrite Hc. cbn [mbind option_bind].
  rewrite zupdate_total by (by apply zlookup_Some_lt in Hc). cbn [mbind option_bind].
  eexists. split; [done|]. split; [done|]. split; [done|].
  assert (∀ m i, i ∈ (<[k := xs ++ ys]> F : Z → list Z) m → i ∈ F m) as Hsub.
  { intros m i. destruct (decide (m = k)) as [->|]; [rewrite fn_lookup_insert, Hx; set_solver|].
    by rewrite fn_lookup_insert_ne. }
  destruct HB as [B1 B2 B3 B4 B5 B6 B7 B8]. split; try done.
  - cbn. intros m Hm. destruct (decide (m = k)) as [->|Hne].
    + rewrite fn_lookup_insert, zlookup_insert_eq by (by apply zlookup_Some_lt in Hc).
      rewrite Hx, !length_app in *. cbn [length] in *. unfold MAX_PHYS_PAGES in Hlen.
      rewrite u32_small by lia. f_equal. lia.
    + rewrite fn_lookup_insert_ne by done. destruct Hk. rewrite zlookup_insert_ne by done. by apply B6.
  - intros m i Hm Hi%Hsub. by eapply B7.
  - intros m i Hm Hi%Hsub. by apply B8.
Qed.

(** Bookkeeping after frame [i] was linked into the list of order [k]. *)
Lemma brep_linked s F k i f l' h' : brep s F → is_order k → 0 <= i < n →
  get_frame s i = Some f → fstate f = PAGE_FREE → order f = k →
  flists n h' (<[k := l']> F) → (∀ j, j ∈ l' ↔ j = i ∨ j ∈ F k) → length l' = S (length (F k)) →
  ∃ s', add_count k 1 (upd_bnode h' s) = Some s' ∧ s_page_frames s' = s_page_frames s ∧
    brep s' (<[k := l']> F).
Proof using HL.
  intros HB Hk Hi Hf Hst Hor HF Hl Hlen'. pose proof (free_length s F k HB Hk) as Hlen.
  unfold add_count. cbn [free_counts upd_bnode].
  pose proof (br_counts _ _ HB k Hk) as Hc. rewrite Hc. cbn [mbind option_bind].
  rewrite zupdate_total by (by apply zlookup_Some_lt in Hc). cbn [mbind option_bind].
  eexists. split; [done|]. split; [done|].
  assert (∀ m j, j ∈ (<[k := l']> F : Z → list Z) m → (j = i ∧ m = k) ∨ j ∈ F m) as Hcase.
  { intros m j. destruct (decide (m = k)) as [->|]; [rewrite fn_lookup_insert, Hl; naive_solver|].
    rewrite fn_lookup_insert_ne by done. by right. }
  destruct HB as [B1 B2 B3 B4 B5 B6 B7 B8]. split; try done.
  - cbn. intros m Hm. destruct (decide (m = k)) as [->|Hne].
    + rewrite fn_lookup_insert, zlookup_insert_eq by (by apply zlookup_Some_lt in Hc).
      rewrite Hlen'. unfold MAX_PHYS_PAGES in Hlen. rewrite u32_small by lia. f_equal. lia.
    + rewrite fn_lookup_insert_ne by done. destruct Hk. rewrite zlookup_insert_ne by done. by apply B6.
  - intros m j Hm [[-> ->]|Hj]%Hcase; [done|]. by eapply B7.
  - intros m j Hm [[-> ->]|Hj]%Hcase; [|by apply B8]. by exists f.
Qed.

Lemma raw_insert s F k i f : brep s F → is_order k → 0 <= i < n → (∀ m, is_order m → i ∉ F m) →
  get_frame s i = Some f → fstate f = PAGE_FREE → order f = k →
  ∃ s1 s2 s', on_bnode (INIT_LIST_HEAD (Some (FrameNode i))) s = Some s1 ∧
    on_bnode (list_add (Some (FrameNode i)) (Some (FreeList k))) s1 = Some s2 ∧
    add_count k 1 s2 = Some s' ∧
    s_page_frames s' = s_page_frames s ∧ brep s' (<[k := i :: F k]> F).
Proof using HL.
  intros HB Hk Hi Hno Hf Hst Hor.
  destruct (flists_insert n (bnode s) F k i (br_lists _ _ HB) Hk Hi Hno) as (h1 & h2 & E1 & E2 & HF).
  unfold on_bnode. rewrite E1. cbn [mbind option_bind]. exists (upd_bnode h1 s). cbn [bnode upd_bnode]. rewrite E2.
  cbn [mbind option_bind]. exists (upd_bnode h2 s).
  destruct (brep_linked s F k i f (i :: F k) h2 HB Hk Hi Hf Hst Hor HF) as (s' & E & Hs); [set_solver|done|].
  exists s'. do 3 (split; [done|]). done.
Qed.

Lemma raw_append s F k i f : brep s F → is_order k → 0 <= i < n → (∀ m, is_order m → i ∉ F m) →
  get_frame s i = Some f → fstate f = PAGE_FREE → order f = k →
  ∃ s1 s', on_bnode (list_add_tail (Some (FrameNode i)) (Some (FreeList k))) s = Some s1 ∧
    add_count k 1 s1 = Some s' ∧ s_page_frames s' = s_page_frames s ∧ brep s' (<[k := F k ++ [i]]> F).
Proof using HL.
  intros HB Hk Hi Hno Hf Hst Hor.
  destruct (flists_append n (bnode s) F k i (br_lists _ _ HB) Hk Hi Hno) as (h' & E1 & HF).
  unfold on_bnode. rewrite E1. cbn [mbind option_bind]. exists (upd_bnode h' s).
  destruct (brep_linked s F k i f (F k ++ [i]) h' HB Hk Hi Hf Hst Hor HF) as (s' & E & Hs);
    [set_solver|rewrite length_app; cbn; lia|].
  exists s'. split; [done|]. done.
Qed.

Lemma raw_set_frame s F i f : brep s F → 0 <= i < n → (∀ m, is_order m → i ∉ F m) → phys_addr f = addr base i →
  ∃ s', set_frame i f s = Some s' ∧ brep s' F ∧ get_frame s' i = Some f ∧
    ∀ j, j ≠ i → get_frame s' j = get_frame s j.
Proof using HL.
  intros HB Hi Hno Hf. destruct HL as [_ _ Hn]. destruct HB as [B1 B2 B3 B4 B5 B6 B7 B8].
  unfold set_frame. rewrite zupdate_total by lia. cbn [mbind option_bind]. eexists. split; [done|].
  assert (∀ j, j ≠ i → get_frame (upd_frames (<[Z.to_nat i := f]> (s_page_frames s)) s) j = get_frame s j) as Hoth.
  { intros j Hj. unfold get_frame. cbn. apply zlookup_insert_ne; lia. }
  assert (get_frame (upd_frames (<[Z.to_nat i := f]> (s_page_frames s)) s) i = Some f) as Hsame.
  { unfold get_frame. cbn. apply zlookup_insert_eq. lia. }
  split; [|done]. split; try done.
  - cbn. by rewrite length_insert.
  - intros j g Hj. destruct (decide (j = i)) as [->|]; [rewrite Hsame; by intros [= <-]|].
    rewrite Hoth by done. by apply B4.
  - intros m j Hm Hj. rewrite Hoth; [by apply B8|]. intros ->. by apply (Hno m).
Qed.

(** Only the totals changed. *)
Lemma brep_totals s F fp st : brep s F → brep (upd_totals fp st s) F.
Proof. intros [B1 B2 B3 B4 B5 B6 B7 B8]. by split. Qed.
End rep.

(** ** The invariant *)

(** The blocks: free, allocated and pending. *)
Definition blk (F : Z → list Z) (Al : gmap Z Z) (P : option (Z * Z)) (i k : Z) : Prop :=
  (is_order k ∧ i ∈ F k) ∨ Al !! i = Some k ∨ P = Some (i, k).

(** No two free buddies: merging is complete. *)
Definition no_buddies (F : Z → list Z) : Prop :=
  ∀ i k, is_order k → k < MAX_ORDER → i ∈ F k → buddy i k ∉ F k.

Record bstate (n : Z) (F : Z → list Z) (Al : gmap Z Z) (P : option (Z * Z)) : Prop := BState {
  bs_tiling : tiling n (blk F Al P);
  bs_free_al : ∀ i k, is_order k → i ∈ F k → Al !! i = None;
  bs_free_pend : ∀ i k m, is_order k → i ∈ F k → P ≠ Some (i, m);
  bs_al_pend : ∀ i m, P = Some (i, m) → Al !! i = None;
  bs_nodup : ∀ k, is_order k → NoDup (F k);
  bs_merged : no_buddies F
}.

Lemma F_remove (F : Z → list Z) k xs b ys m i : NoDup (F k) → F k = xs ++ b :: ys →
  i ∈ (<[k := xs ++ ys]> F : Z → list Z) m ↔ i ∈ F m ∧ ¬ (m = k ∧ i = b).
Proof.
  intros Hnd Hx. rewrite Hx in Hnd. apply NoDup_app in Hnd as (_ & H2 & [H3 _]%NoDup_cons).
  destruct (decide (m = k)) as [->|Hne]; [|rewrite fn_lookup_insert_ne by done; naive_solver].
  rewrite fn_lookup_insert, Hx, !elem_of_app, elem_of_cons. split.
  - intros [Hi|Hi]; (split; [tauto|]); intros [_ ->]; [|done]. apply (H2 b Hi). left.
  - tauto.
Qed.

Lemma F_insert (F : Z → list Z) k x m i :
  i ∈ (<[k := x :: F k]> F : Z → list Z) m ↔ (m = k ∧ i = x) ∨ i ∈ F m.
Proof.
  destruct (decide (m = k)) as [->|Hne]; [rewrite fn_lookup_insert, elem_of_cons; naive_solver|].
  rewrite fn_lookup_insert_ne by done. naive_solver.
Qed.

Section transitions.
Context (n : Z).
Implicit Types (F : Z → list Z) (Al : gmap Z Z).

Lemma remove_nodup F k xs b ys : (∀ m, is_order m → NoDup (F m)) → is_order k → F k = xs ++ b :: ys →
  ∀ m, is_order m → NoDup ((<[k := xs ++ ys]> F : Z → list Z) m).
Proof.
  intros Hnd Hk Hx m Hm. destruct (decide (m = k)) as [->|Hne]; [|rewrite fn_lookup_insert_ne by done; auto].
  rewrite fn_lookup_insert. specialize (Hnd k Hk). rewrite Hx in Hnd.
  apply NoDup_app in Hnd as (H1 & H2 & [H3 H4]%NoDup_cons). apply NoDup_app. split_and!; [done| |done].
  intros x Hx1 Hx2. apply (H2 x Hx1). by right.
Qed.

Lemma no_buddies_sub F F' : (∀ m i, i ∈ F' m → i ∈ F m) → no_buddies F → no_buddies F'.
Proof. intros Hs HN i k Hk Hlt Hi%Hs Hb%Hs. by apply (HN i k). Qed.

(** Taking a block off its list. *)
Lemma bstate_take F Al k xs b ys : bstate n F Al None → is_order k → F k = xs ++ b :: ys →
  bstate n (<[k := xs ++ ys]> F) Al (Some (b, k)).
Proof.
  intros [HT Hfa Hfp Hap Hnd HN] Hk Hx.
  pose proof (λ m i, F_remove F k xs b ys m i (Hnd k Hk) Hx) as Hin.
  assert (b ∈ F k) as Hb by (rewrite Hx; set_solver). split.
  - eapply tiling_ext; [|exact HT]. intros i m. unfold blk. rewrite Hin.
    destruct (decide (m = k ∧ i = b)) as [[-> ->]|Hne]; naive_solver.
  - intros i m Hm [Hi _]%Hin. by eapply Hfa.
  - intros i m m' Hm [Hi Hne]%Hin [= -> ->]. apply Hne. split; [|done].
    eapply (tiling_unique _ _ HT i); left; by split.
  - intros i m [= <- <-]. by apply (Hfa b k).
  - by apply (remove_nodup F k xs b ys).
  - eapply no_buddies_sub; [|exact HN]. intros m i [Hi _]%Hin. done.
Qed.

(** Handing the pending block out, and taking an allocated one back. *)
Lemma bstate_alloc F Al i k : bstate n F Al (Some (i, k)) → bstate n F (<[i := k]> Al) None.
Proof.
  intros [HT Hfa Hfp Hap Hnd HN]. pose proof (Hap i k eq_refl) as Hi. split; try done.
  - eapply tiling_ext; [|exact HT]. intros j m. unfold blk. destruct (decide (j = i)) as [->|Hne].
    + rewrite lookup_insert_eq, Hi. naive_solver.
    + rewrite lookup_insert_ne by done. naive_solver.
  - intros j m Hm Hj. rewrite lookup_insert_ne; [by eapply Hfa|]. intros ->. by apply (Hfp j m k Hm Hj).
Qed.

Lemma bstate_release F Al i k : bstate n F Al None → Al !! i = Some k →
  bstate n F (delete i Al) (Some (i, k)).
Proof.
  intros [HT Hfa Hfp Hap Hnd HN] Hi. split; try done.
  - eapply tiling_ext; [|exact HT]. intros j m. unfold blk. destruct (decide (j = i)) as [->|Hne].
    + rewrite lookup_delete_eq, Hi. naive_solver.
    + rewrite lookup_delete_ne by done. naive_solver.
  - intros j m Hm Hj. destruct (decide (j = i)) as [->|]; [by apply lookup_delete_eq|].
    rewrite lookup_delete_ne by done. by eapply Hfa.
  - intros j m m' Hm Hj [= -> ->]. rewrite (Hfa j m Hm Hj) in Hi. done.
  - intros j m [= <- <-]. apply lookup_delete_eq.
Qed.

(** The pending block goes on its list. *)
Lemma bstate_free F Al i k : bstate n F Al (Some (i, k)) → is_order k → (k < MAX_ORDER → buddy i k ∉ F k) →
  bstate n (<[k := i :: F k]> F) Al None.
Proof.
  intros [HT Hfa Hfp Hap Hnd HN] Hk Hbud.
  assert (2 ^ k | i) as Hal by (apply (ti_blk _ _ HT i k); by right; right).
  split.
  - eapply tiling_ext; [|exact HT]. intros j m. unfold blk. rewrite F_insert.
    naive_solver.
  - intros j m Hm [[-> ->]|Hj]%F_insert; [by eapply Hap|by eapply Hfa].
  - done.
  - done.
  - intros m Hm. destruct (decide (m = k)) as [->|Hne]; [|rewrite fn_lookup_insert_ne by done; auto].
    rewrite fn_lookup_insert. apply NoDup_cons. split; [|by apply Hnd]. intros Hi. by apply (Hfp i k k).
  - intros j m Hm Hlt [[-> ->]|Hj]%F_insert [[Hmk E]|Hb]%F_insert.
    + by apply (buddy_ne i k (proj1 Hk)).
    + by apply Hbud.
    + subst m i. apply (Hbud Hlt). rewrite buddy_involutive; [done|apply Hk|].
      apply (ti_blk _ _ HT j k). by left.
    + by apply (HN j m).
Qed.

(** Halving the pending block. *)
Lemma bstate_split F Al i k : 0 <= k < MAX_ORDER → bstate n F Al (Some (i, k + 1)) →
  0 <= i + 2 ^ k < n ∧ (∀ m, is_order m → i + 2 ^ k ∉ F m) ∧ Al !! (i + 2 ^ k) = None ∧
  bstate n (<[k := i + 2 ^ k :: F k]> F) Al (Some (i, k)).
Proof.
  intros Hk [HT Hfa Hfp Hap Hnd HN]. assert (is_order k) as Hok by (split; lia).
  assert (blk F Al (Some (i, k + 1)) i (k + 1)) as Hblk by (by right; right).
  destruct (ti_blk _ _ HT _ _ Hblk) as (_ & Hi0 & Hin & [q Hq]).
  pose proof (pow2_pos k ltac:(lia)) as Hp. pose proof (pow2_succ k ltac:(lia)) as Hsucc.
  assert (∀ m, ¬ blk F Al (Some (i, k + 1)) (i + 2 ^ k) m) as Hnot.
  { intros m Hm. destruct (ti_blk _ _ HT _ _ Hm) as ([Hm0 _] & _). pose proof (pow2_pos m Hm0).
    destruct (ti_disj _ _ HT _ _ _ _ Hblk Hm) as [[? _]|[?|?]]; lia. }
  assert (∀ m, is_order m → i + 2 ^ k ∉ F m) as HnF by (intros m Hm Hj; apply (Hnot m); by left).
  assert (Al !! (i + 2 ^ k) = None) as HnA.
  { destruct (Al !! (i + 2 ^ k)) as [m|] eqn:E; [|done]. destruct (Hnot m). by right; left. }
  assert (∀ m, is_order m → i ∉ F m) as HiF by (intros m Hm Hj; by apply (Hfp i m (k + 1))).
  assert (buddy i k = i + 2 ^ k) as Hbud.
  { unfold buddy. rewrite Hq, Hsucc. replace (q * (2 * 2 ^ k)) with (2 * q * 2 ^ k) by ring.
    rewrite Z.div_mul by lia. rewrite Z.odd_mul. done. }
  split; [lia|]. split; [done|]. split; [done|]. split.
  - eapply tiling_ext; [|apply (tiling_split n _ HT i k); [lia|done]].
    intros j m. unfold blk. cbv beta. rewrite F_insert. split.
    + intros [[[?|[?|[= <- <-]]] Hne]|[-> [->| ->]]]; naive_solver.
    + intros [[Hm [[-> ->]|Hj]]|[Hj|[= <- <-]]]; [naive_solver| |left; split; [naive_solver|]|naive_solver].
      * left. split; [by left|]. intros [-> ->]. by apply (HiF (k + 1)).
      * intros [-> ->]. by rewrite (Hap i _ eq_refl) in Hj.
  - intros j m Hm [[-> ->]|Hj]%F_insert; [done|by eapply Hfa].
  - intros j m m' Hm [[-> ->]|Hj]%F_insert [= ?]; [lia|subst j]. by apply (HiF m).
  - intros j m [= <- <-]. by apply (Hap i (k + 1)).
  - intros m Hm. destruct (decide (m = k)) as [->|Hne]; [|rewrite fn_lookup_insert_ne by done; auto].
    rewrite fn_lookup_insert. apply NoDup_cons. split; [by apply HnF|by apply Hnd].
  - intros j m Hm Hlt [[-> ->]|Hj]%F_insert [[Hmk E]|Hb]%F_insert.
    + by apply (buddy_ne (i + 2 ^ k) k ltac:(lia)).
    + rewrite <- Hbud, buddy_involutive in Hb; [by apply (HiF k)|lia|]. exists (2 * q). lia.
    + subst m. assert (j = i) as ->; [|by apply (HiF k)].
      rewrite <- (buddy_involutive j k), E, <- Hbud; [|lia|apply (ti_blk _ _ HT j k); by left].
      apply buddy_involutive; [lia|]. exists (2 * q). lia.
    + by apply (HN j m).
Qed.

(** Joining the pending block with its free buddy. *)
Lemma bstate_merge F Al i k xs ys : is_order k → k < MAX_ORDER → bstate n F Al (Some (i, k)) →
  F k = xs ++ buddy i k :: ys →
  bstate n (<[k := xs ++ ys]> F) Al (Some (Z.min i (buddy i k), k + 1)).
Proof.
  intros Hk Hlt [HT Hfa Hfp Hap Hnd HN] Hx.
  pose proof (λ m i0, F_remove F k xs (buddy i k) ys m i0 (Hnd k Hk) Hx) as Hin.
  assert (buddy i k ∈ F k) as Hb by (rewrite Hx; set_solver).
  assert (blk F Al (Some (i, k)) i k) as Hblk by (by right; right).
  assert (blk F Al (Some (i, k)) (buddy i k) k) as Hbblk by (by left).
  pose proof (buddy_ne i k (proj1 Hk)) as Hbne.
  assert (∀ m, is_order m → i ∉ F m) as HiF by (intros m Hm Hj; by apply (Hfp i m k)).
  assert (Z.min i (buddy i k) = i ∨ Z.min i (buddy i k) = buddy i k) as Hmin by lia.
  assert (∀ j m, Al !! j = Some m → j ≠ i ∧ j ≠ buddy i k) as Hal.
  { intros j m Hj. split; intros ->; [by rewrite (Hap i k eq_refl) in Hj|by rewrite (Hfa _ k Hk Hb) in Hj]. }
  split.
  - eapply tiling_ext; [|apply (tiling_merge n _ HT i k); done].
    intros j m. unfold blk. cbv beta. rewrite Hin. split.
    + intros [[[?|[?|[= <- <-]]] Hne]|[-> ->]]; naive_solver.
    + intros [[Hm [Hj Hne]]|[Hj|[= <- <-]]]; [| |by right].
      * left. split; [by left|]. intros [-> [->| ->]]; [by apply (HiF k)|naive_solver].
      * left. split; [naive_solver|]. destruct (Hal j m Hj). tauto.
  - intros j m Hm [Hj _]%Hin. by eapply Hfa.
  - intros j m m' Hm [Hj Hne]%Hin [= E1 E2]. destruct Hmin as [E|E]; rewrite E in E1; subst j.
    + by apply (HiF m).
    + apply Hne. split; [|done]. eapply (tiling_unique _ _ HT (buddy i k)); left; by split.
  - intros j m [= <- <-]. destruct Hmin as [-> | ->]; [by apply (Hap i k)|by apply (Hfa _ k)].
  - by apply (remove_nodup F k xs (buddy i k) ys).
  - eapply no_buddies_sub; [|exact HN]. intros m j [Hj _]%Hin. done.
Qed.
End transitions.
