(* ===== verification/BuddyOps.v ===== *)
(** * Allocation and release against the invariant *)

From stdpp Require Import functions.
From S2P Require Import Prelude KList PhysMem Buddy BuddyInv.

Set Default Goal Selector "!".

#[local] Arguments Z.pow : simpl never.

Section ops.
Context (base n : Z) (HL : mem_layout base n).
Implicit Types (F : Z → list Z) (Al : gmap Z Z) (s : pm).

Definition binv s F Al P : Prop := brep base n s F ∧ bal s Al ∧ bstate n F Al P.

Lemma bal_frames s s' Al : (∀ i, is_Some (Al !! i) → get_frame s' i = get_frame s i) → bal s Al → bal s' Al.
Proof. intros He Ha i k Hi. rewrite He by eauto. by apply Ha. Qed.

Lemma bal_same s s' Al : s_page_frames s' = s_page_frames s → bal s Al → bal s' Al.
Proof. intros He. apply bal_frames. intros i _. unfold get_frame. by rewrite He. Qed.

Lemma blk_range F Al P i k : bstate n F Al P → blk F Al P i k → is_order k ∧ 0 <= i < n ∧ (2 ^ k | i).
Proof.
  intros HS Hb. destruct (ti_blk _ _ (bs_tiling _ _ _ _ HS) _ _ Hb) as (Hk & Hi & Hn & Hal).
  pose proof (pow2_pos k ltac:(lia)). split; [done|]. split; [lia|done].
Qed.

(** ** Allocation *)

Lemma find_order_spec s F : brep base n s F → ∀ fuel k, 0 <= k → k + Z.of_nat fuel = MAX_ORDER + 1 →
  ∃ r, find_order fuel k s = Some r ∧ k <= r <= MAX_ORDER + 1 ∧ (∀ m, k <= m < r → F m = []) ∧
    (r <= MAX_ORDER → F r ≠ []).
Proof.
  intros HB. induction fuel as [|fuel IH]; intros k Hk Hf; cbn [find_order].
  { exists k. split; [done|]. split; [lia|]. split; [intros; lia|lia]. }
  assert (is_order k) as Hok by (split; lia).
  rewrite (list_empty_spec _ _ _ (fl_dll _ _ _ (br_lists _ _ _ _ HB) k Hok)). cbn [mbind option_bind].
  case_bool_decide as He.
  - apply fmap_nil_inv in He. destruct (IH (k + 1)) as (r & -> & Hr & Hem & Hne); [lia|lia|].
    exists r. split; [done|]. split; [lia|]. split; [|done]. intros m Hm.
    destruct (decide (m = k)) as [->|]; [done|]. apply Hem. lia.
  - exists k. split; [done|]. split; [lia|]. split; [intros; lia|]. intros _ E. by rewrite E in He.
Qed.

Lemma split_loop_spec fuel cur ord i s F Al : binv s F Al (Some (i, cur)) → 0 <= ord <= cur →
  cur - ord <= Z.of_nat fuel →
  ∃ s' F', split_loop fuel cur ord i s = Some s' ∧ binv s' F' Al (Some (i, ord)).
Proof using HL.
  revert cur s F. induction fuel as [|fuel IH]; intros cur s F (HB & HA & HS) Hord Hf.
  { assert (cur = ord) as -> by lia. exists s, F. cbn [split_loop].
    rewrite Z.gtb_ltb, (proj2 (Z.ltb_ge _ _)) by lia. done. }
  cbn [split_loop]. rewrite Z.gtb_ltb. destruct (Z.ltb_spec ord cur) as [Hlt|Hge].
  2: { assert (cur = ord) as -> by lia. by exists s, F. }
  destruct (blk_range F Al (Some (i, cur)) i cur HS) as (Hoc & Hi & Hal); [by right; right|].
  set (k := cur - 1). replace cur with (k + 1) in HS by (unfold k; lia).
  destruct (bstate_split n F Al i k) as (Hr & HnF & HnA & HS'); [destruct Hoc; unfold k; lia|done|].
  assert (is_order k) as Hok by (destruct Hoc; split; unfold k; lia).
  destruct (get_frame_total base n HL s F i HB Hi) as (f & Hf1 & Hfa). rewrite Hf1. cbn [mbind option_bind].
  assert (u64 (phys_addr f + u64 (Z.shiftl CONFIG_PAGE_SIZE k)) = addr base (i + 2 ^ k)) as ->.
  { rewrite Hfa, (block_bytes k) by apply Hok.
    replace (addr base i + CONFIG_PAGE_SIZE * 2 ^ k) with (addr base (i + 2 ^ k)) by (unfold addr; ring).
    apply u64_small. pose proof (addr_range base n HL (i + 2 ^ k)). lia. }
  rewrite (phys_to_index_addr base n HL) by (apply HB || lia).
  destruct (get_frame_total base n HL s F (i + 2 ^ k) HB Hr) as (rf & Hrf & Hra). rewrite Hrf. cbn [mbind option_bind].
  assert (u8 k = k) as -> by (destruct Hok; unfold MAX_ORDER in *; rewrite u8_small; lia).
  destruct (raw_set_frame base n HL s F (i + 2 ^ k) (Frame (phys_addr rf) PAGE_FREE 0 k)) as (s1 & -> & HB1 & Hg1 & Ho1);
    [done..|]. cbn [mbind option_bind].
  destruct (raw_insert base n HL s1 F k (i + 2 ^ k) (Frame (phys_addr rf) PAGE_FREE 0 k))
    as (s2 & s3 & s4 & -> & E3 & E4 & Hfr & HB4); [done..|]. cbn [mbind option_bind].
  rewrite E3. cbn [mbind option_bind]. rewrite E4. cbn [mbind option_bind].
  apply (IH k s4 (<[k := i + 2 ^ k :: F k]> F)); [|lia|lia]. split; [done|]. split; [|done].
  eapply bal_same; [exact Hfr|]. eapply bal_frames; [|exact HA]. intros j [m Hj]. apply Ho1. congruence.
Qed.

(** What an allocation of order [ord] gives. *)
Lemma pages_alloc_spec s F Al ord : binv s F Al None → 0 <= ord →
  (phys_mem_alloc_pages ord s = Some (s, INVALID_PADDR) ∧ ∀ k, ord <= k <= MAX_ORDER → F k = []) ∨
  ∃ s' i F', phys_mem_alloc_pages ord s = Some (s', addr base i) ∧ ord <= MAX_ORDER ∧
    Al !! i = None ∧ binv s' F' (<[i := ord]> Al) None.
Proof using HL.
  intros (HB & HA & HS) Hord. unfold phys_mem_alloc_pages. rewrite Z.gtb_ltb.
  destruct (Z.ltb_spec MAX_ORDER ord) as [Hgt|Hle]; [left; split; [done|lia]|].
  destruct (find_order_spec s F HB (Z.to_nat (MAX_ORDER + 1 - ord)) ord) as (cur & -> & Hcur & Hem & Hne); [lia..|].
  cbn [mbind option_bind]. rewrite Z.gtb_ltb.
  destruct (Z.ltb_spec MAX_ORDER cur) as [Hgt|Hcle]; [left; split; [done|]; intros k Hk; apply Hem; lia|].
  assert (is_order cur) as Hoc by (split; lia). specialize (Hne Hcle).
  destruct (F cur) as [|i rest] eqn:HF; [done|]. right.
  pose proof (fl_dll _ _ _ (br_lists _ _ _ _ HB) cur Hoc) as Hd. rewrite HF in Hd.
  rewrite (get_next_nxt _ _ _ (dll_first _ _ _ Hd)). cbn [mbind option_bind default fmap list_fmap head].
  destruct (raw_remove base n HL s F cur [] i rest HB Hoc HF) as (s1 & s2 & E1 & E2 & Hfr & HB2).
  cbn [id]. rewrite E1. cbn [mbind option_bind]. rewrite E2. cbn [mbind option_bind list_entry].
  pose proof (bstate_take n F Al cur [] i rest HS Hoc HF) as HS2. cbn [app] in HB2, HS2.
  destruct (split_loop_spec (Z.to_nat MAX_ORDER) cur ord i s2 _ Al
    (conj HB2 (conj (bal_same _ _ _ Hfr HA) HS2))) as (s3 & F' & -> & HB3 & HA3 & HS3); [lia|unfold MAX_ORDER in *; lia|].
  cbn [mbind option_bind].
  destruct (blk_range F' Al (Some (i, ord)) i ord HS3) as (Hoo & Hi & Hal); [by right; right|].
  destruct (get_frame_total base n HL s3 F' i HB3 Hi) as (f & Hf & Hfa). rewrite Hf. cbn [mbind option_bind].
  assert (u8 ord = ord) as -> by (unfold MAX_ORDER in *; rewrite u8_small; lia).
  destruct (raw_set_frame base n HL s3 F' i (Frame (phys_addr f) PAGE_ALLOCATED 1 ord)) as (s4 & -> & HB4 & Hg4 & Ho4);
    [done|done| |done|].
  { intros m Hm Hj. by apply (bs_free_pend _ _ _ _ HS3 i m ord Hm Hj). }
  cbn [mbind option_bind]. pose proof (bs_al_pend _ _ _ _ HS3 i ord eq_refl) as HiA.
  eexists _, i, F'. rewrite Hfa. split; [done|]. split; [done|]. split; [done|].
  split; [by apply brep_totals|]. split; [|by apply bstate_alloc].
  intros j k. destruct (decide (j = i)) as [->|Hne'].
  - rewrite lookup_insert_eq. intros [= <-]. by exists (Frame (phys_addr f) PAGE_ALLOCATED 1 ord).
  - rewrite lookup_insert_ne by done. intros Hj. destruct (HA3 j k Hj) as (g & Hg & ?).
    exists g. split; [|done]. change (get_frame s4 j = Some g). by rewrite Ho4.
Qed.

(** ** Release *)

(** A frame that looks like a free buddy of the pending block is one. *)
Lemma free_buddy s F Al i k bf : binv s F Al (Some (i, k)) → k < MAX_ORDER → 0 <= buddy i k < n →
  get_frame s (buddy i k) = Some bf → fstate bf = PAGE_FREE → order bf = k → buddy i k ∈ F k.
Proof.
  intros (HB & HA & HS) Hk Hb Hf Hst Hor.
  destruct (buddy_head n _ (bs_tiling _ _ _ _ HS) i k) as (m & [[Hm Hin]|[Ha|Hp]] & _); [by right; right|done|done|..].
  - destruct (br_free _ _ _ _ HB m _ Hm Hin) as (g & Hg & _ & <-). congruence.
  - destruct (HA _ _ Ha) as (g & Hg & Hg' & _). congruence.
  - injection Hp as Hp _. symmetry in Hp. destruct (blk_range F Al _ i k HS) as ([? _] & _); [by right; right|].
    by destruct (buddy_ne i k).
Qed.

Lemma buddy_nonneg i k : 0 <= k → 0 <= i → (2 ^ k | i) → 0 <= buddy i k.
Proof.
  intros Hk Hi [q ->]. unfold buddy. pose proof (pow2_pos k Hk). rewrite Z.div_mul by lia.
  destruct (Z.odd q) eqn:Eq; [|lia]. assert (q ≠ 0) by (by intros ->). nia.
Qed.

(** The index the code computes for the buddy, which may lie past the end. *)
Lemma buddy_index s F i k : brep base n s F → is_order k → 0 <= i < n → 0 <= buddy i k →
  phys_to_index s (addr base (buddy i k)) = buddy i k ∨
  n < phys_to_index s (addr base (buddy i k)) ∧ n <= buddy i k.
Proof using HL.
  intros HB Hok Hi Hb0.
  destruct (Z.le_gt_cases (buddy i k) n); [left; apply (phys_to_index_addr base n HL); [apply HB|lia]|right].
  split; [|lia]. unfold phys_to_index. rewrite (br_base _ _ _ _ HB). unfold addr, CONFIG_PAGE_SIZE.
  replace (base + buddy i k * 4096 - base) with (buddy i k * 4096) by lia.
  assert (buddy i k < 2 ^ 20) as Hbound.
  { destruct HL as [_ _ [_ Hn]]. destruct Hok as [Hk0 Hk1]. pose proof (pow2_pos k Hk0).
    pose proof (Z.pow_le_mono_r 2 k MAX_ORDER ltac:(lia) Hk1) as Hp. unfold MAX_ORDER, MAX_PHYS_PAGES in *.
    change (2 ^ 11) with 2048 in Hp. change (2 ^ 20) with 1048576. unfold buddy. destruct (Z.odd _); lia. }
  rewrite u64_small by lia. rewrite Z.div_mul, u32_small by lia. lia.
Qed.

(** The half that becomes the head of the joined block. *)
Lemma merged_head s i k : s_mem_base s = base → is_order k → k < MAX_ORDER → 0 <= i < n → (2 ^ k | i) →
  (if is_buddy_aligned s (addr base i) (k + 1) then i
   else if addr base (buddy i k) <? addr base i then buddy i k else i) = Z.min i (buddy i k).
Proof using HL.
  intros Hb Hok Hlt Hi Hal. destruct (buddy_pair i k (proj1 Hok) Hal) as (_ & _ & ->).
  rewrite (is_buddy_aligned_addr base n HL) by (done || (destruct Hok; lia)).
  unfold buddy. destruct (Z.odd (i / 2 ^ k)); cbn [negb]; [|done].
  rewrite (proj2 (Z.ltb_lt _ _)); [done|]. pose proof (pow2_pos k (proj1 Hok)). unfold addr, CONFIG_PAGE_SIZE. lia.
Qed.

Lemma merge_loop_spec fuel i k s F Al f : binv s F Al (Some (i, k)) → get_frame s i = Some f → order f = k →
  MAX_ORDER - k <= Z.of_nat fuel →
  ∃ s' i' k' F' f', merge_loop fuel i k s = Some (s', i', k') ∧ binv s' F' Al (Some (i', k')) ∧
    get_frame s' i' = Some f' ∧ order f' = k' ∧ (k' < MAX_ORDER → buddy i' k' ∉ F' k').
Proof using HL.
  revert i k s F f. induction fuel as [|fuel IH]; intros i k s F f HI Hf Hor Hfuel; pose proof HI as (HB & HA & HS);
    destruct (blk_range F Al (Some (i, k)) i k HS) as (Hok & Hi & Hal); try (by right; right).
  { assert (k = MAX_ORDER) as -> by (destruct Hok; lia). exists s, i, MAX_ORDER, F, f. cbn [merge_loop].
    rewrite Z.ltb_irrefl. do 4 (split; [done|]). lia. }
  cbn [merge_loop]. destruct (Z.ltb_spec k MAX_ORDER) as [Hlt|Hge].
  2: { exists s, i, k, F, f. do 4 (split; [done|]). lia. }
  assert ((k < MAX_ORDER → buddy i k ∉ F k) → ∃ s' i' k' F' f', Some (s, i, k) = Some (s', i', k') ∧
    binv s' F' Al (Some (i', k')) ∧ get_frame s' i' = Some f' ∧ order f' = k' ∧
    (k' < MAX_ORDER → buddy i' k' ∉ F' k')) as Hexit by (intros H; by exists s, i, k, F, f).
  rewrite Hf. cbn [mbind option_bind]. pose proof (br_addr _ _ _ _ HB i f Hi Hf) as Hfa. rewrite Hfa.
  rewrite (buddy_address_addr base n HL) by (destruct Hok; lia || done).
  pose proof (buddy_nonneg i k (proj1 Hok) (proj1 Hi) Hal) as Hb0.
  rewrite (br_base _ _ _ _ HB), (proj2 (Z.ltb_ge _ _)) by (unfold addr, CONFIG_PAGE_SIZE; lia).
  rewrite (br_count _ _ _ _ HB), Z.geb_leb.
  pose proof (buddy_index s F i k HB Hok Hi Hb0) as Hpi.
  destruct (Z.leb_spec n (phys_to_index s (addr base (buddy i k)))) as [Hout|Hin].
  { apply Hexit. intros _ Hbf. pose proof (br_range _ _ _ _ HB k _ Hok Hbf). lia. }
  destruct Hpi as [Hpi|?]; [rewrite Hpi in *|lia].
  destruct (get_frame_total base n HL s F (buddy i k) HB ltac:(lia)) as (bf & Hbf & Hba). rewrite Hbf.
  cbn [mbind option_bind]. case_bool_decide as Hst; cbn [negb].
  2: { apply Hexit. intros _ Hbm. destruct (br_free _ _ _ _ HB k _ Hok Hbm) as (g & Hg & ? & _). congruence. }
  destruct (Z.eqb_spec (order bf) k) as [Hbo|Hbo]; cbn [negb].
  2: { apply Hexit. intros _ Hbm. destruct (br_free _ _ _ _ HB k _ Hok Hbm) as (g & Hg & _ & ?). congruence. }
  pose proof (free_buddy s F Al i k bf HI Hlt ltac:(lia) Hbf Hst Hbo) as Hbm.
  apply list_elem_of_split in Hbm as (xs & ys & Hx).
  destruct (raw_remove base n HL s F k xs (buddy i k) ys HB Hok Hx) as (s1 & s2 & -> & E2 & Hfr & HB2).
  cbn [mbind option_bind]. rewrite E2. cbn [mbind option_bind].
  pose proof (bstate_merge n F Al i k xs ys Hok Hlt HS Hx) as HS2.
  rewrite (merged_head s2 i k) by (done || apply HB2).
  set (i' := Z.min i (buddy i k)) in *.
  assert (0 <= i' < n) as Hi' by (unfold i'; lia).
  destruct (get_frame_total base n HL s2 _ i' HB2 Hi') as (f' & Hf' & Hfa'). rewrite Hf'. cbn [mbind option_bind].
  assert (u8 (k + 1) = k + 1) as -> by (destruct Hok; unfold MAX_ORDER in *; rewrite u8_small; lia).
  destruct (raw_set_frame base n HL s2 (<[k := xs ++ ys]> F) i' (set_order (k + 1) f') HB2 Hi') as (s3 & -> & HB3 & Hg3 & Ho3); [|done|].
  { intros m Hm Hj. by apply (bs_free_pend _ _ _ _ HS2 i' m (k + 1) Hm Hj). }
  cbn [mbind option_bind]. apply (IH i' (k + 1) s3 (<[k := xs ++ ys]> F) (set_order (k + 1) f')); [|done|done|lia].
  split; [done|]. split; [|done].
  eapply bal_frames; [|eapply bal_same; [exact Hfr|exact HA]]. intros j [m Hj]. apply Ho3. intros ->.
  rewrite (bs_al_pend _ _ _ _ HS2 i' (k + 1) eq_refl) in Hj. done.
Qed.

(** Releasing an allocated block with the order it was allocated with. *)
Lemma pages_free_spec s F Al i k : binv s F Al None → Al !! i = Some k →
  ∃ s' F', phys_mem_free_pages (addr base i) k s = Some s' ∧ binv s' F' (delete i Al) None.
Proof using HL.
  intros (HB & HA & HS) Hi. pose proof (HA i k Hi) as (f & Hf & Hst & Hor & Href).
  destruct (blk_range F Al None i k HS) as (Hok & Hir & Hal); [by right; left|].
  pose proof (addr_range base n HL i ltac:(lia)) as Hadr. unfold phys_mem_free_pages.
  rewrite (proj2 (Z.eqb_neq _ _)) by (unfold INVALID_PADDR; lia).
  rewrite Z.gtb_ltb, (proj2 (Z.ltb_ge _ _)) by apply Hok.
  rewrite (phys_to_index_addr base n HL) by (apply HB || lia).
  rewrite (br_count _ _ _ _ HB), Z.geb_leb, (proj2 (Z.leb_gt _ _)) by lia.
  rewrite Hf. cbn [mbind option_bind]. rewrite bool_decide_eq_true_2 by done. cbn [negb].
  rewrite Href. cbn [Z.gtb Z.compare]. change (1 - 1) with 0.
  pose proof (br_addr _ _ _ _ HB i f Hir Hf) as Hfa.
  pose proof (bstate_release n F Al i k HS Hi) as HS1.
  assert (∀ m, is_order m → i ∉ F m) as HiF.
  { intros m Hm Hj. by apply (bs_free_pend _ _ _ _ HS1 i m k Hm Hj). }
  destruct (raw_set_frame base n HL s F i (set_ref 0 f) HB Hir HiF Hfa) as (s1 & -> & HB1 & Hg1 & Ho1).
  cbn [mbind option_bind]. change (0 >? 0) with false. cbv iota.
  assert (bal s1 (delete i Al)) as HA1.
  { intros j m [Hne Hj]%lookup_delete_Some. rewrite Ho1 by done. by apply HA. }
  destruct (merge_loop_spec (Z.to_nat MAX_ORDER) i k s1 F (delete i Al) (set_ref 0 f))
    as (s2 & i2 & k2 & F2 & f2 & -> & (HB2 & HA2 & HS2) & Hf2 & Hor2 & Hnb);
    [by split|done|done|destruct Hok; lia|].
  cbn [mbind option_bind]. rewrite Hf2. cbn [mbind option_bind].
  destruct (blk_range F2 (delete i Al) (Some (i2, k2)) i2 k2 HS2) as (Hok2 & Hi2 & Hal2); [by right; right|].
  assert (∀ m, is_order m → i2 ∉ F2 m) as HiF2.
  { intros m Hm Hj. by apply (bs_free_pend _ _ _ _ HS2 i2 m k2 Hm Hj). }
  destruct (raw_set_frame base n HL s2 F2 i2 (Frame (phys_addr f2) PAGE_FREE 0 (order f2)) HB2 Hi2 HiF2)
    as (s3 & -> & HB3 & Hg3 & Ho3); [exact (br_addr _ _ _ _ HB2 i2 f2 Hi2 Hf2)|].
  cbn [mbind option_bind].
  destruct (raw_insert base n HL s3 F2 k2 i2 (Frame (phys_addr f2) PAGE_FREE 0 (order f2)))
    as (s4 & s5 & s6 & -> & E5 & E6 & Hfr & HB6); [done..|]. cbn [mbind option_bind].
  rewrite E5. cbn [mbind option_bind]. rewrite E6. cbn [mbind option_bind].
  eexists _, _. split; [done|]. split; [apply brep_totals; exact HB6|]. split; [|by apply bstate_free].
  intros j m Hj. destruct (HA2 j m Hj) as (g & Hg & ?). exists g. split; [|done].
  change (get_frame s6 j = Some g). unfold get_frame. rewrite Hfr. change (get_frame s3 j = Some g).
  rewrite Ho3; [done|]. intros ->. by rewrite (bs_al_pend _ _ _ _ HS2 i2 k2 eq_refl) in Hj.
Qed.
End ops.
