(* ===== verification/BuddyInit.v ===== *)
(** * Initialisation establishes the invariant *)

From stdpp Require Import functions.
From S2P Require Import Prelude KList PhysMem Buddy BuddyInv BuddyOps.

Set Default Goal Selector "!".

#[local] Arguments Z.pow : simpl never.

(** The static data that exists before the first call. *)
Record pm_static (s : pm) : Prop := PMStatic {
  ps_heads : ∀ k, is_order k → FreeList k ∈ dom (bnode s);
  ps_counts : Z.of_nat (length (free_counts s)) = MAX_ORDER + 1
}.

Lemma zero_nodes_spec m i h : dom h ⊆ dom (zero_nodes m i h) ∧
  (∀ j, i <= j < i + Z.of_nat m → FrameNode j ∈ dom (zero_nodes m i h)) ∧
  (∀ k, zero_nodes m i h !! FreeList k = h !! FreeList k).
Proof.
  revert i h. induction m as [|m IH]; intros i h; cbn [zero_nodes].
  { split_and!; [done|intros; lia|done]. }
  destruct (IH (i + 1) (<[FrameNode i := LH None None]> h)) as (H1 & H2 & H3).
  rewrite dom_insert_L in H1. split_and!; [set_solver| |].
  - intros j Hj. destruct (decide (j = i)) as [->|]; [set_solver|]. apply H2. lia.
  - intros k. by rewrite H3, lookup_insert_ne.
Qed.

Lemma init_free_lists_spec m i s : 0 <= i → i + Z.of_nat m = MAX_ORDER + 1 → pm_static s →
  ∃ h cs, init_free_lists m i s = Some (upd_counts cs (upd_bnode h s)) ∧ dom h = dom (bnode s) ∧
    length cs = length (free_counts s) ∧
    (∀ k, i <= k <= MAX_ORDER → dll h (FreeList k) [] ∧ cs.[k] = Some 0) ∧
    (∀ k, 0 <= k < i → h !! FreeList k = bnode s !! FreeList k ∧ cs.[k] = (free_counts s).[k]).
Proof.
  revert i s. induction m as [|m IH]; intros i s Hi Hm [Hh Hc]; cbn [init_free_lists].
  { exists (bnode s), (free_counts s). split; [by destruct s|]. split; [done|]. split; [done|]. split; [intros; lia|done]. }
  destruct (INIT_LIST_HEAD_effect (FreeList i) (bnode s)) as (h1 & E1 & [D1 F1] & N1); [apply Hh; split; lia|].
  unfold on_bnode. rewrite E1. cbn [mbind option_bind free_counts upd_bnode].
  rewrite zupdate_total by lia. cbn [mbind option_bind].
  set (s1 := upd_counts _ _).
  destruct (IH (i + 1) s1) as (h & cs & -> & D & L & Hnew & Hold); [lia|lia| |].
  { split; cbn; [rewrite D1; done|by rewrite length_insert]. }
  exists h, cs. split; [done|]. cbn in D, L, Hold. split; [congruence|]. split; [by rewrite L, length_insert|]. split.
  - intros k Hk. destruct (decide (k = i)) as [->|]; [|apply Hnew; lia].
    destruct (Hold i ltac:(lia)) as [Hn Hcs]. split.
    + apply dll_nil. unfold link, nxt, prv. rewrite Hn, N1. done.
    + rewrite Hcs. apply zlookup_insert_eq. lia.
  - intros k Hk. destruct (Hold k ltac:(lia)) as [-> ->]. split; [|apply zlookup_insert_ne; lia].
    apply F1. rewrite list_elem_of_singleton. intros [= ->]. lia.
Qed.

Section init.
Context (base n : Z) (HL : mem_layout base n).

Lemma init_frames_spec m i s : 0 <= i → i + Z.of_nat m = n → s_mem_base s = base →
  Z.of_nat (length (s_page_frames s)) = MAX_PHYS_PAGES → (∀ j, 0 <= j < n → FrameNode j ∈ dom (bnode s)) →
  ∃ fs h, init_frames m i s = Some (upd_bnode h (upd_frames fs s)) ∧ dom h = dom (bnode s) ∧
    (∀ k, h !! FreeList k = bnode s !! FreeList k) ∧ length fs = length (s_page_frames s) ∧
    (∀ j, i <= j < n → fs.[j] = Some (Frame (addr base j) PAGE_FREE 0 0)) ∧
    (∀ j, 0 <= j < i → fs.[j] = (s_page_frames s).[j]).
Proof using HL.
  revert i s. induction m as [|m IH]; intros i s Hi Hm Hb Hlen Hdom; cbn [init_frames].
  { exists (s_page_frames s), (bnode s). split; [by destruct s|]. split_and!; try done. intros; lia. }
  destruct HL as [_ _ Hn]. unfold set_frame. rewrite zupdate_total by lia. cbn [mbind option_bind].
  rewrite (index_to_phys_addr base n HL) by (done || lia).
  destruct (INIT_LIST_HEAD_effect (FrameNode i) (bnode s)) as (h1 & E1 & [D1 F1] & _); [apply Hdom; lia|].
  unfold on_bnode. cbn [bnode upd_frames]. rewrite E1. cbn [mbind option_bind]. set (s1 := upd_bnode h1 _).
  destruct (IH (i + 1) s1) as (fs & h & -> & D & Hf & L & Hnew & Hold); [lia|lia|done| | |].
  { cbn. by rewrite length_insert. }
  { cbn. by rewrite D1. }
  exists fs, h. split; [done|]. cbn in D, Hf, L, Hold. split; [congruence|]. split; [|split; [|split]].
  - intros k. rewrite Hf. apply F1. by rewrite list_elem_of_singleton.
  - by rewrite L, length_insert.
  - intros j Hj. destruct (decide (j = i)) as [->|]; [|apply Hnew; lia].
    rewrite Hold by lia. apply zlookup_insert_eq. lia.
  - intros j Hj. rewrite Hold by lia. apply zlookup_insert_ne; lia.
Qed.

(** ** Placing the blocks *)

(** The first [idx] frames are covered by free blocks. *)
Definition placed (s : pm) (F : Z → list Z) (idx : Z) : Prop :=
  brep base n s F ∧ bstate idx F ∅ None ∧ 0 <= idx <= n.

Lemma place_one s F k idx : placed s F idx → is_order k → (2 ^ k | idx) → 2 ^ k <= n - idx →
  (k < MAX_ORDER → F k = []) → ∃ f s1 s2 s3,
  get_frame s idx = Some f ∧ set_frame idx (Frame (phys_addr f) PAGE_FREE (ref_count f) k) s = Some s1 ∧
  on_bnode (list_add_tail (Some (FrameNode idx)) (Some (FreeList k))) s1 = Some s2 ∧
  add_count k 1 s2 = Some s3 ∧ ∀ fp st, placed (upd_totals fp st s3) (<[k := F k ++ [idx]]> F) (idx + 2 ^ k).
Proof using HL.
  intros (HB & HS & Hidx) Hk Hal Hroom Hempty. pose proof (pow2_pos k (proj1 Hk)) as Hp.
  destruct (get_frame_total base n HL s F idx HB ltac:(lia)) as (f & Hf & Hfa).
  assert (∀ m, is_order m → idx ∉ F m) as Hno.
  { intros m Hm Hi. destruct (ti_blk _ _ (bs_tiling _ _ _ _ HS) idx m) as (_ & _ & Hle & _); [by left|].
    pose proof (pow2_pos m (proj1 Hm)). lia. }
  destruct (raw_set_frame base n HL s F idx (Frame (phys_addr f) PAGE_FREE (ref_count f) k) HB ltac:(lia) Hno Hfa)
    as (s1 & E1 & HB1 & Hg1 & _).
  destruct (raw_append base n HL s1 F k idx _ HB1 Hk ltac:(lia) Hno Hg1 eq_refl eq_refl)
    as (s2 & s3 & E2 & E3 & _ & HB3).
  exists f, s1, s2, s3. do 4 (split; [done|]). intros fp st. split; [by apply brep_totals|]. split; [|lia].
  destruct HS as [HT Hfa0 Hfp Hap Hnd HN].
  assert (∀ m j, j ∈ (<[k := F k ++ [idx]]> F : Z → list Z) m ↔ (m = k ∧ j = idx) ∨ j ∈ F m) as Hin.
  { intros m j. destruct (decide (m = k)) as [->|]; [rewrite fn_lookup_insert; set_solver|].
    rewrite fn_lookup_insert_ne by done. naive_solver. }
  split; try done.
  - eapply tiling_ext; [|apply (tiling_extend idx _ HT k Hk Hal); lia]. intros j m. unfold blk. rewrite Hin. naive_solver.
  - intros m Hm. destruct (decide (m = k)) as [->|]; [|rewrite fn_lookup_insert_ne by done; auto].
    rewrite fn_lookup_insert. apply NoDup_app. split; [auto|]. split; [|apply NoDup_singleton].
    intros j Hj ->%list_elem_of_singleton. by apply (Hno k).
  - intros j m Hm Hlt [[-> ->]|Hj]%Hin [[Hmk E]|Hb]%Hin.
    + by apply (buddy_ne idx k (proj1 Hk)).
    + rewrite Hempty in Hb by done. by apply elem_of_nil in Hb.
    + subst m. rewrite Hempty in Hj by done. by apply elem_of_nil in Hj.
    + by apply (HN j m).
Qed.

Lemma place_blocks_spec fuel k idx s F : placed s F idx → is_order k → (2 ^ k | idx) →
  (k < MAX_ORDER → (F k = [] ∧ n - idx < 2 ^ (k + 1)) ∨ n - idx < 2 ^ k) → n - idx <= Z.of_nat fuel →
  ∃ s' idx' F', place_blocks fuel k (n - idx) idx s = Some (s', n - idx', idx') ∧ placed s' F' idx' ∧
    (2 ^ k | idx') ∧ n - idx' < 2 ^ k ∧ ∀ m, m ≠ k → F' m = F m.
Proof using HL.
  revert idx s F. induction fuel as [|fuel IH]; intros idx s F HP Hk Hal Hone Hfuel;
    pose proof (pow2_pos k (proj1 Hk)) as Hp; pose proof HP as (HB & HS & Hidx); cbn [place_blocks].
  all: assert (u32 (Z.shiftl 1 k) = 2 ^ k) as ->.
  1, 3: rewrite Z.shiftl_1_l; apply u32_small; pose proof (Z.pow_le_mono_r 2 k MAX_ORDER ltac:(lia) (proj2 Hk)) as Hle;
    unfold MAX_ORDER in Hle; change (2 ^ 11) with 2048 in Hle; lia.
  all: rewrite Z.geb_leb; destruct (Z.leb_spec (2 ^ k) (n - idx)) as [Hge|Hlt].
  - lia.
  - exists s, idx, F. done.
  - assert (k < MAX_ORDER → F k = []) as Hempty by (intros Hlt; destruct (Hone Hlt) as [[? _]|?]; [done|lia]).
    destruct (place_one s F k idx HP Hk Hal Hge Hempty) as (f & s1 & s2 & s3 & Hf & E1 & E2 & E3 & HP').
    assert (u8 k = k) as -> by (destruct Hk; unfold MAX_ORDER in *; rewrite u8_small; lia).
    rewrite Hf. cbn [mbind option_bind]. rewrite E1. cbn [mbind option_bind]. rewrite E2. cbn [mbind option_bind].
    rewrite E3. cbn [mbind option_bind]. destruct HL as [_ _ [_ Hn]]. unfold MAX_PHYS_PAGES in Hn.
    rewrite (u32_small (n - idx - 2 ^ k)), (u32_small (idx + 2 ^ k)) by lia.
    replace (n - idx - 2 ^ k) with (n - (idx + 2 ^ k)) by lia.
    destruct (IH (idx + 2 ^ k) _ _ (HP' (u32 (free_pages s3 + 2 ^ k)) (s_stats s3)) Hk) as (s' & idx' & F' & E & HP2 & Hal2 & Hr2 & Hsame).
    + apply Z.divide_add_r; [done|apply Z.divide_refl].
    + intros Hlt. right. destruct (Hone Hlt) as [[_ Hb]|Hb]; [|lia]. rewrite pow2_succ in Hb by apply Hk. lia.
    + lia.
    + exists s', idx', F'. split; [exact E|]. split; [done|]. split; [done|]. split; [done|].
      intros m Hm. rewrite Hsame by done. by rewrite fn_lookup_insert_ne.
  - exists s, idx, F. done.
Qed.

Lemma place_orders_spec m k idx s F : placed s F idx → Z.of_nat m = k + 1 → is_order k → (2 ^ k | idx) →
  (∀ j, 0 <= j <= k → F j = []) → (k < MAX_ORDER → n - idx < 2 ^ (k + 1)) →
  ∃ s' F', place_orders m k (n - idx) idx s = Some s' ∧ brep base n s' F' ∧ bstate n F' ∅ None.
Proof using HL.
  revert k idx s F. induction m as [|m IH]; intros k idx s F HP Hm Hk Hal Hempty Hone; [destruct Hk; lia|].
  cbn [place_orders].
  destruct (place_blocks_spec (Z.to_nat MAX_PHYS_PAGES) k idx s F HP Hk Hal) as (s1 & idx1 & F1 & -> & HP1 & Hal1 & Hr1 & Hsame).
  { intros Hlt. left. split; [apply Hempty; destruct Hk; lia|auto]. }
  { destruct HL as [_ _ Hn]. destruct HP as (_ & _ & ?). unfold MAX_PHYS_PAGES in *. lia. }
  cbn [mbind option_bind]. pose proof HP1 as (HB1 & HS1 & Hi1).
  destruct (Z.eqb_spec (n - idx1) 0) as [H0|H0].
  { assert (idx1 = n) as -> by lia. by exists s1, F1. }
  destruct (Z.eqb_spec k 0) as [->|Hk0].
  { change (2 ^ 0) with 1 in Hr1. lia. }
  assert (0 <= k - 1) as Hk1 by (destruct Hk; lia).
  apply (IH (k - 1) idx1 s1 F1 HP1); [lia|destruct Hk; split; lia| | |].
  - destruct Hal1 as [q ->]. exists (q * 2). replace k with (k - 1 + 1) at 1 by lia. rewrite pow2_succ by done. ring.
  - intros j Hj. rewrite Hsame by lia. apply Hempty. lia.
  - intros _. by replace (k - 1 + 1) with k by lia.
Qed.

Lemma brep_fresh s : s_mem_base s = base → s_frame_count s = n →
  Z.of_nat (length (s_page_frames s)) = MAX_PHYS_PAGES →
  (∀ j, 0 <= j < n → get_frame s j = Some (Frame (addr base j) PAGE_FREE 0 0)) →
  (∀ k, is_order k → dll (bnode s) (FreeList k) []) → (∀ i, 0 <= i < n → FrameNode i ∈ dom (bnode s)) →
  (∀ k, is_order k → (free_counts s).[k] = Some 0) → brep base n s (λ _, []).
Proof.
  intros Hb Hn Hlen Hf Hd Hdom Hc. split; [exact Hb|exact Hn|exact Hlen| | |exact Hc| |].
  - intros i f Hi E. rewrite Hf in E by exact Hi. by injection E as <-.
  - split; [exact Hd|exact Hdom|]. intros k m i _ _ Hi. by apply elem_of_nil in Hi.
  - intros k i _ Hi. by apply elem_of_nil in Hi.
  - intros k i _ Hi. by apply elem_of_nil in Hi.
Qed.

(** ** The whole call *)

Record cleared (s : pm) : Prop := Cleared {
  cl_static : pm_static s;
  cl_base : s_mem_base s = base;
  cl_count : s_frame_count s = n;
  cl_len : Z.of_nat (length (s_page_frames s)) = MAX_PHYS_PAGES;
  cl_dom : ∀ j, 0 <= j < MAX_PHYS_PAGES → FrameNode j ∈ dom (bnode s)
}.

Lemma clear_frames_spec s : pm_static s → cleared (clear_frames n base s).
Proof.
  intros [Hh Hc]. unfold clear_frames. generalize (Z2Nat.id MAX_PHYS_PAGES ltac:(done)).
  generalize (Z.to_nat MAX_PHYS_PAGES). intros m Hm.
  destruct (zero_nodes_spec m 0 (bnode s)) as (H1 & H2 & _). split; cbn; [|done|done|by rewrite length_replicate|].
  - split; [|exact Hc]. intros k Hk. by apply H1, Hh.
  - intros j Hj. apply H2. lia.
Qed.

Lemma init_frames_ready m s : Z.of_nat m = MAX_ORDER + 1 → cleared s → ∃ s1 s2, init_free_lists m 0 s = Some s1 ∧
  init_frames (Z.to_nat n) 0 s1 = Some s2 ∧ brep base n s2 (λ _, []).
Proof using HL.
  intros Hm [Hst Hb Hcn Hlen Hdom]. pose proof HL as [_ _ [Hn0 Hn]].
  destruct (init_free_lists_spec m 0 s) as (h1 & cs1 & E1 & D1 & L1 & Hl1 & _); [lia|lia|done|].
  eexists. rewrite E1. set (s1 := upd_counts cs1 _).
  destruct (init_frames_spec (Z.to_nat n) 0 s1) as (fs & h2 & E2 & D2 & F2 & L2 & Hfs & _); [lia|lia|exact Hb|exact Hlen| |].
  { intros j Hj. cbn. rewrite D1. apply Hdom. lia. }
  eexists. split; [done|]. split; [exact E2|]. cbn in D2, F2, L2. apply brep_fresh; cbn.
  - exact Hb.
  - exact Hcn.
  - by rewrite L2.
  - intros j Hj. apply Hfs. lia.
  - intros k Hk. destruct (Hl1 k Hk) as [Hd _]. apply dll_nil in Hd. apply dll_nil.
    unfold link, nxt, prv in *. rewrite F2. exact Hd.
  - intros i Hi. rewrite D2, D1. apply Hdom. lia.
  - intros k Hk. apply (Hl1 k Hk).
Qed.

Lemma bstate_fresh : bstate 0 (λ _, []) ∅ None.
Proof.
  split.
  - split.
    + intros i k [[_ Hi]|[?|?]]; [by apply elem_of_nil in Hi|done..].
    + intros i k j m [[_ Hi]|[?|?]]; [by apply elem_of_nil in Hi|done..].
    + intros p Hp. lia.
  - done.
  - intros i k m _ Hi. by apply elem_of_nil in Hi.
  - done.
  - intros k _. constructor.
  - intros i k _ _ Hi. by apply elem_of_nil in Hi.
Qed.

Lemma init_cleared_spec s : cleared s →
  ∃ s' F, init_cleared n s = Some (s', KERNEL_OK) ∧ binv base n s' F ∅ None.
Proof using HL.
  intros Hcl. pose proof (ml_pages _ _ HL) as [Hn0 Hn]. unfold init_cleared.
  generalize (Z2Nat.id (MAX_ORDER + 1) ltac:(done)). generalize (Z.to_nat (MAX_ORDER + 1)). intros m Hm.
  destruct (init_frames_ready m s Hm Hcl) as (s1 & s2 & -> & E2 & HB). cbn [mbind option_bind].
  rewrite E2. cbn [mbind option_bind].
  destruct (place_orders_spec m MAX_ORDER 0 s2 (λ _, [])) as (s3 & F & E & HB3 & HS3);
    [|done|done|apply Z.divide_0_r|done|lia|].
  { split; [done|]. split; [exact bstate_fresh|lia]. }
  rewrite Z.sub_0_r in E. rewrite E. cbn [mbind option_bind]. eexists _, F. split; [done|].
  split; [by apply brep_totals|]. split; [by intros i k|done].
Qed.

#[local] Opaque init_cleared clear_frames.

Lemma pages_init_spec s : pm_static s →
  ∃ s' F, phys_mem_init base (n * CONFIG_PAGE_SIZE) s = Some (s', KERNEL_OK) ∧ binv base n s' F ∅ None.
Proof using HL.
  intros Hst. pose proof HL as [[Hb0 Hb] [q Hq] [Hn0 Hn]].
  assert (base mod CONFIG_PAGE_SIZE = 0) as Hmod.
  { rewrite Hq. replace (q * (CONFIG_PAGE_SIZE * 2 ^ MAX_ORDER)) with (q * 2 ^ MAX_ORDER * CONFIG_PAGE_SIZE) by ring.
    by apply Z.mod_mul. }
  destruct (init_cleared_spec _ (clear_frames_spec s Hst)) as (s' & F & E & HI). exists s', F. split; [|exact HI].
  rewrite <- E. unfold phys_mem_init.
  rewrite (proj2 (Z.eqb_neq base 0)) by lia. rewrite Hmod.
  rewrite (proj2 (Z.eqb_neq (n * CONFIG_PAGE_SIZE) 0)) by (unfold CONFIG_PAGE_SIZE; lia).
  rewrite Z.mod_mul by done. rewrite Z.div_mul by done.
  rewrite u32_small by (unfold MAX_PHYS_PAGES in Hn; lia). rewrite Z.gtb_ltb, (proj2 (Z.ltb_ge _ _)) by lia.
  reflexivity.
Qed.
End init.
