(* ===== verification/BuddyTheorems.v ===== *)
(** * What the buddy allocator promises

    The clients' view: the blocks handed out and not yet given back.  Every
    state the allocator reaches from its initialisation hands out aligned,
    disjoint blocks of the managed range, takes each of them back, and refuses
    an order only when no such block is left. *)

From stdpp Require Import functions.
From S2P Require Import Prelude KList PhysMem Buddy BuddyInv BuddyOps BuddyInit.

Set Default Goal Selector "!".

#[local] Arguments Z.pow : simpl never.

(** ** The protocol of the clients *)

(** [live] maps the address of each block in use to its order. *)
Inductive pm_reach (base n : Z) : pm → gmap Z Z → Prop :=
  | reach_init image s : pm_static image →
      phys_mem_init base (n * CONFIG_PAGE_SIZE) image = Some (s, KERNEL_OK) → pm_reach base n s ∅
  | reach_alloc s live ord s' p : pm_reach base n s live → 0 <= ord →
      phys_mem_alloc_pages ord s = Some (s', p) → p ≠ INVALID_PADDR → pm_reach base n s' (<[p := ord]> live)
  | reach_full s live ord s' : pm_reach base n s live → 0 <= ord →
      phys_mem_alloc_pages ord s = Some (s', INVALID_PADDR) → pm_reach base n s' live
  | reach_free s live ord s' p : pm_reach base n s live → live !! p = Some ord →
      phys_mem_free_pages p ord s = Some s' → pm_reach base n s' (delete p live).

(** The bytes of the block of order [k] at [p]. *)
Definition block_end (p k : Z) : Z := p + CONFIG_PAGE_SIZE * 2 ^ k.

Definition block_ok (base n p k : Z) : Prop :=
  0 <= k <= MAX_ORDER ∧ (CONFIG_PAGE_SIZE * 2 ^ k | p) ∧ base <= p ∧ block_end p k <= base + n * CONFIG_PAGE_SIZE.

Definition apart (p k q m : Z) : Prop := block_end p k <= q ∨ block_end q m <= p.

#[global] Instance addr_inj' base : Inj (=) (=) (addr base).
Proof. intros i j. apply addr_inj. Qed.

Section reach.
Context (base n : Z) (HL : mem_layout base n).

Lemma reach_inv s live : pm_reach base n s live →
  ∃ F Al, binv base n s F Al None ∧ live = kmap (addr base) Al.
Proof using HL.
  induction 1 as [image s Hst E|s live ord s' p _ IH Hord E Hp|s live ord s' _ IH Hord E|s live ord s' p _ IH Hp E].
  - destruct (pages_init_spec base n HL image Hst) as (s1 & F & E1 & HI). rewrite E in E1. injection E1 as <-.
    exists F, ∅. split; [exact HI|symmetry; apply kmap_empty].
  - destruct IH as (F & Al & HI & ->).
    destruct (pages_alloc_spec base n HL s F Al ord HI Hord) as [[E1 _]|(s1 & i & F' & E1 & _ & _ & HI')];
      rewrite E in E1; injection E1 as E1 E2; subst s' p; [done|].
    exists F', (<[i := ord]> Al). split; [exact HI'|]. rewrite (kmap_insert (addr base)). reflexivity.
  - destruct IH as (F & Al & HI & ->).
    destruct (pages_alloc_spec base n HL s F Al ord HI Hord) as [[E1 _]|(s1 & i & F' & E1 & Ho & _ & HI')];
      rewrite E in E1; [injection E1 as E1; subst s'; by exists F, Al|]. injection E1 as E1 E2.
    pose proof HI' as (_ & _ & HS). destruct (blk_range n _ _ _ i ord HS) as (_ & Hi & _).
    { right; left. apply lookup_insert_eq. }
    pose proof (addr_range base n HL i ltac:(lia)). unfold INVALID_PADDR in E2. lia.
  - destruct IH as (F & Al & HI & ->). apply lookup_kmap_Some in Hp as (i & -> & Hi); [|apply _].
    destruct (pages_free_spec base n HL s F Al i ord HI Hi) as (s1 & F' & E1 & HI').
    rewrite E in E1. injection E1 as <-. exists F', (delete i Al). split; [exact HI'|apply eq_sym, kmap_delete, _].
Qed.

Lemma al_block F Al i k : bstate n F Al None → Al !! i = Some k → block_ok base n (addr base i) k.
Proof using HL.
  intros HS Hi. destruct (ti_blk _ _ (bs_tiling _ _ _ _ HS) i k) as (Hk & Hi0 & Hin & [r ->]); [by right; left|].
  destruct HL as [_ [q Hq] _]. unfold block_ok, block_end, addr. split; [done|].
  unfold CONFIG_PAGE_SIZE in *. split; [|lia]. rewrite Hq, (pow2_split MAX_ORDER k) by done.
  exists (q * 2 ^ (MAX_ORDER - k) + r). ring.
Qed.

Lemma block_index p k : block_ok base n p k → ∃ i, p = addr base i ∧ (2 ^ k | i) ∧ 0 <= i ∧ i + 2 ^ k <= n.
Proof using HL.
  intros (Hk & [r Hr] & Hb & He). destruct HL as [_ [q Hq] _]. rewrite (pow2_split MAX_ORDER k Hk) in Hq.
  exists ((r - q * 2 ^ (MAX_ORDER - k)) * 2 ^ k). unfold block_end, addr, CONFIG_PAGE_SIZE in *.
  assert (p = base + (r - q * 2 ^ (MAX_ORDER - k)) * 2 ^ k * 4096) as Hp by (rewrite Hr, Hq; ring).
  split; [done|]. split; [apply Z.divide_factor_r|]. lia.
Qed.

Lemma al_apart F Al i k j m : bstate n F Al None → Al !! i = Some k → Al !! j = Some m → i ≠ j →
  apart (addr base i) k (addr base j) m.
Proof.
  intros HS Hi Hj Hne. unfold apart, block_end, addr, CONFIG_PAGE_SIZE.
  destruct (ti_disj _ _ (bs_tiling _ _ _ _ HS) i k j m) as [[? _]|[?|?]]; [by right; left|by right; left|done|lia..].
Qed.

(** ** Completeness *)

(** Among finitely many orders there is a least one with a block. *)
Lemma least_order (Q : Z → Prop) `{!∀ k, Decision (Q k)} k : 0 <= k → Q k → ∃ m, 0 <= m <= k ∧ Q m ∧ ∀ j, 0 <= j < m → ¬ Q j.
Proof.
  intros Hk. revert k Hk. apply (Zlt_0_ind (λ k, Q k → ∃ m, 0 <= m <= k ∧ Q m ∧ ∀ j, 0 <= j < m → ¬ Q j)).
  intros k IH Hk HQ. destruct (decide (Exists Q (seqZ 0 k))) as [(j & Hj & HQj)%Exists_exists|Hno].
  - apply elem_of_seqZ in Hj. destruct (IH j ltac:(lia) HQj) as (m & ? & ? & ?). exists m. split; [lia|done].
  - exists k. split; [lia|]. split; [done|]. intros j Hj HQj. apply Hno, Exists_exists.
    exists j. split; [apply elem_of_seqZ; lia|done].
Qed.

(** When no block of order [ord] or more is free, every aligned range of that
    size meets an allocated block. *)
Lemma no_room F Al ord i : bstate n F Al None → 0 <= ord <= MAX_ORDER → (∀ k, ord <= k <= MAX_ORDER → F k = []) →
  (2 ^ ord | i) → 0 <= i → i + 2 ^ ord <= n → ∃ j m, Al !! j = Some m ∧ j < i + 2 ^ ord ∧ i < j + 2 ^ m.
Proof.
  clear HL. intros HS Ho Hem Hal Hi0 Hin. pose proof (pow2_pos ord ltac:(lia)) as Hp. pose proof (bs_tiling _ _ _ _ HS) as HT.
  set (meets := λ '(j, m), j < i + 2 ^ ord ∧ i < j + 2 ^ m).
  destruct (decide (map_Exists (λ j m, meets (j, m)) Al)) as [(j & m & Hj & Hmeet)|Hno]; [by exists j, m|exfalso].
  assert (∀ j m, Al !! j = Some m → ¬ meets (j, m)) as Hal'.
  { intros j m Hj Hm. apply Hno. by exists j, m. }
  assert (∀ j m, blk F Al None j m → meets (j, m) → m < ord ∧ i <= j ∧ j + 2 ^ m <= i + 2 ^ ord ∧ j ∈ F m) as Hin'.
  { intros j m Hb Hmt. destruct Hb as [[Hm Hj]|[Ha|?]]; [|by destruct (Hal' _ _ Ha)|done].
    destruct (ti_blk _ _ HT j m) as (? & ? & ? & Hjal); [by left|].
    assert (m < ord) as Hlt. { apply Z.nle_gt. intros Hle. rewrite Hem in Hj by lia. by apply elem_of_nil in Hj. }
    destruct (nested_or_apart i ord j m) as [?|[?|?]]; [lia|done..| |unfold meets in Hmt; lia|unfold meets in Hmt; lia].
    split; [done|]. split; [lia|]. split; [lia|done]. }
  destruct (ti_cover _ _ HT i ltac:(lia)) as (j0 & m0 & Hb0 & Hr0).
  destruct (Hin' j0 m0 Hb0) as (Hm0 & Hj0 & Hj0' & HF0); [unfold meets; lia|].
  set (Q := λ m, Exists (λ j, i <= j < i + 2 ^ ord) (F m)).
  destruct (ti_blk _ _ HT j0 m0 Hb0) as (Hk0 & _).
  destruct (least_order Q m0) as (m & Hm & HQ & Hmin); [lia| |].
  { apply Exists_exists. exists j0. split; [done|]. pose proof (pow2_pos m0 ltac:(lia)). lia. }
  apply Exists_exists in HQ as (j & HFj & Hjr).
  assert (is_order m) as Hom by (split; lia).
  assert (blk F Al None j m) as Hbj by by left.
  pose proof (pow2_pos m ltac:(lia)) as Hpm. destruct (Hin' j m Hbj) as (Hmo & _ & Hend & _); [unfold meets; lia|].
  destruct (ti_blk _ _ HT j m Hbj) as (_ & _ & _ & Hjal).
  destruct (buddy_pair j m ltac:(lia) Hjal) as (Hpair & Hpos & _).
  pose proof (pow2_succ m ltac:(lia)) as Hsucc.
  assert (i <= buddy j m ∧ buddy j m + 2 ^ m <= i + 2 ^ ord) as [Hb1 Hb2].
  { destruct (nested_or_apart i ord (Z.min j (buddy j m)) (m + 1)) as [?|[?|?]]; [lia|done..|lia|lia|lia]. }
  destruct (buddy_head n _ HT j m Hbj) as (m' & Hbb & Hle); [lia|lia|].
  pose proof (ti_blk _ _ HT _ _ Hbb) as (Hk' & _). pose proof (pow2_pos m' ltac:(lia)) as Hpm'.
  destruct (Hin' _ _ Hbb) as (_ & _ & _ & HFb); [unfold meets; lia|].
  destruct (decide (m' = m)) as [->|Hne]; [by apply (bs_merged _ _ _ _ HS j m Hom ltac:(lia) HFj)|].
  apply (Hmin m' ltac:(lia)). apply Exists_exists. exists (buddy j m). split; [done|lia].
Qed.
End reach.

(** ** The theorems *)

(** C11: In every state the page allocator reaches by allocations and releases of
    blocks in use from initialisation with a base that is a multiple of 8 MB, the
    size of the largest block ([mem_layout]), a request either leaves the state alone and returns the
    invalid address, or returns a block that is aligned to its size, lies inside
    the managed memory and overlaps no block still in use.  The kernel passes the
    page-aligned end of its image, for which this fails
    ([buddy_misaligned_base_overlap]); [phys_mem_reserve] is not among the calls. *)
Theorem buddy_alloc_safe (base n : Z) (s : pm) (live : gmap Z Z) (ord : Z) :
  mem_layout base n → pm_reach base n s live → 0 <= ord →
  ∃ s' p, phys_mem_alloc_pages ord s = Some (s', p) ∧
    ((p = INVALID_PADDR ∧ s' = s) ∨
     (p ≠ INVALID_PADDR ∧ block_ok base n p ord ∧ (∀ q m, live !! q = Some m → apart p ord q m) ∧
      pm_reach base n s' (<[p := ord]> live))).
Proof.
  intros HL HR Hord. destruct (reach_inv base n HL s live HR) as (F & Al & HI & ->).
  destruct (pages_alloc_spec base n HL s F Al ord HI Hord) as [[E _]|(s' & i & F' & E & Ho & Hno & HI')].
  { exists s, INVALID_PADDR. split; [done|by left]. }
  exists s', (addr base i). split; [done|right]. pose proof HI' as (_ & _ & HS).
  pose proof (al_block base n HL F' _ i ord HS (lookup_insert_eq _ _ _)) as Hok.
  assert (addr base i ≠ INVALID_PADDR) as Hne.
  { destruct Hok as (_ & _ & ? & _). destruct HL as [[? _] _ _]. unfold INVALID_PADDR. lia. }
  split; [done|]. split; [done|]. split; [|by apply (reach_alloc base n s _ ord s')].
  intros q m (j & -> & Hj)%lookup_kmap_Some; [|apply _]. assert (j ≠ i) by congruence.
  apply (al_apart base n F' (<[i := ord]> Al)); [done|apply lookup_insert_eq|by rewrite lookup_insert_ne|done].
Qed.

(** C12: With a base that is a multiple of 8 MB and after any sequence of
    allocations and releases of blocks in use (no [phys_mem_reserve]), a request
    for a valid order is refused exactly when every aligned block of that size in
    the managed memory overlaps a block in use: merging on release never leaves
    usable memory split up. *)
Theorem buddy_alloc_complete (base n : Z) (s : pm) (live : gmap Z Z) (ord : Z) :
  mem_layout base n → pm_reach base n s live → 0 <= ord <= MAX_ORDER →
  phys_mem_alloc_pages ord s = Some (s, INVALID_PADDR) ↔
  ∀ p, block_ok base n p ord → ∃ q m, live !! q = Some m ∧ ¬ apart p ord q m.
Proof.
  intros HL HR Hord. destruct (reach_inv base n HL s live HR) as (F & Al & HI & ->). pose proof HI as (_ & _ & HS).
  destruct (pages_alloc_spec base n HL s F Al ord HI ltac:(lia)) as [[E Hem]|(s' & i & F' & E & Ho & Hno & HI')].
  - split; [intros _ p Hp|done]. destruct (block_index base n HL p ord Hp) as (i & -> & Hal & Hi0 & Hin).
    destruct (no_room n F Al ord i HS Hord Hem Hal Hi0 Hin) as (j & m & Hj & H1 & H2).
    exists (addr base j), m. split; [by rewrite lookup_kmap by apply _|].
    unfold apart, block_end, addr, CONFIG_PAGE_SIZE. lia.
  - rewrite E. pose proof HI' as (_ & _ & HS').
    pose proof (al_block base n HL F' _ i ord HS' (lookup_insert_eq _ _ _)) as Hok.
    split; [intros [= _ H0]|intros Hall]; exfalso.
    + destruct Hok as (_ & _ & ? & _). destruct HL as [[? _] _ _]. unfold INVALID_PADDR in H0. lia.
    + destruct (Hall _ Hok) as (q & m & (j & -> & Hj)%lookup_kmap_Some & Hna); [|apply _].
      apply Hna. assert (j ≠ i) by congruence.
      apply (al_apart base n F' (<[i := ord]> Al)); [done|apply lookup_insert_eq|by rewrite lookup_insert_ne|done].
Qed.

(** Giving back a block in use always succeeds, the block is no longer in
    use afterwards, and the same order can be allocated again at once. *)
Theorem buddy_free_reusable (base n : Z) (s : pm) (live : gmap Z Z) (p ord : Z) :
  mem_layout base n → pm_reach base n s live → live !! p = Some ord →
  ∃ s', phys_mem_free_pages p ord s = Some s' ∧ pm_reach base n s' (delete p live) ∧
    ∃ s'' q, phys_mem_alloc_pages ord s' = Some (s'', q) ∧ q ≠ INVALID_PADDR ∧
      pm_reach base n s'' (<[q := ord]> (delete p live)).
Proof.
  intros HL HR Hp. destruct (reach_inv base n HL s live HR) as (F & Al & HI & Hlive). pose proof HI as (_ & _ & HS).
  pose proof Hp as Hi. rewrite Hlive in Hi. apply lookup_kmap_Some in Hi as (i & -> & Hi); [|apply _].
  destruct (pages_free_spec base n HL s F Al i ord HI Hi) as (s' & F' & E & HI').
  pose proof (reach_free base n s live ord s' _ HR Hp E) as HR'.
  exists s'. split; [done|]. split; [done|]. pose proof HI' as (_ & _ & HS').
  destruct (ti_blk _ _ (bs_tiling _ _ _ _ HS) i ord) as (Ho & Hi0 & Hin & Hal); [by right; left|].
  destruct (pages_alloc_spec base n HL s' F' _ ord HI' ltac:(lia)) as [[_ Hem]|(s'' & j & F'' & E2 & _ & _ & HI'')].
  - exfalso. destruct (no_room n F' _ ord i HS' Ho Hem Hal Hi0 Hin) as (j & m & [Hne Hj]%lookup_delete_Some & H1 & H2).
    destruct (ti_disj _ _ (bs_tiling _ _ _ _ HS) i ord j m) as [[? _]|[?|?]]; [by right; left|by right; left|done|lia..].
  - exists s'', (addr base j). split; [done|]. pose proof HI'' as (_ & _ & HS'').
    pose proof (al_block base n HL F'' _ j ord HS'' (lookup_insert_eq _ _ _)) as (_ & _ & Hb & _).
    assert (addr base j ≠ INVALID_PADDR) by (destruct HL as [[? _] _ _]; unfold INVALID_PADDR; lia).
    split; [done|]. by apply (reach_alloc base n s' _ ord s''); [|lia|..].
Qed.

(** Frame numbers and addresses correspond: [phys_mem_get_frame] finds frame
    [i] exactly for the address [index_to_phys] gives it, for every managed
    range that ends below the top of the address space; every other address
    gives no frame. *)
Theorem frame_address_roundtrip (s : pm) (p i : Z) :
  0 <= s_mem_base s → (CONFIG_PAGE_SIZE | s_mem_base s) → 0 <= s_frame_count s <= MAX_PHYS_PAGES →
  s_mem_base s + s_frame_count s * CONFIG_PAGE_SIZE < 2 ^ 64 → 0 <= p < 2 ^ 64 →
  phys_mem_get_frame p s = Some i ↔ 0 <= i < s_frame_count s ∧ p = index_to_phys s i.
Proof.
  intros Hb [q Hq] Hn Hend Hp. unfold phys_mem_get_frame, phys_to_index, index_to_phys.
  unfold CONFIG_PAGE_SIZE, MAX_PHYS_PAGES in *.
  rewrite (u64_small (s_frame_count s * 4096)) by lia. rewrite (u64_small (s_mem_base s + _)) by lia.
  rewrite Z.geb_leb. destruct (Z.ltb_spec p (s_mem_base s)) as [Hlt|Hge].
  { split; [done|]. intros [Hi ->]. rewrite (u64_small (i * 4096)), u64_small in Hlt by lia. lia. }
  destruct (Z.leb_spec (s_mem_base s + s_frame_count s * 4096) p) as [Hge'|Hlt].
  { split; [done|]. intros [Hi ->]. rewrite (u64_small (i * 4096)), u64_small in Hge' by lia. lia. }
  rewrite (u64_small (p - s_mem_base s)) by lia. destruct (Z.eqb_spec (p mod 4096) 0) as [Hal|Hal]; cbn [negb].
  - apply Z.mod_divide in Hal as [r ->]; [|lia]. rewrite Hq in *.
    replace (r * 4096 - q * 4096) with ((r - q) * 4096) by lia. rewrite Z.div_mul by lia.
    rewrite u32_small by lia. rewrite Z.geb_leb, (proj2 (Z.leb_gt _ _)) by lia. split.
    + intros [= <-]. rewrite (u64_small ((r - q) * 4096)), u64_small by lia. lia.
    + intros [Hi E]. rewrite (u64_small (i * 4096)), u64_small in E by lia. f_equal. lia.
  - split; [done|]. intros [Hi ->]. destruct Hal. rewrite (u64_small (i * 4096)), u64_small by lia.
    rewrite Hq. replace (q * 4096 + i * 4096) with ((q + i) * 4096) by lia. apply Z.mod_mul. lia.
Qed.

(** ** Runs *)

Inductive pm_op := PAlloc (ord : Z) | PFree (p ord : Z) | PReserve (start size : Z).

Definition run_pm_op (op : pm_op) (s : pm) : option (pm * Z) :=
  match op with
  | PAlloc ord => phys_mem_alloc_pages ord s
  | PFree p ord => s ← phys_mem_free_pages p ord s; Some (s, KERNEL_OK)
  | PReserve start size => phys_mem_reserve start size s
  end.

Fixpoint run_pm (ops : list pm_op) (s : pm) : option (pm * list Z) :=
  match ops with
  | [] => Some (s, [])
  | op :: ops => r ← run_pm_op op s; r' ← run_pm ops r.1; Some (r'.1, r.2 :: r'.2)
  end.

(** The results of a run on [n] pages at [base], with the counters it ends with. *)
Definition pm_trial (base n : Z) (ops : list pm_op) : option (list Z * list Z * Z) :=
  r ← phys_mem_init base (n * CONFIG_PAGE_SIZE) pm_image;
  r' ← run_pm ops r.1;
  Some (r'.2, free_counts r'.1, free_pages r'.1).

Definition demo_base : Z := 0x40800000.

Lemma demo_pages : mem_layout demo_base 16.
Proof.
  split; [split; reflexivity|exists 129; reflexivity|]. split; [reflexivity|]. intros H. vm_compute in H. discriminate H.
Qed.

Lemma pm_image_static : pm_static pm_image.
Proof.
  split; [|reflexivity]. intros k [H1 H2]. unfold MAX_ORDER in H2. unfold pm_image. cbn [bnode].
  rewrite !dom_insert_L, dom_empty_L, !elem_of_union, !elem_of_singleton.
  assert (k ∈ seqZ 0 12) as Hk by (apply elem_of_seqZ; lia). revert Hk. clear H1 H2.
  change (seqZ 0 12) with [0; 1; 2; 3; 4; 5; 6; 7; 8; 9; 10; 11]. rewrite !elem_of_cons, elem_of_nil.
  intros Hk. repeat (destruct Hk as [->|Hk]; [tauto|]). done.
Qed.

Lemma init_returns base n s : mem_layout base n → pm_static s →
  ∃ s', phys_mem_init base (n * CONFIG_PAGE_SIZE) s = Some (s', KERNEL_OK).
Proof. intros HL Hs. destruct (pages_init_spec base n HL s Hs) as (s' & F & E & _). by exists s'. Qed.

Definition demo_init : pm := default pm_image (fst <$> phys_mem_init demo_base (16 * CONFIG_PAGE_SIZE) pm_image).
Definition demo_used : pm := default pm_image (fst <$> phys_mem_alloc_pages 2 demo_init).

Lemma demo_init_reach : pm_reach demo_base 16 demo_init ∅.
Proof.
  destruct (init_returns demo_base 16 pm_image demo_pages pm_image_static) as [s' E].
  assert (demo_init = s') as -> by (unfold demo_init; rewrite E; reflexivity).
  exact (reach_init demo_base 16 pm_image s' pm_image_static E).
Qed.

Lemma fst_default {A B} (d : A) (o : option (A * B)) b : snd <$> o = Some b → o = Some (default d (fst <$> o), b).
Proof. destruct o as [[a b']|]; [intros E; injection E as <-; reflexivity|discriminate 1]. Qed.

Lemma demo_used_reach : pm_reach demo_base 16 demo_used {[demo_base := 2]}.
Proof.
  apply (reach_alloc demo_base 16 demo_init ∅ 2 demo_used demo_base demo_init_reach); [discriminate| |discriminate].
  apply fst_default. vm_compute. reflexivity.
Qed.

Lemma buddy_alloc_safe_witness :
  ∃ s' p, phys_mem_alloc_pages 0 demo_used = Some (s', p) ∧
    ((p = INVALID_PADDR ∧ s' = demo_used) ∨
     (p ≠ INVALID_PADDR ∧ block_ok demo_base 16 p 0 ∧
      (∀ q m, ({[demo_base := 2]} : gmap Z Z) !! q = Some m → apart p 0 q m) ∧
      pm_reach demo_base 16 s' (<[p := 0]> {[demo_base := 2]}))).
Proof.
  exact (buddy_alloc_safe demo_base 16 demo_used {[demo_base := 2]} 0 demo_pages demo_used_reach (Z.le_refl 0)).
Defined.

Lemma buddy_alloc_complete_witness :
  phys_mem_alloc_pages 4 demo_used = Some (demo_used, INVALID_PADDR) ↔
  ∀ p, block_ok demo_base 16 p 4 → ∃ q m, ({[demo_base := 2]} : gmap Z Z) !! q = Some m ∧ ¬ apart p 4 q m.
Proof.
  apply (buddy_alloc_complete demo_base 16 demo_used {[demo_base := 2]} 4 demo_pages demo_used_reach).
  split; discriminate.
Defined.

Lemma buddy_free_reusable_witness :
  ∃ s', phys_mem_free_pages demo_base 2 demo_used = Some s' ∧
    pm_reach demo_base 16 s' (delete demo_base {[demo_base := 2]}) ∧
    ∃ s'' q, phys_mem_alloc_pages 2 s' = Some (s'', q) ∧ q ≠ INVALID_PADDR ∧
      pm_reach demo_base 16 s'' (<[q := 2]> (delete demo_base {[demo_base := 2]})).
Proof.
  exact (buddy_free_reusable demo_base 16 demo_used {[demo_base := 2]} demo_base 2 demo_pages demo_used_reach
    (lookup_singleton_eq demo_base 2)).
Defined.

Lemma frame_address_roundtrip_witness :
  phys_mem_get_frame (demo_base + 3 * 4096) demo_used = Some 3 ↔
  0 <= 3 < s_frame_count demo_used ∧ demo_base + 3 * 4096 = index_to_phys demo_used 3.
Proof.
  apply (frame_address_roundtrip demo_used (demo_base + 3 * 4096) 3);
    replace (s_mem_base demo_used) with demo_base by (vm_compute; reflexivity);
    replace (s_frame_count demo_used) with 16 by (vm_compute; reflexivity).
  - discriminate.
  - exists 264192. reflexivity.
  - split; discriminate.
  - reflexivity.
  - split; [discriminate|reflexivity].
Defined.

(** ** What goes wrong outside these conditions *)

(** The buddy of a block is found by flipping a bit of its physical address, but
    blocks are aligned relative to the base: on a base that is only page
    aligned, a run of valid calls hands out a page twice.  The sixth call
    returns the two pages at 0x40127000, the seventh the second of them. *)
Example buddy_misaligned_base_overlap :
  (λ r, r.1.1) <$> pm_trial 0x40123000 16
    [PAlloc 0; PAlloc 0; PAlloc 1; PAlloc 0; PFree 0x40127000 0; PAlloc 1; PAlloc 0] =
  Some [0x40123000; 0x40124000; 0x40125000; 0x40127000; KERNEL_OK; 0x40127000; 0x40128000].
Proof. vm_compute. reflexivity. Qed.

(** [phys_mem_free_pages] adds the size of the merged block to the number of
    free pages, not the size of the block released: two pages taken and given
    back leave 31 free pages of 16. *)
Example buddy_free_pages_overcount :
  pm_trial demo_base 16 [PAlloc 0; PAlloc 0; PFree demo_base 0; PFree (demo_base + 4096) 0] =
  Some ([demo_base; demo_base + 4096; KERNEL_OK; KERNEL_OK], [0; 0; 0; 0; 1; 0; 0; 0; 0; 0; 0; 0], 31).
Proof. vm_compute. reflexivity. Qed.

(** [phys_mem_reserve] does not split the free block that holds a reserved
    page: the page is handed out afterwards, and the counter of order 0 wraps. *)
Example buddy_reserved_page_allocated :
  pm_trial demo_base 16 [PReserve (demo_base + 4096) 4096; PAlloc 0; PAlloc 0] =
  Some ([KERNEL_OK; demo_base; demo_base + 4096], [4294967295; 1; 1; 1; 0; 0; 0; 0; 0; 0; 0; 0], 13).
Proof. vm_compute. reflexivity. Qed.

(** A page that was merged away keeps the state it had while allocated, so that
    giving it back a second time is not noticed: the seventh call releases a
    page of the block in use, and the eighth hands it out. *)
Example buddy_double_free_unnoticed :
  (λ r, r.1.1) <$> pm_trial demo_base 16
    [PAlloc 0; PAlloc 0; PAlloc 2; PFree demo_base 0; PFree (demo_base + 4096) 0; PAlloc 1;
     PFree (demo_base + 4096) 0; PAlloc 0] =
  Some [demo_base; demo_base + 4096; demo_base + 4 * 4096; KERNEL_OK; KERNEL_OK; demo_base; KERNEL_OK; demo_base + 4096].
Proof. vm_compute. reflexivity. Qed.
