(* ===== verification/PageTable.v ===== *)
(** * Page tables (kernel/mm/page_table.c)

    The four-level translation tables of AArch64.  A table is one page of the
    page allocator, seen through the linear mapping of physical memory; a
    [page_table_t *] is its virtual address, 0 is NULL.  The registers and the
    translation cache that the functions write are part of the state. *)

From S2P Require Import Prelude KList PhysMem.

Set Default Goal Selector "!".

(** ** Constants (include/kernel/page_table.h, include/kernel/virt_phys.h) *)

Definition PAGE_SIZE_2M : Z := 0x200000.
Definition PTRS_PER_TABLE : Z := 512.
Definition PGD_SHIFT : Z := 39.
Definition PUD_SHIFT : Z := 30.
Definition PMD_SHIFT : Z := 21.
Definition PTE_SHIFT : Z := 12.

Definition PTE_VALID : Z := Z.shiftl 1 0.
Definition PTE_TABLE : Z := Z.shiftl 1 1.
Definition PTE_AF : Z := Z.shiftl 1 10.
Definition PTE_NG : Z := Z.shiftl 1 11.
Definition PTE_PXN : Z := Z.shiftl 1 53.
Definition PTE_XN : Z := Z.shiftl 1 54.
Definition PTE_AP_PRIV_RW : Z := Z.shiftl 0 6.
Definition PTE_AP_ALL_RW : Z := Z.shiftl 1 6.
Definition PTE_AP_ALL_RO : Z := Z.shiftl 3 6.
Definition PTE_ATTR_INDEX_DEVICE : Z := Z.shiftl 1 2.

Notation "a .| b" := (Z.lor a b) (at level 50, left associativity) : kernel_scope.

Definition PTE_KERNEL_ATTR : Z := PTE_VALID .| PTE_AF .| PTE_AP_PRIV_RW.
Definition PTE_KERNEL_CODE : Z := PTE_VALID .| PTE_AF .| PTE_AP_PRIV_RW.
Definition PTE_USER_DATA : Z := PTE_VALID .| PTE_AF .| PTE_AP_ALL_RW .| PTE_NG .| PTE_PXN .| PTE_XN.
Definition PTE_USER_CODE : Z := PTE_VALID .| PTE_AF .| PTE_AP_ALL_RO .| PTE_NG.
Definition PTE_USER_RO : Z := PTE_VALID .| PTE_AF .| PTE_AP_ALL_RO .| PTE_NG .| PTE_PXN .| PTE_XN.
Definition PTE_USER_DEVICE : Z :=
  PTE_VALID .| PTE_AF .| PTE_AP_ALL_RW .| PTE_NG .| PTE_PXN .| PTE_XN .| PTE_ATTR_INDEX_DEVICE.

(** [~(PAGE_SIZE - 1ULL)] *)
Definition page_mask (size : Z) : Z := u64 (Z.lnot (size - 1)).

Definition PTE_MAKE (paddr attr : Z) : Z := Z.land paddr (page_mask PAGE_SIZE_4K) .| attr .| PTE_TABLE.
Definition PTE_PADDR (pte : Z) : Z := Z.land pte 0x0000FFFFFFFFF000.
Definition PTE_IS_VALID (pte : Z) : bool := negb (Z.land pte PTE_VALID =? 0).
Definition PTE_IS_TABLE (pte : Z) : bool := negb (Z.land pte PTE_TABLE =? 0).

Definition table_index (vaddr shift : Z) : Z := Z.land (Z.shiftr vaddr shift) (PTRS_PER_TABLE - 1).
Definition PGD_INDEX (vaddr : Z) : Z := table_index vaddr PGD_SHIFT.
Definition PUD_INDEX (vaddr : Z) : Z := table_index vaddr PUD_SHIFT.
Definition PMD_INDEX (vaddr : Z) : Z := table_index vaddr PMD_SHIFT.
Definition PTE_INDEX (vaddr : Z) : Z := table_index vaddr PTE_SHIFT.

(** [page_perm_t] *)
Definition PAGE_PERM_READ : Z := 1.
Definition PAGE_PERM_WRITE : Z := 2.
Definition PAGE_PERM_EXEC : Z := 4.
Definition PAGE_PERM_DEVICE : Z := 16.
Definition PAGE_PERM_GLOBAL : Z := 128.

Definition KERNEL_VA_OFFSET : Z := 0xFFFF000000000000.
Definition virt_to_phys (va : Z) : Z := u64 (va - KERNEL_VA_OFFSET).
Definition phys_to_virt (pa : Z) : Z := u64 (pa + KERNEL_VA_OFFSET).

(** ** State *)

(** A cached translation: its address space identifier, page number and
    descriptor.  [te_root] is for the proofs only, the hardware does not keep it:
    the root the translation was read through, [None] once that root was freed. *)
Record tlb_entry := TlbEntry { te_asid : Z; te_root : option Z; te_page : Z; te_desc : Z }.

(** [pt_mem] holds the entries of the pages that are used as tables. *)
Record ptm := PTM { pt_pm : pm; pt_mem : gmap Z (list Z); ttbr1 : Z; tlb : list tlb_entry }.

Definition upd_ptpm v s := PTM v (pt_mem s) (ttbr1 s) (tlb s).
Definition upd_ptmem v s := PTM (pt_pm s) v (ttbr1 s) (tlb s).
Definition upd_ttbr1 v s := PTM (pt_pm s) (pt_mem s) v (tlb s).
Definition upd_tlb v s := PTM (pt_pm s) (pt_mem s) (ttbr1 s) v.

(** A pointer to an entry is a table and an index. *)
Definition walk_table (table index : Z) : Z * Z := (table, index).

Definition load_entry (p : Z * Z) (s : ptm) : option Z := es ← pt_mem s !! p.1; es.[p.2].

Definition store_entry (p : Z * Z) (e : Z) (s : ptm) : option ptm :=
  es ← pt_mem s !! p.1; es ← zupdate es p.2 e; Some (upd_ptmem (<[p.1 := es]> (pt_mem s)) s).

Definition pte_to_table (pte : Z) : Z := phys_to_virt (PTE_PADDR pte).

(** ** The translation cache *)

Definition hal_tlb_invalidate_all (s : ptm) : ptm := upd_tlb [] s.

Definition tlb_flush_all (s : ptm) : ptm := hal_tlb_invalidate_all s.

(** Entries of global pages carry no address space. *)
Definition te_matches (asid : Z) (t : tlb_entry) : bool :=
  (te_asid t =? asid) && negb (Z.land (te_desc t) PTE_NG =? 0).

Definition hal_tlb_invalidate_asid (asid : Z) (s : ptm) : ptm :=
  upd_tlb (filter (λ t, te_matches (Z.land asid 0xFF) t = false) (tlb s)) s.

Definition tlb_flush_asid (asid : Z) (s : ptm) : ptm := hal_tlb_invalidate_asid asid s.

(** ** Attributes *)

Definition has (perm flag : Z) : bool := negb (Z.land perm flag =? 0).

Definition compute_pte_attr (perm : Z) (is_user : bool) : Z :=
  if has perm PAGE_PERM_DEVICE then
    if is_user then PTE_USER_DEVICE
    else PTE_VALID .| PTE_AF .| PTE_AP_PRIV_RW .| PTE_XN .| PTE_ATTR_INDEX_DEVICE
  else if is_user then
    let has_write := has perm PAGE_PERM_WRITE in
    let has_exec := has perm PAGE_PERM_EXEC in
    let use_global := has perm PAGE_PERM_GLOBAL in
    if use_global then
      if has_write then PTE_VALID .| PTE_AF .| PTE_AP_ALL_RW else PTE_VALID .| PTE_AF .| PTE_AP_ALL_RO
    else if has_write && has_exec then PTE_VALID .| PTE_AF .| PTE_AP_ALL_RW .| PTE_NG
    else if has_write then PTE_USER_DATA
    else if has_exec then PTE_USER_CODE
    else PTE_USER_RO
  else if has perm PAGE_PERM_EXEC then PTE_KERNEL_CODE
  else PTE_KERNEL_ATTR.

(** ** Tables *)

Definition page_table_alloc (s : ptm) : option (ptm * Z) :=
  r ← phys_mem_alloc_page (pt_pm s);
  let '(m, paddr) := r in
  let s := upd_ptpm m s in
  if paddr =? 0 then Some (s, 0)
  else
    let table := phys_to_virt paddr in
    Some (upd_ptmem (<[table := replicate (Z.to_nat PTRS_PER_TABLE) 0]> (pt_mem s)) s, table).

Definition page_table_free (table : Z) (s : ptm) : option ptm :=
  if table =? 0 then Some s
  else
    let paddr := virt_to_phys table in
    m ← phys_mem_free_page paddr (pt_pm s);
    Some (upd_ptpm m s).

Definition page_table_subsys_init (s : ptm) : option (ptm * Z) :=
  r ← page_table_alloc s;
  let '(s, kernel_pgd) := r in
  if kernel_pgd =? 0 then Some (s, - ENOMEM)
  else
    let pgd_paddr := virt_to_phys kernel_pgd in
    Some (upd_ttbr1 pgd_paddr s, KERNEL_OK).

(** ** Mapping *)

(** One level of the descent of [page_table_map] and [page_table_map_block]:
    the next table, created when the entry is invalid, or the error. *)
Definition walk_create (table index : Z) (s : ptm) : option (ptm * (Z + Z)) :=
  let entry := walk_table table (u32 index) in
  e ← load_entry entry s;
  r ← (if negb (PTE_IS_VALID e) then
         r ← page_table_alloc s;
         let '(s, next) := r in
         if next =? 0 then Some (s, Some (- ENOMEM))
         else
           let paddr := virt_to_phys next in
           s ← store_entry entry (Z.land paddr (page_mask PAGE_SIZE_4K) .| PTE_VALID .| PTE_TABLE) s;
           Some (s, None)
       else if negb (PTE_IS_TABLE e) then Some (s, Some (- EEXIST))
       else Some (s, None));
  let '(s, err) := r in
  match err with
  | Some err => Some (s, inl err)
  | None =>
      e ← load_entry entry s;
      let next := pte_to_table e in
      if next =? 0 then Some (s, inl (- EFAULT)) else Some (s, inr next)
  end.

(** An error ends the function. *)
Definition descend (r : ptm * (Z + Z)) (k : Z → ptm → option (ptm * Z)) : option (ptm * Z) :=
  match r with
  | (s, inl err) => Some (s, err)
  | (s, inr next) => k next s
  end.

Definition page_table_map (pgd vaddr paddr perm : Z) (is_user : bool) (s : ptm) : option (ptm * Z) :=
  if pgd =? 0 then Some (s, - EINVAL)
  else
    r ← walk_create pgd (PGD_INDEX vaddr) s;
    descend r (λ pud s,
    r ← walk_create pud (PUD_INDEX vaddr) s;
    descend r (λ pmd s,
    r ← walk_create pmd (PMD_INDEX vaddr) s;
    descend r (λ pte_table s,
      let entry3 := walk_table pte_table (u32 (PTE_INDEX vaddr)) in
      e ← load_entry entry3 s;
      if PTE_IS_VALID e then Some (s, - EEXIST)
      else
        let attr := compute_pte_attr perm is_user in
        s ← store_entry entry3 (PTE_MAKE paddr attr) s;
        Some (s, KERNEL_OK)))).

Definition page_table_map_block (pgd vaddr paddr perm : Z) (is_user : bool) (s : ptm) : option (ptm * Z) :=
  if pgd =? 0 then Some (s, - EINVAL)
  else
    r ← walk_create pgd (PGD_INDEX vaddr) s;
    descend r (λ pud s,
    r ← walk_create pud (PUD_INDEX vaddr) s;
    descend r (λ pmd s,
      let entry2 := walk_table pmd (u32 (PMD_INDEX vaddr)) in
      e ← load_entry entry2 s;
      if PTE_IS_VALID e then Some (s, - EEXIST)
      else
        let attr := compute_pte_attr perm is_user in
        let block_paddr := Z.land paddr (page_mask PAGE_SIZE_2M) in
        s ← store_entry entry2 (block_paddr .| attr) s;
        Some (s, KERNEL_OK))).

(** ** Lookup, unmapping and protection *)

(** One level of the descent of the other functions; [None] inside for
    [-ENOENT]. *)
Definition walk_step (table index : Z) (s : ptm) : option (option Z) :=
  e ← load_entry (walk_table table (u32 index)) s;
  if negb (PTE_IS_VALID e) || negb (PTE_IS_TABLE e) then Some None
  else
    let next := pte_to_table e in
    if next =? 0 then Some None else Some (Some next).

(** The pointer to the valid last-level entry, if there is one, with its value. *)
Definition walk_leaf (pgd vaddr : Z) (s : ptm) : option (option (Z * Z * Z)) :=
  pud ← walk_step pgd (PGD_INDEX vaddr) s;
  match pud with
  | None => Some None
  | Some pud =>
      pmd ← walk_step pud (PUD_INDEX vaddr) s;
      match pmd with
      | None => Some None
      | Some pmd =>
          pte_table ← walk_step pmd (PMD_INDEX vaddr) s;
          match pte_table with
          | None => Some None
          | Some pte_table =>
              let entry3 := walk_table pte_table (u32 (PTE_INDEX vaddr)) in
              e ← load_entry entry3 s;
              if negb (PTE_IS_VALID e) then Some None else Some (Some (entry3, e))
          end
      end
  end.

Definition page_table_unmap (pgd vaddr : Z) (s : ptm) : option (ptm * Z) :=
  if pgd =? 0 then Some (s, - EINVAL)
  else
    r ← walk_leaf pgd vaddr s;
    match r with
    | None => Some (s, - ENOENT)
    | Some (entry3, _) =>
        s ← store_entry entry3 0 s;
        Some (tlb_flush_all s, KERNEL_OK)
    end.

(** [paddr] says whether the output pointer is not NULL; the result carries
    what is stored through it. *)
Definition page_table_lookup (pgd vaddr : Z) (paddr : bool) (s : ptm) : option (Z * option Z) :=
  if (pgd =? 0) || negb paddr then Some (- EINVAL, None)
  else
    r ← walk_leaf pgd vaddr s;
    match r with
    | None => Some (- ENOENT, None)
    | Some (_, e) => Some (KERNEL_OK, Some (PTE_PADDR e))
    end.

Definition page_table_protect (pgd vaddr perm : Z) (s : ptm) : option (ptm * Z) :=
  if pgd =? 0 then Some (s, - EINVAL)
  else
    r ← walk_leaf pgd vaddr s;
    match r with
    | None => Some (s, - ENOENT)
    | Some (entry3, e) =>
        let orig_paddr := PTE_PADDR e in
        let is_user := negb (Z.land e PTE_NG =? 0) in
        let new_attr := compute_pte_attr perm is_user in
        s ← store_entry entry3 (PTE_MAKE orig_paddr new_attr) s;
        Some (tlb_flush_all s, KERNEL_OK)
    end.
