(* ===== verification/PageTableInv.v ===== *)
(** * Translation trees

    The tables reachable from a root form a tree: [T] labels every table in use
    with its root and the path of indices that leads to it, and every table
    entry points to the table labelled with the longer path.  A walk is then
    determined by the labels, and a store changes only the walks through its
    entry. *)

From S2P Require Import Prelude KList PhysMem Buddy BuddyInv BuddyOps BuddyInit BuddyTheorems PageTable.

Set Default Goal Selector "!".

#[local] Arguments Z.pow : simpl never.

(** ** Descriptors *)

Definition PADDR_MASK : Z := 0x0000FFFFFFFFF000.

Lemma pte_paddr_div p : 0 <= p → PTE_PADDR p = p / 4096 mod 2 ^ 36 * 4096.
Proof.
  intros Hp. unfold PTE_PADDR. change 0x0000FFFFFFFFF000 with (Z.shiftl (Z.ones 36) 12).
  change 4096 with (2 ^ 12). rewrite <- Z.shiftr_div_pow2, <- Z.land_ones, <- Z.shiftl_mul_pow2 by lia.
  apply Z.bits_inj'. intros m Hm. rewrite Z.land_spec, !Z.shiftl_spec by done.
  destruct (Z.ltb_spec m 12) as [Hlt|Hge].
  - rewrite !(Z.testbit_neg_r _ (m - 12)) by lia. apply andb_false_r.
  - rewrite Z.land_spec, Z.shiftr_spec by lia. f_equal. f_equal. lia.
Qed.

(** Attributes stay off the address, are valid, and leave the table bit to the
    caller. *)
Definition attr_ok (a : Z) : Prop :=
  Z.land a PADDR_MASK = 0 ∧ Z.land a PTE_VALID = 1 ∧ Z.land a PTE_TABLE = 0 ∧ 0 <= a < 2 ^ 64.

Lemma compute_pte_attr_ok perm u : attr_ok (compute_pte_attr perm u).
Proof.
  unfold compute_pte_attr.
  destruct (has perm PAGE_PERM_DEVICE), u, (has perm PAGE_PERM_WRITE), (has perm PAGE_PERM_EXEC), (has perm PAGE_PERM_GLOBAL);
    vm_compute; split_and!; (reflexivity || discriminate).
Qed.

Lemma pte_make_paddr p a : Z.land a PADDR_MASK = 0 → PTE_PADDR (PTE_MAKE p a) = PTE_PADDR p.
Proof.
  intros Ha. unfold PTE_PADDR, PTE_MAKE. fold PADDR_MASK. rewrite !Z.land_lor_distr_l, Ha, <- Z.land_assoc.
  change (Z.land (page_mask PAGE_SIZE_4K) PADDR_MASK) with PADDR_MASK. change (Z.land PTE_TABLE PADDR_MASK) with 0.
  by rewrite !Z.lor_0_r.
Qed.

Lemma pte_make_valid p a : Z.land a PTE_VALID = 1 → PTE_IS_VALID (PTE_MAKE p a) = true.
Proof.
  intros Ha. unfold PTE_IS_VALID, PTE_MAKE. rewrite !Z.land_lor_distr_l, Ha, <- Z.land_assoc.
  change (Z.land (page_mask PAGE_SIZE_4K) PTE_VALID) with 0. by rewrite Z.land_0_r.
Qed.

Lemma pte_make_table p a : Z.land a PTE_TABLE = 0 → PTE_IS_TABLE (PTE_MAKE p a) = true.
Proof.
  intros Ha. unfold PTE_IS_TABLE, PTE_MAKE. rewrite !Z.land_lor_distr_l, Ha, <- Z.land_assoc.
  change (Z.land (page_mask PAGE_SIZE_4K) PTE_TABLE) with 0. by rewrite Z.land_0_r.
Qed.

Lemma block_bits p a : attr_ok a →
  PTE_IS_VALID (Z.land p (page_mask PAGE_SIZE_2M) .| a) = true ∧ PTE_IS_TABLE (Z.land p (page_mask PAGE_SIZE_2M) .| a) = false.
Proof.
  intros (_ & Hv & Ht & _). unfold PTE_IS_VALID, PTE_IS_TABLE. rewrite !Z.land_lor_distr_l, Hv, Ht, <- !Z.land_assoc.
  change (Z.land (page_mask PAGE_SIZE_2M) PTE_VALID) with 0. change (Z.land (page_mask PAGE_SIZE_2M) PTE_TABLE) with 0.
  by rewrite Z.land_0_r.
Qed.

Lemma pte_make_word p a : 0 <= p < 2 ^ 64 → 0 <= a < 2 ^ 64 → 0 <= PTE_MAKE p a < 2 ^ 64.
Proof. intros Hp Ha. unfold PTE_MAKE. apply lor_word; [apply lor_word; [by apply land_word|done]|split; [done|reflexivity]]. Qed.

Lemma block_word p a : 0 <= p < 2 ^ 64 → 0 <= a < 2 ^ 64 → 0 <= Z.land p (page_mask PAGE_SIZE_2M) .| a < 2 ^ 64.
Proof. intros Hp Ha. apply lor_word; [by apply land_word|done]. Qed.

(** A table descriptor is [PTE_MAKE] with the single attribute [PTE_VALID]. *)
Definition table_desc (p : Z) : Z := PTE_MAKE p PTE_VALID.

(** ** Addresses *)

Lemma phys_to_virt_small p : 0 <= p < 2 ^ 48 → phys_to_virt p = p + KERNEL_VA_OFFSET.
Proof. intros Hp. unfold phys_to_virt. apply u64_small. unfold KERNEL_VA_OFFSET. lia. Qed.

Lemma virt_phys p : 0 <= p < 2 ^ 48 → virt_to_phys (phys_to_virt p) = p.
Proof. intros Hp. rewrite phys_to_virt_small by done. unfold virt_to_phys. rewrite Z.add_simpl_r. apply u64_small. lia. Qed.

Lemma phys_to_virt_inj p q : 0 <= p < 2 ^ 48 → 0 <= q < 2 ^ 48 → phys_to_virt p = phys_to_virt q → p = q.
Proof. intros Hp Hq E. rewrite <- (virt_phys p), <- (virt_phys q) by done. by rewrite E. Qed.

Lemma phys_to_virt_ne0 p : 0 <= p < 2 ^ 48 → phys_to_virt p ≠ 0.
Proof. intros Hp. rewrite phys_to_virt_small by done. unfold KERNEL_VA_OFFSET. lia. Qed.

Lemma pte_to_table_ne0 e : 0 <= e → pte_to_table e ≠ 0.
Proof. intros He. apply phys_to_virt_ne0. rewrite pte_paddr_div by done. pose proof (Z.mod_pos_bound (e / 4096) (2 ^ 36) ltac:(lia)). lia. Qed.

Lemma pte_to_table_desc p : 0 <= p < 2 ^ 48 → (4096 | p) → pte_to_table (table_desc p) = phys_to_virt p.
Proof.
  intros Hp [q ->]. unfold pte_to_table, table_desc. rewrite pte_make_paddr by reflexivity.
  rewrite pte_paddr_div, Z.div_mul, Z.mod_small by lia. done.
Qed.

(** ** Indices and pages *)

(** The number of a virtual page; bits above 47 do not take part in the walk. *)
Definition vpage (vaddr : Z) : Z := vaddr / 4096 mod 2 ^ 36.

Definition va_path (vaddr : Z) : list Z := [PGD_INDEX vaddr; PUD_INDEX vaddr; PMD_INDEX vaddr; PTE_INDEX vaddr].
Definition page_path (vp : Z) : list Z := va_path (vp * 4096).

Lemma table_index_div v sh : 0 <= sh → table_index v sh = v / 2 ^ sh mod 512.
Proof.
  intros Hs. unfold table_index, PTRS_PER_TABLE. change (512 - 1) with (Z.ones 9).
  rewrite Z.land_ones, Z.shiftr_div_pow2 by lia. done.
Qed.

Lemma table_index_range v sh : 0 <= sh → 0 <= table_index v sh < 512.
Proof. intros. rewrite table_index_div by done. apply Z.mod_pos_bound. lia. Qed.

(** The path in terms of the page number. *)
Definition digits (vp : Z) : list Z := [vp / 2 ^ 27 mod 512; vp / 2 ^ 18 mod 512; vp / 2 ^ 9 mod 512; vp mod 512].

Lemma vpage_range v : 0 <= vpage v < 2 ^ 36.
Proof. unfold vpage. apply Z.mod_pos_bound. lia. Qed.

Lemma digit_of_page x k : 0 <= k <= 27 → x mod 2 ^ 36 / 2 ^ k mod 512 = x / 2 ^ k mod 512.
Proof.
  intros Hk. change 512 with (2 ^ 9). rewrite <- !Z.land_ones, <- !Z.shiftr_div_pow2, Z.shiftr_land, <- Z.land_assoc by lia.
  f_equal. apply Z.bits_inj'. intros m Hm. rewrite Z.land_spec, Z.shiftr_spec by done.
  rewrite !Z.testbit_ones_nonneg by lia. destruct (Z.ltb_spec m 9), (Z.ltb_spec (m + k) 36); try done. lia.
Qed.

Lemma va_path_digits v : va_path v = digits (vpage v).
Proof.
  unfold va_path, PGD_INDEX, PUD_INDEX, PMD_INDEX, PTE_INDEX, PGD_SHIFT, PUD_SHIFT, PMD_SHIFT, PTE_SHIFT.
  rewrite !table_index_div by lia. unfold digits, vpage. rewrite !digit_of_page by lia.
  change 4096 with (2 ^ 12). rewrite !Z.div_div by lia. rewrite <- !Z.pow_add_r by lia.
  pose proof (digit_of_page (v / 2 ^ 12) 0 ltac:(lia)) as E. change (2 ^ 0) with 1 in E. rewrite !Z.div_1_r in E. by rewrite E.
Qed.

Lemma vpage_of_page vp : 0 <= vp < 2 ^ 36 → vpage (vp * 4096) = vp.
Proof. intros H. unfold vpage. rewrite Z.div_mul, Z.mod_small by lia. done. Qed.

Lemma digits_inj a b : 0 <= a < 2 ^ 36 → 0 <= b < 2 ^ 36 → digits a = digits b → a = b.
Proof.
  unfold digits. change (2 ^ 36) with 68719476736. change (2 ^ 27) with 134217728. change (2 ^ 18) with 262144. change (2 ^ 9) with 512.
  intros Ha Hb E. injection E as E1 E2 E3 E4. Z.div_mod_to_equations. lia.
Qed.

Lemma digits_range vp : Forall (λ i, 0 <= i < 512) (digits vp).
Proof. unfold digits. repeat (constructor; [apply Z.mod_pos_bound; lia|]). constructor. Qed.

(** ** Walks *)

Inductive leaf := LPage (d : Z) | LBlock (d : Z).

Notation tables := (gmap Z (list Z)).
Notation labels := (gmap Z (Z * list Z)).

Definition entry_of (mem : tables) (a i : Z) : option Z := es ← mem !! a; es.[i].

(** What the hardware finds below table [a]: a page at the last level, a block
    where the descent ends early. *)
Fixpoint leaf_walk (mem : tables) (a : Z) (js : list Z) : option leaf :=
  match js with
  | [] => None
  | i :: js =>
      match entry_of mem a i with
      | None => None
      | Some e =>
          if PTE_IS_VALID e then
            match js with
            | [] => Some (LPage e)
            | _ => if PTE_IS_TABLE e then leaf_walk mem (pte_to_table e) js else Some (LBlock e)
            end
          else None
      end
  end.

Definition word (e : Z) : Prop := 0 <= e < 2 ^ 64.

Record tree (mem : tables) (T : labels) : Prop := Tree {
  tr_mem : ∀ a nd, T !! a = Some nd → ∃ es, mem !! a = Some es ∧ length es = 512%nat ∧ Forall word es;
  tr_inj : ∀ a b nd, T !! a = Some nd → T !! b = Some nd → a = b;
  tr_root : ∀ a r, T !! a = Some (r, []) → a = r;
  tr_len : ∀ a r ps, T !! a = Some (r, ps) → (length ps <= 3)%nat;
  tr_child : ∀ a r ps i e, T !! a = Some (r, ps) → (length ps < 3)%nat → entry_of mem a i = Some e →
    PTE_IS_VALID e = true → PTE_IS_TABLE e = true → T !! pte_to_table e = Some (r, ps ++ [i]);
  tr_upper : ∀ a r ps i e, T !! a = Some (r, ps) → (length ps < 2)%nat → entry_of mem a i = Some e →
    PTE_IS_VALID e = true → PTE_IS_TABLE e = true;
  tr_back : ∀ b r ps i, T !! b = Some (r, ps ++ [i]) → ∃ a e, T !! a = Some (r, ps) ∧ entry_of mem a i = Some e ∧
    PTE_IS_VALID e = true ∧ PTE_IS_TABLE e = true ∧ pte_to_table e = b
}.

Section tree.
Implicit Types (mem : tables) (T : labels).

Lemma entry_total mem T a nd i : tree mem T → T !! a = Some nd → 0 <= i < 512 → ∃ e, entry_of mem a i = Some e ∧ word e.
Proof.
  intros HT Ha Hi. destruct (tr_mem _ _ HT a nd Ha) as (es & E & Hlen & Hw). unfold entry_of. rewrite E, some_bind.
  destruct (proj2 (zlookup_is_Some es i)) as [e He]; [lia|]. exists e. split; [done|].
  unfold zlookup in He. case_if; [|done]. by eapply Forall_lookup_1.
Qed.

Lemma entry_same mem a es i j e : mem !! a = Some es → 0 <= i < Z.of_nat (length es) → 0 <= j →
  entry_of (<[a := <[Z.to_nat i := e]> es]> mem) a j = if decide (i = j) then Some e else entry_of mem a j.
Proof.
  intros E Hi Hj. unfold entry_of. rewrite lookup_insert_eq, E, !some_bind. case_decide as Hd.
  - subst j. by apply zlookup_insert_eq.
  - apply zlookup_insert_ne; lia.
Qed.

Lemma entry_other mem a b es j : a ≠ b → entry_of (<[a := es]> mem) b j = entry_of mem b j.
Proof. intros Hne. unfold entry_of. by rewrite lookup_insert_ne. Qed.

Lemma entry_nonneg mem a i e : entry_of mem a i = Some e → 0 <= i.
Proof. unfold entry_of. destruct (mem !! a); [rewrite some_bind|done]. intros H. by apply zlookup_Some_lt in H as [? _]. Qed.

(** Walks read only the tables in use. *)
Lemma walk_agree mem mem' T js a r ps : tree mem T → (∀ b, is_Some (T !! b) → mem' !! b = mem !! b) →
  T !! a = Some (r, ps) → (length ps + length js = 4)%nat → leaf_walk mem' a js = leaf_walk mem a js.
Proof.
  intros HT Hag. revert a ps. induction js as [|i js IH]; intros a ps Ha Hlen; [done|]. cbn [leaf_walk].
  assert (entry_of mem' a i = entry_of mem a i) as -> by (unfold entry_of; rewrite Hag; [done|by eexists]).
  destruct (entry_of mem a i) as [e|] eqn:E; [|done]. destruct (PTE_IS_VALID e) eqn:Ev; [|done].
  destruct js as [|j js]; [done|]. destruct (PTE_IS_TABLE e) eqn:Et; [|done]. cbn [length] in *.
  eapply (IH _ (ps ++ [i])); [|rewrite length_app; cbn [length]; lia].
  eapply tr_child; [done|done|lia|done|done|done].
Qed.

(** A store changes only the walks through its entry. *)
Lemma walk_store mem T a r ps es i e js b r' qs : tree mem T → T !! a = Some (r, ps) → mem !! a = Some es →
  0 <= i < Z.of_nat (length es) → T !! b = Some (r', qs) → (length qs + length js = 4)%nat → Forall (λ j, 0 <= j) js →
  ¬ (r' = r ∧ (ps ++ [i]) `prefix_of` (qs ++ js)) →
  leaf_walk (<[a := <[Z.to_nat i := e]> es]> mem) b js = leaf_walk mem b js.
Proof.
  intros HT Ha Ees Hi. revert b qs. induction js as [|j js IH]; intros b qs Hb Hlen Hnn Hno; [done|]. cbn [leaf_walk].
  apply Forall_cons in Hnn as [Hj Hnn].
  assert (entry_of (<[a := <[Z.to_nat i := e]> es]> mem) b j = entry_of mem b j) as ->.
  { destruct (decide (a = b)) as [->|Hne]; [|by apply entry_other]. rewrite (entry_same _ _ es) by done.
    case_decide as Hd; [|done]. subst j. destruct Hno. rewrite Ha in Hb. injection Hb as -> ->. split; [done|].
    exists js. by rewrite <- app_assoc. }
  destruct (entry_of mem b j) as [e'|] eqn:E; [|done]. destruct (PTE_IS_VALID e') eqn:Ev; [|done].
  destruct js as [|k js]; [done|]. destruct (PTE_IS_TABLE e') eqn:Et; [|done]. cbn [length] in *.
  eapply (IH _ (qs ++ [j])); [|rewrite length_app; cbn [length]; lia|done|by rewrite <- app_assoc].
  eapply tr_child; [done|done|lia|done|done|done].
Qed.

(** Entries that may be stored in table [a] without a new table. *)
Definition storable (ps : list Z) (e : Z) : Prop :=
  word e ∧ (PTE_IS_VALID e = false ∨ (length ps = 2%nat ∧ PTE_IS_TABLE e = false)).

Lemma store_words mem T a i e es : (∀ b nd, T !! b = Some nd → ∃ es, mem !! b = Some es ∧ length es = 512%nat ∧ Forall word es) →
  mem !! a = Some es → word e →
  ∀ b nd, T !! b = Some nd → ∃ es', <[a := <[i := e]> es]> mem !! b = Some es' ∧ length es' = 512%nat ∧ Forall word es'.
Proof.
  intros H1 Ees Hw b nd Hb. destruct (H1 b nd Hb) as (es' & E & Hlen & HF).
  destruct (decide (a = b)) as [<-|Hne]; [|exists es'; by rewrite lookup_insert_ne]. rewrite Ees in E. injection E as <-.
  exists (<[i := e]> es). rewrite lookup_insert_eq, length_insert. split; [done|]. split; [done|]. by apply Forall_insert.
Qed.

Lemma entry_store_cases mem a es i e b j e' : mem !! a = Some es → 0 <= i < Z.of_nat (length es) →
  entry_of (<[a := <[Z.to_nat i := e]> es]> mem) b j = Some e' → (b = a ∧ j = i ∧ e' = e) ∨ entry_of mem b j = Some e'.
Proof.
  intros Ees Hi E. pose proof (entry_nonneg _ _ _ _ E).
  destruct (decide (a = b)) as [<-|Hne]; [|rewrite entry_other in E by done; by right].
  rewrite (entry_same _ _ es) in E by done. case_decide as Hd; [left|by right]. by injection E as <-.
Qed.

(** Replacing an entry that is not a table descriptor. *)
Lemma tree_store mem T a r ps es i e : tree mem T → T !! a = Some (r, ps) → mem !! a = Some es →
  0 <= i < Z.of_nat (length es) → storable ps e → (length ps < 3)%nat →
  (∀ e0, es.[i] = Some e0 → PTE_IS_VALID e0 && PTE_IS_TABLE e0 = false) →
  tree (<[a := <[Z.to_nat i := e]> es]> mem) T.
Proof.
  intros HT Ha Ees Hi [Hw Hst] Hl3 Hold. destruct HT as [H1 H2 H3 H4 H5 H6 H7].
  pose proof (λ b j e', entry_store_cases mem a es i e b j e' Ees Hi) as Hcase.
  split; [exact (store_words mem T a _ e es H1 Ees Hw)|exact H2|exact H3|exact H4| | |].
  - intros b r' qs j e' Hb Hl E Hv Ht. destruct (Hcase _ _ _ E) as [(-> & -> & ->)|E']; [|by eapply H5].
    rewrite Ha in Hb. injection Hb as <- <-. destruct Hst as [?|[_ ?]]; congruence.
  - intros b r' qs j e' Hb Hl E Hv. destruct (Hcase _ _ _ E) as [(-> & -> & ->)|E']; [|by eapply H6].
    rewrite Ha in Hb. injection Hb as <- <-. destruct Hst as [?|[? _]]; [congruence|lia].
  - intros b r' qs j Hb. destruct (H7 b r' qs j Hb) as (c & e' & Hc & E & Hv & Ht & Hp). exists c, e'. split; [done|]. split; [|done].
    destruct (decide (a = c)) as [<-|Hne]; [|by rewrite entry_other]. rewrite (entry_same _ _ es) by (done || by eapply entry_nonneg).
    case_decide as Hd; [|done]. subst j. exfalso. unfold entry_of in E. rewrite Ees, some_bind in E.
    specialize (Hold _ E). by rewrite Hv, Ht in Hold.
Qed.

(** Replacing any entry of a last-level table. *)
Lemma tree_store_last mem T a r ps es i e : tree mem T → T !! a = Some (r, ps) → mem !! a = Some es →
  0 <= i < Z.of_nat (length es) → word e → length ps = 3%nat → tree (<[a := <[Z.to_nat i := e]> es]> mem) T.
Proof.
  intros HT Ha Ees Hi Hw Hl3. destruct HT as [H1 H2 H3 H4 H5 H6 H7].
  assert (∀ b j nd, T !! b = Some nd → (length nd.2 < 3)%nat →
    entry_of (<[a := <[Z.to_nat i := e]> es]> mem) b j = entry_of mem b j) as Hsame.
  { intros b j nd Hb Hl. apply entry_other. intros <-. rewrite Ha in Hb. injection Hb as <-. cbn in Hl. lia. }
  split; [exact (store_words mem T a _ e es H1 Ees Hw)|exact H2|exact H3|exact H4| | |].
  - intros b r' qs j e' Hb Hl E. rewrite (Hsame _ _ _ Hb Hl) in E. by eapply H5.
  - intros b r' qs j e' Hb Hl E. rewrite (Hsame _ _ _ Hb) in E by (cbn; lia). by eapply H6.
  - intros b r' qs j Hb. destruct (H7 b r' qs j Hb) as (c & e' & Hc & E & Hv & Ht & Hp). exists c, e'. split; [done|]. split; [|done].
    rewrite (Hsame _ _ _ Hc); [done|]. apply H4 in Hb. rewrite length_app in Hb. cbn [length snd] in *. lia.
Qed.

(** A table that was just cleared. *)
Definition zeros : list Z := replicate (Z.to_nat PTRS_PER_TABLE) 0.

Lemma zeros_entry mem b j e : entry_of (<[b := zeros]> mem) b j = Some e → e = 0.
Proof.
  unfold entry_of, zeros. rewrite lookup_insert_eq, some_bind. unfold zlookup. case_if; [|done].
  by intros [? _]%lookup_replicate_1.
Qed.

Lemma zeros_words : length zeros = 512%nat ∧ Forall word zeros.
Proof. split; [apply length_replicate|]. apply Forall_replicate. by split. Qed.

Lemma tree_empty mem : tree mem ∅.
Proof. split; intros *; by rewrite lookup_empty. Qed.

(** A fresh table as a new root. *)
Lemma tree_new_root mem T b : tree mem T → T !! b = None → (∀ a r ps, T !! a = Some (r, ps) → r ≠ b) →
  tree (<[b := zeros]> mem) (<[b := (b, [])]> T).
Proof.
  intros [H1 H2 H3 H4 H5 H6 H7] Hb Hr.
  assert (∀ a nd, T !! a = Some nd → a ≠ b) as Hne by (intros a nd Ha ->; congruence).
  assert (∀ a j, a ≠ b → entry_of (<[b := zeros]> mem) a j = entry_of mem a j) as Hold by (intros; by apply entry_other).
  split.
  - intros a nd [[<- <-]|[? Ha]]%lookup_insert_Some; [exists zeros; rewrite lookup_insert_eq; split; [done|exact zeros_words]|].
    rewrite lookup_insert_ne by done. by eapply H1.
  - intros a c nd [[<- <-]|[? Ha]]%lookup_insert_Some [[<- E]|[? Hc]]%lookup_insert_Some; [done| | |by eapply H2].
    + by destruct (Hr _ _ _ Hc).
    + subst nd. by destruct (Hr _ _ _ Ha).
  - intros a r [[<- [=]]|[? Ha]]%lookup_insert_Some; [done|by eapply H3].
  - intros a r ps [[<- [= <- <-]]|[? Ha]]%lookup_insert_Some; [cbn; lia|by eapply H4].
  - intros a r ps i e [[<- [= <- <-]]|[? Ha]]%lookup_insert_Some Hl E Hv Ht; [by rewrite (zeros_entry _ _ _ _ E) in Hv|].
    rewrite Hold in E by done. pose proof (H5 _ _ _ _ _ Ha Hl E Hv Ht) as Hc. rewrite lookup_insert_ne; [done|].
    intros Eb. rewrite <- Eb in Hc. congruence.
  - intros a r ps i e [[<- [= <- <-]]|[? Ha]]%lookup_insert_Some Hl E Hv; [by rewrite (zeros_entry _ _ _ _ E) in Hv|].
    rewrite Hold in E by done. by eapply H6.
  - intros c r ps i [[_ E]|[? Hc]]%lookup_insert_Some; [injection E as _ E; by destruct ps|].
    destruct (H7 c r ps i Hc) as (a & e & Ha & E & Hrest). exists a, e. split; [rewrite lookup_insert_ne; [done|by apply not_eq_sym, (Hne a _ Ha)]|].
    split; [by rewrite (Hold a i (Hne a _ Ha))|done].
Qed.

(** Dropping a root with all the tables below it. *)
Lemma tree_drop mem T r : tree mem T → tree mem (filter (λ p, p.2.1 ≠ r) T).
Proof.
  intros [H1 H2 H3 H4 H5 H6 H7]. split.
  - intros a nd [Ha _]%map_lookup_filter_Some. by eapply H1.
  - intros a b nd [Ha _]%map_lookup_filter_Some [Hb _]%map_lookup_filter_Some. by eapply H2.
  - intros a q [Ha _]%map_lookup_filter_Some. by eapply H3.
  - intros a q ps [Ha _]%map_lookup_filter_Some. by eapply H4.
  - intros a q ps i e [Ha Hq]%map_lookup_filter_Some Hl E Hv Ht. apply map_lookup_filter_Some. split; [by eapply H5|exact Hq].
  - intros a q ps i e [Ha _]%map_lookup_filter_Some. by eapply H6.
  - intros b q ps i [Hb Hq]%map_lookup_filter_Some. destruct (H7 b q ps i Hb) as (a & e & Ha & Hrest). exists a, e. split; [|done].
    by apply map_lookup_filter_Some.
Qed.

(** Linking a fresh table into an invalid entry. *)
Lemma tree_link mem T a r ps es i d b : tree mem T → T !! a = Some (r, ps) → mem !! a = Some es →
  0 <= i < Z.of_nat (length es) → (length ps < 3)%nat → (∀ e0, es.[i] = Some e0 → PTE_IS_VALID e0 = false) →
  T !! b = None → a ≠ b → word d → PTE_IS_VALID d = true → PTE_IS_TABLE d = true → pte_to_table d = b →
  tree (<[a := <[Z.to_nat i := d]> es]> (<[b := zeros]> mem)) (<[b := (r, ps ++ [i])]> T).
Proof.
  intros HT Ha Ees Hi Hl3 Hold Hb Hab Hw Hdv Hdt Hdb. pose proof HT as [H1 H2 H3 H4 H5 H6 H7].
  assert (<[b := zeros]> mem !! a = Some es) as Ees' by by rewrite lookup_insert_ne by done.
  assert (∀ c nd, T !! c = Some nd → b ≠ c) as Hne by (intros c nd Hc ->; congruence).
  assert (∀ c, T !! c ≠ Some (r, ps ++ [i])) as Hfresh.
  { intros c Hc. destruct (H7 c r ps i Hc) as (a' & e & Ha' & E & Hv & _). rewrite (H2 _ _ _ Ha' Ha) in E.
    unfold entry_of in E. rewrite Ees, some_bind in E. by rewrite (Hold e E) in Hv. }
  assert (∀ c j e, entry_of (<[a := <[Z.to_nat i := d]> es]> (<[b := zeros]> mem)) c j = Some e → PTE_IS_VALID e = true →
    (c = a ∧ j = i ∧ e = d) ∨ (b ≠ c ∧ entry_of mem c j = Some e)) as Hcase.
  { intros c j e E Hv. destruct (entry_store_cases _ _ _ _ _ _ _ _ Ees' Hi E) as [?|E']; [by left|right].
    destruct (decide (b = c)) as [<-|Hbc]; [|by rewrite entry_other in E' by done].
    by rewrite (zeros_entry _ _ _ _ E') in Hv. }
  split.
  - apply (store_words _ _ a _ d es); [|done|done]. intros c nd [[<- <-]|[? Hc]]%lookup_insert_Some.
    + exists zeros. rewrite lookup_insert_eq. split; [done|exact zeros_words].
    + rewrite lookup_insert_ne by done. by eapply H1.
  - intros c c' nd [[<- <-]|[? Hc]]%lookup_insert_Some [[<- E]|[? Hc']]%lookup_insert_Some; [done| | |by eapply H2].
    + by destruct (Hfresh c').
    + subst nd. by destruct (Hfresh c).
  - intros c q [[_ E]|[? Hc]]%lookup_insert_Some; [injection E as _ E; by destruct ps|by eapply H3].
  - intros c q qs [[_ [= _ <-]]|[? Hc]]%lookup_insert_Some; [rewrite length_app; cbn; lia|by eapply H4].
  - intros c q qs j e Hc Hl E Hv Ht. destruct (Hcase c j e E Hv) as [(-> & -> & ->)|[Hbc E']].
    + rewrite lookup_insert_ne, Ha in Hc by done. injection Hc as <- <-. rewrite Hdb. apply lookup_insert_eq.
    + rewrite lookup_insert_ne in Hc by done. pose proof (H5 _ _ _ _ _ Hc Hl E' Hv Ht) as Hn.
      rewrite lookup_insert_ne by by eapply Hne. done.
  - intros c q qs j e Hc Hl E Hv. destruct (Hcase c j e E Hv) as [(-> & -> & ->)|[Hbc E']]; [done|].
    rewrite lookup_insert_ne in Hc by done. by eapply H6.
  - intros c q qs j [[<- E]|[? Hc]]%lookup_insert_Some.
    + injection E as <- [<- [= <-]]%app_inj_tail_iff. exists a, d. split; [by rewrite lookup_insert_ne|]. split; [|done].
      rewrite (entry_same _ _ es) by (done || lia). by rewrite decide_True.
    + destruct (H7 c q qs j Hc) as (a' & e & Ha' & E & Hv & Ht & Hp). exists a', e. split; [rewrite lookup_insert_ne; [done|by eapply Hne]|].
      split; [|done]. destruct (decide (a = a')) as [<-|Hne'].
      * rewrite (entry_same _ _ es) by (done || by eapply entry_nonneg). case_decide as Hd.
        { subst j. unfold entry_of in E. rewrite Ees, some_bind in E. by rewrite (Hold e E) in Hv. }
        by rewrite entry_other by done.
      * rewrite !entry_other; [done|by eapply Hne|done].
Qed.

(** Only the tables in use matter. *)
Lemma tree_agree mem mem' T : (∀ b, is_Some (T !! b) → mem' !! b = mem !! b) → tree mem T → tree mem' T.
Proof.
  intros Hag [H1 H2 H3 H4 H5 H6 H7].
  assert (∀ a nd i, T !! a = Some nd → entry_of mem' a i = entry_of mem a i) as He.
  { intros a nd i Ha. unfold entry_of. by rewrite Hag by by eexists. }
  split; [|done|done|done| | |].
  - intros a nd Ha. rewrite Hag by by eexists. by eapply H1.
  - intros a r ps i e Ha Hl E. rewrite (He _ _ _ Ha) in E. by eapply H5.
  - intros a r ps i e Ha Hl E. rewrite (He _ _ _ Ha) in E. by eapply H6.
  - intros b r ps i Hb. destruct (H7 b r ps i Hb) as (a & e & Ha & E & Hrest). exists a, e. by rewrite (He _ _ _ Ha).
Qed.

(** The walk from a root passes through the table its path is labelled with. *)
Lemma walk_reaches mem T js ps a r : tree mem T → T !! a = Some (r, ps) → js ≠ [] → leaf_walk mem r (ps ++ js) = leaf_walk mem a js.
Proof.
  intros HT. revert a js. induction ps as [|i ps IH] using rev_ind; intros a js Ha Hjs; [by rewrite (tr_root _ _ HT _ _ Ha)|].
  destruct (tr_back _ _ HT a r ps i Ha) as (a0 & e & Ha0 & E & Hv & Ht & Hp). rewrite <- app_assoc.
  rewrite (IH a0 ([i] ++ js) Ha0) by done. cbn [app leaf_walk]. rewrite E, Hv, Ht, Hp. by destruct js.
Qed.

(** ** Which tables exist *)

(** Root [r] has a table at path [js]. *)
Definition labelled T (r : Z) (js : list Z) : Prop := ∃ a, T !! a = Some (r, js).

(** The table that the walk from [a] along [js] comes to. *)
Fixpoint table_walk (mem : tables) (a : Z) (js : list Z) : option Z :=
  match js with
  | [] => Some a
  | i :: js => e ← entry_of mem a i; if PTE_IS_VALID e && PTE_IS_TABLE e then table_walk mem (pte_to_table e) js else None
  end.

Lemma labelled_prefix mem T r ps js : tree mem T → labelled T r (ps ++ js) → labelled T r ps.
Proof.
  intros HT. induction js as [|i js IH] using rev_ind; [by rewrite app_nil_r|]. rewrite app_assoc. intros [b Hb].
  apply IH. destruct (tr_back _ _ HT b r _ i Hb) as (a & e & Ha & _). by exists a.
Qed.

Lemma labelled_entry mem T a r ps i e : tree mem T → T !! a = Some (r, ps) → labelled T r (ps ++ [i]) → entry_of mem a i = Some e →
  PTE_IS_VALID e = true ∧ PTE_IS_TABLE e = true ∧ T !! pte_to_table e = Some (r, ps ++ [i]).
Proof.
  intros HT Ha [b Hb] E. destruct (tr_back _ _ HT b r ps i Hb) as (a' & e' & Ha' & E' & Hv & Ht & <-).
  rewrite (tr_inj _ _ HT _ _ _ Ha' Ha) in E'. assert (e' = e) as -> by congruence. done.
Qed.

Lemma table_walk_labelled mem T js a r ps : tree mem T → T !! a = Some (r, ps) → (length ps + length js <= 3)%nat → Forall (λ j, 0 <= j < 512) js →
  is_Some (table_walk mem a js) ↔ labelled T r (ps ++ js).
Proof.
  intros HT. revert a ps. induction js as [|i js IH]; intros a ps Ha Hl Hj; cbn [table_walk].
  { rewrite app_nil_r. split; [by exists a|by eexists]. }
  apply Forall_cons in Hj as [Hi Hj]. cbn [length] in Hl. destruct (entry_total mem T a _ i HT Ha Hi) as (e & E & _). rewrite E, some_bind.
  change (ps ++ i :: js) with (ps ++ [i] ++ js). rewrite app_assoc. split.
  - destruct (PTE_IS_VALID e) eqn:Ev, (PTE_IS_TABLE e) eqn:Et; cbn [andb]; try by intros [? ?].
    pose proof (tr_child _ _ HT a r ps i e Ha ltac:(lia) E Ev Et) as Hc. apply (IH _ _ Hc); [rewrite length_app; cbn; lia|done].
  - intros Hlab. destruct (labelled_entry mem T a r ps i e HT Ha (labelled_prefix mem T r _ js HT Hlab) E) as (-> & -> & Hc). cbn [andb].
    by apply (IH _ _ Hc); [rewrite length_app; cbn; lia|done|].
Qed.
End tree.
