(* ===== verification/PageTableOps.v ===== *)
(** * The page table functions on translation trees

    Each function against the invariant [pt_inv]: it returns, keeps the tree,
    and changes exactly the translations it should. *)

From S2P Require Import Prelude KList PhysMem Buddy BuddyInv BuddyOps BuddyInit BuddyTheorems PageTable PageTableInv.

Set Default Goal Selector "!".

#[local] Arguments Z.pow : simpl never.
#[local] Arguments leaf_walk : simpl never.
#[local] Arguments digits : simpl never.

(** What is mapped at page [vp] of the tree rooted at [pgd]. *)
Definition pt_view (s : ptm) (pgd vp : Z) : option leaf := leaf_walk (pt_mem s) pgd (digits vp).

(** Whether its 2 MB have a last-level table. *)
Definition pt_split (s : ptm) (pgd vp : Z) : bool := bool_decide (is_Some (table_walk (pt_mem s) pgd (take 3 (digits vp)))).

(** Whether the page allocator refuses a page. *)
Definition no_page (s : ptm) : bool := match phys_mem_alloc_page (pt_pm s) with Some (_, p) => p =? 0 | None => true end.

Section ops.
Context (base n : Z) (HL : mem_layout base n) (H48 : base + n * CONFIG_PAGE_SIZE <= 2 ^ 48).

(** ** The page allocator, as the page tables see it *)

Lemma page_range m live p k : pm_reach base n m live → live !! p = Some k → 0 < p < 2 ^ 48 ∧ (4096 | p).
Proof using HL H48.
  intros HR Hp. destruct (reach_inv base n HL m live HR) as (F & Al & HI & ->).
  apply lookup_kmap_Some in Hp as (i & -> & Hi); [|apply _]. pose proof HI as (_ & _ & HS).
  destruct (al_block base n HL F Al i k HS Hi) as (Hk & Hd & Hb & He). unfold block_end in He.
  pose proof (Z.pow_pos_nonneg 2 k). destruct HL as [[? _] _ _]. unfold CONFIG_PAGE_SIZE in *. split; [nia|].
  etrans; [|exact Hd]. apply Z.divide_factor_l.
Qed.

Lemma take_pages_spec m live ord : pm_reach base n m live → 0 <= ord →
  phys_mem_alloc_pages ord m = Some (m, 0) ∨
  ∃ m' p, phys_mem_alloc_pages ord m = Some (m', p) ∧ p ≠ 0 ∧ live !! p = None ∧ pm_reach base n m' (<[p := ord]> live).
Proof using HL.
  intros HR Hord. destruct (reach_inv base n HL m live HR) as (F & Al & HI & Hlive).
  destruct (pages_alloc_spec base n HL m F Al ord HI Hord) as [[E _]|(m' & i & F' & E & Ho & Hno & HI')]; [by left|right].
  exists m', (addr base i). split; [done|]. pose proof HI' as (_ & _ & HS).
  assert (addr base i ≠ 0) as Hne.
  { destruct (al_block base n HL F' _ i ord HS (lookup_insert_eq _ _ _)) as (_ & _ & ? & _). destruct HL as [[? _] _ _]. lia. }
  split; [done|]. split.
  - rewrite Hlive, lookup_kmap by apply _. done.
  - by apply (reach_alloc base n m live ord m').
Qed.

Lemma alloc_page_spec m live : pm_reach base n m live →
  phys_mem_alloc_page m = Some (m, 0) ∨
  ∃ m' p, phys_mem_alloc_page m = Some (m', p) ∧ p ≠ 0 ∧ live !! p = None ∧ pm_reach base n m' (<[p := 0]> live).
Proof using HL. intros HR. by apply take_pages_spec. Qed.

Lemma give_pages_spec m live p ord : pm_reach base n m live → live !! p = Some ord →
  ∃ m', phys_mem_free_pages p ord m = Some m' ∧ pm_reach base n m' (delete p live).
Proof using HL.
  intros HR Hp. destruct (reach_inv base n HL m live HR) as (F & Al & HI & Hlive). pose proof Hp as Hi.
  rewrite Hlive in Hi. apply lookup_kmap_Some in Hi as (i & -> & Hi); [|apply _].
  destruct (pages_free_spec base n HL m F Al i ord HI Hi) as (m' & F' & E & HI'). exists m'. split; [done|].
  by apply (reach_free base n m live ord m').
Qed.

(** ** The invariant *)

(** [others] are the blocks that other clients of the page allocator hold. *)
Record pt_inv (s : ptm) (T : labels) (others : gmap Z Z) : Prop := PtInv {
  pi_tree : tree (pt_mem s) T;
  pi_mem : ∃ live, pm_reach base n (pt_pm s) live ∧ others ⊆ live ∧
    ∀ a nd, T !! a = Some nd → ∃ p, a = phys_to_virt p ∧ live !! p = Some 0 ∧ others !! p = None;
  pi_roots : ∀ a r ps, T !! a = Some (r, ps) → T !! r = Some (r, [])
}.

Definition is_root (T : labels) (r : Z) : Prop := T !! r = Some (r, []).

(** All translations of all roots of [T] are the same in two memories. *)
Definition same_views (T : labels) (mem mem' : tables) : Prop :=
  ∀ r js, is_root T r → length js = 4%nat → Forall (λ j, 0 <= j) js → leaf_walk mem' r js = leaf_walk mem r js.

Lemma same_views_refl T mem : same_views T mem mem.
Proof. intros r js _ _ _. done. Qed.

Lemma same_views_trans T T' m1 m2 m3 : (∀ r, is_root T r → is_root T' r) → same_views T m1 m2 → same_views T' m2 m3 → same_views T m1 m3.
Proof. intros Hr H1 H2 r js Hroot Hl Hf. rewrite H2 by auto. by apply H1. Qed.

Lemma table_range s T others a nd : pt_inv s T others → T !! a = Some nd → ∃ p, a = phys_to_virt p ∧ 0 < p < 2 ^ 48 ∧ (4096 | p).
Proof using HL H48.
  intros [_ (live & HR & _ & Htab) _] Ha. destruct (Htab a nd Ha) as (p & -> & Hp & _). exists p. split; [done|].
  by eapply page_range.
Qed.

Lemma table_ne0 s T others a nd : pt_inv s T others → T !! a = Some nd → a ≠ 0.
Proof using HL H48. intros HI Ha. destruct (table_range _ _ _ _ _ HI Ha) as (p & -> & Hp & _). apply phys_to_virt_ne0. lia. Qed.

Lemma load_spec s T others a nd i : pt_inv s T others → T !! a = Some nd → 0 <= i < 512 →
  ∃ es e, pt_mem s !! a = Some es ∧ length es = 512%nat ∧ es.[i] = Some e ∧ word e ∧ entry_of (pt_mem s) a i = Some e ∧
    load_entry (walk_table a (u32 i)) s = Some e.
Proof.
  intros HI Ha Hi. destruct (tr_mem _ _ (pi_tree _ _ _ HI) a nd Ha) as (es & Ees & Hlen & _).
  destruct (entry_total _ _ a nd i (pi_tree _ _ _ HI) Ha Hi) as (e & E & Hw). exists es, e. split; [done|]. split; [done|].
  unfold entry_of in E. rewrite Ees, some_bind in E. split; [done|]. split; [done|]. unfold entry_of, load_entry, walk_table. cbn [fst snd].
  rewrite u32_small by lia. by rewrite Ees.
Qed.

Lemma store_spec s a es i e : pt_mem s !! a = Some es → 0 <= i < Z.of_nat (length es) → i < 512 →
  store_entry (walk_table a (u32 i)) e s = Some (upd_ptmem (<[a := <[Z.to_nat i := e]> es]> (pt_mem s)) s).
Proof.
  intros Ees Hi Hi'. unfold store_entry, walk_table. cbn [fst snd]. rewrite u32_small by lia. rewrite Ees, some_bind.
  unfold zupdate. destruct (proj2 (zlookup_is_Some es i) Hi) as [x ->]. done.
Qed.

(** ** Allocation of tables *)

Lemma table_alloc_spec s T others : pt_inv s T others →
  (page_table_alloc s = Some (s, 0) ∧ phys_mem_alloc_page (pt_pm s) = Some (pt_pm s, 0)) ∨
  ∃ m p, page_table_alloc s = Some (PTM m (<[phys_to_virt p := zeros]> (pt_mem s)) (ttbr1 s) (tlb s), phys_to_virt p) ∧
    0 < p < 2 ^ 48 ∧ (4096 | p) ∧ T !! phys_to_virt p = None ∧
    ∃ live, pm_reach base n m live ∧ others ⊆ live ∧ live !! p = Some 0 ∧ others !! p = None ∧
      ∀ a nd, T !! a = Some nd → ∃ q, a = phys_to_virt q ∧ live !! q = Some 0 ∧ others !! q = None.
Proof using HL H48.
  intros [HT (live & HR & Hsub & Htab) _]. unfold page_table_alloc.
  destruct (alloc_page_spec (pt_pm s) live HR) as [E|(m & p & E & Hp & Hno & HR')].
  - left. rewrite E, some_bind. split; [by destruct s|done].
  - right. exists m, p. rewrite E, some_bind, (proj2 (Z.eqb_neq _ _)) by done.
    destruct (page_range m _ p 0 HR' (lookup_insert_eq _ _ _)) as (Hr & Hd). split; [done|]. split; [done|]. split; [done|].
    assert (others !! p = None) as Hop. { destruct (others !! p) as [k|] eqn:Ek; [|done]. by rewrite (lookup_weaken _ _ _ _ Ek Hsub) in Hno. }
    assert (∀ q, live !! q = Some 0 → q ≠ p) as Hq by (intros q Hq ->; congruence).
    split.
    + destruct (T !! phys_to_virt p) as [nd|] eqn:Ea; [|done]. destruct (Htab _ _ Ea) as (q & Eq & Hlq & _).
      destruct (page_range _ _ q 0 HR Hlq) as (Hrq & _). apply phys_to_virt_inj in Eq; [|lia..]. subst q. congruence.
    + exists (<[p := 0]> live). split; [done|]. split; [by apply insert_subseteq_r|]. split; [apply lookup_insert_eq|]. split; [done|].
      intros a nd Ha. destruct (Htab a nd Ha) as (q & -> & Hlq & Hoq). exists q. split; [done|]. split; [|done].
      rewrite lookup_insert_ne; [done|]. intros ->. by apply (Hq q).
Qed.

Lemma new_root_spec s T others : pt_inv s T others →
  (page_table_alloc s = Some (s, 0) ∧ phys_mem_alloc_page (pt_pm s) = Some (pt_pm s, 0)) ∨
  ∃ s' r, page_table_alloc s = Some (s', r) ∧ r ≠ 0 ∧ T !! r = None ∧ pt_inv s' (<[r := (r, [])]> T) others ∧
    same_views T (pt_mem s) (pt_mem s') ∧ (∀ js, leaf_walk (pt_mem s') r js = None) ∧ tlb s' = tlb s.
Proof using HL H48.
  intros HI. pose proof HI as [HT _ Hroots].
  destruct (table_alloc_spec s T others HI) as [?|(m & p & E & Hp & Hd & Hno & live & HR & Hsub & Hlp & Hop & Htab)]; [by left|right].
  eexists _, (phys_to_virt p). split; [exact E|]. split; [apply phys_to_virt_ne0; lia|]. split; [done|].
  assert (∀ a q ps, T !! a = Some (q, ps) → q ≠ phys_to_virt p) as Hq by (intros a q ps Ha ->; apply Hroots in Ha; congruence).
  split.
  - split; cbn [pt_mem pt_pm].
    + by apply tree_new_root.
    + exists live. split; [done|]. split; [done|]. intros a nd [[<- <-]|[_ Ha]]%lookup_insert_Some; [by exists p|by eapply Htab].
    + intros a q ps [[_ [= <- <-]]|[_ Ha]]%lookup_insert_Some; [apply lookup_insert_eq|].
      rewrite lookup_insert_ne by by apply not_eq_sym, (Hq a q ps). by eapply Hroots.
  - cbn [pt_mem tlb]. split; [|split; [|done]].
    + intros q js Hr Hl _. eapply walk_agree; [done| |done|cbn; lia]. intros b [nd Hb]. apply lookup_insert_ne. congruence.
    + intros [|j js]; [done|]. unfold leaf_walk; fold leaf_walk. destruct (entry_of _ _ j) as [e|] eqn:Ee; [|done].
      by rewrite (zeros_entry _ _ _ _ Ee).
Qed.

(** ** Descending with creation *)

(** Linking a cleared table changes no translation. *)
Lemma link_views mem T a r ps es i d b : tree mem T → is_root T r → T !! a = Some (r, ps) → mem !! a = Some es →
  length es = 512%nat → 0 <= i < 512 → (length ps < 3)%nat → (∀ e0, es.[i] = Some e0 → PTE_IS_VALID e0 = false) →
  T !! b = None → word d → PTE_IS_VALID d = true → PTE_IS_TABLE d = true → pte_to_table d = b →
  same_views T mem (<[a := <[Z.to_nat i := d]> es]> (<[b := zeros]> mem)).
Proof.
  intros HT Hr Ha Ees Hlen Hi Hl3 Hold Hb Hw Hdv Hdt Hdb. assert (a ≠ b) as Hab by congruence.
  assert (∀ c, is_Some (T !! c) → <[b := zeros]> mem !! c = mem !! c) as Hag.
  { intros c [nd Hc]. apply lookup_insert_ne. congruence. }
  pose proof (tree_agree _ _ _ Hag HT) as HT1. assert (<[b := zeros]> mem !! a = Some es) as Ees1 by by rewrite lookup_insert_ne.
  intros r' js Hr' Hjl Hnn. destruct (decide (r' = r ∧ (ps ++ [i]) `prefix_of` js)) as [[-> [js' Hjs]]|Hno].
  - subst js. rewrite <- app_assoc in *. pose proof (tree_link mem T a r ps es i d b HT Ha Ees ltac:(lia) Hl3 Hold Hb Hab Hw Hdv Hdt Hdb) as HT2.
    assert (js' ≠ []) as Hne by (intros ->; rewrite !length_app in Hjl; cbn in Hjl; lia).
    rewrite (walk_reaches _ _ ([i] ++ js') ps a r HT Ha) by done.
    rewrite (walk_reaches _ _ ([i] ++ js') ps a r HT2) by (done || by rewrite lookup_insert_ne).
    cbn [app]. unfold leaf_walk; fold leaf_walk. rewrite (entry_same _ _ es) by (done || lia). rewrite decide_True by done. rewrite Hdv, Hdt.
    destruct (proj2 (zlookup_is_Some es i)) as [e0 He0]; [lia|]. unfold entry_of at 1. rewrite Ees, some_bind, He0, (Hold _ He0).
    destruct js' as [|j js']; [done|]. unfold leaf_walk; fold leaf_walk. rewrite Hdb, entry_other by done.
    destruct (entry_of _ b j) as [e|] eqn:Ee; [|done]. by rewrite (zeros_entry _ _ _ _ Ee).
  - rewrite (walk_store _ T a r ps es i d js r' r' []) by (done || lia).
    eapply walk_agree; [done|done|exact Hr'|cbn; lia].
Qed.

Lemma walk_create_spec s T others a r ps i : pt_inv s T others → T !! a = Some (r, ps) → (length ps < 3)%nat → 0 <= i < 512 →
  (∃ s' c T', walk_create a i s = Some (s', inr c) ∧ pt_inv s' T' others ∧ T' !! c = Some (r, ps ++ [i]) ∧ T ⊆ T' ∧
     (∀ q, is_root T' q → is_root T q) ∧ same_views T (pt_mem s) (pt_mem s') ∧ tlb s' = tlb s ∧
     (∀ q js, labelled T' q js ↔ labelled T q js ∨ q = r ∧ js = ps ++ [i])) ∨
  (∃ e, walk_create a i s = Some (s, inl (- EEXIST)) ∧ entry_of (pt_mem s) a i = Some e ∧ PTE_IS_VALID e = true ∧ PTE_IS_TABLE e = false) ∨
  (∃ e, walk_create a i s = Some (s, inl (- ENOMEM)) ∧ entry_of (pt_mem s) a i = Some e ∧ PTE_IS_VALID e = false ∧
     phys_mem_alloc_page (pt_pm s) = Some (pt_pm s, 0)).
Proof using HL H48.
  intros HI Ha Hl3 Hi. pose proof HI as [HT _ Hroots]. pose proof (Hroots _ _ _ Ha) as Hr.
  destruct (load_spec s T others a _ i HI Ha Hi) as (es & e & Ees & Hlen & Ee & Hw & Een & El).
  unfold walk_create. rewrite El, some_bind. destruct (PTE_IS_VALID e) eqn:Ev; cbn [negb].
  - destruct (PTE_IS_TABLE e) eqn:Et; cbn [negb]; [left|right; left; by exists e]. rewrite some_bind, El, some_bind.
    pose proof (tr_child _ _ HT a r ps i e Ha Hl3 Een Ev Et) as Hc.
    rewrite (proj2 (Z.eqb_neq _ _)) by (apply pte_to_table_ne0; by destruct Hw).
    exists s, (pte_to_table e), T. split; [done|]. split; [done|]. split; [done|]. split; [done|]. split; [done|]. split; [apply same_views_refl|].
    split; [done|]. intros q js. split; [by left|]. intros [?|[-> ->]]; [done|by eexists].
  - destruct (table_alloc_spec s T others HI) as [[E Hm]|(m & p & E & Hp & Hd & Hno & live & HR & Hsub & Hlp & Hop & Htab)].
    { right; right. exists e. rewrite E, !some_bind. done. }
    left. rewrite E, some_bind. rewrite (proj2 (Z.eqb_neq _ _)) by (apply phys_to_virt_ne0; lia).
    set (s1 := PTM m _ _ _). rewrite virt_phys by lia. change (_ .| PTE_VALID .| PTE_TABLE) with (table_desc p).
    assert (a ≠ phys_to_virt p) as Hab by congruence.
    assert (pt_mem s1 !! a = Some es) as Ees1 by (cbn; by rewrite lookup_insert_ne).
    rewrite (store_spec s1 a es i (table_desc p) Ees1 ltac:(lia) ltac:(lia)), !some_bind.
    set (s2 := upd_ptmem _ s1).
    assert (load_entry (walk_table a (u32 i)) s2 = Some (table_desc p)) as ->.
    { unfold load_entry, walk_table. cbn [fst snd]. rewrite u32_small by lia. cbn [pt_mem s2 upd_ptmem]. rewrite lookup_insert_eq, some_bind.
      apply zlookup_insert_eq. lia. }
    rewrite some_bind, pte_to_table_desc by (done || lia). rewrite (proj2 (Z.eqb_neq _ _)) by (apply phys_to_virt_ne0; lia).
    assert (word (table_desc p)) as Hdw by (apply pte_make_word; [lia|split; [done|reflexivity]]).
    assert (pte_to_table (table_desc p) = phys_to_virt p) as Hdt by (apply pte_to_table_desc; [lia|done]).
    assert (∀ e0, es.[i] = Some e0 → PTE_IS_VALID e0 = false) as Hold by congruence.
    exists s2, (phys_to_virt p), (<[phys_to_virt p := (r, ps ++ [i])]> T). split; [done|].
    assert (∀ q, T !! q = Some (q, []) → phys_to_virt p ≠ q) as Hq by congruence.
    split.
    { split; cbn [s2 s1 upd_ptmem pt_mem pt_pm].
      - apply tree_link; try done; [lia|by apply pte_make_valid|by apply pte_make_table].
      - exists live. split; [done|]. split; [done|]. intros c nd [[<- <-]|[_ Hc]]%lookup_insert_Some; [by exists p|by eapply Htab].
      - intros c q qs [[_ [= <- <-]]|[_ Hc]]%lookup_insert_Some; (rewrite lookup_insert_ne; [by eapply Hroots|apply Hq; by eapply Hroots]). }
    split; [apply lookup_insert_eq|]. split; [by apply insert_subseteq|].
    split; [intros q [[_ [=]]|[_ Hq']]%lookup_insert_Some; [by destruct ps|done]|].
    split; [eapply link_views; try done; [by apply pte_make_valid|by apply pte_make_table]|]. split; [done|]. intros q js. split.
    + intros [b [[_ E']|[_ Hb]]%lookup_insert_Some]; [right; by injection E' as <- <-|left; by exists b].
    + intros [[b Hb]|[-> ->]]; [|eexists; apply lookup_insert_eq]. exists b. rewrite lookup_insert_ne; [done|congruence].
Qed.

(** [s'] has the tables of [s] and perhaps more, and the same translations. *)
Record ext (s s' : ptm) (T T' : labels) (others : gmap Z Z) : Prop := Ext {
  ex_inv : pt_inv s' T' others;
  ex_sub : T ⊆ T';
  ex_roots : ∀ q, is_root T' q → is_root T q;
  ex_views : same_views T (pt_mem s) (pt_mem s');
  ex_tlb : tlb s' = tlb s
}.

Lemma ext_refl s T others : pt_inv s T others → ext s s T T others.
Proof. intros HI. split; [done|done|done|apply same_views_refl|done]. Qed.

Lemma sub_root T T' q : T ⊆ T' → is_root T q → is_root T' q.
Proof. intros Hs Hq. by eapply lookup_weaken. Qed.

Lemma ext_trans s1 s2 s3 T1 T2 T3 others : ext s1 s2 T1 T2 others → ext s2 s3 T2 T3 others → ext s1 s3 T1 T3 others.
Proof.
  intros [A1 A2 A3 A4 A5] [B1 B2 B3 B4 B5]. split; [done|by etrans|auto| |congruence].
  eapply (same_views_trans _ T2); [|done|done]. intros q. by apply sub_root.
Qed.

Definition wf_path (js : list Z) : Prop := length js = 4%nat ∧ Forall (λ j, 0 <= j) js.

(** The last-level tables of [T'] are those of [T] and, for root [r], those at [L]. *)
Definition grew (T T' : labels) (r : Z) (L : list Z → Prop) : Prop :=
  ∀ q js, length js = 3%nat → labelled T' q js ↔ labelled T q js ∨ q = r ∧ L js.

Notation nowhere := (λ _ : list Z, False).

Lemma grew_refl T r : grew T T r nowhere.
Proof. intros q js _. tauto. Qed.

Lemma grew_trans T T1 T2 r L : grew T T1 r nowhere → grew T1 T2 r L → grew T T2 r L.
Proof. intros H1 H2 q js Hl. rewrite (H2 q js Hl), (H1 q js Hl). tauto. Qed.

(** A call that ends with an error: no translation changed and no last-level
    table was made, and the error says why. *)
Definition fails (s s' : ptm) (T : labels) (others : gmap Z Z) (r : Z) (js : list Z) (st : Z) : Prop :=
  (∃ T', ext s s' T T' others ∧ grew T T' r nowhere) ∧
  ((st = - EEXIST ∧ is_Some (leaf_walk (pt_mem s) r js)) ∨
   (st = - ENOMEM ∧ leaf_walk (pt_mem s) r js = None ∧ ¬ labelled T r (take 3 js) ∧ phys_mem_alloc_page (pt_pm s') = Some (pt_pm s', 0))).

Lemma labelled_sub T T' r js : T ⊆ T' → labelled T r js → labelled T' r js.
Proof. intros Hs [a Ha]. exists a. by eapply lookup_weaken. Qed.

Lemma fails_ext s s1 s2 T T1 others r js st : ext s s1 T T1 others → grew T T1 r nowhere → is_root T r → wf_path js →
  fails s1 s2 T1 others r js st → fails s s2 T others r js st.
Proof.
  intros HE HG Hr [Hl Hn] [(T2 & HE2 & HG2) Hst]. split; [exists T2; split; [by eapply ext_trans|by eapply grew_trans]|].
  rewrite (ex_views _ _ _ _ _ HE r js Hr Hl Hn) in Hst. destruct Hst as [?|(? & ? & Hno & ?)]; [by left|right]. split; [done|]. split; [done|].
  split; [|done]. intros Hlab. apply Hno. eapply labelled_sub; [apply HE|done].
Qed.

(** A page is below three tables. *)
Lemma page_split mem r js e : length js = 4%nat → leaf_walk mem r js = Some (LPage e) → is_Some (table_walk mem r (take 3 js)).
Proof.
  destruct js as [|a [|b [|c [|d [|]]]]]; try done. intros _. unfold leaf_walk; fold leaf_walk. cbn [take table_walk].
  destruct (entry_of mem r a) as [x|]; [|done]. rewrite some_bind. destruct (PTE_IS_VALID x), (PTE_IS_TABLE x); try done. cbn [andb].
  destruct (entry_of mem _ b) as [y|]; [|done]. rewrite some_bind. destruct (PTE_IS_VALID y), (PTE_IS_TABLE y); try done. cbn [andb].
  destruct (entry_of mem _ c) as [z|]; [|done]. rewrite some_bind. destruct (PTE_IS_VALID z), (PTE_IS_TABLE z); done.
Qed.

Lemma split_label s T others r vp : pt_inv s T others → is_root T r → pt_split s r vp = true ↔ labelled T r (take 3 (digits vp)).
Proof.
  intros HI Hr. unfold pt_split. rewrite bool_decide_eq_true. apply (table_walk_labelled _ T _ r r []); [apply HI|done|by cbn|].
  apply Forall_take, digits_range.
Qed.

Lemma split_grew s s' T T' others r L q vp : pt_inv s T others → pt_inv s' T' others → grew T T' r L → is_root T q → is_root T' q →
  pt_split s' q vp = true ↔ pt_split s q vp = true ∨ q = r ∧ L (take 3 (digits vp)).
Proof. intros HI HI' HG Hq Hq'. rewrite (split_label s' T'), (split_label s T) by done. by apply HG. Qed.

(** One level of a descent: the continuation runs on the next table, or the
    descent ends with an error. *)
Lemma descend_spec (Post : ptm → Z → Prop) s T others a r ps i js k : pt_inv s T others → T !! a = Some (r, ps) → 0 <= i < 512 →
  wf_path (ps ++ i :: js) → js ≠ [] →
  (∀ s' T' c, ext s s' T T' others → (∀ q js, labelled T' q js ↔ labelled T q js ∨ q = r ∧ js = ps ++ [i]) →
    T' !! c = Some (r, ps ++ [i]) → ∃ s'' st, k c s' = Some (s'', st) ∧ Post s'' st) →
  (∀ s' st, fails s s' T others r (ps ++ i :: js) st → Post s' st) →
  ∃ s'' st, (x ← walk_create a i s; descend x k) = Some (s'', st) ∧ Post s'' st.
Proof using HL H48.
  intros HI Ha Hi [Hl Hn] Hjs Hk Hf.
  assert (length ps < 3)%nat as Hl3 by (rewrite length_app in Hl; destruct js; [done|cbn in Hl; lia]).
  pose proof (walk_reaches _ _ (i :: js) ps a r (pi_tree _ _ _ HI) Ha ltac:(done)) as Hw.
  assert (∀ e, entry_of (pt_mem s) a i = Some e → leaf_walk (pt_mem s) r (ps ++ i :: js) =
    if PTE_IS_VALID e then if PTE_IS_TABLE e then leaf_walk (pt_mem s) (pte_to_table e) js else Some (LBlock e) else None) as Hv.
  { intros e E. rewrite Hw. unfold leaf_walk; fold leaf_walk. rewrite E. destruct js; [done|]. by destruct (PTE_IS_VALID e). }
  destruct (walk_create_spec s T others a r ps i HI Ha Hl3 Hi) as
    [(s' & c & T' & E & HI' & Hc & Hsub & Hrt & Hvw & Ht & Hlab)|[(e & E & Ee & Ev & Et)|(e & E & Ee & Ev & Hm)]]; rewrite E, some_bind; cbn [descend].
  - apply (Hk s' T' c); [by split|done|done].
  - exists s, (- EEXIST). split; [done|]. apply Hf. split; [exists T; split; [by apply ext_refl|apply grew_refl]|left]. rewrite (Hv e Ee), Ev, Et. by split; [|eexists].
  - exists s, (- ENOMEM). split; [done|]. apply Hf. split; [exists T; split; [by apply ext_refl|apply grew_refl]|right]. rewrite (Hv e Ee), Ev.
    split; [done|]. split; [done|]. split; [|done]. intros Hlab. assert (∃ rest, take 3 (ps ++ i :: js) = (ps ++ [i]) ++ rest) as [rest Er].
    { exists (take (2 - length ps) js). rewrite take_app, take_ge by lia. rewrite <- app_assoc. f_equal.
      replace (3 - length ps)%nat with (S (2 - length ps)) by lia. done. }
    rewrite Er in Hlab. destruct (labelled_entry _ T a r ps i e (pi_tree _ _ _ HI) Ha (labelled_prefix _ T r _ rest (pi_tree _ _ _ HI) Hlab) Ee) as [Ev' _]. congruence.
Qed.

(** ** Storing a translation *)

(** The translations after a store at the end of [ps]: those below change to
    [l], the others stay. *)
Lemma store_views mem T a r ps es i e r' js : tree mem T → tree (<[a := <[Z.to_nat i := e]> es]> mem) T →
  T !! a = Some (r, ps) → mem !! a = Some es → length es = 512%nat → 0 <= i < 512 → is_root T r' → wf_path js →
  leaf_walk (<[a := <[Z.to_nat i := e]> es]> mem) r' js =
  if decide (r' = r ∧ (ps ++ [i]) `prefix_of` js)
  then if PTE_IS_VALID e then match drop (S (length ps)) js with
         [] => Some (LPage e)
       | rest => if PTE_IS_TABLE e then leaf_walk (<[a := <[Z.to_nat i := e]> es]> mem) (pte_to_table e) rest else Some (LBlock e) end else None
  else leaf_walk mem r' js.
Proof.
  intros HT HT' Ha Ees Hlen Hi Hr [Hjl Hnn]. case_decide as Hd.
  - destruct Hd as [-> [js' ->]]. rewrite <- app_assoc. rewrite (walk_reaches _ _ ([i] ++ js') ps a r HT' Ha) by done.
    replace (drop (S (length ps)) (ps ++ [i] ++ js')) with js'.
    2:{ rewrite app_assoc. symmetry. apply drop_app_length'. rewrite length_app. cbn. lia. }
    cbn [app]. unfold leaf_walk at 1; fold leaf_walk. rewrite (entry_same _ _ es) by (done || lia). rewrite decide_True by done.
    by destruct js'.
  - by rewrite (walk_store _ T a r ps es i e js r' r' []) by (done || lia).
Qed.

(** ** Pages and paths *)

Lemma digits_wf vp : wf_path (digits vp).
Proof. split; [done|]. eapply Forall_impl; [apply digits_range|]. cbn. lia. Qed.

Lemma prefix_page a b : 0 <= a < 2 ^ 36 → 0 <= b < 2 ^ 36 → digits a `prefix_of` digits b ↔ b = a.
Proof.
  intros Ha Hb. split; [|by intros ->]. intros [k Hk]. assert (k = []) as ->.
  { apply nil_length_inv. apply (f_equal length) in Hk. rewrite length_app in Hk. unfold digits in Hk. cbn in Hk. lia. }
  rewrite app_nil_r in Hk. by apply digits_inj.
Qed.

Lemma prefix_block a b : 0 <= a < 2 ^ 36 → 0 <= b < 2 ^ 36 →
  [a / 2 ^ 27 mod 512; a / 2 ^ 18 mod 512; a / 2 ^ 9 mod 512] `prefix_of` digits b ↔ b / 512 = a / 512.
Proof.
  change (2 ^ 36) with (512 * 2 ^ 27). intros Ha Hb. unfold digits.
  replace (2 ^ 27) with (512 * 2 ^ 18) by done. replace (2 ^ 18) with (512 * 2 ^ 9) by done. change (2 ^ 9) with 512.
  rewrite <- !(Z.div_div _ 512) by lia. assert (0 <= a / 512 < 2 ^ 27 ∧ 0 <= b / 512 < 2 ^ 27) as [Hx Hy].
  { split; (split; [apply Z.div_pos; lia|apply Z.div_lt_upper_bound; lia]). }
  generalize (b mod 512). revert Hx Hy. generalize (a / 512) (b / 512). change (2 ^ 27) with 134217728. clear a b Ha Hb.
  intros x y Hx Hy z. split; [|intros ->; by exists [z]]. intros [k Hk]. injection Hk as E1 E2 E3 _. Z.div_mod_to_equations. lia.
Qed.

(** ** Updated translations *)

(** All roots stay; the pages [P] of root [r] now have [l], all others what
    they had; root [r] has new last-level tables at [L]. *)
Definition updated (s s' : ptm) (T : labels) (others : gmap Z Z) (r : Z) (P : Z → bool) (l : option leaf) (L : list Z → Prop) : Prop :=
  ∃ T', pt_inv s' T' others ∧ (∀ q, is_root T' q ↔ is_root T q) ∧ grew T T' r L ∧
    ∀ r' vp', is_root T r' → 0 <= vp' < 2 ^ 36 → pt_view s' r' vp' = if (r' =? r) && P vp' then l else pt_view s r' vp'.

Lemma inv_store s T others mem : pt_inv s T others → tree mem T → pt_inv (upd_ptmem mem s) T others.
Proof. intros [_ Hm Hr] HT. by split. Qed.

Lemma inv_tlb s T others l : pt_inv s T others → pt_inv (upd_tlb l s) T others.
Proof. intros [HT Hm Hr]. by split. Qed.

Lemma ext_root s s' T T' others q : ext s s' T T' others → is_root T' q ↔ is_root T q.
Proof. intros HE. split; [apply HE|apply sub_root, HE]. Qed.

(** A store in a last-level table. *)
Lemma page_store s s' T T' others c r vp e es L : ext s s' T T' others → grew T T' r L → 0 <= vp < 2 ^ 36 →
  T' !! c = Some (r, [vp / 2 ^ 27 mod 512; vp / 2 ^ 18 mod 512; vp / 2 ^ 9 mod 512]) → pt_mem s' !! c = Some es → length es = 512%nat → word e →
  updated s (upd_ptmem (<[c := <[Z.to_nat (vp mod 512) := e]> es]> (pt_mem s')) s') T others r (λ vp', vp' =? vp)
    (if PTE_IS_VALID e then Some (LPage e) else None) L.
Proof.
  intros HE HG Hvp Hc Ees Hlen Hw. pose proof (ex_inv _ _ _ _ _ HE) as HI. pose proof (pi_tree _ _ _ HI) as HT.
  assert (0 <= vp mod 512 < 512) as Hi by (apply Z.mod_pos_bound; lia).
  pose proof (tree_store_last _ _ c r _ es (vp mod 512) e HT Hc Ees ltac:(lia) Hw ltac:(done)) as HT'.
  exists T'. split; [by apply inv_store|]. split; [intros q; by eapply ext_root|]. split; [done|]. intros r' vp' Hr' Hvp'. unfold pt_view. cbn [pt_mem upd_ptmem].
  rewrite (store_views _ T' c r _ es _ e r' _ HT HT' Hc Ees Hlen Hi) by (apply digits_wf || by eapply sub_root; [apply HE|]).
  change (_ ++ [vp mod 512]) with (digits vp). rewrite <- (ex_views _ _ _ _ _ HE r' (digits vp') Hr') by apply digits_wf.
  destruct (decide _) as [[-> Hp]|Hno].
  - apply prefix_page in Hp as ->; [|done..]. by rewrite !Z.eqb_refl.
  - destruct (Z.eqb_spec r' r) as [->|]; [|done]. destruct (Z.eqb_spec vp' vp) as [->|]; [|done]. by destruct Hno.
Qed.

(** A block store in a table of the third level. *)
Lemma block_store s s' T T' others c r vp e es : ext s s' T T' others → grew T T' r nowhere → 0 <= vp < 2 ^ 36 →
  T' !! c = Some (r, [vp / 2 ^ 27 mod 512; vp / 2 ^ 18 mod 512]) → pt_mem s' !! c = Some es → length es = 512%nat → word e →
  PTE_IS_VALID e = true → PTE_IS_TABLE e = false → (∀ e0, es.[vp / 2 ^ 9 mod 512] = Some e0 → PTE_IS_VALID e0 = false) →
  updated s (upd_ptmem (<[c := <[Z.to_nat (vp / 2 ^ 9 mod 512) := e]> es]> (pt_mem s')) s') T others r (λ vp', vp' / 512 =? vp / 512) (Some (LBlock e)) nowhere.
Proof.
  intros HE HG Hvp Hc Ees Hlen Hw Hv Ht Hold. pose proof (ex_inv _ _ _ _ _ HE) as HI. pose proof (pi_tree _ _ _ HI) as HT.
  assert (0 <= vp / 2 ^ 9 mod 512 < 512) as Hi by (apply Z.mod_pos_bound; lia).
  assert (tree (<[c := <[Z.to_nat (vp / 2 ^ 9 mod 512) := e]> es]> (pt_mem s')) T') as HT'.
  { eapply tree_store; try done; [lia|split; [done|by right]|cbn; lia|]. intros e0 E0. by rewrite (Hold e0 E0). }
  exists T'. split; [by apply inv_store|]. split; [intros q; by eapply ext_root|]. split; [done|]. intros r' vp' Hr' Hvp'. unfold pt_view. cbn [pt_mem upd_ptmem].
  rewrite (store_views _ T' c r _ es _ e r' _ HT HT' Hc Ees Hlen Hi) by (apply digits_wf || by eapply sub_root; [apply HE|]).
  cbn [app]. rewrite <- (ex_views _ _ _ _ _ HE r' (digits vp') Hr') by apply digits_wf. rewrite Hv, Ht. cbn [length drop digits].
  destruct (decide _) as [[-> Hp]|Hno].
  - apply prefix_block in Hp as ->; [|done..]. by rewrite !Z.eqb_refl.
  - destruct (Z.eqb_spec r' r) as [->|]; [|done]. destruct (Z.eqb_spec (vp' / 512) (vp / 512)) as [E|]; [|done].
    destruct Hno. split; [done|]. by apply prefix_block.
Qed.

(** ** Mapping *)

Lemma path_of v : PGD_INDEX v = vpage v / 2 ^ 27 mod 512 ∧ PUD_INDEX v = vpage v / 2 ^ 18 mod 512 ∧
  PMD_INDEX v = vpage v / 2 ^ 9 mod 512 ∧ PTE_INDEX v = vpage v mod 512.
Proof. pose proof (va_path_digits v) as E. by injection E as -> -> -> ->. Qed.

Lemma map_spec s T others pgd va pa perm u : pt_inv s T others → is_root T pgd → word pa →
  ∃ s' st, page_table_map pgd va pa perm u s = Some (s', st) ∧ tlb s' = tlb s ∧
    ((st = KERNEL_OK ∧ pt_view s pgd (vpage va) = None ∧
      updated s s' T others pgd (λ vp, vp =? vpage va) (Some (LPage (PTE_MAKE pa (compute_pte_attr perm u)))) (λ js, js = take 3 (digits (vpage va)))) ∨
     fails s s' T others pgd (digits (vpage va)) st).
Proof using HL H48.
  intros HI Hr Hpa. pose proof (vpage_range va) as Hvp. destruct (path_of va) as (E0 & E1 & E2 & E3).
  pose proof (compute_pte_attr_ok perm u) as (Hm & Hv & _ & Hw).
  set (vp := vpage va) in *. assert (∀ x, 0 <= x mod 512 < 512) as Hb by (intros; apply Z.mod_pos_bound; lia).
  set (Post := λ (s' : ptm) (st : Z), tlb s' = tlb s ∧ ((st = KERNEL_OK ∧ pt_view s pgd vp = None ∧
      updated s s' T others pgd (λ v, v =? vp) (Some (LPage (PTE_MAKE pa (compute_pte_attr perm u)))) (λ js, js = take 3 (digits vp))) ∨
      fails s s' T others pgd (digits vp) st)).
  assert (∀ s1 T1 s' st, ext s s1 T T1 others → grew T T1 pgd nowhere → fails s1 s' T1 others pgd (digits vp) st → Post s' st) as Hfail.
  { intros s1 T1 s' st HE HG Hf. apply (fails_ext s s1) with (T := T) in Hf; [|done..|apply digits_wf]. split; [|by right].
    destruct Hf as [(T' & HE' & _) _]. apply HE'. }
  unfold page_table_map. rewrite (proj2 (Z.eqb_neq _ _)) by (by eapply table_ne0). rewrite E0, E1, E2, E3.
  eapply (descend_spec Post s T others pgd pgd [] _ [_; _; _]); [done|done|done|apply (digits_wf vp)|done| |intros s' st Hf; eapply Hfail; [by apply ext_refl|apply grew_refl|done]].
  intros s1 T1 c1 HX1 HG1 Hc1.
  assert (grew T T1 pgd nowhere) as HN1 by (intros q js Hl; rewrite (HG1 q js); split; [intros [?|[_ ->]]; [by left|done]|intros [?|[_ []]]; by left]).
  eapply (descend_spec Post s1 T1 others c1 pgd [_] _ [_; _]); [apply HX1|done|done|apply (digits_wf vp)|done| |intros s' st Hf; by eapply Hfail].
  intros s2 T2 c2 HX2 HG2 Hc2.
  assert (grew T T2 pgd nowhere) as HN2.
  { eapply grew_trans; [exact HN1|]. intros q js Hl. rewrite (HG2 q js). split; [intros [?|[_ ->]]; [by left|done]|intros [?|[_ []]]; by left]. }
  pose proof (ext_trans _ _ _ _ _ _ _ HX1 HX2) as HX12.
  eapply (descend_spec Post s2 T2 others c2 pgd [_; _] _ [_]); [apply HX12|exact Hc2|done|apply (digits_wf vp)|done| |intros s' st Hf; by eapply Hfail].
  intros s3 T3 c3 HX3 HG3 Hc3. pose proof (ext_trans _ _ _ _ _ _ _ HX12 HX3) as HX. cbn [app] in Hc3.
  assert (grew T T3 pgd (λ js, js = take 3 (digits vp))) as HN3 by (eapply grew_trans; [exact HN2|]; intros q js _; apply HG3).
  destruct (load_spec s3 T3 others c3 _ (vp mod 512) (ex_inv _ _ _ _ _ HX) Hc3 (Hb _)) as (es & e & Ees & Hlen & Ee & He & Een & El).
  rewrite El, some_bind.
  assert (pt_view s pgd vp = if PTE_IS_VALID e then Some (LPage e) else None) as Hview.
  { unfold pt_view. rewrite <- (ex_views _ _ _ _ _ HX pgd (digits vp) Hr) by apply digits_wf.
    change (digits vp) with ([vp / 2 ^ 27 mod 512; vp / 2 ^ 18 mod 512; vp / 2 ^ 9 mod 512] ++ [vp mod 512]).
    rewrite (walk_reaches _ T3 _ _ c3) by (done || apply HX). unfold leaf_walk. by rewrite Een. }
  destruct (PTE_IS_VALID e) eqn:Ev.
  - exists s3, (- EEXIST). split; [done|]. split; [apply HX|right]. unfold pt_view in Hview. split; [exists T3; split; [done|]|left; rewrite Hview; by split; [|eexists]].
    intros q js Hl. rewrite (HN3 q js Hl). split; [|intros [?|[_ []]]; by left]. intros [?|[-> ->]]; [by left|left].
    apply (split_label s T others); [done|done|]. apply bool_decide_eq_true. by eapply (page_split _ _ _ e); [|exact Hview].
  - rewrite (store_spec s3 c3 es) by (done || specialize (Hb vp); lia). rewrite some_bind. eexists _, KERNEL_OK. split; [done|]. split; [apply HX|left].
    split; [done|]. split; [done|].
    pose proof (page_store s s3 T T3 others c3 pgd vp (PTE_MAKE pa (compute_pte_attr perm u)) es _ HX HN3 Hvp Hc3 Ees Hlen) as Hst.
    rewrite pte_make_valid in Hst by done. apply Hst. by apply pte_make_word.
Qed.

Lemma map_block_spec s T others pgd va pa perm u : pt_inv s T others → is_root T pgd → word pa →
  ∃ s' st, page_table_map_block pgd va pa perm u s = Some (s', st) ∧ tlb s' = tlb s ∧
    ((st = KERNEL_OK ∧ (∀ vp, 0 <= vp < 2 ^ 36 → vp / 512 = vpage va / 512 → pt_view s pgd vp = None) ∧
      updated s s' T others pgd (λ vp, vp / 512 =? vpage va / 512)
        (Some (LBlock (Z.land pa (page_mask PAGE_SIZE_2M) .| compute_pte_attr perm u))) nowhere ∧ ¬ labelled T pgd (take 3 (digits (vpage va)))) ∨
     (∃ T', ext s s' T T' others ∧ grew T T' pgd nowhere) ∧
     ((st = - EEXIST ∧ (labelled T pgd (take 3 (digits (vpage va))) ∨ is_Some (pt_view s pgd (vpage va)))) ∨
      (st = - ENOMEM ∧ ¬ labelled T pgd (take 3 (digits (vpage va))) ∧ pt_view s pgd (vpage va) = None ∧
       phys_mem_alloc_page (pt_pm s') = Some (pt_pm s', 0)))).
Proof using HL H48.
  intros HI Hr Hpa. pose proof (vpage_range va) as Hvp. destruct (path_of va) as (E0 & E1 & E2 & _).
  pose proof (compute_pte_attr_ok perm u) as Hok. set (vp := vpage va) in *.
  assert (∀ x, 0 <= x mod 512 < 512) as Hb by (intros; apply Z.mod_pos_bound; lia).
  set (d := Z.land pa (page_mask PAGE_SIZE_2M) .| compute_pte_attr perm u). destruct (block_bits pa _ Hok) as [Hdv Hdt]. fold d in Hdv, Hdt.
  set (Post := λ (s' : ptm) (st : Z), tlb s' = tlb s ∧ ((st = KERNEL_OK ∧
      (∀ v, 0 <= v < 2 ^ 36 → v / 512 = vp / 512 → pt_view s pgd v = None) ∧
      updated s s' T others pgd (λ v, v / 512 =? vp / 512) (Some (LBlock d)) nowhere ∧ ¬ labelled T pgd (take 3 (digits vp))) ∨
     (∃ T', ext s s' T T' others ∧ grew T T' pgd nowhere) ∧
     ((st = - EEXIST ∧ (labelled T pgd (take 3 (digits vp)) ∨ is_Some (pt_view s pgd vp))) ∨
      (st = - ENOMEM ∧ ¬ labelled T pgd (take 3 (digits vp)) ∧ pt_view s pgd vp = None ∧ phys_mem_alloc_page (pt_pm s') = Some (pt_pm s', 0))))).
  assert (∀ s1 T1 s' st, ext s s1 T T1 others → grew T T1 pgd nowhere → fails s1 s' T1 others pgd (digits vp) st → Post s' st) as Hfail.
  { intros s1 T1 s' st HE HG Hf. apply (fails_ext s s1) with (T := T) in Hf; [|done..|apply digits_wf]. destruct Hf as [(T' & HE' & HG') Hf].
    split; [apply HE'|]. right. split; [by exists T'|]. destruct Hf as [[-> ?]|(-> & ? & ? & ?)]; [left|right]; [split; [done|by right]|done]. }
  unfold page_table_map_block. rewrite (proj2 (Z.eqb_neq _ _)) by (by eapply table_ne0). rewrite E0, E1, E2.
  eapply (descend_spec Post s T others pgd pgd [] _ [_; _; _]); [done|done|done|apply (digits_wf vp)|done| |intros s' st Hf; eapply Hfail; [by apply ext_refl|apply grew_refl|done]].
  intros s1 T1 c1 HX1 HG1 Hc1.
  assert (grew T T1 pgd nowhere) as HN1 by (intros q js Hl; rewrite (HG1 q js); split; [intros [?|[_ ->]]; [by left|done]|intros [?|[_ []]]; by left]).
  eapply (descend_spec Post s1 T1 others c1 pgd [_] _ [_; _]); [apply HX1|done|done|apply (digits_wf vp)|done| |intros s' st Hf; by eapply Hfail].
  intros s2 T2 c2 HX2 HG2 Hc2.
  assert (grew T T2 pgd nowhere) as HN2.
  { eapply grew_trans; [exact HN1|]. intros q js Hl. rewrite (HG2 q js). split; [intros [?|[_ ->]]; [by left|done]|intros [?|[_ []]]; by left]. }
  pose proof (ext_trans _ _ _ _ _ _ _ HX1 HX2) as HX. cbn [app] in Hc2.
  destruct (load_spec s2 T2 others c2 _ (vp / 2 ^ 9 mod 512) (ex_inv _ _ _ _ _ HX) Hc2 (Hb _)) as (es & e & Ees & Hlen & Ee & He & Een & El).
  rewrite El, some_bind. destruct (PTE_IS_VALID e) eqn:Ev.
  - exists s2, (- EEXIST). split; [done|]. split; [apply HX|right]. split; [by exists T2|left]. split; [done|]. destruct (PTE_IS_TABLE e) eqn:Et.
    + left. pose proof (tr_child _ _ (pi_tree _ _ _ (ex_inv _ _ _ _ _ HX)) c2 pgd _ _ e Hc2 ltac:(cbn; lia) Een Ev Et) as Hch.
      destruct (proj1 (HN2 pgd (take 3 (digits vp)) eq_refl)) as [?|[_ []]]; [by eexists|done].
    + right. unfold pt_view. rewrite <- (ex_views _ _ _ _ _ HX pgd (digits vp) Hr) by apply digits_wf.
      change (digits vp) with ([vp / 2 ^ 27 mod 512; vp / 2 ^ 18 mod 512] ++ [vp / 2 ^ 9 mod 512; vp mod 512]).
      rewrite (walk_reaches _ T2 _ _ c2) by (done || apply HX). unfold leaf_walk; fold leaf_walk. rewrite Een, Ev, Et. by eexists.
  - rewrite (store_spec s2 c2 es) by (done || specialize (Hb (vp / 2 ^ 9)); lia). rewrite some_bind. eexists _, KERNEL_OK. split; [done|]. split; [apply HX|left].
    split; [done|]. split.
    + intros v Hv Ev'. unfold pt_view. rewrite <- (ex_views _ _ _ _ _ HX pgd (digits v) Hr) by apply digits_wf.
      destruct (proj2 (prefix_block vp v Hvp Hv) Ev') as [k ->].
      rewrite (walk_reaches _ T2 (vp / 2 ^ 9 mod 512 :: k) [vp / 2 ^ 27 mod 512; vp / 2 ^ 18 mod 512] c2) by (done || apply HX).
      unfold leaf_walk; fold leaf_walk. by rewrite Een, Ev.
    + split; [apply (block_store s s2 T T2 others c2 pgd vp d es); try done; [|congruence]; apply block_word; [done|apply Hok]|].
      intros Hlab. apply (labelled_sub T T2) in Hlab; [|apply HX].
      destruct (labelled_entry _ T2 c2 pgd _ _ e (pi_tree _ _ _ (ex_inv _ _ _ _ _ HX)) Hc2 Hlab Een) as [Ev' _]. congruence.
Qed.

(** ** The other functions *)

Lemma walk_step_spec s T others a r ps i : pt_inv s T others → T !! a = Some (r, ps) → (length ps < 3)%nat → 0 <= i < 512 →
  ∃ e, entry_of (pt_mem s) a i = Some e ∧
    ((PTE_IS_VALID e && PTE_IS_TABLE e = false ∧ walk_step a i s = Some None) ∨
     (PTE_IS_VALID e = true ∧ PTE_IS_TABLE e = true ∧ walk_step a i s = Some (Some (pte_to_table e)) ∧ T !! pte_to_table e = Some (r, ps ++ [i]))).
Proof.
  intros HI Ha Hl Hi. destruct (load_spec s T others a _ i HI Ha Hi) as (es & e & _ & _ & _ & Hw & Een & El). exists e. split; [done|].
  unfold walk_step. rewrite El, some_bind. destruct (PTE_IS_VALID e) eqn:Ev, (PTE_IS_TABLE e) eqn:Et; cbn [negb orb andb]; try by left.
  right. rewrite (proj2 (Z.eqb_neq _ _)) by (apply pte_to_table_ne0; by destruct Hw). split; [done|]. split; [done|]. split; [done|].
  by eapply tr_child; [apply HI|..].
Qed.

(** The walk of the code finds exactly the pages. *)
Lemma walk_leaf_spec s T others pgd va : pt_inv s T others → is_root T pgd →
  (walk_leaf pgd va s = Some None ∧ ∀ e, pt_view s pgd (vpage va) ≠ Some (LPage e)) ∨
  ∃ c e es, walk_leaf pgd va s = Some (Some (walk_table c (u32 (vpage va mod 512)), e)) ∧ pt_view s pgd (vpage va) = Some (LPage e) ∧ word e ∧
    T !! c = Some (pgd, [vpage va / 2 ^ 27 mod 512; vpage va / 2 ^ 18 mod 512; vpage va / 2 ^ 9 mod 512]) ∧
    pt_mem s !! c = Some es ∧ length es = 512%nat.
Proof.
  intros HI Hr. destruct (path_of va) as (E0 & E1 & E2 & E3). set (vp := vpage va) in *.
  assert (∀ x, 0 <= x mod 512 < 512) as Hb by (intros; apply Z.mod_pos_bound; lia).
  assert (∀ a i j js, pt_view s pgd vp = leaf_walk (pt_mem s) a (i :: j :: js) → ∀ e, entry_of (pt_mem s) a i = Some e →
    PTE_IS_VALID e && PTE_IS_TABLE e = false → ∀ e', pt_view s pgd vp ≠ Some (LPage e')) as Hnone.
  { intros a i j js Hv e E Hvt e' H. rewrite H in Hv. unfold leaf_walk in Hv; fold leaf_walk in Hv. rewrite E in Hv.
    destruct (PTE_IS_VALID e); [|done]. by destruct (PTE_IS_TABLE e). }
  unfold walk_leaf. rewrite E0, E1, E2, E3.
  destruct (walk_step_spec s T others pgd pgd [] _ HI Hr ltac:(cbn; lia) (Hb (vp / 2 ^ 27))) as (e0 & Ee0 & [[Hvt E]|(V0 & T0 & E & H0)]);
    rewrite E, some_bind; [left; split; [done|by eapply Hnone]|].
  assert (pt_view s pgd vp = leaf_walk (pt_mem s) (pte_to_table e0) [vp / 2 ^ 18 mod 512; vp / 2 ^ 9 mod 512; vp mod 512]) as W0
    by (unfold pt_view, digits, leaf_walk; fold leaf_walk; by rewrite Ee0, V0, T0).
  destruct (walk_step_spec s T others _ pgd _ _ HI H0 ltac:(cbn; lia) (Hb (vp / 2 ^ 18))) as (e1 & Ee1 & [[Hvt E']|(V1 & T1 & E' & H1)]);
    rewrite E', some_bind; [left; split; [done|by eapply Hnone]|].
  assert (pt_view s pgd vp = leaf_walk (pt_mem s) (pte_to_table e1) [vp / 2 ^ 9 mod 512; vp mod 512]) as W1
    by (rewrite W0; unfold leaf_walk; fold leaf_walk; by rewrite Ee1, V1, T1).
  destruct (walk_step_spec s T others _ pgd _ _ HI H1 ltac:(cbn; lia) (Hb (vp / 2 ^ 9))) as (e2 & Ee2 & [[Hvt E'']|(V2 & T2 & E'' & H2)]);
    rewrite E'', some_bind; [left; split; [done|by eapply Hnone]|].
  assert (pt_view s pgd vp = leaf_walk (pt_mem s) (pte_to_table e2) [vp mod 512]) as W2
    by (rewrite W1; unfold leaf_walk; fold leaf_walk; by rewrite Ee2, V2, T2).
  destruct (load_spec s T others _ _ (vp mod 512) HI H2 (Hb _)) as (es & e & Ees & Hlen & _ & Hw & Een & El).
  rewrite El, some_bind. rewrite W2. unfold leaf_walk. rewrite Een. destruct (PTE_IS_VALID e); cbn [negb]; [right|by left].
  exists (pte_to_table e2), e, es. done.
Qed.

Lemma lookup_spec s T others pgd va : pt_inv s T others → is_root T pgd →
  page_table_lookup pgd va true s =
  Some match pt_view s pgd (vpage va) with Some (LPage e) => (KERNEL_OK, Some (PTE_PADDR e)) | _ => (- ENOENT, None) end.
Proof using HL H48.
  intros HI Hr. unfold page_table_lookup. rewrite (proj2 (Z.eqb_neq _ _)) by (by eapply table_ne0). cbn [orb negb].
  destruct (walk_leaf_spec s T others pgd va HI Hr) as [[E Hno]|(c & e & es & E & Hv & _)]; rewrite E, some_bind.
  - destruct (pt_view s pgd (vpage va)) as [[e|e]|]; [by destruct (Hno e)|done..].
  - by rewrite Hv.
Qed.

(** Unmapping and protection store [e'] where the page is and flush. *)
Lemma leaf_store s T others pgd va c e es e' : pt_inv s T others → is_root T pgd →
  T !! c = Some (pgd, [vpage va / 2 ^ 27 mod 512; vpage va / 2 ^ 18 mod 512; vpage va / 2 ^ 9 mod 512]) →
  pt_mem s !! c = Some es → length es = 512%nat → word e' → pt_view s pgd (vpage va) = Some (LPage e) →
  ∃ s', (s ← store_entry (walk_table c (u32 (vpage va mod 512))) e' s; Some (tlb_flush_all s, KERNEL_OK)) = Some (s', KERNEL_OK) ∧ tlb s' = [] ∧
    updated s s' T others pgd (λ vp, vp =? vpage va) (if PTE_IS_VALID e' then Some (LPage e') else None) nowhere.
Proof.
  intros HI Hr Hc Ees Hlen Hw Hv. assert (0 <= vpage va mod 512 < 512) by (apply Z.mod_pos_bound; lia).
  rewrite (store_spec s c es) by (done || lia). rewrite some_bind. eexists. split; [done|]. split; [done|].
  destruct (page_store s s T T others c pgd (vpage va) e' es nowhere (ext_refl _ _ _ HI) (grew_refl _ _) (vpage_range va) Hc Ees Hlen Hw) as (T' & HI' & Hrt & Hgr & Hvw).
  exists T'. split; [by apply inv_tlb|]. done.
Qed.

Lemma unmap_spec s T others pgd va : pt_inv s T others → is_root T pgd →
  ∃ s' st, page_table_unmap pgd va s = Some (s', st) ∧
    match pt_view s pgd (vpage va) with
    | Some (LPage _) => st = KERNEL_OK ∧ tlb s' = [] ∧ updated s s' T others pgd (λ vp, vp =? vpage va) None nowhere
    | _ => st = - ENOENT ∧ s' = s
    end.
Proof using HL H48.
  intros HI Hr. unfold page_table_unmap. rewrite (proj2 (Z.eqb_neq _ _)) by (by eapply table_ne0).
  destruct (walk_leaf_spec s T others pgd va HI Hr) as [[E Hno]|(c & e & es & E & Hv & Hw & Hc & Ees & Hlen)]; rewrite E, some_bind.
  - exists s, (- ENOENT). split; [done|]. destruct (pt_view s pgd (vpage va)) as [[e|e]|]; [by destruct (Hno e)|done..].
  - destruct (leaf_store s T others pgd va c e es 0 HI Hr Hc Ees Hlen ltac:(by split) Hv) as (s' & Es & Ht & Hu).
    exists s', KERNEL_OK. split; [exact Es|]. rewrite Hv. done.
Qed.

Lemma protect_spec s T others pgd va perm : pt_inv s T others → is_root T pgd →
  ∃ s' st, page_table_protect pgd va perm s = Some (s', st) ∧
    match pt_view s pgd (vpage va) with
    | Some (LPage e) => st = KERNEL_OK ∧ tlb s' = [] ∧
        updated s s' T others pgd (λ vp, vp =? vpage va)
          (Some (LPage (PTE_MAKE (PTE_PADDR e) (compute_pte_attr perm (negb (Z.land e PTE_NG =? 0)))))) nowhere
    | _ => st = - ENOENT ∧ s' = s
    end.
Proof using HL H48.
  intros HI Hr. unfold page_table_protect. rewrite (proj2 (Z.eqb_neq _ _)) by (by eapply table_ne0).
  destruct (walk_leaf_spec s T others pgd va HI Hr) as [[E Hno]|(c & e & es & E & Hv & Hw & Hc & Ees & Hlen)]; rewrite E, some_bind.
  - exists s, (- ENOENT). split; [done|]. destruct (pt_view s pgd (vpage va)) as [[e|e]|]; [by destruct (Hno e)|done..].
  - set (d := PTE_MAKE (PTE_PADDR e) _). destruct (compute_pte_attr_ok perm (negb (Z.land e PTE_NG =? 0))) as (_ & Hva & _ & Hwa).
    assert (word d) as Hd by (apply pte_make_word; [unfold PTE_PADDR; by apply land_word|done]).
    destruct (leaf_store s T others pgd va c e es d HI Hr Hc Ees Hlen Hd Hv) as (s' & Es & Ht & Hu).
    exists s', KERNEL_OK. split; [exact Es|]. rewrite Hv. split; [done|]. split; [done|]. by unfold d in *; rewrite pte_make_valid in Hu.
Qed.

(** ** Releasing a root, and the other clients *)

Lemma free_root_spec s T others r : pt_inv s T others → is_root T r →
  ∃ m, page_table_free r s = Some (upd_ptpm m s) ∧ pt_inv (upd_ptpm m s) (filter (λ p, p.2.1 ≠ r) T) others.
Proof using HL H48.
  intros HI Hr. pose proof HI as [HT (live & HR & Hsub & Htab) Hroots]. destruct (Htab r _ Hr) as (p & Er & Hlp & Hop).
  destruct (page_range _ _ p 0 HR Hlp) as [Hp _]. unfold page_table_free. rewrite (proj2 (Z.eqb_neq _ _)) by (by eapply table_ne0).
  rewrite Er, virt_phys by lia. destruct (give_pages_spec _ live p 0 HR Hlp) as (m & E & HR'). exists m.
  unfold phys_mem_free_page. rewrite E, some_bind. split; [done|]. rewrite <- Er. split; cbn [pt_mem pt_pm upd_ptpm].
  - by apply tree_drop.
  - exists (delete p live). split; [done|]. split.
    + apply map_subseteq_spec. intros q k Hq. rewrite lookup_delete_ne by congruence. by eapply lookup_weaken.
    + intros a nd [Ha Hnd]%map_lookup_filter_Some. destruct (Htab a nd Ha) as (q & Ea & Hlq & Hoq). exists q. split; [done|]. split; [|done].
      rewrite lookup_delete_ne; [done|]. intros ->. rewrite Ea, <- Er, Hr in Ha. injection Ha as <-. by cbn in Hnd.
  - intros a q ps [Ha Hq]%map_lookup_filter_Some. apply map_lookup_filter_Some. split; [by eapply Hroots|exact Hq].
Qed.

Lemma take_inv s T others ord : pt_inv s T others → 0 <= ord →
  phys_mem_alloc_pages ord (pt_pm s) = Some (pt_pm s, 0) ∨
  ∃ m p, phys_mem_alloc_pages ord (pt_pm s) = Some (m, p) ∧ p ≠ 0 ∧ others !! p = None ∧ pt_inv (upd_ptpm m s) T (<[p := ord]> others).
Proof using HL.
  intros [HT (live & HR & Hsub & Htab) Hroots] Hord.
  destruct (take_pages_spec _ live ord HR Hord) as [E|(m & p & E & Hp & Hno & HR')]; [by left|right].
  exists m, p. split; [done|]. split; [done|]. split; [by eapply lookup_weaken_None|]. split; [done| |done]. exists (<[p := ord]> live). split; [done|].
  split; [by apply insert_mono|]. intros a nd Ha. destruct (Htab a nd Ha) as (q & -> & Hlq & Hoq). exists q. split; [done|].
  rewrite !lookup_insert_ne by congruence. done.
Qed.

Lemma give_inv s T others p ord : pt_inv s T others → others !! p = Some ord →
  ∃ m, phys_mem_free_pages p ord (pt_pm s) = Some m ∧ pt_inv (upd_ptpm m s) T (delete p others).
Proof using HL.
  intros [HT (live & HR & Hsub & Htab) Hroots] Hp. pose proof (lookup_weaken _ _ _ _ Hp Hsub) as Hlp.
  destruct (give_pages_spec _ live p ord HR Hlp) as (m & E & HR'). exists m. split; [done|]. split; [done| |done].
  exists (delete p live). split; [done|]. split; [by apply delete_mono|]. intros a nd Ha. destruct (Htab a nd Ha) as (q & -> & Hlq & Hoq).
  exists q. split; [done|]. rewrite !lookup_delete_ne by congruence. done.
Qed.
End ops.
