(* ===== verification/PageTableTheorems.v ===== *)
(** * What the page tables promise

    Runs of page table calls, interleaved with the other clients of the page
    allocator and with a translation cache that may load a translation at any
    time.  The specification is, per root, a map from pages to descriptors and the
    set of the 2 MB ranges that have a last-level table. *)

From S2P Require Import Prelude KList PhysMem Buddy BuddyInv BuddyOps BuddyInit BuddyTheorems.
From S2P Require Import PageTable PageTableInv PageTableOps.

Set Default Goal Selector "!".

#[local] Arguments Z.pow : simpl never.
#[local] Arguments leaf_walk : simpl never.
#[local] Arguments digits : simpl never.

(** ** Runs *)

Inductive pt_op :=
  | PNew
  | PFreeRoot (pgd : Z)
  | PMap (pgd va pa perm : Z) (u : bool)
  | PMapBlock (pgd va pa perm : Z) (u : bool)
  | PUnmap (pgd va : Z)
  | PLookup (pgd va : Z)
  | PProtect (pgd va perm : Z)
  | PFlushAsid (asid : Z)
  | PFlushAll
  | PFill (asid pgd vp : Z)
  | PTake (ord : Z)
  | PGive (p ord : Z).

Definition leaf_desc (l : leaf) : Z := match l with LPage d | LBlock d => d end.

(** The cache loads the translation of a page, if there is one. *)
Definition tlb_fill (asid pgd vp : Z) (s : ptm) : ptm :=
  match pt_view s pgd vp with
  | Some l => upd_tlb (TlbEntry asid (Some pgd) vp (leaf_desc l) :: tlb s) s
  | None => s
  end.

(** A root is freed: its translations stay in the cache, [page_table_free] does
    not flush, and are no longer accounted for. *)
Definition orphan (pgd : Z) (t : tlb_entry) : tlb_entry :=
  if decide (te_root t = Some pgd) then TlbEntry (te_asid t) None (te_page t) (te_desc t) else t.
Definition tlb_orphan (pgd : Z) (s : ptm) : ptm := upd_tlb (orphan pgd <$> tlb s) s.

Notation with_status r := (r ≫= λ x, Some (x.1, (x.2, None))) (only parsing).
Notation with_unit r := (r ≫= λ x, Some (x, (KERNEL_OK, None))) (only parsing).

(** The state after a call, with its result. *)
Definition run_pt (o : pt_op) (s : ptm) : option (ptm * (Z * option Z)) :=
  match o with
  | PNew => with_status (page_table_alloc s)
  | PFreeRoot pgd => with_unit (s ← page_table_free pgd s; Some (tlb_orphan pgd s))
  | PMap pgd va pa perm u => with_status (page_table_map pgd va pa perm u s)
  | PMapBlock pgd va pa perm u => with_status (page_table_map_block pgd va pa perm u s)
  | PUnmap pgd va => with_status (page_table_unmap pgd va s)
  | PLookup pgd va => r ← page_table_lookup pgd va true s; Some (s, r)
  | PProtect pgd va perm => with_status (page_table_protect pgd va perm s)
  | PFlushAsid asid => Some (tlb_flush_asid asid s, (KERNEL_OK, None))
  | PFlushAll => Some (tlb_flush_all s, (KERNEL_OK, None))
  | PFill asid pgd vp => Some (tlb_fill asid pgd vp s, (KERNEL_OK, None))
  | PTake ord => with_status (r ← phys_mem_alloc_pages ord (pt_pm s); Some (upd_ptpm r.1 s, r.2))
  | PGive p ord => with_unit (m ← phys_mem_free_pages p ord (pt_pm s); Some (upd_ptpm m s))
  end.

(** What the callers know: the roots they created and the blocks they hold. *)
Record clients := Clients { c_roots : gset Z; c_others : gmap Z Z }.

(** Calls name a root that was created and not freed, and give back blocks they
    hold.  The cache loads translations of any root under any identifier. *)
Definition pt_op_ok (o : pt_op) (s : ptm) (c : clients) : Prop :=
  match o with
  | PFreeRoot pgd => pgd ∈ c_roots c
  | PMap pgd va pa perm u | PMapBlock pgd va pa perm u => pgd ∈ c_roots c ∧ word pa
  | PUnmap pgd va | PLookup pgd va | PProtect pgd va _ => pgd ∈ c_roots c
  | PFill asid pgd vp => pgd ∈ c_roots c ∧ 0 <= vp < 2 ^ 36
  | PTake ord => 0 <= ord
  | PGive p ord => c_others c !! p = Some ord
  | _ => True
  end.

Definition clients_after (o : pt_op) (v : Z) (c : clients) : clients :=
  match o with
  | PNew => if v =? 0 then c else Clients ({[v]} ∪ c_roots c) (c_others c)
  | PFreeRoot pgd => Clients (c_roots c ∖ {[pgd]}) (c_others c)
  | PTake ord => if v =? 0 then c else Clients (c_roots c) (<[v := ord]> (c_others c))
  | PGive p ord => Clients (c_roots c) (delete p (c_others c))
  | _ => c
  end.

Inductive pt_reach (base n : Z) : ptm → clients → Prop :=
  | pt_start image m : pm_static image → phys_mem_init base (n * CONFIG_PAGE_SIZE) image = Some (m, KERNEL_OK) →
      pt_reach base n (PTM m ∅ 0 []) (Clients ∅ ∅)
  | pt_step s c o s' v : pt_reach base n s c → pt_op_ok o s c → run_pt o s = Some (s', v) → pt_reach base n s' (clients_after o v.1 c).

(** ** The specification *)

Notation view := (Z → Z → option leaf).

Definition unchanged (R : gset Z) (V V' : view) : Prop := ∀ r vp, r ∈ R → 0 <= vp < 2 ^ 36 → V' r vp = V r vp.

Definition changed (R : gset Z) (V V' : view) (pgd : Z) (P : Z → bool) (l : option leaf) : Prop :=
  ∀ r vp, r ∈ R → 0 <= vp < 2 ^ 36 → V' r vp = if (r =? pgd) && P vp then l else V r vp.

(** The abstract state: the maps, the 2 MB ranges that have a last-level table, and
    whether the page allocator has no page left. *)
Record pt_abs := PtAbs { a_view : view; a_split : Z → Z → bool; a_full : bool }.

Definition pt_abstract (s : ptm) : pt_abs := PtAbs (pt_view s) (pt_split s) (no_page s).

(** Root [pgd] has new last-level tables for the pages [P]. *)
Definition splits (R : gset Z) (S S' : Z → Z → bool) (pgd : Z) (P : Z → bool) : Prop :=
  ∀ r vp, r ∈ R → 0 <= vp < 2 ^ 36 → S' r vp = ((r =? pgd) && P vp) || S r vp.

Definition stays (R : gset Z) (A A' : pt_abs) : Prop :=
  unchanged R (a_view A) (a_view A') ∧ ∀ r vp, r ∈ R → 0 <= vp < 2 ^ 36 → a_split A' r vp = a_split A r vp.

(** The pages [P] of [pgd] become [l], and [N] get last-level tables. *)
Definition becomes (R : gset Z) (A A' : pt_abs) (pgd : Z) (P : Z → bool) (l : option leaf) (N : Z → bool) : Prop :=
  changed R (a_view A) (a_view A') pgd P l ∧ splits R (a_split A) (a_split A') pgd N.

Definition same_block (va vp : Z) : bool := vp / 512 =? vpage va / 512.

(** The result and the new abstract state of each call, from the state before it.
    ENOMEM comes only when a table is missing and no page is left. *)
Definition pt_spec (R : gset Z) (o : pt_op) (v : Z * option Z) (A A' : pt_abs) : Prop :=
  match o with
  | PNew => stays R A A' ∧ (v.1 = 0 ↔ a_full A = true) ∧ (v.1 ≠ 0 → v.1 ∉ R ∧ ∀ vp, a_view A' v.1 vp = None ∧ a_split A' v.1 vp = false)
  | PFreeRoot pgd => stays (R ∖ {[pgd]}) A A'
  | PMap pgd va pa perm u =>
      match a_view A pgd (vpage va) with
      | Some _ => v.1 = - EEXIST ∧ stays R A A'
      | None =>
          (v.1 = KERNEL_OK ∧ becomes R A A' pgd (λ vp, vp =? vpage va) (Some (LPage (PTE_MAKE pa (compute_pte_attr perm u)))) (same_block va)) ∨
          (v.1 = - ENOMEM ∧ a_split A pgd (vpage va) = false ∧ a_full A' = true ∧ stays R A A')
      end
  | PMapBlock pgd va pa perm u =>
      if a_split A pgd (vpage va) || bool_decide (is_Some (a_view A pgd (vpage va))) then v.1 = - EEXIST ∧ stays R A A'
      else
        (v.1 = KERNEL_OK ∧ (∀ vp, 0 <= vp < 2 ^ 36 → vp / 512 = vpage va / 512 → a_view A pgd vp = None) ∧
         becomes R A A' pgd (same_block va) (Some (LBlock (Z.land pa (page_mask PAGE_SIZE_2M) .| compute_pte_attr perm u))) (λ _, false)) ∨
        (v.1 = - ENOMEM ∧ a_full A' = true ∧ stays R A A')
  | PUnmap pgd va =>
      match a_view A pgd (vpage va) with
      | Some (LPage _) => v.1 = KERNEL_OK ∧ becomes R A A' pgd (λ vp, vp =? vpage va) None (λ _, false)
      | _ => v.1 = - ENOENT ∧ stays R A A'
      end
  | PLookup pgd va =>
      stays R A A' ∧
      v = match a_view A pgd (vpage va) with Some (LPage e) => (KERNEL_OK, Some (PTE_PADDR e)) | _ => (- ENOENT, None) end
  | PProtect pgd va perm =>
      match a_view A pgd (vpage va) with
      | Some (LPage e) => v.1 = KERNEL_OK ∧ becomes R A A' pgd (λ vp, vp =? vpage va)
          (Some (LPage (PTE_MAKE (PTE_PADDR e) (compute_pte_attr perm (negb (Z.land e PTE_NG =? 0)))))) (λ _, false)
      | _ => v.1 = - ENOENT ∧ stays R A A'
      end
  | _ => stays R A A'
  end.

(** ** The invariant of runs *)

(** A translation that was read through a root in use is the one its tables hold. *)
Definition tlb_ok (s : ptm) (R : gset Z) : Prop :=
  ∀ t r, t ∈ tlb s → te_root t = Some r → r ∈ R ∧ 0 <= te_page t < 2 ^ 36 ∧ ∃ l, pt_view s r (te_page t) = Some l ∧ leaf_desc l = te_desc t.

Lemma tlb_keep s s' (R R' : gset Z) : tlb_ok s R → (∀ t r, t ∈ tlb s' → te_root t = Some r → t ∈ tlb s ∧ (r ∈ R → r ∈ R')) →
  (∀ r vp, r ∈ R → 0 <= vp < 2 ^ 36 → is_Some (pt_view s r vp) → r ∈ R' → pt_view s' r vp = pt_view s r vp) → tlb_ok s' R'.
Proof.
  intros Hok Hsub Hv t r Ht Hr0. destruct (Hsub t r Ht Hr0) as [Ht0 HR]. destruct (Hok t r Ht0 Hr0) as (Hr & Hp & l & E & Hl).
  split; [auto|]. split; [done|]. exists l. split; [|done]. rewrite Hv by (done || auto). done.
Qed.

Lemma tlb_nil s R : tlb s = [] → tlb_ok s R.
Proof. intros E t r Ht. rewrite E in Ht. by apply elem_of_nil in Ht. Qed.

Lemma stays_mem (R : gset Z) s s' : pt_mem s' = pt_mem s → stays R (pt_abstract s) (pt_abstract s').
Proof. intros E. unfold stays, unchanged, pt_abstract, pt_view, pt_split. cbn. by rewrite E. Qed.

Lemma no_page_true s : phys_mem_alloc_page (pt_pm s) = Some (pt_pm s, 0) → no_page s = true.
Proof. unfold no_page. by intros ->. Qed.

Lemma bool_eq_iff (a b : bool) : (a = true ↔ b = true) → a = b.
Proof. destruct a, b; naive_solver. Qed.

Section runs.
Context (base n : Z) (HL : mem_layout base n) (H48 : base + n * CONFIG_PAGE_SIZE <= 2 ^ 48).

Definition pt_good (s : ptm) (c : clients) : Prop :=
  ∃ T, pt_inv base n s T (c_others c) ∧ (∀ r, r ∈ c_roots c ↔ is_root T r) ∧ tlb_ok s (c_roots c).

Lemma ext_good s s' T T' c r : pt_inv base n s T (c_others c) → (∀ r, r ∈ c_roots c ↔ is_root T r) → tlb_ok s (c_roots c) →
  ext base n s s' T T' (c_others c) → grew T T' r (λ _, False) → pt_good s' c ∧ stays (c_roots c) (pt_abstract s) (pt_abstract s').
Proof.
  intros HI HR Htlb HE HG. assert (unchanged (c_roots c) (pt_view s) (pt_view s')) as Hun.
  { intros q vp Hr Hvp. unfold pt_view. apply (ex_views _ _ _ _ _ _ _ HE); [by apply HR|apply digits_wf..]. }
  split.
  - exists T'. split; [apply HE|]. split.
    + intros q. rewrite HR. symmetry. by eapply ext_root.
    + eapply tlb_keep; [done| |intros q vp Hr Hvp _ _; by apply Hun]. intros t q. by rewrite (ex_tlb _ _ _ _ _ _ _ HE).
  - split; [done|]. intros q vp Hq _. cbn. apply bool_eq_iff. apply HR in Hq.
    rewrite (split_grew base n s s' T T' (c_others c) r _ q vp HI (ex_inv _ _ _ _ _ _ _ HE) HG Hq) by by eapply (ext_root base n). tauto.
Qed.

Lemma updated_good s s' T c r P l L N : pt_inv base n s T (c_others c) → (∀ q, q ∈ c_roots c ↔ is_root T q) → tlb_ok s (c_roots c) →
  updated base n s s' T (c_others c) r P l L → (∀ vp, 0 <= vp < 2 ^ 36 → L (take 3 (digits vp)) ↔ N vp = true) →
  tlb s' = [] ∨ (tlb s' = tlb s ∧ ∀ vp, 0 <= vp < 2 ^ 36 → P vp = true → pt_view s r vp = None) →
  pt_good s' c ∧ becomes (c_roots c) (pt_abstract s) (pt_abstract s') r P l N.
Proof.
  intros HI HR Htlb (T' & HI' & Hrt & HG & Hv) HN Ht. assert (changed (c_roots c) (pt_view s) (pt_view s') r P l) as Hch.
  { intros q vp Hq Hvp. apply Hv; [by apply HR|done]. }
  split; [|split; [done|]].
  - exists T'. split; [done|]. split; [intros q; by rewrite HR, Hrt|].
    destruct Ht as [?|[Ht Hnone]]; [by apply tlb_nil|]. eapply tlb_keep; [done|by intros t q; rewrite Ht|].
    intros q vp Hq Hvp [x Hx] _. rewrite Hch by done. destruct (Z.eqb_spec q r) as [->|]; [|done]. destruct (P vp) eqn:EP; [|done].
    by rewrite Hnone in Hx.
  - intros q vp Hq Hvp. cbn. apply bool_eq_iff. apply HR in Hq.
    rewrite (split_grew base n s s' T T' (c_others c) r L q vp HI HI' HG Hq) by by apply Hrt.
    rewrite orb_true_iff, andb_true_iff, Z.eqb_eq, HN by done. tauto.
Qed.

Lemma fill_good s c asid pgd vp : pt_good s c → pgd ∈ c_roots c → 0 <= vp < 2 ^ 36 → pt_good (tlb_fill asid pgd vp s) c.
Proof.
  intros (T & HI & HR & Htlb) Hr Hvp. exists T. unfold tlb_fill. destruct (pt_view s pgd vp) as [l|] eqn:E; [|done].
  split; [by apply inv_tlb|]. split; [done|]. intros t r [->|Ht]%elem_of_cons Er; [|by apply Htlb]. injection Er as <-.
  split; [done|]. split; [done|]. by exists l.
Qed.

Definition call_meets (o : pt_op) (s : ptm) (c : clients) : Prop :=
  ∃ s' v, run_pt o s = Some (s', v) ∧ pt_good s' (clients_after o v.1 c) ∧ pt_spec (c_roots c) o v (pt_abstract s) (pt_abstract s').

Lemma new_ok s c : pt_good s c → call_meets PNew s c.
Proof using HL H48.
  intros HG. pose proof HG as (T & HI & HR & Htlb). unfold call_meets. cbn [run_pt clients_after pt_spec].
  destruct (new_root_spec base n HL H48 s T _ HI) as [[E Ep]|(s' & r & E & Hr0 & Hr & HI' & Hv & Hnew & Ht)]; rewrite E, some_bind; cbn [fst snd].
  - exists s, (0, None). cbn. rewrite no_page_true by done. done.
  - exists s', (r, None). cbn [fst]. rewrite (proj2 (Z.eqb_neq _ _)) by done. split; [done|].
    assert (unchanged (c_roots c) (pt_view s) (pt_view s')) as Hun by (intros q vp Hq _; apply Hv; [by apply HR|apply digits_wf..]).
    set (T' := <[r := (r, [])]> T) in *.
    assert (grew T T' r (λ _, False)) as HGr.
    { intros q js Hl. unfold labelled, T'. split.
      - intros [a [[_ [= <- <-]]|[_ Ha]]%lookup_insert_Some]; [done|left; by exists a].
      - intros [[a Ha]|[_ []]]. exists a. rewrite lookup_insert_ne; [done|congruence]. }
    assert (∀ q, is_root T q → is_root T' q) as Hrt by (intros q Hq; unfold is_root, T' in *; rewrite lookup_insert_ne; [done|congruence]).
    assert (no_page s = false) as Hnp.
    { unfold page_table_alloc in E. unfold no_page. destruct (phys_mem_alloc_page (pt_pm s)) as [[m p]|]; [|done]. rewrite some_bind in E.
      destruct (p =? 0); [|done]. by injection E as <- <-. }
    split; [|split; [|split]].
    + exists T'. split; [done|]. cbn [c_roots]. split.
      * intros q. rewrite elem_of_union, elem_of_singleton, HR. unfold is_root, T'. destruct (decide (q = r)) as [->|Hne].
        -- rewrite lookup_insert_eq. tauto.
        -- rewrite lookup_insert_ne by done. tauto.
      * eapply tlb_keep; [done| |intros q vp Hq Hvp _ _; by apply Hun]. intros t q. rewrite Ht. set_solver.
    + split; [done|]. intros q vp Hq _. cbn. apply bool_eq_iff. apply HR in Hq.
      rewrite (split_grew base n s s' T T' (c_others c) r _ q vp HI HI' HGr Hq) by auto. tauto.
    + cbn. rewrite Hnp. done.
    + intros _. split; [rewrite HR; unfold is_root; congruence|]. intros vp. split; [apply Hnew|]. cbn. apply not_true_is_false.
      rewrite (split_label base n s' T') by (done || apply lookup_insert_eq). intros [Hl|[_ []]]%HGr; [|done]. destruct Hl as [a Ha].
      pose proof (pi_roots _ _ _ _ _ HI a r _ Ha). congruence.
Qed.

Lemma free_root_ok s c pgd : pt_good s c → pt_op_ok (PFreeRoot pgd) s c → call_meets (PFreeRoot pgd) s c.
Proof using HL H48.
  intros (T & HI & HR & Htlb) Hr. unfold call_meets. cbn [run_pt clients_after pt_spec pt_op_ok] in *.
  destruct (free_root_spec base n HL H48 s T _ pgd HI (proj1 (HR _) Hr)) as (m & E & HI'). rewrite E, !some_bind.
  eexists _, _. split; [done|]. split; [|by apply stays_mem]. exists (filter (λ p, p.2.1 ≠ pgd) T). split; [by apply inv_tlb|]. cbn [c_roots]. split.
  - intros q. rewrite elem_of_difference, elem_of_singleton, HR. unfold is_root. rewrite map_lookup_filter_Some. cbn. tauto.
  - cbn. intros t r (t0 & -> & Ht0)%list_elem_of_fmap. unfold orphan. case_decide as Hd; [done|]. intros Er.
    destruct (Htlb t0 r Ht0 Er) as (Hin & Hrest). split; [|done]. apply elem_of_difference. split; [done|]. rewrite elem_of_singleton. congruence.
Qed.

Lemma take3_block va vp : 0 <= vp < 2 ^ 36 → take 3 (digits vp) = take 3 (digits (vpage va)) ↔ same_block va vp = true.
Proof.
  intros Hvp. unfold same_block. rewrite Z.eqb_eq. rewrite <- (prefix_block (vpage va) vp (vpage_range va) Hvp). unfold digits. cbn [take]. split.
  - intros <-. by eexists.
  - intros [k Hk]. injection Hk as <- <- <- _. done.
Qed.

Lemma map_ok s c pgd va pa perm u : pt_good s c → pgd ∈ c_roots c → word pa → call_meets (PMap pgd va pa perm u) s c.
Proof using HL H48.
  intros (T & HI & HR & Htlb) Hr Hpa. pose proof (proj1 (HR _) Hr) as Hr'. unfold call_meets. cbn [run_pt clients_after pt_spec].
  destruct (map_spec base n HL H48 s T _ pgd va pa perm u HI Hr' Hpa) as (s' & st & E & Ht & Hcase). rewrite E, some_bind.
  exists s', (st, None). split; [done|]. cbn [fst snd a_view a_split pt_abstract]. destruct Hcase as [(-> & Hnone & Hup)|[(T' & HE & HG) Hst]].
  - destruct (updated_good s s' T c _ _ _ _ (same_block va) HI HR Htlb Hup) as [? ?].
    + intros vp Hvp. by apply take3_block.
    + right. split; [done|]. intros vp _ Evp%Z.eqb_eq. by subst vp.
    + rewrite Hnone. split; [done|by left].
  - destruct (ext_good s s' T T' c _ HI HR Htlb HE HG) as [? ?]. split; [done|].
    destruct Hst as [[-> [l El]]|(-> & El & Hno & Hfull)]; unfold pt_view at 1; rewrite El; [done|right]. split; [done|].
    split; [apply not_true_is_false; by rewrite (split_label base n s T)|]. split; [by apply no_page_true|done].
Qed.

Lemma map_block_ok s c pgd va pa perm u : pt_good s c → pgd ∈ c_roots c → word pa → call_meets (PMapBlock pgd va pa perm u) s c.
Proof using HL H48.
  intros (T & HI & HR & Htlb) Hr Hpa. pose proof (proj1 (HR _) Hr) as Hr'. unfold call_meets. cbn [run_pt clients_after pt_spec].
  destruct (map_block_spec base n HL H48 s T _ pgd va pa perm u HI Hr' Hpa) as (s' & st & E & Ht & Hcase). rewrite E, some_bind.
  exists s', (st, None). split; [done|]. cbn [fst snd a_view a_split pt_abstract].
  assert (¬ labelled T pgd (take 3 (digits (vpage va))) → pt_split s pgd (vpage va) = false) as Hns
    by (intros; apply not_true_is_false; by rewrite (split_label base n s T)).
  destruct Hcase as [(-> & Hnone & Hup & Hno)|[(T' & HE & HG) Hst]].
  - destruct (updated_good s s' T c _ _ _ _ (λ _, false) HI HR Htlb Hup) as [? ?]; [done| |].
    + right. split; [done|]. intros vp Hvp Evp%Z.eqb_eq. by apply Hnone.
    + split; [done|]. rewrite (Hns Hno), (Hnone (vpage va)) by (done || apply vpage_range). cbn [orb]. by left.
  - destruct (ext_good s s' T T' c _ HI HR Htlb HE HG) as [? ?]. split; [done|].
    destruct Hst as [[-> Hex]|(-> & Hno & El & Hfull)].
    + assert (pt_split s pgd (vpage va) || bool_decide (is_Some (pt_view s pgd (vpage va))) = true) as ->; [|done].
      apply orb_true_iff. rewrite bool_decide_eq_true, (split_label base n s T) by done. done.
    + rewrite (Hns Hno), El. cbn [orb]. right. split; [done|]. split; [by apply no_page_true|done].
Qed.

(** Every permitted call returns, keeps the invariant and meets the
    specification. *)
Lemma run_pt_ok o s c : pt_good s c → pt_op_ok o s c → call_meets o s c.
Proof using HL H48.
  intros HG Ho. pose proof HG as (T & HI & HR & Htlb). assert (∀ q, q ∈ c_roots c → is_root T q) as HR' by (intros q; apply HR).
  destruct o as [|pgd|pgd va pa perm u|pgd va pa perm u|pgd va|pgd va|pgd va perm|asid| |asid pgd vp|ord|p ord];
    [by apply new_ok|by apply free_root_ok|destruct Ho; by apply map_ok|destruct Ho; by apply map_block_ok|
     unfold call_meets; cbn [run_pt pt_op_ok clients_after pt_spec a_view pt_abstract] in *..].
  - destruct (unmap_spec base n HL H48 s T _ pgd va HI (HR' _ Ho)) as (s' & st & E & Hcase); rewrite E, some_bind. exists s', (st, None).
    split; [done|]. cbn [fst snd]. destruct (pt_view s pgd (vpage va)) as [[e|e]|]; [|destruct Hcase as [-> ->]; done..].
    destruct Hcase as (-> & Ht & Hup). destruct (updated_good s s' T c _ _ _ _ (λ _, false) HI HR Htlb Hup) as [? ?]; [done|by left|done].
  - rewrite (lookup_spec base n HL H48 s T _ pgd va HI (HR' _ Ho)), some_bind. eexists _, _. split; [done|]. done.
  - destruct (protect_spec base n HL H48 s T _ pgd va perm HI (HR' _ Ho)) as (s' & st & E & Hcase); rewrite E, some_bind. exists s', (st, None).
    split; [done|]. cbn [fst snd]. destruct (pt_view s pgd (vpage va)) as [[e|e]|]; [|destruct Hcase as [-> ->]; done..].
    destruct Hcase as (-> & Ht & Hup). destruct (updated_good s s' T c _ _ _ _ (λ _, false) HI HR Htlb Hup) as [? ?]; [done|by left|done].
  - eexists _, _. split; [done|]. split; [|by apply stays_mem]. exists T. split; [by apply inv_tlb|]. split; [done|].
    eapply tlb_keep; [done| |done]. cbn. intros t r [_ Ht]%list_elem_of_filter. done.
  - eexists _, _. split; [done|]. split; [|by apply stays_mem]. exists T. split; [by apply inv_tlb|]. split; [done|]. by apply tlb_nil.
  - destruct Ho as [Hr Hvp]. eexists _, _. split; [done|]. split; [by apply fill_good|]. apply stays_mem. unfold tlb_fill. by destruct (pt_view s pgd vp).
  - destruct (take_inv base n HL s T _ ord HI Ho) as [E|(m & p & E & Hp & _ & HI')]; rewrite E, !some_bind; cbn [fst snd].
    + eexists _, _. split; [done|]. cbn [fst snd]. split; [|by apply stays_mem]. exists T. by destruct s.
    + eexists _, _. split; [done|]. cbn [fst snd]. rewrite (proj2 (Z.eqb_neq _ _)) by done. split; [|by apply stays_mem]. by exists T.
  - destruct (give_inv base n HL s T _ p ord HI Ho) as (m & E & HI'). rewrite E, !some_bind. eexists _, _. split; [done|].
    split; [|by apply stays_mem]. by exists T.
Qed.

Lemma pt_reach_good s c : pt_reach base n s c → pt_good s c.
Proof using HL H48.
  induction 1 as [image m Hst E|s c o s' v _ IH Ho E].
  - exists ∅. cbn [c_roots c_others]. split; [|split; [|by apply tlb_nil]].
    + split; cbn [pt_mem pt_pm]; [apply tree_empty| |done]. exists ∅. split; [by eapply reach_init|]. split; [done|]. intros a nd Ha. by rewrite lookup_empty in Ha.
    + intros r. unfold is_root. rewrite lookup_empty. set_solver.
  - destruct (run_pt_ok o s c IH Ho) as (s1 & v1 & E1 & HG & _). rewrite E in E1. by injection E1 as <- <-.
Qed.
End runs.

(** ** The theorems *)


(** C7: Page tables are well formed.  In every reachable state the tables below
    the roots form disjoint trees of 64-bit entries: every table has one place,
    every table entry of the upper levels points to the table of its place, and
    each table is a page of its own that no other client holds.  The memory starts
    at a multiple of 8 MB ([mem_layout]). *)
Theorem page_tables_well_formed (base n : Z) (s : ptm) (c : clients) :
  mem_layout base n → base + n * CONFIG_PAGE_SIZE <= 2 ^ 48 → pt_reach base n s c →
  ∃ T, tree (pt_mem s) T ∧ (∀ r, r ∈ c_roots c ↔ T !! r = Some (r, [])) ∧
    ∃ live, pm_reach base n (pt_pm s) live ∧ c_others c ⊆ live ∧
      ∀ a nd, T !! a = Some nd → live !! virt_to_phys a = Some 0 ∧ c_others c !! virt_to_phys a = None.
Proof.
  intros HL H48 HR. destruct (pt_reach_good base n HL H48 s c HR) as (T & [HT (live & Hl & Hsub & Htab) _] & Hroots & _).
  exists T. split; [done|]. split; [done|]. exists live. split; [done|]. split; [done|]. intros a nd Ha.
  destruct (Htab a nd Ha) as (p & -> & Hlp & Hop). destruct (page_range base n HL H48 _ _ _ _ Hl Hlp) as [? _]. by rewrite virt_phys by lia.
Qed.

(** C6: No stale translations of roots in use.  In every reachable state each
    cached translation that was read through a root still in use is the one the
    tables of this root hold now; and a call that unmaps a page or changes its
    rights leaves no translation in the cache at all, whatever its identifier or
    root.  Translations of a freed root may stay behind ([page_table_free] does
    not flush), and which address space uses a translation is not claimed: the
    kernel runs every space under identifier 0. *)
Theorem tlb_coherent (base n : Z) (s : ptm) (c : clients) :
  mem_layout base n → base + n * CONFIG_PAGE_SIZE <= 2 ^ 48 → pt_reach base n s c →
  (∀ t r, t ∈ tlb s → te_root t = Some r → r ∈ c_roots c ∧ leaf_desc <$> pt_view s r (te_page t) = Some (te_desc t)) ∧
  (∀ pgd va s', pgd ∈ c_roots c → page_table_unmap pgd va s = Some (s', KERNEL_OK) → tlb s' = []) ∧
  (∀ pgd va perm s', pgd ∈ c_roots c → page_table_protect pgd va perm s = Some (s', KERNEL_OK) → tlb s' = []).
Proof.
  intros HL H48 HR. destruct (pt_reach_good base n HL H48 s c HR) as (T & HI & Hrt & Htlb). split; [|split].
  - intros t r Ht Er. destruct (Htlb t r Ht Er) as (Hr & _ & l & -> & <-). done.
  - intros pgd va s' Hr E. destruct (unmap_spec base n HL H48 s T _ pgd va HI (proj1 (Hrt _) Hr)) as (s1 & st & E1 & Hcase).
    rewrite E in E1. injection E1 as <- <-. by destruct (pt_view s pgd (vpage va)) as [[e|e]|]; destruct Hcase as [? ?]; try done; naive_solver.
  - intros pgd va perm s' Hr E. destruct (protect_spec base n HL H48 s T _ pgd va perm HI (proj1 (Hrt _) Hr)) as (s1 & st & E1 & Hcase).
    rewrite E in E1. injection E1 as <- <-. by destruct (pt_view s pgd (vpage va)) as [[e|e]|]; destruct Hcase as [? ?]; try done; naive_solver.
Qed.

(** Mapping and looking up are inverse, and so are mapping and unmapping.
    After a page was mapped, looking it up yields its physical address rounded
    down to a page, and unmapping it succeeds and restores every translation of
    every root. *)
Theorem map_lookup_unmap (base n : Z) (s s' : ptm) (c : clients) (pgd va pa perm : Z) (u : bool) :
  mem_layout base n → base + n * CONFIG_PAGE_SIZE <= 2 ^ 48 → pt_reach base n s c → pgd ∈ c_roots c → 0 <= pa < 2 ^ 48 →
  page_table_map pgd va pa perm u s = Some (s', KERNEL_OK) →
  page_table_lookup pgd va true s' = Some (KERNEL_OK, Some (pa - pa mod 4096)) ∧
  ∃ s'', page_table_unmap pgd va s' = Some (s'', KERNEL_OK) ∧ unchanged (c_roots c) (pt_view s) (pt_view s'').
Proof.
  intros HL H48 HR Hr Hpa E. pose proof (pt_reach_good base n HL H48 s c HR) as HG.
  destruct (run_pt_ok base n HL H48 (PMap pgd va pa perm u) s c HG) as (s1 & v & E1 & HG1 & Hsp); [split; [done|split; lia]|].
  cbn [run_pt] in E1. rewrite E, some_bind in E1. injection E1 as <- <-. cbn [clients_after fst pt_spec a_view pt_abstract] in *.
  pose proof (vpage_range va) as Hvp. destruct (pt_view s pgd (vpage va)) eqn:Ev; [by destruct Hsp|].
  destruct Hsp as [[_ [Hch _]]|[? _]]; [|done]. cbn [a_view pt_abstract] in Hch. assert (pt_view s' pgd (vpage va) = Some (LPage (PTE_MAKE pa (compute_pte_attr perm u)))) as Ev'.
  { rewrite (Hch _ _ Hr Hvp). by rewrite !Z.eqb_refl. }
  destruct (run_pt_ok base n HL H48 (PLookup pgd va) s' c HG1 Hr) as (s2 & v2 & E2 & _ & _ & Hv2). cbn [run_pt a_view pt_abstract] in E2, Hv2. split.
  - destruct (page_table_lookup pgd va true s') as [x|]; [|done]. rewrite some_bind in E2. injection E2 as _ ->. rewrite Hv2, Ev'.
    rewrite pte_make_paddr by apply compute_pte_attr_ok. rewrite pte_paddr_div by lia. do 3 f_equal.
    rewrite Z.mod_small by (split; [apply Z.div_pos; lia|apply Z.div_lt_upper_bound; lia]). pose proof (Z.div_mod pa 4096 ltac:(lia)). lia.
  - destruct (run_pt_ok base n HL H48 (PUnmap pgd va) s' c HG1 Hr) as (s3 & v3 & E3 & _ & Hsp3). cbn [run_pt pt_spec a_view pt_abstract] in E3, Hsp3. rewrite Ev' in Hsp3.
    destruct (page_table_unmap pgd va s') as [x|]; [|done]. rewrite some_bind in E3. injection E3 as <- <-. destruct Hsp3 as [Hok [Hch3 _]]. cbn [fst a_view pt_abstract] in Hok, Hch3.
    exists x.1. split; [destruct x; cbn in *; by subst|]. intros r vp Hr' Hvp'. rewrite Hch3, Hch by done.
    destruct (Z.eqb_spec r pgd) as [->|]; [|done]. destruct (Z.eqb_spec vp (vpage va)) as [->|]; by cbn [andb].
Qed.

(** ** Access rights *)

(** The fields of a descriptor that the hardware checks. *)
Definition el0_access (d : Z) : bool := Z.testbit d 6.
Definition read_only (d : Z) : bool := Z.testbit d 7.
Definition execute_never (d : Z) : bool := Z.testbit d 54.

Lemma pte_make_bit pa a k : 0 <= pa < 2 ^ 48 → k ∈ [6; 7; 54] → Z.testbit (PTE_MAKE pa a) k = Z.testbit a k.
Proof.
  intros Hpa Hk. unfold PTE_MAKE. rewrite !Z.lor_spec, Z.land_spec.
  assert (Z.testbit pa 54 = false) as Hhi.
  { destruct (decide (pa = 0)) as [->|]; [done|]. apply Z.bits_above_log2; [lia|]. apply Z.log2_lt_pow2; [lia|].
    assert (2 ^ 48 < 2 ^ 54) by done. lia. }
  rewrite !elem_of_cons, elem_of_nil in Hk. destruct Hk as [->|[->|[->|[]]]]; [..|rewrite Hhi]; cbn; by rewrite ?andb_false_r, orb_false_r.
Qed.

(** Descriptors grant what was asked for.  User code reaches a page exactly
    when it is mapped for user mode; a user page that is not device memory is
    writable exactly when WRITE was asked for, and unless it is shared globally
    executable exactly when EXEC was; device memory is never executable. *)
Theorem pte_rights_faithful (pa perm : Z) (u : bool) :
  0 <= pa < 2 ^ 48 →
  let d := PTE_MAKE pa (compute_pte_attr perm u) in
  el0_access d = u ∧
  (u = true → has perm PAGE_PERM_DEVICE = false → read_only d = negb (has perm PAGE_PERM_WRITE)) ∧
  (u = true → has perm PAGE_PERM_DEVICE = false → has perm PAGE_PERM_GLOBAL = false → execute_never d = negb (has perm PAGE_PERM_EXEC)) ∧
  (has perm PAGE_PERM_DEVICE = true → execute_never d = true).
Proof.
  intros Hpa. unfold el0_access, read_only, execute_never. rewrite !pte_make_bit by (done || set_solver). unfold compute_pte_attr.
  destruct (has perm PAGE_PERM_DEVICE), u, (has perm PAGE_PERM_WRITE), (has perm PAGE_PERM_EXEC), (has perm PAGE_PERM_GLOBAL);
    vm_compute; split_and!; (done || (intros; discriminate)).
Qed.

(** ** A concrete run *)

Definition demo_va : Z := 0x400123.
Definition demo_pa : Z := 0x40805000.
Definition demo_pgd : Z := 0xFFFF000040800000.
Definition RW : Z := Z.lor PAGE_PERM_READ PAGE_PERM_WRITE.

Definition pt_demo0 : ptm := PTM demo_init ∅ 0 [].
Definition pt_run1 (o : pt_op) (s : ptm) : ptm := default s (fst <$> run_pt o s).
Definition pt_demo1 : ptm := pt_run1 PNew pt_demo0.
Definition pt_demo2 : ptm := pt_run1 (PMap demo_pgd demo_va demo_pa RW true) pt_demo1.
Definition pt_demo3 : ptm := pt_run1 (PFill 1 demo_pgd (vpage demo_va)) pt_demo2.
Definition demo_clients : clients := Clients {[demo_pgd]} ∅.

Lemma run1_eq o s v : snd <$> run_pt o s = Some v → run_pt o s = Some (pt_run1 o s, v).
Proof. unfold pt_run1. destruct (run_pt o s) as [[x y]|]; [intros E; injection E as <-; reflexivity|discriminate 1]. Qed.

Lemma demo_reach0 : pt_reach demo_base 16 pt_demo0 (Clients ∅ ∅).
Proof.
  destruct (init_returns demo_base 16 pm_image demo_pages pm_image_static) as [m E].
  unfold pt_demo0. replace demo_init with m by (unfold demo_init; rewrite E; reflexivity).
  exact (pt_start demo_base 16 pm_image m pm_image_static E).
Qed.

Lemma demo_reach1 : pt_reach demo_base 16 pt_demo1 demo_clients.
Proof.
  assert (demo_clients = clients_after PNew (demo_pgd, @None Z).1 (Clients ∅ ∅)) as -> by (vm_compute; reflexivity).
  apply (pt_step demo_base 16 pt_demo0 _ PNew); [exact demo_reach0|exact I|]. apply run1_eq. vm_compute. reflexivity.
Qed.

Lemma demo_root : demo_pgd ∈ c_roots demo_clients.
Proof. unfold demo_clients. cbn [c_roots]. set_solver. Qed.

Lemma demo_word : word demo_pa.
Proof. split; [discriminate|reflexivity]. Qed.

Lemma demo_reach2 : pt_reach demo_base 16 pt_demo2 demo_clients.
Proof.
  apply (pt_step demo_base 16 pt_demo1 demo_clients (PMap demo_pgd demo_va demo_pa RW true) pt_demo2 (KERNEL_OK, None));
    [exact demo_reach1|exact (conj demo_root demo_word)|]. apply run1_eq. vm_compute. reflexivity.
Qed.

Lemma demo_vpage : 0 <= vpage demo_va < 2 ^ 36.
Proof. apply vpage_range. Qed.

Lemma demo_reach3 : pt_reach demo_base 16 pt_demo3 demo_clients.
Proof.
  apply (pt_step demo_base 16 pt_demo2 demo_clients (PFill 1 demo_pgd (vpage demo_va)) pt_demo3 (KERNEL_OK, None));
    [exact demo_reach2|exact (conj demo_root demo_vpage)|]. apply run1_eq. vm_compute. reflexivity.
Qed.

Lemma demo_below : demo_base + 16 * CONFIG_PAGE_SIZE <= 2 ^ 48.
Proof. vm_compute. discriminate. Qed.


Lemma page_tables_well_formed_witness :
  ∃ T, tree (pt_mem pt_demo3) T ∧ (∀ r, r ∈ c_roots demo_clients ↔ T !! r = Some (r, [])) ∧
    ∃ live, pm_reach demo_base 16 (pt_pm pt_demo3) live ∧ c_others demo_clients ⊆ live ∧
      ∀ a nd, T !! a = Some nd → live !! virt_to_phys a = Some 0 ∧ c_others demo_clients !! virt_to_phys a = None.
Proof. exact (page_tables_well_formed demo_base 16 pt_demo3 demo_clients demo_pages demo_below demo_reach3). Defined.

Definition demo_entry : tlb_entry := TlbEntry 1 (Some demo_pgd) (vpage demo_va) (PTE_MAKE demo_pa PTE_USER_DATA).

Lemma demo_cached : demo_entry ∈ tlb pt_demo3.
Proof. replace (tlb pt_demo3) with [demo_entry] by (vm_compute; reflexivity). by apply list_elem_of_singleton. Qed.

Lemma tlb_coherent_witness :
  demo_pgd ∈ c_roots demo_clients ∧ leaf_desc <$> pt_view pt_demo3 demo_pgd (vpage demo_va) = Some (te_desc demo_entry).
Proof.
  destruct (tlb_coherent demo_base 16 pt_demo3 demo_clients demo_pages demo_below demo_reach3) as [Hco _].
  exact (Hco demo_entry demo_pgd demo_cached eq_refl).
Defined.

Lemma map_of_run pgd va pa perm u s s' st :
  run_pt (PMap pgd va pa perm u) s = Some (s', (st, None)) → page_table_map pgd va pa perm u s = Some (s', st).
Proof. cbn [run_pt]. destruct (page_table_map pgd va pa perm u s) as [[x y]|]; [|done]. intros E. by injection E as -> ->. Qed.

Lemma demo_map : page_table_map demo_pgd demo_va demo_pa RW true pt_demo1 = Some (pt_demo2, KERNEL_OK).
Proof. apply map_of_run, run1_eq. vm_compute. reflexivity. Qed.

Lemma map_lookup_unmap_witness :
  page_table_lookup demo_pgd demo_va true pt_demo2 = Some (KERNEL_OK, Some (demo_pa - demo_pa mod 4096)) ∧
  ∃ s'', page_table_unmap demo_pgd demo_va pt_demo2 = Some (s'', KERNEL_OK) ∧ unchanged (c_roots demo_clients) (pt_view pt_demo1) (pt_view s'').
Proof.
  exact (map_lookup_unmap demo_base 16 pt_demo1 pt_demo2 demo_clients demo_pgd demo_va demo_pa RW true
    demo_pages demo_below demo_reach1 demo_root (conj (Zle_bool_imp_le 0 demo_pa eq_refl) eq_refl) demo_map).
Defined.

Lemma pte_rights_faithful_witness :
  let d := PTE_MAKE demo_pa (compute_pte_attr RW true) in
  el0_access d = true ∧
  (true = true → has RW PAGE_PERM_DEVICE = false → read_only d = negb (has RW PAGE_PERM_WRITE)) ∧
  (true = true → has RW PAGE_PERM_DEVICE = false → has RW PAGE_PERM_GLOBAL = false → execute_never d = negb (has RW PAGE_PERM_EXEC)) ∧
  (has RW PAGE_PERM_DEVICE = true → execute_never d = true).
Proof. exact (pte_rights_faithful demo_pa RW true (conj (Zle_bool_imp_le 0 demo_pa eq_refl) eq_refl)). Defined.

(** ** Behaviour the comments do not announce *)

(** The descriptor of kernel data is documented as never executable, but is the
    one of kernel code; and kernel pages are writable whatever is asked for. *)
Example kernel_data_executable :
  compute_pte_attr PAGE_PERM_READ false = compute_pte_attr PAGE_PERM_EXEC false ∧
  execute_never (PTE_MAKE demo_pa (compute_pte_attr RW false)) = false ∧
  read_only (PTE_MAKE demo_pa (compute_pte_attr PAGE_PERM_READ false)) = false.
Proof. vm_compute. split_and!; reflexivity. Qed.

Fixpoint run_pt_list (os : list pt_op) (s : ptm) : option (list (Z * option Z)) :=
  match os with
  | [] => Some []
  | o :: os => r ← run_pt o s; rs ← run_pt_list os r.1; Some (r.2 :: rs)
  end.

(** A block cannot be looked up, protected or unmapped. *)
Example block_cannot_be_unmapped :
  run_pt_list [PMapBlock demo_pgd 0x200000 0x40800000 RW true; PLookup demo_pgd 0x200000; PProtect demo_pgd 0x200000 PAGE_PERM_READ;
               PUnmap demo_pgd 0x200000; PMap demo_pgd 0x200000 demo_pa RW true] pt_demo1 =
  Some [(KERNEL_OK, None); (- ENOENT, None); (- ENOENT, None); (- ENOENT, None); (- EEXIST, None)].
Proof. vm_compute. reflexivity. Qed.

(** A page that was mapped and unmapped keeps its 2 MB from being mapped as a block:
    the last-level table stays. *)
Example empty_table_refuses_block :
  run_pt_list [PMap demo_pgd 0x200000 demo_pa RW true; PUnmap demo_pgd 0x200000; PMapBlock demo_pgd 0x200000 0x40800000 RW true] pt_demo1 =
  Some [(KERNEL_OK, None); (KERNEL_OK, None); (- EEXIST, None)].
Proof. vm_compute. reflexivity. Qed.

(** A freed root leaves its translations in the cache. *)
Example freed_root_stays_cached :
  (λ r, (λ t, (te_page t, te_root t)) <$> tlb r.1) <$> run_pt (PFreeRoot demo_pgd) pt_demo3 = Some [(vpage demo_va, None)].
Proof. vm_compute. reflexivity. Qed.

(** Two roots used under one identifier, as [vmspace_switch] does with identifier 0,
    leave two translations of one page that the hardware cannot tell apart. *)
Example shared_identifier_ambiguous :
  let root2 := 0xFFFF000040804000 in
  let s := foldl (λ s o, pt_run1 o s) pt_demo2
    [PNew; PMap root2 demo_va 0x40806000 RW true; PFill 0 demo_pgd (vpage demo_va); PFill 0 root2 (vpage demo_va)] in
  (λ t, (te_asid t, te_page t, PTE_PADDR (te_desc t))) <$> tlb s = [(0, vpage demo_va, 0x40806000); (0, vpage demo_va, demo_pa)].
Proof. vm_compute. reflexivity. Qed.

(** Protecting a page that user and kernel share globally takes it away from
    user code: the page counts as a kernel page because its nG bit is clear. *)
Example protect_takes_global_page_away :
  let shared := PTE_MAKE demo_pa (compute_pte_attr (Z.lor RW PAGE_PERM_GLOBAL) true) in
  el0_access shared = true ∧
  el0_access (PTE_MAKE (PTE_PADDR shared) (compute_pte_attr PAGE_PERM_READ (negb (Z.land shared PTE_NG =? 0)))) = false.
Proof. vm_compute. split; reflexivity. Qed.
