(* ===== verification/SchedTypes.v ===== *)
(** * Scheduler data (kernel/sched: thread.h, scheduler.h, sched_class.h, smp.c)

    Thread control blocks, per-CPU ready queues, the class registry, the state
    of load balancing and the store of list nodes.

    Granularity: a call is one transition of the model.  The kernel holds the lock
    of a queue only while it changes that queue (scheduler_enqueue, dequeue,
    do_schedule, the sections of smp.c under sched_lock_dual, the loops of
    timer.c); thread.c takes no lock, so that kthread_suspend, kthread_resume,
    kthread_set_priority, kthread_exit and kthread_create read and write thread
    fields outside of any.  What other CPUs do inside such a call is not covered.
    The migration loop of smp_load_balance releases its locks after every thread:
    its turns are transitions of their own. *)

From S2P Require Import Prelude KList Bitmap.

Set Default Goal Selector "!".

(** ** Constants *)

Definition CONFIG_MAX_THREADS : Z := 256.
Definition CONFIG_PRIORITY_LEVELS : Z := 256.
Definition CONFIG_TIME_SLICE_MS : Z := 10.
Definition CONFIG_TICK_RATE_HZ : Z := 1000.
Definition THREAD_ID_INVALID : Z := 0xFFFFFFFF.
Definition PRIORITY_MIN : Z := 0.
Definition SMP_CPU_INVALID : Z := 0xFFFFFFFF.
Definition KTHREAD_NAME_MAX : Z := 16.

(** ** Threads *)

Inductive KThreadState_t :=
  | KTHREAD_STATE_DEAD | KTHREAD_STATE_READY | KTHREAD_STATE_RUNNING
  | KTHREAD_STATE_BLOCKED | KTHREAD_STATE_SLEEPING | KTHREAD_STATE_SUSPENDED.

Inductive KThreadPolicy_t := KTHREAD_POLICY_FIFO | KTHREAD_POLICY_RR.

#[global] Instance thread_state_eq_dec : EqDecision KThreadState_t.
Proof. solve_decision. Defined.

#[global] Instance thread_policy_eq_dec : EqDecision KThreadPolicy_t.
Proof. solve_decision. Defined.

(** The scheduling classes of the kernel; [sched_rr] is the only instance. *)
Inductive kclass := sched_rr.

#[global] Instance kclass_eq_dec : EqDecision kclass.
Proof. solve_decision. Defined.

Record stack_guard_config_t := Guard {
  g_bottom : Z; g_size : Z; g_offset : Z; g_count : Z; g_enabled : bool
}.

(** The saved registers, the address space and the signal tables are not part of
    scheduling; the list nodes are in the node store. *)
Record KThread_t := KThread {
  tid : Z; pid : Z; tstate : KThreadState_t; entry : Z; entry_arg : Z;
  stack_base : Z; stack_size : Z; prio : Z; policy : KThreadPolicy_t;
  time_slice : Z; time_slice_reload : Z; affinity_mask : Z;
  tclass : option kclass; wakeup_tick : Z; guard : stack_guard_config_t; name : list Z
}.

Definition set_tstate v t := KThread (tid t) (pid t) v (entry t) (entry_arg t) (stack_base t) (stack_size t)
  (prio t) (policy t) (time_slice t) (time_slice_reload t) (affinity_mask t) (tclass t) (wakeup_tick t) (guard t) (name t).
Definition set_prio v t := KThread (tid t) (pid t) (tstate t) (entry t) (entry_arg t) (stack_base t) (stack_size t)
  v (policy t) (time_slice t) (time_slice_reload t) (affinity_mask t) (tclass t) (wakeup_tick t) (guard t) (name t).
Definition set_slice v t := KThread (tid t) (pid t) (tstate t) (entry t) (entry_arg t) (stack_base t) (stack_size t)
  (prio t) (policy t) v (time_slice_reload t) (affinity_mask t) (tclass t) (wakeup_tick t) (guard t) (name t).
Definition set_affinity v t := KThread (tid t) (pid t) (tstate t) (entry t) (entry_arg t) (stack_base t) (stack_size t)
  (prio t) (policy t) (time_slice t) (time_slice_reload t) v (tclass t) (wakeup_tick t) (guard t) (name t).
Definition set_wakeup v t := KThread (tid t) (pid t) (tstate t) (entry t) (entry_arg t) (stack_base t) (stack_size t)
  (prio t) (policy t) (time_slice t) (time_slice_reload t) (affinity_mask t) (tclass t) v (guard t) (name t).
Definition set_stack b n t := KThread (tid t) (pid t) (tstate t) (entry t) (entry_arg t) b n
  (prio t) (policy t) (time_slice t) (time_slice_reload t) (affinity_mask t) (tclass t) (wakeup_tick t) (guard t) (name t).

(** ** Queues and the scheduler *)

Record PerCPUReadyQueue_t := RQ {
  bitmap : bitmap256_t; nr_running : Z; current_thread : option Z; idle_thread : option Z; need_resched : Z
}.

Definition set_bitmap v q := RQ v (nr_running q) (current_thread q) (idle_thread q) (need_resched q).
Definition set_nr v q := RQ (bitmap q) v (current_thread q) (idle_thread q) (need_resched q).
Definition set_current v q := RQ (bitmap q) (nr_running q) v (idle_thread q) (need_resched q).
Definition set_idle v q := RQ (bitmap q) (nr_running q) (current_thread q) v (need_resched q).
Definition set_need v q := RQ (bitmap q) (nr_running q) (current_thread q) (idle_thread q) v.

(** [&cpu_queues[c].queues[p]], [&thread_table[t].rq_list], [edf_node] and
    [sleep_node], [&s_sleep_queues[c]], and [&s_partitions[p].proc_list] of
    arinc653.c, which links threads through [rq_list] too. *)
Inductive saddr := RqHead (c p : Z) | RqNode (t : Z) | EdfNode (t : Z) | SleepNode (t : Z) | SleepHead (c : Z) | ProcHead (p : Z).

#[global] Instance saddr_eq_dec : EqDecision saddr.
Proof. solve_decision. Defined.

#[global] Instance saddr_countable : Countable saddr.
Proof.
  refine (inj_countable'
    (λ a, match a with RqHead c p => inl (c, p) | RqNode t => inr (inl t) | EdfNode t => inr (inr (inl t))
          | SleepNode t => inr (inr (inr (inl t))) | SleepHead c => inr (inr (inr (inr (inl c)))) | ProcHead p => inr (inr (inr (inr (inr p)))) end)
    (λ x, match x with inl (c, p) => RqHead c p | inr (inl t) => RqNode t | inr (inr (inl t)) => EdfNode t
          | inr (inr (inr (inl t))) => SleepNode t | inr (inr (inr (inr (inl c)))) => SleepHead c
          | inr (inr (inr (inr (inr p)))) => ProcHead p end) _).
  by intros [].
Defined.

Notation snodes_t := (gmap saddr (list_head saddr)).

(** The chain of registered classes: head, default and each class's [next]. *)
Record registry := Registry { cls_head : option kclass; cls_default : option kclass; cls_next : kclass → option kclass }.

(** [smp_lb_state_t] with the schedule counter of the CPU. *)
Record smp_lb_state_t := LB { lb_count : Z; lb_interval : Z; lb_pending : Z }.

Record smp_migrate_stats_t := MStats { migrate_count : Z; steal_count : Z; affinity_reject : Z; load_balance_count : Z }.

Record sched := Sched {
  cpu_queues : list PerCPUReadyQueue_t;
  thread_table : list KThread_t;
  snodes : snodes_t;
  classes : registry;
  preempt_count : list Z;
  online_mask : Z;
  lb_state : list smp_lb_state_t;
  migrate_stats : list smp_migrate_stats_t;
  s_system_ticks : Z;
  (** words of stack memory that hold canaries *)
  canary_mem : gmap Z Z;
  (** reports to the security monitor and inter-processor interrupts sent *)
  security_events : list Z;
  ipis : list Z
}.

Definition upd_queues v s := Sched v (thread_table s) (snodes s) (classes s) (preempt_count s) (online_mask s)
  (lb_state s) (migrate_stats s) (s_system_ticks s) (canary_mem s) (security_events s) (ipis s).
Definition upd_threads v s := Sched (cpu_queues s) v (snodes s) (classes s) (preempt_count s) (online_mask s)
  (lb_state s) (migrate_stats s) (s_system_ticks s) (canary_mem s) (security_events s) (ipis s).
Definition upd_snodes v s := Sched (cpu_queues s) (thread_table s) v (classes s) (preempt_count s) (online_mask s)
  (lb_state s) (migrate_stats s) (s_system_ticks s) (canary_mem s) (security_events s) (ipis s).
Definition upd_classes v s := Sched (cpu_queues s) (thread_table s) (snodes s) v (preempt_count s) (online_mask s)
  (lb_state s) (migrate_stats s) (s_system_ticks s) (canary_mem s) (security_events s) (ipis s).
Definition upd_preempt v s := Sched (cpu_queues s) (thread_table s) (snodes s) (classes s) v (online_mask s)
  (lb_state s) (migrate_stats s) (s_system_ticks s) (canary_mem s) (security_events s) (ipis s).
Definition upd_lb v s := Sched (cpu_queues s) (thread_table s) (snodes s) (classes s) (preempt_count s) (online_mask s)
  v (migrate_stats s) (s_system_ticks s) (canary_mem s) (security_events s) (ipis s).
Definition upd_mstats v s := Sched (cpu_queues s) (thread_table s) (snodes s) (classes s) (preempt_count s) (online_mask s)
  (lb_state s) v (s_system_ticks s) (canary_mem s) (security_events s) (ipis s).
Definition upd_ticks v s := Sched (cpu_queues s) (thread_table s) (snodes s) (classes s) (preempt_count s) (online_mask s)
  (lb_state s) (migrate_stats s) v (canary_mem s) (security_events s) (ipis s).
Definition upd_canary v s := Sched (cpu_queues s) (thread_table s) (snodes s) (classes s) (preempt_count s) (online_mask s)
  (lb_state s) (migrate_stats s) (s_system_ticks s) v (security_events s) (ipis s).
Definition upd_events v s := Sched (cpu_queues s) (thread_table s) (snodes s) (classes s) (preempt_count s) (online_mask s)
  (lb_state s) (migrate_stats s) (s_system_ticks s) (canary_mem s) v (ipis s).
Definition upd_ipis v s := Sched (cpu_queues s) (thread_table s) (snodes s) (classes s) (preempt_count s) (online_mask s)
  (lb_state s) (migrate_stats s) (s_system_ticks s) (canary_mem s) (security_events s) v.

Definition get_thread (s : sched) (t : Z) : option KThread_t := (thread_table s).[t].
Definition on_thread (t : Z) (f : KThread_t → KThread_t) (s : sched) : option sched :=
  th ← get_thread s t; ts ← zupdate (thread_table s) t (f th); Some (upd_threads ts s).
Definition get_q (s : sched) (c : Z) : option PerCPUReadyQueue_t := (cpu_queues s).[c].
Definition on_q (c : Z) (f : PerCPUReadyQueue_t → PerCPUReadyQueue_t) (s : sched) : option sched :=
  q ← get_q s c; qs ← zupdate (cpu_queues s) c (f q); Some (upd_queues qs s).
Definition on_snodes (f : snodes_t → option snodes_t) (s : sched) : option sched :=
  h ← f (snodes s); Some (upd_snodes h s).

(** [container_of] from a queue node; anything else is not a thread. *)
Definition rq_entry (p : option saddr) : option Z := match p with Some (RqNode t) => Some t | _ => None end.
Definition sleep_entry (p : option saddr) : option Z := match p with Some (SleepNode t) => Some t | _ => None end.
