(* ===== verification/Sched.v ===== *)
(** * The scheduler (kernel/sched: scheduler.c, sched_class.c, sched_rr.c, stack_guard.c)

    [c] is the CPU that runs the function, [hal_get_cpu_id()]. *)

From S2P Require Import Prelude KList Bitmap SchedTypes.

Set Default Goal Selector "!".

(** ** Ready queues (under the lock of CPU [c]'s queue) *)

Definition __sched_dequeue_locked (c t : Z) (s : sched) : option sched :=
  s ← on_snodes (list_del_init (Some (RqNode t))) s;
  th ← get_thread s t;
  e ← list_empty (Some (RqHead c (prio th))) (snodes s);
  q ← get_q s c;
  q ← if (e : bool) then bm ← bitmap256_clear (bitmap q) (prio th); Some (set_bitmap bm q) else Some q;
  on_q c (λ _, if nr_running q >? 0 then set_nr (nr_running q - 1) q else q) s.

Definition __sched_enqueue_locked (c t : Z) (s : sched) : option sched :=
  q ← get_q s c;
  th ← get_thread s t;
  bm ← bitmap256_set (bitmap q) (prio th);
  s ← on_q c (set_bitmap bm) s;
  s ← on_snodes (list_add_tail (Some (RqNode t)) (Some (RqHead c (prio th)))) s;
  on_q c (λ q, set_nr (u32 (nr_running q + 1)) q) s.

Definition scheduler_enqueue (c : Z) (thread : option Z) (s : sched) : option sched :=
  match thread with None => Some s | Some t => __sched_enqueue_locked c t s end.

Definition scheduler_dequeue (c : Z) (thread : option Z) (s : sched) : option sched :=
  match thread with None => Some s | Some t => __sched_dequeue_locked c t s end.

Definition scheduler_pick_next_locked (c : Z) (s : sched) : option (option Z) :=
  q ← get_q s c;
  highest_prio ← bitmap256_find_highest (Some (bitmap q));
  if highest_prio <? CONFIG_PRIORITY_LEVELS then
    n ← get_next (snodes s) (Some (RqHead c highest_prio));
    t ← rq_entry n;
    Some (Some t)
  else Some None.

Definition scheduler_pick_next (c : Z) (s : sched) : option (option Z) :=
  n ← scheduler_pick_next_locked c s;
  q ← get_q s c;
  Some (match n with None => idle_thread q | Some t => Some t end).

Definition scheduler_load_current (c : Z) (thread : option Z) (s : sched) : option sched :=
  match thread with
  | None => Some s
  | Some t =>
      s ← on_q c (set_current (Some t)) s;
      on_thread t (set_tstate KTHREAD_STATE_RUNNING) s
  end.

(** ** The request to reschedule *)

Definition scheduler_set_need_resched (c : Z) (s : sched) : option sched := on_q c (set_need 1) s.

Definition scheduler_test_and_clear_need_resched (c : Z) (s : sched) : option (sched * Z) :=
  q ← get_q s c;
  if negb (need_resched q =? 0) then s ← on_q c (set_need 0) s; Some (s, need_resched q)
  else Some (s, need_resched q).

(** ** Scheduling classes *)

Definition class_priority (k : kclass) : Z := match k with sched_rr => 100 end.

(** The search loop of [sched_class_register]: the last class passed and the
    first one of lower priority. *)
Fixpoint register_find (fuel : nat) (p : Z) (next : kclass → option kclass) (prev cur : option kclass)
  : option (option kclass * option kclass) :=
  match cur with
  | None => Some (prev, None)
  | Some k =>
      if class_priority k >=? p then
        match fuel with O => None | S fuel => register_find fuel p next (Some k) (next k) end
      else Some (prev, Some k)
  end.

Definition set_cls_next (k : kclass) (v : option kclass) (f : kclass → option kclass) : kclass → option kclass :=
  λ x, if decide (x = k) then v else f x.

Definition CLASS_FUEL : nat := 4.

Definition sched_class_register (cls : option kclass) (r : registry) : option registry :=
  match cls with
  | None => Some r
  | Some k =>
      match cls_next r k with
      | Some _ => Some r
      | None =>
          pc ← register_find CLASS_FUEL (class_priority k) (cls_next r) None (cls_head r);
          let nx := set_cls_next k pc.2 (cls_next r) in
          Some (match pc.1 with
                | None => Registry (Some k) (cls_default r) nx
                | Some p => Registry (cls_head r) (cls_default r) (set_cls_next p (Some k) nx)
                end)
      end
  end.

Definition sched_class_set_default (cls : option kclass) (r : registry) : registry :=
  Registry (cls_head r) cls (cls_next r).

Definition sched_rr_init (r : registry) : option registry :=
  r ← sched_class_register (Some sched_rr) r; Some (sched_class_set_default (Some sched_rr) r).

(** [thread->sched_class], or the default. *)
Definition class_of (s : sched) (t : Z) : option (option kclass) :=
  th ← get_thread s t; Some (match tclass th with None => cls_default (classes s) | k => k end).

Definition sched_rr_tick (c : Z) (current : option Z) (s : sched) : option sched :=
  match current with
  | None => Some s
  | Some t =>
      th ← get_thread s t;
      if bool_decide (policy th = KTHREAD_POLICY_RR) && (time_slice th >? 0) then
        s ← on_thread t (set_slice (time_slice th - 1)) s;
        if time_slice th - 1 =? 0 then
          s ← on_thread t (set_slice (time_slice_reload th)) s;
          scheduler_set_need_resched c s
        else Some s
      else Some s
  end.

(** The methods of a class; [sched_rr] has all four. *)
Definition class_enqueue (k : kclass) := match k with sched_rr => scheduler_enqueue end.
Definition class_dequeue (k : kclass) := match k with sched_rr => scheduler_dequeue end.
Definition class_pick_next (k : kclass) := match k with sched_rr => scheduler_pick_next_locked end.
Definition class_tick (k : kclass) := match k with sched_rr => sched_rr_tick end.

Definition sched_class_enqueue (c : Z) (thread : option Z) (s : sched) : option sched :=
  match thread with
  | None => Some s
  | Some t => k ← class_of s t; match k with Some k => class_enqueue k c (Some t) s | None => Some s end
  end.

Definition sched_class_dequeue (c : Z) (thread : option Z) (s : sched) : option sched :=
  match thread with
  | None => Some s
  | Some t => k ← class_of s t; match k with Some k => class_dequeue k c (Some t) s | None => Some s end
  end.

Fixpoint pick_loop (fuel : nat) (cur : option kclass) (c : Z) (s : sched) : option (option Z) :=
  match cur with
  | None => Some None
  | Some k =>
      n ← class_pick_next k c s;
      match n with
      | Some t => Some (Some t)
      | None => match fuel with O => None | S fuel => pick_loop fuel (cls_next (classes s) k) c s end
      end
  end.

Definition sched_class_pick_next (c : Z) (s : sched) : option (option Z) :=
  pick_loop CLASS_FUEL (cls_head (classes s)) c s.

Definition sched_class_tick (c : Z) (current : option Z) (s : sched) : option sched :=
  match current with
  | None => Some s
  | Some t => k ← class_of s t; match k with Some k => class_tick k c (Some t) s | None => Some s end
  end.

(** ** Stack canaries *)

Definition STACK_CANARY_MAGIC : Z := 0xDEADBEEF.
Definition STACK_GUARD_PAGES : Z := 2.
Definition STACK_GUARD_MIN_SIZE : Z := PAGE_SIZE_4K.

(** The configuration written, or an error; NULL never reaches the function. *)
Definition stack_guard_setup (stack_bottom size : Z) (g : stack_guard_config_t) (mem : gmap Z Z)
  : stack_guard_config_t * gmap Z Z * Z :=
  if stack_bottom =? 0 then (g, mem, - EINVAL)
  else if size <? STACK_GUARD_MIN_SIZE then (g, mem, - EINVAL)
  else
    let guard_total := STACK_GUARD_PAGES * PAGE_SIZE_4K in
    if size <=? guard_total then (g, mem, - EINVAL)
    else
      (Guard stack_bottom size (u32 guard_total) STACK_GUARD_PAGES true,
       <[u64 (stack_bottom + u32 guard_total) := STACK_CANARY_MAGIC]> mem, KERNEL_OK).

Definition stack_guard_check (g : stack_guard_config_t) (s : sched) : option (sched * bool) :=
  if negb (g_enabled g) then Some (s, false)
  else if g_bottom g =? 0 then Some (s, false)
  else
    v ← canary_mem s !! u64 (g_bottom g + g_offset g);
    if negb (v =? STACK_CANARY_MAGIC) then Some (upd_events (security_events s ++ [u32 (g_bottom g)]) s, false)
    else Some (s, true).

(** ** The switch

    [schedule] up to the change of context.  Saving and restoring registers and
    the address space are left to the hardware layer; a NULL [prev] is handed to
    [context_switch], which stores through it. *)

Definition exit_with (sch : sched → option sched) (c : Z) (s : sched) : option sched :=
  q ← get_q s c;
  cur ← current_thread q;
  s ← on_thread cur (set_tstate KTHREAD_STATE_DEAD) s;
  sch s.

(** The body; [overflow] is what follows when the canary of [prev] is gone. *)
Definition schedule_body (overflow : sched → option sched) (c : Z) (s : sched) : option sched :=
  q ← get_q s c;
  let prev := current_thread q in
  pick ← sched_class_pick_next c s;
  match (match pick with None => idle_thread q | Some t => Some t end) with
  | None => Some s
  | Some next =>
      nt ← get_thread s next;
      s ← if bool_decide (tstate nt = KTHREAD_STATE_READY) then __sched_dequeue_locked c next s else Some s;
      if bool_decide (prev = Some next) then Some s
      else
        s ← match prev with
            | Some p =>
                pt ← get_thread s p;
                if bool_decide (tstate pt = KTHREAD_STATE_RUNNING) then
                  s ← on_thread p (set_tstate KTHREAD_STATE_READY) s;
                  __sched_enqueue_locked c p s
                else Some s
            | None => Some s
            end;
        s ← on_q c (set_current (Some next)) s;
        s ← on_thread next (set_tstate KTHREAD_STATE_RUNNING) s;
        p ← prev;
        pt ← get_thread s p;
        if g_enabled (guard pt) then
          r ← stack_guard_check (guard pt) s;
          if (r.2 : bool) then Some r.1 else overflow r.1
        else Some s
  end.

Fixpoint schedule (fuel : nat) (c : Z) (s : sched) : option sched :=
  schedule_body (λ s, match fuel with O => None | S fuel => exit_with (schedule fuel c) c s end) c s.

(** Every thread that exits on the way is dead afterwards. *)
Definition SCHED_FUEL : nat := 257.

Definition do_schedule (c : Z) (s : sched) : option sched := schedule SCHED_FUEL c s.

Definition kthread_exit (c : Z) (s : sched) : option sched := exit_with (do_schedule c) c s.

(** ** Preemption *)

Definition preempt_disable (c : Z) (s : sched) : option sched :=
  n ← (preempt_count s).[c]; ns ← zupdate (preempt_count s) c (u32 (n + 1)); Some (upd_preempt ns s).

Definition preempt_is_disabled (c : Z) (s : sched) : option bool :=
  n ← (preempt_count s).[c]; Some (n >? 0).

Definition preempt_enable (c : Z) (s : sched) : option sched :=
  n ← (preempt_count s).[c];
  s ← if n >? 0 then ns ← zupdate (preempt_count s) c (n - 1); Some (upd_preempt ns s) else Some s;
  n ← (preempt_count s).[c];
  if n =? 0 then
    r ← scheduler_test_and_clear_need_resched c s;
    if negb (r.2 =? 0) then do_schedule c r.1 else Some r.1
  else Some s.

Definition scheduler_irq_exit_check (c : Z) (s : sched) : option sched :=
  d ← preempt_is_disabled c s;
  if (d : bool) then Some s
  else
    r ← scheduler_test_and_clear_need_resched c s;
    if negb (r.2 =? 0) then do_schedule c r.1 else Some r.1.

(** ** The clock tick *)

(** [smp_tick_check_balance]; a zero interval would divide by zero. *)
Definition smp_tick_check_balance (c : Z) (s : sched) : option sched :=
  if c >=? CONFIG_MAX_CPUS then Some s
  else
    l ← (lb_state s).[c];
    let n := u64 (lb_count l + 1) in
    if lb_interval l =? 0 then None
    else
      let p := if n mod lb_interval l =? 0 then 1 else lb_pending l in
      ls ← zupdate (lb_state s) c (LB n (lb_interval l) p);
      Some (upd_lb ls s).

Definition scheduler_tick (c : Z) (s : sched) : option sched :=
  q ← get_q s c;
  match current_thread q with
  | None => Some s
  | Some cur =>
      s ← sched_class_tick c (Some cur) s;
      q ← get_q s c;
      if negb (need_resched q =? 0) then Some s
      else
        next ← scheduler_pick_next c s;
        s ← match next with
            | Some n =>
                if bool_decide (n ≠ cur) then
                  nt ← get_thread s n; ct ← get_thread s cur;
                  if prio nt >? prio ct then scheduler_set_need_resched c s else Some s
                else Some s
            | None => Some s
            end;
        smp_tick_check_balance c s
  end.

(** ** Start *)

(** Up to [cpu_switch_to_first_task]; [None] waits for ever. *)
Definition scheduler_start (c : Z) (s : sched) : option sched :=
  first ← scheduler_pick_next c s;
  t ← first;
  th ← get_thread s t;
  s ← if bool_decide (tstate th = KTHREAD_STATE_READY) then scheduler_dequeue c (Some t) s else Some s;
  scheduler_load_current c (Some t) s.

(** The secondary CPUs look at their idle thread once more. *)
Definition scheduler_start_secondary (c : Z) (s : sched) : option sched :=
  first ← scheduler_pick_next c s;
  q ← get_q s c;
  t ← match first with Some t => Some t | None => idle_thread q end;
  th ← get_thread s t;
  s ← if bool_decide (tstate th = KTHREAD_STATE_READY) then scheduler_dequeue c (Some t) s else Some s;
  scheduler_load_current c (Some t) s.
