(* ===== verification/Threads.v ===== *)
(** * Threads (kernel/sched/thread.c and the stack allocators of scheduler.c)

    Creation, termination, suspension, priorities, and the initialisation of the
    scheduler.  The slab caches that hold stacks are an interface; the bump
    allocator behind them is modelled. *)

From S2P Require Import Prelude KList Bitmap SchedTypes Sched.

Set Default Goal Selector "!".

Definition CONFIG_STACK_SIZE_DEFAULT : Z := 8192.
Definition CONFIG_STACK_SIZE_MIN : Z := 4096.
Definition CONFIG_STACK_SIZE_MAX : Z := 65536.
Definition STACK_SIZE_COUNT : Z := 3.
Definition STACK_SIZE_4KB_BYTES : Z := 4096.
Definition STACK_SIZE_8KB_BYTES : Z := 8192.
Definition STACK_SIZE_16KB_BYTES : Z := 16384.

(** ** Calls that need no stack *)

Definition get_thread_by_id (t : Z) : option Z := if t >=? CONFIG_MAX_THREADS then None else Some t.

Definition kthread_get_current (c : Z) (s : sched) : option (option Z) :=
  if c <? CONFIG_MAX_CPUS then q ← get_q s c; Some (current_thread q) else Some None.

Definition kthread_get_current_tid (c : Z) (s : sched) : option Z :=
  cur ← kthread_get_current c s;
  match cur with Some t => th ← get_thread s t; Some (tid th) | None => Some THREAD_ID_INVALID end.

Definition kthread_suspend (c t : Z) (s : sched) : option (sched * Z) :=
  match get_thread_by_id t with
  | None => Some (s, - ESRCH)
  | Some t =>
      th ← get_thread s t;
      if bool_decide (tstate th = KTHREAD_STATE_READY) then
        s ← scheduler_dequeue c (Some t) s;
        s ← on_thread t (set_tstate KTHREAD_STATE_SUSPENDED) s;
        Some (s, KERNEL_OK)
      else Some (s, - EINVAL)
  end.

Definition kthread_resume (c t : Z) (s : sched) : option (sched * Z) :=
  match get_thread_by_id t with
  | None => Some (s, - ESRCH)
  | Some t =>
      th ← get_thread s t;
      if negb (bool_decide (tstate th = KTHREAD_STATE_SUSPENDED)) then Some (s, - EINVAL)
      else
        s ← on_thread t (set_tstate KTHREAD_STATE_READY) s;
        s ← scheduler_enqueue c (Some t) s;
        current ← kthread_get_current c s;
        s ← match current with
            | Some cur => ct ← get_thread s cur; if prio th >? prio ct then do_schedule c s else Some s
            | None => Some s
            end;
        Some (s, KERNEL_OK)
  end.

Definition kthread_set_priority (c t p : Z) (s : sched) : option (sched * Z) :=
  match get_thread_by_id t with
  | None => Some (s, - ESRCH)
  | Some t =>
      th ← get_thread s t;
      s ← if bool_decide (tstate th = KTHREAD_STATE_READY) then
            s ← scheduler_dequeue c (Some t) s;
            s ← on_thread t (set_prio p) s;
            scheduler_enqueue c (Some t) s
          else on_thread t (set_prio p) s;
      current ← kthread_get_current c s;
      s ← match current with
          | Some cur =>
              ct ← get_thread s cur;
              if bool_decide (t ≠ cur) && bool_decide (tstate th = KTHREAD_STATE_READY) && (p >? prio ct)
              then do_schedule c s else Some s
          | None => Some s
          end;
      Some (s, KERNEL_OK)
  end.

(** ** Stacks *)

(** The caches [stack_slab.caches[i]]; allocation returns 0 for NULL. *)
Class StackSlab (A : Type) := {
  stack_slab_create : Z → Z → A → A * Z;
  stack_slab_destroy : Z → A → A;
  stack_slab_alloc : Z → A → A * Z;
  stack_slab_free : Z → Z → A → A
}.

Section threads.
Context {A : Type} `{StackSlab A} (heap_start heap_end : Z).

(** The scheduler with its stacks: the caches, [stack_slab.initialized],
    [s_heap_ptr] and [g_scheduler.initialized]. *)
Record kthreads := KT { kt_sched : sched; kt_slab : A; kt_slab_ready : bool; kt_heap : Z; kt_initialized : bool }.

Definition upd_sched v k := KT v (kt_slab k) (kt_slab_ready k) (kt_heap k) (kt_initialized k).
Definition upd_slab v k := KT (kt_sched k) v (kt_slab_ready k) (kt_heap k) (kt_initialized k).
Definition upd_ready v k := KT (kt_sched k) (kt_slab k) v (kt_heap k) (kt_initialized k).
Definition upd_heap v k := KT (kt_sched k) (kt_slab k) (kt_slab_ready k) v (kt_initialized k).
Definition upd_init v k := KT (kt_sched k) (kt_slab k) (kt_slab_ready k) (kt_heap k) v.

Definition on_sched (f : sched → option sched) (k : kthreads) : option kthreads :=
  s ← f (kt_sched k); Some (upd_sched s k).

Definition stack_pool_size (i : Z) : Z :=
  if i =? 0 then STACK_SIZE_4KB_BYTES * 8 else if i =? 1 then STACK_SIZE_8KB_BYTES * 4 else STACK_SIZE_16KB_BYTES * 2.

Fixpoint destroy_stack_caches (n : nat) (j : Z) (a : A) : A :=
  match n with O => a | S n => destroy_stack_caches n (j + 1) (stack_slab_destroy j a) end.

Fixpoint create_stack_caches (n : nat) (i : Z) (a : A) : A * Z :=
  match n with
  | O => (a, KERNEL_OK)
  | S n =>
      let r := stack_slab_create i (stack_pool_size i) a in
      if negb (r.2 =? KERNEL_OK) then (destroy_stack_caches (Z.to_nat i) 0 r.1, r.2)
      else create_stack_caches n (i + 1) r.1
  end.

Definition thread_stack_slab_init (k : kthreads) : kthreads * Z :=
  let r := create_stack_caches (Z.to_nat STACK_SIZE_COUNT) 0 (kt_slab k) in
  if negb (r.2 =? KERNEL_OK) then (upd_slab r.1 k, r.2) else (upd_ready true (upd_slab r.1 k), KERNEL_OK).

Definition select_stack_cache (size : Z) : Z :=
  if size <=? STACK_SIZE_4KB_BYTES then 0
  else if size <=? STACK_SIZE_8KB_BYTES then 1
  else if size <=? STACK_SIZE_16KB_BYTES then 2
  else - EINVAL.

(** The bump allocator between the linker's heap symbols. *)
Definition stack_alloc (size : Z) (k : kthreads) : kthreads * Z :=
  let p := if kt_heap k =? 0 then heap_start else kt_heap k in
  let new_ptr := u64 (p + size) in
  let new_ptr := Z.land (u64 (new_ptr + 15)) (u64 (Z.lnot 15)) in
  if new_ptr >? heap_end then (upd_heap p k, 0) else (upd_heap new_ptr k, new_ptr).

Definition stack_alloc_slab (size : Z) (k : kthreads) : kthreads * Z :=
  if negb (kt_slab_ready k) then (k, 0)
  else
    let cache_idx := select_stack_cache size in
    if cache_idx <? 0 then stack_alloc size k
    else
      let r := stack_slab_alloc cache_idx (kt_slab k) in
      if r.2 =? 0 then (upd_slab r.1 k, 0) else (upd_slab r.1 k, u64 (r.2 + size)).

Definition stack_free_slab (base size : Z) (k : kthreads) : kthreads :=
  if negb (kt_slab_ready k) then k
  else
    let cache_idx := select_stack_cache size in
    if cache_idx <? 0 then k else upd_slab (stack_slab_free cache_idx base (kt_slab k)) k.

Definition stack_alloc_by_scheduler (size : Z) (k : kthreads) : kthreads * Z :=
  let r := stack_alloc_slab size k in
  if negb (r.2 =? 0) then r else stack_alloc size r.1.

Definition stack_free_by_scheduler (base size : Z) (k : kthreads) : kthreads := stack_free_slab base size k.

(** ** Creation *)

(** The scan for a dead control block. *)
Fixpoint find_dead (n : nat) (t : Z) (s : sched) : option (option Z) :=
  match n with
  | O => Some None
  | S n =>
      th ← get_thread s t;
      if bool_decide (tstate th = KTHREAD_STATE_DEAD) then Some (Some t) else find_dead n (t + 1) s
  end.

Definition alloc_thread_id (c : Z) (s : sched) : option (sched * Z) :=
  s ← preempt_disable c s;
  r ← find_dead (Z.to_nat CONFIG_MAX_THREADS) 0 s;
  match r with
  | Some t =>
      s ← on_thread t (set_tstate KTHREAD_STATE_READY) s;
      s ← preempt_enable c s;
      Some (s, t)
  | None => s ← preempt_enable c s; Some (s, THREAD_ID_INVALID)
  end.

Fixpoint copy_name_loop (n : nat) (i : Z) (dest src : list Z) : option (list Z) :=
  match n with
  | O => Some dest
  | S n =>
      ch ← src.[i];
      dest ← zupdate dest i ch;
      if ch =? 0 then Some dest else copy_name_loop n (i + 1) dest src
  end.

Definition copy_thread_name (dest src : list Z) : option (list Z) :=
  dest ← copy_name_loop (Z.to_nat (KTHREAD_NAME_MAX - 1)) 0 dest src;
  zupdate dest (KTHREAD_NAME_MAX - 1) 0.

Definition clamp_stack (size : Z) : Z :=
  let size := if size <? CONFIG_STACK_SIZE_MIN then CONFIG_STACK_SIZE_MIN else size in
  let size := if size >? CONFIG_STACK_SIZE_MAX then CONFIG_STACK_SIZE_MAX else size in
  Z.land (u32 (size + 15)) (u32 (Z.lnot 15)).

Definition init_slice (pol : KThreadPolicy_t) : Z :=
  if bool_decide (pol = KTHREAD_POLICY_RR) then CONFIG_TIME_SLICE_MS * CONFIG_TICK_RATE_HZ / 1000 else 0.

(** The control block that [kthread_create] fills in, with the canary. *)
Definition fill_thread (t ent arg base size p : Z) (pol : KThreadPolicy_t) (nm : list Z) (s : sched) : option sched :=
  th ← get_thread s t;
  let g := stack_guard_setup base size (guard th) (canary_mem s) in
  nm ← copy_thread_name (name th) nm;
  ts ← zupdate (thread_table s) t
         (KThread t 0 (tstate th) ent arg base size p pol (init_slice pol) (init_slice pol) 0 None 0 g.1.1 nm);
  let s := upd_canary g.1.2 (upd_threads ts s) in
  s ← on_snodes (INIT_LIST_HEAD (Some (RqNode t))) s;
  s ← on_snodes (INIT_LIST_HEAD (Some (EdfNode t))) s;
  on_snodes (INIT_LIST_HEAD (Some (SleepNode t))) s.

(** [nm] and [ent] are [None] and 0 for NULL. *)
Definition kthread_create (c : Z) (nm : option (list Z)) (ent arg p : Z) (pol : KThreadPolicy_t) (size : Z) (k : kthreads)
  : option (kthreads * Z) :=
  match nm with
  | None => Some (k, THREAD_ID_INVALID)
  | Some nm =>
      if ent =? 0 then Some (k, THREAD_ID_INVALID)
      else
        let size := clamp_stack size in
        r ← alloc_thread_id c (kt_sched k);
        let k := upd_sched r.1 k in
        let t := r.2 in
        if t =? THREAD_ID_INVALID then Some (k, THREAD_ID_INVALID)
        else
          let '(k, stack_top) := stack_alloc_by_scheduler size k in
          if stack_top =? 0 then Some (k, THREAD_ID_INVALID)
          else
            k ← on_sched (fill_thread t ent arg (u64 (stack_top - size)) size p pol nm) k;
            k ← on_sched (scheduler_enqueue c (Some t)) k;
            Some (k, t)
  end.

(** ** Reclaiming stacks *)

Fixpoint cleanup_loop (n : nat) (i : Z) (k : kthreads) : option kthreads :=
  match n with
  | O => Some k
  | S n =>
      th ← get_thread (kt_sched k) i;
      k ← if bool_decide (tstate th = KTHREAD_STATE_DEAD) && negb (stack_base th =? 0) then
            on_sched (on_thread i (set_stack 0 0)) (stack_free_by_scheduler (stack_base th) (stack_size th) k)
          else Some k;
      cleanup_loop n (i + 1) k
  end.

Definition kthread_cleanup_dead_stacks (k : kthreads) : option kthreads :=
  cleanup_loop (Z.to_nat CONFIG_MAX_THREADS) 0 k.

(** ** Initialisation *)

Fixpoint init_prio_lists (n : nat) (c p : Z) (s : sched) : option sched :=
  match n with
  | O => Some s
  | S n => s ← on_snodes (INIT_LIST_HEAD (Some (RqHead c p))) s; init_prio_lists n c (p + 1) s
  end.

Fixpoint init_queues (n : nat) (c : Z) (s : sched) : option sched :=
  match n with
  | O => Some s
  | S n =>
      q ← get_q s c;
      bm ← bitmap256_clear_all (bitmap q);
      s ← init_prio_lists (Z.to_nat CONFIG_PRIORITY_LEVELS) c 0 s;
      s ← on_q c (λ _, RQ bm 0 None None 0) s;
      init_queues n (c + 1) s
  end.

Fixpoint init_threads (n : nat) (i : Z) (s : sched) : option sched :=
  match n with
  | O => Some s
  | S n =>
      th ← get_thread s i;
      nm ← zupdate (name th) 0 0;
      s ← on_thread i (λ _, KThread i (pid th) KTHREAD_STATE_DEAD 0 0 0 0 PRIORITY_MIN KTHREAD_POLICY_FIFO 0 0
                              (affinity_mask th) None 0 (guard th) nm) s;
      s ← on_snodes (INIT_LIST_HEAD (Some (RqNode i))) s;
      s ← on_snodes (INIT_LIST_HEAD (Some (EdfNode i))) s;
      s ← on_snodes (INIT_LIST_HEAD (Some (SleepNode i))) s;
      init_threads n (i + 1) s
  end.

Definition idle_name : list Z := [105; 100; 108; 101; 0].

(** The address of [idle_task_entry] is not NULL. *)
Fixpoint create_idles (n : nat) (c idle_task_entry : Z) (k : kthreads) : option (kthreads * Z) :=
  match n with
  | O => Some (k, KERNEL_OK)
  | S n =>
      r ← kthread_create 0 (Some idle_name) idle_task_entry 0 PRIORITY_MIN KTHREAD_POLICY_FIFO
            CONFIG_STACK_SIZE_DEFAULT k;
      let '(k, t) := r in
      if t =? THREAD_ID_INVALID then Some (k, - ENOMEM)
      else
        k ← on_sched (on_q c (set_idle (Some t))) k;
        k ← if negb (c =? 0) then
              k ← on_sched (on_snodes (list_del_init (Some (RqNode t)))) k;
              on_sched (on_q 0 (λ q, if nr_running q >? 0 then set_nr (nr_running q - 1) q else q)) k
            else Some k;
        create_idles n (c + 1) idle_task_entry k
  end.

Definition scheduler_init (idle_task_entry : Z) (k : kthreads) : option (kthreads * Z) :=
  if kt_initialized k then Some (k, KERNEL_OK)
  else
    reg ← sched_rr_init (classes (kt_sched k));
    let k := upd_sched (upd_classes reg (kt_sched k)) k in
    let '(k, ret) := thread_stack_slab_init k in
    if negb (ret =? KERNEL_OK) then Some (k, - ENOMEM)
    else
      k ← on_sched (init_queues (Z.to_nat CONFIG_MAX_CPUS) 0) k;
      k ← on_sched (init_threads (Z.to_nat CONFIG_MAX_THREADS) 0) k;
      r ← create_idles (Z.to_nat CONFIG_MAX_CPUS) 0 idle_task_entry k;
      let '(k, ret) := r in
      if negb (ret =? KERNEL_OK) then Some (k, ret) else Some (upd_init true k, KERNEL_OK).
End threads.

Arguments kthreads : clear implicits.
