(* ===== verification/Smp.v ===== *)
(** * Load balancing between CPUs (kernel/sched/smp.c)

    Affinity, the choice of CPUs, migration, balancing and stealing.  Each pass
    under the two queue locks is one transition; the scans between them read the
    state they find.  Processor bring-up and grace periods are not here. *)

From S2P Require Import Prelude KList Bitmap SchedTypes Sched.

Set Default Goal Selector "!".

Definition LB_INTERVAL_MIN : Z := 32.
Definition LB_INTERVAL_MAX : Z := 256.
Definition LB_INTERVAL_DEF : Z := 100.
Definition LOAD_IMBALANCE_THRESHOLD : Z := 150.
Definition MAX_MIGRATE_PER_BALANCE : Z := 4.
Definition STEAL_MIN_RESERVE : Z := 2.

Definition smp_cpu_online (s : sched) (c : Z) : bool :=
  if c >=? CONFIG_MAX_CPUS then false else negb (Z.land (online_mask s) (u32 (Z.shiftl 1 c)) =? 0).

Definition smp_sched_init (s : sched) : sched :=
  upd_mstats (replicate (Z.to_nat CONFIG_MAX_CPUS) (MStats 0 0 0 0))
    (upd_lb (replicate (Z.to_nat CONFIG_MAX_CPUS) (LB 0 LB_INTERVAL_DEF 0)) s).

Definition smp_enqueue (cpu_id priority : Z) : Z :=
  if cpu_id >=? CONFIG_MAX_CPUS then - EINVAL else if priority >? 255 then - EINVAL else KERNEL_OK.

Definition smp_dequeue (cpu_id priority : Z) : Z :=
  if cpu_id >=? CONFIG_MAX_CPUS then - EINVAL else if priority >? 255 then - EINVAL else KERNEL_OK.

(** ** Queues of another CPU *)

Definition remote_pick_highest (c : Z) (s : sched) : option (option Z) :=
  if c >=? CONFIG_MAX_CPUS then Some None
  else
    q ← get_q s c;
    hp ← bitmap256_find_highest (Some (bitmap q));
    if hp >=? CONFIG_PRIORITY_LEVELS then Some None
    else
      e ← list_empty (Some (RqHead c hp)) (snodes s);
      if (e : bool) then Some None
      else n ← get_next (snodes s) (Some (RqHead c hp)); t ← rq_entry n; Some (Some t).

Definition remote_remove_thread (c t : Z) (s : sched) : option sched :=
  s ← on_snodes (list_del_init (Some (RqNode t))) s;
  th ← get_thread s t;
  e ← list_empty (Some (RqHead c (prio th))) (snodes s);
  q ← get_q s c;
  q ← if (e : bool) then bm ← bitmap256_clear (bitmap q) (prio th); Some (set_bitmap bm q) else Some q;
  on_q c (λ _, if nr_running q >? 0 then set_nr (nr_running q - 1) q else q) s.

Definition remote_add_thread (c t : Z) (s : sched) : option sched :=
  q ← get_q s c;
  th ← get_thread s t;
  bm ← bitmap256_set (bitmap q) (prio th);
  s ← on_q c (set_bitmap bm) s;
  s ← on_snodes (list_add_tail (Some (RqNode t)) (Some (RqHead c (prio th)))) s;
  on_q c (λ q, set_nr (u32 (nr_running q + 1)) q) s.

(** ** Affinity *)

Definition smp_set_affinity (t cpu_mask : Z) (s : sched) : option (sched * Z) :=
  if t >=? CONFIG_MAX_THREADS then Some (s, - EINVAL)
  else if cpu_mask =? 0 then s ← on_thread t (set_affinity 0) s; Some (s, KERNEL_OK)
  else
    let valid_mask := Z.land cpu_mask (u32 (Z.shiftl 1 CONFIG_MAX_CPUS) - 1) in
    if valid_mask =? 0 then Some (s, - EINVAL)
    else s ← on_thread t (set_affinity valid_mask) s; Some (s, KERNEL_OK).

Definition smp_get_affinity (t : Z) (s : sched) : option Z :=
  if t >=? CONFIG_MAX_THREADS then Some 0 else th ← get_thread s t; Some (affinity_mask th).

Definition smp_affinity_allowed (t c : Z) (s : sched) : option bool :=
  if c >=? CONFIG_MAX_CPUS then Some false
  else
    mask ← smp_get_affinity t s;
    Some (if mask =? 0 then true else negb (Z.land mask (u32 (Z.shiftl 1 c)) =? 0)).

(** ** Choosing a CPU *)

(** The scan for the least loaded CPU among those that pass [ok]. *)
Fixpoint scan_min (n : nat) (c : Z) (ok : Z → bool) (s : sched) (best min : Z) : option (Z * Z) :=
  match n with
  | O => Some (best, min)
  | S n =>
      if negb (ok c) then scan_min n (c + 1) ok s best min
      else
        q ← get_q s c;
        if nr_running q <? min then scan_min n (c + 1) ok s c (nr_running q)
        else scan_min n (c + 1) ok s best min
  end.

(** The scan for the most loaded one. *)
Fixpoint scan_max (n : nat) (c : Z) (ok : Z → bool) (s : sched) (best max : Z) : option (Z * Z) :=
  match n with
  | O => Some (best, max)
  | S n =>
      if negb (ok c) then scan_max n (c + 1) ok s best max
      else
        q ← get_q s c;
        if nr_running q >? max then scan_max n (c + 1) ok s c (nr_running q)
        else scan_max n (c + 1) ok s best max
  end.

Definition ncpus : nat := Z.to_nat CONFIG_MAX_CPUS.

Definition mask_ok (mask c : Z) : bool := (mask =? 0) || negb (Z.land mask (u32 (Z.shiftl 1 c)) =? 0).

Definition smp_select_target_cpu (t exclude : Z) (s : sched) : option Z :=
  mask ← smp_get_affinity t s;
  r ← scan_min ncpus 0 (λ c, negb (c =? exclude) && smp_cpu_online s c && mask_ok mask c) s SMP_CPU_INVALID 0xFFFFFFFF;
  Some r.1.

Fixpoint first_online (n : nat) (c : Z) (s : sched) : Z :=
  match n with O => 0 | S n => if smp_cpu_online s c then c else first_online n (c + 1) s end.

Definition smp_select_enqueue_cpu (t hint : Z) (s : sched) : option Z :=
  mask ← smp_get_affinity t s;
  if mask =? 0 then
    if (hint <? CONFIG_MAX_CPUS) && smp_cpu_online s hint then Some hint else Some (first_online ncpus 0 s)
  else
    r ← scan_min ncpus 0 (λ c, smp_cpu_online s c && negb (Z.land mask (u32 (Z.shiftl 1 c)) =? 0)) s
          SMP_CPU_INVALID 0xFFFFFFFF;
    Some (if r.1 =? SMP_CPU_INVALID then 0 else r.1).

Definition smp_get_load (c : Z) (s : sched) : option Z :=
  if c >=? CONFIG_MAX_CPUS then Some 0 else q ← get_q s c; Some (nr_running q).

(** ** Balancing *)

Fixpoint sum_load (n : nat) (c : Z) (s : sched) (total cpus : Z) : option (Z * Z) :=
  match n with
  | O => Some (total, cpus)
  | S n =>
      if smp_cpu_online s c then q ← get_q s c; sum_load n (c + 1) s (u32 (total + nr_running q)) (cpus + 1)
      else sum_load n (c + 1) s total cpus
  end.

Fixpoint any_overloaded (n : nat) (c avg : Z) (s : sched) : option bool :=
  match n with
  | O => Some false
  | S n =>
      if smp_cpu_online s c then
        q ← get_q s c;
        if u32 (nr_running q * 100) >? u32 (avg * LOAD_IMBALANCE_THRESHOLD) then Some true
        else any_overloaded n (c + 1) avg s
      else any_overloaded n (c + 1) avg s
  end.

(** The adaptive interval. *)
Definition adapt_interval (need : bool) (i : Z) : Z :=
  if need then (if i >? LB_INTERVAL_MIN then i / 2 else i)
  else (if i <? LB_INTERVAL_MAX then u32 (i + i / 4) else i).

Definition need_load_balance (c : Z) (s : sched) : option (sched * bool) :=
  r ← sum_load ncpus 0 s 0 0;
  let '(total, cpus) := r in
  if cpus <=? 1 then Some (s, false)
  else
    let avg := total / cpus in
    if avg =? 0 then Some (s, false)
    else
      need ← any_overloaded ncpus 0 avg s;
      if c <? CONFIG_MAX_CPUS then
        l ← (lb_state s).[c];
        ls ← zupdate (lb_state s) c (LB (lb_count l) (adapt_interval need (lb_interval l)) (lb_pending l));
        Some (upd_lb ls s, need)
      else Some (s, need).

Definition on_stats (c : Z) (f : smp_migrate_stats_t → smp_migrate_stats_t) (s : sched) : option sched :=
  m ← (migrate_stats s).[c]; ms ← zupdate (migrate_stats s) c (f m); Some (upd_mstats ms s).

Definition add_reject m := MStats (migrate_count m) (steal_count m) (u32 (affinity_reject m + 1)) (load_balance_count m).
Definition add_steal m := MStats (migrate_count m) (u32 (steal_count m + 1)) (affinity_reject m) (load_balance_count m).
Definition add_migrated n m := MStats (u32 (migrate_count m + n)) (steal_count m) (affinity_reject m) (load_balance_count m).
Definition add_balance m := MStats (migrate_count m) (steal_count m) (affinity_reject m) (u32 (load_balance_count m + 1)).

(** [smp_affinity_allowed] is asked only for identifiers in the table. *)
Definition migration_refused (t dst : Z) (s : sched) : option bool :=
  th ← get_thread s t;
  if tid th <? CONFIG_MAX_THREADS then a ← smp_affinity_allowed (tid th) dst s; Some (negb a) else Some false.

(** One turn of the migration loop, under both queue locks; [false] leaves the
    loop. *)
Definition migrate_step (src dst : Z) (s : sched) : option (sched * bool) :=
  r ← remote_pick_highest src s;
  match r with
  | None => Some (s, false)
  | Some t =>
      no ← migration_refused t dst s;
      if (no : bool) then s ← on_stats src add_reject s; Some (s, false)
      else
        s ← remote_remove_thread src t s;
        s ← remote_add_thread dst t s;
        Some (s, true)
  end.

Fixpoint migrate_loop (n : nat) (src dst migrated : Z) (s : sched) : option (sched * Z) :=
  match n with
  | O => Some (s, migrated)
  | S n =>
      r ← migrate_step src dst s;
      let '(s, more) := r in
      if (more : bool) then migrate_loop n src dst (migrated + 1) s else Some (s, migrated)
  end.

(** [ipi_send(cpu, IPI_TYPE_RESCHEDULE)] *)
Definition ipi_reschedule (c : Z) (s : sched) : sched := upd_ipis (ipis s ++ [c]) s.

(** The end of a balancing that migrated threads. *)
Definition balance_done (src dst migrated : Z) (s : sched) : option sched :=
  if migrated >? 0 then
    let s := ipi_reschedule dst s in
    s ← on_stats src (add_migrated migrated) s;
    on_stats dst add_balance s
  else Some s.

(** The locks are released between two turns of the loop: the whole call is one
    transition only when nothing runs in between; its parts are transitions of
    their own in [SchedSystem]. *)
Definition smp_load_balance (s : sched) : option (sched * Z) :=
  r ← need_load_balance 0 s;
  let '(s, need) := r in
  if negb need then Some (s, KERNEL_OK)
  else
    m ← scan_max ncpus 0 (smp_cpu_online s) s 0 0;
    let '(src, max_load) := m in
    d ← scan_min ncpus 0 (λ c, smp_cpu_online s c && negb (c =? src)) s SMP_CPU_INVALID 0xFFFFFFFF;
    let dst := d.1 in
    if (dst =? SMP_CPU_INVALID) || (src =? dst) then Some (s, KERNEL_OK)
    else
      let limit := max_load / 2 in
      let limit := if limit >? MAX_MIGRATE_PER_BALANCE then MAX_MIGRATE_PER_BALANCE else limit in
      let limit := if limit =? 0 then 1 else limit in
      r ← migrate_loop (Z.to_nat limit) src dst 0 s;
      let '(s, migrated) := r in
      s ← balance_done src dst migrated s;
      Some (s, KERNEL_OK).

(** ** Stealing *)

Definition smp_work_steal (c : Z) (s : sched) : option (sched * Z) :=
  if c >=? CONFIG_MAX_CPUS then Some (s, - EINVAL)
  else
    q ← get_q s c;
    if nr_running q >? 0 then Some (s, KERNEL_OK)
    else
      m ← scan_max ncpus 0 (λ i, smp_cpu_online s i && negb (i =? c)) s SMP_CPU_INVALID STEAL_MIN_RESERVE;
      let src := m.1 in
      if src =? SMP_CPU_INVALID then Some (s, KERNEL_OK)
      else
        sq ← get_q s src;
        if nr_running sq <=? STEAL_MIN_RESERVE then Some (s, KERNEL_OK)
        else
          hp ← bitmap256_find_highest (Some (bitmap sq));
          if hp >=? CONFIG_PRIORITY_LEVELS then Some (s, KERNEL_OK)
          else
            e ← list_empty (Some (RqHead src hp)) (snodes s);
            if (e : bool) then Some (s, KERNEL_OK)
            else
              n ← get_prev (snodes s) (Some (RqHead src hp));
              t ← rq_entry n;
              no ← migration_refused t c s;
              if (no : bool) then s ← on_stats src add_reject s; Some (s, KERNEL_OK)
              else
                s ← remote_remove_thread src t s;
                s ← remote_add_thread c t s;
                s ← on_stats src add_steal s;
                Some (ipi_reschedule src s, KERNEL_OK).

Definition smp_idle_balance (c : Z) (s : sched) : option sched :=
  if c >=? CONFIG_MAX_CPUS then Some s
  else
    l ← (lb_state s).[c];
    s ← if negb (lb_pending l =? 0) then
          ls ← zupdate (lb_state s) c (LB (lb_count l) (lb_interval l) 0);
          r ← smp_load_balance (upd_lb ls s);
          Some r.1
        else Some s;
    q ← get_q s c;
    if nr_running q =? 0 then r ← smp_work_steal c s; Some r.1 else Some s.

(** ** Migration on request *)

Definition smp_migrate_thread (src dst priority t : Z) (s : sched) : option (sched * Z) :=
  if (src >=? CONFIG_MAX_CPUS) || (dst >=? CONFIG_MAX_CPUS) then Some (s, - EINVAL)
  else if src =? dst then Some (s, KERNEL_OK)
  else if negb (smp_cpu_online s dst) then Some (s, - EINVAL)
  else if t >=? CONFIG_MAX_THREADS then Some (s, - EINVAL)
  else
    a ← smp_affinity_allowed t dst s;
    if negb a then Some (s, - EPERM)
    else
      th ← get_thread s t;
      if negb (bool_decide (tstate th = KTHREAD_STATE_READY)) then Some (s, - EINVAL)
      else
        s ← remote_remove_thread src t s;
        s ← remote_add_thread dst t s;
        Some (ipi_reschedule dst s, KERNEL_OK).
