(* ===== verification/OrdList.v ===== *)
(** * Ordered insertion into an intrusive list

    The loop that both timer queues of kernel/sched/timer.c use: walk to the
    first node whose key is greater, insert before it.  Equal keys keep the order
    of their insertion. *)

From stdpp Require Import sorting.
From S2P Require Import Prelude KList.

Set Default Goal Selector "!".

Section ordered.
Context {L : Type} `{Countable L}.
Implicit Types (h : gmap L (list_head L)) (M : gmap L (list L)) (key : L → option Z) (k : L → Z).

(** [list_for_each] with [break] at the first key above [v]. *)
Fixpoint ordered_find (fuel : nat) key (pos head : option L) (v : Z) h : option (option L) :=
  if bool_decide (pos = head) then Some pos
  else
    match fuel with
    | O => None
    | S fuel =>
        p ← pos;
        kp ← key p;
        if kp >? v then Some pos else n ← get_next h pos; ordered_find fuel key n head v h
    end.

Definition insert_ordered (fuel : nat) key (hd new : L) (v : Z) h : option (gmap L (list_head L)) :=
  first ← get_next h (Some hd);
  pos ← ordered_find fuel key first (Some hd) v h;
  list_add_tail (Some new) pos h.

(** Where the walk stops. *)
Fixpoint split_le (v : Z) k (l : list L) : list L * list L :=
  match l with
  | [] => ([], [])
  | x :: l => if k x >? v then ([], x :: l) else let r := split_le v k l in (x :: r.1, r.2)
  end.

Lemma split_le_app v k l : (split_le v k l).1 ++ (split_le v k l).2 = l.
Proof. induction l as [|x l IH]; [done|]. cbn. destruct (_ >? _); [done|]. cbn. by rewrite IH. Qed.

Lemma split_le_bounds v k l : Forall (λ x, k x <= v) (split_le v k l).1 ∧ (∀ y, head (split_le v k l).2 = Some y → v < k y).
Proof.
  induction l as [|x l [IH1 IH2]]; [done|]. cbn. rewrite Z.gtb_ltb. destruct (Z.ltb_spec v (k x)).
  - split; [constructor|]. cbn. intros y [= <-]. done.
  - split; [|done]. cbn. by constructor.
Qed.

Lemma ordered_find_spec fuel key k h hd pre suf v : dll h hd (pre ++ suf) → (length suf <= fuel)%nat →
  (∀ x, x ∈ suf → key x = Some (k x)) →
  ordered_find fuel key (Some (default hd (head suf))) (Some hd) v h = Some (Some (default hd (head (split_le v k suf).2))).
Proof.
  revert pre suf. induction fuel as [|fuel IH]; intros pre suf Hd Hf Hk.
  - destruct suf; [|cbn in Hf; lia]. cbn. by rewrite bool_decide_eq_true_2.
  - destruct suf as [|x suf]; cbn [ordered_find head default split_le fst snd mbind option_bind]; [by rewrite bool_decide_eq_true_2|].
    pose proof (dll_NoDup _ _ _ Hd) as [_ Hni]. rewrite bool_decide_eq_false_2 by (intros [= ->]; set_solver).
    rewrite Hk by set_solver. cbn [mbind option_bind]. destruct (_ >? _); [done|].
    destruct (dll_neighbours _ _ _ _ _ Hd) as [_ En]. cbn [id]. rewrite En. cbn [mbind option_bind].
    rewrite (IH (pre ++ [x])).
    + done.
    + by rewrite <- app_assoc.
    + cbn in Hf. lia.
    + intros y Hy. apply Hk. set_solver.
Qed.

(** Insertion before a node, or before the head. *)
Lemma lists_rep_add_before h M hd xs ys new : lists_rep h M → M !! hd = Some (xs ++ ys) → M !! new = Some [] → new ≠ hd →
  ∃ h', list_add_tail (Some new) (Some (default hd (head ys))) h = Some h' ∧
    lists_rep h' (<[hd := xs ++ new :: ys]> (delete new M)).
Proof.
  intros Hrep Hhd Hnew Hne. destruct (lists_rep_detached _ _ _ _ _ Hrep Hhd Hnew Hne) as [Hd Hni].
  pose proof (lists_rep_dll _ _ _ _ Hrep Hhd) as Hdll.
  destruct (__list_add_spec h hd xs ys new Hdll Hd Hni) as (h' & E & Hdll' & HS). exists h'. split.
  - unfold list_add_tail. assert (get_prev h (Some (default hd (head ys))) = Some (Some (default hd (last xs)))) as ->; [|exact E].
    destruct ys as [|y ys]; cbn; [|by apply (dll_neighbours _ _ _ _ _ Hdll)].
    apply get_prev_prv. rewrite app_nil_r in Hdll. by apply dll_last.
  - by apply (lists_rep_insert h h' M hd xs ys new).
Qed.

Lemma insert_ordered_spec fuel key k h M hd l new v : lists_rep h M → M !! hd = Some l → M !! new = Some [] → new ≠ hd →
  (length l <= fuel)%nat → (∀ x, x ∈ l → key x = Some (k x)) →
  ∃ h', insert_ordered fuel key hd new v h = Some h' ∧
    lists_rep h' (<[hd := (split_le v k l).1 ++ new :: (split_le v k l).2]> (delete new M)).
Proof.
  intros Hrep Hhd Hnew Hne Hf Hk. pose proof (lists_rep_dll _ _ _ _ Hrep Hhd) as Hdll. unfold insert_ordered.
  rewrite (get_next_nxt _ _ _ (dll_first _ _ _ Hdll)). cbn [mbind option_bind].
  rewrite (ordered_find_spec fuel key k h hd [] l v) by done. cbn [mbind option_bind].
  apply lists_rep_add_before; try done. by rewrite split_le_app.
Qed.

(** Insertion keeps the keys sorted. *)
Lemma split_le_sorted v k l : StronglySorted Z.le (k <$> l) →
  StronglySorted Z.le ((k <$> (split_le v k l).1) ++ v :: (k <$> (split_le v k l).2)).
Proof.
  intros Hs. pose proof (split_le_bounds v k l) as [Hb Hh]. rewrite <- (split_le_app v k l), fmap_app in Hs.
  apply StronglySorted_app in Hs as (H12 & H1 & H2). apply StronglySorted_app. split; [|split; [done|]].
  - intros a b Ha Hin. apply list_elem_of_fmap in Ha as (x & -> & Hx). rewrite Forall_forall in Hb. specialize (Hb x Hx).
    apply elem_of_cons in Hin as [->|Hin]; [done|]. apply H12; [|done]. apply list_elem_of_fmap. by exists x.
  - apply StronglySorted_cons. split; [|done]. destruct (split_le v k l).2 as [|y ys]; [constructor|].
    specialize (Hh y eq_refl). cbn in *. apply StronglySorted_cons in H2 as [Hf _]. constructor; [lia|].
    eapply Forall_impl; [exact Hf|]. cbn. intros; lia.
Qed.
(** A store in which the named nodes point to themselves. *)
Lemma selfs_lists_rep (h : gmap L (list_head L)) : ∃ M, lists_rep h M ∧ ∀ a, dll h a [] → M !! a = Some [].
Proof.
  set (P := λ a, nxt h a = Some a ∧ prv h a = Some a).
  exists (gset_to_gmap [] (filter P (dom h))). split; [split|].
  - intros hd xs [Hin <-]%lookup_gset_to_gmap_Some. apply elem_of_filter in Hin as [[H1 H2] _]. apply dll_nil. by split.
  - intros hd1 xs1 hd2 xs2 x [_ <-]%lookup_gset_to_gmap_Some [_ <-]%lookup_gset_to_gmap_Some.
    rewrite !list_elem_of_singleton. by intros -> ->.
  - intros a Hd. apply lookup_gset_to_gmap_Some. split; [|done]. apply elem_of_filter.
    split; [|apply (dll_dom _ _ _ a Hd); set_solver]. apply dll_nil in Hd as [? ?]. by split.
Qed.

End ordered.
