(* ===== verification/Sleep.v ===== *)
(** * Sleeping threads (kernel/sched/timer.c)

    The per-CPU sleep queues, ordered by wake-up time, and the part of the timer
    interrupt that wakes threads and drives the scheduler.  Software timers are
    in their own file. *)

From S2P Require Import Prelude KList OrdList Bitmap SchedTypes Sched Threads.

Set Default Goal Selector "!".

Definition TIMER_IRQ_MAX_WAKEUPS : nat := 16.

Definition MS_TO_TICKS (ms : Z) : Z := u64 (ms * CONFIG_TICK_RATE_HZ) / 1000.

(** [timer_init] initialises the heads of the sleep queues. *)
Fixpoint init_sleep_queues (n : nat) (c : Z) (s : sched) : option sched :=
  match n with
  | O => Some s
  | S n => s ← on_snodes (INIT_LIST_HEAD (Some (SleepHead c))) s; init_sleep_queues n (c + 1) s
  end.

(** The time at which the thread of a sleep node wakes. *)
Definition sleep_key (s : sched) (a : saddr) : option Z :=
  t ← sleep_entry (Some a); th ← get_thread s t; Some (wakeup_tick th).

(** No queue holds more than every thread. *)
Definition SLEEP_FUEL : nat := 256.

Definition sleep_queue_insert_ordered (c t wake : Z) (s : sched) : option sched :=
  on_snodes (insert_ordered SLEEP_FUEL (sleep_key s) (SleepHead c) (SleepNode t) wake) s.

Definition kthread_sleep_ticks (c ticks : Z) (s : sched) : option sched :=
  if ticks =? 0 then Some s
  else
    cur ← kthread_get_current c s;
    match cur with
    | None => Some s
    | Some t =>
        let wake := u64 (s_system_ticks s + ticks) in
        s ← on_thread t (set_wakeup wake) s;
        s ← on_thread t (set_tstate KTHREAD_STATE_SLEEPING) s;
        s ← sleep_queue_insert_ordered c t wake s;
        do_schedule c s
    end.

Definition kthread_sleep (c ms : Z) (s : sched) : option (sched * Z) :=
  let ticks := MS_TO_TICKS ms in
  let ticks := if ticks =? 0 then 1 else ticks in
  s ← kthread_sleep_ticks c ticks s;
  Some (s, KERNEL_OK).

Definition timer_wakeup_thread (c : Z) (thread : option Z) (s : sched) : option sched :=
  match thread with
  | None => Some s
  | Some t =>
      th ← get_thread s t;
      if negb (bool_decide (tstate th = KTHREAD_STATE_SLEEPING)) then Some s
      else
        n ← get_next (snodes s) (Some (SleepNode t));
        s ← if bool_decide (n ≠ Some (SleepNode t)) then on_snodes (list_del_init (Some (SleepNode t))) s else Some s;
        s ← on_thread t (set_tstate KTHREAD_STATE_READY) s;
        scheduler_enqueue c (Some t) s
  end.

(** The wake-up loop of the interrupt: at most [n] threads. *)
Fixpoint wakeup_loop (n : nat) (c now : Z) (s : sched) : option sched :=
  match n with
  | O => Some s
  | S n =>
      e ← list_empty (Some (SleepHead c)) (snodes s);
      if (e : bool) then Some s
      else
        p ← get_next (snodes s) (Some (SleepHead c));
        t ← sleep_entry p;
        th ← get_thread s t;
        if wakeup_tick th >? now then Some s
        else
          s ← on_snodes (list_del_init (Some (SleepNode t))) s;
          s ← on_thread t (set_tstate KTHREAD_STATE_READY) s;
          s ← scheduler_enqueue c (Some t) s;
          wakeup_loop n c now s
  end.

(** [timer_interrupt_handler] on a CPU without software timers, whose queue is
    empty; the whole handler is [SwTimer.timer_interrupt_handler], and
    [TimerTheorems.interrupt_without_timers] relates the two. *)
Definition timer_interrupt (c : Z) (s : sched) : option sched :=
  let now := u64 (s_system_ticks s + 1) in
  s ← wakeup_loop TIMER_IRQ_MAX_WAKEUPS c now (upd_ticks now s);
  scheduler_tick c s.
