(* ===== verification/SwTimer.v ===== *)
(** * Software timers and the timer interrupt (kernel/sched/timer.c, timer.h)

    Timers belong to their owners; the table [tm_tab] holds the structures in use
    under an identifier.  Callbacks are a parameter that acts on the scheduler. *)

From S2P Require Import Prelude KList OrdList SchedTypes Sched Threads Sleep.

Set Default Goal Selector "!".

Definition TIMER_IRQ_MAX_CALLBACKS : nat := 8.

Inductive TimerState_t := TIMER_STATE_IDLE | TIMER_STATE_ACTIVE | TIMER_STATE_EXPIRED | TIMER_STATE_CALLBACK.

#[global] Instance timer_state_eq_dec : EqDecision TimerState_t.
Proof. solve_decision. Defined.

(** The node is in the node store; a callback of 0 is NULL. *)
Record SoftwareTimer_t := SwTimer {
  expire_tick : Z; interval : Z; callback : Z; callback_arg : Z; tm_state : TimerState_t
}.

Definition set_tm_state v t := SwTimer (expire_tick t) (interval t) (callback t) (callback_arg t) v.

(** [&s_timer_queues[c]] and [&timer->node]. *)
Inductive taddr := TmHead (c : Z) | TmNode (i : Z).

#[global] Instance taddr_eq_dec : EqDecision taddr.
Proof. solve_decision. Defined.

#[global] Instance taddr_countable : Countable taddr.
Proof.
  refine (inj_countable' (λ a, match a with TmHead c => inl c | TmNode i => inr i end)
                         (λ x, match x with inl c => TmHead c | inr i => TmNode i end) _).
  by intros [].
Defined.

Notation tnodes_t := (gmap taddr (list_head taddr)).

Record timers := Timers { tm_tab : gmap Z SoftwareTimer_t; tm_nodes : tnodes_t }.

Definition on_tnodes (f : tnodes_t → option tnodes_t) (tm : timers) : option timers :=
  h ← f (tm_nodes tm); Some (Timers (tm_tab tm) h).

Definition set_timer (i : Z) (t : SoftwareTimer_t) (tm : timers) : timers := Timers (<[i := t]> (tm_tab tm)) (tm_nodes tm).

Definition tm_entry (p : option taddr) : option Z := match p with Some (TmNode i) => Some i | _ => None end.

(** ** Queues *)

(** [timer_init] initialises the heads. *)
Fixpoint init_timer_queues (n : nat) (c : Z) (tm : timers) : option timers :=
  match n with
  | O => Some tm
  | S n => tm ← on_tnodes (INIT_LIST_HEAD (Some (TmHead c))) tm; init_timer_queues n (c + 1) tm
  end.

Definition timer_key (tm : timers) (a : taddr) : option Z :=
  i ← tm_entry (Some a); t ← tm_tab tm !! i; Some (expire_tick t).

Definition timer_queue_insert_ordered (c i expire : Z) (tm : timers) : option timers :=
  on_tnodes (insert_ordered (size (tm_tab tm)) (timer_key tm) (TmHead c) (TmNode i) expire) tm.

(** Unlink the timer when it is in a queue. *)
Definition timer_unlink (i : Z) (tm : timers) : option timers :=
  n ← get_next (tm_nodes tm) (Some (TmNode i));
  if bool_decide (n ≠ Some (TmNode i)) then on_tnodes (list_del_init (Some (TmNode i))) tm else Some tm.

(** ** Calls *)

Definition timer_init_soft (timer : option Z) (cb arg : Z) (tm : timers) : option timers :=
  match timer with
  | None => Some tm
  | Some i => on_tnodes (INIT_LIST_HEAD (Some (TmNode i))) (set_timer i (SwTimer 0 0 cb arg TIMER_STATE_IDLE) tm)
  end.

Definition timer_start_oneshot (c : Z) (timer : option Z) (ms ticks : Z) (tm : timers) : option timers :=
  match timer with
  | None => Some tm
  | Some i =>
      t ← tm_tab tm !! i;
      let e := u64 (ticks + MS_TO_TICKS ms) in
      let tm := set_timer i (SwTimer e 0 (callback t) (callback_arg t) TIMER_STATE_ACTIVE) tm in
      tm ← timer_unlink i tm;
      timer_queue_insert_ordered c i e tm
  end.

Definition timer_start_periodic (c : Z) (timer : option Z) (ms ticks : Z) (tm : timers) : option timers :=
  match timer with
  | None => Some tm
  | Some i =>
      t ← tm_tab tm !! i;
      let e := u64 (ticks + MS_TO_TICKS ms) in
      let tm := set_timer i (SwTimer e (MS_TO_TICKS ms) (callback t) (callback_arg t) TIMER_STATE_ACTIVE) tm in
      tm ← timer_unlink i tm;
      timer_queue_insert_ordered c i e tm
  end.

Definition timer_stop (timer : option Z) (tm : timers) : option timers :=
  match timer with
  | None => Some tm
  | Some i =>
      t ← tm_tab tm !! i;
      tm ← timer_unlink i tm;
      Some (set_timer i (set_tm_state TIMER_STATE_IDLE t) tm)
  end.

(** ** The interrupt *)

Section interrupt.
Context (run_callback : Z → Z → sched → option sched).

(** The callback loop; the timers that fired are returned in order. *)
Fixpoint timer_loop (n : nat) (c now : Z) (tm : timers) (s : sched) : option (timers * sched * list Z) :=
  match n with
  | O => Some (tm, s, [])
  | S n =>
      e ← list_empty (Some (TmHead c)) (tm_nodes tm);
      if (e : bool) then Some (tm, s, [])
      else
        p ← get_next (tm_nodes tm) (Some (TmHead c));
        i ← tm_entry p;
        t ← tm_tab tm !! i;
        if expire_tick t >? now then Some (tm, s, [])
        else
          tm ← on_tnodes (list_del_init (Some (TmNode i))) tm;
          let tm := set_timer i (set_tm_state TIMER_STATE_CALLBACK t) tm in
          s ← if negb (callback t =? 0) then run_callback (callback t) (callback_arg t) s else Some s;
          tm ← if interval t >? 0 then
                 let e := u64 (expire_tick t + interval t) in
                 let tm := set_timer i (SwTimer e (interval t) (callback t) (callback_arg t) TIMER_STATE_ACTIVE) tm in
                 timer_queue_insert_ordered c i e tm
               else Some (set_timer i (set_tm_state TIMER_STATE_EXPIRED t) tm);
          r ← timer_loop n c now tm s;
          Some (r.1.1, r.1.2, i :: r.2)
  end.

Definition timer_interrupt_handler (c : Z) (tm : timers) (s : sched) : option (timers * sched * list Z) :=
  let now := u64 (s_system_ticks s + 1) in
  r ← timer_loop TIMER_IRQ_MAX_CALLBACKS c now tm (upd_ticks now s);
  let '(tm, s, fired) := r in
  s ← wakeup_loop TIMER_IRQ_MAX_WAKEUPS c now s;
  s ← scheduler_tick c s;
  Some (tm, s, fired).
End interrupt.

(** ** Reading the clock *)

Definition timer_get_ticks (s : sched) : Z := s_system_ticks s.

(** The hardware counter is an argument; [freq] is [s_counter_freq]. *)
Definition get_ticks_per_counter_tick (freq : Z) : Z := if freq =? 0 then 1 else freq / CONFIG_TICK_RATE_HZ.
Definition timer_set_next_compare (count freq : Z) : Z := u64 (count + get_ticks_per_counter_tick freq).
Definition timer_get_ns (counts freq : Z) : Z := if freq =? 0 then 0 else u64 (counts * 1000000000) / freq.
Definition timer_get_us (counts freq : Z) : Z := if freq =? 0 then 0 else u64 (counts * 1000000) / freq.
Definition timer_get_ms (counts freq : Z) : Z := if freq =? 0 then 0 else u64 (counts * 1000) / freq.
