(* ===== verification/SchedRep.v ===== *)
(** * The ready and sleep queues as sequences

    [rq_rep s Q SL] says that the pointers, bitmaps and counters of [s] stand for
    the sequences [Q c p] of ready threads and [SL c] of sleeping ones.  The
    locked queue operations are proved against it. *)

From S2P Require Import Prelude KList Bitmap SchedTypes Sched.

Set Default Goal Selector "!".

Definition is_cpu (c : Z) : Prop := 0 <= c < CONFIG_MAX_CPUS.
Definition is_prio (p : Z) : Prop := 0 <= p < CONFIG_PRIORITY_LEVELS.
Definition is_tid (t : Z) : Prop := 0 <= t < CONFIG_MAX_THREADS.

#[global] Instance is_cpu_dec c : Decision (is_cpu c).
Proof. unfold is_cpu. apply _. Defined.

#[global] Instance is_prio_dec p : Decision (is_prio p).
Proof. unfold is_prio. apply _. Defined.

(** ** Families of queues *)

Notation queues := (Z → Z → list Z).

Definition qset (c p : Z) (l : list Z) (Q : queues) : queues :=
  λ c' p', if decide (c' = c ∧ p' = p) then l else Q c' p'.

Lemma qset_eq c p l Q : qset c p l Q c p = l.
Proof. unfold qset. by rewrite decide_True. Qed.

Lemma qset_ne c p l Q c' p' : ¬ (c' = c ∧ p' = p) → qset c p l Q c' p' = Q c' p'.
Proof. intros H. unfold qset. by rewrite decide_False. Qed.

(** The number of threads queued on a CPU. *)
Definition qall (Q : queues) (c : Z) : list Z := seqZ 0 CONFIG_PRIORITY_LEVELS ≫= Q c.

Lemma elem_of_qall Q c t : t ∈ qall Q c ↔ ∃ p, is_prio p ∧ t ∈ Q c p.
Proof. unfold qall, is_prio. rewrite list_elem_of_bind. setoid_rewrite elem_of_seqZ. naive_solver lia. Qed.

Lemma bind_length_set (xs : list Z) (f g : Z → list Z) (p : Z) : NoDup xs → (∀ x, x ≠ p → g x = f x) → p ∈ xs →
  Z.of_nat (length (xs ≫= g)) = Z.of_nat (length (xs ≫= f)) - Z.of_nat (length (f p)) + Z.of_nat (length (g p)).
Proof.
  intros Hnd Hne. induction Hnd as [|x xs Hx Hnd IH]; [by intros ?%elem_of_nil|].
  intros [->|Hp]%elem_of_cons; rewrite !bind_cons, !length_app.
  - assert (xs ≫= g = xs ≫= f) as ->; [|lia].
    clear -Hne Hx. induction xs as [|y xs IH]; [done|]. rewrite not_elem_of_cons in Hx. destruct Hx as [Hy Hx].
    rewrite !bind_cons, IH, (Hne y) by done. done.
  - rewrite (Hne x) by (by intros ->). specialize (IH Hp). lia.
Qed.

Lemma qall_set Q c p l : is_prio p →
  Z.of_nat (length (qall (qset c p l Q) c)) = Z.of_nat (length (qall Q c)) - Z.of_nat (length (Q c p)) + Z.of_nat (length l).
Proof.
  intros Hp. unfold qall. rewrite (bind_length_set _ (Q c) (qset c p l Q c) p).
  - by rewrite qset_eq.
  - apply NoDup_seqZ.
  - intros x Hx. apply qset_ne. tauto.
  - apply elem_of_seqZ. unfold is_prio in Hp. lia.
Qed.

Lemma qall_other Q c p l c' : c' ≠ c → qall (qset c p l Q) c' = qall Q c'.
Proof. intros Hne. apply bind_ext_in. intros x _. apply qset_ne. tauto. Qed.

Lemma qall_nil Q c : qall Q c = [] ↔ ∀ p, is_prio p → Q c p = [].
Proof.
  split.
  - intros E p Hp. destruct (Q c p) as [|t l] eqn:El; [done|].
    assert (t ∈ qall Q c) as Ht by (apply elem_of_qall; exists p; rewrite El; set_solver).
    rewrite E in Ht. by apply elem_of_nil in Ht.
  - intros He. destruct (qall Q c) as [|t l] eqn:El; [done|].
    assert (t ∈ qall Q c) as (p & Hp & Ht)%elem_of_qall by (rewrite El; set_solver).
    rewrite He in Ht by done. by apply elem_of_nil in Ht.
Qed.

(** Nobody waits in a ready queue / a sleep queue. *)
Definition unqueued (Q : queues) (t : Z) : Prop := ∀ c p, is_cpu c → is_prio p → t ∉ Q c p.
Definition awake (SL : Z → list Z) (t : Z) : Prop := ∀ c, is_cpu c → t ∉ SL c.

(** The lists that the node store has to hold. *)
Record qmap (M : gmap saddr (list saddr)) (Q : queues) (SL : Z → list Z) : Prop := QMap {
  qm_rq : ∀ c p, is_cpu c → is_prio p → M !! RqHead c p = Some (RqNode <$> Q c p);
  qm_free : ∀ t, is_tid t → unqueued Q t → M !! RqNode t = Some [];
  qm_sleep : ∀ c, is_cpu c → M !! SleepHead c = Some (SleepNode <$> SL c);
  qm_awake : ∀ t, is_tid t → awake SL t → M !! SleepNode t = Some [];
  qm_edf : ∀ t, is_tid t → M !! EdfNode t = Some []
}.

Record rq_rep (s : sched) (Q : queues) (SL : Z → list Z) : Prop := RqRep {
  rr_cpus : Z.of_nat (length (cpu_queues s)) = CONFIG_MAX_CPUS;
  rr_threads : Z.of_nat (length (thread_table s)) = CONFIG_MAX_THREADS;
  rr_lists : ∃ M, lists_rep (snodes s) M ∧ qmap M Q SL;
  rr_prios : ∀ t th, get_thread s t = Some th → is_prio (prio th);
  rr_prio : ∀ c p t, is_cpu c → is_prio p → t ∈ Q c p → ∃ th, get_thread s t = Some th ∧ prio th = p;
  rr_sleep : ∀ c t, is_cpu c → t ∈ SL c → is_tid t;
  rr_bits : ∀ c q, is_cpu c → get_q s c = Some q → bm_wf (bitmap q) ∧
    ∀ p, is_prio p → has_bit (bitmap q) p = bool_decide (Q c p ≠ []);
  rr_count : ∀ c q, is_cpu c → get_q s c = Some q → nr_running q = Z.of_nat (length (qall Q c))
}.

(** ** Consequences *)

Lemma elem_node (f : Z → saddr) `{!Inj (=) (=) f} t (l : list Z) : f t ∈ f <$> l ↔ t ∈ l.
Proof. rewrite list_elem_of_fmap. split; [by intros (? & ->%(inj f) & ?)|]. intros Ht. by exists t. Qed.

#[global] Instance RqNode_inj : Inj (=) (=) RqNode.
Proof. by intros ?? [= ->]. Qed.

#[global] Instance SleepNode_inj : Inj (=) (=) SleepNode.
Proof. by intros ?? [= ->]. Qed.

Section rep.
Context (s : sched) (Q : queues) (SL : Z → list Z) (HR : rq_rep s Q SL).

Lemma rr_q c : is_cpu c → ∃ q, get_q s c = Some q.
Proof using HR.
  intros Hc. destruct (proj2 (zlookup_is_Some (cpu_queues s) c)) as [q Hq]; [rewrite (rr_cpus _ _ _ HR); exact Hc|].
  by exists q.
Qed.

Lemma rr_thread t : is_tid t → ∃ th, get_thread s t = Some th.
Proof using HR.
  intros Ht. destruct (proj2 (zlookup_is_Some (thread_table s) t)) as [q Hq]; [rewrite (rr_threads _ _ _ HR); exact Ht|].
  by exists q.
Qed.

Lemma rr_tid t th : get_thread s t = Some th → is_tid t.
Proof using HR. intros E. apply zlookup_Some_lt in E. by rewrite (rr_threads _ _ _ HR) in E. Qed.

Lemma rr_queued_tid c p t : is_cpu c → is_prio p → t ∈ Q c p → is_tid t.
Proof using HR. intros Hc Hp Ht. destruct (rr_prio _ _ _ HR c p t Hc Hp Ht) as (th & E & _). by eapply rr_tid. Qed.

Lemma rr_dll c p : is_cpu c → is_prio p → dll (snodes s) (RqHead c p) (RqNode <$> Q c p).
Proof using HR.
  intros Hc Hp. destruct (rr_lists _ _ _ HR) as (M & HM & HQ). eapply lists_rep_dll; [exact HM|]. by apply (qm_rq _ _ _ HQ).
Qed.

Lemma rr_sdll c : is_cpu c → dll (snodes s) (SleepHead c) (SleepNode <$> SL c).
Proof using HR.
  intros Hc. destruct (rr_lists _ _ _ HR) as (M & HM & HQ). eapply lists_rep_dll; [exact HM|]. by apply (qm_sleep _ _ _ HQ).
Qed.

(** A thread is in one queue at most, once. *)
Lemma rr_once c p c' p' t : is_cpu c → is_prio p → is_cpu c' → is_prio p' → t ∈ Q c p → t ∈ Q c' p' → c = c' ∧ p = p'.
Proof using HR.
  intros Hc Hp Hc' Hp' H1 H2. destruct (rr_lists _ _ _ HR) as (M & [_ HM] & HQ).
  assert (RqHead c p = RqHead c' p') as [= -> ->]; [|done].
  apply (HM _ _ _ _ (RqNode t) (qm_rq _ _ _ HQ c p Hc Hp) (qm_rq _ _ _ HQ c' p' Hc' Hp')); right; by apply elem_node; [apply _|].
Qed.

Lemma rr_sleep_once c c' t : is_cpu c → is_cpu c' → t ∈ SL c → t ∈ SL c' → c = c'.
Proof using HR.
  intros Hc Hc' H1 H2. destruct (rr_lists _ _ _ HR) as (M & [_ HM] & HQ).
  assert (SleepHead c = SleepHead c') as [= ->]; [|done].
  apply (HM _ _ _ _ (SleepNode t) (qm_sleep _ _ _ HQ c Hc) (qm_sleep _ _ _ HQ c' Hc')); right; by apply elem_node; [apply _|].
Qed.

Lemma rr_nodup c p : is_cpu c → is_prio p → NoDup (Q c p).
Proof using HR. intros Hc Hp. destruct (dll_NoDup _ _ _ (rr_dll c p Hc Hp)) as [Hn _]. by apply NoDup_fmap_1 in Hn. Qed.

Lemma rr_bound c : is_cpu c → Z.of_nat (length (qall Q c)) <= CONFIG_MAX_THREADS.
Proof using HR.
  intros Hc. assert (NoDup (qall Q c)) as Hnd.
  { apply NoDup_bind.
    - intros p1 p2 t Hp1 Hp2. apply elem_of_seqZ in Hp1, Hp2. intros H1 H2.
      apply (rr_once c p1 c p2 t); try done; unfold is_prio; lia.
    - intros p Hp. apply elem_of_seqZ in Hp. apply rr_nodup; [done|]. unfold is_prio. lia.
    - apply NoDup_seqZ. }
  assert (qall Q c ⊆+ seqZ 0 CONFIG_MAX_THREADS) as Hs%submseteq_length.
  { apply NoDup_submseteq; [done|]. intros t (p & Hp & Ht)%elem_of_qall.
    pose proof (rr_queued_tid c p t Hc Hp Ht) as Hi. apply elem_of_seqZ. unfold is_tid in Hi. lia. }
  rewrite length_seqZ in Hs. unfold CONFIG_MAX_THREADS in *. lia.
Qed.

Lemma rr_queue_nr c q : is_cpu c → get_q s c = Some q → 0 <= nr_running q <= CONFIG_MAX_THREADS.
Proof using HR. intros Hc Hq. rewrite (rr_count _ _ _ HR c q Hc Hq). pose proof (rr_bound c Hc). lia. Qed.
End rep.

(** ** Updates *)

Lemma on_q_spec c f s q : get_q s c = Some q → ∃ s', on_q c f s = Some s' ∧ get_q s' c = Some (f q) ∧
  (∀ c', c' ≠ c → get_q s' c' = get_q s c') ∧ upd_queues [] s' = upd_queues [] s ∧
  length (cpu_queues s') = length (cpu_queues s).
Proof.
  intros Hq. pose proof (zlookup_Some_lt _ _ _ Hq) as Hlt. unfold on_q. rewrite Hq. cbn [mbind option_bind].
  rewrite zupdate_total by done. cbn [mbind option_bind]. eexists. split; [done|]. unfold get_q. cbn.
  split; [apply zlookup_insert_eq; lia|]. split; [|split; [done|apply length_insert]].
  intros c' Hne. apply zlookup_insert_ne; lia.
Qed.

Lemma on_thread_spec t f s th : get_thread s t = Some th → ∃ s', on_thread t f s = Some s' ∧
  get_thread s' t = Some (f th) ∧ (∀ t', t' ≠ t → get_thread s' t' = get_thread s t') ∧
  upd_threads [] s' = upd_threads [] s ∧ length (thread_table s') = length (thread_table s).
Proof.
  intros Ht. pose proof (zlookup_Some_lt _ _ _ Ht) as Hlt. unfold on_thread. rewrite Ht. cbn [mbind option_bind].
  rewrite zupdate_total by done. cbn [mbind option_bind]. eexists. split; [done|]. unfold get_thread. cbn.
  split; [apply zlookup_insert_eq; lia|]. split; [|split; [done|apply length_insert]].
  intros t' Hne. apply zlookup_insert_ne; lia.
Qed.

(** What the queue operations leave alone. *)
Definition qview (q : PerCPUReadyQueue_t) := (current_thread q, idle_thread q, need_resched q).

Record keeps (s s' : sched) : Prop := Keeps {
  ke_rest : upd_queues [] (upd_snodes ∅ s') = upd_queues [] (upd_snodes ∅ s);
  ke_view : ∀ c, qview <$> get_q s' c = qview <$> get_q s c
}.

Lemma keeps_refl s : keeps s s.
Proof. done. Qed.

Lemma keeps_trans s1 s2 s3 : keeps s1 s2 → keeps s2 s3 → keeps s1 s3.
Proof. intros [R1 V1] [R2 V2]. split; [by rewrite R2|]. intros c. by rewrite V2. Qed.

Section keeps.
Context s s' (HK : keeps s s').

Lemma keeps_threads : thread_table s' = thread_table s.
Proof using HK. exact (f_equal thread_table (ke_rest _ _ HK)). Qed.

Lemma keeps_get_thread t : get_thread s' t = get_thread s t.
Proof using HK. unfold get_thread. by rewrite keeps_threads. Qed.

Lemma keeps_classes : classes s' = classes s.
Proof using HK. exact (f_equal classes (ke_rest _ _ HK)). Qed.

Lemma keeps_q c q : get_q s c = Some q → ∃ q', get_q s' c = Some q' ∧ current_thread q' = current_thread q ∧
  idle_thread q' = idle_thread q ∧ need_resched q' = need_resched q.
Proof using HK.
  intros Hq. pose proof (ke_view _ _ HK c) as E. rewrite Hq in E. cbn in E.
  destruct (get_q s' c) as [q'|]; [|done]. injection E as E1 E2 E3. by exists q'.
Qed.

Lemma keeps_q_inv c q' : get_q s' c = Some q' → ∃ q, get_q s c = Some q ∧ current_thread q' = current_thread q ∧
  idle_thread q' = idle_thread q ∧ need_resched q' = need_resched q.
Proof using HK.
  intros Hq. pose proof (ke_view _ _ HK c) as E. rewrite Hq in E. cbn in E.
  destruct (get_q s c) as [q|]; [|done]. injection E as E1 E2 E3. by exists q.
Qed.
End keeps.

(** A change of one queue's bitmap and counter. *)
Lemma keeps_on_q s c q q' s' : get_q s c = Some q → qview q' = qview q → get_q s' c = Some q' →
  (∀ c', c' ≠ c → get_q s' c' = get_q s c') → upd_queues [] s' = upd_queues [] s → keeps s s'.
Proof.
  intros Hq Hv Hq' Hoth Hr. split.
  - destruct s, s'. unfold upd_queues, upd_snodes in *. cbn in *. congruence.
  - intros c'. destruct (decide (c' = c)) as [->|Hne]; [by rewrite Hq, Hq'; cbn; f_equal|by rewrite Hoth].
Qed.

Lemma keeps_snodes s h : keeps s (upd_snodes h s).
Proof. by split. Qed.

Lemma rq_rep_update s s' Q SL c p l q q' : rq_rep s Q SL → is_cpu c → is_prio p → keeps s s' →
  get_q s c = Some q → get_q s' c = Some q' → (∀ c', c' ≠ c → get_q s' c' = get_q s c') →
  length (cpu_queues s') = length (cpu_queues s) →
  (∃ M, lists_rep (snodes s') M ∧ qmap M (qset c p l Q) SL) →
  (∀ t, t ∈ l → ∃ th, get_thread s t = Some th ∧ prio th = p) →
  bm_wf (bitmap q') → (∀ p', is_prio p' → has_bit (bitmap q') p' =
    if decide (p' = p) then bool_decide (l ≠ []) else has_bit (bitmap q) p') →
  nr_running q' = nr_running q - Z.of_nat (length (Q c p)) + Z.of_nat (length l) →
  rq_rep s' (qset c p l Q) SL.
Proof.
  intros HR Hc Hp HK Hq Hq' Hoth Hlen HM Hl Hwf Hbits Hnr. pose proof HR as [R1 R2 R3 R4 R5 R6 R7 R8].
  pose proof (keeps_get_thread _ _ HK) as Hth. split.
  - by rewrite Hlen.
  - by rewrite (keeps_threads _ _ HK).
  - done.
  - intros t th. rewrite Hth. apply R4.
  - intros c' p' t Hc' Hp'. rewrite Hth. unfold qset. case_decide as E; [destruct E as [-> ->]; apply Hl|by apply R5].
  - done.
  - intros c' q'' Hc' Hq''. destruct (decide (c' = c)) as [->|Hne].
    + assert (q'' = q') as -> by congruence. split; [done|]. intros p' Hp'. rewrite Hbits by done. case_decide as E.
      * subst p'. by rewrite qset_eq.
      * rewrite qset_ne by tauto. by apply (R7 c q Hc Hq).
    + rewrite Hoth in Hq'' by done. destruct (R7 c' q'' Hc' Hq'') as [? Hb]. split; [done|].
      intros p' Hp'. rewrite qset_ne by tauto. by apply Hb.
  - intros c' q'' Hc' Hq''. destruct (decide (c' = c)) as [->|Hne].
    + assert (q'' = q') as -> by congruence. rewrite qall_set, Hnr, (R8 c q Hc Hq) by done. lia.
    + rewrite Hoth in Hq'' by done. rewrite qall_other by done. by apply R8.
Qed.

Lemma unqueued_qset_add Q c p t t' : is_cpu c → is_prio p → unqueued (qset c p (Q c p ++ [t]) Q) t' → unqueued Q t' ∧ t' ≠ t.
Proof.
  intros Hc Hp H. split.
  - intros c' p' Hc' Hp' Ht. apply (H c' p' Hc' Hp'). unfold qset. case_decide as E; [destruct E as [-> ->]; set_solver|done].
  - intros ->. apply (H c p Hc Hp). rewrite qset_eq. set_solver.
Qed.

Lemma qmap_add M Q SL c p t : qmap M Q SL → is_cpu c → is_prio p → is_tid t →
  qmap (<[RqHead c p := (RqNode <$> Q c p) ++ [RqNode t]]> (delete (RqNode t) M)) (qset c p (Q c p ++ [t]) Q) SL.
Proof.
  intros [H1 H2 H3 H4 H5] Hc Hp Ht. split.
  - intros c' p' Hc' Hp'. unfold qset. case_decide as E.
    + destruct E as [-> ->]. rewrite lookup_insert_eq, fmap_app. done.
    + rewrite lookup_insert_ne by (intros [= ? ?]; naive_solver). rewrite lookup_delete_ne by done. by apply H1.
  - intros t' Ht' Hun. apply unqueued_qset_add in Hun as [Hun Hne]; [|done..].
    rewrite lookup_insert_ne by done. rewrite lookup_delete_ne by congruence. by apply H2.
  - intros c' Hc'. rewrite lookup_insert_ne by done. rewrite lookup_delete_ne by done. by apply H3.
  - intros t' Ht' Hun. rewrite lookup_insert_ne by done. rewrite lookup_delete_ne by done. by apply H4.
  - intros t' Ht'. rewrite lookup_insert_ne by done. rewrite lookup_delete_ne by done. by apply H5.
Qed.

(** ** Enqueue *)

Lemma enqueue_spec s Q SL c t th : rq_rep s Q SL → is_cpu c → get_thread s t = Some th → unqueued Q t →
  ∃ s', __sched_enqueue_locked c t s = Some s' ∧ keeps s s' ∧ rq_rep s' (qset c (prio th) (Q c (prio th) ++ [t]) Q) SL.
Proof.
  intros HR Hc Ht Hun. pose proof (rr_prios _ _ _ HR t th Ht) as Hp. pose proof (rr_tid _ _ _ HR t th Ht) as Hti.
  destruct (rr_q _ _ _ HR c Hc) as (q & Hq). destruct (rr_bits _ _ _ HR c q Hc Hq) as [Hwf Hbits].
  unfold __sched_enqueue_locked. rewrite Hq. cbn [mbind option_bind]. rewrite Ht. cbn [mbind option_bind].
  destruct (bitmap256_set_spec (bitmap q) Hwf (prio th) Hp) as (bm & -> & Hwf' & Hbm). cbn [mbind option_bind].
  destruct (on_q_spec c (set_bitmap bm) s q Hq) as (s1 & -> & Hq1 & Ho1 & Hr1 & Hl1). cbn [mbind option_bind].
  destruct (rr_lists _ _ _ HR) as (M & HM & HQ).
  assert (snodes s1 = snodes s) as Hsn by exact (f_equal snodes Hr1).
  destruct (lists_rep_add_tail (snodes s) M (RqHead c (prio th)) (RqNode <$> Q c (prio th)) (RqNode t))
    as (h & E & HM' & _); [done|by apply (qm_rq _ _ _ HQ)|by apply (qm_free _ _ _ HQ)|done|].
  unfold on_snodes at 1. rewrite Hsn, E. cbn [mbind option_bind].
  destruct (on_q_spec c (λ q, set_nr (u32 (nr_running q + 1)) q) (upd_snodes h s1) _ Hq1) as (s2 & -> & Hq2 & Ho2 & Hr2 & Hl2).
  exists s2. split; [done|].
  assert (keeps s s2) as HK.
  { apply (keeps_trans s s1); [exact (keeps_on_q s c q (set_bitmap bm q) s1 Hq eq_refl Hq1 Ho1 Hr1)|].
    apply (keeps_trans s1 (upd_snodes h s1)); [apply keeps_snodes|].
    refine (keeps_on_q (upd_snodes h s1) c _ _ s2 Hq1 _ Hq2 Ho2 Hr2). done. }
  split; [exact HK|]. eapply (rq_rep_update s s2 Q SL c (prio th) _ q); try done.
  - intros c' Hne. rewrite Ho2 by done. by apply Ho1.
  - rewrite Hl2. exact Hl1.
  - eexists. split; [|by apply qmap_add]. assert (snodes s2 = h) as -> by exact (f_equal snodes Hr2). exact HM'.
  - intros t' [Ht'|Ht']%elem_of_app; [by apply (rr_prio _ _ _ HR c)|].
    apply list_elem_of_singleton in Ht' as ->. by exists th.
  - intros p' Hp'. cbn. rewrite Hbm by done. case_decide as E'.
    + subst p'. rewrite Z.eqb_refl. symmetry. apply bool_decide_eq_true. by destruct (Q c (prio th)).
    + by rewrite (proj2 (Z.eqb_neq _ _)).
  - cbn. pose proof (rr_queue_nr _ _ _ HR c q Hc Hq) as Hn. unfold CONFIG_MAX_THREADS in Hn.
    rewrite u32_small by lia. rewrite length_app. cbn [length]. lia.
Qed.

(** ** Dequeue *)

Lemma unqueued_qset_del Q c p xs t ys t' : is_cpu c → is_prio p → Q c p = xs ++ t :: ys →
  unqueued (qset c p (xs ++ ys) Q) t' → unqueued Q t' ∨ t' = t.
Proof.
  intros Hc Hp Hx H. destruct (decide (t' = t)) as [->|Hne]; [by right|left]. intros c' p' Hc' Hp' Ht.
  apply (H c' p' Hc' Hp'). unfold qset. case_decide as E; [|done]. destruct E as [-> ->]. rewrite Hx in Ht. set_solver.
Qed.

Lemma qmap_del M Q SL c p xs t ys : qmap M Q SL → is_cpu c → is_prio p → Q c p = xs ++ t :: ys →
  qmap (<[RqNode t := []]> (<[RqHead c p := (RqNode <$> xs) ++ (RqNode <$> ys)]> M)) (qset c p (xs ++ ys) Q) SL.
Proof.
  intros [H1 H2 H3 H4 H5] Hc Hp Hx. split.
  - intros c' p' Hc' Hp'. rewrite lookup_insert_ne by done. unfold qset. case_decide as E.
    + destruct E as [-> ->]. by rewrite lookup_insert_eq, fmap_app.
    + rewrite lookup_insert_ne by (intros [= ? ?]; naive_solver). by apply H1.
  - intros t' Ht' Hun. destruct (decide (t' = t)) as [->|Hne]; [by rewrite lookup_insert_eq|].
    rewrite !lookup_insert_ne by congruence.
    apply (unqueued_qset_del Q c p xs t ys t' Hc Hp Hx) in Hun as [Hun|?]; [by apply H2|done].
  - intros c' Hc'. rewrite !lookup_insert_ne by done. by apply H3.
  - intros t' Ht' Hun. rewrite !lookup_insert_ne by done. by apply H4.
  - intros t' Ht'. rewrite !lookup_insert_ne by done. by apply H5.
Qed.

Lemma dequeue_spec s Q SL c t th xs ys : rq_rep s Q SL → is_cpu c → get_thread s t = Some th →
  Q c (prio th) = xs ++ t :: ys →
  ∃ s', __sched_dequeue_locked c t s = Some s' ∧ keeps s s' ∧ rq_rep s' (qset c (prio th) (xs ++ ys) Q) SL.
Proof.
  intros HR Hc Ht Hx. pose proof (rr_prios _ _ _ HR t th Ht) as Hp.
  destruct (rr_q _ _ _ HR c Hc) as (q & Hq). destruct (rr_bits _ _ _ HR c q Hc Hq) as [Hwf Hbits].
  destruct (rr_lists _ _ _ HR) as (M & HM & HQ). pose proof (qm_rq _ _ _ HQ c (prio th) Hc Hp) as Hhd.
  rewrite Hx, fmap_app, fmap_cons in Hhd.
  destruct (lists_rep_del_init (snodes s) M _ _ _ _ HM Hhd) as (h & E & HM' & _).
  unfold __sched_dequeue_locked, on_snodes. rewrite E. cbn [mbind option_bind].
  change (get_thread (upd_snodes h s) t) with (get_thread s t). rewrite Ht. cbn [mbind option_bind snodes upd_snodes].
  pose proof (qmap_del M Q SL c (prio th) xs t ys HQ Hc Hp Hx) as HQ'.
  pose proof (lists_rep_dll _ _ _ _ HM' (qm_rq _ _ _ HQ' c (prio th) Hc Hp)) as Hd. rewrite qset_eq in Hd.
  rewrite (list_empty_spec _ _ _ Hd). cbn [mbind option_bind].
  change (get_q (upd_snodes h s) c) with (get_q s c). rewrite Hq. cbn [mbind option_bind].
  set (q1 := if bool_decide ((RqNode <$> xs ++ ys) = []) then _ else _).
  assert (∃ bm, q1 = Some (set_bitmap bm q) ∧ bm_wf bm ∧ ∀ p', is_prio p' → has_bit bm p' =
    if decide (p' = prio th) then bool_decide (xs ++ ys ≠ []) else has_bit (bitmap q) p') as (bm & -> & Hwf' & Hbm).
  { unfold q1. case_bool_decide as Hn.
    - apply fmap_nil_inv in Hn. destruct (bitmap256_clear_spec (bitmap q) Hwf (prio th) Hp) as (bm & -> & Hw & Hb).
      exists bm. split; [done|]. split; [done|]. intros p' Hp'. rewrite Hb by done. case_decide as E'.
      + subst p'. rewrite Z.eqb_refl, Hn. done.
      + by rewrite (proj2 (Z.eqb_neq _ _)).
    - exists (bitmap q). split; [by destruct q|]. split; [done|]. intros p' Hp'. case_decide as E'; [|done].
      subst p'. rewrite Hbits, Hx by done. rewrite !bool_decide_eq_true_2; [done| |by destruct xs].
      intros E'. by rewrite E' in Hn. }
  cbn [mbind option_bind].
  set (q2 := if nr_running (set_bitmap bm q) >? 0 then _ else _).
  assert (nr_running q2 = nr_running q - 1 ∧ bitmap q2 = bm ∧ qview q2 = qview q) as (Hnr & Hbq & Hv).
  { unfold q2. cbn [nr_running set_bitmap]. rewrite (rr_count _ _ _ HR c q Hc Hq).
    pose proof (qall_set Q c (prio th) (xs ++ ys) Hp) as Hlen. rewrite Hx, !length_app in Hlen. cbn [length] in Hlen.
    rewrite Z.gtb_ltb, (proj2 (Z.ltb_lt _ _)) by lia. done. }
  destruct (on_q_spec c (λ _, q2) (upd_snodes h s) q Hq) as (s2 & -> & Hq2 & Ho2 & Hr2 & Hl2).
  exists s2. split; [done|].
  assert (keeps s s2) as HK.
  { apply (keeps_trans s (upd_snodes h s)); [apply keeps_snodes|].
    exact (keeps_on_q (upd_snodes h s) c q q2 s2 Hq Hv Hq2 Ho2 Hr2). }
  split; [exact HK|]. eapply (rq_rep_update s s2 Q SL c (prio th) _ q q2); try done.
  - eexists. split; [|exact HQ']. assert (snodes s2 = h) as -> by exact (f_equal snodes Hr2). exact HM'.
  - intros t' Ht'. apply (rr_prio _ _ _ HR c); [done|done|]. rewrite Hx. set_solver.
  - by rewrite Hbq.
  - by rewrite Hbq.
  - rewrite Hnr, Hx, !length_app. cbn [length]. lia.
Qed.

(** Dequeueing a thread that waits nowhere on a CPU whose queues are empty: the
    fall-back to the idle thread. *)
Lemma dequeue_idle_spec s Q SL c t th : rq_rep s Q SL → is_cpu c → get_thread s t = Some th → unqueued Q t →
  qall Q c = [] → ∃ s', __sched_dequeue_locked c t s = Some s' ∧ keeps s s' ∧ rq_rep s' Q SL.
Proof.
  intros HR Hc Ht Hun Hem. pose proof (rr_prios _ _ _ HR t th Ht) as Hp. pose proof (rr_tid _ _ _ HR t th Ht) as Hti.
  destruct (rr_q _ _ _ HR c Hc) as (q & Hq). destruct (rr_bits _ _ _ HR c q Hc Hq) as [Hwf Hbits].
  destruct (rr_lists _ _ _ HR) as (M & HM & HQ).
  unfold __sched_dequeue_locked, on_snodes.
  rewrite (list_del_init_self _ _ (lists_rep_dll _ _ _ _ HM (qm_free _ _ _ HQ t Hti Hun))). cbn [mbind option_bind].
  change (get_thread (upd_snodes (snodes s) s) t) with (get_thread s t). rewrite Ht. cbn [mbind option_bind snodes upd_snodes].
  pose proof (proj1 (qall_nil Q c) Hem) as He.
  rewrite (list_empty_spec _ _ _ (rr_dll _ _ _ HR c (prio th) Hc Hp)), He by done. cbn [mbind option_bind fmap list_fmap].
  change (get_q (upd_snodes (snodes s) s) c) with (get_q s c). rewrite Hq. cbn [mbind option_bind].
  rewrite bool_decide_eq_true_2 by done.
  destruct (bitmap256_clear_spec (bitmap q) Hwf (prio th) Hp) as (bm & -> & Hw & Hb). cbn [mbind option_bind].
  assert (nr_running (set_bitmap bm q) = 0) as -> by (cbn; by rewrite (rr_count _ _ _ HR c q Hc Hq), Hem).
  change (0 >? 0) with false. cbv iota.
  destruct (on_q_spec c (λ _, set_bitmap bm q) (upd_snodes (snodes s) s) q Hq) as (s2 & -> & Hq2 & Ho2 & Hr2 & Hl2).
  exists s2. split; [done|].
  assert (keeps s s2) as HK.
  { apply (keeps_trans s (upd_snodes (snodes s) s)); [apply keeps_snodes|].
    exact (keeps_on_q (upd_snodes (snodes s) s) c q (set_bitmap bm q) s2 Hq eq_refl Hq2 Ho2 Hr2). }
  split; [exact HK|]. pose proof HR as [R1 R2 R3 R4 R5 R6 R7 R8]. pose proof (keeps_get_thread _ _ HK) as Hth. split.
  - by rewrite Hl2.
  - by rewrite (keeps_threads _ _ HK).
  - assert (snodes s2 = snodes s) as -> by exact (f_equal snodes Hr2). done.
  - intros t' th'. rewrite Hth. apply R4.
  - intros c' p' t' Hc' Hp'. rewrite Hth. by apply R5.
  - done.
  - intros c' q' Hc' Hq'. destruct (decide (c' = c)) as [->|Hne]; [|rewrite Ho2 in Hq' by done; by apply R7].
    assert (q' = set_bitmap bm q) as -> by congruence. split; [done|]. intros p' Hp'. cbn. rewrite Hb by done.
    rewrite Hbits by done. rewrite He by done. by destruct (_ =? _).
  - intros c' q' Hc' Hq'. destruct (decide (c' = c)) as [->|Hne]; [|rewrite Ho2 in Hq' by done; by apply R8].
    assert (q' = set_bitmap bm q) as -> by congruence. cbn. by apply R8.
Qed.

(** ** The choice of the next thread *)

(** [t] heads the highest queue of [c] that holds a thread. *)
Definition is_top (Q : queues) (c p t : Z) : Prop :=
  is_prio p ∧ head (Q c p) = Some t ∧ ∀ p', p < p' < CONFIG_PRIORITY_LEVELS → Q c p' = [].

Lemma pick_spec s Q SL c : rq_rep s Q SL → is_cpu c → ∃ r, scheduler_pick_next_locked c s = Some r ∧
  match r with Some t => ∃ p, is_top Q c p t | None => qall Q c = [] end.
Proof.
  intros HR Hc. destruct (rr_q _ _ _ HR c Hc) as (q & Hq). destruct (rr_bits _ _ _ HR c q Hc Hq) as [Hwf Hbits].
  unfold scheduler_pick_next_locked. rewrite Hq. cbn [mbind option_bind].
  destruct (bitmap256_find_highest_spec (bitmap q) Hwf) as (r & -> & Hr). cbn [mbind option_bind].
  unfold is_prio, CONFIG_PRIORITY_LEVELS in *. destruct (Z.ltb_spec r 256) as [Hlt|Hge].
  - destruct Hr as [[? _]|(Hr & Hb & Hhi)]; [lia|]. rewrite Hbits in Hb by done. apply bool_decide_eq_true in Hb.
    pose proof (rr_dll _ _ _ HR c r Hc Hr) as Hd.
    destruct (Q c r) as [|t l] eqn:El; [done|].
    rewrite (get_next_nxt _ _ _ (dll_first _ _ _ Hd)). cbn. eexists. split; [done|]. exists r. unfold is_top.
    rewrite El. split; [done|]. split; [done|]. intros p' Hp'. specialize (Hhi p' ltac:(unfold CONFIG_PRIORITY_LEVELS in *; lia)).
    rewrite Hbits in Hhi by (unfold CONFIG_PRIORITY_LEVELS in *; lia). apply bool_decide_eq_false in Hhi.
    destruct (Q c p'); [done|]. by destruct Hhi.
  - destruct Hr as [[_ Hno]|?]; [|lia]. exists None. split; [done|]. apply qall_nil. intros p Hp.
    unfold is_prio, CONFIG_PRIORITY_LEVELS in Hp. specialize (Hno p Hp). rewrite Hbits in Hno by done.
    apply bool_decide_eq_false in Hno. destruct (Q c p); [done|]. by destruct Hno.
Qed.

Lemma is_top_unique Q c p t p' t' : is_top Q c p t → is_top Q c p' t' → p = p' ∧ t = t'.
Proof.
  intros (Hp & Ht & Hh) (Hp' & Ht' & Hh'). destruct Hp, Hp'.
  assert (p = p') as ->; [|split; congruence].
  destruct (Z.lt_trichotomy p p') as [Hlt|[?|Hlt]]; [|done|].
  - by rewrite Hh in Ht'.
  - by rewrite Hh' in Ht.
Qed.
