(* ===== verification/SchedInv.v ===== *)
(** * The invariant of the scheduler

    Every ready thread waits in exactly one queue, every running thread runs on
    exactly one CPU, no thread is lost, and the queues are what [rq_rep] says. *)

From S2P Require Import Prelude KList Bitmap SchedTypes Sched SchedRep.

Set Default Goal Selector "!".

(** ** States, owners and queues as relations *)

Definition st_of (s : sched) (t : Z) : option KThreadState_t := tstate <$> get_thread s t.
Definition cur_of (s : sched) (c : Z) : option Z := get_q s c ≫= current_thread.
Definition idle_of (s : sched) (c : Z) : option Z := get_q s c ≫= idle_thread.
Definition queued (Q : queues) (c t : Z) : Prop := ∃ p, is_prio p ∧ t ∈ Q c p.
Definition asleep (SL : Z → list Z) (c t : Z) : Prop := t ∈ SL c.

(** [lax] is a CPU whose current thread may have left the running state: it is
    about to be switched out. *)
Record cinv (st : Z → option KThreadState_t) (cur idl : Z → option Z) (on slp : Z → Z → Prop) (lax : option Z) : Prop := CInv {
  ci_ready : ∀ c t, is_cpu c → on c t → st t = Some KTHREAD_STATE_READY;
  ci_sleep : ∀ c t, is_cpu c → slp c t → st t = Some KTHREAD_STATE_SLEEPING;
  ci_cur : ∀ c t, is_cpu c → cur c = Some t → ∃ x, st t = Some x ∧ x ≠ KTHREAD_STATE_READY ∧
    (lax ≠ Some c → x = KTHREAD_STATE_RUNNING);
  ci_inj : ∀ c c' t, is_cpu c → is_cpu c' → cur c = Some t → cur c' = Some t → c = c';
  ci_idle : ∀ c, is_cpu c → ∃ i, idl c = Some i ∧
    (st i = Some KTHREAD_STATE_READY ∨ st i = Some KTHREAD_STATE_RUNNING) ∧
    (∀ c', is_cpu c' → on c' i → c' = c) ∧ (∀ c', is_cpu c' → cur c' = Some i → c' = c);
  ci_idle_inj : ∀ c c' i, is_cpu c → is_cpu c' → idl c = Some i → idl c' = Some i → c = c';
  ci_run : ∀ t, st t = Some KTHREAD_STATE_RUNNING → ∃ c, is_cpu c ∧ cur c = Some t;
  ci_wait : ∀ t, st t = Some KTHREAD_STATE_READY →
    (∃ c, is_cpu c ∧ on c t) ∨ (∃ c, is_cpu c ∧ idl c = Some t);
  ci_asleep : ∀ t, st t = Some KTHREAD_STATE_SLEEPING → ∃ c, is_cpu c ∧ slp c t
}.

(** [sched_rr] is the only class and the default. *)
Definition rr_only (r : registry) : Prop :=
  cls_head r = Some sched_rr ∧ cls_default r = Some sched_rr ∧ cls_next r sched_rr = None.

Record sinv (s : sched) (Q : queues) (SL : Z → list Z) (lax : option Z) : Prop := SInv {
  si_rep : rq_rep s Q SL;
  si_classes : rr_only (classes s);
  si_core : cinv (st_of s) (cur_of s) (idle_of s) (queued Q) (asleep SL) lax
}.

(** ** Pure steps *)

Lemma cinv_ext st cur idl on slp lax st' cur' idl' (on' slp' : Z → Z → Prop) :
  cinv st cur idl on slp lax → (∀ t, st' t = st t) → (∀ c, is_cpu c → cur' c = cur c) → (∀ c, is_cpu c → idl' c = idl c) →
  (∀ c t, is_cpu c → on' c t ↔ on c t) → (∀ c t, is_cpu c → slp' c t ↔ slp c t) → cinv st' cur' idl' on' slp' lax.
Proof.
  intros [H1 H2 H3 H4 H5 H6 H7 H8 H9] Est Ecur Eidl Eon Eslp. split.
  - intros c t Hc. rewrite Est, Eon by done. by apply H1.
  - intros c t Hc. rewrite Est, Eslp by done. by apply H2.
  - intros c t Hc. rewrite Est, Ecur by done. by apply H3.
  - intros c c' t Hc Hc'. rewrite !Ecur by done. by apply H4.
  - intros c Hc. destruct (H5 c Hc) as (i & E & Hst & Ho & Hcu). exists i. rewrite Eidl, Est by done.
    split; [done|]. split; [done|]. split; [intros c' Hc'; rewrite Eon by done; by apply Ho|].
    intros c' Hc'. rewrite Ecur by done. by apply Hcu.
  - intros c c' i Hc Hc'. rewrite !Eidl by done. by apply H6.
  - intros t. rewrite Est. intros (c & Hc & E)%H7. exists c. by rewrite Ecur.
  - intros t. rewrite Est. intros [(c & Hc & E)|(c & Hc & E)]%H8; [left|right]; exists c; [by rewrite Eon|by rewrite Eidl].
  - intros t. rewrite Est. intros (c & Hc & E)%H9. exists c. by rewrite Eslp.
Qed.

(** One thread, not an idle thread, changes its state and its queues. *)
Lemma cinv_move st cur idl on slp lax lax' (on' slp' : Z → Z → Prop) st' t x :
  cinv st cur idl on slp lax → st' t = Some x → (∀ u, u ≠ t → st' u = st u) →
  (∀ c u, is_cpu c → u ≠ t → on' c u ↔ on c u) → (∀ c u, is_cpu c → u ≠ t → slp' c u ↔ slp c u) →
  (∀ c, is_cpu c → idl c ≠ Some t) → x ≠ KTHREAD_STATE_RUNNING →
  ((∃ c, is_cpu c ∧ on' c t) ↔ x = KTHREAD_STATE_READY) → ((∃ c, is_cpu c ∧ slp' c t) ↔ x = KTHREAD_STATE_SLEEPING) →
  (∀ c, is_cpu c → cur c = Some t → lax' = Some c ∧ x ≠ KTHREAD_STATE_READY) →
  (∀ c, lax = Some c → lax' = Some c) → cinv st' cur idl on' slp' lax'.
Proof.
  intros [H1 H2 H3 H4 H5 H6 H7 H8 H9] Est Eoth Eon Eslp Hni Hnr Hq Hs Hcu Hlax. split.
  - intros c u Hc Ho. destruct (decide (u = t)) as [->|Hne].
    + rewrite Est. f_equal. apply Hq. by exists c.
    + rewrite Eoth by done. apply (H1 c u Hc). by apply Eon.
  - intros c u Hc Ho. destruct (decide (u = t)) as [->|Hne].
    + rewrite Est. f_equal. apply Hs. by exists c.
    + rewrite Eoth by done. apply (H2 c u Hc). by apply Eslp.
  - intros c u Hc Hu. destruct (decide (u = t)) as [->|Hne].
    + destruct (Hcu c Hc Hu) as [-> Hx]. exists x. by split.
    + rewrite Eoth by done. destruct (H3 c u Hc Hu) as (y & Hy & Hyr & Hyl). exists y. split; [done|]. split; [done|].
      intros Hl. apply Hyl. intros El. by apply Hl, Hlax.
  - done.
  - intros c Hc. destruct (H5 c Hc) as (i & E & Hst & Ho & Hc2). exists i.
    assert (i ≠ t) as Hit by (intros ->; by apply (Hni c)). rewrite Eoth by done. split; [done|]. split; [done|].
    split; [|done]. intros c' Hc' Hi. apply Ho; [done|]. by apply Eon.
  - done.
  - intros u Hu. destruct (decide (u = t)) as [->|Hne]; [congruence|]. rewrite Eoth in Hu by done. by apply H7.
  - intros u Hu. destruct (decide (u = t)) as [->|Hne]; [left; apply Hq; congruence|]. rewrite Eoth in Hu by done.
    destruct (H8 u Hu) as [(c & Hc & Ho)|?]; [|by right]. left. exists c. split; [done|]. by apply Eon.
  - intros u Hu. destruct (decide (u = t)) as [->|Hne]; [apply Hs; congruence|]. rewrite Eoth in Hu by done.
    destruct (H9 u Hu) as (c & Hc & Ho). exists c. split; [done|]. by apply Eslp.
Qed.

(** The switch on CPU [c] from [p] to [n]; [rq] says that [p] is put back. *)
Lemma cinv_switch st cur idl on slp lax c p n (rq : bool) st' cur' (on' : Z → Z → Prop) :
  cinv st cur idl on slp lax → (lax = None ∨ lax = Some c) → is_cpu c → cur c = Some p → p ≠ n →
  st n = Some KTHREAD_STATE_READY → (on c n ∨ idl c = Some n) →
  (rq = true ↔ st p = Some KTHREAD_STATE_RUNNING) →
  st' n = Some KTHREAD_STATE_RUNNING → st' p = (if rq then Some KTHREAD_STATE_READY else st p) →
  (∀ u, u ≠ n → u ≠ p → st' u = st u) →
  cur' c = Some n → (∀ c', is_cpu c' → c' ≠ c → cur' c' = cur c') →
  (∀ c' u, is_cpu c' → on' c' u ↔ (on c' u ∧ u ≠ n) ∨ (rq = true ∧ c' = c ∧ u = p)) →
  cinv st' cur' idl on' slp None.
Proof.
  intros [H1 H2 H3 H4 H5 H6 H7 H8 H9] Hlax Hc Hp Hne Hn Hnc Hrq Sn Sp Soth Cc Coth Eon.
  destruct (H3 c p Hc Hp) as (xp & Exp & Hxr & Hxl).
  assert (∀ c', is_cpu c' → cur c' ≠ Some n) as Hncur.
  { intros c' Hc' E. destruct (H3 c' n Hc' E) as (y & Ey & Hy & _). congruence. }
  assert (∀ c', is_cpu c' → ¬ on c' p) as Hnop by (intros c' Hc' Ho; specialize (H1 c' p Hc' Ho); congruence).
  split.
  - intros c' u Hc' [[Ho Hun]|(Hr & -> & ->)]%Eon; [|by rewrite Sp, Hr|done].
    rewrite Soth; [by apply (H1 c')|done|]. intros ->. by apply (Hnop c').
  - intros c' u Hc' Hs. pose proof (H2 c' u Hc' Hs) as Eu. destruct (decide (u = n)) as [->|]; [congruence|].
    destruct (decide (u = p)) as [->|]; [|by rewrite Soth]. rewrite Sp. destruct rq; [|done].
    assert (st p = Some KTHREAD_STATE_RUNNING) by (by apply Hrq). congruence.
  - intros c' u Hc' Hu. destruct (decide (c' = c)) as [->|Hcc].
    + assert (u = n) as -> by congruence. by exists KTHREAD_STATE_RUNNING.
    + rewrite Coth in Hu by done. destruct (H3 c' u Hc' Hu) as (y & Ey & Hy & Hl).
      assert (u ≠ n) by (intros ->; by apply (Hncur c')).
      assert (u ≠ p) by (intros ->; by apply Hcc, (H4 c' c p)).
      rewrite Soth by done. exists y. split; [done|]. split; [done|]. intros _. apply Hl.
      destruct Hlax as [->| ->]; [done|congruence].
  - intros c1 c2 u Hc1 Hc2. destruct (decide (c1 = c)) as [->|Hn1], (decide (c2 = c)) as [->|Hn2]; [done|..].
    + rewrite (Coth c2) by done. rewrite Cc. intros [= <-] E. by destruct (Hncur c2).
    + rewrite (Coth c1) by done. rewrite Cc. intros E [= <-]. by destruct (Hncur c1).
    + rewrite !Coth by done. by apply H4.
  - intros c' Hc'. destruct (H5 c' Hc') as (i & E & Hst & Ho & Hcu). exists i. split; [done|]. split; [|split].
    + destruct (decide (i = n)) as [->|]; [by right|]. destruct (decide (i = p)) as [->|]; [|by rewrite Soth].
      rewrite Sp. destruct rq; [by left|done].
    + intros c2 Hc2 [[Hi _]|(_ & -> & ->)]%Eon; [by apply Ho|by apply Hcu|done].
    + intros c2 Hc2 Hi. destruct (decide (c2 = c)) as [->|Hcc].
      * assert (i = n) as -> by congruence.
        destruct Hnc as [Hon|Hid]; [by apply Ho|by apply (H6 c c' n)].
      * rewrite Coth in Hi by done. by apply Hcu.
  - done.
  - intros u Hu. destruct (decide (u = n)) as [->|Hun]; [by exists c|]. destruct (decide (u = p)) as [->|Hup].
    + rewrite Sp in Hu. destruct rq; [done|]. apply Hrq in Hu. done.
    + rewrite Soth in Hu by done. destruct (H7 u Hu) as (c' & Hc' & E). exists c'. split; [done|].
      rewrite Coth; [done|done|]. intros ->. congruence.
  - intros u Hu. destruct (decide (u = n)) as [->|Hun]; [congruence|]. destruct (decide (u = p)) as [->|Hup].
    + rewrite Sp in Hu. destruct rq.
      * left. exists c. split; [done|]. apply Eon; [done|]. by right.
      * congruence.
    + rewrite Soth in Hu by done. destruct (H8 u Hu) as [(c' & Hc' & Ho)|?]; [|by right].
      left. exists c'. split; [done|]. apply Eon; [done|]. by left.
  - intros u Hu. destruct (decide (u = n)) as [->|Hun]; [congruence|]. destruct (decide (u = p)) as [->|Hup].
    + rewrite Sp in Hu. destruct rq; [done|]. by apply H9.
    + rewrite Soth in Hu by done. by apply H9.
Qed.

(** ** Updates of one control block or one queue record *)

Lemma rq_rep_thread s s' Q SL t th th' : rq_rep s Q SL → get_thread s t = Some th → get_thread s' t = Some th' →
  (∀ u, u ≠ t → get_thread s' u = get_thread s u) → upd_threads [] s' = upd_threads [] s →
  length (thread_table s') = length (thread_table s) → is_prio (prio th') →
  (prio th' = prio th ∨ unqueued Q t) → rq_rep s' Q SL.
Proof.
  intros [R1 R2 R3 R4 R5 R6 R7 R8] Ht Ht' Hoth Hr Hlen Hp Hq.
  assert (cpu_queues s' = cpu_queues s) as Eq by exact (f_equal cpu_queues Hr).
  assert (snodes s' = snodes s) as En by exact (f_equal snodes Hr).
  split; unfold get_q; rewrite ?Eq, ?En; try done.
  - by rewrite Hlen.
  - intros u uh Hu. destruct (decide (u = t)) as [->|]; [congruence|]. rewrite Hoth in Hu by done. by apply (R4 u).
  - intros c p u Hc Hpp Hu. destruct (decide (u = t)) as [->|]; [|rewrite Hoth by done; by apply (R5 c)].
    exists th'. split; [done|]. destruct Hq as [->|Hq]; [|by destruct (Hq c p)].
    destruct (R5 c p t Hc Hpp Hu) as (th0 & E & <-). congruence.
Qed.

Lemma rq_rep_q s s' Q SL c q q' : rq_rep s Q SL → get_q s c = Some q → get_q s' c = Some q' →
  (∀ u, u ≠ c → get_q s' u = get_q s u) → upd_queues [] s' = upd_queues [] s →
  length (cpu_queues s') = length (cpu_queues s) → bitmap q' = bitmap q → nr_running q' = nr_running q → rq_rep s' Q SL.
Proof.
  intros [R1 R2 R3 R4 R5 R6 R7 R8] Hq Hq' Hoth Hr Hlen Hb Hn.
  assert (thread_table s' = thread_table s) as Et by exact (f_equal thread_table Hr).
  assert (snodes s' = snodes s) as En by exact (f_equal snodes Hr).
  split; unfold get_thread; rewrite ?Et, ?En; try done.
  - by rewrite Hlen.
  - intros c' q'' Hc' Hq''. destruct (decide (c' = c)) as [->|]; [|rewrite Hoth in Hq'' by done; by apply R7].
    assert (q'' = q') as -> by congruence. rewrite Hb. by apply R7.
  - intros c' q'' Hc' Hq''. destruct (decide (c' = c)) as [->|]; [|rewrite Hoth in Hq'' by done; by apply R8].
    assert (q'' = q') as -> by congruence. rewrite Hn. by apply R8.
Qed.

(** Fields outside the queues, the threads and the nodes do not matter. *)
Lemma rq_rep_same s s' Q SL : cpu_queues s' = cpu_queues s → thread_table s' = thread_table s → snodes s' = snodes s →
  rq_rep s Q SL → rq_rep s' Q SL.
Proof. intros E1 E2 E3 [R1 R2 R3 R4 R5 R6 R7 R8]. split; unfold get_q, get_thread in *; rewrite ?E1, ?E2, ?E3; done. Qed.

Lemma sinv_same s s' Q SL lax : cpu_queues s' = cpu_queues s → thread_table s' = thread_table s → snodes s' = snodes s →
  classes s' = classes s → sinv s Q SL lax → sinv s' Q SL lax.
Proof.
  intros E1 E2 E3 E4 [H1 H2 H3]. split; [by eapply rq_rep_same|by rewrite E4|].
  eapply cinv_ext; [exact H3|..]; intros; unfold st_of, cur_of, idle_of, get_q, get_thread; by rewrite ?E1, ?E2.
Qed.

Lemma keeps_cur s s' c : keeps s s' → cur_of s' c = cur_of s c.
Proof.
  intros HK. pose proof (ke_view _ _ HK c) as E. unfold cur_of.
  destruct (get_q s' c) as [q'|], (get_q s c) as [q|]; try done. cbn in *. by injection E as -> _ _.
Qed.

Lemma keeps_idle s s' c : keeps s s' → idle_of s' c = idle_of s c.
Proof.
  intros HK. pose proof (ke_view _ _ HK c) as E. unfold idle_of.
  destruct (get_q s' c) as [q'|], (get_q s c) as [q|]; try done. cbn in *. by injection E as _ -> _.
Qed.

Lemma keeps_st s s' t : keeps s s' → st_of s' t = st_of s t.
Proof. intros HK. unfold st_of. by rewrite (keeps_get_thread _ _ HK). Qed.

Lemma st_of_Some s t x : st_of s t = Some x ↔ ∃ th, get_thread s t = Some th ∧ tstate th = x.
Proof. unfold st_of. rewrite fmap_Some. naive_solver. Qed.

Lemma on_thread_st t x s s' : (∃ th, get_thread s t = Some th) → on_thread t (set_tstate x) s = Some s' →
  st_of s' t = Some x ∧ ∀ u, u ≠ t → st_of s' u = st_of s u.
Proof.
  intros [th Ht] E. destruct (on_thread_spec t (set_tstate x) s th Ht) as (s1 & E1 & Hs & Ho & _).
  rewrite E in E1. injection E1 as <-. unfold st_of. rewrite Hs. split; [done|]. intros u Hu. by rewrite Ho.
Qed.
