(* ===== verification/SchedOps.v ===== *)
(** * Switching, ticks and thread calls against the invariant *)

From S2P Require Import Prelude KList Bitmap SchedTypes Sched Threads SchedRep SchedInv.

Set Default Goal Selector "!".

(** Fields that scheduling leaves alone. *)
Definition others (s s' : sched) : Prop :=
  upd_queues [] (upd_threads [] (upd_snodes ∅ s')) = upd_queues [] (upd_threads [] (upd_snodes ∅ s)).

Lemma others_refl s : others s s.
Proof. done. Qed.

Lemma others_trans s1 s2 s3 : others s1 s2 → others s2 s3 → others s1 s3.
Proof. unfold others. congruence. Qed.

Lemma others_classes s s' : others s s' → classes s' = classes s.
Proof. intros E. exact (f_equal classes E). Qed.

Lemma others_canary s s' : others s s' → canary_mem s' = canary_mem s.
Proof. intros E. exact (f_equal canary_mem E). Qed.

Lemma keeps_others s s' : keeps s s' → others s s'.
Proof. intros HK. unfold others. exact (f_equal (upd_threads []) (ke_rest _ _ HK)). Qed.

(** ** Setting the state of a thread, the current thread, the request flag *)

Lemma set_state_spec s Q SL t x th : rq_rep s Q SL → get_thread s t = Some th →
  ∃ s', on_thread t (set_tstate x) s = Some s' ∧ rq_rep s' Q SL ∧ others s s' ∧
    get_thread s' t = Some (set_tstate x th) ∧ (∀ u, u ≠ t → get_thread s' u = get_thread s u) ∧
    (∀ c, get_q s' c = get_q s c).
Proof.
  intros HR Ht. destruct (on_thread_spec t (set_tstate x) s th Ht) as (s' & E & Hs & Ho & Hr & Hl). exists s'.
  split; [done|]. assert (cpu_queues s' = cpu_queues s) as Eq by exact (f_equal cpu_queues Hr).
  split; [|split; [exact (f_equal (λ y, upd_queues [] (upd_snodes ∅ y)) Hr)|]].
  - eapply (rq_rep_thread s s' Q SL t th); try done; [exact (rr_prios _ _ _ HR t th Ht)|by left].
  - split; [done|]. split; [done|]. intros c. unfold get_q. by rewrite Eq.
Qed.

Lemma set_q_spec s Q SL c f q : rq_rep s Q SL → get_q s c = Some q → bitmap (f q) = bitmap q → nr_running (f q) = nr_running q →
  ∃ s', on_q c f s = Some s' ∧ rq_rep s' Q SL ∧ others s s' ∧ get_q s' c = Some (f q) ∧
    (∀ c', c' ≠ c → get_q s' c' = get_q s c') ∧ (∀ u, get_thread s' u = get_thread s u).
Proof.
  intros HR Hq Hb Hn. destruct (on_q_spec c f s q Hq) as (s' & E & Hs & Ho & Hr & Hl). exists s'.
  split; [done|]. assert (thread_table s' = thread_table s) as Eq by exact (f_equal thread_table Hr).
  split; [|split; [exact (f_equal (λ y, upd_threads [] (upd_snodes ∅ y)) Hr)|]].
  - by eapply rq_rep_q.
  - split; [done|]. split; [done|]. intros u. unfold get_thread. by rewrite Eq.
Qed.

(** ** The class framework *)

Lemma class_pick_spec c s : rr_only (classes s) → sched_class_pick_next c s = scheduler_pick_next_locked c s.
Proof.
  intros (H1 & _ & H3). unfold sched_class_pick_next, CLASS_FUEL. rewrite H1. cbn [pick_loop class_pick_next].
  destruct (scheduler_pick_next_locked c s) as [[t|]|]; cbn [mbind option_bind]; [done| |done]. by rewrite H3.
Qed.

Lemma class_of_rr s t th : rr_only (classes s) → get_thread s t = Some th → class_of s t = Some (Some sched_rr).
Proof.
  intros (_ & H2 & _) Ht. unfold class_of. rewrite Ht. cbn [mbind option_bind]. rewrite H2. by destruct (tclass th) as [[]|].
Qed.

(** ** The switch *)

(** The thread that CPU [c] runs next, and the queues without it. *)
Inductive picks (Q : queues) (c i : Z) : Z → queues → Prop :=
  | picks_top p t : is_top Q c p t → picks Q c i t (qset c p (tail (Q c p)) Q)
  | picks_idle : qall Q c = [] → picks Q c i i Q.

(** The queues after a switch: a thread that was running goes to the tail of
    its queue. *)
Definition requeue (rq : bool) (c : Z) (th : KThread_t) (t : Z) (Q : queues) : queues :=
  if rq then qset c (prio th) (Q c (prio th) ++ [t]) Q else Q.

(** The canary of a guarded thread is intact. *)
Definition canary_ok (s : sched) (th : KThread_t) : Prop :=
  g_enabled (guard th) = true → g_bottom (guard th) ≠ 0 ∧
    canary_mem s !! u64 (g_bottom (guard th) + g_offset (guard th)) = Some STACK_CANARY_MAGIC.

Lemma guard_ok_check s th : canary_ok s th → g_enabled (guard th) = true → stack_guard_check (guard th) s = Some (s, true).
Proof.
  intros Hok He. destruct (Hok He) as [Hb Hm]. unfold stack_guard_check. rewrite He. cbn [negb].
  rewrite (proj2 (Z.eqb_neq _ _)) by done. rewrite Hm. cbn [mbind option_bind]. by rewrite Z.eqb_refl.
Qed.

Lemma elem_of_tail_head (l : list Z) t u : NoDup l → head l = Some t → u ∈ tail l ↔ u ∈ l ∧ u ≠ t.
Proof. destruct l as [|x l]; [done|]. cbn. intros [Hx _]%NoDup_cons [= ->]. set_solver. Qed.

(** Taking the next thread out of the queues. *)
Lemma take_next_spec s Q SL lax c i t Q1 : sinv s Q SL lax → is_cpu c → idle_of s c = Some i → picks Q c i t Q1 →
  st_of s t = Some KTHREAD_STATE_READY →
  ∃ s', __sched_dequeue_locked c t s = Some s' ∧ keeps s s' ∧ rq_rep s' Q1 SL ∧
    (∀ c' u, is_cpu c' → queued Q1 c' u ↔ queued Q c' u ∧ u ≠ t) ∧ (queued Q c t ∨ idle_of s c = Some t).
Proof.
  intros [HR _ HC] Hc Hi HP Hst. apply st_of_Some in Hst as (th & Ht & _).
  destruct HP as [p t (Hp & Hhd & Hhi)|Hem].
  - destruct (Q c p) as [|x l] eqn:El; [done|]. injection Hhd as ->.
    destruct (rr_prio _ _ _ HR c p t Hc Hp) as (th' & Ht' & Hpr); [rewrite El; set_solver|].
    assert (th' = th) as -> by congruence. subst p.
    destruct (dequeue_spec s Q SL c t th [] l HR Hc Ht El) as (s' & E & HK & HR'). exists s'.
    split; [done|]. split; [done|]. split; [exact HR'|]. split; [|left; exists (prio th); rewrite El; set_solver].
    intros c' u Hc'. unfold queued. cbn [app] in *. split.
    + intros (p' & Hp' & Hu). unfold qset in Hu. case_decide as E'.
      * destruct E' as [-> ->]. split; [exists (prio th); rewrite El; set_solver|]. intros ->.
        pose proof (rr_nodup _ _ _ HR c (prio th) Hc Hp) as Hnd. rewrite El in Hnd. apply NoDup_cons in Hnd as [? _]. done.
      * split; [by exists p'|]. intros ->. apply E'.
        apply (rr_once _ _ _ HR c' p' c (prio th) t); try done. rewrite El. set_solver.
    + intros [(p' & Hp' & Hu) Hne]. exists p'. split; [done|]. unfold qset. case_decide as E'; [|done].
      destruct E' as [-> ->]. rewrite El in Hu. set_solver.
  - assert (unqueued Q i) as Hun.
    { intros c' p' Hc' Hp' Hin. destruct (ci_idle _ _ _ _ _ _ HC c Hc) as (j & Hj & _ & Ho & _).
      assert (j = i) as -> by congruence. assert (c' = c) as -> by (apply Ho; [done|by exists p']).
      rewrite (proj1 (qall_nil Q c) Hem) in Hin by done. by apply elem_of_nil in Hin. }
    destruct (dequeue_idle_spec s Q SL c i th HR Hc Ht Hun Hem) as (s' & E & HK & HR'). exists s'.
    split; [done|]. split; [done|]. split; [done|]. split; [|by right].
    intros c' u Hc'. split; [|by intros [? _]]. intros Hu. split; [done|]. intros ->. destruct Hu as (p' & Hp' & Hin).
    by apply (Hun c' p').
Qed.

(** Putting the previous thread back. *)
Lemma put_back_spec s Q SL c p th : rq_rep s Q SL → is_cpu c → get_thread s p = Some th → unqueued Q p →
  ∃ s1 s', on_thread p (set_tstate KTHREAD_STATE_READY) s = Some s1 ∧ __sched_enqueue_locked c p s1 = Some s' ∧
    rq_rep s' (requeue true c th p Q) SL ∧ others s s' ∧ get_thread s' p = Some (set_tstate KTHREAD_STATE_READY th) ∧
    (∀ u, u ≠ p → get_thread s' u = get_thread s u) ∧
    (∀ c', cur_of s' c' = cur_of s c' ∧ idle_of s' c' = idle_of s c').
Proof.
  intros HR Hc Ht Hun. destruct (set_state_spec s Q SL p KTHREAD_STATE_READY th HR Ht) as (s1 & E1 & HR1 & HO1 & Hp1 & Hu1 & Hq1).
  destruct (enqueue_spec s1 Q SL c p _ HR1 Hc Hp1 Hun) as (s' & E2 & HK & HR2). exists s1, s'.
  split; [done|]. split; [done|]. split; [exact HR2|].
  split; [eapply others_trans; [exact HO1|by apply keeps_others]|].
  rewrite (keeps_get_thread _ _ HK). split; [done|]. split; [intros u Hu; rewrite (keeps_get_thread _ _ HK); by apply Hu1|].
  intros c'. rewrite (keeps_cur _ _ _ HK), (keeps_idle _ _ _ HK). unfold cur_of, idle_of. by rewrite Hq1.
Qed.

Lemma queued_requeue Q c th p c' u : is_prio (prio th) → is_cpu c → queued (requeue true c th p Q) c' u ↔ queued Q c' u ∨ (c' = c ∧ u = p).
Proof.
  intros Hp Hc. unfold queued, requeue. split.
  - intros (p' & Hp' & Hu). unfold qset in Hu. case_decide as E; [|left; by exists p'].
    destruct E as [-> ->]. apply elem_of_app in Hu as [Hu|Hu]; [left; by exists (prio th)|].
    apply list_elem_of_singleton in Hu as ->. by right.
  - intros [(p' & Hp' & Hu)|[-> ->]].
    + exists p'. split; [done|]. unfold qset. case_decide as E; [|done]. destruct E as [-> ->]. set_solver.
    + exists (prio th). split; [done|]. rewrite qset_eq. set_solver.
Qed.

(** What a switch does: [n] runs, a running [p] waits at the tail of its queue,
    nothing else changes. *)
Record switched (s s' : sched) (Q : queues) (SL : Z → list Z) (c p i n : Z) (pth : KThread_t) (Q1 : queues) (rq : bool) : Prop := Switched {
  sw_picks : picks Q c i n Q1;
  sw_rq : rq = bool_decide (tstate pth = KTHREAD_STATE_RUNNING) && bool_decide (p ≠ n);
  sw_inv : sinv s' (requeue rq c pth p Q1) SL None;
  sw_cur : cur_of s' c = Some n;
  sw_others : others s s';
  sw_next : get_thread s' n = set_tstate KTHREAD_STATE_RUNNING <$> get_thread s n;
  sw_prev : p ≠ n → get_thread s' p = Some (if rq then set_tstate KTHREAD_STATE_READY pth else pth);
  sw_threads : ∀ u, u ≠ n → u ≠ p → get_thread s' u = get_thread s u;
  sw_curs : ∀ c', c' ≠ c → cur_of s' c' = cur_of s c';
  sw_idles : ∀ c', idle_of s' c' = idle_of s c'
}.

Lemma picks_total s Q SL c i : rq_rep s Q SL → is_cpu c → ∃ r, scheduler_pick_next_locked c s = Some r ∧
  ∃ Q1, picks Q c i (match r with Some t => t | None => i end) Q1 ∧ (is_Some r ∨ qall Q c = []).
Proof.
  intros HR Hc. destruct (pick_spec s Q SL c HR Hc) as ([t|] & E & Hr).
  - destruct Hr as [p Hp]. exists (Some t). split; [done|]. eexists. split; [by apply (picks_top _ _ _ p)|by left].
  - exists None. split; [done|]. exists Q. split; [by apply picks_idle|by right].
Qed.

(** The last part of [schedule], once [n] is out of the queues. *)
Lemma finish_switch_spec s0 s Q SL lax c p i n pth nth Q1 : sinv s0 Q SL lax → (lax = None ∨ lax = Some c) → is_cpu c →
  cur_of s0 c = Some p → idle_of s0 c = Some i → get_thread s0 p = Some pth → get_thread s0 n = Some nth → p ≠ n →
  picks Q c i n Q1 → tstate nth = KTHREAD_STATE_READY → keeps s0 s → rq_rep s Q1 SL →
  (∀ c' u, is_cpu c' → queued Q1 c' u ↔ queued Q c' u ∧ u ≠ n) → (queued Q c n ∨ idle_of s0 c = Some n) →
  ∃ s1 s2 s3,
    (if bool_decide (tstate pth = KTHREAD_STATE_RUNNING) then
       s ← on_thread p (set_tstate KTHREAD_STATE_READY) s; __sched_enqueue_locked c p s else Some s) = Some s1 ∧
    on_q c (set_current (Some n)) s1 = Some s2 ∧ on_thread n (set_tstate KTHREAD_STATE_RUNNING) s2 = Some s3 ∧
    switched s0 s3 Q SL c p i n pth Q1 (bool_decide (tstate pth = KTHREAD_STATE_RUNNING)).
Proof.
  intros HI Hlax Hc Hcur Hidle Hp Hn Hne HP Hnst HK HR Hq1 Hfrom. pose proof HI as [HR0 Hcls HC].
  assert (st_of s0 n = Some KTHREAD_STATE_READY) as Hstn by (apply st_of_Some; eauto).
  assert (unqueued Q1 p) as Hun.
  { intros c' p' Hc' Hp' Hin. destruct (Hq1 c' p Hc') as [Hq _]. destruct Hq as [Hq _]; [by exists p'|].
    pose proof (ci_ready _ _ _ _ _ _ HC c' p Hc' Hq) as E.
    destruct (ci_cur _ _ _ _ _ _ HC c p Hc Hcur) as (x & E' & Hx & _). congruence. }
  set (rq := bool_decide (tstate pth = KTHREAD_STATE_RUNNING)).
  assert (∃ s1, (if rq then s ← on_thread p (set_tstate KTHREAD_STATE_READY) s; __sched_enqueue_locked c p s else Some s) = Some s1 ∧
    rq_rep s1 (requeue rq c pth p Q1) SL ∧ others s s1 ∧
    get_thread s1 p = Some (if rq then set_tstate KTHREAD_STATE_READY pth else pth) ∧
    (∀ u, u ≠ p → get_thread s1 u = get_thread s u) ∧ (∀ c', cur_of s1 c' = cur_of s c' ∧ idle_of s1 c' = idle_of s c'))
    as (s1 & E1 & HR1 & HO1 & Hp1 & Hu1 & Hv1).
  { rewrite <- (keeps_get_thread _ _ HK) in Hp. destruct rq; [|by exists s].
    destruct (put_back_spec s Q1 SL c p pth HR Hc Hp Hun) as (sa & sb & Ea & Eb & H). exists sb. rewrite Ea. cbn. by rewrite Eb. }
  destruct (rr_q _ _ _ HR1 c Hc) as (q1 & Hq).
  destruct (set_q_spec s1 _ SL c (set_current (Some n)) q1 HR1 Hq eq_refl eq_refl) as (s2 & E2 & HR2 & HO2 & Hqc2 & Hqo2 & Ht2).
  assert (get_thread s2 n = Some nth) as Hn2.
  { rewrite Ht2, Hu1 by congruence. by rewrite (keeps_get_thread _ _ HK). }
  destruct (set_state_spec s2 _ SL n KTHREAD_STATE_RUNNING nth HR2 Hn2) as (s3 & E3 & HR3 & HO3 & Hn3 & Hu3 & Hq3).
  exists s1, s2, s3. split; [exact E1|]. split; [exact E2|]. split; [exact E3|].
  assert (others s0 s3) as HO.
  { eapply others_trans; [by apply keeps_others|]. eapply others_trans; [exact HO1|]. by eapply others_trans. }
  assert (cur_of s3 c = Some n) as Hcur3 by (unfold cur_of; rewrite Hq3, Hqc2; done).
  assert (∀ c', c' ≠ c → cur_of s3 c' = cur_of s0 c') as Hcurs.
  { intros c' Hcc. unfold cur_of. rewrite Hq3, Hqo2 by done. destruct (Hv1 c') as [E _]. unfold cur_of in E. rewrite E.
    apply (keeps_cur _ _ _ HK). }
  assert (∀ c', idle_of s3 c' = idle_of s0 c') as Hidles.
  { intros c'. rewrite <- (keeps_idle _ _ _ HK). destruct (Hv1 c') as [_ <-]. unfold idle_of. rewrite Hq3.
    destruct (decide (c' = c)) as [->|Hcc]; [by rewrite Hqc2, Hq|by rewrite Hqo2]. }
  assert (get_thread s3 p = Some (if rq then set_tstate KTHREAD_STATE_READY pth else pth)) as Hp3 by (rewrite Hu3, Ht2; done).
  assert (∀ u, u ≠ n → u ≠ p → get_thread s3 u = get_thread s0 u) as Hths.
  { intros u Hun' Hup. rewrite Hu3, Ht2, Hu1 by done. apply (keeps_get_thread _ _ HK). }
  split; try done.
  - rewrite (bool_decide_eq_true_2 (p ≠ n)) by done. by rewrite andb_true_r.
  - split; [exact HR3|by rewrite (others_classes _ _ HO)|].
    apply (cinv_ext (st_of s3) (cur_of s3) (idle_of s0) (queued (requeue rq c pth p Q1)) (asleep SL)); [|done..].
    apply (cinv_switch (st_of s0) (cur_of s0) (idle_of s0) (queued Q) (asleep SL) lax c p n rq); try done.
    + unfold rq. rewrite bool_decide_eq_true. unfold st_of. rewrite Hp. cbn. split; [by intros ->|by intros [= ?]].
    + unfold st_of. by rewrite Hn3.
    + unfold st_of. rewrite Hp3, Hp. cbn. by destruct rq.
    + intros u Hun' Hup. unfold st_of. by rewrite Hths.
    + intros c' _ Hcc. by apply Hcurs.
    + intros c' u Hc'. destruct rq.
      * rewrite queued_requeue by (done || by apply (rr_prios _ _ _ HR0 p)). rewrite Hq1 by done.
        split; [intros [?|[? ?]]; [by left|by right]|intros [?|(_ & ? & ?)]; [by left|by right]].
      * cbn [requeue]. rewrite Hq1 by done. split; [by left|]. by intros [?|[? _]].
  - by rewrite Hn3, Hn.
Qed.

Lemma schedule_body_spec ov s Q SL lax c p i pth : sinv s Q SL lax → (lax = None ∨ lax = Some c) → is_cpu c →
  cur_of s c = Some p → idle_of s c = Some i → get_thread s p = Some pth → canary_ok s pth →
  ∃ s' n Q1 rq, schedule_body ov c s = Some s' ∧ switched s s' Q SL c p i n pth Q1 rq.
Proof.
  intros HI Hlax Hc Hcur Hidle Hp Hcan. pose proof HI as [HR Hcls HC].
  destruct (rr_q _ _ _ HR c Hc) as (q & Hq). unfold cur_of in Hcur. unfold idle_of in Hidle. rewrite Hq in Hcur, Hidle. cbn in Hcur, Hidle.
  assert (∃ n Q1, picks Q c i n Q1 ∧ ∃ r, scheduler_pick_next_locked c s = Some r ∧ (match r with Some t => Some t | None => Some i end) = Some n)
    as (n & Q1 & HP & r & Er & Hrn).
  { destruct (picks_total s Q SL c i HR Hc) as (r & E & Q1 & HP & _). exists (match r with Some t => t | None => i end), Q1.
    split; [done|]. exists r. split; [done|]. by destruct r. }
  assert (∃ nth, get_thread s n = Some nth ∧ ((tstate nth = KTHREAD_STATE_READY ∧ p ≠ n) ∨
    (tstate nth = KTHREAD_STATE_RUNNING ∧ p = n ∧ Q1 = Q))) as (nth & Hn & Hnst).
  { destruct (ci_cur _ _ _ _ _ _ HC c p Hc) as (x & Ex & Hx & _); [unfold cur_of; by rewrite Hq|].
    assert (st_of s n = Some KTHREAD_STATE_READY ∨ (st_of s n = Some KTHREAD_STATE_RUNNING ∧ p = n ∧ Q1 = Q)) as Hst.
    { destruct HP as [pp t (Hpp & Hh & _)|Hem].
      - left. apply (ci_ready _ _ _ _ _ _ HC c t Hc). exists pp. split; [done|]. destruct (Q c pp); [done|]. injection Hh as ->. set_solver.
      - destruct (ci_idle _ _ _ _ _ _ HC c Hc) as (j & Hj & Hst & _ & Hcu). unfold idle_of in Hj. rewrite Hq in Hj.
        assert (j = i) as -> by (cbn in Hj; congruence). destruct Hst as [?|Hrun]; [by left|right].
        destruct (ci_run _ _ _ _ _ _ HC i Hrun) as (c' & Hc' & Hcur'). assert (c' = c) as -> by (by apply Hcu).
        unfold cur_of in Hcur'. rewrite Hq in Hcur'. cbn in Hcur'. split; [done|]. split; [congruence|done]. }
    destruct Hst as [Hst|(Hst & -> & ->)]; apply st_of_Some in Hst as (nth & Hn & Hst); exists nth; (split; [done|]).
    - left. split; [done|]. intros ->. unfold st_of in Ex. rewrite Hn in Ex. cbn in Ex. congruence.
    - by right. }
  unfold schedule_body. rewrite Hq. cbn [mbind option_bind]. rewrite (class_pick_spec c s Hcls), Er. cbn [mbind option_bind].
  rewrite Hidle, Hrn, Hn. cbn [mbind option_bind]. rewrite Hcur. destruct Hnst as [[Hst Hne]|(Hst & <- & ->)].
  - destruct (take_next_spec s Q SL lax c i n Q1 HI Hc) as (s1 & E1 & HK & HR1 & Hq1 & Hfrom); [unfold idle_of; by rewrite Hq|done|apply st_of_Some; eauto|].
    rewrite (bool_decide_eq_true_2 (tstate nth = KTHREAD_STATE_READY) Hst). rewrite E1. cbn [mbind option_bind].
    rewrite (bool_decide_eq_false_2 (Some p = Some n)) by congruence.
    rewrite (keeps_get_thread _ _ HK), Hp. cbn [mbind option_bind].
    destruct (finish_switch_spec s s1 Q SL lax c p i n pth nth Q1) as (s2 & s3 & s4 & E2 & E3 & E4 & HSW); try done;
      [unfold cur_of; by rewrite Hq|unfold idle_of; by rewrite Hq|].
    exists s4, n, Q1, (bool_decide (tstate pth = KTHREAD_STATE_RUNNING)). split; [|exact HSW].
    rewrite E2. cbn [mbind option_bind]. rewrite E3. cbn [mbind option_bind]. rewrite E4. cbn [mbind option_bind].
    rewrite (sw_prev _ _ _ _ _ _ _ _ _ _ _ HSW Hne). cbn [mbind option_bind].
    set (pth' := if bool_decide _ then _ else _). assert (guard pth' = guard pth) as Eg by (unfold pth'; by case_bool_decide).
    rewrite Eg. destruct (g_enabled (guard pth)) eqn:Ee; [|done].
    rewrite (guard_ok_check s4 pth); [done| |done]. intros _. rewrite (others_canary _ _ (sw_others _ _ _ _ _ _ _ _ _ _ _ HSW)). by apply Hcan.
  - rewrite (bool_decide_eq_false_2 (tstate nth = KTHREAD_STATE_READY)) by congruence. cbn [mbind option_bind].
    rewrite (bool_decide_eq_true_2 (Some p = Some p)) by done.
    exists s, p, Q, false. split; [done|]. assert (nth = pth) as -> by congruence.
    split; try done.
    + rewrite (bool_decide_eq_false_2 (p ≠ p)) by tauto. by rewrite andb_false_r.
    + split; [done|done|]. destruct HC as [H1 H2 H3 H4 H5 H6 H7 H8 H9]. split; try done.
      intros c' t Hc' Ht. destruct (decide (c' = c)) as [->|Hcc].
      * assert (t = p) as -> by (unfold cur_of in Ht; rewrite Hq in Ht; cbn in Ht; congruence).
        exists KTHREAD_STATE_RUNNING. unfold st_of. rewrite Hn. cbn. by rewrite Hst.
      * destruct (H3 c' t Hc' Ht) as (x & ? & ? & Hx). exists x. split; [done|]. split; [done|]. intros _. apply Hx.
        destruct Hlax as [->| ->]; [done|congruence].
    + unfold cur_of. by rewrite Hq.
    + rewrite Hn. cbn. f_equal. destruct pth. cbn in Hst. unfold set_tstate. cbn. by rewrite Hst.
Qed.

Lemma do_schedule_spec s Q SL lax c p i pth : sinv s Q SL lax → (lax = None ∨ lax = Some c) → is_cpu c →
  cur_of s c = Some p → idle_of s c = Some i → get_thread s p = Some pth → canary_ok s pth →
  ∃ s' n Q1 rq, do_schedule c s = Some s' ∧ switched s s' Q SL c p i n pth Q1 rq.
Proof.
  intros. unfold do_schedule. generalize SCHED_FUEL. intros fuel.
  assert (schedule fuel c s = schedule_body (λ s, match fuel with O => None | S fuel => exit_with (schedule fuel c) c s end) c s)
    as -> by (by destruct fuel).
  by eapply schedule_body_spec.
Qed.

(** ** Small updates *)

(** A control block changes in fields that scheduling does not look at. *)
Lemma sinv_thread s Q SL lax t f th : sinv s Q SL lax → get_thread s t = Some th → prio (f th) = prio th →
  tstate (f th) = tstate th → ∃ s', on_thread t f s = Some s' ∧ sinv s' Q SL lax ∧ others s s' ∧
    get_thread s' t = Some (f th) ∧ (∀ u, u ≠ t → get_thread s' u = get_thread s u) ∧ (∀ c, get_q s' c = get_q s c).
Proof.
  intros [HR Hcls HC] Ht Hpr Hst. destruct (on_thread_spec t f s th Ht) as (s' & E & Hs & Ho & Hr & Hl). exists s'.
  split; [done|]. assert (cpu_queues s' = cpu_queues s) as Eq by exact (f_equal cpu_queues Hr).
  assert (others s s') as HO by exact (f_equal (λ y, upd_queues [] (upd_snodes ∅ y)) Hr).
  assert (∀ c, get_q s' c = get_q s c) as Hq by (intros c; unfold get_q; by rewrite Eq).
  split; [|done]. split.
  - eapply (rq_rep_thread s s' Q SL t th); try done; [rewrite Hpr; exact (rr_prios _ _ _ HR t th Ht)|by left].
  - by rewrite (others_classes _ _ HO).
  - eapply cinv_ext; [exact HC|..]; try done.
    + intros u. unfold st_of. destruct (decide (u = t)) as [->|]; [rewrite Hs, Ht; cbn; by f_equal|by rewrite Ho].
    + intros c _. unfold cur_of. by rewrite Hq.
    + intros c _. unfold idle_of. by rewrite Hq.
Qed.

Lemma sinv_q s Q SL lax c f q : sinv s Q SL lax → get_q s c = Some q → bitmap (f q) = bitmap q →
  nr_running (f q) = nr_running q → current_thread (f q) = current_thread q → idle_thread (f q) = idle_thread q →
  ∃ s', on_q c f s = Some s' ∧ sinv s' Q SL lax ∧ others s s' ∧ get_q s' c = Some (f q) ∧
    (∀ c', c' ≠ c → get_q s' c' = get_q s c') ∧ (∀ u, get_thread s' u = get_thread s u).
Proof.
  intros [HR Hcls HC] Hq Hb Hn Hcu Hid.
  destruct (set_q_spec s Q SL c f q HR Hq Hb Hn) as (s' & E & HR' & HO & Hqc & Hqo & Hth). exists s'.
  split; [done|]. split; [|done]. split; [done|by rewrite (others_classes _ _ HO)|].
  eapply cinv_ext; [exact HC|..]; try done.
  - intros u. unfold st_of. by rewrite Hth.
  - intros c' _. unfold cur_of. destruct (decide (c' = c)) as [->|]; [rewrite Hqc, Hq; exact Hcu|by rewrite Hqo].
  - intros c' _. unfold idle_of. destruct (decide (c' = c)) as [->|]; [rewrite Hqc, Hq; exact Hid|by rewrite Hqo].
Qed.

(** ** Suspension and resumption *)

Lemma queued_split s Q SL c t th : rq_rep s Q SL → is_cpu c → queued Q c t → get_thread s t = Some th →
  ∃ xs ys, Q c (prio th) = xs ++ t :: ys.
Proof.
  intros HR Hc (p & Hp & Ht) Hth. destruct (rr_prio _ _ _ HR c p t Hc Hp Ht) as (th' & E & <-).
  assert (th' = th) as -> by congruence. apply list_elem_of_split in Ht as (xs & ys & Hx). by exists xs, ys.
Qed.

Lemma queued_del s Q SL c t th xs ys : rq_rep s Q SL → is_cpu c → get_thread s t = Some th → Q c (prio th) = xs ++ t :: ys →
  ∀ c' u, is_cpu c' → queued (qset c (prio th) (xs ++ ys) Q) c' u ↔ queued Q c' u ∧ u ≠ t.
Proof.
  intros HR Hc Hth Hx c' u Hc'. pose proof (rr_prios _ _ _ HR t th Hth) as Hp. unfold queued.
  pose proof (rr_nodup _ _ _ HR c (prio th) Hc Hp) as Hnd. rewrite Hx in Hnd.
  apply NoDup_app in Hnd as (_ & Hd1 & [Hd2 _]%NoDup_cons). split.
  - intros (p' & Hp' & Hu). unfold qset in Hu. case_decide as E.
    + destruct E as [-> ->]. split; [exists (prio th); rewrite Hx; set_solver|]. intros ->.
      apply elem_of_app in Hu as [Hu|Hu]; [|done]. apply (Hd1 t Hu). set_solver.
    + split; [by exists p'|]. intros ->. apply E. apply (rr_once _ _ _ HR c' p' c (prio th) t); try done. rewrite Hx. set_solver.
  - intros [(p' & Hp' & Hu) Hne]. exists p'. split; [done|]. unfold qset. case_decide as E; [|done].
    destruct E as [-> ->]. rewrite Hx in Hu. set_solver.
Qed.

(** Removing a ready thread from its queue and giving it another state. *)
Lemma remove_spec s Q SL lax c t th x xs ys : sinv s Q SL lax → is_cpu c → get_thread s t = Some th →
  Q c (prio th) = xs ++ t :: ys → (∀ c', is_cpu c' → idle_of s c' ≠ Some t) →
  x ≠ KTHREAD_STATE_RUNNING → x ≠ KTHREAD_STATE_READY → x ≠ KTHREAD_STATE_SLEEPING →
  ∃ s1 s', __sched_dequeue_locked c t s = Some s1 ∧ on_thread t (set_tstate x) s1 = Some s' ∧
    sinv s' (qset c (prio th) (xs ++ ys) Q) SL lax ∧ others s s' ∧ get_thread s' t = Some (set_tstate x th) ∧
    (∀ u, u ≠ t → get_thread s' u = get_thread s u) ∧ (∀ c', cur_of s' c' = cur_of s c' ∧ idle_of s' c' = idle_of s c').
Proof.
  intros [HR Hcls HC] Hc Ht Hx Hni Hn1 Hn2 Hn3. pose proof (rr_prios _ _ _ HR t th Ht) as Hp.
  destruct (dequeue_spec s Q SL c t th xs ys HR Hc Ht Hx) as (s1 & E1 & HK & HR1).
  assert (get_thread s1 t = Some th) as Ht1 by (by rewrite (keeps_get_thread _ _ HK)).
  destruct (set_state_spec s1 _ SL t x th HR1 Ht1) as (s' & E2 & HR2 & HO & Ht2 & Hu2 & Hq2).
  exists s1, s'. split; [done|]. split; [done|].
  assert (others s s') as HO' by (eapply others_trans; [by apply keeps_others|done]).
  assert (∀ u, u ≠ t → get_thread s' u = get_thread s u) as Hu by (intros u Hu; rewrite Hu2 by done; apply (keeps_get_thread _ _ HK)).
  assert (∀ c', cur_of s' c' = cur_of s c' ∧ idle_of s' c' = idle_of s c') as Hv.
  { intros c'. rewrite <- (keeps_cur _ _ _ HK), <- (keeps_idle _ _ _ HK). unfold cur_of, idle_of. by rewrite Hq2. }
  split; [|done]. split; [done|by rewrite (others_classes _ _ HO')|].
  assert (queued Q c t) as Hqt by (exists (prio th); rewrite Hx; set_solver).
  pose proof (ci_ready _ _ _ _ _ _ HC c t Hc Hqt) as Hst.
  eapply (cinv_ext (st_of s') (cur_of s) (idle_of s)); [|done|intros; apply Hv..|done|done].
  pose proof (queued_del s Q SL c t th xs ys HR Hc Ht Hx) as Hq'.
  apply (cinv_move (st_of s) (cur_of s) (idle_of s) (queued Q) (asleep SL) lax lax _ _ _ t x HC); try done.
  - unfold st_of. by rewrite Ht2.
  - intros u Hne. unfold st_of. by rewrite Hu.
  - intros c' u Hc' Hne. rewrite Hq' by done. tauto.
  - split; [intros (c' & Hc' & Hb)|done]. apply Hq' in Hb; [|done]. by destruct Hb as [_ []].
  - split; [intros (c' & Hc' & Hb)|done]. pose proof (ci_sleep _ _ _ _ _ _ HC c' t Hc' Hb). congruence.
  - intros c' Hc' Hcu. destruct (ci_cur _ _ _ _ _ _ HC c' t Hc' Hcu) as (y & Ey & Hy & _). congruence.
Qed.

(** Making a thread that waits nowhere ready on CPU [c]. *)
Lemma ready_spec s Q SL SL' lax c t th : rq_rep s Q SL' → rr_only (classes s) →
  cinv (st_of s) (cur_of s) (idle_of s) (queued Q) (asleep SL) lax → is_cpu c → get_thread s t = Some th →
  (tstate th = KTHREAD_STATE_SUSPENDED ∨ tstate th = KTHREAD_STATE_SLEEPING ∨ tstate th = KTHREAD_STATE_BLOCKED) →
  (∀ c' u, is_cpu c' → asleep SL' c' u ↔ asleep SL c' u ∧ u ≠ t) → (∀ c', is_cpu c' → cur_of s c' ≠ Some t) →
  ∃ s1 s', on_thread t (set_tstate KTHREAD_STATE_READY) s = Some s1 ∧ __sched_enqueue_locked c t s1 = Some s' ∧
    sinv s' (requeue true c th t Q) SL' lax ∧ others s s' ∧ get_thread s' t = Some (set_tstate KTHREAD_STATE_READY th) ∧
    (∀ u, u ≠ t → get_thread s' u = get_thread s u) ∧ (∀ c', cur_of s' c' = cur_of s c' ∧ idle_of s' c' = idle_of s c').
Proof.
  intros HR Hcls HC Hc Ht Hst Hsl Hncur.
  assert (st_of s t = Some (tstate th)) as Est by (unfold st_of; by rewrite Ht).
  assert (∀ c', is_cpu c' → ¬ queued Q c' t) as Hnq.
  { intros c' Hc' Hq. pose proof (ci_ready _ _ _ _ _ _ HC c' t Hc' Hq) as E. rewrite Est in E. injection E as E. destruct Hst as [?|[?|?]]; congruence. }
  destruct (put_back_spec s Q SL' c t th HR Hc Ht) as (s1 & s' & E1 & E2 & HR' & HO & Ht' & Hu & Hv).
  { intros c' p Hc' Hp Hin. apply (Hnq c' Hc'). by exists p. }
  exists s1, s'. split; [done|]. split; [done|]. split; [|done]. split; [done|by rewrite (others_classes _ _ HO)|].
  eapply (cinv_ext (st_of s') (cur_of s) (idle_of s)); [|done|intros; apply Hv..|done|done].
  pose proof (rr_prios _ _ _ HR t th Ht) as Hp.
  apply (cinv_move (st_of s) (cur_of s) (idle_of s) (queued Q) (asleep SL) lax lax _ _ _ t KTHREAD_STATE_READY HC); try done.
  - unfold st_of. by rewrite Ht'.
  - intros u Hne. unfold st_of. by rewrite Hu.
  - intros c' u Hc' Hne. rewrite queued_requeue by done. split; [by intros [?|[_ ?]]|by left].
  - intros c' u Hc' Hne. rewrite Hsl by done. tauto.
  - intros c' Hc' Hid. destruct (ci_idle _ _ _ _ _ _ HC c' Hc') as (i & Hi & Hsi & _). assert (i = t) as -> by congruence.
    rewrite Est in Hsi. destruct Hsi as [[= E]|[= E]]; destruct Hst as [?|[?|?]]; congruence.
  - split; [done|]. intros _. exists c. split; [done|]. rewrite queued_requeue by done. by right.
  - split; [|done]. intros (c' & Hc' & Hb). apply Hsl in Hb as [_ []]; done.
  - intros c' Hc' Hcu. by destruct (Hncur c').
Qed.
