(* ===== verification/SchedCalls.v ===== *)
(** * The calls of the scheduler keep its invariant *)

From stdpp Require Import sorting.
From S2P Require Import Prelude KList Bitmap SchedTypes Sched Threads Sleep SchedRep SchedInv SchedOps.

Set Default Goal Selector "!".

(** ** The whole invariant *)

Definition wake_of (s : sched) (t : Z) : Z := default 0 (wakeup_tick <$> get_thread s t).

Record wfl (s : sched) (Q : queues) (SL : Z → list Z) (lax : option Z) : Prop := WFL {
  wf_inv : sinv s Q SL lax;
  wf_canary : ∀ t th, get_thread s t = Some th → canary_ok s th;
  wf_preempt : Z.of_nat (length (preempt_count s)) = CONFIG_MAX_CPUS;
  wf_lb : Z.of_nat (length (lb_state s)) = CONFIG_MAX_CPUS ∧ ∀ c l, (lb_state s).[c] = Some l → 16 <= lb_interval l <= 318;
  wf_sorted : ∀ c, is_cpu c → StronglySorted Z.le (wake_of s <$> SL c);
  wf_names : ∀ t th, get_thread s t = Some th → Z.of_nat (length (name th)) = KTHREAD_NAME_MAX ∧ tid th = t;
  wf_stats : Z.of_nat (length (migrate_stats s)) = CONFIG_MAX_CPUS
}.

Notation wfs s Q SL := (wfl s Q SL None).

(** What the calls leave in the control blocks. *)
Definition tview (th : KThread_t) := (guard th, wakeup_tick th, name th, tid th).

Definition tkeep (s s' : sched) : Prop :=
  ∀ t, tview <$> get_thread s' t = tview <$> get_thread s t.

Lemma tkeep_refl s : tkeep s s.
Proof. done. Qed.

Lemma tkeep_trans s1 s2 s3 : tkeep s1 s2 → tkeep s2 s3 → tkeep s1 s3.
Proof. intros H1 H2 t. by rewrite H2. Qed.

Lemma tkeep_wake s s' t : tkeep s s' → wake_of s' t = wake_of s t.
Proof.
  intros H. specialize (H t). unfold wake_of. destruct (get_thread s' t), (get_thread s t); try done. unfold tview in H. cbn in *. congruence.
Qed.

Lemma wfl_step s s' Q SL lax Q' SL' lax' : wfl s Q SL lax → sinv s' Q' SL' lax' → others s s' → tkeep s s' →
  (∀ c, is_cpu c → StronglySorted Z.le (wake_of s <$> SL' c)) → wfl s' Q' SL' lax'.
Proof.
  intros [H1 H2 H3 H4 H5 H6 H7] HI HO HT Hs. split; [done|..].
  - intros t th Ht. pose proof (HT t) as E. rewrite Ht in E. cbn in E. destruct (get_thread s t) as [th0|] eqn:E0; [|done].
    injection E as Eg _ _ _. unfold canary_ok. rewrite Eg, (others_canary _ _ HO). by apply (H2 t).
  - assert (preempt_count s' = preempt_count s) as -> by exact (f_equal preempt_count HO). done.
  - assert (lb_state s' = lb_state s) as -> by exact (f_equal lb_state HO). done.
  - intros c Hc. assert (wake_of s' <$> SL' c = wake_of s <$> SL' c) as -> by (apply list_fmap_ext; intros ? ? _; by apply tkeep_wake).
    by apply Hs.
  - intros t th Ht. pose proof (HT t) as E. rewrite Ht in E. cbn in E. destruct (get_thread s t) as [th0|] eqn:E0; [|done].
    injection E as _ _ En Ei. rewrite En, Ei. by apply (H6 t).
  - assert (migrate_stats s' = migrate_stats s) as -> by exact (f_equal migrate_stats HO). done.
Qed.

(** ** The switch *)

Lemma switched_tkeep s s' Q SL c p i n pth Q1 rq : get_thread s p = Some pth → switched s s' Q SL c p i n pth Q1 rq → tkeep s s'.
Proof.
  intros Hp HS t. destruct (decide (t = n)) as [->|Hn].
  - rewrite (sw_next _ _ _ _ _ _ _ _ _ _ _ HS). by destruct (get_thread s n).
  - destruct (decide (t = p)) as [->|Hne]; [|by rewrite (sw_threads _ _ _ _ _ _ _ _ _ _ _ HS)].
    rewrite (sw_prev _ _ _ _ _ _ _ _ _ _ _ HS Hn), Hp. by destruct rq.
Qed.

Lemma cur_thread s Q SL lax c p : sinv s Q SL lax → is_cpu c → cur_of s c = Some p → ∃ pth, get_thread s p = Some pth.
Proof.
  intros [_ _ HC] Hc Hcur. destruct (ci_cur _ _ _ _ _ _ HC c p Hc Hcur) as (x & Hx & _). apply st_of_Some in Hx as (th & ? & _). by exists th.
Qed.

Lemma schedule_wf s Q SL lax c p : wfl s Q SL lax → (lax = None ∨ lax = Some c) → is_cpu c → cur_of s c = Some p →
  ∃ pth i s' n Q1 rq, get_thread s p = Some pth ∧ idle_of s c = Some i ∧ do_schedule c s = Some s' ∧
    switched s s' Q SL c p i n pth Q1 rq ∧ wfs s' (requeue rq c pth p Q1) SL.
Proof.
  intros HW Hlax Hc Hcur. pose proof HW as [HI Hcan _ _ Hso _ _]. destruct (cur_thread s Q SL lax c p HI Hc Hcur) as (pth & Hp).
  destruct (ci_idle _ _ _ _ _ _ (si_core _ _ _ _ HI) c Hc) as (i & Hi & _).
  destruct (do_schedule_spec s Q SL lax c p i pth HI Hlax Hc Hcur Hi Hp (Hcan p pth Hp)) as (s' & n & Q1 & rq & E & HS).
  exists pth, i, s', n, Q1, rq. split; [done|]. split; [done|]. split; [done|]. split; [done|].
  eapply wfl_step; [exact HW|exact (sw_inv _ _ _ _ _ _ _ _ _ _ _ HS)|exact (sw_others _ _ _ _ _ _ _ _ _ _ _ HS)|by eapply switched_tkeep|done].
Qed.

(** In short: the CPU goes on with some thread. *)
Lemma schedule_wf' s Q SL lax c : wfl s Q SL lax → (lax = None ∨ lax = Some c) → is_cpu c → is_Some (cur_of s c) →
  ∃ s' Q', do_schedule c s = Some s' ∧ wfs s' Q' SL ∧ is_Some (cur_of s' c) ∧ (∀ c', c' ≠ c → cur_of s' c' = cur_of s c').
Proof.
  intros HW Hlax Hc [p Hp]. destruct (schedule_wf s Q SL lax c p HW Hlax Hc Hp) as (pth & i & s' & n & Q1 & rq & _ & _ & E & HS & HW').
  exists s', (requeue rq c pth p Q1). split; [done|]. split; [done|]. split; [|apply (sw_curs _ _ _ _ _ _ _ _ _ _ _ HS)].
  exists n. exact (sw_cur _ _ _ _ _ _ _ _ _ _ _ HS).
Qed.

(** ** Calls as steps *)

Definition started (s : sched) (c : Z) : Prop := is_Some (cur_of s c).

(** From [s], the call [f] returns a state that is well formed again. *)
Definition call_ok (f : sched → option sched) (s : sched) : Prop :=
  ∃ s' Q' SL', f s = Some s' ∧ wfs s' Q' SL' ∧ ∀ c, started s c → started s' c.

Lemma schedule_ok s Q SL lax c : wfl s Q SL lax → (lax = None ∨ lax = Some c) → is_cpu c → started s c → call_ok (do_schedule c) s.
Proof.
  intros HW Hlax Hc Hst. destruct (schedule_wf' s Q SL lax c HW Hlax Hc Hst) as (s' & Q' & E & HW' & Hc' & Hoth).
  exists s', Q', SL. split; [done|]. split; [done|]. intros c1 H1. unfold started in *.
  destruct (decide (c1 = c)) as [->|]; [done|by rewrite Hoth].
Qed.

Lemma get_q_cur s c q : get_q s c = Some q → cur_of s c = current_thread q.
Proof. intros E. unfold cur_of. by rewrite E. Qed.

(** Continuing after a step that keeps every current thread. *)
Lemma call_ok_after (f g : sched → option sched) s s1 : f s = Some s1 → (∀ c, started s c → started s1 c) → call_ok g s1 →
  call_ok (λ s, s ← f s; g s) s.
Proof.
  intros E Hst (s' & Q' & SL' & E' & HW & Hs'). exists s', Q', SL'. rewrite E. cbn. split; [done|]. split; [done|].
  intros c Hc. by apply Hs', Hst.
Qed.

Lemma need_resched_wf s Q SL lax c v : wfl s Q SL lax → is_cpu c → ∃ s', on_q c (set_need v) s = Some s' ∧ wfl s' Q SL lax ∧
  (∀ c', cur_of s' c' = cur_of s c') ∧ (∀ t, get_thread s' t = get_thread s t) ∧ others s s' ∧
  ∃ q, get_q s c = Some q ∧ get_q s' c = Some (set_need v q).
Proof.
  intros HW Hc. pose proof HW as [HI _ _ _ Hso _ _]. destruct (rr_q _ _ _ (si_rep _ _ _ _ HI) c Hc) as (q & Hq).
  destruct (sinv_q s Q SL lax c (set_need v) q HI Hq) as (s' & E & HI' & HO & Hqc & Hqo & Hth); [done..|].
  exists s'. split; [done|]. split; [|split; [|split; [done|split; [done|by exists q]]]].
  - eapply wfl_step; [exact HW|done|done|intros t; by rewrite Hth|done].
  - intros c'. unfold cur_of. destruct (decide (c' = c)) as [->|]; [by rewrite Hqc, Hq|by rewrite Hqo].
Qed.

Lemma test_and_clear_wf s Q SL c : wfs s Q SL → is_cpu c → ∃ s' v, scheduler_test_and_clear_need_resched c s = Some (s', v) ∧
  wfs s' Q SL ∧ (∀ c', cur_of s' c' = cur_of s c').
Proof.
  intros HW Hc. destruct (rr_q _ _ _ (si_rep _ _ _ _ (wf_inv _ _ _ _ HW)) c Hc) as (q & Hq).
  unfold scheduler_test_and_clear_need_resched. rewrite Hq. cbn [mbind option_bind].
  destruct (negb (need_resched q =? 0)).
  - destruct (need_resched_wf s Q SL None c 0 HW Hc) as (s' & -> & HW' & Hcur & _). cbn [mbind option_bind]. by exists s', (need_resched q).
  - by exists s, (need_resched q).
Qed.

Lemma irq_tail_ok s Q SL c : wfs s Q SL → is_cpu c → started s c →
  call_ok (λ s, r ← scheduler_test_and_clear_need_resched c s; if negb (r.2 =? 0) then do_schedule c r.1 else Some r.1) s.
Proof.
  intros HW Hc Hst. destruct (test_and_clear_wf s Q SL c HW Hc) as (s1 & v & E & HW1 & Hcur).
  assert (∀ c, started s c → started s1 c) as Hs by (intros c'; unfold started; by rewrite Hcur).
  destruct (negb (v =? 0)) eqn:Ev.
  - destruct (schedule_ok s1 Q SL None c HW1 (or_introl eq_refl) Hc (Hs c Hst)) as (s2 & Q2 & SL2 & E2 & HW2 & Hs2).
    exists s2, Q2, SL2. rewrite E. cbn. rewrite Ev. split; [done|]. split; [done|]. intros c' H'. by apply Hs2, Hs.
  - exists s1, Q, SL. rewrite E. cbn. rewrite Ev. done.
Qed.

(** ** Preemption *)

Lemma wfl_same s s' Q SL lax : cpu_queues s' = cpu_queues s → thread_table s' = thread_table s → snodes s' = snodes s →
  classes s' = classes s → canary_mem s' = canary_mem s → Z.of_nat (length (preempt_count s')) = CONFIG_MAX_CPUS →
  (Z.of_nat (length (lb_state s')) = CONFIG_MAX_CPUS ∧ ∀ c l, (lb_state s').[c] = Some l → 16 <= lb_interval l <= 318) →
  Z.of_nat (length (migrate_stats s')) = CONFIG_MAX_CPUS →
  wfl s Q SL lax → wfl s' Q SL lax ∧ ∀ c, cur_of s' c = cur_of s c.
Proof.
  intros E1 E2 E3 E4 E5 Hp Hlb Hms [H1 H2 _ _ H5 H6 _]. split.
  - split; [by eapply sinv_same|..]; try done.
    + intros t th. unfold get_thread, canary_ok. rewrite E2, E5. apply H2.
    + intros c Hc. unfold wake_of, get_thread in *. rewrite E2. by apply H5.
    + intros t th. unfold get_thread. rewrite E2. apply H6.
  - intros c. unfold cur_of, get_q. by rewrite E1.
Qed.

Lemma preempt_wf s Q SL c v : wfs s Q SL → is_cpu c → ∃ ns, zupdate (preempt_count s) c v = Some ns ∧
  wfs (upd_preempt ns s) Q SL ∧ (∀ c', cur_of (upd_preempt ns s) c' = cur_of s c') ∧ ns.[c] = Some v.
Proof.
  intros HW Hc. pose proof (wf_preempt _ _ _ _ HW) as Hl.
  assert (0 <= c < Z.of_nat (length (preempt_count s))) as Hlt by (rewrite Hl; exact Hc).
  exists (<[Z.to_nat c := v]> (preempt_count s)). rewrite zupdate_total by done. split; [done|].
  destruct (wfl_same s (upd_preempt (<[Z.to_nat c := v]> (preempt_count s)) s) Q SL None) as [HW' Hcur]; try done.
  - cbn. by rewrite length_insert.
  - apply HW.
  - apply HW.
  - split; [done|]. split; [done|]. by apply zlookup_insert_eq.
Qed.

Lemma preempt_total s Q SL c : wfs s Q SL → is_cpu c → ∃ v, (preempt_count s).[c] = Some v.
Proof.
  intros HW Hc. destruct (proj2 (zlookup_is_Some (preempt_count s) c)) as [v Hv]; [rewrite (wf_preempt _ _ _ _ HW); exact Hc|]. by exists v.
Qed.

Lemma preempt_disable_ok s Q SL c : wfs s Q SL → is_cpu c → call_ok (preempt_disable c) s.
Proof.
  intros HW Hc. destruct (preempt_total s Q SL c HW Hc) as (v & Hv).
  destruct (preempt_wf s Q SL c (u32 (v + 1)) HW Hc) as (ns & E & HW' & Hcur & _).
  exists (upd_preempt ns s), Q, SL. unfold preempt_disable. rewrite Hv. cbn. rewrite E. split; [done|]. split; [done|].
  intros c'. unfold started. by rewrite Hcur.
Qed.

Lemma preempt_enable_ok s Q SL c : wfs s Q SL → is_cpu c → started s c → call_ok (preempt_enable c) s.
Proof.
  intros HW Hc Hst. destruct (preempt_total s Q SL c HW Hc) as (v & Hv).
  assert (∃ s1, (if v >? 0 then ns ← zupdate (preempt_count s) c (v - 1); Some (upd_preempt ns s) else Some s) = Some s1 ∧
    wfs s1 Q SL ∧ (∀ c', cur_of s1 c' = cur_of s c')) as (s1 & E1 & HW1 & Hcur).
  { destruct (v >? 0); [|by exists s]. destruct (preempt_wf s Q SL c (v - 1) HW Hc) as (ns & -> & H1 & H2 & _). by exists (upd_preempt ns s). }
  assert (∀ c, started s c → started s1 c) as Hs by (intros c'; unfold started; by rewrite Hcur).
  destruct (preempt_total s1 Q SL c HW1 Hc) as (w & Hw).
  destruct (irq_tail_ok s1 Q SL c HW1 Hc (Hs c Hst)) as (s2 & Q2 & SL2 & E2 & HW2 & Hs2). cbv beta in E2.
  unfold call_ok, preempt_enable. rewrite Hv. cbn [mbind option_bind]. rewrite E1. cbn [mbind option_bind]. rewrite Hw.
  cbn [mbind option_bind]. destruct (w =? 0).
  - exists s2, Q2, SL2. split; [done|]. split; [done|]. intros c' H'. by apply Hs2, Hs.
  - by exists s1, Q, SL.
Qed.

Lemma irq_exit_ok s Q SL c : wfs s Q SL → is_cpu c → started s c → call_ok (scheduler_irq_exit_check c) s.
Proof.
  intros HW Hc Hst. destruct (preempt_total s Q SL c HW Hc) as (v & Hv).
  destruct (irq_tail_ok s Q SL c HW Hc Hst) as (s2 & Q2 & SL2 & E2 & HW2 & Hs2).
  unfold call_ok, scheduler_irq_exit_check, preempt_is_disabled. rewrite Hv. cbn [mbind option_bind].
  destruct (v >? 0); [by exists s, Q, SL|]. by exists s2, Q2, SL2.
Qed.

(** ** The clock tick *)

Lemma rr_tick_wf s Q SL c t : wfs s Q SL → is_cpu c → (∃ th, get_thread s t = Some th) →
  ∃ s', sched_class_tick c (Some t) s = Some s' ∧ wfs s' Q SL ∧ (∀ c', cur_of s' c' = cur_of s c') ∧
    (∀ u, prio <$> get_thread s' u = prio <$> get_thread s u).
Proof.
  intros HW Hc [th Ht]. pose proof HW as [HI _ _ _ Hso _ _]. unfold sched_class_tick.
  rewrite (class_of_rr s t th (si_classes _ _ _ _ HI) Ht). cbn [mbind option_bind class_tick sched_rr_tick]. rewrite Ht. cbn [mbind option_bind].
  assert (∀ s1 v, wfs s1 Q SL → (∃ th1, get_thread s1 t = Some th1) → ∃ s2, on_thread t (set_slice v) s1 = Some s2 ∧ wfs s2 Q SL ∧
    (∀ c', cur_of s2 c' = cur_of s1 c') ∧ (∃ th2, get_thread s2 t = Some th2) ∧ (∀ u, prio <$> get_thread s2 u = prio <$> get_thread s1 u)) as Hset.
  { intros s1 v HW1 [th1 Ht1]. destruct (sinv_thread s1 Q SL None t (set_slice v) th1 (wf_inv _ _ _ _ HW1) Ht1) as (s2 & E & HI2 & HO & Ht2 & Hu & Hq); [done..|].
    exists s2. split; [done|]. split; [|split; [|split; [by eexists|]]].
    - eapply wfl_step; [exact HW1|done|done| |apply HW1]. intros u. destruct (decide (u = t)) as [->|]; [by rewrite Ht2, Ht1|by rewrite Hu].
    - intros c'. unfold cur_of. by rewrite Hq.
    - intros u. destruct (decide (u = t)) as [->|]; [by rewrite Ht2, Ht1|by rewrite Hu]. }
  destruct (_ && _); [|by exists s].
  destruct (Hset s (time_slice th - 1) HW ltac:(by exists th)) as (s1 & -> & HW1 & Hc1 & Ht1 & Hp1). cbn [mbind option_bind].
  destruct (_ =? 0); [|by exists s1].
  destruct (Hset s1 (time_slice_reload th) HW1 Ht1) as (s2 & -> & HW2 & Hc2 & Ht2 & Hp2). cbn [mbind option_bind].
  destruct (need_resched_wf s2 Q SL None c 1 HW2 Hc) as (s3 & E3 & HW3 & Hc3 & Hth3 & _). exists s3. unfold scheduler_set_need_resched.
  split; [exact E3|]. split; [done|]. split; [intros c'; by rewrite Hc3, Hc2, Hc1|]. intros u. by rewrite Hth3, Hp2, Hp1.
Qed.

Lemma check_balance_ok s Q SL c : wfs s Q SL → is_cpu c → ∃ s', smp_tick_check_balance c s = Some s' ∧ wfs s' Q SL ∧
  (∀ c', cur_of s' c' = cur_of s c').
Proof.
  intros HW Hc. destruct (wf_lb _ _ _ _ HW) as [Hl Hi]. unfold smp_tick_check_balance.
  rewrite Z.geb_leb, (proj2 (Z.leb_gt _ _)) by (destruct Hc; lia).
  destruct (proj2 (zlookup_is_Some (lb_state s) c)) as [l El]; [rewrite Hl; exact Hc|]. rewrite El. cbn [mbind option_bind].
  rewrite (proj2 (Z.eqb_neq _ _)) by (destruct (Hi c l El); lia). rewrite zupdate_total by (rewrite Hl; exact Hc). cbn [mbind option_bind].
  eexists. split; [done|]. apply (wfl_same s); try done; [apply HW| |apply HW]. cbn. split; [by rewrite length_insert|].
  intros c' l'. destruct (decide (c' = c)) as [->|Hne].
  - rewrite zlookup_insert_eq by (rewrite Hl; exact Hc). intros [= <-]. exact (Hi c l El).
  - rewrite zlookup_insert_ne by (destruct Hc; lia). apply Hi.
Qed.

Lemma pick_idle_total s Q SL c : wfs s Q SL → is_cpu c → ∃ n th, scheduler_pick_next c s = Some (Some n) ∧ get_thread s n = Some th.
Proof.
  intros HW Hc. destruct HW as [[HR _ HC] _ _ _ _ _ _]. destruct (pick_spec s Q SL c HR Hc) as (r & E & Hr).
  destruct (rr_q _ _ _ HR c Hc) as (q & Hq). unfold scheduler_pick_next. rewrite E. cbn [mbind option_bind]. rewrite Hq. cbn [mbind option_bind].
  destruct r as [t|].
  - destruct Hr as (p & Hp & Hh & _). destruct (rr_prio _ _ _ HR c p t Hc Hp) as (th & Ht & _).
    { destruct (Q c p); [done|]. injection Hh as ->. set_solver. }
    by exists t, th.
  - destruct (ci_idle _ _ _ _ _ _ HC c Hc) as (i & Hi & Hst & _). unfold idle_of in Hi. rewrite Hq in Hi. cbn in Hi. rewrite Hi.
    destruct Hst as [Hst|Hst]; apply st_of_Some in Hst as (th & Ht & _); by exists i, th.
Qed.

Lemma tick_ok s Q SL c : wfs s Q SL → is_cpu c → ∃ s', scheduler_tick c s = Some s' ∧ wfs s' Q SL ∧
  (∀ c', cur_of s' c' = cur_of s c').
Proof.
  intros HW Hc. pose proof HW as [HI _ _ _ _ _ _]. destruct (rr_q _ _ _ (si_rep _ _ _ _ HI) c Hc) as (q & Hq).
  unfold scheduler_tick. rewrite Hq. cbn [mbind option_bind]. destruct (current_thread q) as [cur|] eqn:Ec; [|by exists s].
  pose proof (get_q_cur s c q Hq) as Hcur. rewrite Ec in Hcur.
  destruct (rr_tick_wf s Q SL c cur HW Hc (cur_thread _ _ _ _ _ _ HI Hc Hcur)) as (s1 & -> & HW1 & Hc1 & Hp1). cbn [mbind option_bind].
  destruct (rr_q _ _ _ (si_rep _ _ _ _ (wf_inv _ _ _ _ HW1)) c Hc) as (q1 & Hq1). rewrite Hq1. cbn [mbind option_bind].
  destruct (negb _); [by exists s1|].
  destruct (pick_idle_total s1 Q SL c HW1 Hc) as (n & nth & -> & Hn). cbn [mbind option_bind]. rewrite <- Hc1 in Hcur.
  destruct (cur_thread s1 _ _ _ _ _ (wf_inv _ _ _ _ HW1) Hc Hcur) as (cth & Hcth).
  assert (∃ s2, (if bool_decide (n ≠ cur) then nt ← get_thread s1 n; ct ← get_thread s1 cur;
     if prio nt >? prio ct then scheduler_set_need_resched c s1 else Some s1 else Some s1) = Some s2 ∧ wfs s2 Q SL ∧
     (∀ c', cur_of s2 c' = cur_of s1 c')) as (s2 & E2 & HW2 & Hc2).
  { rewrite Hn, Hcth. cbn [mbind option_bind]. destruct (bool_decide _); [|by exists s1]. destruct (_ >? _); [|by exists s1].
    destruct (need_resched_wf s1 Q SL None c 1 HW1 Hc) as (s2 & E & H & H' & _). by exists s2. }
  rewrite E2. cbn [mbind option_bind]. destruct (check_balance_ok s2 Q SL c HW2 Hc) as (s3 & E3 & HW3 & Hc3).
  exists s3. split; [done|]. split; [done|]. intros c'. by rewrite Hc3, Hc2, Hc1.
Qed.
