(* ===== verification/SchedThreads.v ===== *)
(** * Thread calls and sleeping keep the invariant *)

From stdpp Require Import sorting.
From S2P Require Import Prelude KList OrdList Bitmap SchedTypes Sched Threads Sleep SchedRep SchedInv SchedOps SchedCalls.

Set Default Goal Selector "!".

(** ** Suspension, resumption, priorities *)

Definition not_idle (s : sched) (t : Z) : Prop := ∀ c, is_cpu c → idle_of s c ≠ Some t.

Lemma by_id t : is_tid t → get_thread_by_id t = Some t.
Proof. intros [? ?]. unfold get_thread_by_id. rewrite Z.geb_leb, (proj2 (Z.leb_gt _ _)) by lia. done. Qed.

Lemma tkeep_one s s' t th th' : get_thread s t = Some th → get_thread s' t = Some th' → guard th' = guard th →
  wakeup_tick th' = wakeup_tick th → name th' = name th → tid th' = tid th → (∀ u, u ≠ t → get_thread s' u = get_thread s u) → tkeep s s'.
Proof.
  intros H1 H2 H3 H4 Hn Hi H5 u. destruct (decide (u = t)) as [->|]; [rewrite H1, H2; cbn; unfold tview; by rewrite H3, H4, Hn, Hi|by rewrite H5].
Qed.

Lemma suspend_wf s Q SL c t th : wfs s Q SL → is_cpu c → queued Q c t → not_idle s t → get_thread s t = Some th →
  ∃ s' xs ys, kthread_suspend c t s = Some (s', KERNEL_OK) ∧ Q c (prio th) = xs ++ t :: ys ∧
    wfs s' (qset c (prio th) (xs ++ ys) Q) SL ∧ get_thread s' t = Some (set_tstate KTHREAD_STATE_SUSPENDED th) ∧
    (∀ c', cur_of s' c' = cur_of s c').
Proof.
  intros HW Hc Hq Hni Ht. pose proof HW as [HI _ _ _ Hso _ _]. pose proof HI as [HR _ HC].
  destruct (queued_split s Q SL c t th HR Hc Hq Ht) as (xs & ys & Hx).
  destruct (remove_spec s Q SL None c t th KTHREAD_STATE_SUSPENDED xs ys HI Hc Ht Hx Hni) as (s1 & s' & E1 & E2 & HI' & HO & Ht' & Hu & Hv); [done..|].
  exists s', xs, ys. pose proof (ci_ready _ _ _ _ _ _ HC c t Hc Hq) as Hst. apply st_of_Some in Hst as (th0 & Ht0 & Hst).
  assert (th0 = th) as -> by congruence. split.
  - unfold kthread_suspend. rewrite by_id by (by eapply rr_tid). rewrite Ht. cbn [mbind option_bind]. rewrite bool_decide_eq_true_2 by done.
    cbn [scheduler_dequeue]. rewrite E1. cbn [mbind option_bind]. by rewrite E2.
  - split; [done|]. split; [|split; [done|apply Hv]]. eapply wfl_step; [exact HW|done|done|by eapply (tkeep_one s s' t)|done].
Qed.

(** A suspended or blocked thread goes to the tail of its queue. *)
Lemma resume_ready_wf s Q SL c t th : wfs s Q SL → is_cpu c → get_thread s t = Some th →
  tstate th = KTHREAD_STATE_SUSPENDED ∨ tstate th = KTHREAD_STATE_BLOCKED →
  ∃ s1 s', on_thread t (set_tstate KTHREAD_STATE_READY) s = Some s1 ∧ __sched_enqueue_locked c t s1 = Some s' ∧
    wfs s' (requeue true c th t Q) SL ∧ get_thread s' t = Some (set_tstate KTHREAD_STATE_READY th) ∧
    (∀ c', cur_of s' c' = cur_of s c').
Proof.
  intros HW Hc Ht Hst. pose proof HW as [HI _ _ _ Hso _ _]. pose proof HI as [HR Hcls HC].
  assert (st_of s t = Some (tstate th)) as Est by (apply st_of_Some; eauto).
  destruct (ready_spec s Q SL SL None c t th HR Hcls HC Hc Ht) as (s1 & s' & E1 & E2 & HI' & HO & Ht' & Hu & Hv).
  - destruct Hst as [?|?]; [by left|by right; right].
  - intros c' u Hc'. split; [|by intros [? _]]. intros Hs. split; [done|]. intros ->.
    pose proof (ci_sleep _ _ _ _ _ _ HC c' t Hc' Hs) as E. rewrite Est in E. injection E as E. destruct Hst; congruence.
  - intros c' Hc' Hcu. destruct (ci_cur _ _ _ _ _ _ HC c' t Hc' Hcu) as (x & Hx & _ & Hr). rewrite Est in Hx. injection Hx as <-.
    specialize (Hr ltac:(done)). destruct Hst; congruence.
  - exists s1, s'. split; [done|]. split; [done|]. split; [|split; [done|apply Hv]].
    eapply wfl_step; [exact HW|done|done|by eapply (tkeep_one s s' t)|done].
Qed.

Lemma current_wf s Q SL c : wfs s Q SL → is_cpu c → kthread_get_current c s = Some (cur_of s c) ∧
  ∀ cur, cur_of s c = Some cur → ∃ ct, get_thread s cur = Some ct.
Proof.
  intros HW Hc. pose proof (wf_inv _ _ _ _ HW) as HI. destruct (rr_q _ _ _ (si_rep _ _ _ _ HI) c Hc) as (q & Hq).
  unfold kthread_get_current. rewrite (proj2 (Z.ltb_lt _ _)) by (by destruct Hc). rewrite Hq. cbn.
  rewrite (get_q_cur s c q Hq). split; [done|]. intros cur E. rewrite <- (get_q_cur s c q Hq) in E. by eapply cur_thread.
Qed.

(** The preemption check at the end of a call. *)
Lemma preempt_check_ok s Q SL c (b : KThread_t → bool) : wfs s Q SL → is_cpu c →
  ∃ cur s' Q', kthread_get_current c s = Some cur ∧
    match cur with Some cur => ct ← get_thread s cur; if b ct then do_schedule c s else Some s | None => Some s end = Some s' ∧
    wfs s' Q' SL ∧ (∀ c', started s c' → started s' c').
Proof.
  intros HW Hc. destruct (current_wf s Q SL c HW Hc) as [-> Hct]. exists (cur_of s c).
  destruct (cur_of s c) as [cur|] eqn:Ec; [|by exists s, Q]. destruct (Hct cur eq_refl) as (ct & Hc'). rewrite Hc'. cbn [mbind option_bind].
  destruct (b ct); [|by exists s, Q].
  destruct (schedule_wf' s Q SL None c HW (or_introl eq_refl) Hc) as (s' & Q' & E & HW' & Hs & Hoth); [by exists cur|].
  exists s', Q'. split; [done|]. split; [done|]. split; [done|]. intros c1 H1. unfold started in *.
  destruct (decide (c1 = c)) as [->|]; [done|by rewrite Hoth].
Qed.

Lemma resume_wf s Q SL c t : wfs s Q SL → is_cpu c → 0 <= t →
  ∃ s' Q' r, kthread_resume c t s = Some (s', r) ∧ wfs s' Q' SL ∧ (∀ c', started s c' → started s' c') ∧
    (r = KERNEL_OK ↔ st_of s t = Some KTHREAD_STATE_SUSPENDED).
Proof.
  intros HW Hc Ht0. unfold kthread_resume. destruct (decide (t < CONFIG_MAX_THREADS)) as [Hlt|Hge].
  - rewrite by_id by done. pose proof (si_rep _ _ _ _ (wf_inv _ _ _ _ HW)) as HR. destruct (rr_thread _ _ _ HR t) as (th & Ht); [done|].
    rewrite Ht, some_bind. unfold st_of. rewrite Ht. cbn [fmap option_fmap option_map]. case_bool_decide as Hst; cbn [negb].
    2: { exists s, Q, (- EINVAL). split; [done|]. split; [done|]. split; [done|]. split; [done|]. intros [= ?]. done. }
    destruct (resume_ready_wf s Q SL c t th HW Hc Ht (or_introl Hst)) as (s1 & s2 & E1 & E2 & HW2 & _ & Hv).
    destruct (preempt_check_ok s2 _ SL c (λ ct, prio th >? prio ct) HW2 Hc) as (cur & s3 & Q3 & Ec & E3 & HW3 & Hs3).
    rewrite E1, some_bind. cbn [scheduler_enqueue]. rewrite E2, some_bind, Ec, some_bind, E3, some_bind.
    exists s3, Q3, KERNEL_OK. split; [done|]. split; [done|]. split; [|by rewrite Hst].
    intros c' H'. apply Hs3. unfold started in *. by rewrite Hv.
  - unfold get_thread_by_id. rewrite Z.geb_leb, (proj2 (Z.leb_le _ _)) by lia.
    exists s, Q, (- ESRCH). split; [done|]. split; [done|]. split; [done|]. split; [done|].
    intros (th & Ht & _)%st_of_Some. pose proof (rr_tid _ _ _ (si_rep _ _ _ _ (wf_inv _ _ _ _ HW)) t th Ht) as [_ ?]. lia.
Qed.

(** *** Priorities *)

(** A queued thread moves to the tail of the queue of its new priority. *)
Lemma requeue_prio_wf s Q SL c t th p : wfs s Q SL → is_cpu c → queued Q c t → get_thread s t = Some th → is_prio p →
  ∃ s1 s2 s' Q', __sched_dequeue_locked c t s = Some s1 ∧ on_thread t (set_prio p) s1 = Some s2 ∧
    __sched_enqueue_locked c t s2 = Some s' ∧ wfs s' Q' SL ∧ (∀ c', cur_of s' c' = cur_of s c') ∧
    (∃ xs ys, Q c (prio th) = xs ++ t :: ys ∧
       Q' = requeue true c (set_prio p th) t (qset c (prio th) (xs ++ ys) Q)).
Proof.
  intros HW Hc Hq Ht Hp. pose proof HW as [HI _ _ _ Hso _ _]. pose proof HI as [HR Hcls HC].
  destruct (queued_split s Q SL c t th HR Hc Hq Ht) as (xs & ys & Hx).
  destruct (dequeue_spec s Q SL c t th xs ys HR Hc Ht Hx) as (s1 & E1 & HK1 & HR1).
  assert (get_thread s1 t = Some th) as Ht1 by (by rewrite (keeps_get_thread _ _ HK1)).
  pose proof (queued_del s Q SL c t th xs ys HR Hc Ht Hx) as Hqd. set (Q1 := qset c (prio th) (xs ++ ys) Q) in *.
  assert (unqueued Q1 t) as Hun.
  { intros c' p' Hc' Hp' Hin. destruct (proj1 (Hqd c' t Hc')) as [_ []]; [by exists p'|done]. }
  destruct (on_thread_spec t (set_prio p) s1 th Ht1) as (s2 & E2 & Ht2 & Hu2 & Hr2 & Hl2).
  assert (rq_rep s2 Q1 SL) as HR2 by (eapply (rq_rep_thread s1 s2 Q1 SL t th); try done; by right).
  destruct (enqueue_spec s2 Q1 SL c t _ HR2 Hc Ht2 Hun) as (s3 & E3 & HK3 & HR3).
  exists s1, s2, s3, (requeue true c (set_prio p th) t Q1). split; [done|]. split; [done|]. split; [done|].
  assert (others s s3) as HO.
  { eapply others_trans; [by apply keeps_others|]. eapply others_trans; [|by apply keeps_others].
    exact (f_equal (λ y, upd_queues [] (upd_snodes ∅ y)) Hr2). }
  assert (∀ c', get_q s2 c' = get_q s1 c') as Hq2 by (intros c'; unfold get_q; by rewrite (f_equal cpu_queues Hr2 : cpu_queues s2 = cpu_queues s1)).
  assert (get_thread s3 t = Some (set_prio p th)) as Ht3 by (by rewrite (keeps_get_thread _ _ HK3)).
  assert (∀ u, u ≠ t → get_thread s3 u = get_thread s u) as Hu3.
  { intros u Hu. rewrite (keeps_get_thread _ _ HK3), Hu2 by done. apply (keeps_get_thread _ _ HK1). }
  assert (∀ c', cur_of s3 c' = cur_of s c' ∧ idle_of s3 c' = idle_of s c') as Hv.
  { intros c'. rewrite (keeps_cur _ _ _ HK3), (keeps_idle _ _ _ HK3), <- (keeps_cur _ _ _ HK1), <- (keeps_idle _ _ _ HK1).
    unfold cur_of, idle_of. by rewrite Hq2. }
  split; [|split; [apply Hv|by exists xs, ys]].
  eapply wfl_step; [exact HW| |done|by eapply (tkeep_one s s3 t th (set_prio p th))|done].
  split; [exact HR3|by rewrite (others_classes _ _ HO)|]. eapply cinv_ext; [exact HC|..]; try done.
  - intros u. unfold st_of. destruct (decide (u = t)) as [->|]; [by rewrite Ht3, Ht|by rewrite Hu3].
  - intros c' _. apply Hv.
  - intros c' _. apply Hv.
  - intros c' u Hc'. rewrite queued_requeue by done. rewrite Hqd by done. split.
    + intros [[? _]|[-> ->]]; done.
    + intros Hqu. destruct (decide (u = t)) as [->|]; [right|by left]. split; [|done].
      destruct Hqu as (p1 & Hp1 & Hin1), Hq as (p2 & Hp2 & Hin2). by apply (rr_once _ _ _ HR c' p1 c p2 t).
Qed.

Lemma set_prio_unqueued_wf s Q SL t th p : wfs s Q SL → get_thread s t = Some th → tstate th ≠ KTHREAD_STATE_READY → is_prio p →
  ∃ s', on_thread t (set_prio p) s = Some s' ∧ wfs s' Q SL ∧ (∀ c', cur_of s' c' = cur_of s c').
Proof.
  intros HW Ht Hst Hp. pose proof HW as [HI _ _ _ Hso _ _]. pose proof HI as [HR Hcls HC].
  assert (unqueued Q t) as Hun.
  { intros c' p' Hc' Hp' Hin. assert (queued Q c' t) as Hq by (by exists p').
    pose proof (ci_ready _ _ _ _ _ _ HC c' t Hc' Hq) as E. unfold st_of in E. rewrite Ht in E. by injection E. }
  destruct (on_thread_spec t (set_prio p) s th Ht) as (s' & E & Ht2 & Hu2 & Hr2 & Hl2). exists s'. split; [done|].
  assert (∀ c', get_q s' c' = get_q s c') as Hq2 by (intros c'; unfold get_q; by rewrite (f_equal cpu_queues Hr2 : cpu_queues s' = cpu_queues s)).
  split; [|intros c'; unfold cur_of; by rewrite Hq2].
  assert (others s s') as HO by exact (f_equal (λ y, upd_queues [] (upd_snodes ∅ y)) Hr2).
  eapply wfl_step; [exact HW| |done|by eapply (tkeep_one s s' t th (set_prio p th))|done].
  split; [eapply (rq_rep_thread s s' Q SL t th); try done; by right|by rewrite (others_classes _ _ HO)|].
  eapply cinv_ext; [exact HC|..]; try done.
  - intros u. unfold st_of. destruct (decide (u = t)) as [->|]; [by rewrite Ht2, Ht|by rewrite Hu2].
  - intros c' _. unfold cur_of. by rewrite Hq2.
  - intros c' _. unfold idle_of. by rewrite Hq2.
Qed.

Lemma set_priority_wf s Q SL c t p : wfs s Q SL → is_cpu c → is_tid t → is_prio p →
  (st_of s t = Some KTHREAD_STATE_READY → queued Q c t) →
  ∃ s' Q', kthread_set_priority c t p s = Some (s', KERNEL_OK) ∧ wfs s' Q' SL ∧ (∀ c', started s c' → started s' c').
Proof.
  intros HW Hc Hti Hp Hon. pose proof (si_rep _ _ _ _ (wf_inv _ _ _ _ HW)) as HR. destruct (rr_thread _ _ _ HR t Hti) as (th & Ht).
  unfold kthread_set_priority. rewrite by_id by done. rewrite Ht, some_bind.
  assert (∃ s1 Q1, (if bool_decide (tstate th = KTHREAD_STATE_READY) then
      s ← scheduler_dequeue c (Some t) s; s ← on_thread t (set_prio p) s; scheduler_enqueue c (Some t) s
    else on_thread t (set_prio p) s) = Some s1 ∧ wfs s1 Q1 SL ∧ (∀ c', cur_of s1 c' = cur_of s c')) as (s1 & Q1 & E1 & HW1 & Hv1).
  { case_bool_decide as Hst.
    - assert (queued Q c t) as Hq by (apply Hon, st_of_Some; eauto).
      destruct (requeue_prio_wf s Q SL c t th p HW Hc Hq Ht Hp) as (sa & sb & s' & Q' & Ea & Eb & Ec & HW' & Hv & _).
      exists s', Q'. cbn [scheduler_dequeue]. rewrite Ea, some_bind, Eb, some_bind. done.
    - destruct (set_prio_unqueued_wf s Q SL t th p HW Ht Hst Hp) as (s' & E & HW' & Hv). by exists s', Q. }
  rewrite E1, some_bind.
  destruct (current_wf s1 Q1 SL c HW1 Hc) as [Ec Hct]. rewrite Ec, some_bind.
  destruct (cur_of s1 c) as [cur|] eqn:Ecur.
  2: { rewrite some_bind. exists s1, Q1. split; [done|]. split; [done|]. intros c'. unfold started. by rewrite Hv1. }
  destruct (Hct cur eq_refl) as (ct & Hc'). rewrite Hc', some_bind. destruct (_ && _).
  - destruct (schedule_wf' s1 Q1 SL None c HW1 (or_introl eq_refl) Hc) as (s' & Q' & E & HW' & Hs & Hoth); [by exists cur|].
    rewrite E, some_bind. exists s', Q'. split; [done|]. split; [done|]. intros c1 H1. unfold started in *.
    destruct (decide (c1 = c)) as [->|]; [done|]. by rewrite Hoth, Hv1.
  - rewrite some_bind. exists s1, Q1. split; [done|]. split; [done|]. intros c1. unfold started. by rewrite Hv1.
Qed.

(** ** Leaving the CPU *)

Lemma wfl_step' s s' Q SL lax Q' SL' lax' : wfl s Q SL lax → sinv s' Q' SL' lax' → others s s' →
  (∀ t, (λ th, (guard th, name th, tid th)) <$> get_thread s' t = (λ th, (guard th, name th, tid th)) <$> get_thread s t) →
  (∀ c, is_cpu c → StronglySorted Z.le (wake_of s' <$> SL' c)) → wfl s' Q' SL' lax'.
Proof.
  intros [H1 H2 H3 H4 H5 H6 H7] HI HO HT Hs. split; [done|..].
  - intros t th Ht. pose proof (HT t) as E. rewrite Ht in E. cbn in E. destruct (get_thread s t) as [th0|] eqn:E0; [|done].
    injection E as Eg _ _. unfold canary_ok. rewrite Eg, (others_canary _ _ HO). by apply (H2 t).
  - assert (preempt_count s' = preempt_count s) as -> by exact (f_equal preempt_count HO). done.
  - assert (lb_state s' = lb_state s) as -> by exact (f_equal lb_state HO). done.
  - done.
  - intros t th Ht. pose proof (HT t) as E. rewrite Ht in E. cbn in E. destruct (get_thread s t) as [th0|] eqn:E0; [|done].
    injection E as _ En Ei. rewrite En, Ei. by apply (H6 t).
  - assert (migrate_stats s' = migrate_stats s) as -> by exact (f_equal migrate_stats HO). done.
Qed.

(** The current thread stops running: it is dead, suspended or blocked. *)
Lemma park_wf s Q SL c t x : wfs s Q SL → is_cpu c → cur_of s c = Some t → not_idle s t →
  x = KTHREAD_STATE_DEAD ∨ x = KTHREAD_STATE_SUSPENDED ∨ x = KTHREAD_STATE_BLOCKED →
  ∃ th s1, get_thread s t = Some th ∧ on_thread t (set_tstate x) s = Some s1 ∧ wfl s1 Q SL (Some c) ∧
    get_thread s1 t = Some (set_tstate x th) ∧ (∀ c', cur_of s1 c' = cur_of s c').
Proof.
  intros HW Hc Hcur Hni Hx. pose proof HW as [HI _ _ _ Hso _ _]. pose proof HI as [HR Hcls HC].
  destruct (cur_thread s Q SL None c t HI Hc Hcur) as (th & Ht).
  destruct (set_state_spec s Q SL t x th HR Ht) as (s1 & E1 & HR1 & HO1 & Ht1 & Hu1 & Hq1).
  assert (∀ c', cur_of s1 c' = cur_of s c' ∧ idle_of s1 c' = idle_of s c') as Hv by (intros c'; unfold cur_of, idle_of; by rewrite Hq1).
  destruct (ci_cur _ _ _ _ _ _ HC c t Hc Hcur) as (y & Hy & _ & Hr). rewrite (Hr ltac:(done)) in Hy.
  exists th, s1. split; [done|]. split; [done|]. split; [|split; [done|apply Hv]].
  eapply wfl_step; [exact HW| |done|by eapply (tkeep_one s s1 t)|done]. split; [done|by rewrite (others_classes _ _ HO1)|].
  eapply (cinv_ext (st_of s1) (cur_of s) (idle_of s)); [|done|intros; apply Hv..|done|done].
  apply (cinv_move (st_of s) (cur_of s) (idle_of s) (queued Q) (asleep SL) None (Some c) _ _ _ t x HC); try done.
  - unfold st_of. by rewrite Ht1.
  - intros u Hu. unfold st_of. by rewrite Hu1.
  - by destruct Hx as [->|[->| ->]].
  - split; [intros (c' & Hc' & Hb)|by destruct Hx as [->|[->| ->]]]. pose proof (ci_ready _ _ _ _ _ _ HC c' t Hc' Hb). congruence.
  - split; [intros (c' & Hc' & Hb)|by destruct Hx as [->|[->| ->]]]. pose proof (ci_sleep _ _ _ _ _ _ HC c' t Hc' Hb). congruence.
  - intros c' Hc' Hcu. split; [|by destruct Hx as [->|[->| ->]]]. f_equal. by apply (ci_inj _ _ _ _ _ _ HC c c' t).
Qed.

Lemma park_ok s Q SL c t x : wfs s Q SL → is_cpu c → cur_of s c = Some t → not_idle s t →
  x = KTHREAD_STATE_DEAD ∨ x = KTHREAD_STATE_SUSPENDED ∨ x = KTHREAD_STATE_BLOCKED →
  call_ok (λ s, s ← on_thread t (set_tstate x) s; do_schedule c s) s.
Proof.
  intros HW Hc Hcur Hni Hx. destruct (park_wf s Q SL c t x HW Hc Hcur Hni Hx) as (th & s1 & _ & E1 & HW1 & _ & Hv).
  eapply call_ok_after; [exact E1|intros c'; unfold started; by rewrite Hv|]. eapply schedule_ok; [exact HW1|by right|done|].
  unfold started. rewrite Hv, Hcur. by eexists.
Qed.

Lemma exit_ok s Q SL c t : wfs s Q SL → is_cpu c → cur_of s c = Some t → not_idle s t → call_ok (kthread_exit c) s.
Proof.
  intros HW Hc Hcur Hni. destruct (park_ok s Q SL c t KTHREAD_STATE_DEAD HW Hc Hcur Hni) as (s' & Q' & SL' & E & H'); [by left|].
  exists s', Q', SL'. split; [|done]. destruct (rr_q _ _ _ (si_rep _ _ _ _ (wf_inv _ _ _ _ HW)) c Hc) as (q & Hq).
  unfold kthread_exit, exit_with. rewrite Hq, some_bind, <- (get_q_cur s c q Hq), Hcur, some_bind. exact E.
Qed.
