(* ===== verification/SchedCreate.v ===== *)
(** * Creating threads keeps the invariant of the scheduler *)

From stdpp Require Import sorting.
From S2P Require Import Prelude KList OrdList Bitmap SchedTypes Sched Threads Sleep.
From S2P Require Import SchedRep SchedInv SchedOps SchedCalls SchedThreads.

Set Default Goal Selector "!".

(** Initialising a node that already points to itself changes nothing. *)
Lemma init_self_id (h : snodes_t) a : dll h a [] → INIT_LIST_HEAD (Some a) h = Some h.
Proof.
  intros Hd. pose proof (dll_dom _ _ _ a Hd ltac:(set_solver)) as Ha.
  destruct (INIT_LIST_HEAD_effect a h Ha) as (h' & E & [D F] & Hn). rewrite E. f_equal. apply map_eq. intros b.
  destruct (decide (b = a)) as [->|Hne]; [|apply F; by rewrite list_elem_of_singleton].
  rewrite Hn. apply dll_nil in Hd as [H1 H2]. unfold nxt, prv in *. destruct (h !! a) as [[n p]|]; [|done]. cbn in *. by rewrite H1, H2.
Qed.

(** ** The search for a control block *)

Lemma find_dead_spec n t s : 0 <= t → t + Z.of_nat n = Z.of_nat (length (thread_table s)) → ∃ r, find_dead n t s = Some r ∧
  match r with
  | Some u => t <= u ∧ st_of s u = Some KTHREAD_STATE_DEAD ∧ ∀ v, t <= v < u → st_of s v ≠ Some KTHREAD_STATE_DEAD
  | None => ∀ v, t <= v → st_of s v ≠ Some KTHREAD_STATE_DEAD
  end.
Proof.
  revert t. induction n as [|n IH]; intros t Ht Hn; cbn [find_dead].
  { exists None. split; [done|]. intros v Hv E. apply st_of_Some in E as (th & E & _). apply zlookup_Some_lt in E. lia. }
  destruct (proj2 (zlookup_is_Some (thread_table s) t)) as [th E]; [lia|]. change (get_thread s t = Some th) in E. rewrite E, some_bind.
  case_bool_decide as Hd.
  { exists (Some t). split; [done|]. split; [lia|]. split; [apply st_of_Some; eauto|intros; lia]. }
  assert (st_of s t ≠ Some KTHREAD_STATE_DEAD) as Hnd by (intros (th' & E' & ?)%st_of_Some; congruence).
  destruct (IH (t + 1)) as (r & Er & Hr); [lia|lia|]. exists r. split; [done|]. destruct r as [u|].
  - destruct Hr as (H1 & H2 & H3). split; [lia|]. split; [done|]. intros v Hv. destruct (decide (v = t)) as [->|]; [done|]. apply H3. lia.
  - intros v Hv. destruct (decide (v = t)) as [->|]; [done|]. apply Hr. lia.
Qed.

(** The end of [alloc_thread_id] does not switch. *)
Definition quiet (s : sched) (c : Z) : Prop :=
  ∃ n q, (preempt_count s).[c] = Some n ∧ 0 <= n < 0xFFFFFFFF ∧ get_q s c = Some q ∧ (n = 0 → need_resched q = 0).

Lemma upd_preempt_id s : upd_preempt (preempt_count s) s = s.
Proof. by destruct s. Qed.

Lemma preempt_pair c s (f : sched → option sched) : quiet s c →
  (∀ l s', f s = Some s' → f (upd_preempt l s) = Some (upd_preempt l s')) →
  (∀ s', f s = Some s' → preempt_count s' = preempt_count s ∧ cpu_queues s' = cpu_queues s) →
  ∀ s', f s = Some s' → ∃ s1 s2, preempt_disable c s = Some s1 ∧ f s1 = Some s2 ∧ preempt_enable c s2 = Some s'.
Proof.
  intros (n & q & Hn & Hr & Hq & Hz) Hf Hk s' E. destruct (Hk s' E) as [Hp Hcq]. pose proof (zlookup_Some_lt _ _ _ Hn) as Hlt.
  set (l := <[Z.to_nat c := n + 1]> (preempt_count s)). exists (upd_preempt l s), (upd_preempt l s').
  unfold preempt_disable. rewrite Hn, some_bind, zupdate_total, some_bind by done. rewrite u32_small by lia. split; [done|].
  split; [by apply Hf|]. unfold preempt_enable. cbn [preempt_count upd_preempt].
  assert (l.[c] = Some (n + 1)) as El by (by apply zlookup_insert_eq).
  rewrite El, some_bind, Z.gtb_ltb, (proj2 (Z.ltb_lt _ _)) by lia.
  rewrite zupdate_total by (unfold l; rewrite length_insert; lia). rewrite some_bind.
  assert (<[Z.to_nat c := n + 1 - 1]> l = preempt_count s') as ->.
  { unfold l. rewrite list_insert_insert_eq, Hp. replace (n + 1 - 1) with n by lia. apply list_insert_id.
    unfold zlookup in Hn. by destruct (0 <=? c). }
  change (upd_preempt (preempt_count s') (upd_preempt l s')) with (upd_preempt (preempt_count s') s').
  rewrite upd_preempt_id, some_bind, Hp, Hn, some_bind. destruct (Z.eqb_spec n 0) as [->|]; [|done].
  unfold scheduler_test_and_clear_need_resched, get_q. rewrite Hcq. unfold get_q in Hq. rewrite Hq, some_bind, Hz by done.
  done.
Qed.

Lemma alloc_tid_spec c s : quiet s c → Z.of_nat (length (thread_table s)) = CONFIG_MAX_THREADS →
  (∃ t th s', get_thread s t = Some th ∧ tstate th = KTHREAD_STATE_DEAD ∧
     on_thread t (set_tstate KTHREAD_STATE_READY) s = Some s' ∧ alloc_thread_id c s = Some (s', t) ∧
     ∀ v, 0 <= v < t → st_of s v ≠ Some KTHREAD_STATE_DEAD) ∨
  (alloc_thread_id c s = Some (s, THREAD_ID_INVALID) ∧ ∀ v, st_of s v ≠ Some KTHREAD_STATE_DEAD).
Proof.
  intros Hqt Hlen. destruct (find_dead_spec (Z.to_nat CONFIG_MAX_THREADS) 0 s) as (r & Er & Hr); [lia|rewrite Hlen; done|].
  assert (∀ l, find_dead (Z.to_nat CONFIG_MAX_THREADS) 0 (upd_preempt l s) = Some r) as Er'.
  { intros l. rewrite <- Er. generalize (Z.to_nat CONFIG_MAX_THREADS) 0. clear. intros n.
    induction n as [|n IH]; intros t; cbn [find_dead]; [done|]. change (get_thread (upd_preempt l s) t) with (get_thread s t).
    destruct (get_thread s t); [|done]. rewrite !some_bind. case_bool_decide; [done|apply IH]. }
  unfold alloc_thread_id. generalize dependent (find_dead (Z.to_nat CONFIG_MAX_THREADS) 0). intros fd Er Er'. destruct r as [t|].
  - left. destruct Hr as (_ & Hst & Hmin). apply st_of_Some in Hst as (th & Ht & Hd).
    destruct (on_thread_spec t (set_tstate KTHREAD_STATE_READY) s th Ht) as (s' & E & _ & _ & Hrest & _).
    exists t, th, s'. split; [done|]. split; [done|]. split; [done|]. split; [|done].
    destruct (preempt_pair c s (on_thread t (set_tstate KTHREAD_STATE_READY)) Hqt) with (s' := s') as (s1 & s2 & E1 & E2 & E3); [| |done|].
    + intros l s0. unfold on_thread. change (get_thread (upd_preempt l s) t) with (get_thread s t). rewrite Ht, !some_bind.
      cbn [thread_table upd_preempt]. destruct (zupdate _ _ _); [|done]. rewrite !some_bind. by intros [= <-].
    + intros s0 E0. rewrite E in E0. injection E0 as <-. split; [exact (f_equal preempt_count Hrest)|exact (f_equal cpu_queues Hrest)].
    + assert (fd s1 = Some (Some t)) as Ef.
      { unfold preempt_disable in E1. destruct ((preempt_count s).[c]); [|done]. rewrite some_bind in E1. destruct (zupdate _ _ _); [|done].
        rewrite some_bind in E1. injection E1 as <-. apply Er'. }
      by rewrite E1, some_bind, Ef, some_bind, E2, some_bind, E3, some_bind.
  - right. split.
    + destruct (preempt_pair c s Some Hqt) with (s' := s) as (s1 & s2 & E1 & E2 & E3); [by intros l s0 [= <-]|by intros s0 [= <-]|done|].
      injection E2 as <-. assert (fd s1 = Some None) as Ef.
      { unfold preempt_disable in E1. destruct ((preempt_count s).[c]); [|done]. rewrite some_bind in E1. destruct (zupdate _ _ _); [|done].
        rewrite some_bind in E1. injection E1 as <-. apply Er'. }
      by rewrite E1, some_bind, Ef, some_bind, E3, some_bind.
    + intros v E. assert (0 <= v) as Hv by (apply st_of_Some in E as (th & E & _); apply zlookup_Some_lt in E; lia).
      by apply (Hr v Hv).
Qed.

(** ** The name *)

(** A C string, or at least as many characters as are read. *)
Definition name_ok (nm : list Z) : Prop := 0 ∈ nm ∨ KTHREAD_NAME_MAX - 1 <= Z.of_nat (length nm).

Lemma copy_name_loop_spec n i dest src : 0 <= i → i + Z.of_nat n = KTHREAD_NAME_MAX - 1 →
  (∃ j, i <= j ∧ src.[j] = Some 0) ∨ KTHREAD_NAME_MAX - 1 <= Z.of_nat (length src) →
  Z.of_nat (length dest) = KTHREAD_NAME_MAX → ∃ dest', copy_name_loop n i dest src = Some dest' ∧ length dest' = length dest.
Proof.
  revert i dest. induction n as [|n IH]; intros i dest Hi Hn Hsrc Hd; cbn [copy_name_loop]; [by exists dest|].
  destruct (proj2 (zlookup_is_Some src i)) as [ch E].
  { destruct Hsrc as [(j & Hj & Ej)|?]; [apply zlookup_Some_lt in Ej; lia|lia]. }
  rewrite E, some_bind, zupdate_total, some_bind by (unfold KTHREAD_NAME_MAX in *; lia).
  destruct (Z.eqb_spec ch 0) as [->|Hne]; [eexists; split; [done|apply length_insert]|].
  destruct (IH (i + 1) (<[Z.to_nat i := ch]> dest)) as (d & Ed & Hl); [lia|lia| |by rewrite length_insert|].
  - destruct Hsrc as [(j & Hj & Ej)|?]; [left; exists j; split; [|done]|by right]. destruct (decide (j = i)) as [->|]; [congruence|lia].
  - exists d. split; [done|]. by rewrite Hl, length_insert.
Qed.

Lemma copy_name_spec dest src : name_ok src → Z.of_nat (length dest) = KTHREAD_NAME_MAX →
  ∃ dest', copy_thread_name dest src = Some dest' ∧ Z.of_nat (length dest') = KTHREAD_NAME_MAX.
Proof.
  intros Hs Hd. unfold copy_thread_name.
  destruct (copy_name_loop_spec (Z.to_nat (KTHREAD_NAME_MAX - 1)) 0 dest src) as (d & E & Hl); [lia|done| |done|].
  - destruct Hs as [Hs|?]; [left|by right]. apply list_elem_of_lookup in Hs as [j Hj]. exists (Z.of_nat j). split; [lia|].
    unfold zlookup. rewrite (proj2 (Z.leb_le _ _)) by lia. by rewrite Nat2Z.id.
  - rewrite E, some_bind, zupdate_total by (rewrite Hl; unfold KTHREAD_NAME_MAX in *; lia). eexists. split; [done|].
    by rewrite length_insert, Hl.
Qed.

(** ** Filling the control block *)

Lemma node_self_id s Q SL a : rq_rep s Q SL → (∀ M, qmap M Q SL → M !! a = Some []) →
  on_snodes (INIT_LIST_HEAD (Some a)) s = Some s.
Proof.
  intros HR Ha. destruct (rr_lists _ _ _ HR) as (M & HM & HQ). unfold on_snodes.
  rewrite (init_self_id _ _ (lists_rep_dll _ _ _ _ HM (Ha M HQ))), some_bind. by destruct s.
Qed.

(** The fields of a fresh control block that matter to scheduling. *)
Definition filled (s : sched) (t ent arg base size p : Z) (pol : KThreadPolicy_t) (th th' : KThread_t) : Prop :=
  tid th' = t ∧ tstate th' = tstate th ∧ entry th' = ent ∧ entry_arg th' = arg ∧ stack_base th' = base ∧ stack_size th' = size ∧
  prio th' = p ∧ policy th' = pol ∧ time_slice th' = init_slice pol ∧ time_slice_reload th' = init_slice pol ∧
  affinity_mask th' = 0 ∧ wakeup_tick th' = 0 ∧ guard th' = (stack_guard_setup base size (guard th) (canary_mem s)).1.1 ∧
  Z.of_nat (length (name th')) = KTHREAD_NAME_MAX.

Lemma fill_spec s Q SL t th ent arg base size p pol nm : rq_rep s Q SL → get_thread s t = Some th → unqueued Q t → awake SL t →
  is_prio p → Z.of_nat (length (name th)) = KTHREAD_NAME_MAX → name_ok nm →
  ∃ s' th', fill_thread t ent arg base size p pol nm s = Some s' ∧ rq_rep s' Q SL ∧ get_thread s' t = Some th' ∧
    filled s t ent arg base size p pol th th' ∧ (∀ u, u ≠ t → get_thread s' u = get_thread s u) ∧
    canary_mem s' = (stack_guard_setup base size (guard th) (canary_mem s)).1.2 ∧
    upd_threads [] (upd_canary ∅ s') = upd_threads [] (upd_canary ∅ s).
Proof.
  intros HR Ht Hun Haw Hp Hnm Hok. pose proof (rr_tid _ _ _ HR t th Ht) as Hti. unfold fill_thread. rewrite Ht, some_bind.
  destruct (copy_name_spec (name th) nm Hok Hnm) as (nm' & -> & Hl). rewrite some_bind.
  set (g := stack_guard_setup _ _ _ _). set (th' := KThread t _ _ _ _ _ _ _ _ _ _ _ _ _ _ _).
  destruct (on_thread_spec t (λ _, th') s th Ht) as (s1 & E1 & Ht1 & Hu1 & Hr1 & Hl1).
  unfold on_thread in E1. rewrite Ht, some_bind in E1. destruct (zupdate (thread_table s) t th') as [ts|] eqn:Ets; [|done].
  rewrite some_bind in E1 |- *. injection E1 as <-. set (s2 := upd_canary g.1.2 (upd_threads ts s)).
  assert (rq_rep s2 Q SL) as HR2.
  { apply (rq_rep_same (upd_threads ts s)); [done..|]. eapply (rq_rep_thread s (upd_threads ts s) Q SL t th th'); try done. by right. }
  rewrite (node_self_id s2 Q SL (RqNode t) HR2) by (intros M HQ; by apply (qm_free _ _ _ HQ)). rewrite some_bind.
  rewrite (node_self_id s2 Q SL (EdfNode t) HR2) by (intros M HQ; by apply (qm_edf _ _ _ HQ)). rewrite some_bind.
  rewrite (node_self_id s2 Q SL (SleepNode t) HR2) by (intros M HQ; by apply (qm_awake _ _ _ HQ)).
  exists s2, th'. split; [done|]. split; [done|]. split; [exact Ht1|]. split; [by repeat split|]. split; [exact Hu1|]. by split.
Qed.

(** ** [kthread_create] on the queues alone *)

Section create.
Context {A : Type} `{StackSlab A} (heap_start heap_end : Z).
Notation kcreate := (kthread_create (A := A) heap_start heap_end).

Lemma stack_alloc_sched size (k : kthreads A) : kt_sched (stack_alloc_by_scheduler heap_start heap_end size k).1 = kt_sched k ∧
  kt_initialized (stack_alloc_by_scheduler heap_start heap_end size k).1 = kt_initialized k.
Proof.
  unfold stack_alloc_by_scheduler, stack_alloc_slab, stack_alloc.
  repeat match goal with |- context [if ?b then _ else _] => destruct b end; done.
Qed.

Lemma stack_alloc_upd size (k : kthreads A) s : stack_alloc heap_start heap_end size (upd_sched s k) =
  (upd_sched s (stack_alloc heap_start heap_end size k).1, (stack_alloc heap_start heap_end size k).2).
Proof. unfold stack_alloc. cbn [kt_heap upd_sched]. by destruct (_ >? _). Qed.

Lemma stack_alloc_slab_upd size (k : kthreads A) s : stack_alloc_slab heap_start heap_end size (upd_sched s k) =
  (upd_sched s (stack_alloc_slab heap_start heap_end size k).1, (stack_alloc_slab heap_start heap_end size k).2).
Proof.
  unfold stack_alloc_slab. cbn [kt_slab_ready kt_slab upd_sched]. destruct (negb _); [done|]. destruct (_ <? 0); [apply stack_alloc_upd|].
  by destruct (_ =? 0).
Qed.

Lemma stack_alloc_indep size (k : kthreads A) s : (stack_alloc_by_scheduler heap_start heap_end size (upd_sched s k)).2 =
  (stack_alloc_by_scheduler heap_start heap_end size k).2.
Proof.
  unfold stack_alloc_by_scheduler. rewrite stack_alloc_slab_upd. cbn [fst snd]. destruct (negb _); [done|]. by rewrite stack_alloc_upd.
Qed.

Lemma on_sched_run f (k : kthreads A) s : f (kt_sched k) = Some s → on_sched f k = Some (upd_sched s k).
Proof. unfold on_sched. by intros ->. Qed.

(** What [kthread_create] can do. *)
Inductive created (c : Z) (ent arg p : Z) (pol : KThreadPolicy_t) (size : Z) (s s' : sched) (Q : queues) (SL : Z → list Z) : Z → Prop :=
  | created_refused : s' = s → created c ent arg p pol size s s' Q SL THREAD_ID_INVALID
  | created_no_block : s' = s → (∀ v, st_of s v ≠ Some KTHREAD_STATE_DEAD) → created c ent arg p pol size s s' Q SL THREAD_ID_INVALID
  | created_no_stack t : st_of s t = Some KTHREAD_STATE_DEAD → on_thread t (set_tstate KTHREAD_STATE_READY) s = Some s' →
      created c ent arg p pol size s s' Q SL THREAD_ID_INVALID
  | created_ok t th th' base : get_thread s t = Some th → tstate th = KTHREAD_STATE_DEAD →
      (∀ v, 0 <= v < t → st_of s v ≠ Some KTHREAD_STATE_DEAD) →
      rq_rep s' (qset c p (Q c p ++ [t]) Q) SL → get_thread s' t = Some th' →
      filled s t ent arg base (clamp_stack size) p pol (set_tstate KTHREAD_STATE_READY th) th' →
      (∀ u, u ≠ t → get_thread s' u = get_thread s u) →
      canary_mem s' = (stack_guard_setup base (clamp_stack size) (guard th) (canary_mem s)).1.2 →
      upd_queues [] (upd_threads [] (upd_canary ∅ (upd_snodes ∅ s'))) = upd_queues [] (upd_threads [] (upd_canary ∅ (upd_snodes ∅ s))) →
      (∀ c', cur_of s' c' = cur_of s c' ∧ idle_of s' c' = idle_of s c' ∧ need_resched <$> get_q s' c' = need_resched <$> get_q s c') →
      created c ent arg p pol size s s' Q SL t.

Lemma create_spec c nm ent arg p pol size (k : kthreads A) Q SL : let s := kt_sched k in
  rq_rep s Q SL → quiet s c → is_cpu c → is_prio p → name_ok nm →
  (∀ t th, get_thread s t = Some th → Z.of_nat (length (name th)) = KTHREAD_NAME_MAX) →
  (∀ t, st_of s t = Some KTHREAD_STATE_DEAD → unqueued Q t ∧ awake SL t) →
  ∃ k' r, kcreate c (Some nm) ent arg p pol size k = Some (k', r) ∧
    created c ent arg p pol size s (kt_sched k') Q SL r ∧ kt_initialized k' = kt_initialized k ∧
    (r = THREAD_ID_INVALID → (stack_alloc_by_scheduler heap_start heap_end (clamp_stack size) k).2 ≠ 0 → kt_sched k' = s).
Proof.
  intros s HR Hqt Hc Hp Hnm Hnames Hdead. unfold kthread_create.
  destruct (ent =? 0); [exists k, THREAD_ID_INVALID; split; [done|]; split; [by apply created_refused|by split]|].
  destruct (alloc_tid_spec c s Hqt (rr_threads _ _ _ HR)) as [(t & th & s1 & Ht & Hst & E1 & Ea & Hmin)|[Ea Hnone]]; fold s; rewrite Ea, some_bind; cbn [fst snd].
  2: { change (THREAD_ID_INVALID =? THREAD_ID_INVALID) with true. cbv iota. eexists _, _. split; [done|].
       split; [by apply created_no_block|by split]. }
  pose proof (rr_tid _ _ _ HR t th Ht) as Hti.
  rewrite (proj2 (Z.eqb_neq _ _)) by (unfold is_tid, CONFIG_MAX_THREADS, THREAD_ID_INVALID in *; lia).
  destruct (stack_alloc_sched (clamp_stack size) (upd_sched s1 k)) as [Es Ei]. pose proof (stack_alloc_indep (clamp_stack size) k s1) as Et.
  destruct (stack_alloc_by_scheduler _ _ _ _) as [k1 top]. cbn [fst snd] in Es, Ei, Et. cbn [kt_sched upd_sched kt_initialized] in Es, Ei.
  assert (st_of s t = Some KTHREAD_STATE_DEAD) as Hdt by (apply st_of_Some; eauto).
  destruct (Z.eqb_spec top 0) as [Et0|Et0].
  { eexists _, _. split; [done|]. rewrite Es. split; [by apply (created_no_stack _ _ _ _ _ _ _ _ _ _ t)|]. split; [done|]. rewrite <- Et. done. }
  destruct (set_state_spec s Q SL t KTHREAD_STATE_READY th HR Ht) as (s1' & E1' & HR1 & HO1 & Ht1 & Hu1 & Hq1).
  assert (s1' = s1) as -> by congruence. destruct (Hdead t Hdt) as [Hun Haw].
  destruct (fill_spec s1 Q SL t _ ent arg (u64 (top - clamp_stack size)) (clamp_stack size) p pol nm HR1 Ht1 Hun Haw Hp (Hnames t th Ht) Hnm)
    as (s2 & th2 & E2 & HR2 & Ht2 & Hf2 & Hu2 & Hcm2 & Hr2).
  destruct (enqueue_spec s2 Q SL c t th2 HR2 Hc Ht2 Hun) as (s3 & E3 & HK3 & HR3).
  assert (prio th2 = p) as Hp2 by apply Hf2. rewrite Hp2 in HR3.
  rewrite <- Es in E2. rewrite (on_sched_run _ _ _ E2), some_bind.
  rewrite (on_sched_run (scheduler_enqueue c (Some t)) (upd_sched s2 k1) s3 E3), some_bind.
  eexists _, t. split; [done|]. split; [|split; [done|]].
  2: { intros ->. unfold is_tid, CONFIG_MAX_THREADS, THREAD_ID_INVALID in Hti. lia. }
  cbn [kt_sched upd_sched].
  assert (cpu_queues s2 = cpu_queues s) as Eq2.
  { transitivity (cpu_queues s1); [exact (f_equal cpu_queues Hr2)|]. unfold on_thread in E1. rewrite Ht, some_bind in E1.
    destruct (zupdate _ _ _); [|done]. rewrite some_bind in E1. by injection E1 as <-. }
  assert (canary_mem s1 = canary_mem s) as Ecm1 by (by apply others_canary).
  apply (created_ok _ _ _ _ _ _ _ _ _ _ t th th2 (u64 (top - clamp_stack size))); try done.
  - by rewrite (keeps_get_thread _ _ HK3).
  - unfold filled in *. by rewrite Ecm1 in Hf2.
  - intros u Hu. by rewrite (keeps_get_thread _ _ HK3), Hu2, Hu1.
  - rewrite (others_canary _ _ (keeps_others _ _ HK3)), Hcm2, Ecm1. done.
  - pose proof (f_equal (λ y, upd_canary ∅ (upd_threads [] y)) (ke_rest _ _ HK3)) as E. cbn in E.
    etransitivity; [exact E|]. pose proof (f_equal (λ y, upd_queues [] (upd_snodes ∅ y)) Hr2) as E'. cbn in E'.
    etransitivity; [exact E'|]. exact (f_equal (upd_canary ∅) HO1).
  - intros c'. assert (get_q s2 c' = get_q s c') as Eq by (unfold get_q; by rewrite Eq2).
    rewrite (keeps_cur _ _ _ HK3), (keeps_idle _ _ _ HK3). unfold cur_of, idle_of. rewrite Eq. split; [done|]. split; [done|].
    rewrite <- Eq. pose proof (ke_view _ _ HK3 c') as E. destruct (get_q s3 c'), (get_q s2 c'); cbn in E |- *; try done.
    by injection E as _ _ ->.
Qed.
End create.

(** ** The whole invariant *)

(** Setting up a guard keeps every canary, and sets the one of the new stack. *)
Lemma setup_canary s s' base size g th : canary_mem s' = (stack_guard_setup base size g (canary_mem s)).1.2 →
  canary_ok s th → canary_ok s' th.
Proof.
  intros E Hok He. destruct (Hok He) as [Hb Hm]. split; [done|]. rewrite E. unfold stack_guard_setup.
  repeat case_match; try done. cbn [fst snd]. destruct (decide (u64 (base + u32 (STACK_GUARD_PAGES * PAGE_SIZE_4K)) = u64 (g_bottom (guard th) + g_offset (guard th)))) as [->|].
  - by rewrite lookup_insert_eq.
  - by rewrite lookup_insert_ne.
Qed.

Lemma setup_own_canary s s' base size th th' : canary_mem s' = (stack_guard_setup base size (guard th) (canary_mem s)).1.2 →
  guard th' = (stack_guard_setup base size (guard th) (canary_mem s)).1.1 → canary_ok s th → canary_ok s' th'.
Proof.
  intros E Eg Hok. unfold canary_ok. rewrite E, Eg. unfold stack_guard_setup. destruct (Z.eqb_spec base 0); [exact Hok|].
  destruct (_ <? _); [exact Hok|]. destruct (_ <=? _); [exact Hok|]. cbn [fst snd g_enabled g_bottom g_offset]. intros _. split; [done|].
  by rewrite lookup_insert_eq.
Qed.

Lemma dead_nowhere s Q SL lax t : sinv s Q SL lax → st_of s t = Some KTHREAD_STATE_DEAD → unqueued Q t ∧ awake SL t.
Proof.
  intros [_ _ HC] Hd. split.
  - intros c p Hc Hp Hin. assert (queued Q c t) as Hq by (by exists p). pose proof (ci_ready _ _ _ _ _ _ HC c t Hc Hq). congruence.
  - intros c Hc Hin. pose proof (ci_sleep _ _ _ _ _ _ HC c t Hc Hin). congruence.
Qed.

Lemma created_wf c ent arg p pol size s s' Q SL t : wfs s Q SL → is_cpu c → is_prio p → is_tid t →
  created c ent arg p pol size s s' Q SL t →
  wfs s' (qset c p (Q c p ++ [t]) Q) SL ∧ ∀ c', cur_of s' c' = cur_of s c'.
Proof.
  intros [HI Hcan Hpre Hlb Hso Hnm Hms] Hc Hp Hti HC.
  inversion HC as [? Ei|? ? Ei|? ? ? Ei|t' th th' base Ht Hst _ HR' Ht' Hf Hu Hcm Hrest Hv]; subst;
    try (unfold is_tid, CONFIG_MAX_THREADS, THREAD_ID_INVALID in Hti; lia).
  assert (st_of s t = Some KTHREAD_STATE_DEAD) as Hd by (apply st_of_Some; eauto).
  destruct (dead_nowhere s Q SL None t HI Hd) as [Hun Haw]. pose proof HI as [HR Hcls Hcore].
  destruct Hf as (Htid' & Hst' & _ & _ & _ & _ & Hp' & _ & _ & _ & _ & Hw' & Hg' & Hn').
  split; [|apply Hv]. split; [split; [done| |]|..].
  - assert (classes s' = classes s) as -> by exact (f_equal classes Hrest). done.
  - eapply (cinv_ext (st_of s') (cur_of s) (idle_of s)); [|done|intros; apply Hv..|done|done].
    apply (cinv_move (st_of s) (cur_of s) (idle_of s) (queued Q) (asleep SL) None None _ _ _ t KTHREAD_STATE_READY Hcore); try done.
    + apply st_of_Some. exists th'. by rewrite Hst'.
    + intros u Hne. unfold st_of. by rewrite Hu.
    + intros c' u Hc' Hne. unfold queued. split; intros (p' & Hp1 & Hin); exists p'; (split; [done|]); unfold qset in *; case_decide as E; try done;
        destruct E as [-> ->]; set_solver.
    + intros c' Hc' Hi. destruct (ci_idle _ _ _ _ _ _ Hcore c' Hc') as (i & Hi' & Hsi & _). assert (i = t) as -> by congruence.
      destruct Hsi; congruence.
    + split; [done|]. intros _. exists c. split; [done|]. exists p. split; [done|]. rewrite qset_eq. set_solver.
    + split; [|done]. intros (c' & Hc' & Hin). by destruct (Haw c' Hc').
    + intros c' Hc' Hcu. destruct (ci_cur _ _ _ _ _ _ Hcore c' t Hc' Hcu) as (x & Hx & _ & Hr). rewrite (Hr ltac:(done)) in Hx. congruence.
  - intros u uh Hu'. destruct (decide (u = t)) as [->|Hne].
    + assert (uh = th') as -> by congruence. eapply (setup_own_canary s s' base (clamp_stack size) th); [done|done|by apply (Hcan t)].
    + rewrite Hu in Hu' by done. eapply setup_canary; [done|by apply (Hcan u)].
  - assert (preempt_count s' = preempt_count s) as -> by exact (f_equal preempt_count Hrest). done.
  - assert (lb_state s' = lb_state s) as -> by exact (f_equal lb_state Hrest). done.
  - intros c' Hc'. assert (wake_of s' <$> SL c' = wake_of s <$> SL c') as ->; [|by apply Hso]. apply list_fmap_ext. intros i u Hlk.
    unfold wake_of. rewrite Hu; [done|]. intros ->. apply (Haw c' Hc'). by eapply list_elem_of_lookup_2.
  - intros u uh Hu'. destruct (decide (u = t)) as [->|Hne]; [assert (uh = th') as -> by congruence; by split|]. rewrite Hu in Hu' by done. by apply (Hnm u).
  - assert (migrate_stats s' = migrate_stats s) as -> by exact (f_equal migrate_stats Hrest). done.
Qed.
