(* ===== verification/SchedSleep.v ===== *)
(** * Sleeping and waking keep the invariant *)

From stdpp Require Import sorting.
From S2P Require Import Prelude KList OrdList Bitmap SchedTypes Sched Threads Sleep.
From S2P Require Import SchedRep SchedInv SchedOps SchedCalls SchedThreads.

Set Default Goal Selector "!".

Definition slset (c : Z) (l : list Z) (SL : Z → list Z) : Z → list Z := λ c', if decide (c' = c) then l else SL c'.

Lemma slset_eq c l SL : slset c l SL c = l.
Proof. unfold slset. by rewrite decide_True. Qed.

Lemma slset_ne c l SL c' : c' ≠ c → slset c l SL c' = SL c'.
Proof. intros. unfold slset. by rewrite decide_False. Qed.

Lemma split_le_fmap {A B} (f : A → B) (kb : B → Z) (ka : A → Z) v l : (∀ a, kb (f a) = ka a) →
  split_le v kb (f <$> l) = (f <$> (split_le v ka l).1, f <$> (split_le v ka l).2).
Proof. intros E. induction l as [|a l IH]; [done|]. cbn. rewrite E. destruct (_ >? _); [done|]. by rewrite IH. Qed.

(** ** Insertion into a sleep queue *)

Lemma rq_rep_snodes s Q SL SL' h : rq_rep s Q SL → (∃ M, lists_rep h M ∧ qmap M Q SL') →
  (∀ c t, is_cpu c → t ∈ SL' c → is_tid t) → rq_rep (upd_snodes h s) Q SL'.
Proof. intros [R1 R2 R3 R4 R5 R6 R7 R8] HM Ht. split; try done. Qed.

Lemma sleep_length s Q SL c : rq_rep s Q SL → is_cpu c → (length (SL c) <= SLEEP_FUEL)%nat.
Proof.
  intros HR Hc. destruct (dll_NoDup _ _ _ (rr_sdll _ _ _ HR c Hc)) as [Hn _]. apply NoDup_fmap_1 in Hn.
  assert (SL c ⊆+ seqZ 0 CONFIG_MAX_THREADS) as Hs%submseteq_length.
  { apply NoDup_submseteq; [done|]. intros t Ht. apply elem_of_seqZ. pose proof (rr_sleep _ _ _ HR c t Hc Ht) as Hi. unfold is_tid in Hi. lia. }
  rewrite length_seqZ in Hs. unfold SLEEP_FUEL, CONFIG_MAX_THREADS in *. lia.
Qed.

(** [w] sorted into the queue of CPU [c]. *)
Definition sleep_in (s : sched) (SL : Z → list Z) (c t w : Z) : list Z :=
  (split_le w (wake_of s) (SL c)).1 ++ t :: (split_le w (wake_of s) (SL c)).2.

Lemma elem_of_sleep_in s SL c t w u : u ∈ sleep_in s SL c t w ↔ u = t ∨ u ∈ SL c.
Proof.
  unfold sleep_in. rewrite <- (split_le_app w (wake_of s) (SL c)) at 3. rewrite !elem_of_app, elem_of_cons. tauto.
Qed.

Lemma sleep_insert_spec s Q SL c t w : rq_rep s Q SL → is_cpu c → is_tid t → awake SL t →
  ∃ h, sleep_queue_insert_ordered c t w s = Some (upd_snodes h s) ∧ rq_rep (upd_snodes h s) Q (slset c (sleep_in s SL c t w) SL).
Proof.
  intros HR Hc Ht Haw. destruct (rr_lists _ _ _ HR) as (M & HM & HQ).
  set (k := λ a, match a with SleepNode t => wake_of s t | _ => 0 end).
  destruct (insert_ordered_spec SLEEP_FUEL (sleep_key s) k (snodes s) M (SleepHead c) (SleepNode <$> SL c) (SleepNode t) w)
    as (h & E & HM'); [done|by apply (qm_sleep _ _ _ HQ)|by apply (qm_awake _ _ _ HQ)|done|rewrite length_fmap; by eapply sleep_length| |].
  { intros a Ha. apply list_elem_of_fmap in Ha as (u & -> & Hu). pose proof (rr_sleep _ _ _ HR c u Hc Hu) as Hiu.
    destruct (rr_thread _ _ _ HR u Hiu) as (th & Hth). unfold sleep_key. cbn. rewrite Hth. cbn. unfold wake_of. by rewrite Hth. }
  exists h. unfold sleep_queue_insert_ordered, on_snodes. rewrite E. split; [done|].
  rewrite (split_le_fmap SleepNode k (wake_of s)) in HM' by done. cbn [fst snd] in HM'.
  rewrite <- fmap_cons, <- fmap_app in HM'. change (_ ++ t :: _) with (sleep_in s SL c t w) in HM'.
  apply (rq_rep_snodes s Q SL); [done| |].
  - eexists. split; [exact HM'|]. destruct HQ as [H1 H2 H3 H4 H5]. split.
    + intros c' p Hc' Hp. rewrite lookup_insert_ne by done. rewrite lookup_delete_ne by done. by apply H1.
    + intros t' Ht' Hun. rewrite lookup_insert_ne by done. rewrite lookup_delete_ne by done. by apply H2.
    + intros c' Hc'. destruct (decide (c' = c)) as [->|Hne]; [by rewrite lookup_insert_eq, slset_eq|].
      rewrite lookup_insert_ne by congruence. rewrite lookup_delete_ne by done. rewrite slset_ne by done. by apply H3.
    + intros t' Ht' Haw'. rewrite lookup_insert_ne by done.
      assert (t' ≠ t) by (intros ->; apply (Haw' c Hc); rewrite slset_eq, elem_of_sleep_in; by left).
      rewrite lookup_delete_ne by congruence. apply H4; [done|]. intros c' Hc' Hin. apply (Haw' c' Hc').
      unfold slset. case_decide as E'; [subst c'; rewrite elem_of_sleep_in; by right|done].
    + intros t' Ht'. rewrite lookup_insert_ne by done. rewrite lookup_delete_ne by done. by apply H5.
  - intros c' u Hc'. unfold slset. case_decide as E'; [|by apply (rr_sleep _ _ _ HR)]. subst c'.
    rewrite elem_of_sleep_in. intros [->|Hu]; [done|by apply (rr_sleep _ _ _ HR c)].
Qed.

(** ** Falling asleep *)

Lemma sleep_ok s Q SL c t ticks : wfs s Q SL → is_cpu c → cur_of s c = Some t → not_idle s t → call_ok (kthread_sleep_ticks c ticks) s.
Proof.
  intros HW Hc Hcur Hni. unfold call_ok, kthread_sleep_ticks. destruct (ticks =? 0); [by exists s, Q, SL|].
  pose proof HW as [HI _ _ _ Hso _ _]. pose proof HI as [HR Hcls HC].
  destruct (current_wf s Q SL c HW Hc) as [Ec _]. rewrite Ec, some_bind, Hcur.
  destruct (cur_thread s Q SL None c t HI Hc Hcur) as (th & Ht). set (w := u64 _).
  destruct (sinv_thread s Q SL None t (set_wakeup w) th HI Ht) as (s1 & E1 & HI1 & HO1 & Ht1 & Hu1 & Hq1); [done..|].
  destruct (set_state_spec s1 Q SL t KTHREAD_STATE_SLEEPING _ (si_rep _ _ _ _ HI1) Ht1) as (s2 & E2 & HR2 & HO2 & Ht2 & Hu2 & Hq2).
  destruct (ci_cur _ _ _ _ _ _ HC c t Hc Hcur) as (x & Hx & _ & Hr). rewrite (Hr ltac:(done)) in Hx.
  assert (awake SL t) as Haw.
  { intros c' Hc' Hin. pose proof (ci_sleep _ _ _ _ _ _ HC c' t Hc' Hin). congruence. }
  assert (is_tid t) as Hti by (by eapply rr_tid).
  destruct (sleep_insert_spec s2 Q SL c t w HR2 Hc Hti Haw) as (h & E3 & HR3).
  rewrite E1, some_bind, E2, some_bind, E3, some_bind. set (s3 := upd_snodes h s2) in *.
  assert (others s s3) as HO by (eapply others_trans; [exact HO1|]; eapply others_trans; [exact HO2|]; done).
  assert (∀ c', cur_of s3 c' = cur_of s c' ∧ idle_of s3 c' = idle_of s c') as Hv.
  { intros c'. unfold cur_of, idle_of. change (get_q s3 c') with (get_q s2 c'). by rewrite Hq2, Hq1. }
  assert (∀ u, u ≠ t → get_thread s3 u = get_thread s u) as Hu3.
  { intros u Hu. change (get_thread s3 u) with (get_thread s2 u). by rewrite Hu2, Hu1. }
  assert (get_thread s3 t = Some (set_tstate KTHREAD_STATE_SLEEPING (set_wakeup w th))) as Ht3 by exact Ht2.
  assert (wfl s3 Q (slset c (sleep_in s2 SL c t w) SL) (Some c)) as HW3.
  { eapply wfl_step'; [exact HW| |done|..].
    - split; [exact HR3|by rewrite (others_classes _ _ HO)|].
      eapply (cinv_ext (st_of s3) (cur_of s) (idle_of s)); [|done|intros; apply Hv..|done|done].
      apply (cinv_move (st_of s) (cur_of s) (idle_of s) (queued Q) (asleep SL) None (Some c) _ _ _ t KTHREAD_STATE_SLEEPING HC); try done.
      + unfold st_of. by rewrite Ht3.
      + intros u Hu. unfold st_of. by rewrite Hu3.
      + intros c' u Hc' Hu. unfold asleep, slset. case_decide as E'; [|done]. subst c'. rewrite elem_of_sleep_in. tauto.
      + split; [intros (c' & Hc' & Hb)|done]. pose proof (ci_ready _ _ _ _ _ _ HC c' t Hc' Hb). congruence.
      + split; [done|]. intros _. exists c. split; [done|]. unfold asleep. rewrite slset_eq, elem_of_sleep_in. by left.
      + intros c' Hc' Hcu. split; [|done]. f_equal. by apply (ci_inj _ _ _ _ _ _ HC c c' t).
    - intros u. destruct (decide (u = t)) as [->|]; [by rewrite Ht3, Ht|by rewrite Hu3].
    - intros c' Hc'. assert (∀ u, wake_of s3 u = wake_of s2 u) as Ew by done.
      assert (∀ c1, is_cpu c1 → wake_of s3 <$> SL c1 = wake_of s <$> SL c1) as Eold.
      { intros c1 Hc1. apply list_fmap_ext. intros i u Hlk. unfold wake_of. rewrite Hu3; [done|]. intros ->.
        apply (Haw c1 Hc1). by eapply list_elem_of_lookup_2. }
      unfold slset. case_decide as E'; [|rewrite Eold by done; by apply Hso]. subst c'.
      unfold sleep_in. rewrite fmap_app, fmap_cons.
      assert (wake_of s3 t = w) as -> by (unfold wake_of; by rewrite Ht3).
      apply (split_le_sorted w (wake_of s2)). rewrite Eold by done. by apply Hso. }
  destruct (schedule_ok s3 _ _ (Some c) c HW3 (or_intror eq_refl) Hc) as (s4 & Q4 & SL4 & E4 & HW4 & Hs4).
  { unfold started. rewrite (proj1 (Hv c)), Hcur. by eexists. }
  exists s4, Q4, SL4. split; [done|]. split; [done|]. intros c' H'. apply Hs4. unfold started in *. by rewrite (proj1 (Hv c')).
Qed.

(** ** Waking *)

(** A sleeper leaves its queue and becomes ready on CPU [c]. *)
Lemma wake_spec s Q SL c c0 t th xs ys : wfs s Q SL → is_cpu c → is_cpu c0 → SL c0 = xs ++ t :: ys → get_thread s t = Some th →
  ∃ h s1 s', list_del_init (Some (SleepNode t)) (snodes s) = Some h ∧
    on_thread t (set_tstate KTHREAD_STATE_READY) (upd_snodes h s) = Some s1 ∧ __sched_enqueue_locked c t s1 = Some s' ∧
    wfs s' (requeue true c th t Q) (slset c0 (xs ++ ys) SL) ∧ (∀ c', cur_of s' c' = cur_of s c') ∧
    s_system_ticks s' = s_system_ticks s ∧ tkeep s s'.
Proof.
  intros HW Hc Hc0 Hx Ht. pose proof HW as [HI _ _ _ Hso _ _]. pose proof HI as [HR Hcls HC].
  destruct (rr_lists _ _ _ HR) as (M & HM & HQ). pose proof (qm_sleep _ _ _ HQ c0 Hc0) as Hhd. rewrite Hx, fmap_app, fmap_cons in Hhd.
  destruct (lists_rep_del_init (snodes s) M _ _ _ _ HM Hhd) as (h & E & HM' & _). exists h.
  assert (asleep SL c0 t) as Has by (unfold asleep; rewrite Hx; set_solver).
  pose proof (ci_sleep _ _ _ _ _ _ HC c0 t Hc0 Has) as Hst. apply st_of_Some in Hst as (th0 & Ht0 & Hst).
  assert (th0 = th) as -> by congruence.
  assert (t ∉ xs ++ ys) as Hni.
  { destruct (dll_NoDup _ _ _ (rr_sdll _ _ _ HR c0 Hc0)) as [Hn _]. apply NoDup_fmap_1 in Hn. rewrite Hx in Hn.
    apply NoDup_app in Hn as (_ & Hd & [Hy _]%NoDup_cons). intros [Hin|Hin]%elem_of_app; [|done]. apply (Hd t Hin). set_solver. }
  assert (∀ c' u, is_cpu c' → u ∈ slset c0 (xs ++ ys) SL c' ↔ u ∈ SL c' ∧ u ≠ t) as Hel.
  { intros c' u Hc'. unfold slset. case_decide as E'.
    - subst c'. rewrite Hx. split; [|set_solver]. intros Hu. split; [set_solver|]. by intros ->.
    - split; [|by intros [? _]]. intros Hu. split; [done|]. intros ->. apply E'. by apply (rr_sleep_once _ _ _ HR c' c0 t). }
  assert (rq_rep (upd_snodes h s) Q (slset c0 (xs ++ ys) SL)) as HR1.
  { apply (rq_rep_snodes s Q SL); [done| |intros c' u Hc' [Hu _]%Hel; [by apply (rr_sleep _ _ _ HR c')|done]].
    eexists. split; [exact HM'|]. destruct HQ as [H1 H2 H3 H4 H5]. split.
    - intros c' p Hc' Hp. rewrite !lookup_insert_ne by done. by apply H1.
    - intros t' Ht' Hun. rewrite !lookup_insert_ne by done. by apply H2.
    - intros c' Hc'. rewrite lookup_insert_ne by done. unfold slset. case_decide as E'.
      + subst c'. by rewrite lookup_insert_eq, fmap_app.
      + rewrite lookup_insert_ne by congruence. by apply H3.
    - intros t' Ht' Haw. destruct (decide (t' = t)) as [->|Hne]; [by rewrite lookup_insert_eq|].
      rewrite !lookup_insert_ne by congruence. apply H4; [done|]. intros c' Hc' Hin. apply (Haw c' Hc'). apply Hel; done.
    - intros t' Ht'. rewrite !lookup_insert_ne by done. by apply H5. }
  destruct (ready_spec (upd_snodes h s) Q SL (slset c0 (xs ++ ys) SL) None c t th) as (s1 & s' & E1 & E2 & HI' & HO & Ht' & Hu & Hv); try done.
  - by right; left.
  - intros c' Hc' Hcu. destruct (ci_cur _ _ _ _ _ _ HC c' t Hc' Hcu) as (y & Hy & _ & Hr). unfold st_of in Hy. rewrite Ht in Hy.
    injection Hy as <-. rewrite Hst in Hr. discriminate (Hr ltac:(done)).
  - exists s1, s'. split; [done|]. split; [done|]. split; [done|].
    assert (tkeep s s') as HT by (eapply (tkeep_one s s' t); done).
    split; [|split; [apply Hv|split; [exact (f_equal s_system_ticks HO)|done]]].
    eapply wfl_step; [exact HW|done|exact HO|done|].
    intros c' Hc'. unfold slset. case_decide as E'; [|by apply Hso]. subst c'. specialize (Hso c0 Hc0). rewrite Hx, fmap_app, fmap_cons in Hso.
    rewrite fmap_app. apply StronglySorted_app in Hso as (Ha & Hb & [_ Hc2]%StronglySorted_cons). apply StronglySorted_app.
    split; [|done]. intros a b Ha' Hb'. apply Ha; [done|]. set_solver.
Qed.

Lemma wakeup_loop_wf n c now s Q SL : wfs s Q SL → is_cpu c → ∃ s' Q' SL', wakeup_loop n c now s = Some s' ∧ wfs s' Q' SL' ∧
  (∀ c', cur_of s' c' = cur_of s c').
Proof.
  revert s Q SL. induction n as [|n IH]; intros s Q SL HW Hc; cbn [wakeup_loop]; [by exists s, Q, SL|].
  pose proof (si_rep _ _ _ _ (wf_inv _ _ _ _ HW)) as HR. pose proof (rr_sdll _ _ _ HR c Hc) as Hd.
  rewrite (list_empty_spec _ _ _ Hd), some_bind. destruct (SL c) as [|t l] eqn:El; [by exists s, Q, SL|].
  rewrite bool_decide_eq_false_2 by done. rewrite (get_next_nxt _ _ _ (dll_first _ _ _ Hd)), some_bind. cbn [fmap list_fmap head default sleep_entry id].
  rewrite some_bind. assert (is_tid t) as Hti by (apply (rr_sleep _ _ _ HR c t Hc); rewrite El; set_solver).
  destruct (rr_thread _ _ _ HR t Hti) as (th & Ht). rewrite Ht, some_bind. destruct (_ >? _); [by exists s, Q, SL|].
  destruct (wake_spec s Q SL c c t th [] l HW Hc Hc El Ht) as (h & s1 & s2 & E1 & E2 & E3 & HW2 & Hv & _).
  unfold on_snodes at 1. rewrite E1, some_bind. cbn [scheduler_enqueue]. rewrite some_bind, E2, some_bind, E3, some_bind.
  destruct (IH s2 _ _ HW2 Hc) as (s3 & Q3 & SL3 & E & HW3 & Hv3). exists s3, Q3, SL3. split; [done|]. split; [done|].
  intros c'. by rewrite Hv3, Hv.
Qed.

Lemma timer_interrupt_ok s Q SL c : wfs s Q SL → is_cpu c → call_ok (timer_interrupt c) s.
Proof.
  intros HW Hc. unfold call_ok, timer_interrupt. set (now := u64 _).
  destruct (wfl_same s (upd_ticks now s) Q SL None) as [HW1 Hv1]; try done; [apply HW..|].
  destruct (wakeup_loop_wf TIMER_IRQ_MAX_WAKEUPS c now (upd_ticks now s) Q SL HW1 Hc) as (s2 & Q2 & SL2 & E2 & HW2 & Hv2).
  rewrite E2, some_bind. destruct (tick_ok s2 Q2 SL2 c HW2 Hc) as (s3 & E3 & HW3 & Hv3).
  exists s3, Q2, SL2. split; [done|]. split; [done|]. intros c'. unfold started. by rewrite Hv3, Hv2, Hv1.
Qed.

Lemma wakeup_thread_ok s Q SL c t : wfs s Q SL → is_cpu c → is_tid t → call_ok (timer_wakeup_thread c (Some t)) s.
Proof.
  intros HW Hc Hti. pose proof HW as [HI _ _ _ _ _ _]. pose proof HI as [HR _ HC]. destruct (rr_thread _ _ _ HR t Hti) as (th & Ht).
  unfold call_ok. cbn [timer_wakeup_thread]. rewrite Ht, some_bind. case_bool_decide as Hst; cbn [negb]; [|by exists s, Q, SL].
  destruct (ci_asleep _ _ _ _ _ _ HC t) as (c0 & Hc0 & Has); [apply st_of_Some; eauto|].
  unfold asleep in Has. apply list_elem_of_split in Has as (xs & ys & Hx).
  destruct (wake_spec s Q SL c c0 t th xs ys HW Hc Hc0 Hx Ht) as (h & s1 & s2 & E1 & E2 & E3 & HW2 & Hv & _).
  pose proof (rr_sdll _ _ _ HR c0 Hc0) as Hd. rewrite Hx, fmap_app, fmap_cons in Hd.
  destruct (dll_neighbours _ _ _ _ _ Hd) as [_ En]. rewrite En, some_bind.
  rewrite bool_decide_eq_true_2.
  - unfold on_snodes at 1. rewrite E1, some_bind. cbn [scheduler_enqueue]. rewrite some_bind, E2, some_bind.
    exists s2, (requeue true c th t Q), (slset c0 (xs ++ ys) SL). split; [done|]. split; [done|]. intros c'. unfold started. by rewrite Hv.
  - intros [= E]. destruct ys as [|y ys]; [by cbn in E|]. cbn in E. injection E as ->.
    destruct (dll_NoDup _ _ _ Hd) as [Hn _]. apply NoDup_app in Hn as (_ & _ & [Hy _]%NoDup_cons). set_solver.
Qed.
