(* ===== verification/SchedInit.v ===== *)
(** * Start-up establishes the invariant of the scheduler

    [timer_init], [scheduler_init], [smp_sched_init] and [scheduler_start] in
    the order of [kernel_main], from the static image of the data. *)

From stdpp Require Import sorting.
From S2P Require Import Prelude KList OrdList Bitmap SchedTypes Sched Threads Smp Sleep.
From S2P Require Import SchedRep SchedInv SchedOps SchedCalls SchedThreads SchedCreate SchedSleep.

Set Default Goal Selector "!".

(** ** Nodes that point to themselves *)

Lemma init_self (h : snodes_t) a : a ∈ dom h → ∃ h', INIT_LIST_HEAD (Some a) h = Some h' ∧ dll h' a [] ∧
  (∀ b, dll h b [] → dll h' b []) ∧ dom h' = dom h.
Proof.
  intros Ha. destruct (INIT_LIST_HEAD_effect a h Ha) as (h' & E & [D F] & Hn). exists h'. split; [done|].
  assert (dll h' a []) as Hd by (apply dll_nil; unfold link, nxt, prv; by rewrite Hn).
  split; [done|]. split; [|done]. intros b Hb. destruct (decide (b = a)) as [->|Hne]; [done|].
  apply dll_nil. apply dll_nil in Hb. unfold link, nxt, prv in *. rewrite F by (by rewrite list_elem_of_singleton). done.
Qed.

(** ** The image *)

Definition node_ok (a : saddr) : Prop :=
  match a with
  | RqHead c p => is_cpu c ∧ is_prio p
  | RqNode t | EdfNode t | SleepNode t => is_tid t
  | SleepHead c => is_cpu c
  | ProcHead _ => False
  end.

Record sched_image (s : sched) : Prop := SchedImage {
  im_cpus : Z.of_nat (length (cpu_queues s)) = CONFIG_MAX_CPUS;
  im_threads : Z.of_nat (length (thread_table s)) = CONFIG_MAX_THREADS;
  im_bitmaps : ∀ c q, get_q s c = Some q → bm_wf (bitmap q);
  im_nodes : ∀ a, node_ok a → a ∈ dom (snodes s);
  im_names : ∀ t th, get_thread s t = Some th → Z.of_nat (length (name th)) = KTHREAD_NAME_MAX;
  im_guards : ∀ t th, get_thread s t = Some th → g_enabled (guard th) = false;
  im_classes : cls_head (classes s) = None ∧ cls_next (classes s) sched_rr = None;
  im_preempt : preempt_count s = replicate (Z.to_nat CONFIG_MAX_CPUS) 0
}.

(** Only nodes change, and those that point to themselves still do. *)
Record inits (s s' : sched) : Prop := Inits {
  in_same : upd_snodes ∅ s' = upd_snodes ∅ s;
  in_self : ∀ a, dll (snodes s) a [] → dll (snodes s') a [];
  in_dom : dom (snodes s') = dom (snodes s)
}.

Lemma inits_refl s : inits s s.
Proof. done. Qed.

Lemma inits_trans s1 s2 s3 : inits s1 s2 → inits s2 s3 → inits s1 s3.
Proof. intros [A1 A2 A3] [B1 B2 B3]. split; [congruence|auto|congruence]. Qed.

Lemma init_node_spec a s : a ∈ dom (snodes s) → ∃ s', on_snodes (INIT_LIST_HEAD (Some a)) s = Some s' ∧ inits s s' ∧ dll (snodes s') a [].
Proof.
  intros Ha. destruct (init_self (snodes s) a Ha) as (h & E & Hd & Hs & Hdom). exists (upd_snodes h s). unfold on_snodes. rewrite E.
  split; [done|]. by split.
Qed.

Lemma init_sleep_queues_spec n c s : 0 <= c → c + Z.of_nat n = CONFIG_MAX_CPUS → (∀ a, node_ok a → a ∈ dom (snodes s)) →
  ∃ s', init_sleep_queues n c s = Some s' ∧ inits s s' ∧ ∀ i, c <= i < CONFIG_MAX_CPUS → dll (snodes s') (SleepHead i) [].
Proof.
  revert c s. induction n as [|n IH]; intros c s Hc Hn Hdom; cbn [init_sleep_queues].
  { exists s. split; [done|]. split; [done|]. intros; lia. }
  destruct (init_node_spec (SleepHead c) s) as (s1 & E1 & I1 & D1); [apply Hdom; unfold node_ok, is_cpu; lia|]. rewrite E1, some_bind.
  destruct (IH (c + 1) s1) as (s' & E & I2 & D2); [lia|lia|rewrite (in_dom _ _ I1); done|].
  exists s'. split; [done|]. split; [by eapply inits_trans|]. intros i Hi.
  destruct (decide (i = c)) as [->|]; [by apply (in_self _ _ I2)|apply D2; lia].
Qed.

Lemma init_prio_lists_spec n c p s : 0 <= p → p + Z.of_nat n = CONFIG_PRIORITY_LEVELS → is_cpu c → (∀ a, node_ok a → a ∈ dom (snodes s)) →
  ∃ s', init_prio_lists n c p s = Some s' ∧ inits s s' ∧ ∀ i, p <= i < CONFIG_PRIORITY_LEVELS → dll (snodes s') (RqHead c i) [].
Proof.
  intros Hp Hn Hc. revert p s Hp Hn. induction n as [|n IH]; intros p s Hp Hn Hdom; cbn [init_prio_lists].
  { exists s. split; [done|]. split; [done|]. intros; lia. }
  destruct (init_node_spec (RqHead c p) s) as (s1 & E1 & I1 & D1); [apply Hdom; unfold node_ok, is_prio; split; [done|lia]|]. rewrite E1, some_bind.
  destruct (IH (p + 1) s1) as (s' & E & I2 & D2); [lia|lia|rewrite (in_dom _ _ I1); done|].
  exists s'. split; [done|]. split; [by eapply inits_trans|]. intros i Hi.
  destruct (decide (i = p)) as [->|]; [by apply (in_self _ _ I2)|apply D2; lia].
Qed.

(** ** Queues and control blocks *)

Definition empty_q (q : PerCPUReadyQueue_t) : Prop :=
  bm_wf (bitmap q) ∧ (∀ p, has_bit (bitmap q) p = false) ∧ nr_running q = 0 ∧ current_thread q = None ∧
  idle_thread q = None ∧ need_resched q = 0.

Lemma init_queues_spec n c s : 0 <= c → c + Z.of_nat n = CONFIG_MAX_CPUS → (∀ a, node_ok a → a ∈ dom (snodes s)) →
  Z.of_nat (length (cpu_queues s)) = CONFIG_MAX_CPUS → (∀ i q, get_q s i = Some q → bm_wf (bitmap q)) →
  ∃ s', init_queues n c s = Some s' ∧ upd_queues [] (upd_snodes ∅ s') = upd_queues [] (upd_snodes ∅ s) ∧
    (∀ a, dll (snodes s) a [] → dll (snodes s') a []) ∧ dom (snodes s') = dom (snodes s) ∧
    Z.of_nat (length (cpu_queues s')) = CONFIG_MAX_CPUS ∧
    (∀ i, c <= i < CONFIG_MAX_CPUS → (∀ p, is_prio p → dll (snodes s') (RqHead i p) []) ∧ ∃ q, get_q s' i = Some q ∧ empty_q q) ∧
    (∀ i, i < c → get_q s' i = get_q s i).
Proof.
  revert c s. induction n as [|n IH]; intros c s Hc Hn Hdom Hlen Hbm; cbn [init_queues].
  { exists s. split; [done|]. split; [done|]. split; [done|]. split; [done|]. split; [done|]. split; [intros; lia|done]. }
  assert (is_cpu c) as Hcpu by (unfold is_cpu; lia).
  destruct (proj2 (zlookup_is_Some (cpu_queues s) c)) as [q Hq]; [rewrite Hlen; exact Hcpu|].
  change (get_q s c = Some q) in Hq. rewrite Hq, some_bind.
  destruct (bitmap256_clear_all_spec (bitmap q) (Hbm c q Hq)) as (bm & -> & Hwf & Hcl). rewrite some_bind.
  destruct (init_prio_lists_spec (Z.to_nat CONFIG_PRIORITY_LEVELS) c 0 s) as (s1 & E1 & I1 & D1); [lia|done|done|done|]. rewrite E1, some_bind.
  assert (cpu_queues s1 = cpu_queues s) as Eq1 by exact (f_equal cpu_queues (in_same _ _ I1)).
  assert (get_q s1 c = Some q) as Hq1 by (unfold get_q; by rewrite Eq1).
  destruct (on_q_spec c (λ _, RQ bm 0 None None 0) s1 q Hq1) as (s2 & E2 & Hq2 & Ho2 & Hr2 & Hl2). rewrite E2, some_bind.
  assert (snodes s2 = snodes s1) as En2 by exact (f_equal snodes Hr2).
  destruct (IH (c + 1) s2) as (s' & E & Hr & Hself & Hdom' & Hlen' & Hnew & Hold); [lia|lia|..].
  - rewrite En2, (in_dom _ _ I1). done.
  - rewrite Hl2, Eq1. done.
  - intros i q' Hi. destruct (decide (i = c)) as [->|Hne]; [rewrite Hq2 in Hi; by injection Hi as <-|].
    rewrite Ho2 in Hi by done. unfold get_q in Hi. rewrite Eq1 in Hi. by apply (Hbm i).
  - exists s'. split; [done|]. split; [|split; [|split; [|split; [done|split]]]].
    + rewrite Hr. rewrite <- (f_equal (λ y, upd_queues [] y) (in_same _ _ I1)). exact (f_equal (λ y, upd_snodes ∅ y) Hr2).
    + intros a Ha. apply Hself. rewrite En2. by apply (in_self _ _ I1).
    + rewrite Hdom', En2. apply (in_dom _ _ I1).
    + intros i Hi. destruct (decide (i = c)) as [->|]; [|apply Hnew; lia]. split.
      * intros p Hp. apply Hself. rewrite En2. by apply D1.
      * exists (RQ bm 0 None None 0). rewrite Hold by lia. split; [done|]. by split.
    + intros i Hi. rewrite Hold by lia. rewrite Ho2 by lia. unfold get_q. by rewrite Eq1.
Qed.

Definition fresh_thread (i : Z) (th : KThread_t) : Prop :=
  tid th = i ∧ tstate th = KTHREAD_STATE_DEAD ∧ prio th = PRIORITY_MIN ∧ wakeup_tick th = 0 ∧
  g_enabled (guard th) = false ∧ Z.of_nat (length (name th)) = KTHREAD_NAME_MAX.

Lemma init_threads_spec n i s : 0 <= i → i + Z.of_nat n = CONFIG_MAX_THREADS → (∀ a, node_ok a → a ∈ dom (snodes s)) →
  Z.of_nat (length (thread_table s)) = CONFIG_MAX_THREADS →
  (∀ t th, get_thread s t = Some th → g_enabled (guard th) = false ∧ Z.of_nat (length (name th)) = KTHREAD_NAME_MAX) →
  ∃ s', init_threads n i s = Some s' ∧ upd_threads [] (upd_snodes ∅ s') = upd_threads [] (upd_snodes ∅ s) ∧
    (∀ a, dll (snodes s) a [] → dll (snodes s') a []) ∧ dom (snodes s') = dom (snodes s) ∧
    Z.of_nat (length (thread_table s')) = CONFIG_MAX_THREADS ∧
    (∀ t, i <= t < CONFIG_MAX_THREADS → dll (snodes s') (RqNode t) [] ∧ dll (snodes s') (EdfNode t) [] ∧ dll (snodes s') (SleepNode t) [] ∧
       ∃ th, get_thread s' t = Some th ∧ fresh_thread t th) ∧
    (∀ t, t < i → get_thread s' t = get_thread s t).
Proof.
  revert i s. induction n as [|n IH]; intros i s Hi Hn Hdom Hlen Hth; cbn [init_threads].
  { exists s. split; [done|]. split; [done|]. split; [done|]. split; [done|]. split; [done|]. split; [intros; lia|done]. }
  assert (is_tid i) as Hti by (unfold is_tid; lia).
  destruct (proj2 (zlookup_is_Some (thread_table s) i)) as [th Ht]; [rewrite Hlen; exact Hti|].
  change (get_thread s i = Some th) in Ht. rewrite Ht, some_bind. destruct (Hth i th Ht) as [Hg Hnm].
  rewrite zupdate_total by (rewrite Hnm; unfold KTHREAD_NAME_MAX; lia). rewrite some_bind.
  set (f := λ _ : KThread_t, KThread i _ _ _ _ _ _ _ _ _ _ _ _ _ _ _).
  destruct (on_thread_spec i f s th Ht) as (s1 & E1 & Ht1 & Hu1 & Hr1 & Hl1). rewrite E1, some_bind.
  assert (snodes s1 = snodes s) as En1 by exact (f_equal snodes Hr1).
  destruct (init_node_spec (RqNode i) s1) as (s2 & E2 & I2 & D2); [rewrite En1; by apply Hdom|]. rewrite E2, some_bind.
  destruct (init_node_spec (EdfNode i) s2) as (s3 & E3 & I3 & D3); [rewrite (in_dom _ _ I2), En1; by apply Hdom|]. rewrite E3, some_bind.
  destruct (init_node_spec (SleepNode i) s3) as (s4 & E4 & I4 & D4); [rewrite (in_dom _ _ I3), (in_dom _ _ I2), En1; by apply Hdom|]. rewrite E4, some_bind.
  assert (inits s1 s4) as I14 by (eapply inits_trans; [exact I2|]; by eapply inits_trans).
  assert (thread_table s4 = thread_table s1) as Et4 by exact (f_equal thread_table (in_same _ _ I14)).
  assert (∀ u, get_thread s4 u = get_thread s1 u) as Hg4 by (intros u; unfold get_thread; by rewrite Et4).
  destruct (IH (i + 1) s4) as (s' & E & Hr & Hself & Hdom' & Hlen' & Hnew & Hold); [lia|lia|..].
  - rewrite (in_dom _ _ I14), En1. done.
  - rewrite Et4, Hl1. done.
  - intros t th'. rewrite Hg4. destruct (decide (t = i)) as [->|Hne].
    + rewrite Ht1. intros [= <-]. cbn. split; [done|]. by rewrite length_insert.
    + rewrite Hu1 by done. apply Hth.
  - exists s'. split; [done|]. split; [|split; [|split; [|split; [done|split]]]].
    + rewrite Hr. rewrite (f_equal (λ y, upd_threads [] y) (in_same _ _ I14)). exact (f_equal (λ y, upd_snodes ∅ y) Hr1).
    + intros a Ha. apply Hself, (in_self _ _ I14). by rewrite En1.
    + rewrite Hdom', (in_dom _ _ I14). by rewrite En1.
    + intros t Ht'. destruct (decide (t = i)) as [->|]; [|apply Hnew; lia].
      split; [by apply Hself, (in_self _ _ I4), (in_self _ _ I3)|]. split; [by apply Hself, (in_self _ _ I4)|]. split; [by apply Hself|].
      eexists. rewrite Hold by lia. rewrite Hg4. split; [exact Ht1|]. repeat split; [done|]. cbn. by rewrite length_insert.
    + intros t Ht'. rewrite Hold by lia. rewrite Hg4. apply Hu1. lia.
Qed.

(** ** The idle threads *)

Definition idleq (n : Z) : queues := λ c p, if decide (c = 0 ∧ p = 0 ∧ 0 < n) then [0] else [].
Definition no_sleepers : Z → list Z := λ _, [].

(** After [n] idle threads: the first one waits on CPU 0, the others wait nowhere. *)
Record idles (n : Z) (s : sched) : Prop := Idles {
  id_rep : rq_rep s (idleq n) no_sleepers;
  id_th : ∀ t, is_tid t → ∃ th, get_thread s t = Some th ∧
    tstate th = (if t <? n then KTHREAD_STATE_READY else KTHREAD_STATE_DEAD) ∧ g_enabled (guard th) = false ∧
    Z.of_nat (length (name th)) = KTHREAD_NAME_MAX ∧ tid th = t;
  id_q : ∀ c, is_cpu c → ∃ q, get_q s c = Some q ∧ current_thread q = None ∧
    idle_thread q = (if c <? n then Some c else None) ∧ need_resched q = 0;
  id_cls : rr_only (classes s);
  id_preempt : preempt_count s = replicate (Z.to_nat CONFIG_MAX_CPUS) 0
}.

Lemma idles_quiet n s : idles n s → quiet s 0.
Proof.
  intros [_ _ Hq _ Hp]. destruct (Hq 0) as (q & Eq & _ & _ & Hn); [done|]. exists 0, q. rewrite Hp. split; [done|]. split; [lia|]. by split.
Qed.

Lemma idles_st n s t : idles n s → is_tid t → st_of s t = Some (if t <? n then KTHREAD_STATE_READY else KTHREAD_STATE_DEAD).
Proof. intros [_ Ht _ _ _] Hti. destruct (Ht t Hti) as (th & E & Hs & _). unfold st_of. rewrite E. cbn. by rewrite Hs. Qed.

Lemma idles_first_dead n s t : idles n s → is_cpu n → st_of s t = Some KTHREAD_STATE_DEAD →
  (∀ v, 0 <= v < t → st_of s v ≠ Some KTHREAD_STATE_DEAD) → t = n.
Proof.
  intros HI Hn Hd Hmin. assert (is_tid t) as Hti.
  { apply st_of_Some in Hd as (th & E & _). by eapply rr_tid; [apply (id_rep _ _ HI)|]. }
  assert (is_tid n) as Htn by (unfold is_tid, is_cpu, CONFIG_MAX_CPUS, CONFIG_MAX_THREADS in *; lia).
  rewrite (idles_st n s t HI Hti) in Hd. destruct (Z.ltb_spec t n); [done|]. destruct (decide (t = n)) as [|Hne]; [done|].
  exfalso. apply (Hmin n); [destruct Hn; lia|]. rewrite (idles_st n s n HI Htn), (proj2 (Z.ltb_ge n n)) by lia. done.
Qed.

Lemma qset_idleq_0 : ∀ c p, qset 0 0 (idleq 0 0 0 ++ [0]) (idleq 0) c p = idleq 1 c p.
Proof. intros c p. unfold qset, idleq. repeat case_decide; naive_solver lia. Qed.

Lemma rq_rep_Q_ext s Q Q' SL : (∀ c p, Q c p = Q' c p) → rq_rep s Q SL → rq_rep s Q' SL.
Proof.
  intros E [R1 R2 R3 R4 R5 R6 R7 R8].
  assert (∀ c, qall Q' c = qall Q c) as Eq by (intros c; apply bind_ext_in; intros; by rewrite E).
  split; try done.
  - destruct R3 as (M & HM & [H1 H2 H3 H4 H5]). exists M. split; [done|]. split; try done.
    + intros c p Hc Hp. rewrite <- E. by apply H1.
    + intros t Ht Hun. apply H2; [done|]. intros c p Hc Hp. rewrite E. by apply Hun.
  - intros c p t Hc Hp. rewrite <- E. by apply R5.
  - intros c q Hc Hq. destruct (R7 c q Hc Hq) as [? Hb]. split; [done|]. intros p Hp. rewrite <- E. by apply Hb.
  - intros c q Hc Hq. rewrite Eq. by apply R8.
Qed.

(** Unlinking the idle thread of a secondary CPU from the queue of CPU 0. *)
Lemma unlink_idle_spec s Q SL t xs ys : rq_rep s Q SL → Q 0 0 = xs ++ t :: ys → xs ≠ [] → is_tid t →
  ∃ h s', list_del_init (Some (RqNode t)) (snodes s) = Some h ∧
    on_q 0 (λ q, if nr_running q >? 0 then set_nr (nr_running q - 1) q else q) (upd_snodes h s) = Some s' ∧
    keeps s s' ∧ rq_rep s' (qset 0 0 (xs ++ ys) Q) SL.
Proof.
  intros HR Hx Hne Hti. assert (is_cpu 0) as Hc by done. assert (is_prio 0) as Hp by done.
  destruct (rr_q _ _ _ HR 0 Hc) as (q & Hq). destruct (rr_bits _ _ _ HR 0 q Hc Hq) as [Hwf Hbits].
  destruct (rr_lists _ _ _ HR) as (M & HM & HQ). pose proof (qm_rq _ _ _ HQ 0 0 Hc Hp) as Hhd. rewrite Hx, fmap_app, fmap_cons in Hhd.
  destruct (lists_rep_del_init (snodes s) M _ _ _ _ HM Hhd) as (h & E & HM' & _). exists h.
  set (f := λ q, if nr_running q >? 0 then set_nr (nr_running q - 1) q else q).
  destruct (on_q_spec 0 f (upd_snodes h s) q Hq) as (s2 & E2 & Hq2 & Ho2 & Hr2 & Hl2). exists s2. split; [done|]. split; [done|].
  assert (nr_running (f q) = nr_running q - 1 ∧ bitmap (f q) = bitmap q ∧ qview (f q) = qview q) as (Hnr & Hb & Hv).
  { unfold f. pose proof (qall_set Q 0 0 (xs ++ ys) Hp) as Hlen. rewrite Hx, !length_app in Hlen. cbn [length] in Hlen.
    rewrite Z.gtb_ltb, (proj2 (Z.ltb_lt _ _)) by (rewrite (rr_count _ _ _ HR 0 q Hc Hq); lia). done. }
  assert (keeps s s2) as HK.
  { apply (keeps_trans s (upd_snodes h s)); [apply keeps_snodes|]. exact (keeps_on_q (upd_snodes h s) 0 q (f q) s2 Hq Hv Hq2 Ho2 Hr2). }
  split; [exact HK|]. eapply (rq_rep_update s s2 Q SL 0 0 _ q (f q)); try done.
  - eexists. split; [|exact (qmap_del M Q SL 0 0 xs t ys HQ Hc Hp Hx)]. assert (snodes s2 = h) as -> by exact (f_equal snodes Hr2). exact HM'.
  - intros t' Ht'. apply (rr_prio _ _ _ HR 0); [done|done|]. rewrite Hx. set_solver.
  - by rewrite Hb.
  - intros p' Hp'. rewrite Hb. case_decide as E'; [|done]. subst p'. rewrite Hbits, Hx by done.
    rewrite !bool_decide_eq_true_2; [done|by destruct xs|by destruct xs].
  - rewrite Hnr, Hx, !length_app. cbn [length]. lia.
Qed.

Section boot.
Context {A : Type} `{StackSlab A} (heap_start heap_end : Z).

(** The thread just created becomes the idle thread of CPU [n]. *)
Lemma idle_step n s s1 ent : idles n s → is_cpu n → ∀ t, is_tid t →
  created 0 ent 0 PRIORITY_MIN KTHREAD_POLICY_FIFO CONFIG_STACK_SIZE_DEFAULT s s1 (idleq n) no_sleepers t →
  ∃ s2 s3, on_q n (set_idle (Some t)) s1 = Some s2 ∧
    (if negb (n =? 0) then s ← on_snodes (list_del_init (Some (RqNode t))) s2;
       on_q 0 (λ q, if nr_running q >? 0 then set_nr (nr_running q - 1) q else q) s else Some s2) = Some s3 ∧ idles (n + 1) s3.
Proof.
  intros HI Hn t Hti HC.
  inversion HC as [? Ei|? ? Ei|? ? ? Ei|t' th th' base Ht Hst Hmin HR' Ht' Hf Hu Hcm Hrest Hv]; subst;
    try (unfold is_tid, CONFIG_MAX_THREADS, THREAD_ID_INVALID in Hti; lia).
  assert (t = n) as -> by (apply (idles_first_dead n s); [done|done|apply st_of_Some; eauto|done]).
  destruct (id_q _ _ HI n Hn) as (q0 & Hq0 & _).
  destruct (rr_q _ _ _ HR' n Hn) as (q1 & Hq1).
  destruct (set_q_spec s1 _ no_sleepers n (set_idle (Some n)) q1 HR' Hq1 eq_refl eq_refl) as (s2 & E2 & HR2 & HO2 & Hqc2 & Hqo2 & Ht2).
  exists s2. assert (∃ s3, (if negb (n =? 0) then s ← on_snodes (list_del_init (Some (RqNode n))) s2;
       on_q 0 (λ q, if nr_running q >? 0 then set_nr (nr_running q - 1) q else q) s else Some s2) = Some s3 ∧ keeps s2 s3 ∧
       rq_rep s3 (idleq (n + 1)) no_sleepers) as (s3 & E3 & HK3 & HR3).
  { destruct (Z.eqb_spec n 0) as [->|Hn0]; cbn [negb].
    - exists s2. split; [done|]. split; [done|]. eapply rq_rep_Q_ext; [apply qset_idleq_0|exact HR2].
    - destruct (unlink_idle_spec s2 _ no_sleepers n [0] [] HR2) as (h & s3 & Ed & E3 & HK & HR3); [|done|done|].
      + change PRIORITY_MIN with 0. rewrite qset_eq. unfold idleq. rewrite decide_True by (destruct Hn; lia). done.
      + exists s3. unfold on_snodes. rewrite Ed, some_bind, some_bind, E3. split; [done|]. split; [done|].
        eapply rq_rep_Q_ext; [|exact HR3]. intros c p. unfold qset, idleq, PRIORITY_MIN. destruct Hn. repeat case_decide; naive_solver lia. }
  exists s3. split; [done|]. split; [done|]. destruct Hf as (Htid & Hst' & _ & _ & _ & _ & _ & _ & _ & _ & _ & _ & Hg & Hnm).
  pose proof (others_trans _ _ _ HO2 (keeps_others _ _ HK3)) as HO. split; [done|..].
  - intros t Ht0. rewrite (keeps_get_thread _ _ HK3), Ht2. destruct (decide (t = n)) as [->|Hne].
    + exists th'. rewrite (proj2 (Z.ltb_lt _ _)) by lia. split; [done|]. split; [by rewrite Hst'|]. split; [|by split].
      rewrite Hg. destruct (id_th _ _ HI n Ht0) as (th0 & E0 & _ & Hg0 & _). assert (th0 = th) as -> by congruence.
      unfold stack_guard_setup. destruct (base =? 0); [done|]. exact Hg0.
    + rewrite Hu by done. destruct (id_th _ _ HI t Ht0) as (th0 & E0 & Hs0 & Hrest0). exists th0. split; [done|]. split; [|done].
      rewrite Hs0. destruct (Z.ltb_spec t n), (Z.ltb_spec t (n + 1)); (done || lia).
  - intros c Hc. destruct (id_q _ _ HI c Hc) as (q & Eq & Hcu & Hid & Hnr). destruct (Hv c) as (Hv1 & Hv2 & Hv3).
    destruct (rr_q _ _ _ HR' c Hc) as (qc & Hqc). unfold cur_of, idle_of in Hv1, Hv2. rewrite Eq, Hqc in Hv1, Hv2, Hv3. cbn in Hv1, Hv2, Hv3.
    injection Hv3 as Hv3. destruct (decide (c = n)) as [->|Hne].
    + destruct (keeps_q _ _ HK3 n _ Hqc2) as (q3 & Hq3 & H1 & H2 & H3). exists q3. split; [done|].
      assert (q1 = qc) as -> by congruence. rewrite H1, H2, H3. cbn. rewrite (proj2 (Z.ltb_lt _ _)) by lia. split; [congruence|]. split; [done|congruence].
    + pose proof Hqc as Hqc'. rewrite <- Hqo2 in Hqc' by done.
      destruct (keeps_q _ _ HK3 c _ Hqc') as (q3 & Hq3 & H1 & H2 & H3). exists q3. split; [done|].
      rewrite H1, H2, H3. split; [congruence|]. split; [|congruence]. rewrite Hv2, Hid.
      destruct (Z.ltb_spec c n), (Z.ltb_spec c (n + 1)); (done || lia).
  - rewrite (others_classes _ _ HO). assert (classes s1 = classes s) as -> by exact (f_equal classes Hrest). apply (id_cls _ _ HI).
  - assert (preempt_count s3 = preempt_count s) as ->; [|apply (id_preempt _ _ HI)].
    transitivity (preempt_count s1); [exact (f_equal preempt_count HO)|exact (f_equal preempt_count Hrest)].
Qed.

Lemma name_ok_idle : name_ok idle_name.
Proof. left. unfold idle_name. set_solver. Qed.

Lemma create_idles_spec m n ent (k : kthreads A) : n + Z.of_nat m = CONFIG_MAX_CPUS → 0 <= n → idles n (kt_sched k) →
  ∃ k' r, create_idles heap_start heap_end m n ent k = Some (k', r) ∧ (r = KERNEL_OK → idles CONFIG_MAX_CPUS (kt_sched k')) ∧
    (r = KERNEL_OK ∨ r = - ENOMEM) ∧ kt_initialized k' = kt_initialized k.
Proof.
  revert n k. induction m as [|m IH]; intros n k Hm Hn HI; cbn [create_idles].
  { exists k, KERNEL_OK. split; [done|]. split; [|by split; [left|]]. intros _. by replace CONFIG_MAX_CPUS with n by lia. }
  assert (is_cpu n) as Hcpu by (unfold is_cpu; lia).
  destruct (create_spec heap_start heap_end 0 idle_name ent 0 PRIORITY_MIN KTHREAD_POLICY_FIFO CONFIG_STACK_SIZE_DEFAULT k (idleq n) no_sleepers)
    as (k1 & t & E & HC & Ei & _); [apply HI|by eapply idles_quiet|done|done|apply name_ok_idle|..].
  - intros t th Ht. destruct (id_th _ _ HI t) as (th' & E & _ & _ & Hl & _); [eapply rr_tid; [apply HI|done]|]. congruence.
  - intros t Hd. split; [|intros c Hc; unfold no_sleepers; by intros ?%elem_of_nil]. intros c p Hc Hp Hin.
    unfold idleq in Hin. case_decide as E; [|by apply elem_of_nil in Hin]. apply list_elem_of_singleton in Hin as ->.
    rewrite (idles_st n _ 0 HI) in Hd by done. destruct E as (_ & _ & E). by rewrite (proj2 (Z.ltb_lt _ _)) in Hd.
  - rewrite E, some_bind. destruct (Z.eqb_spec t THREAD_ID_INVALID) as [->|Hne].
    { exists k1, (- ENOMEM). split; [done|]. split; [done|]. split; [by right|done]. }
    assert (is_tid t) as Hti. { inversion HC; subst; try done. eapply rr_tid; [apply HI|done]. }
    destruct (idle_step n _ _ ent HI Hcpu t Hti HC) as (s2 & s3 & E2 & E3 & HI3).
    rewrite (on_sched_run _ _ _ E2), some_bind.
    assert ((if negb (n =? 0) then k ← on_sched (on_snodes (list_del_init (Some (RqNode t)))) (upd_sched s2 k1);
        on_sched (on_q 0 (λ q, if nr_running q >? 0 then set_nr (nr_running q - 1) q else q)) k else Some (upd_sched s2 k1)) =
        Some (upd_sched s3 k1)) as ->.
    { destruct (negb (n =? 0)); [|by injection E3 as ->]. destruct (on_snodes _ s2) as [sx|] eqn:Ex; [|done]. rewrite some_bind in E3.
      rewrite (on_sched_run _ (upd_sched s2 k1) sx Ex), some_bind. exact (on_sched_run _ (upd_sched sx k1) s3 E3). }
    rewrite some_bind. destruct (IH (n + 1) (upd_sched s3 k1)) as (k' & r & Er & H1 & H2 & H3); [lia|lia|done|].
    exists k', r. split; [done|]. split; [done|]. split; [done|]. by rewrite H3.
Qed.

(** From the image to the state before the idle threads. *)
Lemma idles_0 s : (∀ a, node_ok a → dll (snodes s) a []) → Z.of_nat (length (cpu_queues s)) = CONFIG_MAX_CPUS →
  Z.of_nat (length (thread_table s)) = CONFIG_MAX_THREADS → (∀ c, is_cpu c → ∃ q, get_q s c = Some q ∧ empty_q q) →
  (∀ t, is_tid t → ∃ th, get_thread s t = Some th ∧ fresh_thread t th) → rr_only (classes s) →
  preempt_count s = replicate (Z.to_nat CONFIG_MAX_CPUS) 0 → idles 0 s.
Proof.
  intros Hn Hlc Hlt Hq Ht Hcls Hp.
  assert (∀ c p, idleq 0 c p = []) as Eq by (intros c p; unfold idleq; case_decide; [lia|done]). split; [|..]; try done.
  - split; try done.
    + destruct (selfs_lists_rep (snodes s)) as (M & HM & Hself). exists M. split; [done|]. split.
      * intros c p Hc Hp'. rewrite Eq. by apply Hself, Hn.
      * intros t Hti _. by apply Hself, Hn.
      * intros c Hc. by apply Hself, Hn.
      * intros t Hti _. by apply Hself, Hn.
      * intros t Hti. by apply Hself, Hn.
    + intros t th Et. assert (is_tid t) as Hti by (apply zlookup_Some_lt in Et; by rewrite Hlt in Et).
      destruct (Ht t Hti) as (th' & E & _ & _ & Hpr & _). assert (th' = th) as -> by congruence. by rewrite Hpr.
    + intros c p t _ _. rewrite Eq. by intros ?%elem_of_nil.
    + intros c t _ Hin. by apply elem_of_nil in Hin.
    + intros c q Hc Eqq. destruct (Hq c Hc) as (q' & E & Hw & Hb & _). assert (q' = q) as -> by congruence. split; [done|].
      intros p _. by rewrite Hb, Eq.
    + intros c q Hc Eqq. destruct (Hq c Hc) as (q' & E & _ & _ & Hnr & _). assert (q' = q) as -> by congruence. rewrite Hnr.
      rewrite (proj2 (qall_nil (idleq 0) c)); [done|]. intros; apply Eq.
  - intros t Hti. destruct (Ht t Hti) as (th & E & Htid & Hs & _ & _ & Hg & Hnm). exists th. split; [done|].
    rewrite (proj2 (Z.ltb_ge _ _)) by (destruct Hti; lia). by split.
  - intros c Hc. destruct (Hq c Hc) as (q & E & _ & _ & _ & Hcu & Hid & Hnr). exists q. split; [done|]. split; [done|].
    rewrite (proj2 (Z.ltb_ge _ _)) by (destruct Hc; lia). by split.
Qed.

Lemma rr_init_spec r : cls_head r = None → cls_next r sched_rr = None → ∃ r', sched_rr_init r = Some r' ∧ rr_only r'.
Proof.
  intros Hh Hn. unfold sched_rr_init, sched_class_register. rewrite Hn, Hh. unfold CLASS_FUEL. cbn [register_find].
  rewrite some_bind. cbn [fst snd]. rewrite some_bind. eexists. split; [done|]. split; [done|]. split; done.
Qed.

Lemma slab_init_sched (k : kthreads A) : kt_sched (thread_stack_slab_init k).1 = kt_sched k.
Proof. unfold thread_stack_slab_init. by destruct (negb _). Qed.

Lemma sched_image_inits s s' : inits s s' → sched_image s → sched_image s'.
Proof.
  intros HI [H1 H2 H3 H4 H5 H6 H7 H8]. pose proof (in_same _ _ HI) as E.
  assert (cpu_queues s' = cpu_queues s) as E1 by exact (f_equal cpu_queues E).
  assert (thread_table s' = thread_table s) as E2 by exact (f_equal thread_table E).
  assert (classes s' = classes s) as E3 by exact (f_equal classes E).
  assert (preempt_count s' = preempt_count s) as E4 by exact (f_equal preempt_count E).
  split; unfold get_q, get_thread in *; rewrite ?E1, ?E2, ?E3, ?E4, ?(in_dom _ _ HI); done.
Qed.

(** [scheduler_init] always returns; on success the idle threads stand. *)
Lemma scheduler_init_spec ent (k : kthreads A) : kt_initialized k = false → sched_image (kt_sched k) →
  (∀ c, is_cpu c → dll (snodes (kt_sched k)) (SleepHead c) []) →
  ∃ k' r, scheduler_init heap_start heap_end ent k = Some (k', r) ∧
    (r = KERNEL_OK → idles CONFIG_MAX_CPUS (kt_sched k') ∧ kt_initialized k' = true) ∧ (r = KERNEL_OK ∨ r = - ENOMEM).
Proof.
  intros Hi Him Hsl. unfold scheduler_init. rewrite Hi. destruct (im_classes _ Him) as [Hch Hcn].
  destruct (rr_init_spec _ Hch Hcn) as (reg & -> & Hreg). rewrite some_bind.
  set (k1 := upd_sched _ k). pose proof (slab_init_sched k1) as Es. destruct (thread_stack_slab_init k1) as [k2 ret]. cbn [fst] in Es.
  destruct (negb (ret =? KERNEL_OK)); [exists k2, (- ENOMEM); split; [done|]; split; [done|by right]|].
  set (s1 := upd_classes reg (kt_sched k)) in *. change (kt_sched k1) with s1 in Es.
  destruct (init_queues_spec (Z.to_nat CONFIG_MAX_CPUS) 0 s1) as (s2 & E2 & Hr2 & Hself2 & Hdom2 & Hlen2 & Hnew2 & _); [lia|done|apply Him..|].
  assert (thread_table s2 = thread_table s1) as Et2 by exact (f_equal thread_table Hr2).
  destruct (init_threads_spec (Z.to_nat CONFIG_MAX_THREADS) 0 s2) as (s3 & E3 & Hr3 & Hself3 & Hdom3 & Hlen3 & Hnew3 & _); [lia|done|..].
  { rewrite Hdom2. apply Him. } { rewrite Et2. apply Him. }
  { intros t th. unfold get_thread. rewrite Et2. intros Et. split; [by apply (im_guards _ Him t)|by apply (im_names _ Him t)]. }
  rewrite <- Es in E2. rewrite (on_sched_run _ _ _ E2), some_bind. rewrite (on_sched_run _ (upd_sched s2 k2) s3 E3), some_bind.
  assert (cpu_queues s3 = cpu_queues s2) as Eq3 by exact (f_equal cpu_queues Hr3).
  assert (∀ c, get_q s3 c = get_q s2 c) as Hq3 by (intros c; unfold get_q; by rewrite Eq3).
  assert (idles 0 s3) as HI0.
  { apply idles_0.
    - intros [c p|t|t|t|c|p] Ha; cbn in Ha; try (by apply Hnew3); try done.
      + apply Hself3. apply (proj1 (Hnew2 c (proj1 Ha))). apply Ha.
      + apply Hself3, Hself2. by apply Hsl.
    - by rewrite Eq3.
    - done.
    - intros c Hc. rewrite Hq3. by apply Hnew2.
    - intros t Hti. by apply Hnew3.
    - assert (classes s3 = classes s2) as -> by exact (f_equal classes Hr3). assert (classes s2 = reg) as -> by exact (f_equal classes Hr2). done.
    - assert (preempt_count s3 = preempt_count s2) as -> by exact (f_equal preempt_count Hr3).
      assert (preempt_count s2 = preempt_count s1) as -> by exact (f_equal preempt_count Hr2). apply (im_preempt _ Him). }
  destruct (create_idles_spec (Z.to_nat CONFIG_MAX_CPUS) 0 ent (upd_sched s3 (upd_sched s2 k2))) as (k' & r & E & Hok & Hr & _); [done|lia|done|].
  rewrite E, some_bind. destruct (Z.eqb_spec r KERNEL_OK) as [->|Hne]; cbn [negb].
  - exists (upd_init true k'), KERNEL_OK. split; [done|]. split; [|by left]. intros _. split; [by apply Hok|done].
  - exists k', r. split; [done|]. split; [done|]. destruct Hr; [done|by right].
Qed.

(** ** The invariant after the boot *)

Lemma idles_wfs s : idles CONFIG_MAX_CPUS s →
  wfs (smp_sched_init s) (idleq CONFIG_MAX_CPUS) no_sleepers ∧ (∀ c, is_cpu c → cur_of s c = None) ∧ (∀ c, is_cpu c → idle_of s c = Some c).
Proof.
  intros HI. pose proof HI as [HR Ht Hq Hcls Hp].
  assert (∀ c, is_cpu c → cur_of s c = None) as Hcur.
  { intros c Hc. destruct (Hq c Hc) as (q & E & Hcu & _). unfold cur_of. by rewrite E. }
  assert (∀ c, is_cpu c → idle_of s c = Some c) as Hid.
  { intros c Hc. destruct (Hq c Hc) as (q & E & _ & Hi & _). unfold idle_of. rewrite E. cbn. rewrite Hi. destruct Hc as [_ Hc].
    by rewrite (proj2 (Z.ltb_lt _ _)). }
  assert (∀ t, is_cpu t → st_of s t = Some KTHREAD_STATE_READY) as Hready.
  { intros t Hc. rewrite (idles_st _ s t HI) by (destruct Hc; unfold is_tid, CONFIG_MAX_CPUS, CONFIG_MAX_THREADS in *; lia).
    destruct Hc as [_ Hc]. by rewrite (proj2 (Z.ltb_lt _ _)). }
  assert (∀ t x, st_of s t = Some x → x ≠ KTHREAD_STATE_DEAD → x = KTHREAD_STATE_READY ∧ is_cpu t) as Hst.
  { intros t x Hx Hd. assert (is_tid t) as Hti by (apply st_of_Some in Hx as (th & E & _); by eapply rr_tid).
    rewrite (idles_st _ s t HI Hti) in Hx. destruct (Z.ltb_spec t CONFIG_MAX_CPUS); [|congruence]. split; [congruence|]. destruct Hti. by split. }
  assert (∀ c t, queued (idleq CONFIG_MAX_CPUS) c t → c = 0 ∧ t = 0) as Hon.
  { intros c t (p & _ & Hin). unfold idleq in Hin. case_decide as E; [|by apply elem_of_nil in Hin].
    apply list_elem_of_singleton in Hin as ->. by destruct E as [-> _]. }
  split; [|done]. split.
  - apply (sinv_same s); try done. split; [done|done|]. split.
    + intros c t Hc [-> ->]%Hon. by apply Hready.
    + intros c t Hc Hin. by apply elem_of_nil in Hin.
    + intros c t Hc. by rewrite Hcur.
    + intros c c' t Hc _. by rewrite Hcur.
    + intros c Hc. exists c. split; [by apply Hid|]. split; [left; by apply Hready|]. split; [by intros c' _ [-> ->]%Hon|].
      intros c' Hc'. by rewrite Hcur.
    + intros c c' i Hc Hc'. rewrite !Hid by done. congruence.
    + intros t Hx. by destruct (Hst t _ Hx).
    + intros t Hx. destruct (Hst t _ Hx) as [_ Hc]; [done|]. right. exists t. split; [done|by apply Hid].
    + intros t Hx. by destruct (Hst t _ Hx).
  - intros t th Et He. change (get_thread s t = Some th) in Et. destruct (Ht t) as (th' & E & _ & Hg & _); [by eapply rr_tid|].
    assert (th' = th) as -> by congruence. congruence.
  - change (Z.of_nat (length (preempt_count s)) = CONFIG_MAX_CPUS). by rewrite Hp.
  - split; [done|]. intros c l Hl. change (lb_state (smp_sched_init s)) with (replicate (Z.to_nat CONFIG_MAX_CPUS) (LB 0 LB_INTERVAL_DEF 0)) in Hl.
    unfold zlookup in Hl. destruct (0 <=? c); [|done]. apply lookup_replicate in Hl as [-> _]. done.
  - intros c _. constructor.
  - intros t th Et. change (get_thread s t = Some th) in Et. destruct (Ht t) as (th' & E & _ & _ & Hn); [by eapply rr_tid|]. assert (th' = th) as -> by congruence. done.
  - done.
Qed.
End boot.

(** ** Starting a CPU keeps the invariant *)

(** CPU [c], which ran nothing, starts with [n]. *)
Lemma cinv_start st cur idl on slp c n st' cur' (on' : Z → Z → Prop) :
  cinv st cur idl on slp None → is_cpu c → cur c = None → st n = Some KTHREAD_STATE_READY → (on c n ∨ idl c = Some n) →
  st' n = Some KTHREAD_STATE_RUNNING → (∀ u, u ≠ n → st' u = st u) → cur' c = Some n → (∀ c', is_cpu c' → c' ≠ c → cur' c' = cur c') →
  (∀ c' u, is_cpu c' → on' c' u ↔ on c' u ∧ u ≠ n) → cinv st' cur' idl on' slp None.
Proof.
  intros [H1 H2 H3 H4 H5 H6 H7 H8 H9] Hc Hcn Hn Hnc Sn Soth Cc Coth Eon.
  assert (∀ c', is_cpu c' → cur c' ≠ Some n) as Hncur.
  { intros c' Hc' E. destruct (H3 c' n Hc' E) as (y & Ey & Hy & _). congruence. }
  split.
  - intros c' u Hc' [Ho Hun]%Eon; [|done]. rewrite Soth by done. by apply (H1 c').
  - intros c' u Hc' Hs. pose proof (H2 c' u Hc' Hs) as Eu. rewrite Soth; [done|]. intros ->. congruence.
  - intros c' u Hc' Hu. destruct (decide (c' = c)) as [->|Hcc].
    + assert (u = n) as -> by congruence. by exists KTHREAD_STATE_RUNNING.
    + rewrite Coth in Hu by done. rewrite Soth by (intros ->; by apply (Hncur c')). by apply (H3 c').
  - intros c1 c2 u Hc1 Hc2. destruct (decide (c1 = c)) as [->|Hn1], (decide (c2 = c)) as [->|Hn2]; [done|..].
    + rewrite (Coth c2) by done. rewrite Cc. intros [= <-] E. by destruct (Hncur c2).
    + rewrite (Coth c1) by done. rewrite Cc. intros E [= <-]. by destruct (Hncur c1).
    + rewrite !Coth by done. by apply H4.
  - intros c' Hc'. destruct (H5 c' Hc') as (i & E & Hst & Ho & Hcu). exists i. split; [done|]. split; [|split].
    + destruct (decide (i = n)) as [->|]; [by right|by rewrite Soth].
    + intros c2 Hc2 [Hi _]%Eon; [by apply Ho|done].
    + intros c2 Hc2 Hi. destruct (decide (c2 = c)) as [->|Hcc]; [|rewrite Coth in Hi by done; by apply Hcu].
      assert (i = n) as -> by congruence. destruct Hnc as [Hon|Hid]; [by apply Ho|by apply (H6 c c' n)].
  - done.
  - intros u Hu. destruct (decide (u = n)) as [->|Hun]; [by exists c|]. rewrite Soth in Hu by done.
    destruct (H7 u Hu) as (c' & Hc' & E). exists c'. split; [done|]. rewrite Coth; [done|done|]. intros ->. congruence.
  - intros u Hu. destruct (decide (u = n)) as [->|Hun]; [congruence|]. rewrite Soth in Hu by done.
    destruct (H8 u Hu) as [(c' & Hc' & Ho)|?]; [|by right]. left. exists c'. split; [done|]. by apply Eon.
  - intros u Hu. destruct (decide (u = n)) as [->|Hun]; [congruence|]. rewrite Soth in Hu by done. by apply H9.
Qed.

(** The body that both entry points share. *)
Definition start_on (c t : Z) (s : sched) : option sched :=
  th ← get_thread s t;
  s ← if bool_decide (tstate th = KTHREAD_STATE_READY) then scheduler_dequeue c (Some t) s else Some s;
  scheduler_load_current c (Some t) s.

Lemma start_on_spec s Q SL c i n Q1 : wfs s Q SL → is_cpu c → cur_of s c = None → idle_of s c = Some i → picks Q c i n Q1 →
  ∃ s', start_on c n s = Some s' ∧ wfs s' Q1 SL ∧ cur_of s' c = Some n ∧ (∀ c', c' ≠ c → cur_of s' c' = cur_of s c').
Proof.
  intros HW Hc Hcur Hi HP. pose proof HW as [HI _ _ _ Hso _ _]. pose proof HI as [HR Hcls HC].
  assert (st_of s n = Some KTHREAD_STATE_READY) as Hst.
  { destruct HP as [p t (Hp & Hh & _)|Hem].
    - apply (ci_ready _ _ _ _ _ _ HC c t Hc). exists p. split; [done|]. destruct (Q c p); [done|]. injection Hh as ->. set_solver.
    - destruct (ci_idle _ _ _ _ _ _ HC c Hc) as (j & Hj & Hs & _ & Hcu). assert (j = i) as -> by congruence. destruct Hs as [?|Hs]; [done|].
      destruct (ci_run _ _ _ _ _ _ HC i Hs) as (c' & Hc' & E). assert (c' = c) as -> by (by apply Hcu). congruence. }
  destruct (take_next_spec s Q SL None c i n Q1 HI Hc Hi HP Hst) as (s1 & E1 & HK1 & HR1 & Hq1 & Hfrom).
  pose proof Hst as (th & Ht & Hth)%st_of_Some. destruct (rr_q _ _ _ HR1 c Hc) as (q1 & Hqq).
  destruct (set_q_spec s1 Q1 SL c (set_current (Some n)) q1 HR1 Hqq eq_refl eq_refl) as (s2 & E2 & HR2 & HO2 & Hqc2 & Hqo2 & Ht2).
  assert (get_thread s2 n = Some th) as Hn2 by (by rewrite Ht2, (keeps_get_thread _ _ HK1)).
  destruct (set_state_spec s2 Q1 SL n KTHREAD_STATE_RUNNING th HR2 Hn2) as (s3 & E3 & HR3 & HO3 & Hn3 & Hu3 & Hq3).
  exists s3. unfold start_on, scheduler_load_current. rewrite Ht, some_bind, (bool_decide_eq_true_2 _ Hth). cbn [scheduler_dequeue].
  rewrite E1, some_bind, E2, some_bind. split; [done|].
  assert (others s s3) as HO by (eapply others_trans; [by apply keeps_others|]; by eapply others_trans).
  assert (∀ u, u ≠ n → get_thread s3 u = get_thread s u) as Hu by (intros u Hu; rewrite Hu3, Ht2 by done; apply (keeps_get_thread _ _ HK1)).
  assert (cur_of s3 c = Some n) as Hc3 by (unfold cur_of; by rewrite Hq3, Hqc2).
  assert (∀ c', c' ≠ c → cur_of s3 c' = cur_of s c') as Hco.
  { intros c' Hne. unfold cur_of. rewrite Hq3, Hqo2 by done. apply (keeps_cur _ _ _ HK1). }
  split; [|by split]. eapply wfl_step; [exact HW| |done| |done].
  - split; [done|by rewrite (others_classes _ _ HO)|].
    eapply (cinv_ext (st_of s3) (cur_of s3) (idle_of s)); [|done|done| |done|done].
    + apply (cinv_start (st_of s) (cur_of s) (idle_of s) (queued Q) (asleep SL) c n); try done.
      * unfold st_of. by rewrite Hn3.
      * intros u Hne. unfold st_of. by rewrite Hu.
      * intros c' _ Hne. by apply Hco.
    + intros c' _. unfold idle_of. rewrite Hq3. destruct (decide (c' = c)) as [->|]; [|rewrite Hqo2 by done; apply (keeps_idle _ _ _ HK1)].
      rewrite Hqc2. pose proof (keeps_idle _ _ c HK1) as E. unfold idle_of in E. by rewrite Hqq in E.
  - intros u. destruct (decide (u = n)) as [->|]; [by rewrite Hn3, Ht|by rewrite Hu].
Qed.

(** [scheduler_start] on CPU 0 and [scheduler_start_secondary] on the others:
    the first thread of the highest priority runs, the idle thread otherwise. *)
Lemma start_spec s Q SL c : wfs s Q SL → is_cpu c → cur_of s c = None →
  ∃ s' i n Q1, idle_of s c = Some i ∧ picks Q c i n Q1 ∧ scheduler_start c s = Some s' ∧ scheduler_start_secondary c s = Some s' ∧
    wfs s' Q1 SL ∧ cur_of s' c = Some n ∧ (∀ c', c' ≠ c → cur_of s' c' = cur_of s c').
Proof.
  intros HW Hc Hcur. pose proof HW as [[HR _ HC] _ _ _ _ _ _]. destruct (ci_idle _ _ _ _ _ _ HC c Hc) as (i & Hi & _).
  destruct (picks_total s Q SL c i HR Hc) as (r & Er & Q1 & HP & _). destruct (rr_q _ _ _ HR c Hc) as (q & Hq).
  destruct (start_on_spec s Q SL c i _ Q1 HW Hc Hcur Hi HP) as (s' & E & HW' & Hc' & Hoth).
  exists s', i, (match r with Some t => t | None => i end), Q1. split; [done|]. split; [done|].
  assert (scheduler_pick_next c s = Some (Some (match r with Some t => t | None => i end))) as Ep.
  { unfold scheduler_pick_next. rewrite Er, some_bind, Hq, some_bind. unfold idle_of in Hi. rewrite Hq in Hi. cbn in Hi. rewrite Hi. by destruct r. }
  unfold scheduler_start, scheduler_start_secondary. rewrite Ep, !some_bind, Hq, !some_bind. by split.
Qed.
