(* ===== verification/SchedSmp.v ===== *)
(** * Load balancing and migration keep the invariant of the scheduler *)

From stdpp Require Import sorting.
From S2P Require Import Prelude KList Bitmap SchedTypes Sched Threads Smp Sleep.
From S2P Require Import SchedRep SchedInv SchedOps SchedCalls SchedThreads.

Set Default Goal Selector "!".

(** The remote queue operations are the local ones on another CPU's queue. *)
Lemma remote_remove_eq c t s : remote_remove_thread c t s = __sched_dequeue_locked c t s.
Proof. done. Qed.

Lemma remote_add_eq c t s : remote_add_thread c t s = __sched_enqueue_locked c t s.
Proof. done. Qed.

Lemma remote_pick_spec s Q SL c : rq_rep s Q SL → is_cpu c → ∃ r, remote_pick_highest c s = Some r ∧
  match r with Some t => ∃ p, is_top Q c p t | None => qall Q c = [] end.
Proof.
  intros HR Hc. destruct (pick_spec s Q SL c HR Hc) as (r & E & Hr). exists r. split; [|done].
  unfold remote_pick_highest. rewrite Z.geb_leb, (proj2 (Z.leb_gt _ _)) by (by destruct Hc).
  unfold scheduler_pick_next_locked in E. destruct (get_q s c) as [q|] eqn:Hq; [|done]. rewrite some_bind in E |- *.
  destruct (rr_bits _ _ _ HR c q Hc Hq) as [Hwf Hbits].
  destruct (bitmap256_find_highest_spec (bitmap q) Hwf) as (hp & Ehp & Hhp). rewrite Ehp, some_bind in E. rewrite Ehp, some_bind.
  rewrite Z.geb_leb, Z.leb_antisym. destruct (Z.ltb_spec hp CONFIG_PRIORITY_LEVELS) as [Hlt|Hge]; cbn [negb]; [|done].
  destruct Hhp as [[-> _]|(Hr1 & Hb & _)]; [unfold CONFIG_PRIORITY_LEVELS in Hlt; lia|].
  rewrite Hbits in Hb by done. apply bool_decide_eq_true in Hb.
  rewrite (list_empty_spec _ _ _ (rr_dll _ _ _ HR c hp Hc Hr1)), some_bind, bool_decide_eq_false_2; [done|].
  intros En%fmap_nil_inv. done.
Qed.

(** ** One thread changes queues *)

Lemma cinv_migrate st cur idl on slp lax (on' : Z → Z → Prop) src dst t : cinv st cur idl on slp lax →
  is_cpu src → is_cpu dst → on src t → (∀ c, is_cpu c → idl c ≠ Some t) →
  (∀ c u, is_cpu c → on' c u ↔ (on c u ∧ u ≠ t) ∨ (c = dst ∧ u = t)) → cinv st cur idl on' slp lax.
Proof.
  intros [H1 H2 H3 H4 H5 H6 H7 H8 H9] Hs Hd Ht Hni Eon. split; try done.
  - intros c u Hc [[Ho _]|[-> ->]]%Eon; [by apply (H1 c)|by apply (H1 src)|done].
  - intros c Hc. destruct (H5 c Hc) as (i & E & Hst & Ho & Hcu). exists i. split; [done|]. split; [done|]. split; [|done].
    intros c' Hc' [[Hi _]|[-> ->]]%Eon; [by apply Ho| |done]. by destruct (Hni c).
  - intros u Hu. destruct (decide (u = t)) as [->|Hne]; [left; exists dst; split; [done|]; apply Eon; [done|by right]|].
    destruct (H8 u Hu) as [(c & Hc & Ho)|?]; [|by right]. left. exists c. split; [done|]. apply Eon; [done|by left].
Qed.

(** The queues after [t] of priority [prio th] has moved from [src] to [dst]. *)
Definition migrate (src dst : Z) (th : KThread_t) (t : Z) (rest : list Z) (Q : queues) : queues :=
  requeue true dst th t (qset src (prio th) rest Q).

Lemma migrate_one_wf s Q SL src dst t th xs ys : wfs s Q SL → is_cpu src → is_cpu dst → get_thread s t = Some th →
  Q src (prio th) = xs ++ t :: ys → not_idle s t →
  ∃ s1 s2, remote_remove_thread src t s = Some s1 ∧ remote_add_thread dst t s1 = Some s2 ∧
    wfs s2 (migrate src dst th t (xs ++ ys) Q) SL ∧ keeps s s2 ∧
    (∀ c u, is_cpu c → queued (migrate src dst th t (xs ++ ys) Q) c u ↔ (queued Q c u ∧ u ≠ t) ∨ (c = dst ∧ u = t)).
Proof.
  intros HW Hs Hd Ht Hx Hni. pose proof HW as [HI _ _ _ Hso _ _]. pose proof HI as [HR Hcls HC].
  destruct (dequeue_spec s Q SL src t th xs ys HR Hs Ht Hx) as (s1 & E1 & HK1 & HR1).
  pose proof (queued_del s Q SL src t th xs ys HR Hs Ht Hx) as Hqd. set (Q1 := qset src (prio th) (xs ++ ys) Q) in *.
  assert (unqueued Q1 t) as Hun. { intros c' p' Hc' Hp' Hin. destruct (proj1 (Hqd c' t Hc')) as [_ []]; [by exists p'|done]. }
  assert (get_thread s1 t = Some th) as Ht1 by (by rewrite (keeps_get_thread _ _ HK1)).
  destruct (enqueue_spec s1 Q1 SL dst t th HR1 Hd Ht1 Hun) as (s2 & E2 & HK2 & HR2).
  pose proof (rr_prios _ _ _ HR t th Ht) as Hp. pose proof (keeps_trans _ _ _ HK1 HK2) as HK.
  assert (∀ c u, is_cpu c → queued (requeue true dst th t Q1) c u ↔ (queued Q c u ∧ u ≠ t) ∨ (c = dst ∧ u = t)) as Hq.
  { intros c u Hc. rewrite queued_requeue by done. by rewrite Hqd. }
  exists s1, s2. rewrite remote_remove_eq, remote_add_eq. split; [done|]. split; [done|]. split; [|by split].
  eapply wfl_step; [exact HW| |by apply keeps_others|intros u; by rewrite (keeps_get_thread _ _ HK)|done].
  split; [exact HR2|by rewrite (keeps_classes _ _ HK)|].
  eapply (cinv_ext (st_of s) (cur_of s) (idle_of s)); [|intros; by apply keeps_st|intros; by apply keeps_cur|intros; by apply keeps_idle|done|done].
  eapply (cinv_migrate _ _ _ _ _ _ _ src dst t HC Hs Hd); [|done|exact Hq].
  exists (prio th). split; [done|]. rewrite Hx. set_solver.
Qed.

(** ** Several threads *)

Definition allowed (s : sched) (t c : Z) : Prop := smp_affinity_allowed t c s = Some true.

(** From [Q] to [Q'], some threads went from [src] to [dst], all of them with
    leave; none is lost and no other queue changed. *)
Record moved (s : sched) (src dst : Z) (Q Q' : queues) : Prop := Moved {
  mv_other : ∀ c p, c ≠ src → c ≠ dst → Q' c p = Q c p;
  mv_src : ∀ t, queued Q' src t → queued Q src t;
  mv_dst : ∀ t, queued Q' dst t → queued Q dst t ∨ (queued Q src t ∧ allowed s t dst);
  mv_kept : ∀ t, queued Q dst t → queued Q' dst t;
  mv_lost : ∀ t, queued Q src t → queued Q' src t ∨ queued Q' dst t
}.

Lemma moved_refl s src dst Q : moved s src dst Q Q.
Proof. split; try done; by left. Qed.

Lemma moved_trans s src dst Q1 Q2 Q3 : moved s src dst Q1 Q2 → moved s src dst Q2 Q3 → moved s src dst Q1 Q3.
Proof.
  intros [A1 A2 A3 A4 A5] [B1 B2 B3 B4 B5]. split.
  - intros c p H1 H2. by rewrite B1, A1.
  - intros t Ht. by apply A2, B2.
  - intros t [Ht|[Ht Ha]]%B3; [by apply A3|]. right. split; [by apply A2|done].
  - intros t Ht. by apply B4, A4.
  - intros t [Ht|Ht]%A5; [by apply B5|]. right. by apply B4.
Qed.

(** Only the idle thread of the CPU waits at the lowest priority. *)
Definition idle_lowest (s : sched) (Q : queues) : Prop :=
  (∀ c t, is_cpu c → t ∈ Q c 0 → idle_of s c = Some t) ∧
  (∀ c i th, is_cpu c → idle_of s c = Some i → get_thread s i = Some th → prio th = 0).

Lemma top_not_idle s Q SL c p t : wfs s Q SL → is_cpu c → idle_lowest s Q → is_top Q c p t → 2 <= Z.of_nat (length (qall Q c)) →
  0 < p ∧ not_idle s t ∧ ∃ th, get_thread s t = Some th ∧ prio th = p.
Proof.
  intros HW Hc [Hlow Hpr] (Hp & Hh & Hhi) Hlen. pose proof HW as [[HR _ HC] _ _ _ _ _ _].
  destruct (Q c p) as [|x l] eqn:El; [done|]. injection Hh as ->.
  destruct (rr_prio _ _ _ HR c p t Hc Hp) as (th & Ht & Hpt); [rewrite El; set_solver|].
  assert (0 < p) as Hpos.
  { destruct (decide (p = 0)) as [->|]; [|destruct Hp; lia]. exfalso.
    assert (l = []) as ->.
    { destruct l as [|y l]; [done|]. pose proof (rr_nodup _ _ _ HR c 0 Hc Hp) as Hnd. rewrite El in Hnd. apply NoDup_cons in Hnd as [Hx _].
      pose proof (Hlow c t Hc ltac:(rewrite El; set_solver)) as E1. pose proof (Hlow c y Hc ltac:(rewrite El; set_solver)) as E2.
      rewrite E1 in E2. injection E2 as ->. destruct Hx. set_solver. }
    assert (qall (qset c 0 [] Q) c = []) as En.
    { apply qall_nil. intros p' Hp'. unfold qset. case_decide as E; [done|]. apply Hhi. destruct Hp'. split; [|done].
      destruct (decide (p' = 0)) as [->|]; [by destruct E|lia]. }
    pose proof (qall_set Q c 0 [] Hp) as Hs. rewrite En, El in Hs. cbn [length] in Hs. lia. }
  split; [done|]. split; [|by exists th]. intros c' Hc' Hi. pose proof (Hpr c' t th Hc' Hi Ht). lia.
Qed.

Record skeep (s s' : sched) : Prop := SKeep {
  sk_threads : thread_table s' = thread_table s;
  sk_cur : ∀ c, cur_of s' c = cur_of s c;
  sk_idle : ∀ c, idle_of s' c = idle_of s c;
  sk_online : online_mask s' = online_mask s
}.

Lemma skeep_refl s : skeep s s.
Proof. done. Qed.

Lemma skeep_trans s1 s2 s3 : skeep s1 s2 → skeep s2 s3 → skeep s1 s3.
Proof. intros [A1 A2 A3 A4] [B1 B2 B3 B4]. split; [congruence|intros; by rewrite B2|intros; by rewrite B3|congruence]. Qed.

Lemma keeps_skeep s s' : keeps s s' → skeep s s'.
Proof. intros HK. split; [by apply keeps_threads|intros; by apply keeps_cur|intros; by apply keeps_idle|exact (f_equal online_mask (ke_rest _ _ HK))]. Qed.

Lemma skeep_thread s s' t : skeep s s' → get_thread s' t = get_thread s t.
Proof. intros [E _ _ _]. unfold get_thread. by rewrite E. Qed.

Lemma allowed_skeep s s' t c : skeep s s' → allowed s' t c ↔ allowed s t c.
Proof. intros HK. unfold allowed, smp_affinity_allowed, smp_get_affinity. by rewrite (skeep_thread _ _ _ HK). Qed.

Lemma moved_skeep s s' src dst Q Q' : skeep s s' → moved s' src dst Q Q' → moved s src dst Q Q'.
Proof.
  intros HK [A1 A2 A3 A4 A5]. split; try done. intros t [Ht|[Ht Ha]]%A3; [by left|right]. split; [done|]. by apply (allowed_skeep s s').
Qed.

(** Statistics and interrupts sent do not matter to the invariant. *)
Lemma on_stats_wf s Q SL c f : wfs s Q SL → is_cpu c → ∃ s', on_stats c f s = Some s' ∧ wfs s' Q SL ∧ skeep s s' ∧ online_mask s' = online_mask s.
Proof.
  intros HW Hc. pose proof (wf_stats _ _ _ _ HW) as Hl. unfold on_stats.
  destruct (proj2 (zlookup_is_Some (migrate_stats s) c)) as [m Em]; [rewrite Hl; exact Hc|]. rewrite Em, some_bind.
  rewrite zupdate_total by (rewrite Hl; exact Hc). rewrite some_bind. eexists. split; [done|].
  split; [|by split]. apply (wfl_same s); try done; [apply HW..|]. cbn. by rewrite length_insert.
Qed.

Lemma ipi_wf s Q SL c : wfs s Q SL → wfs (ipi_reschedule c s) Q SL ∧ skeep s (ipi_reschedule c s).
Proof. intros HW. split; [|done]. apply (wfl_same s); try done; apply HW. Qed.

Lemma refused_spec s Q SL t c : wfs s Q SL → is_cpu c → is_tid t → ∃ b, migration_refused t c s = Some b ∧ (b = false → allowed s t c).
Proof.
  intros HW Hc Hti. destruct (rr_thread _ _ _ (si_rep _ _ _ _ (wf_inv _ _ _ _ HW)) t Hti) as (th & Ht).
  destruct (wf_names _ _ _ _ HW t th Ht) as [_ Eid]. unfold migration_refused. rewrite Ht, some_bind, Eid.
  rewrite (proj2 (Z.ltb_lt _ _)) by (by destruct Hti). unfold allowed, smp_affinity_allowed.
  rewrite Z.geb_leb, (proj2 (Z.leb_gt _ _)) by (by destruct Hc). unfold smp_get_affinity.
  rewrite Z.geb_leb, (proj2 (Z.leb_gt _ _)) by (by destruct Hti). rewrite Ht, !some_bind. eexists. split; [done|].
  by intros ->%negb_false_iff.
Qed.

Lemma qall_migrate Q src dst th t rest : src ≠ dst → is_prio (prio th) →
  Z.of_nat (length (qall (migrate src dst th t rest Q) src)) =
  Z.of_nat (length (qall Q src)) - Z.of_nat (length (Q src (prio th))) + Z.of_nat (length rest).
Proof. intros Hne Hp. unfold migrate, requeue. rewrite qall_other by done. by apply qall_set. Qed.

Lemma migrate_moved s Q SL src dst t th xs ys : wfs s Q SL → is_cpu src → is_cpu dst → src ≠ dst → Q src (prio th) = xs ++ t :: ys →
  is_prio (prio th) → allowed s t dst →
  (∀ c u, is_cpu c → queued (migrate src dst th t (xs ++ ys) Q) c u ↔ (queued Q c u ∧ u ≠ t) ∨ (c = dst ∧ u = t)) →
  moved s src dst Q (migrate src dst th t (xs ++ ys) Q).
Proof.
  intros HW Hs Hd Hne Hx Hp Ha Hq. assert (queued Q src t) as Hqt by (exists (prio th); rewrite Hx; split; [done|set_solver]).
  pose proof (si_core _ _ _ _ (wf_inv _ _ _ _ HW)) as HC. pose proof (si_rep _ _ _ _ (wf_inv _ _ _ _ HW)) as HR.
  split.
  - intros c p H1 H2. unfold migrate, requeue. rewrite !qset_ne by naive_solver. done.
  - intros u [[? _]|[? _]]%Hq; [done|congruence|done].
  - intros u [[? _]|[_ ->]]%Hq; [by left| |done]. right. by split.
  - intros u Hu. apply Hq; [done|]. destruct (decide (u = t)) as [->|]; [by right|by left].
  - intros u Hu. destruct (decide (u = t)) as [->|]; [right; apply Hq; [done|by right]|left; apply Hq; [done|by left]].
Qed.

Lemma idle_lowest_migrate s s' Q src dst t th xs ys : idle_lowest s Q → skeep s s' → 0 < prio th → Q src (prio th) = xs ++ t :: ys →
  idle_lowest s' (migrate src dst th t (xs ++ ys) Q).
Proof.
  intros [H1 H2] HK Hp Hx. split.
  - intros c u Hc. unfold migrate, requeue. rewrite !qset_ne by lia. rewrite (sk_idle _ _ HK). by apply H1.
  - intros c i ith Hc. rewrite (sk_idle _ _ HK), (skeep_thread _ _ _ HK). by apply H2.
Qed.

Lemma idle_lowest_skeep s s' Q : skeep s s' → idle_lowest s Q → idle_lowest s' Q.
Proof.
  intros HK [L1 L2]. split.
  - intros c u. rewrite (sk_idle _ _ HK). apply L1.
  - intros c i ith. rewrite (sk_idle _ _ HK), (skeep_thread _ _ _ HK). apply L2.
Qed.

(** One turn moves one thread from the source, when the source has others besides
    its idle thread, or nothing. *)
Lemma migrate_step_wf src dst s Q SL : wfs s Q SL → is_cpu src → is_cpu dst → src ≠ dst → idle_lowest s Q → length (qall Q src) ≠ 1%nat →
  ∃ s' b Q', migrate_step src dst s = Some (s', b) ∧ wfs s' Q' SL ∧ moved s src dst Q Q' ∧ skeep s s' ∧ idle_lowest s' Q' ∧
    (length (qall Q src) <= S (length (qall Q' src)))%nat.
Proof.
  intros HW Hs Hd Hne Hlow Hlen. unfold migrate_step. pose proof (si_rep _ _ _ _ (wf_inv _ _ _ _ HW)) as HR.
  destruct (remote_pick_spec s Q SL src HR Hs) as (r & Er & Hr). rewrite Er, some_bind.
  destruct r as [t|]; [|exists s, false, Q; split; [done|]; split; [done|]; split; [apply moved_refl|]; split; [done|]; split; [done|lia]].
  destruct Hr as (p & Htop).
  assert (qall Q src ≠ []) as Hne0.
  { intros E. destruct Htop as (Hp & Hh & _). rewrite ((proj1 (qall_nil Q src)) E p Hp) in Hh. done. }
  assert (1 < length (qall Q src))%nat as Hlen2 by (destruct (qall Q src) as [|? [|? ?]]; cbn in *; [done|done|lia]).
  destruct (top_not_idle s Q SL src p t HW Hs Hlow Htop ltac:(lia)) as (Hpos & Hni & th & Ht & Hpt).
  pose proof (rr_tid _ _ _ HR t th Ht) as Hti. destruct (refused_spec s Q SL t dst HW Hd Hti) as (b & Eb & Hall). rewrite Eb, some_bind.
  destruct b.
  { destruct (on_stats_wf s Q SL src add_reject HW Hs) as (s' & -> & HW' & HK & _). rewrite some_bind. exists s', false, Q.
    split; [done|]. split; [done|]. split; [apply moved_refl|]. split; [done|]. split; [by eapply idle_lowest_skeep|lia]. }
  assert (∃ l, Q src (prio th) = [] ++ t :: l) as (l & Hx).
  { destruct Htop as (_ & Hh & _). rewrite Hpt. destruct (Q src p) as [|x l]; [done|]. injection Hh as ->. by exists l. }
  assert (is_prio (prio th)) as Hp by (by eapply rr_prios).
  destruct (migrate_one_wf s Q SL src dst t th [] l HW Hs Hd Ht Hx Hni) as (s1 & s2 & E1 & E2 & HW2 & HK2 & Hq2).
  rewrite E1, some_bind, E2, some_bind. pose proof (keeps_skeep _ _ HK2) as HS2. eexists s2, true, _. split; [done|]. split; [exact HW2|].
  split; [eapply (migrate_moved s Q SL src dst t th [] l); try done; by apply Hall|]. split; [done|].
  split; [by eapply idle_lowest_migrate; [|done|lia|]|]. apply Nat2Z.inj_le. rewrite Nat2Z.inj_succ, qall_migrate by done. rewrite Hx. cbn [length app]. lia.
Qed.

Lemma migrate_loop_wf n src dst m s Q SL : wfs s Q SL → is_cpu src → is_cpu dst → src ≠ dst → idle_lowest s Q →
  Z.of_nat n < Z.of_nat (length (qall Q src)) →
  ∃ s' m' Q', migrate_loop n src dst m s = Some (s', m') ∧ wfs s' Q' SL ∧ moved s src dst Q Q' ∧ skeep s s' ∧ idle_lowest s' Q'.
Proof.
  revert m s Q. induction n as [|n IH]; intros m s Q HW Hs Hd Hne Hlow Hlen; cbn [migrate_loop].
  { exists s, m, Q. split; [done|]. split; [done|]. split; [apply moved_refl|]. by split. }
  destruct (migrate_step_wf src dst s Q SL HW Hs Hd Hne Hlow ltac:(lia)) as (s1 & b & Q1 & -> & HW1 & Hm1 & HK1 & Hlow1 & Hl1). rewrite some_bind.
  destruct b; [|by exists s1, m, Q1]. destruct (IH (m + 1) s1 Q1 HW1 Hs Hd Hne Hlow1 ltac:(lia)) as (s' & m' & Q' & E & HW' & Hmv & HS' & Hlow').
  exists s', m', Q'. split; [done|]. split; [done|]. split; [|split; [by eapply skeep_trans|done]]. eapply moved_trans; [done|]. by eapply moved_skeep.
Qed.

(** ** Choosing the CPUs *)

Definition nr_of (s : sched) (c : Z) : Z := default 0 (nr_running <$> get_q s c).

Section scans.
Context (s : sched) (Q : queues) (SL : Z → list Z) (HR : rq_rep s Q SL).

Lemma nr_of_eq c : is_cpu c → ∃ q, get_q s c = Some q ∧ nr_running q = nr_of s c ∧ nr_of s c = Z.of_nat (length (qall Q c)) ∧
  0 <= nr_of s c <= CONFIG_MAX_THREADS.
Proof using HR.
  intros Hc. destruct (rr_q _ _ _ HR c Hc) as (q & Hq). exists q. unfold nr_of. rewrite Hq. cbn. split; [done|]. split; [done|].
  split; [by apply (rr_count _ _ _ HR c)|by eapply rr_queue_nr].
Qed.

Lemma scan_max_spec n c ok best mx : 0 <= c → c + Z.of_nat n = CONFIG_MAX_CPUS → ∃ b m, scan_max n c ok s best mx = Some (b, m) ∧ mx <= m ∧
  ((b = best ∧ m = mx) ∨ (is_cpu b ∧ ok b = true ∧ m = nr_of s b ∧ mx < m)) ∧ (∀ i, c <= i < CONFIG_MAX_CPUS → ok i = true → nr_of s i <= m).
Proof using HR.
  revert c best mx. induction n as [|n IH]; intros c best mx Hc Hn; cbn [scan_max].
  { exists best, mx. split; [done|]. split; [lia|]. split; [by left|intros; lia]. }
  assert (is_cpu c) as Hcpu by (unfold is_cpu; lia).
  assert (∀ i m, (∀ i, c + 1 <= i < CONFIG_MAX_CPUS → ok i = true → nr_of s i <= m) → (ok c = true → nr_of s c <= m) →
    c <= i < CONFIG_MAX_CPUS → ok i = true → nr_of s i <= m) as Hstep.
  { intros i m H1 H2 Hi Ho. destruct (decide (i = c)) as [->|]; [by apply H2|]. apply H1; [lia|done]. }
  destruct (ok c) eqn:Eo; cbn [negb].
  2: { destruct (IH (c + 1) best mx) as (b & m & E & Hm & Hb & Hall); [lia|lia|]. exists b, m. split; [done|]. split; [done|]. split; [done|].
       intros i Hi. by apply Hstep; [|congruence|]. }
  destruct (nr_of_eq c Hcpu) as (q & Eq & En & _ & Hr). rewrite Eq, some_bind, En, Z.gtb_ltb. destruct (Z.ltb_spec mx (nr_of s c)) as [Hlt|Hge].
  - destruct (IH (c + 1) c (nr_of s c)) as (b & m & E & Hm & Hb & Hall); [lia|lia|]. exists b, m. split; [done|]. split; [lia|]. split.
    + right. destruct Hb as [[-> ->]|(? & ? & ? & ?)]; [done|]. split; [done|]. split; [done|]. split; [done|lia].
    + intros i Hi. by apply Hstep.
  - destruct (IH (c + 1) best mx) as (b & m & E & Hm & Hb & Hall); [lia|lia|]. exists b, m. split; [done|]. split; [done|]. split; [done|].
    intros i Hi. apply Hstep; [done|intros; lia|done].
Qed.

Lemma scan_min_spec n c ok best mn : 0 <= c → c + Z.of_nat n = CONFIG_MAX_CPUS → ∃ b m, scan_min n c ok s best mn = Some (b, m) ∧ m <= mn ∧
  ((b = best ∧ m = mn) ∨ (is_cpu b ∧ ok b = true ∧ m = nr_of s b ∧ m < mn)) ∧ (∀ i, c <= i < CONFIG_MAX_CPUS → ok i = true → m <= nr_of s i ).
Proof using HR.
  revert c best mn. induction n as [|n IH]; intros c best mn Hc Hn; cbn [scan_min].
  { exists best, mn. split; [done|]. split; [lia|]. split; [by left|intros; lia]. }
  assert (is_cpu c) as Hcpu by (unfold is_cpu; lia).
  assert (∀ i m, (∀ i, c + 1 <= i < CONFIG_MAX_CPUS → ok i = true → m <= nr_of s i) → (ok c = true → m <= nr_of s c) →
    c <= i < CONFIG_MAX_CPUS → ok i = true → m <= nr_of s i) as Hstep.
  { intros i m H1 H2 Hi Ho. destruct (decide (i = c)) as [->|]; [by apply H2|]. apply H1; [lia|done]. }
  destruct (ok c) eqn:Eo; cbn [negb].
  2: { destruct (IH (c + 1) best mn) as (b & m & E & Hm & Hb & Hall); [lia|lia|]. exists b, m. split; [done|]. split; [done|]. split; [done|].
       intros i Hi. by apply Hstep; [|congruence|]. }
  destruct (nr_of_eq c Hcpu) as (q & Eq & En & _ & Hr). rewrite Eq, some_bind, En. destruct (Z.ltb_spec (nr_of s c) mn) as [Hlt|Hge].
  - destruct (IH (c + 1) c (nr_of s c)) as (b & m & E & Hm & Hb & Hall); [lia|lia|]. exists b, m. split; [done|]. split; [lia|]. split.
    + right. destruct Hb as [[-> ->]|(? & ? & ? & ?)]; [done|]. split; [done|]. split; [done|]. split; [done|lia].
    + intros i Hi. by apply Hstep.
  - destruct (IH (c + 1) best mn) as (b & m & E & Hm & Hb & Hall); [lia|lia|]. exists b, m. split; [done|]. split; [done|]. split; [done|].
    intros i Hi. apply Hstep; [done|intros; lia|done].
Qed.

Lemma sum_load_spec n c total cpus : 0 <= c → c + Z.of_nat n = CONFIG_MAX_CPUS → 0 <= total <= 256 * c → 0 <= cpus →
  ∃ t k, sum_load n c s total cpus = Some (t, k) ∧ 0 <= t <= 2048 ∧ 0 <= k.
Proof using HR.
  revert c total cpus. induction n as [|n IH]; intros c total cpus Hc Hn Ht Hk; cbn [sum_load].
  { exists total, cpus. split; [done|]. unfold CONFIG_MAX_CPUS in *. split; lia. }
  destruct (smp_cpu_online s c); [|apply IH; lia].
  destruct (nr_of_eq c) as (q & Eq & En & _ & Hr); [unfold is_cpu; lia|]. rewrite Eq, some_bind, En.
  unfold CONFIG_MAX_CPUS, CONFIG_MAX_THREADS in *. rewrite u32_small by lia. apply IH; lia.
Qed.

Lemma any_overloaded_spec n c avg : 0 <= c → c + Z.of_nat n = CONFIG_MAX_CPUS → 0 < avg <= 2048 →
  ∃ b, any_overloaded n c avg s = Some b ∧ (b = true → ∃ i, is_cpu i ∧ smp_cpu_online s i = true ∧ 2 <= nr_of s i).
Proof using HR.
  revert c. induction n as [|n IH]; intros c Hc Hn Ha; cbn [any_overloaded]; [by exists false|].
  assert (is_cpu c) as Hcpu by (unfold is_cpu; lia).
  destruct (smp_cpu_online s c) eqn:Eo; [|apply IH; lia].
  destruct (nr_of_eq c Hcpu) as (q & Eq & En & _ & Hr). rewrite Eq, some_bind, En.
  unfold CONFIG_MAX_THREADS, LOAD_IMBALANCE_THRESHOLD in *. rewrite !u32_small by lia. rewrite Z.gtb_ltb.
  destruct (Z.ltb_spec (avg * 150) (nr_of s c * 100)); [|apply IH; lia]. exists true. split; [done|]. intros _. exists c.
  split; [done|]. split; [done|]. lia.
Qed.
End scans.

(** ** Balancing *)

Lemma adapt_bounds need i : 16 <= i <= 318 → 16 <= adapt_interval need i <= 318.
Proof.
  intros Hi. unfold adapt_interval, LB_INTERVAL_MIN, LB_INTERVAL_MAX. destruct need.
  - rewrite Z.gtb_ltb. destruct (Z.ltb_spec 32 i); [|lia]. pose proof (Z.div_le_lower_bound i 2 16). pose proof (Z.div_le_upper_bound i 2 318). lia.
  - destruct (Z.ltb_spec i 256); [|lia]. assert (0 <= i / 4 < 64) by (split; [apply Z.div_pos|apply Z.div_lt_upper_bound]; lia).
    rewrite u32_small by lia. lia.
Qed.

Lemma need_balance_wf s Q SL : wfs s Q SL → ∃ s' b, need_load_balance 0 s = Some (s', b) ∧ wfs s' Q SL ∧ skeep s s' ∧
  cpu_queues s' = cpu_queues s ∧ online_mask s' = online_mask s ∧
  (b = true → ∃ i, is_cpu i ∧ smp_cpu_online s i = true ∧ 2 <= nr_of s i).
Proof.
  intros HW. pose proof (si_rep _ _ _ _ (wf_inv _ _ _ _ HW)) as HR. unfold need_load_balance.
  destruct (sum_load_spec s Q SL HR ncpus 0 0 0) as (t & k & -> & Ht & Hk); [lia|done|lia|lia|]. rewrite some_bind.
  destruct (Z.leb_spec k 1); [by exists s, false|]. destruct (Z.eqb_spec (t / k) 0) as [|Hne]; [by exists s, false|].
  assert (0 < t / k <= 2048) as Ha. { split; [pose proof (Z.div_pos t k ltac:(lia) ltac:(lia)); lia|apply Z.div_le_upper_bound; lia]. }
  destruct (any_overloaded_spec s Q SL HR ncpus 0 (t / k)) as (b & -> & Hb); [lia|done|done|]. rewrite some_bind.
  change (0 <? CONFIG_MAX_CPUS) with true. cbv iota. destruct (wf_lb _ _ _ _ HW) as [Hl Hi].
  destruct (proj2 (zlookup_is_Some (lb_state s) 0)) as [l El]; [by rewrite Hl|]. rewrite El, some_bind.
  rewrite zupdate_total by (by rewrite Hl). rewrite some_bind. eexists _, b. split; [done|]. split; [|by split].
  apply (wfl_same s); try done; [apply HW| |apply HW]. cbn. split; [by rewrite length_insert|].
  intros c l'. destruct (decide (c = 0)) as [->|Hc].
  - rewrite zlookup_insert_eq by (by rewrite Hl). intros [= <-]. cbn. apply adapt_bounds. by apply (Hi 0).
  - intros E. pose proof (zlookup_Some_lt _ _ _ E). rewrite zlookup_insert_ne in E by lia. by apply (Hi c).
Qed.

(** The queues after balancing: unchanged, or threads moved between two CPUs. *)
Definition balanced (s : sched) (Q Q' : queues) : Prop :=
  Q' = Q ∨ ∃ src dst, is_cpu src ∧ is_cpu dst ∧ src ≠ dst ∧ smp_cpu_online s dst = true ∧ moved s src dst Q Q'.

Lemma balanced_skeep s s' Q Q' : skeep s s' → balanced s' Q Q' → balanced s Q Q'.
Proof.
  intros HK [->|(src & dst & H1 & H2 & H3 & H4 & H5)]; [by left|]. right. exists src, dst. split; [done|]. split; [done|]. split; [done|].
  split; [unfold smp_cpu_online in *; by rewrite <- (sk_online _ _ HK)|by eapply moved_skeep].
Qed.

Lemma balance_done_wf s Q SL src dst m : wfs s Q SL → is_cpu src → is_cpu dst → ∃ s', balance_done src dst m s = Some s' ∧ wfs s' Q SL ∧ skeep s s'.
Proof.
  intros HW Hs Hd. unfold balance_done. destruct (m >? 0); [|by exists s]. destruct (ipi_wf s Q SL dst HW) as [HW3 HK3].
  destruct (on_stats_wf _ Q SL src (add_migrated m) HW3 Hs) as (s4 & -> & HW4 & HK4 & _). rewrite some_bind.
  destruct (on_stats_wf s4 Q SL dst add_balance HW4 Hd) as (s5 & -> & HW5 & HK5 & _). exists s5. split; [done|]. split; [done|].
  eapply skeep_trans; [exact HK3|]. by eapply skeep_trans.
Qed.

Lemma load_balance_wf s Q SL : wfs s Q SL → idle_lowest s Q → ∃ s' Q', smp_load_balance s = Some (s', KERNEL_OK) ∧ wfs s' Q' SL ∧
  balanced s Q Q' ∧ skeep s s' ∧ idle_lowest s' Q'.
Proof.
  intros HW Hlow. unfold smp_load_balance.
  destruct (need_balance_wf s Q SL HW) as (s1 & b & -> & HW1 & HK1 & Eq1 & Eo1 & Hb). rewrite some_bind.
  pose proof (idle_lowest_skeep _ _ _ HK1 Hlow) as Hlow1.
  assert (∀ s', wfs s' Q SL → skeep s s' → ∃ s'' Q', Some (s', KERNEL_OK) = Some (s'', KERNEL_OK) ∧ wfs s'' Q' SL ∧ balanced s Q Q' ∧
    skeep s s'' ∧ idle_lowest s'' Q') as Hsame.
  { intros s' HW' HK'. exists s', Q. split; [done|]. split; [done|]. split; [by left|]. split; [done|by eapply idle_lowest_skeep]. }
  destruct b; cbn [negb]; [|by apply Hsame]. destruct (Hb eq_refl) as (i & Hi & Hoi & H2).
  pose proof (si_rep _ _ _ _ (wf_inv _ _ _ _ HW1)) as HR1.
  assert (∀ c, smp_cpu_online s1 c = smp_cpu_online s c) as Hon by (intros c; unfold smp_cpu_online; by rewrite Eo1).
  assert (∀ c, nr_of s1 c = nr_of s c) as Hnr by (intros c; unfold nr_of, get_q; by rewrite Eq1).
  destruct (scan_max_spec s1 Q SL HR1 ncpus 0 (smp_cpu_online s1) 0 0) as (src & mx & -> & _ & Hsrc & Hall); [lia|done|]. rewrite some_bind.
  assert (2 <= mx) as Hmx by (specialize (Hall i Hi); rewrite Hon, Hnr in Hall; specialize (Hall Hoi); lia).
  destruct Hsrc as [[_ ->]|(Hsrc & Hosrc & -> & _)]; [lia|].
  destruct (scan_min_spec s1 Q SL HR1 ncpus 0 (λ c, smp_cpu_online s1 c && negb (c =? src)) SMP_CPU_INVALID 0xFFFFFFFF)
    as (dst & mn & -> & _ & Hdst & _); [lia|done|]. rewrite some_bind. cbn [fst].
  destruct (Z.eqb_spec dst SMP_CPU_INVALID) as [|Hinv]; [by apply Hsame|]. cbn [orb].
  destruct Hdst as [[-> _]|(Hdst & Hodst & _)]; [done|]. apply andb_true_iff in Hodst as [Hodst Hne].
  destruct (Z.eqb_spec dst src) as [|Hne']; [done|]. rewrite (proj2 (Z.eqb_neq src dst)) by congruence.
  set (l0 := nr_of s1 src / 2) in *. set (l1 := if l0 >? _ then _ else _). set (l2 := if l1 =? 0 then _ else _).
  assert (0 <= l2 < nr_of s1 src) as Hl2.
  { assert (1 <= l0 <= nr_of s1 src / 2) by (unfold l0; split; [apply Z.div_le_lower_bound; lia|lia]).
    assert (l0 < nr_of s1 src) by (unfold l0; apply Z.div_lt; lia).
    unfold l2, l1, MAX_MIGRATE_PER_BALANCE. rewrite Z.gtb_ltb. destruct (Z.ltb_spec 4 l0), (Z.eqb_spec l0 0); try lia; destruct (Z.eqb_spec 4 0); lia. }
  destruct (nr_of_eq s1 Q SL HR1 src Hsrc) as (_ & _ & _ & Eqall & _).
  destruct (migrate_loop_wf (Z.to_nat l2) src dst 0 s1 Q SL HW1 Hsrc Hdst ltac:(congruence) Hlow1) as (s2 & m & Q2 & -> & HW2 & Hmv & HK2 & Hlow2); [lia|].
  rewrite some_bind. pose proof (skeep_trans _ _ _ HK1 HK2) as HK12.
  assert (balanced s Q Q2) as HB.
  { right. exists src, dst. split; [done|]. split; [done|]. split; [congruence|]. split; [by rewrite <- Hon|]. exact (moved_skeep s s1 src dst Q Q2 HK1 Hmv). }
  destruct (balance_done_wf s2 Q2 SL src dst m HW2 Hsrc Hdst) as (s5 & -> & HW5 & HK). rewrite some_bind.
  exists s5, Q2. split; [done|]. split; [done|]. split; [done|]. split; [by eapply skeep_trans|by eapply idle_lowest_skeep].
Qed.

(** ** Stealing *)

Lemma prio_not_idle s Q t th : idle_lowest s Q → get_thread s t = Some th → 0 < prio th → not_idle s t.
Proof. intros [_ L] Ht Hp c Hc Hi. pose proof (L c t th Hc Hi Ht). lia. Qed.

(** The highest queue of a CPU with two threads or more, by the bitmap. *)
Lemma highest_queue s Q SL c q : wfs s Q SL → is_cpu c → get_q s c = Some q → idle_lowest s Q → 2 <= nr_of s c →
  ∃ hp, bitmap256_find_highest (Some (bitmap q)) = Some hp ∧ 0 < hp < CONFIG_PRIORITY_LEVELS ∧ Q c hp ≠ [] ∧
    list_empty (Some (RqHead c hp)) (snodes s) = Some false.
Proof.
  intros HW Hc Hq Hlow Hn. pose proof (si_rep _ _ _ _ (wf_inv _ _ _ _ HW)) as HR. destruct (rr_bits _ _ _ HR c q Hc Hq) as [Hwf Hbits].
  destruct (nr_of_eq s Q SL HR c Hc) as (_ & _ & _ & Eq & _).
  destruct (bitmap256_find_highest_spec (bitmap q) Hwf) as (hp & E & Hhp). exists hp. split; [done|].
  destruct Hhp as [[-> Hno]|(Hr & Hb & Hhi)].
  - exfalso. assert (qall Q c = []) as En.
    { apply qall_nil. intros p Hp. specialize (Hno p Hp). rewrite Hbits in Hno by done. apply bool_decide_eq_false in Hno.
      destruct (Q c p); [done|]. by destruct Hno. }
    rewrite En in Eq. cbn in Eq. lia.
  - rewrite Hbits in Hb by done. apply bool_decide_eq_true in Hb. destruct (Q c hp) as [|t l] eqn:El; [done|].
    assert (is_top Q c hp t) as Htop.
    { split; [done|]. split; [by rewrite El|]. intros p' Hp'. specialize (Hhi p' ltac:(unfold CONFIG_PRIORITY_LEVELS in *; lia)).
      rewrite Hbits in Hhi by (unfold is_prio, CONFIG_PRIORITY_LEVELS in *; lia). apply bool_decide_eq_false in Hhi.
      destruct (Q c p'); [done|]. by destruct Hhi. }
    destruct (top_not_idle s Q SL c hp t HW Hc Hlow Htop ltac:(lia)) as (Hpos & _). split; [unfold CONFIG_PRIORITY_LEVELS; lia|]. split; [done|].
    by rewrite (list_empty_spec _ _ _ (rr_dll _ _ _ HR c hp Hc Hr)), El, bool_decide_eq_false_2.
Qed.

Lemma work_steal_wf s Q SL c : wfs s Q SL → idle_lowest s Q → is_cpu c → smp_cpu_online s c = true →
  ∃ s' Q', smp_work_steal c s = Some (s', KERNEL_OK) ∧ wfs s' Q' SL ∧ balanced s Q Q' ∧ skeep s s' ∧ idle_lowest s' Q'.
Proof.
  intros HW Hlow Hc Hoc. pose proof (si_rep _ _ _ _ (wf_inv _ _ _ _ HW)) as HR. unfold smp_work_steal.
  rewrite Z.geb_leb, (proj2 (Z.leb_gt _ _)) by (by destruct Hc). destruct (nr_of_eq s Q SL HR c Hc) as (q & Hq & Enr & _). rewrite Hq, some_bind.
  assert (∀ s', wfs s' Q SL → skeep s s' → ∃ s'' Q', Some (s', KERNEL_OK) = Some (s'', KERNEL_OK) ∧ wfs s'' Q' SL ∧ balanced s Q Q' ∧
    skeep s s'' ∧ idle_lowest s'' Q') as Hsame.
  { intros s' HW' HK'. exists s', Q. split; [done|]. split; [done|]. split; [by left|]. split; [done|by eapply idle_lowest_skeep]. }
  destruct (nr_running q >? 0); [by apply Hsame|].
  destruct (scan_max_spec s Q SL HR ncpus 0 (λ i, smp_cpu_online s i && negb (i =? c)) SMP_CPU_INVALID STEAL_MIN_RESERVE)
    as (src & mx & -> & _ & Hsrc & _); [lia|done|]. rewrite some_bind. cbn [fst].
  destruct (Z.eqb_spec src SMP_CPU_INVALID) as [|Hinv]; [by apply Hsame|].
  destruct Hsrc as [[-> _]|(Hsrc & Hosrc & -> & Hmx)]; [done|]. apply andb_true_iff in Hosrc as [_ Hne].
  destruct (Z.eqb_spec src c) as [|Hne']; [done|]. destruct (nr_of_eq s Q SL HR src Hsrc) as (sq & Hsq & Esq & _). rewrite Hsq, some_bind, Esq.
  unfold STEAL_MIN_RESERVE in *. rewrite (proj2 (Z.leb_gt _ _)) by lia.
  destruct (highest_queue s Q SL src sq HW Hsrc Hsq Hlow ltac:(lia)) as (hp & -> & Hhp & Hnn & He). rewrite some_bind.
  rewrite Z.geb_leb, (proj2 (Z.leb_gt _ _)) by lia. rewrite He, some_bind.
  assert (is_prio hp) as Hp by (unfold is_prio; lia). destruct (exists_last Hnn) as (xs & t & Hx).
  pose proof (dll_last _ _ _ (rr_dll _ _ _ HR src hp Hsrc Hp)) as Hl. rewrite Hx, fmap_app, last_app in Hl. cbn in Hl.
  rewrite (get_prev_prv _ _ _ Hl), some_bind. cbn [rq_entry]. rewrite some_bind.
  destruct (rr_prio _ _ _ HR src hp t Hsrc Hp) as (th & Ht & Hpt); [rewrite Hx; set_solver|]. subst hp.
  pose proof (rr_tid _ _ _ HR t th Ht) as Hti. destruct (refused_spec s Q SL t c HW Hc Hti) as (b & Eb & Hall). rewrite Eb, some_bind.
  destruct b.
  { destruct (on_stats_wf s Q SL src add_reject HW Hsrc) as (s' & -> & HW' & HK & _). rewrite some_bind. by apply Hsame. }
  destruct (migrate_one_wf s Q SL src c t th xs [] HW Hsrc Hc Ht Hx) as (s1 & s2 & E1 & E2 & HW2 & HK2 & Hq2); [eapply prio_not_idle; [done|done|lia]|].
  rewrite E1, some_bind, E2, some_bind.
  destruct (on_stats_wf s2 _ SL src add_steal HW2 Hsrc) as (s3 & -> & HW3 & HK3 & _). rewrite some_bind.
  destruct (ipi_wf s3 _ SL src HW3) as [HW4 HK4].
  assert (skeep s (ipi_reschedule src s3)) as HK by (eapply skeep_trans; [by apply keeps_skeep|]; by eapply skeep_trans).
  eexists _, _. split; [done|]. split; [exact HW4|]. split; [|split; [done|eapply idle_lowest_migrate; [done|done|lia|done]]].
  right. exists src, c. split; [done|]. split; [done|]. split; [done|]. split; [done|].
  eapply (migrate_moved s Q SL src c t th xs []); try done. by apply Hall.
Qed.

(** ** Migration on request and affinity *)

Lemma migrate_thread_wf s Q SL src dst pr t : wfs s Q SL → 0 <= src → 0 <= dst → 0 <= t →
  (st_of s t = Some KTHREAD_STATE_READY → queued Q src t) → not_idle s t →
  ∃ s' r Q', smp_migrate_thread src dst pr t s = Some (s', r) ∧ wfs s' Q' SL ∧ skeep s s' ∧
    ((r ≠ KERNEL_OK ∨ src = dst) ∧ Q' = Q ∨
     r = KERNEL_OK ∧ is_cpu src ∧ is_cpu dst ∧ smp_cpu_online s dst = true ∧ moved s src dst Q Q' ∧ queued Q' dst t).
Proof.
  intros HW Hs Hd Ht Hon Hni. pose proof (si_rep _ _ _ _ (wf_inv _ _ _ _ HW)) as HR. unfold smp_migrate_thread.
  assert (∀ r, (r ≠ KERNEL_OK ∨ src = dst) → ∃ s' r' Q', Some (s, r) = Some (s', r') ∧ wfs s' Q' SL ∧ skeep s s' ∧
    ((r' ≠ KERNEL_OK ∨ src = dst) ∧ Q' = Q ∨
     r' = KERNEL_OK ∧ is_cpu src ∧ is_cpu dst ∧ smp_cpu_online s dst = true ∧ moved s src dst Q Q' ∧ queued Q' dst t)) as Hsame.
  { intros r Hr. exists s, r, Q. split; [done|]. split; [done|]. split; [done|]. by left. }
  destruct (_ || _) eqn:Eb; [by apply Hsame; left|]. apply orb_false_iff in Eb as [E1 E2].
  rewrite Z.geb_leb in E1, E2. apply Z.leb_gt in E1, E2. destruct (Z.eqb_spec src dst) as [|Hne]; [by apply Hsame; right|].
  destruct (smp_cpu_online s dst) eqn:Eo; cbn [negb]; [|by apply Hsame; left].
  rewrite Z.geb_leb. destruct (Z.leb_spec CONFIG_MAX_THREADS t); [by apply Hsame; left|].
  destruct (rr_thread _ _ _ HR t (conj Ht ltac:(done))) as (th & Eth).
  assert (∃ a, smp_affinity_allowed t dst s = Some a) as (a & Ea).
  { unfold smp_affinity_allowed, smp_get_affinity. rewrite !Z.geb_leb, !(proj2 (Z.leb_gt _ _)) by done. rewrite Eth, !some_bind. by eexists. }
  rewrite Ea, some_bind. destruct a; cbn [negb]; [|by apply Hsame; left]. rewrite Eth, some_bind.
  case_bool_decide as Hst; cbn [negb]; [|by apply Hsame; left].
  assert (queued Q src t) as Hqt by (apply Hon, st_of_Some; eauto). assert (is_cpu src ∧ is_cpu dst) as [Hcs Hcd] by (unfold is_cpu; lia).
  destruct (queued_split s Q SL src t th HR Hcs Hqt Eth) as (xs & ys & Hx).
  destruct (migrate_one_wf s Q SL src dst t th xs ys HW Hcs Hcd Eth Hx Hni) as (s1 & s2 & -> & E3 & HW2 & HK2 & Hq2).
  rewrite some_bind, E3, some_bind. destruct (ipi_wf s2 _ SL dst HW2) as [HW4 HK4]. eexists _, _, _. split; [done|]. split; [exact HW4|].
  split; [eapply skeep_trans; [by apply keeps_skeep|done]|]. right. split; [done|]. split; [done|]. split; [done|]. split; [done|]. split.
  - eapply (migrate_moved s Q SL src dst t th xs ys); try done. by eapply rr_prios.
  - apply Hq2; [done|by right].
Qed.

Lemma set_affinity_wf s Q SL t m : wfs s Q SL → 0 <= t → ∃ s' r, smp_set_affinity t m s = Some (s', r) ∧ wfs s' Q SL ∧
  (∀ c, cur_of s' c = cur_of s c) ∧ (∀ u, u ≠ t → get_thread s' u = get_thread s u).
Proof.
  intros HW Ht. unfold smp_set_affinity. rewrite Z.geb_leb. destruct (Z.leb_spec CONFIG_MAX_THREADS t); [by exists s, (- EINVAL)|].
  destruct (rr_thread _ _ _ (si_rep _ _ _ _ (wf_inv _ _ _ _ HW)) t (conj Ht ltac:(done))) as (th & Eth).
  assert (∀ v, ∃ s', on_thread t (set_affinity v) s = Some s' ∧ wfs s' Q SL ∧ (∀ c, cur_of s' c = cur_of s c) ∧
    (∀ u, u ≠ t → get_thread s' u = get_thread s u)) as Hset.
  { intros v. destruct (sinv_thread s Q SL None t (set_affinity v) th (wf_inv _ _ _ _ HW) Eth) as (s' & E & HI' & HO & Ht' & Hu & Hq); [done..|].
    exists s'. split; [done|]. split; [|split; [intros c; unfold cur_of; by rewrite Hq|done]].
    eapply wfl_step; [exact HW|done|done|by eapply tkeep_one|apply HW]. }
  destruct (m =? 0).
  - destruct (Hset 0) as (s' & -> & H1 & H2 & H3). by exists s', KERNEL_OK.
  - destruct (_ =? 0); [by exists s, (- EINVAL)|]. destruct (Hset (Z.land m (u32 (Z.shiftl 1 CONFIG_MAX_CPUS) - 1))) as (s' & -> & H1 & H2 & H3).
    by exists s', KERNEL_OK.
Qed.

Lemma idle_balance_wf s Q SL c : wfs s Q SL → idle_lowest s Q → is_cpu c → smp_cpu_online s c = true →
  ∃ s' Q' Q1, smp_idle_balance c s = Some s' ∧ wfs s' Q' SL ∧ balanced s Q Q1 ∧ balanced s Q1 Q' ∧ skeep s s'.
Proof.
  intros HW Hlow Hc Hoc. destruct (wf_lb _ _ _ _ HW) as [Hl Hi]. unfold smp_idle_balance.
  rewrite Z.geb_leb, (proj2 (Z.leb_gt _ _)) by (by destruct Hc).
  destruct (proj2 (zlookup_is_Some (lb_state s) c)) as [l El]; [rewrite Hl; exact Hc|]. rewrite El, some_bind.
  assert (∃ s1 Q1, (if negb (lb_pending l =? 0) then
      ls ← zupdate (lb_state s) c (LB (lb_count l) (lb_interval l) 0); r ← smp_load_balance (upd_lb ls s); Some r.1 else Some s) = Some s1 ∧
    wfs s1 Q1 SL ∧ balanced s Q Q1 ∧ skeep s s1 ∧ idle_lowest s1 Q1) as (s1 & Q1 & -> & HW1 & HB1 & HK1 & Hlow1).
  { destruct (negb _); [|exists s, Q; split; [done|]; split; [done|]; split; [by left|done]].
    rewrite zupdate_total by (rewrite Hl; exact Hc). rewrite some_bind. set (s0 := upd_lb _ s).
    assert (wfs s0 Q SL) as HW0.
    { apply (wfl_same s); try done; [apply HW| |apply HW]. cbn. split; [by rewrite length_insert|].
      intros c' l'. destruct (decide (c' = c)) as [->|Hne].
      - rewrite zlookup_insert_eq by (rewrite Hl; exact Hc). intros [= <-]. exact (Hi c l El).
      - rewrite zlookup_insert_ne by (destruct Hc; lia). apply Hi. }
    assert (skeep s s0) as HK0 by done.
    destruct (load_balance_wf s0 Q SL HW0 (idle_lowest_skeep _ _ _ HK0 Hlow)) as (s1 & Q1 & -> & HW1 & HB1 & HK1 & Hl1). rewrite some_bind.
    exists s1, Q1. split; [done|]. split; [done|]. split; [by apply (balanced_skeep s s0)|]. split; [by eapply skeep_trans|done]. }
  rewrite some_bind. destruct (nr_of_eq s1 Q1 SL (si_rep _ _ _ _ (wf_inv _ _ _ _ HW1)) c Hc) as (q & -> & _). rewrite some_bind.
  destruct (_ =? 0).
  - assert (smp_cpu_online s1 c = true) as Ho1 by (unfold smp_cpu_online; by rewrite (sk_online _ _ HK1)).
    destruct (work_steal_wf s1 Q1 SL c HW1 Hlow1 Hc Ho1) as (s2 & Q2 & -> & HW2 & HB2 & HK2 & _). rewrite some_bind.
    exists s2, Q2, Q1. split; [done|]. split; [done|]. split; [done|]. split; [by apply (balanced_skeep s s1)|by eapply skeep_trans].
  - exists s1, Q1, Q1. split; [done|]. split; [done|]. split; [done|]. split; [by left|done].
Qed.
