(* ===== verification/SchedSystem.v ===== *)
(** * The scheduler as a system: calls, reachable states, safety

    The calls of the scheduler as a transition system.  The queues are read back
    from the pointers with [ready_list] and [sleep_list]. *)

From stdpp Require Import sorting.
From S2P Require Import Prelude KList OrdList Bitmap SchedTypes Sched Threads Smp Sleep.
From S2P Require Import SchedRep SchedInv SchedOps SchedCalls SchedThreads SchedCreate SchedSleep SchedInit SchedSmp.

Set Default Goal Selector "!".

(** ** Reading the queues *)

Definition LIST_FUEL : nat := Z.to_nat 257.

Definition ready_list (s : sched) (c p : Z) : list Z :=
  omap (λ a, rq_entry (Some a)) (default [] (list_for_each LIST_FUEL (Some (RqHead c p)) (snodes s))).

Definition sleep_list (s : sched) (c : Z) : list Z :=
  omap (λ a, sleep_entry (Some a)) (default [] (list_for_each LIST_FUEL (Some (SleepHead c)) (snodes s))).

Lemma omap_entry (f : Z → saddr) (e : option saddr → option Z) (l : list Z) : (∀ t, e (Some (f t)) = Some t) →
  omap (λ a, e (Some a)) (f <$> l) = l.
Proof. intros He. induction l as [|t l IH]; [done|]. cbn. by rewrite He, IH. Qed.

Lemma bounded_list (l : list Z) : NoDup l → (∀ t, t ∈ l → is_tid t) → (length l < LIST_FUEL)%nat.
Proof.
  intros Hn Ht. assert (l ⊆+ seqZ 0 CONFIG_MAX_THREADS) as Hs%submseteq_length.
  { apply NoDup_submseteq; [done|]. intros t Hin. apply elem_of_seqZ. specialize (Ht t Hin). unfold is_tid in Ht. lia. }
  rewrite length_seqZ in Hs. unfold CONFIG_MAX_THREADS, LIST_FUEL in *. lia.
Qed.

Lemma ready_list_eq s Q SL c p : rq_rep s Q SL → is_cpu c → is_prio p → ready_list s c p = Q c p.
Proof.
  intros HR Hc Hp. unfold ready_list. rewrite (list_for_each_spec _ _ _ _ (rr_dll _ _ _ HR c p Hc Hp)).
  - cbn [default id]. by apply omap_entry.
  - rewrite length_fmap. apply bounded_list; [by eapply rr_nodup|]. intros t. by eapply rr_queued_tid.
Qed.

Lemma sleep_list_eq s Q SL c : rq_rep s Q SL → is_cpu c → sleep_list s c = SL c.
Proof.
  intros HR Hc. unfold sleep_list. pose proof (rr_sdll _ _ _ HR c Hc) as Hd. rewrite (list_for_each_spec _ _ _ _ Hd).
  - cbn [default id]. by apply omap_entry.
  - rewrite length_fmap. apply bounded_list; [|intros t; by eapply (rr_sleep _ _ _ HR)].
    destruct (dll_NoDup _ _ _ Hd) as [Hn _]. by apply NoDup_fmap_1 in Hn.
Qed.

Lemma rq_rep_ext s Q SL Q' SL' : (∀ c p, is_cpu c → is_prio p → Q' c p = Q c p) → (∀ c, is_cpu c → SL' c = SL c) →
  rq_rep s Q SL → rq_rep s Q' SL'.
Proof.
  intros E F [R1 R2 R3 R4 R5 R6 R7 R8].
  assert (∀ c, is_cpu c → qall Q' c = qall Q c) as Eq.
  { intros c Hc. apply bind_ext_in. intros p Hp%elem_of_seqZ. apply E; [done|]. unfold is_prio. lia. }
  split; try done.
  - destruct R3 as (M & HM & [H1 H2 H3 H4 H5]). exists M. split; [done|]. split; try done.
    + intros c p Hc Hp. rewrite E by done. by apply H1.
    + intros t Ht Hun. apply H2; [done|]. intros c p Hc Hp. rewrite <- E by done. by apply Hun.
    + intros c Hc. rewrite F by done. by apply H3.
    + intros t Ht Haw. apply H4; [done|]. intros c Hc. rewrite <- F by done. by apply Haw.
  - intros c p t Hc Hp. rewrite E by done. by apply R5.
  - intros c t Hc. rewrite F by done. by apply R6.
  - intros c q Hc Hq. destruct (R7 c q Hc Hq) as [? Hb]. split; [done|]. intros p Hp. rewrite E by done. by apply Hb.
  - intros c q Hc Hq. rewrite Eq by done. by apply R8.
Qed.

(** The invariant, on the queues that the pointers spell out. *)
Definition sched_ok (s : sched) : Prop := wfs s (ready_list s) (sleep_list s).

Lemma wfs_sched_ok s Q SL : wfs s Q SL → sched_ok s.
Proof.
  intros [[HR Hcls HC] H2 H3 H4 H5 H6 H7].
  assert (∀ c p, is_cpu c → is_prio p → ready_list s c p = Q c p) as E by (intros; by eapply ready_list_eq).
  assert (∀ c, is_cpu c → sleep_list s c = SL c) as F by (intros; by eapply sleep_list_eq).
  split; try done.
  - split; [by eapply rq_rep_ext|done|]. eapply cinv_ext; [exact HC|done..| |].
    + intros c t Hc. unfold queued. split; intros (p & Hp & Hin); exists p; (split; [done|]); by rewrite E in * by done.
    + intros c t Hc. unfold asleep. by rewrite F.
  - intros c Hc. rewrite F by done. by apply H5.
Qed.

(** ** The calls *)

Inductive sop :=
  | OStart (c : Z) | OStartSecondary (c : Z) | OSchedule (c : Z) | OTimer (c : Z) | OIrqExit (c : Z)
  | OPreemptDisable (c : Z) | OPreemptEnable (c : Z) | OSuspend (c t : Z) | OResume (c t : Z) | OSetPriority (c t p : Z)
  | OSleep (c ticks : Z) | OWake (c t : Z) | OExit (c : Z) | OCleanup
  | OBalance | ONeedBalance | OMigrateStep (src dst : Z) | OBalanceDone (src dst m : Z) | OSteal (c : Z) | OIdleBalance (c : Z) | OMigrate (src dst pr t : Z) | OAffinity (t m : Z)
  | OCreate (c : Z) (nm : list Z) (ent arg p : Z) (pol : KThreadPolicy_t) (size : Z).

Section system.
Context {A : Type} `{StackSlab A} (heap_start heap_end : Z).

Definition sched_call (o : sop) (s : sched) : option sched :=
  match o with
  | OStart c => scheduler_start c s
  | OStartSecondary c => scheduler_start_secondary c s
  | OSchedule c => do_schedule c s
  | OTimer c => timer_interrupt c s
  | OIrqExit c => scheduler_irq_exit_check c s
  | OPreemptDisable c => preempt_disable c s
  | OPreemptEnable c => preempt_enable c s
  | OSuspend c t => r ← kthread_suspend c t s; Some r.1
  | OResume c t => r ← kthread_resume c t s; Some r.1
  | OSetPriority c t p => r ← kthread_set_priority c t p s; Some r.1
  | OSleep c n => kthread_sleep_ticks c n s
  | OWake c t => timer_wakeup_thread c (Some t) s
  | OExit c => kthread_exit c s
  | OBalance => r ← smp_load_balance s; Some r.1
  | ONeedBalance => r ← need_load_balance 0 s; Some r.1
  | OMigrateStep src dst => r ← migrate_step src dst s; Some r.1
  | OBalanceDone src dst m => balance_done src dst m s
  | OSteal c => r ← smp_work_steal c s; Some r.1
  | OIdleBalance c => smp_idle_balance c s
  | OMigrate src dst pr t => r ← smp_migrate_thread src dst pr t s; Some r.1
  | OAffinity t m => r ← smp_set_affinity t m s; Some r.1
  | OCleanup | OCreate _ _ _ _ _ _ _ => Some s
  end.

Definition run_op (o : sop) (k : kthreads A) : option (kthreads A) :=
  match o with
  | OCreate c nm ent arg p pol size => r ← kthread_create heap_start heap_end c (Some nm) ent arg p pol size k; Some r.1
  | OCleanup => kthread_cleanup_dead_stacks k
  | o => on_sched (sched_call o) k
  end.

(** A ready thread is handled by the CPU on whose queue it waits, the idle
    threads neither sleep nor exit nor get suspended or migrated, and balancing
    runs when no other thread has the priority of the idle threads.  A turn of
    the migration loop takes any two CPUs, as the loads it was planned with may be
    out of date; it does not run when one thread waits on the source. *)
Definition on_own_cpu (s : sched) (c t : Z) : Prop :=
  st_of s t = Some KTHREAD_STATE_READY → queued (ready_list s) c t.

Definition op_ok (o : sop) (k : kthreads A) : Prop :=
  let s := kt_sched k in
  match o with
  | OStart c | OStartSecondary c => is_cpu c ∧ cur_of s c = None
  | OSchedule c | OIrqExit c | OPreemptEnable c => is_cpu c ∧ started s c
  | OTimer c | OPreemptDisable c => is_cpu c
  | OSuspend c t => is_cpu c ∧ 0 <= t ∧ on_own_cpu s c t ∧ not_idle s t
  | OResume c t => is_cpu c ∧ 0 <= t
  | OSetPriority c t p => is_cpu c ∧ 0 <= t ∧ is_prio p ∧ on_own_cpu s c t
  | OSleep c n => is_cpu c ∧ ∃ t, cur_of s c = Some t ∧ not_idle s t
  | OWake c t => is_cpu c ∧ is_tid t
  | OExit c => is_cpu c ∧ ∃ t, cur_of s c = Some t ∧ not_idle s t
  | OCleanup => True
  | OBalance => idle_lowest s (ready_list s)
  | ONeedBalance => True
  | OMigrateStep src dst => is_cpu src ∧ is_cpu dst ∧ src ≠ dst ∧ idle_lowest s (ready_list s) ∧ nr_of s src ≠ 1
  | OBalanceDone src dst m => is_cpu src ∧ is_cpu dst
  | OSteal c | OIdleBalance c => is_cpu c ∧ smp_cpu_online s c = true ∧ idle_lowest s (ready_list s)
  | OMigrate src dst pr t => 0 <= src ∧ 0 <= dst ∧ 0 <= t ∧ on_own_cpu s src t ∧ not_idle s t
  | OAffinity t m => 0 <= t
  | OCreate c nm ent arg p pol size => is_cpu c ∧ is_prio p ∧ name_ok nm ∧ quiet s c ∧
      (stack_alloc_by_scheduler heap_start heap_end (clamp_stack size) k).2 ≠ 0
  end.

Lemma call_ok_sched f s : call_ok f s → ∃ s', f s = Some s' ∧ sched_ok s'.
Proof. intros (s' & Q & SL & E & HW & _). exists s'. split; [done|]. by eapply wfs_sched_ok. Qed.

Lemma suspend_ok s Q SL c t : wfs s Q SL → is_cpu c → 0 <= t → (st_of s t = Some KTHREAD_STATE_READY → queued Q c t) → not_idle s t →
  ∃ s' r, kthread_suspend c t s = Some (s', r) ∧ sched_ok s' ∧ (r = KERNEL_OK ↔ st_of s t = Some KTHREAD_STATE_READY).
Proof.
  intros HW Hc Ht Hon Hni. pose proof (si_rep _ _ _ _ (wf_inv _ _ _ _ HW)) as HR. destruct (decide (t < CONFIG_MAX_THREADS)) as [Hlt|Hge].
  - destruct (rr_thread _ _ _ HR t) as (th & Hth); [done|]. destruct (decide (tstate th = KTHREAD_STATE_READY)) as [Hst|Hst].
    + assert (st_of s t = Some KTHREAD_STATE_READY) as Est by (apply st_of_Some; eauto).
      destruct (suspend_wf s Q SL c t th HW Hc (Hon Est) Hni Hth) as (s' & xs & ys & E & _ & HW' & _).
      exists s', KERNEL_OK. split; [done|]. split; [by eapply wfs_sched_ok|done].
    + exists s, (- EINVAL). unfold kthread_suspend. rewrite by_id by done. rewrite Hth, some_bind, bool_decide_eq_false_2 by done.
      split; [done|]. split; [by eapply wfs_sched_ok|]. split; [done|]. unfold st_of. rewrite Hth. by intros [= ?].
  - exists s, (- ESRCH). unfold kthread_suspend, get_thread_by_id. rewrite Z.geb_leb, (proj2 (Z.leb_le _ _)) by lia.
    split; [done|]. split; [by eapply wfs_sched_ok|]. split; [done|]. intros (th & E & _)%st_of_Some.
    pose proof (rr_tid _ _ _ HR t th E) as [_ ?]. lia.
Qed.

Lemma set_priority_ok s Q SL c t p : wfs s Q SL → is_cpu c → 0 <= t → is_prio p → (st_of s t = Some KTHREAD_STATE_READY → queued Q c t) →
  ∃ s' r, kthread_set_priority c t p s = Some (s', r) ∧ sched_ok s' ∧ (r = KERNEL_OK ↔ t < CONFIG_MAX_THREADS).
Proof.
  intros HW Hc Ht Hp Hon. destruct (decide (t < CONFIG_MAX_THREADS)) as [Hlt|Hge].
  - destruct (set_priority_wf s Q SL c t p HW Hc (conj Ht Hlt) Hp Hon) as (s' & Q' & E & HW' & _).
    exists s', KERNEL_OK. split; [done|]. split; [by eapply wfs_sched_ok|done].
  - exists s, (- ESRCH). unfold kthread_set_priority, get_thread_by_id. rewrite Z.geb_leb, (proj2 (Z.leb_le _ _)) by lia.
    split; [done|]. split; [by eapply wfs_sched_ok|]. split; [done|]. intros. lia.
Qed.

Lemma cleanup_ok n i (k : kthreads A) Q SL : 0 <= i → i + Z.of_nat n = CONFIG_MAX_THREADS → wfs (kt_sched k) Q SL →
  ∃ k', cleanup_loop n i k = Some k' ∧ wfs (kt_sched k') Q SL.
Proof.
  revert i k. induction n as [|n IH]; intros i k Hi Hn HW; cbn [cleanup_loop]; [by exists k|].
  pose proof HW as [HI _ _ _ Hso _ _]. destruct (rr_thread _ _ _ (si_rep _ _ _ _ HI) i) as (th & Ht); [unfold is_tid; lia|]. rewrite Ht, some_bind.
  destruct (_ && _); [|rewrite some_bind; apply IH; [lia|lia|done]].
  destruct (sinv_thread (kt_sched k) Q SL None i (set_stack 0 0) th HI Ht) as (s' & E & HI' & HO & Ht' & Hu & Hq); [done..|].
  assert (kt_sched (stack_free_by_scheduler (stack_base th) (stack_size th) k) = kt_sched k) as Es.
  { unfold stack_free_by_scheduler, stack_free_slab. by repeat case_match. }
  rewrite <- Es in E. rewrite (on_sched_run _ _ _ E), some_bind. apply IH; [lia|lia|]. cbn [kt_sched upd_sched].
  eapply wfl_step; [exact HW|done|done|by eapply tkeep_one|done].
Qed.

Lemma create_ok c nm ent arg p pol size (k : kthreads A) Q SL : wfs (kt_sched k) Q SL → op_ok (OCreate c nm ent arg p pol size) k →
  ∃ k' r, kthread_create heap_start heap_end c (Some nm) ent arg p pol size k = Some (k', r) ∧ sched_ok (kt_sched k') ∧
    (r ≠ THREAD_ID_INVALID → wfs (kt_sched k') (qset c p (Q c p ++ [r]) Q) SL).
Proof.
  intros HW (Hc & Hp & Hnm & Hqt & Hst).
  destruct (create_spec heap_start heap_end c nm ent arg p pol size k Q SL) as (k' & r & E & HC & _ & Hinv);
    [apply HW|done|done|done|done|intros t th Et; by apply (wf_names _ _ _ _ HW t)|intros t Hd; exact (dead_nowhere _ _ _ _ t (wf_inv _ _ _ _ HW) Hd)|].
  exists k', r. split; [done|]. destruct (decide (r = THREAD_ID_INVALID)) as [->|Hne].
  - rewrite Hinv by done. split; [by eapply wfs_sched_ok|done].
  - assert (is_tid r) as Hti by (inversion HC; subst; try done; eapply rr_tid; [apply HW|done]).
    destruct (created_wf c ent arg p pol size _ _ Q SL r HW Hc Hp Hti HC) as [HW' _]. split; [by eapply wfs_sched_ok|done].
Qed.

(** Every call returns, with the invariant. *)
Lemma run_op_ok o (k : kthreads A) : sched_ok (kt_sched k) → op_ok o k → ∃ k', run_op o k = Some k' ∧ sched_ok (kt_sched k').
Proof.
  intros HW Ho. assert (∀ f, (∃ s', f (kt_sched k) = Some s' ∧ sched_ok s') → ∃ k', on_sched f k = Some k' ∧ sched_ok (kt_sched k')) as Hon.
  { intros f (s' & E & Hs). exists (upd_sched s' k). split; [by apply on_sched_run|done]. }
  assert (∀ f : sched → option (sched * Z), (∃ s' r, f (kt_sched k) = Some (s', r) ∧ sched_ok s') →
    ∃ k', on_sched (λ s, r ← f s; Some r.1) k = Some k' ∧ sched_ok (kt_sched k')) as Hon2.
  { intros f (s' & r & E & Hs). apply Hon. exists s'. by rewrite E. }
  destruct o; cbn [run_op op_ok] in *.
  - apply Hon. destruct Ho as [Hc Hn]. destruct (start_spec _ _ _ c HW Hc Hn) as (s' & i & n & Q1 & _ & _ & E & _ & HW' & _).
    exists s'. split; [exact E|by eapply wfs_sched_ok].
  - apply Hon. destruct Ho as [Hc Hn]. destruct (start_spec _ _ _ c HW Hc Hn) as (s' & i & n & Q1 & _ & _ & _ & E & HW' & _).
    exists s'. split; [exact E|by eapply wfs_sched_ok].
  - destruct Ho. apply Hon, call_ok_sched. eapply schedule_ok; [exact HW|by left|done..].
  - apply Hon, call_ok_sched. by eapply timer_interrupt_ok.
  - destruct Ho. apply Hon, call_ok_sched. by eapply irq_exit_ok.
  - apply Hon, call_ok_sched. by eapply preempt_disable_ok.
  - destruct Ho. apply Hon, call_ok_sched. by eapply preempt_enable_ok.
  - destruct Ho as (Hc & Ht & Hown & Hni). apply Hon2. destruct (suspend_ok _ _ _ c t HW Hc Ht Hown Hni) as (s' & r & E & Hs & _). by exists s', r.
  - destruct Ho as (Hc & Ht). apply Hon2. destruct (resume_wf _ _ _ c t HW Hc Ht) as (s' & Q' & r & E & Hs & _).
    exists s', r. split; [done|by eapply wfs_sched_ok].
  - destruct Ho as (Hc & Ht & Hp & Hown). apply Hon2. destruct (set_priority_ok _ _ _ c t p HW Hc Ht Hp Hown) as (s' & r & E & Hs & _). by exists s', r.
  - destruct Ho as (Hc & t & Hcur & Hni). apply Hon, call_ok_sched. by eapply sleep_ok.
  - destruct Ho. apply Hon, call_ok_sched. by eapply wakeup_thread_ok.
  - destruct Ho as (Hc & t & Hcur & Hni). apply Hon, call_ok_sched. by eapply exit_ok.
  - destruct (cleanup_ok (Z.to_nat CONFIG_MAX_THREADS) 0 k (ready_list (kt_sched k)) (sleep_list (kt_sched k))) as (k' & E & HW'); [lia|done|exact HW|].
    exists k'. split; [exact E|by eapply wfs_sched_ok].
  - apply Hon2. destruct (load_balance_wf _ _ _ HW Ho) as (s' & Q' & E & HW' & _). exists s', KERNEL_OK. split; [done|by eapply wfs_sched_ok].
  - apply Hon. destruct (need_balance_wf _ _ _ HW) as (s' & b & E & HW' & _). exists s'. cbn [sched_call]. rewrite E. split; [done|by eapply wfs_sched_ok].
  - destruct Ho as (Hs & Hd & Hne & Hlow & Hnr). apply Hon.
    destruct (nr_of_eq _ _ _ (si_rep _ _ _ _ (wf_inv _ _ _ _ HW)) src Hs) as (_ & _ & _ & En & _).
    destruct (migrate_step_wf src dst _ _ _ HW Hs Hd Hne Hlow ltac:(lia)) as (s' & b & Q' & E & HW' & _).
    exists s'. cbn [sched_call]. rewrite E. split; [done|by eapply wfs_sched_ok].
  - destruct Ho as (Hs & Hd). apply Hon. destruct (balance_done_wf _ _ _ src dst m HW Hs Hd) as (s' & E & HW' & _).
    exists s'. split; [done|by eapply wfs_sched_ok].
  - destruct Ho as (Hc & Hoc & Hlow). apply Hon2. destruct (work_steal_wf _ _ _ c HW Hlow Hc Hoc) as (s' & Q' & E & HW' & _).
    exists s', KERNEL_OK. split; [done|by eapply wfs_sched_ok].
  - destruct Ho as (Hc & Hoc & Hlow). apply Hon. destruct (idle_balance_wf _ _ _ c HW Hlow Hc Hoc) as (s' & Q' & Q1 & E & HW' & _).
    exists s'. split; [done|by eapply wfs_sched_ok].
  - destruct Ho as (Hs & Hd & Ht & Hown & Hni). apply Hon2.
    destruct (migrate_thread_wf _ _ _ src dst pr t HW Hs Hd Ht Hown Hni) as (s' & r & Q' & E & HW' & _).
    exists s', r. split; [done|by eapply wfs_sched_ok].
  - apply Hon2. destruct (set_affinity_wf _ _ _ t m HW Ho) as (s' & r & E & HW' & _). exists s', r. split; [done|by eapply wfs_sched_ok].
  - destruct (create_ok c nm ent arg p pol size k _ _ HW Ho) as (k' & r & E & Hs & _). exists k'. rewrite E. by split.
Qed.

(** ** Boot and reachable states *)

(** The calls of [kernel_main] that build the state of the scheduler; the
    kernel stops when [scheduler_init] fails. *)
Definition sched_boot (ent : Z) (k : kthreads A) : option (kthreads A) :=
  k ← on_sched (λ s, init_sleep_queues (Z.to_nat CONFIG_MAX_CPUS) 0 (upd_ticks 0 s)) k;
  r ← scheduler_init heap_start heap_end ent k;
  if r.2 =? KERNEL_OK then Some (upd_sched (smp_sched_init (kt_sched r.1)) r.1) else None.

Definition boot_image (k : kthreads A) : Prop := kt_initialized k = false ∧ sched_image (kt_sched k).

Lemma sched_boot_ok ent k k' : boot_image k → sched_boot ent k = Some k' → sched_ok (kt_sched k') ∧
  (∀ c, is_cpu c → cur_of (kt_sched k') c = None ∧ idle_of (kt_sched k') c = Some c).
Proof.
  intros [Hi Him]. unfold sched_boot. set (s0 := upd_ticks 0 (kt_sched k)).
  assert (sched_image s0) as Him0 by (destruct Him; by split).
  destruct (init_sleep_queues_spec (Z.to_nat CONFIG_MAX_CPUS) 0 s0) as (s1 & E1 & I1 & D1); [lia|done|apply Him0|].
  rewrite (on_sched_run (λ s, init_sleep_queues (Z.to_nat CONFIG_MAX_CPUS) 0 (upd_ticks 0 s)) k s1 E1), some_bind.
  destruct (scheduler_init_spec heap_start heap_end ent (upd_sched s1 k)) as (k1 & r & E2 & Hok & _);
    [done|by eapply sched_image_inits|done|]. rewrite E2, some_bind. cbn [fst snd].
  destruct (Z.eqb_spec r KERNEL_OK) as [->|]; [|done]. intros [= <-]. destruct (Hok eq_refl) as [HI _].
  destruct (idles_wfs _ HI) as (HW & Hc & Hid). split; [by eapply wfs_sched_ok|]. intros c Hc'. split; [by apply Hc|by apply Hid].
Qed.

Inductive sched_reach (ent : Z) : kthreads A → Prop :=
  | reach_boot k k' : boot_image k → sched_boot ent k = Some k' → sched_reach ent k'
  | reach_call o k k' : sched_reach ent k → op_ok o k → run_op o k = Some k' → sched_reach ent k'.

Lemma reach_ok ent k : sched_reach ent k → sched_ok (kt_sched k).
Proof.
  induction 1 as [k k' Hi E|o k k' _ IH Ho E]; [by destruct (sched_boot_ok ent k k' Hi E)|].
  destruct (run_op_ok o k IH Ho) as (k1 & E1 & H1). congruence.
Qed.
End system.
