(* ===== verification/SchedTheorems.v ===== *)
(** * Theorems about the scheduler *)

From stdpp Require Import sorting.
From S2P Require Import Prelude KList OrdList Bitmap SchedTypes Sched Threads Smp Sleep.
From S2P Require Import SchedRep SchedInv SchedOps SchedCalls SchedThreads SchedCreate SchedSleep SchedInit SchedSmp SchedSystem.

Set Default Goal Selector "!".

(** ** Reading the invariant *)

Section facts.
Context (s : sched) (HW : sched_ok s).

(** A ready thread waits in the one queue of its priority, or is an idle thread;
    a running one is the current thread of one CPU. *)
Lemma ready_once t : st_of s t = Some KTHREAD_STATE_READY →
  (∃ c th, is_cpu c ∧ get_thread s t = Some th ∧ t ∈ ready_list s c (prio th) ∧
     ∀ c' p', is_cpu c' → is_prio p' → t ∈ ready_list s c' p' → c' = c ∧ p' = prio th) ∨
  (∃ c, is_cpu c ∧ idle_of s c = Some t).
Proof using HW.
  intros Hst. destruct HW as [[HR _ HC] _ _ _ _ _ _].
  destruct (ci_wait _ _ _ _ _ _ HC t Hst) as [(c & Hc & p & Hp & Hin)|?]; [left|by right].
  destruct (rr_prio _ _ _ HR c p t Hc Hp Hin) as (th & Ht & <-). exists c, th. split; [done|]. split; [done|]. split; [done|].
  intros c' p' Hc' Hp' Hin'. exact (rr_once s (ready_list s) (sleep_list s) HR c' p' c (prio th) t Hc' Hp' Hc Hp Hin' Hin).
Qed.

Lemma queued_ready c p t : is_cpu c → is_prio p → t ∈ ready_list s c p → st_of s t = Some KTHREAD_STATE_READY.
Proof using HW. intros Hc Hp Hin. destruct HW as [[_ _ HC] _ _ _ _ _ _]. apply (ci_ready _ _ _ _ _ _ HC c t Hc). by exists p. Qed.

Lemma running_current t : st_of s t = Some KTHREAD_STATE_RUNNING ↔ ∃ c, is_cpu c ∧ cur_of s c = Some t.
Proof using HW.
  destruct HW as [[_ _ HC] _ _ _ _ _ _]. split; [apply (ci_run _ _ _ _ _ _ HC)|]. intros (c & Hc & E).
  destruct (ci_cur _ _ _ _ _ _ HC c t Hc E) as (x & Hx & _ & Hr). by rewrite (Hr ltac:(done)) in Hx.
Qed.

Lemma one_cpu c c' t : is_cpu c → is_cpu c' → cur_of s c = Some t → cur_of s c' = Some t → c = c'.
Proof using HW. destruct HW as [[_ _ HC] _ _ _ _ _ _]. apply (ci_inj _ _ _ _ _ _ HC). Qed.

Lemma asleep_queue t : st_of s t = Some KTHREAD_STATE_SLEEPING ↔ ∃ c, is_cpu c ∧ t ∈ sleep_list s c.
Proof using HW.
  destruct HW as [[_ _ HC] _ _ _ _ _ _]. split; [apply (ci_asleep _ _ _ _ _ _ HC)|]. intros (c & Hc & Hin).
  by apply (ci_sleep _ _ _ _ _ _ HC c t Hc).
Qed.
End facts.

(** ** The timer wakes who is due *)

Lemma wfs_sl_ext s Q SL SL' : (∀ c, is_cpu c → SL' c = SL c) → wfs s Q SL → wfs s Q SL'.
Proof.
  intros F HW. eapply (wfl_step s s Q SL); [exact HW| |done|done|].
  - destruct HW as [[HR Hcls HC] _ _ _ _ _ _]. split; [by eapply rq_rep_ext; [|exact F|exact HR]|done|].
    eapply cinv_ext; [exact HC|done..|]. intros c t Hc. unfold asleep. by rewrite F.
  - intros c Hc. rewrite F by done. by apply HW.
Qed.

Lemma slset_id c SL (c' : Z) : slset c (SL c) SL c' = SL c'.
Proof. unfold slset. by case_decide as E; [subst|]. Qed.

Lemma wakeup_loop_spec n c now s Q SL : wfs s Q SL → is_cpu c → ∃ s' Q' k, wakeup_loop n c now s = Some s' ∧
  wfs s' Q' (slset c (drop k (SL c)) SL) ∧ (k <= n)%nat ∧ (∀ c', cur_of s' c' = cur_of s c') ∧ tkeep s s' ∧
  (∀ t, t ∈ take k (SL c) → wake_of s t <= now ∧ queued Q' c t) ∧ (∀ c' t, is_cpu c' → queued Q c' t → queued Q' c' t) ∧
  ((k < n)%nat → ∀ t, head (drop k (SL c)) = Some t → now < wake_of s t).
Proof.
  revert s Q SL. induction n as [|n IH]; intros s Q SL HW Hc; cbn [wakeup_loop].
  { exists s, Q, 0%nat. split; [done|]. rewrite drop_0. split; [by eapply wfs_sl_ext; [intros; apply slset_id|]|].
    split; [lia|]. split; [done|]. split; [done|]. split; [by intros t ?%elem_of_nil|]. split; [done|lia]. }
  assert (∀ P : Prop, (∀ t, head (SL c) = Some t → now < wake_of s t) → ∃ s' Q' k, Some s = Some s' ∧
    wfs s' Q' (slset c (drop k (SL c)) SL) ∧ (k <= S n)%nat ∧ (∀ c', cur_of s' c' = cur_of s c') ∧ tkeep s s' ∧
    (∀ t, t ∈ take k (SL c) → wake_of s t <= now ∧ queued Q' c t) ∧ (∀ c' t, is_cpu c' → queued Q c' t → queued Q' c' t) ∧
    ((k < S n)%nat → ∀ t, head (drop k (SL c)) = Some t → now < wake_of s t)) as Hstop.
  { intros _ Hh. exists s, Q, 0%nat. split; [done|]. rewrite drop_0. split; [by eapply wfs_sl_ext; [intros; apply slset_id|]|].
    split; [lia|]. split; [done|]. split; [done|]. split; [by intros t ?%elem_of_nil|]. by split. }
  pose proof (si_rep _ _ _ _ (wf_inv _ _ _ _ HW)) as HR. pose proof (rr_sdll _ _ _ HR c Hc) as Hd.
  rewrite (list_empty_spec _ _ _ Hd), some_bind. destruct (SL c) as [|t l] eqn:El; [by apply (Hstop True)|].
  rewrite bool_decide_eq_false_2 by done. rewrite (get_next_nxt _ _ _ (dll_first _ _ _ Hd)), some_bind. cbn [fmap list_fmap head default sleep_entry id].
  rewrite some_bind. assert (is_tid t) as Hti by (apply (rr_sleep _ _ _ HR c t Hc); rewrite El; set_solver).
  destruct (rr_thread _ _ _ HR t Hti) as (th & Ht). rewrite Ht, some_bind.
  assert (wake_of s t = wakeup_tick th) as Ew by (unfold wake_of; by rewrite Ht). rewrite Z.gtb_ltb.
  destruct (Z.ltb_spec now (wakeup_tick th)) as [Hlt|Hge]; [apply (Hstop True); intros u [= <-]; by rewrite Ew|].
  destruct (wake_spec s Q SL c c t th [] l HW Hc Hc El Ht) as (h & s1 & s2 & E1 & E2 & E3 & HW2 & Hv & _ & HT2).
  unfold on_snodes at 1. rewrite E1, some_bind. cbn [scheduler_enqueue]. rewrite some_bind, E2, some_bind, E3, some_bind.
  destruct (IH s2 _ _ HW2 Hc) as (s3 & Q3 & k & E & HW3 & Hk & Hv3 & HT3 & Hin & Hkeep & Hrest). rewrite slset_eq in *. cbn [app] in *.
  assert (is_prio (prio th)) as Hp by (by eapply rr_prios).
  exists s3, Q3, (S k). split; [done|]. cbn [drop take]. split; [|split; [lia|split; [|split; [|split; [|split]]]]].
  - eapply wfs_sl_ext; [|exact HW3]. intros c' Hc'. unfold slset. by repeat case_decide.
  - intros c'. by rewrite Hv3, Hv.
  - by eapply tkeep_trans.
  - intros u [->|Hu]%elem_of_cons.
    + split; [lia|]. apply Hkeep; [done|]. apply queued_requeue; [done|done|by right].
    + rewrite <- (tkeep_wake s s2 u HT2). by apply Hin.
  - intros c' u Hc' Hu. apply Hkeep; [done|]. apply queued_requeue; [done|done|by left].
  - intros Hkn u Hu. rewrite <- (tkeep_wake s s2 u HT2). apply Hrest; [lia|done].
Qed.

(** What the interrupt does to the sleep queue of its CPU. *)
Lemma timer_wakes s c : sched_ok s → is_cpu c → let now := u64 (s_system_ticks s + 1) in
  ∃ s' k, timer_interrupt c s = Some s' ∧ sched_ok s' ∧ (k <= TIMER_IRQ_MAX_WAKEUPS)%nat ∧
    sleep_list s' c = drop k (sleep_list s c) ∧ (∀ c', is_cpu c' → c' ≠ c → sleep_list s' c' = sleep_list s c') ∧
    (∀ t, t ∈ take k (sleep_list s c) → wake_of s t <= now ∧ queued (ready_list s') c t) ∧
    ((k < TIMER_IRQ_MAX_WAKEUPS)%nat → ∀ t, t ∈ sleep_list s' c → now < wake_of s t).
Proof.
  intros HW Hc now. unfold timer_interrupt. fold now.
  destruct (wfl_same s (upd_ticks now s) (ready_list s) (sleep_list s) None) as [HW1 _]; try done; [apply HW..|].
  destruct (wakeup_loop_spec TIMER_IRQ_MAX_WAKEUPS c now (upd_ticks now s) _ _ HW1 Hc)
    as (s2 & Q2 & k & -> & HW2 & Hk & _ & HT2 & Hin & _ & Hrest). rewrite some_bind.
  destruct (tick_ok s2 _ _ c HW2 Hc) as (s3 & -> & HW3 & _). pose proof (si_rep _ _ _ _ (wf_inv _ _ _ _ HW3)) as HR3.
  exists s3, k. assert (∀ c', is_cpu c' → sleep_list s3 c' = slset c (drop k (sleep_list s c)) (sleep_list s) c') as Hsl by (intros; by eapply sleep_list_eq).
  split; [done|]. split; [by eapply wfs_sched_ok|]. split; [done|]. split; [by rewrite Hsl, slset_eq|].
  split; [intros c' Hc' Hne; by rewrite Hsl, slset_ne|]. split.
  - intros t Ht. destruct (Hin t Ht) as [Hw (p & Hp & Hq)]. split; [done|]. exists p. split; [done|].
    by rewrite (ready_list_eq s3 Q2 _ c p HR3 Hc Hp).
  - intros Hlt t. rewrite Hsl, slset_eq by done. pose proof (wf_sorted _ _ _ _ HW c Hc) as Hso.
    rewrite <- (take_drop k (sleep_list s c)), fmap_app in Hso. apply StronglySorted_app in Hso as (_ & _ & Hso).
    specialize (Hrest Hlt). change (wake_of (upd_ticks now s)) with (wake_of s) in Hrest. revert Hrest Hso. generalize (drop k (sleep_list s c)).
    intros [|u l] Hh Hso; [by intros ?%elem_of_nil|]. specialize (Hh u eq_refl). cbn in Hso. apply StronglySorted_cons in Hso as [Hle _].
    intros [->|Ht]%elem_of_cons; [done|]. rewrite Forall_forall in Hle. specialize (Hle (wake_of s t)).
    assert (wake_of s t ∈ wake_of s <$> l) by (apply list_elem_of_fmap; by exists t). specialize (Hle ltac:(done)). lia.
Qed.

(** ** The time slice *)

Definition rr_ticks (n : nat) (c t : Z) (s : sched) : option sched :=
  Nat.iter n (λ o, s ← o; sched_rr_tick c (Some t) s) (Some s).

Lemma rr_tick_step c t s th q : get_thread s t = Some th → get_q s c = Some q → policy th = KTHREAD_POLICY_RR → 1 < time_slice th →
  ∃ s', sched_rr_tick c (Some t) s = Some s' ∧ get_thread s' t = Some (set_slice (time_slice th - 1) th) ∧ get_q s' c = Some q.
Proof.
  intros Ht Hq Hp Hn. cbn [sched_rr_tick]. rewrite Ht, some_bind, bool_decide_eq_true_2 by done. cbn [andb].
  rewrite Z.gtb_ltb, (proj2 (Z.ltb_lt _ _)) by lia. destruct (on_thread_spec t (set_slice (time_slice th - 1)) s th Ht) as (s' & -> & Ht' & _ & Hr & _).
  rewrite some_bind, (proj2 (Z.eqb_neq _ _)) by lia. exists s'. split; [done|]. split; [done|].
  unfold get_q in *. by rewrite (f_equal cpu_queues Hr : cpu_queues s' = cpu_queues s).
Qed.

Lemma rr_tick_last c t s th q : get_thread s t = Some th → get_q s c = Some q → policy th = KTHREAD_POLICY_RR → time_slice th = 1 →
  ∃ s', sched_rr_tick c (Some t) s = Some s' ∧ get_thread s' t = Some (set_slice (time_slice_reload th) th) ∧ get_q s' c = Some (set_need 1 q).
Proof.
  intros Ht Hq Hp Hn. cbn [sched_rr_tick]. rewrite Ht, some_bind, bool_decide_eq_true_2 by done. cbn [andb]. rewrite Hn.
  change (1 >? 0) with true. cbv iota. destruct (on_thread_spec t (set_slice (1 - 1)) s th Ht) as (s1 & -> & Ht1 & _ & Hr1 & _).
  rewrite some_bind. change (1 - 1 =? 0) with true. cbv iota.
  destruct (on_thread_spec t (set_slice (time_slice_reload th)) s1 _ Ht1) as (s2 & -> & Ht2 & _ & Hr2 & _). rewrite some_bind.
  assert (get_q s2 c = Some q) as Hq2.
  { unfold get_q in *. rewrite (f_equal cpu_queues Hr2 : cpu_queues s2 = cpu_queues s1). by rewrite (f_equal cpu_queues Hr1 : cpu_queues s1 = cpu_queues s). }
  destruct (on_q_spec c (set_need 1) s2 q Hq2) as (s3 & E3 & Hq3 & _ & Hr3 & _). exists s3. split; [exact E3|]. split; [|done].
  unfold get_thread in *. by rewrite (f_equal thread_table Hr3 : thread_table s3 = thread_table s2).
Qed.

Lemma rr_ticks_before c t s th q n : get_thread s t = Some th → get_q s c = Some q → policy th = KTHREAD_POLICY_RR →
  Z.of_nat n < time_slice th → ∃ s', rr_ticks n c t s = Some s' ∧ get_thread s' t = Some (set_slice (time_slice th - Z.of_nat n) th) ∧ get_q s' c = Some q.
Proof.
  intros Ht Hq Hp. induction n as [|n IH]; intros Hn.
  - exists s. split; [done|]. rewrite Z.sub_0_r. split; [|done]. rewrite Ht. by destruct th.
  - destruct IH as (s1 & E1 & Ht1 & Hq1); [lia|].
    destruct (rr_tick_step c t s1 _ q Ht1 Hq1 Hp) as (s2 & E2 & Ht2 & Hq2); [change (1 < time_slice th - Z.of_nat n); lia|]. exists s2.
    split; [|split; [rewrite Ht2; unfold set_slice; cbn [time_slice]; do 2 f_equal; lia|done]]. unfold rr_ticks in *. rewrite Nat.iter_succ, E1, some_bind. done.
Qed.

(** ** Runs from an image *)

Section runs.
Context {A : Type} `{StackSlab A} (heap_start heap_end ent : Z) (image : kthreads A).

(** Boot, then calls. *)
Definition boot_calls (ops : list sop) : option (kthreads A) :=
  k ← sched_boot heap_start heap_end ent image; foldl (λ o op, k ← o; run_op heap_start heap_end op k) (Some k) ops.
Definition run_calls (ops : list sop) : kthreads A := default image (boot_calls ops).
Definition defined {B} (o : option B) : bool := match o with Some _ => true | None => false end.

Lemma reach_nil : boot_image image → defined (boot_calls []) = true → sched_reach heap_start heap_end ent (run_calls []).
Proof.
  intros Hi. unfold run_calls, boot_calls. destruct (sched_boot _ _ _ _) as [k0|] eqn:E0; [|done]. intros _. rewrite some_bind. cbn [foldl default id].
  by eapply reach_boot.
Qed.

Lemma reach_snoc ops o : sched_reach heap_start heap_end ent (run_calls ops) → op_ok heap_start heap_end o (run_calls ops) →
  defined (boot_calls (ops ++ [o])) = true → sched_reach heap_start heap_end ent (run_calls (ops ++ [o])).
Proof.
  intros Hr Ho Hd. unfold run_calls, boot_calls in *. destruct (sched_boot _ _ _ _) as [k0|] eqn:E0; [|done]. rewrite some_bind in *.
  rewrite foldl_app in *. cbn [foldl] in *. destruct (foldl _ _ ops) as [k1|]; [|done]. rewrite some_bind in *. cbn [default id] in *.
  destruct (run_op _ _ o k1) as [k2|] eqn:E2; [|done]. cbn [default id]. by eapply reach_call.
Qed.
End runs.

(** Decision procedures for the side conditions. *)
Definition quietb (s : sched) (c : Z) : bool :=
  match (preempt_count s).[c], get_q s c with
  | Some n, Some q => (0 <=? n) && (n <? 0xFFFFFFFF) && (negb (n =? 0) || (need_resched q =? 0))
  | _, _ => false
  end.

Lemma quietb_ok s c : quietb s c = true → quiet s c.
Proof.
  unfold quietb. destruct ((preempt_count s).[c]) as [n|] eqn:En; [|done]. destruct (get_q s c) as [q|] eqn:Eq; [|done].
  rewrite !andb_true_iff, orb_true_iff, negb_true_iff, Z.leb_le, Z.ltb_lt, Z.eqb_neq, Z.eqb_eq. intros [[? ?] ?]. exists n, q. split; [done|].
  split; [lia|]. split; [done|]. intros ->. tauto.
Qed.


(** ** A concrete kernel *)

Module Demo.

(** A pool of stacks that never runs dry, for the examples. *)
#[export] Instance counting_slab : StackSlab Z := {
  stack_slab_create := λ _ _ a, (a, KERNEL_OK);
  stack_slab_destroy := λ _ a, a;
  stack_slab_alloc := λ _ a, (a + 0x10000, a);
  stack_slab_free := λ _ _ a, a
}.

Definition zero_guard := Guard 0 0 0 0 false.
Definition zero_thread := KThread 0 0 KTHREAD_STATE_DEAD 0 0 0 0 0 KTHREAD_POLICY_FIFO 0 0 0 None 0 zero_guard (replicate 16 0).
Definition cpus := seqZ 0 CONFIG_MAX_CPUS.
Definition tids := seqZ 0 CONFIG_MAX_THREADS.
Definition addresses : list saddr :=
  (cpus ≫= λ c, RqHead c <$> seqZ 0 CONFIG_PRIORITY_LEVELS) ++ (SleepHead <$> cpus) ++
  (RqNode <$> tids) ++ (EdfNode <$> tids) ++ (SleepNode <$> tids) ++ (ProcHead <$> seqZ 0 8).

Definition image_sched : sched :=
  Sched (replicate 8 (RQ BITMAP256_INIT 0 None None 0)) (replicate 256 zero_thread)
    (list_to_map ((λ a, (a, LH None None)) <$> addresses)) (Registry None None (λ _, None)) (replicate 8 0) 3
    (replicate 8 (LB 0 0 0)) (replicate 8 (MStats 0 0 0 0)) 0 ∅ [] [].

Definition image : kthreads Z := KT image_sched 0x100000 false 0 false.

Lemma image_nodes a : node_ok a → a ∈ dom (snodes image_sched).
Proof.
  intros Ha. cbn [snodes image_sched]. rewrite dom_list_to_map_L, elem_of_list_to_set, <- list_fmap_compose.
  apply list_elem_of_fmap. exists a. split; [done|]. unfold addresses. rewrite !elem_of_app.
  destruct a as [c p|t|t|t|c|p]; cbn in Ha; unfold is_cpu, is_prio, is_tid in Ha.
  - left. apply list_elem_of_bind. exists c. split; [|apply elem_of_seqZ; lia]. apply list_elem_of_fmap. exists p. split; [done|]. apply elem_of_seqZ. lia.
  - right. right. left. apply list_elem_of_fmap. exists t. split; [done|]. apply elem_of_seqZ. lia.
  - right. right. right. left. apply list_elem_of_fmap. exists t. split; [done|]. apply elem_of_seqZ. lia.
  - right. right. right. right. left. apply list_elem_of_fmap. exists t. split; [done|]. apply elem_of_seqZ. lia.
  - right. left. apply list_elem_of_fmap. exists c. split; [done|]. apply elem_of_seqZ. lia.
  - done.
Qed.

Lemma zlookup_replicate {B} n (x : B) i y : (replicate n x).[i] = Some y → y = x.
Proof. unfold zlookup. destruct (0 <=? i); [|done]. by intros [-> _]%lookup_replicate. Qed.

Lemma image_ok : boot_image image.
Proof.
  split; [done|]. split; try done.
  - intros c q Hq. apply zlookup_replicate in Hq as ->. split; [done|]. repeat constructor; lia.
  - apply image_nodes.
  - intros t th Ht. by apply zlookup_replicate in Ht as ->.
  - intros t th Ht. by apply zlookup_replicate in Ht as ->.
Qed.

Definition ENTRY : Z := 0x80000.

Definition boot : list sop → option (kthreads Z) := boot_calls 0x100000 0x200000 ENTRY image.
Definition run : list sop → kthreads Z := run_calls 0x100000 0x200000 ENTRY image.

Lemma create_op_ok c ent arg p pol size (k : kthreads Z) : is_cpu c → is_prio p → quietb (kt_sched k) c = true →
  negb ((stack_alloc_by_scheduler 0x100000 0x200000 (clamp_stack size) k).2 =? 0) = true →
  op_ok 0x100000 0x200000 (OCreate c idle_name ent arg p pol size) k.
Proof.
  intros Hc Hp Hq Hs. split; [done|]. split; [done|]. split; [apply name_ok_idle|]. split; [by apply quietb_ok|].
  intros E. rewrite E in Hs. done.
Qed.
End Demo.
Import Demo.

(** Three round-robin threads on CPU 0: 8 and 9 at priority 10, 10 at 20. *)
Definition demo_ops : list sop :=
  [OCreate 0 idle_name ENTRY 0 10 KTHREAD_POLICY_RR 8192; OCreate 0 idle_name ENTRY 0 10 KTHREAD_POLICY_RR 16384;
   OCreate 0 idle_name ENTRY 0 20 KTHREAD_POLICY_RR 16384].

Lemma demo_created : sched_reach 0x100000 0x200000 ENTRY (run demo_ops).
Proof.
  apply (reach_snoc _ _ _ _ [OCreate 0 idle_name ENTRY 0 10 KTHREAD_POLICY_RR 8192; OCreate 0 idle_name ENTRY 0 10 KTHREAD_POLICY_RR 16384]);
    [|apply create_op_ok; [done|done|by vm_compute..]|by vm_compute].
  apply (reach_snoc _ _ _ _ [OCreate 0 idle_name ENTRY 0 10 KTHREAD_POLICY_RR 8192]); [|apply create_op_ok; [done|done|by vm_compute..]|by vm_compute].
  apply (reach_snoc _ _ _ _ []); [|apply create_op_ok; [done|done|by vm_compute..]|by vm_compute].
  apply reach_nil; [exact image_ok|by vm_compute].
Qed.

Lemma demo_started : sched_reach 0x100000 0x200000 ENTRY (run (demo_ops ++ [OStart 0])).
Proof. apply reach_snoc; [exact demo_created|split; [done|by vm_compute]|by vm_compute]. Qed.

Lemma top_picks Q c i n Q1 p t : is_top Q c p t → picks Q c i n Q1 → n = t.
Proof.
  intros Htop HP. destruct HP as [p' t' Ht|Hem]; [by destruct (is_top_unique _ _ _ _ _ _ Htop Ht)|].
  assert (t ∈ qall Q c) as Hin. { apply elem_of_qall. exists p. split; [apply Htop|]. apply head_Some_elem_of, Htop. }
  rewrite Hem in Hin. by apply elem_of_nil in Hin.
Qed.

(** A check over the priorities above [p]. *)
Definition topb (s : sched) (c p t : Z) : bool :=
  bool_decide (head (ready_list s c p) = Some t) &&
  forallb (λ q, bool_decide (ready_list s c q = [])) (seqZ (p + 1) (CONFIG_PRIORITY_LEVELS - p - 1)).

Lemma top_check s c p t : is_prio p → topb s c p t = true → is_top (ready_list s) c p t.
Proof.
  intros Hp [Hh%bool_decide_eq_true Hall]%andb_true_iff. split; [done|]. split; [done|]. intros p' Hp'. rewrite forallb_forall in Hall. specialize (Hall p').
  apply bool_decide_eq_true in Hall; [done|]. apply list_elem_of_In, elem_of_seqZ. unfold is_prio in Hp. lia.
Qed.

Definition not_idleb (s : sched) (t : Z) : bool := forallb (λ c, bool_decide (idle_of s c ≠ Some t)) (seqZ 0 CONFIG_MAX_CPUS).

Lemma not_idle_check s t : not_idleb s t = true → not_idle s t.
Proof.
  intros Hall c Hc. unfold not_idleb in Hall. rewrite forallb_forall in Hall. specialize (Hall c). apply bool_decide_eq_true in Hall; [done|].
  apply list_elem_of_In, elem_of_seqZ. unfold is_cpu in Hc. lia.
Qed.

Lemma demo_top : is_top (ready_list (kt_sched (run (demo_ops ++ [OStart 0])))) 0 10 8.
Proof. apply top_check; [by unfold is_prio|vm_compute; reflexivity]. Qed.

(** ** Safety *)

(** C2: from the boot of the kernel on, every call of the scheduler that [op_ok]
    allows in a reachable state (a switch, a timer interrupt, the creation,
    suspension, resumption or exit of a thread, a change of priority, sleeping,
    waking, balancing, migration) returns, never follows a bad pointer, and leaves
    the ready queues, bitmaps, counters and thread states consistent.  [op_ok]
    asks that a ready thread is suspended, changes priority or is migrated by the
    CPU on whose queue it waits, that the idle threads do not sleep, exit, or get
    suspended or migrated, that switches happen on CPUs that have started, that a
    stack is available for a new thread and its CPU is not about to switch, and
    that balancing runs while only idle threads have priority 0, a turn of its
    loop not with a single thread waiting on the source.  [Runs] has runs that
    break the state without these.  A call is one transition, the turns of the
    migration loop are one each. *)
Theorem sched_calls_safe {A} `{StackSlab A} (heap_start heap_end ent : Z) (o : sop) (k : kthreads A) :
  sched_reach heap_start heap_end ent k → op_ok heap_start heap_end o k →
  ∃ k', run_op heap_start heap_end o k = Some k' ∧ sched_ok (kt_sched k').
Proof. intros Hr Ho. apply run_op_ok; [by eapply reach_ok|done]. Qed.

Lemma sched_calls_safe_witness : ∃ k', run_op 0x100000 0x200000 (OSchedule 0) (run (demo_ops ++ [OStart 0])) = Some k' ∧ sched_ok (kt_sched k').
Proof.
  apply (sched_calls_safe 0x100000 0x200000 ENTRY); [exact demo_started|]. split; [done|]. exists 10. by vm_compute.
Defined.

(** C4: in every state that the kernel reaches by allowed calls ([op_ok]) a ready
    thread waits in exactly one queue, the one of its priority, unless it is the
    idle thread of a CPU; everything in a queue is ready; the running threads are
    the current threads of the CPUs, one each; the sleeping threads are those of
    the sleep queues.  A creation that fails for want of a stack is not allowed:
    it leaves a ready thread in no queue ([Runs.failed_create_leaks_block]). *)
Theorem no_thread_lost {A} `{StackSlab A} (heap_start heap_end ent : Z) (k : kthreads A) (t : Z) :
  sched_reach heap_start heap_end ent k → let s := kt_sched k in
  (st_of s t = Some KTHREAD_STATE_READY →
     (∃ c th, is_cpu c ∧ get_thread s t = Some th ∧ t ∈ ready_list s c (prio th) ∧
        ∀ c' p', is_cpu c' → is_prio p' → t ∈ ready_list s c' p' → c' = c ∧ p' = prio th) ∨
     (∃ c, is_cpu c ∧ idle_of s c = Some t)) ∧
  (∀ c p, is_cpu c → is_prio p → t ∈ ready_list s c p → st_of s t = Some KTHREAD_STATE_READY) ∧
  (st_of s t = Some KTHREAD_STATE_RUNNING ↔ ∃ c, is_cpu c ∧ cur_of s c = Some t) ∧
  (∀ c c', is_cpu c → is_cpu c' → cur_of s c = Some t → cur_of s c' = Some t → c = c') ∧
  (st_of s t = Some KTHREAD_STATE_SLEEPING ↔ ∃ c, is_cpu c ∧ t ∈ sleep_list s c).
Proof.
  intros Hr s. pose proof (reach_ok _ _ _ _ Hr) as HW. split; [by apply ready_once|]. split; [intros c p; by apply queued_ready|].
  split; [by apply running_current|]. split; [intros c c'; by apply one_cpu|by apply asleep_queue].
Qed.

Lemma no_thread_lost_witness : let s := kt_sched (run (demo_ops ++ [OStart 0])) in
  ∃ c th, is_cpu c ∧ get_thread s 8 = Some th ∧ 8 ∈ ready_list s c (prio th) ∧
    ∀ c' p', is_cpu c' → is_prio p' → 8 ∈ ready_list s c' p' → c' = c ∧ p' = prio th.
Proof.
  intros s. destruct (no_thread_lost 0x100000 0x200000 ENTRY (run (demo_ops ++ [OStart 0])) 8 demo_started) as [Hw _].
  destruct (Hw ltac:(vm_compute; reflexivity)) as [Hw'|(c & Hc & E)]; [exact Hw'|]. exfalso.
  assert (not_idle (kt_sched (run (demo_ops ++ [OStart 0]))) 8) as Hn by (apply not_idle_check; vm_compute; reflexivity). exact (Hn c Hc E).
Defined.

(** ** What a switch does *)

(** C3: [schedule] gives the CPU to the thread at the head of the highest
    occupied queue of the CPU (the idle thread when all are empty) and takes it
    out; a thread that was still running goes to the tail of the queue of its
    priority; no other queue of any CPU changes. *)
Theorem schedule_runs_highest_waiting {A} `{StackSlab A} (heap_start heap_end ent : Z) (k : kthreads A) (c p : Z) :
  sched_reach heap_start heap_end ent k → is_cpu c → cur_of (kt_sched k) c = Some p → let s := kt_sched k in
  ∃ s' n i pth Q1, do_schedule c s = Some s' ∧ sched_ok s' ∧ get_thread s p = Some pth ∧ idle_of s c = Some i ∧
    picks (ready_list s) c i n Q1 ∧ cur_of s' c = Some n ∧ st_of s' n = Some KTHREAD_STATE_RUNNING ∧
    ∀ c' p', is_cpu c' → is_prio p' → ready_list s' c' p' =
      requeue (bool_decide (tstate pth = KTHREAD_STATE_RUNNING) && bool_decide (p ≠ n)) c pth p Q1 c' p'.
Proof.
  intros Hr Hc Hcur s. pose proof (reach_ok _ _ _ _ Hr) as HW.
  destruct (schedule_wf s _ _ None c p HW (or_introl eq_refl) Hc Hcur) as (pth & i & s' & n & Q1 & rq & Hp & Hi & E & HS & HW').
  exists s', n, i, pth, Q1. split; [done|]. pose proof (wfs_sched_ok _ _ _ HW') as Hok. split; [done|]. split; [done|]. split; [done|].
  split; [apply HS|]. split; [apply HS|]. split; [apply running_current; [done|]; exists c; split; [done|apply HS]|].
  intros c' p' Hc' Hp'. rewrite <- (sw_rq _ _ _ _ _ _ _ _ _ _ _ HS). exact (ready_list_eq _ _ _ c' p' (si_rep _ _ _ _ (wf_inv _ _ _ _ HW')) Hc' Hp').
Qed.

Lemma schedule_runs_highest_waiting_witness : let s := kt_sched (run (demo_ops ++ [OStart 0])) in
  ∃ s', do_schedule 0 s = Some s' ∧ sched_ok s' ∧ cur_of s' 0 = Some 8.
Proof.
  intros s. destruct (schedule_runs_highest_waiting 0x100000 0x200000 ENTRY (run (demo_ops ++ [OStart 0])) 0 10 demo_started)
    as (s' & n & i & pth & Q1 & E & Hok & _ & _ & HP & Hcur & _); [done|by vm_compute|].
  exists s'. split; [exact E|]. split; [exact Hok|]. rewrite Hcur. f_equal.
  exact (top_picks _ 0 i n Q1 10 8 demo_top HP).
Defined.

(** C26: an interrupt of the timer wakes the sleeping threads of its CPU in the
    order of their wake-up times, sixteen at most; each of them was due and is
    ready on this CPU afterwards, and when fewer than sixteen were woken nobody
    who is due still sleeps there. *)
Theorem timer_wakes_due_threads {A} `{StackSlab A} (heap_start heap_end ent : Z) (k : kthreads A) (c : Z) :
  sched_reach heap_start heap_end ent k → is_cpu c → let s := kt_sched k in let now := u64 (s_system_ticks s + 1) in
  ∃ s' n, timer_interrupt c s = Some s' ∧ (n <= TIMER_IRQ_MAX_WAKEUPS)%nat ∧
    sleep_list s' c = drop n (sleep_list s c) ∧ (∀ c', is_cpu c' → c' ≠ c → sleep_list s' c' = sleep_list s c') ∧
    (∀ t, t ∈ take n (sleep_list s c) → wake_of s t <= now ∧ queued (ready_list s') c t) ∧
    ((n < TIMER_IRQ_MAX_WAKEUPS)%nat → ∀ t, t ∈ sleep_list s' c → now < wake_of s t).
Proof.
  intros Hr Hc s now. destruct (timer_wakes s c (reach_ok _ _ _ _ Hr) Hc) as (s' & n & E & _ & H'). by exists s', n.
Qed.

Lemma demo_sleep_reach : sched_reach 0x100000 0x200000 ENTRY (run ((demo_ops ++ [OStart 0]) ++ [OSleep 0 1])).
Proof.
  apply reach_snoc; [exact demo_started| |by vm_compute]. split; [done|]. exists 10. split; [vm_compute; reflexivity|]. apply not_idle_check. vm_compute. reflexivity.
Qed.

(** The sleeper wakes at the next tick. *)
Lemma timer_wakes_due_threads_witness : ∃ s', timer_interrupt 0 (kt_sched (run ((demo_ops ++ [OStart 0]) ++ [OSleep 0 1]))) = Some s' ∧
  sleep_list s' 0 = [].
Proof.
  destruct (timer_wakes_due_threads 0x100000 0x200000 ENTRY _ 0 demo_sleep_reach) as (s' & n & E & Hn & Hsl & _ & _ & Hrest); [done|].
  exists s'. split; [exact E|].
  assert (sleep_list (kt_sched (run ((demo_ops ++ [OStart 0]) ++ [OSleep 0 1]))) 0 = [10]) as Es by (by vm_compute).
  rewrite Es in Hsl. destruct n as [|n]; [|rewrite Hsl; by destruct n]. exfalso.
  specialize (Hrest ltac:(unfold TIMER_IRQ_MAX_WAKEUPS; lia) 10). rewrite Hsl in Hrest. specialize (Hrest ltac:(apply list_elem_of_singleton; done)).
  revert Hrest. by vm_compute.
Defined.

(** ** Time slices *)

(** A round-robin thread whose slice holds [n] ticks keeps its CPU for
    exactly [n] ticks of its class: each of the first [n - 1] takes one tick off
    the slice and asks for nothing, the last one refills the slice and requests a
    switch on this CPU. *)
Theorem rr_slice_lasts (s : sched) (c t : Z) (th : KThread_t) (q : PerCPUReadyQueue_t) :
  get_thread s t = Some th → get_q s c = Some q → policy th = KTHREAD_POLICY_RR → 0 < time_slice th →
  (∀ n, Z.of_nat n < time_slice th → ∃ s', rr_ticks n c t s = Some s' ∧
     get_thread s' t = Some (set_slice (time_slice th - Z.of_nat n) th) ∧ get_q s' c = Some q) ∧
  ∃ s', rr_ticks (Z.to_nat (time_slice th)) c t s = Some s' ∧
    get_thread s' t = Some (set_slice (time_slice_reload th) th) ∧ get_q s' c = Some (set_need 1 q).
Proof.
  intros Ht Hq Hp Hn. split; [intros n Hlt; by apply rr_ticks_before|].
  destruct (rr_ticks_before c t s th q (Z.to_nat (time_slice th - 1)) Ht Hq Hp) as (s1 & E1 & Ht1 & Hq1); [lia|].
  destruct (rr_tick_last c t s1 _ q Ht1 Hq1 Hp) as (s2 & E2 & Ht2 & Hq2); [unfold set_slice; cbn [time_slice]; lia|].
  exists s2. replace (Z.to_nat (time_slice th)) with (S (Z.to_nat (time_slice th - 1))) by lia.
  split; [|by split]. unfold rr_ticks in *. by rewrite Nat.iter_succ, E1, some_bind.
Qed.

Lemma rr_slice_lasts_witness : let s := kt_sched (run (demo_ops ++ [OStart 0])) in
  ∃ s' th q, get_thread s 10 = Some th ∧ rr_ticks 10 0 10 s = Some s' ∧ get_q s' 0 = Some (set_need 1 q).
Proof.
  intros s. destruct (get_thread s 10) as [th|] eqn:Et; [|by vm_compute in Et]. destruct (get_q s 0) as [q|] eqn:Eq; [|by vm_compute in Eq].
  assert (time_slice <$> get_thread s 10 = Some 10) as E10 by (vm_compute; reflexivity). rewrite Et in E10. injection E10 as E10.
  assert (policy <$> get_thread s 10 = Some KTHREAD_POLICY_RR) as Epo by (vm_compute; reflexivity). rewrite Et in Epo. injection Epo as Epo.
  destruct (rr_slice_lasts s 0 10 th q Et Eq Epo ltac:(lia)) as [_ (s' & E & _ & Hq)]. rewrite E10 in E. exists s', th, q.
  split; [reflexivity|]. split; [exact E|exact Hq].
Defined.

(** The adaptive interval between two attempts at balancing stays between 16
    and 318 schedules on every CPU; in particular it is never zero, so that the
    remainder taken at every tick is defined. *)
Theorem lb_interval_bounds {A} `{StackSlab A} (heap_start heap_end ent : Z) (k : kthreads A) (c : Z) (l : smp_lb_state_t) :
  sched_reach heap_start heap_end ent k → (lb_state (kt_sched k)).[c] = Some l → 16 <= lb_interval l <= 318.
Proof. intros Hr Hl. destruct (wf_lb _ _ _ _ (reach_ok _ _ _ _ Hr)) as [_ Hi]. exact (Hi c l Hl). Qed.

Lemma lb_interval_bounds_witness : ∃ l, (lb_state (kt_sched (run (demo_ops ++ [OStart 0])))).[0] = Some l ∧ 16 <= lb_interval l <= 318.
Proof.
  destruct ((lb_state (kt_sched (run (demo_ops ++ [OStart 0])))).[0]) as [l|] eqn:E; [|by vm_compute in E].
  exists l. split; [reflexivity|]. exact (lb_interval_bounds 0x100000 0x200000 ENTRY _ 0 l demo_started E).
Defined.

(** The interval leaves the limits that the constants announce. *)
Example interval_below_minimum : adapt_interval true (adapt_interval true LB_INTERVAL_DEF) < LB_INTERVAL_MIN.
Proof. by vm_compute. Qed.

Example interval_above_maximum : adapt_interval false 255 > LB_INTERVAL_MAX.
Proof. by vm_compute. Qed.

(** ** Balancing *)

(** Threads have moved from [src] to [dst] only, those that their affinity admits
    there, and none is lost; the queues of the other CPUs are the same. *)
Record threads_moved (s s' : sched) (src dst : Z) : Prop := ThreadsMoved {
  tmv_others : ∀ c p, is_cpu c → is_prio p → c ≠ src → c ≠ dst → ready_list s' c p = ready_list s c p;
  tmv_dst : ∀ t, queued (ready_list s') dst t → queued (ready_list s) dst t ∨ queued (ready_list s) src t ∧ allowed s t dst;
  tmv_all : ∀ t, queued (ready_list s) src t ∨ queued (ready_list s) dst t ↔ queued (ready_list s') src t ∨ queued (ready_list s') dst t
}.

Lemma ready_queues s Q SL : wfs s Q SL → (∀ c p, is_cpu c → is_prio p → ready_list s c p = Q c p) ∧
  ∀ c t, is_cpu c → queued (ready_list s) c t ↔ queued Q c t.
Proof.
  intros HW. assert (∀ c p, is_cpu c → is_prio p → ready_list s c p = Q c p) as Eq.
  { intros c p Hc Hp. exact (ready_list_eq _ _ _ c p (si_rep _ _ _ _ (wf_inv _ _ _ _ HW)) Hc Hp). }
  split; [done|]. intros c t Hc. unfold queued. split; intros (p & Hp & Hin); exists p; (split; [done|]); [by rewrite <- Eq|by rewrite Eq].
Qed.

Lemma moved_threads s s' Q' SL src dst : wfs s' Q' SL → is_cpu src → is_cpu dst → moved s src dst (ready_list s) Q' → threads_moved s s' src dst.
Proof.
  intros HW Hs Hd Hm. destruct (ready_queues s' Q' SL HW) as [Eq Eqq]. split.
  - intros c p Hc Hp H1 H2. rewrite Eq by done. by apply Hm.
  - intros t. rewrite Eqq by done. apply Hm.
  - intros t. rewrite !Eqq by done. split.
    + intros [Ht|Ht]; [by apply (mv_lost _ _ _ _ _ Hm)|right; by apply (mv_kept _ _ _ _ _ Hm)].
    + intros [Ht|Ht]; [left; by apply (mv_src _ _ _ _ _ Hm)|]. destruct (mv_dst _ _ _ _ _ Hm t Ht) as [?|[? _]]; [by right|by left].
Qed.

(** C27: in a reachable state in which only idle threads have priority 0
    ([idle_lowest]), balancing moves threads between two CPUs only, to a CPU that
    is online, moves only threads whose affinity admits that CPU, and loses none;
    the current threads stay.  This holds of a whole uninterrupted call and of
    each turn of its loop on its own, which is what one pair of locks covers: for
    any two CPUs, whatever has run since the loads were read, as long as not
    exactly one thread waits on the source.  The condition is needed: with another
    thread of priority 0 balancing takes the idle thread away
    ([Runs.balancing_moves_idle_thread]). *)
Theorem balancing_conserves_threads {A} `{StackSlab A} (heap_start heap_end ent : Z) (k : kthreads A) :
  sched_reach heap_start heap_end ent k → let s := kt_sched k in idle_lowest s (ready_list s) →
  (∃ s', smp_load_balance s = Some (s', KERNEL_OK) ∧ sched_ok s' ∧ (∀ c, cur_of s' c = cur_of s c) ∧
    ((∀ c p, is_cpu c → is_prio p → ready_list s' c p = ready_list s c p) ∨
     ∃ src dst, is_cpu src ∧ is_cpu dst ∧ src ≠ dst ∧ smp_cpu_online s dst = true ∧ threads_moved s s' src dst)) ∧
  (∀ src dst, is_cpu src → is_cpu dst → src ≠ dst → nr_of s src ≠ 1 →
    ∃ s' more, migrate_step src dst s = Some (s', more) ∧ sched_ok s' ∧ (∀ c, cur_of s' c = cur_of s c) ∧ threads_moved s s' src dst).
Proof.
  intros Hr s Hlow. pose proof (reach_ok _ _ _ _ Hr) as HW. split.
  - destruct (load_balance_wf s _ _ HW Hlow) as (s' & Q' & E & HW' & HB & HK & _).
    exists s'. split; [done|]. split; [by eapply wfs_sched_ok|]. split; [apply HK|].
    destruct HB as [->|(src & dst & Hs & Hd & Hne & Ho & Hm)]; [left; by apply (ready_queues s' _ _ HW')|]. right. exists src, dst.
    repeat (split; [done|]). by eapply moved_threads.
  - intros src dst Hs Hd Hne Hnr. destruct (nr_of_eq _ _ _ (si_rep _ _ _ _ (wf_inv _ _ _ _ HW)) src Hs) as (_ & _ & _ & En & _).
    destruct (migrate_step_wf src dst s _ _ HW Hs Hd Hne Hlow) as (s' & more & Q' & E & HW' & Hm & HK & _); [unfold s in *; lia|].
    exists s', more. split; [done|]. split; [by eapply wfs_sched_ok|]. split; [apply HK|by eapply moved_threads].
Qed.

Definition idle_lowestb (s : sched) : bool :=
  forallb (λ c, forallb (λ t, bool_decide (idle_of s c = Some t)) (ready_list s c 0) &&
    match idle_of s c with Some i => match get_thread s i with Some th => prio th =? 0 | None => true end | None => true end) (seqZ 0 CONFIG_MAX_CPUS).

Lemma idle_lowest_check s : idle_lowestb s = true → idle_lowest s (ready_list s).
Proof.
  unfold idle_lowestb. rewrite forallb_forall. intros Hall.
  assert (∀ c, is_cpu c → forallb (λ t, bool_decide (idle_of s c = Some t)) (ready_list s c 0) = true ∧
    match idle_of s c with Some i => match get_thread s i with Some th => prio th =? 0 | None => true end | None => true end = true) as H'.
  { intros c Hc. apply andb_true_iff, Hall. apply list_elem_of_In, elem_of_seqZ. unfold is_cpu in Hc. lia. }
  split.
  - intros c t Hc Ht. destruct (H' c Hc) as [H1 _]. rewrite forallb_forall in H1. apply (bool_decide_eq_true (idle_of s c = Some t)), H1.
    by apply list_elem_of_In.
  - intros c i th Hc Hi Ht. destruct (H' c Hc) as [_ H2]. rewrite Hi, Ht in H2. by apply Z.eqb_eq.
Qed.

Lemma balancing_conserves_threads_witness : ∃ s', smp_load_balance (kt_sched (run (demo_ops ++ [OStart 0]))) = Some (s', KERNEL_OK) ∧ sched_ok s' ∧
  ∃ s2 more, migrate_step 0 1 (kt_sched (run (demo_ops ++ [OStart 0]))) = Some (s2, more) ∧ sched_ok s2.
Proof.
  destruct (balancing_conserves_threads 0x100000 0x200000 ENTRY (run (demo_ops ++ [OStart 0])) demo_started) as [(s' & E & Hok & _) Hturn].
  - apply idle_lowest_check. vm_compute. reflexivity.
  - assert (nr_of (kt_sched (run (demo_ops ++ [OStart 0]))) 0 = 3) as En by (vm_compute; reflexivity).
    assert (is_cpu 0 ∧ is_cpu 1) as [H0 H1] by (clear; unfold is_cpu, CONFIG_MAX_CPUS; lia).
    destruct (Hturn 0 1 H0 H1 ltac:(discriminate)) as (s2 & more & E2 & Hok2 & _); [rewrite En; discriminate|].
    exists s'. split; [exact E|]. split; [exact Hok|]. exists s2, more. split; [exact E2|exact Hok2].
Defined.

(** ** Runs on a concrete kernel

    Executions of the model from boot that show behaviour outside the conditions
    of the safety theorem, or that the comments of the code do not announce. *)

Module Runs.

#[local] Notation new p size := (OCreate 0 idle_name ENTRY 0 p KTHREAD_POLICY_RR size) (only parsing).

Definition after {B} (ops : list sop) (f : sched → B) : option B := f ∘ kt_sched <$> boot ops.

(** At the end of its slice, a round-robin thread of priority 20 gives the CPU to
    the idle thread of priority 0: [schedule] chooses before it puts the running
    thread back. *)
Example slice_end_runs_idle :
  after (([new 20 8192; OStart 0] ++ replicate 10 (OTimer 0)) ++ [OIrqExit 0]) (λ s, (cur_of s 0, ready_list s 0 20, ready_list s 0 0)) =
  Some (Some 0, [8], []).
Proof. vm_compute. reflexivity. Qed.

(** With another thread of priority 0 on CPU 0, balancing sends the idle thread
    of CPU 0 to CPU 1. *)
Example balancing_moves_idle_thread :
  after [new 20 8192; OStart 0; new 0 8192; OBalance] (λ s, (idle_of s 0, ready_list s 1 0)) = Some (Some 0, [0]).
Proof. vm_compute. reflexivity. Qed.

(** When CPU 0 then falls back to its idle thread, it takes it out of a queue of
    CPU 1, whose bitmap keeps the bit: CPU 1 reads a thread from an empty queue. *)
Example idle_thread_corrupts_other_cpu :
  boot [new 20 8192; OStart 0; new 0 8192; OBalance; OExit 0; OExit 0; OStartSecondary 1] = None.
Proof. vm_compute. reflexivity. Qed.

(** Suspending, from CPU 1, a thread that waits on CPU 0 empties the queue of
    CPU 0 but clears the bit of CPU 1. *)
Example remote_suspend_corrupts_bitmap :
  boot [new 20 8192; new 30 8192; OStart 0; OStartSecondary 1; OSuspend 1 8; OSchedule 0; OSchedule 0] = None.
Proof. vm_compute. reflexivity. Qed.

(** The canary of thread 9 is overwritten: the switch away from it kills the
    thread switched to and keeps the one that overflowed. *)
Example overflow_kills_the_next_thread :
  after [new 20 16384; new 30 16384; OStart 0]
    (λ s, th ← get_thread s 9;
       s' ← do_schedule 0 (upd_canary (<[u64 (g_bottom (guard th) + g_offset (guard th)) := 0]> (canary_mem s)) s);
       Some (st_of s' 8, st_of s' 9, cur_of s' 0)) =
  Some (Some (Some KTHREAD_STATE_DEAD, Some KTHREAD_STATE_RUNNING, Some 9)).
Proof. vm_compute. reflexivity. Qed.

(** The control block of a thread that has exited is used again for a thread with
    a small stack: its guard still describes the stack of the old thread. *)
Example small_stack_keeps_old_guard :
  after [new 20 16384; OStart 0; OExit 0; new 20 8192]
    (λ s, (λ th, (g_enabled (guard th), g_bottom (guard th) =? stack_base th)) <$> get_thread s 8) = Some (Some (true, false)).
Proof. vm_compute. reflexivity. Qed.

(** Without stacks left, [kthread_create] fails but keeps the control block: it
    stays ready, in no queue. *)
#[local] Instance no_slab : StackSlab unit := {
  stack_slab_create := λ _ _ a, (a, KERNEL_OK);
  stack_slab_destroy := λ _ a, a;
  stack_slab_alloc := λ _ a, (a, 0);
  stack_slab_free := λ _ _ a, a
}.

Example failed_create_leaks_block :
  (k ← sched_boot (A := unit) 0x1000 0x11000 ENTRY (KT image_sched () false 0 false);
   r ← kthread_create 0x1000 0x11000 0 (Some idle_name) ENTRY 0 20 KTHREAD_POLICY_RR 8192 k;
   Some (r.2, st_of (kt_sched r.1) 8, ready_list (kt_sched r.1) 0 20)) =
  Some (THREAD_ID_INVALID, Some KTHREAD_STATE_READY, []).
Proof. vm_compute. reflexivity. Qed.

(** A class at the end of the chain counts as unregistered: registering it twice
    makes it its own successor. *)
Example register_twice_makes_a_cycle :
  (r ← sched_rr_init (Registry None None (λ _, None)); r ← sched_rr_init r; Some (cls_next r sched_rr)) = Some (Some sched_rr).
Proof. reflexivity. Qed.

(** The secondary CPUs run before [smp_sched_init]: their first ticks divide by an
    interval of zero. *)
Example tick_before_smp_init :
  (r ← scheduler_init 0x100000 0x200000 ENTRY
         (upd_sched (default image_sched (init_sleep_queues 8 0 image_sched)) image);
   s ← scheduler_start_secondary 1 (kt_sched r.1); Some (defined (scheduler_tick 1 s))) = Some false.
Proof. vm_compute. reflexivity. Qed.

End Runs.
