(* ===== verification/SwTimerSpec.v ===== *)
(** * Software timers against sequences

    [trep tm TQ] says that the queues of the timers hold the sequences [TQ c],
    sorted by expiry; the calls and the interrupt are proved against it. *)

From stdpp Require Import sorting.
From S2P Require Import Prelude KList OrdList SchedTypes Sched Threads Sleep SchedRep SwTimer.

Set Default Goal Selector "!".

Notation tqueues := (Z → list Z).

Definition tqset (c : Z) (l : list Z) (TQ : tqueues) : tqueues := λ c', if decide (c' = c) then l else TQ c'.

Definition expiry (tm : timers) (i : Z) : Z := default 0 (expire_tick <$> tm_tab tm !! i).

Definition in_queue (TQ : tqueues) (i : Z) : Prop := ∃ c, is_cpu c ∧ i ∈ TQ c.

Record tmap (M : gmap taddr (list taddr)) (dm : gset Z) (TQ : tqueues) : Prop := TMap {
  tp_head : ∀ c, is_cpu c → M !! TmHead c = Some (TmNode <$> TQ c);
  tp_free : ∀ i, i ∈ dm → ¬ in_queue TQ i → M !! TmNode i = Some []
}.

Record trep (tm : timers) (TQ : tqueues) : Prop := TRep {
  tr_lists : ∃ M, lists_rep (tm_nodes tm) M ∧ tmap M (dom (tm_tab tm)) TQ;
  tr_active : ∀ i, in_queue TQ i ↔ ∃ t, tm_tab tm !! i = Some t ∧ tm_state t = TIMER_STATE_ACTIVE;
  tr_sorted : ∀ c, is_cpu c → StronglySorted Z.le (expiry tm <$> TQ c)
}.

#[global] Instance TmNode_inj : Inj (=) (=) TmNode.
Proof. by intros ?? [= ->]. Qed.

Lemma tqset_eq c l TQ : tqset c l TQ c = l.
Proof. unfold tqset. by rewrite decide_True. Qed.

Lemma tqset_ne c l TQ c' : c' ≠ c → tqset c l TQ c' = TQ c'.
Proof. intros H. unfold tqset. by rewrite decide_False. Qed.

Section rep.
Context (tm : timers) (TQ : tqueues) (HR : trep tm TQ).

Lemma tr_dll c : is_cpu c → dll (tm_nodes tm) (TmHead c) (TmNode <$> TQ c).
Proof using HR. intros Hc. destruct (tr_lists _ _ HR) as (M & HM & HT). eapply lists_rep_dll; [exact HM|]. by apply (tp_head _ _ _ HT). Qed.

Lemma tr_nodup c : is_cpu c → NoDup (TQ c).
Proof using HR. intros Hc. destruct (dll_NoDup _ _ _ (tr_dll c Hc)) as [Hn _]. by apply NoDup_fmap_1 in Hn. Qed.

Lemma tr_timer c i : is_cpu c → i ∈ TQ c → ∃ t, tm_tab tm !! i = Some t ∧ tm_state t = TIMER_STATE_ACTIVE.
Proof using HR. intros Hc Hi. apply (tr_active _ _ HR). by exists c. Qed.

Lemma tr_once c c' i : is_cpu c → is_cpu c' → i ∈ TQ c → i ∈ TQ c' → c = c'.
Proof using HR.
  intros Hc Hc' H1 H2. destruct (tr_lists _ _ HR) as (M & [_ HM] & HT).
  assert (TmHead c = TmHead c') as [= ->]; [|done].
  apply (HM _ _ _ _ (TmNode i) (tp_head _ _ _ HT c Hc) (tp_head _ _ _ HT c' Hc')); right; apply list_elem_of_fmap; by exists i.
Qed.

Lemma tr_fuel c : is_cpu c → (length (TQ c) <= size (tm_tab tm))%nat.
Proof using HR.
  intros Hc. assert (list_to_set (TQ c) ⊆ dom (tm_tab tm)) as Hs.
  { intros i Hi. apply elem_of_list_to_set in Hi. destruct (tr_timer c i Hc Hi) as (t & Et & _). by eapply elem_of_dom_2. }
  apply subseteq_size in Hs. rewrite size_list_to_set in Hs by (by apply tr_nodup). by rewrite size_dom in Hs.
Qed.
End rep.

(** ** Unlinking *)

(** The queues without timer [i]. *)
Definition tdel (i : Z) (TQ : tqueues) : tqueues := λ c, filter (λ j, j ≠ i) (TQ c).

Lemma tdel_in i TQ j : in_queue (tdel i TQ) j ↔ in_queue TQ j ∧ j ≠ i.
Proof. unfold in_queue, tdel. setoid_rewrite list_elem_of_filter. naive_solver. Qed.

Lemma filter_ne_id (l : list Z) i : i ∉ l → filter (λ j, j ≠ i) l = l.
Proof.
  intros Hl. induction l as [|x l IH]; [done|]. rewrite not_elem_of_cons in Hl. destruct Hl as [Hne Hl].
  rewrite filter_cons, decide_True by congruence. by rewrite IH.
Qed.

Lemma filter_ne_split (xs ys : list Z) i : i ∉ xs → i ∉ ys → filter (λ j, j ≠ i) (xs ++ i :: ys) = xs ++ ys.
Proof. intros Hx Hy. rewrite filter_app, filter_cons. rewrite decide_False by (intros Hf; by apply Hf). by rewrite !filter_ne_id. Qed.

(** What unlinking leaves, whether the timer was queued or not: the lists of the
    others, and a node that points to itself. *)
Lemma unlink_lists h M (dm : gset Z) (TQ : tqueues) i : lists_rep h M → tmap M dm TQ → i ∈ dm →
  (∀ c c', is_cpu c → is_cpu c' → i ∈ TQ c → i ∈ TQ c' → c = c') → (∀ c, is_cpu c → NoDup (TQ c)) →
  ∃ n h' M', get_next h (Some (TmNode i)) = Some n ∧
    (if bool_decide (n ≠ Some (TmNode i)) then list_del_init (Some (TmNode i)) h else Some h) = Some h' ∧
    lists_rep h' M' ∧ tmap M' dm (tdel i TQ) ∧ M' !! TmNode i = Some [].
Proof.
  intros HM HT Hi Honce Hnd. destruct (decide (Exists (λ c, i ∈ TQ c) (seqZ 0 CONFIG_MAX_CPUS))) as [(c & Hc0 & Hin)%Exists_exists|Hno].
  - assert (is_cpu c) as Hc by (apply elem_of_seqZ in Hc0; unfold is_cpu; lia).
    apply list_elem_of_split in Hin as (xs & ys & Hx). pose proof (tp_head _ _ _ HT c Hc) as Hhd. rewrite Hx, fmap_app, fmap_cons in Hhd.
    pose proof (lists_rep_dll _ _ _ _ HM Hhd) as Hd. destruct (dll_neighbours _ _ _ _ _ Hd) as [_ En].
    destruct (lists_rep_del_init h M _ _ _ _ HM Hhd) as (h' & E & HM' & _).
    pose proof (Hnd c Hc) as Hn. rewrite Hx in Hn. apply NoDup_app in Hn as (_ & Hd1 & [Hd2 _]%NoDup_cons).
    assert (i ∉ xs) as Hix by (intros Hin; apply (Hd1 i Hin); set_solver).
    eexists _, h', _. split; [exact En|]. split; [|split; [exact HM'|split; [|by rewrite lookup_insert_eq]]].
    + rewrite bool_decide_eq_true_2; [exact E|]. intros [= Eq]. destruct (dll_NoDup _ _ _ Hd) as [Hn _].
      apply NoDup_app in Hn as (_ & _ & [Hy _]%NoDup_cons). destruct ys as [|y ys]; [by cbn in Eq|]. cbn in Eq. injection Eq as ->. apply Hy. set_solver.
    + split.
      * intros c' Hc'. rewrite lookup_insert_ne by done. unfold tdel. destruct (decide (c' = c)) as [->|Hne].
        -- rewrite lookup_insert_eq, Hx, filter_ne_split by done. by rewrite fmap_app.
        -- rewrite lookup_insert_ne by congruence. rewrite filter_ne_id; [by apply (tp_head _ _ _ HT)|].
           intros Hin. apply Hne. apply (Honce c' c); [done|done|done|]. rewrite Hx. set_solver.
      * intros j Hj Hq. destruct (decide (j = i)) as [->|Hne]; [by rewrite lookup_insert_eq|].
        rewrite !lookup_insert_ne by congruence. apply (tp_free _ _ _ HT); [done|]. intros Hin. apply Hq, tdel_in. by split.
  - assert (¬ in_queue TQ i) as Hnq.
    { intros (c & Hc & Hin). apply Hno, Exists_exists. exists c. split; [apply elem_of_seqZ; unfold is_cpu in Hc; lia|done]. }
    pose proof (tp_free _ _ _ HT i Hi Hnq) as Hf. pose proof (lists_rep_dll _ _ _ _ HM Hf) as Hd.
    exists (Some (TmNode i)), h, M. split; [exact (get_next_nxt _ _ _ (dll_first _ _ _ Hd))|].
    split; [rewrite bool_decide_eq_false_2; [done|]; by intros []|]. split; [done|]. split; [|done]. split.
    + intros c Hc. unfold tdel. rewrite filter_ne_id; [by apply (tp_head _ _ _ HT)|]. intros Hin. apply Hnq. by exists c.
    + intros j Hj Hq. apply (tp_free _ _ _ HT); [done|]. intros Hin. destruct (decide (j = i)) as [->|]; [done|]. apply Hq, tdel_in. by split.
Qed.

(** ** Inserting *)

Definition tins (tm : timers) (c i e : Z) (TQ : tqueues) : tqueues :=
  tqset c ((split_le e (expiry tm) (TQ c)).1 ++ i :: (split_le e (expiry tm) (TQ c)).2) TQ.

Lemma tins_in tm c i e TQ j : is_cpu c → in_queue (tins tm c i e TQ) j ↔ in_queue TQ j ∨ j = i.
Proof.
  intros Hc. unfold in_queue, tins. pose proof (split_le_app e (expiry tm) (TQ c)) as Hs. split.
  - intros (c' & Hc' & Hin). unfold tqset in Hin. case_decide as E; [|left; by exists c']. subst c'.
    apply elem_of_app in Hin as [Hin|[->|Hin]%elem_of_cons]; [left|by right|left]; exists c; (split; [done|]); rewrite <- Hs; set_solver.
  - intros [(c' & Hc' & Hin)| ->].
    + exists c'. split; [done|]. unfold tqset. case_decide as E; [|done]. subst c'. rewrite <- Hs in Hin. set_solver.
    + exists c. split; [done|]. rewrite tqset_eq. set_solver.
Qed.

Lemma split_le_fmap_node v (k : Z → Z) (k' : taddr → Z) l : (∀ x, x ∈ l → k' (TmNode x) = k x) →
  split_le v k' (TmNode <$> l) = (TmNode <$> (split_le v k l).1, TmNode <$> (split_le v k l).2).
Proof.
  intros He. induction l as [|x l IH]; [done|]. cbn. rewrite He by set_solver. destruct (_ >? _); [done|].
  rewrite IH by (intros; apply He; set_solver). done.
Qed.

Lemma insert_lists tm TQ M c i e : lists_rep (tm_nodes tm) M → tmap M (dom (tm_tab tm)) TQ → is_cpu c → M !! TmNode i = Some [] →
  (∀ j, j ∈ TQ c → is_Some (tm_tab tm !! j)) → (length (TQ c) <= size (tm_tab tm))%nat → ¬ in_queue TQ i →
  ∃ h M', timer_queue_insert_ordered c i e tm = Some (Timers (tm_tab tm) h) ∧ lists_rep h M' ∧
    tmap M' (dom (tm_tab tm)) (tins tm c i e TQ).
Proof.
  intros HM HT Hc Hi Hdom Hf Hnq. set (k := λ a, match a with TmNode j => expiry tm j | TmHead _ => 0 end).
  destruct (insert_ordered_spec (size (tm_tab tm)) (timer_key tm) k (tm_nodes tm) M (TmHead c) (TmNode <$> TQ c) (TmNode i) e HM)
    as (h & E & HM'); [by apply (tp_head _ _ _ HT)|done|done|by rewrite length_fmap| |].
  - intros a (j & -> & Hj)%list_elem_of_fmap. unfold timer_key, k, expiry. cbn [tm_entry]. rewrite some_bind. destruct (Hdom j Hj) as (t & Et).
    by rewrite Et.
  - rewrite (split_le_fmap_node e (expiry tm) k) in HM' by done. cbn [fst snd] in HM'. rewrite <- fmap_cons, <- fmap_app in HM'.
    eexists h, _. split; [unfold timer_queue_insert_ordered, on_tnodes; by rewrite E|]. split; [exact HM'|]. split.
    + intros c' Hc'. unfold tins, tqset. case_decide as E'; [subst c'; by rewrite lookup_insert_eq|].
      rewrite lookup_insert_ne by congruence. rewrite lookup_delete_ne by done. by apply (tp_head _ _ _ HT).
    + intros j Hj Hq. rewrite tins_in in Hq by done. assert (j ≠ i) by tauto. rewrite lookup_insert_ne by done.
      rewrite lookup_delete_ne by congruence. apply (tp_free _ _ _ HT); [done|tauto].
Qed.

Lemma expiry_set tm i t j : expiry (set_timer i t tm) j = if decide (j = i) then expire_tick t else expiry tm j.
Proof.
  unfold expiry, set_timer. cbn. case_decide as E; [subst; by rewrite lookup_insert_eq|by rewrite lookup_insert_ne].
Qed.

Lemma filter_sorted (f : Z → Z) (P : Z → Prop) `{∀ x, Decision (P x)} l : StronglySorted Z.le (f <$> l) → StronglySorted Z.le (f <$> filter P l).
Proof.
  induction l as [|x l IH]; [done|]. rewrite fmap_cons, StronglySorted_cons, filter_cons. intros [Hf Hs]. case_decide; [|by apply IH].
  rewrite fmap_cons, StronglySorted_cons. split; [|by apply IH]. rewrite Forall_forall in *. intros y Hy. apply Hf.
  apply list_elem_of_fmap in Hy as (z & -> & Hz). apply list_elem_of_filter in Hz as [_ Hz]. apply list_elem_of_fmap. by exists z.
Qed.

(** A timer is armed afresh: it leaves its queue and enters that of [c]. *)
Lemma arm_spec tm TQ c i t : trep tm TQ → is_cpu c → i ∈ dom (tm_tab tm) → tm_state t = TIMER_STATE_ACTIVE →
  let tm1 := set_timer i t tm in
  ∃ tm2 tm3, timer_unlink i tm1 = Some tm2 ∧ timer_queue_insert_ordered c i (expire_tick t) tm2 = Some tm3 ∧
    tm_tab tm3 = <[i := t]> (tm_tab tm) ∧ trep tm3 (tins tm1 c i (expire_tick t) (tdel i TQ)).
Proof.
  intros HR Hc Hi Hst tm1. pose proof HR as [(M & HM & HT) Hact Hso].
  assert (dom (tm_tab tm1) = dom (tm_tab tm)) as Hdom by (cbn; rewrite dom_insert_L; set_solver).
  destruct (unlink_lists (tm_nodes tm) M (dom (tm_tab tm)) TQ i HM HT Hi) as (n & h & M1 & En & Eh & HM1 & HT1 & Hfree);
    [intros c1 c2; by apply (tr_once tm TQ HR)|by apply (tr_nodup tm TQ HR)|].
  assert (timer_unlink i tm1 = Some (Timers (tm_tab tm1) h)) as Eu.
  { unfold timer_unlink, on_tnodes. change (tm_nodes tm1) with (tm_nodes tm). rewrite En, some_bind. destruct (bool_decide _); [by rewrite Eh|].
    injection Eh as <-. done. }
  set (tm2 := Timers (tm_tab tm1) h) in *.
  destruct (insert_lists tm2 (tdel i TQ) M1 c i (expire_tick t)) as (h3 & M3 & Ei & HM3 & HT3); try done.
  - change (tm_tab tm2) with (tm_tab tm1). by rewrite Hdom.
  - intros j [_ Hj]%list_elem_of_filter. destruct (tr_timer tm TQ HR c j Hc Hj) as (tj & Ej & _). apply elem_of_dom.
    change (tm_tab tm2) with (tm_tab tm1). rewrite Hdom. by eapply elem_of_dom_2.
  - change (tm_tab tm2) with (tm_tab tm1). rewrite <- size_dom, Hdom, size_dom. etransitivity; [|by apply (tr_fuel tm TQ HR c)].
    apply length_filter.
  - intros [_ ?]%tdel_in. done.
  - exists tm2, (Timers (tm_tab tm2) h3). split; [done|]. split; [done|]. split; [done|]. split.
    + exists M3. by split.
    + intros j. rewrite tins_in by done. rewrite tdel_in, Hact. change (tm_tab (Timers (tm_tab tm2) h3)) with (<[i:=t]> (tm_tab tm)).
      destruct (decide (j = i)) as [->|Hne].
      * rewrite lookup_insert_eq. split; [by exists t|by right].
      * rewrite lookup_insert_ne by done. naive_solver.
    + intros c' Hc'. assert (∀ j, expiry (Timers (tm_tab tm2) h3) j = expiry tm1 j) as Ee by done.
      assert (∀ c', is_cpu c' → expiry tm1 <$> tdel i TQ c' = expiry tm <$> tdel i TQ c') as Eold.
      { intros c1 _. apply list_fmap_ext. intros m j Hj. apply list_elem_of_lookup_2, list_elem_of_filter in Hj as [Hj _].
        unfold tm1. rewrite expiry_set. by rewrite decide_False by exact Hj. }
      assert (StronglySorted Z.le (expiry tm1 <$> tdel i TQ c')) as Hs by (rewrite Eold by done; by apply filter_sorted, Hso).
      unfold tins. destruct (decide (c' = c)) as [->|Hne]; [rewrite tqset_eq|rewrite tqset_ne by done; exact Hs]. rewrite fmap_app, fmap_cons.
      assert (expiry (Timers (tm_tab tm2) h3) i = expire_tick t) as -> by (rewrite Ee; unfold tm1; rewrite expiry_set; by rewrite decide_True).
      by apply (split_le_sorted (expire_tick t) (expiry tm1)).
Qed.

Lemma trep_ext tm TQ TQ' : (∀ c, is_cpu c → TQ' c = TQ c) → trep tm TQ → trep tm TQ'.
Proof.
  intros E [(M & HM & [H1 H2]) Hact Hso].
  assert (∀ i, in_queue TQ' i ↔ in_queue TQ i) as Ei.
  { intros i. unfold in_queue. split; intros (c & Hc & Hin); exists c; (split; [done|]); [by rewrite <- E|by rewrite E]. }
  split.
  - exists M. split; [done|]. split; [intros c Hc; rewrite E by done; by apply H1|]. intros i Hi. rewrite Ei. by apply H2.
  - intros i. by rewrite Ei.
  - intros c Hc. rewrite E by done. by apply Hso.
Qed.

(** A timer that is in no queue leaves the ACTIVE state. *)
Lemma disarm_spec tm TQ i t : trep tm TQ → i ∈ dom (tm_tab tm) → tm_state t ≠ TIMER_STATE_ACTIVE →
  ∃ tm1, timer_unlink i tm = Some tm1 ∧ tm_tab tm1 = tm_tab tm ∧ trep (set_timer i t tm1) (tdel i TQ).
Proof.
  intros HR Hi Hst. pose proof HR as [(M & HM & HT) Hact Hso].
  destruct (unlink_lists (tm_nodes tm) M (dom (tm_tab tm)) TQ i HM HT Hi) as (n & h & M1 & En & Eh & HM1 & HT1 & Hfree);
    [intros c1 c2; by apply (tr_once tm TQ HR)|by apply (tr_nodup tm TQ HR)|].
  exists (Timers (tm_tab tm) h). split; [|split; [done|split]].
  - unfold timer_unlink, on_tnodes. rewrite En, some_bind. destruct (bool_decide _); [by rewrite Eh|]. injection Eh as <-. by destruct tm.
  - exists M1. split; [done|]. cbn. rewrite dom_insert_L. replace ({[i]} ∪ dom (tm_tab tm)) with (dom (tm_tab tm)) by set_solver. done.
  - intros j. rewrite tdel_in, Hact. cbn. destruct (decide (j = i)) as [->|Hne].
    + rewrite lookup_insert_eq. split; [by intros [_ ?]|]. intros (t' & [= <-] & ?). done.
    + rewrite lookup_insert_ne by done. naive_solver.
  - intros c Hc. assert (expiry (set_timer i t (Timers (tm_tab tm) h)) <$> tdel i TQ c = expiry tm <$> tdel i TQ c) as ->; [|by apply filter_sorted, Hso].
    apply list_fmap_ext. intros m j Hj. apply list_elem_of_lookup_2, list_elem_of_filter in Hj as [Hj _]. rewrite expiry_set.
    by rewrite decide_False by exact Hj.
Qed.

Lemma unlink_free tm TQ i : trep tm TQ → i ∈ dom (tm_tab tm) → ¬ in_queue TQ i → ∀ t, timer_unlink i (set_timer i t tm) = Some (set_timer i t tm).
Proof.
  intros [(M & HM & HT) _ _] Hi Hnq t. unfold timer_unlink. change (tm_nodes (set_timer i t tm)) with (tm_nodes tm).
  pose proof (lists_rep_dll _ _ _ _ HM (tp_free _ _ _ HT i Hi Hnq)) as Hd.
  rewrite (get_next_nxt _ _ _ (dll_first _ _ _ Hd)), some_bind, bool_decide_eq_false_2; [done|]. intros Hf. by apply Hf.
Qed.

(** ** The calls *)

Lemma start_oneshot_spec tm TQ c i t ms ticks : trep tm TQ → is_cpu c → tm_tab tm !! i = Some t →
  let t' := SwTimer (u64 (ticks + MS_TO_TICKS ms)) 0 (callback t) (callback_arg t) TIMER_STATE_ACTIVE in
  ∃ tm', timer_start_oneshot c (Some i) ms ticks tm = Some tm' ∧ tm_tab tm' = <[i := t']> (tm_tab tm) ∧
    trep tm' (tins (set_timer i t' tm) c i (expire_tick t') (tdel i TQ)).
Proof.
  intros HR Hc Ht t'. destruct (arm_spec tm TQ c i t' HR Hc) as (tm2 & tm3 & E1 & E2 & Et & HR'); [by eapply elem_of_dom_2|done|].
  exists tm3. split; [|done]. cbn [timer_start_oneshot]. rewrite Ht, some_bind. fold t'. rewrite E1, some_bind. exact E2.
Qed.

Lemma start_periodic_spec tm TQ c i t ms ticks : trep tm TQ → is_cpu c → tm_tab tm !! i = Some t →
  let t' := SwTimer (u64 (ticks + MS_TO_TICKS ms)) (MS_TO_TICKS ms) (callback t) (callback_arg t) TIMER_STATE_ACTIVE in
  ∃ tm', timer_start_periodic c (Some i) ms ticks tm = Some tm' ∧ tm_tab tm' = <[i := t']> (tm_tab tm) ∧
    trep tm' (tins (set_timer i t' tm) c i (expire_tick t') (tdel i TQ)).
Proof.
  intros HR Hc Ht t'. destruct (arm_spec tm TQ c i t' HR Hc) as (tm2 & tm3 & E1 & E2 & Et & HR'); [by eapply elem_of_dom_2|done|].
  exists tm3. split; [|done]. cbn [timer_start_periodic]. rewrite Ht, some_bind. fold t'. rewrite E1, some_bind. exact E2.
Qed.

Lemma stop_spec tm TQ i t : trep tm TQ → tm_tab tm !! i = Some t →
  ∃ tm', timer_stop (Some i) tm = Some tm' ∧ tm_tab tm' = <[i := set_tm_state TIMER_STATE_IDLE t]> (tm_tab tm) ∧ trep tm' (tdel i TQ).
Proof.
  intros HR Ht. destruct (disarm_spec tm TQ i (set_tm_state TIMER_STATE_IDLE t) HR) as (tm1 & E1 & Et & HR'); [by eapply elem_of_dom_2|done|].
  eexists. cbn [timer_stop]. rewrite Ht, some_bind, E1, some_bind. split; [done|]. split; [|exact HR']. cbn. by rewrite Et.
Qed.

(** ** The interrupt *)

(** What one expiry does to a timer. *)
Definition fire (t : SoftwareTimer_t) : SoftwareTimer_t :=
  if interval t >? 0 then SwTimer (u64 (expire_tick t + interval t)) (interval t) (callback t) (callback_arg t) TIMER_STATE_ACTIVE
  else set_tm_state TIMER_STATE_EXPIRED t.

Lemma fire_interval t : interval (fire t) = interval t.
Proof. unfold fire. by destruct (_ >? _). Qed.

(** The head of the queue fires. *)
Lemma fire_step tm TQ c i l t : trep tm TQ → is_cpu c → TQ c = i :: l → tm_tab tm !! i = Some t →
  ∃ h tm', list_del_init (Some (TmNode i)) (tm_nodes tm) = Some h ∧
    let tm1 := set_timer i (set_tm_state TIMER_STATE_CALLBACK t) (Timers (tm_tab tm) h) in
    (if interval t >? 0 then timer_queue_insert_ordered c i (expire_tick (fire t)) (set_timer i (fire t) tm1)
     else Some (set_timer i (fire t) tm1)) = Some tm' ∧
    tm_tab tm' = <[i := fire t]> (tm_tab tm) ∧
    ∃ TQ', trep tm' TQ' ∧ (∀ c', c' ≠ c → TQ' c' = TQ c') ∧ (∀ j, j ∈ TQ' c → j ∈ TQ c).
Proof.
  intros HR Hc Hq Ht. assert (i ∈ dom (tm_tab tm)) as Hi by (by eapply elem_of_dom_2).
  destruct (disarm_spec tm TQ i (set_tm_state TIMER_STATE_CALLBACK t) HR Hi ltac:(done)) as (tm0 & E0 & Et0 & HR0).
  assert (∃ h, list_del_init (Some (TmNode i)) (tm_nodes tm) = Some h ∧ tm0 = Timers (tm_tab tm) h) as (h & Eh & ->).
  { pose proof (tr_dll tm TQ HR c Hc) as Hd. rewrite Hq in Hd. destruct (dll_neighbours _ _ [] _ _ Hd) as [_ En].
    unfold timer_unlink in E0. rewrite En, some_bind, bool_decide_eq_true_2 in E0.
    - unfold on_tnodes in E0. destruct (list_del_init _ _) as [h|]; [|done]. rewrite some_bind in E0. injection E0 as <-. by exists h.
    - intros [= Eq]. destruct (dll_NoDup _ _ _ Hd) as [[Hy _]%NoDup_cons _]. destruct l as [|y l]; [by cbn in Eq|]. cbn in Eq. injection Eq as ->.
      apply Hy. set_solver. }
  exists h. set (tm1 := set_timer i _ _) in *.
  assert (¬ in_queue (tdel i TQ) i) as Hnq by (intros [_ ?]%tdel_in; done).
  assert (i ∈ dom (tm_tab tm1)) as Hi1 by (cbn; set_solver).
  assert (∀ c', is_cpu c' → tdel i (tdel i TQ) c' = tdel i TQ c') as Ed.
  { intros c' _. unfold tdel at 1. apply filter_ne_id. intros [Hf _]%list_elem_of_filter. by apply Hf. }
  assert (∀ c', is_cpu c' → c' ≠ c → tdel i TQ c' = TQ c') as Eo.
  { intros c' Hc' Hne. unfold tdel. apply filter_ne_id. intros Hin. apply Hne. apply (tr_once tm TQ HR c' c i); try done. rewrite Hq. set_solver. }
  assert (∀ R : tqueues, (∀ c', is_cpu c' → c' ≠ c → R c' = TQ c') → ∀ c', is_cpu c' → (λ c', if decide (is_cpu c') then R c' else TQ c') c' = R c') as Hext.
  { intros R _ c' Hc'. by rewrite decide_True. }
  assert (tm_tab tm1 = <[i := set_tm_state TIMER_STATE_CALLBACK t]> (tm_tab tm)) as Etab by done.
  destruct (interval t >? 0) eqn:Ei.
  - assert (tm_state (fire t) = TIMER_STATE_ACTIVE) as Hf by (unfold fire; by rewrite Ei).
    destruct (arm_spec tm1 (tdel i TQ) c i (fire t) HR0 Hc Hi1 Hf) as (tm2 & tm3 & E1 & E2 & Et & HR').
    rewrite (unlink_free tm1 (tdel i TQ) i HR0 Hi1 Hnq) in E1. injection E1 as <-. exists tm3. split; [done|]. split; [exact E2|].
    split; [by rewrite Et, Etab, insert_insert_eq|].
    set (R := tins (set_timer i (fire t) tm1) c i (expire_tick (fire t)) (tdel i (tdel i TQ))) in *.
    assert (∀ c', is_cpu c' → c' ≠ c → R c' = TQ c') as HRo.
    { intros c' Hc' Hne. unfold R, tins. rewrite tqset_ne by done. rewrite Ed, Eo by done. done. }
    exists (λ c', if decide (is_cpu c') then R c' else TQ c'). split; [eapply trep_ext; [by apply Hext|done]|].
    split; [intros c' Hne; case_decide; [by apply HRo|done]|].
    intros j. rewrite decide_True by done. unfold R, tins. rewrite tqset_eq. intros Hj.
    pose proof (split_le_app (expire_tick (fire t)) (expiry (set_timer i (fire t) tm1)) (tdel i (tdel i TQ) c)) as Hs.
    destruct (decide (j = i)) as [->|Hne]; [rewrite Hq; set_solver|].
    assert (j ∈ tdel i (tdel i TQ) c) as Hj'.
    { rewrite <- Hs. apply elem_of_app in Hj as [?|[?|?]%elem_of_cons]; [set_solver|done|set_solver]. }
    rewrite Ed in Hj' by done. unfold tdel in Hj'. by apply list_elem_of_filter in Hj' as [_ ?].
  - assert (tm_state (fire t) ≠ TIMER_STATE_ACTIVE) as Hf by (unfold fire; by rewrite Ei).
    destruct (disarm_spec tm1 (tdel i TQ) i (fire t) HR0 Hi1 Hf) as (tm2 & E1 & Et & HR').
    assert (timer_unlink i tm1 = Some tm1) as E1'.
    { pose proof (unlink_free tm1 (tdel i TQ) i HR0 Hi1 Hnq (set_tm_state TIMER_STATE_CALLBACK t)) as E. 
      assert (set_timer i (set_tm_state TIMER_STATE_CALLBACK t) tm1 = tm1) as E'; [|by rewrite E' in E].
      unfold tm1, set_timer. cbn. by rewrite insert_insert_eq. }
    rewrite E1' in E1. injection E1 as <-. eexists. split; [done|]. split; [done|]. split; [cbn; by rewrite insert_insert_eq|].
    assert (∀ c', is_cpu c' → c' ≠ c → tdel i (tdel i TQ) c' = TQ c') as HRo by (intros c' Hc' Hne; rewrite Ed, Eo by done; done).
    exists (λ c', if decide (is_cpu c') then tdel i (tdel i TQ) c' else TQ c'). split; [eapply trep_ext; [by apply Hext|done]|].
    split; [intros c' Hne; case_decide; [by apply HRo|done]|].
    intros j. rewrite decide_True by done. rewrite Ed by done. unfold tdel. by intros [_ ?]%list_elem_of_filter.
Qed.

Notation times i fired := (count_occ Z.eq_dec fired i).

(** The expiries at which the timers of [fired] fire, one after the other: a
    timer that fires again does so at the expiry its last firing left. *)
Fixpoint deadlines (tab : gmap Z SoftwareTimer_t) (fired : list Z) : list Z :=
  match fired with
  | [] => []
  | i :: l => match tab !! i with
              | Some t => expire_tick t :: deadlines (<[i := fire t]> tab) l
              | None => deadlines tab l
              end
  end.

(** The callbacks they ask for, with their arguments; NULL asks for none. *)
Definition callbacks (tab : gmap Z SoftwareTimer_t) (fired : list Z) : list (Z * Z) :=
  omap (λ i, t ← tab !! i; if callback t =? 0 then None else Some (callback t, callback_arg t)) fired.

Fixpoint run_all (run_callback : Z → Z → sched → option sched) (l : list (Z * Z)) (s : sched) : option sched :=
  match l with
  | [] => Some s
  | p :: l => s ← run_callback p.1 p.2 s; run_all run_callback l s
  end.

(** No due periodic timer of [l] is armed past the end of the 64-bit clock. *)
Definition clock_room (now : Z) (tm : timers) (l : list Z) : Prop :=
  ∀ i t, i ∈ l → tm_tab tm !! i = Some t → 0 <= expire_tick t ∧ now + interval t < 2 ^ 64.

Lemma callbacks_fire tab i t fired : tab !! i = Some t → callbacks (<[i := fire t]> tab) fired = callbacks tab fired.
Proof.
  intros Ht. unfold callbacks. induction fired as [|j fired IH]; [done|]. cbn [omap list_omap]. rewrite IH.
  destruct (decide (j = i)) as [->|Hne]; [|by rewrite lookup_insert_ne]. rewrite lookup_insert_eq, Ht, !some_bind.
  unfold fire. by destruct (_ >? _).
Qed.

Lemma fire_expiry now t : 0 <= expire_tick t → expire_tick t <= now → now + interval t < 2 ^ 64 → expire_tick t <= expire_tick (fire t).
Proof.
  intros H0 H1 H2. unfold fire. destruct (Z.gtb_spec (interval t) 0) as [Hi|]; [|done]. cbn [expire_tick]. unfold u64.
  rewrite Z.mod_small; lia.
Qed.

(** Firing a timer that is due moves its expiry forward only. *)
Lemma clock_room_step now tm tm1 i t l l1 : tm_tab tm !! i = Some t → expire_tick t <= now → i ∈ l →
  tm_tab tm1 = <[i := fire t]> (tm_tab tm) → (∀ j, j ∈ l1 → j ∈ l) → clock_room now tm l →
  clock_room now tm1 l1 ∧ ∀ j, expiry tm j <= expiry tm1 j.
Proof.
  intros Ht Hd Hi E1 Hl Hr. destruct (Hr i t Hi Ht) as [H0 H1]. pose proof (fire_expiry now t H0 Hd H1) as Hf. split.
  - intros j tj Hj Htj. rewrite E1 in Htj. destruct (decide (j = i)) as [->|Hne].
    + rewrite lookup_insert_eq in Htj. injection Htj as <-. rewrite fire_interval. split; [lia|done].
    + rewrite lookup_insert_ne in Htj by done. apply (Hr j tj); [by apply Hl|done].
  - intros j. unfold expiry. rewrite E1. destruct (decide (j = i)) as [->|Hne]; [by rewrite lookup_insert_eq, Ht|by rewrite lookup_insert_ne].
Qed.

(** The deadlines of a run are in order, and what stays queued comes after them. *)
Record in_order (tm tm' : timers) (q q' : list Z) (fired : list Z) : Prop := InOrder {
  io_sorted : StronglySorted Z.le (deadlines (tm_tab tm) fired);
  io_left : ∀ d i, d ∈ deadlines (tm_tab tm) fired → i ∈ q' → d <= expiry tm' i;
  io_low : ∀ b, (∀ i, i ∈ q → b <= expiry tm i) → Forall (Z.le b) (deadlines (tm_tab tm) fired) ∧ ∀ i, i ∈ q' → b <= expiry tm' i
}.

Lemma in_order_nil tm q : in_order tm tm q q [].
Proof. split; [constructor|by intros d i ?%elem_of_nil|]. intros b Hb. by split. Qed.

Lemma in_order_cons tm tm1 tm' i t l q1 q' fired : tm_tab tm !! i = Some t → tm_tab tm1 = <[i := fire t]> (tm_tab tm) →
  StronglySorted Z.le (expiry tm <$> i :: l) → (∀ j, j ∈ q1 → j ∈ i :: l) → (∀ j, expiry tm j <= expiry tm1 j) →
  in_order tm1 tm' q1 q' fired → in_order tm tm' (i :: l) q' (i :: fired).
Proof.
  intros Ht E1 Hso Hq Hup [H1 H2 H3]. rewrite E1 in *. assert (expiry tm i = expire_tick t) as Ee by (unfold expiry; by rewrite Ht).
  assert (∀ j, j ∈ i :: l → expire_tick t <= expiry tm j) as Hmin.
  { rewrite fmap_cons, StronglySorted_cons, Forall_forall in Hso. destruct Hso as [Hle _]. intros j [->|Hj]%elem_of_cons; [lia|].
    rewrite <- Ee. apply Hle, list_elem_of_fmap. by exists j. }
  assert (∀ b, (∀ j, j ∈ i :: l → b <= expiry tm j) → ∀ j, j ∈ q1 → b <= expiry tm1 j) as Hlow.
  { intros b Hb j Hj. specialize (Hb j (Hq j Hj)). specialize (Hup j). lia. }
  split; cbn [deadlines]; rewrite Ht.
  - apply StronglySorted_cons. split; [|done]. apply (H3 (expire_tick t)). by apply Hlow.
  - intros d j [->|Hd]%elem_of_cons Hj; [|by apply H2]. apply (H3 (expire_tick t)); [by apply Hlow|done].
  - intros b Hb. destruct (H3 b (Hlow b Hb)) as [Hf Hl]. split; [|done]. constructor; [|done]. rewrite <- Ee. apply Hb. set_solver.
Qed.

Section loop.
Context (run_callback : Z → Z → sched → option sched) (P : sched → Prop).
Hypothesis Hcb : ∀ cb arg s, P s → ∃ s', run_callback cb arg s = Some s' ∧ P s'.

(** The state after a run of the callback loop. *)
Record fired_ok (n : nat) (c now : Z) (tm tm' : timers) (TQ TQ' : tqueues) (fired : list Z) : Prop := FiredOk {
  fo_rep : trep tm' TQ';
  fo_max : (length fired <= n)%nat;
  fo_others : ∀ c', c' ≠ c → TQ' c' = TQ c';
  fo_tab : ∀ i, tm_tab tm' !! i = Nat.iter (times i fired) fire <$> tm_tab tm !! i;
  fo_due : ∀ i, i ∈ fired → i ∈ TQ c ∧ expiry tm i <= now;
  fo_once : ∀ i t, i ∈ fired → tm_tab tm !! i = Some t → interval t <= 0 → times i fired = 1%nat;
  fo_rest : (length fired < n)%nat → ∀ i, i ∈ TQ' c → now < expiry tm' i;
  fo_order : clock_room now tm (TQ c) → in_order tm tm' (TQ c) (TQ' c) fired
}.

Lemma timer_loop_spec n c now tm s TQ : trep tm TQ → is_cpu c → P s →
  ∃ tm' s' fired TQ', timer_loop run_callback n c now tm s = Some (tm', s', fired) ∧
    (P s' ∧ run_all run_callback (callbacks (tm_tab tm) fired) s = Some s') ∧ fired_ok n c now tm tm' TQ TQ' fired.
Proof using Hcb.
  revert tm s TQ. induction n as [|n IH]; intros tm s TQ HR Hc HP; cbn [timer_loop].
  { exists tm, s, [], TQ. split; [done|]. split; [done|]. split; [done|done|done| | | | |].
    - intros i. cbn. by destruct (tm_tab tm !! i).
    - by intros i ?%elem_of_nil.
    - by intros i t ?%elem_of_nil.
    - cbn. lia.
    - intros _. apply in_order_nil. }
  assert ((∀ i, head (TQ c) = Some i → now < expiry tm i) → ∃ tm' s' fired TQ', Some (tm, s, []) = Some (tm', s', fired) ∧
    (P s' ∧ run_all run_callback (callbacks (tm_tab tm) fired) s = Some s') ∧ fired_ok (S n) c now tm tm' TQ TQ' fired) as Hs.
  { intros Hh. exists tm, s, [], TQ. split; [done|]. split; [done|]. split; [done|cbn; lia|done| | | | |intros _; apply in_order_nil].
    - intros i. cbn. by destruct (tm_tab tm !! i).
    - by intros i ?%elem_of_nil.
    - by intros i t ?%elem_of_nil.
    - intros _ i Hi. pose proof (tr_sorted _ _ HR c Hc) as Hso. destruct (TQ c) as [|j l]; [by apply elem_of_nil in Hi|].
      specialize (Hh j eq_refl). cbn in Hso. apply StronglySorted_cons in Hso as [Hle _]. apply elem_of_cons in Hi as [->|Hi]; [done|].
      rewrite Forall_forall in Hle. specialize (Hle (expiry tm i)). assert (expiry tm i ∈ expiry tm <$> l) by (apply list_elem_of_fmap; by exists i).
      specialize (Hle ltac:(done)). lia. }
  pose proof (tr_dll tm TQ HR c Hc) as Hd. rewrite (list_empty_spec _ _ _ Hd), some_bind.
  destruct (TQ c) as [|i l] eqn:El; [by apply Hs|]. rewrite bool_decide_eq_false_2 by done.
  rewrite (get_next_nxt _ _ _ (dll_first _ _ _ Hd)), some_bind. cbn [fmap list_fmap head default tm_entry id]. rewrite some_bind.
  destruct (tr_timer tm TQ HR c i Hc ltac:(rewrite El; set_solver)) as (t & Ht & Hact). rewrite Ht, some_bind, Z.gtb_ltb.
  assert (expiry tm i = expire_tick t) as Ee by (unfold expiry; by rewrite Ht).
  destruct (Z.ltb_spec now (expire_tick t)) as [Hlt|Hge]; [apply Hs; intros j [= <-]; by rewrite Ee|].
  destruct (fire_step tm TQ c i l t HR Hc El Ht) as (h & tm1 & Eh & E1 & Et1 & TQ1 & HR1 & Ho1 & Hin1).
  unfold on_tnodes at 1. rewrite Eh, some_bind, some_bind.
  assert (∃ s1, (if negb (callback t =? 0) then run_callback (callback t) (callback_arg t) s else Some s) = Some s1 ∧ P s1 ∧
    ∀ fired, run_all run_callback (callbacks (tm_tab tm) (i :: fired)) s = run_all run_callback (callbacks (tm_tab tm1) fired) s1) as (s1 & -> & HP1 & Hrun).
  { setoid_rewrite Et1. setoid_rewrite (callbacks_fire _ _ _ _ Ht). unfold callbacks. cbn [omap list_omap]. rewrite Ht, some_bind.
    destruct (callback t =? 0); cbn [negb]; [by exists s|]. destruct (Hcb (callback t) (callback_arg t) s HP) as (s1 & E & HP1).
    exists s1. split; [done|]. split; [done|]. intros fired. cbn [run_all fst snd]. by rewrite E, some_bind. }
  assert (clock_room now tm (i :: l) → clock_room now tm1 (TQ1 c) ∧ ∀ j, expiry tm j <= expiry tm1 j) as Hroom.
  { apply (clock_room_step now tm tm1 i t); [done|done|set_solver|done|]. intros j Hj. rewrite <- El. by apply Hin1. }
  assert (StronglySorted Z.le (expiry tm <$> i :: l)) as Hso by (rewrite <- El; by apply (tr_sorted _ _ HR)).
  rewrite some_bind. unfold fire in E1. destruct (interval t >? 0) eqn:Ei; cbn [expire_tick] in E1; rewrite E1, some_bind; clear E1.
  all: destruct (IH tm1 s1 TQ1 HR1 Hc HP1) as (tm2 & s2 & fired & TQ2 & -> & [HP2 Hs2] & [F1 F2 F3 F4 F5 F6 F7 F8]); rewrite some_bind.
  all: exists tm2, s2, (i :: fired), TQ2; split; [done|]; split; [split; [done|by rewrite Hrun]|].
  all: assert (∀ j, j ∈ fired → j ∈ TQ c ∧ expiry tm j <= now) as Hdue by
    (intros j Hj; destruct (decide (j = i)) as [->|Hne]; [rewrite El, Ee; split; [set_solver|done]|];
     destruct (F5 j Hj) as [Hq Hx]; split; [by apply Hin1|]; unfold expiry in *; by rewrite Et1, lookup_insert_ne in Hx).
  all: split; [done|cbn; lia|intros c' Hne; by rewrite F3, Ho1| | | | |].
  all: try (rewrite El; intros Hr; destruct (Hroom Hr) as [Hr1 Hup];
    apply (in_order_cons tm tm1 tm2 i t l (TQ1 c)); try done; [|by apply F8]; intros j; rewrite <- El; apply Hin1).
  all: try (intros j; rewrite F4, Et1; cbn [count_occ]; destruct (Z.eq_dec i j) as [->|Hne];
    [rewrite lookup_insert_eq, Ht; cbn [fmap option_fmap option_map]; by rewrite Nat.iter_succ_r|by rewrite lookup_insert_ne]).
  all: try (intros j [->|Hj]%elem_of_cons; [rewrite El, Ee; split; [set_solver|done]|by apply Hdue]).
  all: try (cbn [length]; intros Hlen; apply F7; lia).
  all: intros j tj Hj Htj Hiv; cbn [count_occ]; destruct (Z.eq_dec i j) as [->|Hne];
    [|apply elem_of_cons in Hj as [Hj|Hj]; [congruence|]; apply (F6 j tj); [done| |done]; by rewrite Et1, lookup_insert_ne].
  - assert (tj = t) as -> by congruence. rewrite Z.gtb_ltb in Ei. apply Z.ltb_lt in Ei. lia.
  - f_equal. apply count_occ_not_In. intros Hin%list_elem_of_In. destruct (F5 j Hin) as [Hq _].
    destruct (tr_timer tm1 TQ1 HR1 c j Hc Hq) as (t1 & Et & Hst). rewrite Et1, lookup_insert_eq in Et. injection Et as <-.
    unfold fire in Hst. rewrite Ei in Hst. done.
Qed.
End loop.
