(* ===== verification/TimerTheorems.v ===== *)
(** * Theorems about the timers *)

From stdpp Require Import sorting.
From S2P Require Import Prelude KList OrdList Bitmap SchedTypes Sched Threads Smp Sleep SwTimer.
From S2P Require Import SchedRep SchedInv SchedOps SchedCalls SchedSleep SchedSystem SchedTheorems SwTimerSpec.

Set Default Goal Selector "!".

(** ** Periodic timers do not drift *)

Lemma u64_add_l a b : u64 (u64 a + b) = u64 (a + b).
Proof. unfold u64. by rewrite Zplus_mod_idemp_l. Qed.

Lemma iter_fire_periodic k t : 0 < interval t → Nat.iter (S k) fire t =
  SwTimer (u64 (expire_tick t + Z.of_nat (S k) * interval t)) (interval t) (callback t) (callback_arg t) TIMER_STATE_ACTIVE.
Proof.
  intros Hi. assert (∀ t, 0 < interval t → fire t = SwTimer (u64 (expire_tick t + interval t)) (interval t) (callback t) (callback_arg t) TIMER_STATE_ACTIVE) as Hf.
  { intros t' Ht'. unfold fire. by rewrite Z.gtb_ltb, (proj2 (Z.ltb_lt _ _)). }
  induction k as [|k IH].
  - cbn [Nat.iter]. rewrite Hf by done. do 2 f_equal. lia.
  - rewrite Nat.iter_succ, IH, Hf by done. cbn [expire_tick interval callback callback_arg]. rewrite u64_add_l. do 2 f_equal. lia.
Qed.

(** ** An initial state *)

Lemma trep_init tm : (∀ c, is_cpu c → dll (tm_nodes tm) (TmHead c) []) → (∀ i, i ∈ dom (tm_tab tm) → dll (tm_nodes tm) (TmNode i) []) →
  (∀ i t, tm_tab tm !! i = Some t → tm_state t ≠ TIMER_STATE_ACTIVE) → trep tm (λ _, []).
Proof.
  intros Hh Hn Hst. assert (∀ i, ¬ in_queue (λ _, []) i) as Hno by (intros i (c & _ & Hin); by apply elem_of_nil in Hin). split.
  - destruct (selfs_lists_rep (tm_nodes tm)) as (M & HM & Hself). exists M. split; [done|]. split.
    + intros c Hc. by apply Hself, Hh.
    + intros i Hi _. by apply Hself, Hn.
  - intros i. split; [intros Hq; by destruct (Hno i)|]. intros (t & Ht & Ha). by destruct (Hst i t Ht).
  - intros c _. constructor.
Qed.

(** ** The whole interrupt *)

(** C25: the timer interrupt fires software timers of its CPU that are due, eight
    at most.  The callbacks it runs are those of the timers it fires, in the
    order of firing and nothing else; then it wakes threads and runs the tick of
    the scheduler.  Unless a periodic timer would be armed past the end of the
    64-bit clock ([clock_room]), the firings are in the order of their expiries
    and what stays queued expires no earlier than any of them.  A one-shot timer
    fires once and is expired, a periodic one moves on by whole intervals and
    stays armed, no other timer changes, and when fewer than eight fired none
    that is due is left.  Callbacks are a parameter that acts on the scheduler
    and keeps it consistent; they do not start or stop timers. *)
Theorem timer_interrupt_fires (run_callback : Z → Z → sched → option sched) (c : Z) (tm : timers) (s : sched) (TQ : tqueues) :
  sched_ok s → trep tm TQ → is_cpu c → (∀ cb arg s, sched_ok s → ∃ s', run_callback cb arg s = Some s' ∧ sched_ok s') →
  let now := u64 (s_system_ticks s + 1) in
  ∃ tm' s' fired TQ', timer_interrupt_handler run_callback c tm s = Some (tm', s', fired) ∧ sched_ok s' ∧ trep tm' TQ' ∧
    (∃ s1 s2, run_all run_callback (callbacks (tm_tab tm) fired) (upd_ticks now s) = Some s1 ∧
       wakeup_loop TIMER_IRQ_MAX_WAKEUPS c now s1 = Some s2 ∧ scheduler_tick c s2 = Some s') ∧
    (clock_room now tm (TQ c) → StronglySorted Z.le (deadlines (tm_tab tm) fired) ∧
       ∀ d i, d ∈ deadlines (tm_tab tm) fired → i ∈ TQ' c → d <= expiry tm' i) ∧
    (length fired <= TIMER_IRQ_MAX_CALLBACKS)%nat ∧ (∀ i, i ∈ fired → i ∈ TQ c ∧ expiry tm i <= now) ∧
    (∀ i, i ∉ fired → tm_tab tm' !! i = tm_tab tm !! i) ∧
    (∀ i t, i ∈ fired → tm_tab tm !! i = Some t → interval t <= 0 →
       times i fired = 1%nat ∧ tm_tab tm' !! i = Some (set_tm_state TIMER_STATE_EXPIRED t)) ∧
    (∀ i t, i ∈ fired → tm_tab tm !! i = Some t → 0 < interval t → tm_tab tm' !! i =
       Some (SwTimer (u64 (expire_tick t + Z.of_nat (times i fired) * interval t)) (interval t) (callback t) (callback_arg t) TIMER_STATE_ACTIVE)) ∧
    ((length fired < TIMER_IRQ_MAX_CALLBACKS)%nat → ∀ i, i ∈ TQ' c → now < expiry tm' i).
Proof.
  intros HW HR Hc Hcb now. unfold timer_interrupt_handler. fold now.
  assert (sched_ok (upd_ticks now s)) as HW1.
  { destruct (wfl_same s (upd_ticks now s) (ready_list s) (sleep_list s) None) as [HW1 _]; try done; apply HW. }
  destruct (timer_loop_spec run_callback sched_ok Hcb TIMER_IRQ_MAX_CALLBACKS c now tm _ TQ HR Hc HW1)
    as (tm1 & s1 & fired & TQ1 & -> & [HW2 Hrun] & [F1 F2 F3 F4 F5 F6 F7 F8]). rewrite some_bind.
  destruct (wakeup_loop_wf TIMER_IRQ_MAX_WAKEUPS c now s1 _ _ HW2 Hc) as (s2 & Q2 & SL2 & Ew & HW3 & _). rewrite Ew, some_bind.
  destruct (tick_ok s2 Q2 SL2 c HW3 Hc) as (s3 & Et & HW4 & _). rewrite Et, some_bind.
  exists tm1, s3, fired, TQ1. split; [done|]. split; [by eapply wfs_sched_ok|]. split; [done|].
  split; [by exists s1, s2|]. split; [intros Hr; destruct (F8 Hr); by split|]. split; [done|]. split; [done|].
  assert (∀ i, i ∈ fired → ∃ k, times i fired = S k) as Hpos.
  { intros i Hi. apply list_elem_of_In, (count_occ_In Z.eq_dec) in Hi. destruct (times i fired) as [|k]; [lia|by exists k]. }
  split; [|split; [|split; [|done]]].
  - intros i Hi. rewrite F4. assert (times i fired = 0%nat) as ->; [|by destruct (tm_tab tm !! i)].
    apply count_occ_not_In. by intros ?%list_elem_of_In.
  - intros i t Hi Ht Hiv. pose proof (F6 i t Hi Ht Hiv) as E1. split; [done|]. rewrite F4, E1, Ht. cbn. unfold fire.
    by rewrite Z.gtb_ltb, (proj2 (Z.ltb_ge _ _)).
  - intros i t Hi Ht Hiv. rewrite F4, Ht. destruct (Hpos i Hi) as (k & Ek). rewrite Ek. cbn [fmap option_fmap option_map]. f_equal.
    by apply iter_fire_periodic.
Qed.

(** On a CPU without software timers the handler is what [Sleep] calls
    [timer_interrupt]. *)
Lemma interrupt_without_timers run_callback c tm s : list_empty (Some (TmHead c)) (tm_nodes tm) = Some true →
  timer_interrupt_handler run_callback c tm s = (s' ← timer_interrupt c s; Some (tm, s', [])).
Proof.
  intros He. unfold timer_interrupt_handler, timer_interrupt. cbn [TIMER_IRQ_MAX_CALLBACKS timer_loop]. rewrite He, !some_bind.
  destruct (wakeup_loop _ _ _ _) as [s1|]; [|done]. rewrite !some_bind. by destruct (scheduler_tick c s1).
Qed.

(** *** A concrete run: a one-shot timer at tick 1, a periodic one every tick *)

Definition self (a : taddr) : taddr * list_head taddr := (a, LH (Some a) (Some a)).
Definition demo_timers : timers :=
  Timers (list_to_map [(1, SwTimer 0 0 0x1000 0 TIMER_STATE_IDLE); (2, SwTimer 0 0 0x2000 0 TIMER_STATE_IDLE)])
         (list_to_map ((self ∘ TmHead <$> seqZ 0 8) ++ (self ∘ TmNode <$> [1; 2]))).

Lemma demo_timers_rep : trep demo_timers (λ _, []).
Proof.
  apply trep_init.
  - intros c Hc. assert (c ∈ seqZ 0 8) as Hin by (apply elem_of_seqZ; exact Hc). clear Hc.
    assert (Forall (λ c, dll (tm_nodes demo_timers) (TmHead c) []) (seqZ 0 8)) as Hall; [|by rewrite Forall_forall in Hall; apply Hall].
    change (seqZ 0 8) with [0; 1; 2; 3; 4; 5; 6; 7]. repeat constructor; first [set_solver | vm_compute; reflexivity].
  - intros i Hi. apply elem_of_dom in Hi as [t Ht]. cbn in Ht.
    apply lookup_insert_Some in Ht as [[<- _]|[_ Ht]]; [apply dll_nil; split; vm_compute; reflexivity|].
    apply lookup_insert_Some in Ht as [[<- _]|[_ Ht]]; [apply dll_nil; split; vm_compute; reflexivity|]. by rewrite lookup_empty in Ht.
  - intros i t Ht. cbn in Ht. apply lookup_insert_Some in Ht as [[_ <-]|[_ Ht]]; [done|].
    apply lookup_insert_Some in Ht as [[_ <-]|[_ Ht]]; [done|]. by rewrite lookup_empty in Ht.
Qed.

Definition no_effect (cb arg : Z) (s : sched) : option sched := Some s.

Lemma timer_interrupt_fires_witness : ∃ tm1 tm2 tm' s' fired,
  timer_start_oneshot 0 (Some 1) 1 0 demo_timers = Some tm1 ∧ timer_start_periodic 0 (Some 2) 1 0 tm1 = Some tm2 ∧
  timer_interrupt_handler no_effect 0 tm2 (kt_sched (Demo.run (demo_ops ++ [OStart 0]))) = Some (tm', s', fired) ∧ sched_ok s' ∧
  (∀ i, i ∈ fired → expiry tm2 i <= 1) ∧ StronglySorted Z.le (deadlines (tm_tab tm2) fired).
Proof.
  destruct (start_oneshot_spec demo_timers (λ _, []) 0 1 (SwTimer 0 0 0x1000 0 TIMER_STATE_IDLE) 1 0 demo_timers_rep) as (tm1 & E1 & T1 & R1);
    [by unfold is_cpu|vm_compute; reflexivity|].
  destruct (start_periodic_spec tm1 _ 0 2 (SwTimer 0 0 0x2000 0 TIMER_STATE_IDLE) 1 0 R1) as (tm2 & E2 & T2 & R2);
    [by unfold is_cpu|rewrite T1; vm_compute; reflexivity|].
  destruct (timer_interrupt_fires no_effect 0 tm2 (kt_sched (Demo.run (demo_ops ++ [OStart 0]))) _ (reach_ok _ _ _ _ demo_started) R2)
    as (tm' & s' & fired & TQ' & E & Hok & _ & _ & Hord & _ & Hdue & _); [by unfold is_cpu|intros cb arg s Hs; by exists s|].
  exists tm1, tm2, tm', s', fired. split; [exact E1|]. split; [exact E2|]. split; [exact E|]. split; [exact Hok|].
  split; [intros i Hi; destruct (Hdue i Hi) as [_ Hx]; revert Hx; generalize (expiry tm2 i); intros x; vm_compute; exact (λ y, y)|].
  apply Hord. intros i t _. rewrite T2, T1. change (u64 _) with 1. intros [[_ <-]|[_ [[_ <-]|[_ Ht]]%lookup_insert_Some]]%lookup_insert_Some.
  1-2: vm_compute; by split.
  cbn in Ht. apply lookup_insert_Some in Ht as [[_ <-]|[_ [[_ <-]|[_ Ht]]%lookup_insert_Some]]; [vm_compute; by split..|].
  by rewrite lookup_empty in Ht.
Defined.

(** ** Wall-clock time *)

(** The nanosecond clock is the counter scaled down exactly while the product
    fits in 64 bits, and is never more than that: past that point it falls behind. *)
Theorem timer_get_ns_exact (counts freq : Z) : 0 <= counts → 0 < freq →
  (counts * 1000000000 < 2 ^ 64 → timer_get_ns counts freq = counts * 1000000000 / freq) ∧
  timer_get_ns counts freq <= counts * 1000000000 / freq ∧ 0 <= timer_get_ns counts freq < 2 ^ 64.
Proof.
  intros Hc Hf. unfold timer_get_ns. rewrite (proj2 (Z.eqb_neq _ _)) by lia. unfold u64. split; [|split; [|split]].
  - intros Hlt. rewrite Z.mod_small by lia. done.
  - apply Z.div_le_mono; [done|]. apply Z.mod_le; lia.
  - apply Z.div_pos; [|done]. apply Z.mod_pos_bound. lia.
  - pose proof (Z.mod_pos_bound (counts * 1000000000) (2 ^ 64) ltac:(lia)). apply Z.div_lt_upper_bound; [done|]. nia.
Qed.

Lemma timer_get_ns_exact_witness : timer_get_ns 62500000 62500000 = 1000000000.
Proof. destruct (timer_get_ns_exact 62500000 62500000) as [H _]; [lia|lia|]. rewrite H by lia. reflexivity. Defined.

(** At 62.5 MHz the clock wraps after about five minutes. *)
Example timer_get_ns_wraps : timer_get_ns (62500000 * 296) 62500000 < timer_get_ns (62500000 * 295) 62500000.
Proof. vm_compute. reflexivity. Qed.
