(* ===== verification/Notification.v ===== *)
(** * Notifications (kernel/ipc/notification.c)

    Words of signal bits that threads and interrupt handlers set and that a
    thread waits for.  A notification is addressed by an identifier that holds
    its index and a generation.  [c] is the CPU that runs the function.  No lock
    protects an object; the accesses to its signal word are atomic.

    [ipc_notification_wait] is four transitions, between which other calls run:
    the check of the pending bits, the stores that announce the waiter, the
    switch to another thread, and what follows when the thread runs again.  Each
    other call is one transition, so that interleavings inside a signal or a
    destruction are not covered. *)

From S2P Require Import Prelude KList SchedTypes Sched Threads.

Set Default Goal Selector "!".

(** ** Data *)

Definition CONFIG_IPC_MAX_NOTIFICATIONS : Z := 128.
Definition IPC_TIMEOUT_NONBLOCK : Z := 0.

Inductive ipc_notify_state_t := IPC_NOTIFY_IDLE | IPC_NOTIFY_PENDING | IPC_NOTIFY_WAITING.

#[global] Instance notify_state_eq_dec : EqDecision ipc_notify_state_t.
Proof. solve_decision. Defined.

(** The list node is initialised and never linked. *)
Record ipc_notification_t := Ntf {
  n_id : Z; n_state : ipc_notify_state_t; n_signals : Z; n_waited_mask : Z; n_waiter_tid : Z; n_generation : Z
}.

Record nsys := NSys {
  s_notifications : list ipc_notification_t;
  s_free_notify_stack : list Z;
  s_free_notify_count : Z
}.

Definition get_ntf (n : nsys) (i : Z) : option ipc_notification_t := (s_notifications n).[i].
Definition set_ntf (i : Z) (x : ipc_notification_t) (n : nsys) : option nsys :=
  l ← zupdate (s_notifications n) i x; Some (NSys l (s_free_notify_stack n) (s_free_notify_count n)).

(** ** Indices and identifiers *)

Definition alloc_notify_index (n : nsys) : option (nsys * Z) :=
  if s_free_notify_count n =? 0 then Some (n, - EINVAL)
  else
    let count := s_free_notify_count n - 1 in
    idx ← (s_free_notify_stack n).[count];
    Some (NSys (s_notifications n) (s_free_notify_stack n) count, idx).

Definition free_notify_index (idx : Z) (n : nsys) : option nsys :=
  st ← zupdate (s_free_notify_stack n) (s_free_notify_count n) idx;
  Some (NSys (s_notifications n) st (u32 (s_free_notify_count n + 1))).

(** The index of the object; [None] inside for NULL. *)
Definition get_notification (notify_id : Z) (n : nsys) : option (option Z) :=
  if notify_id =? KOBJ_ID_INVALID then Some None
  else
    let idx := Z.land notify_id 0xFFFF in
    if idx >=? CONFIG_IPC_MAX_NOTIFICATIONS then Some None
    else
      let gen := Z.land (Z.shiftr notify_id 16) 0xFFFF in
      x ← get_ntf n idx;
      if negb (n_generation x =? gen) then Some None else Some (Some idx).

(** [generation++], skipping 0 *)
Definition next_generation (g : Z) : Z := let g := u16 (g + 1) in if g =? 0 then 1 else g.

(** ** Creation and destruction *)

Definition idle_ntf : ipc_notification_t := Ntf KOBJ_ID_INVALID IPC_NOTIFY_IDLE 0 0 THREAD_ID_INVALID 0.

Fixpoint init_notifications (k : nat) (i : Z) (n : nsys) : option nsys :=
  match k with
  | O => Some n
  | S k =>
      st ← zupdate (s_free_notify_stack n) i (CONFIG_IPC_MAX_NOTIFICATIONS - 1 - i);
      l ← zupdate (s_notifications n) i idle_ntf;
      init_notifications k (i + 1) (NSys l st (i + 1))
  end.

Definition ipc_notification_subsys_init (n : nsys) : option (nsys * Z) :=
  n ← init_notifications (Z.to_nat CONFIG_IPC_MAX_NOTIFICATIONS) 0 n; Some (n, KERNEL_OK).

(** [out] says whether the output pointer is not NULL; the identifier stored
    through it is the second result. *)
Definition ipc_notification_create (owner_tid : Z) (out : bool) (n : nsys) : option (nsys * (Z * option Z)) :=
  if negb out then Some (n, (- EINVAL, None))
  else if owner_tid >=? CONFIG_MAX_THREADS then Some (n, (- EINVAL, None))
  else
    r ← alloc_notify_index n;
    let '(n, idx) := r in
    if idx <? 0 then Some (n, (- ENOMEM, None))
    else
      x ← get_ntf n idx;
      let gen := next_generation (n_generation x) in
      let id := Z.lor (u32 (Z.shiftl gen 16)) idx in
      n ← set_ntf idx (Ntf id IPC_NOTIFY_IDLE 0 0 THREAD_ID_INVALID gen) n;
      Some (n, (KERNEL_OK, Some id)).

(** The thread that [waiter_tid] names when it is blocked. *)
Definition blocked_waiter (t : Z) (s : sched) : option (option Z) :=
  th ← get_thread s t;
  Some (if bool_decide (tstate th = KTHREAD_STATE_BLOCKED) then Some t else None).

Definition ipc_notification_destroy (c notify_id : Z) (s : sched) (n : nsys) : option (sched * nsys * Z) :=
  g ← get_notification notify_id n;
  match g with
  | None => Some (s, n, - EINVAL)
  | Some i =>
      x ← get_ntf n i;
      r ← (if bool_decide (n_state x = IPC_NOTIFY_WAITING) && negb (n_waiter_tid x =? THREAD_ID_INVALID) &&
              (n_waiter_tid x <? CONFIG_MAX_THREADS) then
             w ← blocked_waiter (n_waiter_tid x) s;
             match w with
             | Some t => s ← on_thread t (set_tstate KTHREAD_STATE_READY) s; Some (s, Some t)
             | None => Some (s, None)
             end
           else Some (s, None));
      let '(s, wake_waiter) := r in
      n ← set_ntf i (Ntf KOBJ_ID_INVALID IPC_NOTIFY_IDLE 0 0 THREAD_ID_INVALID (next_generation (n_generation x))) n;
      let idx := Z.land notify_id 0xFFFF in
      s ← scheduler_enqueue c wake_waiter s;
      n ← free_notify_index idx n;
      Some (s, n, KERNEL_OK)
  end.

(** ** Signals *)

Definition set_signals v x := Ntf (n_id x) (n_state x) v (n_waited_mask x) (n_waiter_tid x) (n_generation x).
Definition set_nstate v x := Ntf (n_id x) v (n_signals x) (n_waited_mask x) (n_waiter_tid x) (n_generation x).

Definition ipc_notification_signal (c notify_id signal : Z) (s : sched) (n : nsys) : option (sched * nsys * Z) :=
  if signal =? 0 then Some (s, n, - EINVAL)
  else
    g ← get_notification notify_id n;
    match g with
    | None => Some (s, n, - EINVAL)
    | Some i =>
        x ← get_ntf n i;
        let cur_signals := Z.lor (n_signals x) signal in
        s ← (if bool_decide (n_state x = IPC_NOTIFY_WAITING) && negb (Z.land cur_signals (n_waited_mask x) =? 0) then
               if n_waiter_tid x <? CONFIG_MAX_THREADS then
                 w ← blocked_waiter (n_waiter_tid x) s;
                 match w with
                 | Some t => s ← on_thread t (set_tstate KTHREAD_STATE_READY) s; scheduler_enqueue c (Some t) s
                 | None => Some s
                 end
               else Some s
             else Some s);
        n ← set_ntf i (set_nstate IPC_NOTIFY_PENDING (set_signals cur_signals x)) n;
        Some (s, n, KERNEL_OK)
    end.

(** What the check ends with: a status with the bits it took, or the caller is
    going to wait for object [i]. *)
Inductive wait_result := Waited (status : Z) (triggered : option Z) | MustBlock (i : Z).

(** [~active] on 64 bits *)
Definition not64 (x : Z) : Z := u64 (Z.lnot x).

(** Up to the check of the pending bits. *)
Definition ipc_notification_wait (c notify_id waited_mask : Z) (triggered : bool) (s : sched) (n : nsys) : option (nsys * wait_result) :=
  if (waited_mask =? 0) || negb triggered then Some (n, Waited (- EINVAL) None)
  else
    g ← get_notification notify_id n;
    match g with
    | None => Some (n, Waited (- EINVAL) None)
    | Some i =>
        current ← kthread_get_current c s;
        match current with
        | None => Some (n, Waited (- ESRCH) None)
        | Some _ =>
            x ← get_ntf n i;
            let active := Z.land (n_signals x) waited_mask in
            if negb (active =? 0) then
              n ← set_ntf i (set_nstate IPC_NOTIFY_IDLE (set_signals (Z.land (n_signals x) (not64 active)) x)) n;
              Some (n, Waited KERNEL_OK (Some active))
            else Some (n, MustBlock i)
        end
    end.

(** Thread [cur] names itself as the waiter; it holds the pointer to the object. *)
Definition notification_wait_announce (cur i waited_mask : Z) (s : sched) (n : nsys) : option nsys :=
  x ← get_ntf n i;
  th ← get_thread s cur;
  set_ntf i (Ntf (n_id x) IPC_NOTIFY_WAITING (n_signals x) waited_mask (tid th) (n_generation x)) n.

(** It blocks and is switched out. *)
Definition notification_wait_block (c cur : Z) (s : sched) : option sched :=
  s ← on_thread cur (set_tstate KTHREAD_STATE_BLOCKED) s;
  do_schedule c s.

(** The rest, when the thread runs again; it still holds the pointer. *)
Definition notification_wait_resume (i waited_mask : Z) (n : nsys) : option (nsys * Z) :=
  x ← get_ntf n i;
  let active := Z.land (n_signals x) waited_mask in
  n ← set_ntf i (Ntf (n_id x) IPC_NOTIFY_IDLE (Z.land (n_signals x) (not64 active)) 0 THREAD_ID_INVALID (n_generation x)) n;
  Some (n, active).

Definition ipc_notification_try_wait (notify_id waited_mask : Z) (triggered : bool) (n : nsys) : option (nsys * (Z * option Z)) :=
  if (waited_mask =? 0) || negb triggered then Some (n, (- EINVAL, None))
  else
    g ← get_notification notify_id n;
    match g with
    | None => Some (n, (- EINVAL, None))
    | Some i =>
        x ← get_ntf n i;
        let active := Z.land (n_signals x) waited_mask in
        if active =? 0 then Some (n, (- EAGAIN, None))
        else
          let remaining := Z.land (n_signals x) (not64 active) in
          let st := if remaining =? 0 then IPC_NOTIFY_IDLE else n_state x in
          n ← set_ntf i (set_nstate st (set_signals remaining x)) n;
          Some (n, (KERNEL_OK, Some active))
    end.

Definition ipc_notification_wait_timeout (c notify_id waited_mask : Z) (triggered : bool) (timeout_ms : Z) (s : sched) (n : nsys)
  : option (nsys * wait_result) :=
  if timeout_ms =? IPC_TIMEOUT_NONBLOCK then
    r ← ipc_notification_try_wait notify_id waited_mask triggered n;
    Some (r.1, Waited r.2.1 r.2.2)
  else ipc_notification_wait c notify_id waited_mask triggered s n.
