(* ===== verification/NotificationSpec.v ===== *)
(** * Notifications against their invariant

    The free indices are exactly those of the objects without an identifier,
    identifiers are built from generation and index, and a notification in the
    waiting state names a thread.  Every call keeps this and the invariant of the
    scheduler. *)

From S2P Require Import Prelude KList Bitmap SchedTypes Sched Threads Sleep SchedRep SchedInv SchedOps SchedCalls SchedThreads SchedSystem Notification.

Set Default Goal Selector "!".

#[local] Arguments Z.pow : simpl never.

(** ** The invariant *)

Definition w64 (x : Z) : Prop := 0 <= x < 2 ^ 64.

(** The identifier of generation [g] at index [i]. *)
Definition make_id (g i : Z) : Z := g * 65536 + i.

Record ntf_ok (i : Z) (x : ipc_notification_t) : Prop := NtfOk {
  nk_gen : 0 <= n_generation x < 65536;
  nk_id : n_id x = KOBJ_ID_INVALID ∨ (1 <= n_generation x ∧ n_id x = make_id (n_generation x) i);
  nk_signals : w64 (n_signals x);
  nk_waiting : n_state x = IPC_NOTIFY_WAITING → is_tid (n_waiter_tid x)
}.

Definition free_indices (n : nsys) : list Z := take (Z.to_nat (s_free_notify_count n)) (s_free_notify_stack n).

Record nsys_ok (n : nsys) : Prop := NSysOk {
  nk_len : length (s_notifications n) = 128%nat;
  nk_slen : length (s_free_notify_stack n) = 128%nat;
  nk_count : 0 <= s_free_notify_count n <= 128;
  nk_objs : ∀ i x, get_ntf n i = Some x → ntf_ok i x;
  nk_nodup : NoDup (free_indices n);
  nk_free : ∀ i, i ∈ free_indices n ↔ ∃ x, get_ntf n i = Some x ∧ n_id x = KOBJ_ID_INVALID
}.

(** [id] was returned by a creation and not destroyed since. *)
Definition live_id (n : nsys) (id : Z) : Prop := ∃ x, get_ntf n (Z.land id 0xFFFF) = Some x ∧ n_id x = id ∧ id ≠ KOBJ_ID_INVALID.

(** ** Identifiers *)

Lemma id_parts g i : 0 <= g < 65536 → 0 <= i < 128 →
  Z.lor (u32 (Z.shiftl g 16)) i = make_id g i ∧ Z.land (make_id g i) 0xFFFF = i ∧ Z.land (Z.shiftr (make_id g i) 16) 0xFFFF = g.
Proof.
  intros Hg Hi. unfold make_id. change 0xFFFF with (Z.ones 16). rewrite !Z.land_ones by lia. rewrite Z.shiftr_div_pow2, Z.shiftl_mul_pow2 by lia.
  change (2 ^ 16) with 65536. rewrite u32_small by lia.
  assert (Z.land (g * 65536) i = 0) as Hz.
  { apply Z.bits_inj'. intros m Hm. rewrite Z.land_spec, Z.bits_0. change 65536 with (2 ^ 16). destruct (Z.ltb_spec m 16).
    - by rewrite Z.mul_pow2_bits_low by lia.
    - destruct (decide (i = 0)) as [->|]; [by rewrite Z.bits_0, andb_false_r|]. rewrite (Z.bits_above_log2 i), andb_false_r; [done|lia|].
      apply Z.log2_lt_pow2; [lia|]. assert (2 ^ 7 <= 2 ^ m) by (apply Z.pow_le_mono_r; lia). lia. }
  split.
  - pose proof (Z.add_lor_land (g * 65536) i) as E. lia.
  - split; Z.div_mod_to_equations; lia.
Qed.

Lemma next_generation_range g : 0 <= g < 65536 → 1 <= next_generation g < 65536.
Proof.
  intros Hg. unfold next_generation. pose proof (u16_range (g + 1)). change (2 ^ 16) with 65536 in *. destruct (Z.eqb_spec (u16 (g + 1)) 0); lia.
Qed.

Lemma next_generation_ne g : 0 <= g < 65536 → next_generation g ≠ g.
Proof.
  intros Hg. unfold next_generation, u16. change (2 ^ 16) with 65536.
  destruct (Z.eqb_spec ((g + 1) mod 65536) 0) as [E|E]; Z.div_mod_to_equations; lia.
Qed.

(** ** Objects *)

Lemma get_ntf_total n i : nsys_ok n → 0 <= i < 128 → ∃ x, get_ntf n i = Some x.
Proof. intros HN Hi. apply zlookup_is_Some. rewrite (nk_len _ HN). lia. Qed.

Lemma get_ntf_range n i x : nsys_ok n → get_ntf n i = Some x → 0 <= i < 128.
Proof. intros HN E. apply zlookup_Some_lt in E. rewrite (nk_len _ HN) in E. lia. Qed.

Lemma set_ntf_spec n i x : nsys_ok n → 0 <= i < 128 → ∃ n', set_ntf i x n = Some n' ∧ length (s_notifications n') = 128%nat ∧
  s_free_notify_stack n' = s_free_notify_stack n ∧ s_free_notify_count n' = s_free_notify_count n ∧
  get_ntf n' i = Some x ∧ ∀ j, j ≠ i → get_ntf n' j = get_ntf n j.
Proof.
  intros HN Hi. unfold set_ntf. pose proof (nk_len _ HN) as Hl. rewrite zupdate_total by lia.
  rewrite some_bind. eexists. split; [done|]. cbn. rewrite length_insert. split; [done|]. split; [done|].
  split; [done|]. unfold get_ntf. cbn. split; [apply zlookup_insert_eq; lia|]. intros j Hj. apply zlookup_insert_ne; [lia|done].
Qed.

(** An update that leaves the identifier alone. *)
Lemma update_ok n i x y : nsys_ok n → get_ntf n i = Some x → ntf_ok i y → n_id y = n_id x →
  ∃ n', set_ntf i y n = Some n' ∧ nsys_ok n' ∧ get_ntf n' i = Some y ∧ (∀ j, j ≠ i → get_ntf n' j = get_ntf n j) ∧ free_indices n' = free_indices n.
Proof.
  intros HN Hx Hy Hid. pose proof (get_ntf_range n i x HN Hx) as Hi.
  destruct (set_ntf_spec n i y HN Hi) as (n' & E & Hl & Hs & Hc & Hg & Ho). exists n'. split; [done|].
  assert (free_indices n' = free_indices n) as Hf by (unfold free_indices; by rewrite Hs, Hc). split; [|done]. destruct HN as [H1 H2 H3 H4 H5 H6].
  split; [done|by rewrite Hs|by rewrite Hc| |by rewrite Hf|].
  - intros j z Hz. destruct (decide (j = i)) as [->|Hne]; [|rewrite Ho in Hz by done; by apply H4]. assert (z = y) as -> by congruence. done.
  - intros j. rewrite Hf, H6. destruct (decide (j = i)) as [->|Hne]; [|by rewrite Ho]. rewrite Hg, Hx. split; intros (z & [= <-] & Ez); eexists; (split; [done|congruence]).
Qed.

Lemma get_notification_spec n id : nsys_ok n → 0 <= id →
  get_notification id n = Some None ∨ ∃ i x, get_notification id n = Some (Some i) ∧ i = Z.land id 0xFFFF ∧ get_ntf n i = Some x ∧ ntf_ok i x.
Proof.
  intros HN Hid. unfold get_notification. destruct (id =? KOBJ_ID_INVALID); [by left|]. rewrite Z.geb_leb.
  assert (0 <= Z.land id 0xFFFF) as H0 by (apply Z.land_nonneg; by left).
  destruct (Z.leb_spec CONFIG_IPC_MAX_NOTIFICATIONS (Z.land id 0xFFFF)) as [?|Hlt]; [by left|]. unfold CONFIG_IPC_MAX_NOTIFICATIONS in Hlt.
  destruct (get_ntf_total n (Z.land id 0xFFFF) HN ltac:(lia)) as (x & Hx). rewrite Hx, some_bind.
  destruct (negb _); [by left|right]. exists (Z.land id 0xFFFF), x. split; [done|]. split; [done|]. split; [done|]. by apply (nk_objs _ HN).
Qed.

(** A live identifier is found. *)
Lemma live_found n id : nsys_ok n → live_id n id → get_notification id n = Some (Some (Z.land id 0xFFFF)).
Proof.
  intros HN (x & Hx & Hid & Hne). pose proof (get_ntf_range _ _ _ HN Hx) as Hi. unfold get_notification. rewrite (proj2 (Z.eqb_neq _ _)) by done.
  rewrite Z.geb_leb, (proj2 (Z.leb_gt _ _)) by (unfold CONFIG_IPC_MAX_NOTIFICATIONS; lia). rewrite Hx, some_bind.
  destruct (nk_objs _ HN _ _ Hx) as [Hg [H0|[_ Hm]] _ _]; [congruence|]. rewrite Hid in Hm.
  destruct (id_parts (n_generation x) (Z.land id 0xFFFF) Hg Hi) as (_ & _ & Hp). rewrite <- Hm in Hp. by rewrite Hp, Z.eqb_refl.
Qed.

(** ** Start-up *)

Lemma init_loop k i n : Z.of_nat k + i = 128 → 0 <= i → length (s_notifications n) = 128%nat → length (s_free_notify_stack n) = 128%nat →
  s_free_notify_count n = i ∨ i = 0 →
  ∃ n', init_notifications k i n = Some n' ∧ length (s_notifications n') = 128%nat ∧ length (s_free_notify_stack n') = 128%nat ∧
    (k ≠ 0%nat → s_free_notify_count n' = 128) ∧
    ∀ j, (j < i → get_ntf n' j = get_ntf n j ∧ (s_free_notify_stack n').[j] = (s_free_notify_stack n).[j]) ∧
         (i <= j < 128 → get_ntf n' j = Some idle_ntf ∧ (s_free_notify_stack n').[j] = Some (127 - j)).
Proof.
  revert i n. induction k as [|k IH]; intros i n Hk Hi Hl1 Hl2 Hc; cbn [init_notifications].
  { exists n. split; [done|]. split; [done|]. split; [done|]. split; [done|]. intros j. split; [done|lia]. }
  rewrite (zupdate_total (s_free_notify_stack n)) by lia. rewrite some_bind. rewrite (zupdate_total (s_notifications n)) by lia. rewrite some_bind.
  set (n1 := NSys _ _ _). destruct (IH (i + 1) n1) as (n' & E & G1 & G2 & G3 & G4); [lia|lia|cbn; by rewrite length_insert..|by left|].
  exists n'. split; [done|]. split; [done|]. split; [done|]. split.
  { intros _. destruct k as [|k]; [|by apply G3]. injection E as <-. cbn. lia. }
  intros j. destruct (G4 j) as [Ga Gb]. split.
  - intros Hj. destruct (Ga ltac:(lia)) as [-> ->]. unfold get_ntf. cbn. rewrite !zlookup_insert_ne by lia. done.
  - intros Hj. destruct (decide (j = i)) as [->|]; [|apply Gb; lia]. destruct (Ga ltac:(lia)) as [-> ->]. unfold get_ntf. cbn.
    rewrite !zlookup_insert_eq by lia. done.
Qed.

Lemma notification_init_ok n : length (s_notifications n) = 128%nat → length (s_free_notify_stack n) = 128%nat →
  ∃ n', ipc_notification_subsys_init n = Some (n', KERNEL_OK) ∧ nsys_ok n' ∧ ∀ i x, get_ntf n' i = Some x → x = idle_ntf.
Proof.
  intros Hl1 Hl2. destruct (init_loop (Z.to_nat CONFIG_IPC_MAX_NOTIFICATIONS) 0 n) as (n' & E & G1 & G2 & G3 & G4); [done|done|done|done|by right|].
  exists n'. unfold ipc_notification_subsys_init. rewrite E, some_bind. split; [done|].
  assert (∀ i x, get_ntf n' i = Some x → x = idle_ntf) as Hall.
  { intros i x Hx. pose proof (zlookup_Some_lt _ _ _ Hx) as Hr. destruct (G4 i) as [_ Hi]. destruct (Hi ltac:(lia)) as [Hi' _]. congruence. }
  split; [|done]. specialize (G3 ltac:(done)).
  assert (∀ j v, s_free_notify_stack n' !! j = Some v ↔ (j < 128)%nat ∧ v = 127 - Z.of_nat j) as Hst.
  { intros j v. rewrite <- zlookup_nat. destruct (G4 (Z.of_nat j)) as [_ Hj]. split.
    - intros Hv. pose proof (zlookup_Some_lt _ _ _ Hv). destruct (Hj ltac:(lia)) as [_ Hj']. rewrite Hj' in Hv. injection Hv as <-. split; [lia|done].
    - intros [Hlt ->]. by apply Hj; lia. }
  assert (free_indices n' = s_free_notify_stack n') as Hf.
  { unfold free_indices. rewrite G3. apply take_ge. rewrite G2. lia. }
  split; [done|done|lia| |rewrite Hf|].
  - intros i x ->%Hall. split; [cbn; lia|by left|by split|done].
  - apply NoDup_alt. intros j k v Hj Hk. apply Hst in Hj as [? ->], Hk as [? Ek]. lia.
  - intros i. rewrite Hf. split.
    + intros [j Hj]%list_elem_of_lookup. apply Hst in Hj as [Hlt ->]. destruct (G4 (127 - Z.of_nat j)) as [_ Hg]. destruct (Hg ltac:(lia)) as [Hg' _].
      by exists idle_ntf.
    + intros (x & Hx & _). pose proof (zlookup_Some_lt _ _ _ Hx) as Hr. apply list_elem_of_lookup. exists (Z.to_nat (127 - i)). apply Hst. split; lia.
Qed.

(** ** Creation *)

Lemma create_ok_spec n owner : nsys_ok n →
  ∃ n' st r, ipc_notification_create owner true n = Some (n', (st, r)) ∧ nsys_ok n' ∧
    ((st ≠ KERNEL_OK ∧ r = None ∧ n' = n ∧ (owner < CONFIG_MAX_THREADS → free_indices n = [])) ∨
     ∃ i x, st = KERNEL_OK ∧ get_ntf n i = Some x ∧ n_id x = KOBJ_ID_INVALID ∧ r = Some (make_id (next_generation (n_generation x)) i) ∧
       get_ntf n' i = Some (Ntf (make_id (next_generation (n_generation x)) i) IPC_NOTIFY_IDLE 0 0 THREAD_ID_INVALID (next_generation (n_generation x))) ∧
       ∀ j, j ≠ i → get_ntf n' j = get_ntf n j).
Proof.
  intros HN. unfold ipc_notification_create. cbn [negb]. rewrite Z.geb_leb. destruct (Z.leb_spec CONFIG_MAX_THREADS owner) as [Hge|Hlt].
  { exists n, (- EINVAL), None. split; [done|]. split; [done|]. left. split; [done|]. split; [done|]. split; [done|lia]. }
  pose proof HN as [H1 H2 H3 H4 H5 H6]. unfold alloc_notify_index. destruct (Z.eqb_spec (s_free_notify_count n) 0) as [E0|Hne].
  { rewrite some_bind. exists n, (- ENOMEM), None. split; [done|]. split; [done|]. left. split; [done|]. split; [done|]. split; [done|].
    intros _. unfold free_indices. by rewrite E0. }
  set (k := s_free_notify_count n - 1). destruct (proj2 (zlookup_is_Some (s_free_notify_stack n) k)) as [i Hi]; [lia|]. rewrite Hi, !some_bind.
  set (n1 := NSys _ _ k).
  assert (free_indices n = free_indices n1 ++ [i]) as Hf.
  { unfold free_indices. cbn. replace (Z.to_nat (s_free_notify_count n)) with (S (Z.to_nat k)) by lia. apply take_S_r.
    unfold zlookup in Hi. by case_if. }
  destruct (proj1 (H6 i)) as (x & Hx & Hid); [rewrite Hf; set_solver|]. pose proof (get_ntf_range n i x HN Hx) as Hir.
  rewrite (proj2 (Z.ltb_ge _ _)) by lia. change (get_ntf n1 i) with (get_ntf n i). rewrite Hx, some_bind.
  set (g := next_generation (n_generation x)). pose proof (next_generation_range _ (nk_gen _ _ (H4 i x Hx))) as Hg. fold g in Hg.
  destruct (id_parts g i ltac:(lia) Hir) as (-> & Hp1 & Hp2). set (y := Ntf _ _ _ _ _ g).
  unfold set_ntf. rewrite zupdate_total by (cbn; lia). rewrite !some_bind. eexists _, KERNEL_OK, _. split; [done|].
  assert (∀ j, get_ntf (NSys (<[Z.to_nat i := y]> (s_notifications n)) (s_free_notify_stack n) k) j = if decide (j = i) then Some y else get_ntf n j) as Hgn.
  { intros j. unfold get_ntf. cbn. case_decide as Hd; [subst j; apply zlookup_insert_eq; lia|apply zlookup_insert_ne; lia]. }
  pose proof H5 as Hnd. rewrite Hf in Hnd. apply NoDup_app in Hnd as (Hnd1 & Hdis & _).
  split.
  - cbn [n1 s_notifications s_free_notify_stack s_free_notify_count]. split; cbn [s_notifications s_free_notify_stack s_free_notify_count].
    + by rewrite length_insert.
    + done.
    + lia.
    + intros j z. rewrite Hgn. case_decide as Hd; [intros [= <-]|by apply H4]. subst j. split; cbn; [lia|right; split; [lia|done]|by split|done].
    + exact Hnd1.
    + intros j. change (free_indices (NSys _ _ k)) with (free_indices n1). setoid_rewrite Hgn. case_decide as Hd.
      * subst j. split; [intros Hin; by destruct (Hdis i Hin); set_solver|]. intros (z & [= <-] & Hz). cbn in Hz. unfold make_id, KOBJ_ID_INVALID in Hz. lia.
      * rewrite <- H6, Hf. set_solver.
  - right. exists i, x. split; [done|]. split; [done|]. split; [done|]. split; [done|]. cbn [n1 s_notifications s_free_notify_stack s_free_notify_count].
    rewrite Hgn, decide_True by done. split; [done|]. intros j Hj. rewrite Hgn. by rewrite decide_False.
Qed.

(** ** Words of signal bits *)

Lemma w64_ones a : w64 a ↔ a = Z.land a (Z.ones 64).
Proof. unfold w64. rewrite Z.land_ones by lia. split; [intros; by rewrite Z.mod_small|]. intros E. pose proof (Z.mod_pos_bound a (2 ^ 64)). lia. Qed.

Lemma w64_lor a b : w64 a → w64 b → w64 (Z.lor a b).
Proof. rewrite !w64_ones. intros Ha Hb. by rewrite Z.land_lor_distr_l, <- Ha, <- Hb. Qed.

Lemma w64_ldiff a b : w64 a → w64 (Z.ldiff a b).
Proof.
  rewrite !w64_ones. intros Ha. rewrite Ha at 1. apply Z.bits_inj'. intros i Hi. rewrite !Z.land_spec, !Z.ldiff_spec, !Z.land_spec.
  by destruct (Z.testbit a i), (Z.testbit b i), (Z.testbit (Z.ones 64) i).
Qed.

(** Clearing the bits just read clears the bits of the mask. *)
Lemma clear_read a m : w64 a → Z.land a (not64 (Z.land a m)) = Z.ldiff a m.
Proof.
  intros Ha%w64_ones. unfold not64, u64. rewrite <- Z.land_ones by lia. rewrite (Z.land_comm (Z.lnot _)), Z.land_assoc, <- Ha.
  apply Z.bits_inj'. intros i Hi. rewrite Z.land_spec, Z.lnot_spec, Z.ldiff_spec, Z.land_spec by done. by destruct (Z.testbit a i), (Z.testbit m i).
Qed.

(** ** Waking and blocking *)

Lemma wake_blocked s c t : sched_ok s → is_cpu c → st_of s t = Some KTHREAD_STATE_BLOCKED →
  ∃ s1 s', on_thread t (set_tstate KTHREAD_STATE_READY) s = Some s1 ∧ scheduler_enqueue c (Some t) s1 = Some s' ∧ sched_ok s' ∧
    queued (ready_list s') c t ∧ st_of s' t = Some KTHREAD_STATE_READY ∧ ∀ c', cur_of s' c' = cur_of s c'.
Proof.
  intros HW Hc (th & Ht & Hst)%st_of_Some.
  destruct (resume_ready_wf s _ _ c t th HW Hc Ht (or_intror Hst)) as (s1 & s' & E1 & E2 & HW' & Ht' & Hcur).
  exists s1, s'. split; [done|]. split; [done|]. split; [by eapply wfs_sched_ok|]. pose proof (si_rep _ _ _ _ (wf_inv _ _ _ _ HW')) as HR'.
  assert (is_prio (prio th)) as Hp by (apply (rr_prios _ _ _ (si_rep _ _ _ _ (wf_inv _ _ _ _ HW)) t th Ht)).
  split; [|split; [apply st_of_Some; eauto|done]]. exists (prio th). split; [done|]. rewrite (ready_list_eq _ _ _ c (prio th) HR' Hc Hp).
  unfold requeue. rewrite qset_eq. set_solver.
Qed.

Lemma blocked_waiter_spec s t : sched_ok s → is_tid t →
  blocked_waiter t s = Some (if decide (st_of s t = Some KTHREAD_STATE_BLOCKED) then Some t else None).
Proof.
  intros HW Ht. unfold blocked_waiter. destruct (rr_thread _ _ _ (si_rep _ _ _ _ (wf_inv _ _ _ _ HW)) t Ht) as (th & Hth). rewrite Hth, some_bind.
  unfold st_of. rewrite Hth. cbn. case_decide as Hd; case_bool_decide as Hb; congruence.
Qed.

(** ** Signals *)

Definition signalled (b : Z) (x : ipc_notification_t) : ipc_notification_t :=
  Ntf (n_id x) IPC_NOTIFY_PENDING (Z.lor (n_signals x) b) (n_waited_mask x) (n_waiter_tid x) (n_generation x).

(** The thread that the signal wakes. *)
Definition woken (s : sched) (x : ipc_notification_t) (b : Z) : Prop :=
  n_state x = IPC_NOTIFY_WAITING ∧ Z.land (Z.lor (n_signals x) b) (n_waited_mask x) ≠ 0 ∧ st_of s (n_waiter_tid x) = Some KTHREAD_STATE_BLOCKED.

Lemma signal_found s n c id b i x : sched_ok s → nsys_ok n → is_cpu c → w64 b → b ≠ 0 →
  get_notification id n = Some (Some i) → get_ntf n i = Some x →
  ∃ s' n', ipc_notification_signal c id b s n = Some (s', n', KERNEL_OK) ∧ sched_ok s' ∧ nsys_ok n' ∧
    get_ntf n' i = Some (signalled b x) ∧ (∀ j, j ≠ i → get_ntf n' j = get_ntf n j) ∧
    (∀ c', cur_of s' c' = cur_of s c') ∧ (¬ woken s x b → s' = s) ∧
    (woken s x b → queued (ready_list s') c (n_waiter_tid x) ∧ st_of s' (n_waiter_tid x) = Some KTHREAD_STATE_READY).
Proof.
  intros HW HN Hc Hb Hb0 Hg Hx. pose proof (nk_objs _ HN i x Hx) as Hok. unfold ipc_notification_signal.
  rewrite (proj2 (Z.eqb_neq _ _)) by done. rewrite Hg, some_bind, Hx, some_bind.
  destruct (update_ok n i x (signalled b x) HN Hx) as (n' & En & HN' & Hi & Ho & _).
  { destruct Hok as [O1 O2 O3 O4]. split; [done|done|by apply w64_lor|done]. }
  { done. }
  change (set_nstate IPC_NOTIFY_PENDING (set_signals (Z.lor (n_signals x) b) x)) with (signalled b x).
  destruct (decide (woken s x b)) as [Hwk|Hno].
  - pose proof Hwk as (Hs & Hm & Hst). pose proof (nk_waiting _ _ Hok Hs) as Ht. rewrite bool_decide_eq_true_2 by done.
    rewrite (proj2 (Z.eqb_neq _ 0)) by done. cbn [andb negb]. rewrite (proj2 (Z.ltb_lt _ _)) by apply Ht. rewrite blocked_waiter_spec by done.
    rewrite decide_True by done. destruct (wake_blocked s c _ HW Hc Hst) as (s1 & s' & E1 & E2 & HW' & Hq & Hr & Hcur).
    rewrite some_bind, E1, some_bind, E2, some_bind, En, some_bind. by exists s', n'.
  - match goal with |- ∃ s' n', (?f ≫= _) = _ ∧ _ => assert (f = Some s) as -> end.
    { destruct (bool_decide (n_state x = IPC_NOTIFY_WAITING)) eqn:Hs; [|done]. apply bool_decide_eq_true in Hs.
      destruct (Z.eqb_spec (Z.land (Z.lor (n_signals x) b) (n_waited_mask x)) 0); [done|]. cbn [andb negb].
      pose proof (nk_waiting _ _ Hok Hs) as Ht. rewrite (proj2 (Z.ltb_lt _ _)) by apply Ht. rewrite blocked_waiter_spec by done.
      rewrite decide_False; [done|]. intros ?. by apply Hno. }
    rewrite some_bind, En, some_bind. by exists s, n'.
Qed.

Lemma signal_refused s n c id b : nsys_ok n → b = 0 ∨ get_notification id n = Some None →
  ipc_notification_signal c id b s n = Some (s, n, - EINVAL).
Proof. intros HN [->|E]; unfold ipc_notification_signal; [done|]. by rewrite E; destruct (b =? 0). Qed.

(** ** Waiting *)

(** The object after a read of the bits of [m]. *)
Definition taken (st : ipc_notify_state_t) (m : Z) (x : ipc_notification_t) : ipc_notification_t :=
  Ntf (n_id x) st (Z.ldiff (n_signals x) m) (n_waited_mask x) (n_waiter_tid x) (n_generation x).

Lemma taken_ok st i m x : ntf_ok i x → (st = IPC_NOTIFY_WAITING → n_state x = IPC_NOTIFY_WAITING) → ntf_ok i (taken st m x).
Proof.
  intros [O1 O2 O3 O4] Hst. split; [done|done|by apply w64_ldiff|]. intros E. exact (O4 (Hst E)).
Qed.

Lemma try_wait_found n id m i x : nsys_ok n → m ≠ 0 → get_notification id n = Some (Some i) → get_ntf n i = Some x →
  if decide (Z.land (n_signals x) m = 0) then ipc_notification_try_wait id m true n = Some (n, (- EAGAIN, None))
  else ∃ n' st, ipc_notification_try_wait id m true n = Some (n', (KERNEL_OK, Some (Z.land (n_signals x) m))) ∧ nsys_ok n' ∧
    get_ntf n' i = Some (taken st m x) ∧ (∀ j, j ≠ i → get_ntf n' j = get_ntf n j) ∧ (st = IPC_NOTIFY_WAITING → n_state x = IPC_NOTIFY_WAITING).
Proof.
  intros HN Hm Hg Hx. pose proof (nk_objs _ HN i x Hx) as Hok. unfold ipc_notification_try_wait. rewrite (proj2 (Z.eqb_neq m 0)) by done.
  cbn [orb negb]. rewrite Hg, some_bind, Hx, some_bind. case_decide as Hd; [by rewrite Hd|]. rewrite (proj2 (Z.eqb_neq _ 0)) by done.
  rewrite clear_read by apply Hok. set (st := if _ =? 0 then _ else _).
  destruct (update_ok n i x (taken st m x) HN Hx) as (n' & En & HN' & Hi & Ho & _).
  { apply taken_ok; [done|]. subst st. by case_match. }
  { done. }
  change (set_nstate st _) with (taken st m x). rewrite En, some_bind. exists n', st. repeat (split; [done|]). subst st. by case_match.
Qed.

(** The object after a thread has announced itself. *)
Definition awaited (t m : Z) (x : ipc_notification_t) : ipc_notification_t :=
  Ntf (n_id x) IPC_NOTIFY_WAITING (n_signals x) m t (n_generation x).

Lemma current_of s c : sched_ok s → is_cpu c → kthread_get_current c s = Some (cur_of s c).
Proof.
  intros HW Hc. unfold kthread_get_current. rewrite (proj2 (Z.ltb_lt _ _)) by apply Hc.
  destruct (rr_q _ _ _ (si_rep _ _ _ _ (wf_inv _ _ _ _ HW)) c Hc) as (q & Hq). by rewrite Hq, some_bind, (get_q_cur s c q Hq).
Qed.

(** Bits that are pending are taken at once; otherwise the caller will block. *)
Lemma wait_found s n c id m i x t : sched_ok s → nsys_ok n → is_cpu c → m ≠ 0 → get_notification id n = Some (Some i) → get_ntf n i = Some x →
  cur_of s c = Some t →
  if decide (Z.land (n_signals x) m = 0) then ipc_notification_wait c id m true s n = Some (n, MustBlock i)
  else
    ∃ n', ipc_notification_wait c id m true s n = Some (n', Waited KERNEL_OK (Some (Z.land (n_signals x) m))) ∧ nsys_ok n' ∧
      get_ntf n' i = Some (taken IPC_NOTIFY_IDLE m x) ∧ ∀ j, j ≠ i → get_ntf n' j = get_ntf n j.
Proof.
  intros HW HN Hc Hm Hg Hx Hcur. pose proof (nk_objs _ HN i x Hx) as Hok. unfold ipc_notification_wait. rewrite (proj2 (Z.eqb_neq m 0)) by done.
  cbn [orb negb]. rewrite Hg, some_bind, current_of, some_bind, Hcur, Hx, some_bind by done. case_decide as Hd; [by rewrite Hd|].
  rewrite (proj2 (Z.eqb_neq _ 0)) by done. cbn [negb]. rewrite clear_read by apply Hok.
  destruct (update_ok n i x (taken IPC_NOTIFY_IDLE m x) HN Hx) as (n' & En & HN' & Hi & Ho & _); [by apply taken_ok|done|].
  change (set_nstate _ _) with (taken IPC_NOTIFY_IDLE m x). rewrite En, some_bind. by exists n'.
Qed.

Lemma announce_spec s n t i m x : sched_ok s → nsys_ok n → is_tid t → get_ntf n i = Some x →
  ∃ n', notification_wait_announce t i m s n = Some n' ∧ nsys_ok n' ∧
    get_ntf n' i = Some (awaited t m x) ∧ ∀ j, j ≠ i → get_ntf n' j = get_ntf n j.
Proof.
  intros HW HN Ht Hx. pose proof (nk_objs _ HN i x Hx) as Hok. unfold notification_wait_announce.
  destruct (rr_thread _ _ _ (si_rep _ _ _ _ (wf_inv _ _ _ _ HW)) t Ht) as (th & Hth). rewrite Hx, some_bind, Hth, some_bind.
  destruct (wf_names _ _ _ _ HW t th Hth) as [_ ->].
  destruct (update_ok n i x (awaited t m x) HN Hx) as (n' & En & HN' & Hi & Ho & _).
  { destruct Hok as [O1 O2 O3 O4]. by split. }
  { done. }
  change (Ntf _ _ _ _ _ _) with (awaited t m x). by exists n'.
Qed.

Lemma block_spec s c t : sched_ok s → is_cpu c → cur_of s c = Some t → not_idle s t →
  ∃ s', notification_wait_block c t s = Some s' ∧ sched_ok s'.
Proof.
  intros HW Hc Hcur Hni. destruct (park_ok s _ _ c t KTHREAD_STATE_BLOCKED HW Hc Hcur Hni) as (s' & Q' & SL' & E & HW' & _); [by right; right|].
  exists s'. split; [exact E|by eapply wfs_sched_ok].
Qed.

Definition resumed (m : Z) (x : ipc_notification_t) : ipc_notification_t :=
  Ntf (n_id x) IPC_NOTIFY_IDLE (Z.ldiff (n_signals x) m) 0 THREAD_ID_INVALID (n_generation x).

Lemma resume_spec n i m x : nsys_ok n → get_ntf n i = Some x →
  ∃ n', notification_wait_resume i m n = Some (n', Z.land (n_signals x) m) ∧ nsys_ok n' ∧
    get_ntf n' i = Some (resumed m x) ∧ ∀ j, j ≠ i → get_ntf n' j = get_ntf n j.
Proof.
  intros HN Hx. pose proof (nk_objs _ HN i x Hx) as Hok. unfold notification_wait_resume. rewrite Hx, some_bind, clear_read by apply Hok.
  destruct (update_ok n i x (resumed m x) HN Hx) as (n' & En & HN' & Hi & Ho & _).
  { destruct Hok as [O1 O2 O3 O4]. split; [done|done|by apply w64_ldiff|done]. }
  { done. }
  change (Ntf _ _ _ _ _ _) with (resumed m x). rewrite En, some_bind. by exists n'.
Qed.

(** ** Destruction *)

Definition destroyed (x : ipc_notification_t) : ipc_notification_t :=
  Ntf KOBJ_ID_INVALID IPC_NOTIFY_IDLE 0 0 THREAD_ID_INVALID (next_generation (n_generation x)).

Lemma free_room n i x : nsys_ok n → get_ntf n i = Some x → n_id x ≠ KOBJ_ID_INVALID → s_free_notify_count n < 128 ∧ i ∉ free_indices n.
Proof.
  intros HN Hx Hid. pose proof HN as [H1 H2 H3 H4 H5 H6].
  assert (i ∉ free_indices n) as Hi by (intros (y & Hy & Ey)%H6; congruence). split; [|done].
  assert (i :: free_indices n ⊆+ seqZ 0 128) as Hs%submseteq_length.
  { apply NoDup_submseteq; [by constructor|]. intros j Hj. apply elem_of_seqZ. assert (is_Some (get_ntf n j)) as [y Hy].
    { apply elem_of_cons in Hj as [->|(y & Hy & _)%H6]; by eexists. }
    pose proof (get_ntf_range n j y HN Hy). lia. }
  rewrite length_seqZ in Hs. cbn in Hs. unfold free_indices in Hs. rewrite length_take in Hs. lia.
Qed.

(** The index of a live object goes back to the stack, once. *)
Lemma release_spec n i x : nsys_ok n → get_ntf n i = Some x → n_id x ≠ KOBJ_ID_INVALID →
  ∃ n1 n', set_ntf i (destroyed x) n = Some n1 ∧ free_notify_index i n1 = Some n' ∧ nsys_ok n' ∧
    get_ntf n' i = Some (destroyed x) ∧ (∀ j, j ≠ i → get_ntf n' j = get_ntf n j) ∧ free_indices n' = free_indices n ++ [i].
Proof.
  intros HN Hx Hid. destruct (free_room n i x HN Hx Hid) as [Hc Hi]. pose proof (get_ntf_range n i x HN Hx) as Hir.
  destruct (set_ntf_spec n i (destroyed x) HN Hir) as (n1 & E1 & Hl & Hs & Hcn & Hg & Ho). pose proof HN as [H1 H2 H3 H4 H5 H6].
  unfold free_notify_index. exists n1. rewrite zupdate_total by (rewrite Hs, Hcn; lia). rewrite some_bind. eexists. split; [done|]. split; [done|].
  set (n' := NSys _ _ _). assert (∀ j, get_ntf n' j = get_ntf n1 j) as Hsame by done.
  assert (u32 (s_free_notify_count n1 + 1) = s_free_notify_count n + 1) as Hcnt by (rewrite Hcn, u32_small; lia).
  assert (free_indices n' = free_indices n ++ [i]) as Hf.
  { unfold free_indices. cbn. rewrite Hcnt, Hs, Hcn. replace (Z.to_nat (s_free_notify_count n + 1)) with (S (Z.to_nat (s_free_notify_count n))) by lia.
    erewrite take_S_r; [|apply list_lookup_insert_eq; lia]. by rewrite take_insert_ge by lia. }
  assert (ntf_ok i (destroyed x)) as Hok.
  { pose proof (next_generation_range _ (nk_gen _ _ (H4 i x Hx))). split; cbn; [lia|by left|by split|done]. }
  split; [|split; [by rewrite Hsame|split; [|done]]].
  - split; [done|cbn; by rewrite length_insert, Hs|cbn; lia| | |].
    + intros j y. rewrite Hsame. destruct (decide (j = i)) as [->|Hne]; [rewrite Hg; intros E; by injection E as <-|rewrite Ho by done; apply H4].
    + rewrite Hf. apply NoDup_app. split; [done|]. split; [set_solver|]. apply NoDup_singleton.
    + intros j. rewrite Hf, Hsame, elem_of_app, list_elem_of_singleton, H6. destruct (decide (j = i)) as [->|Hne].
      * rewrite Hg. split; [intros _; by eexists|by right].
      * rewrite Ho by done. naive_solver.
  - intros j Hj. by rewrite Hsame, Ho.
Qed.

Lemma destroy_spec s n c id x : sched_ok s → nsys_ok n → is_cpu c → live_id n id → get_ntf n (Z.land id 0xFFFF) = Some x →
  ∃ s' n', ipc_notification_destroy c id s n = Some (s', n', KERNEL_OK) ∧ sched_ok s' ∧ nsys_ok n' ∧
    get_ntf n' (Z.land id 0xFFFF) = Some (destroyed x) ∧ (∀ j, j ≠ Z.land id 0xFFFF → get_ntf n' j = get_ntf n j) ∧
    (∀ c', cur_of s' c' = cur_of s c') ∧
    (n_state x = IPC_NOTIFY_WAITING → st_of s (n_waiter_tid x) = Some KTHREAD_STATE_BLOCKED →
       st_of s' (n_waiter_tid x) = Some KTHREAD_STATE_READY ∧ queued (ready_list s') c (n_waiter_tid x)).
Proof.
  intros HW HN Hc Hl Hx. pose proof (live_found n id HN Hl) as Hg. assert (n_id x ≠ KOBJ_ID_INVALID) as Hid by (destruct Hl as (y & Hy & ? & ?); congruence).
  pose proof (nk_objs _ HN _ x Hx) as Hok. destruct (release_spec n _ x HN Hx Hid) as (n1 & n' & E1 & E2 & HN' & Hi & Ho & _).
  unfold ipc_notification_destroy. rewrite Hg, some_bind, Hx, some_bind. fold (destroyed x).
  destruct (bool_decide (n_state x = IPC_NOTIFY_WAITING)) eqn:Hs.
  - apply bool_decide_eq_true in Hs. destruct (nk_waiting _ _ Hok Hs) as [Ht0 Ht1]. cbn [andb].
    rewrite (proj2 (Z.eqb_neq _ THREAD_ID_INVALID)) by (unfold THREAD_ID_INVALID, CONFIG_MAX_THREADS in *; lia).
    rewrite (proj2 (Z.ltb_lt _ _)) by done. cbn [andb negb]. rewrite blocked_waiter_spec, some_bind by done. case_decide as Hd.
    + destruct (wake_blocked s c _ HW Hc Hd) as (s1 & s' & F1 & F2 & HW' & Hq & Hr & Hcur).
      rewrite F1, some_bind. cbn [mbind option_bind]. rewrite E1, some_bind, F2, some_bind, E2, some_bind. by exists s', n'.
    + rewrite some_bind, E1, some_bind. cbn [scheduler_enqueue]. rewrite some_bind, E2, some_bind. exists s, n'. by repeat (split; [done|]).
  - apply bool_decide_eq_false in Hs. cbn [andb]. rewrite some_bind, E1, some_bind. cbn [scheduler_enqueue]. rewrite some_bind, E2, some_bind.
    exists s, n'. by repeat (split; [done|]).
Qed.
