(* ===== verification/NotificationTheorems.v ===== *)
(** * Theorems about notifications

    Notification calls interleaved with the calls of the scheduler.  A thread
    inside [ipc_notification_wait] keeps the object and the mask it waits with and
    how far it has come; other calls run between its steps. *)

From S2P Require Import Prelude KList Bitmap SchedTypes Sched Threads Smp Sleep SchedRep SchedInv SchedThreads SchedSystem SchedTheorems.
From S2P Require Import SchedOps SchedCalls Notification NotificationSpec.
Import Demo.

Set Default Goal Selector "!".

#[local] Arguments Z.pow : simpl never.

(** ** The calls *)

(** Where a thread is inside its wait: past the check, past the announcement, or
    switched out; with the object and the mask. *)
Inductive wait_stage := Checked | Announced | Switched.
Record wait_point := WP { wp_stage : wait_stage; wp_obj : Z; wp_mask : Z }.

#[global] Instance wait_stage_eq_dec : EqDecision wait_stage.
Proof. solve_decision. Defined.

Record nworld (A : Type) := NW { nw_k : kthreads A; nw_n : nsys; nw_blocked : gmap Z wait_point }.
Arguments NW {A}.
Arguments nw_k {A}.
Arguments nw_n {A}.
Arguments nw_blocked {A}.

Inductive nop :=
  | NSched (o : sop) | NCreate (owner : Z) | NDestroy (c id : Z) | NSignal (c id b : Z)
  | NWait (c id m : Z) | NTryWait (id m : Z) | NWaitTimeout (c id m tmo : Z)
  | NAnnounce (c : Z) | NBlock (c : Z) | NResume (c : Z).

Section system.
Context {A : Type} `{StackSlab A} (heap_start heap_end : Z).

Definition nw_sched (w : nworld A) : sched := kt_sched (nw_k w).

(** The caller of a wait that goes on keeps what it needs. *)
Definition after_wait (c m : Z) (w : nworld A) (r : nsys * wait_result) : option (nworld A * option Z) :=
  match r.2 with
  | Waited _ v => Some (NW (nw_k w) r.1 (nw_blocked w), v)
  | MustBlock i => t ← cur_of (nw_sched w) c; Some (NW (nw_k w) r.1 (<[t := WP Checked i m]> (nw_blocked w)), None)
  end.

(** The thread that runs on [c] is inside a wait, at stage [st]. *)
Definition at_stage (st : wait_stage) (c : Z) (w : nworld A) : option (Z * wait_point) :=
  t ← cur_of (nw_sched w) c;
  p ← nw_blocked w !! t;
  if decide (wp_stage p = st) then Some (t, p) else None.

(** The second result is the identifier created or the bits taken. *)
Definition run_nop (o : nop) (w : nworld A) : option (nworld A * option Z) :=
  match o with
  | NSched o => k ← run_op heap_start heap_end o (nw_k w); Some (NW k (nw_n w) (nw_blocked w), None)
  | NCreate owner => r ← ipc_notification_create owner true (nw_n w); Some (NW (nw_k w) r.1 (nw_blocked w), r.2.2)
  | NDestroy c id => r ← ipc_notification_destroy c id (nw_sched w) (nw_n w); Some (NW (upd_sched r.1.1 (nw_k w)) r.1.2 (nw_blocked w), None)
  | NSignal c id b => r ← ipc_notification_signal c id b (nw_sched w) (nw_n w); Some (NW (upd_sched r.1.1 (nw_k w)) r.1.2 (nw_blocked w), None)
  | NWait c id m => r ← ipc_notification_wait c id m true (nw_sched w) (nw_n w); after_wait c m w r
  | NTryWait id m => r ← ipc_notification_try_wait id m true (nw_n w); Some (NW (nw_k w) r.1 (nw_blocked w), r.2.2)
  | NWaitTimeout c id m tmo => r ← ipc_notification_wait_timeout c id m true tmo (nw_sched w) (nw_n w); after_wait c m w r
  | NAnnounce c =>
      q ← at_stage Checked c w;
      let '(t, p) := q in
      n ← notification_wait_announce t (wp_obj p) (wp_mask p) (nw_sched w) (nw_n w);
      Some (NW (nw_k w) n (<[t := WP Announced (wp_obj p) (wp_mask p)]> (nw_blocked w)), None)
  | NBlock c =>
      q ← at_stage Announced c w;
      let '(t, p) := q in
      s ← notification_wait_block c t (nw_sched w);
      Some (NW (upd_sched s (nw_k w)) (nw_n w) (<[t := WP Switched (wp_obj p) (wp_mask p)]> (nw_blocked w)), None)
  | NResume c =>
      q ← at_stage Switched c w;
      let '(t, p) := q in
      r ← notification_wait_resume (wp_obj p) (wp_mask p) (nw_n w);
      Some (NW (nw_k w) r.1 (delete t (nw_blocked w)), Some r.2)
  end.

(** The thread that runs on [c], not an idle one, is not inside a wait. *)
Definition caller_free (c : Z) (w : nworld A) : Prop :=
  ∃ t, cur_of (nw_sched w) c = Some t ∧ not_idle (nw_sched w) t ∧ nw_blocked w !! t = None.

Definition nop_ok (o : nop) (w : nworld A) : Prop :=
  match o with
  | NSched o => op_ok heap_start heap_end o (nw_k w) ∧
      match o with OExit c | OSleep c _ => caller_free c w | _ => True end
  | NCreate owner => 0 <= owner
  | NDestroy c id => is_cpu c ∧ live_id (nw_n w) id
  | NSignal c id b => is_cpu c ∧ 0 <= id ∧ w64 b
  | NWait c id m | NWaitTimeout c id m _ => is_cpu c ∧ 0 <= id ∧ w64 m ∧ caller_free c w
  | NTryWait id m => 0 <= id ∧ w64 m
  | NAnnounce c => is_cpu c ∧ is_Some (at_stage Checked c w)
  | NBlock c => is_cpu c ∧ ∃ t p, at_stage Announced c w = Some (t, p) ∧ not_idle (nw_sched w) t
  | NResume c => is_cpu c ∧ is_Some (at_stage Switched c w)
  end.

(** A notification in the waiting state names a thread that is inside a wait on
    it, with this mask, and has announced itself. *)
Definition waits_on (w : nworld A) (i : Z) (x : ipc_notification_t) : Prop :=
  ∃ st, st ≠ Checked ∧ nw_blocked w !! n_waiter_tid x = Some (WP st i (n_waited_mask x)).

Record nw_ok (w : nworld A) : Prop := NwOk {
  no_sched : sched_ok (nw_sched w);
  no_nsys : nsys_ok (nw_n w);
  no_blocked : ∀ t p, nw_blocked w !! t = Some p → is_Some (get_ntf (nw_n w) (wp_obj p));
  no_waiting : ∀ i x, get_ntf (nw_n w) i = Some x → n_state x = IPC_NOTIFY_WAITING → waits_on w i x
}.

(** Generations move one step at most. *)
Definition gens_step (n n' : nsys) : Prop := ∀ i x, get_ntf n i = Some x → ∃ x', get_ntf n' i = Some x' ∧
  (n_generation x' = n_generation x ∨ n_generation x' = next_generation (n_generation x)).

Definition nw_step (w w' : nworld A) : Prop := nw_ok w' ∧ gens_step (nw_n w) (nw_n w').

Lemma gens_refl n : gens_step n n.
Proof. intros i x Hx. exists x. split; [done|by left]. Qed.

Lemma gens_update n n' i x y : get_ntf n i = Some x → get_ntf n' i = Some y → (∀ j, j ≠ i → get_ntf n' j = get_ntf n j) →
  n_generation y = n_generation x ∨ n_generation y = next_generation (n_generation x) → gens_step n n'.
Proof.
  intros Hx Hy Ho Hg j z Hz. destruct (decide (j = i)) as [->|Hne]; [|rewrite Ho by done; exists z; split; [done|by left]].
  exists y. split; [done|]. assert (z = x) as -> by congruence. done.
Qed.

(** Object [i] becomes [y]; [y] waits only as the object before did. *)
Lemma nw_update w k n' i x y : nw_ok w → sched_ok (kt_sched k) → nsys_ok n' → get_ntf (nw_n w) i = Some x → get_ntf n' i = Some y →
  (∀ j, j ≠ i → get_ntf n' j = get_ntf (nw_n w) j) →
  n_generation y = n_generation x ∨ n_generation y = next_generation (n_generation x) →
  (n_state y = IPC_NOTIFY_WAITING → n_state x = IPC_NOTIFY_WAITING ∧ n_waiter_tid y = n_waiter_tid x ∧ n_waited_mask y = n_waited_mask x) →
  nw_step w (NW k n' (nw_blocked w)).
Proof.
  intros [H1 H2 H3 H4] Hs Hn Hx Hy Ho Hg Hw. split; [|by eapply gens_update]. split; cbn; [done|done| |].
  - intros t p Hp. destruct (decide (wp_obj p = i)) as [->|Hne]; [by rewrite Hy|rewrite Ho by done; by eapply H3].
  - intros j z Hz Hst. destruct (decide (j = i)) as [->|Hne]; [|rewrite Ho in Hz by done; by apply H4].
    assert (z = y) as -> by congruence. destruct (Hw Hst) as (Hxs & Ht & Hm). unfold waits_on. rewrite Ht, Hm. by apply (H4 i x).
Qed.

Lemma nw_same w k : nw_ok w → sched_ok (kt_sched k) → nw_step w (NW k (nw_n w) (nw_blocked w)).
Proof. intros [H1 H2 H3 H4] Hk. split; [by split|apply gens_refl]. Qed.

(** A thread that is no announced waiter of another object moves to stage [p]. *)
Lemma nw_point w t p k : nw_ok w → sched_ok (kt_sched k) → is_Some (get_ntf (nw_n w) (wp_obj p)) →
  (nw_blocked w !! t = None ∨ wp_stage p ≠ Checked ∧ ∃ st, nw_blocked w !! t = Some (WP st (wp_obj p) (wp_mask p))) →
  nw_step w (NW k (nw_n w) (<[t := p]> (nw_blocked w))).
Proof.
  intros [H1 H2 H3 H4] Hk Hp Ht. split; [|apply gens_refl]. split; cbn; [done|done| |].
  - intros u q [[_ <-]|[_ Hq]]%lookup_insert_Some; [done|by eapply H3].
  - intros j z Hz Hst. destruct (H4 j z Hz Hst) as (st & Hne & Hb). unfold waits_on. cbn. destruct (decide (n_waiter_tid z = t)) as [Et|Hnt].
    + rewrite Et in Hb |- *. destruct Ht as [Ht|[Hps (st' & Ht)]]; [congruence|]. rewrite Ht in Hb. injection Hb as _ E1 E2.
      exists (wp_stage p). rewrite lookup_insert_eq, <- E1, <- E2. by destruct p.
    + exists st. by rewrite lookup_insert_ne by done.
Qed.

Lemma wait_blocks w c id m : nw_ok w → is_cpu c → 0 <= id → m ≠ 0 → caller_free c w →
  ∃ w' v, (r ← ipc_notification_wait c id m true (nw_sched w) (nw_n w); after_wait c m w r) = Some (w', v) ∧ nw_step w w'.
Proof.
  intros HW Hc Hid Hm (t & Hcur & Hni & Hnb). pose proof HW as [H1 H2 H3 H4].
  destruct (get_notification_spec (nw_n w) id H2 Hid) as [E|(i & x & E & _ & Hx & _)].
  { unfold ipc_notification_wait. rewrite (proj2 (Z.eqb_neq m 0)) by done. rewrite E. cbn. eexists _, _. split; [done|]. by apply nw_same. }
  pose proof (wait_found (nw_sched w) (nw_n w) c id m i x t H1 H2 Hc Hm E Hx Hcur) as Hw. case_decide as Hd.
  - rewrite Hw, some_bind. unfold after_wait. cbn [fst snd]. rewrite Hcur, some_bind. eexists _, _. split; [done|].
    apply nw_point; [done|done|by exists x|by left].
  - destruct Hw as (n' & Ew & Hn & Hi & Ho). rewrite Ew, some_bind. eexists _, _. split; [done|]. eapply nw_update; try done. by left.
Qed.

Lemma wait_ok w c id m : nw_ok w → is_cpu c → 0 <= id → caller_free c w →
  ∃ w' v, (r ← ipc_notification_wait c id m true (nw_sched w) (nw_n w); after_wait c m w r) = Some (w', v) ∧ nw_step w w'.
Proof.
  intros HW Hc Hid Hf. destruct (decide (m = 0)) as [->|Hm]; [|by apply wait_blocks].
  eexists _, _. split; [done|]. apply nw_same; [done|apply HW].
Qed.

Lemma try_wait_ok w id m : nw_ok w → 0 <= id → ∃ n' r, ipc_notification_try_wait id m true (nw_n w) = Some (n', r) ∧
  ∀ k, sched_ok (kt_sched k) → nw_step w (NW k n' (nw_blocked w)).
Proof.
  intros HW Hid. pose proof HW as [H1 H2 H3 H4]. destruct (decide (m = 0)) as [->|Hm].
  { eexists _, _. split; [done|]. intros k Hk. by apply nw_same. }
  destruct (get_notification_spec (nw_n w) id H2 Hid) as [E|(i & x & E & _ & Hx & _)].
  { unfold ipc_notification_try_wait. rewrite (proj2 (Z.eqb_neq m 0)) by done. rewrite E. cbn. eexists _, _. split; [done|]. intros k Hk. by apply nw_same. }
  pose proof (try_wait_found (nw_n w) id m i x H2 Hm E Hx) as Hw. case_decide as Hd.
  - rewrite Hw. eexists _, _. split; [done|]. intros k Hk. by apply nw_same.
  - destruct Hw as (n' & st & Ew & Hn & Hi & Ho & Hst). eexists _, _. split; [done|]. intros k Hk. eapply nw_update; try done; [by left|]. by auto.
Qed.

Lemma create_step w owner : nw_ok w → ∃ n' st r, ipc_notification_create owner true (nw_n w) = Some (n', (st, r)) ∧
  nw_step w (NW (nw_k w) n' (nw_blocked w)).
Proof.
  intros HW. destruct (create_ok_spec (nw_n w) owner (no_nsys _ HW)) as (n' & st & r & E & Hn & Hc). exists n', st, r. split; [done|].
  destruct Hc as [(_ & _ & -> & _)|(i & x & _ & Hx & _ & _ & Hi & Ho)]; [apply nw_same; [done|apply HW]|].
  eapply nw_update; try done; [apply HW|by right].
Qed.

Lemma destroy_step w c id : nw_ok w → is_cpu c → live_id (nw_n w) id →
  ∃ s' n' r, ipc_notification_destroy c id (nw_sched w) (nw_n w) = Some (s', n', r) ∧ nw_step w (NW (upd_sched s' (nw_k w)) n' (nw_blocked w)).
Proof.
  intros HW Hc Hl. pose proof Hl as (x & Hx & _).
  destruct (destroy_spec _ _ c id x (no_sched _ HW) (no_nsys _ HW) Hc Hl Hx) as (s' & n' & E & Hs & Hn & Hi & Ho & _).
  exists s', n', KERNEL_OK. split; [done|]. eapply nw_update; try done. by right.
Qed.

Lemma signal_step w c id b : nw_ok w → is_cpu c → 0 <= id → w64 b →
  ∃ s' n' r, ipc_notification_signal c id b (nw_sched w) (nw_n w) = Some (s', n', r) ∧ nw_step w (NW (upd_sched s' (nw_k w)) n' (nw_blocked w)).
Proof.
  intros HW Hc Hid Hb. pose proof HW as [H1 H2 H3 H4].
  assert (b = 0 ∨ get_notification id (nw_n w) = Some None → ∃ s' n' r, ipc_notification_signal c id b (nw_sched w) (nw_n w) = Some (s', n', r) ∧
    nw_step w (NW (upd_sched s' (nw_k w)) n' (nw_blocked w))) as Hno.
  { intros Hr. rewrite signal_refused by done. eexists _, _, _. split; [done|]. by apply nw_same. }
  destruct (decide (b = 0)) as [?|Hb0]; [apply Hno; by left|].
  destruct (get_notification_spec (nw_n w) id H2 Hid) as [E|(i & x & E & _ & Hx & _)]; [apply Hno; by right|].
  destruct (signal_found _ _ c id b i x H1 H2 Hc Hb Hb0 E Hx) as (s' & n' & Es & Hs & Hn & Hi & Ho & _).
  exists s', n', KERNEL_OK. split; [done|]. eapply nw_update; try done. by left.
Qed.

Lemma at_stage_Some st c w t p : at_stage st c w = Some (t, p) →
  cur_of (nw_sched w) c = Some t ∧ nw_blocked w !! t = Some p ∧ wp_stage p = st.
Proof.
  unfold at_stage. destruct (cur_of _ c) as [u|]; [|done]. cbn. destruct (nw_blocked w !! u) as [q|] eqn:E; [|done]. cbn.
  case_decide as Hd; [|done]. by intros [= <- <-].
Qed.

Lemma announce_step w c t p : nw_ok w → is_cpu c → at_stage Checked c w = Some (t, p) →
  ∃ n', notification_wait_announce t (wp_obj p) (wp_mask p) (nw_sched w) (nw_n w) = Some n' ∧
    nw_step w (NW (nw_k w) n' (<[t := WP Announced (wp_obj p) (wp_mask p)]> (nw_blocked w))).
Proof.
  intros HW Hc (Hcur & Hb & Hs)%at_stage_Some. pose proof HW as [H1 H2 H3 H4]. destruct (H3 t p Hb) as [x Hx].
  assert (is_tid t) as Ht.
  { destruct (cur_thread _ _ _ None c t (wf_inv _ _ _ _ H1) Hc Hcur) as (th & Hth). exact (rr_tid _ _ _ (si_rep _ _ _ _ (wf_inv _ _ _ _ H1)) t th Hth). }
  destruct (announce_spec (nw_sched w) (nw_n w) t (wp_obj p) (wp_mask p) x H1 H2 Ht Hx) as (n' & E & Hn & Hi & Ho). exists n'. split; [done|].
  split; [|eapply gens_update; try done; by left]. split; cbn; [done|done| |].
  - intros u q Hq. destruct (decide (wp_obj q = wp_obj p)) as [->|Hne]; [by rewrite Hi|]. rewrite Ho by done.
    apply lookup_insert_Some in Hq as [[_ <-]|[_ Hq]]; [done|by eapply H3].
  - intros j z Hz Hst. unfold waits_on. cbn. destruct (decide (j = wp_obj p)) as [->|Hne].
    + rewrite Hi in Hz. injection Hz as <-. exists Announced. cbn. by rewrite lookup_insert_eq.
    + rewrite Ho in Hz by done. destruct (H4 j z Hz Hst) as (st & Hns & Hz'). exists st. split; [done|]. rewrite lookup_insert_ne; [done|].
      intros Et. rewrite Et in Hb. rewrite Hb in Hz'. injection Hz' as ->. done.
Qed.

Lemma block_step w c t p : nw_ok w → is_cpu c → at_stage Announced c w = Some (t, p) → not_idle (nw_sched w) t →
  ∃ s', notification_wait_block c t (nw_sched w) = Some s' ∧
    nw_step w (NW (upd_sched s' (nw_k w)) (nw_n w) (<[t := WP Switched (wp_obj p) (wp_mask p)]> (nw_blocked w))).
Proof.
  intros HW Hc (Hcur & Hb & Hs)%at_stage_Some Hni. destruct (block_spec _ c t (no_sched _ HW) Hc Hcur Hni) as (s' & E & Hs'). exists s'.
  split; [done|]. apply nw_point; [done|done|exact (no_blocked _ HW t p Hb)|]. right. split; [done|]. exists (wp_stage p). cbn. rewrite Hb. by destruct p.
Qed.

Lemma resume_step w t p : nw_ok w → nw_blocked w !! t = Some p →
  ∃ n' v, notification_wait_resume (wp_obj p) (wp_mask p) (nw_n w) = Some (n', v) ∧ nw_step w (NW (nw_k w) n' (delete t (nw_blocked w))).
Proof.
  intros [H1 H2 H3 H4] Hb. destruct (H3 t _ Hb) as [x Hx]. destruct (resume_spec (nw_n w) _ (wp_mask p) x H2 Hx) as (n' & E & Hn & Hi & Ho).
  eexists _, _. split; [done|]. split; [|by eapply gens_update; try done; left]. split; cbn; [done|done| |].
  - intros u q [_ Hq]%lookup_delete_Some. destruct (decide (wp_obj q = wp_obj p)) as [->|Hne]; [by rewrite Hi|rewrite Ho by done; by eapply H3].
  - intros j z Hz Hst. destruct (decide (j = wp_obj p)) as [->|Hne]; [rewrite Hi in Hz; by injection Hz as <-|]. rewrite Ho in Hz by done.
    destruct (H4 j z Hz Hst) as (st & Hns & Hz'). exists st. split; [done|]. cbn. rewrite lookup_delete_ne; [done|]. intros Et. rewrite Et in Hb.
    rewrite Hb in Hz'. by injection Hz' as ->.
Qed.

Lemma run_nop_ok o w : nw_ok w → nop_ok o w → ∃ w' v, run_nop o w = Some (w', v) ∧ nw_step w w'.
Proof.
  intros HW Ho. destruct o as [o|owner|c id|c id b|c id m|id m|c id m tmo|c|c|c]; cbn [run_nop nop_ok] in *.
  - destruct Ho as [Ho _]. destruct (run_op_ok heap_start heap_end o (nw_k w) (no_sched _ HW) Ho) as (k & E & Hk). rewrite E, some_bind.
    eexists _, _. split; [done|]. by apply nw_same.
  - destruct (create_step w owner HW) as (n' & st & r & E & Hs). rewrite E, some_bind. by eexists _, _.
  - destruct Ho as [Hc Hl]. destruct (destroy_step w c id HW Hc Hl) as (s' & n' & r & E & Hs). rewrite E, some_bind. by eexists _, _.
  - destruct Ho as (Hc & Hid & Hb). destruct (signal_step w c id b HW Hc Hid Hb) as (s' & n' & r & E & Hs). rewrite E, some_bind. by eexists _, _.
  - destruct Ho as (Hc & Hid & _ & Hf). by apply wait_ok.
  - destruct Ho as (Hid & _). destruct (try_wait_ok w id m HW Hid) as (n' & r & E & Hs). rewrite E, some_bind. eexists _, _. split; [done|]. apply Hs, HW.
  - destruct Ho as (Hc & Hid & _ & Hf). unfold ipc_notification_wait_timeout. destruct (tmo =? IPC_TIMEOUT_NONBLOCK); [|by apply wait_ok].
    destruct (try_wait_ok w id m HW Hid) as (n' & r & E & Hs). rewrite E, !some_bind. cbn. eexists _, _. split; [done|]. apply Hs, HW.
  - destruct Ho as (Hc & [[t p] Hp]). rewrite Hp, some_bind. destruct (announce_step w c t p HW Hc Hp) as (n' & E & Hs).
    rewrite E, some_bind. by eexists _, _.
  - destruct Ho as (Hc & t & p & Hp & Hni). rewrite Hp, some_bind. destruct (block_step w c t p HW Hc Hp Hni) as (s' & E & Hs).
    rewrite E, some_bind. by eexists _, _.
  - destruct Ho as (Hc & [[t p] Hp]). rewrite Hp, some_bind. apply at_stage_Some in Hp as (_ & Hb & _).
    destruct (resume_step w t p HW Hb) as (n' & v & E & Hs). rewrite E, some_bind. by eexists _, _.
Qed.

(** ** Reachable states *)

Inductive nreach (ent : Z) : nworld A → Prop :=
  | nreach_boot k n n' : sched_reach heap_start heap_end ent k → length (s_notifications n) = 128%nat → length (s_free_notify_stack n) = 128%nat →
      ipc_notification_subsys_init n = Some (n', KERNEL_OK) → nreach ent (NW k n' ∅)
  | nreach_call o w w' v : nreach ent w → nop_ok o w → run_nop o w = Some (w', v) → nreach ent w'.

Lemma nreach_ok ent w : nreach ent w → nw_ok w.
Proof.
  induction 1 as [k n n' Hk Hl1 Hl2 E|o w w' v _ IH Ho E].
  - destruct (notification_init_ok n Hl1 Hl2) as (n1 & E1 & Hn & Hall). assert (n1 = n') as -> by congruence.
    split; cbn; [by apply (reach_ok _ _ _ _ Hk)|done|by intros t p ?|]. intros i x ->%Hall. done.
  - destruct (run_nop_ok o w IH Ho) as (w1 & v1 & E1 & [H1 _]). congruence.
Qed.

(** A run of allowed calls. *)
Inductive nruns : list nop → nworld A → nworld A → Prop :=
  | nruns_nil w : nruns [] w w
  | nruns_cons o ops w w1 v w2 : nop_ok o w → run_nop o w = Some (w1, v) → nruns ops w1 w2 → nruns (o :: ops) w w2.

Lemma nruns_gen ops w w' i x : nw_ok w → nruns ops w w' → get_ntf (nw_n w) i = Some x →
  nw_ok w' ∧ ∃ x' k, get_ntf (nw_n w') i = Some x' ∧ (k <= length ops)%nat ∧ n_generation x' = Nat.iter k next_generation (n_generation x).
Proof.
  intros HW Hr. revert x HW. induction Hr as [w|o ops w w1 v w2 Ho E _ IH]; intros x HW Hx; [split; [done|]; by exists x, 0%nat|].
  destruct (run_nop_ok o w HW Ho) as (w1' & v' & E' & H1 & Hg). assert (w1' = w1) as -> by congruence.
  destruct (Hg i x Hx) as (x1 & Hx1 & Hgen). destruct (IH x1 H1 Hx1) as (H2 & x2 & k & Hx2 & Hk & Ek). split; [done|]. exists x2. cbn.
  destruct Hgen as [Hgen|Hgen]; [exists k|exists (S k)]; (split; [done|]; split; [lia|]); rewrite Ek, Hgen; [done|]. by rewrite <- Nat.iter_succ_r.
Qed.
End system.

(** ** Generations *)

Lemma next_generation_cycle g : 1 <= g <= 65535 → next_generation g = 1 + g mod 65535.
Proof.
  intros Hg. unfold next_generation, u16. change (2 ^ 16) with 65536. destruct (decide (g = 65535)) as [->|]; [done|].
  rewrite (Z.mod_small (g + 1)), (Z.mod_small g) by lia. rewrite (proj2 (Z.eqb_neq _ _)) by lia. lia.
Qed.

Lemma iter_generation k g : 1 <= g <= 65535 → Nat.iter k next_generation g = 1 + (g - 1 + Z.of_nat k) mod 65535.
Proof.
  intros Hg. induction k as [|k IH]; [rewrite Z.mod_small by (cbn; lia); cbn; lia|]. rewrite Nat.iter_succ, IH.
  pose proof (Z.mod_pos_bound (g - 1 + Z.of_nat k) 65535 ltac:(lia)). rewrite next_generation_cycle by lia. f_equal.
  rewrite Zplus_mod_idemp_r. f_equal. lia.
Qed.

Lemma iter_generation_fresh k g : 1 <= g <= 65535 → 0 < Z.of_nat k < 65535 → Nat.iter k next_generation g ≠ g.
Proof.
  intros Hg Hk. rewrite iter_generation by done. intros E. assert ((g - 1 + Z.of_nat k) mod 65535 = g - 1) as E' by lia.
  Z.div_mod_to_equations. nia.
Qed.

(** An identifier of another generation is refused. *)
Lemma other_generation n i g x : nsys_ok n → get_ntf n i = Some x → 1 <= g < 65536 → n_generation x ≠ g →
  get_notification (make_id g i) n = Some None.
Proof.
  intros HN Hx Hg Hne. pose proof (get_ntf_range n i x HN Hx) as Hi. destruct (id_parts g i ltac:(lia) Hi) as (_ & Hp1 & Hp2).
  unfold get_notification. case_match; [done|]. rewrite Hp1, Hp2, Hx, some_bind. case_match; [done|]. by rewrite (proj2 (Z.eqb_neq _ _)).
Qed.

(** ** Safety, delivery, identifiers *)

(** C28: scheduler calls, signals (from threads or interrupt handlers),
    creations, destructions and the four steps of a wait, interleaved in any order
    that [nop_ok] allows, all return; the scheduler and the table of notifications
    stay well formed, and a notification in the waiting state names a thread that
    is inside a wait on it with its mask and has announced itself.  [nop_ok] asks
    that a destroyed identifier is live, that a wait, a sleep or an exit comes
    from a thread that is not idle and not inside a wait, and what the scheduler
    calls themselves ask.  That no awaited bit is pending is not claimed: a signal
    may come between the check and the announcement. *)
Theorem notification_calls_safe {A} `{StackSlab A} heap_start heap_end ent (w : nworld A) (o : nop) :
  nreach heap_start heap_end ent w → nop_ok heap_start heap_end o w →
  ∃ w' v, run_nop heap_start heap_end o w = Some (w', v) ∧ sched_ok (nw_sched w') ∧ nsys_ok (nw_n w') ∧
    (∀ i x, get_ntf (nw_n w') i = Some x → n_state x = IPC_NOTIFY_WAITING → is_tid (n_waiter_tid x) ∧ waits_on w' i x).
Proof.
  intros Hr Ho. destruct (run_nop_ok _ _ o w (nreach_ok _ _ _ _ Hr) Ho) as (w' & v & E & [H1 H2 H3 H4] & _).
  exists w', v. split; [done|]. split; [done|]. split; [done|]. intros i x Hx Hst. split; [|by apply H4]. by apply (nk_waiting i x (nk_objs _ H2 i x Hx)).
Qed.



(** An identifier is refused from the moment its notification is destroyed, also
    after the index has been used again, for the next 65533 calls at least: the
    generation in the identifier comes back only after 65535 reuses. *)
Theorem destroyed_id_refused {A} `{StackSlab A} heap_start heap_end ent (w w1 w2 : nworld A) c id v ops :
  nreach heap_start heap_end ent w → nop_ok heap_start heap_end (NDestroy c id) w → run_nop heap_start heap_end (NDestroy c id) w = Some (w1, v) →
  nruns heap_start heap_end ops w1 w2 → Z.of_nat (length ops) < 65534 → get_notification id (nw_n w2) = Some None.
Proof.
  intros Hr [Hc Hl] E Hrun Hlen. pose proof (nreach_ok _ _ _ _ Hr) as HW. pose proof Hl as (x & Hx & Hid & Hne).
  destruct (destroy_spec _ _ c id x (no_sched _ HW) (no_nsys _ HW) Hc Hl Hx) as (s' & n' & Ed & Hs & Hn & Hi & _).
  assert (nw_n w1 = n') as Hn1 by (cbn [run_nop] in E; rewrite Ed in E; cbn in E; by injection E as <- _).
  destruct (run_nop_ok heap_start heap_end (NDestroy c id) w HW (conj Hc Hl)) as (w1' & v' & E' & [HW1 _]). assert (w1' = w1) as -> by congruence.
  rewrite <- Hn1 in Hi. destruct (nruns_gen _ _ ops w1 w2 _ _ HW1 Hrun Hi) as (HW2 & y & k & Hy & Hk & Hg).
  destruct (nk_objs _ (no_nsys _ HW) _ x Hx) as [Hgen [?|[Hg1 Him]] _ _]; [congruence|]. rewrite Hid in Him. rewrite Him.
  eapply other_generation; [apply HW2|exact Hy|lia|]. rewrite Hg. cbn [destroyed n_generation]. rewrite <- Nat.iter_succ_r. apply iter_generation_fresh; lia.
Qed.

(** Creating a notification gives an identifier that was refused before and now
    leads to an idle object without signals; every identifier in use keeps leading
    to its object, unchanged. *)
Theorem notification_create_fresh {A} `{StackSlab A} heap_start heap_end ent (w : nworld A) owner :
  nreach heap_start heap_end ent w → 0 <= owner < CONFIG_MAX_THREADS → free_indices (nw_n w) ≠ [] →
  ∃ w' id x, run_nop heap_start heap_end (NCreate owner) w = Some (w', Some id) ∧ live_id (nw_n w') id ∧
    get_notification id (nw_n w) = Some None ∧ get_notification id (nw_n w') = Some (Some (Z.land id 0xFFFF)) ∧
    get_ntf (nw_n w') (Z.land id 0xFFFF) = Some x ∧ n_state x = IPC_NOTIFY_IDLE ∧ n_signals x = 0 ∧
    ∀ id', live_id (nw_n w) id' → live_id (nw_n w') id' ∧ get_ntf (nw_n w') (Z.land id' 0xFFFF) = get_ntf (nw_n w) (Z.land id' 0xFFFF).
Proof.
  intros Hr Ho Hf. pose proof (nreach_ok _ _ _ _ Hr) as HW. pose proof (no_nsys _ HW) as HN.
  destruct (create_ok_spec (nw_n w) owner HN) as (n' & st & r & E & HN' & [(_ & _ & _ & H0)|(i & x & -> & Hx & Hx0 & -> & Hi & Hoth)]); [destruct Hf; apply H0; lia|].
  pose proof (nk_gen _ _ (nk_objs _ HN i x Hx)) as Hg. pose proof (next_generation_range _ Hg) as Hg'. pose proof (get_ntf_range _ _ _ HN Hx) as Hir.
  set (id := make_id (next_generation (n_generation x)) i) in *. destruct (id_parts (next_generation (n_generation x)) i ltac:(lia) Hir) as (_ & Hp & _). fold id in Hp.
  assert (live_id n' id) as Hl by (eexists; rewrite Hp; split; [exact Hi|]; split; [done|]; subst id; unfold make_id, KOBJ_ID_INVALID; lia).
  eexists _, id, _. cbn [run_nop]. rewrite E, some_bind. split; [done|]. cbn [nw_n fst snd]. split; [done|].
  split; [apply (other_generation _ _ _ x); [done|done|lia|]; apply not_eq_sym, next_generation_ne; lia|]. split; [by apply live_found|].
  rewrite Hp. split; [exact Hi|]. split; [done|]. split; [done|]. intros id' (y & Hy & Hid' & Hne).
  assert (Z.land id' 0xFFFF ≠ i) as Hdif by (intros Heq; rewrite Heq in Hy; congruence). split; [exists y; by rewrite Hoth|by rewrite Hoth].
Qed.

(** ** A concrete run *)

(** The notifications as the loader leaves them. *)
Definition image_ntf : nsys := NSys (replicate 128 (Ntf 0 IPC_NOTIFY_IDLE 0 0 0 0)) (replicate 128 0) 0.
Definition demo_world : nworld Z := NW (run (demo_ops ++ [OStart 0])) (default (image_ntf, 0) (ipc_notification_subsys_init image_ntf)).1 ∅.

Definition demo_step (o : nop) (w : nworld Z) : option (nworld Z) := fst <$> run_nop 0x100000 0x200000 o w.
Definition demo_calls (ops : list nop) : option (nworld Z) := foldl (λ w o, w ≫= demo_step o) (Some demo_world) ops.
Definition demo_after (ops : list nop) : nworld Z := default demo_world (demo_calls ops).

Lemma demo_init : nreach 0x100000 0x200000 ENTRY demo_world.
Proof. eapply (nreach_boot _ _ _ _ image_ntf); [exact demo_started|done|done|vm_compute; reflexivity]. Qed.

Lemma demo_snoc ops o : nreach 0x100000 0x200000 ENTRY (demo_after ops) → nop_ok 0x100000 0x200000 o (demo_after ops) →
  defined (demo_calls ops) = true → defined (demo_calls (ops ++ [o])) = true → nreach 0x100000 0x200000 ENTRY (demo_after (ops ++ [o])).
Proof.
  unfold demo_after, demo_calls. rewrite foldl_snoc. set (x := foldl _ _ ops). destruct x as [w|]; [|done]. cbn [default mbind option_bind id].
  intros Hr Ho _ Hd. unfold demo_step in *. destruct (run_nop _ _ o w) as [[w' v]|] eqn:E; [|done]. cbn. by eapply nreach_call.
Qed.

(** Thread 10 creates a notification and waits for its two low bits. *)
Definition DEMO_ID : Z := 0x10000.
Definition demo_wait : list nop := [NCreate 10; NWait 0 DEMO_ID 3; NAnnounce 0; NBlock 0].

Lemma demo_created_ntf : nreach 0x100000 0x200000 ENTRY (demo_after [NCreate 10]).
Proof. apply (demo_snoc []); [exact demo_init|done|vm_compute; reflexivity..]. Qed.

Lemma demo_caller : caller_free 0 (demo_after [NCreate 10]).
Proof. exists 10. split; [vm_compute; reflexivity|]. split; [apply not_idle_check|]; vm_compute; reflexivity. Qed.

Lemma demo_waiting : nreach 0x100000 0x200000 ENTRY (demo_after demo_wait).
Proof.
  apply (demo_snoc [NCreate 10; NWait 0 DEMO_ID 3; NAnnounce 0]); [|split; [by unfold is_cpu|]|vm_compute; reflexivity..].
  - apply (demo_snoc [NCreate 10; NWait 0 DEMO_ID 3]); [|split; [by unfold is_cpu|]|vm_compute; reflexivity..].
    + apply (demo_snoc [NCreate 10]); [exact demo_created_ntf| |vm_compute; reflexivity..].
      split; [by unfold is_cpu|]. split; [done|]. split; [done|exact demo_caller].
    + exists (10, WP Checked 0 3). vm_compute. reflexivity.
  - exists 10, (WP Announced 0 3). split; [vm_compute; reflexivity|apply not_idle_check; vm_compute; reflexivity].
Qed.

Lemma notification_calls_safe_witness : ∃ w' v, run_nop 0x100000 0x200000 (NSignal 0 DEMO_ID 2) (demo_after demo_wait) = Some (w', v) ∧ nsys_ok (nw_n w').
Proof.
  destruct (notification_calls_safe 0x100000 0x200000 ENTRY (demo_after demo_wait) (NSignal 0 DEMO_ID 2) demo_waiting) as (w' & v & E & _ & Hn & _).
  { split; [by unfold is_cpu|]. split; [done|]. by split. }
  exists w', v. split; [exact E|exact Hn].
Defined.


Lemma demo_live : live_id (nw_n (demo_after demo_wait)) DEMO_ID.
Proof. exists (Ntf DEMO_ID IPC_NOTIFY_WAITING 0 3 10 1). split; [vm_compute; reflexivity|]. by split. Qed.

Lemma destroyed_id_refused_witness : ∃ w1 v w2, run_nop 0x100000 0x200000 (NDestroy 0 DEMO_ID) (demo_after demo_wait) = Some (w1, v) ∧
  nruns 0x100000 0x200000 [NCreate 9] w1 w2 ∧ get_notification DEMO_ID (nw_n w2) = Some None.
Proof.
  assert (nop_ok 0x100000 0x200000 (NDestroy 0 DEMO_ID) (demo_after demo_wait)) as Ho by (split; [by unfold is_cpu|exact demo_live]).
  destruct (run_nop_ok 0x100000 0x200000 _ _ (nreach_ok _ _ _ _ demo_waiting) Ho) as (w1 & v & E & [HW1 _]).
  destruct (run_nop_ok 0x100000 0x200000 (NCreate 9) w1 HW1 ltac:(done)) as (w2 & v2 & E2 & _).
  assert (nruns 0x100000 0x200000 [NCreate 9] w1 w2) as Hr by (econstructor; [done|exact E2|constructor]).
  exists w1, v, w2. split; [exact E|]. split; [exact Hr|].
  apply (destroyed_id_refused 0x100000 0x200000 ENTRY (demo_after demo_wait) w1 w2 0 DEMO_ID v [NCreate 9] demo_waiting Ho E Hr). by vm_compute.
Defined.

Lemma notification_create_fresh_witness : ∃ w' id, run_nop 0x100000 0x200000 (NCreate 10) (demo_after demo_wait) = Some (w', Some id) ∧
  live_id (nw_n w') id ∧ live_id (nw_n w') DEMO_ID.
Proof.
  destruct (notification_create_fresh 0x100000 0x200000 ENTRY (demo_after demo_wait) 10 demo_waiting) as (w' & id & x & E & Hl & _ & _ & _ & _ & _ & Hk).
  - by vm_compute.
  - by vm_compute.
  - exists w', id. split; [exact E|]. split; [exact Hl|]. apply (Hk DEMO_ID demo_live).
Defined.

(** ** What the calls do outside these conditions *)

Definition demo_state (ops : list nop) : option (option KThreadState_t * option ipc_notify_state_t) :=
  (λ w, (st_of (nw_sched w) 10, n_state <$> get_ntf (nw_n w) 0)) <$> demo_calls ops.

(** A signal without an awaited bit takes the notification out of the waiting
    state: the awaited bit, signalled next, wakes nobody. *)
Example lost_wakeup : demo_state (demo_wait ++ [NSignal 0 DEMO_ID 4; NSignal 0 DEMO_ID 1]) = Some (Some KTHREAD_STATE_BLOCKED, Some IPC_NOTIFY_PENDING).
Proof. vm_compute. reflexivity. Qed.

(** A signal between the check and the announcement is not seen: the thread
    blocks with an awaited bit pending. *)
Example signal_after_check_lost :
  demo_state [NCreate 10; NWait 0 DEMO_ID 3; NSignal 0 DEMO_ID 1; NAnnounce 0; NBlock 0] = Some (Some KTHREAD_STATE_BLOCKED, Some IPC_NOTIFY_WAITING).
Proof. vm_compute. reflexivity. Qed.

(** One between the announcement and the switch finds the thread running: it
    wakes nobody, and the thread then blocks for good. *)
Example signal_before_switch_lost :
  demo_state [NCreate 10; NWait 0 DEMO_ID 3; NAnnounce 0; NSignal 0 DEMO_ID 1; NBlock 0] = Some (Some KTHREAD_STATE_BLOCKED, Some IPC_NOTIFY_PENDING).
Proof. vm_compute. reflexivity. Qed.

(** A second waiter takes the place of the first, which stays blocked. *)
Example second_waiter_replaces_first :
  demo_state (demo_wait ++ [NWait 0 DEMO_ID 3; NAnnounce 0; NBlock 0; NSignal 0 DEMO_ID 1]) = Some (Some KTHREAD_STATE_BLOCKED, Some IPC_NOTIFY_PENDING).
Proof. vm_compute. reflexivity. Qed.

(** A wait with a timeout blocks like one without. *)
Example timeout_does_not_expire :
  demo_state ([NCreate 10; NWaitTimeout 0 DEMO_ID 3 1; NAnnounce 0; NBlock 0] ++ (NSched <$> replicate 50 (OTimer 0))) = Some (Some KTHREAD_STATE_BLOCKED, Some IPC_NOTIFY_WAITING).
Proof. vm_compute. reflexivity. Qed.

(** The identifier with the generation of a free object is accepted by
    [ipc_notification_destroy]: the index is then twice on the stack, and two
    creations share one object. *)
Example destroy_uncreated_shares_object :
  (w ← demo_calls [NCreate 10; NCreate 10; NDestroy 0 DEMO_ID; NDestroy 0 0x20000];
   r1 ← run_nop 0x100000 0x200000 (NCreate 10) w; r2 ← run_nop 0x100000 0x200000 (NCreate 10) r1.1; Some (r1.2, r2.2)) =
  Some (Some 0x40000, Some 0x50000).
Proof. vm_compute. reflexivity. Qed.

(** When every index is free the same call writes past the end of the stack. *)
Example destroy_uncreated_overflows_stack : demo_calls [NCreate 10; NDestroy 0 DEMO_ID; NDestroy 0 0x20000] = None.
Proof. vm_compute. reflexivity. Qed.

(** After the destruction the waiter goes on with the freed object and reports
    success with no bits. *)
Example destroyed_wait_returns_nothing :
  (w ← demo_calls (demo_wait ++ [NDestroy 0 DEMO_ID; NSched (OSchedule 0)]);
   r ← run_nop 0x100000 0x200000 (NResume 0) w; Some r.2) = Some (Some 0).
Proof. vm_compute. reflexivity. Qed.
