(* ===== verification/UserTimer.v ===== *)
(** * User timers (kernel/sched/user_timer.c, user_timer.h)

    Timers of user programs: a table of 32, the active ones in one list ordered by
    expiry; [user_timer_tick] signals a notification for each that is due.  [c] is
    the CPU that runs the function. *)

From S2P Require Import Prelude KList OrdList SchedTypes Sched Threads Sleep SwTimer Notification.

Set Default Goal Selector "!".

Definition CONFIG_MAX_USER_TIMERS : Z := 32.

(** The node is in the node store. *)
Record user_timer_t := UTimer {
  timer_id : Z; owner_tid : Z; notify_ep : Z; ut_expire_tick : Z; ut_interval : Z; ut_active : bool
}.

(** [&s_active_list] and [&s_timers[i].node]. *)
Inductive uaddr := UHead | UNode (i : Z).

#[global] Instance uaddr_eq_dec : EqDecision uaddr.
Proof. solve_decision. Defined.

#[global] Instance uaddr_countable : Countable uaddr.
Proof.
  refine (inj_countable' (λ a, match a with UHead => None | UNode i => Some i end)
                         (λ x, match x with None => UHead | Some i => UNode i end) _).
  by intros [].
Defined.

Notation unodes_t := (gmap uaddr (list_head uaddr)).

Record usys := USys { s_timers : list user_timer_t; ut_nodes : unodes_t; s_next_timer_id : Z; s_initialized : bool }.

Definition get_ut (u : usys) (i : Z) : option user_timer_t := (s_timers u).[i].
Definition set_ut (i : Z) (t : user_timer_t) (u : usys) : option usys :=
  l ← zupdate (s_timers u) i t; Some (USys l (ut_nodes u) (s_next_timer_id u) (s_initialized u)).
Definition on_unodes (f : unodes_t → option unodes_t) (u : usys) : option usys :=
  h ← f (ut_nodes u); Some (USys (s_timers u) h (s_next_timer_id u) (s_initialized u)).

Definition ut_entry (p : option uaddr) : option Z := match p with Some (UNode i) => Some i | _ => None end.
Definition ut_key (u : usys) (a : uaddr) : option Z := i ← ut_entry (Some a); t ← get_ut u i; Some (ut_expire_tick t).

(** ** Helpers *)

Definition timer_insert_ordered (i : Z) (u : usys) : option usys :=
  t ← get_ut u i;
  on_unodes (insert_ordered (Z.to_nat CONFIG_MAX_USER_TIMERS) (ut_key u) UHead (UNode i) (ut_expire_tick t)) u.

(** The first entry from [i] on with this identifier. *)
Fixpoint timer_scan (n : nat) (i id : Z) (u : usys) : option (option Z) :=
  match n with
  | O => Some None
  | S n => t ← get_ut u i; if timer_id t =? id then Some (Some i) else timer_scan n (i + 1) id u
  end.

Definition timer_find (id : Z) (u : usys) : option (option Z) := timer_scan (Z.to_nat CONFIG_MAX_USER_TIMERS) 0 id u.

(** ** Calls *)

Fixpoint init_user_timers (n : nat) (i : Z) (u : usys) : option usys :=
  match n with
  | O => Some u
  | S n =>
      u ← set_ut i (UTimer 0 0 0 0 0 false) u;
      u ← on_unodes (INIT_LIST_HEAD (Some (UNode i))) u;
      init_user_timers n (i + 1) u
  end.

Definition user_timer_subsys_init (u : usys) : option (usys * Z) :=
  u ← init_user_timers (Z.to_nat CONFIG_MAX_USER_TIMERS) 0 u;
  u ← on_unodes (INIT_LIST_HEAD (Some UHead)) u;
  Some (USys (s_timers u) (ut_nodes u) 1 true, KERNEL_OK).

(** [out] says whether the output pointer is not NULL; the identifier stored
    through it is the second result.  The loop looks for identifier 0. *)
Definition user_timer_create (owner ep : Z) (out : bool) (u : usys) : option (usys * (Z * option Z)) :=
  if negb out || negb (s_initialized u) then Some (u, (- EINVAL, None))
  else
    f ← timer_find 0 u;
    match f with
    | None => Some (u, (- ENOMEM, None))
    | Some i =>
        let id := s_next_timer_id u in
        u ← set_ut i (UTimer id owner ep 0 0 false) (USys (s_timers u) (ut_nodes u) (u32 (id + 1)) (s_initialized u));
        u ← on_unodes (INIT_LIST_HEAD (Some (UNode i))) u;
        Some (u, (KERNEL_OK, Some id))
    end.

Definition unlink_active (i : Z) (t : user_timer_t) (u : usys) : option usys :=
  if ut_active t then on_unodes (list_del_init (Some (UNode i))) u else Some u.

Definition user_timer_settime (id ms interval_ms ticks_now : Z) (u : usys) : option (usys * Z) :=
  if negb (s_initialized u) then Some (u, - EINVAL)
  else
    f ← timer_find id u;
    match f with
    | None => Some (u, - ENOENT)
    | Some i =>
        let ticks := MS_TO_TICKS ms in
        let ticks := if ticks =? 0 then 1 else ticks in
        t ← get_ut u i;
        u ← unlink_active i t u;
        let interval := if interval_ms >? 0 then MS_TO_TICKS interval_ms else 0 in
        u ← set_ut i (UTimer (timer_id t) (owner_tid t) (notify_ep t) (u64 (ticks_now + ticks)) interval true) u;
        u ← timer_insert_ordered i u;
        Some (u, KERNEL_OK)
    end.

Definition user_timer_delete (id : Z) (u : usys) : option (usys * Z) :=
  if negb (s_initialized u) then Some (u, - EINVAL)
  else
    f ← timer_find id u;
    match f with
    | None => Some (u, - ENOENT)
    | Some i =>
        t ← get_ut u i;
        u ← unlink_active i t u;
        u ← set_ut i (UTimer 0 (owner_tid t) (notify_ep t) (ut_expire_tick t) (ut_interval t) false) u;
        Some (u, KERNEL_OK)
    end.

(** The hardware counter and its frequency are arguments. *)
Definition user_clock_gettime (count freq : Z) : Z := if freq =? 0 then 0 else u64 (count * 1000000000) / freq.

Definition user_nanosleep (c ns : Z) (s : sched) : option (sched * Z) :=
  if ns =? 0 then Some (s, KERNEL_OK)
  else
    let ticks := u64 (ns * CONFIG_TICK_RATE_HZ) / 1000000000 in
    let ticks := if ticks =? 0 then 1 else ticks in
    s ← kthread_sleep_ticks c ticks s;
    Some (s, KERNEL_OK).

(** ** The tick *)

(** The loop runs until no timer is due; [fuel] bounds its rounds. *)
Fixpoint tick_loop (fuel : nat) (c : Z) (u : usys) (s : sched) (n : nsys) : option (usys * sched * nsys) :=
  match fuel with
  | O => None
  | S fuel =>
      e ← list_empty (Some UHead) (ut_nodes u);
      if (e : bool) then Some (u, s, n)
      else
        first ← get_next (ut_nodes u) (Some UHead);
        i ← ut_entry first;
        t ← get_ut u i;
        if ut_expire_tick t >? timer_get_ticks s then Some (u, s, n)
        else
          u ← on_unodes (list_del_init (Some (UNode i))) u;
          r ← (if negb (notify_ep t =? 0) then ipc_notification_signal c (notify_ep t) 1 s n else Some (s, n, KERNEL_OK));
          let '(s, n, _) := r in
          u ← (if ut_interval t >? 0 then
                 u ← set_ut i (UTimer (timer_id t) (owner_tid t) (notify_ep t) (u64 (ut_expire_tick t + ut_interval t)) (ut_interval t) (ut_active t)) u;
                 timer_insert_ordered i u
               else set_ut i (UTimer (timer_id t) (owner_tid t) (notify_ep t) (ut_expire_tick t) (ut_interval t) false) u);
          tick_loop fuel c u s n
  end.

Definition user_timer_tick (fuel : nat) (c : Z) (u : usys) (s : sched) (n : nsys) : option (usys * sched * nsys) :=
  if negb (s_initialized u) then Some (u, s, n) else tick_loop fuel c u s n.
