(* ===== verification/UserTimerSpec.v ===== *)
(** * User timers against sequences

    [urep u l]: the active list holds the timers [l], exactly the active ones,
    ordered by expiry.  The tick is proved to come to an end and to bring every
    timer to the first expiry after the current time. *)

From stdpp Require Import sorting.
From S2P Require Import Prelude KList OrdList SchedTypes Sched Threads Sleep SchedRep SchedInv SchedThreads SchedSleep SchedSystem.
From S2P Require Import SwTimer Notification NotificationSpec NotificationTheorems UserTimer.

Set Default Goal Selector "!".

#[local] Arguments Z.pow : simpl never.

Notation is_ut i := (0 <= i < 32).

(** ** The list *)

Definition unodes (h : unodes_t) (l : list Z) : Prop :=
  ∃ M, lists_rep h M ∧ M !! UHead = Some (UNode <$> l) ∧ ∀ i, is_ut i → i ∉ l → M !! UNode i = Some [].

#[global] Instance UNode_inj : Inj (=) (=) UNode.
Proof. by intros ?? [= ->]. Qed.

Lemma unodes_dll h l : unodes h l → dll h UHead (UNode <$> l).
Proof. intros (M & HM & Hh & _). by eapply lists_rep_dll. Qed.

Lemma unodes_nodup h l : unodes h l → NoDup l.
Proof. intros Hu%unodes_dll. destruct (dll_NoDup _ _ _ Hu) as [Hn _]. by apply NoDup_fmap_1 in Hn. Qed.

Lemma unodes_del h xs i ys : unodes h (xs ++ i :: ys) → ∃ h', list_del_init (Some (UNode i)) h = Some h' ∧ unodes h' (xs ++ ys).
Proof.
  intros Hu. pose proof (unodes_nodup _ _ Hu) as Hnd. destruct Hu as (M & HM & Hh & Hf). rewrite fmap_app, fmap_cons in Hh.
  destruct (lists_rep_del_init h M _ _ _ _ HM Hh) as (h' & E & HM' & _). exists h'. split; [done|]. eexists. split; [exact HM'|].
  split; [rewrite lookup_insert_ne, lookup_insert_eq by done; by rewrite fmap_app|]. intros j Hj Hjl.
  destruct (decide (j = i)) as [->|Hne]; [by rewrite lookup_insert_eq|]. rewrite !lookup_insert_ne by congruence. apply Hf; [done|]. set_solver.
Qed.

Lemma unodes_insert h l i v key (k : Z → Z) : unodes h l → is_ut i → i ∉ l → (length l <= 32)%nat → (∀ j, j ∈ l → key (UNode j) = Some (k j)) →
  ∃ h', insert_ordered 32 key UHead (UNode i) v h = Some h' ∧ unodes h' ((split_le v k l).1 ++ i :: (split_le v k l).2).
Proof.
  intros (M & HM & Hh & Hf) Hi Hil Hlen Hk. set (k' := λ a, match a with UNode j => k j | UHead => 0 end).
  destruct (insert_ordered_spec 32 key k' h M UHead (UNode <$> l) (UNode i) v HM Hh) as (h' & E & HM');
    [by apply Hf|done|by rewrite length_fmap| |].
  { intros a (j & -> & Hj)%list_elem_of_fmap. by apply Hk. }
  exists h'. split; [done|]. rewrite (split_le_fmap UNode k' k) in HM' by done. cbn [fst snd] in HM'. rewrite <- fmap_cons, <- fmap_app in HM'.
  eexists. split; [exact HM'|]. split; [by rewrite lookup_insert_eq|]. intros j Hj Hjl. rewrite lookup_insert_ne by done.
  rewrite elem_of_app, elem_of_cons in Hjl. rewrite lookup_delete_ne by (intros [= ->]; apply Hjl; by right; left). apply Hf; [done|].
  rewrite <- (split_le_app v k l), elem_of_app. naive_solver.
Qed.

Lemma INIT_LIST_HEAD_self {L} `{Countable L} (h : gmap L (list_head L)) e : dll h e [] → INIT_LIST_HEAD (Some e) h = Some h.
Proof.
  intros [Hn Hp]%dll_nil. unfold nxt, prv in *. apply bind_Some in Hn as ([a b] & He & Hn). rewrite He in Hp. cbn in *. simplify_eq.
  unfold INIT_LIST_HEAD, set_next, set_prev. cbn. repeat (rewrite ?He, ?lookup_insert_eq; cbn). rewrite !insert_insert_eq. f_equal. by apply insert_id.
Qed.

Lemma unodes_init h l i : unodes h l → is_ut i → i ∉ l → INIT_LIST_HEAD (Some (UNode i)) h = Some h.
Proof. intros (M & HM & _ & Hf) Hi Hil. apply INIT_LIST_HEAD_self. eapply lists_rep_dll; [exact HM|]. by apply Hf. Qed.

(** ** The invariant *)

Definition uexp (u : usys) (i : Z) : Z := default 0 (ut_expire_tick <$> get_ut u i).

Record ut_ok (t : user_timer_t) : Prop := UtOk {
  uk_expire : 0 <= ut_expire_tick t < 2 ^ 64;
  uk_interval : 0 <= ut_interval t < 2 ^ 32;
  uk_ep : 0 <= notify_ep t;
  uk_id : ut_active t = true → timer_id t ≠ 0
}.

Record urep (u : usys) (l : list Z) : Prop := URep {
  ur_init : s_initialized u = true;
  ur_len : length (s_timers u) = 32%nat;
  ur_nodes : unodes (ut_nodes u) l;
  ur_active : ∀ i, i ∈ l ↔ ∃ t, get_ut u i = Some t ∧ ut_active t = true;
  ur_sorted : StronglySorted Z.le (uexp u <$> l);
  ur_ok : ∀ i t, get_ut u i = Some t → ut_ok t
}.

Lemma get_ut_range u l i t : urep u l → get_ut u i = Some t → is_ut i.
Proof. intros HR E. apply zlookup_Some_lt in E. rewrite (ur_len _ _ HR) in E. lia. Qed.

Lemma get_ut_total u l i : urep u l → is_ut i → ∃ t, get_ut u i = Some t.
Proof. intros HR Hi. apply zlookup_is_Some. rewrite (ur_len _ _ HR). lia. Qed.

Lemma ur_fuel u l : urep u l → (length l <= 32)%nat.
Proof.
  intros HR. assert (l ⊆+ seqZ 0 32) as Hs%submseteq_length.
  { apply NoDup_submseteq; [by eapply unodes_nodup, ur_nodes|]. intros i (t & Ht & _)%(ur_active _ _ HR). apply elem_of_seqZ.
    pose proof (get_ut_range u l i t HR Ht). lia. }
  by rewrite length_seqZ in Hs.
Qed.

Lemma set_ut_spec u i t : length (s_timers u) = 32%nat → is_ut i → ∃ u', set_ut i t u = Some u' ∧ length (s_timers u') = 32%nat ∧
  ut_nodes u' = ut_nodes u ∧ s_next_timer_id u' = s_next_timer_id u ∧ s_initialized u' = s_initialized u ∧
  get_ut u' i = Some t ∧ ∀ j, j ≠ i → get_ut u' j = get_ut u j.
Proof.
  intros Hl Hi. unfold set_ut. rewrite zupdate_total by lia. rewrite some_bind. eexists. split; [done|]. cbn. rewrite length_insert.
  repeat (split; [done|]). unfold get_ut. cbn. split; [apply zlookup_insert_eq; lia|]. intros j Hj. apply zlookup_insert_ne; [lia|done].
Qed.

Lemma uexp_other u u' i (l : list Z) : (∀ j, j ≠ i → get_ut u' j = get_ut u j) → i ∉ l → uexp u' <$> l = uexp u <$> l.
Proof.
  intros Ho Hi. apply list_fmap_ext. intros m j Hj%list_elem_of_lookup_2. unfold uexp. rewrite Ho; [done|]. intros ->. done.
Qed.

(** Timer [i] leaves the list and is no longer active. *)
Lemma disarm_rep u l xs i ys t u1 : urep u l → l = xs ++ i :: ys → ut_ok t → ut_active t = false →
  list_del_init (Some (UNode i)) (ut_nodes u) = Some (ut_nodes u1) → s_timers u1 = s_timers u → s_initialized u1 = s_initialized u →
  ∃ u', set_ut i t u1 = Some u' ∧ urep u' (xs ++ ys) ∧ get_ut u' i = Some t ∧ (∀ j, j ≠ i → get_ut u' j = get_ut u j).
Proof.
  intros HR Hl Hok Hact Hd Ht1 Hi1. pose proof HR as [H1 H2 H3 H4 H5 H6]. subst l.
  assert (is_ut i) as Hi by (destruct (proj1 (H4 i)) as (t0 & E0 & _); [set_solver|by eapply get_ut_range]).
  pose proof (unodes_nodup _ _ H3) as Hnd. assert (i ∉ xs ++ ys) as Hni by (apply NoDup_app in Hnd as (_ & Hx & [Hy _]%NoDup_cons); set_solver).
  destruct (unodes_del _ _ _ _ H3) as (h' & E & Hu'). rewrite Hd in E. injection E as <-.
  destruct (set_ut_spec u1 i t) as (u' & E & G1 & G2 & _ & G4 & G5 & G6); [by rewrite Ht1|done|].
  assert (∀ j, j ≠ i → get_ut u' j = get_ut u j) as Ho by (intros j Hj; rewrite G6 by done; unfold get_ut; by rewrite Ht1).
  exists u'. split; [done|]. split; [|done]. split; [congruence|done|by rewrite G2| | |].
  - intros j. destruct (decide (j = i)) as [->|Hne].
    + rewrite G5. split; [done|]. intros (t' & [= <-] & ?). congruence.
    + rewrite Ho by done. rewrite <- H4. set_solver.
  - rewrite (uexp_other u u' i) by done. rewrite fmap_app in *. apply StronglySorted_app in H5 as (Ha & Hb & Hc). cbn in Hc.
    apply StronglySorted_cons in Hc as [_ Hc]. apply StronglySorted_app. split; [|done]. intros a b Ha' Hb'. apply Ha; [done|]. cbn. set_solver.
  - intros j t'. destruct (decide (j = i)) as [->|Hne]; [rewrite G5; by intros [= <-]|rewrite Ho by done; apply H6].
Qed.

(** An inactive timer is armed. *)
Lemma arm_rep u l i t t0 : urep u l → get_ut u i = Some t0 → i ∉ l → ut_ok t → ut_active t = true →
  ∃ u1 u', set_ut i t u = Some u1 ∧ timer_insert_ordered i u1 = Some u' ∧
    urep u' ((split_le (ut_expire_tick t) (uexp u) l).1 ++ i :: (split_le (ut_expire_tick t) (uexp u) l).2) ∧
    get_ut u' i = Some t ∧ (∀ j, j ≠ i → get_ut u' j = get_ut u j).
Proof.
  intros HR Ht0 Hil Hok Hact. pose proof HR as [H1 H2 H3 H4 H5 H6]. pose proof (get_ut_range _ _ _ _ HR Ht0) as Hi.
  destruct (set_ut_spec u i t H2 Hi) as (u1 & E & G1 & G2 & _ & G4 & G5 & G6).
  destruct (unodes_insert (ut_nodes u1) l i (ut_expire_tick t) (ut_key u1) (uexp u)) as (h' & E' & Hu');
    [by rewrite G2|done|done|by eapply ur_fuel| |].
  { intros j Hj. unfold ut_key. cbn [ut_entry]. rewrite some_bind, G6 by (intros ->; done). unfold uexp.
    destruct (proj1 (H4 j) Hj) as (t' & Et' & _). by rewrite Et'. }
  pose proof (split_le_app (ut_expire_tick t) (uexp u) l) as Hs. set (xs := (split_le _ _ l).1) in *. set (ys := (split_le _ _ l).2) in *.
  eexists u1, _. split; [done|]. unfold timer_insert_ordered, on_unodes. rewrite G5, some_bind. change (Z.to_nat CONFIG_MAX_USER_TIMERS) with 32%nat.
  rewrite E', some_bind. split; [done|]. set (u' := USys _ h' _ _).
  assert (∀ j, get_ut u' j = get_ut u1 j) as Hg by done. split; [|split; [by rewrite Hg|intros j Hj; by rewrite Hg, G6]].
  split; [cbn; congruence|done|exact Hu'| | |].
  - intros j. rewrite Hg, elem_of_app, elem_of_cons. destruct (decide (j = i)) as [->|Hne].
    + rewrite G5. split; [by exists t|by auto].
    + rewrite G6 by done. rewrite <- H4, <- Hs, elem_of_app. naive_solver.
  - assert (∀ zs, i ∉ zs → uexp u' <$> zs = uexp u <$> zs) as Hz by (intros zs; by apply uexp_other).
    rewrite <- Hs in Hil. rewrite fmap_app, fmap_cons, !Hz by set_solver. assert (uexp u' i = ut_expire_tick t) as ->.
    { unfold uexp. by rewrite Hg, G5. }
    by apply split_le_sorted.
  - intros j t'. rewrite Hg. destruct (decide (j = i)) as [->|Hne]; [rewrite G5; by intros [= <-]|rewrite G6 by done; apply H6].
Qed.

(** ** What the tick does to one timer *)

(** One expiry. *)
Definition expire_once (t : user_timer_t) : user_timer_t :=
  if ut_interval t >? 0 then
    UTimer (timer_id t) (owner_tid t) (notify_ep t) (u64 (ut_expire_tick t + ut_interval t)) (ut_interval t) (ut_active t)
  else UTimer (timer_id t) (owner_tid t) (notify_ep t) (ut_expire_tick t) (ut_interval t) false.

Definition due (now : Z) (t : user_timer_t) : bool := ut_active t && (ut_expire_tick t <=? now).

(** How often a timer expires up to [now]. *)
Definition rounds (now : Z) (t : user_timer_t) : Z :=
  if due now t then if ut_interval t >? 0 then (now - ut_expire_tick t) / ut_interval t + 1 else 1 else 0.

(** A periodic timer moves to its first expiry after [now]; a single one ends. *)
Definition catch_up (now : Z) (t : user_timer_t) : user_timer_t :=
  if due now t then
    if ut_interval t >? 0 then
      UTimer (timer_id t) (owner_tid t) (notify_ep t) (ut_expire_tick t + rounds now t * ut_interval t) (ut_interval t) true
    else UTimer (timer_id t) (owner_tid t) (notify_ep t) (ut_expire_tick t) (ut_interval t) false
  else t.

Lemma due_true now t : due now t = true ↔ ut_active t = true ∧ ut_expire_tick t <= now.
Proof. unfold due. by rewrite andb_true_iff, Z.leb_le. Qed.

Lemma rounds_nonneg now t : 0 <= rounds now t.
Proof.
  unfold rounds. destruct (due now t) eqn:Ed; [|done]. apply due_true in Ed as [_ Hle]. rewrite Z.gtb_ltb. destruct (Z.ltb_spec 0 (ut_interval t)); [|done].
  pose proof (Z.div_pos (now - ut_expire_tick t) (ut_interval t)). lia.
Qed.

Lemma expire_once_spec now t : ut_ok t → now < 2 ^ 63 → due now t = true →
  ut_ok (expire_once t) ∧ rounds now (expire_once t) = rounds now t - 1 ∧ catch_up now (expire_once t) = catch_up now t.
Proof.
  intros [O1 O2 O3 O4] Hnow Hd. pose proof Hd as [Ha Hle]%due_true. unfold expire_once, catch_up, rounds. rewrite Hd. rewrite Z.gtb_ltb.
  destruct (Z.ltb_spec 0 (ut_interval t)) as [Hiv|Hiv]; [|done]. assert (2 ^ 64 = 2 * 2 ^ 63 ∧ 2 ^ 32 < 2 ^ 63) as [? ?] by done.
  rewrite u64_small by lia. set (e := ut_expire_tick t) in *. set (iv := ut_interval t) in *. set (t1 := UTimer _ _ _ (e + iv) _ _).
  assert ((now - e) / iv = (now - (e + iv)) / iv + 1) as Hdiv.
  { replace (now - e) with (now - (e + iv) + 1 * iv) by lia. rewrite Z.div_add; lia. }
  split; [split; cbn; [lia|lia|done|done]|]. rewrite Z.gtb_ltb. change (ut_interval t1) with iv. rewrite (proj2 (Z.ltb_lt 0 iv)) by lia.
  change (ut_expire_tick t1) with (e + iv). destruct (due now t1) eqn:Ed1.
  - split; [lia|]. subst t1. cbn. f_equal. fold e iv. lia.
  - assert (now < e + iv) as Hlt. { destruct (Z.ltb_spec now (e + iv)); [done|]. assert (due now t1 = true) by (by apply due_true). congruence. }
    assert ((now - e) / iv = 0) as -> by (apply Z.div_small; lia). split; [done|]. subst t1. cbn. rewrite Ha. f_equal. fold e iv. lia.
Qed.

(** ** Signals *)

Fixpoint signal_all (c : Z) (eps : list Z) (s : sched) (n : nsys) : option (sched * nsys) :=
  match eps with
  | [] => Some (s, n)
  | ep :: eps =>
      r ← (if negb (ep =? 0) then ipc_notification_signal c ep 1 s n else Some (s, n, KERNEL_OK));
      signal_all c eps r.1.1 r.1.2
  end.

Lemma on_thread_ticks t f s s' : on_thread t f s = Some s' → s_system_ticks s' = s_system_ticks s.
Proof. unfold on_thread. intros E. repeat (apply bind_Some in E as (? & _ & E)). by injection E as <-. Qed.

Lemma on_q_ticks c f s s' : on_q c f s = Some s' → s_system_ticks s' = s_system_ticks s.
Proof. unfold on_q. intros E. repeat (apply bind_Some in E as (? & _ & E)). by injection E as <-. Qed.

Lemma on_snodes_ticks f s s' : on_snodes f s = Some s' → s_system_ticks s' = s_system_ticks s.
Proof. unfold on_snodes. intros E. repeat (apply bind_Some in E as (? & _ & E)). by injection E as <-. Qed.

Lemma enqueue_ticks c o s s' : scheduler_enqueue c o s = Some s' → s_system_ticks s' = s_system_ticks s.
Proof.
  destruct o as [t|]; cbn; [|by intros [= <-]]. unfold __sched_enqueue_locked. intros E.
  apply bind_Some in E as (q & _ & E). apply bind_Some in E as (th & _ & E). apply bind_Some in E as (bm & _ & E).
  apply bind_Some in E as (s1 & E1%on_q_ticks & E). apply bind_Some in E as (s2 & E2%on_snodes_ticks & E3%on_q_ticks). congruence.
Qed.

Lemma signal_ticks c id b s n s' n' r : ipc_notification_signal c id b s n = Some (s', n', r) → s_system_ticks s' = s_system_ticks s.
Proof.
  unfold ipc_notification_signal. destruct (b =? 0); [by intros [= <- _ _]|]. intros E. apply bind_Some in E as (g & _ & E).
  destruct g as [i|]; [|by injection E as <- _ _]. apply bind_Some in E as (x & _ & E). apply bind_Some in E as (s1 & E1 & E).
  apply bind_Some in E as (n1 & _ & E). injection E as <- _ _. destruct (_ && _); [|by injection E1 as <-].
  destruct (_ <? _); [|by injection E1 as <-]. apply bind_Some in E1 as (o & _ & E1). destruct o as [t|]; [|by injection E1 as <-].
  apply bind_Some in E1 as (s2 & E2%on_thread_ticks & E1%enqueue_ticks). congruence.
Qed.

(** ** The tick *)

Definition sum_rounds (now : Z) (u : usys) : Z := foldr (λ t a, rounds now t + a) 0 (s_timers u).

Lemma foldr_rounds_insert now l i t t' : l !! i = Some t →
  foldr (λ t a, rounds now t + a) 0 (<[i := t']> l) = foldr (λ t a, rounds now t + a) 0 l - rounds now t + rounds now t'.
Proof.
  revert i. induction l as [|x l IH]; intros [|i] E; [done|done|injection E as ->; cbn; lia|].
  change (<[S i := t']> (x :: l)) with (x :: <[i := t']> l). cbn [foldr]. rewrite (IH i E). lia.
Qed.

Lemma foldr_rounds_nonneg now l : 0 <= foldr (λ t a, rounds now t + a) 0 l.
Proof. induction l as [|t l IH]; [done|]. cbn. pose proof (rounds_nonneg now t). lia. Qed.

(** A change of timer [i] alone. *)
Lemma sum_rounds_one now u u' l l' i t t' : urep u l → urep u' l' → get_ut u i = Some t → get_ut u' i = Some t' →
  (∀ j, j ≠ i → get_ut u' j = get_ut u j) → sum_rounds now u' = sum_rounds now u - rounds now t + rounds now t'.
Proof.
  intros HR HR' Ht Ht' Ho. pose proof (get_ut_range _ _ _ _ HR Ht) as Hi. unfold sum_rounds.
  assert (s_timers u' = <[Z.to_nat i := t']> (s_timers u)) as ->.
  { apply list_eq. intros m. destruct (decide (m = Z.to_nat i)) as [->|Hne].
    - rewrite list_lookup_insert_eq by (rewrite (ur_len _ _ HR); lia). rewrite <- zlookup_nat, Z2Nat.id by lia. exact Ht'.
    - rewrite list_lookup_insert_ne by done. rewrite <- !zlookup_nat. apply (Ho (Z.of_nat m)). lia. }
  apply foldr_rounds_insert. rewrite <- zlookup_nat, Z2Nat.id by lia. exact Ht.
Qed.

Lemma set_ut_twice i t1 t2 u u1 : set_ut i t1 u = Some u1 → set_ut i t2 u1 = set_ut i t2 u.
Proof.
  unfold set_ut. intros E. apply bind_Some in E as (l & El & [= <-]). apply zupdate_Some in El as (? & ->). cbn.
  rewrite !zupdate_total by (rewrite ?length_insert; lia). cbn. by rewrite list_insert_insert_eq.
Qed.

(** The first timer of the list expires. *)
Lemma expire_step u i l t now : urep u (i :: l) → get_ut u i = Some t → now < 2 ^ 63 → due now t = true →
  ∃ u1 u' l', on_unodes (list_del_init (Some (UNode i))) u = Some u1 ∧
    (if ut_interval t >? 0 then
       u ← set_ut i (UTimer (timer_id t) (owner_tid t) (notify_ep t) (u64 (ut_expire_tick t + ut_interval t)) (ut_interval t) (ut_active t)) u1;
       timer_insert_ordered i u
     else set_ut i (UTimer (timer_id t) (owner_tid t) (notify_ep t) (ut_expire_tick t) (ut_interval t) false) u1) = Some u' ∧
    urep u' l' ∧ get_ut u' i = Some (expire_once t) ∧ (∀ j, j ≠ i → get_ut u' j = get_ut u j).
Proof.
  intros HR Ht Hnow Hd. pose proof HR as [H1 H2 H3 H4 H5 H6]. pose proof (H6 i t Ht) as Hok. destruct (expire_once_spec now t Hok Hnow Hd) as (Hok' & _).
  destruct (unodes_del _ [] i l H3) as (h & Eh & _). set (t0 := UTimer (timer_id t) (owner_tid t) (notify_ep t) (ut_expire_tick t) (ut_interval t) false).
  set (u1 := USys (s_timers u) h (s_next_timer_id u) (s_initialized u)). exists u1. unfold on_unodes. rewrite Eh, some_bind. fold u1.
  assert (ut_ok t0) as Hok0 by (destruct Hok; by split).
  destruct (disarm_rep u (i :: l) [] i l t0 u1 HR eq_refl Hok0 eq_refl Eh eq_refl eq_refl) as (u0 & E0 & HR0 & Hi0 & Ho0). cbn [app] in HR0.
  unfold expire_once in *. destruct (ut_interval t >? 0) eqn:Eiv.
  - set (t1 := UTimer _ _ _ _ _ (ut_active t)) in *. assert (i ∉ l) as Hil by (by apply unodes_nodup, NoDup_cons in H3 as [? _]).
    destruct (arm_rep u0 l i t1 t0 HR0 Hi0 Hil Hok') as (u2 & u3 & E2 & E3 & HR3 & Hi3 & Ho3); [by apply due_true in Hd as [? _]|].
    rewrite (set_ut_twice _ _ _ _ _ E0) in E2. exists u3. eexists. split; [done|]. rewrite E2, some_bind. split; [exact E3|]. split; [exact HR3|].
    split; [done|]. intros j Hj. by rewrite Ho3, Ho0.
  - exists u0, l. by split.
Qed.

Section tick.
Context {A : Type} `{StackSlab A}.
Notation times i fired := (count_occ Z.eq_dec fired i).

(** What the loop reaches: each timer caught up, one signal per expiry. *)
Record ticked (c now : Z) (u u' : usys) (w w' : nworld A) : Prop := Ticked {
  td_rep : ∃ l, urep u' l ∧ ∀ i, i ∈ l → now < uexp u' i;
  td_timers : ∀ i t, get_ut u i = Some t → get_ut u' i = Some (catch_up now t);
  td_world : nw_ok w' ∧ nw_blocked w' = nw_blocked w;
  td_signals : ∃ fired, (∀ i t, get_ut u i = Some t → times i fired = Z.to_nat (rounds now t)) ∧
    signal_all c (default 0 ∘ (λ i, notify_ep <$> get_ut u i) <$> fired) (nw_sched w) (nw_n w) = Some (nw_sched w', nw_n w')
}.

Lemma rounds_zero now u l : urep u l → (∀ i, head l = Some i → now < uexp u i) →
  (∀ i, i ∈ l → now < uexp u i) ∧ ∀ i t, get_ut u i = Some t → due now t = false.
Proof.
  intros HR Hh. assert (∀ i, i ∈ l → now < uexp u i) as Hall.
  { pose proof (ur_sorted _ _ HR) as Hso. destruct l as [|j l]; [by intros i ?%elem_of_nil|]. specialize (Hh j eq_refl). cbn in Hso.
    apply StronglySorted_cons in Hso as [Hle _]. rewrite Forall_forall in Hle. intros i [->|Hi]%elem_of_cons; [done|].
    specialize (Hle (uexp u i)). assert (uexp u i ∈ uexp u <$> l) by (apply list_elem_of_fmap; by exists i). specialize (Hle ltac:(done)). lia. }
  split; [done|]. intros i t Ht. destruct (due now t) eqn:Ed; [|done]. apply due_true in Ed as [Ha Hle].
  specialize (Hall i ltac:(apply (ur_active _ _ HR); by exists t)). unfold uexp in Hall. rewrite Ht in Hall. cbn in Hall. lia.
Qed.

Lemma ticked_done c now u l (w : nworld A) : urep u l → nw_ok w → (∀ i, head l = Some i → now < uexp u i) → ticked c now u u w w.
Proof.
  intros HR HW Hh. destruct (rounds_zero now u l HR Hh) as [H1 H2]. split; [by exists l| |done|].
  - intros i t Ht. unfold catch_up. by rewrite (H2 i t Ht).
  - exists []. split; [|done]. intros i t Ht. unfold rounds. by rewrite (H2 i t Ht).
Qed.

Lemma signal_opt (w : nworld A) c ep : nw_ok w → is_cpu c → 0 <= ep →
  ∃ s' n' r, (if negb (ep =? 0) then ipc_notification_signal c ep 1 (nw_sched w) (nw_n w) else Some (nw_sched w, nw_n w, KERNEL_OK)) = Some (s', n', r) ∧
    nw_ok (NW (upd_sched s' (nw_k w)) n' (nw_blocked w)) ∧ s_system_ticks s' = s_system_ticks (nw_sched w).
Proof.
  intros HW Hc Hep. destruct (ep =? 0); cbn [negb].
  - eexists _, _, _. split; [done|]. split; [|done]. destruct HW. by split.
  - destruct (signal_step w c ep 1 HW Hc Hep) as (s' & n' & r & E & [HW' _]); [done|]. exists s', n', r. split; [done|]. split; [done|]. by eapply signal_ticks.
Qed.

(** As many rounds as there are expiries, and one more, are enough. *)
Lemma tick_loop_spec fuel c u l (w : nworld A) : urep u l → nw_ok w → is_cpu c → let now := s_system_ticks (nw_sched w) in now < 2 ^ 63 →
  sum_rounds now u < Z.of_nat fuel →
  ∃ u' s' n', tick_loop fuel c u (nw_sched w) (nw_n w) = Some (u', s', n') ∧ ticked c now u u' w (NW (upd_sched s' (nw_k w)) n' (nw_blocked w)).
Proof.
  revert u l w. induction fuel as [|fuel IH]; intros u l w HR HW Hc now Hnow Hf.
  { pose proof (foldr_rounds_nonneg now (s_timers u)). unfold sum_rounds in Hf. lia. }
  cbn [tick_loop]. pose proof (unodes_dll _ _ (ur_nodes _ _ HR)) as Hd. rewrite (list_empty_spec _ _ _ Hd), some_bind.
  assert (nw_ok (NW (upd_sched (nw_sched w) (nw_k w)) (nw_n w) (nw_blocked w))) as HW0 by (destruct HW; by split).
  destruct l as [|i l].
  { cbn. eexists _, _, _. split; [done|]. destruct (ticked_done c now u [] _ HR HW0 ltac:(done)) as [D1 D2 D3 D4]. by split. }
  rewrite bool_decide_eq_false_2 by done. rewrite (get_next_nxt _ _ _ (dll_first _ _ _ Hd)), some_bind. cbn [fmap list_fmap head default ut_entry id].
  rewrite some_bind. destruct (proj1 (ur_active _ _ HR i) ltac:(set_solver)) as (t & Ht & Hact). rewrite Ht, some_bind, Z.gtb_ltb.
  unfold timer_get_ticks. fold now. assert (uexp u i = ut_expire_tick t) as Ee by (unfold uexp; by rewrite Ht).
  destruct (Z.ltb_spec now (ut_expire_tick t)) as [Hlt|Hge].
  { eexists _, _, _. split; [done|]. destruct (ticked_done c now u (i :: l) _ HR HW0) as [D1 D2 D3 D4]; [intros j [= <-]; by rewrite Ee|]. by split. }
  assert (due now t = true) as Hdue by (by apply due_true).
  destruct (expire_step u i l t now HR Ht Hnow Hdue) as (u1 & u2 & l2 & E1 & E2 & HR2 & Hi2 & Ho2). rewrite E1, some_bind.
  pose proof (ur_ok _ _ HR i t Ht) as Hok. destruct (signal_opt w c (notify_ep t) HW Hc (uk_ep _ Hok)) as (s1 & n1 & r1 & Es & HW1 & Hticks).
  rewrite Es, some_bind, E2, some_bind. destruct (expire_once_spec now t Hok Hnow Hdue) as (_ & Hr & Hcu).
  set (w1 := NW (upd_sched s1 (nw_k w)) n1 (nw_blocked w)) in *.
  destruct (IH u2 l2 w1 HR2 HW1 Hc) as (u3 & s3 & n3 & E3 & [D1 D2 D3 D4]).
  { change (nw_sched w1) with s1. by rewrite Hticks. }
  { change (nw_sched w1) with s1. rewrite Hticks. fold now. rewrite (sum_rounds_one now u u2 _ _ i t (expire_once t) HR HR2) by done. lia. }
  change (nw_sched w1) with s1 in *. rewrite Hticks in *. fold now in D1, D2, D4. exists u3, s3, n3. split; [exact E3|]. split.
  - exact D1.
  - intros j tj Hj. destruct (decide (j = i)) as [->|Hne]; [|apply D2; by rewrite Ho2]. assert (tj = t) as -> by congruence. rewrite <- Hcu. by apply D2.
  - exact D3.
  - destruct D4 as (fired & F1 & F2). exists (i :: fired). split.
    + intros j tj Hj. cbn [count_occ]. destruct (Z.eq_dec i j) as [<-|Hne]; [|apply F1; by rewrite Ho2].
      assert (tj = t) as -> by congruence. rewrite (F1 i _ Hi2), Hr.
      assert (1 <= rounds now t) by (pose proof (rounds_nonneg now (expire_once t)); lia). lia.
    + cbn [fmap list_fmap signal_all compose]. rewrite Ht. cbn [fmap option_fmap option_map default]. unfold id. rewrite Es, some_bind. cbn [fst snd].
      change n1 with (nw_n w1). erewrite list_fmap_ext; [exact F2|]. intros m j _. cbn. destruct (decide (j = i)) as [->|Hne]; [|by rewrite Ho2].
      rewrite Hi2, Ht. cbn. unfold expire_once. by destruct (_ >? _).
Qed.
End tick.

Lemma tick_loop_mono fuel fuel' c u s n r : tick_loop fuel c u s n = Some r → (fuel <= fuel')%nat → tick_loop fuel' c u s n = Some r.
Proof.
  revert fuel' u s n. induction fuel as [|fuel IH]; intros [|fuel'] u s n E Hle; [done|done|lia|]. cbn [tick_loop] in *.
  apply bind_Some in E as (e & -> & E). rewrite some_bind. destruct e; [done|].
  apply bind_Some in E as (first & -> & E). apply bind_Some in E as (i & Ei & E). apply bind_Some in E as (t & Et & E). rewrite some_bind, Ei, some_bind, Et, some_bind.
  destruct (_ >? _); [done|]. apply bind_Some in E as (u1 & Eu1 & E). apply bind_Some in E as ([[s1 n1] r1] & Es & E). rewrite Eu1, some_bind, Es, some_bind.
  apply bind_Some in E as (u2 & Eu2 & E). rewrite Eu2, some_bind. apply IH; [done|lia].
Qed.

(** ** Identifiers *)

Record uids (u : usys) : Prop := UIds {
  ui_next : 1 <= s_next_timer_id u;
  ui_old : ∀ i t, get_ut u i = Some t → 0 <= timer_id t < s_next_timer_id u;
  ui_inj : ∀ i j t t', get_ut u i = Some t → get_ut u j = Some t' → timer_id t = timer_id t' → timer_id t ≠ 0 → i = j
}.

Lemma uids_keep u u' : uids u → s_next_timer_id u' = s_next_timer_id u →
  (∀ i t', get_ut u' i = Some t' → ∃ t, get_ut u i = Some t ∧ (timer_id t' = timer_id t ∨ timer_id t' = 0)) → uids u'.
Proof.
  intros [H1 H2 H3] Hn Hg. split; [by rewrite Hn| |].
  - intros i t' (t & Ht & Ei)%Hg. rewrite Hn. pose proof (H2 i t Ht). lia.
  - intros i j t t' Ht Ht' E Hne. apply Hg in Ht as (a & Ha & Ei), Ht' as (b & Hb & Ej). apply (H3 i j a b); [done|done| |]; destruct Ei, Ej; congruence.
Qed.

Lemma timer_scan_spec n i id u : length (s_timers u) = 32%nat → 0 <= i → i + Z.of_nat n = 32 →
  (∃ j t, timer_scan n i id u = Some (Some j) ∧ is_ut j ∧ get_ut u j = Some t ∧ timer_id t = id) ∨
  (timer_scan n i id u = Some None ∧ ∀ j t, i <= j → get_ut u j = Some t → timer_id t ≠ id).
Proof.
  intros Hl. revert i. induction n as [|n IH]; intros i Hi Hn; cbn [timer_scan].
  { right. split; [done|]. intros j t Hj E. apply zlookup_Some_lt in E. lia. }
  assert (is_Some (get_ut u i)) as [t Ht] by (apply zlookup_is_Some; lia). rewrite Ht, some_bind. destruct (Z.eqb_spec (timer_id t) id) as [E|Hne].
  { left. exists i, t. split; [done|]. split; [lia|]. by split. }
  destruct (IH (i + 1)) as [?|[E Hno]]; [lia|lia|by left|right]. split; [done|]. intros j tj Hj Ej. destruct (decide (j = i)) as [->|]; [congruence|].
  apply (Hno j); [lia|done].
Qed.

Lemma timer_find_spec id u : length (s_timers u) = 32%nat →
  (∃ i t, timer_find id u = Some (Some i) ∧ is_ut i ∧ get_ut u i = Some t ∧ timer_id t = id) ∨
  (timer_find id u = Some None ∧ ∀ i t, get_ut u i = Some t → timer_id t ≠ id).
Proof.
  intros Hl. destruct (timer_scan_spec 32 0 id u Hl) as [?|[E Hno]]; [done|done|by left|right]. split; [done|]. intros i t E'. apply (Hno i); [|done].
  by apply zlookup_Some_lt in E' as [? _].
Qed.

(** ** The calls *)

(** A timer outside the list that stays outside it. *)
Lemma idle_rep u l i t0 t : urep u l → get_ut u i = Some t0 → i ∉ l → ut_ok t → ut_active t = false →
  ∃ u', set_ut i t u = Some u' ∧ urep u' l ∧ get_ut u' i = Some t ∧ (∀ j, j ≠ i → get_ut u' j = get_ut u j) ∧ s_next_timer_id u' = s_next_timer_id u.
Proof.
  intros HR Ht0 Hil Hok Hact. pose proof HR as [H1 H2 H3 H4 H5 H6]. pose proof (get_ut_range _ _ _ _ HR Ht0) as Hi.
  destruct (set_ut_spec u i t H2 Hi) as (u' & E & G1 & G2 & Gn & G4 & G5 & G6). exists u'. split; [done|]. split; [|done].
  split; [congruence|done|by rewrite G2| | |].
  - intros j. destruct (decide (j = i)) as [->|Hne]; [|by rewrite G6]. rewrite G5. split; [done|]. intros (t' & [= <-] & ?). congruence.
  - by rewrite (uexp_other u u' i).
  - intros j t'. destruct (decide (j = i)) as [->|Hne]; [rewrite G5; by intros [= <-]|rewrite G6 by done; apply H6].
Qed.

Lemma timer_create_spec u l owner ep : urep u l → uids u → 0 <= ep → s_next_timer_id u < 2 ^ 32 - 1 →
  (∃ i u', user_timer_create owner ep true u = Some (u', (KERNEL_OK, Some (s_next_timer_id u))) ∧ urep u' l ∧ uids u' ∧ i ∉ l ∧
     get_ut u' i = Some (UTimer (s_next_timer_id u) owner ep 0 0 false) ∧ (∀ j, j ≠ i → get_ut u' j = get_ut u j)) ∨
  (user_timer_create owner ep true u = Some (u, (- ENOMEM, None)) ∧ ∀ i t, get_ut u i = Some t → timer_id t ≠ 0).
Proof.
  intros HR HI Hep Hnx. unfold user_timer_create. rewrite (ur_init _ _ HR). cbn [negb orb].
  destruct (timer_find_spec 0 u (ur_len _ _ HR)) as [(i & t & Ef & Hi & Ht & Hid)|[Ef Hno]]; rewrite Ef, some_bind; [left|by right]. exists i.
  assert (i ∉ l) as Hil.
  { intros (t' & Ht' & Ha)%(ur_active _ _ HR). assert (t' = t) as -> by congruence. by apply (uk_id _ (ur_ok _ _ HR i t Ht)). }
  set (id := s_next_timer_id u) in *. set (ua := USys _ _ (u32 (id + 1)) _).
  assert (urep ua l) as HRa by (destruct HR; by split).
  destruct (idle_rep ua l i t (UTimer id owner ep 0 0 false) HRa Ht Hil) as (u' & E & HR' & Gi & Go & Gn); [by split|done|]. rewrite E, some_bind.
  unfold on_unodes. rewrite (unodes_init _ l i (ur_nodes _ _ HR') Hi Hil), !some_bind. eexists. split; [done|].
  assert (USys (s_timers u') (ut_nodes u') (s_next_timer_id u') (s_initialized u') = u') as -> by (by destruct u').
  split; [done|]. pose proof HI as [I1 I2 I3]. change (s_next_timer_id ua) with (u32 (id + 1)) in Gn. rewrite u32_small in Gn by lia.
  split; [|split; [done|split; [done|exact Go]]]. split; [lia| |].
  - intros j tj. rewrite Gn. destruct (decide (j = i)) as [->|Hne]; [rewrite Gi; intros [= <-]; cbn; lia|]. rewrite Go by done. intros Hj. pose proof (I2 j tj Hj). lia.
  - intros j k tj tk. destruct (decide (j = i)) as [->|Hj], (decide (k = i)) as [->|Hk]; [done|..|rewrite !Go by done; apply I3].
    + rewrite Gi, Go by done. intros [= <-] Hk' E' _. cbn in E'. pose proof (I2 k tk Hk'). lia.
    + rewrite Gi, Go by done. intros Hj' [= <-] E' _. cbn in E'. pose proof (I2 j tj Hj'). lia.
Qed.

(** Whether the timer was active or not, it leaves the list. *)
Lemma unlink_active_spec u l i t : urep u l → get_ut u i = Some t →
  ∃ u1 l0, unlink_active i t u = Some u1 ∧ s_next_timer_id u1 = s_next_timer_id u ∧ s_initialized u1 = s_initialized u ∧ s_timers u1 = s_timers u ∧ i ∉ l0 ∧
    ∀ t1, ut_ok t1 → ut_active t1 = false → ∃ u2, set_ut i t1 u1 = Some u2 ∧ urep u2 l0 ∧ get_ut u2 i = Some t1 ∧
      (∀ j, j ≠ i → get_ut u2 j = get_ut u j).
Proof.
  intros HR Ht. unfold unlink_active. destruct (ut_active t) eqn:Ha.
  - assert (i ∈ l) as Hin by (apply (ur_active _ _ HR); by exists t). apply list_elem_of_split in Hin as (xs & ys & Hl).
    pose proof (ur_nodes _ _ HR) as Hu. rewrite Hl in Hu. destruct (unodes_del _ _ _ _ Hu) as (h & Eh & _). unfold on_unodes. rewrite Eh, some_bind.
    eexists _, (xs ++ ys). split; [done|]. split; [done|]. split; [done|]. split; [done|].
    split; [apply unodes_nodup, NoDup_app in Hu as (_ & Hx & [Hy _]%NoDup_cons); set_solver|].
    intros t1 Hok Hact. destruct (disarm_rep u l xs i ys t1 (USys (s_timers u) h (s_next_timer_id u) (s_initialized u)) HR Hl Hok Hact Eh eq_refl eq_refl)
      as (u2 & E2 & HR2 & Hi2 & Ho2). by exists u2.
  - assert (i ∉ l) as Hil by (intros (t' & Ht' & Ha')%(ur_active _ _ HR); congruence). exists u, l. repeat (split; [done|]).
    intros t1 Hok Hact. destruct (idle_rep u l i t t1 HR Ht Hil Hok Hact) as (u2 & E2 & HR2 & Hi2 & Ho2 & _). by exists u2.
Qed.

Lemma set_ut_next i t u u' : set_ut i t u = Some u' → s_next_timer_id u' = s_next_timer_id u.
Proof. unfold set_ut. intros E. apply bind_Some in E as (? & _ & [= <-]). done. Qed.

Lemma insert_next i u u' : timer_insert_ordered i u = Some u' → s_next_timer_id u' = s_next_timer_id u.
Proof. unfold timer_insert_ordered, on_unodes. intros E. apply bind_Some in E as (? & _ & E). apply bind_Some in E as (? & _ & [= <-]). done. Qed.

Lemma ms_to_ticks_small ms : 0 <= ms < 2 ^ 32 → MS_TO_TICKS ms = ms.
Proof. intros Hm. unfold MS_TO_TICKS, CONFIG_TICK_RATE_HZ. rewrite u64_small by lia. by rewrite Z.div_mul. Qed.

(** An armed timer. *)
Definition armed (t : user_timer_t) (ms iv now : Z) : user_timer_t :=
  UTimer (timer_id t) (owner_tid t) (notify_ep t) (u64 (now + (if ms =? 0 then 1 else ms))) iv true.

Lemma settime_spec u l id ms iv now : urep u l → uids u → id ≠ 0 → 0 <= ms < 2 ^ 32 → 0 <= iv < 2 ^ 32 →
  (∃ i t u' l', user_timer_settime id ms iv now u = Some (u', KERNEL_OK) ∧ urep u' l' ∧ uids u' ∧ get_ut u i = Some t ∧ timer_id t = id ∧
     get_ut u' i = Some (armed t ms iv now) ∧ (∀ j, j ≠ i → get_ut u' j = get_ut u j)) ∨
  (user_timer_settime id ms iv now u = Some (u, - ENOENT) ∧ ∀ i t, get_ut u i = Some t → timer_id t ≠ id).
Proof.
  intros HR HI Hid Hms Hiv. unfold user_timer_settime. rewrite (ur_init _ _ HR). cbn [negb].
  destruct (timer_find_spec id u (ur_len _ _ HR)) as [(i & t & Ef & Hi & Ht & Hti)|[Ef Hno]]; rewrite Ef, some_bind; [left|by right].
  rewrite Ht, some_bind. assert ((if iv >? 0 then MS_TO_TICKS iv else 0) = iv) as ->.
  { rewrite Z.gtb_ltb. destruct (Z.ltb_spec 0 iv); [by apply ms_to_ticks_small|lia]. }
  rewrite ms_to_ticks_small by done. fold (armed t ms iv now). pose proof (ur_ok _ _ HR i t Ht) as [O1 O2 O3 O4].
  destruct (unlink_active_spec u l i t HR Ht) as (u1 & l0 & E1 & N1 & _ & T1 & Hl0 & Hset). rewrite E1, some_bind.
  set (t0 := UTimer (timer_id t) (owner_tid t) (notify_ep t) (ut_expire_tick t) (ut_interval t) false).
  destruct (Hset t0) as (u0 & E0 & HR0 & Hi0 & Ho0); [by split|done|].
  destruct (arm_rep u0 l0 i (armed t ms iv now) t0 HR0 Hi0 Hl0) as (u2 & u3 & E2 & E3 & HR3 & Hi3 & Ho3).
  { split; [cbn; pose proof (u64_range (now + (if ms =? 0 then 1 else ms))); lia|done|done|]. cbn. congruence. }
  { done. }
  rewrite (set_ut_twice _ _ _ _ _ E0) in E2. rewrite E2, some_bind, E3, some_bind. eexists i, t, u3, _. split; [done|]. split; [exact HR3|].
  assert (∀ j, j ≠ i → get_ut u3 j = get_ut u j) as Ho by (intros j Hj; by rewrite Ho3, Ho0).
  split; [|by repeat (split; [done|])]. eapply uids_keep; [exact HI|by rewrite (insert_next _ _ _ E3), (set_ut_next _ _ _ _ E2)|].
  intros j tj Hj. destruct (decide (j = i)) as [->|Hne]; [|rewrite Ho in Hj by done; exists tj; split; [done|by left]].
  exists t. split; [done|]. left. rewrite Hi3 in Hj. by injection Hj as <-.
Qed.

Lemma timer_delete_spec u l id : urep u l → uids u →
  (∃ i t u' l', user_timer_delete id u = Some (u', KERNEL_OK) ∧ urep u' l' ∧ uids u' ∧ get_ut u i = Some t ∧ timer_id t = id ∧ i ∉ l' ∧
     (∀ t', get_ut u' i = Some t' → timer_id t' = 0) ∧ (∀ j, j ≠ i → get_ut u' j = get_ut u j)) ∨
  (user_timer_delete id u = Some (u, - ENOENT) ∧ ∀ i t, get_ut u i = Some t → timer_id t ≠ id).
Proof.
  intros HR HI. unfold user_timer_delete. rewrite (ur_init _ _ HR). cbn [negb].
  destruct (timer_find_spec id u (ur_len _ _ HR)) as [(i & t & Ef & Hi & Ht & Hti)|[Ef Hno]]; rewrite Ef, some_bind; [left|by right].
  rewrite Ht, some_bind. pose proof (ur_ok _ _ HR i t Ht) as [O1 O2 O3 O4].
  destruct (unlink_active_spec u l i t HR Ht) as (u1 & l0 & E1 & N1 & _ & T1 & Hl0 & Hset). rewrite E1, some_bind.
  set (t0 := UTimer 0 _ _ _ _ _). destruct (Hset t0) as (u0 & E0 & HR0 & Hi0 & Ho0); [by split|done|]. rewrite E0, some_bind.
  exists i, t, u0, l0. split; [done|]. split; [done|]. split; [|repeat (split; [done|]); split; [rewrite Hi0; by intros t' [= <-]|done]].
  eapply uids_keep; [exact HI|by rewrite (set_ut_next _ _ _ _ E0)|].
  intros j tj Hj. destruct (decide (j = i)) as [->|Hne]; [|rewrite Ho0 in Hj by done; exists tj; split; [done|by left]].
  exists t. split; [done|]. right. rewrite Hi0 in Hj. by injection Hj as <-.
Qed.

Lemma on_unodes_next f u u' : on_unodes f u = Some u' → s_next_timer_id u' = s_next_timer_id u.
Proof. unfold on_unodes. intros E. apply bind_Some in E as (? & _ & [= <-]). done. Qed.

Lemma tick_loop_next fuel c u s n u' s' n' : tick_loop fuel c u s n = Some (u', s', n') → s_next_timer_id u' = s_next_timer_id u.
Proof.
  revert u s n. induction fuel as [|fuel IH]; intros u s n E; [done|]. cbn [tick_loop] in E.
  apply bind_Some in E as (e & _ & E). destruct e; [by injection E as <- _ _|].
  apply bind_Some in E as (first & _ & E). apply bind_Some in E as (i & _ & E). apply bind_Some in E as (t & _ & E).
  destruct (_ >? _); [by injection E as <- _ _|]. apply bind_Some in E as (u1 & E1%on_unodes_next & E). apply bind_Some in E as ([[s1 n1] r1] & _ & E).
  apply bind_Some in E as (u2 & E2 & E%IH). rewrite E, <- E1. destruct (_ >? _); [|by eapply set_ut_next].
  apply bind_Some in E2 as (u3 & E3%set_ut_next & E2%insert_next). congruence.
Qed.

(** ** Start-up *)

Lemma init_user_timers_spec n i u : 0 <= i → i + Z.of_nat n = 32 → length (s_timers u) = 32%nat → (∀ j, is_ut j → UNode j ∈ dom (ut_nodes u)) →
  UHead ∈ dom (ut_nodes u) →
  ∃ u', init_user_timers n i u = Some u' ∧ length (s_timers u') = 32%nat ∧ dom (ut_nodes u') = dom (ut_nodes u) ∧
    (∀ j, i <= j < 32 → get_ut u' j = Some (UTimer 0 0 0 0 0 false) ∧ dll (ut_nodes u') (UNode j) []) ∧
    (∀ j, j < i → get_ut u' j = get_ut u j ∧ (dll (ut_nodes u) (UNode j) [] → dll (ut_nodes u') (UNode j) [])).
Proof.
  revert i u. induction n as [|n IH]; intros i u Hi Hn Hl Hd Hh; cbn [init_user_timers].
  { exists u. split; [done|]. split; [done|]. split; [done|]. split; [intros; lia|]. by intros. }
  destruct (set_ut_spec u i (UTimer 0 0 0 0 0 false) Hl) as (u1 & E1 & G1 & G2 & _ & _ & G5 & G6); [lia|]. rewrite E1, some_bind.
  unfold on_unodes. rewrite G2. destruct (INIT_LIST_HEAD_spec (UNode i) (ut_nodes u)) as (h & Eh & [Fd Fo] & Hdl); [apply Hd; lia|]. rewrite Eh, !some_bind.
  set (u2 := USys _ h _ _). destruct (IH (i + 1) u2) as (u3 & E3 & K1 & K2 & K3 & K4); [lia|lia|done|cbn; by rewrite Fd..|].
  exists u3. split; [done|]. split; [done|]. split; [by rewrite K2|]. split.
  - intros j Hj. destruct (decide (j = i)) as [->|Hne]; [|apply K3; lia]. destruct (K4 i ltac:(lia)) as [-> Hk]. split; [exact G5|]. by apply Hk.
  - intros j Hj. destruct (K4 j ltac:(lia)) as [-> Hk]. split; [change (get_ut u2 j) with (get_ut u1 j); apply G6; lia|]. intros Hdj. apply Hk. cbn.
    eapply (dll_frame [UNode i]); [exact Hdj|by split|]. intros x [->|[]%elem_of_nil]%elem_of_cons. rewrite list_elem_of_singleton. intros [= ->]. lia.
Qed.

Lemma user_timer_init_ok u : length (s_timers u) = 32%nat → (∀ j, is_ut j → UNode j ∈ dom (ut_nodes u)) → UHead ∈ dom (ut_nodes u) →
  ∃ u', user_timer_subsys_init u = Some (u', KERNEL_OK) ∧ urep u' [] ∧ uids u'.
Proof.
  intros Hl Hd Hh. destruct (init_user_timers_spec 32 0 u) as (u1 & E1 & G1 & G2 & G3 & _); [done|done|done|done|done|].
  unfold user_timer_subsys_init. change (Z.to_nat CONFIG_MAX_USER_TIMERS) with 32%nat. rewrite E1, some_bind. unfold on_unodes.
  destruct (INIT_LIST_HEAD_spec UHead (ut_nodes u1)) as (h & Eh & Hse & Hdl); [by rewrite G2|]. rewrite Eh, !some_bind. eexists. split; [done|].
  assert (∀ i t, get_ut u1 i = Some t → t = UTimer 0 0 0 0 0 false) as Hall.
  { intros i t E. pose proof (zlookup_Some_lt _ _ _ E). destruct (G3 i ltac:(lia)) as [E' _]. congruence. }
  split.
  - split; cbn; [done|done| | |constructor|].
    + destruct (selfs_lists_rep h) as (M & HM & Hself). exists M. split; [done|]. split; [by apply Hself|]. intros i Hi _. apply Hself.
      eapply (dll_frame [UHead]); [apply G3; lia|exact Hse|]. intros x [->|[]%elem_of_nil]%elem_of_cons. by rewrite list_elem_of_singleton.
    + intros i. split; [by intros ?%elem_of_nil|]. by intros (t & ->%Hall & ?).
    + intros i t ->%Hall. by split.
  - split; cbn; [done| |].
    + intros i t ->%Hall. cbn. lia.
    + intros i j t t' ->%Hall _ _. done.
Qed.
