(* ===== verification/UserTimerTheorems.v ===== *)
(** * Theorems about user timers

    Timer calls interleaved with notification and scheduler calls. *)

From stdpp Require Import sorting.
From S2P Require Import Prelude KList OrdList SchedTypes Sched Threads Sleep SchedRep SchedInv SchedThreads SchedSleep SchedSystem SchedTheorems.
From S2P Require Import SwTimer Notification NotificationSpec NotificationTheorems UserTimer UserTimerSpec.
Import Demo.

Set Default Goal Selector "!".

#[local] Arguments Z.pow : simpl never.

(** ** The calls *)

Record uworld (A : Type) := UW { uw_w : nworld A; uw_u : usys }.
Arguments UW {A}.
Arguments uw_w {A}.
Arguments uw_u {A}.

Inductive uop :=
  | UNtf (o : nop) | UCreate (owner ep : Z) | USetTime (id ms iv : Z) | UDelete (id : Z) | UNanosleep (c ns : Z) | UTick (fuel : nat) (c : Z).

Section system.
Context {A : Type} `{StackSlab A} (heap_start heap_end : Z).

Definition uw_now (x : uworld A) : Z := s_system_ticks (nw_sched (uw_w x)).
Definition with_sched (s : sched) (n : nsys) (w : nworld A) : nworld A := NW (upd_sched s (nw_k w)) n (nw_blocked w).

(** The second result is the identifier created. *)
Definition run_uop (o : uop) (x : uworld A) : option (uworld A * option Z) :=
  let w := uw_w x in let u := uw_u x in
  match o with
  | UNtf o => r ← run_nop heap_start heap_end o w; Some (UW r.1 u, None)
  | UCreate owner ep => r ← user_timer_create owner ep true u; Some (UW w r.1, r.2.2)
  | USetTime id ms iv => r ← user_timer_settime id ms iv (timer_get_ticks (nw_sched w)) u; Some (UW w r.1, None)
  | UDelete id => r ← user_timer_delete id u; Some (UW w r.1, None)
  | UNanosleep c ns => r ← user_nanosleep c ns (nw_sched w); Some (UW (with_sched r.1 (nw_n w) w) u, None)
  | UTick fuel c => r ← user_timer_tick fuel c u (nw_sched w) (nw_n w); Some (UW (with_sched r.1.2 r.2 w) r.1.1, None)
  end.

(** Identifiers do not run out, 0 is not an identifier, the tick counter is below
    2^63, and the tick has the rounds it needs. *)
Definition uop_ok (o : uop) (x : uworld A) : Prop :=
  match o with
  | UNtf o => nop_ok heap_start heap_end o (uw_w x)
  | UCreate owner ep => 0 <= ep ∧ s_next_timer_id (uw_u x) < 2 ^ 32 - 1
  | USetTime id ms iv => id ≠ 0 ∧ 0 <= ms < 2 ^ 32 ∧ 0 <= iv < 2 ^ 32
  | UDelete id => True
  | UNanosleep c ns => is_cpu c ∧ caller_free c (uw_w x)
  | UTick fuel c => is_cpu c ∧ uw_now x < 2 ^ 63 ∧ sum_rounds (uw_now x) (uw_u x) < Z.of_nat fuel
  end.

Record uw_ok (x : uworld A) : Prop := UwOk {
  uo_world : nw_ok (uw_w x);
  uo_timers : ∃ l, urep (uw_u x) l;
  uo_ids : uids (uw_u x)
}.

(** The tick, whatever the bound on its rounds. *)
Lemma user_tick_ok x c : uw_ok x → is_cpu c → uw_now x < 2 ^ 63 →
  ∃ u' s' n', (∀ fuel, sum_rounds (uw_now x) (uw_u x) < Z.of_nat fuel → user_timer_tick fuel c (uw_u x) (nw_sched (uw_w x)) (nw_n (uw_w x)) = Some (u', s', n')) ∧
    ticked c (uw_now x) (uw_u x) u' (uw_w x) (with_sched s' n' (uw_w x)) ∧ uids u'.
Proof.
  intros [HW (l & HR) HI] Hc Hnow. set (f0 := S (Z.to_nat (sum_rounds (uw_now x) (uw_u x)))).
  assert (0 <= sum_rounds (uw_now x) (uw_u x)) as Hpos by apply foldr_rounds_nonneg.
  destruct (tick_loop_spec f0 c (uw_u x) l (uw_w x) HR HW Hc Hnow) as (u' & s' & n' & E & HT); [fold (uw_now x); lia|]. exists u', s', n'. split.
  - intros fuel Hf. unfold user_timer_tick. rewrite (ur_init _ _ HR). cbn [negb]. eapply tick_loop_mono; [exact E|lia].
  - split; [exact HT|]. eapply uids_keep; [exact HI|by eapply tick_loop_next|]. intros i t' Ht'. destruct HT as [(l' & HR' & _) D2 _ _].
    destruct (get_ut_total _ _ i HR) as (t & Ht); [by eapply get_ut_range|]. exists t. split; [done|]. left.
    rewrite (D2 i t Ht) in Ht'. injection Ht' as <-. unfold catch_up. by repeat case_match.
Qed.

Lemma nanosleep_ok w c ns : nw_ok w → is_cpu c → caller_free c w →
  ∃ s', user_nanosleep c ns (nw_sched w) = Some (s', KERNEL_OK) ∧ nw_ok (with_sched s' (nw_n w) w).
Proof.
  intros HW Hc (t & Hcur & Hni & _). assert (∀ s', sched_ok s' → nw_ok (with_sched s' (nw_n w) w)) as Hk by (intros s' Hs; destruct HW; by split).
  unfold user_nanosleep. destruct (ns =? 0); [exists (nw_sched w); split; [done|apply Hk, HW]|]. set (n := if _ =? 0 then _ else _).
  destruct (call_ok_sched _ _ (sleep_ok (nw_sched w) _ _ c t n (no_sched _ HW) Hc Hcur Hni)) as (s' & E & Hs). rewrite E, some_bind. exists s'. split; [done|by apply Hk].
Qed.

Lemma run_uop_ok o x : uw_ok x → uop_ok o x → ∃ x' v, run_uop o x = Some (x', v) ∧ uw_ok x'.
Proof.
  intros HX Ho. pose proof HX as [HW (l & HR) HI]. destruct o as [o|owner ep|id ms iv|id|c ns|fuel c]; cbn [run_uop uop_ok] in *.
  - destruct (run_nop_ok _ _ o (uw_w x) HW Ho) as (w' & v & E & [HW' _]). rewrite E, some_bind. eexists _, _. split; [done|]. split; [done|by exists l|done].
  - destruct Ho as [Hep Hnx]. destruct (timer_create_spec _ l owner ep HR HI Hep Hnx) as [(i & u' & E & HR' & HI' & _)|[E _]]; rewrite E, some_bind;
      (eexists _, _; split; [done|]); (split; [done|by exists l|done]).
  - destruct Ho as (Hid & Hms & Hiv). destruct (settime_spec _ l id ms iv (timer_get_ticks (nw_sched (uw_w x))) HR HI Hid Hms Hiv)
      as [(i & t & u' & l' & E & HR' & HI' & _)|[E _]]; rewrite E, some_bind; (eexists _, _; split; [done|]); (split; [done|by eexists|done]).
  - destruct (timer_delete_spec _ l id HR HI) as [(i & t & u' & l' & E & HR' & HI' & _)|[E _]]; rewrite E, some_bind; (eexists _, _; split; [done|]);
      (split; [done|by eexists|done]).
  - destruct Ho as [Hc Hf]. destruct (nanosleep_ok _ c ns HW Hc Hf) as (s' & E & HW'). rewrite E, some_bind. eexists _, _. split; [done|].
    split; [done|by exists l|done].
  - destruct Ho as (Hc & Hnow & Hf). destruct (user_tick_ok x c HX Hc Hnow) as (u' & s' & n' & E & [(l' & HR' & _) _ [HW' _] _] & HI'). rewrite (E fuel Hf), some_bind.
    eexists _, _. split; [done|]. split; [done|by exists l'|done].
Qed.

Inductive ureach (ent : Z) : uworld A → Prop :=
  | ureach_boot w u u' : nreach heap_start heap_end ent w → length (s_timers u) = 32%nat → (∀ i, 0 <= i < 32 → UNode i ∈ dom (ut_nodes u)) →
      UHead ∈ dom (ut_nodes u) → user_timer_subsys_init u = Some (u', KERNEL_OK) → ureach ent (UW w u')
  | ureach_call o x x' v : ureach ent x → uop_ok o x → run_uop o x = Some (x', v) → ureach ent x'.

Lemma ureach_ok ent x : ureach ent x → uw_ok x.
Proof.
  induction 1 as [w u u' Hw Hl Hd Hh E|o x x' v _ IH Ho E].
  - destruct (user_timer_init_ok u Hl Hd Hh) as (u1 & E1 & HR & HI). assert (u1 = u') as -> by congruence.
    split; [by eapply nreach_ok|by exists []|done].
  - destruct (run_uop_ok o x IH Ho) as (x1 & v1 & E1 & H1). congruence.
Qed.
End system.

(** ** Theorems *)

(** C30: the tick comes to an end, after as many rounds as there are expiries up to
    now, and the bound on the rounds does not matter; each periodic timer then
    stands at its first expiry after now, however many periods were missed, each
    single one that was due has ended, the others are as they were, and each
    expiry sent one signal. *)
Theorem user_timer_tick_terminates {A} `{StackSlab A} heap_start heap_end ent (x : uworld A) c :
  ureach heap_start heap_end ent x → is_cpu c → uw_now x < 2 ^ 63 →
  ∃ u' s' n' fired,
    (∀ fuel, sum_rounds (uw_now x) (uw_u x) < Z.of_nat fuel → user_timer_tick fuel c (uw_u x) (nw_sched (uw_w x)) (nw_n (uw_w x)) = Some (u', s', n')) ∧
    (∀ i t, get_ut (uw_u x) i = Some t → get_ut u' i = Some (catch_up (uw_now x) t) ∧ count_occ Z.eq_dec fired i = Z.to_nat (rounds (uw_now x) t)) ∧
    (∀ i t, get_ut u' i = Some t → ut_active t = true → uw_now x < ut_expire_tick t) ∧
    signal_all c (default 0 ∘ (λ i, notify_ep <$> get_ut (uw_u x) i) <$> fired) (nw_sched (uw_w x)) (nw_n (uw_w x)) = Some (s', n').
Proof.
  intros Hr Hc Hnow. pose proof (ureach_ok _ _ _ _ Hr) as HX. destruct (user_tick_ok x c HX Hc Hnow) as (u' & s' & n' & E & [(l & HR' & Hl) D2 _ (fired & F1 & F2)] & _).
  exists u', s', n', fired. split; [exact E|]. split; [intros i t Ht; split; [by apply D2|by apply F1]|]. split; [|exact F2].
  intros i t Ht Ha. specialize (Hl i ltac:(apply (ur_active _ _ HR'); by exists t)). unfold uexp in Hl. by rewrite Ht in Hl.
Qed.

(** C31: in every state reached by calls that [uop_ok] permits each such call
    returns, and afterwards the active list holds exactly the armed timers, once
    each and ordered by expiry; no two timers have the same identifier.
    [uop_ok] asks that timers are armed by an identifier other than 0 (0 finds a
    free slot and corrupts the list, [settime_zero_corrupts_list]), that the 32-bit
    identifiers have not wrapped round, that the clock is below 2^63, that a tick
    has the turns it needs, and of notification and scheduler calls what [nop_ok]
    asks. *)
Theorem user_timer_calls_safe {A} `{StackSlab A} heap_start heap_end ent (x : uworld A) o :
  ureach heap_start heap_end ent x → uop_ok heap_start heap_end o x →
  ∃ x' v l, run_uop heap_start heap_end o x = Some (x', v) ∧ nw_ok (uw_w x') ∧ dll (ut_nodes (uw_u x')) UHead (UNode <$> l) ∧ NoDup l ∧
    (∀ i, i ∈ l ↔ ∃ t, get_ut (uw_u x') i = Some t ∧ ut_active t = true) ∧ StronglySorted Z.le (uexp (uw_u x') <$> l) ∧
    (∀ i j t t', get_ut (uw_u x') i = Some t → get_ut (uw_u x') j = Some t' → timer_id t = timer_id t' → timer_id t ≠ 0 → i = j).
Proof.
  intros Hr Ho. destruct (run_uop_ok _ _ o x (ureach_ok _ _ _ _ Hr) Ho) as (x' & v & E & [HW' (l & HR') HI']). exists x', v, l.
  split; [done|]. split; [done|]. destruct HR' as [H1 H2 H3 H4 H5 H6]. split; [by apply unodes_dll|]. split; [by eapply unodes_nodup|].
  split; [done|]. split; [done|]. apply HI'.
Qed.

(** ** A concrete run *)

Definition image_ut : usys :=
  USys (replicate 32 (UTimer 0 0 0 0 0 false)) (list_to_map ((λ a, (a, LH None None)) <$> UHead :: (UNode <$> seqZ 0 32))) 1 false.

Definition demo_timers_world : uworld Z := UW (demo_after [NCreate 10]) (default (image_ut, 0) (user_timer_subsys_init image_ut)).1.

Definition ut_step (o : uop) (x : uworld Z) : option (uworld Z) := fst <$> run_uop 0x100000 0x200000 o x.
Definition ut_calls (ops : list uop) : option (uworld Z) := foldl (λ x o, x ≫= ut_step o) (Some demo_timers_world) ops.
Definition ut_after (ops : list uop) : uworld Z := default demo_timers_world (ut_calls ops).

Lemma image_ut_nodes a : a = UHead ∨ (∃ i, 0 <= i < 32 ∧ a = UNode i) → a ∈ dom (ut_nodes image_ut).
Proof.
  intros Ha. cbn [ut_nodes image_ut]. rewrite dom_list_to_map_L, elem_of_list_to_set, <- list_fmap_compose. apply list_elem_of_fmap. exists a. split; [done|].
  apply elem_of_cons. destruct Ha as [->|(i & Hi & ->)]; [by left|right]. apply list_elem_of_fmap. exists i. split; [done|]. apply elem_of_seqZ. lia.
Qed.

Lemma ut_boot : ureach 0x100000 0x200000 ENTRY (ut_after []).
Proof.
  eapply (ureach_boot _ _ _ _ image_ut); [exact demo_created_ntf|done| | |vm_compute; reflexivity].
  - intros i Hi. apply image_ut_nodes. right. by exists i.
  - apply image_ut_nodes. by left.
Qed.

Lemma ut_snoc ops o : ureach 0x100000 0x200000 ENTRY (ut_after ops) → uop_ok 0x100000 0x200000 o (ut_after ops) →
  defined (ut_calls ops) = true → defined (ut_calls (ops ++ [o])) = true → ureach 0x100000 0x200000 ENTRY (ut_after (ops ++ [o])).
Proof.
  unfold ut_after, ut_calls. rewrite foldl_snoc. set (y := foldl _ _ ops). destruct y as [x|]; [|done]. cbn [default mbind option_bind id].
  intros Hr Ho _ Hd. unfold ut_step in *. destruct (run_uop _ _ o x) as [[x' v]|] eqn:E; [|done]. cbn. by eapply ureach_call.
Qed.

(** A timer with a period of one tick is armed, then three ticks go by. *)
Definition demo_timer_ops : list uop :=
  [UCreate 10 DEMO_ID; USetTime 1 1 1; UNtf (NSched (OTimer 0)); UNtf (NSched (OTimer 0)); UNtf (NSched (OTimer 0))].

Lemma demo_timer_reach : ureach 0x100000 0x200000 ENTRY (ut_after demo_timer_ops).
Proof.
  apply (ut_snoc [UCreate 10 DEMO_ID; USetTime 1 1 1; UNtf (NSched (OTimer 0)); UNtf (NSched (OTimer 0))]);
    [|split; [by unfold op_ok, is_cpu|done]|vm_compute; reflexivity..].
  apply (ut_snoc [UCreate 10 DEMO_ID; USetTime 1 1 1; UNtf (NSched (OTimer 0))]); [|split; [by unfold op_ok, is_cpu|done]|vm_compute; reflexivity..].
  apply (ut_snoc [UCreate 10 DEMO_ID; USetTime 1 1 1]); [|split; [by unfold op_ok, is_cpu|done]|vm_compute; reflexivity..].
  apply (ut_snoc [UCreate 10 DEMO_ID]); [|by split|vm_compute; reflexivity..].
  apply (ut_snoc []); [exact ut_boot|split; [done|vm_compute; reflexivity]|vm_compute; reflexivity..].
Qed.

Lemma user_timer_tick_terminates_witness : ∃ u' s' n', user_timer_tick 4 0 (uw_u (ut_after demo_timer_ops)) (nw_sched (uw_w (ut_after demo_timer_ops)))
    (nw_n (uw_w (ut_after demo_timer_ops))) = Some (u', s', n') ∧ get_ut u' 0 = Some (UTimer 1 10 DEMO_ID 4 1 true).
Proof.
  destruct (user_timer_tick_terminates 0x100000 0x200000 ENTRY (ut_after demo_timer_ops) 0 demo_timer_reach) as (u' & s' & n' & fired & E & Ht & _).
  - by unfold is_cpu.
  - vm_compute. reflexivity.
  - exists u', s', n'. split; [apply E; vm_compute; reflexivity|].
    destruct (Ht 0 (UTimer 1 10 DEMO_ID 1 1 true)) as [Hg _]; [vm_compute; reflexivity|]. rewrite Hg. vm_compute. reflexivity.
Defined.

Lemma user_timer_calls_safe_witness : ∃ x' v, run_uop 0x100000 0x200000 (UTick 4 0) (ut_after demo_timer_ops) = Some (x', v) ∧ nw_ok (uw_w x').
Proof.
  destruct (user_timer_calls_safe 0x100000 0x200000 ENTRY (ut_after demo_timer_ops) (UTick 4 0) demo_timer_reach) as (x' & v & l & E & Hn & _).
  - split; [by unfold is_cpu|]. split; vm_compute; reflexivity.
  - exists x', v. split; [exact E|exact Hn].
Defined.

(** ** Outside these conditions *)

(** Identifier 0 finds a free entry: setting it arms an entry that the next
    creation initialises while it is in the list, which then never ends. *)
Example settime_zero_corrupts_list :
  (x ← ut_calls [USetTime 0 1 0; UCreate 10 DEMO_ID]; Some (list_for_each 1000 (Some UHead) (ut_nodes (uw_u x)))) = Some None.
Proof. vm_compute. reflexivity. Qed.

(** Without [user_timer_subsys_init] every call fails. *)
Example uninitialised_timers_refuse :
  (user_timer_create 10 DEMO_ID true image_ut, user_timer_settime 1 1 1 0 image_ut, user_timer_delete 1 image_ut) =
  (Some (image_ut, (- EINVAL, None)), Some (image_ut, - EINVAL), Some (image_ut, - EINVAL)).
Proof. reflexivity. Qed.

(** [user_nanosleep] of 2^64 / 1000 nanoseconds, 213 days, wraps to one tick. *)
Example nanosleep_wraps : u64 (18446744073709552 * CONFIG_TICK_RATE_HZ) / 1000000000 = 0.
Proof. reflexivity. Qed.
