(* ===== verification/Arinc.v ===== *)
(** * ARINC 653 partitions (kernel/sched/arinc653.c, arinc653.h)

    A table of partitions and a cyclic sequence of time windows, each given to a
    partition.  Process lists link threads through [rq_list], the node of the
    ready queues, and live in the node store of the scheduler. *)

From S2P Require Import Prelude KList SchedTypes Sched Threads.

Set Default Goal Selector "!".

Definition ARINC_MAX_PARTITIONS : Z := 8.
Definition ARINC_PARTITION_NAME_MAX : Z := 16.
Definition ARINC_DEFAULT_MAJOR_FRAME : Z := 1000.

Inductive partition_state_t :=
  | PARTITION_STATE_IDLE | PARTITION_STATE_COLD_START | PARTITION_STATE_WARM_START
  | PARTITION_STATE_NORMAL | PARTITION_STATE_STOPPED | PARTITION_STATE_FAILED.

#[global] Instance partition_state_eq_dec : EqDecision partition_state_t.
Proof. solve_decision. Defined.

Record partition_window_t := PWin { w_partition_id : Z; w_duration : Z; w_start_offset : Z }.

(** [proc_list] is in the node store; [rq_list] is initialised and never linked. *)
Record partition_desc_t := PDesc {
  partition_id : Z; p_name : list Z; p_state : partition_state_t; criticality : Z; p_period : Z; p_duration : Z;
  time_used : Z; time_remaining : Z; proc_count : Z
}.

(** The field [lock] is set to 0 and never used. *)
Record major_frame_t := MFrame {
  windows : list partition_window_t; window_count : Z; major_frame_length : Z; current_tick : Z; current_window_idx : Z;
  mf_initialized : bool
}.

Record asys := ASys {
  s_partitions : list partition_desc_t;
  s_partition_used : list bool;
  s_thread_partition : list Z;
  s_major_frame : major_frame_t;
  s_current_partition : option Z
}.

Definition upd_parts v a := ASys v (s_partition_used a) (s_thread_partition a) (s_major_frame a) (s_current_partition a).
Definition upd_used v a := ASys (s_partitions a) v (s_thread_partition a) (s_major_frame a) (s_current_partition a).
Definition upd_binding v a := ASys (s_partitions a) (s_partition_used a) v (s_major_frame a) (s_current_partition a).
Definition upd_frame v a := ASys (s_partitions a) (s_partition_used a) (s_thread_partition a) v (s_current_partition a).
Definition upd_current v a := ASys (s_partitions a) (s_partition_used a) (s_thread_partition a) (s_major_frame a) v.

Definition get_part (a : asys) (p : Z) : option partition_desc_t := (s_partitions a).[p].
Definition on_part (p : Z) (f : partition_desc_t → partition_desc_t) (a : asys) : option asys :=
  d ← get_part a p; l ← zupdate (s_partitions a) p (f d); Some (upd_parts l a).

Definition set_times used rem d :=
  PDesc (partition_id d) (p_name d) (p_state d) (criticality d) (p_period d) (p_duration d) used rem (proc_count d).
Definition set_pstate v d :=
  PDesc (partition_id d) (p_name d) v (criticality d) (p_period d) (p_duration d) (time_used d) (time_remaining d) (proc_count d).
Definition set_pcount v d :=
  PDesc (partition_id d) (p_name d) (p_state d) (criticality d) (p_period d) (p_duration d) (time_used d) (time_remaining d) v.

(** ** Start-up *)

Fixpoint init_partitions (n : nat) (i : Z) (s : sched) (a : asys) : option (sched * asys) :=
  match n with
  | O => Some (s, a)
  | S n =>
      a ← on_part i (λ d, PDesc i (p_name d) PARTITION_STATE_IDLE (criticality d) (p_period d) (p_duration d) (time_used d) (time_remaining d) 0) a;
      s ← on_snodes (INIT_LIST_HEAD (Some (ProcHead i))) s;
      init_partitions n (i + 1) s a
  end.

Definition zero_partition : partition_desc_t := PDesc 0 (replicate 16 0) PARTITION_STATE_IDLE 0 0 0 0 0 0.

Definition arinc653_init (s : sched) (a : asys) : option (sched * asys * Z) :=
  let a := ASys ((λ _, zero_partition) <$> s_partitions a) ((λ _, false) <$> s_partition_used a) ((λ _, 0xFFFFFFFF) <$> s_thread_partition a)
             (MFrame ((λ _, PWin 0 0 0) <$> windows (s_major_frame a)) 0 0 0 0 false) None in
  r ← init_partitions (Z.to_nat ARINC_MAX_PARTITIONS) 0 s a;
  let '(s, a) := r in
  Some (s, upd_frame (MFrame (windows (s_major_frame a)) 0 ARINC_DEFAULT_MAJOR_FRAME 0 0 false) a, KERNEL_OK).

(** ** Partitions *)

(** The loop of [safe_strcpy], [n] characters at most, and the final zero. *)
Fixpoint strcpy_loop (n : nat) (i : Z) (dst src : list Z) : option (list Z) :=
  match n with
  | O => zupdate dst i 0
  | S n =>
      ch ← src.[i];
      if ch =? 0 then zupdate dst i 0 else dst ← zupdate dst i ch; strcpy_loop n (i + 1) dst src
  end.

Definition safe_strcpy (dst : list Z) (src : option (list Z)) (n : Z) : option (list Z) :=
  match src with
  | None => Some dst
  | Some src => if n =? 0 then Some dst else strcpy_loop (Z.to_nat (n - 1)) 0 dst src
  end.

Fixpoint find_unused (n : nat) (i : Z) (a : asys) : option Z :=
  match n with
  | O => Some i
  | S n => used ← (s_partition_used a).[i]; if (used : bool) then find_unused n (i + 1) a else Some i
  end.

Definition arinc653_create_partition (nm : option (list Z)) (period duration crit : Z) (s : sched) (a : asys) : option (sched * asys * Z) :=
  match nm with
  | None => Some (s, a, - EINVAL)
  | Some nm =>
      if (period =? 0) || (duration =? 0) || (duration >? period) then Some (s, a, - EINVAL)
      else
        i ← find_unused (Z.to_nat ARINC_MAX_PARTITIONS) 0 a;
        if i >=? ARINC_MAX_PARTITIONS then Some (s, a, - ENOMEM)
        else
          d ← get_part a i;
          nm ← safe_strcpy (p_name d) (Some nm) ARINC_PARTITION_NAME_MAX;
          a ← on_part i (λ _, PDesc i nm PARTITION_STATE_COLD_START crit period duration 0 duration 0) a;
          s ← on_snodes (INIT_LIST_HEAD (Some (ProcHead i))) s;
          used ← zupdate (s_partition_used a) i true;
          a ← on_part i (set_pstate PARTITION_STATE_NORMAL) (upd_used used a);
          Some (s, a, i)
  end.

(** [NULL] is [None]. *)
Definition arinc653_get_partition (p : Z) (a : asys) : option (option Z) :=
  if p >=? ARINC_MAX_PARTITIONS then Some None
  else used ← (s_partition_used a).[p]; Some (if (used : bool) then Some p else None).

Definition arinc653_get_current_partition (a : asys) : option Z := s_current_partition a.
Definition arinc653_get_major_frame (a : asys) : major_frame_t := s_major_frame a.

Definition arinc653_bind_thread (t p : Z) (s : sched) (a : asys) : option (sched * asys * Z) :=
  if t >=? CONFIG_MAX_THREADS then Some (s, a, - ESRCH)
  else if p >=? ARINC_MAX_PARTITIONS then Some (s, a, - EINVAL)
  else
    used ← (s_partition_used a).[p];
    if negb used then Some (s, a, - EINVAL)
    else
      th ← get_thread s t;
      if bool_decide (tstate th = KTHREAD_STATE_DEAD) then Some (s, a, - ESRCH)
      else
        b ← zupdate (s_thread_partition a) t p;
        s ← on_snodes (list_add_tail (Some (RqNode t)) (Some (ProcHead p))) s;
        a ← on_part p (λ d, set_pcount (u32 (proc_count d + 1)) d) (upd_binding b a);
        Some (s, a, KERNEL_OK).

Definition arinc653_pick_next (s : sched) (a : asys) : option (option Z) :=
  match s_current_partition a with
  | None => Some None
  | Some p =>
      e ← list_empty (Some (ProcHead p)) (snodes s);
      if (e : bool) then Some None
      else first ← get_next (snodes s) (Some (ProcHead p)); t ← rq_entry first; Some (Some t)
  end.

(** ** The schedule *)

Fixpoint check_windows (n : nat) (i : Z) (ws : list partition_window_t) : option bool :=
  match n with
  | O => Some true
  | S n =>
      w ← ws.[i];
      if w_partition_id w >=? ARINC_MAX_PARTITIONS then Some false
      else if w_duration w =? 0 then Some false
      else check_windows n (i + 1) ws
  end.

Fixpoint copy_windows (n : nat) (i offset : Z) (ws dst : list partition_window_t) : option (list partition_window_t) :=
  match n with
  | O => Some dst
  | S n =>
      w ← ws.[i];
      dst ← zupdate dst i (PWin (w_partition_id w) (w_duration w) offset);
      copy_windows n (i + 1) (u64 (offset + w_duration w)) ws dst
  end.

Definition arinc653_set_schedule (ws : option (list partition_window_t)) (count frame_length : Z) (a : asys) : option (asys * Z) :=
  match ws with
  | None => Some (a, - EINVAL)
  | Some ws =>
      if (count =? 0) || (count >? ARINC_MAX_PARTITIONS) then Some (a, - EINVAL)
      else if frame_length =? 0 then Some (a, - EINVAL)
      else
        ok ← check_windows (Z.to_nat count) 0 ws;
        if negb ok then Some (a, - EINVAL)
        else
          dst ← copy_windows (Z.to_nat count) 0 0 ws (windows (s_major_frame a));
          Some (upd_frame (MFrame dst count frame_length 0 0 true) a, KERNEL_OK)
  end.

(** The counters of the partitions in use, at the end of the frame. *)
Fixpoint reset_times (n : nat) (p : Z) (a : asys) : option asys :=
  match n with
  | O => Some a
  | S n =>
      used ← (s_partition_used a).[p];
      a ← (if (used : bool) then on_part p (λ d, set_times 0 (p_duration d) d) a else Some a);
      reset_times n (p + 1) a
  end.

Definition set_position tick idx m := MFrame (windows m) (window_count m) (major_frame_length m) tick idx (mf_initialized m).

Definition arinc653_tick (c : Z) (s : sched) (a : asys) : option (sched * asys) :=
  if negb (mf_initialized (s_major_frame a)) then Some (s, a)
  else
    let tick := u64 (current_tick (s_major_frame a) + 1) in
    let idx := current_window_idx (s_major_frame a) in
    let a := upd_frame (set_position tick idx (s_major_frame a)) a in
    window ← (windows (s_major_frame a)).[idx];
    if tick >=? u64 (w_start_offset window + w_duration window) then
      a ← (match s_current_partition a with
           | Some p => on_part p (λ d, set_times (u64 (time_used d + w_duration window)) 0 d) a
           | None => Some a
           end);
      let idx := u32 (idx + 1) in
      r ← (if idx >=? window_count (s_major_frame a) then
             a ← reset_times (Z.to_nat ARINC_MAX_PARTITIONS) 0 (upd_frame (set_position 0 (current_window_idx (s_major_frame a)) (s_major_frame a)) a);
             Some (a, 0)
           else Some (a, idx));
      let '(a, idx) := r in
      let a := upd_frame (set_position (current_tick (s_major_frame a)) idx (s_major_frame a)) a in
      window ← (windows (s_major_frame a)).[idx];
      let next := w_partition_id window in
      used ← (s_partition_used a).[next];
      d ← get_part a next;
      a ← (if used && bool_decide (p_state d = PARTITION_STATE_NORMAL) then
             on_part next (λ d, set_times (time_used d) (w_duration window) d) (upd_current (Some next) a)
           else Some (upd_current None a));
      s ← do_schedule c s;
      Some (s, a)
    else
      a ← (match s_current_partition a with
           | Some p => on_part p (λ d, set_times (u64 (time_used d + 1)) (if time_remaining d >? 0 then time_remaining d - 1 else time_remaining d) d) a
           | None => Some a
           end);
      Some (s, a).
