(* ===== verification/ArincTheorems.v ===== *)
(** * Theorems about the partition schedule

    The windows follow one another as given, each for its length, over and over. *)

From S2P Require Import Prelude KList SchedTypes Sched Threads SchedRep SchedInv SchedCalls SchedSystem SchedTheorems Arinc.
Import Demo.

Set Default Goal Selector "!".

#[local] Arguments Z.pow : simpl never.

(** ** The reference: which window is in force at offset [k] of the frame *)

Notation wins := (list partition_window_t).

Definition total (ws : wins) : Z := foldr (λ w t, w_duration w + t) 0 ws.
Definition start (ws : wins) (i : nat) : Z := total (take i ws).

Fixpoint win_at (ws : wins) (k : Z) : nat :=
  match ws with
  | [] => O
  | w :: ws => if k <? w_duration w then O else S (win_at ws (k - w_duration w))
  end.

Record wins_ok (ws : wins) : Prop := WinsOk {
  wo_wins : Forall (λ w, 0 <= w_partition_id w < 8 ∧ 0 < w_duration w) ws;
  wo_count : (0 < length ws <= 8)%nat;
  wo_total : total ws < 2 ^ 64
}.

Lemma total_app ws ws' : total (ws ++ ws') = total ws + total ws'.
Proof. unfold total. induction ws as [|w ws IH]; [done|]. cbn in *. rewrite IH. lia. Qed.

Lemma total_nonneg ws : Forall (λ w, 0 <= w_partition_id w < 8 ∧ 0 < w_duration w) ws → 0 <= total ws.
Proof. induction 1 as [|w ws [_ Hw] _ IH]; cbn; [done|]. fold (total ws). lia. Qed.

Lemma win_at_spec ws k : 0 <= k < total ws → ∃ w, ws !! win_at ws k = Some w ∧ start ws (win_at ws k) <= k < start ws (win_at ws k) + w_duration w.
Proof.
  revert k. induction ws as [|w ws IH]; intros k Hk; [cbn in Hk; lia|]. cbn in Hk. fold (total ws) in Hk. cbn [win_at]. destruct (Z.ltb_spec k (w_duration w)).
  - exists w. split; [done|]. cbn. lia.
  - destruct (IH (k - w_duration w)) as (w' & E & Hw); [lia|]. exists w'. split; [done|]. unfold start in *. cbn [take]. cbn [total foldr].
    fold (total (take (win_at ws (k - w_duration w)) ws)). lia.
Qed.

Lemma start_S ws i w : ws !! i = Some w → start ws (S i) = start ws i + w_duration w.
Proof. intros E. unfold start. rewrite (take_S_r _ _ _ E), total_app. cbn. lia. Qed.

Lemma start_le ws i : Forall (λ w, 0 <= w_partition_id w < 8 ∧ 0 < w_duration w) ws → 0 <= start ws i <= total ws.
Proof.
  intros Hw. pose proof (total_app (take i ws) (drop i ws)) as E. rewrite take_drop in E.
  pose proof (total_nonneg (take i ws) ltac:(by apply Forall_take)). pose proof (total_nonneg (drop i ws) ltac:(by apply Forall_drop)). unfold start. lia.
Qed.

(** The window at an offset is the only one that contains it. *)
Lemma win_at_unique ws k i w : Forall (λ w, 0 <= w_partition_id w < 8 ∧ 0 < w_duration w) ws → ws !! i = Some w →
  start ws i <= k < start ws i + w_duration w → win_at ws k = i.
Proof.
  intros Hw. revert k i. induction Hw as [|v ws [_ Hv] Hw IH]; intros k i Hi Hk; [done|]. cbn [win_at]. destruct i as [|i].
  - cbn in Hi, Hk. injection Hi as ->. by rewrite (proj2 (Z.ltb_lt _ _)) by lia.
  - cbn in Hi. unfold start in Hk. cbn [take total foldr] in Hk. fold (total (take i ws)) in Hk. fold (start ws i) in Hk.
    pose proof (start_le ws i Hw). rewrite (proj2 (Z.ltb_ge _ _)) by lia. f_equal. apply IH; [done|lia].
Qed.

(** ** Running the schedule *)

Notation is_part p := (0 <= p < 8).

Record frame_of (ws : wins) (m : major_frame_t) : Prop := FrameOf {
  fr_len : length (windows m) = 8%nat;
  fr_count : window_count m = Z.of_nat (length ws);
  fr_init : mf_initialized m = true;
  fr_wins : ∀ i w, ws !! i = Some w → windows m !! i = Some (PWin (w_partition_id w) (w_duration w) (start ws i))
}.

Record parts_ok (a : asys) : Prop := PartsOk {
  po_parts : length (s_partitions a) = 8%nat;
  po_used : length (s_partition_used a) = 8%nat;
  po_cur : ∀ p, s_current_partition a = Some p → is_part p
}.

(** The partition exists and runs normally. *)
Definition active (a : asys) (p : Z) : bool :=
  default false (u ← (s_partition_used a).[p]; d ← get_part a p; Some (u && bool_decide (p_state d = PARTITION_STATE_NORMAL))).

Record at_offset (ws : wins) (a : asys) (k : Z) : Prop := AtOffset {
  ao_frame : frame_of ws (s_major_frame a);
  ao_parts : parts_ok a;
  ao_range : 0 <= k < total ws;
  ao_tick : current_tick (s_major_frame a) = k;
  ao_idx : current_window_idx (s_major_frame a) = Z.of_nat (win_at ws k)
}.

(** The partition of the window in force is the current one, with the rest of the
    window as its time. *)
Definition on_air (ws : wins) (a : asys) (k : Z) : Prop := ∀ w, ws !! win_at ws k = Some w →
  s_current_partition a = (if active a (w_partition_id w) then Some (w_partition_id w) else None) ∧
  ∀ p d, s_current_partition a = Some p → get_part a p = Some d → time_remaining d = start ws (win_at ws k) + w_duration w - k.

Lemma get_part_total a p : parts_ok a → is_part p → ∃ d, get_part a p = Some d.
Proof. intros HP Hp. apply zlookup_is_Some. rewrite (po_parts _ HP). lia. Qed.

Lemma used_total a p : parts_ok a → is_part p → ∃ u, (s_partition_used a).[p] = Some u.
Proof. intros HP Hp. apply zlookup_is_Some. rewrite (po_used _ HP). lia. Qed.

(** A change that keeps the states of the partitions. *)
Record keeps_parts (a a' : asys) : Prop := KeepsParts {
  kp_len : length (s_partitions a') = length (s_partitions a);
  kp_used : s_partition_used a' = s_partition_used a;
  kp_state : ∀ p, p_state <$> get_part a' p = p_state <$> get_part a p
}.

Lemma keeps_active a a' p : keeps_parts a a' → active a' p = active a p.
Proof.
  intros [_ Hu Hs]. unfold active. rewrite Hu. destruct ((s_partition_used a).[p]) as [u|]; [|done]. cbn. specialize (Hs p).
  destruct (get_part a p), (get_part a' p); cbn in *; [|done..]. injection Hs as ->. done.
Qed.

Lemma keeps_parts_refl a a' : s_partitions a' = s_partitions a → s_partition_used a' = s_partition_used a → keeps_parts a a'.
Proof. intros E1 E2. split; [by rewrite E1|done|]. intros p. unfold get_part. by rewrite E1. Qed.

Lemma keeps_parts_trans a b c : keeps_parts a b → keeps_parts b c → keeps_parts a c.
Proof. intros [H1 H2 H3] [K1 K2 K3]. split; [congruence|congruence|]. intros p. by rewrite K3. Qed.

Lemma on_part_spec p f a : parts_ok a → is_part p → (∀ d, p_state (f d) = p_state d) →
  ∃ a' d, on_part p f a = Some a' ∧ keeps_parts a a' ∧ get_part a p = Some d ∧ get_part a' p = Some (f d) ∧
    s_major_frame a' = s_major_frame a ∧ s_current_partition a' = s_current_partition a ∧ parts_ok a'.
Proof.
  intros HP Hp Hf. destruct (get_part_total a p HP Hp) as (d & Hd). unfold on_part. pose proof (po_parts _ HP) as Hl. rewrite Hd, some_bind, zupdate_total by lia.
  rewrite some_bind. eexists _, d. split; [done|]. split; [|split; [done|split; [|split; [done|split; [done|]]]]].
  - split; [cbn; by rewrite length_insert|done|]. intros q. unfold get_part in *. cbn. destruct (decide (q = p)) as [->|Hne].
    + rewrite zlookup_insert_eq by lia. rewrite Hd. cbn. by rewrite Hf.
    + by rewrite zlookup_insert_ne by (done || lia).
  - unfold get_part. cbn. apply zlookup_insert_eq. lia.
  - destruct HP as [H1 H2 H3]. split; [cbn; by rewrite length_insert|done|done].
Qed.

Lemma reset_times_spec n p a : parts_ok a → 0 <= p → p + Z.of_nat n = 8 →
  ∃ a', reset_times n p a = Some a' ∧ keeps_parts a a' ∧ s_major_frame a' = s_major_frame a ∧ s_current_partition a' = s_current_partition a ∧ parts_ok a'.
Proof.
  revert p a. induction n as [|n IH]; intros p a HP Hp Hn; cbn [reset_times]; [exists a; split; [done|]; split; [by apply keeps_parts_refl|done]|].
  destruct (used_total a p HP) as (u & ->); [lia|]. rewrite some_bind. destruct u.
  - destruct (on_part_spec p (λ d, set_times 0 (p_duration d) d) a HP) as (a1 & d & E & K1 & _ & _ & F1 & C1 & HP1); [lia|done|]. rewrite E, some_bind.
    destruct (IH (p + 1) a1 HP1) as (a2 & E2 & K2 & F2 & C2 & HP2); [lia|lia|]. exists a2. split; [done|]. split; [by eapply keeps_parts_trans|].
    split; [congruence|]. split; [congruence|done].
  - rewrite some_bind. apply IH; [done|lia|lia].
Qed.

(** *** One tick *)

Section tick.
Context (ws : wins) (Hws : wins_ok ws).

Lemma at_window a k : at_offset ws a k → ∃ w, ws !! win_at ws k = Some w ∧ start ws (win_at ws k) <= k < start ws (win_at ws k) + w_duration w ∧
  (windows (s_major_frame a)).[current_window_idx (s_major_frame a)] = Some (PWin (w_partition_id w) (w_duration w) (start ws (win_at ws k))) ∧
  0 <= start ws (win_at ws k) ∧ start ws (win_at ws k) + w_duration w <= total ws < 2 ^ 64.
Proof using Hws.
  intros [HF _ Hk _ Hi]. destruct (win_at_spec ws k Hk) as (w & E & Hw). exists w. split; [done|]. split; [done|].
  split; [rewrite Hi, zlookup_nat; by apply (fr_wins _ _ HF)|]. pose proof (start_le ws (win_at ws k) (wo_wins _ Hws)).
  pose proof (start_le ws (S (win_at ws k)) (wo_wins _ Hws)) as Hs. rewrite (start_S _ _ _ E) in Hs. pose proof (wo_total _ Hws). lia.
Qed.

Lemma frame_position m tick idx : frame_of ws m → frame_of ws (set_position tick idx m).
Proof. intros [H1 H2 H3 H4]. by split. Qed.

(** Inside a window. *)
Lemma tick_inside c s a k w : at_offset ws a k → ws !! win_at ws k = Some w → k + 1 < start ws (win_at ws k) + w_duration w →
  ∃ a', arinc653_tick c s a = Some (s, a') ∧ at_offset ws a' (k + 1) ∧ keeps_parts a a' ∧ (on_air ws a k → on_air ws a' (k + 1)).
Proof using Hws.
  intros HA Hw Hin. destruct (at_window a k HA) as (w' & Hw' & Hr & Hwin & Hs0 & Hs1). assert (w' = w) as -> by congruence.
  pose proof HA as [HF HP Hk Ht Hi]. unfold arinc653_tick. rewrite (fr_init _ _ HF). cbn [negb]. set (a0 := upd_frame _ a).
  change (windows (s_major_frame a0)) with (windows (s_major_frame a)). rewrite Hwin, some_bind, Ht. cbn [w_start_offset w_duration].
  rewrite !u64_small by lia. rewrite Z.geb_leb, (proj2 (Z.leb_gt _ _)) by lia.
  assert (win_at ws (k + 1) = win_at ws k) as Hsame by (eapply win_at_unique; [apply Hws|exact Hw|lia]).
  assert (∀ b, s_major_frame b = s_major_frame a0 → parts_ok b → at_offset ws b (k + 1)) as Hat.
  { intros b Eb HPb. split; [rewrite Eb; by apply frame_position|done|lia|rewrite Eb; cbn; rewrite Ht, u64_small; lia|]. rewrite Eb, Hsame. exact Hi. }
  assert (parts_ok a0) as HP0 by (by destruct HP; split). change (s_current_partition a0) with (s_current_partition a).
  destruct (s_current_partition a) as [p|] eqn:Hc.
  - destruct (on_part_spec p (λ d, set_times (u64 (time_used d + 1)) (if time_remaining d >? 0 then time_remaining d - 1 else time_remaining d) d) a0 HP0)
      as (a1 & d & E & K1 & Hd & Hd1 & F1 & C1 & HP1); [by apply HP|done|]. rewrite E, some_bind. exists a1. split; [done|]. split; [by apply Hat|].
    assert (keeps_parts a a1) as K by (eapply keeps_parts_trans; [|exact K1]; by apply keeps_parts_refl). split; [exact K|].
    intros Ho v. rewrite Hsame. intros Hv. assert (v = w) as -> by congruence. destruct (Ho w Hw) as [O1 O2]. rewrite (keeps_active _ _ _ K). rewrite C1.
    split; [exact O1|]. intros q dq Hq Hdq. change (s_current_partition a0) with (s_current_partition a) in Hq.
    assert (q = p) as -> by congruence. rewrite Hd1 in Hdq. injection Hdq as <-. specialize (O2 p d Hc Hd). cbn. rewrite O2, Z.gtb_ltb, (proj2 (Z.ltb_lt _ _)) by lia. lia.
  - rewrite some_bind. exists a0. split; [done|]. split; [by apply Hat|]. split; [by apply keeps_parts_refl|]. intros Ho v. rewrite Hsame. intros Hv.
    destruct (Ho v Hv) as [O1 _]. split; [exact O1|]. change (s_current_partition a0) with (s_current_partition a). by rewrite Hc.
Qed.

(** The start of the window after the one at [k]. *)
Lemma next_window k w : 0 <= k < total ws → ws !! win_at ws k = Some w → k + 1 = start ws (win_at ws k) + w_duration w →
  let k' := (k + 1) mod total ws in let i' := if Z.of_nat (S (win_at ws k)) >=? Z.of_nat (length ws) then O else S (win_at ws k) in
  0 <= k' < total ws ∧ win_at ws k' = i' ∧ k' = start ws i' ∧ (k' = if Z.of_nat (S (win_at ws k)) >=? Z.of_nat (length ws) then 0 else k + 1) ∧ is_Some (ws !! i').
Proof using Hws.
  intros Hk Hw Hend k' i'. subst k' i'. rewrite <- (start_S _ _ _ Hw) in Hend. set (i := win_at ws k) in *. pose proof (lookup_lt_Some _ _ _ Hw) as Hlt.
  rewrite Z.geb_leb. destruct (Z.leb_spec (Z.of_nat (length ws)) (Z.of_nat (S i))) as [Hge|Hl].
  - assert (start ws (S i) = total ws) as Htot by (unfold start; by rewrite take_ge by lia). rewrite Hend, Htot, Z_mod_same_full.
    split; [lia|]. destruct (lookup_lt_is_Some_2 ws 0 ltac:(lia)) as [w0 Hw0]. pose proof (wo_wins _ Hws) as Hf. rewrite Forall_lookup in Hf.
    pose proof (Hf 0%nat w0 Hw0) as [_ Hd0]. split; [|by rewrite Hw0]. eapply win_at_unique; [apply Hws|exact Hw0|]. change (start ws 0) with 0. lia.
  - destruct (lookup_lt_is_Some_2 ws (S i) ltac:(lia)) as [w1 Hw1]. pose proof (wo_wins _ Hws) as Hf. rewrite Forall_lookup in Hf.
    pose proof (Hf (S i) w1 Hw1) as [_ Hd1]. pose proof (start_le ws (S (S i)) (wo_wins _ Hws)) as Hs. rewrite (start_S _ _ _ Hw1) in Hs.
    rewrite Z.mod_small by lia. split; [lia|]. split; [|by rewrite Hw1]. eapply win_at_unique; [apply Hws|exact Hw1|lia].
Qed.
(** The partition of a window that begins is put on air. *)
Lemma start_window a k w : at_offset ws a k → ws !! win_at ws k = Some w → k = start ws (win_at ws k) →
  ∃ u d a', (s_partition_used a).[w_partition_id w] = Some u ∧ get_part a (w_partition_id w) = Some d ∧
    (if u && bool_decide (p_state d = PARTITION_STATE_NORMAL) then
       on_part (w_partition_id w) (λ d, set_times (time_used d) (w_duration w) d) (upd_current (Some (w_partition_id w)) a)
     else Some (upd_current None a)) = Some a' ∧ at_offset ws a' k ∧ keeps_parts a a' ∧ on_air ws a' k.
Proof using Hws.
  intros HA Hw Hstart. pose proof HA as [HF HP Hk Ht Hi]. pose proof (wo_wins _ Hws) as Hall. rewrite Forall_lookup in Hall. destruct (Hall _ _ Hw) as [Hp _].
  destruct (used_total a _ HP Hp) as (u & Hu). destruct (get_part_total a _ HP Hp) as (d & Hd). exists u, d.
  assert (active a (w_partition_id w) = u && bool_decide (p_state d = PARTITION_STATE_NORMAL)) as Hact by (unfold active; by rewrite Hu, some_bind, Hd).
  destruct (u && bool_decide _) eqn:Eb.
  - assert (parts_ok (upd_current (Some (w_partition_id w)) a)) as HPc by (destruct HP; split; [done|done|by intros p [= <-]]).
    destruct (on_part_spec (w_partition_id w) (λ d, set_times (time_used d) (w_duration w) d) _ HPc Hp) as (a' & d0 & E & K & Hd0 & Hd' & F & C & HP'); [done|].
    exists a'. split; [done|]. split; [done|]. split; [done|].
    assert (keeps_parts a a') as K' by (eapply keeps_parts_trans; [|exact K]; by apply keeps_parts_refl).
    split; [split; [by rewrite F|done|done|by rewrite F|by rewrite F]|]. split; [exact K'|]. intros v Hv. assert (v = w) as -> by congruence.
    rewrite (keeps_active _ _ _ K'), Hact, C. split; [done|]. intros q dq [= <-] Hq. rewrite Hd' in Hq. injection Hq as <-. cbn. lia.
  - exists (upd_current None a). split; [done|]. split; [done|]. split; [done|]. assert (keeps_parts a (upd_current None a)) as K' by (by apply keeps_parts_refl).
    split; [split; [done|destruct HP; by split|done|done|done]|]. split; [exact K'|]. intros v Hv. assert (v = w) as -> by congruence.
    by rewrite (keeps_active _ _ _ K'), Hact.
Qed.

(** At the end of a window. *)
Lemma tick_switch c s s' a k w : at_offset ws a k → do_schedule c s = Some s' →
  ws !! win_at ws k = Some w → k + 1 = start ws (win_at ws k) + w_duration w →
  ∃ a', arinc653_tick c s a = Some (s', a') ∧ at_offset ws a' ((k + 1) mod total ws) ∧ keeps_parts a a' ∧ on_air ws a' ((k + 1) mod total ws).
Proof using Hws.
  intros HA Hsch Hw Hend. destruct (at_window a k HA) as (w' & Hw' & Hr & Hwin & Hs0 & Hs1). assert (w' = w) as -> by congruence.
  pose proof HA as [HF HP Hk Ht Hi]. destruct (next_window k w Hk Hw Hend) as (Hk' & Hi' & Hst & Hkv & [w1 Hw1]).
  set (k' := (k + 1) mod total ws) in *. unfold arinc653_tick. rewrite (fr_init _ _ HF). cbn [negb]. set (a0 := upd_frame _ a).
  change (windows (s_major_frame a0)) with (windows (s_major_frame a)). rewrite Hwin, some_bind, Ht. cbn [w_start_offset w_duration].
  rewrite !u64_small by lia. rewrite Z.geb_leb, (proj2 (Z.leb_le _ _)) by lia.
  assert (parts_ok a0) as HP0 by (by destruct HP; split).
  assert (∃ a1, (match s_current_partition a0 with
                 | Some p => on_part p (λ d, set_times (u64 (time_used d + w_duration w)) 0 d) a0 | None => Some a0 end) = Some a1 ∧
            keeps_parts a a1 ∧ s_major_frame a1 = s_major_frame a0 ∧ parts_ok a1) as (a1 & E1 & K1 & F1 & HP1).
  { destruct (s_current_partition a0) as [p|] eqn:Hc; [|exists a0; split; [done|]; split; [by apply keeps_parts_refl|done]].
    destruct (on_part_spec p (λ d, set_times (u64 (time_used d + w_duration w)) 0 d) a0 HP0) as (a1 & d & E & K & _ & _ & F & _ & HP1); [by apply HP0|done|].
    exists a1. split; [done|]. split; [eapply keeps_parts_trans; [|exact K]; by apply keeps_parts_refl|done]. }
  rewrite E1, some_bind, F1, Hi. assert (u32 (Z.of_nat (win_at ws k) + 1) = Z.of_nat (S (win_at ws k))) as ->.
  { pose proof (lookup_lt_Some _ _ _ Hw). pose proof (wo_count _ Hws). rewrite u32_small; lia. }
  change (window_count (s_major_frame a0)) with (window_count (s_major_frame a)). rewrite (fr_count _ _ HF).
  set (i' := if Z.of_nat (S (win_at ws k)) >=? Z.of_nat (length ws) then O else S (win_at ws k)) in *.
  match goal with |- context [mbind _ (if Z.of_nat (S (win_at ws k)) >=? Z.of_nat (length ws) then ?x else ?y)] =>
    assert (∃ a2, (if Z.of_nat (S (win_at ws k)) >=? Z.of_nat (length ws) then x else y) = Some (a2, Z.of_nat i') ∧ keeps_parts a a2 ∧ parts_ok a2 ∧
      frame_of ws (s_major_frame a2) ∧ current_tick (s_major_frame a2) = k') as (a2 & E2 & K2 & HP2 & F2 & T2) end.
  { subst i'. destruct (_ >=? _).
    - set (a1' := upd_frame _ a1). assert (parts_ok a1') as HP1' by (by destruct HP1; split).
      destruct (reset_times_spec (Z.to_nat ARINC_MAX_PARTITIONS) 0 a1' HP1') as (a2 & E2 & K2 & F2 & _ & HP2); [done|done|]. rewrite E2, some_bind. exists a2.
      split; [done|]. split; [eapply keeps_parts_trans; [exact K1|]; eapply keeps_parts_trans; [|exact K2]; by apply keeps_parts_refl|]. split; [done|].
      rewrite F2. split; [by do 2 apply frame_position|]. by rewrite Hkv.
    - exists a1. split; [done|]. split; [done|]. split; [done|]. rewrite F1. split; [by apply frame_position|]. rewrite Hkv. cbn. rewrite Ht, u64_small; lia. }
  rewrite E2, some_bind. set (a3 := upd_frame _ a2).
  assert (at_offset ws a3 k') as HA3.
  { split; [by apply frame_position|by destruct HP2; split|done|exact T2|]. cbn. by rewrite Hi'. }
  pose proof (ao_frame _ _ _ HA3) as F3. change (windows (s_major_frame a2)) with (windows (s_major_frame a3)). rewrite zlookup_nat.
  rewrite (fr_wins _ _ F3 i' w1 Hw1), some_bind. cbn [w_partition_id w_duration].
  destruct (start_window a3 k' w1 HA3) as (u & d & a4 & Eu & Ed & E4 & HA4 & K4 & Hon); [by rewrite Hi'|by rewrite Hi'|].
  rewrite Eu, some_bind, Ed, some_bind, E4, some_bind, Hsch, some_bind. exists a4. split; [done|]. split; [done|]. split; [|done].
  eapply keeps_parts_trans; [exact K2|]. eapply keeps_parts_trans; [|exact K4]. by apply keeps_parts_refl.
Qed.
End tick.

(** *** Setting the schedule *)

(** The entries have the types of the fields. *)
Definition typed_windows (ws : wins) : Prop := Forall (λ w, 0 <= w_partition_id w ∧ 0 <= w_duration w) ws.

Lemma check_windows_spec n i arr : 0 <= i → i + Z.of_nat n <= Z.of_nat (length arr) → typed_windows arr →
  ∃ b, check_windows n i arr = Some b ∧
    (b = true ↔ Forall (λ w, 0 <= w_partition_id w < 8 ∧ 0 < w_duration w) (take n (drop (Z.to_nat i) arr))).
Proof.
  intros Hi Hn Ht. revert i Hi Hn. induction n as [|n IH]; intros i Hi Hn; cbn [check_windows]; [by exists true|].
  destruct (lookup_lt_is_Some_2 arr (Z.to_nat i) ltac:(lia)) as [w Hw]. rewrite (drop_S _ _ _ Hw). cbn [take]. setoid_rewrite Forall_cons.
  assert (arr.[i] = Some w) as -> by (rewrite <- Hw, <- zlookup_nat; f_equal; lia). rewrite some_bind.
  unfold typed_windows in Ht. rewrite Forall_lookup in Ht. destruct (Ht _ _ Hw) as [H1 H2]. rewrite Z.geb_leb. unfold ARINC_MAX_PARTITIONS in *.
  destruct (Z.leb_spec 8 (w_partition_id w)); [exists false; split; [done|]; split; [done|lia]|].
  destruct (Z.eqb_spec (w_duration w) 0); [exists false; split; [done|]; split; [done|lia]|].
  destruct (IH (i + 1)) as (b & E & Hb); [lia|lia|]. exists b. split; [done|]. rewrite Hb. replace (Z.to_nat (i + 1)) with (S (Z.to_nat i)) by lia.
  split; [intros ?; split; [lia|done]|by intros [_ ?]].
Qed.

Lemma copy_windows_spec ws arr n i dst : Forall (λ w, 0 <= w_partition_id w < 8 ∧ 0 < w_duration w) ws → total ws < 2 ^ 64 → ws = take (length ws) arr →
  (i + n = length ws)%nat → (length ws <= 8)%nat → length dst = 8%nat →
  (∀ j w, (j < i)%nat → ws !! j = Some w → dst !! j = Some (PWin (w_partition_id w) (w_duration w) (start ws j))) →
  ∃ dst', copy_windows n (Z.of_nat i) (start ws i) arr dst = Some dst' ∧ length dst' = 8%nat ∧
    ∀ j w, ws !! j = Some w → dst' !! j = Some (PWin (w_partition_id w) (w_duration w) (start ws j)).
Proof.
  intros Hf Htot Hws. revert i dst. induction n as [|n IH]; intros i dst Hn H8 Hl Hold; cbn [copy_windows].
  { exists dst. split; [done|]. split; [done|]. intros j w Hj. apply Hold; [|done]. apply lookup_lt_Some in Hj. lia. }
  destruct (lookup_lt_is_Some_2 ws i ltac:(lia)) as [w Hw]. assert (arr !! i = Some w) as Ha.
  { rewrite Hws in Hw. by apply lookup_take_Some in Hw as [? _]. }
  rewrite zlookup_nat, Ha, some_bind, zupdate_total by lia. rewrite some_bind, Nat2Z.id.
  pose proof (start_le ws (S i) Hf) as Hs. rewrite (start_S _ _ _ Hw) in Hs.
  rewrite Forall_lookup in Hf. pose proof (Hf i w Hw) as [_ Hd]. rewrite u64_small by lia.
  rewrite <- (start_S _ _ _ Hw). replace (Z.of_nat i + 1) with (Z.of_nat (S i)) by lia. apply IH; [lia|done|by rewrite length_insert|].
  intros j v Hj Hv. destruct (decide (j = i)) as [->|Hne].
  - rewrite list_lookup_insert_eq by lia. by assert (v = w) as -> by congruence.
  - rewrite list_lookup_insert_ne by done. apply Hold; [lia|done].
Qed.

(** The call takes exactly the windows that make sense and refuses without effect. *)
Lemma set_schedule_spec arr count len a : typed_windows arr → 0 <= count <= Z.of_nat (length arr) → length (windows (s_major_frame a)) = 8%nat → parts_ok a →
  let ws := take (Z.to_nat count) arr in total ws < 2 ^ 64 →
  (arinc653_set_schedule (Some arr) count len a = Some (a, - EINVAL) ∧
     ¬ (0 < count <= 8 ∧ len ≠ 0 ∧ Forall (λ w, 0 <= w_partition_id w < 8 ∧ 0 < w_duration w) ws)) ∨
  (∃ a', arinc653_set_schedule (Some arr) count len a = Some (a', KERNEL_OK) ∧ wins_ok ws ∧ at_offset ws a' 0 ∧ keeps_parts a a').
Proof.
  intros Ht Hc Hl HP ws Htot. unfold arinc653_set_schedule. rewrite Z.gtb_ltb. unfold ARINC_MAX_PARTITIONS.
  destruct (Z.eqb_spec count 0) as [->|Hc0]; [left; split; [done|lia]|]. destruct (Z.ltb_spec 8 count); [left; split; [done|lia]|]. cbn [orb].
  destruct (Z.eqb_spec len 0) as [->|Hl0]; [left; split; [done|by intros (_ & ? & _)]|].
  destruct (check_windows_spec (Z.to_nat count) 0 arr) as (b & -> & Hb); [done|lia|done|]. rewrite some_bind. change (drop (Z.to_nat 0) arr) with arr in Hb. fold ws in Hb.
  destruct b; cbn [negb]; [right|left; split; [done|]; intros (_ & _ & Hf%Hb); done]. pose proof (proj1 Hb eq_refl) as Hf.
  assert (length ws = Z.to_nat count) as Hlen by (unfold ws; rewrite length_take; lia).
  destruct (copy_windows_spec ws arr (Z.to_nat count) 0 (windows (s_major_frame a)) Hf Htot) as (dst & E & Hld & Hd); [by rewrite Hlen|lia|lia|done|lia|].
  change (start ws 0) with 0 in E. change (Z.of_nat 0) with 0 in E. rewrite E, some_bind. eexists. split; [done|].
  assert (wins_ok ws) as Hok by (split; [done|lia|done]). split; [exact Hok|].
  assert (0 < total ws) as Hpos.
  { destruct (lookup_lt_is_Some_2 ws 0 ltac:(lia)) as [w0 Hw0]. pose proof (start_le ws 1 Hf) as Hs. rewrite (start_S _ _ _ Hw0) in Hs.
    rewrite Forall_lookup in Hf. pose proof (Hf 0%nat w0 Hw0) as [_ Hd0]. change (start ws 0) with 0 in Hs. lia. }
  split; [|by apply keeps_parts_refl]. split; cbn.
  - split; cbn; [done|lia|done|done].
  - by destruct HP; split.
  - lia.
  - done.
  - destruct (lookup_lt_is_Some_2 ws 0 ltac:(lia)) as [w0 Hw0]. rewrite Forall_lookup in Hf. pose proof (Hf 0%nat w0 Hw0) as [_ Hd0].
    assert (win_at ws 0 = 0%nat) as ->; [|done]. eapply win_at_unique; [apply Hok|exact Hw0|change (start ws 0) with 0; lia].
Qed.

(** *** Any number of ticks *)

Fixpoint arinc_ticks (n : nat) (c : Z) (s : sched) (a : asys) : option (sched * asys) :=
  match n with O => Some (s, a) | S n => r ← arinc_ticks n c s a; arinc653_tick c r.1 r.2 end.

Lemma ticks_spec ws c s a n : wins_ok ws → at_offset ws a 0 → sched_ok s → is_cpu c → started s c →
  ∃ s' a', arinc_ticks n c s a = Some (s', a') ∧ sched_ok s' ∧ started s' c ∧ at_offset ws a' (Z.of_nat n mod total ws) ∧ keeps_parts a a' ∧
    (start ws 1 <= Z.of_nat n → on_air ws a' (Z.of_nat n mod total ws)).
Proof.
  intros Hws HA HW Hc Hst. induction n as [|n IH]; cbn [arinc_ticks].
  { exists s, a. split; [done|]. split; [done|]. split; [done|]. split; [exact HA|]. split; [by apply keeps_parts_refl|]. intros H1. exfalso.
    destruct (lookup_lt_is_Some_2 ws 0 ltac:(apply Hws)) as [w0 Hw0]. rewrite (start_S _ _ _ Hw0) in H1. pose proof (wo_wins _ Hws) as Hf.
    rewrite Forall_lookup in Hf. pose proof (Hf 0%nat w0 Hw0) as [_ Hd0]. change (start ws 0) with 0 in H1. lia. }
  destruct IH as (s1 & a1 & -> & HW1 & Hst1 & HA1 & K1 & Hon1). rewrite some_bind. cbn [fst snd]. set (k := Z.of_nat n mod total ws) in *.
  pose proof (ao_range _ _ _ HA1) as Hk. destruct (at_window ws Hws a1 k HA1) as (w & Hw & Hr & _ & _ & Htot).
  assert (Z.of_nat (S n) mod total ws = (k + 1) mod total ws) as ->.
  { subst k. rewrite Zplus_mod_idemp_l. f_equal. lia. }
  destruct (decide (k + 1 < start ws (win_at ws k) + w_duration w)) as [Hin|Hout].
  - destruct (tick_inside ws Hws c s1 a1 k w HA1 Hw Hin) as (a2 & E & HA2 & K2 & Hon2). rewrite (Z.mod_small (k + 1)) by lia. exists s1, a2.
    split; [done|]. split; [done|]. split; [done|]. split; [done|]. split; [by eapply keeps_parts_trans|]. intros Hle. apply Hon2, Hon1.
    destruct (decide (start ws 1 <= Z.of_nat n)) as [?|Hgt]; [done|]. exfalso.
    assert (k = Z.of_nat n) as Hkn by (subst k; apply Z.mod_small; pose proof (start_le ws 1 (wo_wins _ Hws)); lia).
    destruct (lookup_lt_is_Some_2 ws 0 ltac:(apply Hws)) as [w0 Hw0]. pose proof (start_S _ _ _ Hw0) as Hs1. change (start ws 0) with 0 in Hs1.
    assert (win_at ws k = 0%nat) as H0 by (eapply win_at_unique; [apply Hws|exact Hw0|change (start ws 0) with 0; lia]).
    rewrite H0 in *. assert (w = w0) as -> by congruence. change (start ws 0) with 0 in Hin. lia.
  - destruct (schedule_ok s1 _ _ None c HW1 (or_introl eq_refl) Hc Hst1) as (s2 & Q2 & SL2 & E2 & HW2 & Hst2).
    destruct (tick_switch ws Hws c s1 s2 a1 k w HA1 E2 Hw ltac:(lia)) as (a2 & E & HA2 & K2 & Hon2). exists s2, a2. split; [done|].
    split; [by eapply wfs_sched_ok|]. split; [by apply Hst2|]. split; [done|]. split; [by eapply keeps_parts_trans|done].
Qed.

(** ** Theorems *)

(** C32: a schedule that is accepted runs as given, for any number of ticks on a
    CPU that has started: after [n] ticks the window in force is the one that
    contains [n] modulo the sum of the window lengths, so that every window lasts
    its length in every round.  The round is that sum: the frame length, which
    arinc653.h calls the length of the major frame, is stored and never used.
    From the end of the first window on, not before it ([first_window_idle]), the
    partition of the window in force is the current one, if it exists and runs
    normally, with the rest of the window as its time, and nobody is current
    otherwise. *)
Theorem arinc_windows_rotate arr count len a a1 c s n :
  typed_windows arr → 0 <= count <= Z.of_nat (length arr) → length (windows (s_major_frame a)) = 8%nat → parts_ok a →
  let ws := take (Z.to_nat count) arr in total ws < 2 ^ 64 → arinc653_set_schedule (Some arr) count len a = Some (a1, KERNEL_OK) →
  sched_ok s → is_cpu c → started s c →
  ∃ s' a' w, let k := Z.of_nat n mod total ws in
    arinc_ticks n c s a1 = Some (s', a') ∧ sched_ok s' ∧ ws !! win_at ws k = Some w ∧ start ws (win_at ws k) <= k < start ws (win_at ws k) + w_duration w ∧
    current_tick (s_major_frame a') = k ∧ current_window_idx (s_major_frame a') = Z.of_nat (win_at ws k) ∧
    (start ws 1 <= Z.of_nat n →
      s_current_partition a' = (if active a (w_partition_id w) then Some (w_partition_id w) else None) ∧
      ∀ p d, s_current_partition a' = Some p → get_part a' p = Some d → time_remaining d = start ws (win_at ws k) + w_duration w - k).
Proof.
  intros Ht Hcnt Hl HP ws Htot E HW Hc Hst. destruct (set_schedule_spec arr count len a Ht Hcnt Hl HP Htot) as [[E' _]|(a0 & E' & Hok & HA & K)]; [rewrite E' in E; injection E as _ E; discriminate E|].
  assert (a0 = a1) as -> by congruence. destruct (ticks_spec ws c s a1 n Hok HA HW Hc Hst) as (s' & a' & En & HW' & _ & HA' & K' & Hon).
  destruct (at_window ws Hok a' _ HA') as (w & Hw & Hr & _). exists s', a', w. cbv zeta. split; [done|]. split; [done|]. split; [done|]. split; [done|].
  split; [apply HA'|]. split; [apply HA'|]. intros Hle. destruct (Hon Hle w Hw) as [O1 O2]. split; [|done].
  by rewrite O1, (keeps_active _ _ _ K'), (keeps_active _ _ _ K).
Qed.

(** A schedule is accepted exactly when it has one to eight windows, each of a
    partition below eight and of positive length, and the frame length is not 0;
    otherwise the call returns EINVAL and changes nothing. *)
Theorem arinc_schedule_validated arr count len a :
  typed_windows arr → 0 <= count <= Z.of_nat (length arr) → length (windows (s_major_frame a)) = 8%nat → parts_ok a → total (take (Z.to_nat count) arr) < 2 ^ 64 →
  ∃ a' r, arinc653_set_schedule (Some arr) count len a = Some (a', r) ∧
    (r = KERNEL_OK ↔ 0 < count <= 8 ∧ len ≠ 0 ∧ Forall (λ w, 0 <= w_partition_id w < 8 ∧ 0 < w_duration w) (take (Z.to_nat count) arr)) ∧
    (r ≠ KERNEL_OK → r = - EINVAL ∧ a' = a).
Proof.
  intros Ht Hcnt Hl HP Htot. destruct (set_schedule_spec arr count len a Ht Hcnt Hl HP Htot) as [[E Hno]|(a0 & E & Hok & HA & K)].
  - exists a, (- EINVAL). split; [done|]. split; [|done]. split; [done|]. intros ?. by destruct Hno.
  - exists a0, KERNEL_OK. split; [done|]. split; [|done]. split; [intros _|done]. pose proof (wo_count _ Hok) as Hc. rewrite length_take in Hc. split; [lia|].
    split; [|apply Hok]. intros ->. unfold arinc653_set_schedule in E. destruct (_ || _); [done|]. done.
Qed.

(** ** A concrete schedule: partition 0 for three ticks, partition 1 for two *)

Definition image_arinc : asys :=
  ASys (replicate 8 zero_partition) (replicate 8 false) (replicate 256 0) (MFrame (replicate 8 (PWin 0 0 0)) 0 0 0 0 false) None.
Definition demo_sched : sched := kt_sched (run (demo_ops ++ [OStart 0])).
Definition demo_arinc : option (sched * asys) :=
  r ← arinc653_init demo_sched image_arinc;
  r ← arinc653_create_partition (Some [65; 0]) 10 3 0 r.1.1 r.1.2;
  r ← arinc653_create_partition (Some [66; 0]) 10 2 0 r.1.1 r.1.2;
  Some r.1.
Definition demo_parts : asys := default image_arinc (snd <$> demo_arinc).
Definition demo_windows : wins := [PWin 0 3 0; PWin 1 2 0].
Definition demo_set : asys := default image_arinc (fst <$> arinc653_set_schedule (Some demo_windows) 2 100 demo_parts).

Lemma demo_windows_typed : typed_windows demo_windows.
Proof. repeat constructor; done. Qed.

Lemma demo_parts_ok : parts_ok demo_parts.
Proof. split; [vm_compute; reflexivity..|]. intros p E. vm_compute in E. discriminate E. Qed.

Lemma arinc_windows_rotate_witness : ∃ s' a', arinc_ticks 9 0 demo_sched demo_set = Some (s', a') ∧
  current_window_idx (s_major_frame a') = 1 ∧ s_current_partition a' = Some 1.
Proof.
  destruct (arinc_windows_rotate demo_windows 2 100 demo_parts demo_set 0 demo_sched 9 demo_windows_typed) as (s' & a' & w & E & _ & Hw & _ & _ & Hi & Hc).
  - done.
  - vm_compute. reflexivity.
  - exact demo_parts_ok.
  - done.
  - vm_compute. reflexivity.
  - exact (reach_ok _ _ _ _ demo_started).
  - by unfold is_cpu.
  - exists 10. vm_compute. reflexivity.
  - exists s', a'. split; [exact E|]. change (win_at _ _) with 1%nat in *. split; [exact Hi|]. injection Hw as <-.
    destruct Hc as [Hc _]; [done|]. rewrite Hc. vm_compute. reflexivity.
Defined.

Lemma arinc_schedule_validated_witness : ∃ a', arinc653_set_schedule (Some [PWin 0 3 0; PWin 1 0 0]) 2 100 demo_parts = Some (a', - EINVAL) ∧ a' = demo_parts.
Proof.
  destruct (arinc_schedule_validated [PWin 0 3 0; PWin 1 0 0] 2 100 demo_parts) as (a' & r & E & Hok & Hno).
  - repeat constructor; done.
  - done.
  - vm_compute. reflexivity.
  - exact demo_parts_ok.
  - done.
  - destruct (decide (r = KERNEL_OK)) as [Hr|Hr].
    + apply Hok in Hr as (_ & _ & Hf). apply Forall_cons in Hf as [_ [[_ Hd] _]%Forall_cons]. cbn in Hd. lia.
    + destruct (Hno Hr) as [-> ->]. exists demo_parts. by split.
Defined.

Definition after_ticks {B} (n : nat) (f : asys → B) : option B := (λ r, f r.2) <$> arinc_ticks n 0 demo_sched demo_set.

(** Nobody is current during the first window after the schedule is set. *)
Example first_window_idle : after_ticks 2 (λ a, (current_window_idx (s_major_frame a), s_current_partition a, active a 0)) = Some (0, None, true).
Proof. vm_compute. reflexivity. Qed.

(** The frame length given, 100, plays no part: the first window is back after five
    ticks. *)
Example frame_length_ignored : after_ticks 5 (λ a, (major_frame_length (s_major_frame a), current_window_idx (s_major_frame a))) = Some (100, 0).
Proof. vm_compute. reflexivity. Qed.

(** A window of three ticks counts as five ticks of used time: one per tick, and
    its length again at its end. *)
Example time_used_counted_twice : after_ticks 8 (λ a, time_used <$> get_part a 0) = Some (Some 5).
Proof. vm_compute. reflexivity. Qed.

(** Binding a thread that waits in a ready queue links the node of the queue into
    the partition: the queue no longer comes back to its head. *)
Example bind_breaks_ready_queue :
  (r ← demo_arinc; b ← arinc653_bind_thread 8 0 r.1 r.2;
   Some (defined (list_for_each 1000 (Some (RqHead 0 10)) (snodes r.1)), defined (list_for_each 1000 (Some (RqHead 0 10)) (snodes b.1.1)))) = Some (true, false).
Proof. vm_compute. reflexivity. Qed.

(** [arinc653_pick_next] takes the thread bound first, whatever the priorities: 8
    has priority 10, 10 has priority 20. *)
Example pick_ignores_priority :
  (r ← demo_arinc; b ← arinc653_bind_thread 8 0 r.1 r.2; b ← arinc653_bind_thread 10 0 b.1.1 b.1.2;
   t ← arinc653_pick_next b.1.1 (upd_current (Some 0) b.1.2);
   Some (t, prio <$> get_thread b.1.1 8, prio <$> get_thread b.1.1 10)) = Some (Some 8, Some 10, Some 20).
Proof. vm_compute. reflexivity. Qed.
