(* ===== verification/Slab.v ===== *)
(** * Slab caches (kernel/mm/slab.c, slab.h)

    Caches of objects of 64 bytes, eight to a node; a node is a page of the page
    allocator and the nodes of a cache are linked by [next].  A pointer to a node
    is its virtual address, 0 is NULL; a cache is named by a number.
    [slab_alloc] gives up its lock to take a page, and is therefore three
    transitions ([alloc_scan], [alloc_node], [alloc_link]) when calls on several
    CPUs are interleaved. *)

From S2P Require Import Prelude KList PhysMem PageTable.

Set Default Goal Selector "!".

Definition SLAB_OBJECT_SIZE : Z := 64.
Definition SLAB_MAX_OBJ : Z := 8.
Definition SLAB_CACHE_COUNT : Z := 64.

(** The bytes of the objects follow [used] in memory and are not touched here. *)
Record slab_node_t := SlabNode { sn_next : Z; node_paddr : Z; node_order : Z; used : list Z }.

(** [offsetof(slab_node_t, objects)] and [sizeof(slab_node_t)] on AArch64: two
    words, a 32-bit order, the flags, the objects, rounded up to a word. *)
Definition NODE_OBJECTS : Z := 8 + 8 + 4 + SLAB_MAX_OBJ.
Definition NODE_SIZE : Z := (NODE_OBJECTS + SLAB_MAX_OBJ * SLAB_OBJECT_SIZE + 7) / 8 * 8.

(** The lock is the interleaving itself. *)
Record slab_cache_t := SlabCache {
  pool : Z; pool_size : Z; pool_paddr : Z; pool_order : Z; slabs : Z; num_slabs : Z; alloc_count : Z
}.

Definition zero_cache : slab_cache_t := SlabCache 0 0 0 0 0 0 0.

Record slab := Slab { sl_pm : pm; sl_nodes : gmap Z slab_node_t; sl_caches : gmap Z slab_cache_t; s_cache_count : Z }.

Definition upd_pm v s := Slab v (sl_nodes s) (sl_caches s) (s_cache_count s).
Definition upd_nodes v s := Slab (sl_pm s) v (sl_caches s) (s_cache_count s).
Definition upd_caches v s := Slab (sl_pm s) (sl_nodes s) v (s_cache_count s).

Definition set_slabs first n k := SlabCache (pool k) (pool_size k) (pool_paddr k) (pool_order k) first n (alloc_count k).
Definition set_alloc n k := SlabCache (pool k) (pool_size k) (pool_paddr k) (pool_order k) (slabs k) (num_slabs k) n.
Definition set_used l nd := SlabNode (sn_next nd) (node_paddr nd) (node_order nd) l.
Definition set_sn_next a nd := SlabNode a (node_paddr nd) (node_order nd) (used nd).

Definition on_cache (c : Z) (f : slab_cache_t → slab_cache_t) (s : slab) : option slab :=
  k ← sl_caches s !! c; Some (upd_caches (<[c := f k]> (sl_caches s)) s).
Definition on_node (a : Z) (f : slab_node_t → slab_node_t) (s : slab) : option slab :=
  nd ← sl_nodes s !! a; Some (upd_nodes (<[a := f nd]> (sl_nodes s)) s).

(** [current->objects[i]] *)
Definition object (a i : Z) : Z := u64 (a + NODE_OBJECTS + i * SLAB_OBJECT_SIZE).

(** ** Pages *)

Fixpoint order_loop (fuel : nat) (capacity size order : Z) : option Z :=
  if capacity <? size then match fuel with O => None | S fuel => order_loop fuel (u64 (Z.shiftl capacity 1)) size (u32 (order + 1)) end
  else Some order.

Definition slab_size_to_order (size : Z) : option Z := order_loop 64 CONFIG_PAGE_SIZE size 0.

(** The address, 0 for NULL, with order and physical address. *)
Definition slab_alloc_phys (size : Z) (s : slab) : option (slab * (Z * Z * Z)) :=
  ord ← slab_size_to_order size;
  if ord >? MAX_ORDER then Some (s, (0, 0, 0))
  else
    r ← phys_mem_alloc_pages ord (sl_pm s);
    let '(m, pa) := r in
    let s := upd_pm m s in
    if pa =? 0 then Some (s, (0, 0, 0)) else Some (s, (phys_to_virt pa, ord, pa)).

(** ** Caches *)

Definition slab_create (cache : option Z) (size : Z) (s : slab) : option (slab * Z) :=
  match cache with
  | None => Some (s, - EINVAL)
  | Some c =>
      if size =? 0 then Some (s, - EINVAL)
      else
        r ← slab_alloc_phys size s;
        let '(s, (va, ord, pa)) := r in
        if va =? 0 then Some (s, - ENOMEM)
        else Some (upd_caches (<[c := SlabCache va size pa ord 0 0 0]> (sl_caches s)) s, KERNEL_OK)
  end.

(** The nodes are in freed memory afterwards. *)
Fixpoint destroy_nodes (fuel : nat) (current : Z) (s : slab) : option slab :=
  if current =? 0 then Some s
  else
    match fuel with
    | O => None
    | S fuel =>
        nd ← sl_nodes s !! current;
        m ← phys_mem_free_pages (node_paddr nd) (node_order nd) (sl_pm s);
        destroy_nodes fuel (sn_next nd) (upd_nodes (delete current (sl_nodes s)) (upd_pm m s))
    end.

Definition slab_destroy (cache : option Z) (s : slab) : option (slab * Z) :=
  match cache with
  | None => Some (s, - EINVAL)
  | Some c =>
      k ← sl_caches s !! c;
      s ← destroy_nodes (size (sl_nodes s)) (slabs k) s;
      s ← (if negb (pool k =? 0) && negb (pool_paddr k =? 0) then
             m ← phys_mem_free_pages (pool_paddr k) (pool_order k) (sl_pm s); Some (upd_pm m s)
           else Some s);
      Some (upd_caches (<[c := zero_cache]> (sl_caches s)) s, KERNEL_OK)
  end.

(** ** Objects *)

(** The first object from [i] on that is not in use. *)
Fixpoint find_unused_obj (n : nat) (i : Z) (l : list Z) : option (option Z) :=
  match n with
  | O => Some None
  | S n => u ← l.[i]; if u =? 0 then Some (Some i) else find_unused_obj n (i + 1) l
  end.

(** Walk the nodes; take the first object that is not in use. *)
Fixpoint scan_nodes (fuel : nat) (c current : Z) (s : slab) : option (slab * option Z) :=
  if current =? 0 then Some (s, None)
  else
    match fuel with
    | O => None
    | S fuel =>
        nd ← sl_nodes s !! current;
        f ← find_unused_obj (Z.to_nat SLAB_MAX_OBJ) 0 (used nd);
        match f with
        | Some i =>
            l ← zupdate (used nd) i 1;
            s ← on_node current (set_used l) s;
            s ← on_cache c (λ k, set_alloc (u64 (alloc_count k + 1)) k) s;
            Some (s, Some (object current i))
        | None => scan_nodes fuel c (sn_next nd) s
        end
    end.

Definition alloc_scan (c : Z) (s : slab) : option (slab * option Z) :=
  k ← sl_caches s !! c; scan_nodes (size (sl_nodes s)) c (slabs k) s.

(** A fresh node that no cache holds yet; 0 when memory has run out. *)
Definition alloc_node (s : slab) : option (slab * Z) :=
  r ← slab_alloc_phys NODE_SIZE s;
  let '(s, (va, ord, pa)) := r in
  if va =? 0 then Some (s, 0)
  else Some (upd_nodes (<[va := SlabNode 0 pa ord (replicate 8 0)]> (sl_nodes s)) s, va).

Fixpoint last_node (fuel : nat) (last : Z) (s : slab) : option Z :=
  nd ← sl_nodes s !! last;
  if sn_next nd =? 0 then Some last else match fuel with O => None | S fuel => last_node fuel (sn_next nd) s end.

Definition alloc_link (c node : Z) (s : slab) : option (slab * Z) :=
  r ← alloc_scan c s;
  match r with
  | (s, Some o) =>
      nd ← sl_nodes s !! node;
      m ← phys_mem_free_pages (node_paddr nd) (node_order nd) (sl_pm s);
      Some (upd_nodes (delete node (sl_nodes s)) (upd_pm m s), o)
  | (s, None) =>
      k ← sl_caches s !! c;
      s ← (if slabs k =? 0 then on_cache c (set_slabs node (num_slabs k)) s
           else last ← last_node (size (sl_nodes s)) (slabs k) s; on_node last (set_sn_next node) s);
      s ← on_cache c (λ k, set_slabs (slabs k) (u64 (num_slabs k + 1)) k) s;
      nd ← sl_nodes s !! node;
      l ← zupdate (used nd) 0 1;
      s ← on_node node (set_used l) s;
      s ← on_cache c (λ k, set_alloc (u64 (alloc_count k + 1)) k) s;
      Some (s, object node 0)
  end.

(** The whole call, undisturbed; 0 is NULL. *)
Definition slab_alloc (cache : option Z) (s : slab) : option (slab * Z) :=
  match cache with
  | None => Some (s, 0)
  | Some c =>
      r ← alloc_scan c s;
      match r with
      | (s, Some o) => Some (s, o)
      | (s, None) =>
          r ← alloc_node s;
          let '(s, node) := r in
          if node =? 0 then Some (s, 0) else alloc_link c node s
      end
  end.

Fixpoint find_used_obj (n : nat) (i a ptr : Z) (l : list Z) : option (option Z) :=
  match n with
  | O => Some None
  | S n => u ← l.[i]; if negb (u =? 0) && (object a i =? ptr) then Some (Some i) else find_used_obj n (i + 1) a ptr l
  end.

Fixpoint free_nodes (fuel : nat) (c current ptr : Z) (s : slab) : option (slab * Z) :=
  if current =? 0 then Some (s, - ENOSYS)
  else
    match fuel with
    | O => None
    | S fuel =>
        nd ← sl_nodes s !! current;
        f ← find_used_obj (Z.to_nat SLAB_MAX_OBJ) 0 current ptr (used nd);
        match f with
        | Some i =>
            l ← zupdate (used nd) i 0;
            s ← on_node current (set_used l) s;
            s ← on_cache c (λ k, set_alloc (u64 (alloc_count k - 1)) k) s;
            Some (s, KERNEL_OK)
        | None => free_nodes fuel c (sn_next nd) ptr s
        end
    end.

Definition slab_free (cache : option Z) (ptr : Z) (s : slab) : option (slab * Z) :=
  match cache with
  | None => Some (s, - EINVAL)
  | Some c => if ptr =? 0 then Some (s, - EINVAL) else k ← sl_caches s !! c; free_nodes (size (sl_nodes s)) c (slabs k) ptr s
  end.

Definition slab_get_alloc_count (cache : option Z) (s : slab) : option Z :=
  match cache with None => Some 0 | Some c => k ← sl_caches s !! c; Some (alloc_count k) end.

(** ** The system's own caches, numbered 0 to 63 *)

Fixpoint create_all (n : nat) (i : Z) (s : slab) : option (slab * Z) :=
  match n with
  | O => Some (s, KERNEL_OK)
  | S n =>
      r ← slab_create (Some i) 65536 s;
      let '(s, ret) := r in
      if negb (ret =? KERNEL_OK) then Some (s, ret)
      else create_all n (i + 1) (Slab (sl_pm s) (sl_nodes s) (sl_caches s) (u32 (s_cache_count s + 1)))
  end.

Definition slab_system_init (s : slab) : option (slab * Z) :=
  create_all (Z.to_nat SLAB_CACHE_COUNT) 0
    (Slab (sl_pm s) (sl_nodes s) (foldr (λ i m, <[i := zero_cache]> m) (sl_caches s) (seqZ 0 SLAB_CACHE_COUNT)) 0).

Fixpoint destroy_all (n : nat) (i : Z) (s : slab) : option (slab * Z) :=
  match n with
  | O => Some (Slab (sl_pm s) (sl_nodes s) (sl_caches s) 0, KERNEL_OK)
  | S n =>
      r ← slab_destroy (Some i) s;
      let '(s, ret) := r in
      if negb (ret =? KERNEL_OK) then Some (s, ret) else destroy_all n (i + 1) s
  end.

Definition slab_system_shutdown (s : slab) : option (slab * Z) := destroy_all (Z.to_nat (s_cache_count s)) 0 s.
