(* ===== verification/SlabInv.v ===== *)
(** * Slab caches against sequences of nodes

    [slab_inv s L P others]: the nodes of cache [c] are the chain [L c], CPU [t]
    holds the node [P !! t] that it is about to link, and pools, nodes and the
    blocks [others] of other clients are distinct blocks of the page allocator. *)

From S2P Require Import Prelude KList PhysMem Buddy BuddyInv BuddyTheorems PageTable PageTableInv PageTableOps Slab.

Set Default Goal Selector "!".

#[local] Arguments Z.pow : simpl never.

(** ** Chains *)

Notation nodes_t := (gmap Z slab_node_t).

Fixpoint sll (h : nodes_t) (first : Z) (l : list Z) : Prop :=
  match l with
  | [] => first = 0
  | a :: l => first = a ∧ a ≠ 0 ∧ ∃ nd, h !! a = Some nd ∧ sll h (sn_next nd) l
  end.

Lemma sll_ext h h' first l : (∀ a, a ∈ l → sn_next <$> h' !! a = sn_next <$> h !! a) → sll h first l → sll h' first l.
Proof.
  revert first. induction l as [|a l IH]; intros first Hs; [done|]. cbn. intros (-> & Ha & nd & E & Hl). split; [done|]. split; [done|].
  pose proof (Hs a ltac:(set_solver)) as Hn. rewrite E in Hn. destruct (h' !! a) as [nd'|]; [|done]. cbn in Hn. injection Hn as Hn.
  exists nd'. split; [done|]. rewrite Hn. apply IH; [|done]. intros b Hb. apply Hs. set_solver.
Qed.

Lemma sll_dom h first l a : sll h first l → a ∈ l → is_Some (h !! a) ∧ a ≠ 0.
Proof.
  revert first. induction l as [|b l IH]; intros first Hs Ha; [by apply elem_of_nil in Ha|]. destruct Hs as (-> & Hb & nd & E & Hl).
  apply elem_of_cons in Ha as [->|Ha]; [by rewrite E|by eapply IH].
Qed.

Lemma sll_length h first l : sll h first l → NoDup l → (length l <= size h)%nat.
Proof.
  intros Hs Hn. assert (list_to_set l ⊆ dom h) as Hsub.
  { intros a Ha. apply elem_of_list_to_set in Ha. apply elem_of_dom. by eapply sll_dom. }
  apply subseteq_size in Hsub. by rewrite size_list_to_set, size_dom in Hsub.
Qed.

(** A node is linked behind the last one. *)
Lemma sll_snoc h first l a b nd : sll h first (l ++ [b]) → NoDup (l ++ [b]) → a ∉ l ++ [b] → a ≠ 0 → h !! b = Some nd →
  (sn_next <$> h !! a) = Some 0 → sll (<[b := set_sn_next a nd]> h) first ((l ++ [b]) ++ [a]).
Proof.
  revert first. induction l as [|c l IH]; intros first Hs Hnd Ha Ha0 Hb Hna.
  - cbn in Hs. destruct Hs as (-> & Hb0 & nd' & E & _). cbn. split; [done|]. split; [done|]. exists (set_sn_next a nd). rewrite lookup_insert_eq.
    split; [done|]. split; [done|]. split; [done|]. rewrite lookup_insert_ne by (intros ->; set_solver). destruct (h !! a) as [na|]; [|done]. exists na.
    split; [done|]. by injection Hna.
  - cbn in Hs. destruct Hs as (-> & Hc0 & nd' & E & Hl). cbn in Hnd. apply NoDup_cons in Hnd as [Hc Hnd]. cbn. split; [done|]. split; [done|].
    exists nd'. rewrite lookup_insert_ne by (intros ->; set_solver). split; [done|]. apply IH; [done|done|set_solver|done|done|done].
Qed.

Lemma last_node_spec s fuel first l b : sll (sl_nodes s) first (l ++ [b]) → (length l <= fuel)%nat → last_node fuel first s = Some b.
Proof.
  revert fuel first. induction l as [|c l IH]; intros fuel first Hs Hf.
  - cbn in Hs. destruct Hs as (-> & _ & nd & E & Hn). destruct fuel; cbn [last_node]; rewrite E, some_bind, Hn; done.
  - cbn in Hs. destruct Hs as (-> & _ & nd & E & Hl). destruct fuel as [|fuel]; [cbn in Hf; lia|]. cbn [last_node]. rewrite E, some_bind.
    assert (sn_next nd ≠ 0) as Hne. { destruct l as [|d l]; cbn in Hl; destruct Hl as (-> & ? & _); done. }
    rewrite (proj2 (Z.eqb_neq _ _)) by done. apply IH; [done|cbn in Hf; lia].
Qed.

(** ** Objects *)

Definition flags_ok (l : list Z) : Prop := length l = 8%nat ∧ Forall (λ u, u = 0 ∨ u = 1) l.

(** The objects of a node that are in use, and those of a chain. *)
Definition node_live (a : Z) (nd : slab_node_t) : list Z :=
  omap (λ i, u ← (used nd).[i]; if u =? 0 then None else Some (object a i)) (seqZ 0 8).
Definition chain_live (h : nodes_t) (l : list Z) : list Z := l ≫= λ a, default [] (node_live a <$> h !! a).

(** A page of the linear mapping. *)
Definition page_at (a p : Z) : Prop := a = phys_to_virt p ∧ 0 < p < 2 ^ 48 ∧ (4096 | p).

Lemma object_eq a p i : page_at a p → 0 <= i < 8 → object a i = p + KERNEL_VA_OFFSET + 28 + i * 64.
Proof.
  intros (-> & Hp & [x Hx]) Hi. unfold object, NODE_OBJECTS, SLAB_MAX_OBJ, SLAB_OBJECT_SIZE. rewrite phys_to_virt_small by lia. rewrite u64_small; [lia|].
  assert (2 ^ 48 = 4096 * 2 ^ 36) by done. unfold KERNEL_VA_OFFSET. lia.
Qed.

(** Objects are apart. *)
Lemma object_apart a b p q i j : page_at a p → page_at b q → 0 <= i < 8 → 0 <= j < 8 → (a, i) ≠ (b, j) →
  object a i + 64 <= object b j ∨ object b j + 64 <= object a i.
Proof.
  intros Ha Hb Hi Hj Hne. rewrite (object_eq a p), (object_eq b q) by done. destruct Ha as (-> & Hp & [x ->]), Hb as (-> & Hq & [y ->]).
  destruct (decide (x = y)) as [->|]; [|lia]. destruct (decide (i = j)) as [->|]; [done|]. lia.
Qed.

Lemma object_inj a b p q i j : page_at a p → page_at b q → 0 <= i < 8 → 0 <= j < 8 → object a i = object b j → a = b ∧ i = j.
Proof.
  intros Ha Hb Hi Hj E. destruct (decide ((a, i) = (b, j))) as [[= -> ->]|Hne]; [done|]. destruct (object_apart a b p q i j Ha Hb Hi Hj Hne); lia.
Qed.

Lemma node_live_in a nd x : x ∈ node_live a nd ↔ ∃ i u, 0 <= i < 8 ∧ (used nd).[i] = Some u ∧ u ≠ 0 ∧ x = object a i.
Proof.
  unfold node_live. rewrite list_elem_of_omap. split.
  - intros (i & Hi%elem_of_seqZ & E). apply bind_Some in E as (u & Eu & E). destruct (Z.eqb_spec u 0); [done|]. injection E as <-. exists i, u. split; [lia|done].
  - intros (i & u & Hi & Eu & Hu & ->). exists i. split; [apply elem_of_seqZ; lia|]. rewrite Eu, some_bind. by rewrite (proj2 (Z.eqb_neq _ _)).
Qed.

Lemma chain_live_in h l x : x ∈ chain_live h l ↔ ∃ a nd, a ∈ l ∧ h !! a = Some nd ∧ x ∈ node_live a nd.
Proof.
  unfold chain_live. rewrite list_elem_of_bind. split.
  - intros (a & Hx & Ha). destruct (h !! a) as [nd|] eqn:E; cbn in Hx; [|by apply elem_of_nil in Hx]. by exists a, nd.
  - intros (a & nd & Ha & E & Hx). exists a. split; [by rewrite E|done].
Qed.

(** *** Flags *)

Lemma omap_flag (g : Z → Z) (L : list Z) (l : list Z) i v : NoDup L → i ∈ L → 0 <= i < Z.of_nat (length l) → v ≠ 0 → l.[i] = Some 0 →
  omap (λ j, u ← (<[Z.to_nat i := v]> l).[j]; if u =? 0 then None else Some (g j)) L ≡ₚ
  g i :: omap (λ j, u ← l.[j]; if u =? 0 then None else Some (g j)) L.
Proof.
  intros Hnd Hin Hi Hv H0. apply list_elem_of_split in Hin as (L1 & L2 & ->). apply NoDup_app in Hnd as (_ & Hd & [Hn2 _]%NoDup_cons).
  assert (i ∉ L1) as Hn1 by (intros Hx; apply (Hd i Hx); set_solver).
  assert (∀ M : list Z, i ∉ M → omap (λ j, u ← (<[Z.to_nat i := v]> l).[j]; if u =? 0 then None else Some (g j)) M =
                       omap (λ j, u ← l.[j]; if u =? 0 then None else Some (g j)) M) as Hsame.
  { intros M HM. induction M as [|j M IH]; [done|]. cbn [omap list_omap]. rewrite zlookup_insert_ne by (lia || set_solver).
    rewrite IH by set_solver. done. }
  rewrite !omap_app. cbn [omap list_omap]. rewrite !Hsame by done. rewrite zlookup_insert_eq, H0 by lia. rewrite !some_bind.
  rewrite (proj2 (Z.eqb_neq v 0)) by done. cbn [Z.eqb]. by rewrite Permutation_middle.
Qed.

(** An object is taken, or given back. *)
Lemma node_live_take a nd i l : length (used nd) = 8%nat → 0 <= i < 8 → (used nd).[i] = Some 0 → l = <[Z.to_nat i := 1]> (used nd) →
  node_live a (set_used l nd) ≡ₚ object a i :: node_live a nd.
Proof.
  intros Hl Hi H0 ->. apply (omap_flag (object a) (seqZ 0 8) (used nd) i 1); [apply NoDup_seqZ|apply elem_of_seqZ; lia|lia|done|done].
Qed.

Lemma node_live_give a nd i u l : length (used nd) = 8%nat → 0 <= i < 8 → (used nd).[i] = Some u → u ≠ 0 → l = <[Z.to_nat i := 0]> (used nd) →
  node_live a nd ≡ₚ object a i :: node_live a (set_used l nd).
Proof.
  intros Hl Hi Hu Hne ->. pose proof (omap_flag (object a) (seqZ 0 8) (<[Z.to_nat i := 0]> (used nd)) i u) as E.
  rewrite list_insert_insert_eq in E. rewrite (list_insert_id (used nd) (Z.to_nat i) u) in E.
  - apply E; [apply NoDup_seqZ|apply elem_of_seqZ; lia|rewrite length_insert; lia|done|apply zlookup_insert_eq; lia].
  - rewrite <- Hu, <- zlookup_nat. f_equal. lia.
Qed.

Lemma chain_live_change h l a nd nd' x : NoDup l → a ∈ l → h !! a = Some nd → node_live a nd' ≡ₚ x :: node_live a nd →
  chain_live (<[a := nd']> h) l ≡ₚ x :: chain_live h l.
Proof.
  intros Hnd Hin Ha HP. apply list_elem_of_split in Hin as (l1 & l2 & ->). apply NoDup_app in Hnd as (_ & Hd & [Hn2 _]%NoDup_cons).
  assert (a ∉ l1) as Hn1 by (intros Hx; apply (Hd a Hx); set_solver).
  assert (∀ M : list Z, a ∉ M → chain_live (<[a := nd']> h) M = chain_live h M) as Hsame.
  { intros M HM. unfold chain_live. apply bind_ext_in. intros b Hb. rewrite lookup_insert_ne; [done|]. intros ->. done. }
  unfold chain_live in *. rewrite !bind_app, !bind_cons, !Hsame by done. rewrite lookup_insert_eq, Ha. cbn. rewrite HP. cbn.
  by rewrite <- Permutation_middle.
Qed.

Lemma chain_live_other h l a nd : a ∉ l → chain_live (<[a := nd]> h) l = chain_live h l.
Proof. intros Ha. apply bind_ext_in. intros b Hb. rewrite lookup_insert_ne; [done|]. intros ->. done. Qed.

Lemma chain_live_delete h l a : a ∉ l → chain_live (delete a h) l = chain_live h l.
Proof. intros Ha. apply bind_ext_in. intros b Hb. rewrite lookup_delete_ne; [done|]. intros ->. done. Qed.

(** ** The invariant *)

Inductive owner := OwnPool (c : Z) | OwnNode (c a : Z) | OwnPend (t : Z) | OwnOther (p : Z).

(** [w] holds the block of order [o] at [p]. *)
Definition holds (s : slab) (L : Z → list Z) (P : gmap Z (Z * Z)) (others : gmap Z Z) (w : owner) (p o : Z) : Prop :=
  match w with
  | OwnPool c => ∃ k, sl_caches s !! c = Some k ∧ pool k ≠ 0 ∧ p = pool_paddr k ∧ o = pool_order k
  | OwnNode c a => a ∈ L c ∧ ∃ nd, sl_nodes s !! a = Some nd ∧ p = node_paddr nd ∧ o = 0
  | OwnPend t => ∃ c a nd, P !! t = Some (c, a) ∧ sl_nodes s !! a = Some nd ∧ p = node_paddr nd ∧ o = 0
  | OwnOther q => p = q ∧ others !! q = Some o
  end.

(** Every block has one owner. *)
Definition owned (H : owner → Z → Z → Prop) (live : gmap Z Z) : Prop :=
  (∀ w p o, H w p o → live !! p = Some o) ∧ (∀ w w' p o o', H w p o → H w' p o' → w = w').

Lemma owned_add (H H' : owner → Z → Z → Prop) live p ord w : owned H live → live !! p = None →
  (∀ w' q o, H' w' q o → H w' q o ∨ (w' = w ∧ q = p ∧ o = ord)) → owned H' (<[p := ord]> live).
Proof.
  intros [H1 H2] Hp Hs. assert (∀ w' q o, H w' q o → q ≠ p) as Hf by (intros w' q o Hq ->; by rewrite (H1 _ _ _ Hq) in Hp). split.
  - intros w' q o [Hq|(-> & -> & ->)]%Hs; [rewrite lookup_insert_ne by (by apply not_eq_sym, (Hf w' q o)); by eapply H1|by rewrite lookup_insert_eq].
  - intros w1 w2 q o1 o2 [Hq1|(-> & -> & _)]%Hs [Hq2|(-> & E & _)]%Hs; [by eapply H2|by apply Hf in Hq1|by apply Hf in Hq2|done].
Qed.

Lemma owned_del (H H' : owner → Z → Z → Prop) live p o w : owned H live → H w p o →
  (∀ w' q o', H' w' q o' → H w' q o' ∧ w' ≠ w) → owned H' (delete p live).
Proof.
  intros [H1 H2] Hp Hs. split.
  - intros w' q o' [Hq Hne]%Hs. rewrite lookup_delete_ne; [by eapply H1|]. intros ->. by apply Hne; eapply H2.
  - intros w1 w2 q o1 o2 [Hq1 _]%Hs [Hq2 _]%Hs. by eapply H2.
Qed.

Lemma owned_move (H H' : owner → Z → Z → Prop) live p o w v : owned H live → H w p o →
  (∀ w' q o', H' w' q o' → (H w' q o' ∧ w' ≠ w) ∨ (w' = v ∧ q = p ∧ o' = o)) → owned H' live.
Proof.
  intros [H1 H2] Hp Hs. split.
  - intros w' q o' [[Hq _]|(_ & -> & ->)]%Hs; by eapply H1.
  - intros w1 w2 q o1 o2 [[Hq1 N1]|(-> & -> & _)]%Hs [[Hq2 N2]|(-> & E & _)]%Hs; [by eapply H2| | |done].
    + subst q. by destruct N1; eapply H2.
    + by destruct N2; eapply H2.
Qed.

Lemma owned_weaken (H H' : owner → Z → Z → Prop) live : owned H live → (∀ w q o, H' w q o → H w q o) → owned H' live.
Proof. intros [H1 H2] Hs. split; [intros w q o Hq%Hs; by eapply H1|intros w w' q o o' Hq%Hs Hq'%Hs; by eapply H2]. Qed.

Definition node_wf (a : Z) (nd : slab_node_t) : Prop := a = phys_to_virt (node_paddr nd) ∧ node_order nd = 0 ∧ flags_ok (used nd).

Record chain_ok (h : nodes_t) (k : slab_cache_t) (l : list Z) : Prop := ChainOk {
  co_sll : sll h (slabs k) l;
  co_nodup : NoDup l;
  co_count : alloc_count k = u64 (Z.of_nat (length (chain_live h l)));
  co_node : ∀ a, a ∈ l → ∃ nd, h !! a = Some nd ∧ node_wf a nd
}.

(** A node about to be linked. *)
Definition pend_ok (h : nodes_t) (a : Z) : Prop :=
  ∃ nd, h !! a = Some nd ∧ node_wf a nd ∧ used nd = replicate 8 0 ∧ sn_next nd = 0.

Lemma chain_ok_ext h h' k l : (∀ a, a ∈ l → h' !! a = h !! a) → chain_ok h k l → chain_ok h' k l.
Proof.
  intros He [H1 H2 H3 H4]. split; [|done| |].
  - eapply sll_ext; [|exact H1]. intros a Ha. by rewrite He.
  - rewrite H3. do 3 f_equal. symmetry. apply bind_ext_in. intros a Ha. by rewrite He.
  - intros a Ha. rewrite He by done. auto.
Qed.

Section inv.
Context (base n : Z) (HL : mem_layout base n) (H48 : base + n * CONFIG_PAGE_SIZE <= 2 ^ 48).

Record slab_inv (s : slab) (L : Z → list Z) (P : gmap Z (Z * Z)) (others : gmap Z Z) : Prop := SlabInv {
  si_own : ∃ live, pm_reach base n (sl_pm s) live ∧ owned (holds s L P others) live;
  si_cache : ∀ c k, sl_caches s !! c = Some k → chain_ok (sl_nodes s) k (L c);
  si_none : ∀ c, sl_caches s !! c = None → L c = [];
  si_pend : ∀ t c a, P !! t = Some (c, a) → is_Some (sl_caches s !! c) ∧ pend_ok (sl_nodes s) a
}.

(** *** Where the nodes are *)

Section facts.
Context (s : slab) (L : Z → list Z) (P : gmap Z (Z * Z)) (others : gmap Z Z) (HI : slab_inv s L P others).

Lemma si_node c a : a ∈ L c → ∃ nd, sl_nodes s !! a = Some nd ∧ node_wf a nd.
Proof using HI.
  intros Ha. destruct (sl_caches s !! c) as [k|] eqn:Hk; [by apply (co_node _ _ _ (si_cache _ _ _ _ HI c k Hk))|].
  rewrite (si_none _ _ _ _ HI c Hk) in Ha. by apply elem_of_nil in Ha.
Qed.

Lemma held_page w p : holds s L P others w p 0 → 0 < p < 2 ^ 48 ∧ (4096 | p).
Proof using HI HL H48. intros Hw. destruct (si_own _ _ _ _ HI) as (live & HR & HO & _). eapply page_range; [done|done|done|by eapply HO]. Qed.

Lemma held_by w w' p o o' : holds s L P others w p o → holds s L P others w' p o' → w = w'.
Proof using HI. intros H1 H2. destruct (si_own _ _ _ _ HI) as (live & _ & _ & HO). by eapply HO. Qed.

Lemma node_held c a nd : a ∈ L c → sl_nodes s !! a = Some nd → holds s L P others (OwnNode c a) (node_paddr nd) 0.
Proof. intros Ha E. split; [done|]. by exists nd. Qed.

Lemma pend_held t c a nd : P !! t = Some (c, a) → sl_nodes s !! a = Some nd → holds s L P others (OwnPend t) (node_paddr nd) 0.
Proof. intros Ha E. by exists c, a, nd. Qed.

Lemma node_page c a : a ∈ L c → ∃ nd, sl_nodes s !! a = Some nd ∧ node_wf a nd ∧ page_at a (node_paddr nd).
Proof using HI HL H48.
  intros Ha. destruct (si_node c a Ha) as (nd & E & Hw). exists nd. split; [done|]. split; [done|]. split; [apply Hw|].
  eapply held_page. by apply (node_held c a nd).
Qed.

Lemma nodes_apart c c' a : a ∈ L c → a ∈ L c' → c = c'.
Proof using HI.
  intros H1 H2. destruct (si_node c a H1) as (nd & E & _).
  by injection (held_by _ _ _ _ _ (node_held c a nd H1 E) (node_held c' a nd H2 E)).
Qed.

Lemma pend_apart t c a c' : P !! t = Some (c, a) → a ∉ L c'.
Proof using HI.
  intros H1 H2. destruct (si_node c' a H2) as (nd & E & _). discriminate (held_by _ _ _ _ _ (pend_held t c a nd H1 E) (node_held c' a nd H2 E)).
Qed.

Lemma pend_inj t t' c c' a : P !! t = Some (c, a) → P !! t' = Some (c', a) → t = t'.
Proof using HI.
  intros H1 H2. destruct (si_pend _ _ _ _ HI t c a H1) as (_ & nd & E & _). by injection (held_by _ _ _ _ _ (pend_held t c a nd H1 E) (pend_held t' c' a nd H2 E)).
Qed.

Lemma chain_fuel c k : sl_caches s !! c = Some k → (length (L c) <= size (sl_nodes s))%nat.
Proof using HI. intros Hk. destruct (si_cache _ _ _ _ HI c k Hk) as [Hs Hn _ _]. by eapply sll_length. Qed.
End facts.

(** *** A flag changes *)

Definition with_flag (a : Z) (nd : slab_node_t) (l : list Z) (c : Z) (k : slab_cache_t) (count : Z) (s : slab) : slab :=
  upd_caches (<[c := set_alloc count k]> (sl_caches s)) (upd_nodes (<[a := set_used l nd]> (sl_nodes s)) s).

Lemma flag_inv s L P others a nd l c k count : slab_inv s L P others → sl_caches s !! c = Some k → a ∈ L c → sl_nodes s !! a = Some nd → flags_ok l →
  count = u64 (Z.of_nat (length (chain_live (<[a := set_used l nd]> (sl_nodes s)) (L c)))) → slab_inv (with_flag a nd l c k count s) L P others.
Proof.
  intros HI Hk Ha Hnd Hl Hcount. pose proof HI as [(live & HR & HO) H2 H3 H5].
  assert (∀ b nd', sl_nodes (with_flag a nd l c k count s) !! b = Some nd' → ∃ nd0, sl_nodes s !! b = Some nd0 ∧ node_paddr nd' = node_paddr nd0) as Hback.
  { intros b nd' Hb. cbn in Hb. destruct (decide (b = a)) as [->|Hne].
    - rewrite lookup_insert_eq in Hb. injection Hb as <-. by exists nd.
    - rewrite lookup_insert_ne in Hb by done. by exists nd'. }
  split.
  - exists live. split; [done|]. eapply owned_weaken; [exact HO|]. intros [c'|c' b|t|q] p o.
    + intros (k' & E & Hp). cbn in E. destruct (decide (c' = c)) as [->|Hne]; [rewrite lookup_insert_eq in E; injection E as <-; by exists k|].
      rewrite lookup_insert_ne in E by done. by exists k'.
    + intros (Hb & nd' & E & -> & ->). destruct (Hback b nd' E) as (nd0 & E0 & ->). split; [done|by exists nd0].
    + intros (c' & b & nd' & Hb & E & -> & ->). destruct (Hback b nd' E) as (nd0 & E0 & ->). by exists c', b, nd0.
    + done.
  - intros c' k' E. cbn in E. destruct (decide (c' = c)) as [->|Hne].
    + rewrite lookup_insert_eq in E. injection E as <-. destruct (H2 c k Hk) as [C1 C2 C3 C4]. split; [|done|exact Hcount|].
      * eapply sll_ext; [|exact C1]. intros b Hb. cbn. destruct (decide (b = a)) as [->|Hb']; [by rewrite lookup_insert_eq, Hnd|by rewrite lookup_insert_ne].
      * intros b Hb. cbn. destruct (decide (b = a)) as [->|Hb']; [|rewrite lookup_insert_ne by done; auto]. rewrite lookup_insert_eq.
        eexists. split; [done|]. destruct (C4 a Ha) as (nd0 & E0 & W1 & W2 & _). assert (nd0 = nd) as -> by congruence. done.
    + rewrite lookup_insert_ne in E by done. eapply chain_ok_ext; [|by apply H2]. intros b Hb. cbn. apply lookup_insert_ne.
      intros ->. by apply Hne, (nodes_apart s L P others HI c' c b).
  - intros c' Hc'. cbn in Hc'. apply lookup_insert_None in Hc' as [Hc' _]. by apply H3.
  - intros t c' b Hb. destruct (H5 t c' b Hb) as (Hc' & nd' & E & Hp). split.
    + cbn. destruct (decide (c' = c)) as [->|Hne]; [by rewrite lookup_insert_eq|by rewrite lookup_insert_ne].
    + exists nd'. cbn. rewrite lookup_insert_ne; [done|]. intros <-. by apply (pend_apart s L P others HI t c' a c).
Qed.

Lemma flag_other s L P others a nd l c k count c' : slab_inv s L P others → a ∈ L c → c' ≠ c →
  chain_live (sl_nodes (with_flag a nd l c k count s)) (L c') = chain_live (sl_nodes s) (L c').
Proof. intros HI Ha Hne. apply chain_live_other. intros Hb. by apply Hne, (nodes_apart s L P others HI c' c a). Qed.
End inv.
