(* ===== verification/SlabSteps.v ===== *)
(** * Slab caches: every operation keeps the invariant

    What each transition of Slab.v does to the objects in use, and that it keeps
    [slab_inv]. *)

From S2P Require Import Prelude KList PhysMem Buddy BuddyInv BuddyTheorems PageTable PageTableInv PageTableOps Slab SlabInv.

Set Default Goal Selector "!".

#[local] Arguments Z.pow : simpl never.

(** ** Scanning *)

Lemma find_unused_obj_spec n i l : 0 <= i → i + Z.of_nat n = Z.of_nat (length l) →
  (find_unused_obj n i l = Some None ∧ ∀ j u, i <= j → l.[j] = Some u → u ≠ 0) ∨
  ∃ j, find_unused_obj n i l = Some (Some j) ∧ i <= j < Z.of_nat (length l) ∧ l.[j] = Some 0.
Proof.
  revert i. induction n as [|n IH]; intros i Hi Hn.
  - left. split; [done|]. intros j u Hj E%zlookup_Some_lt. lia.
  - cbn [find_unused_obj]. destruct (proj2 (zlookup_is_Some l i)) as [u Eu]; [lia|]. rewrite Eu, some_bind.
    destruct (Z.eqb_spec u 0) as [->|Hu]; [right; exists i; split_and!; [done|lia|lia|done]|].
    destruct (IH (i + 1) ltac:(lia) ltac:(lia)) as [[E Hall]|(j & E & Hj & E0)].
    + left. split; [done|]. intros j v Hj Ev. destruct (decide (j = i)) as [->|]; [congruence|]. apply (Hall j v); [lia|done].
    + right. exists j. split_and!; [done|lia|lia|done].
Qed.

Lemma find_used_obj_spec n i a ptr l : 0 <= i → i + Z.of_nat n = Z.of_nat (length l) →
  (find_used_obj n i a ptr l = Some None ∧ ∀ j u, i <= j → l.[j] = Some u → u ≠ 0 → object a j ≠ ptr) ∨
  ∃ j u, find_used_obj n i a ptr l = Some (Some j) ∧ i <= j < Z.of_nat (length l) ∧ l.[j] = Some u ∧ u ≠ 0 ∧ object a j = ptr.
Proof.
  revert i. induction n as [|n IH]; intros i Hi Hn.
  - left. split; [done|]. intros j u Hj E%zlookup_Some_lt. lia.
  - cbn [find_used_obj]. destruct (proj2 (zlookup_is_Some l i)) as [u Eu]; [lia|]. rewrite Eu, some_bind.
    destruct (Z.eqb_spec u 0) as [->|Hu]; [|destruct (Z.eqb_spec (object a i) ptr) as [Ho|Ho]]; cbn [negb andb];
      [|right; exists i, u; split_and!; [done|lia|lia|done..]|];
      (destruct (IH (i + 1) ltac:(lia) ltac:(lia)) as [[E Hall]|(j & v & E & Hj & E0)];
       [left; split; [done|]; intros j v Hj Ev Hv; destruct (decide (j = i)) as [->|]; [congruence|]; apply (Hall j v); [lia|done..]
       |right; exists j, v; split_and!; [done|lia|lia|apply E0..]]).
Qed.

Definition node_full (nd : slab_node_t) : Prop := ∀ i u, (used nd).[i] = Some u → u ≠ 0.

(** What a walk over [l] finds: a node with room, or every node full. *)
Lemma scan_nodes_spec s c k l fuel first : sl_caches s !! c = Some k → sll (sl_nodes s) first l → (length l <= fuel)%nat →
  (∀ a nd, a ∈ l → sl_nodes s !! a = Some nd → length (used nd) = 8%nat) →
  (scan_nodes fuel c first s = Some (s, None) ∧ ∀ a nd, a ∈ l → sl_nodes s !! a = Some nd → node_full nd) ∨
  ∃ a nd i, a ∈ l ∧ sl_nodes s !! a = Some nd ∧ 0 <= i < 8 ∧ (used nd).[i] = Some 0 ∧
    scan_nodes fuel c first s = Some (with_flag a nd (<[Z.to_nat i := 1]> (used nd)) c k (u64 (alloc_count k + 1)) s, Some (object a i)).
Proof.
  intros Hk. revert fuel first. induction l as [|a l IH]; intros fuel first Hs Hf Hlen.
  - cbn in Hs. subst first. left. split; [by destruct fuel|]. intros a nd Ha. by apply elem_of_nil in Ha.
  - destruct Hs as (-> & Ha0 & nd & E & Hs). destruct fuel as [|fuel]; [cbn in Hf; lia|]. cbn [scan_nodes].
    rewrite (proj2 (Z.eqb_neq a 0)) by done. rewrite E, some_bind. pose proof (Hlen a nd ltac:(set_solver) E) as Hl8.
    destruct (find_unused_obj_spec (Z.to_nat SLAB_MAX_OBJ) 0 (used nd)) as [[Ef Hall]|(j & Ef & Hj & E0)]; [lia|rewrite Hl8; done| |]; rewrite Ef, some_bind.
    + destruct (IH fuel (sn_next nd) Hs) as [[Es Hfull]|(b & nb & i & Hb & Hr)]; [cbn in Hf; lia|intros b nb Hb; apply Hlen; set_solver| |].
      * left. split; [done|]. intros b nb Hb Eb. apply elem_of_cons in Hb as [->|Hb]; [|by eapply Hfull].
        assert (nb = nd) as -> by congruence. intros i u Hu. eapply Hall; [|exact Hu]. apply zlookup_Some_lt in Hu. lia.
      * right. exists b, nb, i. split; [set_solver|done].
    + right. exists a, nd, j. split; [set_solver|]. split; [done|]. split; [lia|]. split; [done|]. rewrite zupdate_total by lia. rewrite some_bind.
      unfold on_node. rewrite E, !some_bind. unfold on_cache. cbn [sl_caches upd_nodes]. rewrite Hk, !some_bind. reflexivity.
Qed.

Lemma free_nodes_spec s c k l fuel first ptr : sl_caches s !! c = Some k → sll (sl_nodes s) first l → (length l <= fuel)%nat →
  (∀ a nd, a ∈ l → sl_nodes s !! a = Some nd → length (used nd) = 8%nat) →
  (free_nodes fuel c first ptr s = Some (s, - ENOSYS) ∧ ptr ∉ chain_live (sl_nodes s) l) ∨
  ∃ a nd i u, a ∈ l ∧ sl_nodes s !! a = Some nd ∧ 0 <= i < 8 ∧ (used nd).[i] = Some u ∧ u ≠ 0 ∧ object a i = ptr ∧
    free_nodes fuel c first ptr s = Some (with_flag a nd (<[Z.to_nat i := 0]> (used nd)) c k (u64 (alloc_count k - 1)) s, KERNEL_OK).
Proof.
  intros Hk. revert fuel first. induction l as [|a l IH]; intros fuel first Hs Hf Hlen.
  - cbn in Hs. subst first. left. split; [by destruct fuel|]. intros Hp. by apply elem_of_nil in Hp.
  - destruct Hs as (-> & Ha0 & nd & E & Hs). destruct fuel as [|fuel]; [cbn in Hf; lia|]. cbn [free_nodes].
    rewrite (proj2 (Z.eqb_neq a 0)) by done. rewrite E, some_bind. pose proof (Hlen a nd ltac:(set_solver) E) as Hl8.
    destruct (find_used_obj_spec (Z.to_nat SLAB_MAX_OBJ) 0 a ptr (used nd)) as [[Ef Hall]|(j & u & Ef & Hj & E0 & Hu & Ho)]; [lia|rewrite Hl8; done| |]; rewrite Ef, some_bind.
    + destruct (IH fuel (sn_next nd) Hs) as [[Es Hnot]|(b & nb & i & u & Hb & Hr)]; [cbn in Hf; lia|intros b nb Hb; apply Hlen; set_solver| |].
      * left. split; [done|]. unfold chain_live. rewrite bind_cons, E. cbn. rewrite elem_of_app. intros [Hp|Hp]; [|by apply Hnot].
        apply node_live_in in Hp as (i & u & Hi & Eu & Hu & ->). by apply (Hall i u); [lia|..].
      * right. exists b, nb, i, u. split; [set_solver|done].
    + right. exists a, nd, j, u. split; [set_solver|]. split; [done|]. split; [lia|]. do 3 (split; [done|]). rewrite zupdate_total by lia. rewrite some_bind.
      unfold on_node. rewrite E, !some_bind. unfold on_cache. cbn [sl_caches upd_nodes]. rewrite Hk, !some_bind. reflexivity.
Qed.

Section ops.
Context (base n : Z) (HL : mem_layout base n) (H48 : base + n * CONFIG_PAGE_SIZE <= 2 ^ 48).
Notation slab_inv := (slab_inv base n).

Implicit Types (s : slab) (L : Z → list Z) (P : gmap Z (Z * Z)) (others : gmap Z Z).

(** The objects of each cache that are in use. *)
Definition view s L (c : Z) : list Z := chain_live (sl_nodes s) (L c).

Lemma used_length s L P others c : slab_inv s L P others → ∀ a nd, a ∈ L c → sl_nodes s !! a = Some nd → length (used nd) = 8%nat.
Proof. intros HI a nd Ha E. destruct (si_node _ _ s L P others HI c a Ha) as (nd' & E' & _ & _ & [Hl _]). by assert (nd' = nd) as <- by congruence. Qed.

Lemma flags_set l i v : flags_ok l → v = 0 ∨ v = 1 → flags_ok (<[i := v]> l).
Proof. intros [H1 H2] Hv. split; [by rewrite length_insert|by apply Forall_insert]. Qed.

Lemma u64_succ_len (m : nat) : u64 (u64 (Z.of_nat m) + 1) = u64 (Z.of_nat (S m)).
Proof. unfold u64. rewrite Zplus_mod_idemp_l. f_equal. lia. Qed.

Lemma u64_pred_len (m : nat) : u64 (u64 (Z.of_nat (S m)) - 1) = u64 (Z.of_nat m).
Proof. unfold u64. rewrite Zminus_mod_idemp_l. f_equal. lia. Qed.

(** A scan takes an object that was not in use, or finds every node full. *)
Lemma alloc_scan_spec s L P others c : slab_inv s L P others → is_Some (sl_caches s !! c) →
  (alloc_scan c s = Some (s, None) ∧ ∀ a nd, a ∈ L c → sl_nodes s !! a = Some nd → node_full nd) ∨
  ∃ s' a i, alloc_scan c s = Some (s', Some (object a i)) ∧ a ∈ L c ∧ 0 <= i < 8 ∧ slab_inv s' L P others ∧
    view s' L c ≡ₚ object a i :: view s L c ∧ (∀ c', c' ≠ c → view s' L c' = view s L c') ∧ is_Some (sl_caches s' !! c).
Proof.
  intros HI [k Hk]. pose proof (si_cache _ _ _ _ _ _ HI c k Hk) as [C1 C2 C3 _]. unfold alloc_scan. rewrite Hk, some_bind.
  destruct (scan_nodes_spec s c k (L c) (size (sl_nodes s)) (slabs k) Hk C1 (chain_fuel _ _ _ _ _ _ HI c k Hk) (used_length s L P others c HI))
    as [Hf|(a & nd & i & Ha & E & Hi & E0 & ->)]; [by left|right].
  pose proof (used_length s L P others c HI a nd Ha E) as Hl8. destruct (si_node _ _ s L P others HI c a Ha) as (nd' & E' & _ & _ & Hfl).
  assert (nd' = nd) as -> by congruence. set (l := <[Z.to_nat i := 1]> (used nd)).
  assert (chain_live (<[a := set_used l nd]> (sl_nodes s)) (L c) ≡ₚ object a i :: chain_live (sl_nodes s) (L c)) as HV.
  { apply (chain_live_change _ _ a nd); [done|done|done|]. apply (node_live_take a nd i l Hl8 Hi E0 eq_refl). }
  eexists _, a, i. split; [reflexivity|]. split; [done|]. split; [done|]. split; [|split; [exact HV|split]].
  - apply flag_inv; [done..|by apply flags_set; [|right]|]. rewrite HV, C3. apply u64_succ_len.
  - intros c' Hne. by eapply flag_other.
  - cbn. rewrite lookup_insert_eq. done.
Qed.

(** An object in use is given back; anything else is refused and changes nothing. *)
Lemma slab_free_spec s L P others c ptr : slab_inv s L P others → is_Some (sl_caches s !! c) → ptr ≠ 0 →
  (slab_free (Some c) ptr s = Some (s, - ENOSYS) ∧ ptr ∉ view s L c) ∨
  ∃ s', slab_free (Some c) ptr s = Some (s', KERNEL_OK) ∧ slab_inv s' L P others ∧
    view s L c ≡ₚ ptr :: view s' L c ∧ (∀ c', c' ≠ c → view s' L c' = view s L c').
Proof.
  intros HI [k Hk] Hp. pose proof (si_cache _ _ _ _ _ _ HI c k Hk) as [C1 C2 C3 _]. unfold slab_free. rewrite (proj2 (Z.eqb_neq _ _) Hp), Hk, some_bind.
  destruct (free_nodes_spec s c k (L c) (size (sl_nodes s)) (slabs k) ptr Hk C1 (chain_fuel _ _ _ _ _ _ HI c k Hk) (used_length s L P others c HI))
    as [Hf|(a & nd & i & u & Ha & E & Hi & Eu & Hu & <- & ->)]; [by left|right].
  pose proof (used_length s L P others c HI a nd Ha E) as Hl8. destruct (si_node _ _ s L P others HI c a Ha) as (nd' & E' & _ & _ & Hfl).
  assert (nd' = nd) as -> by congruence. set (l := <[Z.to_nat i := 0]> (used nd)).
  assert (chain_live (sl_nodes s) (L c) ≡ₚ object a i :: chain_live (<[a := set_used l nd]> (sl_nodes s)) (L c)) as HV.
  { pose proof (chain_live_change (<[a := set_used l nd]> (sl_nodes s)) (L c) a (set_used l nd) nd (object a i) C2 Ha) as HC.
    rewrite insert_insert_eq, (insert_id (sl_nodes s) a nd E) in HC. apply HC; [apply lookup_insert_eq|]. by apply (node_live_give a nd i u). }
  eexists. split; [reflexivity|]. split; [|split; [exact HV|]].
  - apply flag_inv; [done..|by apply flags_set; [|left]|]. rewrite C3, HV. apply u64_pred_len.
  - intros c' Hne. by eapply flag_other.
Qed.

(** ** Pages *)

Lemma order_loop_spec size fuel o : size <= 2 ^ 63 → 0 <= o → 51 <= o + Z.of_nat fuel → (o = 0 ∨ 4096 * 2 ^ (o - 1) < size) →
  ∃ r, order_loop fuel (4096 * 2 ^ o) size o = Some r ∧ 0 <= r ∧ size <= 4096 * 2 ^ r ∧ (r = 0 ∨ 4096 * 2 ^ (r - 1) < size).
Proof.
  revert o. induction fuel as [|fuel IH]; intros o Hs Ho Hf Hmin; cbn [order_loop].
  - destruct (Z.ltb_spec (4096 * 2 ^ o) size) as [Hlt|]; [|by exists o]. exfalso.
    assert (2 ^ 51 <= 2 ^ o) by (apply Z.pow_le_mono_r; lia). assert (2 ^ 63 = 4096 * 2 ^ 51) by done. lia.
  - destruct (Z.ltb_spec (4096 * 2 ^ o) size) as [Hlt|]; [|by exists o].
    assert (2 ^ o < 2 ^ 51) as Hp by (assert (2 ^ 63 = 4096 * 2 ^ 51) by done; lia). apply Z.pow_lt_mono_r_iff in Hp; [|lia..].
    assert (2 ^ (o + 1) = 2 * 2 ^ o) as Hpow by (rewrite Z.pow_add_r by lia; lia).
    assert (2 ^ (o + 1) <= 2 ^ 51) by (apply Z.pow_le_mono_r; lia). pose proof (Z.pow_pos_nonneg 2 o ltac:(lia) Ho).
    replace (u64 (Z.shiftl (4096 * 2 ^ o) 1)) with (4096 * 2 ^ (o + 1)).
    2: { rewrite Z.shiftl_mul_pow2 by lia. rewrite u64_small; [lia|]. assert (2 ^ 64 = 8192 * 2 ^ 51) by done. lia. }
    replace (u32 (o + 1)) with (o + 1) by (rewrite u32_small; [done|lia]).
    apply IH; [done|lia|lia|]. right. by replace (o + 1 - 1) with o by lia.
Qed.

(** The smallest order that holds [size] bytes. *)
Lemma size_to_order_spec size : size <= 2 ^ 63 →
  ∃ r, slab_size_to_order size = Some r ∧ 0 <= r ∧ size <= CONFIG_PAGE_SIZE * 2 ^ r ∧ (r = 0 ∨ CONFIG_PAGE_SIZE * 2 ^ (r - 1) < size).
Proof. intros Hs. apply (order_loop_spec size 64 0); [done|lia|lia|by left]. Qed.

Lemma slab_alloc_phys_spec s live size : pm_reach base n (sl_pm s) live → size <= 2 ^ 63 →
  slab_alloc_phys size s = Some (s, (0, 0, 0)) ∨
  ∃ m p ord, slab_alloc_phys size s = Some (upd_pm m s, (phys_to_virt p, ord, p)) ∧ slab_size_to_order size = Some ord ∧
    size <= CONFIG_PAGE_SIZE * 2 ^ ord ∧ phys_to_virt p ≠ 0 ∧ 0 < p < 2 ^ 48 ∧ live !! p = None ∧ pm_reach base n m (<[p := ord]> live).
Proof using HL H48.
  intros HR Hs. destruct (size_to_order_spec size Hs) as (ord & Eo & Ho & Hsz & _). unfold slab_alloc_phys. rewrite Eo, some_bind.
  destruct (ord >? MAX_ORDER); [by left|].
  destruct (take_pages_spec base n HL _ live ord HR Ho) as [->|(m & p & -> & Hp & Hlive & HR')]; rewrite some_bind.
  - left. by destruct s.
  - right. rewrite (proj2 (Z.eqb_neq _ _) Hp). exists m, p, ord. destruct (page_range base n HL H48 _ _ p ord HR' (lookup_insert_eq _ _ _)) as [Hr _].
    split_and!; [done|done|done|apply phys_to_virt_ne0; lia|lia|lia|done|done].
Qed.

(** A page just taken holds no node. *)
Lemma fresh_node s L P others live p : slab_inv s L P others → owned (holds s L P others) live → live !! p = None → 0 < p < 2 ^ 48 →
  (∀ c, phys_to_virt p ∉ L c) ∧ (∀ t c, P !! t ≠ Some (c, phys_to_virt p)).
Proof using HL H48.
  intros HI [HO _] Hp Hr.
  assert (∀ w nd, holds s L P others w (node_paddr nd) 0 → node_wf (phys_to_virt p) nd → False) as Hno.
  { intros w nd Hw [Ha _]. destruct (held_page base n HL H48 s L P others HI w _ Hw) as [Hr' _].
    apply phys_to_virt_inj in Ha; [|lia..]. subst p. by rewrite (HO _ _ _ Hw) in Hp. }
  split.
  - intros c Ha. destruct (si_node _ _ _ _ _ _ HI c _ Ha) as (nd & E & Hw). exact (Hno _ nd (node_held s L P others c _ nd Ha E) Hw).
  - intros t c Ha. destruct (si_pend _ _ _ _ _ _ HI t c _ Ha) as (_ & nd & E & Hw & _). exact (Hno _ nd (pend_held s L P others t c _ nd Ha E) Hw).
Qed.

Lemma node_wf_fresh p : node_wf (phys_to_virt p) (SlabNode 0 p 0 (replicate 8 0)).
Proof. split; [done|]. split; [done|]. split; [done|]. apply Forall_replicate. by left. Qed.

(** A node is taken, for CPU [t] to link into cache [c]. *)
Lemma alloc_node_spec s L P others t c : slab_inv s L P others → P !! t = None → is_Some (sl_caches s !! c) →
  alloc_node s = Some (s, 0) ∨
  ∃ s' a, alloc_node s = Some (s', a) ∧ a ≠ 0 ∧ slab_inv s' L (<[t := (c, a)]> P) others ∧
    sl_caches s' = sl_caches s ∧ ∀ c', view s' L c' = view s L c'.
Proof using HL H48.
  intros HI Ht Hc. pose proof HI as [(live & HR & HO) H2 H3 H5]. unfold alloc_node.
  destruct (slab_alloc_phys_spec s live NODE_SIZE HR) as [->|(m & p & ord & -> & Eo & _ & Hne & Hr & Hlive & HR')]; [done|by left|right]. rewrite some_bind.
  assert (ord = 0) as -> by (vm_compute in Eo; by injection Eo). rewrite (proj2 (Z.eqb_neq _ _) Hne).
  destruct (fresh_node s L P others live p HI HO Hlive Hr) as [F1 F2]. set (a := phys_to_virt p) in *.
  set (nd := SlabNode 0 p 0 (replicate 8 0)). eexists _, a. split; [reflexivity|]. split; [done|]. split; [|split; [done|]].
  2: { intros c'. by apply chain_live_other. }
  split; [| |done|]; cbn.
  - exists (<[p := 0]> live). split; [done|]. apply (owned_add (holds s L P others) _ live p 0 (OwnPend t)); [done|done|].
    intros [c'|c' b|t'|q] p' o; [by left| | |by left].
    + intros (Hb & nd' & E & Hq). left. split; [done|]. exists nd'. cbn in E. rewrite lookup_insert_ne in E by (intros <-; by apply (F1 c')). done.
    + intros (c' & b & nd' & Hb & E & -> & ->). cbn in E. destruct (decide (t' = t)) as [->|Htt].
      * right. rewrite lookup_insert_eq in Hb. injection Hb as <- <-. rewrite lookup_insert_eq in E. injection E as <-. done.
      * left. rewrite lookup_insert_ne in Hb by done. rewrite lookup_insert_ne in E by (intros <-; by apply (F2 t' c')). by exists c', b, nd'.
  - intros c' k Hk. eapply chain_ok_ext; [|by apply H2]. intros b Hb. apply lookup_insert_ne. intros <-. by apply (F1 c').
  - intros t' c' b Hb. destruct (decide (t' = t)) as [->|Htt].
    + rewrite lookup_insert_eq in Hb. injection Hb as <- <-. split; [done|]. exists nd. rewrite lookup_insert_eq. split; [done|]. split; [apply node_wf_fresh|done].
    + rewrite lookup_insert_ne in Hb by done. destruct (H5 t' c' b Hb) as (Hc' & nd' & E & Hx). split; [done|]. exists nd'.
      rewrite lookup_insert_ne by (intros <-; by apply (F2 t' c')). done.
Qed.

(** It turns out not to be needed and goes back. *)
Lemma drop_pend_spec s L P others t c a : slab_inv s L P others → P !! t = Some (c, a) →
  ∃ nd m, sl_nodes s !! a = Some nd ∧ phys_mem_free_pages (node_paddr nd) (node_order nd) (sl_pm s) = Some m ∧
    slab_inv (upd_nodes (delete a (sl_nodes s)) (upd_pm m s)) L (delete t P) others ∧ ∀ c', a ∉ L c'.
Proof using HL.
  intros HI Ht. pose proof HI as [(live & HR & HO) H2 H3 H5]. destruct (H5 t c a Ht) as (_ & nd & E & Hw & _).
  assert (holds s L P others (OwnPend t) (node_paddr nd) 0) as Hh by (by eapply pend_held).
  destruct (give_pages_spec base n HL _ live (node_paddr nd) 0 HR) as (m & Em & HR'); [by apply (proj1 HO _ _ _ Hh)|].
  assert (∀ c', a ∉ L c') as Hout by (intros c'; by eapply pend_apart). pose proof Hw as (_ & Ho & _).
  exists nd, m. rewrite Ho. split; [done|]. split; [done|]. split; [|done]. split; [| |done|]; cbn.
  - exists (delete (node_paddr nd) live). split; [done|]. eapply owned_del; [exact HO|exact Hh|]. intros [c'|c' b|t'|q] p' o; [by split|..|by split].
    + intros (Hb & nd' & E' & Hq). split; [|done]. split; [done|]. cbn in E'. apply lookup_delete_Some in E' as [_ E']. by exists nd'.
    + intros (c' & b & nd' & Hb & E' & Hq). cbn in E'. apply lookup_delete_Some in E' as [_ E']. apply lookup_delete_Some in Hb as [Htt Hb].
      split; [by exists c', b, nd'|]. by intros [= ->].
  - intros c' k Hk. eapply chain_ok_ext; [|by apply H2]. intros b Hb. apply lookup_delete_ne. intros ->. by apply (Hout c').
  - intros t' c' b Hb. apply lookup_delete_Some in Hb as [Htt Hb]. destruct (H5 t' c' b Hb) as (Hc' & nd' & E' & Hx). split; [done|]. exists nd'.
    rewrite lookup_delete_ne; [done|]. intros ->. by apply Htt; eapply pend_inj.
Qed.

(** ** Linking a node *)

Definition set_chain L (c : Z) (l : list Z) : Z → list Z := λ c', if decide (c' = c) then l else L c'.

Lemma set_chain_eq L c l : set_chain L c l c = l.
Proof. unfold set_chain. by rewrite decide_True. Qed.
Lemma set_chain_ne L c l c' : c' ≠ c → set_chain L c l c' = L c'.
Proof. intros. unfold set_chain. by rewrite decide_False. Qed.

(** The nodes after [a] was hung behind the last node of [l]. *)
Definition linked (h : gmap Z slab_node_t) (l : list Z) (a : Z) : gmap Z slab_node_t :=
  match last l with Some b => alter (set_sn_next a) b h | None => h end.

Lemma linked_ne h l a x : x ∉ l → linked h l a !! x = h !! x.
Proof.
  intros Hx. unfold linked. destruct (last l) as [b|] eqn:E; [|done]. apply lookup_alter_ne. intros ->. apply Hx.
  apply last_Some in E as [l' ->]. set_solver.
Qed.

Lemma linked_lookup h l a x nd : linked h l a !! x = Some nd → ∃ nd0, h !! x = Some nd0 ∧ node_paddr nd = node_paddr nd0 ∧ node_order nd = node_order nd0 ∧ used nd = used nd0.
Proof.
  unfold linked. destruct (last l) as [b|]; [|by exists nd]. destruct (decide (b = x)) as [->|Hne]; [|rewrite lookup_alter_ne by done; by exists nd].
  rewrite lookup_alter_eq. destruct (h !! x) as [nd0|]; [|done]. intros [= <-]. by exists nd0.
Qed.

Lemma linked_live h l l' a : chain_live (linked h l a) l' = chain_live h l'.
Proof.
  apply bind_ext_in. intros x _. unfold linked. destruct (last l) as [b|]; [|done]. destruct (decide (b = x)) as [->|Hne]; [|by rewrite lookup_alter_ne].
  rewrite lookup_alter_eq. by destruct (h !! x).
Qed.

Lemma alter_insert_Some (f : slab_node_t → slab_node_t) (h : gmap Z slab_node_t) b nb : h !! b = Some nb → alter f b h = <[b := f nb]> h.
Proof. intros E. apply map_eq. intros x. destruct (decide (b = x)) as [->|Hx]; [by rewrite lookup_alter_eq, E, lookup_insert_eq|by rewrite lookup_alter_ne, lookup_insert_ne]. Qed.

Lemma linked_sll h first l a : sll h first l → NoDup l → a ∉ l → a ≠ 0 → (sn_next <$> h !! a) = Some 0 →
  sll (linked h l a) (if first =? 0 then a else first) (l ++ [a]).
Proof.
  intros Hs Hn Ha Ha0 Hna. destruct l as [|b l] using rev_ind.
  - cbn in Hs. subst first. cbn. split; [done|]. split; [done|]. destruct (h !! a) as [nd|]; [|done]. exists nd. split; [done|]. by injection Hna.
  - destruct (sll_dom h first _ b Hs ltac:(set_solver)) as [[nb Eb] Hb0]. assert (first ≠ 0) as Hf.
    { destruct l; cbn in Hs; destruct Hs as (-> & ? & _); done. }
    rewrite (proj2 (Z.eqb_neq _ _) Hf). unfold linked. rewrite last_snoc.
    assert (alter (set_sn_next a) b h = <[b := set_sn_next a nb]> h) as -> by (by apply alter_insert_Some).
    by apply sll_snoc.
Qed.

Definition with_node (s : slab) (c : Z) (k : slab_cache_t) (l : list Z) (a : Z) : slab :=
  upd_caches (<[c := set_slabs (if slabs k =? 0 then a else slabs k) (u64 (num_slabs k + 1)) k]> (sl_caches s)) (upd_nodes (linked (sl_nodes s) l a) s).

Lemma with_node_inv s L P others t c k a : slab_inv s L P others → P !! t = Some (c, a) → sl_caches s !! c = Some k → a ≠ 0 →
  slab_inv (with_node s c k (L c) a) (set_chain L c (L c ++ [a])) (delete t P) others.
Proof.
  intros HI Ht Hk Ha0. pose proof HI as [(live & HR & HO) H2 H3 H5]. destruct (H5 t c a Ht) as (_ & nd & E & Hw & Hu & Hnx).
  assert (∀ c', a ∉ L c') as Hout by (intros c'; by eapply pend_apart). destruct (H2 c k Hk) as [C1 C2 C3 C4]. split.
  - exists live. split; [done|]. apply (owned_move (holds s L P others) _ live (node_paddr nd) 0 (OwnPend t) (OwnNode c a)); [done|by eapply pend_held|].
    intros [c'|c' b|t'|q] p' o.
    + intros (k' & E' & Hp). left. split; [|done]. cbn in E'. destruct (decide (c' = c)) as [->|Hne]; [rewrite lookup_insert_eq in E'; injection E' as <-; by exists k|].
      rewrite lookup_insert_ne in E' by done. by exists k'.
    + intros (Hb & nd' & E' & -> & ->). destruct (linked_lookup _ _ _ _ _ E') as (nd0 & E0 & -> & _). destruct (decide (b = a)) as [->|Hba].
      * right. assert (nd0 = nd) as -> by congruence. split; [|done]. f_equal. destruct (decide (c' = c)) as [->|Hne]; [done|].
        rewrite set_chain_ne in Hb by done. by apply Hout in Hb.
      * left. split; [|done]. split; [|by exists nd0]. destruct (decide (c' = c)) as [->|Hne]; [rewrite set_chain_eq in Hb; set_solver|by rewrite set_chain_ne in Hb].
    + intros (c' & b & nd' & Hb & E' & -> & ->). destruct (linked_lookup _ _ _ _ _ E') as (nd0 & E0 & -> & _). apply lookup_delete_Some in Hb as [Htt Hb].
      left. split; [by exists c', b, nd0|]. by intros [= ->].
    + by left.
  - intros c' k' E'. cbn in E'. destruct (decide (c' = c)) as [->|Hne].
    + rewrite lookup_insert_eq in E'. injection E' as <-. rewrite set_chain_eq. split.
      * apply linked_sll; [done|done|apply Hout|done|]. rewrite E. cbn. by rewrite Hnx.
      * apply NoDup_app. split; [done|]. split; [|apply NoDup_singleton]. intros x Hx ->%list_elem_of_singleton. by apply (Hout c).
      * cbn. rewrite linked_live. unfold chain_live. rewrite bind_app, bind_cons, E. cbn. unfold node_live at 2. rewrite Hu. cbn. by rewrite app_nil_r.
      * intros x Hx. cbn. destruct (decide (x ∈ L c)) as [Hin|Hnin].
        -- destruct (sll_dom _ _ _ _ (linked_sll _ _ _ a C1 C2 (Hout c) Ha0 ltac:(rewrite E; cbn; by rewrite Hnx)) Hx) as [[nx Ex] _].
           exists nx. split; [done|]. destruct (linked_lookup _ _ _ _ _ Ex) as (nd0 & E0 & P1 & P2 & P3). destruct (C4 x Hin) as (nd1 & E1 & W1 & W2 & W3).
           assert (nd1 = nd0) as -> by congruence. unfold node_wf. by rewrite P1, P2, P3.
        -- assert (x = a) as -> by set_solver. rewrite linked_ne by done. by exists nd.
    + rewrite lookup_insert_ne in E' by done. rewrite set_chain_ne by done. eapply chain_ok_ext; [|by apply H2]. intros b Hb. cbn. apply linked_ne.
      intros Hb'. by apply Hne, (nodes_apart _ _ _ _ _ _ HI c' c b).
  - intros c' Hc'. cbn in Hc'. apply lookup_insert_None in Hc' as [Hc' Hne]. rewrite set_chain_ne by done. by apply H3.
  - intros t' c' b Hb. apply lookup_delete_Some in Hb as [Htt Hb]. destruct (H5 t' c' b Hb) as (Hc' & nd' & E' & Hx). split.
    + cbn. destruct (decide (c' = c)) as [->|Hne]; [by rewrite lookup_insert_eq|by rewrite lookup_insert_ne].
    + exists nd'. cbn. rewrite linked_ne; [done|]. by eapply pend_apart.
Qed.

Lemma link_eq s L P others c k a : slab_inv s L P others → sl_caches s !! c = Some k →
  (s1 ← (if slabs k =? 0 then on_cache c (set_slabs a (num_slabs k)) s
         else last ← last_node (size (sl_nodes s)) (slabs k) s; on_node last (set_sn_next a) s);
   on_cache c (λ k, set_slabs (slabs k) (u64 (num_slabs k + 1)) k) s1) = Some (with_node s c k (L c) a).
Proof.
  intros HI Hk. pose proof (si_cache _ _ _ _ _ _ HI c k Hk) as [C1 C2 _ _]. unfold with_node. destruct (L c) as [|b l] eqn:EL using rev_ind.
  - cbn in C1. rewrite C1. cbn [Z.eqb]. unfold on_cache at 2. rewrite Hk, !some_bind. unfold on_cache. cbn. rewrite lookup_insert_eq. cbn. rewrite insert_insert_eq. by destruct s.
  - destruct (sll_dom _ _ _ b C1 ltac:(set_solver)) as [[nb Eb] Hb0]. assert (slabs k ≠ 0) as Hf.
    { destruct l; cbn in C1; destruct C1 as (-> & ? & _); done. }
    rewrite (proj2 (Z.eqb_neq _ _) Hf). rewrite (last_node_spec s _ (slabs k) l b C1).
    2: { pose proof (sll_length _ _ _ C1 C2) as Hlen. rewrite length_app in Hlen. lia. }
    rewrite some_bind. unfold on_node. rewrite Eb, !some_bind. unfold on_cache. cbn. rewrite Hk, some_bind. unfold linked. rewrite last_snoc.
    by rewrite (alter_insert_Some _ _ _ _ Eb).
Qed.

(** CPU [t] finishes: it takes an object that others have freed meanwhile, or
    the first one of its node. *)
Lemma alloc_link_spec s L P others t c a : slab_inv s L P others → P !! t = Some (c, a) → a ≠ 0 →
  ∃ s' L' b i, alloc_link c a s = Some (s', object b i) ∧ slab_inv s' L' (delete t P) others ∧ b ∈ L' c ∧ 0 <= i < 8 ∧
    view s' L' c ≡ₚ object b i :: view s L c ∧ ∀ c', c' ≠ c → view s' L' c' = view s L c'.
Proof using HL H48.
  intros HI Ht Ha0. destruct (si_pend _ _ _ _ _ _ HI t c a Ht) as (Hc & nd & E & Hw & Hu & Hnx). unfold alloc_link.
  destruct (alloc_scan_spec s L P others c HI Hc) as [[-> _]|(s1 & b & i & -> & Hb & Hi & HI1 & HV & HV' & _)]; rewrite some_bind.
  - destruct Hc as [k Hk]. rewrite Hk, some_bind. apply (link_eq s L P others c k a HI) in Hk as Elink.
    apply bind_Some in Elink as (s0 & El1 & El2). rewrite El1, some_bind, El2, some_bind.
    pose proof (with_node_inv s L P others t c k a HI Ht Hk Ha0) as HI1. set (s1 := with_node s c k (L c) a) in *. set (L1 := set_chain L c (L c ++ [a])) in *.
    assert (∀ c', a ∉ L c') as Hout by (intros c'; by eapply pend_apart).
    assert (sl_nodes s1 !! a = Some nd) as E1 by (cbn; by rewrite linked_ne).
    assert (a ∈ L1 c) as Ha1 by (unfold L1; rewrite set_chain_eq; set_solver).
    assert (sl_caches s1 !! c = Some (set_slabs (if slabs k =? 0 then a else slabs k) (u64 (num_slabs k + 1)) k)) as Hk1 by apply lookup_insert_eq.
    assert (flags_ok (used nd)) as Hfl by apply Hw. assert (length (used nd) = 8%nat) as Hl8 by apply Hfl.
    assert ((used nd).[0] = Some 0) as E00 by (by rewrite Hu).
    rewrite E1, some_bind, zupdate_total, some_bind by lia. unfold on_node. rewrite E1, !some_bind. unfold on_cache. cbn [sl_caches upd_nodes]. rewrite Hk1, !some_bind.
    pose proof (co_nodup _ _ _ (si_cache _ _ _ _ _ _ HI1 c _ Hk1)) as Hnd1.
    pose proof (chain_live_change (sl_nodes s1) (L1 c) a nd _ (object a 0) Hnd1 Ha1 E1 (node_live_take a nd 0 _ Hl8 ltac:(lia) E00 eq_refl)) as HV.
    assert (view s1 L1 c = view s L c) as Hsame.
    { unfold view, L1. rewrite set_chain_eq. cbn. rewrite linked_live. unfold chain_live. rewrite bind_app, bind_cons, E. cbn. unfold node_live at 2. rewrite Hu. cbn. by rewrite app_nil_r. }
    eexists _, L1, a, 0. split; [reflexivity|]. split; [|split; [done|split; [lia|split]]].
    + eapply flag_inv; [exact HI1|exact Hk1|done|done|by apply flags_set; [|right]|]. rewrite HV. fold (view s1 L1 c). rewrite Hsame.
      pose proof (co_count _ _ _ (si_cache _ _ _ _ _ _ HI c k Hk)) as C3. cbn. rewrite C3. apply u64_succ_len.
    + rewrite <- Hsame. exact HV.
    + intros c' Hne. trans (view s1 L1 c'); [by apply (flag_other base n s1 L1 (delete t P) others a nd _ c _ _ c' HI1)|].
      unfold view, L1. rewrite set_chain_ne by done. apply linked_live.
  - destruct (drop_pend_spec s1 L P others t c a HI1 Ht) as (nd1 & m & E1 & Em & HI2 & Hout). rewrite E1, some_bind, Em, some_bind.
    eexists _, L, b, i. split; [reflexivity|]. split; [exact HI2|]. split; [done|]. split; [done|]. split.
    + unfold view at 1. cbn. by rewrite chain_live_delete.
    + intros c' Hne. unfold view at 1. cbn. rewrite chain_live_delete by done. by apply HV'.
Qed.

(** ** Creating and destroying a cache *)

(** A cache that is not in use gets a pool; it has no objects. *)
Lemma slab_create_spec s L P others c size : slab_inv s L P others → 0 < size <= 2 ^ 63 →
  (∀ k, sl_caches s !! c = Some k → k = zero_cache) →
  slab_create (Some c) size s = Some (s, - ENOMEM) ∨
  ∃ s', slab_create (Some c) size s = Some (s', KERNEL_OK) ∧ slab_inv s' L P others ∧ (∀ c', view s' L c' = view s L c') ∧ view s' L c = [] ∧
    (∀ c', c' ≠ c → sl_caches s' !! c' = sl_caches s !! c').
Proof using HL H48.
  intros HI Hs Hz. pose proof HI as [(live & HR & HO) H2 H3 H5]. unfold slab_create. rewrite (proj2 (Z.eqb_neq size 0)) by lia.
  destruct (slab_alloc_phys_spec s live size HR) as [->|(m & p & ord & -> & Eo & _ & Hne & Hr & Hlive & HR')]; [lia|by left|right]. rewrite some_bind.
  rewrite (proj2 (Z.eqb_neq _ _) Hne). assert (L c = []) as HLc.
  { destruct (sl_caches s !! c) as [k|] eqn:Hk; [|by apply H3]. destruct (H2 c k Hk) as [C1 _ _ _]. rewrite (Hz k eq_refl) in C1.
    destruct (L c) as [|a l]; [done|]. cbn in C1. destruct C1 as (<- & ? & _). done. }
  eexists. split; [reflexivity|]. split; [|split; [done|split; [unfold view; by rewrite HLc|intros c' Hcc; by apply lookup_insert_ne]]]. split; cbn.
  - exists (<[p := ord]> live). split; [done|]. apply (owned_add (holds s L P others) _ live p ord (OwnPool c)); [done|done|].
    intros [c'|c' b|t'|q] p' o; [|by left..]. intros (k & E & Hk). cbn in E. destruct (decide (c' = c)) as [->|Hcc].
    + rewrite lookup_insert_eq in E. injection E as <-. right. split; [done|apply Hk].
    + rewrite lookup_insert_ne in E by done. left. by exists k.
  - intros c' k E. destruct (decide (c' = c)) as [->|Hcc]; [|rewrite lookup_insert_ne in E by done; by apply H2].
    rewrite lookup_insert_eq in E. injection E as <-. rewrite HLc. split; [done|apply NoDup_nil_2|done|]. intros a Ha. by apply elem_of_nil in Ha.
  - intros c' Hc'. apply lookup_insert_None in Hc' as [Hc' _]. by apply H3.
  - intros t c' a Ha. destruct (H5 t c' a Ha) as [Hc' Hp]. split; [|done].
    destruct (decide (c' = c)) as [->|Hne']; [by rewrite lookup_insert_eq|by rewrite lookup_insert_ne].
Qed.

Lemma set_chain_id L c c' : set_chain L c (L c) c' = L c'.
Proof. unfold set_chain. by destruct (decide (c' = c)) as [->|]. Qed.

(** The first node of a cache goes. *)
Lemma drop_node s L P others c k a l : slab_inv s L P others → sl_caches s !! c = Some k → L c = a :: l →
  ∃ nd m k', sl_nodes s !! a = Some nd ∧ slabs k = a ∧ a ≠ 0 ∧ phys_mem_free_pages (node_paddr nd) (node_order nd) (sl_pm s) = Some m ∧
    slabs k' = sn_next nd ∧ pool k' = pool k ∧ pool_paddr k' = pool_paddr k ∧ pool_order k' = pool_order k ∧
    slab_inv (upd_caches (<[c := k']> (sl_caches s)) (upd_nodes (delete a (sl_nodes s)) (upd_pm m s))) (set_chain L c l) P others ∧
    ∀ c', c' ≠ c → a ∉ L c'.
Proof using HL H48.
  intros HI Hk EL. pose proof HI as [(live & HR & HO) H2 H3 H5]. destruct (H2 c k Hk) as [C1 C2 C3 C4]. rewrite EL in *.
  destruct C1 as (Hsl & Ha0 & nd & E & C1). apply NoDup_cons in C2 as [Hal C2].
  assert (holds s L P others (OwnNode c a) (node_paddr nd) 0) as Hh by (apply node_held; [rewrite EL; set_solver|done]).
  destruct (give_pages_spec base n HL _ live (node_paddr nd) 0 HR) as (m & Em & HR'); [by apply (proj1 HO _ _ _ Hh)|].
  assert (∀ c', c' ≠ c → a ∉ L c') as Hout. { intros c' Hne Ha. apply Hne, (nodes_apart _ _ _ _ _ _ HI c' c a Ha). rewrite EL. set_solver. }
  destruct (C4 a ltac:(set_solver)) as (nd' & E' & _ & Ho & _). assert (nd' = nd) as -> by congruence.
  set (count := u64 (Z.of_nat (length (chain_live (sl_nodes s) l)))). exists nd, m, (set_alloc count (set_slabs (sn_next nd) 0 k)). rewrite Ho.
  split_and!; [done..| |done]. split; cbn.
  - exists (delete (node_paddr nd) live). split; [done|]. eapply owned_del; [exact HO|exact Hh|]. intros [c'|c' b|t'|q] p' o.
    + intros (k' & E1 & Hp). split; [|done]. cbn in E1. destruct (decide (c' = c)) as [->|Hne]; [rewrite lookup_insert_eq in E1; injection E1 as <-; by exists k|].
      rewrite lookup_insert_ne in E1 by done. by exists k'.
    + intros (Hb & nd' & E1 & Hq). cbn in E1. apply lookup_delete_Some in E1 as [Hne E1]. split; [|by intros [= _ ->]]. split; [|by exists nd'].
      destruct (decide (c' = c)) as [->|Hcc]; [rewrite set_chain_eq in Hb; rewrite EL; set_solver|by rewrite set_chain_ne in Hb].
    + intros (c' & b & nd' & Hb & E1 & Hq). cbn in E1. apply lookup_delete_Some in E1 as [Hne E1]. split; [by exists c', b, nd'|done].
    + intros Hq. by split.
  - intros c' k' E1. destruct (decide (c' = c)) as [->|Hne].
    + rewrite lookup_insert_eq in E1. injection E1 as <-. rewrite set_chain_eq. apply (chain_ok_ext (sl_nodes s)).
      * intros b Hb. apply lookup_delete_ne. intros ->. done.
      * split; [done|done|done|]. intros b Hb. apply C4. set_solver.
    + rewrite lookup_insert_ne in E1 by done. rewrite set_chain_ne by done. eapply chain_ok_ext; [|by apply H2]. intros b Hb. apply lookup_delete_ne.
      intros ->. by apply (Hout c').
  - intros c' Hc'. apply lookup_insert_None in Hc' as [Hc' Hne]. rewrite set_chain_ne by done. by apply H3.
  - intros t c' b Hb. destruct (H5 t c' b Hb) as (Hc' & nd' & E1 & Hx). split.
    + destruct (decide (c' = c)) as [->|Hne]; [by rewrite lookup_insert_eq|by rewrite lookup_insert_ne].
    + exists nd'. rewrite lookup_delete_ne; [done|]. intros ->. apply (pend_apart _ _ _ _ _ _ HI t c' b c Hb). rewrite EL. set_solver.
Qed.

Lemma slab_inv_chains s L L' P others : slab_inv s L P others → (∀ c, L' c = L c) → slab_inv s L' P others.
Proof.
  intros [(live & HR & HO) H2 H3 H5] He. split; [|intros c; rewrite He; apply H2|intros c; rewrite He; apply H3|done].
  exists live. split; [done|]. eapply owned_weaken; [exact HO|]. intros [c'|c' b|t'|q] p' o; [done| |done|done]. cbn. by rewrite He.
Qed.

Lemma destroy_nodes_spec P others c l : ∀ fuel s L k, slab_inv s L P others → sl_caches s !! c = Some k → L c = l → (length l <= fuel)%nat →
  ∃ s' k', (∀ C, destroy_nodes fuel (slabs k) (upd_caches C s) = Some (upd_caches C s')) ∧ slab_inv s' (set_chain L c []) P others ∧
    sl_caches s' !! c = Some k' ∧ pool k' = pool k ∧ pool_paddr k' = pool_paddr k ∧ pool_order k' = pool_order k ∧
    (∀ c', c' ≠ c → sl_caches s' !! c' = sl_caches s !! c' ∧ view s' L c' = view s L c').
Proof using HL H48.
  induction l as [|a l IH]; intros fuel s L k HI Hk EL Hf.
  - exists s, k. destruct (si_cache _ _ _ _ _ _ HI c k Hk) as [C1 _ _ _]. rewrite EL in C1. cbn in C1. rewrite C1. split; [by destruct fuel|].
    split; [|done]. eapply slab_inv_chains; [exact HI|]. intros c'. rewrite <- EL. apply set_chain_id.
  - destruct (drop_node s L P others c k a l HI Hk EL) as (nd & m & k1 & E & Hsl & Ha0 & Em & Hs1 & Q1 & Q2 & Q3 & HI1 & Hout).
    destruct fuel as [|fuel]; [cbn in Hf; lia|]. set (s1 := upd_caches _ _) in HI1.
    destruct (IH fuel s1 (set_chain L c l) k1 HI1) as (s' & k' & Hd & HI' & Hk' & R1 & R2 & R3 & Hoth); [apply lookup_insert_eq|apply set_chain_eq|cbn in Hf; lia|].
    exists s', k'. split; [|split; [|split; [done|split; [congruence|split; [congruence|split; [congruence|]]]]]].
    + intros C. cbn [destroy_nodes]. rewrite Hsl, (proj2 (Z.eqb_neq _ _) Ha0). cbn [sl_nodes sl_pm upd_caches]. rewrite E, some_bind, Em, some_bind, <- Hs1. exact (Hd C).
    + eapply slab_inv_chains; [exact HI'|]. intros c'. unfold set_chain. by destruct (decide (c' = c)).
    + intros c' Hne. destruct (Hoth c' Hne) as [-> Hv]. split; [by apply lookup_insert_ne|]. unfold view in *. rewrite set_chain_ne in Hv by done. rewrite Hv.
      unfold s1. cbn. by apply chain_live_delete, Hout.
Qed.

Lemma drop_pool s L P others c k : slab_inv s L P others → sl_caches s !! c = Some k → L c = [] →
  ∃ m, (if negb (pool k =? 0) && negb (pool_paddr k =? 0) then
          m ← phys_mem_free_pages (pool_paddr k) (pool_order k) (sl_pm s); Some (upd_pm m s)
        else Some s) = Some (upd_pm m s) ∧
    slab_inv (upd_caches (<[c := zero_cache]> (sl_caches s)) (upd_pm m s)) L P others.
Proof using HL H48.
  intros HI Hk EL. pose proof HI as [(live & HR & HO) H2 H3 H5].
  assert (∀ m live', pm_reach base n m live' → owned (holds (upd_caches (<[c := zero_cache]> (sl_caches s)) (upd_pm m s)) L P others) live' →
    slab_inv (upd_caches (<[c := zero_cache]> (sl_caches s)) (upd_pm m s)) L P others) as Hrest.
  { intros m live' HR' HO'. split; [by exists live'|..]; cbn.
    - intros c' k' E. destruct (decide (c' = c)) as [->|Hne]; [|rewrite lookup_insert_ne in E by done; by apply H2].
      rewrite lookup_insert_eq in E. injection E as <-. rewrite EL. split; [done|apply NoDup_nil_2|done|]. intros a Ha. by apply elem_of_nil in Ha.
    - intros c' Hc'. apply lookup_insert_None in Hc' as [Hc' _]. by apply H3.
    - intros t c' a Ha. destruct (H5 t c' a Ha) as [Hc' Hp]. split; [|done].
      destruct (decide (c' = c)) as [->|Hne]; [by rewrite lookup_insert_eq|by rewrite lookup_insert_ne]. }
  assert (∀ m w q o, holds (upd_caches (<[c := zero_cache]> (sl_caches s)) (upd_pm m s)) L P others w q o → holds s L P others w q o ∧ w ≠ OwnPool c) as Hback.
  { intros m [c'|c' b|t'|q'] q o; [|by split..]. intros (k' & E & Hp & Hq). cbn in E. destruct (decide (c' = c)) as [->|Hne].
    - rewrite lookup_insert_eq in E. injection E as <-. done.
    - rewrite lookup_insert_ne in E by done. split; [by exists k'|]. by intros [= ->]. }
  destruct (Z.eqb_spec (pool k) 0) as [Hp0|Hp0]; cbn [negb andb].
  - exists (sl_pm s). split; [by destruct s|]. apply (Hrest _ live HR). eapply owned_weaken; [exact HO|]. intros w q o Hw. by apply Hback in Hw as [Hw _].
  - assert (holds s L P others (OwnPool c) (pool_paddr k) (pool_order k)) as Hh by (by exists k). pose proof (proj1 HO _ _ _ Hh) as Hl.
    destruct (page_range base n HL H48 _ _ _ _ HR Hl) as [Hr _]. rewrite (proj2 (Z.eqb_neq _ _)) by lia. cbn [negb].
    destruct (give_pages_spec base n HL _ live _ _ HR Hl) as (m & Em & HR'). exists m. rewrite Em, some_bind. split; [done|].
    apply (Hrest m _ HR'). eapply owned_del; [exact HO|exact Hh|]. intros w q o Hw. by apply Hback in Hw.
Qed.

(** A cache gives back all its pages. *)
Lemma slab_destroy_spec s L P others c : slab_inv s L P others → is_Some (sl_caches s !! c) →
  ∃ s', slab_destroy (Some c) s = Some (s', KERNEL_OK) ∧ slab_inv s' (set_chain L c []) P others ∧
    sl_caches s' = <[c := zero_cache]> (sl_caches s) ∧ (∀ c', c' ≠ c → view s' L c' = view s L c').
Proof using HL H48.
  intros HI [k Hk]. unfold slab_destroy. rewrite Hk, some_bind.
  destruct (destroy_nodes_spec P others c (L c) (size (sl_nodes s)) s L k HI Hk eq_refl (chain_fuel _ _ _ _ _ _ HI c k Hk))
    as (s1 & k1 & Hd & HI1 & Hk1 & Q1 & Q2 & Q3 & Hoth).
  specialize (Hd (sl_caches s)). replace (upd_caches (sl_caches s) s) with s in Hd by (by destruct s). rewrite Hd, some_bind.
  destruct (drop_pool s1 _ P others c k1 HI1 Hk1) as (m & Em & HI2); [apply set_chain_eq|]. rewrite Q1, Q2, Q3 in Em. cbn [sl_pm upd_caches].
  exists (upd_caches (<[c := zero_cache]> (sl_caches s)) (upd_pm m s1)). split; [|split; [|split; [done|]]].
  - destruct (negb (pool k =? 0) && negb (pool_paddr k =? 0)) eqn:Eb.
    + destruct (phys_mem_free_pages _ _ _) as [m'|]; [|done]. cbn in Em. injection Em as ->. reflexivity.
    + injection Em as Em. apply (f_equal sl_pm) in Em. cbn in Em. subst m. reflexivity.
  - replace (<[c := zero_cache]> (sl_caches s)) with (<[c := zero_cache]> (sl_caches s1)); [exact HI2|].
    apply map_eq. intros c'. destruct (decide (c' = c)) as [->|Hne]; [by rewrite !lookup_insert_eq|]. rewrite !lookup_insert_ne by done. by apply Hoth.
  - intros c' Hne. apply Hoth, Hne.
Qed.

(** ** The system's own caches *)

Lemma slab_inv_count s L P others x : slab_inv s L P others → slab_inv (Slab (sl_pm s) (sl_nodes s) (sl_caches s) x) L P others.
Proof. intros [H1 H2 H3 H4]. by split. Qed.

Lemma zero_caches_inv L P others cs : ∀ s, slab_inv s L P others → (∀ c k, c ∈ cs → sl_caches s !! c = Some k → k = zero_cache) →
  slab_inv (upd_caches (foldr (λ i m, <[i := zero_cache]> m) (sl_caches s) cs) s) L P others.
Proof using HL H48.
  induction cs as [|c cs IH]; intros s HI Hz; [by destruct s|]. cbn [foldr].
  set (f := foldr (λ i m, <[i := zero_cache]> m) (sl_caches s) cs).
  assert (slab_inv (upd_caches f s) L P others) as [(live & HR & HO) H2 H3 H5] by (apply IH; [done|intros c' k Hc; apply Hz; set_solver]).
  assert (∀ k, f !! c = Some k → k = zero_cache) as Hf.
  { intros k. pose proof (Hz c) as Hc. clear -Hc. unfold f. clear f. induction cs as [|d cs IH]; cbn; [apply Hc; set_solver|].
    destruct (decide (c = d)) as [->|Hne]; [rewrite lookup_insert_eq; by intros [= <-]|rewrite lookup_insert_ne by done]. apply IH. intros k' Hk'. apply Hc. set_solver. }
  split.
  - exists live. split; [done|]. eapply owned_weaken; [exact HO|]. intros [c'|c' b|t'|q] p' o; [|done..]. intros (k & E & Hk). exists k. split; [|done].
    cbn in *. destruct (decide (c' = c)) as [->|Hne]; [rewrite lookup_insert_eq in E; injection E as <-; by destruct Hk|by rewrite lookup_insert_ne in E].
  - cbn. intros c' k E. destruct (decide (c' = c)) as [->|Hne]; [|rewrite lookup_insert_ne in E by done; by apply H2]. rewrite lookup_insert_eq in E. injection E as <-.
    destruct (f !! c) as [k|] eqn:Ek; [rewrite <- (Hf k eq_refl); by apply H2|]. rewrite (H3 c Ek). split; [done|apply NoDup_nil_2|done|].
    intros a Ha. by apply elem_of_nil in Ha.
  - cbn. intros c' Hc'. apply lookup_insert_None in Hc' as [Hc' _]. by apply H3.
  - cbn. intros t c' a Ha. destruct (H5 t c' a Ha) as [Hc' Hp]. split; [|done].
    destruct (decide (c' = c)) as [->|Hne]; [by rewrite lookup_insert_eq|by rewrite lookup_insert_ne].
Qed.

Lemma create_all_spec L P others m : ∀ i s, slab_inv s L P others →
  (∀ c k, i <= c < i + Z.of_nat m → sl_caches s !! c = Some k → k = zero_cache) →
  ∃ s' r, create_all m i s = Some (s', r) ∧ slab_inv s' L P others ∧ (∀ c, view s' L c = view s L c) ∧ (r = KERNEL_OK ∨ r = - ENOMEM).
Proof using HL H48.
  induction m as [|m IH]; intros i s HI Hz; cbn [create_all]; [exists s, KERNEL_OK; by auto|].
  destruct (slab_create_spec s L P others i 65536 HI ltac:(split; [done|by vm_compute])) as [->|(s1 & -> & HI1 & HV & _ & Hoth)].
  { intros k Hk. apply (Hz i); [lia|done]. }
  - rewrite some_bind. exists s, (- ENOMEM). split; [done|by auto].
  - rewrite some_bind. cbn [Z.eqb negb KERNEL_OK].
    destruct (IH (i + 1) _ (slab_inv_count s1 L P others (u32 (s_cache_count s1 + 1)) HI1)) as (s' & r & -> & HI' & HV' & Hr).
    + intros c k Hc E. cbn in E. rewrite Hoth in E by lia. apply (Hz c); [lia|done].
    + exists s', r. split; [done|]. split; [done|]. split; [|done]. intros c. rewrite HV'. exact (HV c).
Qed.

(** Every pool and node of the caches from [i] on goes back. *)
Lemma destroy_all_spec P others m : ∀ i s L, slab_inv s L P others → (∀ c, i <= c < i + Z.of_nat m → is_Some (sl_caches s !! c)) →
  ∃ s' L', destroy_all m i s = Some (s', KERNEL_OK) ∧ slab_inv s' L' P others ∧
    ∀ c, (i <= c < i + Z.of_nat m → view s' L' c = []) ∧ (¬ i <= c < i + Z.of_nat m → view s' L' c = view s L c).
Proof using HL H48.
  induction m as [|m IH]; intros i s L HI Hk; cbn [destroy_all].
  - eexists _, L. split; [reflexivity|]. split; [by apply slab_inv_count|]. intros c. split; [lia|done].
  - destruct (slab_destroy_spec s L P others i HI (Hk i ltac:(lia))) as (s1 & -> & HI1 & Hc1 & HV1). rewrite some_bind. cbn [Z.eqb negb KERNEL_OK].
    destruct (IH (i + 1) s1 _ HI1) as (s' & L' & -> & HI' & HV').
    { intros c Hc. rewrite Hc1, lookup_insert_ne by lia. apply Hk. lia. }
    exists s', L'. split; [done|]. split; [done|]. intros c. destruct (HV' c) as [H1 H2]. split; intros Hc.
    + destruct (decide (c = i)) as [->|Hne]; [|apply H1; lia]. rewrite H2 by lia. unfold view. by rewrite set_chain_eq.
    + rewrite H2 by lia. unfold view. rewrite set_chain_ne by lia. apply HV1. lia.
Qed.

(** ** Other clients of the page allocator *)

Lemma other_take_spec s L P others ord : slab_inv s L P others → 0 <= ord →
  phys_mem_alloc_pages ord (sl_pm s) = Some (sl_pm s, 0) ∨
  ∃ m p, phys_mem_alloc_pages ord (sl_pm s) = Some (m, p) ∧ p ≠ 0 ∧ slab_inv (upd_pm m s) L P (<[p := ord]> others).
Proof using HL.
  intros [(live & HR & HO) H2 H3 H5] Ho. destruct (take_pages_spec base n HL _ live ord HR Ho) as [E|(m & p & E & Hp & Hl & HR')]; [by left|right].
  exists m, p. split; [done|]. split; [done|]. split; [|done..]. exists (<[p := ord]> live). split; [done|].
  apply (owned_add (holds s L P others) _ live p ord (OwnOther p)); [done..|]. intros [c'|c' b|t'|q] p' o; [by left..|].
  intros [-> Hq]. destruct (decide (q = p)) as [->|Hne]; [rewrite lookup_insert_eq in Hq; injection Hq as <-; by right|].
  rewrite lookup_insert_ne in Hq by done. by left.
Qed.

Lemma other_give_spec s L P others p ord : slab_inv s L P others → others !! p = Some ord →
  ∃ m, phys_mem_free_pages p ord (sl_pm s) = Some m ∧ slab_inv (upd_pm m s) L P (delete p others).
Proof using HL.
  intros [(live & HR & HO) H2 H3 H5] Ho. assert (holds s L P others (OwnOther p) p ord) as Hh by done.
  destruct (give_pages_spec base n HL _ live p ord HR (proj1 HO _ _ _ Hh)) as (m & Em & HR'). exists m. split; [done|]. split; [|done..].
  exists (delete p live). split; [done|]. eapply owned_del; [exact HO|exact Hh|]. intros [c'|c' b|t'|q] p' o; [by split..|].
  intros [-> Hq]. apply lookup_delete_Some in Hq as [Hne Hq]. split; [by split|]. by intros [= ->].
Qed.
End ops.
