(* ===== verification/SlabTheorems.v ===== *)
(** * Slab caches: objects are handed out once

    The caches implement a set of objects in use per cache, under any
    interleaving of the transitions of [slab_alloc] on several CPUs with the other
    calls and with other clients of the page allocator. *)

From S2P Require Import Prelude KList PhysMem Buddy BuddyInv BuddyTheorems PageTable PageTableInv PageTableOps Slab SlabInv SlabSteps.

Set Default Goal Selector "!".

#[local] Arguments Z.pow : simpl never.

(** ** The objects in use *)

Fixpoint chain_of (fuel : nat) (h : gmap Z slab_node_t) (a : Z) : list Z :=
  if a =? 0 then []
  else match fuel with
       | O => []
       | S fuel => match h !! a with Some nd => a :: chain_of fuel h (sn_next nd) | None => [] end
       end.

Definition live_objects (s : slab) (c : Z) : list Z :=
  match sl_caches s !! c with
  | Some k => chain_live (sl_nodes s) (chain_of (size (sl_nodes s)) (sl_nodes s) (slabs k))
  | None => []
  end.

Lemma chain_of_sll h first l fuel : sll h first l → (length l <= fuel)%nat → chain_of fuel h first = l.
Proof.
  revert first fuel. induction l as [|a l IH]; intros first fuel Hs Hf.
  - cbn in Hs. subst first. by destruct fuel.
  - destruct Hs as (-> & Ha & nd & E & Hs). destruct fuel as [|fuel]; [cbn in Hf; lia|]. cbn. rewrite (proj2 (Z.eqb_neq _ _) Ha), E. f_equal.
    apply IH; [done|cbn in Hf; lia].
Qed.

(** ** Calls *)

(** A call, or one of the three parts of a call of [slab_alloc] by CPU [t]; and
    what other clients of the page allocator do. *)
Inductive sl_op :=
  | SlCreate (cache : option Z) (size : Z) | SlDestroy (cache : option Z) | SlInit | SlShutdown
  | SlAlloc (cache : option Z) | SlScan (t c : Z) | SlNode (t c : Z) | SlLink (t : Z)
  | SlFree (cache : option Z) (ptr : Z) | SlCount (cache : option Z)
  | SlTake (ord : Z) | SlGive (p ord : Z).

(** The nodes that CPUs have taken and not linked yet, and the blocks of others. *)
Record slab_world := SlabWorld { sw_slab : slab; sw_pend : gmap Z (Z * Z); sw_others : gmap Z Z }.

Definition on_slab (w : slab_world) (r : option (slab * Z)) : option (slab_world * Z) :=
  '(s, v) ← r; Some (SlabWorld s (sw_pend w) (sw_others w), v).

Definition run_sl (o : sl_op) (w : slab_world) : option (slab_world * Z) :=
  let '(SlabWorld s P others) := w in
  match o with
  | SlCreate cache size => on_slab w (slab_create cache size s)
  | SlDestroy cache => on_slab w (slab_destroy cache s)
  | SlInit => on_slab w (slab_system_init s)
  | SlShutdown => on_slab w (slab_system_shutdown s)
  | SlAlloc cache => on_slab w (slab_alloc cache s)
  | SlScan _ c => '(s, r) ← alloc_scan c s; Some (SlabWorld s P others, default 0 r)
  | SlNode t c => '(s, a) ← alloc_node s; Some (SlabWorld s (if a =? 0 then P else <[t := (c, a)]> P) others, a)
  | SlLink t => '(c, a) ← P !! t; '(s, x) ← alloc_link c a s; Some (SlabWorld s (delete t P) others, x)
  | SlFree cache ptr => on_slab w (slab_free cache ptr s)
  | SlCount cache => n ← slab_get_alloc_count cache s; Some (w, n)
  | SlTake ord => '(m, p) ← phys_mem_alloc_pages ord (sl_pm s);
                  Some (SlabWorld (upd_pm m s) P (if p =? 0 then others else <[p := ord]> others), p)
  | SlGive p ord => m ← phys_mem_free_pages p ord (sl_pm s); Some (SlabWorld (upd_pm m s) P (delete p others), 0)
  end.

(** The cache named exists, and no CPU is in the middle of a call on it. *)
Definition cache_known (s : slab) (cache : option Z) : Prop := match cache with Some c => is_Some (sl_caches s !! c) | None => True end.
Definition cache_idle (P : gmap Z (Z * Z)) (c : Z) : Prop := ∀ t a, P !! t ≠ Some (c, a).

(** What callers are held to.  A cache is created in zeroed memory, the size
    asked for is at most 2^63, and nobody uses a cache while it is destroyed,
    since [slab_destroy] takes no lock. *)
Definition sl_ok (o : sl_op) (w : slab_world) : Prop :=
  let s := sw_slab w in let P := sw_pend w in
  match o with
  | SlCreate cache size => 0 <= size <= 2 ^ 63 ∧ ∀ c k, cache = Some c → sl_caches s !! c = Some k → k = zero_cache
  | SlDestroy cache => cache_known s cache ∧ ∀ c, cache = Some c → cache_idle P c
  | SlInit => ∀ c k, 0 <= c < SLAB_CACHE_COUNT → sl_caches s !! c = Some k → k = zero_cache
  | SlShutdown => ∀ c, 0 <= c < s_cache_count s → is_Some (sl_caches s !! c) ∧ cache_idle P c
  | SlAlloc cache | SlFree cache _ | SlCount cache => cache_known s cache
  | SlScan t c | SlNode t c => P !! t = None ∧ is_Some (sl_caches s !! c)
  | SlLink t => is_Some (P !! t)
  | SlTake ord => 0 <= ord
  | SlGive p ord => sw_others w !! p = Some ord
  end.

Definition sl_start (base n : Z) (w : slab_world) : Prop :=
  pm_reach base n (sl_pm (sw_slab w)) (sw_others w) ∧ sl_nodes (sw_slab w) = ∅ ∧ sw_pend w = ∅ ∧
  ∀ c k, sl_caches (sw_slab w) !! c = Some k → k = zero_cache.

Inductive sl_reach (base n : Z) : slab_world → Prop :=
  | sl_reach_start w : sl_start base n w → sl_reach base n w
  | sl_reach_step w o w' r : sl_reach base n w → sl_ok o w → run_sl o w = Some (w', r) → sl_reach base n w'.

(** ** What a call promises

    [V c] are the objects of [c] in use before the call, [V' c] those after it. *)

Definition same (V V' : Z → list Z) : Prop := ∀ c, V' c = V c.

(** One object more: it was in use in no cache. *)
Definition gains (V V' : Z → list Z) (c x : Z) : Prop :=
  x ≠ 0 ∧ (∀ c', x ∉ V c') ∧ V' c ≡ₚ x :: V c ∧ ∀ c', c' ≠ c → V' c' = V c'.

Definition loses (V V' : Z → list Z) (c x : Z) : Prop := V c ≡ₚ x :: V' c ∧ ∀ c', c' ≠ c → V' c' = V c'.

Definition sl_spec (w : slab_world) (o : sl_op) (r : Z) (V V' : Z → list Z) : Prop :=
  match o with
  | SlCreate None _ | SlFree None _ | SlDestroy None => r = - EINVAL ∧ same V V'
  | SlCreate (Some c) size =>
      same V V' ∧ if size =? 0 then r = - EINVAL else r = - ENOMEM ∨ (r = KERNEL_OK ∧ V' c = [])
  | SlDestroy (Some c) => r = KERNEL_OK ∧ V' c = [] ∧ ∀ c', c' ≠ c → V' c' = V c'
  | SlInit => same V V' ∧ (r = KERNEL_OK ∨ r = - ENOMEM)
  | SlShutdown => r = KERNEL_OK ∧ ∀ c, V' c = if decide (0 <= c < s_cache_count (sw_slab w)) then [] else V c
  | SlAlloc None => r = 0 ∧ same V V'
  | SlAlloc (Some c) | SlScan _ c => (r = 0 ∧ same V V') ∨ gains V V' c r
  | SlNode _ _ => same V V'
  | SlLink t => ∃ c a, sw_pend w !! t = Some (c, a) ∧ gains V V' c r
  | SlFree (Some c) ptr =>
      if ptr =? 0 then r = - EINVAL ∧ same V V'
      else (r = KERNEL_OK ∧ loses V V' c ptr) ∨ (r = - ENOSYS ∧ ptr ∉ V c ∧ same V V')
  | SlCount cache => same V V' ∧ r = match cache with Some c => Z.of_nat (length (V c)) | None => 0 end
  | SlTake _ | SlGive _ _ => same V V'
  end.

(** ** The calls keep it *)

Section calls.
Context (base n : Z) (HL : mem_layout base n) (H48 : base + n * CONFIG_PAGE_SIZE <= 2 ^ 48).
Notation slab_inv := (slab_inv base n).

Lemma live_view s L P others c : slab_inv s L P others → live_objects s c = view s L c.
Proof.
  intros HI. unfold live_objects, view. destruct (sl_caches s !! c) as [k|] eqn:Hk; [|by rewrite (si_none _ _ _ _ _ _ HI c Hk)].
  f_equal. apply chain_of_sll; [apply (si_cache _ _ _ _ _ _ HI c k Hk)|by eapply chain_fuel].
Qed.

Lemma view_in s L P others c x : slab_inv s L P others → x ∈ view s L c →
  ∃ a nd i, a ∈ L c ∧ sl_nodes s !! a = Some nd ∧ 0 <= i < 8 ∧ x = object a i ∧ page_at a (node_paddr nd) ∧ holds s L P others (OwnNode c a) (node_paddr nd) 0.
Proof using HL H48.
  intros HI (a & nd & Ha & E & (i & u & Hi & _ & _ & ->)%node_live_in)%chain_live_in. exists a, nd, i.
  destruct (node_page base n HL H48 s L P others HI c a Ha) as (nd' & E' & _ & Hp). assert (nd' = nd) as -> by congruence.
  do 2 (split; [done|]). split; [lia|]. split; [done|]. split; [done|]. split; [done|]. by exists nd.
Qed.

(** Objects are 64 bytes each. *)
Lemma view_apart s L P others c c' x y : slab_inv s L P others → x ∈ view s L c → y ∈ view s L c' → (c, x) ≠ (c', y) → x + 64 <= y ∨ y + 64 <= x.
Proof using HL H48.
  intros HI Hx Hy Hne. destruct (view_in s L P others c x HI Hx) as (a & na & i & Ha & Ea & Hi & -> & Hpa & _).
  destruct (view_in s L P others c' y HI Hy) as (b & nb & j & Hb & Eb & Hj & -> & Hpb & _).
  eapply object_apart; [done|done|done|done|]. intros [= -> ->]. apply Hne. by rewrite (nodes_apart _ _ _ _ _ _ HI c c' b Ha Hb).
Qed.

Lemma node_live_nodup a nd p : page_at a p → NoDup (node_live a nd).
Proof.
  intros Hp. unfold node_live. pose proof (NoDup_seqZ 0 8) as Hn. assert (∀ i, i ∈ seqZ 0 8 → 0 <= i < 8) as Hb by (intros i ?%elem_of_seqZ; lia).
  induction (seqZ 0 8) as [|i l IH]; [apply NoDup_nil_2|]. apply NoDup_cons in Hn as [Hi Hn]. cbn [omap list_omap].
  assert (NoDup (omap (λ i, u ← (used nd).[i]; if u =? 0 then None else Some (object a i)) l)) as IH' by (apply IH; [done|intros j Hj; apply Hb; set_solver]).
  destruct ((used nd).[i]) as [u|]; [|done]. cbn. destruct (u =? 0); [done|]. apply NoDup_cons. split; [|done].
  intros (j & Hj & E)%list_elem_of_omap. apply bind_Some in E as (v & _ & E). destruct (v =? 0); [done|]. injection E as E.
  destruct (object_inj a a p p j i Hp Hp) as [_ ->]; [apply Hb; set_solver|apply Hb; set_solver|done|done].
Qed.

Lemma view_nodup s L P others c : slab_inv s L P others → NoDup (view s L c).
Proof using HL H48.
  intros HI. apply NoDup_bind.
  - intros a b x Ha Hb Hxa Hxb. destruct (node_page base n HL H48 s L P others HI c a Ha) as (na & Ea & _ & Hpa). destruct (node_page base n HL H48 s L P others HI c b Hb) as (nb & Eb & _ & Hpb).
    rewrite Ea in Hxa. rewrite Eb in Hxb. cbn in Hxa, Hxb. apply node_live_in in Hxa as (i & u & Hi & _ & _ & ->). apply node_live_in in Hxb as (j & v & Hj & _ & _ & Ho).
    by destruct (object_inj a b _ _ i j Hpa Hpb Hi Hj Ho).
  - intros a Ha. destruct (node_page base n HL H48 s L P others HI c a Ha) as (na & -> & _ & Hpa). cbn. by eapply node_live_nodup.
  - destruct (sl_caches s !! c) as [k|] eqn:Hk; [apply (si_cache _ _ _ _ _ _ HI c k Hk)|]. rewrite (si_none _ _ _ _ _ _ HI c Hk). apply NoDup_nil_2.
Qed.

Lemma gains_of s L P others s' L' P' others' c x : slab_inv s' L' P' others' → slab_inv s L P others → view s' L' c ≡ₚ x :: view s L c →
  (∀ c', c' ≠ c → view s' L' c' = view s L c') → gains (live_objects s) (live_objects s') c x.
Proof using HL H48.
  intros HI' HI HV HV'. assert (x ∈ view s' L' c) as Hx by (rewrite HV; set_solver).
  pose proof (view_nodup s' L' P' others' c HI') as Hnd. rewrite HV in Hnd. apply NoDup_cons in Hnd as [Hn _]. split; [|split; [|split]].
  - destruct (view_in s' L' P' others' c x HI' Hx) as (a & nd & i & _ & _ & Hi & -> & Hp & _). rewrite (object_eq a _ i Hp Hi). destruct Hp as (_ & Hr & _).
    unfold KERNEL_VA_OFFSET. lia.
  - intros c' Hc'. rewrite (live_view s L P others c' HI) in Hc'. destruct (decide (c' = c)) as [->|Hne]; [done|].
    rewrite <- HV' in Hc' by done. destruct (view_apart s' L' P' others' c c' x x HI' Hx Hc'); [by intros [= ->]|lia|lia].
  - rewrite (live_view s' L' P' others' c HI'), (live_view s L P others c HI). exact HV.
  - intros c' Hne. rewrite (live_view s' L' P' others' c' HI'), (live_view s L P others c' HI). by apply HV'.
Qed.

Lemma same_of s L P others s' L' P' others' : slab_inv s' L' P' others' → slab_inv s L P others → (∀ c, view s' L' c = view s L c) → same (live_objects s) (live_objects s').
Proof. intros HI' HI HV c. rewrite (live_view s' L' P' others' c HI'), (live_view s L P others c HI). apply HV. Qed.

(** *** The count is exact: there are at most 2^36 pages *)

Lemma pages_bound (N : Z) (l : list Z) : 0 <= N → NoDup l → (∀ a, a ∈ l → ∃ x, a = KERNEL_VA_OFFSET + 4096 * x ∧ 0 <= x < N) → Z.of_nat (length l) <= N.
Proof.
  intros HN Hnd Hl. assert (l ⊆ ((λ x, KERNEL_VA_OFFSET + 4096 * x) <$> seqZ 0 N)) as Hsub.
  { intros a (x & -> & Hx)%Hl. apply list_elem_of_fmap. exists x. split; [done|]. apply elem_of_seqZ. lia. }
  apply NoDup_submseteq in Hsub; [|done]. apply submseteq_length in Hsub. rewrite length_fmap, length_seqZ in Hsub. lia.
Qed.

Lemma omap_length_le {A B} (f : A → option B) l : (length (omap f l) <= length l)%nat.
Proof. induction l as [|x l IH]; cbn; [done|]. destruct (f x); cbn; lia. Qed.

Lemma chain_live_length h l : (length (chain_live h l) <= 8 * length l)%nat.
Proof.
  unfold chain_live. induction l as [|a l IH]; [done|]. rewrite bind_cons, length_app. cbn [length].
  assert (length (default [] (node_live a <$> h !! a)) <= 8)%nat; [|lia].
  destruct (h !! a) as [nd|]; cbn; [|lia]. unfold node_live. apply omap_length_le.
Qed.

Lemma view_count s L P others c k : slab_inv s L P others → sl_caches s !! c = Some k → alloc_count k = Z.of_nat (length (view s L c)).
Proof using HL H48.
  intros HI Hk. destruct (si_cache _ _ _ _ _ _ HI c k Hk) as [_ C2 -> _]. apply u64_small. pose proof (chain_live_length (sl_nodes s) (L c)) as H1. fold (view s L c) in *.
  assert (Z.of_nat (length (L c)) <= 2 ^ 36) as H2.
  { apply pages_bound; [done|done|]. intros a Ha. destruct (node_page base n HL H48 s L P others HI c a Ha) as (nd & _ & _ & -> & Hr & [x Hx]).
    exists x. rewrite phys_to_virt_small by lia. assert (2 ^ 48 = 4096 * 2 ^ 36) by done. lia. }
  assert (8 * 2 ^ 36 < 2 ^ 64) by done. lia.
Qed.

(** *** One call *)

Definition sl_inv (w : slab_world) : Prop := ∃ L, slab_inv (sw_slab w) L (sw_pend w) (sw_others w).

Definition sl_good (o : sl_op) (w : slab_world) : Prop :=
  ∃ w' r, run_sl o w = Some (w', r) ∧ sl_inv w' ∧ sl_spec w o r (live_objects (sw_slab w)) (live_objects (sw_slab w')).

Lemma pend_ne0 s L P others t c a : slab_inv s L P others → P !! t = Some (c, a) → a ≠ 0.
Proof using HL H48.
  intros HI Ht. destruct (si_pend _ _ _ _ _ _ HI t c a Ht) as (_ & nd & E & (-> & _) & _).
  apply phys_to_virt_ne0. pose proof (held_page base n HL H48 s L P others HI _ _ (pend_held s L P others t c _ nd Ht E)). lia.
Qed.

Lemma create_good cache size w : sl_inv w → sl_ok (SlCreate cache size) w → sl_good (SlCreate cache size) w.
Proof using HL H48.
  destruct w as [s P others]. intros [L HI] [Hs Hz]. cbn in HI, Hz. unfold sl_good. cbn [run_sl sl_spec sw_slab]. destruct cache as [c|].
  2: { eexists _, _. split; [reflexivity|]. split; [by exists L|done]. }
  destruct (Z.eqb_spec size 0) as [->|Hne]; [eexists _, _; split; [reflexivity|]; split; [by exists L|done]|].
  destruct (slab_create_spec base n HL H48 s L P others c size HI ltac:(lia) (λ k, Hz c k eq_refl)) as [->|(s' & -> & HI' & HV & HV0 & _)];
    (eexists _, _; split; [reflexivity|]; split; [by exists L|]).
  - split; [done|by left].
  - split; [by eapply same_of|right]. split; [done|]. cbn. by rewrite (live_view s' L P others c HI').
Qed.

Lemma destroy_good cache w : sl_inv w → sl_ok (SlDestroy cache) w → sl_good (SlDestroy cache) w.
Proof using HL H48.
  destruct w as [s P others]. intros [L HI] [Hk _]. cbn in HI, Hk. unfold sl_good. cbn [run_sl sl_spec sw_slab]. destruct cache as [c|].
  2: { eexists _, _. split; [reflexivity|]. split; [by exists L|done]. }
  destruct (slab_destroy_spec base n HL H48 s L P others c HI Hk) as (s' & -> & HI' & _ & HV). eexists _, _. split; [reflexivity|].
  split; [by exists (set_chain L c [])|]. cbn. split; [done|]. split.
  - rewrite (live_view s' _ P others c HI'). unfold view. by rewrite set_chain_eq.
  - intros c' Hne. rewrite (live_view s' _ P others c' HI'), (live_view s L P others c' HI), <- HV by done. unfold view. by rewrite set_chain_ne.
Qed.

Lemma init_good w : sl_inv w → sl_ok SlInit w → sl_good SlInit w.
Proof using HL H48.
  destruct w as [s P others]. intros [L HI] Hz. cbn in HI, Hz. unfold sl_good. cbn [run_sl sl_spec sw_slab]. unfold slab_system_init.
  pose proof (zero_caches_inv base n HL H48 L P others (seqZ 0 SLAB_CACHE_COUNT) s HI) as HI0.
  specialize (HI0 ltac:(intros c k ?%elem_of_seqZ; apply Hz; unfold SLAB_CACHE_COUNT in *; lia)). apply (slab_inv_count base n _ _ _ _ 0) in HI0.
  destruct (create_all_spec base n HL H48 L P others (Z.to_nat SLAB_CACHE_COUNT) 0 _ HI0) as (s' & r & E & HI' & HV & Hr).
  - intros c k Hc. cbn. intros E. change (0 <= c < 64) in Hc. assert (c ∈ seqZ 0 64) as Hin by (apply elem_of_seqZ; lia). revert E Hin. unfold SLAB_CACHE_COUNT.
    induction (seqZ 0 64) as [|d l IH]; [by intros _ ?%elem_of_nil|]. cbn. destruct (decide (c = d)) as [->|Hne].
    + rewrite lookup_insert_eq. by intros [= <-].
    + rewrite lookup_insert_ne by done. intros E [?|Hin]%elem_of_cons; [done|]. by apply IH.
  - cbn [sl_pm sl_nodes sl_caches upd_caches] in E. rewrite E. eexists _, _. split; [reflexivity|]. split; [by exists L|]. cbn. split; [|done].
    eapply same_of; [exact HI'|exact HI|]. intros c. rewrite HV. done.
Qed.

Lemma shutdown_good w : sl_inv w → sl_ok SlShutdown w → sl_good SlShutdown w.
Proof using HL H48.
  destruct w as [s P others]. intros [L HI] Hk. cbn in HI, Hk. unfold sl_good. cbn [run_sl sl_spec sw_slab]. unfold slab_system_shutdown.
  destruct (destroy_all_spec base n HL H48 P others (Z.to_nat (s_cache_count s)) 0 s L HI) as (s' & L' & -> & HI' & HV).
  { intros c Hc. apply Hk. lia. }
  eexists _, _. split; [reflexivity|]. split; [by exists L'|]. cbn. split; [done|]. intros c. destruct (HV c) as [H1 H2].
  rewrite (live_view s' L' P others c HI'), (live_view s L P others c HI). case_decide; [apply H1; lia|apply H2; lia].
Qed.

Lemma scan_good t c w : sl_inv w → sl_ok (SlScan t c) w → sl_good (SlScan t c) w.
Proof using HL H48.
  destruct w as [s P others]. intros [L HI] [_ Hk]. cbn in HI, Hk. unfold sl_good. cbn [run_sl sl_spec sw_slab].
  destruct (alloc_scan_spec base n s L P others c HI Hk) as [[-> _]|(s' & a & i & -> & Ha & Hi & HI' & HV & HV' & _)];
    (eexists _, _; split; [reflexivity|]; split; [by exists L|]); cbn; [by left|right]. by eapply gains_of.
Qed.

Lemma node_good t c w : sl_inv w → sl_ok (SlNode t c) w → sl_good (SlNode t c) w.
Proof using HL H48.
  destruct w as [s P others]. intros [L HI] [Ht Hk]. cbn in HI, Ht, Hk. unfold sl_good. cbn [run_sl sl_spec sw_slab].
  destruct (alloc_node_spec base n HL H48 s L P others t c HI Ht Hk) as [->|(s' & a & -> & Ha & HI' & _ & HV)]; (eexists _, _; split; [reflexivity|]; split; [exists L|]); cbn.
  - done.
  - done.
  - by rewrite (proj2 (Z.eqb_neq _ _) Ha).
  - by eapply same_of.
Qed.

Lemma link_good t w : sl_inv w → sl_ok (SlLink t) w → sl_good (SlLink t) w.
Proof using HL H48.
  destruct w as [s P others]. intros [L HI] [[c a] Ht]. cbn in HI, Ht. unfold sl_good. cbn [run_sl sl_spec sw_slab sw_pend]. rewrite Ht, some_bind. cbn iota beta.
  destruct (alloc_link_spec base n HL H48 s L P others t c a HI Ht (pend_ne0 _ _ _ _ _ _ _ HI Ht)) as (s' & L' & b & i & -> & HI' & Hb & Hi & HV & HV').
  eexists _, _. split; [reflexivity|]. split; [by exists L'|]. exists c, a. split; [done|]. by eapply gains_of.
Qed.

Lemma alloc_good cache w : sl_inv w → sl_ok (SlAlloc cache) w → sl_good (SlAlloc cache) w.
Proof using HL H48.
  destruct w as [s P others]. intros [L HI] Hk. cbn in HI, Hk. unfold sl_good. cbn [run_sl sl_spec sw_slab]. destruct cache as [c|].
  2: { eexists _, _. split; [reflexivity|]. split; [by exists L|done]. }
  unfold slab_alloc. destruct (alloc_scan_spec base n s L P others c HI Hk) as [[-> _]|(s' & a & i & -> & Ha & Hi & HI' & HV & HV' & _)]; rewrite some_bind.
  2: { eexists _, _. split; [reflexivity|]. split; [by exists L|]. right. by eapply gains_of. }
  set (t := fresh (dom P)). assert (P !! t = None) as Ht by (apply not_elem_of_dom, is_fresh).
  destruct (alloc_node_spec base n HL H48 s L P others t c HI Ht Hk) as [->|(s1 & a & -> & Ha & HI1 & _ & HV1)]; rewrite some_bind.
  { eexists _, _. split; [reflexivity|]. split; [by exists L|]. by left. }
  rewrite (proj2 (Z.eqb_neq _ _) Ha).
  destruct (alloc_link_spec base n HL H48 s1 L _ others t c a HI1 (lookup_insert_eq _ _ _) Ha) as (s' & L' & b & i & -> & HI' & Hb & Hi & HV & HV').
  rewrite delete_insert_id in HI' by done. rewrite HV1 in HV. eexists _, _. split; [reflexivity|]. split; [by exists L'|]. right.
  eapply (gains_of s L P others s' L' P others); [done|done|done|]. intros c' Hne. rewrite <- HV1. by apply HV'.
Qed.

Lemma free_good cache ptr w : sl_inv w → sl_ok (SlFree cache ptr) w → sl_good (SlFree cache ptr) w.
Proof using HL H48.
  destruct w as [s P others]. intros [L HI] Hk. cbn in HI, Hk. unfold sl_good. cbn [run_sl sl_spec sw_slab]. destruct cache as [c|].
  2: { eexists _, _. split; [reflexivity|]. split; [by exists L|done]. }
  destruct (Z.eqb_spec ptr 0) as [->|Hne]; [eexists _, _; split; [reflexivity|]; split; [by exists L|done]|].
  destruct (slab_free_spec base n s L P others c ptr HI Hk Hne) as [[-> Hn]|(s' & -> & HI' & HV & HV')]; (eexists _, _; split; [reflexivity|]; split; [by exists L|]); cbn.
  - right. split; [done|]. split; [|done]. by rewrite (live_view s L P others c HI).
  - left. split; [done|]. split; [rewrite (live_view s L P others c HI), (live_view s' L P others c HI'); exact HV|].
    intros c' Hc'. rewrite (live_view s L P others c' HI), (live_view s' L P others c' HI'). by apply HV'.
Qed.

Lemma count_good cache w : sl_inv w → sl_ok (SlCount cache) w → sl_good (SlCount cache) w.
Proof using HL H48.
  destruct w as [s P others]. intros [L HI] Hk. cbn in HI, Hk. unfold sl_good. cbn [run_sl sl_spec sw_slab]. destruct cache as [c|].
  2: { eexists _, _. split; [reflexivity|]. split; [by exists L|done]. }
  destruct Hk as [k Hk]. cbn. rewrite Hk, !some_bind. eexists _, _. split; [reflexivity|]. split; [by exists L|]. split; [done|].
  rewrite (live_view s L P others c HI). by eapply view_count.
Qed.

Lemma take_good ord w : sl_inv w → sl_ok (SlTake ord) w → sl_good (SlTake ord) w.
Proof using HL.
  destruct w as [s P others]. intros [L HI] Ho. cbn in HI, Ho. unfold sl_good. cbn [run_sl sl_spec sw_slab].
  destruct (other_take_spec base n HL s L P others ord HI Ho) as [->|(m & p & -> & Hp & HI')]; (eexists _, _; split; [reflexivity|]; split; [exists L|]); cbn.
  - by destruct s.
  - done.
  - by rewrite (proj2 (Z.eqb_neq _ _) Hp).
  - done.
Qed.

Lemma give_good p ord w : sl_inv w → sl_ok (SlGive p ord) w → sl_good (SlGive p ord) w.
Proof using HL.
  destruct w as [s P others]. intros [L HI] Ho. cbn in HI, Ho. unfold sl_good. cbn [run_sl sl_spec sw_slab].
  destruct (other_give_spec base n HL s L P others p ord HI Ho) as (m & -> & HI'). eexists _, _. split; [reflexivity|]. split; [by exists L|done].
Qed.

Lemma sl_good_all o w : sl_inv w → sl_ok o w → sl_good o w.
Proof using HL H48.
  destruct o; eauto using create_good, destroy_good, init_good, shutdown_good, alloc_good, scan_good, node_good, link_good, free_good, count_good, take_good, give_good.
Qed.

Lemma sl_start_inv w : sl_start base n w → sl_inv w.
Proof.
  destruct w as [s P others]. intros (HR & Hn & HP & Hz). cbn in *. exists (λ _, []). subst P. split; cbn.
  - exists others. split; [done|]. split.
    + intros [c|c a|t|q] p o; cbn; [|by intros [?%elem_of_nil _]|by intros (? & ? & ? & ? & _)|by intros [-> ?]].
      intros (k & E & Hp & _). by rewrite (Hz c k E) in Hp.
    + intros [c|c a|t|q] w p o o'; cbn; [|by intros [?%elem_of_nil _]|by intros (? & ? & ? & ? & _)|].
      * intros (k & E & Hp & _). by rewrite (Hz c k E) in Hp.
      * intros [-> _]. destruct w as [c|c a|t|q']; cbn; [|by intros [?%elem_of_nil _]|by intros (? & ? & ? & ? & _)|by intros [-> _]].
        intros (k & E & Hp & _). by rewrite (Hz c k E) in Hp.
  - intros c k E. rewrite (Hz c k E). split; [done|apply NoDup_nil_2|done|]. intros a Ha. by apply elem_of_nil in Ha.
  - done.
  - done.
Qed.

Lemma sl_reach_inv w : sl_reach base n w → sl_inv w.
Proof using HL H48.
  induction 1 as [w Hw|w o w' r _ IH Hok E]; [by apply sl_start_inv|]. destruct (sl_good_all o w IH Hok) as (w1 & r1 & E1 & HI & _).
  rewrite E in E1. by injection E1 as -> _.
Qed.

Lemma reach_apart m live p k q j : pm_reach base n m live → live !! p = Some k → live !! q = Some j → p ≠ q → apart p k q j.
Proof using HL.
  intros HR Hp Hq Hne. destruct (reach_inv base n HL m live HR) as (F & Al & (_ & _ & HS) & ->).
  apply lookup_kmap_Some in Hp as (i & -> & Hi); [|apply _]. apply lookup_kmap_Some in Hq as (i' & -> & Hi'); [|apply _].
  apply (al_apart base n F Al); [done..|]. congruence.
Qed.

Lemma held_apart s L P others w w' p k q j : slab_inv s L P others → holds s L P others w p k → holds s L P others w' q j → w ≠ w' → apart p k q j.
Proof using HL.
  intros HI H1 H2 Hne. destruct (si_own _ _ _ _ _ _ HI) as (live & HR & HO & Hu). apply (reach_apart (sl_pm s) live); [done|by eapply HO|by eapply HO|].
  intros ->. by apply Hne; eapply Hu.
Qed.
End calls.

(** ** The theorems *)

(** C13: From boot on, under any interleaving of the three parts of [slab_alloc] on
    several CPUs with the other calls and with other clients of the page
    allocator, every call returns.  An allocation hands out an object that was in
    use in no cache, or NULL; a release takes exactly the object named out of use
    and refuses anything that is not in use; creating and destroying a cache
    leaves the others alone; and the count is the number of objects in use.  The
    calls are those [sl_ok] permits, and the memory starts at a multiple of 8 MB
    ([mem_layout]). *)
Theorem slab_refines_sets (base n : Z) (w : slab_world) (o : sl_op) :
  mem_layout base n → base + n * CONFIG_PAGE_SIZE <= 2 ^ 48 → sl_reach base n w → sl_ok o w →
  ∃ w' r, run_sl o w = Some (w', r) ∧ sl_reach base n w' ∧
    sl_spec w o r (live_objects (sw_slab w)) (live_objects (sw_slab w')).
Proof.
  intros HL H48 HR Hok. destruct (sl_good_all base n HL H48 o w (sl_reach_inv base n HL H48 w HR) Hok) as (w' & r & E & _ & Hs).
  exists w', r. split; [done|]. split; [by eapply sl_reach_step|done].
Qed.

(** The objects in use never share memory: any two, of one cache or of two, are
    64 bytes apart, and each lies within a page that overlaps neither a block of
    another client of the page allocator nor the pool of a cache. *)
Theorem slab_objects_apart (base n : Z) (w : slab_world) (c x : Z) :
  mem_layout base n → base + n * CONFIG_PAGE_SIZE <= 2 ^ 48 → sl_reach base n w → x ∈ live_objects (sw_slab w) c →
  NoDup (live_objects (sw_slab w) c) ∧
  (∀ c' y, y ∈ live_objects (sw_slab w) c' → (c, x) ≠ (c', y) → x + SLAB_OBJECT_SIZE <= y ∨ y + SLAB_OBJECT_SIZE <= x) ∧
  ∃ p, phys_to_virt p <= x ∧ x + SLAB_OBJECT_SIZE <= phys_to_virt p + CONFIG_PAGE_SIZE ∧
    (∀ q m, sw_others w !! q = Some m → apart p 0 q m) ∧
    (∀ c' k, sl_caches (sw_slab w) !! c' = Some k → pool k ≠ 0 → apart p 0 (pool_paddr k) (pool_order k)).
Proof.
  intros HL H48 HR Hx. destruct (sl_reach_inv base n HL H48 w HR) as [L HI]. rewrite (live_view base n _ L _ _ c HI) in *.
  split; [by eapply view_nodup|]. split.
  - intros c' y Hy. rewrite (live_view base n _ L _ _ c' HI) in Hy. by eapply view_apart.
  - destruct (view_in base n HL H48 _ L _ _ c x HI Hx) as (a & nd & i & Ha & E & Hi & -> & Hp & Hh). exists (node_paddr nd).
    rewrite (object_eq a _ i Hp Hi). destruct Hp as (_ & Hr & _). rewrite phys_to_virt_small by lia. unfold SLAB_OBJECT_SIZE, CONFIG_PAGE_SIZE.
    split; [lia|]. split; [lia|]. split.
    + intros q m Hq. by apply (held_apart base n HL _ L _ _ (OwnNode c a) (OwnOther q) _ _ _ _ HI Hh).
    + intros c' k Hk Hp. apply (held_apart base n HL _ L _ _ (OwnNode c a) (OwnPool c') _ _ _ _ HI Hh); [by exists k|done].
Qed.

(** ** Concrete inputs *)

(** Sixteen pages; a cache, with CPU 0 between its scan and the linking of its
    node when CPU 1 runs a whole allocation. *)
Definition slab_demo0 : slab_world := SlabWorld (Slab demo_init ∅ {[7 := zero_cache]} 0) ∅ ∅.
Definition slab_next (o : sl_op) (w : slab_world) : slab_world := default slab_demo0 (fst <$> run_sl o w).
Definition slab_demo1 : slab_world := slab_next (SlCreate (Some 7) 8192) slab_demo0.
Definition slab_demo2 : slab_world := slab_next (SlNode 0 7) slab_demo1.
Definition slab_demo3 : slab_world := slab_next (SlAlloc (Some 7)) slab_demo2.

(** The first object of CPU 1. *)
Definition slab_demo_obj : Z := match run_sl (SlAlloc (Some 7)) slab_demo2 with Some (_, r) => r | None => 0 end.

Lemma slab_next_eq o w r : snd <$> run_sl o w = Some r → run_sl o w = Some (slab_next o w, r).
Proof. unfold slab_next. destruct (run_sl o w) as [[x y]|]; [|done]. intros E. by injection E as ->. Qed.

Lemma slab_demo_known1 : is_Some (sl_caches (sw_slab slab_demo1) !! 7).
Proof. apply not_eq_None_Some. vm_compute. discriminate. Qed.
Lemma slab_demo_known2 : is_Some (sl_caches (sw_slab slab_demo2) !! 7).
Proof. apply not_eq_None_Some. vm_compute. discriminate. Qed.

Lemma slab_demo3_reach : sl_reach demo_base 16 slab_demo3.
Proof.
  assert (sl_reach demo_base 16 slab_demo0) as H0.
  { apply sl_reach_start. split; [exact demo_init_reach|]. split; [done|]. split; [done|]. intros c k E. cbn in E. apply lookup_singleton_Some in E as [_ <-]. done. }
  assert (sl_reach demo_base 16 slab_demo1) as H1.
  { eapply (sl_reach_step _ _ slab_demo0 (SlCreate (Some 7) 8192)); [exact H0| |apply slab_next_eq; vm_compute; reflexivity].
    split; [split; [discriminate|by vm_compute]|]. intros c k [= <-] E. cbn in E. rewrite lookup_singleton_eq in E. by injection E as <-. }
  assert (sl_reach demo_base 16 slab_demo2) as H2.
  { eapply (sl_reach_step _ _ slab_demo1 (SlNode 0 7)); [exact H1| |apply slab_next_eq; vm_compute; reflexivity].
    split; [vm_compute; reflexivity|exact slab_demo_known1]. }
  eapply (sl_reach_step _ _ slab_demo2 (SlAlloc (Some 7))); [exact H2| |apply slab_next_eq; vm_compute; reflexivity].
  exact slab_demo_known2.
Qed.

Lemma slab_demo_fits : demo_base + 16 * CONFIG_PAGE_SIZE <= 2 ^ 48.
Proof. vm_compute. discriminate. Qed.

Lemma slab_demo_pending : is_Some (sw_pend slab_demo3 !! 0).
Proof. apply not_eq_None_Some. vm_compute. discriminate. Qed.

(** CPU 0 goes on: it takes the next object of the node of CPU 1. *)
Lemma slab_refines_sets_witness :
  ∃ w' r, run_sl (SlLink 0) slab_demo3 = Some (w', r) ∧ sl_reach demo_base 16 w' ∧
    sl_spec slab_demo3 (SlLink 0) r (live_objects (sw_slab slab_demo3)) (live_objects (sw_slab w')).
Proof. exact (slab_refines_sets demo_base 16 slab_demo3 (SlLink 0) demo_pages slab_demo_fits slab_demo3_reach slab_demo_pending). Defined.

Lemma slab_demo_live : slab_demo_obj ∈ live_objects (sw_slab slab_demo3) 7.
Proof. replace (live_objects (sw_slab slab_demo3) 7) with [slab_demo_obj] by (vm_compute; reflexivity). by apply list_elem_of_singleton. Qed.

Lemma slab_objects_apart_witness :
  NoDup (live_objects (sw_slab slab_demo3) 7) ∧
  (∀ c' y, y ∈ live_objects (sw_slab slab_demo3) c' → (7, slab_demo_obj) ≠ (c', y) →
    slab_demo_obj + SLAB_OBJECT_SIZE <= y ∨ y + SLAB_OBJECT_SIZE <= slab_demo_obj) ∧
  ∃ p, phys_to_virt p <= slab_demo_obj ∧ slab_demo_obj + SLAB_OBJECT_SIZE <= phys_to_virt p + CONFIG_PAGE_SIZE ∧
    (∀ q m, sw_others slab_demo3 !! q = Some m → apart p 0 q m) ∧
    (∀ c' k, sl_caches (sw_slab slab_demo3) !! c' = Some k → pool k ≠ 0 → apart p 0 (pool_paddr k) (pool_order k)).
Proof. exact (slab_objects_apart demo_base 16 slab_demo3 7 slab_demo_obj demo_pages slab_demo_fits slab_demo3_reach slab_demo_live). Defined.

(** ** Behaviour the comments do not announce *)

Fixpoint run_sl_list (os : list sl_op) (w : slab_world) : option (list Z) :=
  match os with
  | [] => Some []
  | o :: os => r ← run_sl o w; rs ← run_sl_list os r.1; Some (r.2 :: rs)
  end.

(** Whatever size the cache was created with, its objects are 64 bytes: the second
    stack taken from a cache of 16 KB stacks starts 64 bytes above the first.  And
    they are aligned to four bytes only. *)
Example objects_are_64_bytes : ∃ x,
  run_sl_list [SlCreate (Some 7) 16384; SlAlloc (Some 7); SlAlloc (Some 7)] slab_demo0 = Some [KERNEL_OK; x; x + 64] ∧ x mod 8 = 4.
Proof. exists (object (phys_to_virt (demo_base + 16384)) 0). split; vm_compute; reflexivity. Qed.

(** A node that turns out not to be needed goes back, and the page is taken again. *)
Example node_goes_back : ∃ x y,
  run_sl_list [SlCreate (Some 7) 8192; SlNode 0 7; SlNode 1 7; SlLink 1; SlLink 0; SlTake 0] slab_demo0 =
  Some [KERNEL_OK; phys_to_virt x; phys_to_virt y; object (phys_to_virt y) 0; object (phys_to_virt y) 1; x].
Proof. exists (demo_base + 8192), (demo_base + 12288). vm_compute. reflexivity. Qed.

Lemma order_loop_stuck size fuel o : 0 < size → order_loop fuel 0 size o = None.
Proof. intros Hs. revert o. induction fuel as [|fuel IH]; intros o; cbn; rewrite (proj2 (Z.ltb_lt 0 size) Hs); [done|]. apply IH. Qed.

Lemma order_loop_overflows size fuel o : 2 ^ 63 < size → 0 <= o <= 51 → order_loop fuel (4096 * 2 ^ o) size o = None.
Proof.
  intros Hs. assert (∀ o, 0 <= o <= 51 → 4096 * 2 ^ o < size) as Hlt.
  { intros o' Ho'. assert (2 ^ o' <= 2 ^ 51) by (apply Z.pow_le_mono_r; lia). assert (2 ^ 63 = 4096 * 2 ^ 51) by done. lia. }
  revert o. induction fuel as [|fuel IH]; intros o Ho; cbn [order_loop]; rewrite (proj2 (Z.ltb_lt _ size) (Hlt o Ho)); [done|].
  rewrite Z.shiftl_mul_pow2 by lia. rewrite (u32_small (o + 1)) by lia. destruct (decide (o = 51)) as [->|Hne].
  - change (u64 (4096 * 2 ^ 51 * 2 ^ 1)) with 0. apply order_loop_stuck. lia.
  - assert (2 ^ (o + 1) = 2 * 2 ^ o) as Hpow by (rewrite Z.pow_add_r by lia; lia). assert (2 ^ (o + 1) <= 2 ^ 51) by (apply Z.pow_le_mono_r; lia).
    rewrite u64_small; [|assert (2 ^ 64 = 8192 * 2 ^ 51) by done; pose proof (Z.pow_pos_nonneg 2 o); lia].
    replace (4096 * 2 ^ o * 2 ^ 1) with (4096 * 2 ^ (o + 1)) by lia. apply IH. lia.
Qed.

(** Above 2^63 the capacity overflows to 0 and the loop for the order never ends. *)
Example order_of_huge_size fuel : order_loop fuel CONFIG_PAGE_SIZE (2 ^ 63 + 1) 0 = None.
Proof. apply (order_loop_overflows (2 ^ 63 + 1) fuel 0); lia. Qed.
