(* ===== verification/Kmalloc.v ===== *)
(** * The kernel heap (kernel/mm/kmalloc.c, kmalloc.h)

    A first-fit allocator on the heap section.  The headers of blocks are a map
    from addresses; NULL is 0.  The data bytes are not modelled, but writing data
    destroys the headers of former blocks that lie there ([scrub]). *)

From S2P Require Import Prelude.

Set Default Goal Selector "!".

Definition KMALLOC_HEAP_SIZE : Z := 2 * 1024 * 1024.
Definition KMALLOC_ALIGN : Z := 16.
Definition KMALLOC_MIN_SIZE : Z := 16.
Definition KMALLOC_MAX_SIZE : Z := 1024 * 1024.
Definition KMALLOC_MAGIC : Z := 0x4B4D414C.

Record block_header_t := BlockHeader { b_size : Z; b_magic : Z; b_is_free : Z; b_next : Z; b_prev : Z }.

Definition set_b_size v b := BlockHeader v (b_magic b) (b_is_free b) (b_next b) (b_prev b).
Definition set_b_next v b := BlockHeader (b_size b) (b_magic b) (b_is_free b) v (b_prev b).
Definition set_b_prev v b := BlockHeader (b_size b) (b_magic b) (b_is_free b) (b_next b) v.
Definition set_b_use free magic b := BlockHeader (b_size b) magic free (b_next b) (b_prev b).

(** The mask is an unsigned int: the upper half of a 64-bit argument is lost. *)
Definition ALIGN_UP (x align : Z) : Z := Z.land (u64 (x + (align - 1))) (u32 (Z.lnot (align - 1))).

(** [sizeof(block_header_t)] *)
Definition BLOCK_HEADER_SIZE : Z := ALIGN_UP 32 KMALLOC_ALIGN.
Definition MIN_BLOCK_SIZE : Z := BLOCK_HEADER_SIZE + KMALLOC_MIN_SIZE.

Record kmalloc_stats_t := KmallocStats {
  total_allocs : Z; total_frees : Z; current_allocs : Z; total_bytes : Z; current_bytes : Z; peak_bytes : Z
}.

(** [s_kmalloc_state] and the headers in memory. *)
Record kheap := Kheap { kh_mem : gmap Z block_header_t; kh_first : Z; kh_stats : kmalloc_stats_t; kh_init : Z }.

Definition upd_mem v s := Kheap v (kh_first s) (kh_stats s) (kh_init s).
Definition upd_stats v s := Kheap (kh_mem s) (kh_first s) v (kh_init s).

Definition hd (a : Z) (s : kheap) : option block_header_t := if a =? 0 then None else kh_mem s !! a.
Definition put (a : Z) (b : block_header_t) (s : kheap) : kheap := upd_mem (<[a := b]> (kh_mem s)) s.
Definition on_hd (a : Z) (f : block_header_t → block_header_t) (s : kheap) : option kheap := b ← hd a s; Some (put a (f b) s).

(** [n] bytes are written at [p]. *)
Definition scrub (p n : Z) (s : kheap) : kheap :=
  upd_mem (filter (λ x : Z * block_header_t, ¬ (p < x.1 + BLOCK_HEADER_SIZE ∧ x.1 < p + n)) (kh_mem s)) s.

(** A header is written over whatever was there. *)
Definition put_new (a : Z) (b : block_header_t) (s : kheap) : kheap := put a b (scrub a BLOCK_HEADER_SIZE s).

(** [if (n != NULL) n->prev = p;] *)
Definition link_prev (n p : Z) (s : kheap) : option kheap := if n =? 0 then Some s else on_hd n (set_b_prev p) s.

(** ** Splitting and merging *)

Definition split_block (block size : Z) (s : kheap) : option kheap :=
  if block =? 0 then Some s
  else
    b ← hd block s;
    let remaining := u64 (b_size b - size) in
    if remaining >=? MIN_BLOCK_SIZE then
      let new_block := u64 (block + size) in
      let s := put_new new_block (BlockHeader remaining KMALLOC_MAGIC 1 (b_next b) block) s in
      s ← link_prev (b_next b) new_block s;
      on_hd block (λ b, set_b_size size (set_b_next new_block b)) s
    else Some s.

Fixpoint merge_forward (fuel : nat) (current : Z) (s : kheap) : option kheap :=
  c ← hd current s;
  if b_next c =? 0 then Some s
  else
    n ← hd (b_next c) s;
    if negb (b_is_free n =? 1) then Some s
    else if negb (b_magic n =? KMALLOC_MAGIC) then Some s
    else if negb (u64 (current + b_size c) =? b_next c) then Some s
    else
      match fuel with
      | O => None
      | S fuel =>
          s ← on_hd current (λ c, set_b_size (u64 (b_size c + b_size n)) (set_b_next (b_next n) c)) s;
          s ← link_prev (b_next n) current s;
          merge_forward fuel current s
      end.

Fixpoint merge_backward (fuel : nat) (current : Z) (s : kheap) : option kheap :=
  c ← hd current s;
  if b_prev c =? 0 then Some s
  else
    p ← hd (b_prev c) s;
    if negb (b_is_free p =? 1) then Some s
    else if negb (b_magic p =? KMALLOC_MAGIC) then Some s
    else if negb (u64 (b_prev c + b_size p) =? current) then Some s
    else
      match fuel with
      | O => None
      | S fuel =>
          s ← on_hd (b_prev c) (λ p, set_b_size (u64 (b_size p + b_size c)) (set_b_next (b_next c) p)) s;
          s ← link_prev (b_next c) (b_prev c) s;
          merge_backward fuel (b_prev c) s
      end.

Definition merge_free_blocks (block : Z) (s : kheap) : option kheap :=
  if block =? 0 then Some s
  else
    s ← merge_forward (size (kh_mem s)) block s;
    merge_backward (size (kh_mem s)) block s.

(** ** The interface *)

(** [heap_start] is the address that the linker script gives to the heap. *)
Definition kmalloc_init (heap_start : Z) (s : kheap) : kheap * Z :=
  (Kheap {[heap_start := BlockHeader KMALLOC_HEAP_SIZE KMALLOC_MAGIC 1 0 0]} heap_start (KmallocStats 0 0 0 0 0 0) 1, 0).

Fixpoint first_fit (fuel : nat) (current total_size : Z) (s : kheap) : option Z :=
  if current =? 0 then Some 0
  else
    match fuel with
    | O => None
    | S fuel =>
        b ← hd current s;
        if (b_is_free b =? 1) && (b_size b >=? total_size) then Some current else first_fit fuel (b_next b) total_size s
    end.

Definition count_alloc (size : Z) (st : kmalloc_stats_t) : kmalloc_stats_t :=
  let cur := u64 (current_bytes st + size) in
  KmallocStats (u64 (total_allocs st + 1)) (total_frees st) (u64 (current_allocs st + 1)) (u64 (total_bytes st + size)) cur
    (if cur >? peak_bytes st then cur else peak_bytes st).

Definition kmalloc (size : Z) (s : kheap) : option (kheap * Z) :=
  if size =? 0 then Some (s, 0)
  else if negb (kh_init s =? 1) then Some (s, 0)
  else if size >? KMALLOC_MAX_SIZE then Some (s, 0)
  else
    let total_size := u64 (ALIGN_UP size KMALLOC_ALIGN + BLOCK_HEADER_SIZE) in
    current ← first_fit (S (base.size (kh_mem s))) (kh_first s) total_size s;
    if current =? 0 then Some (s, 0)
    else
      s ← split_block current total_size s;
      s ← on_hd current (set_b_use 0 KMALLOC_MAGIC) s;
      Some (upd_stats (count_alloc size (kh_stats s)) s, u64 (current + BLOCK_HEADER_SIZE)).

Definition kzalloc (size : Z) (s : kheap) : option (kheap * Z) :=
  r ← kmalloc size s;
  let '(s, ptr) := r in
  Some (if ptr =? 0 then s else scrub ptr size s, ptr).

Definition count_free (block_size : Z) (st : kmalloc_stats_t) : kmalloc_stats_t :=
  let data_size := block_size - BLOCK_HEADER_SIZE in
  KmallocStats (total_allocs st) (u64 (total_frees st + 1)) (if current_allocs st >? 0 then current_allocs st - 1 else current_allocs st) (total_bytes st)
    (if (block_size >? BLOCK_HEADER_SIZE) && (current_bytes st >=? data_size) then current_bytes st - data_size else current_bytes st) (peak_bytes st).

Definition kfree (ptr : Z) (s : kheap) : option kheap :=
  if ptr =? 0 then Some s
  else
    let block := u64 (ptr - BLOCK_HEADER_SIZE) in
    b ← hd block s;
    if negb (b_magic b =? KMALLOC_MAGIC) then Some s
    else if b_is_free b =? 1 then Some s
    else
      s ← on_hd block (set_b_use 1 (b_magic b)) s;
      merge_free_blocks block (upd_stats (count_free (b_size b) (kh_stats s)) s).

Definition kfree_secure (ptr size : Z) (s : kheap) : option kheap :=
  if ptr =? 0 then Some s else kfree ptr (if size >? 0 then scrub ptr size s else s).

Definition kmalloc_get_stats (stats : bool) (s : kheap) : Z * option kmalloc_stats_t :=
  if stats then (0, Some (kh_stats s)) else (- EINVAL, None).
