(* ===== verification/KmallocInv.v ===== *)
(** * The kernel heap: its blocks as a sequence

    The headers tile the heap; a sequence of (size, free?) describes them. *)

From S2P Require Import Prelude Kmalloc.

Set Default Goal Selector "!".

#[local] Arguments Z.pow : simpl never.

Implicit Types (L : list (Z * bool)) (m : gmap Z block_header_t).

(** ** Sequences of blocks *)

Definition total L : Z := foldr (λ x t, x.1 + t) 0 L.

(** The address of the first block, or what follows when there is none. *)
Definition first_ptr (a : Z) L (fin : Z) : Z := match L with [] => fin | _ => a end.

Fixpoint last_ptr (p a : Z) L : Z := match L with [] => p | x :: L => last_ptr a (a + x.1) L end.

Fixpoint last_free (p : bool) L : bool := match L with [] => p | x :: L => last_free x.2 L end.

Fixpoint chain m (p a : Z) L (fin : Z) : Prop :=
  match L with
  | [] => True
  | (sz, f) :: L => m !! a = Some (BlockHeader sz KMALLOC_MAGIC (Z.b2z f) (first_ptr (a + sz) L fin) p) ∧ chain m a (a + sz) L fin
  end.

(** No two free blocks are neighbours; [p] tells of the block before. *)
Fixpoint coalesced (p : bool) L : Prop := match L with [] => True | x :: L => p && x.2 = false ∧ coalesced x.2 L end.

Definition good_size (sz : Z) : Prop := MIN_BLOCK_SIZE <= sz ∧ sz mod KMALLOC_ALIGN = 0.
Definition sizes_ok L : Prop := Forall (λ x, good_size x.1) L.

(** The blocks in use, by the addresses of their headers. *)
Fixpoint live_of (a : Z) L : gmap Z Z :=
  match L with [] => ∅ | (sz, f) :: L => if f : bool then live_of (a + sz) L else <[a := sz]> (live_of (a + sz) L) end.

Lemma total_blocks_app L1 L2 : total (L1 ++ L2) = total L1 + total L2.
Proof. induction L1 as [|x L1 IH]; cbn; [done|]. unfold total in *. rewrite IH. lia. Qed.

Lemma total_cons x L : total (x :: L) = x.1 + total L.
Proof. done. Qed.

Lemma total_blocks_nonneg L : sizes_ok L → 0 <= total L.
Proof. induction 1 as [|x L [H _] _ IH]; cbn; [lia|]. unfold total in IH. change MIN_BLOCK_SIZE with 48 in H. lia. Qed.

Lemma good_size_48 sz : good_size sz → 48 <= sz.
Proof. by intros [H _]. Qed.

Lemma total_aligned L : sizes_ok L → total L mod 16 = 0.
Proof.
  induction 1 as [|x L [_ H] _ IH]; [done|]. rewrite total_cons, Z.add_mod by lia. change KMALLOC_ALIGN with 16 in H. by rewrite H, IH.
Qed.

Lemma chain_app m p a L1 L2 fin :
  chain m p a (L1 ++ L2) fin ↔ chain m p a L1 (first_ptr (a + total L1) L2 fin) ∧ chain m (last_ptr p a L1) (a + total L1) L2 fin.
Proof.
  revert p a. induction L1 as [|[sz f] L1 IH]; intros p a; cbn -[total].
  - change (total []) with 0. rewrite Z.add_0_r. tauto.
  - rewrite total_cons. cbn [fst]. rewrite IH, Z.add_assoc.
    replace (first_ptr (a + sz) (L1 ++ L2) fin) with (first_ptr (a + sz) L1 (first_ptr (a + sz + total L1) L2 fin)); [tauto|].
    destruct L1; [|done]. cbn. change (total []) with 0. by rewrite Z.add_0_r.
Qed.

Lemma coalesced_app p L1 L2 : coalesced p (L1 ++ L2) ↔ coalesced p L1 ∧ coalesced (last_free p L1) L2.
Proof. revert p. induction L1 as [|x L1 IH]; intros p; cbn; [tauto|]. rewrite IH. tauto. Qed.

Lemma last_ptr_snoc p a L x : last_ptr p a (L ++ [x]) = a + total L.
Proof.
  revert p a. induction L as [|y L IH]; intros p a; [cbn; lia|]. cbn [app last_ptr]. rewrite IH, total_cons. lia.
Qed.

Lemma last_free_snoc p L x : last_free p (L ++ [x]) = x.2.
Proof. revert p. induction L as [|y L IH]; intros p; [done|]. apply IH. Qed.

Lemma coalesced_weaken L : coalesced true L → coalesced false L.
Proof. destruct L as [|x L]; [done|]. cbn. tauto. Qed.

Lemma coalesced_used sz L p : coalesced p ((sz, false) :: L) ↔ coalesced false L.
Proof. cbn. rewrite andb_false_r. tauto. Qed.

(** ** What the blocks in use are *)

Lemma live_of_app a L1 L2 : live_of a (L1 ++ L2) = live_of a L1 ∪ live_of (a + total L1) L2.
Proof.
  revert a. induction L1 as [|[sz f] L1 IH]; intros a; cbn -[total].
  - change (total []) with 0. by rewrite Z.add_0_r, (left_id_L ∅ (∪)).
  - rewrite total_cons, IH. cbn [fst]. rewrite Z.add_assoc. destruct f; [done|]. by rewrite insert_union_l.
Qed.

Lemma live_of_range a L x sz : sizes_ok L → live_of a L !! x = Some sz → a <= x ∧ x + sz <= a + total L ∧ 48 <= sz.
Proof.
  intros H. revert a. induction H as [|[sz1 f] L H1%good_size_48 HL IH]; intros a E; [done|]. cbn [fst] in H1. rewrite total_cons. cbn [fst].
  pose proof (total_blocks_nonneg L HL). cbn in E.
  destruct f; [apply IH in E; lia|]. apply lookup_insert_Some in E as [[-> ->]|[_ E%IH]]; lia.
Qed.

Lemma live_of_fresh a L x : sizes_ok L → x < a ∨ a + total L <= x → live_of a L !! x = None.
Proof. intros HL Hx. apply eq_None_not_Some. intros [sz E]. apply live_of_range in E; [lia|done]. Qed.

Lemma live_of_split a L x sz : live_of a L !! x = Some sz → ∃ L1 L2, L = L1 ++ (sz, false) :: L2 ∧ x = a + total L1.
Proof.
  revert a. induction L as [|[sz1 f] L IH]; intros a E; [done|]. cbn in E.
  assert (x = a ∧ f = false ∧ sz1 = sz ∨ live_of (a + sz1) L !! x = Some sz) as [(-> & -> & ->)|E'].
  { destruct f; [by right|]. apply lookup_insert_Some in E as [[-> ->]|[_ E]]; auto. }
  - exists [], L. split; [done|cbn; lia].
  - destruct (IH _ E') as (L1 & L2 & -> & ->). exists ((sz1, f) :: L1), L2. split; [done|]. rewrite total_cons. cbn. lia.
Qed.

Lemma live_of_merge a L1 n k L2 : live_of a (L1 ++ (n, true) :: (k, true) :: L2) = live_of a (L1 ++ (n + k, true) :: L2).
Proof. rewrite !live_of_app. cbn. by rewrite Z.add_assoc. Qed.

Lemma live_of_mark a L1 n L2 : sizes_ok L1 →
  live_of a (L1 ++ (n, false) :: L2) = <[a + total L1 := n]> (live_of a (L1 ++ (n, true) :: L2)).
Proof. intros H. rewrite !live_of_app. cbn. rewrite insert_union_r; [done|]. apply live_of_fresh; [done|lia]. Qed.

Lemma live_of_unmark a L1 n L2 : sizes_ok (L1 ++ (n, false) :: L2) →
  live_of a (L1 ++ (n, true) :: L2) = delete (a + total L1) (live_of a (L1 ++ (n, false) :: L2)).
Proof.
  intros H. apply Forall_app in H as [H1 [Hn%good_size_48 H2]%Forall_cons]. cbn in Hn. rewrite live_of_mark by done. rewrite delete_insert_id; [done|].
  rewrite live_of_app. apply lookup_union_None. split; [apply live_of_fresh; [done|lia]|]. cbn. apply live_of_fresh; [done|lia].
Qed.

(** A range that no block in use touches lies in one free block. *)
Definition free_run (a e : Z) (live : gmap Z Z) (x n : Z) : Prop :=
  a <= x ∧ x + n <= e ∧ ∀ y sz, live !! y = Some sz → y + sz <= x ∨ x + n <= y.

Lemma free_run_block a L p x n : sizes_ok L → coalesced p L → 0 < n → free_run a (a + total L) (live_of a L) x n →
  ∃ L1 sz L2, L = L1 ++ (sz, true) :: L2 ∧ a + total L1 <= x ∧ x + n <= a + total L1 + sz.
Proof.
  intros HL. revert a p. induction HL as [|[sz f] L H1%good_size_48 HL IH]; intros a p HC Hn (Hx & He & Hr).
  { cbn in He. lia. }
  cbn [fst] in H1. destruct HC as [Hp HC]. rewrite total_cons in He. cbn [fst] in He.
  assert (Hr' : ∀ y sz', live_of (a + sz) L !! y = Some sz' → y + sz' <= x ∨ x + n <= y).
  { intros y sz' E. apply Hr. cbn. destruct f; [done|]. rewrite lookup_insert_ne; [done|]. apply live_of_range in E; [lia|done]. }
  destruct (Z.le_gt_cases (a + sz) x) as [Hge|Hlt].
  - destruct (IH (a + sz) f HC Hn) as (L1 & z & L2 & -> & Ha & Hb); [split; [lia|]; split; [lia|done]|].
    exists ((sz, f) :: L1), z, L2. rewrite total_cons. cbn [fst]. split; [done|lia].
  - destruct f.
    + exists [], sz, L. split; [done|]. change (total []) with 0. split; [lia|].
      destruct L as [|[z g] L]; [cbn in He; lia|]. destruct HC as [Hg HC]. cbn in Hg. subst g.
      destruct (Hr' (a + sz) z) as [?|?]; [cbn; apply lookup_insert_eq| |lia].
      inversion HL as [|? ? H2%good_size_48 _]. cbn in H2. lia.
    + destruct (Hr a sz) as [?|?]; [cbn; apply lookup_insert_eq|lia|lia].
Qed.

Lemma block_free_run a L1 sz L2 : sizes_ok (L1 ++ (sz, true) :: L2) →
  free_run a (a + total (L1 ++ (sz, true) :: L2)) (live_of a (L1 ++ (sz, true) :: L2)) (a + total L1) sz.
Proof.
  intros H. apply Forall_app in H as [H1 [Hn%good_size_48 H2]%Forall_cons]. pose proof (total_blocks_nonneg _ H1). pose proof (total_blocks_nonneg _ H2).
  rewrite total_blocks_app, total_cons. cbn [fst]. split; [lia|]. split; [lia|].
  intros y z E. rewrite live_of_app in E. apply lookup_union_Some_raw in E as [E|[_ E]].
  - apply live_of_range in E; [lia|done].
  - cbn in E. apply live_of_range in E; [lia|done].
Qed.

(** ** Memory and chains *)

Lemma chain_ext m m' p a L fin : sizes_ok L → (∀ x, a <= x < a + total L → m' !! x = m !! x) → chain m p a L fin → chain m' p a L fin.
Proof.
  intros HL. revert p a. induction HL as [|[sz f] L H%good_size_48 HL IH]; intros p a Hm; cbn -[total]; [done|].
  cbn [fst] in H. pose proof (total_blocks_nonneg L HL). rewrite total_cons in Hm. cbn [fst] in Hm. intros [E HC]. split.
  - rewrite Hm; [done|lia].
  - apply IH; [intros x Hx; apply Hm; lia|done].
Qed.

Lemma chain_tail m m' p a L1 x L2 y L2' fin : sizes_ok L1 → chain m p a (L1 ++ x :: L2) fin → (∀ z, z < a + total L1 → m' !! z = m !! z) →
  chain m' (last_ptr p a L1) (a + total L1) (y :: L2') fin → chain m' p a (L1 ++ y :: L2') fin.
Proof. rewrite !chain_app. intros H1 [HC _] Hm HC'. split; [|done]. eapply chain_ext; [done| |exact HC]. intros z Hz. apply Hm. lia. Qed.

Lemma hd_get s a b : 0 < a → kh_mem s !! a = Some b → hd a s = Some b.
Proof. intros Ha E. unfold hd. by rewrite (proj2 (Z.eqb_neq a 0)) by lia. Qed.

Lemma on_hd_get s a b f : 0 < a → kh_mem s !! a = Some b → on_hd a f s = Some (upd_mem (<[a := f b]> (kh_mem s)) s).
Proof. intros Ha E. unfold on_hd. by rewrite (hd_get _ _ _ Ha E). Qed.

Lemma link_prev_run s p a L q : 0 < a → sizes_ok L → chain (kh_mem s) p a L 0 →
  ∃ m', link_prev (first_ptr a L 0) q s = Some (upd_mem m' s) ∧ chain m' q a L 0 ∧ ∀ x, x ≠ a → m' !! x = kh_mem s !! x.
Proof.
  intros Ha HL HC. unfold link_prev. destruct L as [|[sz f] L].
  - exists (kh_mem s). by destruct s.
  - destruct HC as [E HC]. cbn [first_ptr]. rewrite (proj2 (Z.eqb_neq a 0)) by lia. rewrite (on_hd_get _ _ _ _ Ha E).
    inversion HL as [|? ? H%good_size_48 HL']; subst. cbn in H.
    eexists. split; [done|]. split; [|intros x Hx; by apply lookup_insert_ne]. cbn. rewrite lookup_insert_eq. split; [done|].
    eapply chain_ext; [done| |exact HC]. intros x Hx. apply lookup_insert_ne. lia.
Qed.

(** ** The operations on the sequence of blocks *)

(** A block is marked free or in use. *)
Lemma mark_run s p a sz f g L : 0 < a → sizes_ok ((sz, f) :: L) → chain (kh_mem s) p a ((sz, f) :: L) 0 →
  ∃ m', on_hd a (set_b_use (Z.b2z g) KMALLOC_MAGIC) s = Some (upd_mem m' s) ∧ chain m' p a ((sz, g) :: L) 0 ∧ ∀ x, x ≠ a → m' !! x = kh_mem s !! x.
Proof.
  intros Ha [H%good_size_48 HL]%Forall_cons [E HC]. cbn in H. rewrite (on_hd_get _ _ _ _ Ha E).
  eexists. split; [done|]. split; [|intros x Hx; by apply lookup_insert_ne]. cbn. rewrite lookup_insert_eq. split; [done|].
  eapply chain_ext; [done| |exact HC]. intros x Hx. apply lookup_insert_ne. lia.
Qed.

Lemma scrub_lookup p n s x : ¬ (p < x + 32 ∧ x < p + n) → kh_mem (scrub p n s) !! x = kh_mem s !! x.
Proof.
  intros Hx. unfold scrub. cbn [kh_mem upd_mem]. rewrite map_lookup_filter. destruct (kh_mem s !! x) as [b|]; [|done]. cbn.
  by rewrite option_guard_True.
Qed.

(** What remains of a block of [sz] bytes of which [n] are taken. *)
Definition split_of (sz n : Z) : Z * list (Z * bool) := if 48 <=? sz - n then (n, [(sz - n, true)]) else (sz, []).

Lemma split_block_run s p a sz n f L : 0 < a → a + sz < 2 ^ 64 → sizes_ok ((sz, f) :: L) → good_size n → n <= sz → chain (kh_mem s) p a ((sz, f) :: L) 0 →
  ∃ m', split_block a n s = Some (upd_mem m' s) ∧ chain m' p a (((split_of sz n).1, f) :: (split_of sz n).2 ++ L) 0 ∧ ∀ x, x < a → m' !! x = kh_mem s !! x.
Proof.
  intros Ha Hs [H%good_size_48 HL]%Forall_cons Hn%good_size_48 Hle [E HC]. cbn in H. unfold split_block, split_of.
  rewrite (proj2 (Z.eqb_neq a 0)) by lia. rewrite (hd_get _ _ _ Ha E), some_bind. cbn [b_size b_next]. rewrite (u64_small (sz - n)) by lia.
  change MIN_BLOCK_SIZE with 48. rewrite Z.geb_leb. destruct (48 <=? sz - n) eqn:Hr; [|exists (kh_mem s); by destruct s].
  apply Z.leb_le in Hr. rewrite (u64_small (a + n)) by lia. cbn [fst snd app].
  set (s1 := put_new (a + n) _ s).
  assert (Hs1 : ∀ x, x ≠ a + n → x <= a ∨ a + sz <= x → kh_mem s1 !! x = kh_mem s !! x).
  { intros x Hx Hd. unfold s1, put_new, put. cbn [kh_mem upd_mem]. rewrite lookup_insert_ne by done. apply scrub_lookup. change BLOCK_HEADER_SIZE with 32. lia. }
  destruct (link_prev_run s1 a (a + sz) L (a + n)) as (m2 & -> & HC2 & Hm2); [lia|done| |].
  { eapply chain_ext; [done| |exact HC]. intros x Hx. apply Hs1; lia. }
  rewrite some_bind. assert (E2 : m2 !! a = kh_mem s !! a) by (rewrite Hm2, Hs1 by lia; done).
  rewrite (on_hd_get (upd_mem m2 s1) a _ _ Ha (eq_trans E2 E)). eexists. split; [done|]. split.
  - cbn [chain kh_mem upd_mem]. split; [by rewrite lookup_insert_eq|]. rewrite lookup_insert_ne by lia. split.
    + rewrite Hm2 by lia. unfold s1, put_new, put. cbn [kh_mem upd_mem]. rewrite lookup_insert_eq. do 3 f_equal. lia.
    + replace (a + n + (sz - n)) with (a + sz) by lia. eapply chain_ext; [done| |exact HC2]. intros x Hx. apply lookup_insert_ne. lia.
  - intros x Hx. cbn [kh_mem upd_mem]. rewrite lookup_insert_ne by lia. rewrite Hm2, Hs1 by lia. done.
Qed.

(** ** Merging *)

(** A block takes in the block behind it. *)
Lemma join_run s p a sz z f g L : 0 < a → a + sz + z < 2 ^ 64 → sizes_ok ((sz, f) :: (z, g) :: L) → chain (kh_mem s) p a ((sz, f) :: (z, g) :: L) 0 →
  ∃ s1 m', on_hd a (λ b, set_b_size (u64 (b_size b + z)) (set_b_next (first_ptr (a + sz + z) L 0) b)) s = Some s1 ∧
    link_prev (first_ptr (a + sz + z) L 0) a s1 = Some (upd_mem m' s) ∧ chain m' p a ((sz + z, f) :: L) 0 ∧
    ∀ x, x < a ∨ x = a + sz → m' !! x = kh_mem s !! x.
Proof.
  intros Ha Hs [H%good_size_48 [Hz%good_size_48 HL]%Forall_cons]%Forall_cons [E [_ HC]]. cbn in H, Hz.
  rewrite (on_hd_get _ _ _ _ Ha E). cbn [b_size]. rewrite (u64_small (sz + z)) by lia. eexists.
  destruct (link_prev_run (upd_mem (<[a := BlockHeader (sz + z) KMALLOC_MAGIC (Z.b2z f) (first_ptr (a + sz + z) L 0) p]> (kh_mem s)) s)
              (a + sz) (a + sz + z) L a) as (m2 & Hl & HC2 & Hm2); [lia|done| |].
  { eapply chain_ext; [done| |exact HC]. intros x Hx. apply lookup_insert_ne. lia. }
  exists m2. split; [done|]. split; [exact Hl|]. split.
  - cbn [chain]. rewrite Z.add_assoc. split; [|done]. rewrite Hm2 by lia. apply lookup_insert_eq.
  - intros x Hx. rewrite Hm2 by lia. apply lookup_insert_ne. lia.
Qed.

Definition absorb (sz : Z) L : Z * list (Z * bool) := match L with (n, true) :: L' => (sz + n, L') | _ => (sz, L) end.

Lemma merge_forward_stops fuel s p a sz f L : 0 < a → 48 <= sz → coalesced true L → chain (kh_mem s) p a ((sz, f) :: L) 0 → merge_forward fuel a s = Some s.
Proof.
  intros Ha H Hc [E HC]. destruct fuel; cbn [merge_forward]; rewrite (hd_get _ _ _ Ha E), some_bind; cbn [b_next];
  (destruct L as [|[z b] L]; [done|]); destruct Hc as [Hb _]; cbn in Hb; subst b; cbn [first_ptr];
  rewrite (proj2 (Z.eqb_neq (a + sz) 0)) by lia; destruct HC as [E2 _]; assert (Ha2 : 0 < a + sz) by lia; by rewrite (hd_get _ _ _ Ha2 E2).
Qed.

Lemma merge_forward_run fuel s p a sz f L : 0 < a → a + total ((sz, f) :: L) < 2 ^ 64 → sizes_ok ((sz, f) :: L) → coalesced false L → (0 < fuel)%nat →
  chain (kh_mem s) p a ((sz, f) :: L) 0 →
  ∃ m', merge_forward fuel a s = Some (upd_mem m' s) ∧ chain m' p a (((absorb sz L).1, f) :: (absorb sz L).2) 0 ∧ ∀ x, x < a → m' !! x = kh_mem s !! x.
Proof.
  intros Ha Hs HL Hc Hf HC. destruct fuel as [|fuel]; [lia|]. pose proof HL as [H%good_size_48 HL']%Forall_cons. cbn in H.
  rewrite total_cons in Hs. cbn [fst] in Hs. destruct L as [|[z [|]] L].
  1: { exists (kh_mem s). rewrite (merge_forward_stops _ s p a sz f []); [by destruct s|done..]. }
  2: { exists (kh_mem s). rewrite (merge_forward_stops _ s p a sz f ((z, false) :: L)); [by destruct s|done|done| |done]. split; [done|]. apply Hc. }
  apply Forall_cons in HL' as [Hz%good_size_48 HL']. cbn in Hz. pose proof (total_blocks_nonneg L HL'). rewrite total_cons in Hs. cbn [fst] in Hs.
  destruct (join_run s p a sz z f true L) as (s1 & m' & E1 & E2 & HC' & Hm); [done|lia|done|done|].
  exists m'. cbn [absorb fst snd]. split; [|split; [done|intros x Hx; apply Hm; by left]].
  destruct HC as [Ea [En _]]. assert (Ha2 : 0 < a + sz) by lia.
  cbn [merge_forward]. rewrite (hd_get _ _ _ Ha Ea), some_bind. cbn [b_next b_size first_ptr]. rewrite (proj2 (Z.eqb_neq (a + sz) 0)) by lia.
  rewrite (hd_get _ _ _ Ha2 En), some_bind. cbn [b_is_free b_magic Z.b2z b_size b_next].
  rewrite (u64_small (a + sz)) by lia. rewrite !Z.eqb_refl. cbn [negb]. rewrite E1, some_bind, E2, some_bind.
  apply (merge_forward_stops _ _ p a (sz + z) f L); [done|lia|apply Hc|done].
Qed.

(** The same towards the blocks before. *)
Definition absorb_back L (k : Z) (L3 : list (Z * bool)) : list (Z * bool) :=
  match reverse L with (n, true) :: L' => reverse L' ++ (n + k, true) :: L3 | _ => L ++ (k, true) :: L3 end.

Lemma chain_at m p a L1 sz f L2 fin : chain m p a (L1 ++ (sz, f) :: L2) fin →
  m !! (a + total L1) = Some (BlockHeader sz KMALLOC_MAGIC (Z.b2z f) (first_ptr (a + total L1 + sz) L2 fin) (last_ptr p a L1)).
Proof. intros [_ [E _]]%chain_app. exact E. Qed.

Lemma merge_backward_stops fuel s a L1 k L3 : 0 < a → sizes_ok L1 → last_free false L1 = false → chain (kh_mem s) 0 a (L1 ++ (k, true) :: L3) 0 →
  merge_backward fuel (a + total L1) s = Some s.
Proof.
  intros Ha H1 Hf HC. pose proof (total_blocks_nonneg L1 H1). pose proof (chain_at _ _ _ _ _ _ _ _ HC) as E.
  assert (Hc : 0 < a + total L1) by lia.
  destruct fuel; cbn [merge_backward]; rewrite (hd_get _ _ _ Hc E), some_bind; cbn [b_prev];
  (destruct L1 as [|[z b] L0 _] using rev_ind; [done|]); rewrite last_free_snoc in Hf; cbn in Hf; subst b;
  rewrite <- app_assoc in HC; pose proof (chain_at _ _ _ _ _ _ _ _ HC) as E0; rewrite last_ptr_snoc;
  apply Forall_app in H1 as [H0 _]; pose proof (total_blocks_nonneg L0 H0); assert (Hp : 0 < a + total L0) by lia;
  rewrite (proj2 (Z.eqb_neq (a + total L0) 0)) by lia; by rewrite (hd_get _ _ _ Hp E0).
Qed.

Lemma merge_backward_run fuel s a L1 k L3 : 0 < a → a + total (L1 ++ (k, true) :: L3) < 2 ^ 64 → sizes_ok (L1 ++ (k, true) :: L3) → coalesced false L1 →
  (0 < fuel)%nat → chain (kh_mem s) 0 a (L1 ++ (k, true) :: L3) 0 →
  ∃ m', merge_backward fuel (a + total L1) s = Some (upd_mem m' s) ∧ chain m' 0 a (absorb_back L1 k L3) 0 ∧
    m' !! (a + total L1) = kh_mem s !! (a + total L1).
Proof.
  intros Ha Hs HL Hc Hf HC. unfold absorb_back. destruct L1 as [|[z g] L0 _] using rev_ind; [|rewrite reverse_snoc; destruct g].
  - exists (kh_mem s). rewrite (merge_backward_stops fuel s a [] k L3); [by destruct s|done|by constructor|done|done].
  - destruct fuel as [|fuel]; [lia|]. rewrite <- app_assoc in HC, HL. apply coalesced_app in Hc as [Hc0 [Hz _]]. cbn in Hz. rewrite andb_true_r in Hz.
    pose proof HL as [H0 HLz]%Forall_app. pose proof HLz as [H1%good_size_48 [H2%good_size_48 H3]%Forall_cons]%Forall_cons. cbn in H1, H2.
    pose proof (total_blocks_nonneg L0 H0). pose proof (total_blocks_nonneg L3 H3). rewrite !total_blocks_app, !total_cons in Hs. rewrite total_blocks_app, total_cons.
    change (total []) with 0 in *. cbn [fst] in *.
    replace (a + (total L0 + (z + 0))) with (a + total L0 + z) in * by lia. pose proof HC as [HC0 HCz]%chain_app.
    destruct (join_run s (last_ptr 0 a L0) (a + total L0) z k true true L3) as (s1 & m' & E1 & E2 & HC' & Hm); [lia|lia|done|done|].
    assert (HCn : chain m' 0 a (L0 ++ (z + k, true) :: L3) 0).
    { eapply chain_tail; [done|exact HC| |exact HC']. intros y Hy. apply Hm. by left. }
    exists m'. rewrite reverse_involutive. split; [|split; [done|apply Hm; by right]].
    destruct HCz as [Ep [Ek _]]. assert (Ha2 : 0 < a + total L0 + z) by lia. assert (Ha1 : 0 < a + total L0) by lia.
    cbn [merge_backward]. rewrite (hd_get _ _ _ Ha2 Ek), some_bind. cbn [b_prev b_size b_next]. rewrite (proj2 (Z.eqb_neq (a + total L0) 0)) by lia.
    rewrite (hd_get _ _ _ Ha1 Ep), some_bind. cbn [b_is_free b_magic Z.b2z b_size b_next].
    rewrite (u64_small (a + total L0 + z)) by lia. rewrite !Z.eqb_refl. cbn [negb]. rewrite E1, some_bind, E2, some_bind.
    by apply (merge_backward_stops _ _ a L0 (z + k) L3).
  - exists (kh_mem s). rewrite (merge_backward_stops fuel s a (L0 ++ [(z, false)]) k L3); [by destruct s|done| |by rewrite last_free_snoc|done].
    by apply Forall_app in HL as [? _].
Qed.
