(* ===== verification/KmallocTheorems.v ===== *)
(** * The kernel heap: blocks in use are apart, and none is lost

    The heap implements a set of blocks, with first fit in the order of
    addresses.  Callers may write anything into the blocks they hold. *)

From S2P Require Import Prelude Kmalloc KmallocInv.

Set Default Goal Selector "!".

#[local] Arguments Z.pow : simpl never.

Implicit Types (L : list (Z * bool)) (m : gmap Z block_header_t).

(** ** The blocks in use *)

Fixpoint walk_live (fuel : nat) (a : Z) (s : kheap) : gmap Z Z :=
  match fuel with
  | O => ∅
  | S fuel => match hd a s with
              | Some b => if b_is_free b =? 1 then walk_live fuel (b_next b) s else <[a := b_size b]> (walk_live fuel (b_next b) s)
              | None => ∅
              end
  end.

(** Header address and size of each block in use. *)
Definition heap_live (s : kheap) : gmap Z Z := walk_live (size (kh_mem s)) (kh_first s) s.

(** ** Calls *)

Inductive k_op :=
  | KMalloc (size : Z) | KZalloc (size : Z) | KFree (p : Z) | KFreeSecure (p size : Z)
  | KWrite (p n : Z) | KForge (p : Z) (b : block_header_t).

Definition run_k (o : k_op) (s : kheap) : option (kheap * Z) :=
  match o with
  | KMalloc size => kmalloc size s
  | KZalloc size => kzalloc size s
  | KFree p => s ← kfree p s; Some (s, 0)
  | KFreeSecure p size => s ← kfree_secure p size s; Some (s, 0)
  | KWrite p n => Some (scrub p n s, 0)
  | KForge p b => Some (put_new p b s, 0)
  end.

(** [n] bytes at [p] belong to the data of a block in use. *)
Definition in_data (s : kheap) (p n : Z) : Prop :=
  0 <= n ∧ ∃ a sz, heap_live s !! a = Some sz ∧ a + BLOCK_HEADER_SIZE <= p ∧ p + n <= a + sz.

(** [p] was freed, and the memory has not been reused. *)
Definition freed (s : kheap) (p : Z) : Prop := ∃ b, hd (p - BLOCK_HEADER_SIZE) s = Some b ∧ b_is_free b = 1 ∧ 0 <= p - BLOCK_HEADER_SIZE < 2 ^ 64.

(** What callers are held to: they write only to the data of blocks in use,
    anything they like, and they pass [kfree] NULL or what [kmalloc] returned;
    a second time only while the memory has not been reused. *)
Definition k_ok (o : k_op) (s : kheap) : Prop :=
  match o with
  | KMalloc size | KZalloc size => 0 <= size < 2 ^ 64
  | KFree p => p = 0 ∨ is_Some (heap_live s !! (p - BLOCK_HEADER_SIZE)) ∨ freed s p
  | KFreeSecure p size => p = 0 ∨ ∃ sz, heap_live s !! (p - BLOCK_HEADER_SIZE) = Some sz ∧ 0 <= size <= sz - BLOCK_HEADER_SIZE
  | KWrite p n => in_data s p n
  | KForge p _ => in_data s p BLOCK_HEADER_SIZE
  end.

Inductive k_reach (base : Z) : kheap → Prop :=
  | k_reach_init s : k_reach base (kmalloc_init base s).1
  | k_reach_step s o s' r : k_reach base s → k_ok o s → run_k o s = Some (s', r) → k_reach base s'.

(** ** What a call promises *)

(** The bytes that a request for [size] takes. *)
Definition bytes_for (size : Z) : Z := 16 * ((size + 15) / 16) + 32.

Definition k_spec (base : Z) (o : k_op) (r : Z) (V V' : gmap Z Z) : Prop :=
  let run := free_run base (base + KMALLOC_HEAP_SIZE) V in
  match o with
  | KMalloc size | KZalloc size =>
      if (size =? 0) || (size >? KMALLOC_MAX_SIZE) then r = 0 ∧ V' = V
      else let n := bytes_for size in
           (r = 0 ∧ V' = V ∧ ∀ x, ¬ run x n) ∨
           (∃ sz, V' = <[r - 32 := sz]> V ∧ n <= sz < n + 48 ∧ r mod 16 = 0 ∧ run (r - 32) sz ∧ ∀ x, run x n → r - 32 <= x)
  | KFree p | KFreeSecure p _ => r = 0 ∧ V' = if p =? 0 then V else delete (p - 32) V
  | KWrite _ _ | KForge _ _ => V' = V
  end.

(** Where the linker may put the heap. *)
Definition heap_place (base : Z) : Prop := 0 < base ∧ base mod KMALLOC_ALIGN = 0 ∧ base + KMALLOC_HEAP_SIZE < 2 ^ 64.

(** ** The invariant *)

Record heap_inv (base : Z) L (s : kheap) : Prop := HeapInv {
  hi_first : kh_first s = base;
  hi_init : kh_init s = 1;
  hi_chain : chain (kh_mem s) 0 base L 0;
  hi_sizes : sizes_ok L;
  hi_coalesced : coalesced false L;
  hi_total : total L = KMALLOC_HEAP_SIZE;
  hi_count : current_allocs (kh_stats s) = Z.of_nat (size (live_of base L))
}.

Lemma chain_fuel_aux m p a L fin (X : gset Z) : sizes_ok L → chain m p a L fin → X ⊆ dom m → (∀ x, x ∈ X → x < a) → (size X + length L <= size m)%nat.
Proof.
  intros HL. revert p a X. induction HL as [|[sz f] L H%good_size_48 HL IH]; intros p a X HC HX Hlt.
  - cbn. rewrite <- size_dom. apply subseteq_size in HX. lia.
  - destruct HC as [E HC]. cbn in H. assert (Ha : a ∉ X) by (intros Hx; apply Hlt in Hx; lia).
    assert (Hs : (size ({[a]} ∪ X) + length L <= size m)%nat).
    { apply (IH a (a + sz)); [done| |].
      - apply union_subseteq. split; [|done]. apply singleton_subseteq_l. apply elem_of_dom. eauto.
      - intros x [->%elem_of_singleton|Hx%Hlt]%elem_of_union; lia. }
    rewrite size_union, size_singleton in Hs by set_solver. cbn. lia.
Qed.

Lemma chain_length m p a L fin : sizes_ok L → chain m p a L fin → (length L <= size m)%nat.
Proof. intros HL HC. pose proof (chain_fuel_aux m p a L fin ∅ HL HC). rewrite size_empty in H. apply H; set_solver. Qed.

Lemma walk_live_chain fuel s p a L : 0 < a → sizes_ok L → (length L <= fuel)%nat → chain (kh_mem s) p a L 0 → walk_live fuel (first_ptr a L 0) s = live_of a L.
Proof.
  intros Ha HL. revert fuel p a Ha. induction HL as [|[sz f] L H%good_size_48 HL IH]; intros fuel p a Ha Hf HC.
  - by destruct fuel.
  - destruct fuel as [|fuel]; [cbn in Hf; lia|]. destruct HC as [E HC]. cbn in H, Hf |- *. rewrite (hd_get _ _ _ Ha E). cbn [b_is_free b_next b_size].
    rewrite (IH fuel a (a + sz)); [by destruct f|lia|lia|done].
Qed.

Lemma live_of_size a L : sizes_ok L → 48 * Z.of_nat (size (live_of a L)) <= total L.
Proof.
  intros HL. revert a. induction HL as [|[sz f] L H%good_size_48 HL IH]; intros a; [done|]. cbn in H. rewrite total_cons. cbn [fst].
  specialize (IH (a + sz)). cbn. destruct f; [lia|]. rewrite map_size_insert_None; [lia|]. apply live_of_fresh; [done|lia].
Qed.

(** A block does not serve a request of [n] bytes. *)
Definition unfit (n : Z) (x : Z * bool) : Prop := x.2 && (n <=? x.1) = false.

Lemma first_fit_chain fuel s p a L n : 0 < a → sizes_ok L → (length L < fuel)%nat → chain (kh_mem s) p a L 0 →
  (first_fit fuel (first_ptr a L 0) n s = Some 0 ∧ Forall (unfit n) L) ∨
  (∃ L1 sz L2, L = L1 ++ (sz, true) :: L2 ∧ n <= sz ∧ Forall (unfit n) L1 ∧ first_fit fuel (first_ptr a L 0) n s = Some (a + total L1)).
Proof.
  intros Ha HL. revert fuel p a Ha. induction HL as [|[sz f] L H%good_size_48 HL IH]; intros fuel p a Ha Hf HC.
  - left. by destruct fuel.
  - destruct fuel as [|fuel]; [cbn in Hf; lia|]. destruct HC as [E HC]. cbn in H, Hf. cbn [first_ptr first_fit].
    rewrite (proj2 (Z.eqb_neq a 0)) by lia. rewrite (hd_get _ _ _ Ha E), some_bind. cbn [b_is_free b_size b_next]. rewrite Z.geb_leb.
    destruct (f && (n <=? sz)) eqn:Hu.
    + right. destruct f; [|done]. exists [], sz, L. cbn in Hu |- *. rewrite Hu, Z.add_0_r. apply Z.leb_le in Hu. auto.
    + replace ((Z.b2z f =? 1) && (n <=? sz)) with false by (by destruct f).
      destruct (IH fuel a (a + sz)) as [[-> HF]|(L1 & z & L2 & -> & Hz & HF & ->)]; [lia|lia|done| |].
      * left. split; [done|]. by constructor.
      * right. exists ((sz, f) :: L1), z, L2. rewrite total_cons. cbn [fst]. rewrite Z.add_assoc. split; [done|]. split; [done|]. split; [|done]. by constructor.
Qed.

Section heap.
Context (base : Z) (HP : heap_place base).

Lemma base_facts : 0 < base ∧ base mod 16 = 0 ∧ base + 2097152 < 18446744073709551616.
Proof using HP. exact HP. Qed.

Lemma inv_first L s : heap_inv base L s → first_ptr base L 0 = base.
Proof. intros HI. pose proof (hi_total _ _ _ HI) as Ht. by destruct L. Qed.

Lemma inv_live L s : heap_inv base L s → heap_live s = live_of base L.
Proof using HP.
  intros HI. pose proof base_facts. unfold heap_live. rewrite (hi_first _ _ _ HI), <- (inv_first L s HI) at 1. destruct HI.
  eapply walk_live_chain; [lia|done| |done]. by eapply chain_length.
Qed.

(** What is written inside a block in use does not matter. *)
Lemma inv_data L s m' a sz : heap_inv base L s → live_of base L !! a = Some sz → (∀ x, x <= a ∨ a + sz <= x → m' !! x = kh_mem s !! x) →
  heap_inv base L (upd_mem m' s).
Proof using HP.
  intros [H1 H2 H3 H4 H5 H6 H7] Hl Hm. pose proof (live_of_split _ _ _ _ Hl) as (L1 & L2 & -> & ->). split; try done. cbn [kh_mem upd_mem].
  pose proof H4 as [HL1 [Hsz%good_size_48 HL2]%Forall_cons]%Forall_app. cbn in Hsz.
  eapply chain_tail; [done|exact H3|intros z Hz; apply Hm; lia|].
  apply chain_app in H3 as [_ [E HC]]. cbn [chain]. rewrite Hm by lia. split; [done|]. eapply chain_ext; [done| |exact HC]. intros x Hx. apply Hm. lia.
Qed.

Lemma mask_align y : 0 <= y < 2 ^ 32 → Z.land y (Z.ldiff (Z.ones 32) (Z.ones 4)) = 16 * (y / 16).
Proof.
  intros H. rewrite (Z.ldiff_land (Z.ones 32)), Z.land_assoc, (Z.land_ones y 32) by done. rewrite Z.mod_small by exact H.
  rewrite <- Z.ldiff_land, Z.ldiff_ones_r by done. rewrite Z.shiftl_mul_pow2, Z.shiftr_div_pow2 by done. change (2 ^ 4) with 16. lia.
Qed.

Lemma bytes_for_eq size : 0 < size <= KMALLOC_MAX_SIZE →
  u64 (ALIGN_UP size KMALLOC_ALIGN + BLOCK_HEADER_SIZE) = bytes_for size ∧ good_size (bytes_for size) ∧ size + 32 <= bytes_for size <= 1048640.
Proof.
  intros H. change KMALLOC_MAX_SIZE with 1048576 in H. unfold ALIGN_UP. change BLOCK_HEADER_SIZE with 32.
  change (u32 (Z.lnot (KMALLOC_ALIGN - 1))) with (Z.ldiff (Z.ones 32) (Z.ones 4)). change (KMALLOC_ALIGN - 1) with 15.
  rewrite (u64_small (size + 15)), mask_align by lia. unfold bytes_for, good_size. change MIN_BLOCK_SIZE with 48. change KMALLOC_ALIGN with 16.
  Z.to_euclidean_division_equations. rewrite u64_small by lia. split; [done|]. split; [split|]; lia.
Qed.

Lemma split_of_facts sz n : good_size sz → good_size n → n <= sz →
  let '(k, M) := split_of sz n in good_size k ∧ sizes_ok M ∧ k + total M = sz ∧ n <= k < n + 48 ∧ Forall (λ x, x.2 = true) M ∧ (length M <= 1)%nat.
Proof.
  unfold good_size. change MIN_BLOCK_SIZE with 48. change KMALLOC_ALIGN with 16. intros [H1 H2] [H3 H4] H5. unfold split_of.
  destruct (48 <=? sz - n) eqn:E.
  - apply Z.leb_le in E. assert (good_size (sz - n)).
    { split; [done|]. change KMALLOC_ALIGN with 16. rewrite Zminus_mod, H2, H4. done. }
    cbn. split; [lia|]. split; [by apply Forall_singleton|]. split; [lia|]. split; [lia|]. split; [by apply Forall_singleton|done].
  - apply Z.leb_gt in E. cbn. split; [lia|]. split; [constructor|]. split; [lia|]. split; [lia|]. split; [constructor|lia].
Qed.

Lemma unfit_no_run L n x : sizes_ok L → coalesced false L → 0 < n → total L = KMALLOC_HEAP_SIZE → Forall (unfit n) L →
  ¬ free_run base (base + KMALLOC_HEAP_SIZE) (live_of base L) x n.
Proof.
  intros HL Hc Hn Ht HF Hr. rewrite <- Ht in Hr. destruct (free_run_block _ _ _ _ _ HL Hc Hn Hr) as (L1 & sz & L2 & -> & H1 & H2).
  apply Forall_app in HF as [_ [Hu _]%Forall_cons]. unfold unfit in Hu. cbn in Hu. apply Z.leb_gt in Hu. lia.
Qed.

Lemma first_run L1 sz L2 n x : let L := L1 ++ (sz, true) :: L2 in sizes_ok L → coalesced false L → 0 < n → total L = KMALLOC_HEAP_SIZE → Forall (unfit n) L1 →
  free_run base (base + KMALLOC_HEAP_SIZE) (live_of base L) x n → base + total L1 <= x.
Proof.
  intros L HL Hc Hn Ht HF Hr. rewrite <- Ht in Hr. destruct (free_run_block _ _ _ _ _ HL Hc Hn Hr) as (M1 & z & M2 & E & H1 & H2). subst L.
  apply app_eq_inv in E as [(l & -> & E)|(l & -> & E)].
  - destruct l as [|y l]; [rewrite app_nil_r; lia|]. injection E as <- _. apply Forall_app in HF as [_ [Hu _]%Forall_cons]. unfold unfit in Hu. cbn in Hu. apply Z.leb_gt in Hu. lia.
  - rewrite total_blocks_app in *. destruct l as [|y l]; [change (total []) with 0 in *; lia|]. injection E as <- ->.
    apply Forall_app in HL as [_ HL]. apply Forall_cons in HL as [Hs%good_size_48 HL]. apply Forall_app in HL as [Hl _]. cbn in Hs.
    pose proof (total_blocks_nonneg _ Hl). rewrite total_cons in *. cbn [fst] in *. lia.
Qed.

(** Taking [k] bytes of a free block, [M] being the rest. *)
Lemma coalesced_take L1 sz L2 k M : coalesced false (L1 ++ (sz, true) :: L2) → Forall (λ x, x.2 = true) M → (length M <= 1)%nat →
  coalesced false (L1 ++ (k, false) :: M ++ L2).
Proof.
  rewrite !coalesced_app. intros [H1 [_ H2]] HM Hl. split; [done|]. apply coalesced_used.
  destruct M as [|[z g] [|y M]]; [by apply coalesced_weaken| |cbn in Hl; lia]. apply Forall_cons in HM as [HM _]. cbn in HM. subst g. by split.
Qed.

Lemma live_fresh_block L1 sz L2 : sizes_ok (L1 ++ (sz, true) :: L2) → live_of base (L1 ++ (sz, true) :: L2) !! (base + total L1) = None.
Proof.
  intros [HL1 [Gs%good_size_48 HL2]%Forall_cons]%Forall_app. cbn in Gs. rewrite live_of_app. apply lookup_union_None.
  split; [apply live_of_fresh; [done|lia]|]. cbn. apply live_of_fresh; [done|lia].
Qed.

Lemma live_take L1 sz L2 k M : sizes_ok L1 → k + total M = sz → Forall (λ x, x.2 = true) M → (length M <= 1)%nat →
  live_of base (L1 ++ (k, false) :: M ++ L2) = <[base + total L1 := k]> (live_of base (L1 ++ (sz, true) :: L2)).
Proof.
  intros HL1 <- HM Hl. rewrite live_of_mark by done. f_equal. destruct M as [|[z g] [|y M]]; [|apply Forall_cons in HM as [HM _]; cbn in HM; subst g|cbn in Hl; lia].
  - cbn. by rewrite Z.add_0_r.
  - change (total [(z, true)]) with (z + 0). rewrite Z.add_0_r. apply live_of_merge.
Qed.

Lemma kmalloc_run L s size : heap_inv base L s → 0 < size <= KMALLOC_MAX_SIZE → let n := bytes_for size in
  (kmalloc size s = Some (s, 0) ∧ Forall (unfit n) L) ∨
  (∃ L1 sz L2 s', L = L1 ++ (sz, true) :: L2 ∧ n <= sz ∧ Forall (unfit n) L1 ∧ kmalloc size s = Some (s', base + total L1 + 32) ∧
     let '(k, M) := split_of sz n in heap_inv base (L1 ++ (k, false) :: M ++ L2) s').
Proof using HP.
  intros HI Hsize n. destruct (bytes_for_eq size Hsize) as (En & Gn & Hn). fold n in En, Gn, Hn. pose proof base_facts as (Hb & _ & Hb2).
  pose proof HI as [H1 H2 H3 H4 H5 H6 H7]. change KMALLOC_HEAP_SIZE with 2097152 in H6. unfold kmalloc.
  rewrite (proj2 (Z.eqb_neq size 0)), H2 by lia. cbn [negb Z.eqb Pos.eqb]. rewrite Z.gtb_ltb, (proj2 (Z.ltb_ge _ _)) by lia. rewrite En, H1.
  destruct (first_fit_chain (S (base.size (kh_mem s))) s 0 base L n) as [[Hff HF]|(L1 & sz & L2 & EL & Hsz & HF & Hff)];
    [done|done|pose proof (chain_length _ _ _ _ _ H4 H3); lia|done|left|right]; rewrite (inv_first L s HI) in Hff; rewrite Hff, some_bind.
  { done. }
  exists L1, sz, L2. subst L. pose proof H4 as [HL1 HLr]%Forall_app. pose proof HLr as [Gs HL2]%Forall_cons. cbn in Gs. pose proof (good_size_48 _ Gs).
  rewrite total_blocks_app, total_cons in H6. cbn [fst] in H6. pose proof (total_blocks_nonneg _ HL1). pose proof (total_blocks_nonneg _ HL2).
  rewrite (proj2 (Z.eqb_neq _ 0)) by lia. pose proof H3 as [HC1 HCr]%chain_app.
  destruct (split_block_run s (last_ptr 0 base L1) (base + total L1) sz n true L2) as (m1 & -> & HCs & Hm1); [lia|lia|done|done|done|done|].
  pose proof (split_of_facts sz n Gs Gn Hsz) as HS. destruct (split_of sz n) as [k M]. cbn [fst snd] in HCs. destruct HS as (Gk & GM & Hk & Hkn & HM & HM1).
  rewrite some_bind. destruct (mark_run (upd_mem m1 s) (last_ptr 0 base L1) (base + total L1) k true false (M ++ L2)) as (m2 & Em & HCm & Hm2);
    [lia|constructor; [done|by apply Forall_app]|done|]. change (Z.b2z false) with 0 in Em. rewrite Em, some_bind.
  change BLOCK_HEADER_SIZE with 32. rewrite u64_small by lia.
  eexists. split; [done|]. split; [done|]. split; [done|]. split; [done|].
  split; [done|done| | | | |].
  - eapply chain_tail; [done|exact H3| |exact HCm]. intros z Hz. rewrite Hm2 by lia. apply Hm1. lia.
  - apply Forall_app. split; [done|]. constructor; [done|]. by apply Forall_app.
  - by apply (coalesced_take L1 sz).
  - rewrite total_blocks_app, total_cons, total_blocks_app. cbn [fst]. change KMALLOC_HEAP_SIZE with 2097152. lia.
  - rewrite (live_take L1 sz) by done. rewrite map_size_insert_None by by apply live_fresh_block. cbn [kh_stats upd_stats upd_mem count_alloc current_allocs].
    rewrite H7. pose proof (live_of_size base _ H4) as Hc. rewrite total_blocks_app, total_cons in Hc. cbn [fst] in Hc. rewrite u64_small by lia. lia.
Qed.

Lemma good_size_add x y : good_size x → good_size y → good_size (x + y).
Proof.
  intros [H1 H2] [H3 H4]. change MIN_BLOCK_SIZE with 48 in *. change KMALLOC_ALIGN with 16 in *. split; [change MIN_BLOCK_SIZE with 48; lia|].
  change KMALLOC_ALIGN with 16. by rewrite Z.add_mod, H2, H4.
Qed.

Lemma absorb_facts sz L : good_size sz → sizes_ok L → coalesced false L → let '(k, L') := absorb sz L in
  good_size k ∧ sizes_ok L' ∧ coalesced true L' ∧ k + total L' = sz + total L ∧ ∀ a, live_of a ((k, true) :: L') = live_of a ((sz, true) :: L).
Proof.
  intros Gs HL Hc. destruct L as [|[z [|]] L]; cbn [absorb].
  - done.
  - apply Forall_cons in HL as [Gz HL]. split; [by apply good_size_add|]. split; [done|]. split; [apply Hc|]. split; [rewrite total_cons; cbn [fst]; lia|].
    intros a. cbn. by rewrite Z.add_assoc.
  - split; [done|]. split; [done|]. split; [|done]. split; [done|apply Hc].
Qed.

Lemma absorb_back_facts L1 k L3 : sizes_ok (L1 ++ (k, true) :: L3) → coalesced false L1 → coalesced true L3 → let L := absorb_back L1 k L3 in
  sizes_ok L ∧ coalesced false L ∧ total L = total (L1 ++ (k, true) :: L3) ∧ ∀ a, live_of a L = live_of a (L1 ++ (k, true) :: L3).
Proof.
  intros HL Hc Hc3. unfold absorb_back. destruct L1 as [|[z g] L0 _] using rev_ind; [done|rewrite reverse_snoc; destruct g].
  - rewrite reverse_involutive. rewrite <- app_assoc in *. cbn [app] in *. apply Forall_app in HL as [HL0 [Gz [Gk HL3]%Forall_cons]%Forall_cons].
    apply coalesced_app in Hc as [Hc0 [Hz _]]. cbn in Hz. rewrite andb_true_r in Hz. split; [|split; [|split]].
    + apply Forall_app. split; [done|]. constructor; [by apply good_size_add|done].
    + apply coalesced_app. split; [done|]. by rewrite Hz.
    + rewrite !total_blocks_app, !total_cons. cbn [fst]. lia.
    + intros a. symmetry. apply live_of_merge.
  - split; [done|]. split; [|done]. apply coalesced_app. split; [done|]. by rewrite last_free_snoc.
Qed.

Lemma merge_run L1 sz L2 s : let L := L1 ++ (sz, true) :: L2 in
  sizes_ok L → base + total L < 2 ^ 64 → coalesced false L1 → coalesced false L2 → chain (kh_mem s) 0 base L 0 →
  ∃ L' m', merge_free_blocks (base + total L1) s = Some (upd_mem m' s) ∧ chain m' 0 base L' 0 ∧ sizes_ok L' ∧ coalesced false L' ∧
    total L' = total L ∧ live_of base L' = live_of base L ∧ ∃ b, m' !! (base + total L1) = Some b ∧ b_is_free b = 1.
Proof using HP.
  intros L HL Hs Hc1 Hc2 HC. subst L. pose proof base_facts as (Hb & _ & _). rewrite total_blocks_app, total_cons in Hs |- *. cbn [fst] in Hs |- *.
  pose proof HL as [HL1 HLr]%Forall_app. pose proof HLr as [Gs HL2]%Forall_cons. cbn in Gs. pose proof (good_size_48 _ Gs).
  pose proof (total_blocks_nonneg _ HL1). pose proof (total_blocks_nonneg _ HL2). pose proof HC as [_ HCr]%chain_app.
  unfold merge_free_blocks. rewrite (proj2 (Z.eqb_neq _ 0)) by lia.
  destruct (merge_forward_run (size (kh_mem s)) s (last_ptr 0 base L1) (base + total L1) sz true L2) as (m2 & -> & HC2 & Hm2);
    [lia|rewrite total_cons; cbn [fst]; lia|done|done|pose proof (chain_length _ _ _ _ _ HLr HCr) as Hl; cbn in Hl |- *; lia|exact HCr|].
  rewrite some_bind. pose proof (absorb_facts sz L2 Gs HL2 Hc2) as HA. destruct (absorb sz L2) as [k L3]. cbn [fst snd] in HC2. destruct HA as (Gk & HL3 & Hc3 & Hk & Hlk).
  assert (HCg : chain m2 0 base (L1 ++ (k, true) :: L3) 0) by (eapply chain_tail; [done|exact HC|done|exact HC2]).
  assert (HLg : sizes_ok (L1 ++ (k, true) :: L3)) by (apply Forall_app; split; [done|]; by constructor).
  destruct (merge_backward_run (size m2) (upd_mem m2 s) base L1 k L3) as (m3 & Eb & HC3 & Hm3);
    [done|rewrite total_blocks_app, total_cons; cbn [fst]; lia|done|done| |exact HCg|].
  { pose proof (chain_length m2 _ _ _ _ HLg HCg) as Hl. rewrite length_app in Hl. cbn in Hl. lia. }
  destruct (absorb_back_facts L1 k L3 HLg Hc1 Hc3) as (HLb & Hcb & Htb & Hlb).
  exists (absorb_back L1 k L3), m3. split; [exact Eb|]. do 3 (split; [done|]). split; [rewrite Htb, total_blocks_app, total_cons; cbn [fst]; lia|]. split.
  - rewrite Hlb, !live_of_app. f_equal. apply Hlk.
  - eexists. split; [rewrite Hm3; apply (chain_at _ _ _ _ _ _ _ _ HCg)|done].
Qed.

Lemma kfree_run L1 sz L2 s : let L := L1 ++ (sz, false) :: L2 in heap_inv base L s → ∃ L' s', kfree (base + total L1 + 32) s = Some s' ∧ heap_inv base L' s' ∧
  live_of base L' = delete (base + total L1) (live_of base L) ∧ freed s' (base + total L1 + 32).
Proof using HP.
  intros L HI. subst L. pose proof base_facts as (Hb & _ & Hb2). pose proof HI as [H1 H2 H3 H4 H5 H6 H7]. change KMALLOC_HEAP_SIZE with 2097152 in H6.
  pose proof H4 as [HL1 HLr]%Forall_app. pose proof HLr as [Gs HL2]%Forall_cons. cbn in Gs. pose proof (good_size_48 _ Gs).
  pose proof H6 as Ht. rewrite total_blocks_app, total_cons in Ht. cbn [fst] in Ht. pose proof (total_blocks_nonneg _ HL1). pose proof (total_blocks_nonneg _ HL2).
  pose proof H5 as [Hc1 Hc2%coalesced_used]%coalesced_app. pose proof H3 as [_ HCr]%chain_app.
  assert (Ha : 0 < base + total L1) by lia. unfold kfree. rewrite (proj2 (Z.eqb_neq _ 0)) by lia. change BLOCK_HEADER_SIZE with 32.
  replace (base + total L1 + 32 - 32) with (base + total L1) by lia. rewrite u64_small by lia.
  rewrite (hd_get s _ _ Ha (proj1 HCr)), some_bind. cbn [b_magic b_is_free Z.b2z b_size negb]. rewrite Z.eqb_refl. cbn [negb Z.eqb].
  destruct (mark_run s _ _ sz false true L2 Ha HLr HCr) as (m1 & Em & HC1 & Hm1). change (Z.b2z true) with 1 in Em. rewrite Em, some_bind.
  set (s2 := upd_stats _ (upd_mem m1 s)). assert (HLt : sizes_ok (L1 ++ (sz, true) :: L2)) by (apply Forall_app; split; [done|]; by constructor).
  destruct (merge_run L1 sz L2 s2) as (L' & m' & -> & HC' & HL' & Hc' & Ht' & Hl' & b & Eb & Hfree); [done| |done|done| |].
  { rewrite total_blocks_app, total_cons. cbn [fst]. lia. }
  { eapply chain_tail; [done|exact H3| |exact HC1]. intros z Hz. apply Hm1. lia. }
  rewrite live_of_unmark in Hl' by done. exists L'. eexists. split; [done|].
  split; [split; [done|done|done|done|done| |]|split; [done|]].
  - rewrite Ht', total_blocks_app, total_cons. cbn [fst]. done.
  - rewrite Hl'. cbn [kh_stats upd_mem upd_stats s2 count_free current_allocs]. rewrite H7.
    assert (El : live_of base (L1 ++ (sz, false) :: L2) !! (base + total L1) = Some sz) by (rewrite live_of_mark by done; apply lookup_insert_eq).
    rewrite map_size_delete, El. cbn. pose proof (map_size_ne_0_lookup_2 _ _ (mk_is_Some _ _ El)).
    rewrite Z.gtb_ltb, (proj2 (Z.ltb_lt _ _)); lia.
  - unfold freed. change BLOCK_HEADER_SIZE with 32. replace (base + total L1 + 32 - 32) with (base + total L1) by lia.
    exists b. split; [by apply hd_get|split; [done|lia]].
Qed.

Lemma scrub_inv L s p n a sz : heap_inv base L s → live_of base L !! a = Some sz → a + 32 <= p → p + n <= a + sz → heap_inv base L (scrub p n s).
Proof using HP. intros HI Hl H1 H2. apply (inv_data L s _ a sz HI Hl). intros x Hx. apply scrub_lookup. lia. Qed.

Lemma forge_inv L s p b a sz : heap_inv base L s → live_of base L !! a = Some sz → a + 32 <= p → p + 32 <= a + sz → heap_inv base L (put_new p b s).
Proof using HP.
  intros HI Hl H1 H2. apply (inv_data L s _ a sz HI Hl). intros x Hx. rewrite lookup_insert_ne by lia. apply scrub_lookup. change BLOCK_HEADER_SIZE with 32. lia.
Qed.

(** A request: what it returns, and what it leaves. *)
Lemma request_step L s size : heap_inv base L s → 0 <= size →
  ∃ s' r L', kmalloc size s = Some (s', r) ∧ heap_inv base L' s' ∧ k_spec base (KMalloc size) r (live_of base L) (live_of base L') ∧
    (r = 0 ∨ ∃ sz, live_of base L' !! (r - 32) = Some sz ∧ size + 32 <= sz).
Proof using HP.
  intros HI Hs. cbn [k_spec]. destruct ((size =? 0) || (size >? KMALLOC_MAX_SIZE)) eqn:Hbad.
  - exists s, 0, L. split; [|by auto]. unfold kmalloc. destruct (size =? 0); [done|]. rewrite (hi_init _ _ _ HI). cbn in Hbad |- *. by rewrite Hbad.
  - apply orb_false_iff in Hbad as [H0%Z.eqb_neq HM]. rewrite Z.gtb_ltb in HM. apply Z.ltb_ge in HM.
    assert (Hsize : 0 < size <= KMALLOC_MAX_SIZE) by lia. destruct (bytes_for_eq size Hsize) as (_ & Gn & Hn).
    pose proof base_facts as (Hb & Hb16 & _). pose proof HI as [H1 H2 H3 H4 H5 H6 H7].
    destruct (kmalloc_run L s size HI Hsize) as [[E HF]|(L1 & sz & L2 & s' & -> & Hsz & HF & E & HI')].
    { exists s, 0, L. split; [done|]. split; [done|]. split; [|by left]. left. split; [done|]. split; [done|]. intros x. apply unfit_no_run; [done|done|lia|done|done]. }
    pose proof H4 as [HL1 [Gs HL2]%Forall_cons]%Forall_app. pose proof (split_of_facts sz _ Gs Gn Hsz) as HS.
    destruct (split_of sz (bytes_for size)) as [k M]. destruct HS as (_ & GM & Hk & Hkn & HM1 & HM2). cbn in Hk. pose proof (total_blocks_nonneg _ GM).
    exists s', (base + total L1 + 32), (L1 ++ (k, false) :: M ++ L2). rewrite (live_take L1 sz) by done. replace (base + total L1 + 32 - 32) with (base + total L1) by lia.
    split; [done|]. split; [done|]. split; [right; exists k|right; exists k; split; [apply lookup_insert_eq|lia]].
    split; [done|]. split; [lia|]. split.
    { rewrite Z.add_mod, (Z.add_mod base), Hb16, (total_aligned L1) by done. done. }
    split; [|intros x; apply first_run; [done|done|lia|done|done]]. rewrite <- H6.
    destruct (block_free_run base L1 sz L2 H4) as (R1 & R2 & R3). split; [done|]. split; [lia|]. intros y z Hy. destruct (R3 y z Hy); lia.
Qed.

Lemma release_step L s p sz : heap_inv base L s → live_of base L !! (p - 32) = Some sz →
  p ≠ 0 ∧ ∃ L' s', kfree p s = Some s' ∧ heap_inv base L' s' ∧ live_of base L' = delete (p - 32) (live_of base L) ∧ freed s' p.
Proof using HP.
  intros HI Hl. pose proof base_facts as (Hb & _ & _). destruct (live_of_split _ _ _ _ Hl) as (L1 & L2 & -> & Hp).
  pose proof (hi_sizes _ _ _ HI) as [HL1 _]%Forall_app. pose proof (total_blocks_nonneg _ HL1). split; [lia|].
  replace p with (base + total L1 + 32) by lia. replace (base + total L1 + 32 - 32) with (base + total L1) by lia. by apply (kfree_run L1 sz).
Qed.

(** A header that says free is that of no block in use. *)
Lemma freed_not_live L s p : heap_inv base L s → freed s p → live_of base L !! (p - 32) = None ∧ kfree p s = Some s.
Proof using HP.
  intros HI (b & Eb & Hf & Hp). change BLOCK_HEADER_SIZE with 32 in *. split.
  - apply eq_None_not_Some. intros [sz Hl]. destruct (live_of_split _ _ _ _ Hl) as (L1 & L2 & -> & Ep).
    pose proof (chain_at _ _ _ _ _ _ _ _ (hi_chain _ _ _ HI)) as E. rewrite <- Ep in E. unfold hd in Eb. destruct (p - 32 =? 0); [done|]. rewrite E in Eb. by simplify_eq.
  - unfold kfree. rewrite (proj2 (Z.eqb_neq p 0)) by lia. change BLOCK_HEADER_SIZE with 32. rewrite u64_small, Eb, some_bind by lia. rewrite Hf. by destruct (negb _).
Qed.

Lemma op_step L s o : heap_inv base L s → k_ok o s →
  ∃ s' r L', run_k o s = Some (s', r) ∧ heap_inv base L' s' ∧ k_spec base o r (live_of base L) (live_of base L').
Proof using HP.
  intros HI Hok. pose proof (inv_live L s HI) as Hlive. destruct o as [size|size|p|p size|p n|p b]; cbn [run_k k_ok] in *; unfold in_data in *; rewrite ?Hlive in Hok;
    change BLOCK_HEADER_SIZE with 32 in *.
  - destruct (request_step L s size HI) as (s' & r & L' & E & HI' & Hsp & _); [lia|]. by exists s', r, L'.
  - destruct (request_step L s size HI) as (s' & r & L' & E & HI' & Hsp & Hr); [lia|].
    exists (if r =? 0 then s' else scrub r size s'), r, L'. unfold kzalloc. rewrite E, some_bind. split; [done|]. split; [|done].
    destruct (r =? 0) eqn:Er; [done|]. apply Z.eqb_neq in Er. destruct Hr as [?|(sz & Hl & Hsz)]; [done|]. apply (scrub_inv L' s' r size (r - 32) sz); [done|done|lia|lia].
  - cbn [k_spec]. destruct Hok as [->|[[sz Hl]|Hf]].
    + exists s, 0, L. done.
    + destruct (release_step L s p sz HI Hl) as (Hp & L' & s' & -> & HI' & Hl' & _). exists s', 0, L'. rewrite (proj2 (Z.eqb_neq p 0)) by done. done.
    + destruct (freed_not_live L s p HI Hf) as [Hn ->]. exists s, 0, L. rewrite delete_id by done. by destruct (p =? 0).
  - cbn [k_spec]. destruct Hok as [->|(sz & Hl & Hs)]; [by exists s, 0, L|].
    assert (HI1 : heap_inv base L (if size >? 0 then scrub p size s else s)) by (destruct (size >? 0); [apply (scrub_inv L s p size (p - 32) sz); [done|done|lia|lia]|done]).
    destruct (release_step L _ p sz HI1 Hl) as (Hp & L' & s' & E & HI' & Hl' & _). unfold kfree_secure. rewrite (proj2 (Z.eqb_neq p 0)) by done.
    rewrite E. by exists s', 0, L'.
  - destruct Hok as (_ & a & sz & Hl & H1 & H2). exists (scrub p n s), 0, L. split; [done|]. split; [|done]. by apply (scrub_inv L s p n a sz).
  - destruct Hok as (_ & a & sz & Hl & H1 & H2). exists (put_new p b s), 0, L. split; [done|]. split; [|done]. by apply (forge_inv L s p b a sz).
Qed.

Lemma init_inv s : heap_inv base [(KMALLOC_HEAP_SIZE, true)] (kmalloc_init base s).1.
Proof. split; try done. - cbn. by rewrite lookup_singleton_eq. - by apply Forall_singleton. Qed.

Lemma k_reach_inv s : k_reach base s → ∃ L, heap_inv base L s.
Proof using HP.
  induction 1 as [s|s o s' r _ [L HI] Hok E]; [eexists; apply init_inv|].
  destruct (op_step L s o HI Hok) as (s'' & r'' & L' & E' & HI' & _). rewrite E in E'. injection E' as <- <-. by exists L'.
Qed.
End heap.

(** ** The properties *)

(** C14: the heap implements a set of blocks.  Whatever calls came before, and
    whatever the callers wrote into the blocks they hold, every call returns.
    [kmalloc] and [kzalloc] return NULL exactly when the size is 0 or above 1 MB
    or when no contiguous range of the heap is free that could hold the request
    and a header; otherwise the block comes from the lowest such range, touches no
    other block in use, is aligned to 16 bytes and wastes less than 48.  [kfree]
    takes exactly its block out of the set, and freeing again before the memory
    is reused changes nothing. *)
Theorem kmalloc_refines_blocks base s o : heap_place base → k_reach base s → k_ok o s →
  ∃ s' r, run_k o s = Some (s', r) ∧ k_spec base o r (heap_live s) (heap_live s').
Proof.
  intros HP (L & HI)%(k_reach_inv base HP) Hok. destruct (op_step base HP L s o HI Hok) as (s' & r & L' & E & HI' & Hs).
  exists s', r. split; [done|]. by rewrite (inv_live base HP L s HI), (inv_live base HP L' s' HI').
Qed.

(** The blocks in use are disjoint, aligned and inside the heap, and the
    statistics report how many there are. *)
Theorem kmalloc_blocks_apart base s a sz b z : heap_place base → k_reach base s → heap_live s !! a = Some sz → heap_live s !! b = Some z →
  base <= a ∧ a + sz <= base + KMALLOC_HEAP_SIZE ∧ a mod KMALLOC_ALIGN = 0 ∧ MIN_BLOCK_SIZE <= sz ∧ (a = b ∨ a + sz <= b ∨ b + z <= a) ∧
  ∃ st, kmalloc_get_stats true s = (0, Some st) ∧ current_allocs st = Z.of_nat (size (heap_live s)).
Proof.
  intros HP (L & HI)%(k_reach_inv base HP) Ha Hb. rewrite (inv_live base HP L s HI) in *. pose proof (hi_sizes _ _ _ HI) as HL.
  destruct (live_of_range _ _ _ _ HL Ha) as (R1 & R2 & R3). rewrite <- (hi_total _ _ _ HI). split; [done|]. split; [done|].
  destruct (live_of_split _ _ _ _ Ha) as (L1 & L2 & -> & Ea). pose proof HL as [HL1 [Gs HL2]%Forall_cons]%Forall_app.
  split; [|split; [done|split]].
  - destruct HP as (_ & H16 & _). change KMALLOC_ALIGN with 16 in *. by rewrite Ea, Z.add_mod, H16, (total_aligned L1) by done.
  - rewrite live_of_app in Hb. apply lookup_union_Some_raw in Hb as [Hb|[_ Hb]]; [apply live_of_range in Hb; [lia|done]|].
    cbn in Hb. rewrite <- Ea in Hb. apply lookup_insert_Some in Hb as [[-> _]|[_ Hb]]; [by left|]. apply live_of_range in Hb; [lia|done].
  - exists (kh_stats s). split; [done|]. apply (hi_count _ _ _ HI).
Qed.

(** ** Concrete runs *)

Definition k_start : kheap := (kmalloc_init 0x40200000 (Kheap ∅ 0 (KmallocStats 0 0 0 0 0 0) 0)).1.
Definition run_ks (l : list k_op) (s : kheap) : option kheap := foldl (λ r o, s ← r; '(s, _) ← run_k o s; Some s) (Some s) l.
Definition k_two : kheap := default k_start (run_ks [KMalloc 100; KZalloc 40] k_start).

Lemma k_two_reach : k_reach 0x40200000 k_two.
Proof.
  assert (H1 : ∃ s r, run_k (KMalloc 100) k_start = Some (s, r) ∧ run_k (KZalloc 40) s = Some (k_two, 0x402000b0)).
  { eexists _, _. split; [vm_compute; reflexivity|vm_compute; reflexivity]. }
  destruct H1 as (s & r & E1 & E2).
  eapply k_reach_step; [eapply k_reach_step; [apply (k_reach_init _ (Kheap ∅ 0 (KmallocStats 0 0 0 0 0 0) 0))| |exact E1]| |exact E2]; cbn; lia.
Qed.

Lemma kmalloc_refines_blocks_witness :
  ∃ s' r, run_k (KFree 0x40200020) k_two = Some (s', r) ∧ k_spec 0x40200000 (KFree 0x40200020) r (heap_live k_two) (heap_live s').
Proof.
  apply (kmalloc_refines_blocks 0x40200000 k_two (KFree 0x40200020)).
  - unfold heap_place. vm_compute. repeat split; discriminate.
  - apply k_two_reach.
  - cbn. right. left. vm_compute. by eexists.
Defined.

Lemma kmalloc_blocks_apart_witness :
  heap_live k_two !! 0x40200000 = Some 144 ∧ heap_live k_two !! 0x40200090 = Some 80 ∧
  (0x40200000 = 0x40200090 ∨ 0x40200000 + 144 <= 0x40200090 ∨ 0x40200090 + 80 <= 0x40200000).
Proof.
  assert (Ha : heap_live k_two !! 0x40200000 = Some 144) by (vm_compute; reflexivity).
  assert (Hb : heap_live k_two !! 0x40200090 = Some 80) by (vm_compute; reflexivity).
  split; [exact Ha|]. split; [exact Hb|]. eapply kmalloc_blocks_apart; [|apply k_two_reach|exact Ha|exact Hb].
  unfold heap_place. vm_compute. repeat split; discriminate.
Defined.

(** A block of one byte comes and goes, and the statistics still count a byte:
    the bytes asked for are added, those of the block would be subtracted. *)
Example bytes_drift : run_ks [KMalloc 1; KFree 0x40200020] k_start ≫= (λ s, Some (current_allocs (kh_stats s), current_bytes (kh_stats s))) = Some (0, 1).
Proof. vm_compute. reflexivity. Qed.
