(* ===== verification/Rbtree.v ===== *)
(** * Red-black trees (kernel/mm/rbtree.c, rbtree.h)

    Nodes with parent pointers in a store addressed by [A]; NULL is [None].  The
    node is embedded in the caller's data, so [less] and [compare] are functions
    of the address.  A loop takes the number of nodes as fuel. *)

From S2P Require Import Prelude.

Set Default Goal Selector "!".

Inductive rb_color_t := RB_COLOR_RED | RB_COLOR_BLACK.

#[global] Instance rb_color_eq : EqDecision rb_color_t.
Proof. solve_decision. Defined.

Section rbtree.
Context {A : Type} `{Countable A}.

Record rb_node_t := RbNode { rb_parent : option A; rb_left : option A; rb_right : option A; rb_color : rb_color_t }.

(** The root and the nodes. *)
Record rbt := Rbt { rb_nodes : gmap A rb_node_t; rb_root : option A }.

Definition set_rb_parent v n := RbNode v (rb_left n) (rb_right n) (rb_color n).
Definition set_rb_left v n := RbNode (rb_parent n) v (rb_right n) (rb_color n).
Definition set_rb_right v n := RbNode (rb_parent n) (rb_left n) v (rb_color n).
Definition set_rb_color v n := RbNode (rb_parent n) (rb_left n) (rb_right n) v.

(** [*p], and an assignment to a field of [*p]. *)
Definition rd (p : option A) (s : rbt) : option rb_node_t := a ← p; rb_nodes s !! a.
Definition wr (p : option A) (f : rb_node_t → rb_node_t) (s : rbt) : option rbt :=
  a ← p; n ← rb_nodes s !! a; Some (Rbt (<[a := f n]> (rb_nodes s)) (rb_root s)).
Definition set_root (p : option A) (s : rbt) : rbt := Rbt (rb_nodes s) p.

Definition unless_null (p : option A) (f : rbt → option rbt) (s : rbt) : option rbt :=
  match p with None => Some s | Some _ => f s end.

(** [(p != NULL) && (p->color == RB_COLOR_RED)] and its negation. *)
Definition is_red (p : option A) (s : rbt) : option bool :=
  match p with None => Some false | Some _ => n ← rd p s; Some (bool_decide (rb_color n = RB_COLOR_RED)) end.
Definition is_black (p : option A) (s : rbt) : option bool := b ← is_red p s; Some (negb b).

Definition RB_NODE_INIT (p : option A) (s : rbt) : option rbt := wr p (λ _, RbNode None None None RB_COLOR_RED) s.

(** ** Rotations *)

(** The child [node] of [parent] is replaced; the root when there is no parent.
    The left child is compared first, or the right one. *)
Definition replace_child (parent node new : option A) (s : rbt) : option rbt :=
  match parent with
  | None => Some (set_root new s)
  | Some _ => p ← rd parent s; if decide (node = rb_left p) then wr parent (set_rb_left new) s else wr parent (set_rb_right new) s
  end.

Definition replace_child_right (parent node new : option A) (s : rbt) : option rbt :=
  match parent with
  | None => Some (set_root new s)
  | Some _ => p ← rd parent s; if decide (node = rb_right p) then wr parent (set_rb_right new) s else wr parent (set_rb_left new) s
  end.

Definition rb_left_rotate (node : option A) (s : rbt) : option rbt :=
  n ← rd node s;
  let right := rb_right n in
  unless_null right (λ s,
    r ← rd right s;
    s ← wr node (set_rb_right (rb_left r)) s;
    s ← unless_null (rb_left r) (wr (rb_left r) (set_rb_parent node)) s;
    n ← rd node s;
    s ← wr right (set_rb_parent (rb_parent n)) s;
    n ← rd node s;
    s ← replace_child (rb_parent n) node right s;
    s ← wr right (set_rb_left node) s;
    wr node (set_rb_parent right) s) s.

Definition rb_right_rotate (node : option A) (s : rbt) : option rbt :=
  n ← rd node s;
  let left := rb_left n in
  unless_null left (λ s,
    l ← rd left s;
    s ← wr node (set_rb_left (rb_right l)) s;
    s ← unless_null (rb_right l) (wr (rb_right l) (set_rb_parent node)) s;
    n ← rd node s;
    s ← wr left (set_rb_parent (rb_parent n)) s;
    n ← rd node s;
    s ← replace_child_right (rb_parent n) node left s;
    s ← wr left (set_rb_right node) s;
    wr node (set_rb_parent left) s) s.

(** ** Insertion *)

Definition recolor (p : option A) (c : rb_color_t) (s : rbt) : option rbt := wr p (set_rb_color c) s.

(** One turn of the loop when the parent is a left child; the state and the node
    to look at next. *)
Definition insert_fixup_left (node parent grandparent uncle : option A) (s : rbt) : option (rbt * option A) :=
  red ← is_red uncle s;
  if red : bool then
    s ← recolor parent RB_COLOR_BLACK s;
    s ← recolor uncle RB_COLOR_BLACK s;
    s ← recolor grandparent RB_COLOR_RED s;
    Some (s, grandparent)
  else
    p ← rd parent s;
    r ← (if decide (node = rb_right p) then
           s ← rb_left_rotate parent s;
           n ← rd parent s;
           Some (s, parent, rb_parent n)
         else Some (s, node, parent));
    let '(s, node, parent) := r in
    s ← recolor parent RB_COLOR_BLACK s;
    s ← recolor grandparent RB_COLOR_RED s;
    s ← rb_right_rotate grandparent s;
    Some (s, node).

Definition insert_fixup_right (node parent grandparent uncle : option A) (s : rbt) : option (rbt * option A) :=
  red ← is_red uncle s;
  if red : bool then
    s ← recolor parent RB_COLOR_BLACK s;
    s ← recolor uncle RB_COLOR_BLACK s;
    s ← recolor grandparent RB_COLOR_RED s;
    Some (s, grandparent)
  else
    p ← rd parent s;
    r ← (if decide (node = rb_left p) then
           s ← rb_right_rotate parent s;
           n ← rd parent s;
           Some (s, parent, rb_parent n)
         else Some (s, node, parent));
    let '(s, node, parent) := r in
    s ← recolor parent RB_COLOR_BLACK s;
    s ← recolor grandparent RB_COLOR_RED s;
    s ← rb_left_rotate grandparent s;
    Some (s, node).

Fixpoint insert_loop (fuel : nat) (node : option A) (s : rbt) : option rbt :=
  n ← rd node s;
  red ← is_red (rb_parent n) s;
  if red : bool then
    match fuel with
    | O => None
    | S fuel =>
        let parent := rb_parent n in
        p ← rd parent s;
        let grandparent := rb_parent p in
        g ← rd grandparent s;
        r ← (if decide (parent = rb_left g) then insert_fixup_left node parent grandparent (rb_right g) s
             else insert_fixup_right node parent grandparent (rb_left g) s);
        insert_loop fuel r.2 r.1
    end
  else Some s.

Definition rb_insert_fixup (node : option A) (s : rbt) : option rbt :=
  s ← insert_loop (size (rb_nodes s)) node s;
  unless_null (rb_root s) (recolor (rb_root s) RB_COLOR_BLACK) s.

(** The place for [node]: the last node on the way down. *)
Fixpoint insert_walk (fuel : nat) (less : A → A → bool) (node : A) (parent current : option A) (s : rbt) : option (option A) :=
  match current with
  | None => Some parent
  | Some c =>
      match fuel with
      | O => None
      | S fuel =>
          n ← rd current s;
          insert_walk fuel less node current (if less node c then rb_left n else rb_right n) s
      end
  end.

Definition rb_insert (less : A → A → bool) (node : A) (s : rbt) : option rbt :=
  let current := rb_root s in
  s ← RB_NODE_INIT (Some node) s;
  parent ← insert_walk (size (rb_nodes s)) less node None current s;
  s ← wr (Some node) (set_rb_parent parent) s;
  s ← match parent with
      | None => Some (set_root (Some node) s)
      | Some p => wr (Some p) (if less node p then set_rb_left (Some node) else set_rb_right (Some node)) s
      end;
  rb_insert_fixup (Some node) s.

(** ** Walking *)

Fixpoint rb_minimum (fuel : nat) (node : option A) (s : rbt) : option (option A) :=
  match node with
  | None => Some None
  | Some _ =>
      n ← rd node s;
      match rb_left n with
      | None => Some node
      | Some _ => match fuel with O => None | S fuel => rb_minimum fuel (rb_left n) s end
      end
  end.

Fixpoint rb_maximum (fuel : nat) (node : option A) (s : rbt) : option (option A) :=
  match node with
  | None => Some None
  | Some _ =>
      n ← rd node s;
      match rb_right n with
      | None => Some node
      | Some _ => match fuel with O => None | S fuel => rb_maximum fuel (rb_right n) s end
      end
  end.

Fixpoint search_loop (fuel : nat) (compare : A → Z) (node : option A) (s : rbt) : option (option A) :=
  match node with
  | None => Some None
  | Some a =>
      match fuel with
      | O => None
      | S fuel =>
          n ← rd node s;
          let result := compare a in
          if result <? 0 then search_loop fuel compare (rb_left n) s
          else if result >? 0 then search_loop fuel compare (rb_right n) s
          else Some node
      end
  end.

(** [compare] is the caller's function at the key that is looked for. *)
Definition rb_search (compare : A → Z) (s : rbt) : option (option A) := search_loop (size (rb_nodes s)) compare (rb_root s) s.

Definition rb_first (s : rbt) : option (option A) := rb_minimum (size (rb_nodes s)) (rb_root s) s.
Definition rb_last (s : rbt) : option (option A) := rb_maximum (size (rb_nodes s)) (rb_root s) s.

(** Up to the first ancestor that is reached from its left, or right, subtree. *)
Fixpoint up_from_right (fuel : nat) (node parent : option A) (s : rbt) : option (option A) :=
  match parent with
  | None => Some None
  | Some _ =>
      p ← rd parent s;
      if decide (node = rb_right p) then match fuel with O => None | S fuel => up_from_right fuel parent (rb_parent p) s end
      else Some parent
  end.

Fixpoint up_from_left (fuel : nat) (node parent : option A) (s : rbt) : option (option A) :=
  match parent with
  | None => Some None
  | Some _ =>
      p ← rd parent s;
      if decide (node = rb_left p) then match fuel with O => None | S fuel => up_from_left fuel parent (rb_parent p) s end
      else Some parent
  end.

Definition rb_next (node : option A) (s : rbt) : option (option A) :=
  match node with
  | None => Some None
  | Some _ =>
      n ← rd node s;
      match rb_right n with
      | Some _ => rb_minimum (size (rb_nodes s)) (rb_right n) s
      | None => up_from_right (size (rb_nodes s)) node (rb_parent n) s
      end
  end.

Definition rb_prev (node : option A) (s : rbt) : option (option A) :=
  match node with
  | None => Some None
  | Some _ =>
      n ← rd node s;
      match rb_left n with
      | Some _ => rb_maximum (size (rb_nodes s)) (rb_left n) s
      | None => up_from_left (size (rb_nodes s)) node (rb_parent n) s
      end
  end.

(** ** Deletion *)

Definition parent_of (node : option A) (s : rbt) : option (option A) := n ← rd node s; Some (rb_parent n).

Definition both_black (sibling : option A) (s : rbt) : option bool :=
  b ← rd sibling s;
  l ← is_black (rb_left b) s;
  if l : bool then is_black (rb_right b) s else Some false.

(** One turn of the loop for a left child: a red sibling is made black first
    (case 1), then cases 2 to 4. *)
Definition delete_case4_left (node sibling : option A) (s : rbt) : option (rbt * option A) :=
  parent ← parent_of node s;
  p ← rd parent s;
  s ← recolor sibling (rb_color p) s;
  s ← recolor parent RB_COLOR_BLACK s;
  b ← rd sibling s;
  s ← unless_null (rb_right b) (recolor (rb_right b) RB_COLOR_BLACK) s;
  s ← rb_left_rotate parent s;
  Some (s, rb_root s).

Definition delete_black_left (node sibling : option A) (s : rbt) : option (rbt * option A) :=
  bb ← both_black sibling s;
  if bb : bool then
    s ← recolor sibling RB_COLOR_RED s;
    parent ← parent_of node s;
    Some (s, parent)
  else
    b ← rd sibling s;
    black ← is_black (rb_right b) s;
    r ← (if black : bool then
           s ← unless_null (rb_left b) (recolor (rb_left b) RB_COLOR_BLACK) s;
           s ← recolor sibling RB_COLOR_RED s;
           s ← rb_right_rotate sibling s;
           parent ← parent_of node s;
           p ← rd parent s;
           Some (s, rb_right p)
         else Some (s, sibling));
    delete_case4_left node r.2 r.1.

Definition delete_fixup_left (node : option A) (s : rbt) : option (rbt * option A) :=
  parent ← parent_of node s;
  p ← rd parent s;
  let sibling := rb_right p in
  b ← rd sibling s;
  r ← (if decide (rb_color b = RB_COLOR_RED) then
         s ← recolor sibling RB_COLOR_BLACK s;
         s ← recolor parent RB_COLOR_RED s;
         s ← rb_left_rotate parent s;
         parent ← parent_of node s;
         p ← rd parent s;
         Some (s, rb_right p)
       else Some (s, sibling));
  delete_black_left node r.2 r.1.

(** The same for a right child. *)
Definition delete_case4_right (node sibling : option A) (s : rbt) : option (rbt * option A) :=
  parent ← parent_of node s;
  p ← rd parent s;
  s ← recolor sibling (rb_color p) s;
  s ← recolor parent RB_COLOR_BLACK s;
  b ← rd sibling s;
  s ← unless_null (rb_left b) (recolor (rb_left b) RB_COLOR_BLACK) s;
  s ← rb_right_rotate parent s;
  Some (s, rb_root s).

Definition delete_black_right (node sibling : option A) (s : rbt) : option (rbt * option A) :=
  bb ← both_black sibling s;
  if bb : bool then
    s ← recolor sibling RB_COLOR_RED s;
    parent ← parent_of node s;
    Some (s, parent)
  else
    b ← rd sibling s;
    black ← is_black (rb_left b) s;
    r ← (if black : bool then
           s ← unless_null (rb_right b) (recolor (rb_right b) RB_COLOR_BLACK) s;
           s ← recolor sibling RB_COLOR_RED s;
           s ← rb_left_rotate sibling s;
           parent ← parent_of node s;
           p ← rd parent s;
           Some (s, rb_left p)
         else Some (s, sibling));
    delete_case4_right node r.2 r.1.

Definition delete_fixup_right (node : option A) (s : rbt) : option (rbt * option A) :=
  parent ← parent_of node s;
  p ← rd parent s;
  let sibling := rb_left p in
  b ← rd sibling s;
  r ← (if decide (rb_color b = RB_COLOR_RED) then
         s ← recolor sibling RB_COLOR_BLACK s;
         s ← recolor parent RB_COLOR_RED s;
         s ← rb_right_rotate parent s;
         parent ← parent_of node s;
         p ← rd parent s;
         Some (s, rb_left p)
       else Some (s, sibling));
  delete_black_right node r.2 r.1.

Fixpoint delete_loop (fuel : nat) (node : option A) (s : rbt) : option (rbt * option A) :=
  black ← (if decide (node = rb_root s) then Some false else is_black node s);
  if black : bool then
    match fuel with
    | O => None
    | S fuel =>
        parent ← parent_of node s;
        p ← rd parent s;
        r ← (if decide (node = rb_left p) then delete_fixup_left node s else delete_fixup_right node s);
        delete_loop fuel r.2 r.1
    end
  else Some (s, node).

Definition rb_delete_fixup (node : option A) (s : rbt) : option rbt :=
  r ← delete_loop (S (size (rb_nodes s))) node s;
  unless_null r.2 (recolor r.2 RB_COLOR_BLACK) r.1.

(** [child] takes the place of [node]. *)
Definition splice_out (node child : option A) (s : rbt) : option rbt :=
  n ← rd node s;
  s ← replace_child (rb_parent n) node child s;
  unless_null child (λ s, n ← rd node s; wr child (set_rb_parent (rb_parent n)) s) s.

(** [succ] gets what [node] has, but for the right child. *)
Definition take_place (node succ : option A) (s : rbt) : option rbt :=
  n ← rd node s;
  s ← replace_child (rb_parent n) node succ s;
  n ← rd node s;
  s ← wr succ (set_rb_left (rb_left n)) s;
  n ← rd node s;
  s ← wr (rb_left n) (set_rb_parent succ) s;
  n ← rd node s;
  s ← wr succ (set_rb_color (rb_color n)) s;
  n ← rd node s;
  wr succ (set_rb_parent (rb_parent n)) s.

(** The successor of a node with two children takes its place. *)
Definition splice_succ (node succ : option A) (s : rbt) : option rbt :=
  c ← rd succ s;
  let child := rb_right c in
  s ← (if decide (rb_parent c = node) then wr child (set_rb_parent succ) s
       else
         s ← unless_null (rb_parent c) (wr (rb_parent c) (set_rb_left child)) s;
         s ← unless_null child (wr child (set_rb_parent (rb_parent c))) s;
         n ← rd node s;
         s ← wr succ (set_rb_right (rb_right n)) s;
         n ← rd node s;
         wr (rb_right n) (set_rb_parent succ) s);
  take_place node succ s.

Definition rb_delete (node : option A) (s : rbt) : option rbt :=
  match node with
  | None => Some s
  | Some _ =>
      n ← rd node s;
      r ← match rb_left n, rb_right n with
          | None, child | child, None => s ← splice_out node child s; Some (s, rb_color n, child)
          | Some _, Some _ =>
              succ ← rb_minimum (size (rb_nodes s)) (rb_right n) s;
              c ← rd succ s;
              s ← splice_succ node succ s;
              Some (s, rb_color c, rb_right c)
          end;
      let '(s, original_color, child) := r in
      if decide (original_color = RB_COLOR_BLACK) then
        match child with Some _ => rb_delete_fixup child s | None => rb_delete_fixup node s end
      else Some s
  end.
End rbtree.
