(* ===== verification/RbtreeInv.v ===== *)
(** * Red-black trees against trees

    [tree_at s t]: the nodes reachable from the root of [s] form the tree [t].  A
    place in a tree is a subtree and the path of frames above it; [zip] puts them
    together again. *)

From S2P Require Import Prelude Rbtree.

Set Default Goal Selector "!".

Section trees.
Context {A : Type} `{Countable A}.
Notation rbt := (@rbt A _ _).
Notation RED := RB_COLOR_RED.
Notation BLACK := RB_COLOR_BLACK.

(** ** Trees and paths *)

Inductive tree := Leaf | Node (c : rb_color_t) (l : tree) (a : A) (r : tree).

Definition root_of (t : tree) : option A := match t with Leaf => None | Node _ _ a _ => Some a end.
Definition color_of (t : tree) : rb_color_t := match t with Leaf => BLACK | Node c _ _ _ => c end.

Fixpoint inorder (t : tree) : list A := match t with Leaf => [] | Node _ l a r => inorder l ++ a :: inorder r end.

(** The place is the left, or the right, child of [a]. *)
Inductive frame := LeftOf (c : rb_color_t) (a : A) (r : tree) | RightOf (c : rb_color_t) (l : tree) (a : A).

Fixpoint zip (k : list frame) (t : tree) : tree :=
  match k with
  | [] => t
  | LeftOf c a r :: k => zip k (Node c t a r)
  | RightOf c l a :: k => zip k (Node c l a t)
  end.

Definition frame_addr (f : frame) : A := match f with LeftOf _ a _ | RightOf _ _ a => a end.
Definition frame_color (f : frame) : rb_color_t := match f with LeftOf c _ _ | RightOf c _ _ => c end.
Definition path_parent (k : list frame) : option A := frame_addr <$> head k.

(** What is left and right of the place. *)
Fixpoint before (k : list frame) : list A :=
  match k with [] => [] | LeftOf _ _ _ :: k => before k | RightOf _ l a :: k => before k ++ inorder l ++ [a] end.
Fixpoint after (k : list frame) : list A :=
  match k with [] => [] | LeftOf _ a r :: k => a :: inorder r ++ after k | RightOf _ _ _ :: k => after k end.

Lemma inorder_zip k t : inorder (zip k t) = before k ++ inorder t ++ after k.
Proof.
  revert t. induction k as [|[c a r|c l a] k IH]; intros t; cbn; [by rewrite app_nil_r|rewrite IH|rewrite IH]; cbn; by rewrite <- !app_assoc.
Qed.

(** ** In the store *)

Fixpoint rep (h : gmap A rb_node_t) (par : option A) (t : tree) : Prop :=
  match t with
  | Leaf => True
  | Node c l a r => h !! a = Some (RbNode par (root_of l) (root_of r) c) ∧ rep h (Some a) l ∧ rep h (Some a) r
  end.

Fixpoint rep_path (h : gmap A rb_node_t) (k : list frame) (ptr root : option A) : Prop :=
  match k with
  | [] => root = ptr
  | LeftOf c a r :: k => h !! a = Some (RbNode (path_parent k) ptr (root_of r) c) ∧ rep h (Some a) r ∧ rep_path h k (Some a) root
  | RightOf c l a :: k => h !! a = Some (RbNode (path_parent k) (root_of l) ptr c) ∧ rep h (Some a) l ∧ rep_path h k (Some a) root
  end.

Definition tree_at (s : rbt) (t : tree) : Prop := rb_root s = root_of t ∧ rep (rb_nodes s) None t ∧ NoDup (inorder t).

Lemma rep_zip h root k t : (root = root_of (zip k t) ∧ rep h None (zip k t)) ↔ (rep_path h k (root_of t) root ∧ rep h (path_parent k) t).
Proof. revert t. induction k as [|[c a r|c l a] k IH]; intros t; cbn; [done|rewrite IH; cbn; tauto|rewrite IH; cbn; tauto]. Qed.

Lemma rep_ext h h' par t : (∀ a, a ∈ inorder t → h' !! a = h !! a) → rep h par t → rep h' par t.
Proof.
  revert par. induction t as [|c l IHl a r IHr]; intros par He; [done|]. cbn in *. intros (H1 & H2 & H3). rewrite He by set_solver.
  split; [done|]. split; [apply IHl; [intros; apply He; set_solver|done]|apply IHr; [intros; apply He; set_solver|done]].
Qed.

Lemma rep_path_ext h h' k ptr root : (∀ a, a ∈ before k ++ after k → h' !! a = h !! a) → rep_path h k ptr root → rep_path h' k ptr root.
Proof.
  revert ptr. induction k as [|[c a r|c l a] k IH]; intros ptr He; [done| |]; cbn in *; intros (H1 & H2 & H3); rewrite He by set_solver; (split; [done|]).
  - split; [eapply rep_ext; [|done]; intros; apply He; set_solver|]. apply IH; [intros; apply He; set_solver|done].
  - split; [eapply rep_ext; [|done]; intros; apply He; set_solver|]. apply IH; [intros; apply He; set_solver|done].
Qed.

Lemma rep_dom h par t a : rep h par t → a ∈ inorder t → is_Some (h !! a).
Proof.
  revert par. induction t as [|c l IHl b r IHr]; intros par; [intros _ ?; set_solver|]. cbn. intros (H1 & H2 & H3). rewrite elem_of_app, elem_of_cons.
  intros [Ha|[->|Ha]]; [by eapply IHl|by rewrite H1|by eapply IHr].
Qed.

(** The number of nodes bounds the length of any path. *)
Lemma tree_size s t : tree_at s t → (length (inorder t) <= size (rb_nodes s))%nat.
Proof.
  intros (_ & Hr & Hn). assert (list_to_set (inorder t) ⊆ dom (rb_nodes s)) as Hsub.
  { intros a Ha. apply elem_of_list_to_set in Ha. apply elem_of_dom. by eapply rep_dom. }
  apply subseteq_size in Hsub. by rewrite size_list_to_set, size_dom in Hsub.
Qed.

Lemma path_size k t : (length k <= length (inorder (zip k t)))%nat.
Proof.
  rewrite inorder_zip, !length_app. assert (length k <= length (before k) + length (after k))%nat; [|lia].
  induction k as [|[c a r|c l a] k IH]; cbn; rewrite ?length_app; cbn; rewrite ?length_app; cbn; lia.
Qed.

(** ** Reading a place *)

Lemma at_focus s k t : tree_at s (zip k t) ↔
  rep_path (rb_nodes s) k (root_of t) (rb_root s) ∧ rep (rb_nodes s) (path_parent k) t ∧ NoDup (before k ++ inorder t ++ after k).
Proof. unfold tree_at. rewrite inorder_zip. pose proof (rep_zip (rb_nodes s) (rb_root s) k t). tauto. Qed.

Lemma at_node s k c l a r : tree_at s (zip k (Node c l a r)) → rb_nodes s !! a = Some (RbNode (path_parent k) (root_of l) (root_of r) c).
Proof. rewrite at_focus. intros (_ & (Ha & _) & _). exact Ha. Qed.

Lemma rd_node s k c l a r : tree_at s (zip k (Node c l a r)) → rd (Some a) s = Some (RbNode (path_parent k) (root_of l) (root_of r) c).
Proof. apply at_node. Qed.

Lemma rd_parent s f k t : tree_at s (zip (f :: k) t) → ∃ n, rd (Some (frame_addr f)) s = Some n ∧ rb_parent n = path_parent k ∧ rb_color n = frame_color f ∧
  (if f is LeftOf _ _ _ then rb_left n = root_of t else rb_right n = root_of t).
Proof. destruct f as [c a r|c l a]; intros Ht; cbn [zip frame_addr frame_color] in *; rewrite (rd_node s k _ _ _ _ Ht); eexists; done. Qed.

Lemma is_red_at s k t : tree_at s (zip k t) → is_red (root_of t) s = Some (bool_decide (color_of t = RED)).
Proof. destruct t as [|c l a r]; intros Ht; [done|]. cbn [is_red root_of]. rewrite (rd_node s k c l a r Ht), some_bind. done. Qed.

Lemma is_red_parent s k t : tree_at s (zip k t) → is_red (path_parent k) s = Some (bool_decide (frame_color <$> head k = Some RED)).
Proof.
  destruct k as [|f k]; intros Ht; [done|]. destruct (rd_parent s f k t Ht) as (n & E & _ & Hc & _). cbn [path_parent head fmap option_fmap option_map is_red].
  rewrite E, some_bind, Hc. f_equal. apply bool_decide_ext. cbn. split; congruence.
Qed.
End trees.
