(* ===== verification/RbtreeSteps.v ===== *)
(** * Red-black trees: recolouring and rotating

    Each assignment or rotation of rbtree.c is an operation on trees, at a place
    given by its path. *)

From S2P Require Import Prelude Rbtree RbtreeInv.

Set Default Goal Selector "!".

Section steps.
Context {A : Type} `{Countable A}.
Notation rbt := (@rbt A _ _).
Notation tree := (@tree A).
Notation RED := RB_COLOR_RED.
Notation BLACK := RB_COLOR_BLACK.

Implicit Types (s : rbt) (t l m r : tree) (k : list (@frame A)) (a b : A).

(** The call returns, with tree [t]; nodes outside the tree are left alone. *)
Definition goes (o : option rbt) s t : Prop :=
  ∃ s', o = Some s' ∧ tree_at s' t ∧ ∀ x, x ∉ inorder t → rb_nodes s' !! x = rb_nodes s !! x.

Lemma wr_at s a n f : rb_nodes s !! a = Some n → wr (Some a) f s = Some (Rbt (<[a := f n]> (rb_nodes s)) (rb_root s)).
Proof. intros E. unfold wr. by rewrite some_bind, E, some_bind. Qed.

Lemma rd_at s a n : rb_nodes s !! a = Some n → rd (Some a) s = Some n.
Proof. done. Qed.

Lemma recolor_at s k c c' l a r : tree_at s (zip k (Node c l a r)) → goes (recolor (Some a) c' s) s (zip k (Node c' l a r)).
Proof.
  intros Ht. unfold recolor. rewrite (wr_at s a _ _ (at_node s k c l a r Ht)). apply at_focus in Ht as (HP & (Ha & Hl & Hr) & Hn). eexists. split; [reflexivity|].
  cbn in Hn. assert (a ∉ before k ∧ a ∉ after k ∧ a ∉ inorder l ∧ a ∉ inorder r) as (N1 & N2 & N3 & N4).
  { apply NoDup_app in Hn as (_ & D1 & Hn). apply NoDup_app in Hn as (Hn & D2 & _). apply NoDup_app in Hn as (_ & D3 & [Hn _]%NoDup_cons). set_solver. }
  split.
  - apply at_focus. cbn. split; [|split; [|done]].
    + eapply rep_path_ext; [|exact HP]. intros x Hx. apply lookup_insert_ne. set_solver.
    + rewrite lookup_insert_eq. split; [done|].
      split; (eapply rep_ext; [|done]; intros x Hx; apply lookup_insert_ne; set_solver).
  - intros x Hx. cbn. apply lookup_insert_ne. intros ->. apply Hx. rewrite inorder_zip. set_solver.
Qed.

(** The parent's pointer to the place changes. *)
Lemma replace_child_at s k a new : rep_path (rb_nodes s) k (Some a) (rb_root s) → NoDup (before k ++ a :: after k) →
  ∃ s', replace_child (path_parent k) (Some a) new s = Some s' ∧ replace_child_right (path_parent k) (Some a) new s = Some s' ∧
    rep_path (rb_nodes s') k new (rb_root s') ∧ ∀ x, x ∉ before k ++ after k → rb_nodes s' !! x = rb_nodes s !! x.
Proof.
  intros HP Hn. destruct k as [|[c b r|c l b] k]; cbn in *.
  - eexists. split; [reflexivity|]. split; [reflexivity|]. done.
  - destruct HP as (Hb & Hr & HP). rewrite Hb, !some_bind. cbn. rewrite decide_True by done.
    assert (b ∉ inorder r ∧ b ∉ before k ∧ b ∉ after k ∧ Some a ≠ root_of r) as (N1 & N2 & N3 & N4).
    { apply NoDup_app in Hn as (_ & D & [Na [Nb _]%NoDup_cons]%NoDup_cons). split; [set_solver|]. split; [intros Hx; apply (D b Hx); set_solver|]. split; [set_solver|].
      destruct r as [|c' rl rb rr]; [done|]. cbn in *. intros [= <-]. apply Na. set_solver. }
    rewrite decide_False by done. eexists. split; [reflexivity|]. split; [reflexivity|]. cbn. split.
    + rewrite lookup_insert_eq. split; [done|].
      split; [eapply rep_ext; [|done]|eapply rep_path_ext; [|done]]; intros x Hx; apply lookup_insert_ne; set_solver.
    + intros x Hx. apply lookup_insert_ne. set_solver.
  - destruct HP as (Hb & Hr & HP). rewrite Hb, !some_bind. cbn. rewrite (decide_True (P := Some a = Some a)) by done.
    assert (b ∉ inorder l ∧ b ∉ before k ∧ b ∉ after k ∧ Some a ≠ root_of l) as (N1 & N2 & N3 & N4).
    { apply NoDup_app in Hn as (Hn & D & [Na _]%NoDup_cons). apply NoDup_app in Hn as (_ & D1 & Hn). apply NoDup_app in Hn as (_ & D2 & _).
      split; [set_solver|]. split; [intros Hx; apply (D1 b Hx); set_solver|]. split; [intros Hx; apply (D b); set_solver|].
      destruct l as [|c' ll lb lr]; [done|]. cbn in *. intros [= <-]. apply (D a); set_solver. }
    rewrite decide_False by done. eexists. split; [reflexivity|]. split; [reflexivity|]. cbn. split.
    + rewrite lookup_insert_eq. split; [done|].
      split; [eapply rep_ext; [|done]|eapply rep_path_ext; [|done]]; intros x Hx; apply lookup_insert_ne; set_solver.
    + intros x Hx. apply lookup_insert_ne. set_solver.
Qed.

(** A subtree gets another parent. *)
Lemma reparent_at s par par' m : rep (rb_nodes s) par m → NoDup (inorder m) →
  ∃ s', unless_null (root_of m) (wr (root_of m) (set_rb_parent par')) s = Some s' ∧ rb_root s' = rb_root s ∧
    rep (rb_nodes s') par' m ∧ ∀ x, x ∉ inorder m → rb_nodes s' !! x = rb_nodes s !! x.
Proof.
  destruct m as [|c l a r]; intros Hm Hn; [by exists s|]. cbn in *. destruct Hm as (Ha & Hl & Hr). rewrite Ha, some_bind. eexists. split; [reflexivity|].
  cbn. rewrite lookup_insert_eq. apply NoDup_app in Hn as (_ & D & [Na _]%NoDup_cons). assert (a ∉ inorder l) as Nl by (intros Hx; apply (D a Hx); set_solver).
  split; [done|]. split.
  - split; [done|]. split; (eapply rep_ext; [|done]; intros x Hx; apply lookup_insert_ne; set_solver).
  - intros x Hx. apply lookup_insert_ne. set_solver.
Qed.

(** ** Rotations *)

Lemma nodup_parts (B L M R K : list A) a b : NoDup (B ++ (L ++ a :: M ++ b :: R) ++ K) →
  a ≠ b ∧ (a ∉ B ++ K ∧ a ∉ L ∧ a ∉ M ∧ a ∉ R) ∧ (b ∉ B ++ K ∧ b ∉ L ∧ b ∉ M ∧ b ∉ R) ∧
  (∀ x, x ∈ L → x ∉ M ∧ x ∉ B ++ K) ∧ (∀ x, x ∈ M → x ∉ B ++ K) ∧ (∀ x, x ∈ R → x ∉ M ∧ x ∉ B ++ K) ∧
  NoDup M ∧ NoDup (B ++ a :: K) ∧ NoDup (B ++ b :: K).
Proof.
  rewrite !NoDup_app, !NoDup_cons, !NoDup_app, !NoDup_cons. intros (H1 & H2 & (H3 & H4 & H5 & H6 & H7 & H8 & H9) & H10 & H11).
  assert (a ∉ K ∧ b ∉ K) as [Ka Kb] by (split; apply H10; set_solver).
  split_and!; set_solver.
Qed.

Lemma left_rotate_at s k c c' l a m b r : tree_at s (zip k (Node c l a (Node c' m b r))) →
  goes (rb_left_rotate (Some a) s) s (zip k (Node c' (Node c l a m) b r)).
Proof.
  intros Ht. pose proof Ht as Ht0. apply at_focus in Ht as (HP & (Ha & Hl & Hb & Hm & Hr) & Hn). cbn in HP, Ha, Hb.
  cbn [inorder] in Hn. destruct (nodup_parts _ _ _ _ _ _ _ Hn) as (Hab & (A1 & A2 & A3 & A4) & (B1 & B2 & B3 & B4) & DL & DM & DR & NM & NA & NB).
  unfold rb_left_rotate. rewrite (rd_at s a _ Ha), some_bind. cbn [rb_right unless_null]. rewrite (rd_at s b _ Hb), some_bind. cbn [rb_left].
  rewrite (wr_at s a _ _ Ha), some_bind. set (s1 := Rbt _ _).
  assert (∀ x, x ≠ a → rb_nodes s1 !! x = rb_nodes s !! x) as F1 by (intros x Hx; by apply lookup_insert_ne).
  destruct (reparent_at s1 (Some b) (Some a) m) as (s2 & -> & R2 & Hm2 & F2); [eapply rep_ext; [|exact Hm]; intros x Hx; apply F1; set_solver|done|]. rewrite some_bind.
  assert (rb_nodes s2 !! a = Some (RbNode (path_parent k) (root_of l) (root_of m) c)) as Ha2 by (rewrite F2 by done; unfold s1; cbn; by rewrite lookup_insert_eq).
  assert (rb_nodes s2 !! b = Some (RbNode (Some a) (root_of m) (root_of r) c')) as Hb2 by (rewrite F2 by done; by rewrite F1).
  rewrite (rd_at s2 a _ Ha2), some_bind. rewrite (wr_at s2 b _ _ Hb2), some_bind. cbn [rb_parent]. set (s3 := Rbt _ _).
  assert (∀ x, x ≠ b → rb_nodes s3 !! x = rb_nodes s2 !! x) as F3 by (intros x Hx; by apply lookup_insert_ne).
  assert (rb_nodes s3 !! a = rb_nodes s2 !! a) as Ha3 by (by apply F3). rewrite Ha2 in Ha3. rewrite (rd_at s3 a _ Ha3), some_bind. cbn [rb_parent].
  destruct (replace_child_at s3 k a (Some b)) as (s4 & -> & _ & HP4 & F4); [|done|].
  { unfold s3. cbn [rb_root]. rewrite R2. eapply rep_path_ext; [|exact HP]. intros x Hx. rewrite F3, F2, F1; [done|set_solver|intros Hxm; by apply (DM x)|set_solver]. }
  rewrite some_bind.
  assert (rb_nodes s4 !! b = Some (RbNode (path_parent k) (root_of m) (root_of r) c')) as Hb4 by (rewrite F4 by done; unfold s3; cbn; by rewrite lookup_insert_eq).
  assert (rb_nodes s4 !! a = Some (RbNode (path_parent k) (root_of l) (root_of m) c)) as Ha4 by (rewrite F4, F3 by done; done).
  rewrite (wr_at s4 b _ _ Hb4), some_bind. set (s5 := Rbt _ _). assert (rb_nodes s5 !! a = Some (RbNode (path_parent k) (root_of l) (root_of m) c)) as Ha5 by (unfold s5; cbn; by rewrite lookup_insert_ne).
  rewrite (wr_at s5 a _ _ Ha5). set (s6 := Rbt _ _).
  assert (∀ x, x ≠ a → x ≠ b → rb_nodes s6 !! x = rb_nodes s4 !! x) as F6 by (intros x H1 H2; unfold s6, s5; cbn; by rewrite !lookup_insert_ne).
  exists s6. split; [done|]. split.
  - apply at_focus. cbn [inorder]. split; [|split].
    + eapply rep_path_ext; [|exact HP4]. intros x Hx. apply F6; set_solver.
    + cbn. unfold s6, s5. cbn. rewrite lookup_insert_ne, lookup_insert_eq, lookup_insert_eq by done. split; [done|]. split; [split; [done|split]|].
      * eapply rep_ext; [|exact Hl]. intros x Hx. destruct (DL x Hx). change (rb_nodes s6 !! x = rb_nodes s !! x). rewrite F6, F4, F3, F2, F1 by set_solver. done.
      * eapply rep_ext; [|exact Hm2]. intros x Hx. pose proof (DM x Hx). change (rb_nodes s6 !! x = rb_nodes s2 !! x). rewrite F6, F4, F3 by set_solver. done.
      * eapply rep_ext; [|exact Hr]. intros x Hx. destruct (DR x Hx). change (rb_nodes s6 !! x = rb_nodes s !! x). rewrite F6, F4, F3, F2, F1 by set_solver. done.
    + revert Hn. by list_simplifier.
  - intros x Hx. rewrite inorder_zip in Hx. cbn in Hx. rewrite F6, F4, F3, F2, F1 by set_solver. done.
Qed.

Lemma right_rotate_at s k c c' l b m a r : tree_at s (zip k (Node c (Node c' l b m) a r)) →
  goes (rb_right_rotate (Some a) s) s (zip k (Node c' l b (Node c m a r))).
Proof.
  intros Ht. pose proof Ht as Ht0. apply at_focus in Ht as (HP & (Ha & (Hb & Hl & Hm) & Hr) & Hn). cbn in HP, Ha, Hb.
  cbn [inorder] in Hn. rewrite <- (app_assoc (inorder l)) in Hn. cbn in Hn.
  destruct (nodup_parts _ _ _ _ _ _ _ Hn) as (Hab & (B1 & B2 & B3 & B4) & (A1 & A2 & A3 & A4) & DL & DM & DR & NM & NB & NA).
  unfold rb_right_rotate. rewrite (rd_at s a _ Ha), some_bind. cbn [rb_left unless_null]. rewrite (rd_at s b _ Hb), some_bind. cbn [rb_right].
  rewrite (wr_at s a _ _ Ha), some_bind. set (s1 := Rbt _ _).
  assert (∀ x, x ≠ a → rb_nodes s1 !! x = rb_nodes s !! x) as F1 by (intros x Hx; by apply lookup_insert_ne).
  destruct (reparent_at s1 (Some b) (Some a) m) as (s2 & -> & R2 & Hm2 & F2); [eapply rep_ext; [|exact Hm]; intros x Hx; apply F1; set_solver|done|]. rewrite some_bind.
  assert (rb_nodes s2 !! a = Some (RbNode (path_parent k) (root_of m) (root_of r) c)) as Ha2 by (rewrite F2 by done; unfold s1; cbn; by rewrite lookup_insert_eq).
  assert (rb_nodes s2 !! b = Some (RbNode (Some a) (root_of l) (root_of m) c')) as Hb2 by (rewrite F2 by done; by rewrite F1).
  rewrite (rd_at s2 a _ Ha2), some_bind. rewrite (wr_at s2 b _ _ Hb2), some_bind. cbn [rb_parent]. set (s3 := Rbt _ _).
  assert (∀ x, x ≠ b → rb_nodes s3 !! x = rb_nodes s2 !! x) as F3 by (intros x Hx; by apply lookup_insert_ne).
  assert (rb_nodes s3 !! a = rb_nodes s2 !! a) as Ha3 by (by apply F3). rewrite Ha2 in Ha3. rewrite (rd_at s3 a _ Ha3), some_bind. cbn [rb_parent].
  destruct (replace_child_at s3 k a (Some b)) as (s4 & _ & -> & HP4 & F4); [|done|].
  { unfold s3. cbn [rb_root]. rewrite R2. eapply rep_path_ext; [|exact HP]. intros x Hx. rewrite F3, F2, F1; [done|set_solver|intros Hxm; by apply (DM x)|set_solver]. }
  rewrite some_bind.
  assert (rb_nodes s4 !! b = Some (RbNode (path_parent k) (root_of l) (root_of m) c')) as Hb4 by (rewrite F4 by done; unfold s3; cbn; by rewrite lookup_insert_eq).
  assert (rb_nodes s4 !! a = Some (RbNode (path_parent k) (root_of m) (root_of r) c)) as Ha4 by (rewrite F4, F3 by done; done).
  rewrite (wr_at s4 b _ _ Hb4), some_bind. set (s5 := Rbt _ _). assert (rb_nodes s5 !! a = Some (RbNode (path_parent k) (root_of m) (root_of r) c)) as Ha5 by (unfold s5; cbn; by rewrite lookup_insert_ne).
  rewrite (wr_at s5 a _ _ Ha5). set (s6 := Rbt _ _).
  assert (∀ x, x ≠ a → x ≠ b → rb_nodes s6 !! x = rb_nodes s4 !! x) as F6 by (intros x H1 H2; unfold s6, s5; cbn; by rewrite !lookup_insert_ne).
  exists s6. split; [done|]. split.
  - apply at_focus. cbn [inorder]. split; [|split].
    + eapply rep_path_ext; [|exact HP4]. intros x Hx. apply F6; set_solver.
    + cbn. unfold s6, s5. cbn. rewrite lookup_insert_ne, lookup_insert_eq, lookup_insert_eq by done. split; [done|]. split; [|split; [done|split]].
      * eapply rep_ext; [|exact Hl]. intros x Hx. destruct (DL x Hx). change (rb_nodes s6 !! x = rb_nodes s !! x). rewrite F6, F4, F3, F2, F1 by set_solver. done.
      * eapply rep_ext; [|exact Hm2]. intros x Hx. pose proof (DM x Hx). change (rb_nodes s6 !! x = rb_nodes s2 !! x). rewrite F6, F4, F3 by set_solver. done.
      * eapply rep_ext; [|exact Hr]. intros x Hx. destruct (DR x Hx). change (rb_nodes s6 !! x = rb_nodes s !! x). rewrite F6, F4, F3, F2, F1 by set_solver. done.
    + revert Hn. by list_simplifier.
  - intros x Hx. rewrite inorder_zip in Hx. cbn in Hx. rewrite F6, F4, F3, F2, F1 by set_solver. done.
Qed.
End steps.

(** ** Deletion keeps the set of nodes *)

Section nodes.
Context {A : Type} `{Countable A}.
Notation rbt := (@rbt A _ _).

(** If [o] yields [x], the store in [x] has the nodes of [s]. *)
Definition keeps {X} (s : rbt) (g : X → rbt) (o : option X) : Prop := ∀ x, o = Some x → dom (rb_nodes (g x)) = dom (rb_nodes s).

Lemma keeps_ret {X} s (g : X → rbt) x : dom (rb_nodes (g x)) = dom (rb_nodes s) → keeps s g (Some x).
Proof. intros E y [= <-]. done. Qed.

Lemma keeps_none {X} s (g : X → rbt) : keeps s g None.
Proof. done. Qed.

Lemma keeps_read {X Y} s (g : X → rbt) (o : option Y) f : (∀ y, keeps s g (f y)) → keeps s g (o ≫= f).
Proof. intros Hf x (y & _ & E)%bind_Some. by eapply Hf. Qed.

Lemma keeps_step {X Y} s (h : Y → rbt) (g : X → rbt) (o : option Y) f : keeps s h o → (∀ y, keeps (h y) g (f y)) → keeps s g (o ≫= f).
Proof. intros Ho Hf x (y & Ey & E)%bind_Some. rewrite (Hf y x E). by apply Ho. Qed.

Lemma keeps_unless s p f : (∀ s1, keeps s1 id (f s1)) → keeps s id (unless_null p f s).
Proof. intros Hf. destruct p; [apply Hf|by apply keeps_ret]. Qed.

Lemma keeps_wr p f s : keeps s id (wr p f s).
Proof.
  intros x E. unfold wr in E. apply bind_Some in E as (a & _ & E). apply bind_Some in E as (nd & Ea & E). injection E as <-. cbn. rewrite dom_insert_L.
  assert (a ∈ dom (rb_nodes s)) by (apply elem_of_dom; eauto). set_solver.
Qed.

Create HintDb nodes discriminated.
#[local] Hint Resolve keeps_wr keeps_none : nodes.

(** Follows the code: steps that change the store by the lemma for them, then
    reads, then branches. *)
Ltac keep_nodes :=
  repeat first
    [ progress intros
    | solve [eauto with nodes]
    | apply keeps_unless
    | refine (keeps_step _ id _ _ _ _ _); [solve [repeat first [progress intros | solve [eauto with nodes] | apply keeps_unless]]|]
    | refine (keeps_step _ fst _ _ _ _ _); [solve [eauto with nodes]|]
    | apply keeps_read
    | match goal with
      | |- keeps _ _ (if ?b then _ else _) => destruct b
      | |- keeps _ _ (match ?x with _ => _ end) => destruct x
      | |- keeps _ _ (let '(_, _) := ?x in _) => destruct x
      end
    | apply keeps_ret; reflexivity ].

Lemma keeps_recolor p c s : keeps s id (recolor p c s).
Proof. apply keeps_wr. Qed.
#[local] Hint Resolve keeps_recolor : nodes.

Lemma keeps_replace parent node new s : keeps s id (replace_child parent node new s).
Proof. unfold replace_child. keep_nodes. Qed.
Lemma keeps_replace_right parent node new s : keeps s id (replace_child_right parent node new s).
Proof. unfold replace_child_right. keep_nodes. Qed.
#[local] Hint Resolve keeps_replace keeps_replace_right : nodes.

Lemma keeps_left_rotate node s : keeps s id (rb_left_rotate node s).
Proof. unfold rb_left_rotate. keep_nodes. Qed.
Lemma keeps_right_rotate node s : keeps s id (rb_right_rotate node s).
Proof. unfold rb_right_rotate. keep_nodes. Qed.
#[local] Hint Resolve keeps_left_rotate keeps_right_rotate : nodes.

Lemma keeps_case4_left node sibling s : keeps s fst (delete_case4_left node sibling s).
Proof. unfold delete_case4_left. keep_nodes. Qed.
Lemma keeps_case4_right node sibling s : keeps s fst (delete_case4_right node sibling s).
Proof. unfold delete_case4_right. keep_nodes. Qed.
#[local] Hint Resolve keeps_case4_left keeps_case4_right : nodes.

(** A branch that yields a state and a node, and then the rest. *)
Ltac keep_branch := refine (keeps_step _ fst _ _ _ _ _); [keep_nodes|keep_nodes].

Lemma keeps_black_left node sibling s : keeps s fst (delete_black_left node sibling s).
Proof. unfold delete_black_left. apply keeps_read. intros [|]; [keep_nodes|]. do 2 (apply keeps_read; intros ?). keep_branch. Qed.
Lemma keeps_black_right node sibling s : keeps s fst (delete_black_right node sibling s).
Proof. unfold delete_black_right. apply keeps_read. intros [|]; [keep_nodes|]. do 2 (apply keeps_read; intros ?). keep_branch. Qed.
#[local] Hint Resolve keeps_black_left keeps_black_right : nodes.

Lemma keeps_fixup_left node s : keeps s fst (delete_fixup_left node s).
Proof. unfold delete_fixup_left. do 3 (apply keeps_read; intros ?). keep_branch. Qed.
Lemma keeps_fixup_right node s : keeps s fst (delete_fixup_right node s).
Proof. unfold delete_fixup_right. do 3 (apply keeps_read; intros ?). keep_branch. Qed.
#[local] Hint Resolve keeps_fixup_left keeps_fixup_right : nodes.

Lemma keeps_loop fuel node s : keeps s fst (delete_loop fuel node s).
Proof.
  revert node s. induction fuel as [|fuel IH]; intros node s; cbn [delete_loop]; apply keeps_read; intros [|]; try (by apply keeps_ret); [done|].
  do 2 (apply keeps_read; intros ?). refine (keeps_step _ fst _ _ _ _ _); [keep_nodes|intros r; apply IH].
Qed.

Lemma keeps_delete_fixup node s : keeps s id (rb_delete_fixup node s).
Proof. unfold rb_delete_fixup. refine (keeps_step _ fst _ _ _ (keeps_loop _ _ _) _). keep_nodes. Qed.

Lemma keeps_splice_out node child s : keeps s id (splice_out node child s).
Proof. unfold splice_out. keep_nodes. Qed.

Lemma keeps_take_place node succ s : keeps s id (take_place node succ s).
Proof. unfold take_place. keep_nodes. Qed.

Lemma keeps_splice_succ node succ s : keeps s id (splice_succ node succ s).
Proof. unfold splice_succ. apply keeps_read. intros c. refine (keeps_step _ id _ _ _ _ (λ s1, keeps_take_place _ _ s1)). keep_nodes. Qed.
#[local] Hint Resolve keeps_delete_fixup keeps_splice_out keeps_splice_succ : nodes.

Lemma rb_delete_nodes node (s s' : rbt) : rb_delete node s = Some s' → dom (rb_nodes s') = dom (rb_nodes s).
Proof.
  revert s'. change (keeps s id (rb_delete node s)). unfold rb_delete. destruct node as [a|]; [|by apply keeps_ret]. apply keeps_read. intros nd.
  refine (keeps_step _ (λ r, r.1.1) _ _ _ _ _).
  - destruct (rb_left nd), (rb_right nd); keep_nodes.
  - intros [[s1 c] child]. cbn [fst]. keep_nodes.
Qed.
End nodes.
