(* ===== verification/RbtreeInsert.v ===== *)
(** * Red-black trees: insertion keeps the tree red-black

    [red_black t]: the root is black, no red node has a red child, and every path
    to a leaf has the same number of black nodes. *)

From stdpp Require Import sorting.
From S2P Require Import Prelude Rbtree RbtreeInv RbtreeSteps.

Set Default Goal Selector "!".

Section insert.
Context {A : Type} `{Countable A}.
Notation rbt := (@rbt A _ _).
Notation tree := (@tree A).
Notation frame := (@frame A).
Notation RED := RB_COLOR_RED.
Notation BLACK := RB_COLOR_BLACK.

Implicit Types (s : rbt) (t l m r u w : tree) (k : list frame) (a b : A) (n : nat).

(** ** Balance *)

(** Black height [n], no red child of a red node. *)
Fixpoint balanced t n : Prop :=
  match t with
  | Leaf => n = 0%nat
  | Node RED l _ r => color_of l = BLACK ∧ color_of r = BLACK ∧ balanced l n ∧ balanced r n
  | Node BLACK l _ r => ∃ n', n = S n' ∧ balanced l n' ∧ balanced r n'
  end.

Definition red_black t : Prop := color_of t = BLACK ∧ ∃ n, balanced t n.

(** The same for a path: a balanced tree of height [n] fits. *)
Fixpoint path_ok k n : Prop :=
  match k with
  | [] => True
  | LeftOf RED _ u :: k | RightOf RED u _ :: k => color_of u = BLACK ∧ balanced u n ∧ frame_color <$> head k = Some BLACK ∧ path_ok k n
  | LeftOf BLACK _ u :: k | RightOf BLACK u _ :: k => balanced u n ∧ path_ok k (S n)
  end.

Lemma zip_balanced k t n : path_ok k n → balanced t n → (frame_color <$> head k = Some RED → color_of t = BLACK) → ∃ n', balanced (zip k t) n'.
Proof.
  revert t n. induction k as [|[[] a u|[] u a] k IH]; intros t n Hk Ht Hc; cbn in *; [by exists n| | | |].
  - destruct Hk as (Hu & Hub & Hh & Hk). apply (IH _ n); [done|split_and!; auto|by rewrite Hh].
  - destruct Hk as (Hub & Hk). apply (IH _ (S n)); [done|by exists n|done].
  - destruct Hk as (Hu & Hub & Hh & Hk). apply (IH _ n); [done|split_and!; auto|by rewrite Hh].
  - destruct Hk as (Hub & Hk). apply (IH _ (S n)); [done|by exists n|done].
Qed.

Lemma zip_root_black k t n : path_ok k n → k ≠ [] → color_of (zip k t) = BLACK.
Proof.
  revert t n. induction k as [|[[] a u|[] u a] k IH]; intros t n Hk Hne; cbn in *; [done| | | |].
  - destruct Hk as (_ & _ & Hh & Hk). apply (IH _ n); [done|]. by destruct k.
  - destruct Hk as (_ & Hk). destruct k as [|f k]; [done|]. by apply (IH _ (S n)).
  - destruct Hk as (_ & _ & Hh & Hk). apply (IH _ n); [done|]. by destruct k.
  - destruct Hk as (_ & Hk). destruct k as [|f k]; [done|]. by apply (IH _ (S n)).
Qed.

(** ** One turn of the loop *)

(** The subtree below a frame. *)
Definition plug (f : frame) t : tree := match f with LeftOf c a r => Node c t a r | RightOf c l a => Node c l a t end.

Lemma zip_cons f k t : zip (f :: k) t = zip k (plug f t).
Proof. by destruct f. Qed.

(** What a turn leaves: a red node further up, the same sequence of nodes. *)
Definition turned (o : option (rbt * option A)) s t (len : nat) : Prop :=
  ∃ s' k l a r n, o = Some (s', Some a) ∧ tree_at s' (zip k (Node RED l a r)) ∧ path_ok k n ∧ balanced (Node RED l a r) n ∧
    inorder (zip k (Node RED l a r)) = inorder t ∧ (length k < len)%nat ∧ ∀ x, x ∉ inorder t → rb_nodes s' !! x = rb_nodes s !! x.

Lemma sibling_ne s k c l a r : tree_at s (zip k (Node c l a r)) → l = Leaf ∨ root_of l ≠ root_of r.
Proof.
  intros (_ & _ & Hn). rewrite inorder_zip in Hn. destruct l as [|cl ll b lr]; [by left|right]. destruct r as [|cr rl d rr]; [done|]. cbn in *. intros [= <-].
  rewrite !NoDup_app, NoDup_cons in Hn. set_solver.
Qed.

Lemma fixup_red_uncle s k n f g wl wa wr l a r t : frame_color f = RED → tree_at s (zip (f :: g :: k) (Node RED l a r)) →
  path_ok (f :: g :: k) n → balanced (Node RED l a r) n →
  (g = LeftOf BLACK (frame_addr g) (Node RED wl wa wr) ∨ g = RightOf BLACK (Node RED wl wa wr) (frame_addr g)) → t = zip (f :: g :: k) (Node RED l a r) →
  turned (s ← recolor (Some (frame_addr f)) BLACK s; s ← recolor (Some wa) BLACK s; s ← recolor (Some (frame_addr g)) RED s; Some (s, Some (frame_addr g))) s t (length (f :: g :: k)).
Proof.
  intros Hf Ht Hk Hb Hg ->. assert (∃ X Y p, plug f (Node RED l a r) = Node RED X p Y ∧ p = frame_addr f ∧ balanced (Node BLACK X p Y) (S n)) as (X & Y & p & HX & -> & HB).
  { destruct f as [c p u|c u p]; cbn in Hf; subst c; cbn in *; (eexists _, _, p; split; [done|split; [done|exists n; cbn in *; tauto]]). }
  rewrite !zip_cons, HX in *. destruct Hg as [Hg|Hg]; rewrite Hg in *; cbn [plug frame_addr] in *; set (ga := frame_addr g) in *.
  - destruct (recolor_at s (LeftOf BLACK ga (Node RED wl wa wr) :: k) RED BLACK X (frame_addr f) Y Ht) as (s1 & -> & H1 & F1). rewrite some_bind.
    destruct (recolor_at s1 (RightOf BLACK (Node BLACK X (frame_addr f) Y) ga :: k) RED BLACK wl wa wr H1) as (s2 & -> & H2 & F2). rewrite some_bind.
    destruct (recolor_at s2 k BLACK RED _ ga _ H2) as (s3 & -> & H3 & F3). rewrite some_bind.
    exists s3, k. eexists _, ga, _, (S n). split; [reflexivity|]. split; [exact H3|]. assert (path_ok k (S n) ∧ balanced wl n ∧ balanced wr n) as (Q1 & Q2 & Q3).
    { destruct f as [c p u|c u p]; cbn in Hf; subst c; cbn in Hk; destruct Hk as (_ & _ & _ & (_ & _ & ? & ?) & ?); done. }
    split; [done|]. split; [cbn; split_and!; [done|done|exact HB|by exists n]|]. split; [by rewrite !inorder_zip|]. split; [cbn; lia|].
    intros x Hx. rewrite inorder_zip in Hx. rewrite F3, F2, F1; [done|..]; cbn [zip]; rewrite inorder_zip; exact Hx.
  - destruct (recolor_at s (RightOf BLACK (Node RED wl wa wr) ga :: k) RED BLACK X (frame_addr f) Y Ht) as (s1 & -> & H1 & F1). rewrite some_bind.
    destruct (recolor_at s1 (LeftOf BLACK ga (Node BLACK X (frame_addr f) Y) :: k) RED BLACK wl wa wr H1) as (s2 & -> & H2 & F2). rewrite some_bind.
    destruct (recolor_at s2 k BLACK RED _ ga _ H2) as (s3 & -> & H3 & F3). rewrite some_bind.
    exists s3, k. eexists _, ga, _, (S n). split; [reflexivity|]. split; [exact H3|]. assert (path_ok k (S n) ∧ balanced wl n ∧ balanced wr n) as (Q1 & Q2 & Q3).
    { destruct f as [c p u|c u p]; cbn in Hf; subst c; cbn in Hk; destruct Hk as (_ & _ & _ & (_ & _ & ? & ?) & ?); done. }
    split; [done|]. split; [cbn; split_and!; [done|done|by exists n|exact HB]|]. split; [by rewrite !inorder_zip|]. split; [cbn; lia|].
    intros x Hx. rewrite inorder_zip in Hx. rewrite F3, F2, F1; [done|..]; cbn [zip]; rewrite inorder_zip; exact Hx.
Qed.

Lemma same_nodes (s s' : rbt) t t' : inorder t = inorder t' → (∀ x, x ∉ inorder t → rb_nodes s' !! x = rb_nodes s !! x) →
  ∀ x, x ∉ inorder t' → rb_nodes s' !! x = rb_nodes s !! x.
Proof. intros <-. done. Qed.

Lemma fixup_left s k n f ga w l a r : frame_color f = RED → tree_at s (zip (f :: LeftOf BLACK ga w :: k) (Node RED l a r)) →
  path_ok (f :: LeftOf BLACK ga w :: k) n → balanced (Node RED l a r) n →
  turned (insert_fixup_left (Some a) (Some (frame_addr f)) (Some ga) (root_of w) s) s (zip (f :: LeftOf BLACK ga w :: k) (Node RED l a r)) (S (S (length k))).
Proof.
  intros Hf Ht Hk Hb. unfold insert_fixup_left. pose proof Ht as Hw. rewrite zip_cons in Hw. rewrite (is_red_at s (RightOf BLACK (plug f (Node RED l a r)) ga :: k) w Hw), some_bind.
  destruct (bool_decide_reflect (color_of w = RED)) as [Hwr|Hwb].
  { destruct w as [|[] wl wa wr]; [done| |done]. eapply (fixup_red_uncle s k n f (LeftOf BLACK ga (Node RED wl wa wr)) wl wa wr l a r); [done|done|done|done|by left|done]. }
  pose proof Hb as (Hbl & Hbr & Bl & Br). destruct f as [c p u|c u p]; cbn in Hf; subst c; cbn [frame_addr zip] in *.
  - destruct Hk as (Hu & Bu & _ & Bw & Hk). rewrite (rd_node s (LeftOf BLACK ga w :: k) RED _ p u Ht), some_bind. cbn [rb_right].
    rewrite decide_False by (destruct (sibling_ne s (LeftOf BLACK ga w :: k) RED _ p u Ht) as [?|Hne]; [done|exact Hne]). rewrite some_bind.
    destruct (recolor_at s (LeftOf BLACK ga w :: k) RED BLACK _ p u Ht) as (s1 & -> & H1 & F1). rewrite some_bind.
    destruct (recolor_at s1 k BLACK RED _ ga w H1) as (s2 & -> & H2 & F2). rewrite some_bind.
    destruct (right_rotate_at s2 k RED BLACK _ p u ga w H2) as (s3 & -> & H3 & F3). rewrite some_bind.
    exists s3, (LeftOf BLACK p (Node RED u ga w) :: k), l, a, r, n. split; [done|]. split; [exact H3|]. cbn [zip] in *.
    assert (inorder (zip k (Node BLACK (Node RED l a r) p (Node RED u ga w))) = inorder (zip k (Node BLACK (Node RED (Node RED l a r) p u) ga w))) as HI
      by (rewrite !inorder_zip; cbn; by list_simplifier).
    split; [cbn; split; [split_and!; [done|by destruct (color_of w)|done..]|done]|]. split; [done|]. split; [done|]. split; [cbn; lia|].
    intros x Hx. rewrite F3, F2, F1; [done|..]; rewrite ?HI; rewrite inorder_zip in *; exact Hx.
  - destruct Hk as (Hu & Bu & _ & Bw & Hk). rewrite (rd_node s (LeftOf BLACK ga w :: k) RED u p _ Ht), some_bind. cbn [rb_right root_of].
    rewrite decide_True by done. destruct (left_rotate_at s (LeftOf BLACK ga w :: k) RED RED u p l a r Ht) as (s0 & -> & H0 & F0). rewrite some_bind.
    rewrite (rd_node s0 (LeftOf RED a r :: LeftOf BLACK ga w :: k) RED u p l H0), !some_bind. cbn [rb_parent path_parent head fmap option_fmap option_map frame_addr].
    destruct (recolor_at s0 (LeftOf BLACK ga w :: k) RED BLACK _ a r H0) as (s1 & -> & H1 & F1). rewrite some_bind.
    destruct (recolor_at s1 k BLACK RED _ ga w H1) as (s2 & -> & H2 & F2). rewrite some_bind.
    destruct (right_rotate_at s2 k RED BLACK _ a r ga w H2) as (s3 & -> & H3 & F3). rewrite some_bind.
    exists s3, (LeftOf BLACK a (Node RED r ga w) :: k), u, p, l, n. split; [done|]. split; [exact H3|]. cbn [zip] in *.
    assert (inorder (zip k (Node BLACK (Node RED u p l) a (Node RED r ga w))) = inorder (zip k (Node BLACK (Node RED u p (Node RED l a r)) ga w))) as HI
      by (rewrite !inorder_zip; cbn; by list_simplifier).
    split; [cbn; split; [split_and!; [done|by destruct (color_of w)|done..]|done]|]. split; [cbn; by split_and!|]. split; [done|]. split; [cbn; lia|].
    intros x Hx. rewrite F3, F2, F1, F0; [done|..]; intros Hin; apply Hx; revert Hin; rewrite ?HI, !inorder_zip; cbn; set_solver.
Qed.

Lemma fixup_right s k n f ga w l a r : frame_color f = RED → tree_at s (zip (f :: RightOf BLACK w ga :: k) (Node RED l a r)) →
  path_ok (f :: RightOf BLACK w ga :: k) n → balanced (Node RED l a r) n →
  turned (insert_fixup_right (Some a) (Some (frame_addr f)) (Some ga) (root_of w) s) s (zip (f :: RightOf BLACK w ga :: k) (Node RED l a r)) (S (S (length k))).
Proof.
  intros Hf Ht Hk Hb. unfold insert_fixup_right. pose proof Ht as Hw. rewrite zip_cons in Hw. rewrite (is_red_at s (LeftOf BLACK ga (plug f (Node RED l a r)) :: k) w Hw), some_bind.
  destruct (bool_decide_reflect (color_of w = RED)) as [Hwr|Hwb].
  { destruct w as [|[] wl wa wr]; [done| |done]. eapply (fixup_red_uncle s k n f (RightOf BLACK (Node RED wl wa wr) ga) wl wa wr l a r); [done|done|done|done|by right|done]. }
  pose proof Hb as (Hbl & Hbr & Bl & Br). destruct f as [c p u|c u p]; cbn in Hf; subst c; cbn [frame_addr zip] in *.
  - destruct Hk as (Hu & Bu & _ & Bw & Hk). rewrite (rd_node s (RightOf BLACK w ga :: k) RED _ p u Ht), some_bind. cbn [rb_left root_of].
    rewrite decide_True by done. destruct (right_rotate_at s (RightOf BLACK w ga :: k) RED RED l a r p u Ht) as (s0 & -> & H0 & F0). rewrite some_bind.
    rewrite (rd_node s0 (RightOf RED l a :: RightOf BLACK w ga :: k) RED r p u H0), !some_bind. cbn [rb_parent path_parent head fmap option_fmap option_map frame_addr].
    destruct (recolor_at s0 (RightOf BLACK w ga :: k) RED BLACK l a _ H0) as (s1 & -> & H1 & F1). rewrite some_bind.
    destruct (recolor_at s1 k BLACK RED w ga _ H1) as (s2 & -> & H2 & F2). rewrite some_bind.
    destruct (left_rotate_at s2 k RED BLACK w ga l a _ H2) as (s3 & -> & H3 & F3). rewrite some_bind.
    exists s3, (RightOf BLACK (Node RED w ga l) a :: k), r, p, u, n. split; [done|]. split; [exact H3|]. cbn [zip] in *.
    assert (inorder (zip k (Node BLACK (Node RED w ga l) a (Node RED r p u))) = inorder (zip k (Node BLACK w ga (Node RED (Node RED l a r) p u)))) as HI
      by (rewrite !inorder_zip; cbn; by list_simplifier).
    split; [cbn; split; [split_and!; [by destruct (color_of w)|done..]|done]|]. split; [cbn; by split_and!|]. split; [done|]. split; [cbn; lia|].
    intros x Hx. rewrite F3, F2, F1, F0; [done|..]; intros Hin; apply Hx; revert Hin; rewrite ?HI, !inorder_zip; cbn; set_solver.
  - destruct Hk as (Hu & Bu & _ & Bw & Hk). rewrite (rd_node s (RightOf BLACK w ga :: k) RED u p _ Ht), some_bind. cbn [rb_left].
    rewrite decide_False by (destruct (sibling_ne s (RightOf BLACK w ga :: k) RED u p _ Ht) as [->|Hne]; [done|by apply not_eq_sym]). rewrite some_bind.
    destruct (recolor_at s (RightOf BLACK w ga :: k) RED BLACK u p _ Ht) as (s1 & -> & H1 & F1). rewrite some_bind.
    destruct (recolor_at s1 k BLACK RED w ga _ H1) as (s2 & -> & H2 & F2). rewrite some_bind.
    destruct (left_rotate_at s2 k RED BLACK w ga u p _ H2) as (s3 & -> & H3 & F3). rewrite some_bind.
    exists s3, (RightOf BLACK (Node RED w ga u) p :: k), l, a, r, n. split; [done|]. split; [exact H3|]. cbn [zip] in *.
    assert (inorder (zip k (Node BLACK (Node RED w ga u) p (Node RED l a r))) = inorder (zip k (Node BLACK w ga (Node RED u p (Node RED l a r))))) as HI
      by (rewrite !inorder_zip; cbn; by list_simplifier).
    split; [cbn; split; [split_and!; [by destruct (color_of w)|done..]|done]|]. split; [done|]. split; [done|]. split; [cbn; lia|].
    intros x Hx. rewrite F3, F2, F1; [done|..]; intros Hin; apply Hx; revert Hin; rewrite ?HI, !inorder_zip; cbn; set_solver.
Qed.

(** ** The loop *)

Lemma insert_loop_spec fuel : ∀ s k n l a r, tree_at s (zip k (Node RED l a r)) → path_ok k n → balanced (Node RED l a r) n → (length k <= fuel)%nat →
  ∃ t' n', goes (insert_loop fuel (Some a) s) s t' ∧ inorder t' = inorder (zip k (Node RED l a r)) ∧ balanced t' n'.
Proof.
  induction fuel as [|fuel IH]; intros s k n l a r Ht Hk Hb Hlen; cbn [insert_loop];
    rewrite (rd_node s k RED l a r Ht), some_bind; cbn [rb_parent]; rewrite (is_red_parent s k _ Ht), some_bind;
    (destruct (bool_decide_reflect (frame_color <$> head k = Some RED)) as [Hred|Hnr]; [|destruct (zip_balanced k (Node RED l a r) n Hk Hb ltac:(done)) as [n' Hn'];
      exists (zip k (Node RED l a r)), n'; split; [by exists s|done]]).
  { destruct k as [|f k]; [done|]. cbn in Hlen. lia. }
  destruct k as [|f k]; [done|]. cbn in Hred. injection Hred as Hf.
  assert (∃ g k', k = g :: k' ∧ frame_color g = BLACK) as (g & k' & -> & Hg).
  { destruct f as [c p u|c u p]; cbn in Hf; subst c; cbn in Hk; destruct Hk as (_ & _ & Hh & _); (destruct k as [|g k']; [done|]); exists g, k'; (split; [done|]); by injection Hh. }
  destruct (rd_parent s f (g :: k') _ Ht) as (pn & Ep & Epp & _ & _). cbn [path_parent head fmap option_fmap option_map]. rewrite Ep, some_bind, Epp.
  cbn [path_parent head fmap option_fmap option_map]. pose proof Ht as Htp. rewrite zip_cons in Htp.
  assert (root_of (plug f (Node RED l a r)) = Some (frame_addr f)) as Hroot by (by destruct f).
  assert (∃ s' k'' l' a' r' n', (gn ← rd (Some (frame_addr g)) s;
      rs ← (if decide (Some (frame_addr f) = rb_left gn) then insert_fixup_left (Some a) (Some (frame_addr f)) (Some (frame_addr g)) (rb_right gn) s
            else insert_fixup_right (Some a) (Some (frame_addr f)) (Some (frame_addr g)) (rb_left gn) s); Some rs) = Some (s', Some a') ∧
      tree_at s' (zip k'' (Node RED l' a' r')) ∧ path_ok k'' n' ∧ balanced (Node RED l' a' r') n' ∧
      inorder (zip k'' (Node RED l' a' r')) = inorder (zip (f :: g :: k') (Node RED l a r)) ∧ (length k'' < S (S (length k')))%nat ∧
      ∀ x, x ∉ inorder (zip (f :: g :: k') (Node RED l a r)) → rb_nodes s' !! x = rb_nodes s !! x)
    as (s' & k'' & l' & a' & r' & n' & Hturn & H1 & H2 & H3 & H4 & H5 & H6).
  { destruct g as [c ga w|c w ga]; cbn in Hg; subst c; cbn [zip frame_addr] in *.
    - rewrite (rd_node s k' BLACK _ ga w Htp), some_bind. cbn [rb_left rb_right]. rewrite Hroot, decide_True by done.
      destruct (fixup_left s k' n f ga w l a r Hf Ht Hk Hb) as (s' & k'' & l' & a' & r' & n' & -> & Hrest). by exists s', k'', l', a', r', n'.
    - rewrite (rd_node s k' BLACK w ga _ Htp), some_bind. cbn [rb_left rb_right]. rewrite <- Hroot. rewrite decide_False.
      2: { destruct (sibling_ne s k' BLACK w ga _ Htp) as [->|Hne]; [by rewrite Hroot|by apply not_eq_sym]. }
      rewrite Hroot. destruct (fixup_right s k' n f ga w l a r Hf Ht Hk Hb) as (s' & k'' & l' & a' & r' & n' & -> & Hrest). by exists s', k'', l', a', r', n'. }
  apply bind_Some in Hturn as (gn & -> & Hturn). rewrite some_bind. apply bind_Some in Hturn as (rs & -> & Hrs). rewrite some_bind. injection Hrs as ->. cbn [fst snd].
  destruct (IH s' k'' n' l' a' r' H1 H2 H3) as (t' & m' & (s'' & -> & Ht' & F') & HI & Hb'); [cbn in Hlen; lia|].
  exists t', m'. split; [|split; [by rewrite HI|done]]. exists s''. split; [done|]. split; [done|]. intros x Hx. rewrite F' by done. apply H6. by rewrite <- H4, <- HI.
Qed.

Lemma insert_fixup_spec s k n l a r : tree_at s (zip k (Node RED l a r)) → path_ok k n → balanced (Node RED l a r) n →
  ∃ t', goes (rb_insert_fixup (Some a) s) s t' ∧ inorder t' = inorder (zip k (Node RED l a r)) ∧ red_black t'.
Proof.
  intros Ht Hk Hb. unfold rb_insert_fixup.
  destruct (insert_loop_spec (size (rb_nodes s)) s k n l a r Ht Hk Hb) as (t' & n' & (s' & -> & Ht' & F') & HI & Hb').
  { pose proof (tree_size s _ Ht). pose proof (path_size k (Node RED l a r)). lia. }
  rewrite some_bind. pose proof Ht' as (Hroot & _). rewrite Hroot. destruct t' as [|c tl ta tr].
  { rewrite inorder_zip in HI. cbn in HI. destruct (before k); [destruct (inorder l)|]; done. }
  cbn [root_of unless_null]. destruct (recolor_at s' [] c BLACK tl ta tr Ht') as (s'' & -> & Ht'' & F''). exists (Node BLACK tl ta tr). split.
  - exists s''. split; [done|]. split; [done|]. intros x Hx. by rewrite F'', F'.
  - split; [done|]. split; [done|]. destruct c; cbn in Hb'; [exists (S n'); exists n'; tauto|by exists n'].
Qed.

(** ** The place *)

Section less.
Context (less : A → A → bool).

Class LessOrder : Prop := {
  less_asym x y : less x y = true → less y x = false;
  less_cotrans x y z : less x z = true → less x y = true ∨ less y z = true
}.
Context (HO : LessOrder).

Definition sorted (xs : list A) : Prop := StronglySorted (λ x y, less y x = false) xs.

(** The path down to the place of [x]. *)
Fixpoint down (x : A) t k : list frame :=
  match t with
  | Leaf => k
  | Node c l a r => if less x a then down x l (LeftOf c a r :: k) else down x r (RightOf c l a :: k)
  end.

Lemma zip_down x t k : zip (down x t k) Leaf = zip k t.
Proof. revert k. induction t as [|c l IHl a r IHr]; intros k; [done|]. cbn. destruct (less x a); [by rewrite IHl|by rewrite IHr]. Qed.

Lemma path_down x t k n : path_ok k n → balanced t n → (frame_color <$> head k = Some RED → color_of t = BLACK) → (k = [] → color_of t = BLACK) →
  path_ok (down x t k) 0.
Proof.
  revert k n. induction t as [|c l IHl a r IHr]; intros k n Hk Hb Hc Hr; [by cbn in Hb; subst n|]. cbn [down]. cbn in Hb.
  assert (c = RED → frame_color <$> head k = Some BLACK) as Hh.
  { intros ->. destruct k as [|f k]; [by specialize (Hr eq_refl)|]. cbn. destruct (frame_color f) eqn:Ef; [|done]. cbn in Hc. rewrite Ef in Hc. by specialize (Hc eq_refl). }
  destruct c.
  - destruct Hb as (C1 & C2 & B1 & B2). destruct (less x a); [apply (IHl _ n)|apply (IHr _ n)]; cbn; naive_solver.
  - destruct Hb as (n' & -> & B1 & B2). destruct (less x a); [apply (IHl _ n')|apply (IHr _ n')]; cbn; naive_solver.
Qed.

Lemma walk_down x s t k fuel : tree_at s (zip k t) → (length (inorder t) <= fuel)%nat →
  insert_walk fuel less x (path_parent k) (root_of t) s = Some (path_parent (down x t k)).
Proof.
  revert k fuel. induction t as [|c l IHl a r IHr]; intros k fuel Ht Hf; [by destruct fuel|]. cbn in Hf. rewrite length_app in Hf. cbn in Hf.
  destruct fuel as [|fuel]; [lia|]. cbn [insert_walk root_of down]. rewrite (rd_node s k c l a r Ht), some_bind. cbn [rb_left rb_right].
  destruct (less x a); [apply (IHl (LeftOf c a r :: k)); [done|lia]|apply (IHr (RightOf c l a :: k)); [done|lia]].
Qed.

(** The side on which the last comparison puts it. *)
Lemma side_down x t k : match head k with Some (LeftOf _ a _) => less x a = true | Some (RightOf _ _ a) => less x a = false | None => True end →
  match head (down x t k) with Some (LeftOf _ a _) => less x a = true | Some (RightOf _ _ a) => less x a = false | None => True end.
Proof. revert k. induction t as [|c l IHl a r IHr]; intros k Hk; [done|]. cbn. destruct (less x a) eqn:E; [by apply IHl|by apply IHr]. Qed.

Lemma down_split x t k : sorted (inorder (zip k t)) → (∀ y, y ∈ before k → less x y = false) → (∀ y, y ∈ after k → less x y = true) →
  (∀ y, y ∈ before (down x t k) → less x y = false) ∧ (∀ y, y ∈ after (down x t k) → less x y = true).
Proof.
  revert k. induction t as [|c l IHl a r IHr]; intros k Hs Hb Ha; [done|]. pose proof Hs as Hs'. rewrite inorder_zip in Hs'. cbn in Hs'. unfold sorted in Hs'.
  apply StronglySorted_app in Hs' as (_ & _ & Hs'). apply StronglySorted_app in Hs' as (_ & Hs' & _). apply StronglySorted_app in Hs' as (Hs1 & _ & Hs3).
  apply StronglySorted_inv in Hs3 as [_ Hr]. rewrite Forall_forall in Hr. cbn [down]. destruct (less x a) eqn:E; [apply IHl|apply IHr]; [done|done| |done| |done]; cbn.
  - intros y [->|[Hy|Hy]%elem_of_app]%elem_of_cons; [done| |by apply Ha]. destruct (less_cotrans x y a E) as [?|Hya]; [done|]. by rewrite (Hr y Hy) in Hya.
  - intros y [Hy|[Hy| ->%list_elem_of_singleton]%elem_of_app]%elem_of_app; [by apply Hb| |done].
    destruct (less x y) eqn:Exy; [|done]. destruct (less_cotrans x a y Exy) as [?|Hay]; [congruence|]. by rewrite (Hs1 y a Hy ltac:(set_solver)) in Hay.
Qed.

Lemma link_at s k x : rep_path (rb_nodes s) k None (rb_root s) → NoDup (before k ++ after k) →
  match head k with Some (LeftOf _ a _) => less x a = true | Some (RightOf _ _ a) => less x a = false | None => True end →
  ∃ s', match path_parent k with
        | None => Some (set_root (Some x) s)
        | Some p => wr (Some p) (if less x p then set_rb_left (Some x) else set_rb_right (Some x)) s
        end = Some s' ∧ rep_path (rb_nodes s') k (Some x) (rb_root s') ∧ ∀ y, y ∉ before k ++ after k → rb_nodes s' !! y = rb_nodes s !! y.
Proof.
  intros HP Hn Hside. destruct k as [|[c b u|c u b] k]; cbn in *; [by eexists| |]; destruct HP as (Hb & Hu & HP); rewrite Hside, Hb, some_bind; (eexists; split; [reflexivity|]).
  - assert (b ∉ inorder u ∧ b ∉ before k ∧ b ∉ after k) as (N1 & N2 & N3) by (rewrite NoDup_app, NoDup_cons in Hn; set_solver). cbn. split.
    + rewrite lookup_insert_eq. split; [done|]. split; [eapply rep_ext; [|done]|eapply rep_path_ext; [|done]]; intros y Hy; apply lookup_insert_ne; set_solver.
    + intros y Hy. apply lookup_insert_ne. set_solver.
  - assert (b ∉ inorder u ∧ b ∉ before k ∧ b ∉ after k) as (N1 & N2 & N3) by (rewrite !NoDup_app in Hn; set_solver). cbn. split.
    + rewrite lookup_insert_eq. split; [done|]. split; [eapply rep_ext; [|done]|eapply rep_path_ext; [|done]]; intros y Hy; apply lookup_insert_ne; set_solver.
    + intros y Hy. apply lookup_insert_ne. set_solver.
Qed.

Lemma tree_at_ext s s' t : rb_root s' = rb_root s → (∀ a, a ∈ inorder t → rb_nodes s' !! a = rb_nodes s !! a) → tree_at s t → tree_at s' t.
Proof. intros Hr He (H1 & H2 & H3). split; [congruence|]. split; [by eapply rep_ext|done]. Qed.

(** The node goes between those that are not greater and those that are. *)
Lemma rb_insert_spec s t x : tree_at s t → red_black t → x ∉ inorder t → is_Some (rb_nodes s !! x) → sorted (inorder t) →
  ∃ t' L R, goes (rb_insert less x s) s t' ∧ red_black t' ∧ inorder t = L ++ R ∧ inorder t' = L ++ x :: R ∧
    (∀ y, y ∈ L → less x y = false) ∧ (∀ y, y ∈ R → less x y = true) ∧ sorted (inorder t').
Proof using HO.
  intros Ht [Hc [n Hb]] Hx [nx Ex] Hs. unfold rb_insert, RB_NODE_INIT. rewrite (wr_at s x nx _ Ex), some_bind. set (s1 := Rbt _ _).
  assert (tree_at s1 t) as Ht1 by (apply (tree_at_ext s); [done|intros a Ha; cbn; apply lookup_insert_ne; by intros ->|done]).
  pose proof Ht1 as (Hroot & _). change (rb_root s) with (rb_root s1). rewrite Hroot.
  pose proof (walk_down x s1 t [] (size (rb_nodes s1)) Ht1 (tree_size s1 t Ht1)) as Hwalk. change (path_parent []) with (@None A) in Hwalk.
  rewrite Hwalk, some_bind. set (k := down x t []).
  assert (rb_nodes s1 !! x = Some (RbNode None None None RED)) as Ex1 by apply lookup_insert_eq. rewrite (wr_at s1 x _ _ Ex1), some_bind. set (s2 := Rbt _ _).
  pose proof (zip_down x t []) as Hz. fold k in Hz. cbn in Hz. pose proof (inorder_zip k Leaf) as HI. rewrite Hz in HI. cbn in HI.
  assert (rep_path (rb_nodes s1) k None (rb_root s1) ∧ NoDup (before k ++ after k)) as [HP Hn].
  { rewrite <- Hz in Ht1. apply at_focus in Ht1 as (HP & _ & Hn). done. }
  destruct (link_at s2 k x) as (s3 & -> & HP3 & F3); [|done|by apply (side_down x t [])|].
  { cbn. eapply rep_path_ext; [|exact HP]. intros y Hy. apply lookup_insert_ne. intros ->. apply Hx. by rewrite HI. }
  rewrite some_bind. assert (x ∉ before k ++ after k) as Hxk by (by rewrite <- HI).
  assert (tree_at s3 (zip k (Node RED Leaf x Leaf))) as Ht3.
  { apply at_focus. cbn. split; [done|]. split.
    - rewrite F3 by done. split; [|done]. unfold s2. cbn. by rewrite lookup_insert_eq.
    - rewrite NoDup_app in *. rewrite NoDup_cons. set_solver. }
  destruct (insert_fixup_spec s3 k 0 Leaf x Leaf Ht3) as (t' & (s' & -> & Ht' & F') & HI' & Hrb); [eapply (path_down x t [] n); [done|done|done|by intros _]|by cbn|].
  destruct (down_split x t []) as [S1 S2]; [done|set_solver|set_solver|]. fold k in S1, S2. rewrite inorder_zip in HI'. cbn in HI'.
  exists t', (before k), (after k). split; [|split; [done|split; [done|split; [done|split; [done|split; [done|]]]]]].
  - exists s'. split; [done|]. split; [done|]. intros y Hy. rewrite HI' in Hy. rewrite F' by (by rewrite HI'). rewrite F3 by set_solver. unfold s2, s1. cbn.
    rewrite !lookup_insert_ne by set_solver. done.
  - rewrite HI'. rewrite HI in Hs. unfold sorted in *. apply StronglySorted_app in Hs as (C & SL & SR). apply StronglySorted_app. split; [|split; [done|constructor; [done|]]].
    + intros y z Hy [->|Hz']%elem_of_cons; [by apply S1|by apply C].
    + apply Forall_forall. intros z Hz'. by apply less_asym, S2.
Qed.
End less.
End insert.
