(* ===== verification/RbtreeWalk.v ===== *)
(** * Red-black trees: walking and searching

    First, last, next and previous are those of the sequence of nodes; a search
    takes at most 2 log (n + 1) turns. *)

From stdpp Require Import sorting.
From S2P Require Import Prelude Rbtree RbtreeInv RbtreeSteps RbtreeInsert.

Set Default Goal Selector "!".

Section walk.
Context {A : Type} `{Countable A}.
Notation rbt := (@rbt A _ _).
Notation tree := (@tree A).
Notation frame := (@frame A).
Notation RED := RB_COLOR_RED.
Notation BLACK := RB_COLOR_BLACK.

Implicit Types (s : rbt) (t l m r u w : tree) (k : list frame) (a b : A) (n : nat).

Lemma minimum_at s t : ∀ k fuel, tree_at s (zip k t) → (length (inorder t) <= S fuel)%nat → rb_minimum fuel (root_of t) s = Some (head (inorder t)).
Proof.
  induction t as [|c l IHl a r _]; intros k fuel Ht Hf; [by destruct fuel|]. cbn in Hf. rewrite length_app in Hf. cbn in Hf.
  destruct l as [|cl ll b lr].
  - destruct fuel; cbn [rb_minimum root_of]; rewrite (rd_node s k c Leaf a r Ht), some_bind; done.
  - destruct fuel as [|fuel]; [cbn in Hf; rewrite length_app in Hf; cbn in Hf; lia|]. cbn [rb_minimum root_of]. rewrite (rd_node s k c _ a r Ht), some_bind.
    cbn [rb_left root_of]. change (Some b) with (root_of (Node cl ll b lr)). rewrite (IHl (LeftOf c a r :: k)); [|done|lia]. cbn. by destruct (inorder ll).
Qed.

Lemma maximum_at s t : ∀ k fuel, tree_at s (zip k t) → (length (inorder t) <= S fuel)%nat → rb_maximum fuel (root_of t) s = Some (last (inorder t)).
Proof.
  induction t as [|c l _ a r IHr]; intros k fuel Ht Hf; [by destruct fuel|]. cbn in Hf. rewrite length_app in Hf. cbn in Hf.
  destruct r as [|cr rl b rr].
  - destruct fuel; cbn [rb_maximum root_of]; rewrite (rd_node s k c l a Leaf Ht), some_bind; cbn; by rewrite last_snoc.
  - destruct fuel as [|fuel]; [cbn in Hf; rewrite length_app in Hf; cbn in Hf; lia|]. cbn [rb_maximum root_of]. rewrite (rd_node s k c l a _ Ht), some_bind.
    cbn [rb_right root_of]. change (Some b) with (root_of (Node cr rl b rr)). rewrite (IHr (RightOf c l a :: k)); [|done|lia].
    f_equal. cbn [inorder]. rewrite (last_app_cons _ _ a). cbn. by destruct (inorder rl ++ b :: inorder rr) eqn:E; [destruct (inorder rl)|].
Qed.

(** Climbing leads to the neighbour outside the subtree. *)
Lemma up_from_right_at s k : ∀ t fuel, tree_at s (zip k t) → t ≠ Leaf → (length k <= fuel)%nat → up_from_right fuel (root_of t) (path_parent k) s = Some (head (after k)).
Proof.
  induction k as [|[c b r|c l b] k IH]; intros t fuel Ht Hne Hf; [by destruct fuel| |].
  - destruct fuel; cbn [up_from_right path_parent head fmap option_fmap option_map frame_addr]; rewrite (rd_node s k c t b r Ht), some_bind; cbn [rb_right];
      (rewrite decide_False by (destruct (sibling_ne s k c t b r Ht) as [->|?]; done)); done.
  - destruct fuel as [|fuel]; [cbn in Hf; lia|]. cbn [up_from_right path_parent head fmap option_fmap option_map frame_addr]. rewrite (rd_node s k c l b t Ht), some_bind. cbn [rb_right rb_parent].
    rewrite decide_True by done. exact (IH (Node c l b t) fuel Ht ltac:(done) ltac:(cbn in Hf; lia)).
Qed.

Lemma last_snoc_app {B} (L : list B) (M : list B) x : last (L ++ M ++ [x]) = Some x.
Proof. by rewrite app_assoc, last_snoc. Qed.

Lemma up_from_left_at s k : ∀ t fuel, tree_at s (zip k t) → t ≠ Leaf → (length k <= fuel)%nat → up_from_left fuel (root_of t) (path_parent k) s = Some (last (before k)).
Proof.
  induction k as [|[c b r|c l b] k IH]; intros t fuel Ht Hne Hf; [by destruct fuel| |].
  - destruct fuel as [|fuel]; [cbn in Hf; lia|]. cbn [up_from_left path_parent head fmap option_fmap option_map frame_addr]. rewrite (rd_node s k c t b r Ht), some_bind. cbn [rb_left rb_parent].
    rewrite decide_True by done. exact (IH (Node c t b r) fuel Ht ltac:(done) ltac:(cbn in Hf; lia)).
  - destruct fuel; cbn [up_from_left path_parent head fmap option_fmap option_map frame_addr before]; rewrite (rd_node s k c l b t Ht), some_bind; cbn [rb_left];
      (rewrite decide_False by (destruct (sibling_ne s k c l b t Ht) as [->|?]; [destruct t; done|by apply not_eq_sym])); by rewrite last_snoc_app.
Qed.

(** Every node has its place. *)
Lemma place_of t a : a ∈ inorder t → ∃ k c l r, t = zip k (Node c l a r).
Proof.
  intros Ha. enough (∀ k, ∃ k' c l r, zip k t = zip k' (Node c l a r)) as Hk by apply (Hk []).
  induction t as [|c l IHl b r IHr]; cbn in Ha; [by apply elem_of_nil in Ha|]. intros k. apply elem_of_app in Ha as [Ha|[->|Ha]%elem_of_cons].
  - apply (IHl Ha (LeftOf c b r :: k)).
  - by exists k, c, l, r.
  - apply (IHr Ha (RightOf c l b :: k)).
Qed.

Lemma place_index s k c l a r i : tree_at s (zip k (Node c l a r)) → inorder (zip k (Node c l a r)) !! i = Some a → i = length (before k ++ inorder l).
Proof.
  intros (_ & _ & Hn) Hi. eapply NoDup_lookup; [exact Hn|exact Hi|]. rewrite inorder_zip. cbn. rewrite <- app_assoc, app_assoc.
  rewrite lookup_app_r by lia. by rewrite Nat.sub_diag.
Qed.

Lemma next_at s t a i : tree_at s t → inorder t !! i = Some a → rb_next (Some a) s = Some (inorder t !! S i).
Proof.
  intros Ht Hi. destruct (place_of t a) as (k & c & l & r & ->); [by eapply list_elem_of_lookup_2|]. rewrite (place_index s k c l a r i Ht Hi).
  assert (inorder (zip k (Node c l a r)) !! S (length (before k ++ inorder l)) = head (inorder r ++ after k)) as ->.
  { rewrite inorder_zip. cbn. rewrite <- app_assoc, app_assoc. rewrite lookup_app_r by lia. replace (S _ - _)%nat with 1%nat by lia. cbn. by destruct (inorder r ++ after k). }
  cbn [rb_next]. rewrite (rd_node s k c l a r Ht), some_bind. cbn [rb_right rb_parent]. pose proof (tree_size s _ Ht) as Hsz. pose proof (path_size k (Node c l a r)).
  destruct r as [|cr rl b rr]; cbn [root_of].
  - exact (up_from_right_at s k (Node c l a Leaf) (size (rb_nodes s)) Ht ltac:(done) ltac:(lia)).
  - change (Some b) with (root_of (Node cr rl b rr)). rewrite (minimum_at s (Node cr rl b rr) (RightOf c l a :: k)); [cbn; by destruct (inorder rl)|done|].
    rewrite inorder_zip, !length_app in Hsz. cbn [inorder] in *. rewrite !length_app in Hsz. cbn in Hsz. rewrite !length_app in *. cbn in *. lia.
Qed.

Lemma prev_at s t a i : tree_at s t → inorder t !! i = Some a → rb_prev (Some a) s = Some (if i is S j then inorder t !! j else None).
Proof.
  intros Ht Hi. destruct (place_of t a) as (k & c & l & r & ->); [by eapply list_elem_of_lookup_2|]. rewrite (place_index s k c l a r i Ht Hi).
  assert ((if length (before k ++ inorder l) is S j then inorder (zip k (Node c l a r)) !! j else None) = last (before k ++ inorder l)) as ->.
  { rewrite inorder_zip. cbn. rewrite <- app_assoc, app_assoc. destruct (length (before k ++ inorder l)) as [|j] eqn:E; [apply nil_length_inv in E; by rewrite E|].
    rewrite lookup_app_l by lia. rewrite last_lookup, E. done. }
  cbn [rb_prev]. rewrite (rd_node s k c l a r Ht), some_bind. cbn [rb_left rb_parent]. pose proof (tree_size s _ Ht) as Hsz. pose proof (path_size k (Node c l a r)).
  destruct l as [|cl ll b lr]; cbn [root_of inorder].
  - rewrite app_nil_r. exact (up_from_left_at s k (Node c Leaf a r) (size (rb_nodes s)) Ht ltac:(done) ltac:(lia)).
  - change (Some b) with (root_of (Node cl ll b lr)). rewrite (maximum_at s (Node cl ll b lr) (LeftOf c a r :: k)); [|done|].
    + cbn. by rewrite (app_assoc (before k)), !last_app_cons.
    + rewrite inorder_zip, !length_app in Hsz. cbn [inorder] in *. rewrite !length_app in Hsz. cbn in Hsz. rewrite !length_app in *. cbn in *. lia.
Qed.

(** ** Searching *)

Fixpoint height t : nat := match t with Leaf => 0 | Node _ l _ r => S (Nat.max (height l) (height r)) end.

(** The key is greater than the first nodes, then equal, then smaller. *)
Definition cmp_sorted (compare : A → Z) (xs : list A) : Prop :=
  StronglySorted (λ x y, (compare x < 0 → compare y < 0) ∧ (compare y > 0 → compare x > 0)) xs.

Lemma search_at compare s t : ∀ k fuel, tree_at s (zip k t) → cmp_sorted compare (inorder t) → (height t <= fuel)%nat →
  ∃ o : option A, search_loop fuel compare (root_of t) s = Some o ∧
    match o with Some a => a ∈ inorder t ∧ compare a = 0 | None => ∀ a, a ∈ inorder t → compare a ≠ 0 end.
Proof.
  induction t as [|c l IHl a r IHr]; intros k fuel Ht Hs Hf.
  - exists None. split; [by destruct fuel|]. intros a Ha. by apply elem_of_nil in Ha.
  - cbn in Hf. destruct fuel as [|fuel]; [lia|]. cbn [search_loop root_of]. rewrite (rd_node s k c l a r Ht), some_bind. cbn [rb_left rb_right].
    cbn in Hs. apply StronglySorted_app in Hs as (C & Sl & Sr). apply StronglySorted_inv in Sr as [Sr Ca]. rewrite Forall_forall in Ca.
    destruct (Z.ltb_spec (compare a) 0) as [Hlt|Hge]; [|destruct (Z.gtb_spec (compare a) 0) as [Hgt|Hle]].
    + destruct (IHl (LeftOf c a r :: k) fuel Ht Sl ltac:(lia)) as (res & -> & Hres). exists res. split; [done|]. destruct res as [b|]; [cbn; set_solver|].
      intros y [Hy|[->|Hy]%elem_of_cons]%elem_of_app; [by apply Hres|lia|]. destruct (Ca y Hy) as [Hy' _]. specialize (Hy' Hlt). lia.
    + destruct (IHr (RightOf c l a :: k) fuel Ht Sr ltac:(lia)) as (res & -> & Hres). exists res. split; [done|]. destruct res as [b|]; [cbn; set_solver|].
      intros y [Hy|[->|Hy]%elem_of_cons]%elem_of_app; [|lia|by apply Hres]. destruct (C y a Hy ltac:(set_solver)) as [_ Hy']. specialize (Hy' ltac:(lia)). lia.
    + exists (Some a). split; [done|]. split; [cbn; set_solver|lia].
Qed.

(** ** The height of a balanced tree *)

Lemma balanced_height t n : balanced t n → (height t <= 2 * n + (if decide (color_of t = RED) then 1 else 0))%nat.
Proof.
  revert n. induction t as [|[] l IHl a r IHr]; intros n; cbn [balanced height color_of].
  - intros ->. cbn. lia.
  - intros (Cl & Cr & Bl & Br). specialize (IHl n Bl). specialize (IHr n Br). rewrite Cl, decide_False in IHl by done. rewrite Cr, decide_False in IHr by done. rewrite decide_True by done. lia.
  - intros (n' & -> & Bl & Br). specialize (IHl n' Bl). specialize (IHr n' Br). rewrite (decide_False (P := BLACK = RED)) by done. destruct (decide (color_of l = RED)), (decide (color_of r = RED)); lia.
Qed.

Lemma balanced_size t n : balanced t n → (2 ^ n <= S (length (inorder t)))%nat.
Proof.
  revert n. induction t as [|[] l IHl a r IHr]; intros n; cbn [balanced inorder].
  - by intros ->.
  - intros (_ & _ & Bl & _). specialize (IHl n Bl). rewrite length_app. lia.
  - intros (n' & -> & Bl & Br). specialize (IHl n' Bl). specialize (IHr n' Br). rewrite length_app. cbn. lia.
Qed.

Lemma red_black_height t : red_black t → (height t <= 2 * Nat.log2 (S (length (inorder t))))%nat.
Proof.
  intros [Hc [n Hb]]. pose proof (balanced_height t n Hb) as Hh. rewrite Hc, decide_False in Hh by done. apply balanced_size, Nat.log2_le_mono in Hb. rewrite Nat.log2_pow2 in Hb by lia. lia.
Qed.

Lemma height_size t : (height t <= length (inorder t))%nat.
Proof. induction t as [|c l IHl a r IHr]; cbn; [done|]. rewrite length_app. cbn. lia. Qed.

Lemma search_mono compare s t k f1 f2 : tree_at s (zip k t) → (height t <= f1)%nat → (height t <= f2)%nat →
  search_loop f1 compare (root_of t) s = search_loop f2 compare (root_of t) s.
Proof.
  revert k f1 f2. induction t as [|c l IHl a r IHr]; intros k f1 f2 Ht H1 H2; [by destruct f1, f2|]. cbn in H1, H2. destruct f1 as [|f1]; [lia|]. destruct f2 as [|f2]; [lia|].
  cbn [search_loop root_of]. rewrite (rd_node s k c l a r Ht), !some_bind. cbn [rb_left rb_right].
  destruct (compare a <? 0); [apply (IHl (LeftOf c a r :: k)); [done|lia|lia]|]. destruct (compare a >? 0); [apply (IHr (RightOf c l a :: k)); [done|lia|lia]|done].
Qed.
End walk.
