(* ===== verification/RbtreeDelete.v ===== *)
(** * Red-black trees: deletion

    The rebalancing loop is right wherever it starts from a place one black node
    short.  [rb_delete] starts it there for some nodes only; for others it follows
    a NULL pointer. *)

From stdpp Require Import sorting.
From S2P Require Import Prelude Rbtree RbtreeInv RbtreeSteps RbtreeInsert RbtreeWalk.

Set Default Goal Selector "!".

Section delete.
Context {A : Type} `{Countable A}.
Notation rbt := (@rbt A _ _).
Notation tree := (@tree A).
Notation frame := (@frame A).
Notation RED := RB_COLOR_RED.
Notation BLACK := RB_COLOR_BLACK.

Implicit Types (s : rbt) (t l m r u w x y z T : tree) (k : list frame) (a b d p : A) (n N : nat).

(** ** A place one black node short *)

(** The place expects height [N]: a red node there has only to be made black; a
    black one is short. *)
Definition short t N : Prop :=
  (∃ l a r, t = Node RED l a r ∧ balanced (Node BLACK l a r) N) ∨ (color_of t = BLACK ∧ ∃ n, N = S n ∧ balanced t n).

(** [node] points to the root of the place, or is a detached node that still has
    the parent pointer of an empty place. *)
Definition hook s (node : A) t T p : Prop :=
  root_of t = Some node ∨ (t = Leaf ∧ node ∉ inorder T ∧ ∃ nd, rb_nodes s !! node = Some nd ∧ rb_parent nd = Some p).

Lemma hook_parent s node t T f k : hook s node t T (frame_addr f) → tree_at s (zip (f :: k) t) → parent_of (Some node) s = Some (Some (frame_addr f)).
Proof.
  intros [Hr|(_ & _ & nd & E & Hp)] Ht; unfold parent_of.
  - destruct t as [|c l a r]; [done|]. injection Hr as ->. by rewrite (rd_node s (f :: k) c l node r Ht).
  - by rewrite (rd_at s node nd E), some_bind, Hp.
Qed.

Lemma hook_same s s' node t T p : hook s node t T p → (∀ v, v ∉ inorder T → rb_nodes s' !! v = rb_nodes s !! v) → hook s' node t T p.
Proof. intros [Hr|(-> & Hn & nd & E & Hp)] F; [by left|right]. split; [done|]. split; [done|]. exists nd. by rewrite F. Qed.

(** After a turn: the whole tree is in order, or the loop goes on further up. *)
Definition del_turned (o : option (rbt * option A)) s T (len : nat) : Prop :=
  ∃ s' node, o = Some (s', node) ∧ (∀ v, v ∉ inorder T → rb_nodes s' !! v = rb_nodes s !! v) ∧
    ((∃ t', tree_at s' t' ∧ node = root_of t' ∧ red_black t' ∧ inorder t' = inorder T) ∨
     (∃ k u N, tree_at s' (zip k u) ∧ node = root_of u ∧ u ≠ Leaf ∧ path_ok k N ∧ short u N ∧ inorder (zip k u) = inorder T ∧ (color_of u = RED ∨ length k < len)%nat)).

Lemma goes_frame o s s0 t T : inorder t = inorder T → goes o s t → (∀ v, v ∉ inorder T → rb_nodes s !! v = rb_nodes s0 !! v) →
  ∃ s', o = Some s' ∧ tree_at s' t ∧ ∀ v, v ∉ inorder T → rb_nodes s' !! v = rb_nodes s0 !! v.
Proof. intros HI (s' & -> & Ht & F) F0. exists s'. split; [done|]. split; [done|]. intros v Hv. rewrite F by (by rewrite HI). by apply F0. Qed.

(** A black node of height [S N] in place of the pair. *)
Lemma zip_red_black k c X d Y N : path_ok k N → balanced (Node c X d Y) N → (c = RED → frame_color <$> head k = Some BLACK) → red_black (zip k (Node c X d Y)).
Proof.
  intros Hk Hb Hc. destruct (zip_balanced k (Node c X d Y) N Hk Hb) as [n Hn].
  { intros Hr. destruct c; [|done]. rewrite (Hc eq_refl) in Hr. done. }
  split; [|by exists n]. destruct k as [|f k]; [destruct c; [by specialize (Hc eq_refl)|done]|]. by eapply zip_root_black.
Qed.

(** Height of what the path above the parent expects. *)
Definition up_height (c : rb_color_t) n : nat := match c with RED => n | BLACK => S n end.

(** ** The place is a left child *)

Lemma case4_left s0 s k n c p t node T x d y b z : hook s node t T p → tree_at s (zip (LeftOf c p (Node BLACK x d (Node RED y b z)) :: k) t) →
  inorder (zip (LeftOf c p (Node BLACK x d (Node RED y b z)) :: k) t) = inorder T → (∀ v, v ∉ inorder T → rb_nodes s !! v = rb_nodes s0 !! v) →
  path_ok k (up_height c (S n)) → (c = RED → frame_color <$> head k = Some BLACK) → balanced t n → color_of t = BLACK →
  balanced x n → balanced y n → balanced z n → ∀ len, del_turned (delete_case4_left (Some node) (Some d) s) s0 T len.
Proof.
  intros Hh Ht HI F Hk Hc Bt Ct Bx By Bz len. unfold delete_case4_left. cbn [zip] in *. rewrite (hook_parent s node t T (LeftOf c p _) k Hh Ht), some_bind. cbn [frame_addr].
  rewrite (rd_node s k c t p _ Ht), some_bind. cbn [rb_color].
  assert (inorder (zip k (Node c t p (Node c x d (Node RED y b z)))) = inorder T) as HI1 by (rewrite <- HI, !inorder_zip; done).
  destruct (goes_frame _ s s0 _ T HI1 (recolor_at s (RightOf c t p :: k) BLACK c x d _ Ht) F) as (s1 & -> & H1 & F1). rewrite some_bind.
  assert (inorder (zip k (Node BLACK t p (Node c x d (Node RED y b z)))) = inorder T) as HI2 by (rewrite <- HI, !inorder_zip; done).
  destruct (goes_frame _ s1 s0 _ T HI2 (recolor_at s1 k c BLACK t p _ H1) F1) as (s2 & -> & H2 & F2). rewrite some_bind.
  rewrite (rd_node s2 (RightOf BLACK t p :: k) c x d _ H2), some_bind. cbn [rb_right root_of unless_null].
  assert (inorder (zip k (Node BLACK t p (Node c x d (Node BLACK y b z)))) = inorder T) as HI3 by (rewrite <- HI, !inorder_zip; done).
  destruct (goes_frame _ s2 s0 _ T HI3 (recolor_at s2 (RightOf c x d :: RightOf BLACK t p :: k) RED BLACK y b z H2) F2) as (s3 & -> & H3 & F3). rewrite some_bind.
  assert (inorder (zip k (Node c (Node BLACK t p x) d (Node BLACK y b z))) = inorder T) as HI4 by (rewrite <- HI, !inorder_zip; cbn; by list_simplifier).
  destruct (goes_frame _ s3 s0 _ T HI4 (left_rotate_at s3 k BLACK c t p x d _ H3) F3) as (s4 & -> & H4 & F4). rewrite some_bind.
  eexists s4, _. split; [reflexivity|]. split; [done|]. left. eexists. split; [exact H4|]. split; [apply H4|]. split; [|done].
  eapply zip_red_black; [exact Hk| |done]. destruct c; cbn; [split_and!; [done|done|by exists n|by exists n]|exists (S n); split_and!; [done|by exists n|by exists n]].
Qed.

Lemma black_left s0 s k n c p t node T wl b wr : hook s node t T p → tree_at s (zip (LeftOf c p (Node BLACK wl b wr) :: k) t) →
  inorder (zip (LeftOf c p (Node BLACK wl b wr) :: k) t) = inorder T → (∀ v, v ∉ inorder T → rb_nodes s !! v = rb_nodes s0 !! v) →
  path_ok k (up_height c (S n)) → (c = RED → frame_color <$> head k = Some BLACK) → balanced t n → color_of t = BLACK → balanced wl n → balanced wr n →
  ∀ len, (c = BLACK → length k < len)%nat → del_turned (delete_black_left (Some node) (Some b) s) s0 T len.
Proof.
  intros Hh Ht HI F Hk Hc Bt Ct Bl Br len Hlen. unfold delete_black_left, both_black. cbn [zip] in *. rewrite (rd_node s (RightOf c t p :: k) BLACK wl b wr Ht), !some_bind. cbn [rb_left rb_right].
  unfold is_black. rewrite (is_red_at s (LeftOf BLACK b wr :: RightOf c t p :: k) wl Ht), (is_red_at s (RightOf BLACK wl b :: RightOf c t p :: k) wr Ht), !some_bind.
  destruct (bool_decide_reflect (color_of wr = RED)) as [Rr|Rr].
  - (* case 4 *)
    destruct wr as [|[] y d z]; [done| |done]. assert ((if negb (bool_decide (color_of wl = RED)) then Some (negb true) else Some false) = Some false) as -> by (by destruct (negb _)).
    rewrite !some_bind. cbn [negb]. rewrite some_bind. cbn [fst snd].
    cbn in Br. apply (case4_left s0 s k n c p t node T wl b y d z); try done; tauto.
  - destruct (bool_decide_reflect (color_of wl = RED)) as [Rl|Rl]; cbn [negb]; rewrite some_bind.
    + (* case 3 *)
      destruct wl as [|[] x d y]; [done| |done]. cbn [root_of unless_null].
      assert (inorder (zip k (Node c t p (Node BLACK (Node BLACK x d y) b wr))) = inorder T) as HI1 by (rewrite <- HI, !inorder_zip; done).
      destruct (goes_frame _ s s0 _ T HI1 (recolor_at s (LeftOf BLACK b wr :: RightOf c t p :: k) RED BLACK x d y Ht) F) as (s1 & -> & H1 & F1). rewrite some_bind.
      assert (inorder (zip k (Node c t p (Node RED (Node BLACK x d y) b wr))) = inorder T) as HI2 by (rewrite <- HI, !inorder_zip; done).
      destruct (goes_frame _ s1 s0 _ T HI2 (recolor_at s1 (RightOf c t p :: k) BLACK RED _ b wr H1) F1) as (s2 & -> & H2 & F2). rewrite some_bind.
      assert (inorder (zip k (Node c t p (Node BLACK x d (Node RED y b wr)))) = inorder T) as HI3 by (rewrite <- HI, !inorder_zip; cbn; by list_simplifier).
      destruct (goes_frame _ s2 s0 _ T HI3 (right_rotate_at s2 (RightOf c t p :: k) RED BLACK x d y b wr H2) F2) as (s3 & -> & H3 & F3). rewrite some_bind.
      pose proof (hook_same s s3 node t T p Hh ltac:(intros v Hv; by rewrite F3, F)) as Hh3.
      rewrite (hook_parent s3 node t T (LeftOf c p _) k Hh3 H3), some_bind. cbn [frame_addr]. rewrite (rd_node s3 k c t p _ H3), !some_bind. cbn [fst snd rb_right root_of].
      cbn in Bl. apply (case4_left s0 s3 k n c p t node T x d y b wr); try done; tauto.
    + (* case 2 *)
      assert (inorder (zip k (Node c t p (Node RED wl b wr))) = inorder T) as HI1 by (rewrite <- HI, !inorder_zip; done).
      destruct (goes_frame _ s s0 _ T HI1 (recolor_at s (RightOf c t p :: k) BLACK RED wl b wr Ht) F) as (s1 & -> & H1 & F1). rewrite some_bind.
      pose proof (hook_same s s1 node t T p Hh ltac:(intros v Hv; by rewrite F1, F)) as Hh1.
      rewrite (hook_parent s1 node t T (LeftOf c p (Node RED wl b wr)) k Hh1 H1), some_bind. cbn [frame_addr].
      assert (color_of wl = BLACK ∧ color_of wr = BLACK) as [Cl Cr] by (destruct (color_of wl), (color_of wr); done).
      exists s1, (Some p). split; [done|]. split; [done|]. right. exists k, (Node c t p (Node RED wl b wr)), (up_height c (S n)).
      split; [done|]. split; [done|]. split; [done|]. split; [done|]. split; [|split; [done|destruct c; [by left|right; by apply Hlen]]].
      destruct c; [left; exists t, p, (Node RED wl b wr); split; [done|exists n; by split_and!]|right; split; [done|exists (S n); split; [done|exists n; by split_and!]]].
Qed.

Lemma fixup_turn_left s k n c p w t node T : hook s node t T p → tree_at s (zip (LeftOf c p w :: k) t) → T = zip (LeftOf c p w :: k) t →
  path_ok (LeftOf c p w :: k) (S n) → balanced t n → color_of t = BLACK →
  del_turned (delete_fixup_left (Some node) s) s T (S (length k)).
Proof.
  intros Hh Ht -> Hk Bt Ct. unfold delete_fixup_left. rewrite (hook_parent s node t _ (LeftOf c p w) k Hh Ht), some_bind. cbn [frame_addr zip] in *.
  rewrite (rd_node s k c t p w Ht), some_bind. cbn [rb_right].
  assert (balanced w (S n) ∧ path_ok k (up_height c (S n)) ∧ (c = RED → frame_color <$> head k = Some BLACK) ∧ (c = RED → color_of w = BLACK)) as (Bw & Hk' & Hc & Hcw).
  { destruct c; cbn in Hk; [destruct Hk as (? & ? & ? & ?)|destruct Hk]; done. }
  destruct w as [|cw wl b wr]; [done|]. cbn [root_of]. rewrite (rd_node s (RightOf c t p :: k) cw wl b wr Ht), some_bind. cbn [rb_color]. destruct cw.
  - destruct c; [by specialize (Hcw eq_refl)|]. rewrite decide_True by done. cbn in Bw. destruct Bw as (Cl & Cr & Bl & Br). set (T := zip k _) in *.
    assert (inorder (zip k (Node BLACK t p (Node BLACK wl b wr))) = inorder T) as HI1 by (unfold T; rewrite !inorder_zip; done).
    destruct (goes_frame _ s s _ T HI1 (recolor_at s (RightOf BLACK t p :: k) RED BLACK wl b wr Ht) ltac:(done)) as (s1 & -> & H1 & F1). rewrite some_bind.
    assert (inorder (zip k (Node RED t p (Node BLACK wl b wr))) = inorder T) as HI2 by (unfold T; rewrite !inorder_zip; done).
    destruct (goes_frame _ s1 s _ T HI2 (recolor_at s1 k BLACK RED t p _ H1) F1) as (s2 & -> & H2 & F2). rewrite some_bind.
    assert (inorder (zip k (Node BLACK (Node RED t p wl) b wr)) = inorder T) as HI3 by (unfold T; rewrite !inorder_zip; cbn; by list_simplifier).
    destruct (goes_frame _ s2 s _ T HI3 (left_rotate_at s2 k RED BLACK t p wl b wr H2) F2) as (s3 & -> & H3 & F3). rewrite some_bind.
    pose proof (hook_same s s3 node t T p Hh F3) as Hh3.
    rewrite (hook_parent s3 node t T (LeftOf RED p wl) (LeftOf BLACK b wr :: k) Hh3 H3), some_bind. cbn [frame_addr].
    rewrite (rd_node s3 (LeftOf BLACK b wr :: k) RED t p wl H3), !some_bind. cbn [fst snd rb_right].
    destruct wl as [|[] x d y]; [done|done|]. cbn [root_of]. cbn in Bl. destruct Bl as (n' & [= <-] & Bx & By).
    by apply (black_left s s3 (LeftOf BLACK b wr :: k) n RED p t node T x d y).
  - rewrite decide_False by done. rewrite some_bind. cbn [fst snd]. cbn in Bw. destruct Bw as (n' & [= <-] & Bl & Br).
    apply (black_left s s k n c p t node _ wl b wr); try done. lia.
Qed.
(** ** The place is a right child *)

Lemma case4_right s0 s k n c p t node T x d y b z : hook s node t T p → tree_at s (zip (RightOf c (Node BLACK (Node RED z b y) d x) p :: k) t) →
  inorder (zip (RightOf c (Node BLACK (Node RED z b y) d x) p :: k) t) = inorder T → (∀ v, v ∉ inorder T → rb_nodes s !! v = rb_nodes s0 !! v) →
  path_ok k (up_height c (S n)) → (c = RED → frame_color <$> head k = Some BLACK) → balanced t n → color_of t = BLACK →
  balanced x n → balanced y n → balanced z n → ∀ len, del_turned (delete_case4_right (Some node) (Some d) s) s0 T len.
Proof.
  intros Hh Ht HI F Hk Hc Bt Ct Bx By Bz len. unfold delete_case4_right. cbn [zip] in *. rewrite (hook_parent s node t T (RightOf c _ p) k Hh Ht), some_bind. cbn [frame_addr].
  rewrite (rd_node s k c _ p t Ht), some_bind. cbn [rb_color].
  assert (inorder (zip k (Node c (Node c (Node RED z b y) d x) p t)) = inorder T) as HI1 by (rewrite <- HI, !inorder_zip; done).
  destruct (goes_frame _ s s0 _ T HI1 (recolor_at s (LeftOf c p t :: k) BLACK c _ d x Ht) F) as (s1 & -> & H1 & F1). rewrite some_bind.
  assert (inorder (zip k (Node BLACK (Node c (Node RED z b y) d x) p t)) = inorder T) as HI2 by (rewrite <- HI, !inorder_zip; done).
  destruct (goes_frame _ s1 s0 _ T HI2 (recolor_at s1 k c BLACK _ p t H1) F1) as (s2 & -> & H2 & F2). rewrite some_bind.
  rewrite (rd_node s2 (LeftOf BLACK p t :: k) c _ d x H2), some_bind. cbn [rb_left root_of unless_null].
  assert (inorder (zip k (Node BLACK (Node c (Node BLACK z b y) d x) p t)) = inorder T) as HI3 by (rewrite <- HI, !inorder_zip; done).
  destruct (goes_frame _ s2 s0 _ T HI3 (recolor_at s2 (LeftOf c d x :: LeftOf BLACK p t :: k) RED BLACK z b y H2) F2) as (s3 & -> & H3 & F3). rewrite some_bind.
  assert (inorder (zip k (Node c (Node BLACK z b y) d (Node BLACK x p t))) = inorder T) as HI4 by (rewrite <- HI, !inorder_zip; cbn; by list_simplifier).
  destruct (goes_frame _ s3 s0 _ T HI4 (right_rotate_at s3 k BLACK c _ d x p t H3) F3) as (s4 & -> & H4 & F4). rewrite some_bind.
  eexists s4, _. split; [reflexivity|]. split; [done|]. left. eexists. split; [exact H4|]. split; [apply H4|]. split; [|done].
  eapply zip_red_black; [exact Hk| |done]. destruct c; cbn; [split_and!; [done|done|by exists n|by exists n]|exists (S n); split_and!; [done|by exists n|by exists n]].
Qed.

Lemma black_right s0 s k n c p t node T wr b wl : hook s node t T p → tree_at s (zip (RightOf c (Node BLACK wl b wr) p :: k) t) →
  inorder (zip (RightOf c (Node BLACK wl b wr) p :: k) t) = inorder T → (∀ v, v ∉ inorder T → rb_nodes s !! v = rb_nodes s0 !! v) →
  path_ok k (up_height c (S n)) → (c = RED → frame_color <$> head k = Some BLACK) → balanced t n → color_of t = BLACK → balanced wr n → balanced wl n →
  ∀ len, (c = BLACK → length k < len)%nat → del_turned (delete_black_right (Some node) (Some b) s) s0 T len.
Proof.
  intros Hh Ht HI F Hk Hc Bt Ct Bl Br len Hlen. unfold delete_black_right, both_black. cbn [zip] in *. rewrite (rd_node s (LeftOf c p t :: k) BLACK wl b wr Ht), !some_bind. cbn [rb_right rb_left].
  unfold is_black. rewrite (is_red_at s (RightOf BLACK wl b :: LeftOf c p t :: k) wr Ht), (is_red_at s (LeftOf BLACK b wr :: LeftOf c p t :: k) wl Ht), !some_bind.
  destruct (bool_decide_reflect (color_of wl = RED)) as [Rr|Rr].
  - (* case 4 *)
    destruct wl as [|[] z d y]; [done| |done]. cbn [negb]. rewrite !some_bind. cbn [negb]. cbn [fst snd].
    cbn in Br. apply (case4_right s0 s k n c p t node T wr b y d z); try done; tauto.
  - destruct (bool_decide_reflect (color_of wr = RED)) as [Rl|Rl]; cbn [negb]; rewrite some_bind.
    + (* case 3 *)
      destruct wr as [|[] y d x]; [done| |done]. cbn [root_of unless_null].
      assert (inorder (zip k (Node c (Node BLACK wl b (Node BLACK y d x)) p t)) = inorder T) as HI1 by (rewrite <- HI, !inorder_zip; done).
      destruct (goes_frame _ s s0 _ T HI1 (recolor_at s (RightOf BLACK wl b :: LeftOf c p t :: k) RED BLACK y d x Ht) F) as (s1 & -> & H1 & F1). rewrite some_bind.
      assert (inorder (zip k (Node c (Node RED wl b (Node BLACK y d x)) p t)) = inorder T) as HI2 by (rewrite <- HI, !inorder_zip; done).
      destruct (goes_frame _ s1 s0 _ T HI2 (recolor_at s1 (LeftOf c p t :: k) BLACK RED wl b _ H1) F1) as (s2 & -> & H2 & F2). rewrite some_bind.
      assert (inorder (zip k (Node c (Node BLACK (Node RED wl b y) d x) p t)) = inorder T) as HI3 by (rewrite <- HI, !inorder_zip; cbn; by list_simplifier).
      destruct (goes_frame _ s2 s0 _ T HI3 (left_rotate_at s2 (LeftOf c p t :: k) RED BLACK wl b y d x H2) F2) as (s3 & -> & H3 & F3). rewrite some_bind.
      pose proof (hook_same s s3 node t T p Hh ltac:(intros v Hv; by rewrite F3, F)) as Hh3.
      rewrite (hook_parent s3 node t T (RightOf c _ p) k Hh3 H3), some_bind. cbn [frame_addr]. rewrite (rd_node s3 k c _ p t H3), !some_bind. cbn [fst snd rb_left root_of].
      cbn in Bl. apply (case4_right s0 s3 k n c p t node T x d y b wl); try done; tauto.
    + (* case 2 *)
      assert (inorder (zip k (Node c (Node RED wl b wr) p t)) = inorder T) as HI1 by (rewrite <- HI, !inorder_zip; done).
      destruct (goes_frame _ s s0 _ T HI1 (recolor_at s (LeftOf c p t :: k) BLACK RED wl b wr Ht) F) as (s1 & -> & H1 & F1). rewrite some_bind.
      pose proof (hook_same s s1 node t T p Hh ltac:(intros v Hv; by rewrite F1, F)) as Hh1.
      rewrite (hook_parent s1 node t T (RightOf c (Node RED wl b wr) p) k Hh1 H1), some_bind. cbn [frame_addr].
      assert (color_of wr = BLACK ∧ color_of wl = BLACK) as [Cl Cr] by (destruct (color_of wr), (color_of wl); done).
      exists s1, (Some p). split; [done|]. split; [done|]. right. exists k, (Node c (Node RED wl b wr) p t), (up_height c (S n)).
      split; [done|]. split; [done|]. split; [done|]. split; [done|]. split; [|split; [done|destruct c; [by left|right; by apply Hlen]]].
      destruct c; [left; exists (Node RED wl b wr), p, t; split; [done|exists n; by split_and!]|right; split; [done|exists (S n); split; [done|exists n; by split_and!]]].
Qed.

Lemma fixup_turn_right s k n c p w t node T : hook s node t T p → tree_at s (zip (RightOf c w p :: k) t) → T = zip (RightOf c w p :: k) t →
  path_ok (RightOf c w p :: k) (S n) → balanced t n → color_of t = BLACK →
  del_turned (delete_fixup_right (Some node) s) s T (S (length k)).
Proof.
  intros Hh Ht -> Hk Bt Ct. unfold delete_fixup_right. rewrite (hook_parent s node t _ (RightOf c w p) k Hh Ht), some_bind. cbn [frame_addr zip] in *.
  rewrite (rd_node s k c w p t Ht), some_bind. cbn [rb_left].
  assert (balanced w (S n) ∧ path_ok k (up_height c (S n)) ∧ (c = RED → frame_color <$> head k = Some BLACK) ∧ (c = RED → color_of w = BLACK)) as (Bw & Hk' & Hc & Hcw).
  { destruct c; cbn in Hk; [destruct Hk as (? & ? & ? & ?)|destruct Hk]; done. }
  destruct w as [|cw wl b wr]; [done|]. cbn [root_of]. rewrite (rd_node s (LeftOf c p t :: k) cw wl b wr Ht), some_bind. cbn [rb_color]. destruct cw.
  - destruct c; [by specialize (Hcw eq_refl)|]. rewrite decide_True by done. cbn in Bw. destruct Bw as (Cl & Cr & Bl & Br). set (T := zip k _) in *.
    assert (inorder (zip k (Node BLACK (Node BLACK wl b wr) p t)) = inorder T) as HI1 by (unfold T; rewrite !inorder_zip; done).
    destruct (goes_frame _ s s _ T HI1 (recolor_at s (LeftOf BLACK p t :: k) RED BLACK wl b wr Ht) ltac:(done)) as (s1 & -> & H1 & F1). rewrite some_bind.
    assert (inorder (zip k (Node RED (Node BLACK wl b wr) p t)) = inorder T) as HI2 by (unfold T; rewrite !inorder_zip; done).
    destruct (goes_frame _ s1 s _ T HI2 (recolor_at s1 k BLACK RED _ p t H1) F1) as (s2 & -> & H2 & F2). rewrite some_bind.
    assert (inorder (zip k (Node BLACK wl b (Node RED wr p t))) = inorder T) as HI3 by (unfold T; rewrite !inorder_zip; cbn; by list_simplifier).
    destruct (goes_frame _ s2 s _ T HI3 (right_rotate_at s2 k RED BLACK wl b wr p t H2) F2) as (s3 & -> & H3 & F3). rewrite some_bind.
    pose proof (hook_same s s3 node t T p Hh F3) as Hh3.
    rewrite (hook_parent s3 node t T (RightOf RED wr p) (RightOf BLACK wl b :: k) Hh3 H3), some_bind. cbn [frame_addr].
    rewrite (rd_node s3 (RightOf BLACK wl b :: k) RED wr p t H3), !some_bind. cbn [fst snd rb_left].
    destruct wr as [|[] y d x]; [done|done|]. cbn [root_of]. cbn in Br. destruct Br as (n' & [= <-] & By & Bx).
    by apply (black_right s s3 (RightOf BLACK wl b :: k) n RED p t node T x d y).
  - rewrite decide_False by done. rewrite some_bind. cbn [fst snd]. cbn in Bw. destruct Bw as (n' & [= <-] & Bl & Br).
    apply (black_right s s k n c p t node _ wr b wl); try done. lia.
Qed.

(** ** The loop *)

(** The loop ends, and with the last recolouring the tree is red-black. *)
Definition settles (o : option (rbt * option A)) s T : Prop :=
  ∃ t', goes (r ← o; unless_null r.2 (recolor r.2 BLACK) r.1) s t' ∧ red_black t' ∧ inorder t' = inorder T.

Lemma root_in f k t b : root_of (zip (f :: k) t) = Some b → b ∈ before (f :: k) ++ after (f :: k).
Proof.
  revert f t. induction k as [|g k IH]; intros f t Hb; [destruct f; injection Hb as <-; cbn; set_solver|].
  rewrite zip_cons in Hb. apply IH in Hb. destruct f; cbn in *; set_solver.
Qed.

Lemma root_ne s f k t a : tree_at s (zip (f :: k) t) → root_of t = Some a → Some a ≠ rb_root s.
Proof.
  intros (Hr & _ & Hn) Ha Hroot. rewrite Hr in Hroot. symmetry in Hroot. apply root_in in Hroot. rewrite inorder_zip in Hn.
  assert (a ∈ inorder t) as Hin by (destruct t; [done|]; injection Ha as ->; cbn; set_solver). rewrite !NoDup_app in Hn. set_solver.
Qed.

Lemma settle_root s t s0 T : tree_at s t → red_black t → inorder t = inorder T → (∀ v, v ∉ inorder T → rb_nodes s !! v = rb_nodes s0 !! v) →
  settles (Some (s, root_of t)) s0 T.
Proof.
  intros Ht Hrb HI F. destruct t as [|c l a r].
  { exists Leaf. split; [|done]. exists s. split; [reflexivity|]. split; [done|]. rewrite HI. exact F. }
  destruct Hrb as [Hc Hb]. cbn in Hc. subst c.
  destruct (goes_frame _ s s0 _ T HI (recolor_at s [] BLACK BLACK l a r Ht) F) as (s' & E & H' & F'). exists (Node BLACK l a r). split; [|done].
  exists s'. rewrite some_bind. split; [exact E|]. split; [done|]. by rewrite HI.
Qed.

Lemma settle_red s k N l a r s0 T : tree_at s (zip k (Node RED l a r)) → path_ok k N → balanced (Node BLACK l a r) N → inorder (zip k (Node RED l a r)) = inorder T →
  (∀ v, v ∉ inorder T → rb_nodes s !! v = rb_nodes s0 !! v) → settles (Some (s, Some a)) s0 T.
Proof.
  intros Ht Hk Hb HI F. assert (inorder (zip k (Node BLACK l a r)) = inorder T) as HI' by (rewrite <- HI, !inorder_zip; done).
  destruct (goes_frame _ s s0 _ T HI' (recolor_at s k RED BLACK l a r Ht) F) as (s' & E & H' & F'). exists (zip k (Node BLACK l a r)). split; [|split; [|done]].
  - exists s'. rewrite some_bind. split; [exact E|]. split; [done|]. by rewrite HI'.
  - by eapply zip_red_black.
Qed.

Lemma loop_at_root fuel s : delete_loop fuel (rb_root s) s = Some (s, rb_root s).
Proof. destruct fuel; cbn [delete_loop]; by rewrite decide_True, some_bind by done. Qed.

Lemma loop_at_red fuel s k l a r : tree_at s (zip k (Node RED l a r)) → delete_loop fuel (Some a) s = Some (s, Some a).
Proof.
  intros Ht. assert ((if decide (Some a = rb_root s) then Some false else is_black (Some a) s) = Some false) as E.
  { destruct (decide _); [done|]. unfold is_black. pose proof (is_red_at s k (Node RED l a r) Ht) as Hr. cbn [root_of] in Hr. rewrite Hr, some_bind. done. }
  destruct fuel; cbn [delete_loop]; rewrite E, some_bind; done.
Qed.

Lemma delete_loop_spec fuel : ∀ s k t N a s0 T, tree_at s (zip k t) → root_of t = Some a → path_ok k N → short t N → inorder (zip k t) = inorder T →
  (∀ v, v ∉ inorder T → rb_nodes s !! v = rb_nodes s0 !! v) → (color_of t = RED ∨ length k <= fuel)%nat → settles (delete_loop fuel (Some a) s) s0 T.
Proof.
  induction fuel as [|fuel IH]; intros s k t N a s0 T Ht Ha Hk Hsh HI F Hlen.
  all: destruct Hsh as [(l & a' & r & -> & Hb)|(Hc & n & -> & Hb)].
  1, 3: injection Ha as ->; rewrite (loop_at_red _ s k l a r Ht); by eapply settle_red.
  - destruct Hlen as [?|Hlen]; [congruence|]. destruct k; [|cbn in Hlen; lia]. cbn [zip] in *. pose proof Ht as (Hr & _). rewrite <- Ha, <- Hr, loop_at_root, Hr.
    apply settle_root; [done|by split; [|exists n]|done|done].
  - destruct k as [|f k].
    { cbn [zip] in *. pose proof Ht as (Hr & _). rewrite <- Ha, <- Hr, loop_at_root, Hr. apply settle_root; [done|by split; [|exists n]|done|done]. }
    destruct Hlen as [?|Hlen]; [congruence|]. cbn [delete_loop]. rewrite decide_False by (by eapply root_ne). unfold is_black. rewrite <- Ha at 1.
    rewrite (is_red_at s (f :: k) t Ht), some_bind, some_bind. rewrite bool_decide_false by (by rewrite Hc). cbn [negb].
    assert (hook s a t (zip (f :: k) t) (frame_addr f)) as Hh by (by left). rewrite (hook_parent s a t _ f k Hh Ht), some_bind.
    destruct (rd_parent s f k t Ht) as (pn & Ep & _ & _ & Hside). rewrite Ep, some_bind.
    assert (del_turned (if decide (Some a = rb_left pn) then delete_fixup_left (Some a) s else delete_fixup_right (Some a) s) s (zip (f :: k) t) (S (length k))) as (s1 & nd & -> & F1 & Hcase).
    { destruct f as [c p w|c w p]; cbn [frame_addr zip] in *.
      - rewrite decide_True by congruence. by eapply (fixup_turn_left s k n c p w t a).
      - rewrite (rd_node s k c w p t Ht) in Ep. injection Ep as <-. cbn [rb_left]. rewrite <- Ha. rewrite decide_False.
        + rewrite Ha. by eapply (fixup_turn_right s k n c p w t a).
        + destruct (sibling_ne s k c w p t Ht) as [->|Hne]; [by rewrite Ha|by apply not_eq_sym]. }
    rewrite some_bind. cbn [fst snd]. rewrite HI in F1. destruct Hcase as [(t' & H1 & -> & Hrb & HI1)|(k' & u & N & H1 & -> & Hu & Hk' & Hs' & HI1 & Hl')].
    + pose proof H1 as (Hr1 & _). rewrite <- Hr1, loop_at_root, Hr1. apply settle_root; [done|done|congruence|]. intros v Hv. by rewrite F1, F.
    + destruct u as [|cu ul ua ur]; [done|]. cbn [root_of]. eapply (IH s1 k' _ N); [exact H1|done|done|done|congruence|intros v Hv; by rewrite F1, F|].
      destruct Hl' as [?|Hl']; [by left|right]. cbn in Hlen. lia.
Qed.

(** ** Taking a node out *)

(** The place of a subtree: the path fits it. *)
Lemma unzip k t : red_black (zip k t) → ∃ N, path_ok k N ∧ balanced t N ∧ (frame_color <$> head k = Some RED → color_of t = BLACK) ∧ (k = [] → color_of t = BLACK).
Proof.
  revert t. induction k as [|[c a r|c l a] k IH]; intros t Hrb; cbn [zip] in Hrb; [destruct Hrb as [? [N ?]]; by exists N| |].
  all: destruct (IH _ Hrb) as (N & Hk & Hb & Hc & H0); cbn in Hc, H0.
  all: assert (c = RED → frame_color <$> head k = Some BLACK) as Hh by
    (intros ->; destruct k as [|f k]; [by specialize (H0 eq_refl)|]; cbn in *; destruct (frame_color f); [by specialize (Hc eq_refl)|done]).
  all: destruct c; cbn in Hb; [destruct Hb as (C1 & C2 & B1 & B2); exists N|destruct Hb as (n & -> & B1 & B2); exists n]; cbn; naive_solver.
Qed.

Lemma splice_out_at s k c l a r u : tree_at s (zip k (Node c l a r)) → (l = Leaf ∧ u = r) ∨ (r = Leaf ∧ u = l) →
  ∃ s', splice_out (Some a) (root_of u) s = Some s' ∧ tree_at s' (zip k u) ∧ rb_nodes s' !! a = rb_nodes s !! a ∧
    ∀ v, v ∉ inorder (zip k u) → rb_nodes s' !! v = rb_nodes s !! v.
Proof.
  intros Ht Hu. pose proof (at_node s k c l a r Ht) as Ha. apply at_focus in Ht as (HP & (_ & Hl & Hr) & Hn). cbn [root_of inorder] in *.
  assert (rep (rb_nodes s) (Some a) u ∧ NoDup (before k ++ inorder u ++ after k) ∧ NoDup (before k ++ a :: after k) ∧ a ∉ inorder u ∧ a ∉ before k ++ after k ∧ NoDup (inorder u) ∧
    ∀ v, v ∈ inorder u → v ∉ before k ++ after k) as (Hru & Hnu & Hna & Hau & Hak & Hnuu & Hdis).
  { destruct Hu as [[-> ->]|[-> ->]]; cbn in Hn; rewrite ?NoDup_app, ?NoDup_cons, ?NoDup_app in *; set_solver. }
  unfold splice_out. rewrite (rd_at s a _ Ha), some_bind. cbn [rb_parent].
  destruct (replace_child_at s k a (root_of u) HP Hna) as (s1 & -> & _ & HP1 & F1). rewrite some_bind.
  assert (rb_nodes s1 !! a = rb_nodes s !! a) as Ha1 by (by apply F1).
  destruct (reparent_at s1 (Some a) (path_parent k) u) as (s2 & E2 & R2 & Hu2 & F2); [eapply rep_ext; [|exact Hru]; intros v Hv; apply F1; by apply Hdis|done|].
  exists s2. split; [|split; [|split]].
  - destruct u as [|cu ul ua ur]; [exact E2|]. cbn [unless_null root_of] in *. rewrite Ha in Ha1. rewrite (rd_at s1 a _ Ha1), some_bind. exact E2.
  - apply at_focus. split; [|split; [done|done]]. rewrite R2. eapply rep_path_ext; [|exact HP1]. intros v Hv. apply F2. intros Hvu. by apply (Hdis v).
  - by rewrite F2.
  - intros v Hv. rewrite inorder_zip in Hv. rewrite F2, F1 by set_solver. done.
Qed.

Lemma nodup_pair (B L R K : list A) a b : NoDup (B ++ (L ++ a :: b :: R) ++ K) →
  a ≠ b ∧ (a ∉ B ++ K ∧ a ∉ L ∧ a ∉ R) ∧ (b ∉ B ++ K ∧ b ∉ L ∧ b ∉ R) ∧ (∀ v, v ∈ L → v ∉ B ++ K ∧ v ∉ R) ∧ (∀ v, v ∈ R → v ∉ B ++ K) ∧
  NoDup L ∧ NoDup R ∧ NoDup (B ++ a :: K) ∧ NoDup (B ++ (L ++ b :: R) ++ K).
Proof. rewrite !NoDup_app, !NoDup_cons. intros Hn. split_and!; set_solver. Qed.

(** [b], which is in no tree, takes the place of [a]. *)
Lemma take_place_at s k c l a b r x cb pb lb xr : rep_path (rb_nodes s) k (Some a) (rb_root s) → rb_nodes s !! a = Some (RbNode (path_parent k) (root_of l) xr c) →
  rb_nodes s !! b = Some (RbNode pb lb (root_of r) cb) → rep (rb_nodes s) (Some a) l → rep (rb_nodes s) (Some b) r → l ≠ Leaf →
  NoDup (before k ++ (inorder l ++ a :: b :: inorder r) ++ after k) → x = zip k (Node c l b r) →
  ∃ s', take_place (Some a) (Some b) s = Some s' ∧ tree_at s' x ∧ (∀ v, v ∉ inorder x → rb_nodes s' !! v = rb_nodes s !! v).
Proof.
  intros HP Ha Hb Hl Hr Hne Hn ->. destruct (nodup_pair _ _ _ _ _ _ Hn) as (Hab & (A1 & A2 & A3) & (B1 & B2 & B3) & DL & DR & NL & _ & NA & NB).
  unfold take_place. rewrite (rd_at s a _ Ha), some_bind. cbn [rb_parent].
  destruct (replace_child_at s k a (Some b) HP NA) as (s1 & -> & _ & HP1 & F1). rewrite some_bind.
  assert (rb_nodes s1 !! a = Some (RbNode (path_parent k) (root_of l) xr c)) as Ha1 by (by rewrite F1). rewrite (rd_at s1 a _ Ha1), some_bind. cbn [rb_left].
  assert (rb_nodes s1 !! b = Some (RbNode pb lb (root_of r) cb)) as Hb1 by (by rewrite F1). rewrite (wr_at s1 b _ _ Hb1), some_bind. set (s2 := Rbt _ _).
  assert (∀ v, v ≠ b → rb_nodes s2 !! v = rb_nodes s1 !! v) as F2 by (intros v Hv; by apply lookup_insert_ne).
  assert (rb_nodes s2 !! a = Some (RbNode (path_parent k) (root_of l) xr c)) as Ha2 by (by rewrite F2). rewrite (rd_at s2 a _ Ha2), some_bind. cbn [rb_left].
  destruct (reparent_at s2 (Some a) (Some b) l) as (s3 & E3 & R3 & Hl3 & F3); [eapply rep_ext; [|exact Hl]; intros v Hv; rewrite F2, F1; set_solver|done|].
  assert (wr (root_of l) (set_rb_parent (Some b)) s2 = Some s3) as -> by (by destruct l). rewrite some_bind.
  assert (rb_nodes s3 !! a = Some (RbNode (path_parent k) (root_of l) xr c)) as Ha3 by (by rewrite F3). rewrite (rd_at s3 a _ Ha3), some_bind. cbn [rb_color].
  assert (rb_nodes s3 !! b = Some (RbNode pb (root_of l) (root_of r) cb)) as Hb3 by (rewrite F3 by done; unfold s2; cbn; by rewrite lookup_insert_eq).
  rewrite (wr_at s3 b _ _ Hb3), some_bind. set (s4 := Rbt _ _). assert (rb_nodes s4 !! a = Some (RbNode (path_parent k) (root_of l) xr c)) as Ha4 by (unfold s4; cbn; by rewrite lookup_insert_ne).
  rewrite (rd_at s4 a _ Ha4), some_bind. cbn [rb_parent]. assert (rb_nodes s4 !! b = Some (RbNode pb (root_of l) (root_of r) c)) as Hb4 by apply lookup_insert_eq.
  rewrite (wr_at s4 b _ _ Hb4). set (s5 := Rbt _ _). assert (∀ v, v ≠ b → rb_nodes s5 !! v = rb_nodes s3 !! v) as F5 by (intros v Hv; unfold s5, s4; cbn; by rewrite !lookup_insert_ne).
  exists s5. split; [done|]. split.
  - apply at_focus. cbn [inorder]. split; [|split; [|done]].
    + change (rb_root s5) with (rb_root s3). rewrite R3. eapply rep_path_ext; [|exact HP1]. intros v Hv. rewrite F5, F3, F2; [done|set_solver|intros Hvl; by destruct (DL v Hvl)|set_solver].
    + cbn. split; [apply lookup_insert_eq|]. split; [eapply rep_ext; [|exact Hl3]; intros v Hv; apply F5; set_solver|].
      eapply rep_ext; [|exact Hr]. intros v Hv. rewrite F5, F3, F2, F1; [done|by apply DR|set_solver|intros Hvl; by destruct (DL v Hvl)|set_solver].
  - intros v Hv. rewrite inorder_zip in Hv. cbn in Hv. rewrite F5, F3, F2, F1 by set_solver. done.
Qed.

(** *** The successor *)

Lemma zip_app k1 k2 t : zip (k1 ++ k2) t = zip k2 (zip k1 t).
Proof. revert t. induction k1 as [|f k1 IH]; intros t; [done|]. cbn [app]. by rewrite !zip_cons, IH. Qed.

(** Colour and right subtree of the leftmost node. *)
Fixpoint leftmost t : option (rb_color_t * tree) :=
  match t with
  | Leaf => None
  | Node c l _ r => match l with Leaf => Some (c, r) | Node _ _ _ _ => leftmost l end
  end.

Lemma leftmost_place t : t ≠ Leaf → ∃ k c b r, t = zip k (Node c Leaf b r) ∧ leftmost t = Some (c, r) ∧ before k = [] ∧
  (k = [] ∨ (∃ c' q w k', k = LeftOf c' q w :: k') ∧ ∃ c' l a r', t = Node c' l a r' ∧ l ≠ Leaf).
Proof.
  induction t as [|c l IHl a r _]; [done|]. intros _. destruct l as [|cl ll la lr]; [exists [], c, a, r; split; [done|split; [done|split; [done|by left]]]|].
  destruct IHl as (k & c' & b & r' & El & Hlm & Hb & Hk); [done|]. exists (k ++ [LeftOf c a r]), c', b, r'. split; [by rewrite zip_app, <- El|]. split; [exact Hlm|]. clear El. split.
  - clear Hk. induction k as [|[] k IH]; cbn in *; [done|by apply IH|by destruct (before k); [destruct (inorder _)|]].
  - right. split; [destruct Hk as [->|[(c'' & q & w & k' & ->) _]]; by eexists _, _, _, _|]. by eexists _, _, _, _.
Qed.

Lemma zip_nonleaf k t : t ≠ Leaf ∨ k ≠ [] → zip k t ≠ Leaf.
Proof. revert t. induction k as [|f k IH]; intros t Ht; [by destruct Ht|]. rewrite zip_cons. apply IH. left. by destruct f. Qed.

(** Cutting the successor out is [splice_out]. *)
Lemma cut_succ s k c q w b rr cs : tree_at s (zip (LeftOf c q w :: k) (Node cs Leaf b rr)) →
  (s ← unless_null (Some q) (wr (Some q) (set_rb_left (root_of rr))) s; unless_null (root_of rr) (wr (root_of rr) (set_rb_parent (Some q))) s) =
  splice_out (Some b) (root_of rr) s.
Proof.
  intros Ht. unfold splice_out. rewrite (rd_node s (LeftOf c q w :: k) cs Leaf b rr Ht), some_bind. cbn [rb_parent path_parent head fmap option_fmap option_map frame_addr unless_null replace_child].
  rewrite (rd_node s k c _ q w Ht), some_bind. cbn [rb_left root_of]. rewrite decide_True by done. pose proof (at_node s k c _ q w Ht) as Hq. rewrite (wr_at s q _ _ Hq), !some_bind.
  destruct rr as [|cr rl ra rr']; [done|]. cbn [root_of unless_null]. set (s1 := Rbt _ _).
  assert (q ≠ b) as Hqb. { destruct Ht as (_ & _ & Hn). cbn [zip] in Hn. rewrite inorder_zip in Hn. cbn in Hn. rewrite !NoDup_app, !NoDup_cons in Hn. set_solver. }
  assert (rb_nodes s1 !! b = Some (RbNode (Some q) None (Some ra) cs)) as Hb1 by (unfold s1; cbn; rewrite lookup_insert_ne by done; exact (at_node s (LeftOf c q w :: k) cs Leaf b _ Ht)).
  by rewrite (rd_at s1 b _ Hb1), some_bind.
Qed.

Lemma splice_succ_at s k c l a k2 cs b rr : tree_at s (zip k (Node c l a (zip k2 (Node cs Leaf b rr)))) → l ≠ Leaf → before k2 = [] →
  (k2 = [] ∧ rr ≠ Leaf ∨ ∃ c' q w k', k2 = LeftOf c' q w :: k') →
  ∃ s', splice_succ (Some a) (Some b) s = Some s' ∧ tree_at s' (zip k (Node c l b (zip k2 rr))) ∧
    ∀ v, v ∉ inorder (zip k (Node c l a (zip k2 (Node cs Leaf b rr)))) → rb_nodes s' !! v = rb_nodes s !! v.
Proof.
  intros Ht Hne Hb2 Hk2. pose proof Ht as HtK. change (zip k (Node c l a (zip k2 (Node cs Leaf b rr)))) with (zip (RightOf c l a :: k) (zip k2 (Node cs Leaf b rr))) in HtK.
  rewrite <- zip_app in HtK. unfold splice_succ. rewrite (rd_node s (k2 ++ RightOf c l a :: k) cs Leaf b rr HtK), some_bind. cbn [rb_right rb_parent].
  assert (NoDup (before k ++ (inorder l ++ a :: b :: inorder (zip k2 rr)) ++ after k)) as Hn.
  { destruct Ht as (_ & _ & Hn). rewrite inorder_zip in Hn. cbn [inorder] in Hn. rewrite inorder_zip, Hb2 in Hn. cbn in Hn. rewrite (inorder_zip k2 rr), Hb2. exact Hn. }
  destruct (nodup_pair _ _ _ _ _ _ Hn) as (Hab & (A1 & A2 & A3) & (B1 & B2 & B3) & DL & DR & NL & NR & _ & _).
  destruct Hk2 as [[-> Hrr]|(c' & q & w & k' & ->)].
  - cbn [app path_parent head fmap option_fmap option_map frame_addr]. rewrite decide_True by done. cbn [zip app] in *.
    apply at_focus in Ht as (HP & (Ha & Hl & Hb & _ & Hr) & _). cbn [root_of] in *.
    destruct (reparent_at s (Some b) (Some b) rr Hr) as (s1 & E1 & R1 & Hr1 & F1); [done|].
    assert (wr (root_of rr) (set_rb_parent (Some b)) s = Some s1) as -> by (by destruct rr). rewrite some_bind.
    destruct (take_place_at s1 k c l a b rr (zip k (Node c l b rr)) cs (Some a) None (Some b)) as (s' & -> & Ht' & F'); [..|reflexivity|].
    + rewrite R1. eapply rep_path_ext; [|exact HP]. intros v Hv. apply F1. intros Hvr. by apply (DR v Hvr).
    + by rewrite F1.
    + by rewrite F1.
    + eapply rep_ext; [|exact Hl]. intros v Hv. apply F1. by destruct (DL v Hv).
    + done.
    + done.
    + done.
    + exists s'. split; [done|]. split; [done|]. intros v Hv. rewrite inorder_zip in Hv. cbn in Hv.
      rewrite F' by (rewrite inorder_zip; cbn; set_solver). apply F1. set_solver.
  - cbn [app path_parent head fmap option_fmap option_map frame_addr].
    assert (q ≠ a) as Hqa by (intros ->; apply A3; rewrite inorder_zip; cbn; set_solver).
    rewrite decide_False by congruence.
    cbn [app] in HtK. pose proof (cut_succ s (k' ++ RightOf c l a :: k) c' q w b rr cs HtK) as Hcut.
    destruct (splice_out_at s (LeftOf c' q w :: k' ++ RightOf c l a :: k) cs Leaf b rr rr HtK) as (s2 & E2 & Ht2 & Hb2' & F2); [by left|].
    rewrite E2 in Hcut. apply bind_Some in Hcut as (s1 & -> & Hcut). rewrite some_bind, Hcut, some_bind.
    change (LeftOf c' q w :: k' ++ RightOf c l a :: k) with ((LeftOf c' q w :: k') ++ RightOf c l a :: k) in Ht2, F2. rewrite zip_app in Ht2, F2. cbn [zip] in Ht2, F2.
    set (r' := zip k' (Node c' rr q w)) in *. change (zip (LeftOf c' q w :: k') rr) with r' in *.
    assert (r' ≠ Leaf) as Hr' by (apply zip_nonleaf; by left).
    rewrite (rd_node s2 k c l a r' Ht2), some_bind. cbn [rb_right].
    rewrite (at_node s (LeftOf c' q w :: k' ++ RightOf c l a :: k) cs Leaf b rr HtK) in Hb2'. rewrite (wr_at s2 b _ _ Hb2'), some_bind. set (s3 := Rbt _ _).
    assert (∀ v, v ≠ b → rb_nodes s3 !! v = rb_nodes s2 !! v) as F3 by (intros v Hv; by apply lookup_insert_ne).
    apply at_focus in Ht2 as (HP & (Ha & Hl & Hr) & _). cbn [root_of] in *.
    assert (rb_nodes s3 !! a = Some (RbNode (path_parent k) (root_of l) (root_of r') c)) as Ha3 by (by rewrite F3). rewrite (rd_at s3 a _ Ha3), some_bind. cbn [rb_right].
    destruct (reparent_at s3 (Some a) (Some b) r') as (s4 & E4 & R4 & Hr4 & F4); [eapply rep_ext; [|exact Hr]; intros v Hv; apply F3; by intros ->|done|].
    assert (wr (root_of r') (set_rb_parent (Some b)) s3 = Some s4) as -> by (by destruct r'). rewrite some_bind.
    destruct (take_place_at s4 k c l a b r' (zip k (Node c l b r')) cs (Some q) None (root_of r')) as (s' & -> & Ht' & F'); [..|reflexivity|].
    + rewrite R4. eapply rep_path_ext; [|exact HP]. intros v Hv. rewrite F4, F3; [done|by intros ->|]. intros Hvr. by apply (DR v Hvr).
    + by rewrite F4.
    + rewrite F4 by done. unfold s3. cbn. by rewrite lookup_insert_eq.
    + eapply rep_ext; [|exact Hl]. intros v Hv. rewrite F4, F3; [done|by intros ->|]. by destruct (DL v Hv).
    + done.
    + done.
    + done.
    + exists s'. split; [done|]. split; [done|]. intros v Hv. rewrite inorder_zip in Hv. cbn [inorder] in Hv. rewrite inorder_zip, Hb2 in Hv. cbn in Hv.
      assert (inorder r' = inorder rr ++ q :: inorder w ++ after k') as Er' by (change r' with (zip (LeftOf c' q w :: k') rr); by rewrite inorder_zip, Hb2).
      rewrite F', F4, F3, F2; [done|..]; rewrite ?inorder_zip; cbn [inorder]; rewrite ?Er'; set_solver.
Qed.

(** ** Deletion *)

(** The nodes that [rb_delete] takes out correctly: not a black leaf, unless it is
    a right child; and not a node with two children whose successor is its right
    child without a right child of its own, or a black leaf. *)
Definition deletable k (c : rb_color_t) l r : bool :=
  match l, r with
  | Leaf, Leaf => match c, k with RED, _ => true | BLACK, RightOf _ _ _ :: _ => true | BLACK, _ => false end
  | Leaf, _ | _, Leaf => true
  | _, Node _ rl _ _ =>
      match rl, leftmost r with
      | Leaf, Some (_, rr) => match rr with Leaf => false | _ => true end
      | _, Some (BLACK, Leaf) => false
      | _, _ => true
      end
  end.

(** The outcome: the tree without [a]. *)
Definition deleted (o : option rbt) s k l a r : Prop :=
  ∃ s' t', o = Some s' ∧ tree_at s' t' ∧ red_black t' ∧ inorder t' = (before k ++ inorder l) ++ inorder r ++ after k ∧
    ∀ v, v ∉ (before k ++ inorder l) ++ a :: inorder r ++ after k → rb_nodes s' !! v = rb_nodes s !! v.

Lemma path_balanced_leaf k : path_ok k 0 → k ≠ [] → red_black (zip k Leaf).
Proof. intros Hk Hne. split; [by eapply zip_root_black|]. by eapply zip_balanced. Qed.

Lemma balanced_0 t : balanced t 0 → color_of t = BLACK → t = Leaf.
Proof. destruct t as [|[] l a r]; cbn; [done|done|]. by intros (n & ? & _). Qed.

(** A red child is only made black. *)
Lemma fixup_red_child s k l d r : tree_at s (zip k (Node RED l d r)) → path_ok k 1 → balanced (Node RED l d r) 0 →
  ∃ t', goes (rb_delete_fixup (Some d) s) s t' ∧ red_black t' ∧ inorder t' = inorder (zip k (Node RED l d r)).
Proof.
  intros Ht Hk (_ & _ & Bl & Br). unfold rb_delete_fixup. rewrite (loop_at_red _ s k l d r Ht).
  apply (settle_red s k 1 l d r s (zip k (Node RED l d r))); [done|done|by exists 0%nat|done|done].
Qed.

(** A detached black leaf that was a right child. *)
Lemma fixup_detached s k c w p a : tree_at s (zip (RightOf c w p :: k) Leaf) → path_ok (RightOf c w p :: k) 1 → a ∉ inorder (zip (RightOf c w p :: k) Leaf) →
  rb_nodes s !! a = Some (RbNode (Some p) None None BLACK) →
  ∃ t', goes (rb_delete_fixup (Some a) s) s t' ∧ red_black t' ∧ inorder t' = inorder (zip (RightOf c w p :: k) Leaf).
Proof.
  intros Ht Hk Ha Ea. unfold rb_delete_fixup. set (fuel := size (rb_nodes s)). cbn [delete_loop]. set (T := zip _ _) in *.
  assert (∀ b, b ∈ inorder T → Some a ≠ Some b) as Hne by (intros b Hb [= ->]; done).
  rewrite decide_False.
  2: { pose proof Ht as (Hr & _). rewrite Hr. destruct (root_of T) as [b|] eqn:E; [|done]. apply Hne. apply root_in in E. unfold T. rewrite inorder_zip. set_solver. }
  unfold is_black. cbn [is_red]. rewrite (rd_at s a _ Ea), !some_bind. cbn [rb_color]. rewrite bool_decide_false by done. cbn [negb].
  unfold parent_of. rewrite (rd_at s a _ Ea), !some_bind. cbn [rb_parent]. pose proof Ht as Htp. unfold T in Htp. cbn [zip] in Htp. rewrite (rd_node s k c w p Leaf Htp), some_bind. cbn [rb_left].
  rewrite decide_False.
  2: { destruct w as [|cw wl b wr]; [done|]. apply Hne. unfold T. cbn [zip]. rewrite inorder_zip. cbn. set_solver. }
  destruct (fixup_turn_right s k 0 c p w Leaf a T) as (s1 & nd & -> & F1 & Hcase); [right; split; [done|]; split; [done|]; by eexists|done|done|done|done|done|].
  rewrite some_bind. cbn [fst snd].
  enough (settles (delete_loop fuel nd s1) s T) as Hset by exact Hset.
  destruct Hcase as [(t' & H1 & -> & Hrb & HI1)|(k' & u & N & H1 & -> & Hu & Hk' & Hs' & HI1 & Hl')].
  - pose proof H1 as (Hr1 & _). rewrite <- Hr1, loop_at_root, Hr1. by apply settle_root.
  - destruct u as [|cu ul ua ur]; [done|]. cbn [root_of]. eapply (delete_loop_spec fuel s1 k' _ N); try done. destruct Hl' as [?|Hl']; [by left|right].
    pose proof (tree_size s _ Ht) as Hsz. pose proof (path_size (RightOf c w p :: k) Leaf) as Hps. cbn [length] in Hps. fold fuel in Hsz. unfold T in Hsz. lia.
Qed.

(** *** At most one child *)

Lemma delete_one s k c l a r u : tree_at s (zip k (Node c l a r)) → red_black (zip k (Node c l a r)) → (l = Leaf ∧ u = r) ∨ (r = Leaf ∧ u = l) → deletable k c l r = true →
  deleted (s ← splice_out (Some a) (root_of u) s;
           if decide (c = BLACK) then match root_of u with Some _ => rb_delete_fixup (root_of u) s | None => rb_delete_fixup (Some a) s end else Some s) s k l a r.
Proof.
  intros Ht Hrb Hu Hd. destruct (splice_out_at s k c l a r u Ht Hu) as (s1 & -> & H1 & Ha1 & F1). rewrite some_bind. destruct (unzip _ _ Hrb) as (N & Hk & Hb & Hc & H0).
  pose proof (at_node s k c l a r Ht) as Ea. assert (a ∉ inorder (zip k u)) as Hau.
  { destruct Ht as (_ & _ & Hn). rewrite inorder_zip in *. cbn in Hn. destruct Hu as [[-> ->]|[-> ->]]; cbn in *; rewrite ?NoDup_app, ?NoDup_cons in Hn; set_solver. }
  assert (inorder (zip k u) = (before k ++ inorder l) ++ inorder r ++ after k) as HI by (rewrite inorder_zip; destruct Hu as [[-> ->]|[-> ->]]; cbn; by list_simplifier).
  assert (∀ o, (∃ t', goes o s1 t' ∧ red_black t' ∧ inorder t' = inorder (zip k u)) → deleted o s k l a r) as Hfin.
  { intros o (t' & (s' & -> & Ht' & F') & Hrb' & HI'). exists s', t'. split; [done|]. split; [done|]. split; [done|]. split; [congruence|]. intros v Hv.
    rewrite F', F1; [done|rewrite HI; set_solver|rewrite HI', HI; set_solver]. }
  apply Hfin. destruct c.
  - rewrite decide_False by done. destruct Hb as (C1 & C2 & B1 & B2). assert (N = 0%nat ∧ u = Leaf) as [-> ->].
    { destruct Hu as [[-> ->]|[-> ->]]; cbn in *; subst N; (split; [done|]); by apply balanced_0. }
    exists (zip k Leaf). split; [by exists s1|]. split; [|done]. apply path_balanced_leaf; [done|]. intros ->. by specialize (H0 eq_refl).
  - rewrite decide_True by done. destruct Hb as (n & -> & B1 & B2). assert (n = 0%nat ∧ balanced u 0) as [-> Bu] by (destruct Hu as [[-> ->]|[-> ->]]; cbn in *; by subst n).
    destruct u as [|[] ul d ur]; cbn [root_of].
    + assert (l = Leaf ∧ r = Leaf) as [-> ->] by (destruct Hu as [[-> <-]|[-> <-]]; done). cbn in Hd. destruct k as [|[c p w|c w p] k]; [done|done|].
      eapply (fixup_detached s1 k c w p a); [done|done|done|]. rewrite Ha1. exact Ea.
    + by apply fixup_red_child.
    + cbn in Bu. by destruct Bu as (? & ? & _).
Qed.

(** *** Two children *)

Lemma path_ok_addr k2 c l a b k n : path_ok (k2 ++ RightOf c l a :: k) n → path_ok (k2 ++ RightOf c l b :: k) n.
Proof.
  revert n. induction k2 as [|f k2 IH]; intros n; [done|]. cbn [app].
  assert (frame_color <$> head (k2 ++ RightOf c l b :: k) = frame_color <$> head (k2 ++ RightOf c l a :: k)) as Hh by (by destruct k2).
  destruct f as [[] q w|[] w q]; cbn [path_ok]; rewrite ?Hh; naive_solver.
Qed.

Lemma delete_two s k c l a k2 cs b rr : tree_at s (zip k (Node c l a (zip k2 (Node cs Leaf b rr)))) → red_black (zip k (Node c l a (zip k2 (Node cs Leaf b rr)))) →
  l ≠ Leaf → before k2 = [] → (k2 = [] ∧ rr ≠ Leaf ∨ (∃ c' q w k', k2 = LeftOf c' q w :: k') ∧ (cs = BLACK → rr ≠ Leaf)) →
  deleted (s ← splice_succ (Some a) (Some b) s;
           if decide (cs = BLACK) then match root_of rr with Some _ => rb_delete_fixup (root_of rr) s | None => rb_delete_fixup (Some a) s end else Some s)
    s k l a (zip k2 (Node cs Leaf b rr)).
Proof.
  intros Ht Hrb Hne Hb2 Hk2. destruct (splice_succ_at s k c l a k2 cs b rr Ht Hne Hb2) as (s1 & -> & H1 & F1); [tauto|]. rewrite some_bind.
  assert (red_black (zip (k2 ++ RightOf c l a :: k) (Node cs Leaf b rr))) as HrbK by (by rewrite zip_app). destruct (unzip _ _ HrbK) as (N & Hk & Hb & Hc & H0).
  apply (path_ok_addr k2 c l a b) in Hk. change (zip k (Node c l b (zip k2 rr))) with (zip (RightOf c l b :: k) (zip k2 rr)) in H1. rewrite <- zip_app in H1. set (K := k2 ++ RightOf c l b :: k) in *.
  assert (inorder (zip K rr) = (before k ++ inorder l) ++ inorder (zip k2 (Node cs Leaf b rr)) ++ after k) as HI.
  { unfold K. rewrite zip_app. cbn [zip]. rewrite !inorder_zip. cbn [inorder]. rewrite !inorder_zip, Hb2. cbn. by list_simplifier. }
  assert (∀ o, (∃ t', goes o s1 t' ∧ red_black t' ∧ inorder t' = inorder (zip K rr)) → deleted o s k l a (zip k2 (Node cs Leaf b rr))) as Hfin.
  { intros o (t' & (s' & -> & Ht' & F') & Hrb' & HI'). exists s', t'. split; [done|]. split; [done|]. split; [done|]. split; [congruence|]. intros v Hv.
    rewrite F' by (rewrite HI', HI; set_solver). apply F1. rewrite (inorder_zip k). cbn [inorder]. set_solver. }
  apply Hfin. destruct cs.
  - rewrite decide_False by done. cbn in Hb. destruct Hb as (_ & Cr & -> & Br). assert (rr = Leaf) as -> by (by apply balanced_0).
    exists (zip K Leaf). split; [by exists s1|]. split; [|done]. apply path_balanced_leaf; [done|]. unfold K. by destruct k2.
  - rewrite decide_True by done. cbn in Hb. destruct Hb as (n & -> & -> & Br). assert (rr ≠ Leaf) as Hrr by (destruct Hk2 as [[_ ?]|[_ ?]]; auto).
    destruct rr as [|[] ul d ur]; [done| |by destruct Br as (? & ? & _)]. cbn [root_of]. by apply fixup_red_child.
Qed.

Lemma rb_delete_spec s k c l a r : tree_at s (zip k (Node c l a r)) → red_black (zip k (Node c l a r)) → deletable k c l r = true →
  deleted (rb_delete (Some a) s) s k l a r.
Proof.
  intros Ht Hrb Hd. cbn [rb_delete]. rewrite (rd_node s k c l a r Ht), some_bind. cbn [rb_left rb_right rb_color].
  destruct l as [|cl ll la lr] eqn:El.
  { cbn [root_of]. pose proof (delete_one s k c Leaf a r r Ht Hrb ltac:(by left) Hd) as HD. cbn [root_of] in HD.
    destruct HD as (s' & t' & E & Hrest). exists s', t'. split; [|done]. apply bind_Some in E as (s1 & E1 & E). by rewrite E1, some_bind, some_bind. }
  rewrite <- El in *. assert (l ≠ Leaf) as Hl by (by rewrite El). assert (root_of l = Some la) as -> by (by rewrite El). destruct r as [|cr rl ra rr'] eqn:Er.
  { cbn [root_of]. pose proof (delete_one s k c l a Leaf l Ht Hrb ltac:(by right) Hd) as HD. assert (root_of l = Some la) as Erl by (by rewrite El). rewrite Erl in HD.
    destruct HD as (s' & t' & E & Hrest). exists s', t'. split; [|done]. apply bind_Some in E as (s1 & E1 & E). by rewrite E1, some_bind, some_bind. }
  rewrite <- Er in *. assert (r ≠ Leaf) as Hr by (by rewrite Er). assert (root_of r = Some ra) as Err by (by rewrite Er). rewrite Err, <- Err.
  destruct (leftmost_place r Hr) as (k2 & cs & b & rr & Erz & Hlm & Hb2 & Hk2).
  rewrite (minimum_at s r (RightOf c l a :: k)); [|done|].
  2: { pose proof (tree_size s _ Ht) as Hsz. rewrite inorder_zip in Hsz. cbn [inorder] in Hsz. rewrite !length_app in Hsz. cbn in Hsz. lia. }
  assert (head (inorder r) = Some b) as -> by (rewrite Erz, inorder_zip, Hb2; done). rewrite some_bind.
  assert (tree_at s (zip (k2 ++ RightOf c l a :: k) (Node cs Leaf b rr))) as HtK by (rewrite zip_app, <- Erz; exact Ht).
  rewrite (rd_node s _ cs Leaf b rr HtK), some_bind. cbn [rb_right rb_color].
  pose proof (delete_two s k c l a k2 cs b rr) as HD. rewrite <- Erz in HD. specialize (HD Ht Hrb Hl Hb2).
  destruct HD as (s' & t' & E & Hrest).
  { rewrite El, Er in Hd. cbn [deletable] in Hd. rewrite <- Er, Hlm in Hd. destruct Hk2 as [->|[Hk2 (c' & rl' & q & w & Erl & Hrl)]].
    - left. cbn in Erz. rewrite Er in Erz. injection Erz as -> -> -> ->. split; [done|]. by destruct rr.
    - right. split; [done|]. intros ->. rewrite Er in Erl. injection Erl as _ -> _ _. destruct rl'; [done|]. by destruct rr. }
  exists s', t'. split; [|done]. apply bind_Some in E as (s1 & E1 & E). by rewrite E1, some_bind, some_bind.
Qed.

(** ** Where it follows a NULL pointer *)

(** A black leaf that is the root or a left child; a node with a left child whose
    right child is a leaf. *)
Definition crashes k (c : rb_color_t) l r : bool :=
  match l, r with
  | Leaf, Leaf => match c, k with BLACK, [] | BLACK, LeftOf _ _ _ :: _ => true | _, _ => false end
  | Node _ _ _ _, Node _ Leaf _ Leaf => true
  | _, _ => false
  end.

Lemma fixup_crash s k a : tree_at s (zip k Leaf) → match k with [] | LeftOf _ _ _ :: _ => True | RightOf _ _ _ :: _ => False end → a ∉ inorder (zip k Leaf) →
  rb_nodes s !! a = Some (RbNode (path_parent k) None None BLACK) → rb_delete_fixup (Some a) s = None.
Proof.
  intros Ht Hk Ha Ea. unfold rb_delete_fixup. cbn [delete_loop]. rewrite decide_False.
  2: { pose proof Ht as (Hr & _). rewrite Hr. destruct k as [|f k]; [done|]. intros Hb. symmetry in Hb. apply root_in in Hb. apply Ha. rewrite inorder_zip. set_solver. }
  unfold is_black. cbn [is_red]. rewrite (rd_at s a _ Ea), !some_bind. cbn [rb_color]. rewrite bool_decide_false by done. cbn [negb].
  unfold parent_of. rewrite (rd_at s a _ Ea), !some_bind. cbn [rb_parent]. destruct k as [|[c p w|c w p] k]; [done| |done].
  cbn [path_parent head fmap option_fmap option_map frame_addr zip] in *. rewrite (rd_node s k c Leaf p w Ht), some_bind. cbn [rb_left root_of]. rewrite decide_False by done.
  unfold delete_fixup_right, parent_of. rewrite (rd_at s a _ Ea), !some_bind. cbn [rb_parent]. by rewrite (rd_node s k c Leaf p w Ht), some_bind.
Qed.

Lemma rb_delete_crash s k c l a r : tree_at s (zip k (Node c l a r)) → crashes k c l r = true → rb_delete (Some a) s = None.
Proof.
  intros Ht Hc. cbn [rb_delete]. rewrite (rd_node s k c l a r Ht), some_bind. cbn [rb_left rb_right rb_color]. destruct l as [|cl ll la lr].
  - destruct r as [|cr rl ra rr]; [|done]. cbn [root_of]. destruct c; [done|]. destruct (splice_out_at s k BLACK Leaf a Leaf Leaf Ht ltac:(by left)) as (s1 & E1 & H1 & Ha1 & F1). cbn [root_of] in E1.
    rewrite E1, !some_bind. rewrite decide_True by done. eapply fixup_crash; [exact H1|by destruct k as [|[] k]| |rewrite Ha1; exact (at_node s k BLACK Leaf a Leaf Ht)].
    destruct Ht as (_ & _ & Hn). rewrite inorder_zip in *. cbn in *. rewrite ?NoDup_app, ?NoDup_cons in Hn. set_solver.
  - destruct r as [|cr [|] ra [|]]; [done| |done..]. cbn [root_of]. change (Some ra) with (root_of (Node cr Leaf ra Leaf)) at 1.
    rewrite (minimum_at s (Node cr Leaf ra Leaf) (RightOf c (Node cl ll la lr) a :: k)); [|done|cbn; lia]. cbn [inorder app head]. rewrite some_bind.
    rewrite (rd_node s (RightOf c (Node cl ll la lr) a :: k) cr Leaf ra Leaf Ht), some_bind. unfold splice_succ.
    rewrite (rd_node s (RightOf c (Node cl ll la lr) a :: k) cr Leaf ra Leaf Ht), some_bind. cbn [rb_parent rb_right path_parent head fmap option_fmap option_map frame_addr root_of].
    by rewrite decide_True by done.
Qed.
End delete.
