(* ===== verification/RbtreeTheorems.v ===== *)
(** * Red-black trees: the theorems

    Insertion, search and walking are correct for every tree; deletion is for some
    nodes, and follows a NULL pointer for others. *)

From stdpp Require Import sorting.
From S2P Require Import Prelude Rbtree RbtreeInv RbtreeSteps RbtreeInsert RbtreeWalk RbtreeDelete.

Set Default Goal Selector "!".

(** [s] holds the red-black tree [t], in ascending order. *)
Definition rb_rep `{Countable A} (less : A → A → bool) (s : @rbt A _ _) (t : @tree A) : Prop :=
  tree_at s t ∧ red_black t ∧ sorted less (inorder t).

Lemma sorted_delete {A} (less : A → A → bool) L a R : sorted less (L ++ a :: R) → sorted less (L ++ R).
Proof.
  unfold sorted. intros Hs. apply StronglySorted_app in Hs as (C & SL & SR). apply StronglySorted_inv in SR as [SR _]. apply StronglySorted_app.
  split; [|done]. intros x y Hx Hy. apply C; [done|by right].
Qed.

(** C15: Inserting a node returns; the tree is red-black and in order again, its
    nodes are the ones before with the new node behind all that are not greater,
    and no node outside the tree is touched. *)
Theorem rb_insert_correct `{Countable A} (less : A → A → bool) (s : @rbt A _ _) (t : @tree A) (x : A) :
  LessOrder less → rb_rep less s t → x ∉ inorder t → is_Some (rb_nodes s !! x) →
  ∃ s' t' L R, rb_insert less x s = Some s' ∧ rb_rep less s' t' ∧ inorder t = L ++ R ∧ inorder t' = L ++ x :: R ∧
    (∀ y, y ∈ L → less x y = false) ∧ (∀ y, y ∈ R → less x y = true) ∧
    ∀ y, y ∉ inorder t' → rb_nodes s' !! y = rb_nodes s !! y.
Proof.
  intros HO (Ht & Hrb & Hs) Hx Hn. destruct (rb_insert_spec less HO s t x Ht Hrb Hx Hn Hs) as (t' & L & R & (s' & E & Ht' & F) & Hrb' & HI & HI' & HL & HR & Hs').
  by exists s', t', L, R.
Qed.

(** C16: Deleting a node that is [deletable] returns, with the rebalancing loop
    over any number of levels; the tree is red-black and in order again, its nodes
    are the ones before without the node, and no node outside the tree is
    touched. *)
Theorem rb_delete_correct `{Countable A} (less : A → A → bool) (s : @rbt A _ _) k c l (a : A) r :
  rb_rep less s (zip k (Node c l a r)) → deletable k c l r = true →
  ∃ s' t' L R, rb_delete (Some a) s = Some s' ∧ rb_rep less s' t' ∧ inorder (zip k (Node c l a r)) = L ++ a :: R ∧ inorder t' = L ++ R ∧
    ∀ y, y ∉ inorder (zip k (Node c l a r)) → rb_nodes s' !! y = rb_nodes s !! y.
Proof.
  intros (Ht & Hrb & Hs) Hd. destruct (rb_delete_spec s k c l a r Ht Hrb Hd) as (s' & t' & E & Ht' & Hrb' & HI & F).
  assert (inorder (zip k (Node c l a r)) = (before k ++ inorder l) ++ a :: inorder r ++ after k) as HI0 by (rewrite inorder_zip; cbn; by list_simplifier).
  exists s', t', (before k ++ inorder l), (inorder r ++ after k). rewrite HI0 in *. split; [done|]. split; [|done]. split; [done|]. split; [done|].
  rewrite HI. by eapply sorted_delete.
Qed.

(** C17: Deletion follows a NULL pointer, whatever the rest of the tree, when the
    node is a black leaf that is the root or a left child, and when it has two
    children and the right one is a leaf: deleting the last node of a tree always
    does. *)
Theorem rb_delete_null_pointer `{Countable A} (s : @rbt A _ _) k c l (a : A) r :
  tree_at s (zip k (Node c l a r)) → crashes k c l r = true → rb_delete (Some a) s = None.
Proof. apply rb_delete_crash. Qed.

(** C18: A search that compares consistently with the order finds a node that
    compares equal exactly if there is one, and takes at most 2 log2 (n + 1) turns
    of the loop for n nodes. *)
Theorem rb_search_logarithmic `{Countable A} (less : A → A → bool) (s : @rbt A _ _) (t : @tree A) (compare : A → Z) :
  rb_rep less s t → cmp_sorted compare (inorder t) →
  ∃ o, rb_search compare s = Some o ∧
    match o with Some a => a ∈ inorder t ∧ compare a = 0 | None => ∀ a, a ∈ inorder t → compare a ≠ 0 end ∧
    search_loop (2 * Nat.log2 (S (length (inorder t)))) compare (rb_root s) s = Some o.
Proof.
  intros (Ht & Hrb & _) Hc. pose proof Ht as (Hroot & _). pose proof (red_black_height t Hrb) as Hh. pose proof (tree_size s t Ht) as Hsz. pose proof (height_size t) as Hhs.
  destruct (search_at compare s t [] (size (rb_nodes s)) Ht Hc ltac:(lia)) as (o & E & Ho). exists o. unfold rb_search. rewrite Hroot. split; [done|]. split; [done|].
  rewrite <- E. apply (search_mono compare s t []); [done|lia|lia].
Qed.

(** First, last, next and previous walk the nodes in order: they are the ends
    and the neighbours in the sequence of nodes. *)
Theorem rb_walk_in_order `{Countable A} (s : @rbt A _ _) (t : @tree A) :
  tree_at s t →
  rb_first s = Some (head (inorder t)) ∧ rb_last s = Some (last (inorder t)) ∧
  ∀ i a, inorder t !! i = Some a →
    rb_next (Some a) s = Some (inorder t !! S i) ∧ rb_prev (Some a) s = Some (if i is S j then inorder t !! j else None).
Proof.
  intros Ht. pose proof Ht as (Hroot & _). pose proof (tree_size s t Ht) as Hsz. unfold rb_first, rb_last. rewrite Hroot.
  split; [apply (minimum_at s t []); [done|lia]|]. split; [apply (maximum_at s t []); [done|lia]|].
  intros i a Hi. split; [by eapply next_at|by eapply prev_at].
Qed.

(** ** Concrete inputs *)

(** Nodes 1 to 10, ordered by their number, and none of them linked. *)
Definition rb_demo0 : @rbt Z _ _ := Rbt (list_to_map ((λ i, (i, RbNode None None None RB_COLOR_RED)) <$> seqZ 1 10)) None.

Fixpoint insert_all (xs : list Z) (s : @rbt Z _ _) : option (@rbt Z _ _) :=
  match xs with [] => Some s | x :: xs => s ← rb_insert Z.ltb x s; insert_all xs s end.

#[global] Instance zlt_order : LessOrder Z.ltb.
Proof. split; intros *; rewrite ?Z.ltb_lt, ?Z.ltb_ge; lia. Qed.

Definition rb_demo4 : @rbt Z _ _ := default rb_demo0 (insert_all [4; 2; 6; 1] rb_demo0).

Definition demo_tree4 : @tree Z :=
  Node RB_COLOR_BLACK (Node RB_COLOR_BLACK (Node RB_COLOR_RED Leaf 1 Leaf) 2 Leaf) 4 (Node RB_COLOR_BLACK Leaf 6 Leaf).

Lemma demo4_tree : tree_at rb_demo4 demo_tree4.
Proof. split; [vm_compute; reflexivity|]. split; [vm_compute; split_and!; done|]. apply (bool_decide_unpack _). vm_compute. exact I. Qed.

Lemma demo4_rep : rb_rep Z.ltb rb_demo4 demo_tree4.
Proof.
  split; [exact demo4_tree|]. split; [split; [done|]; exists 2%nat; cbn; naive_solver|].
  repeat (constructor; [|repeat (constructor; [vm_compute; reflexivity|]); constructor]). constructor.
Qed.

Lemma demo4_free5 : 5 ∉ inorder demo_tree4 ∧ is_Some (rb_nodes rb_demo4 !! 5).
Proof. split; [cbn; set_solver|]. apply not_eq_None_Some. vm_compute. discriminate. Qed.

Lemma rb_insert_correct_witness :
  ∃ s' t' L R, rb_insert Z.ltb 5 rb_demo4 = Some s' ∧ rb_rep Z.ltb s' t' ∧ inorder demo_tree4 = L ++ R ∧ inorder t' = L ++ 5 :: R ∧
    (∀ y, y ∈ L → (5 <? y) = false) ∧ (∀ y, y ∈ R → (5 <? y) = true) ∧
    ∀ y, y ∉ inorder t' → rb_nodes s' !! y = rb_nodes rb_demo4 !! y.
Proof. exact (rb_insert_correct Z.ltb rb_demo4 demo_tree4 5 zlt_order demo4_rep (proj1 demo4_free5) (proj2 demo4_free5)). Defined.

(** Node 6 is a black leaf on the right: its deletion has to rebalance. *)
Definition demo_path6 : list (@frame Z) := [RightOf RB_COLOR_BLACK (Node RB_COLOR_BLACK (Node RB_COLOR_RED Leaf 1 Leaf) 2 Leaf) 4].

Lemma rb_delete_correct_witness :
  ∃ s' t' L R, rb_delete (Some 6) rb_demo4 = Some s' ∧ rb_rep Z.ltb s' t' ∧
    inorder (zip demo_path6 (Node RB_COLOR_BLACK Leaf 6 Leaf)) = L ++ 6 :: R ∧ inorder t' = L ++ R ∧
    ∀ y, y ∉ inorder (zip demo_path6 (Node RB_COLOR_BLACK Leaf 6 Leaf)) → rb_nodes s' !! y = rb_nodes rb_demo4 !! y.
Proof. exact (rb_delete_correct Z.ltb rb_demo4 demo_path6 RB_COLOR_BLACK Leaf 6 Leaf demo4_rep eq_refl). Defined.

Definition rb_demo1 : @rbt Z _ _ := default rb_demo0 (insert_all [7] rb_demo0).

Lemma demo1_tree : tree_at rb_demo1 (Node RB_COLOR_BLACK Leaf 7 Leaf).
Proof. split; [vm_compute; reflexivity|]. split; [vm_compute; split_and!; done|]. apply (bool_decide_unpack _). vm_compute. exact I. Qed.

(** The only node of a tree. *)
Lemma rb_delete_null_pointer_witness : rb_delete (Some 7) rb_demo1 = None.
Proof. exact (rb_delete_null_pointer rb_demo1 [] RB_COLOR_BLACK Leaf 7 Leaf demo1_tree eq_refl). Defined.

Lemma demo4_cmp : cmp_sorted (λ a, 4 - a) (inorder demo_tree4).
Proof. repeat (constructor; [|repeat (constructor; [split; lia|]); constructor]). constructor. Qed.

Lemma rb_search_logarithmic_witness :
  ∃ o, rb_search (λ a, 4 - a) rb_demo4 = Some o ∧
    match o with Some a => a ∈ inorder demo_tree4 ∧ 4 - a = 0 | None => ∀ a, a ∈ inorder demo_tree4 → 4 - a ≠ 0 end ∧
    search_loop (2 * Nat.log2 (S (length (inorder demo_tree4)))) (λ a, 4 - a) (rb_root rb_demo4) rb_demo4 = Some o.
Proof. exact (rb_search_logarithmic Z.ltb rb_demo4 demo_tree4 (λ a, 4 - a) demo4_rep demo4_cmp). Defined.

Lemma rb_walk_in_order_witness :
  rb_first rb_demo4 = Some (head (inorder demo_tree4)) ∧ rb_last rb_demo4 = Some (last (inorder demo_tree4)) ∧
  ∀ i a, inorder demo_tree4 !! i = Some a →
    rb_next (Some a) rb_demo4 = Some (inorder demo_tree4 !! S i) ∧ rb_prev (Some a) rb_demo4 = Some (if i is S j then inorder demo_tree4 !! j else None).
Proof. exact (rb_walk_in_order rb_demo4 demo_tree4 demo4_tree). Defined.

(** ** Deletion outside these conditions *)

(** The tree in the store, and its black height if all paths have the same. *)
Fixpoint read_tree (fuel : nat) (p : option Z) (s : @rbt Z _ _) : option (@tree Z) :=
  match p with
  | None => Some Leaf
  | Some a =>
      match fuel with
      | O => None
      | S fuel => n ← rd p s; l ← read_tree fuel (rb_left n) s; r ← read_tree fuel (rb_right n) s; Some (Node (rb_color n) l a r)
      end
  end.

Fixpoint black_height (t : @tree Z) : option nat :=
  match t with
  | Leaf => Some 0%nat
  | Node c l _ r =>
      m ← black_height l; n ← black_height r;
      if decide (m = n) then Some (match c with RB_COLOR_BLACK => S m | RB_COLOR_RED => m end) else None
  end.

(** The successor of node 6 is a black leaf further down.  The loop starts at the
    deleted node instead of the successor's place, does nothing since that node is
    red, and the paths are no longer equally long. *)
Example delete_unbalances :
  (s ← insert_all (seqZ 1 10) rb_demo0; t ← read_tree 10 (rb_root s) s; Some (black_height t)) = Some (Some 3%nat) ∧
  (s ← insert_all (seqZ 1 10) rb_demo0; s ← rb_delete (Some 6) s; t ← read_tree 10 (rb_root s) s; Some (black_height t)) = Some None.
Proof. vm_compute. split; reflexivity. Qed.
