(* ===== verification/VmSpace.v ===== *)
(** * Address spaces (kernel/mm/vmspace.c, vmspace.h)

    A space is a page table, an ASID and a red-black tree of regions.  Spaces and
    regions come from static pools; the tree nodes are embedded in the regions, so
    that all spaces share one store of nodes.  A region is its index in the pool,
    NULL is [None].  Locks are left out: a call is one transition. *)

From S2P Require Import Prelude KList PhysMem PageTable Rbtree.

Set Default Goal Selector "!".

Definition ASID_INVALID : Z := 0.
Definition ASID_MAX : Z := 256.
Definition ASID_FIRST_VALID : Z := 1.
Definition USER_SPACE_BASE : Z := 0x1000.
Definition USER_SPACE_END : Z := 0xFFFF000000000000.
Definition CONFIG_MAX_VMAS : Z := 64.
Definition CONFIG_MAX_VM_SPACES : Z := 16.
Definition VMA_FLAG_READ : Z := Z.shiftl 1 0.
Definition VMA_FLAG_WRITE : Z := Z.shiftl 1 1.
Definition VMA_FLAG_EXEC : Z := Z.shiftl 1 2.

Inductive vma_type_t :=
  | VMA_TYPE_ANONYMOUS | VMA_TYPE_CODE | VMA_TYPE_DATA | VMA_TYPE_BSS
  | VMA_TYPE_HEAP | VMA_TYPE_STACK | VMA_TYPE_SHARED | VMA_TYPE_DEVICE.

Record vma_t := Vma { vma_start : Z; vma_end : Z; vma_flags : Z; vma_type : vma_type_t; phys_base : Z; shmem_id : Z }.

Definition set_vma_flags v x := Vma (vma_start x) (vma_end x) v (vma_type x) (phys_base x) (shmem_id x).

Record vm_space_t := VmSpaceT {
  vs_pgd : Z; vs_asid : Z; vma_count : Z; vma_rb_root : option Z;
  brk_base : Z; brk_current : Z; stack_top : Z; vs_ref_count : Z
}.

Definition set_pgd v x := VmSpaceT v (vs_asid x) (vma_count x) (vma_rb_root x) (brk_base x) (brk_current x) (stack_top x) (vs_ref_count x).
Definition set_regions n r x := VmSpaceT (vs_pgd x) (vs_asid x) n r (brk_base x) (brk_current x) (stack_top x) (vs_ref_count x).

(** [&s_kernel_space] or [&s_space_pool[i]] *)
Inductive space_ptr := KernelSpace | PoolSpace (i : Z).

Notation vma_node := (@rb_node_t Z).

(** The static data, the page tables and the [TTBR0_EL1] of each CPU. *)
Record vms := Vms {
  vm_pt : ptm; s_asid_bitmap : list Z;
  s_vma_pool : list vma_t; s_vma_nodes : gmap Z vma_node; s_vma_free_stack : list Z; s_vma_free_count : Z;
  s_kernel_space : vm_space_t; s_current_space : list space_ptr;
  s_space_pool : list vm_space_t; s_space_free_stack : list Z; s_space_free_count : Z;
  ttbr0 : list Z
}.

Definition upd_vpt v s := Vms v (s_asid_bitmap s) (s_vma_pool s) (s_vma_nodes s) (s_vma_free_stack s) (s_vma_free_count s) (s_kernel_space s) (s_current_space s) (s_space_pool s) (s_space_free_stack s) (s_space_free_count s) (ttbr0 s).
Definition upd_asids v s := Vms (vm_pt s) v (s_vma_pool s) (s_vma_nodes s) (s_vma_free_stack s) (s_vma_free_count s) (s_kernel_space s) (s_current_space s) (s_space_pool s) (s_space_free_stack s) (s_space_free_count s) (ttbr0 s).
Definition upd_vmas v s := Vms (vm_pt s) (s_asid_bitmap s) v (s_vma_nodes s) (s_vma_free_stack s) (s_vma_free_count s) (s_kernel_space s) (s_current_space s) (s_space_pool s) (s_space_free_stack s) (s_space_free_count s) (ttbr0 s).
Definition upd_vnodes v s := Vms (vm_pt s) (s_asid_bitmap s) (s_vma_pool s) v (s_vma_free_stack s) (s_vma_free_count s) (s_kernel_space s) (s_current_space s) (s_space_pool s) (s_space_free_stack s) (s_space_free_count s) (ttbr0 s).
Definition upd_vfree l n s := Vms (vm_pt s) (s_asid_bitmap s) (s_vma_pool s) (s_vma_nodes s) l n (s_kernel_space s) (s_current_space s) (s_space_pool s) (s_space_free_stack s) (s_space_free_count s) (ttbr0 s).
Definition upd_kernel v s := Vms (vm_pt s) (s_asid_bitmap s) (s_vma_pool s) (s_vma_nodes s) (s_vma_free_stack s) (s_vma_free_count s) v (s_current_space s) (s_space_pool s) (s_space_free_stack s) (s_space_free_count s) (ttbr0 s).
Definition upd_current v t s := Vms (vm_pt s) (s_asid_bitmap s) (s_vma_pool s) (s_vma_nodes s) (s_vma_free_stack s) (s_vma_free_count s) (s_kernel_space s) v (s_space_pool s) (s_space_free_stack s) (s_space_free_count s) t.
Definition upd_spaces v s := Vms (vm_pt s) (s_asid_bitmap s) (s_vma_pool s) (s_vma_nodes s) (s_vma_free_stack s) (s_vma_free_count s) (s_kernel_space s) (s_current_space s) v (s_space_free_stack s) (s_space_free_count s) (ttbr0 s).
Definition upd_sfree l n s := Vms (vm_pt s) (s_asid_bitmap s) (s_vma_pool s) (s_vma_nodes s) (s_vma_free_stack s) (s_vma_free_count s) (s_kernel_space s) (s_current_space s) (s_space_pool s) l n (ttbr0 s).

Definition get_space (p : space_ptr) (s : vms) : option vm_space_t :=
  match p with KernelSpace => Some (s_kernel_space s) | PoolSpace i => (s_space_pool s).[i] end.
Definition put_space (p : space_ptr) (x : vm_space_t) (s : vms) : option vms :=
  match p with
  | KernelSpace => Some (upd_kernel x s)
  | PoolSpace i => l ← zupdate (s_space_pool s) i x; Some (upd_spaces l s)
  end.

(** ** ASIDs *)

Fixpoint asid_loop (fuel : nat) (i : Z) (s : vms) : option (vms * Z) :=
  if i <? ASID_MAX then
    match fuel with
    | O => None
    | S fuel =>
        let byte_idx := i / 8 in
        let bit_idx := i mod 8 in
        b ← (s_asid_bitmap s).[byte_idx];
        if Z.land b (u32 (Z.shiftl 1 bit_idx)) =? 0 then
          l ← zupdate (s_asid_bitmap s) byte_idx (u8 (Z.lor b (u32 (Z.shiftl 1 bit_idx))));
          Some (upd_asids l s, i)
        else asid_loop fuel (i + 1) s
    end
  else Some (s, ASID_INVALID).

Definition asid_alloc (s : vms) : option (vms * Z) := asid_loop (Z.to_nat ASID_MAX) ASID_FIRST_VALID s.

Definition asid_free (asid : Z) (s : vms) : option vms :=
  if (asid =? ASID_INVALID) || (asid >=? ASID_MAX) then Some s
  else
    let byte_idx := asid / 8 in
    let bit_idx := asid mod 8 in
    b ← (s_asid_bitmap s).[byte_idx];
    l ← zupdate (s_asid_bitmap s) byte_idx (u8 (Z.land b (u32 (Z.lnot (u32 (Z.shiftl 1 bit_idx))))));
    Some (upd_asids l s).

(** ** The pools *)

Definition vma_alloc (s : vms) : option (vms * option Z) :=
  if s_vma_free_count s >? 0 then
    let n := s_vma_free_count s - 1 in
    i ← (s_vma_free_stack s).[n];
    Some (upd_vfree (s_vma_free_stack s) n s, Some i)
  else Some (s, None).

Definition vma_free (vma : option Z) (s : vms) : option vms :=
  match vma with
  | None => Some s
  | Some idx =>
      l ← zupdate (s_vma_free_stack s) (s_vma_free_count s) idx;
      Some (upd_vfree l (u32 (s_vma_free_count s + 1)) s)
  end.

Definition space_take (s : vms) : option (vms * option Z) :=
  if s_space_free_count s >? 0 then
    slot ← (s_space_free_stack s).[s_space_free_count s - 1];
    Some (upd_sfree (s_space_free_stack s) (s_space_free_count s - 1) s, Some slot)
  else Some (s, None).

Definition space_give (i : Z) (s : vms) : option vms :=
  if s_space_free_count s <? CONFIG_MAX_VM_SPACES then
    l ← zupdate (s_space_free_stack s) (s_space_free_count s) i;
    Some (upd_sfree l (s_space_free_count s + 1) s)
  else Some s.

(** ** Regions in the tree *)

(** [rb_entry(node, vma_t, rb_node)] *)
Definition region_at (pool : list vma_t) (node : Z) : vma_t := default (Vma 0 0 0 VMA_TYPE_ANONYMOUS 0 0) pool.[node].

Definition vma_compare (pool : list vma_t) (vaddr : Z) (node : Z) : Z :=
  let vma := region_at pool node in
  if vaddr <? vma_start vma then - EINVAL else if vaddr >=? vma_end vma then 1 else 0.

Definition vma_less (pool : list vma_t) (node_a node_b : Z) : bool :=
  let vma_a := region_at pool node_a in
  let vma_b := region_at pool node_b in
  vma_start vma_a <? vma_start vma_b.

(** The tree of a space: its root and the shared store. *)
Definition tree_of (x : vm_space_t) (s : vms) : @rbt Z _ _ := Rbt (s_vma_nodes s) (vma_rb_root x).

(** A tree operation on a space, with its new number of regions. *)
Definition with_tree (p : space_ptr) (n : Z) (t : @rbt Z _ _) (s : vms) : option vms :=
  x ← get_space p s; put_space p (set_regions n (rb_root t) x) (upd_vnodes (rb_nodes t) s).

Definition vmspace_find_vma (space : option space_ptr) (vaddr : Z) (s : vms) : option (option Z) :=
  match space with
  | None => Some None
  | Some p => x ← get_space p s; rb_search (vma_compare (s_vma_pool s) vaddr) (tree_of x s)
  end.

(** ** Initialisation and creation *)

Definition countdown (n : Z) : list Z := (λ i, n - 1 - i) <$> seqZ 0 n.

Definition vmspace_subsys_init (s : vms) : vms * Z :=
  (Vms (vm_pt s) (replicate (Z.to_nat (ASID_MAX / 8)) 0)
     (s_vma_pool s) (s_vma_nodes s) (countdown CONFIG_MAX_VMAS) CONFIG_MAX_VMAS
     (VmSpaceT 0 ASID_INVALID 0 None 0 0 0 1) (replicate (Z.to_nat CONFIG_MAX_CPUS) KernelSpace)
     (replicate (Z.to_nat CONFIG_MAX_VM_SPACES) (VmSpaceT 0 0 0 None 0 0 0 0))
     (countdown CONFIG_MAX_VM_SPACES) CONFIG_MAX_VM_SPACES (ttbr0 s), KERNEL_OK).

(** [for (i = 256U; i < PTRS_PER_TABLE; i++)] *)
Fixpoint copy_kernel_half (fuel : nat) (i from to : Z) (s : ptm) : option ptm :=
  if i <? PTRS_PER_TABLE then
    match fuel with
    | O => None
    | S fuel => e ← load_entry (from, i) s; s ← store_entry (to, i) e s; copy_kernel_half fuel (i + 1) from to s
    end
  else Some s.

(** [space] says whether the output pointer is not NULL. *)
Definition vmspace_create (space : bool) (s : vms) : option (vms * (Z * option space_ptr)) :=
  if negb space then Some (s, (- EINVAL, None))
  else
    '(s, new_asid) ← asid_alloc s;
    if new_asid =? ASID_INVALID then Some (s, (- ENOMEM, None))
    else
      '(s, new_space) ← space_take s;
      match new_space with
      | None => s ← asid_free new_asid s; Some (s, (- ENOMEM, None))
      | Some slot =>
          '(pt, pgd) ← page_table_alloc (vm_pt s);
          x ← get_space (PoolSpace slot) s;
          s ← put_space (PoolSpace slot) (set_pgd pgd x) (upd_vpt pt s);
          if pgd =? 0 then
            s ← space_give slot s;
            s ← asid_free new_asid s;
            Some (s, (- ENOMEM, None))
          else
            s ← put_space (PoolSpace slot) (VmSpaceT pgd new_asid 0 None USER_SPACE_BASE USER_SPACE_BASE 0 1) s;
            let kernel_pgd := vs_pgd (s_kernel_space s) in
            pt ← (if kernel_pgd =? 0 then Some (vm_pt s) else copy_kernel_half (Z.to_nat PTRS_PER_TABLE) 256 kernel_pgd pgd (vm_pt s));
            Some (upd_vpt pt s, (KERNEL_OK, Some (PoolSpace slot)))
      end.

(** ** Pages *)

(** A mapped page is unmapped, and its frame given back. *)
Definition release_page (give : bool) (pgd vaddr : Z) (s : ptm) : option ptm :=
  r ← page_table_lookup pgd vaddr true s;
  match r with
  | (st, Some paddr) =>
      if st =? KERNEL_OK then
        '(s, _) ← page_table_unmap pgd vaddr s;
        if give then m ← phys_mem_free_page paddr (pt_pm s); Some (upd_ptpm m s) else Some s
      else Some s
  | (_, None) => Some s
  end.

(** [for (; offset < limit; offset += PAGE_SIZE_4K)], at [start + offset]. *)
Fixpoint release_range (fuel : nat) (give : bool) (pgd start offset limit : Z) (s : ptm) : option ptm :=
  if offset <? limit then
    match fuel with
    | O => None
    | S fuel =>
        s ← release_page give pgd (u64 (start + offset)) s;
        release_range fuel give pgd start (u64 (offset + PAGE_SIZE_4K)) limit s
    end
  else Some s.

(** Turns enough for the loop over [size] bytes. *)
Definition page_turns (size : Z) : nat := Z.to_nat (size / PAGE_SIZE_4K + 1).

Definition round_up (size : Z) : Z := Z.land (u64 (size + PAGE_SIZE_4K - 1)) (page_mask PAGE_SIZE_4K).

Definition perm_of_flags (flags : Z) : Z :=
  (if negb (Z.land flags VMA_FLAG_READ =? 0) then PAGE_PERM_READ else 0)
  .| (if negb (Z.land flags VMA_FLAG_WRITE =? 0) then PAGE_PERM_WRITE else 0)
  .| (if negb (Z.land flags VMA_FLAG_EXEC =? 0) then PAGE_PERM_EXEC else 0).

(** ** Mapping *)

(** Whether every page is mapped. *)
Fixpoint map_loop (fuel : nat) (pgd map_start map_size perm : Z) (is_user : bool) (paddr offset : Z) (s : ptm) : option (ptm * bool) :=
  if offset <? map_size then
    match fuel with
    | O => None
    | S fuel =>
        '(s, page_paddr) ← (if negb (paddr =? 0) then Some (s, u64 (paddr + offset))
                            else '(m, p) ← phys_mem_alloc_page (pt_pm s); Some (upd_ptpm m s, p));
        if (paddr =? 0) && (page_paddr =? 0) then
          s ← release_range (page_turns offset) true pgd map_start 0 offset s;
          Some (s, false)
        else
          '(s, ret) ← page_table_map pgd (u64 (map_start + offset)) page_paddr perm is_user s;
          if negb (ret =? KERNEL_OK) then
            s ← (if paddr =? 0 then m ← phys_mem_free_page page_paddr (pt_pm s); Some (upd_ptpm m s) else Some s);
            Some (s, false)
          else map_loop fuel pgd map_start map_size perm is_user paddr (u64 (offset + PAGE_SIZE_4K)) s
    end
  else Some (s, true).

Definition vmspace_map (space : option space_ptr) (vaddr size flags : Z) (type : vma_type_t) (paddr : Z) (s : vms) : option (vms * Z) :=
  match space with
  | None => Some (s, 0)
  | Some p =>
      let map_size := round_up size in
      if map_size =? 0 then Some (s, 0)
      else
        x ← get_space p s;
        let map_start := if vaddr =? 0 then round_up (brk_current x) else Z.land vaddr (page_mask PAGE_SIZE_4K) in
        let map_end := u64 (map_start + map_size) in
        let is_user := map_start <? USER_SPACE_END in
        '(pt, ok) ← map_loop (page_turns map_size) (vs_pgd x) map_start map_size (perm_of_flags flags) is_user paddr 0 (vm_pt s);
        let s := upd_vpt pt s in
        if negb ok then Some (s, 0)
        else
          '(s, vma) ← vma_alloc s;
          match vma with
          | None =>
              pt ← release_range (page_turns map_size) (paddr =? 0) (vs_pgd x) map_start 0 map_size (vm_pt s);
              Some (upd_vpt pt s, 0)
          | Some v =>
              pool ← zupdate (s_vma_pool s) v (Vma map_start map_end flags type paddr KOBJ_ID_INVALID);
              let s := upd_vmas pool s in
              t ← rb_insert (vma_less pool) v (tree_of x s);
              s ← with_tree p (u32 (vma_count x + 1)) t s;
              Some (s, map_start)
          end
  end.

(** ** Unmapping and protection *)

Definition vmspace_unmap (space : option space_ptr) (vaddr size : Z) (s : vms) : option (vms * Z) :=
  match space with
  | None => Some (s, - EINVAL)
  | Some p =>
      let unmap_size := round_up size in
      vma ← vmspace_find_vma space vaddr s;
      match vma with
      | None => Some (s, - ENOENT)
      | Some v =>
          x ← get_space p s;
          pt ← release_range (page_turns unmap_size) true (vs_pgd x) vaddr 0 unmap_size (vm_pt s);
          let s := upd_vpt pt s in
          t ← rb_delete (Some v) (tree_of x s);
          s ← with_tree p (u32 (vma_count x - 1)) t s;
          s ← vma_free (Some v) s;
          Some (s, KERNEL_OK)
      end
  end.

Fixpoint protect_range (fuel : nat) (pgd vaddr perm offset limit : Z) (s : ptm) : option ptm :=
  if offset <? limit then
    match fuel with
    | O => None
    | S fuel =>
        '(s, _) ← page_table_protect pgd (u64 (vaddr + offset)) perm s;
        protect_range fuel pgd vaddr perm (u64 (offset + PAGE_SIZE_4K)) limit s
    end
  else Some s.

Definition vmspace_protect (space : option space_ptr) (vaddr size flags : Z) (s : vms) : option (vms * Z) :=
  match space with
  | None => Some (s, - EINVAL)
  | Some p =>
      let protect_size := round_up size in
      x ← get_space p s;
      pt ← protect_range (page_turns protect_size) (vs_pgd x) vaddr (perm_of_flags flags) 0 protect_size (vm_pt s);
      let s := upd_vpt pt s in
      vma ← vmspace_find_vma space vaddr s;
      s ← match vma with
          | None => Some s
          | Some v => y ← (s_vma_pool s).[v]; pool ← zupdate (s_vma_pool s) v (set_vma_flags flags y); Some (upd_vmas pool s)
          end;
      Some (s, KERNEL_OK)
  end.

(** ** Destruction *)

(** The loop over the regions; [n] is [rb_node]. *)
Fixpoint destroy_loop (fuel : nat) (p : space_ptr) (pgd : Z) (n : option Z) (s : vms) : option vms :=
  match n with
  | None => Some s
  | Some v =>
      match fuel with
      | O => None
      | S fuel =>
          x ← get_space p s;
          next_rb_node ← rb_next n (tree_of x s);
          vma ← (s_vma_pool s).[v];
          pt ← (if negb (vma_start vma =? 0) then
                  release_range (page_turns (vma_end vma - vma_start vma)) true pgd 0 (vma_start vma) (vma_end vma) (vm_pt s)
                else Some (vm_pt s));
          let s := upd_vpt pt s in
          t ← rb_delete n (tree_of x s);
          s ← with_tree p (vma_count x) t s;
          s ← vma_free n s;
          destroy_loop fuel p pgd next_rb_node s
      end
  end.

(** [for (i = 0U; i < 256U; i++)] *)
Fixpoint free_user_half (fuel : nat) (i pgd : Z) (s : ptm) : option ptm :=
  if i <? 256 then
    match fuel with
    | O => None
    | S fuel =>
        entry ← load_entry (pgd, i) s;
        s ← (if PTE_IS_VALID entry && PTE_IS_TABLE entry then page_table_free (phys_to_virt (PTE_PADDR entry)) s else Some s);
        free_user_half fuel (i + 1) pgd s
    end
  else Some s.

Definition vmspace_destroy (space : option space_ptr) (s : vms) : option vms :=
  match space with
  | None | Some KernelSpace => Some s
  | Some (PoolSpace i as p) =>
      x ← get_space p s;
      first ← rb_first (tree_of x s);
      s ← destroy_loop (size (s_vma_nodes s)) p (vs_pgd x) first s;
      x ← get_space p s;
      s ← put_space p (set_regions 0 (vma_rb_root x) x) s;
      pt ← (if vs_pgd x =? 0 then Some (vm_pt s)
            else pt ← free_user_half 256 0 (vs_pgd x) (vm_pt s); page_table_free (vs_pgd x) pt);
      let s := upd_vpt pt s in
      s ← asid_free (vs_asid x) s;
      if (0 <=? i) && (i <? CONFIG_MAX_VM_SPACES) then space_give i s else Some s
  end.

(** ** The current space *)

Definition vmspace_switch (c : Z) (space : option space_ptr) (s : vms) : option vms :=
  match space with
  | None => Some s
  | Some p =>
      l ← zupdate (s_current_space s) c p;
      let s := upd_current l (ttbr0 s) s in
      x ← get_space p s;
      if vs_pgd x =? 0 then Some s
      else t ← zupdate (ttbr0 s) c (virt_to_phys (vs_pgd x)); Some (upd_current (s_current_space s) t s)
  end.

Definition vmspace_get_current (c : Z) (s : vms) : option space_ptr :=
  if c <? CONFIG_MAX_CPUS then (s_current_space s).[c] else Some KernelSpace.

Definition vmspace_get_kernel : space_ptr := KernelSpace.
