(* ===== verification/VmPages.v ===== *)
(** * Address spaces: ranges of pages

    The loops of vmspace.c over pages, against the map from pages to descriptors
    that PageTableTheorems establishes. *)

From S2P Require Import Prelude KList PhysMem Buddy BuddyInv BuddyTheorems PageTable PageTableInv PageTableOps PageTableTheorems Rbtree VmSpace.

Set Default Goal Selector "!".

#[local] Arguments Z.pow : simpl never.
#[local] Arguments Z.mul : simpl never.

Notation view := (Z → Z → option leaf).

(** ** Maps with ranges changed *)

Definition vset (V : view) (pgd x : Z) (l : option leaf) : view := λ r vp, if (r =? pgd) && (vp =? x) then l else V r vp.

(** Pages from [p0] on are mapped to the frames [fs]. *)
Definition vmap (V : view) (pgd p0 attr : Z) (fs : list Z) : view :=
  λ r vp, if (r =? pgd) && (p0 <=? vp) then match fs !! Z.to_nat (vp - p0) with Some f => Some (LPage (PTE_MAKE f attr)) | None => V r vp end else V r vp.

Definition in_range (pgd p0 k r vp : Z) : bool := (r =? pgd) && (p0 <=? vp) && (vp <? p0 + k).

Definition vclear (V : view) (pgd p0 k : Z) : view := λ r vp, if in_range pgd p0 k r vp then None else V r vp.

Definition reprotect (perm : Z) (l : option leaf) : option leaf :=
  match l with Some (LPage e) => Some (LPage (PTE_MAKE (PTE_PADDR e) (compute_pte_attr perm (negb (Z.land e PTE_NG =? 0))))) | _ => l end.

Definition vprotect (V : view) (pgd p0 k perm : Z) : view := λ r vp, if in_range pgd p0 k r vp then reprotect perm (V r vp) else V r vp.

Lemma unchanged_trans R V1 V2 V3 : unchanged R V1 V2 → unchanged R V2 V3 → unchanged R V1 V3.
Proof. intros H1 H2 r vp Hr Hvp. by rewrite H2, H1. Qed.

Lemma unchanged_refl R V : unchanged R V V.
Proof. done. Qed.

Lemma vset_mono R V V' pgd x l : unchanged R V V' → unchanged R (vset V pgd x l) (vset V' pgd x l).
Proof. intros H r vp Hr Hvp. unfold vset. by rewrite H. Qed.

Lemma vclear_mono R V V' pgd p0 k : unchanged R V V' → unchanged R (vclear V pgd p0 k) (vclear V' pgd p0 k).
Proof. intros H r vp Hr Hvp. unfold vclear. by rewrite H. Qed.

Lemma in_range_true pgd p0 k r vp : in_range pgd p0 k r vp = true ↔ r = pgd ∧ p0 <= vp < p0 + k.
Proof. unfold in_range. rewrite !andb_true_iff, Z.eqb_eq, Z.leb_le, Z.ltb_lt. tauto. Qed.

Lemma in_range_step pgd p0 k r vp : 0 < k → in_range pgd p0 k r vp = ((r =? pgd) && (vp =? p0)) || in_range pgd (p0 + 1) (k - 1) r vp.
Proof. intros Hk. apply eq_true_iff_eq. rewrite orb_true_iff, andb_true_iff, !in_range_true, !Z.eqb_eq. lia. Qed.

Lemma vclear_step V pgd p0 k r vp : 0 < k → vclear V pgd p0 k r vp = vclear (vset V pgd p0 None) pgd (p0 + 1) (k - 1) r vp.
Proof. intros Hk. unfold vclear, vset. rewrite (in_range_step pgd p0 k) by done. destruct (in_range pgd (p0 + 1)); [by rewrite orb_true_r|]. by rewrite orb_false_r. Qed.

Lemma vprotect_step V pgd p0 k perm r vp : 0 < k →
  vprotect V pgd p0 k perm r vp = vprotect (vset V pgd p0 (reprotect perm (V pgd p0))) pgd (p0 + 1) (k - 1) perm r vp.
Proof.
  intros Hk. unfold vprotect, vset. rewrite (in_range_step pgd p0 k) by done. destruct ((r =? pgd) && (vp =? p0)) eqn:E; cbn [orb].
  - apply andb_true_iff in E as [->%Z.eqb_eq ->%Z.eqb_eq]. replace (in_range pgd (p0 + 1) (k - 1) pgd p0) with false; [done|].
    symmetry. apply not_true_is_false. rewrite in_range_true. lia.
  - done.
Qed.

Lemma vmap_snoc V pgd p0 attr fs f r vp :
  vset (vmap V pgd p0 attr fs) pgd (p0 + Z.of_nat (length fs)) (Some (LPage (PTE_MAKE f attr))) r vp = vmap V pgd p0 attr (fs ++ [f]) r vp.
Proof.
  unfold vset, vmap. destruct (Z.eqb_spec r pgd) as [->|]; [|done]. cbn [andb]. destruct (Z.eqb_spec vp (p0 + Z.of_nat (length fs))) as [->|Hne].
  - rewrite (proj2 (Z.leb_le _ _)) by lia. replace (Z.to_nat _) with (length fs) by lia. by rewrite lookup_app_r, Nat.sub_diag by lia.
  - destruct (Z.leb_spec p0 vp); [|done]. destruct (decide (Z.to_nat (vp - p0) < length fs)%nat) as [Hlt|Hge]; [by rewrite lookup_app_l|].
    rewrite (lookup_ge_None_2 fs), lookup_ge_None_2; [done|rewrite length_app; cbn; lia|lia].
Qed.

Lemma vmap_nil V pgd p0 attr r vp : vmap V pgd p0 attr [] r vp = V r vp.
Proof. unfold vmap. rewrite lookup_nil. by destruct (_ && _). Qed.

Lemma vmap_at V pgd p0 attr fs j f : fs !! j = Some f → vmap V pgd p0 attr fs pgd (p0 + Z.of_nat j) = Some (LPage (PTE_MAKE f attr)).
Proof. intros E. unfold vmap. rewrite Z.eqb_refl, (proj2 (Z.leb_le _ _)) by lia. replace (Z.to_nat _) with j by lia. cbn [andb]. by rewrite E. Qed.

Lemma vmap_other V pgd p0 attr fs r vp : r ≠ pgd ∨ vp < p0 ∨ p0 + Z.of_nat (length fs) <= vp → vmap V pgd p0 attr fs r vp = V r vp.
Proof.
  intros H. unfold vmap. destruct (Z.eqb_spec r pgd) as [->|]; [|done]. cbn [andb]. destruct (Z.leb_spec p0 vp); [|done].
  rewrite lookup_ge_None_2; [done|lia].
Qed.

(** ** Frames held *)

Definition take_all (fs : list Z) (o : gmap Z Z) : gmap Z Z := foldl (λ m f, <[f := 0]> m) o fs.
Definition give_all (fs : list Z) (o : gmap Z Z) : gmap Z Z := foldl (λ m f, delete f m) o fs.

Lemma take_all_lookup fs o p : take_all fs o !! p = if decide (p ∈ fs) then Some 0 else o !! p.
Proof.
  unfold take_all. revert o. induction fs as [|f fs IH]; intros o; [by rewrite decide_False by (by apply not_elem_of_nil)|]. cbn. rewrite IH.
  destruct (decide (p ∈ fs)) as [H|H]; [by rewrite decide_True by (by right)|]. destruct (decide (p = f)) as [->|Hne].
  - rewrite lookup_insert_eq, decide_True by (by left). done.
  - rewrite lookup_insert_ne, decide_False by (done || by rewrite not_elem_of_cons). done.
Qed.

Lemma give_all_lookup fs o p : give_all fs o !! p = if decide (p ∈ fs) then None else o !! p.
Proof.
  unfold give_all. revert o. induction fs as [|f fs IH]; intros o; [by rewrite decide_False by (by apply not_elem_of_nil)|]. cbn. rewrite IH.
  destruct (decide (p ∈ fs)) as [H|H]; [by rewrite decide_True by (by right)|]. destruct (decide (p = f)) as [->|Hne].
  - rewrite lookup_delete_eq, decide_True by (by left). done.
  - rewrite lookup_delete_ne, decide_False by (done || by rewrite not_elem_of_cons). done.
Qed.

Lemma give_take fs o : (∀ f, f ∈ fs → o !! f = None) → give_all fs (take_all fs o) = o.
Proof. intros H. apply map_eq. intros p. rewrite give_all_lookup, take_all_lookup. destruct (decide (p ∈ fs)); [by rewrite H|done]. Qed.

(** ** Addresses *)

Lemma vpage_mul q : 0 <= q < 2 ^ 36 → vpage (4096 * q) = q.
Proof. intros Hq. unfold vpage. rewrite Z.mul_comm, Z.div_mul by lia. by apply Z.mod_small. Qed.

Lemma frame_paddr f attr : Z.land attr PADDR_MASK = 0 → 0 <= f < 2 ^ 48 → (4096 | f) → PTE_PADDR (PTE_MAKE f attr) = f.
Proof.
  intros Ha Hf [k ->]. rewrite pte_make_paddr, pte_paddr_div by (done || lia). rewrite Z.div_mul by lia. rewrite Z.mod_small; [done|]. lia.
Qed.

(** ** Single pages *)

Section pages.
Context (base n : Z) (HL : mem_layout base n) (H48 : base + n * CONFIG_PAGE_SIZE <= 2 ^ 48).
Notation pt_good := (pt_good base n).

Lemma good_frame s c p k : pt_good s c → c_others c !! p = Some k → 0 < p < 2 ^ 48 ∧ (4096 | p).
Proof using HL H48. intros (T & [_ (live & HR & Hsub & _) _] & _) Hp. eapply (page_range base n HL H48); [exact HR|by eapply lookup_weaken]. Qed.

Lemma good_take s c : pt_good s c →
  phys_mem_alloc_page (pt_pm s) = Some (pt_pm s, 0) ∨
  ∃ m p, phys_mem_alloc_page (pt_pm s) = Some (m, p) ∧ p ≠ 0 ∧ c_others c !! p = None ∧ pt_good (upd_ptpm m s) (Clients (c_roots c) (<[p := 0]> (c_others c))).
Proof using HL.
  intros (T & HI & HR & Htlb). destruct (take_inv base n HL s T _ 0 HI ltac:(lia)) as [E|(m & p & E & Hp & Hno & HI')]; [by left|right].
  exists m, p. split; [done|]. split; [done|]. split; [done|]. by exists T.
Qed.

Lemma good_give s c p : pt_good s c → c_others c !! p = Some 0 →
  ∃ m, phys_mem_free_page p (pt_pm s) = Some m ∧ pt_good (upd_ptpm m s) (Clients (c_roots c) (delete p (c_others c))).
Proof using HL.
  intros (T & HI & HR & Htlb) Hp. destruct (give_inv base n HL s T _ p 0 HI Hp) as (m & E & HI'). exists m. split; [done|]. by exists T.
Qed.

(** Mapping one page. *)
Lemma good_map s c pgd q pa perm u : pt_good s c → pgd ∈ c_roots c → word pa → 0 <= q < 2 ^ 36 →
  ∃ s' st, page_table_map pgd (4096 * q) pa perm u s = Some (s', st) ∧ pt_good s' c ∧
    ((st = KERNEL_OK ∧ pt_view s pgd q = None ∧ unchanged (c_roots c) (vset (pt_view s) pgd q (Some (LPage (PTE_MAKE pa (compute_pte_attr perm u))))) (pt_view s')) ∨
     (st ≠ KERNEL_OK ∧ unchanged (c_roots c) (pt_view s) (pt_view s') ∧ (is_Some (pt_view s pgd q) ∨ st = - ENOMEM))).
Proof using HL H48.
  intros HG Hr Hpa Hq. destruct (run_pt_ok base n HL H48 (PMap pgd (4096 * q) pa perm u) s c HG (conj Hr Hpa)) as (s' & v & E & HG' & Hsp).
  cbn [run_pt clients_after pt_spec a_view pt_abstract] in *. rewrite vpage_mul in Hsp by done.
  destruct (page_table_map pgd (4096 * q) pa perm u s) as [[s1 st]|]; [|done]. rewrite some_bind in E. injection E as <- <-. cbn [fst snd] in *.
  exists s1, st. split; [done|]. split; [done|]. destruct (pt_view s pgd q) eqn:Ev.
  - destruct Hsp as [-> [Hun _]]. right. split; [done|]. split; [done|]. left. eauto.
  - destruct Hsp as [[-> [Hch _]]|(-> & _ & _ & Hun & _)]; [left|right]; [done|]. split; [done|]. split; [done|]. by right.
Qed.

(** Releasing one page. *)
Lemma good_release give s c pgd q d : pt_good s c → pgd ∈ c_roots c → 0 <= q < 2 ^ 36 → pt_view s pgd q = Some (LPage d) →
  (give = true → c_others c !! PTE_PADDR d = Some 0) →
  ∃ s', release_page give pgd (4096 * q) s = Some s' ∧
    pt_good s' (Clients (c_roots c) (if give then delete (PTE_PADDR d) (c_others c) else c_others c)) ∧
    unchanged (c_roots c) (vset (pt_view s) pgd q None) (pt_view s').
Proof using HL H48.
  intros HG Hr Hq Ev Hg. unfold release_page.
  destruct (run_pt_ok base n HL H48 (PLookup pgd (4096 * q)) s c HG Hr) as (s1 & v1 & E1 & _ & _ & Hv1). cbn [run_pt a_view pt_abstract] in E1, Hv1.
  destruct (page_table_lookup pgd (4096 * q) true s) as [x|]; [|done]. rewrite some_bind in E1. injection E1 as _ ->.
  rewrite vpage_mul, Ev in Hv1 by done. subst v1. rewrite some_bind. cbn [Z.eqb KERNEL_OK].
  destruct (run_pt_ok base n HL H48 (PUnmap pgd (4096 * q)) s c HG Hr) as (s2 & v2 & E2 & HG2 & Hsp2). cbn [run_pt pt_spec clients_after a_view pt_abstract] in *.
  rewrite vpage_mul, Ev in Hsp2 by done. destruct Hsp2 as [Hok [Hch _]].
  destruct (page_table_unmap pgd (4096 * q) s) as [[s3 st]|]; [|done]. rewrite some_bind in E2. injection E2 as <- <-. rewrite some_bind.
  destruct give.
  - destruct (good_give s3 c _ HG2 (Hg eq_refl)) as (m & -> & HG3). rewrite some_bind. eexists. split; [done|]. split; [done|exact Hch].
  - exists s3. split; [done|]. split; [by destruct c|exact Hch].
Qed.

(** ** Ranges *)

Lemma release_run give pgd start fs fuel off s c :
  pt_good s c → pgd ∈ c_roots c → 0 <= start → 0 <= off → (4096 | start + off) → start + off + 4096 * Z.of_nat (length fs) <= 2 ^ 48 →
  (∀ j f, fs !! j = Some f → ∃ d, pt_view s pgd ((start + off) / 4096 + Z.of_nat j) = Some (LPage d) ∧ PTE_PADDR d = f) →
  (give = true → NoDup fs ∧ ∀ f, f ∈ fs → c_others c !! f = Some 0) → (length fs <= fuel)%nat →
  ∃ s', release_range fuel give pgd start off (off + 4096 * Z.of_nat (length fs)) s = Some s' ∧
    pt_good s' (Clients (c_roots c) (if give then give_all fs (c_others c) else c_others c)) ∧
    unchanged (c_roots c) (vclear (pt_view s) pgd ((start + off) / 4096) (Z.of_nat (length fs))) (pt_view s').
Proof using HL H48.
  revert fuel off s c. induction fs as [|f fs IH]; intros fuel off s c HG Hr Hst Hoff Hal Hmax Hfs Hg Hfuel; cbn [length] in *.
  - exists s. split; [|split].
    + destruct fuel; cbn [release_range]; rewrite (proj2 (Z.ltb_ge _ _)) by lia; done.
    + destruct c. by destruct give.
    + intros r vp _ _. unfold vclear. destruct (in_range _ _ _ _ _) eqn:E; [|done]. apply in_range_true in E. lia.
  - destruct fuel as [|fuel]; [lia|]. destruct Hal as [q Hq]. rewrite Hq, Z.div_mul in * by lia.
    destruct (Hfs 0%nat f eq_refl) as (d & Ed & Hd). replace (q + Z.of_nat 0) with q in Ed by lia.
    destruct (good_release give s c pgd q d HG Hr ltac:(lia) Ed) as (s1 & E1 & HG1 & Hun1).
    { intros Ht. rewrite Hd. apply (proj2 (Hg Ht)). by left. }
    cbn [release_range]. rewrite (proj2 (Z.ltb_lt _ _)) by lia. rewrite Hq, (u64_small (q * 4096)) by lia. replace (q * 4096) with (4096 * q) by lia. rewrite E1, some_bind.
    change PAGE_SIZE_4K with 4096. rewrite u64_small by lia.
    destruct (IH fuel (off + 4096) s1 (Clients (c_roots c) (if give then delete (PTE_PADDR d) (c_others c) else c_others c)) HG1 Hr) as (s2 & E2 & HG2 & Hun2).
    + done.
    + lia.
    + exists (q + 1). lia.
    + lia.
    + intros j g Hj. replace ((start + (off + 4096)) / 4096 + Z.of_nat j) with (q + Z.of_nat (S j)).
      2: { replace (start + (off + 4096)) with ((q + 1) * 4096) by lia. rewrite Z.div_mul by lia. lia. }
      destruct (Hfs (S j) g Hj) as (d' & Ed' & Hd'). exists d'. split; [|done]. pose proof (lookup_lt_Some _ _ _ Hj). rewrite (Hun1 pgd) by (done || lia). unfold vset.
      rewrite (proj2 (Z.eqb_neq (q + Z.of_nat (S j)) q)) by lia. by rewrite andb_false_r.
    + intros ->. destruct (Hg eq_refl) as [[Hni Hnd]%NoDup_cons Hown]. split; [done|]. cbn [c_others]. intros g Hin. rewrite Hd, lookup_delete_ne by (intros ->; done).
      apply Hown. by right.
    + lia.
    + exists s2. replace (off + 4096 * Z.of_nat (S (length fs))) with (off + 4096 + 4096 * Z.of_nat (length fs)) by lia. split; [done|]. split.
      * cbn [c_others c_roots] in HG2. destruct give; [|done]. cbn. by rewrite Hd in HG2.
      * intros r vp Hr' Hvp. rewrite (Hun2 r vp Hr' Hvp). rewrite (vclear_step (pt_view s)) by lia.
        replace ((start + (off + 4096)) / 4096) with (q + 1) by (replace (start + (off + 4096)) with ((q + 1) * 4096) by lia; rewrite Z.div_mul by lia; lia).
        replace (Z.of_nat (S (length fs)) - 1) with (Z.of_nat (length fs)) by lia. by apply (vclear_mono _ _ _ _ _ _ Hun1).
Qed.

(** The frames a mapping uses: fresh ones, or those from [paddr] on. *)
Definition frames_ok (paddr : Z) (others : gmap Z Z) (fs : list Z) : Prop :=
  if paddr =? 0 then NoDup fs ∧ ∀ f, f ∈ fs → others !! f = None else ∀ j f, fs !! j = Some f → f = u64 (paddr + 4096 * Z.of_nat j).

Definition holds_after (paddr : Z) (fs : list Z) (others : gmap Z Z) : gmap Z Z := if paddr =? 0 then take_all fs others else others.

(** [fs] are mapped so far. *)
Record mapped (R : gset Z) (O : gmap Z Z) (V : view) (pgd p0 attr paddr : Z) (fs : list Z) (s : ptm) : Prop := Mapped {
  md_good : pt_good s (Clients R (holds_after paddr fs O));
  md_view : unchanged R (vmap V pgd p0 attr fs) (pt_view s);
  md_frames : frames_ok paddr O fs;
  md_free : ∀ j, 0 <= j < Z.of_nat (length fs) → V pgd (p0 + j) = None
}.

Lemma mapped_own R O V pgd p0 attr fs s f : mapped R O V pgd p0 attr 0 fs s → f ∈ fs → 0 < f < 2 ^ 48 ∧ (4096 | f).
Proof using HL H48. intros HM Hf. apply (good_frame s _ f 0 (md_good _ _ _ _ _ _ _ _ _ HM)). cbn. rewrite take_all_lookup. by rewrite decide_True. Qed.

(** Everything is undone. *)
Lemma rollback_run R O V pgd p0 perm u paddr fs s : pgd ∈ R → 0 <= p0 → p0 + Z.of_nat (length fs) <= 2 ^ 36 →
  mapped R O V pgd p0 (compute_pte_attr perm u) paddr fs s →
  ∃ s', release_range (page_turns (4096 * Z.of_nat (length fs))) (paddr =? 0) pgd (4096 * p0) 0 (4096 * Z.of_nat (length fs)) s = Some s' ∧
    mapped R O V pgd p0 (compute_pte_attr perm u) paddr [] s'.
Proof using HL H48.
  intros Hr Hp0 Hmax HM. pose proof HM as [HG Hv Hf Hfree]. set (attr := compute_pte_attr perm u) in *.
  assert (Hdiv : (4096 * p0 + 0) / 4096 = p0) by (rewrite Z.add_0_r, Z.mul_comm, Z.div_mul; lia).
  set (ds := (λ f, PTE_PADDR (PTE_MAKE f attr)) <$> fs). assert (Hlen : length ds = length fs) by apply length_fmap.
  assert (Hds : paddr = 0 → ds = fs).
  { intros ->. unfold ds. rewrite <- (list_fmap_id fs) at 2. apply list_fmap_ext. intros j f Hj.
    destruct (mapped_own _ _ _ _ _ _ _ _ f HM) as [? ?]; [by eapply list_elem_of_lookup_2|].
    change (id f) with f. apply frame_paddr; [apply compute_pte_attr_ok|lia|done]. }
  destruct (release_run (paddr =? 0) pgd (4096 * p0) ds (page_turns (4096 * Z.of_nat (length fs))) 0 s _ HG Hr) as (s' & E & HG' & Hun);
    [lia|lia|exists p0; lia|lia| | | |].
  - intros j d (f & -> & Hj)%list_lookup_fmap_Some. rewrite Hdiv. pose proof (lookup_lt_Some _ _ _ Hj). eexists. rewrite (Hv pgd) by (done || lia).
    by rewrite (vmap_at _ _ _ _ _ _ _ Hj).
  - intros Hz%Z.eqb_eq. rewrite (Hds Hz). subst paddr. destruct Hf as [Hnd _]. split; [done|]. intros f Hin. cbn. rewrite take_all_lookup. by rewrite decide_True.
  - unfold page_turns. change PAGE_SIZE_4K with 4096. rewrite Z.mul_comm, Z.div_mul by lia. lia.
  - rewrite Hlen in E, Hun. exists s'. split; [by rewrite Z.add_0_l in E|]. cbn [c_roots c_others] in *. split.
    + unfold holds_after in *. destruct (Z.eqb_spec paddr 0) as [->|Hne]; [|done]. destruct Hf as [_ Hfresh]. rewrite (Hds eq_refl), give_take in HG' by done. done.
    + intros r vp Hr' Hvp. rewrite (Hun r vp Hr' Hvp), vmap_nil. unfold vclear. rewrite Hdiv. rewrite (Hv r vp Hr' Hvp).
      destruct (in_range _ _ _ _ _) eqn:Ein.
      * apply in_range_true in Ein as [-> Hin]. replace vp with (p0 + (vp - p0)) by lia. symmetry. apply Hfree. lia.
      * apply vmap_other. apply not_true_iff_false in Ein. rewrite in_range_true in Ein. lia.
    + unfold frames_ok. destruct (paddr =? 0); [split; [constructor|by intros f ?%elem_of_nil]|done].
    + cbn. lia.
Qed.

(** One page more. *)
Lemma mapped_snoc R O V pgd p0 perm u paddr fs f s s0 s' : pgd ∈ R → 0 <= p0 → p0 + Z.of_nat (length fs) < 2 ^ 36 →
  mapped R O V pgd p0 (compute_pte_attr perm u) paddr fs s → pt_view s0 = pt_view s →
  pt_good s' (Clients R (holds_after paddr (fs ++ [f]) O)) → frames_ok paddr O (fs ++ [f]) → pt_view s pgd (p0 + Z.of_nat (length fs)) = None →
  unchanged R (vset (pt_view s0) pgd (p0 + Z.of_nat (length fs)) (Some (LPage (PTE_MAKE f (compute_pte_attr perm u))))) (pt_view s') →
  mapped R O V pgd p0 (compute_pte_attr perm u) paddr (fs ++ [f]) s'.
Proof.
  intros Hr Hp0 Hmax [HG Hv Hf Hfree] E0 HG' Hf' Hnone Hun. rewrite E0 in Hun. split; [done| |done|].
  - intros r vp Hr' Hvp. rewrite (Hun r vp Hr' Hvp), <- vmap_snoc. by apply (vset_mono _ _ _ _ _ _ Hv).
  - intros j. rewrite length_app. cbn. intros Hj. destruct (decide (j = Z.of_nat (length fs))) as [->|]; [|apply Hfree; lia].
    rewrite (Hv pgd) in Hnone by (done || lia). rewrite vmap_other in Hnone by lia. done.
Qed.


(** *** Why a mapping fails *)

(** The frame for page [k]. *)
Definition frame_for (paddr k : Z) (s : ptm) : option (ptm * Z) :=
  if negb (paddr =? 0) then Some (s, u64 (paddr + 4096 * k)) else '(m, p) ← phys_mem_alloc_page (pt_pm s); Some (upd_ptpm m s, p).

(** The first [k] pages were mapped. *)
Inductive map_steps (pgd p0 perm : Z) (u : bool) (paddr : Z) (s0 : ptm) : Z → ptm → Prop :=
  | map_steps_nil : map_steps pgd p0 perm u paddr s0 0 s0
  | map_steps_snoc k s s1 f s' : map_steps pgd p0 perm u paddr s0 k s → frame_for paddr k s = Some (s1, f) →
      page_table_map pgd (4096 * (p0 + k)) f perm u s1 = Some (s', KERNEL_OK) → map_steps pgd p0 perm u paddr s0 (k + 1) s'.

(** After some pages the allocator had no page for the next one or its tables. *)
Definition out_of_pages (pgd p0 perm : Z) (u : bool) (paddr : Z) (s0 : ptm) : Prop :=
  ∃ k s, map_steps pgd p0 perm u paddr s0 k s ∧
    ((paddr = 0 ∧ phys_mem_alloc_page (pt_pm s) = Some (pt_pm s, 0)) ∨
     ∃ s1 f s', frame_for paddr k s = Some (s1, f) ∧ page_table_map pgd (4096 * (p0 + k)) f perm u s1 = Some (s', - ENOMEM)).

Definition map_result (s0 : ptm) (V : view) (pgd p0 N perm : Z) (u : bool) (paddr : Z) (ok : bool) (fs : list Z) : Prop :=
  let k := Z.of_nat (length fs) in
  if ok then k = N else k < N ∧ (is_Some (V pgd (p0 + k)) ∨ out_of_pages pgd p0 perm u paddr s0).

Lemma map_run s0 R O V pgd p0 N perm u paddr fuel fs s :
  pgd ∈ R → 0 <= p0 → 0 <= N → p0 + N <= 2 ^ 36 → Z.of_nat (length fs) <= N → N - Z.of_nat (length fs) <= Z.of_nat fuel → 0 <= paddr →
  mapped R O V pgd p0 (compute_pte_attr perm u) paddr fs s → map_steps pgd p0 perm u paddr s0 (Z.of_nat (length fs)) s →
  ∃ s' ok fs', map_loop fuel pgd (4096 * p0) (4096 * N) perm u paddr (4096 * Z.of_nat (length fs)) s = Some (s', ok) ∧
    mapped R O V pgd p0 (compute_pte_attr perm u) paddr fs' s' ∧ map_result s0 V pgd p0 N perm u paddr ok fs'.
Proof using HL H48.
  intros Hr Hp0 HN Hmax. revert fs s. induction fuel as [|fuel IH]; intros fs s Hk Hfuel Hpa HM HS.
  { exists s, true, fs. cbn [map_loop]. rewrite (proj2 (Z.ltb_ge _ _)) by lia. split; [done|]. split; [done|cbn; lia]. }
  cbn [map_loop]. destruct (Z.ltb_spec (4096 * Z.of_nat (length fs)) (4096 * N)) as [Hlt|Hge].
  2: { exists s, true, fs. split; [done|]. split; [done|cbn; lia]. }
  pose proof HM as [HG Hv Hf Hfree]. set (k := Z.of_nat (length fs)) in *.
  assert (Hva : u64 (4096 * p0 + 4096 * k) = 4096 * (p0 + k)) by (rewrite u64_small; lia). rewrite Hva.
  assert (Hnext : ∀ f s1 s', frame_for paddr k s = Some (s1, f) → page_table_map pgd (4096 * (p0 + k)) f perm u s1 = Some (s', KERNEL_OK) → pt_view s1 = pt_view s → pt_good s' (Clients R (holds_after paddr (fs ++ [f]) O)) → frames_ok paddr O (fs ++ [f]) → pt_view s1 pgd (p0 + k) = None →
    unchanged R (vset (pt_view s1) pgd (p0 + k) (Some (LPage (PTE_MAKE f (compute_pte_attr perm u))))) (pt_view s') →
    ∃ s'' ok fs', map_loop fuel pgd (4096 * p0) (4096 * N) perm u paddr (u64 (4096 * k + PAGE_SIZE_4K)) s' = Some (s'', ok) ∧
      mapped R O V pgd p0 (compute_pte_attr perm u) paddr fs' s'' ∧ map_result s0 V pgd p0 N perm u paddr ok fs').
  { intros f s1 s' Ef Em E0 HG' Hf' Hnone Hun. change PAGE_SIZE_4K with 4096. rewrite u64_small by lia.
    replace (4096 * k + 4096) with (4096 * Z.of_nat (length (fs ++ [f]))) by (rewrite length_app; cbn; lia).
    apply IH; [rewrite length_app; cbn; lia|rewrite length_app; cbn; lia|done| |].
    - eapply (mapped_snoc _ _ _ _ _ _ _ _ _ _ s s1); try done; [lia|by rewrite E0 in Hnone].
    - replace (Z.of_nat (length (fs ++ [f]))) with (k + 1) by (rewrite length_app; cbn; lia). by eapply map_steps_snoc. }
  assert (Hocc : ∀ s1, pt_view s1 = pt_view s → is_Some (pt_view s1 pgd (p0 + k)) → is_Some (V pgd (p0 + k))).
  { intros s1 -> Ho. rewrite (Hv pgd) in Ho by (done || lia). by rewrite vmap_other in Ho by lia. }
  unfold holds_after, frames_ok in *. destruct (Z.eqb_spec paddr 0) as [->|Hne]; cbn [negb andb].
  - destruct (good_take s _ HG) as [E|(m & p & E & Hp & Hno & HG1)]; rewrite E, !some_bind.
    + cbn [andb Z.eqb]. destruct (rollback_run R O V pgd p0 perm u 0 fs (upd_ptpm (pt_pm s) s)) as (s' & E' & HM'); [done|done|lia|by destruct s|].
      fold k in E'. cbn [Z.eqb] in E'. rewrite E', some_bind. exists s', false, []. split; [done|]. split; [done|]. split; [cbn; lia|]. right. exists k, s. split; [done|]. by left.
    + cbn [andb]. rewrite (proj2 (Z.eqb_neq p 0)) by done. cbn [c_roots c_others] in *. rewrite take_all_lookup in Hno.
      destruct (decide (p ∈ fs)) as [?|Hni]; [done|]. destruct Hf as [Hnd Hfresh].
      destruct (good_frame _ _ p 0 HG1) as [Hpr _]; [apply lookup_insert_eq|].
      destruct (good_map _ _ pgd (p0 + k) p perm u HG1 Hr) as (s' & st & E' & HG' & Hcase); [split; lia|lia|]. rewrite E', some_bind. cbn [c_roots] in Hcase.
      assert (Eff : frame_for 0 k s = Some (upd_ptpm m s, p)) by (unfold frame_for; cbn [Z.eqb negb]; by rewrite E, some_bind).
      destruct Hcase as [(-> & Hnone & Hun)|(Hst & Hun & Hwhy)].
      * cbn [KERNEL_OK Z.eqb negb]. apply (Hnext p (upd_ptpm m s) s'); [exact Eff|exact E'|done| | |exact Hnone|exact Hun].
        -- unfold take_all. rewrite foldl_app. exact HG'.
        -- split; [apply NoDup_app; split; [done|]; split; [|apply NoDup_singleton]; intros x Hx ->%list_elem_of_singleton; done|].
           intros x [Hx| ->%list_elem_of_singleton]%elem_of_app; [by apply Hfresh|done].
      * rewrite (proj2 (Z.eqb_neq st _) Hst). cbn [negb]. destruct (good_give s' _ p HG') as (m' & -> & HG2); [apply lookup_insert_eq|]. rewrite !some_bind.
        exists (upd_ptpm m' s'), false, fs. split; [done|].
        split; [|split; [fold k; lia|destruct Hwhy as [Ho| ->]; [left; by eapply (Hocc (upd_ptpm m s))|right; exists k, s; eauto 10]]]. cbn [c_roots c_others] in HG2. rewrite delete_insert_id in HG2 by (rewrite take_all_lookup; by rewrite decide_False).
        split; [done| |by split|done]. eapply unchanged_trans; [exact Hv|exact Hun].
  - rewrite some_bind. cbn [andb].
    destruct (good_map s _ pgd (p0 + k) (u64 (paddr + 4096 * k)) perm u HG Hr) as (s' & st & E' & HG' & Hcase); [apply Z.mod_pos_bound; lia|lia|]. rewrite E', some_bind.
    assert (Eff : frame_for paddr k s = Some (s, u64 (paddr + 4096 * k))) by (unfold frame_for; by rewrite (proj2 (Z.eqb_neq _ _) Hne)).
    destruct Hcase as [(-> & Hnone & Hun)|(Hst & Hun & Hwhy)].
    + cbn [KERNEL_OK Z.eqb negb]. apply (Hnext (u64 (paddr + 4096 * k)) s s'); [exact Eff|exact E'|done|exact HG'| |exact Hnone|exact Hun].
      intros j f [Hj|[Hj Ef]]%lookup_app_Some; [by apply Hf|]. apply list_lookup_singleton_Some in Ef as [Ej <-]. do 3 f_equal. lia.
    + rewrite (proj2 (Z.eqb_neq st _) Hst). cbn [negb]. rewrite some_bind. exists s', false, fs. split; [done|].
      split; [|split; [fold k; lia|destruct Hwhy as [Ho| ->]; [left; by eapply (Hocc s)|right; exists k, s; eauto 10]]].
      split; [by unfold holds_after; rewrite (proj2 (Z.eqb_neq _ _) Hne)| |by unfold frames_ok; rewrite (proj2 (Z.eqb_neq _ _) Hne)|done]. eapply unchanged_trans; [exact Hv|exact Hun].
Qed.

(** ** Protection *)

Lemma vset_same V pgd x r vp : vset V pgd x (V pgd x) r vp = V r vp.
Proof. unfold vset. destruct ((r =? pgd) && (vp =? x)) eqn:E; [|done]. by apply andb_true_iff in E as [->%Z.eqb_eq ->%Z.eqb_eq]. Qed.

Lemma good_protect s c pgd va perm : pt_good s c → pgd ∈ c_roots c →
  ∃ s' st, page_table_protect pgd va perm s = Some (s', st) ∧ pt_good s' c ∧
    unchanged (c_roots c) (vset (pt_view s) pgd (vpage va) (reprotect perm (pt_view s pgd (vpage va)))) (pt_view s').
Proof using HL H48.
  intros HG Hr. destruct (run_pt_ok base n HL H48 (PProtect pgd va perm) s c HG Hr) as (s' & v & E & HG' & Hsp). cbn [run_pt clients_after pt_spec a_view pt_abstract] in *.
  destruct (page_table_protect pgd va perm s) as [[s1 st]|]; [|done]. rewrite some_bind in E. injection E as <- <-. exists s1, st. split; [done|]. split; [done|].
  destruct (pt_view s pgd (vpage va)) as [[e|e]|] eqn:Ev; cbn [reprotect].
  - destruct Hsp as [_ [Hch _]]. exact Hch.
  - destruct Hsp as [_ [Hun _]]. cbn [a_view pt_abstract] in Hun. intros r vp Hr' Hvp. rewrite (Hun r vp Hr' Hvp), <- Ev. by rewrite vset_same.
  - destruct Hsp as [_ [Hun _]]. cbn [a_view pt_abstract] in Hun. intros r vp Hr' Hvp. rewrite (Hun r vp Hr' Hvp), <- Ev. by rewrite vset_same.
Qed.

Lemma protect_run pgd vaddr perm N fuel k s c : pt_good s c → pgd ∈ c_roots c → 0 <= vaddr → 0 <= k <= N → vaddr + 4096 * N <= 2 ^ 48 → N - k <= Z.of_nat fuel →
  ∃ s', protect_range fuel pgd vaddr perm (4096 * k) (4096 * N) s = Some s' ∧ pt_good s' c ∧
    unchanged (c_roots c) (vprotect (pt_view s) pgd (vaddr / 4096 + k) (N - k) perm) (pt_view s').
Proof using HL H48.
  intros HG Hr Hva. revert k s HG. induction fuel as [|fuel IH]; intros k s HG Hk Hmax Hfuel; cbn [protect_range].
  - rewrite (proj2 (Z.ltb_ge _ _)) by lia. exists s. split; [done|]. split; [done|]. intros r vp _ _. unfold vprotect.
    destruct (in_range _ _ _ _ _) eqn:E; [|done]. apply in_range_true in E. lia.
  - destruct (Z.ltb_spec (4096 * k) (4096 * N)) as [Hlt|Hge].
    2: { exists s. split; [done|]. split; [done|]. intros r vp _ _. unfold vprotect. destruct (in_range _ _ _ _ _) eqn:E; [|done]. apply in_range_true in E. lia. }
    rewrite (u64_small (vaddr + 4096 * k)) by lia. change PAGE_SIZE_4K with 4096. rewrite (u64_small (4096 * k + 4096)) by lia.
    destruct (good_protect s c pgd (vaddr + 4096 * k) perm HG Hr) as (s1 & st & E1 & HG1 & Hun1). rewrite E1, some_bind.
    replace (4096 * k + 4096) with (4096 * (k + 1)) by lia. destruct (IH (k + 1) s1 HG1) as (s2 & E2 & HG2 & Hun2); [lia|lia|lia|].
    exists s2. split; [done|]. split; [done|]. intros r vp Hr' Hvp. rewrite (Hun2 r vp Hr' Hvp). rewrite (vprotect_step (pt_view s)) by lia.
    assert (Hq : vpage (vaddr + 4096 * k) = vaddr / 4096 + k).
    { unfold vpage. replace (vaddr + 4096 * k) with (vaddr + k * 4096) by lia. rewrite Z.div_add by lia. apply Z.mod_small. split; [pose proof (Z.div_pos vaddr 4096); lia|].
      assert (vaddr / 4096 < 2 ^ 36 - k); [|lia]. apply Z.div_lt_upper_bound; lia. }
    rewrite Hq in Hun1. replace (vaddr / 4096 + (k + 1)) with (vaddr / 4096 + k + 1) by lia. replace (N - (k + 1)) with (N - k - 1) by lia.
    unfold vprotect. rewrite (Hun1 r vp Hr' Hvp). done.
Qed.
End pages.
