(* ===== verification/VmSpaceInv.v ===== *)
(** * Address spaces: the invariant

    Every space in use has a page table of its own and a red-black tree of disjoint
    regions whose pages are all mapped; the frames of anonymous regions belong to
    one page each. *)

From stdpp Require Import sorting.
From S2P Require Import Prelude KList PhysMem Buddy BuddyInv BuddyTheorems PageTable PageTableInv PageTableOps PageTableTheorems.
From S2P Require Import Rbtree RbtreeInv RbtreeSteps RbtreeInsert RbtreeWalk RbtreeDelete RbtreeTheorems VmSpace VmPages.

Set Default Goal Selector "!".

#[local] Arguments Z.pow : simpl never.
#[local] Arguments Z.mul : simpl never.

Notation vtree := (@RbtreeInv.tree Z).
Notation view := (Z → Z → option leaf).

(** ** Free stacks *)

(** The first [count] entries of the stack are the free indices [F]. *)
Record stack_ok (stack : list Z) (count cap : Z) (F : list Z) : Prop := StackOk {
  so_length : Z.of_nat (length stack) = cap;
  so_count : count = Z.of_nat (length F);
  so_take : take (length F) stack = F;
  so_nodup : NoDup F;
  so_range : ∀ x, x ∈ F → 0 <= x < cap
}.

Lemma nodup_range (L : list Z) cap : NoDup L → (∀ x, x ∈ L → 0 <= x < cap) → Z.of_nat (length L) <= Z.max 0 cap.
Proof.
  intros Hnd Hr. assert (Hsub : L ⊆+ seqZ 0 cap).
  { apply NoDup_submseteq; [done|]. intros y Hy. apply elem_of_seqZ. apply Hr in Hy. lia. }
  apply submseteq_length in Hsub. rewrite length_seqZ in Hsub. lia.
Qed.

Lemma stack_pop stack count cap F : stack_ok stack count cap F → 0 < count →
  ∃ x F', F = F' ++ [x] ∧ stack.[count - 1] = Some x ∧ stack_ok stack (count - 1) cap F' ∧ x ∉ F' ∧ 0 <= x < cap.
Proof.
  intros [H1 H2 H3 H4 H5] Hc. destruct F as [|x F' _] using rev_ind; [cbn in H2; lia|]. rewrite length_app in *. cbn [length] in *.
  apply NoDup_app in H4 as (Hnd & Hni & _). exists x, F'. split; [done|]. split; [|split; [|split]].
  - replace (count - 1) with (Z.of_nat (length F')) by lia. rewrite zlookup_nat.
    assert (E : take (length F' + 1) stack !! length F' = Some x) by (rewrite H3, lookup_app_r, Nat.sub_diag; done). by rewrite lookup_take_lt in E by lia.
  - split; [done|lia| |done|intros y Hy; apply H5; set_solver].
    assert (E : take (length F') (take (length F' + 1) stack) = F') by (rewrite H3, take_app_length'; done). rewrite take_take in E. by replace (length F' `min` (length F' + 1))%nat with (length F') in E by lia.
  - intros Hx. apply (Hni x Hx). by left.
  - apply H5. set_solver.
Qed.

Lemma stack_push stack count cap F x : stack_ok stack count cap F → x ∉ F → 0 <= x < cap →
  count < cap ∧ ∃ stack', zupdate stack count x = Some stack' ∧ stack_ok stack' (count + 1) cap (F ++ [x]).
Proof.
  intros [H1 H2 H3 H4 H5] Hx Hr.
  assert (Hlt : count < cap).
  { pose proof (nodup_range (x :: F) cap ltac:(by constructor)) as Hlen. cbn [length] in Hlen. enough (Z.of_nat (S (length F)) <= Z.max 0 cap) by lia.
    apply Hlen. intros y [->|Hy]%elem_of_cons; [done|by apply H5]. }
  split; [done|]. eexists. split; [apply zupdate_total; lia|]. subst count. rewrite Nat2Z.id. split.
  - by rewrite length_insert.
  - rewrite length_app. cbn. lia.
  - rewrite length_app. cbn [length]. rewrite Nat.add_1_r. rewrite (take_S_r _ _ x) by (apply list_lookup_insert_eq; lia).
    rewrite take_insert_ge by lia. by rewrite H3.
  - apply NoDup_app. split; [done|]. split; [|apply NoDup_singleton]. intros y Hy ->%list_elem_of_singleton. done.
  - intros y [Hy| ->%list_elem_of_singleton]%elem_of_app; [by apply H5|done].
Qed.

(** ** ASIDs *)

Definition asid_bit (bm : list Z) (a : Z) : bool := match bm.[a / 8] with Some b => Z.testbit b (a mod 8) | None => false end.

Lemma byte_index a : 0 <= a < 256 → 0 <= a / 8 < 32 ∧ 0 <= a mod 8 < 8.
Proof. intros Ha. split; [|apply Z.mod_pos_bound; lia]. split; [apply Z.div_pos; lia|apply Z.div_lt_upper_bound; lia]. Qed.

Lemma byte_bit k : 0 <= k < 8 → u32 (Z.shiftl 1 k) = 2 ^ k.
Proof. intros Hk. rewrite Z.shiftl_1_l. apply u32_small. split; [apply Z.pow_nonneg; lia|apply Z.pow_lt_mono_r; lia]. Qed.

Lemma testbit_u8 x m : 0 <= m < 8 → Z.testbit (u8 x) m = Z.testbit x m.
Proof. intros Hm. apply Z.mod_pow2_bits_low. lia. Qed.

(** One byte of the bitmap changes. *)
Lemma asid_update bm a w : length bm = 32%nat → 0 <= a < 256 →
  ∃ bm', zupdate bm (a / 8) w = Some bm' ∧ length bm' = 32%nat ∧
    ∀ j, 0 <= j < 256 → asid_bit bm' j = if j / 8 =? a / 8 then Z.testbit w (j mod 8) else asid_bit bm j.
Proof.
  intros Hl Ha. destruct (byte_index a Ha) as [Hi _]. eexists. split; [apply zupdate_total; lia|]. split; [by rewrite length_insert|].
  intros j Hj. unfold asid_bit. destruct (Z.eqb_spec (j / 8) (a / 8)) as [->|Hne]; [by rewrite zlookup_insert_eq by lia|]. by rewrite zlookup_insert_ne by (lia || done).
Qed.

Lemma same_bit j a : 0 <= j < 256 → 0 <= a < 256 → j / 8 = a / 8 → (j mod 8 =? a mod 8) = (j =? a).
Proof. intros Hj Ha E. apply eq_true_iff_eq. rewrite !Z.eqb_eq. pose proof (Z.div_mod j 8). pose proof (Z.div_mod a 8). split; [lia|by intros ->]. Qed.

Lemma asid_loop_run fuel i s : length (s_asid_bitmap s) = 32%nat → 1 <= i <= 256 → 256 - i <= Z.of_nat fuel →
  (asid_loop fuel i s = Some (s, 0) ∧ ∀ j, i <= j < 256 → asid_bit (s_asid_bitmap s) j = true) ∨
  ∃ a bm, i <= a < 256 ∧ asid_loop fuel i s = Some (upd_asids bm s, a) ∧ asid_bit (s_asid_bitmap s) a = false ∧ length bm = 32%nat ∧
    ∀ j, 0 <= j < 256 → asid_bit bm j = (j =? a) || asid_bit (s_asid_bitmap s) j.
Proof.
  intros Hl. revert i. induction fuel as [|fuel IH]; intros i Hi Hf; cbn [asid_loop]; change ASID_MAX with 256.
  { rewrite (proj2 (Z.ltb_ge _ _)) by lia. left. split; [done|lia]. }
  destruct (Z.ltb_spec i 256) as [Hlt|Hge]; [|left; split; [done|lia]].
  destruct (byte_index i ltac:(lia)) as [Hq Hk]. destruct (proj2 (zlookup_is_Some (s_asid_bitmap s) (i / 8))) as [b Eb]; [lia|]. rewrite Eb, some_bind.
  assert (Hbit : asid_bit (s_asid_bitmap s) i = Z.testbit b (i mod 8)) by (unfold asid_bit; by rewrite Eb).
  assert (Hland : (Z.land b (u32 (Z.shiftl 1 (i mod 8))) =? 0) = negb (Z.testbit b (i mod 8))).
  { rewrite <- (land_bit_test b (i mod 8)), negb_involutive by lia. by rewrite byte_bit, u64_bit by lia. }
  rewrite Hland. destruct (Z.testbit b (i mod 8)) eqn:Et; cbn [negb].
  - destruct (IH (i + 1)) as [[E Hall]|(a & bm & Ha & E & Hrest)]; [lia|lia|left|right].
    + split; [done|]. intros j Hj. destruct (decide (j = i)) as [->|]; [done|apply Hall; lia].
    + exists a, bm. split; [lia|]. done.
  - right. destruct (asid_update (s_asid_bitmap s) i (u8 (Z.lor b (u32 (Z.shiftl 1 (i mod 8))))) Hl ltac:(lia)) as (bm & -> & Hlb & Hbits).
    exists i, bm. rewrite some_bind. split; [lia|]. split; [done|]. split; [done|]. split; [done|]. intros j Hj. rewrite Hbits by done.
    destruct (Z.eqb_spec (j / 8) (i / 8)) as [Eq|Hne].
    + destruct (byte_index j Hj) as [_ Hkj]. rewrite testbit_u8, Z.lor_spec, byte_bit, Z.pow2_bits_eqb by lia. rewrite Z.eqb_sym, same_bit by (done || lia).
      unfold asid_bit. rewrite Eq, Eb. apply orb_comm.
    + rewrite (proj2 (Z.eqb_neq j i)); [done|]. intros ->. done.
Qed.

Lemma asid_free_run a s : length (s_asid_bitmap s) = 32%nat → 1 <= a < 256 →
  ∃ bm, asid_free a s = Some (upd_asids bm s) ∧ length bm = 32%nat ∧ ∀ j, 0 <= j < 256 → asid_bit bm j = negb (j =? a) && asid_bit (s_asid_bitmap s) j.
Proof.
  intros Hl Ha. unfold asid_free. change ASID_INVALID with 0. change ASID_MAX with 256. rewrite (proj2 (Z.eqb_neq a 0)), Z.geb_leb, (proj2 (Z.leb_gt _ _)) by lia. cbn [orb].
  destruct (byte_index a ltac:(lia)) as [Hq Hk]. destruct (proj2 (zlookup_is_Some (s_asid_bitmap s) (a / 8))) as [b Eb]; [lia|]. rewrite Eb, some_bind.
  destruct (asid_update (s_asid_bitmap s) a (u8 (Z.land b (u32 (Z.lnot (u32 (Z.shiftl 1 (a mod 8))))))) Hl ltac:(lia)) as (bm & -> & Hlb & Hbits). rewrite some_bind.
  exists bm. split; [done|]. split; [done|]. intros j Hj. rewrite Hbits by done. destruct (Z.eqb_spec (j / 8) (a / 8)) as [Eq|Hne].
  - destruct (byte_index j Hj) as [_ Hkj]. rewrite testbit_u8, Z.land_spec by lia. unfold u32. rewrite Z.mod_pow2_bits_low, Z.lnot_spec by lia. fold (u32 (Z.shiftl 1 (a mod 8))).
    rewrite byte_bit, Z.pow2_bits_eqb by lia. rewrite (Z.eqb_sym (a mod 8)), same_bit by (done || lia). unfold asid_bit. rewrite Eq, Eb. apply andb_comm.
  - rewrite (proj2 (Z.eqb_neq j a)); [done|]. intros ->. done.
Qed.

(** ** Regions *)

Fixpoint nodes_of (fuel : nat) (p : option Z) (nodes : gmap Z vma_node) : list Z :=
  match fuel, p with
  | S fuel, Some a => match nodes !! a with Some nd => nodes_of fuel (rb_left nd) nodes ++ a :: nodes_of fuel (rb_right nd) nodes | None => [] end
  | _, _ => []
  end.

(** The regions of space [i], in order. *)
Definition region_ids (s : vms) (i : Z) : list Z :=
  match (s_space_pool s).[i] with Some x => nodes_of (size (s_vma_nodes s)) (vma_rb_root x) (s_vma_nodes s) | None => [] end.
Definition regions (s : vms) (i : Z) : list vma_t := region_at (s_vma_pool s) <$> region_ids s i.

Lemma nodes_of_rep fuel h par (t : vtree) : rep h par t → (height t <= fuel)%nat → nodes_of fuel (root_of t) h = inorder t.
Proof.
  revert fuel par. induction t as [|c l IHl a r IHr]; intros fuel par Hr Hf; [by destruct fuel|].
  destruct fuel as [|fuel]; [cbn in Hf; lia|]. cbn in Hr, Hf |- *. destruct Hr as (-> & Hl & Hrr). cbn.
  rewrite (IHl fuel _ Hl), (IHr fuel _ Hrr) by lia. done.
Qed.

Definition region_ok (r : vma_t) : Prop := 0 <= vma_start r < vma_end r ∧ vma_end r <= 2 ^ 48 ∧ (4096 | vma_start r) ∧ (4096 | vma_end r).

(** Page [vp] is part of the region. *)
Definition has_page (r : vma_t) (vp : Z) : Prop := vma_start r <= 4096 * vp < vma_end r.

(** Every page of the region is mapped; [Φ] gives the frames of anonymous pages. *)
Definition backed (V : view) (Φ : Z → Z → option Z) (pgd : Z) (r : vma_t) : Prop :=
  ∀ vp, has_page r vp → ∃ d, V pgd vp = Some (LPage d) ∧ (phys_base r = 0 → Φ pgd vp = Some (PTE_PADDR d)).

Definition apart_in (pool : list vma_t) (a b : Z) : Prop := vma_end (region_at pool a) <= vma_start (region_at pool b).

Record space_ok (R : gset Z) (V : view) (Φ : Z → Z → option Z) (s : vms) (i : Z) (t : vtree) (x : vm_space_t) : Prop := SpaceOk {
  sk_x : (s_space_pool s).[i] = Some x;
  sk_pgd : vs_pgd x ∈ R;
  sk_rep : rb_rep (vma_less (s_vma_pool s)) (tree_of x s) t;
  sk_count : vma_count x = Z.of_nat (length (inorder t));
  sk_brk : brk_current x = USER_SPACE_BASE;
  sk_ids : ∀ v, v ∈ inorder t → 0 <= v < CONFIG_MAX_VMAS;
  sk_region : ∀ v, v ∈ inorder t → region_ok (region_at (s_vma_pool s) v);
  sk_backed : ∀ v, v ∈ inorder t → backed V Φ (vs_pgd x) (region_at (s_vma_pool s) v);
  sk_apart : StronglySorted (apart_in (s_vma_pool s)) (inorder t);
  sk_asid : 1 <= vs_asid x < 256
}.

Record vm_inv (base n : Z) (s : vms) (c : clients) (U : gmap Z vtree) (Φ : Z → Z → option Z) (F G : list Z) : Prop := VmInv {
  vi_pt : pt_good base n (vm_pt s) c;
  vi_space : ∀ i t, U !! i = Some t → ∃ x, space_ok (c_roots c) (pt_view (vm_pt s)) Φ s i t x;
  vi_pgds : ∀ i j x y, is_Some (U !! i) → is_Some (U !! j) → (s_space_pool s).[i] = Some x → (s_space_pool s).[j] = Some y → vs_pgd x = vs_pgd y → i = j;
  vi_asids : ∀ i j x y, is_Some (U !! i) → is_Some (U !! j) → (s_space_pool s).[i] = Some x → (s_space_pool s).[j] = Some y → vs_asid x = vs_asid y → i = j;
  vi_bits : ∀ i x, is_Some (U !! i) → (s_space_pool s).[i] = Some x → asid_bit (s_asid_bitmap s) (vs_asid x) = true;
  vi_bitmap : length (s_asid_bitmap s) = 32%nat;
  vi_trees : ∀ i j t t' v, U !! i = Some t → U !! j = Some t' → v ∈ inorder t → v ∈ inorder t' → i = j;
  vi_own : ∀ r vp f, Φ r vp = Some f → c_others c !! f = Some 0;
  vi_inj : ∀ r vp r' vp' f, Φ r vp = Some f → Φ r' vp' = Some f → r = r' ∧ vp = vp';
  vi_vmas : stack_ok (s_vma_free_stack s) (s_vma_free_count s) CONFIG_MAX_VMAS F;
  vi_vfree : ∀ v i t, v ∈ F → U !! i = Some t → v ∉ inorder t;
  vi_spaces : stack_ok (s_space_free_stack s) (s_space_free_count s) CONFIG_MAX_VM_SPACES G;
  vi_sfree : ∀ i, i ∈ G → U !! i = None;
  vi_lengths : Z.of_nat (length (s_vma_pool s)) = CONFIG_MAX_VMAS ∧ Z.of_nat (length (s_space_pool s)) = CONFIG_MAX_VM_SPACES ∧
    Z.of_nat (length (s_current_space s)) = CONFIG_MAX_CPUS ∧ Z.of_nat (length (ttbr0 s)) = CONFIG_MAX_CPUS;
  vi_nodes : ∀ v, 0 <= v < CONFIG_MAX_VMAS → is_Some (s_vma_nodes s !! v);
  vi_kernel : vs_pgd (s_kernel_space s) = 0
}.

Lemma region_ids_tree R V Φ s i t x : space_ok R V Φ s i t x → region_ids s i = inorder t.
Proof.
  intros [Hx _ ((Hroot & Hrep & Hnd) & Hrb & _) _ _ _ _ _ _ _]. unfold region_ids. rewrite Hx. cbn in Hroot. rewrite Hroot.
  apply (nodes_of_rep _ _ None); [done|]. pose proof (height_size t). pose proof (tree_size (tree_of x s) t). cbn in *. unfold tree_at in *. cbn in *. specialize (H0 ltac:(auto)). lia.
Qed.

#[export] Instance vma_less_order pool : LessOrder (vma_less pool).
Proof. split; intros *; unfold vma_less; rewrite ?Z.ltb_lt, ?Z.ltb_ge; lia. Qed.

Lemma StronglySorted_impl_elem {A} (P Q : A → A → Prop) l : (∀ a b, a ∈ l → b ∈ l → P a b → Q a b) → StronglySorted P l → StronglySorted Q l.
Proof.
  intros H Hs. induction Hs as [|x l Hs IH Hx]; constructor.
  - apply IH. intros a b Ha Hb. by apply H; right.
  - rewrite Forall_forall in Hx |- *. intros y Hy. apply H; [by left|by right|by apply Hx].
Qed.

(** What a space depends on. *)
Lemma space_ok_ext R R' V V' Φ Φ' s s' i t x : space_ok R V Φ s i t x → vs_pgd x ∈ R' → (s_space_pool s').[i] = Some x →
  (∀ v, v ∈ inorder t → region_at (s_vma_pool s') v = region_at (s_vma_pool s) v ∧ s_vma_nodes s' !! v = s_vma_nodes s !! v) →
  (∀ v, v ∈ inorder t → backed V Φ (vs_pgd x) (region_at (s_vma_pool s) v) → backed V' Φ' (vs_pgd x) (region_at (s_vma_pool s) v)) →
  space_ok R' V' Φ' s' i t x.
Proof.
  intros [Hx Hp (Ht & Hrb & Hs) Hc Hk Hi Hr Hb Ha Has] HR Hx' Hsame Hback. split; try done.
  - destruct Ht as (Hroot & Hrep & Hnd). split; [split; [done|split; [|done]]|split; [done|]].
    + eapply rep_ext; [|exact Hrep]. intros v Hv. by apply Hsame.
    + unfold sorted in *. eapply StronglySorted_impl_elem; [|exact Hs]. intros a b Ha' Hb' H. unfold vma_less in *. by rewrite (proj1 (Hsame a Ha')), (proj1 (Hsame b Hb')).
  - intros v Hv. rewrite (proj1 (Hsame v Hv)). by apply Hr.
  - intros v Hv. rewrite (proj1 (Hsame v Hv)). by apply Hback, Hb.
  - eapply StronglySorted_impl_elem; [|exact Ha]. intros a b Ha' Hb' H. unfold apart_in in *. by rewrite (proj1 (Hsame a Ha')), (proj1 (Hsame b Hb')).
Qed.
