(* ===== verification/VmSpaceSteps.v ===== *)
(** * Address spaces: what each call does *)

From stdpp Require Import sorting.
From S2P Require Import Prelude KList PhysMem Buddy BuddyInv BuddyTheorems PageTable PageTableInv PageTableOps PageTableTheorems.
From S2P Require Import Rbtree RbtreeInv RbtreeSteps RbtreeInsert RbtreeWalk RbtreeDelete RbtreeTheorems VmSpace VmPages VmSpaceInv.

Set Default Goal Selector "!".

#[local] Arguments Z.pow : simpl never.
#[local] Arguments Z.mul : simpl never.

Lemma page_round p : 0 <= p < 2 ^ 64 → Z.land p (page_mask PAGE_SIZE_4K) = 4096 * (p / 4096).
Proof.
  intros Hp. change (page_mask PAGE_SIZE_4K) with (Z.ldiff (Z.ones 64) (Z.ones 12)). rewrite (Z.ldiff_land (Z.ones 64)), Z.land_assoc, (Z.land_ones p 64) by done.
  rewrite Z.mod_small by exact Hp. rewrite <- Z.ldiff_land, Z.ldiff_ones_r by done. rewrite Z.shiftl_mul_pow2, Z.shiftr_div_pow2 by done. change (2 ^ 12) with 4096. lia.
Qed.

(** The number of pages of a request, and the page it starts at. *)
Definition pages_for (size : Z) : Z := u64 (size + 4095) / 4096.
Definition first_page (vaddr : Z) : Z := if vaddr =? 0 then 1 else vaddr / 4096.

Lemma round_up_pages size : round_up size = 4096 * pages_for size.
Proof. unfold round_up, pages_for. change PAGE_SIZE_4K with 4096 at 1. replace (size + 4096 - 1) with (size + 4095) by lia. apply page_round. apply Z.mod_pos_bound. lia. Qed.

Lemma pages_for_nonneg size : 0 <= pages_for size.
Proof. apply Z.div_pos; [|lia]. apply Z.mod_pos_bound. lia. Qed.

Lemma has_page_range r vp : region_ok r → has_page r vp → 0 <= vp < 2 ^ 36.
Proof. unfold region_ok, has_page. lia. Qed.

Lemma backed_ext V V' Φ Φ' pgd r : backed V Φ pgd r → (∀ vp, has_page r vp → V' pgd vp = V pgd vp ∧ (phys_base r = 0 → Φ' pgd vp = Φ pgd vp)) → backed V' Φ' pgd r.
Proof. intros Hb H vp Hvp. destruct (Hb vp Hvp) as (d & Ed & Hd). destruct (H vp Hvp) as [-> Hp]. exists d. split; [done|]. intros Hz. by rewrite Hp, Hd. Qed.

(** ** Finding the region of an address *)

Definition covers (r : vma_t) (vaddr : Z) : Prop := vma_start r <= vaddr < vma_end r.

Lemma compare_sorted pool vaddr L : (∀ v, v ∈ L → region_ok (region_at pool v)) → StronglySorted (apart_in pool) L → cmp_sorted (vma_compare pool vaddr) L.
Proof.
  intros Hok. apply StronglySorted_impl_elem. intros a b [Ha _]%Hok [Hb _]%Hok. unfold apart_in, vma_compare. intros Hab.
  rewrite !Z.geb_leb. change EINVAL with 22. repeat case_match; zify_bool; lia.
Qed.

Lemma find_run R V Φ s i t x vaddr : space_ok R V Φ s i t x →
  ∃ o, vmspace_find_vma (Some (PoolSpace i)) vaddr s = Some o ∧
    match o with Some v => v ∈ inorder t ∧ covers (region_at (s_vma_pool s) v) vaddr | None => ∀ v, v ∈ inorder t → ¬ covers (region_at (s_vma_pool s) v) vaddr end.
Proof.
  intros [Hx _ (Ht & Hrb & _) _ _ _ Hok _ Hap _]. unfold vmspace_find_vma, get_space. rewrite Hx, some_bind. unfold rb_search. pose proof Ht as (Hroot & _).
  pose proof (height_size t). pose proof (tree_size (tree_of x s) t Ht). rewrite Hroot.
  destruct (search_at (vma_compare (s_vma_pool s) vaddr) (tree_of x s) t [] (size (rb_nodes (tree_of x s))) Ht (compare_sorted _ _ _ Hok Hap) ltac:(lia)) as (o & E & Ho).
  assert (Hcmp : ∀ v, vma_compare (s_vma_pool s) vaddr v = 0 ↔ covers (region_at (s_vma_pool s) v) vaddr).
  { intros v. unfold vma_compare, covers. rewrite Z.geb_leb. change EINVAL with 22. repeat case_match; zify_bool; lia. }
  exists o. split; [done|]. destruct o as [v|]; [by rewrite <- Hcmp|]. intros v Hv. rewrite <- Hcmp. by apply Ho.
Qed.

(** ** Mapping *)

Section steps.
Context (base n : Z) (HL : mem_layout base n) (H48 : base + n * CONFIG_PAGE_SIZE <= 2 ^ 48).
Notation vm_inv := (vm_inv base n).
Notation mapped := (mapped base n).

(** Only page tables and frames change. *)
Lemma inv_pt s c U Φ F G pt c' Φ' : vm_inv s c U Φ F G → pt_good base n pt c' → c_roots c ⊆ c_roots c' →
  (∀ i t x v, U !! i = Some t → (s_space_pool s).[i] = Some x → v ∈ inorder t → region_ok (region_at (s_vma_pool s) v) → vs_pgd x ∈ c_roots c →
     backed (pt_view (vm_pt s)) Φ (vs_pgd x) (region_at (s_vma_pool s) v) → backed (pt_view pt) Φ' (vs_pgd x) (region_at (s_vma_pool s) v)) →
  (∀ r vp f, Φ' r vp = Some f → c_others c' !! f = Some 0) → (∀ r vp r' vp' f, Φ' r vp = Some f → Φ' r' vp' = Some f → r = r' ∧ vp = vp') →
  vm_inv (upd_vpt pt s) c' U Φ' F G.
Proof.
  intros HI HG HR Hb Hown Hinj. pose proof HI as [_ Hsp _ _ _ _ _ _ _ _ _ _ _ _ _ _]. destruct HI. split; try done. intros i t Ut. destruct (Hsp i t Ut) as [x Hx]. exists x.
  pose proof Hx as [Ex Hp _ _ _ _ Hok _ _ _]. eapply space_ok_ext; [exact Hx|by apply HR|done|done|]. intros v Hv. by apply (Hb i t x v); auto.
Qed.

Lemma holds_after_mono paddr fs O f : O !! f = Some 0 → holds_after paddr fs O !! f = Some 0.
Proof. intros Hf. unfold holds_after. destruct (paddr =? 0); [|done]. rewrite take_all_lookup. by case_decide. Qed.

(** Pages that were free are mapped, no region is added. *)
Lemma mapped_backed R O V pgd p0 attr paddr fs pt Φ q r : mapped R O V pgd p0 attr paddr fs pt → q ∈ R → region_ok r → backed V Φ q r → backed (pt_view pt) Φ q r.
Proof.
  intros [_ Hv _ Hfree] Hq Hok Hb. apply (backed_ext V _ Φ); [done|]. intros vp Hvp. split; [|done]. rewrite (Hv q vp Hq (has_page_range r vp Hok Hvp)).
  apply vmap_other. destruct (Hb vp Hvp) as (d & Ed & _). destruct (decide (q = pgd)) as [->|]; [|by left]. right.
  destruct (decide (vp < p0)); [by left|right]. destruct (decide (p0 + Z.of_nat (length fs) <= vp)); [done|]. specialize (Hfree (vp - p0) ltac:(lia)).
  replace (p0 + (vp - p0)) with vp in Hfree by lia. congruence.
Qed.

Lemma mapped_inv s c U Φ F G pgd p0 attr paddr fs pt : vm_inv s c U Φ F G → mapped (c_roots c) (c_others c) (pt_view (vm_pt s)) pgd p0 attr paddr fs pt →
  vm_inv (upd_vpt pt s) (Clients (c_roots c) (holds_after paddr fs (c_others c))) U Φ F G.
Proof.
  intros HI HM. apply (inv_pt s c U Φ F G pt _ Φ HI); [apply HM|done| | |by apply (vi_inj _ _ _ _ _ _ _ _ HI)].
  - intros i t x v Ut Ex Hv Hok Hp Hb. by eapply mapped_backed.
  - intros r vp f Hf. apply holds_after_mono. by eapply (vi_own _ _ _ _ _ _ _ _ HI).
Qed.

Definition new_region (p0 N flags : Z) (type : vma_type_t) (paddr : Z) : vma_t := Vma (4096 * p0) (4096 * (p0 + N)) flags type paddr KOBJ_ID_INVALID.

(** The frames of the pages of space [pgd] from [p0] on. *)
Definition with_frames (paddr : Z) (Φ : Z → Z → option Z) (pgd p0 : Z) (fs : list Z) : Z → Z → option Z :=
  λ r vp, if (paddr =? 0) && in_range pgd p0 (Z.of_nat (length fs)) r vp then fs !! Z.to_nat (vp - p0) else Φ r vp.

Lemma with_frames_own paddr Φ pgd p0 fs O r vp f : (∀ r vp f, Φ r vp = Some f → O !! f = Some 0) →
  with_frames paddr Φ pgd p0 fs r vp = Some f → holds_after paddr fs O !! f = Some 0.
Proof.
  intros HO. unfold with_frames. destruct (Z.eqb_spec paddr 0) as [->|]; cbn [andb]; [destruct (in_range _ _ _ _ _); cbn [andb]|].
  - intros Hf. unfold holds_after. cbn. rewrite take_all_lookup. rewrite decide_True; [done|by eapply list_elem_of_lookup_2].
  - intros Hf. by eapply holds_after_mono, HO.
  - intros Hf. by eapply holds_after_mono, HO.
Qed.

Lemma with_frames_inj paddr Φ pgd p0 fs O : (∀ r vp f, Φ r vp = Some f → O !! f = Some 0) → frames_ok paddr O fs →
  (∀ r vp r' vp' f, Φ r vp = Some f → Φ r' vp' = Some f → r = r' ∧ vp = vp') →
  ∀ r vp r' vp' f, with_frames paddr Φ pgd p0 fs r vp = Some f → with_frames paddr Φ pgd p0 fs r' vp' = Some f → r = r' ∧ vp = vp'.
Proof.
  intros HO Hfs Hinj r vp r' vp' f. unfold with_frames, frames_ok in *. destruct (paddr =? 0); cbn [andb]; [|apply Hinj]. destruct Hfs as [Hnd Hfresh].
  assert (Hnew : ∀ q j, Φ q j = Some f → ∀ k, fs !! k = Some f → False).
  { intros q j Hq%HO k Hk%list_elem_of_lookup_2%Hfresh. congruence. }
  destruct (in_range pgd p0 _ r vp) eqn:E1, (in_range pgd p0 _ r' vp') eqn:E2; intros F1 F2.
  - apply in_range_true in E1 as [-> ?]. apply in_range_true in E2 as [-> ?]. split; [done|]. pose proof (NoDup_lookup _ _ _ _ Hnd F1 F2). lia.
  - exfalso. by eapply Hnew.
  - exfalso. by eapply Hnew.
  - by eapply Hinj.
Qed.

Lemma with_frames_from paddr Φ pgd p0 fs q vp f : with_frames paddr Φ pgd p0 fs q vp = Some f → Φ q vp = Some f ∨ paddr = 0 ∧ f ∈ fs.
Proof.
  unfold with_frames. destruct (Z.eqb_spec paddr 0) as [->|]; cbn [andb]; [|by left]. destruct (in_range _ _ _ _ _); [|by left].
  intros Hf%list_elem_of_lookup_2. by right.
Qed.

Lemma region_at_insert pool v r w : 0 <= v < Z.of_nat (length pool) → region_at (<[Z.to_nat v := r]> pool) w = if decide (w = v) then r else region_at pool w.
Proof.
  intros Hv. unfold region_at. destruct (decide (w = v)) as [->|Hne]; [by rewrite zlookup_insert_eq|]. by rewrite zlookup_insert_ne by (lia || done).
Qed.

(** A region added to a tree keeps the others apart. *)
Lemma apart_insert pool A B v : (∀ y, y ∈ A ++ B → region_ok (region_at pool y)) → region_ok (region_at pool v) →
  (∀ y, y ∈ A → vma_less pool v y = false) → (∀ y, y ∈ B → vma_less pool v y = true) →
  (∀ y vp, y ∈ A ++ B → has_page (region_at pool y) vp → has_page (region_at pool v) vp → False) →
  StronglySorted (apart_in pool) (A ++ B) → StronglySorted (apart_in pool) (A ++ v :: B).
Proof.
  intros Hok [Hv (Hv2 & [k Hk] & Hk')] HA HB Hdis Hs. apply StronglySorted_app in Hs as (Hc & HsA & HsB). apply StronglySorted_app. split; [|split; [done|]].
  - intros a b Ha [->|Hb]%elem_of_cons; [|by apply Hc]. unfold apart_in. specialize (HA a Ha). unfold vma_less in HA. apply Z.ltb_ge in HA.
    destruct (Hok a ltac:(set_solver)) as (Ha1 & _ & _ & [j Hj]). destruct (Z.le_gt_cases (vma_end (region_at pool a)) (vma_start (region_at pool v))); [done|].
    exfalso. apply (Hdis a k); [set_solver|unfold has_page; lia..].
  - constructor; [done|]. apply Forall_forall. intros b Hb. unfold apart_in. specialize (HB b Hb). unfold vma_less in HB. apply Z.ltb_lt in HB.
    destruct (Hok b ltac:(set_solver)) as (Hb1 & _ & [j Hj] & _). destruct (Z.le_gt_cases (vma_end (region_at pool v)) (vma_start (region_at pool b))); [done|].
    exfalso. apply (Hdis b j); [set_solver|unfold has_page; lia..].
Qed.

(** The tree of one space changes, and with it pages and frames. *)
Record changes (s : vms) (c : clients) (U : gmap Z vtree) (Φ : Z → Z → option Z) (F' : list Z) (i : Z) (t' : vtree) (x x' : vm_space_t) (s' : vms) (c' : clients) (Φ' : Z → Z → option Z) : Prop := Changes {
  ch_spaces : s_space_pool s' = <[Z.to_nat i := x']> (s_space_pool s);
  ch_ident : vs_pgd x' = vs_pgd x ∧ vs_asid x' = vs_asid x;
  ch_rest : s_asid_bitmap s' = s_asid_bitmap s ∧ s_kernel_space s' = s_kernel_space s ∧ s_space_free_stack s' = s_space_free_stack s ∧
    s_space_free_count s' = s_space_free_count s ∧ s_current_space s' = s_current_space s ∧ ttbr0 s' = ttbr0 s ∧ length (s_vma_pool s') = length (s_vma_pool s);
  ch_pt : pt_good base n (vm_pt s') c' ∧ c_roots c' = c_roots c;
  ch_space : space_ok (c_roots c') (pt_view (vm_pt s')) Φ' s' i t' x';
  ch_new : ∀ w, w ∈ inorder t' → ∀ j tj, j ≠ i → U !! j = Some tj → w ∉ inorder tj;
  ch_others : ∀ j tj y w, j ≠ i → U !! j = Some tj → (s_space_pool s).[j] = Some y → vs_pgd y ≠ vs_pgd x → vs_pgd y ∈ c_roots c → w ∈ inorder tj → region_ok (region_at (s_vma_pool s) w) →
    region_at (s_vma_pool s') w = region_at (s_vma_pool s) w ∧ s_vma_nodes s' !! w = s_vma_nodes s !! w ∧
    (backed (pt_view (vm_pt s)) Φ (vs_pgd y) (region_at (s_vma_pool s) w) → backed (pt_view (vm_pt s')) Φ' (vs_pgd y) (region_at (s_vma_pool s) w));
  ch_own : ∀ r vp f, Φ' r vp = Some f → c_others c' !! f = Some 0;
  ch_inj : ∀ r vp r' vp' f, Φ' r vp = Some f → Φ' r' vp' = Some f → r = r' ∧ vp = vp';
  ch_stack : stack_ok (s_vma_free_stack s') (s_vma_free_count s') CONFIG_MAX_VMAS F';
  ch_free : ∀ v, v ∈ F' → v ∉ inorder t' ∧ ∀ j tj, j ≠ i → U !! j = Some tj → v ∉ inorder tj;
  ch_nodes : ∀ v, 0 <= v < CONFIG_MAX_VMAS → is_Some (s_vma_nodes s' !! v)
}.

Lemma changes_inv s c U Φ F G i t x F' t' x' s' c' Φ' : vm_inv s c U Φ F G → U !! i = Some t → (s_space_pool s).[i] = Some x →
  changes s c U Φ F' i t' x x' s' c' Φ' → vm_inv s' c' (<[i := t']> U) Φ' F' G.
Proof.
  intros [I1 I2 I3 I4 I5 I6 I7 I8 I9 I10 I11 I12 I13 I14 I15 I16] Ut Ex [Es [Ep Ea] (R1 & R2 & R3 & R4 & R5 & R6 & R7) [Hg HR] Hx' Hnew Hoth Hown Hinj Hst Hfree Hnodes].
  pose proof (zlookup_Some_lt _ _ _ Ex) as Hir.
  assert (Hsame : ∀ j y, j ≠ i → (s_space_pool s').[j] = Some y ↔ (s_space_pool s).[j] = Some y) by (intros j y Hj; rewrite Es; by rewrite zlookup_insert_ne by (lia || done)).
  assert (HU : ∀ j, is_Some (<[i := t']> U !! j) ↔ is_Some (U !! j)).
  { intros j. destruct (decide (j = i)) as [->|]; [rewrite lookup_insert_eq, Ut; split; eauto|by rewrite lookup_insert_ne]. }
  assert (Hold : ∀ j y, (s_space_pool s').[j] = Some y → ∃ y0, (s_space_pool s).[j] = Some y0 ∧ vs_pgd y0 = vs_pgd y ∧ vs_asid y0 = vs_asid y).
  { intros j y Ey. destruct (decide (j = i)) as [->|Hj]; [|apply Hsame in Ey; eauto]. exists x. split; [done|]. rewrite (sk_x _ _ _ _ _ _ _ Hx') in Ey. by injection Ey as <-. }
  split; rewrite ?R1, ?R2, ?R3, ?R4, ?R5, ?R6, ?R7; try done.
  - intros j tj. destruct (decide (j = i)) as [->|Hj]; [rewrite lookup_insert_eq; intros [= <-]; by exists x'|rewrite lookup_insert_ne by done].
    intros Uj. destruct (I2 j tj Uj) as [y Hy]. exists y. pose proof Hy as [Ey Hpy _ _ _ _ Hoky _ _ _].
    assert (Hne : vs_pgd y ≠ vs_pgd x) by (intros E; apply Hj; eapply I3; eauto).
    eapply space_ok_ext; [exact Hy|by rewrite HR|by apply Hsame|intros w Hw|intros w Hw]; destruct (Hoth j tj y w Hj Uj Ey Hne Hpy Hw (Hoky w Hw)) as (? & ? & ?); auto.
  - intros j k y z Uj Uk (y0 & Ey & <- & _)%Hold (z0 & Ez & <- & _)%Hold. rewrite HU in Uj, Uk. by apply I3.
  - intros j k y z Uj Uk (y0 & Ey & _ & <-)%Hold (z0 & Ez & _ & <-)%Hold. rewrite HU in Uj, Uk. by apply I4.
  - intros j y Uj (y0 & Ey & _ & <-)%Hold. rewrite HU in Uj. by apply (I5 j).
  - intros j k tj tk w. destruct (decide (j = i)) as [->|Hj], (decide (k = i)) as [->|Hk]; rewrite ?lookup_insert_eq, ?lookup_insert_ne by done; [done| | |by apply I7].
    + intros [= <-] Uk Hw Hwk. by destruct (Hnew w Hw k tk Hk Uk).
    + intros Uj [= <-] Hwj Hw. by destruct (Hnew w Hw j tj Hj Uj).
  - intros w j tj Hw. destruct (Hfree w Hw) as [Hf1 Hf2]. destruct (decide (j = i)) as [->|Hj]; [rewrite lookup_insert_eq; by intros [= <-]|rewrite lookup_insert_ne by done; by apply Hf2].
  - intros j Hj%I13. rewrite lookup_insert_ne; [done|]. intros ->. congruence.
  - by rewrite Es, length_insert.
Qed.

(** A new region: [v] goes from the pool of descriptors into the tree. *)
Lemma insert_step s c U Φ F G i t x p0 perm u paddr fs pt v flags type : vm_inv s c U Φ (F ++ [v]) G → U !! i = Some t →
  space_ok (c_roots c) (pt_view (vm_pt s)) Φ s i t x → 0 <= p0 → 0 < Z.of_nat (length fs) → p0 + Z.of_nat (length fs) <= 2 ^ 36 →
  mapped (c_roots c) (c_others c) (pt_view (vm_pt s)) (vs_pgd x) p0 (compute_pte_attr perm u) paddr fs pt →
  let r := new_region p0 (Z.of_nat (length fs)) flags type paddr in
  let s2 := upd_vfree (s_vma_free_stack s) (s_vma_free_count s - 1) (upd_vpt pt s) in
  ∃ pool tr s' t' A B, zupdate (s_vma_pool s2) v r = Some pool ∧ rb_insert (vma_less pool) v (tree_of x (upd_vmas pool s2)) = Some tr ∧
    with_tree (PoolSpace i) (u32 (vma_count x + 1)) tr (upd_vmas pool s2) = Some s' ∧ vm_pt s' = pt ∧
    vm_inv s' (Clients (c_roots c) (holds_after paddr fs (c_others c))) (<[i := t']> U) (with_frames paddr Φ (vs_pgd x) p0 fs) F G ∧
    inorder t = A ++ B ∧ inorder t' = A ++ v :: B ∧ s_vma_pool s' = pool ∧ ∀ y, y ≠ v → region_at pool y = region_at (s_vma_pool s) y.
Proof using HL H48.
  intros HI Ut Hx Hp0 HN Hmax HM r s2. pose proof (mapped_inv _ _ _ _ _ _ _ _ _ _ _ _ HI HM) as HI1. destruct (vi_lengths _ _ _ _ _ _ _ _ HI) as (Lp & Ls & Lc & Lt).
  pose proof (vi_vmas _ _ _ _ _ _ _ _ HI) as HSt. destruct (stack_pop _ _ _ _ HSt) as (v' & F' & EF & _ & HSt' & HvF & Hv).
  { destruct HSt as [_ -> _ _ _]. rewrite length_app. cbn. lia. }
  apply app_inj_tail in EF as [<- <-]. pose proof Hx as [Ex Hp (Ht & Hrb & Hs) Hc Hk Hi Hok Hb Ha Has].
  assert (Hvt : ∀ j tj, U !! j = Some tj → v ∉ inorder tj) by (intros j tj; apply (vi_vfree _ _ _ _ _ _ _ _ HI); set_solver).
  set (pool := <[Z.to_nat v := r]> (s_vma_pool s)).
  assert (Hreg : ∀ w, region_at pool w = if decide (w = v) then r else region_at (s_vma_pool s) w) by (intros w; apply region_at_insert; lia).
  assert (Hregt : ∀ w, w ∈ inorder t → region_at pool w = region_at (s_vma_pool s) w).
  { intros w Hw. rewrite Hreg, decide_False; [done|]. intros ->. by apply (Hvt i t). }
  assert (Hokr : region_ok r) by (unfold r, region_ok, new_region; cbn; split; [lia|]; split; [lia|]; split; [exists p0|exists (p0 + Z.of_nat (length fs))]; lia).
  assert (Hs' : sorted (vma_less pool) (inorder t)).
  { eapply StronglySorted_impl_elem; [|exact Hs]. intros a b Ha' Hb'. unfold vma_less. by rewrite !Hregt. }
  destruct (rb_insert_spec (vma_less pool) _ (tree_of x (upd_vmas pool s2)) t v) as (t' & A & B & (tr & Etr & Ht' & Hfr) & Hrb' & EA & EB & HA & HB & Hs2);
    [exact Ht|done|by apply (Hvt i t)|apply (vi_nodes _ _ _ _ _ _ _ _ HI); done|done|].
  set (x' := set_regions (u32 (vma_count x + 1)) (rb_root tr) x).
  set (s4 := upd_spaces (<[Z.to_nat i := x']> (s_space_pool s)) (upd_vnodes (rb_nodes tr) (upd_vmas pool s2))).
  pose proof (zlookup_Some_lt _ _ _ Ex) as Hir.
  assert (Ew : with_tree (PoolSpace i) (u32 (vma_count x + 1)) tr (upd_vmas pool s2) = Some s4).
  { unfold with_tree, get_space, put_space, s4, s2. cbn [s_space_pool upd_vmas upd_vnodes upd_vfree upd_vpt]. rewrite Ex, some_bind. by rewrite zupdate_total. }
  exists pool, tr, s4, t', A, B. split; [by apply zupdate_total; cbn; lia|]. split; [done|]. split; [done|]. split; [done|].
  assert (Hin' : ∀ w, w ∈ inorder t' ↔ w = v ∨ w ∈ inorder t) by (intros w; rewrite EA, EB; set_solver).
  assert (Hpgd : vs_pgd x' = vs_pgd x) by done.
  assert (Hback : ∀ q w, q ∈ c_roots c → region_ok w → backed (pt_view (vm_pt s)) Φ q w → backed (pt_view pt) (with_frames paddr Φ (vs_pgd x) p0 fs) q w).
  { intros q w Hq Hw Hbw. apply (backed_ext (pt_view pt) _ Φ); [by eapply mapped_backed|]. intros vp Hvp. split; [done|]. intros _. unfold with_frames.
    destruct (in_range _ _ _ _ _) eqn:Ein; [|by rewrite andb_false_r]. exfalso. apply in_range_true in Ein as [-> Hin]. destruct (Hbw vp Hvp) as (d & Ed & _).
    pose proof (md_free _ _ _ _ _ _ _ _ _ _ _ HM (vp - p0) ltac:(lia)) as Hf. replace (p0 + (vp - p0)) with vp in Hf by lia. congruence. }
  assert (Hx' : space_ok (c_roots c) (pt_view pt) (with_frames paddr Φ (vs_pgd x) p0 fs) s4 i t' x').
  { split; [by apply zlookup_insert_eq|done|split; [by destruct tr|by split]| |done| | | | |done].
    - cbn [x' set_regions vma_count]. rewrite EB, Hc, EA, !length_app. cbn. rewrite u32_small; [lia|].
      destruct Ht as (_ & _ & Hnd). pose proof (nodup_range _ _ Hnd Hi) as Hlen. change CONFIG_MAX_VMAS with 64 in Hlen. rewrite EA, length_app in Hlen. lia.
    - intros w [->|Hw]%Hin'; [done|by apply Hi].
    - intros w [->|Hw]%Hin'; cbn [s_vma_pool s4 upd_spaces upd_vnodes upd_vmas]; [by rewrite Hreg, decide_True|rewrite Hregt by done; by apply Hok].
    - intros w [->|Hw]%Hin'; cbn [s_vma_pool s4 upd_spaces upd_vnodes upd_vmas]; [rewrite Hreg, decide_True by done|rewrite Hregt by done; apply Hback; auto].
      intros vp Hvp. unfold has_page in Hvp. cbn in Hvp. assert (Hj : (Z.to_nat (vp - p0) < length fs)%nat) by lia. destruct (lookup_lt_is_Some_2 fs _ Hj) as [f Ef].
      exists (PTE_MAKE f (compute_pte_attr perm u)). rewrite (md_view _ _ _ _ _ _ _ _ _ _ _ HM (vs_pgd x)) by (done || lia).
      replace vp with (p0 + Z.of_nat (Z.to_nat (vp - p0))) at 1 by lia. rewrite (vmap_at _ _ _ _ _ _ _ Ef). split; [done|]. cbn [phys_base r new_region]. intros ->.
      unfold with_frames. rewrite (proj2 (in_range_true _ _ _ _ _)) by lia. cbn [Z.eqb andb]. rewrite Ef.
      destruct (mapped_own base n HL H48 _ _ _ _ _ _ _ _ f HM) as [? ?]; [by eapply list_elem_of_lookup_2|]. by rewrite frame_paddr by (apply compute_pte_attr_ok || done || lia).
    - rewrite EB. cbn [s_vma_pool s4 upd_spaces upd_vnodes upd_vmas]. apply apart_insert; [|by rewrite Hreg, decide_True|done|done| |].
      + intros y Hy. rewrite <- EA in Hy. rewrite Hregt by done. by apply Hok.
      + intros y vp Hy. rewrite <- EA in Hy. rewrite Hregt, Hreg, decide_True by done. intros H1 H2. destruct (Hb y Hy vp H1) as (d & Ed & _). cbn in H2. unfold has_page in H2. cbn in H2.
        pose proof (md_free _ _ _ _ _ _ _ _ _ _ _ HM (vp - p0) ltac:(lia)) as Hf. replace (p0 + (vp - p0)) with vp in Hf by lia. congruence.
      + rewrite <- EA. eapply StronglySorted_impl_elem; [|exact Ha]. intros a b Ha' Hb'. unfold apart_in. by rewrite !Hregt. }
  split; [|by split; [|split; [|split; [|intros y Hy; rewrite Hreg, decide_False]]]].
  apply (changes_inv s c U Φ (F ++ [v]) G i t x F t' x' s4); [done|done|done|]. split; try done.
  - do 6 (split; [done|]). unfold s4, pool. cbn [s_vma_pool upd_spaces upd_vnodes upd_vmas]. by rewrite length_insert.
  - split; [apply HM|done].
  - intros w [->|Hw]%Hin' j tj Hj Uj; [by apply (Hvt j tj)|]. intros Hwj. apply Hj. by apply (vi_trees _ _ _ _ _ _ _ _ HI j i tj t w).
  - intros j tj y w Hj Uj Ey _ Hpy Hw Hokw. assert (w ≠ v) by (intros ->; by apply (Hvt j tj)). cbn [s_vma_pool s_vma_nodes vm_pt s4 upd_spaces upd_vnodes upd_vmas].
    rewrite Hreg, decide_False by done. split; [done|]. split; [|by apply Hback]. apply Hfr. rewrite Hin'. intros [?|?]; [done|]. apply Hj. by apply (vi_trees _ _ _ _ _ _ _ _ HI j i tj t w).
  - intros q vp f. apply with_frames_own, (vi_own _ _ _ _ _ _ _ _ HI).
  - eapply with_frames_inj; [apply (vi_own _ _ _ _ _ _ _ _ HI)|apply HM|apply (vi_inj _ _ _ _ _ _ _ _ HI)].
  - intros w Hw. split; [|intros j tj _; apply (vi_vfree _ _ _ _ _ _ _ _ HI); set_solver]. rewrite Hin'. intros [->|Hwt]; [done|].
    by apply (vi_vfree _ _ _ _ _ _ _ _ HI w i t); [set_solver|done|].
  - intros w Hw. cbn [s_vma_nodes s4 upd_spaces upd_vnodes]. destruct (decide (w ∈ inorder t')) as [Hin|Hni]; [destruct Ht' as (_ & Hrep & _); by eapply rep_dom|].
    rewrite Hfr by done. by apply (vi_nodes _ _ _ _ _ _ _ _ HI).
Qed.

Lemma inv_regions s c U Φ F G i t : vm_inv s c U Φ F G → U !! i = Some t → regions s i = region_at (s_vma_pool s) <$> inorder t.
Proof. intros HI Ut. destruct (vi_space _ _ _ _ _ _ _ _ HI i t Ut) as [x Hx]. unfold regions. by rewrite (region_ids_tree _ _ _ _ _ _ _ Hx). Qed.

(** Why nothing was mapped, or not everything. *)
Definition map_refused (s : vms) (pgd p0 N perm paddr : Z) (fs : list Z) : Prop :=
  N = 0 ∨ s_vma_free_count s = 0 ∨ is_Some (pt_view (vm_pt s) pgd (p0 + Z.of_nat (length fs))) ∨ out_of_pages pgd p0 perm true paddr (vm_pt s).

(** What a mapping has done: [fs] are the frames of the pages it has mapped. *)
Record map_effect (s : vms) (c : clients) (pgd p0 perm paddr : Z) (fs : list Z) (s' : vms) : Prop := MapEffect {
  me_view : unchanged (c_roots c) (vmap (pt_view (vm_pt s)) pgd p0 (compute_pte_attr perm true) fs) (pt_view (vm_pt s'));
  me_frames : frames_ok paddr (c_others c) fs;
  me_free : ∀ j, 0 <= j < Z.of_nat (length fs) → pt_view (vm_pt s) pgd (p0 + j) = None
}.

Lemma mapped_effect s c pgd p0 perm paddr fs pt s' :
  mapped (c_roots c) (c_others c) (pt_view (vm_pt s)) pgd p0 (compute_pte_attr perm true) paddr fs pt → vm_pt s' = pt → map_effect s c pgd p0 perm paddr fs s'.
Proof. intros HM <-. split; apply HM. Qed.

Lemma holds_after_nil paddr c : Clients (c_roots c) (holds_after paddr [] (c_others c)) = c.
Proof. unfold holds_after. destruct c. by destruct (paddr =? 0). Qed.

Lemma mapped_nil s c U Φ F G pgd p0 attr paddr : vm_inv s c U Φ F G → mapped (c_roots c) (c_others c) (pt_view (vm_pt s)) pgd p0 attr paddr [] (vm_pt s).
Proof.
  intros HI. split.
  - rewrite holds_after_nil. apply (vi_pt _ _ _ _ _ _ _ _ HI).
  - intros r vp _ _. by rewrite vmap_nil.
  - unfold frames_ok. destruct (paddr =? 0); [split; [constructor|by intros f ?%elem_of_nil]|done].
  - cbn. lia.
Qed.

Lemma map_step s c U Φ F G i t x vaddr size flags type paddr :
  vm_inv s c U Φ F G → U !! i = Some t → (s_space_pool s).[i] = Some x → 0 <= vaddr < 2 ^ 64 → 0 <= paddr →
  let p0 := first_page vaddr in let N := pages_for size in let perm := perm_of_flags flags in
  p0 + N <= 2 ^ 36 →
  ∃ s' r fs Φ' F' t', vmspace_map (Some (PoolSpace i)) vaddr size flags type paddr s = Some (s', r) ∧ map_effect s c (vs_pgd x) p0 perm paddr fs s' ∧
    vm_inv s' (Clients (c_roots c) (holds_after paddr fs (c_others c))) (<[i := t']> U) Φ' F' G ∧ (∀ q vp f, Φ' q vp = Some f → Φ q vp = Some f ∨ paddr = 0 ∧ f ∈ fs) ∧
    ((r = 4096 * p0 ∧ 0 < N ∧ Z.of_nat (length fs) = N ∧ ∃ v A B, inorder t = A ++ B ∧ inorder t' = A ++ v :: B ∧ v ∈ F ∧
        region_at (s_vma_pool s') v = new_region p0 N flags type paddr ∧ ∀ y, y ≠ v → region_at (s_vma_pool s') y = region_at (s_vma_pool s) y) ∨
     (r = 0 ∧ map_refused s (vs_pgd x) p0 N perm paddr fs ∧ Z.of_nat (length fs) <= N ∧ t' = t ∧ s_vma_pool s' = s_vma_pool s)).
Proof using HL H48.
  intros HI Ut Ex Hva Hpa p0 N perm Hmax. assert (HN : 0 <= N) by apply pages_for_nonneg.
  assert (Hp0 : 0 <= p0) by (unfold p0, first_page; destruct (vaddr =? 0); [lia|apply Z.div_pos; lia]).
  destruct (vi_space _ _ _ _ _ _ _ _ HI i t Ut) as [x' Hx]. pose proof Hx as [Ex' Hp _ _ Hk _ _ _ _ _]. assert (x' = x) as -> by congruence.
  unfold vmspace_map. rewrite round_up_pages. fold N. rewrite <- (insert_id U i t Ut) in HI.
  destruct (Z.eqb_spec (4096 * N) 0) as [E0|HN0].
  { exists s, 0, [], Φ, F, t. split; [done|]. pose proof (mapped_nil _ _ _ _ _ _ (vs_pgd x) p0 (compute_pte_attr perm true) paddr HI) as HM.
    split; [by eapply mapped_effect|]. split; [by rewrite holds_after_nil|]. split; [by left|right]. split; [done|]. split; [left; lia|]. split; [done|done]. }
  cbn [get_space]. rewrite Ex, some_bind.
  assert (Ems : (if vaddr =? 0 then round_up (brk_current x) else Z.land vaddr (page_mask PAGE_SIZE_4K)) = 4096 * p0).
  { unfold p0, first_page. destruct (Z.eqb_spec vaddr 0); [by rewrite Hk|by apply page_round]. }
  rewrite Ems. rewrite (proj2 (Z.ltb_lt (4096 * p0) USER_SPACE_END)) by (change USER_SPACE_END with (2 ^ 64 - 2 ^ 48); lia).
  rewrite (u64_small (4096 * p0 + 4096 * N)) by lia. fold perm.
  destruct (map_run base n HL H48 (vm_pt s) (c_roots c) (c_others c) (pt_view (vm_pt s)) (vs_pgd x) p0 N perm true paddr (page_turns (4096 * N)) [] (vm_pt s))
    as (pt & ok & fs & Eloop & HM & Hres); [done|done|done|done|cbn; lia| |done|by eapply mapped_nil|constructor|].
  { cbn. unfold page_turns. change PAGE_SIZE_4K with 4096. rewrite Z.mul_comm, Z.div_mul by lia. lia. }
  change (4096 * Z.of_nat (length [])) with 0 in Eloop. rewrite Eloop, some_bind. pose proof (mapped_inv _ _ _ _ _ _ _ _ _ _ _ _ HI HM) as HI1. destruct ok; cbn [negb].
  2: { destruct Hres as [Hlt Hwhy]. exists (upd_vpt pt s), 0, fs, Φ, F, t. split; [done|]. split; [by eapply mapped_effect|]. split; [done|]. split; [by left|right].
       split; [done|]. split; [right; right; destruct Hwhy; [by left|by right]|]. split; [lia|done]. }
  cbn in Hres. unfold vma_alloc. cbn [s_vma_free_count upd_vpt s_vma_free_stack]. rewrite Z.gtb_ltb. destruct (Z.ltb_spec 0 (s_vma_free_count s)) as [Hc|Hc].
  - destruct (stack_pop _ _ _ _ (vi_vmas _ _ _ _ _ _ _ _ HI) Hc) as (v & F' & -> & Ev & _). rewrite Ev, !some_bind.
    rewrite (insert_id U i t Ut) in HI.
    destruct (insert_step s c U Φ F' G i t x p0 perm true paddr fs pt v flags type HI Ut Hx) as (pool & tr & s' & t' & A & B & E1 & E2 & E3 & Ept & HI' & EA & EB & Epool & Hreg); [done|lia|lia|done|].
    unfold new_region in E1. rewrite Hres in E1. replace (4096 * (p0 + N)) with (4096 * p0 + 4096 * N) in E1 by lia. cbn [upd_vfree s_vma_pool upd_vpt] in E1 |- *. rewrite E1, some_bind.
    cbn [upd_vfree s_vma_pool upd_vpt] in E2. rewrite E2, some_bind, E3, some_bind. exists s', (4096 * p0), fs, (with_frames paddr Φ (vs_pgd x) p0 fs), F', t'.
    split; [done|]. split; [by eapply mapped_effect|]. split; [done|]. split; [by apply with_frames_from|left]. split; [done|]. split; [lia|]. split; [done|]. exists v, A, B. split; [done|]. split; [done|]. split; [set_solver|].
    rewrite Epool. split; [|done]. apply zupdate_Some in E1 as [Hv ->]. rewrite region_at_insert by done. rewrite decide_True by done. unfold new_region. f_equal. lia.
  - rewrite some_bind. cbn [vm_pt upd_vpt]. destruct (rollback_run base n HL H48 _ _ _ (vs_pgd x) p0 perm true paddr fs pt Hp Hp0 ltac:(lia) HM) as (pt' & Er & HM'). rewrite Hres in Er. rewrite Er, some_bind.
    exists (upd_vpt pt' s), 0, [], Φ, F, t. split; [done|]. split; [by eapply mapped_effect|]. split; [by apply (mapped_inv _ _ _ _ _ _ _ _ _ _ _ _ HI HM')|]. split; [by left|right].
    split; [done|]. split; [right; left; pose proof (so_count _ _ _ _ (vi_vmas _ _ _ _ _ _ _ _ HI)); lia|]. split; [cbn; lia|done].
Qed.

(** ** Unmapping *)

Lemma covers_unique pool L a b vaddr : StronglySorted (apart_in pool) L → a ∈ L → b ∈ L → covers (region_at pool a) vaddr → covers (region_at pool b) vaddr → a = b.
Proof.
  unfold covers. intros Hs. induction Hs as [|y L Hs IH Hy]; [by intros ?%elem_of_nil|]. rewrite Forall_forall in Hy.
  intros [->|Ha]%elem_of_cons [->|Hb]%elem_of_cons; [done| | |by apply IH].
  - specialize (Hy b Hb). unfold apart_in in Hy. lia.
  - specialize (Hy a Ha). unfold apart_in in Hy. lia.
Qed.

(** The frames of [N] pages from [p0] on. *)
Definition frames_of (Φ : Z → Z → option Z) (pgd p0 N : Z) : list Z := (λ j, default 0 (Φ pgd (p0 + j))) <$> seqZ 0 N.

Lemma frames_of_lookup Φ pgd p0 N j f : frames_of Φ pgd p0 N !! j = Some f → Z.of_nat j < N ∧ f = default 0 (Φ pgd (p0 + Z.of_nat j)).
Proof. unfold frames_of. intros (k & -> & (-> & Hj)%lookup_seqZ)%list_lookup_fmap_Some. done. Qed.

Definition without_frames (Φ : Z → Z → option Z) (pgd p0 N : Z) : Z → Z → option Z := λ r vp, if in_range pgd p0 N r vp then None else Φ r vp.

(** All pages of an anonymous region are released. *)
Lemma release_region s c U Φ F G i t x v p0 N : vm_inv s c U Φ F G → U !! i = Some t → space_ok (c_roots c) (pt_view (vm_pt s)) Φ s i t x → v ∈ inorder t →
  let r := region_at (s_vma_pool s) v in vma_start r = 4096 * p0 → vma_end r = 4096 * (p0 + N) → phys_base r = 0 →
  ∃ pt, release_range (page_turns (4096 * N)) true (vs_pgd x) (4096 * p0) 0 (4096 * N) (vm_pt s) = Some pt ∧
    pt_good base n pt (Clients (c_roots c) (give_all (frames_of Φ (vs_pgd x) p0 N) (c_others c))) ∧
    unchanged (c_roots c) (vclear (pt_view (vm_pt s)) (vs_pgd x) p0 N) (pt_view pt).
Proof using HL H48.
  intros HI Ut Hx Hv r Hst Hen Hph. pose proof (sk_region _ _ _ _ _ _ _ Hx v Hv) as Hok. pose proof (sk_backed _ _ _ _ _ _ _ Hx v Hv) as Hb. fold r in Hok, Hb.
  assert (HN : 0 < N ∧ 0 <= p0 ∧ p0 + N <= 2 ^ 36) by (unfold region_ok in Hok; lia). set (fs := frames_of Φ (vs_pgd x) p0 N).
  assert (Hlen : Z.of_nat (length fs) = N) by (unfold fs, frames_of; rewrite length_fmap, length_seqZ; lia).
  assert (Hfs : ∀ j f, fs !! j = Some f → ∃ d, pt_view (vm_pt s) (vs_pgd x) (p0 + Z.of_nat j) = Some (LPage d) ∧ PTE_PADDR d = f ∧ Φ (vs_pgd x) (p0 + Z.of_nat j) = Some f).
  { intros j f [Hj ->]%frames_of_lookup. destruct (Hb (p0 + Z.of_nat j)) as (d & Ed & Hd); [unfold has_page; lia|]. rewrite (Hd Hph). cbn. eauto. }
  assert (Hdiv : (4096 * p0 + 0) / 4096 = p0) by (rewrite Z.add_0_r, Z.mul_comm, Z.div_mul; lia).
  destruct (release_run base n HL H48 true (vs_pgd x) (4096 * p0) fs (page_turns (4096 * N)) 0 (vm_pt s) c) as (pt & E & HG & Hun);
    [apply (vi_pt _ _ _ _ _ _ _ _ HI)|apply (sk_pgd _ _ _ _ _ _ _ Hx)|lia|lia|exists p0; lia|lia| | | |].
  - intros j f Hj. rewrite Hdiv. destruct (Hfs j f Hj) as (d & ? & ? & _). eauto.
  - intros _. split.
    + apply NoDup_alt. intros j k f Hj Hk. destruct (Hfs j f Hj) as (_ & _ & _ & Fj). destruct (Hfs k f Hk) as (_ & _ & _ & Fk).
      destruct (vi_inj _ _ _ _ _ _ _ _ HI _ _ _ _ _ Fj Fk). lia.
    + intros f (j & Hj)%list_elem_of_lookup. destruct (Hfs j f Hj) as (_ & _ & _ & Fj). by eapply (vi_own _ _ _ _ _ _ _ _ HI).
  - unfold page_turns. change PAGE_SIZE_4K with 4096. rewrite Z.mul_comm, Z.div_mul by lia. lia.
  - exists pt. rewrite Hlen in *. rewrite Hdiv in Hun. rewrite Z.add_0_l in E. done.
Qed.

Lemma unmap_step s c U Φ F G i x k cl l v r vaddr size :
  let t := zip k (Node cl l v r) in let w := region_at (s_vma_pool s) v in let N := pages_for size in
  vm_inv s c U Φ F G → U !! i = Some t → (s_space_pool s).[i] = Some x → deletable k cl l r = true →
  vma_start w = vaddr → vma_end w = vaddr + 4096 * N → phys_base w = 0 →
  let p0 := vaddr / 4096 in let fs := frames_of Φ (vs_pgd x) p0 N in
  ∃ s' t' A B, vmspace_unmap (Some (PoolSpace i)) vaddr size s = Some (s', KERNEL_OK) ∧
    vm_inv s' (Clients (c_roots c) (give_all fs (c_others c))) (<[i := t']> U) (without_frames Φ (vs_pgd x) p0 N) (F ++ [v]) G ∧
    unchanged (c_roots c) (vclear (pt_view (vm_pt s)) (vs_pgd x) p0 N) (pt_view (vm_pt s')) ∧
    inorder t = A ++ v :: B ∧ inorder t' = A ++ B ∧ s_vma_pool s' = s_vma_pool s.
Proof using HL H48.
  intros t w N HI Ut Ex Hd Hst Hen Hph p0 fs. destruct (vi_space _ _ _ _ _ _ _ _ HI i t Ut) as [x' Hx]. pose proof Hx as [Ex' Hp (Ht & Hrb & Hs) Hc Hk Hi Hok Hb Ha Has].
  assert (x' = x) as -> by congruence. assert (HA : inorder t = (before k ++ inorder l) ++ v :: inorder r ++ after k) by (unfold t; rewrite inorder_zip; cbn; by list_simplifier).
  assert (Hv : v ∈ inorder t) by (rewrite HA; set_solver). pose proof (Hok v Hv) as Hokv. fold w in Hokv. destruct Hokv as (Hr1 & Hr2 & [q Hq] & _).
  assert (Hp0 : vaddr = 4096 * p0) by (unfold p0; rewrite <- Hst, Hq, Z.div_mul; lia).
  destruct (release_region s c U Φ F G i t x v p0 N HI Ut Hx Hv) as (pt & Er & HG & Hun); [by rewrite <- Hp0|fold w; lia|done|]. fold fs in HG.
  destruct (find_run _ _ _ _ _ _ _ vaddr Hx) as (o & Ef & Ho). assert (o = Some v) as ->.
  { assert (Hcov : covers w vaddr) by (unfold covers; lia). destruct o as [v'|]; [|by destruct (Ho v Hv)]. f_equal. destruct Ho as [Hv' Hc']. by eapply covers_unique. }
  unfold vmspace_unmap. rewrite round_up_pages, Ef, some_bind. fold N. cbn [get_space]. rewrite Ex, some_bind. rewrite <- Hp0 in Er. rewrite Er, some_bind.
  destruct (rb_delete_spec (tree_of x (upd_vpt pt s)) k cl l v r Ht Hrb Hd) as (tr & t' & Ed & Ht' & Hrb' & EB & Hfr). rewrite Ed, some_bind.
  pose proof (rb_delete_nodes _ _ _ Ed) as Hdom. cbn [tree_of rb_nodes upd_vpt s_vma_nodes] in Hdom.
  set (x' := set_regions (u32 (vma_count x - 1)) (rb_root tr) x). pose proof (zlookup_Some_lt _ _ _ Ex) as Hir.
  set (s3 := upd_spaces (<[Z.to_nat i := x']> (s_space_pool s)) (upd_vnodes (rb_nodes tr) (upd_vpt pt s))).
  assert (Ew : with_tree (PoolSpace i) (u32 (vma_count x - 1)) tr (upd_vpt pt s) = Some s3).
  { unfold with_tree, get_space, put_space, s3. cbn [s_space_pool upd_vnodes upd_vpt]. rewrite Ex, some_bind. by rewrite zupdate_total. }
  rewrite Ew, some_bind. destruct (stack_push _ _ _ _ v (vi_vmas _ _ _ _ _ _ _ _ HI)) as (Hcnt & st' & Est & HSt); [|by apply Hi|].
  { intros Hin. by apply (vi_vfree _ _ _ _ _ _ _ _ HI v i t Hin Ut). }
  unfold vma_free. cbn [s_vma_free_stack s_vma_free_count s3 upd_spaces upd_vnodes upd_vpt]. rewrite Est, !some_bind.
  pose proof (so_count _ _ _ _ (vi_vmas _ _ _ _ _ _ _ _ HI)) as Hcount. change CONFIG_MAX_VMAS with 64 in Hcnt. rewrite u32_small by lia.
  set (s4 := upd_vfree st' (s_vma_free_count s + 1) s3).
  exists s4, t', (before k ++ inorder l), (inorder r ++ after k). split; [done|]. split; [|done].
  assert (Hsub : ∀ y, y ∈ inorder t' → y ∈ inorder t ∧ y ≠ v).
  { intros y Hy. destruct Ht as (_ & _ & Hnd). fold t in Hnd. rewrite HA in Hnd |- *. rewrite EB in Hy. apply NoDup_app in Hnd as (_ & N1 & [N2 _]%NoDup_cons). split; [set_solver|].
    intros ->. apply elem_of_app in Hy as [Hy|Hy]; [apply (N1 v Hy); by left|done]. }
  assert (Hback : ∀ q y, q ∈ c_roots c → region_ok y → (q = vs_pgd x → ∀ vp, has_page y vp → has_page w vp → False) →
    backed (pt_view (vm_pt s)) Φ q y → backed (pt_view pt) (without_frames Φ (vs_pgd x) p0 N) q y).
  { intros q0 y Hq' Hy Hdis Hby. apply (backed_ext (pt_view (vm_pt s)) _ Φ); [done|]. intros vp Hvp. rewrite (Hun q0 vp Hq' (has_page_range y vp Hy Hvp)). unfold vclear, without_frames.
    destruct (in_range _ _ _ _ _) eqn:Ein; [|done]. exfalso. apply in_range_true in Ein as [-> Hin]. eapply Hdis; [done|exact Hvp|]. unfold has_page. lia. }
  apply (changes_inv s c U Φ F G i t x _ t' x' s4); [done|done|done|]. split; try done.
  - split; [by apply zlookup_insert_eq|done|split; [by destruct tr|split; [done|]]| |done| | | | |done].
    + unfold sorted in *. fold t in Hs. rewrite HA in Hs. rewrite EB. by eapply sorted_delete.
    + cbn [x' set_regions vma_count]. rewrite Hc, HA, EB, !length_app. cbn. rewrite !length_app. rewrite u32_small; [lia|].
      destruct Ht as (_ & _ & Hnd). pose proof (nodup_range _ _ Hnd Hi) as Hlen. change CONFIG_MAX_VMAS with 64 in Hlen. fold t in Hlen. rewrite HA, !length_app in Hlen. cbn in Hlen. rewrite !length_app in Hlen. lia.
    + intros y [Hy _]%Hsub. by apply Hi.
    + intros y [Hy _]%Hsub. by apply Hok.
    + intros y [Hy Hne]%Hsub. apply Hback; [done|by apply Hok| |by apply Hb]. intros _ vp H1 H2. apply Hne.
      apply (covers_unique (s_vma_pool s) (inorder t) y v (4096 * vp)); [done|done|done|exact H1|exact H2].
    + rewrite EB. fold t in Ha. rewrite HA in Ha. apply StronglySorted_app in Ha as (C & S1 & S2). apply StronglySorted_inv in S2 as [S2 _]. apply StronglySorted_app.
      split; [|done]. intros a b Ha' Hb'. apply C; [done|by right].
  - intros y [Hy _]%Hsub j tj Hj Uj Hyj. apply Hj. by apply (vi_trees _ _ _ _ _ _ _ _ HI j i tj t y).
  - intros j tj y z Hj Uj Ey Hne Hpy Hz Hokz. split; [done|]. split; [|apply Hback; [done|done|intros E; by destruct (Hne E)]]. apply Hfr. rewrite <- HA. intros Hzt. apply Hj.
    by apply (vi_trees _ _ _ _ _ _ _ _ HI j i tj t z).
  - intros q0 vp f. unfold without_frames. destruct (in_range _ _ _ _ _) eqn:Ein; [done|]. intros Hf. cbn [c_others]. rewrite give_all_lookup. rewrite decide_False; [by eapply (vi_own _ _ _ _ _ _ _ _ HI)|].
    intros (j & [Hj ->]%frames_of_lookup)%list_elem_of_lookup. destruct (Hb v Hv (p0 + Z.of_nat j)) as (d & _ & Hd'); [fold w; unfold has_page; lia|]. rewrite (Hd' Hph) in Hf. cbn in Hf.
    destruct (vi_inj _ _ _ _ _ _ _ _ HI _ _ _ _ _ Hf (Hd' Hph)) as [-> ->]. apply not_true_iff_false in Ein. apply Ein. apply in_range_true. lia.
  - intros q0 vp q1 vp1 f. unfold without_frames. destruct (in_range _ _ _ q0 _), (in_range _ _ _ q1 _); try done. apply (vi_inj _ _ _ _ _ _ _ _ HI).
  - intros y [Hy| ->%list_elem_of_singleton]%elem_of_app.
    + split; [intros [Hyt _]%Hsub; by apply (vi_vfree _ _ _ _ _ _ _ _ HI y i t)|]. intros j tj _. by apply (vi_vfree _ _ _ _ _ _ _ _ HI).
    + split; [by intros [_ ?]%Hsub|]. intros j tj Hj Uj Hvj. apply Hj. by apply (vi_trees _ _ _ _ _ _ _ _ HI j i tj t v).
  - intros y Hy. cbn [s_vma_nodes s4 s3 upd_vfree upd_spaces upd_vnodes]. apply elem_of_dom. rewrite Hdom. apply elem_of_dom. by apply (vi_nodes _ _ _ _ _ _ _ _ HI).
Qed.
End steps.
