(* ===== verification/VmSpaceCalls.v ===== *)
(** * Address spaces: creation, protection and the other calls *)

From stdpp Require Import sorting.
From S2P Require Import Prelude KList PhysMem Buddy BuddyInv BuddyTheorems PageTable PageTableInv PageTableOps PageTableTheorems.
From S2P Require Import Rbtree RbtreeInv RbtreeSteps RbtreeInsert RbtreeWalk RbtreeDelete RbtreeTheorems VmSpace VmPages VmSpaceInv VmSpaceSteps.

Set Default Goal Selector "!".

#[local] Arguments Z.pow : simpl never.
#[local] Arguments Z.mul : simpl never.

#[export] Instance covers_dec r vaddr : Decision (covers r vaddr).
Proof. unfold covers. apply _. Defined.

Lemma paddr_reprotect e a : Z.land a PADDR_MASK = 0 → PTE_PADDR (PTE_MAKE (PTE_PADDR e) a) = PTE_PADDR e.
Proof. intros Ha. rewrite pte_make_paddr by done. unfold PTE_PADDR. by rewrite <- Z.land_assoc, Z.land_diag. Qed.

Section calls.
Context (base n : Z) (HL : mem_layout base n) (H48 : base + n * CONFIG_PAGE_SIZE <= 2 ^ 48).
Notation vm_inv := (vm_inv base n).

(** ** Protection *)

(** The flags of one region change. *)
Lemma flags_inv s c U Φ F G v flags : vm_inv s c U Φ F G → 0 <= v < CONFIG_MAX_VMAS →
  let pool := <[Z.to_nat v := set_vma_flags flags (region_at (s_vma_pool s) v)]> (s_vma_pool s) in vm_inv (upd_vmas pool s) c U Φ F G.
Proof.
  intros HI Hv pool. pose proof HI as [_ I2 _ _ _ _ _ _ _ _ _ _ _ (L1 & L2 & L3 & L4) _ _].
  assert (Hreg : ∀ w, let r := region_at pool w in let r0 := region_at (s_vma_pool s) w in vma_start r = vma_start r0 ∧ vma_end r = vma_end r0 ∧ phys_base r = phys_base r0).
  { intros w. unfold pool. rewrite region_at_insert by lia. destruct (decide (w = v)) as [->|]; done. }
  destruct HI. split; try done.
  - intros i t Ut. destruct (I2 i t Ut) as [x [Hx Hp (Ht & Hrb & Hs) Hc Hk Hi Hok Hb Ha Has]]. exists x.
    split; [done|done|split; [done|split; [done|]]|done|done|done| | | |done]; cbn [s_vma_pool upd_vmas].
    + unfold sorted in *. eapply StronglySorted_impl_elem; [|exact Hs]. intros a b _ _. unfold vma_less. destruct (Hreg a) as (-> & _), (Hreg b) as (-> & _). done.
    + intros w Hw. destruct (Hok w Hw) as (? & ? & ? & ?). unfold region_ok. destruct (Hreg w) as (-> & -> & _). done.
    + intros w Hw vp Hvp. destruct (Hreg w) as (E1 & E2 & E3). unfold has_page in Hvp. rewrite E1, E2 in Hvp. rewrite E3. by apply Hb.
    + eapply StronglySorted_impl_elem; [|exact Ha]. intros a b _ _. unfold apart_in. destruct (Hreg a) as (_ & -> & _), (Hreg b) as (-> & _). done.
  - cbn. unfold pool. by rewrite length_insert.
Qed.

Lemma protect_step s c U Φ F G i t x vaddr size flags : vm_inv s c U Φ F G → U !! i = Some t → (s_space_pool s).[i] = Some x →
  0 <= vaddr → vaddr + 4096 * pages_for size <= 2 ^ 48 →
  ∃ s', vmspace_protect (Some (PoolSpace i)) vaddr size flags s = Some (s', KERNEL_OK) ∧ vm_inv s' c U Φ F G ∧
    unchanged (c_roots c) (vprotect (pt_view (vm_pt s)) (vs_pgd x) (vaddr / 4096) (pages_for size) (perm_of_flags flags)) (pt_view (vm_pt s')) ∧
    ∀ w, region_at (s_vma_pool s') w = if decide (w ∈ inorder t ∧ covers (region_at (s_vma_pool s) w) vaddr) then set_vma_flags flags (region_at (s_vma_pool s) w) else region_at (s_vma_pool s) w.
Proof using HL H48.
  intros HI Ut Ex Hva Hmax. destruct (vi_space _ _ _ _ _ _ _ _ HI i t Ut) as [x' Hx]. pose proof Hx as [Ex' Hp _ _ _ Hi _ _ Ha _]. assert (x' = x) as -> by congruence.
  unfold vmspace_protect. rewrite round_up_pages. cbn [get_space]. rewrite Ex, some_bind. pose proof (pages_for_nonneg size) as HN.
  destruct (protect_run base n HL H48 (vs_pgd x) vaddr (perm_of_flags flags) (pages_for size) (page_turns (4096 * pages_for size)) 0 (vm_pt s) c) as (pt & E & HG & Hun);
    [apply (vi_pt _ _ _ _ _ _ _ _ HI)|done|done|lia|done| |].
  { unfold page_turns. change PAGE_SIZE_4K with 4096. rewrite Z.mul_comm, Z.div_mul by lia. lia. }
  rewrite Z.mul_0_r, Z.add_0_r, Z.sub_0_r in *. rewrite E, some_bind.
  assert (HI1 : vm_inv (upd_vpt pt s) c U Φ F G).
  { apply (inv_pt base n s c U Φ F G pt c Φ HI HG); [done| |apply (vi_own _ _ _ _ _ _ _ _ HI)|apply (vi_inj _ _ _ _ _ _ _ _ HI)].
    intros j tj y v Uj Ey Hv Hok Hpy Hb vp Hvp. destruct (Hb vp Hvp) as (d & Ed & Hd). rewrite (Hun (vs_pgd y) vp Hpy (has_page_range _ _ Hok Hvp)). unfold vprotect. rewrite Ed.
    destruct (in_range _ _ _ _ _); cbn [reprotect]; [|by exists d]. eexists. split; [done|]. rewrite paddr_reprotect by apply compute_pte_attr_ok. done. }
  destruct (vi_space _ _ _ _ _ _ _ _ HI1 i t Ut) as [x1 Hx1]. destruct (find_run _ _ _ _ _ _ _ vaddr Hx1) as (o & Ef & Ho). cbn [s_vma_pool upd_vpt] in Ho. rewrite Ef, some_bind.
  destruct o as [v|].
  - destruct Ho as [Hv Hc]. destruct (vi_lengths _ _ _ _ _ _ _ _ HI1) as (L1 & _). cbn [s_vma_pool upd_vpt] in *. pose proof (Hi v Hv) as Hvr.
    destruct (proj2 (zlookup_is_Some (s_vma_pool s) v)) as [y Ey]; [lia|]. rewrite Ey, some_bind, zupdate_total, !some_bind by lia.
    assert (y = region_at (s_vma_pool s) v) as -> by (unfold region_at; by rewrite Ey). eexists. split; [done|]. split; [by apply (flags_inv _ _ _ _ _ _ v flags HI1)|]. split; [done|].
    intros w. cbn [s_vma_pool upd_vmas]. rewrite region_at_insert by lia. destruct (decide (w = v)) as [->|Hne]; [by rewrite decide_True|]. rewrite decide_False; [done|].
    intros [Hw Hcw]. apply Hne. by eapply covers_unique.
  - rewrite some_bind. eexists. split; [done|]. split; [done|]. split; [done|]. intros w. rewrite decide_False; [done|]. intros [Hw Hcw]. by apply (Ho w).
Qed.

(** ** Creation *)

(** The ASIDs, the free slots and the slots not in use change. *)
Lemma inv_slots s c U Φ F G bm st cnt G' sp : vm_inv s c U Φ F G → length bm = 32%nat →
  (∀ i x, is_Some (U !! i) → (s_space_pool s).[i] = Some x → asid_bit bm (vs_asid x) = true) → stack_ok st cnt CONFIG_MAX_VM_SPACES G' → (∀ i, i ∈ G' → U !! i = None) →
  length sp = length (s_space_pool s) → (∀ i, is_Some (U !! i) → sp.[i] = (s_space_pool s).[i]) →
  vm_inv (upd_sfree st cnt (upd_spaces sp (upd_asids bm s))) c U Φ F G'.
Proof.
  intros HI Hl Hbits Hst Hfree Hlen Hsp. pose proof HI as [I1 I2 I3 I4 I5 I6 I7 I8 I9 I10 I11 I12 I13 (L1 & L2 & L3 & L4) I15 I16]. split; try done.
  - intros i t Ut. destruct (I2 i t Ut) as [x Hx]. exists x. eapply space_ok_ext; [exact Hx|apply Hx| |done|done]. cbn. rewrite Hsp by eauto. apply Hx.
  - intros i j x y Ui Uj. cbn. rewrite !Hsp by done. by apply I3.
  - intros i j x y Ui Uj. cbn. rewrite !Hsp by done. by apply I4.
  - intros i x Ui. cbn. rewrite Hsp by done. by apply Hbits.
  - cbn. by rewrite Hlen.
Qed.

(** A space in a slot that was free. *)
Lemma inv_fresh s c U Φ F G i pgd asid pt : vm_inv s c U Φ F G → U !! i = None → 0 <= i < CONFIG_MAX_VM_SPACES → pt_good base n pt (Clients ({[pgd]} ∪ c_roots c) (c_others c)) →
  pgd ∉ c_roots c → unchanged (c_roots c) (pt_view (vm_pt s)) (pt_view pt) → 1 <= asid < 256 → asid_bit (s_asid_bitmap s) asid = true → i ∉ G →
  (∀ j y, is_Some (U !! j) → (s_space_pool s).[j] = Some y → vs_asid y ≠ asid) →
  vm_inv (upd_spaces (<[Z.to_nat i := VmSpaceT pgd asid 0 None USER_SPACE_BASE USER_SPACE_BASE 0 1]> (s_space_pool s)) (upd_vpt pt s))
    (Clients ({[pgd]} ∪ c_roots c) (c_others c)) (<[i := Leaf]> U) Φ F G.
Proof.
  intros HI Ui Hi HG Hp Hun Ha Hbit HiG Hasid. pose proof HI as [I1 I2 I3 I4 I5 I6 I7 I8 I9 I10 I11 I12 I13 (L1 & L2 & L3 & L4) I15 I16].
  set (x := VmSpaceT pgd asid 0 None USER_SPACE_BASE USER_SPACE_BASE 0 1). set (sp := <[Z.to_nat i := x]> (s_space_pool s)).
  assert (Exi : sp.[i] = Some x) by (apply zlookup_insert_eq; lia).
  assert (Hj : ∀ j, j ≠ i → sp.[j] = (s_space_pool s).[j]) by (intros j Hne; unfold sp; by rewrite zlookup_insert_ne by (lia || done)).
  assert (Hroot : ∀ j y, is_Some (U !! j) → (s_space_pool s).[j] = Some y → vs_pgd y ∈ c_roots c).
  { intros j y [t Uj] Ey. destruct (I2 j t Uj) as [y' Hy]. assert (y' = y) as -> by (pose proof (sk_x _ _ _ _ _ _ _ Hy); congruence). apply Hy. }
  assert (HU : ∀ j, is_Some (<[i := Leaf]> U !! j) → j = i ∨ j ≠ i ∧ is_Some (U !! j)).
  { intros j. destruct (decide (j = i)) as [->|]; [by left|rewrite lookup_insert_ne by done; by right]. }
  split; try done.
  - intros j t. destruct (decide (j = i)) as [->|Hne]; [rewrite lookup_insert_eq; intros [= <-]|rewrite lookup_insert_ne by done].
    + exists x. split; try (done || by intros v ?%elem_of_nil); [cbn [c_roots]; set_solver| |constructor].
      split; [split; [done|split; [done|constructor]]|]. split; [split; [done|by exists 0%nat]|constructor].
    + intros Uj. destruct (I2 j t Uj) as [y Hy]. exists y. eapply space_ok_ext; [exact Hy|pose proof (sk_pgd _ _ _ _ _ _ _ Hy); cbn; set_solver|cbn; rewrite Hj by done; apply Hy|done|].
      intros v Hv Hb. eapply backed_ext; [exact Hb|]. intros vp Hvp. split; [|done]. apply Hun; [apply Hy|]. eapply has_page_range; [by apply (sk_region _ _ _ _ _ _ _ Hy)|done].
  - intros j k y z [->|[Hj1 Uj]]%HU [->|[Hk1 Uk]]%HU; cbn; [done| | |rewrite !Hj by done; by apply I3].
    + rewrite Exi, Hj by done. intros [= <-] Ez E. cbn in E. subst pgd. by apply Hroot in Ez.
    + rewrite Exi, Hj by done. intros Ey [= <-] E. cbn in E. subst pgd. by apply Hroot in Ey.
  - intros j k y z [->|[Hj1 Uj]]%HU [->|[Hk1 Uk]]%HU; cbn; [done| | |rewrite !Hj by done; by apply I4].
    + rewrite Exi, Hj by done. intros [= <-] Ez E. by destruct (Hasid k z Uk Ez).
    + rewrite Exi, Hj by done. intros Ey [= <-] E. by destruct (Hasid j y Uj Ey).
  - intros j y [->|[Hj1 Uj]]%HU; cbn; [rewrite Exi; by intros [= <-]|rewrite Hj by done; by apply I5].
  - intros j k t t' v. destruct (decide (j = i)) as [->|Hj1], (decide (k = i)) as [->|Hk1]; rewrite ?lookup_insert_eq, ?lookup_insert_ne by done; [done| | |apply I7].
    + by intros [= <-] _ ?%elem_of_nil.
    + by intros _ [= <-] _ ?%elem_of_nil.
  - intros v j t Hv. destruct (decide (j = i)) as [->|Hj1]; [rewrite lookup_insert_eq; by intros [= <-] ?%elem_of_nil|rewrite lookup_insert_ne by done; by apply I11].
  - intros j Hjg. rewrite lookup_insert_ne by (by intros ->). by apply I13.
  - cbn. unfold sp. by rewrite length_insert.
Qed.

(** Nothing is created: the ASID and the slot go back. *)
Lemma create_undo s c U Φ F G bm a i sp st cnt : vm_inv s c U Φ F G → asid_bit (s_asid_bitmap s) a = false → 1 <= a < 256 → length bm = 32%nat →
  (∀ j, 0 <= j < 256 → asid_bit bm j = (j =? a) || asid_bit (s_asid_bitmap s) j) →
  stack_ok st cnt CONFIG_MAX_VM_SPACES G → length sp = length (s_space_pool s) → (∀ j, j ≠ i → sp.[j] = (s_space_pool s).[j]) → U !! i = None →
  ∃ s', asid_free a (upd_sfree st cnt (upd_spaces sp (upd_asids bm s))) = Some s' ∧ vm_inv s' c U Φ F G ∧ vm_pt s' = vm_pt s ∧
    ∀ j, is_Some (U !! j) → regions s' j = regions s j ∧ (s_space_pool s').[j] = (s_space_pool s).[j].
Proof.
  intros HI Hfree Ha Hl Hbits Hst Hlen Hsp Ui. destruct (asid_free_run a (upd_sfree st cnt (upd_spaces sp (upd_asids bm s))) Hl Ha) as (bm' & E & Hl' & Hbits').
  exists (upd_asids bm' (upd_sfree st cnt (upd_spaces sp (upd_asids bm s)))). split; [done|].
  assert (Hne : ∀ j, is_Some (U !! j) → j ≠ i) by (intros j [t Uj] ->; congruence). split; [|split; [done|]].
  - apply (inv_slots s c U Φ F G bm' st cnt G sp HI Hl'); [|done|apply (vi_sfree _ _ _ _ _ _ _ _ HI)|done|intros j Uj; apply Hsp; auto].
    intros j x Uj Ex. pose proof (vi_bits _ _ _ _ _ _ _ _ HI j x Uj Ex) as Hb. destruct Uj as [t Uj]. destruct (vi_space _ _ _ _ _ _ _ _ HI j t Uj) as [x' Hx].
    assert (x' = x) as -> by (pose proof (sk_x _ _ _ _ _ _ _ Hx); congruence). pose proof (sk_asid _ _ _ _ _ _ _ Hx). rewrite Hbits' by lia. cbn [s_asid_bitmap upd_sfree upd_spaces upd_asids].
    rewrite Hbits, Hb, orb_true_r, andb_true_r by lia. apply negb_true_iff, Z.eqb_neq. congruence.
  - intros j Uj. unfold regions, region_ids. cbn. by rewrite Hsp by auto.
Qed.

Lemma create_space_step s c U Φ F G : vm_inv s c U Φ F G →
  ∃ s' r, vmspace_create true s = Some (s', r) ∧
    ((r = (- ENOMEM, None) ∧ vm_inv s' c U Φ F G ∧ vm_pt s' = vm_pt s ∧
       ∀ j, is_Some (U !! j) → regions s' j = regions s j ∧ (s_space_pool s').[j] = (s_space_pool s).[j]) ∨
     ∃ i pgd x G', r = (KERNEL_OK, Some (PoolSpace i)) ∧ U !! i = None ∧ pgd ∉ c_roots c ∧ (s_space_pool s').[i] = Some x ∧ vs_pgd x = pgd ∧
       vm_inv s' (Clients ({[pgd]} ∪ c_roots c) (c_others c)) (<[i := Leaf]> U) Φ F G' ∧ unchanged (c_roots c) (pt_view (vm_pt s)) (pt_view (vm_pt s')) ∧
       (∀ vp, pt_view (vm_pt s') pgd vp = None) ∧ s_vma_pool s' = s_vma_pool s ∧ ∀ j, is_Some (U !! j) → (s_space_pool s').[j] = (s_space_pool s).[j]).
Proof using HL H48.
  intros HI. pose proof (vi_bitmap _ _ _ _ _ _ _ _ HI) as Hbl. destruct (vi_lengths _ _ _ _ _ _ _ _ HI) as (L1 & L2 & _). unfold vmspace_create, asid_alloc. cbn [negb].
  assert (Hloop := asid_loop_run (Z.to_nat ASID_MAX) ASID_FIRST_VALID s Hbl). change ASID_FIRST_VALID with 1 in *. rewrite Z2Nat.id in Hloop by (change ASID_MAX with 256; lia).
  destruct Hloop as [[E _]|(a & bm & Ha & E & Hfree & Hl & Hbits)]; [lia|change ASID_MAX with 256; lia| |]; rewrite E, some_bind.
  { eexists _, _. split; [done|left]. done. }
  rewrite (proj2 (Z.eqb_neq a ASID_INVALID)) by (change ASID_INVALID with 0; lia).
  pose proof (vi_spaces _ _ _ _ _ _ _ _ HI) as HSt. unfold space_take. cbn [s_space_free_count s_space_free_stack upd_asids]. rewrite Z.gtb_ltb.
  destruct (Z.ltb_spec 0 (s_space_free_count s)) as [Hc|Hc].
  2: { rewrite some_bind. destruct (create_undo s c U Φ F G bm a (-1) (s_space_pool s) (s_space_free_stack s) (s_space_free_count s) HI) as (s' & E' & HI' & Hpt & Hr); try done.
       - destruct (U !! (-1)) eqn:E1; [|done]. destruct (vi_space _ _ _ _ _ _ _ _ HI _ _ E1) as [x Hx]. pose proof (zlookup_Some_lt _ _ _ (sk_x _ _ _ _ _ _ _ Hx)). lia.
       - change (upd_sfree _ _ (upd_spaces _ (upd_asids bm s))) with (upd_asids bm s) in E'. rewrite E', some_bind. eexists _, _. split; [done|left]. done. }
  destruct (stack_pop _ _ _ _ HSt Hc) as (i & G' & EG & Ei & HSt' & HiG & Hir). rewrite Ei, !some_bind. cbn [vm_pt upd_sfree upd_asids].
  assert (Ui : U !! i = None) by (apply (vi_sfree _ _ _ _ _ _ _ _ HI); rewrite EG; apply elem_of_app; right; by left).
  destruct (proj2 (zlookup_is_Some (s_space_pool s) i)) as [x Ex]; [lia|].
  pose proof (vi_pt _ _ _ _ _ _ _ _ HI) as HG0. pose proof HG0 as (T & HT & _).
  assert (Hsp : ∀ y j, j ≠ i → (<[Z.to_nat i := y]> (s_space_pool s)).[j] = (s_space_pool s).[j]) by (intros y j Hj; by rewrite zlookup_insert_ne by (lia || done)).
  destruct (new_root_spec base n HL H48 (vm_pt s) T _ HT) as [[E0 _]|(pt & pgd & E0 & Hpgd & _)]; rewrite E0, some_bind;
    cbn [get_space put_space s_space_pool upd_sfree upd_asids upd_vpt]; rewrite Ex, some_bind, zupdate_total, !some_bind by lia; cbn [Z.eqb].
  - unfold space_give. cbn [s_space_free_count s_space_free_stack upd_spaces upd_vpt upd_sfree]. destruct (stack_push _ _ _ _ i HSt' HiG Hir) as (Hcnt & st & Est & HSt2).
    rewrite (proj2 (Z.ltb_lt _ _) Hcnt), Est, !some_bind. rewrite <- EG in HSt2.
    destruct (create_undo s c U Φ F G bm a i (<[Z.to_nat i := set_pgd 0 x]> (s_space_pool s)) st (s_space_free_count s - 1 + 1) HI) as (s' & E' & HI' & Hpt & Hr); try done.
    { by rewrite length_insert. }
    { apply Hsp. }
    replace (upd_sfree st _ (upd_spaces _ (upd_vpt _ _))) with (upd_sfree st (s_space_free_count s - 1 + 1) (upd_spaces (<[Z.to_nat i := set_pgd 0 x]> (s_space_pool s)) (upd_asids bm s))) by (by destruct s).
    rewrite E', some_bind. eexists _, _. split; [done|left]. done.
  - rewrite (proj2 (Z.eqb_neq pgd 0)) by done. cbn [s_space_pool upd_spaces]. rewrite zupdate_total by (rewrite length_insert; lia). rewrite !some_bind. cbn [s_kernel_space upd_spaces upd_vpt upd_sfree upd_asids].
    rewrite (vi_kernel _ _ _ _ _ _ _ _ HI). cbn [Z.eqb]. rewrite some_bind, list_insert_insert_eq.
    destruct (new_ok base n HL H48 (vm_pt s) c HG0) as (pt1 & v & En & HG & [Hun _] & _ & Hnew). cbn [run_pt clients_after] in *. rewrite E0, some_bind in En. injection En as <- <-.
    cbn [fst snd] in *. rewrite (proj2 (Z.eqb_neq pgd 0)) in HG by done. destruct (Hnew Hpgd) as [Hni Hnone0].
    assert (∀ vp, pt_view pt pgd vp = None) as Hnone by (intros vp; exact (proj1 (Hnone0 vp))). clear Hnone0.
    assert (HI1 : vm_inv (upd_sfree (s_space_free_stack s) (s_space_free_count s - 1) (upd_spaces (s_space_pool s) (upd_asids bm s))) c U Φ F G').
    { apply (inv_slots s c U Φ F G); try done; [|intros j Hj; apply (vi_sfree _ _ _ _ _ _ _ _ HI); rewrite EG; apply elem_of_app; by left]. intros j y Uj Ey.
      pose proof (vi_bits _ _ _ _ _ _ _ _ HI j y Uj Ey) as Hb. destruct Uj as [t Uj]. destruct (vi_space _ _ _ _ _ _ _ _ HI j t Uj) as [x' Hx].
      assert (x' = y) as -> by (pose proof (sk_x _ _ _ _ _ _ _ Hx); congruence). pose proof (sk_asid _ _ _ _ _ _ _ Hx). by rewrite Hbits, Hb, orb_true_r by lia. }
    pose proof (inv_fresh _ c U Φ F G' i pgd a pt HI1 Ui Hir HG Hni Hun ltac:(lia)) as HI2. cbn [s_asid_bitmap s_space_pool upd_sfree upd_spaces upd_asids] in HI2.
    eexists _, _. split; [done|right]. exists i, pgd, (VmSpaceT pgd a 0 None USER_SPACE_BASE USER_SPACE_BASE 0 1), G'. split; [done|]. split; [done|]. split; [done|].
    split; [apply zlookup_insert_eq; lia|]. split; [done|].
    split; [|split; [done|split; [done|split; [done|]]; intros j [t Uj]; apply Hsp; congruence]].
    apply HI2; [rewrite Hbits, Z.eqb_refl by lia; done|done|]. intros j y Uj Ey <-. pose proof (vi_bits _ _ _ _ _ _ _ _ HI j y Uj Ey). congruence.
Qed.
End calls.

(** ** Destruction *)

(** The leftmost node of a red-black tree cannot be deleted, or others are left. *)
Lemma leftmost_node (t : vtree) v rest : red_black t → inorder t = v :: rest → NoDup (inorder t) →
  ∃ k c r, t = zip k (Node c Leaf v r) ∧ rest = inorder r ++ after k ∧ before k = [] ∧
    (crashes k c (@Leaf Z) r = true ∨ (deletable k c Leaf r = true ∧ rest ≠ [])).
Proof.
  intros [Hblack _] Hin Hnd. destruct (place_of t v) as (k & c & l & r & ->); [rewrite Hin; by left|]. rewrite inorder_zip in Hin, Hnd. cbn [inorder] in Hin, Hnd.
  assert (Hnil : before k ++ inorder l = []).
  { destruct (before k ++ inorder l) as [|a L] eqn:E; [done|]. rewrite <- app_assoc, app_assoc, E in Hin, Hnd. cbn in Hin, Hnd. injection Hin as <- _.
    apply NoDup_cons in Hnd as [Hni _]. exfalso. apply Hni. apply elem_of_app. right. by left. }
  apply app_eq_nil in Hnil as [Hb Hl]. assert (l = Leaf) as ->. { destruct l; [done|]. cbn in Hl. by destruct (inorder l1). }
  rewrite Hb in Hin. cbn in Hin. injection Hin as <-. exists k, c, r. split; [done|]. split; [done|]. split; [done|].
  destruct r as [|cr rl ra rr]; [|right; split; [by destruct c|cbn; by destruct (inorder rl)]]. cbn [inorder app]. destruct k as [|[cf af rf|cf lf af] k].
  - cbn in Hblack. subst c. by left.
  - destruct c; [right; split; [done|done]|by left].
  - cbn in Hb. by destruct (before k), (inorder lf).
Qed.

Lemma with_tree_at i k t s s' : with_tree (PoolSpace i) k t s = Some s' → ∃ x', (s_space_pool s').[i] = Some x' ∧ tree_of x' s' = t.
Proof.
  unfold with_tree, get_space, put_space. destruct ((s_space_pool s).[i]) as [x|] eqn:Ex; [|done]. cbn [mbind option_bind]. change (s_space_pool (upd_vnodes _ s)) with (s_space_pool s).
  pose proof (zlookup_Some_lt _ _ _ Ex). rewrite zupdate_total by lia. intros [= <-]. exists (set_regions k (rb_root t) x). split; [by apply zlookup_insert_eq|by destruct t].
Qed.

(** The loop over the regions comes to a node whose deletion fails, however many
    turns it may take. *)
Lemma destroy_stuck fuel i pgd v rest s x t : (s_space_pool s).[i] = Some x → tree_at (tree_of x s) t → red_black t → inorder t = v :: rest →
  destroy_loop fuel (PoolSpace i) pgd (Some v) s = None.
Proof.
  revert v rest s x t. induction fuel as [|fuel IH]; intros v rest s x t Ex Ht Hrb Hin; [done|]. cbn [destroy_loop get_space]. rewrite Ex, some_bind.
  rewrite (next_at _ t v 0 Ht) by (by rewrite Hin). rewrite some_bind. destruct ((s_vma_pool s).[v]) as [w|]; [|done]. cbn [mbind option_bind].
  destruct (if negb _ then _ else _) as [pt|]; [|done]. cbn [mbind option_bind]. change (tree_of x (upd_vpt pt s)) with (tree_of x s).
  destruct (leftmost_node t v rest Hrb Hin) as (k & c & r & -> & Hrest & Hb & Hcase); [by apply Ht|]. destruct Hcase as [Hc|[Hd Hne]]; [by rewrite (rb_delete_crash _ _ _ _ _ _ Ht Hc)|].
  destruct (rb_delete_spec _ _ _ _ _ _ Ht Hrb Hd) as (tr & t' & -> & Ht' & Hrb' & Hin' & _). rewrite some_bind. destruct (with_tree _ _ _ _) as [s1|] eqn:E1; [|done]. cbn [mbind option_bind].
  destruct (with_tree_at _ _ _ _ _ E1) as (x' & Ex' & Etr). destruct (vma_free (Some v) s1) as [s2|] eqn:E2; [|done]. cbn [mbind option_bind].
  rewrite Hb in Hin'. cbn [inorder app] in Hin'. rewrite <- Hrest in Hin'. rewrite Hin. destruct rest as [|v' rest]; [done|]. cbn [lookup list_lookup].
  unfold vma_free in E2. destruct (zupdate _ _ _); [|done]. cbn in E2. injection E2 as <-. apply (IH v' rest _ x' t'); [done| |done|done]. cbn. unfold tree_of in *. cbn in *. by rewrite Etr.
Qed.
