(* ===== verification/VmSpaceRuns.v ===== *)
(** * Address spaces: calls and their specification

    What callers see of a space is a map from pages to descriptors and a sequence
    of regions.  Here are the calls, what callers are held to, what each call
    does to maps and regions, and the proof that every call does it. *)

From stdpp Require Import sorting.
From S2P Require Import Prelude KList PhysMem Buddy BuddyInv BuddyOps BuddyInit BuddyTheorems PageTable PageTableInv PageTableOps PageTableTheorems.
From S2P Require Import Rbtree RbtreeInv RbtreeSteps RbtreeInsert RbtreeWalk RbtreeDelete RbtreeTheorems VmSpace VmPages VmSpaceInv VmSpaceSteps VmSpaceCalls.

Set Default Goal Selector "!".

#[local] Arguments Z.pow : simpl never.
#[local] Arguments Z.mul : simpl never.

(** ** What callers see *)

Definition pgd_of (s : vms) (i : Z) : Z := match (s_space_pool s).[i] with Some x => vs_pgd x | None => 0 end.

(** The descriptor of page [vp] in space [i]. *)
Definition sview (s : vms) (i vp : Z) : option leaf := pt_view (vm_pt s) (pgd_of s i) vp.

(** [f] is the frame of an anonymous page of a space in [L]. *)
Definition anon_frame (s : vms) (L : gset Z) (f : Z) : Prop :=
  ∃ i vp r d, i ∈ L ∧ r ∈ regions s i ∧ phys_base r = 0 ∧ has_page r vp ∧ sview s i vp = Some (LPage d) ∧ PTE_PADDR d = f.

(** ** Calls *)

(** Calls on the space in slot [i]; and what other clients of the page allocator
    and the translation cache do. *)
Inductive vm_op :=
  | VCreate | VMap (i vaddr size flags : Z) (type : vma_type_t) (paddr : Z) | VUnmap (i vaddr size : Z) | VProtect (i vaddr size flags : Z)
  | VFind (i vaddr : Z) | VSwitch (c i : Z) | VFill (asid i vp : Z) | VTake (ord : Z) | VGive (p ord : Z).

Definition run_vm (o : vm_op) (s : vms) : option (vms * Z) :=
  match o with
  | VCreate => '(s, r) ← vmspace_create true s; Some (s, match r with (_, Some (PoolSpace i)) => i | (st, _) => st end)
  | VMap i vaddr size flags type paddr => vmspace_map (Some (PoolSpace i)) vaddr size flags type paddr s
  | VUnmap i vaddr size => vmspace_unmap (Some (PoolSpace i)) vaddr size s
  | VProtect i vaddr size flags => vmspace_protect (Some (PoolSpace i)) vaddr size flags s
  | VFind i vaddr => v ← vmspace_find_vma (Some (PoolSpace i)) vaddr s; Some (s, default (-1) v)
  | VSwitch c i => s ← vmspace_switch c (Some (PoolSpace i)) s; Some (s, 0)
  | VFill asid i vp => Some (upd_vpt (tlb_fill asid (pgd_of s i) vp (vm_pt s)) s, 0)
  | VTake ord => '(m, p) ← phys_mem_alloc_pages ord (pt_pm (vm_pt s)); Some (upd_vpt (upd_ptpm m (vm_pt s)) s, p)
  | VGive p ord => m ← phys_mem_free_pages p ord (pt_pm (vm_pt s)); Some (upd_vpt (upd_ptpm m (vm_pt s)) s, 0)
  end.

(** The region to unmap is given whole, its frames are its own, and its node is
    one that [rb_delete] can take out. *)
Definition unmappable (s : vms) (i vaddr size : Z) : Prop :=
  ∃ x k cl l v r, (s_space_pool s).[i] = Some x ∧ tree_at (tree_of x s) (zip k (Node cl l v r)) ∧ deletable k cl l r = true ∧
    let w := region_at (s_vma_pool s) v in vma_start w = vaddr ∧ vma_end w = vaddr + 4096 * pages_for size ∧ phys_base w = 0.

(** What callers are held to: [L] are the slots in use, [held] the blocks of other
    clients.  Addresses are below 2^48, the range that page tables translate. *)
Definition vm_ok (o : vm_op) (s : vms) (L : gset Z) (held : gmap Z Z) : Prop :=
  match o with
  | VCreate => True
  | VMap i vaddr size _ _ paddr => i ∈ L ∧ 0 <= vaddr < 2 ^ 64 ∧ 0 <= paddr ∧ first_page vaddr + pages_for size <= 2 ^ 36
  | VUnmap i vaddr size => i ∈ L ∧ unmappable s i vaddr size
  | VProtect i vaddr size _ => i ∈ L ∧ 0 <= vaddr ∧ vaddr + 4096 * pages_for size <= 2 ^ 48
  | VFind i _ => i ∈ L
  | VSwitch c i => i ∈ L ∧ 0 <= c < CONFIG_MAX_CPUS
  | VFill _ i vp => i ∈ L ∧ 0 <= vp < 2 ^ 36
  | VTake ord => 0 <= ord
  | VGive p ord => held !! p = Some ord
  end.

Definition live_after (o : vm_op) (r : Z) (L : gset Z) : gset Z := match o with VCreate => if 0 <=? r then {[r]} ∪ L else L | _ => L end.
Definition held_after (o : vm_op) (r : Z) (held : gmap Z Z) : gmap Z Z :=
  match o with VTake ord => if r =? 0 then held else <[r := ord]> held | VGive p _ => delete p held | _ => held end.

(** The static data before initialisation. *)
Definition vm_static (s : vms) : Prop :=
  Z.of_nat (length (s_vma_pool s)) = CONFIG_MAX_VMAS ∧ Z.of_nat (length (ttbr0 s)) = CONFIG_MAX_CPUS ∧ ∀ v, 0 <= v < CONFIG_MAX_VMAS → is_Some (s_vma_nodes s !! v).

Inductive vm_reach (base n : Z) : vms → gset Z → gmap Z Z → Prop :=
  | vm_start s c : vm_static s → pt_reach base n (vm_pt s) c → vm_reach base n (vmspace_subsys_init s).1 ∅ (c_others c)
  | vm_step s L held o s' r : vm_reach base n s L held → vm_ok o s L held → run_vm o s = Some (s', r) → vm_reach base n s' (live_after o r L) (held_after o r held).

(** ** The specification *)

(** The maps and regions of the spaces in [L] stay. *)
Definition views_stay (L : gset Z) (V : Z → Z → option leaf) (s' : vms) : Prop := ∀ j vp, j ∈ L → 0 <= vp < 2 ^ 36 → sview s' j vp = V j vp.
Definition regions_stay (L : gset Z) (s s' : vms) : Prop := ∀ j, j ∈ L → regions s' j = regions s j.

Definition map_spec (s : vms) (L : gset Z) (held : gmap Z Z) (i vaddr size flags : Z) (type : vma_type_t) (paddr r : Z) (s' : vms) : Prop :=
  let p0 := first_page vaddr in let N := pages_for size in let perm := perm_of_flags flags in
  ∃ fs, views_stay L (vmap (sview s) i p0 (compute_pte_attr perm true) fs) s' ∧ (∀ j, 0 <= j < Z.of_nat (length fs) → sview s i (p0 + j) = None) ∧
    (if paddr =? 0 then NoDup fs ∧ ∀ f, f ∈ fs → held !! f = None ∧ ¬ anon_frame s L f else ∀ j f, fs !! j = Some f → f = u64 (paddr + 4096 * Z.of_nat j)) ∧
    ((r = 4096 * p0 ∧ 0 < N ∧ Z.of_nat (length fs) = N ∧ (∃ A B, regions s i = A ++ B ∧ regions s' i = A ++ new_region p0 N flags type paddr :: B) ∧ regions_stay (L ∖ {[i]}) s s') ∨
     (r = 0 ∧ map_refused s (pgd_of s i) p0 N perm paddr fs ∧ Z.of_nat (length fs) <= N ∧ regions_stay L s s')).

Definition vm_spec (s : vms) (L : gset Z) (held : gmap Z Z) (o : vm_op) (r : Z) (s' : vms) : Prop :=
  match o with
  | VCreate =>
      views_stay L (sview s) s' ∧ regions_stay L s s' ∧
      (r = - ENOMEM ∨ (r ∉ L ∧ 0 <= r < CONFIG_MAX_VM_SPACES ∧ regions s' r = [] ∧ (∀ vp, sview s' r vp = None) ∧
         ∀ j x y, j ∈ L → (s_space_pool s').[r] = Some x → (s_space_pool s').[j] = Some y → vs_pgd x ≠ vs_pgd y ∧ vs_asid x ≠ vs_asid y))
  | VMap i vaddr size flags type paddr => map_spec s L held i vaddr size flags type paddr r s'
  | VUnmap i vaddr size =>
      r = KERNEL_OK ∧ views_stay L (vclear (sview s) i (vaddr / 4096) (pages_for size)) s' ∧ regions_stay (L ∖ {[i]}) s s' ∧
      ∃ A w B, regions s i = A ++ w :: B ∧ vma_start w = vaddr ∧ regions s' i = A ++ B
  | VProtect i vaddr size flags =>
      r = KERNEL_OK ∧ views_stay L (vprotect (sview s) i (vaddr / 4096) (pages_for size) (perm_of_flags flags)) s' ∧ regions_stay (L ∖ {[i]}) s s' ∧
      regions s' i = (λ w, if decide (covers w vaddr) then set_vma_flags flags w else w) <$> regions s i
  | VFind i vaddr =>
      s' = s ∧ if r =? -1 then ∀ w, w ∈ regions s i → ¬ covers w vaddr else region_at (s_vma_pool s) r ∈ regions s i ∧ covers (region_at (s_vma_pool s) r) vaddr
  | VSwitch c i =>
      views_stay L (sview s) s' ∧ regions_stay L s s' ∧ vmspace_get_current c s' = Some (PoolSpace i) ∧ (ttbr0 s').[c] = Some (virt_to_phys (pgd_of s i))
  | VFill _ _ _ | VTake _ | VGive _ _ => views_stay L (sview s) s' ∧ regions_stay L s s'
  end.

(** ** Every call meets it *)

Lemma rep_unique (h : gmap Z vma_node) par (t t' : vtree) : rep h par t → rep h par t' → root_of t = root_of t' → t = t'.
Proof.
  revert par t'. induction t as [|c l IHl a r IHr]; intros par [|c' l' a' r'] Hr Hr' E; try done. cbn in *. injection E as <-. destruct Hr as (E & Hl & Hrr), Hr' as (E' & Hl' & Hrr').
  rewrite E in E'. injection E' as El Er ->. f_equal; [by eapply IHl|by eapply IHr].
Qed.

Lemma tree_unique (s : @rbt Z _ _) t t' : tree_at s t → tree_at s t' → t = t'.
Proof. intros (E & Hr & _) (E' & Hr' & _). eapply rep_unique; [done|done|congruence]. Qed.

(** Calls that keep the page table of every space. *)
Definition same_pgds (s s' : vms) : Prop := ∀ j, pgd_of s' j = pgd_of s j.

Lemma with_tree_pgds i k t s s' : with_tree (PoolSpace i) k t s = Some s' → same_pgds s s'.
Proof.
  unfold with_tree, get_space, put_space. intros E. destruct ((s_space_pool s).[i]) as [x|] eqn:Ex; [|done]. cbn [mbind option_bind] in E. change (s_space_pool (upd_vnodes _ s)) with (s_space_pool s) in E.
  pose proof (zlookup_Some_lt _ _ _ Ex). rewrite zupdate_total in E by lia. injection E as <-. intros j. unfold pgd_of. cbn [s_space_pool upd_spaces].
  destruct (decide (j = i)) as [->|Hj]; [by rewrite zlookup_insert_eq, Ex by lia|by rewrite zlookup_insert_ne by (lia || done)].
Qed.

Lemma map_pgds i vaddr size flags type paddr s s' r : vmspace_map (Some (PoolSpace i)) vaddr size flags type paddr s = Some (s', r) → same_pgds s s'.
Proof.
  unfold vmspace_map. intros E. destruct (_ =? 0); [by simplify_eq|]. cbn [get_space] in E. destruct ((s_space_pool s).[i]) as [x|]; [|done]. cbn [mbind option_bind] in E.
  destruct (map_loop _ _ _ _ _ _ _ _ _) as [[pt []]|]; [|by simplify_eq/=|done]. cbn [mbind option_bind negb] in E. destruct (vma_alloc _) as [[s1 o]|] eqn:Ea; [|done]. cbn [mbind option_bind negb] in E.
  assert (same_pgds s s1) as Hs1 by (unfold vma_alloc in Ea; destruct (_ >? 0); [|by simplify_eq]; destruct ((s_vma_free_stack _).[_]); simplify_eq/=; done).
  destruct o as [v|]; [|destruct (release_range _ _ _ _ _ _ _); simplify_eq/=; done]. destruct (zupdate _ _ _) as [pool|]; [|done]. cbn [mbind option_bind negb] in E.
  destruct (rb_insert _ _ _) as [t|]; [|done]. cbn [mbind option_bind negb] in E. destruct (with_tree _ _ _ _) as [s2|] eqn:Et; simplify_eq/=. apply with_tree_pgds in Et. intros j. rewrite Et. apply Hs1.
Qed.

Lemma unmap_pgds i vaddr size s s' r : vmspace_unmap (Some (PoolSpace i)) vaddr size s = Some (s', r) → same_pgds s s'.
Proof.
  unfold vmspace_unmap. intros E. destruct (vmspace_find_vma _ _ _) as [[v|]|]; [|by simplify_eq/=|done]. cbn [get_space mbind option_bind] in E.
  destruct ((s_space_pool s).[i]) as [x|]; [|done]. cbn [mbind option_bind negb] in E. destruct (release_range _ _ _ _ _ _ _) as [pt|]; [|done]. cbn [mbind option_bind negb] in E. destruct (rb_delete _ _) as [t|]; [|done]. cbn [mbind option_bind negb] in E.
  destruct (with_tree _ _ _ _) as [s1|] eqn:Et; [|done]. cbn [mbind option_bind negb] in E. unfold vma_free in E. destruct (zupdate _ _ _); simplify_eq/=. apply (with_tree_pgds _ _ _ _ _ Et).
Qed.

Lemma protect_pgds i vaddr size flags s s' r : vmspace_protect (Some (PoolSpace i)) vaddr size flags s = Some (s', r) → same_pgds s s'.
Proof.
  unfold vmspace_protect. intros E. cbn [get_space mbind option_bind] in E. destruct ((s_space_pool s).[i]) as [x|]; [|done]. cbn [mbind option_bind] in E.
  destruct (protect_range _ _ _ _ _ _ _) as [pt|]; [|done]. cbn [mbind option_bind] in E. destruct (vmspace_find_vma _ _ _) as [[v|]|]; [|by simplify_eq/=|done].
  cbn [mbind option_bind negb] in E. destruct ((s_vma_pool _).[_]); [|done]. cbn [mbind option_bind negb] in E. destruct (zupdate _ _ _); by simplify_eq/=.
Qed.

Section promises.
Context (base n : Z) (HL : mem_layout base n) (H48 : base + n * CONFIG_PAGE_SIZE <= 2 ^ 48).
Notation vm_inv := (vm_inv base n).

(** Other clients hold blocks of their own. *)
Definition vm_good (s : vms) (L : gset Z) (held : gmap Z Z) : Prop :=
  ∃ c U Φ F G, vm_inv s c U Φ F G ∧ L = dom U ∧ held ⊆ c_others c ∧ ∀ r vp f, Φ r vp = Some f → held !! f = None.

Definition vm_meets (o : vm_op) (s : vms) (L : gset Z) (held : gmap Z Z) : Prop :=
  ∃ s' r, run_vm o s = Some (s', r) ∧ vm_good s' (live_after o r L) (held_after o r held) ∧ vm_spec s L held o r s'.

Lemma slot_pgd s c U Φ F G j t : vm_inv s c U Φ F G → U !! j = Some t → ∃ x, space_ok (c_roots c) (pt_view (vm_pt s)) Φ s j t x ∧ pgd_of s j = vs_pgd x.
Proof. intros HI Uj. destruct (vi_space _ _ _ _ _ _ _ _ HI j t Uj) as [x Hx]. exists x. split; [done|]. unfold pgd_of. by rewrite (sk_x _ _ _ _ _ _ _ Hx). Qed.

Lemma slot_root s c U Φ F G j : vm_inv s c U Φ F G → j ∈ dom U → pgd_of s j ∈ c_roots c.
Proof. intros HI [t Uj]%elem_of_dom. destruct (slot_pgd s c U Φ F G j t HI Uj) as (x & Hx & ->). apply Hx. Qed.

Lemma pgd_same s c U Φ F G i j : vm_inv s c U Φ F G → i ∈ dom U → j ∈ dom U → (pgd_of s j =? pgd_of s i) = (j =? i).
Proof.
  intros HI Hi Hj. destruct (Z.eqb_spec j i) as [->|Hne]; [apply Z.eqb_refl|]. apply Z.eqb_neq. intros E. apply Hne. apply elem_of_dom in Hi as [t Ui], Hj as [t' Uj].
  destruct (slot_pgd _ _ _ _ _ _ _ _ HI Ui) as (x & Hx & Ex), (slot_pgd _ _ _ _ _ _ _ _ HI Uj) as (y & Hy & Ey).
  eapply (vi_pgds _ _ _ _ _ _ _ _ HI); [eauto|eauto|apply Hy|apply Hx|congruence].
Qed.

(** What happens to page tables happens to spaces. *)
Lemma stay_views s c U Φ F G s' (V : Z → Z → option leaf) W : vm_inv s c U Φ F G → same_pgds s s' → unchanged (c_roots c) W (pt_view (vm_pt s')) →
  (∀ j vp, j ∈ dom U → W (pgd_of s j) vp = V j vp) → views_stay (dom U) V s'.
Proof. intros HI Hp Hun HW j vp Hj Hvp. unfold sview. rewrite Hp, Hun by (done || by eapply slot_root). by apply HW. Qed.

Lemma stay_regions s c U Φ F G s' c' U' Φ' F' G' (L : gset Z) : vm_inv s c U Φ F G → vm_inv s' c' U' Φ' F' G' →
  (∀ j, j ∈ L → ∃ t, U !! j = Some t ∧ U' !! j = Some t ∧ ∀ w, w ∈ inorder t → region_at (s_vma_pool s') w = region_at (s_vma_pool s) w) → regions_stay L s s'.
Proof.
  intros HI HI' H j Hj. destruct (H j Hj) as (t & Uj & Uj' & Hw). rewrite (inv_regions _ _ _ _ _ _ _ _ _ _ HI Uj), (inv_regions _ _ _ _ _ _ _ _ _ _ HI' Uj').
  apply list_fmap_ext. intros k w Hk. apply Hw. by eapply list_elem_of_lookup_2.
Qed.

Lemma anon_owned s c U Φ F G f : vm_inv s c U Φ F G → anon_frame s (dom U) f → ∃ r vp, Φ r vp = Some f.
Proof.
  intros HI (i & vp & r & d & [t Ui]%elem_of_dom & Hr & Hph & Hvp & Ev & <-). destruct (slot_pgd _ _ _ _ _ _ _ _ HI Ui) as (x & Hx & Ex).
  rewrite (inv_regions _ _ _ _ _ _ _ _ _ _ HI Ui) in Hr. apply list_elem_of_fmap in Hr as (w & -> & Hw). destruct (sk_backed _ _ _ _ _ _ _ Hx w Hw vp Hvp) as (d' & Ed & Hd).
  unfold sview in Ev. rewrite Ex, Ed in Ev. injection Ev as <-. eauto.
Qed.

Lemma held_mono paddr fs (O held : gmap Z Z) : held ⊆ O → frames_ok paddr O fs → held ⊆ holds_after paddr fs O.
Proof.
  intros Hsub Hfs. unfold holds_after, frames_ok in *. destruct (paddr =? 0); [|done]. apply map_subseteq_spec. intros p k Hp. rewrite take_all_lookup.
  rewrite map_subseteq_spec in Hsub. apply Hsub in Hp. rewrite decide_False; [done|]. intros Hf%Hfs. congruence.
Qed.

Lemma map_meets s L held i vaddr size flags type paddr : vm_good s L held → vm_ok (VMap i vaddr size flags type paddr) s L held →
  vm_meets (VMap i vaddr size flags type paddr) s L held.
Proof using HL H48.
  intros (c & U & Φ & F & G & HI & -> & Hsub & Hheld) (Hi & Hva & Hpa & Hmax). pose proof Hi as [t Ui]%elem_of_dom. destruct (slot_pgd _ _ _ _ _ _ _ _ HI Ui) as (x & Hx & Ex).
  destruct (map_step base n HL H48 s c U Φ F G i t x vaddr size flags type paddr HI Ui (sk_x _ _ _ _ _ _ _ Hx) Hva Hpa Hmax) as (s' & r & fs & Φ' & F' & t' & E & [Mv Mf Mn] & HI' & HΦ & Hcase).
  cbn [run_vm]. exists s', r. split; [done|]. split.
  - exists (Clients (c_roots c) (holds_after paddr fs (c_others c))), (<[i := t']> U), Φ', F', G. cbn [live_after held_after c_others]. split; [done|]. split; [rewrite dom_insert_L; set_solver|].
    split; [by apply held_mono|]. intros q vp f [Hq|[-> Hf]]%HΦ; [by eapply Hheld|]. destruct Mf as [_ Mf]. eapply lookup_weaken_None; [apply (Mf f Hf)|done].
  - cbn [vm_spec]. unfold map_spec. exists fs. rewrite Ex. split; [|split; [|split; [|destruct Hcase as [(-> & HN & Hl & v & A & B & EA & EB & Hv & Hnew & Hold)|(-> & Hr & Hl & -> & Hpool)]; [left|right]]]].
    + eapply stay_views; [exact HI|by eapply map_pgds|done|]. intros j vp Hj. unfold vmap, sview. rewrite <- Ex, (pgd_same _ _ _ _ _ _ _ _ HI Hi Hj). done.
    + intros j Hj. unfold sview. rewrite Ex. by apply Mn.
    + unfold frames_ok in Mf. destruct (paddr =? 0); [|done]. destruct Mf as [Mf1 Mf2]. split; [done|]. intros f Hf. split; [by eapply lookup_weaken_None; [apply (Mf2 f Hf)|]|].
      intros (q & vp & Hq)%(anon_owned _ _ _ _ _ _ _ HI). apply (vi_own _ _ _ _ _ _ _ _ HI) in Hq. rewrite (Mf2 f Hf) in Hq. done.
    + pose proof (vi_vfree _ _ _ _ _ _ _ _ HI v) as Hvf. split; [done|]. split; [done|]. split; [done|]. split.
      * exists (region_at (s_vma_pool s) <$> A), (region_at (s_vma_pool s) <$> B). rewrite (inv_regions _ _ _ _ _ _ _ _ _ _ HI Ui), EA, fmap_app. split; [done|].
        rewrite (inv_regions _ _ _ _ _ _ _ _ _ _ HI' (lookup_insert_eq _ _ _)), EB, fmap_app, fmap_cons, Hnew. specialize (Hvf i t Hv Ui). rewrite EA in Hvf.
        apply not_elem_of_app in Hvf as [HvA HvB]. f_equal; [|f_equal]; apply list_fmap_ext; intros k w Hk%list_elem_of_lookup_2; apply Hold; by intros ->.
      * eapply stay_regions; [exact HI|exact HI'|]. intros j [[tj Uj]%elem_of_dom Hj]%elem_of_difference. exists tj. rewrite lookup_insert_ne by set_solver. split; [done|]. split; [done|].
        intros w Hw. apply Hold. intros ->. by apply (Hvf j tj).
    + split; [done|]. split; [done|]. split; [done|]. rewrite insert_id in HI' by done. eapply stay_regions; [exact HI|exact HI'|].
      intros j [tj Uj]%elem_of_dom. exists tj. split; [done|]. split; [done|]. intros w _. by rewrite Hpool.
Qed.

(** Only the region tree of space [i] is another one. *)
Lemma stay_others s c U Φ F G s' c' t' Φ' F' G' i : vm_inv s c U Φ F G → vm_inv s' c' (<[i := t']> U) Φ' F' G' →
  (∀ j tj w, j ≠ i → U !! j = Some tj → w ∈ inorder tj → region_at (s_vma_pool s') w = region_at (s_vma_pool s) w) → regions_stay (dom U ∖ {[i]}) s s'.
Proof.
  intros HI HI' H. eapply stay_regions; [exact HI|exact HI'|]. intros j [[tj Uj]%elem_of_dom Hj]%elem_of_difference. exists tj. rewrite lookup_insert_ne by set_solver.
  split; [done|]. split; [done|]. intros w Hw. apply (H j tj); [set_solver|done|done].
Qed.

Lemma unmap_meets s L held i vaddr size : vm_good s L held → vm_ok (VUnmap i vaddr size) s L held → vm_meets (VUnmap i vaddr size) s L held.
Proof using HL H48.
  intros (c & U & Φ & F & G & HI & -> & Hsub & Hheld) (Hi & x & k & cl & l & v & r & Ex & Ht & Hd & Hst & Hen & Hph). pose proof Hi as [t Ui]%elem_of_dom.
  destruct (slot_pgd _ _ _ _ _ _ _ _ HI Ui) as (x' & Hx & Epgd). assert (x' = x) as -> by (pose proof (sk_x _ _ _ _ _ _ _ Hx); congruence).
  pose proof (sk_rep _ _ _ _ _ _ _ Hx) as (Ht0 & _). pose proof (tree_unique _ _ _ Ht0 Ht) as ->.
  destruct (unmap_step base n HL H48 s c U Φ F G i x k cl l v r vaddr size HI Ui Ex Hd Hst Hen Hph) as (s' & t' & A & B & E & HI' & Hun & EA & EB & Hpool).
  cbn [run_vm]. exists s', KERNEL_OK. split; [done|]. split.
  - eexists _, _, _, _, _. cbn [live_after held_after]. split; [exact HI'|]. split; [rewrite dom_insert_L; set_solver|]. cbn [c_others]. split.
    + apply map_subseteq_spec. intros p o Hp. rewrite give_all_lookup. rewrite map_subseteq_spec in Hsub. rewrite decide_False; [by apply Hsub|].
      intros (j & [Hj Hf]%frames_of_lookup)%list_elem_of_lookup. destruct (sk_backed _ _ _ _ _ _ _ Hx v) with (vp := vaddr / 4096 + Z.of_nat j) as (d & _ & Hd2).
      { rewrite EA. set_solver. } { pose proof (sk_region _ _ _ _ _ _ _ Hx v ltac:(rewrite EA; set_solver)) as (_ & _ & [q Hq] & _). unfold has_page. rewrite Hst in Hq |- *. rewrite Hen.
        assert (vaddr / 4096 = q) by (rewrite Hq, Z.div_mul; lia). lia. }
      rewrite (Hd2 Hph) in Hf. cbn in Hf. subst p. rewrite (Hheld _ _ _ (Hd2 Hph)) in Hp. done.
    + intros q vp f. unfold without_frames. destruct (in_range _ _ _ _ _); [done|]. apply Hheld.
  - split; [done|]. split; [|split].
    + eapply stay_views; [exact HI|by eapply unmap_pgds|done|]. intros j vp Hj. unfold vclear, in_range, sview. rewrite <- Epgd, (pgd_same _ _ _ _ _ _ _ _ HI Hi Hj). done.
    + eapply stay_others; [exact HI|exact HI'|]. by rewrite Hpool.
    + exists (region_at (s_vma_pool s) <$> A), (region_at (s_vma_pool s) v), (region_at (s_vma_pool s) <$> B).
      rewrite (inv_regions _ _ _ _ _ _ _ _ _ _ HI Ui), EA, fmap_app, fmap_cons. split; [done|]. split; [done|].
      by rewrite (inv_regions _ _ _ _ _ _ _ _ _ _ HI' (lookup_insert_eq _ _ _)), EB, fmap_app, Hpool.
Qed.

Lemma protect_meets s L held i vaddr size flags : vm_good s L held → vm_ok (VProtect i vaddr size flags) s L held → vm_meets (VProtect i vaddr size flags) s L held.
Proof using HL H48.
  intros (c & U & Φ & F & G & HI & -> & Hsub & Hheld) (Hi & Hva & Hmax). pose proof Hi as [t Ui]%elem_of_dom. destruct (slot_pgd _ _ _ _ _ _ _ _ HI Ui) as (x & Hx & Epgd).
  destruct (protect_step base n HL H48 s c U Φ F G i t x vaddr size flags HI Ui (sk_x _ _ _ _ _ _ _ Hx) Hva Hmax) as (s' & E & HI' & Hun & Hpool).
  cbn [run_vm]. exists s', KERNEL_OK. split; [done|]. split; [by exists c, U, Φ, F, G|]. split; [done|]. split; [|split].
  - eapply stay_views; [exact HI|by eapply protect_pgds|done|]. intros j vp Hj. unfold vprotect, in_range, sview. rewrite <- Epgd, (pgd_same _ _ _ _ _ _ _ _ HI Hi Hj). done.
  - rewrite <- (insert_id U i t Ui) in HI'. eapply stay_others; [exact HI|exact HI'|]. intros j tj w Hj Uj Hw. rewrite Hpool, decide_False; [done|].
    intros [Hw' _]. apply Hj. by eapply (vi_trees _ _ _ _ _ _ _ _ HI).
  - rewrite (inv_regions _ _ _ _ _ _ _ _ _ _ HI Ui), (inv_regions _ _ _ _ _ _ _ _ _ _ HI' Ui), <- list_fmap_compose. apply list_fmap_ext. intros k w Hk%list_elem_of_lookup_2.
    unfold compose. rewrite Hpool. destruct (decide (covers (region_at (s_vma_pool s) w) vaddr)) as [Hc|Hc]; [by rewrite decide_True|rewrite decide_False; [done|tauto]].
Qed.

(** Only the frames of other clients, or cached translations, change. *)
Lemma frames_change s c U Φ F G pt c' held' : vm_inv s c U Φ F G → pt_good base n pt c' → c_roots c' = c_roots c → (∀ r vp, pt_view pt r vp = pt_view (vm_pt s) r vp) →
  (∀ r vp f, Φ r vp = Some f → c_others c' !! f = Some 0) → held' ⊆ c_others c' → (∀ r vp f, Φ r vp = Some f → held' !! f = None) →
  vm_good (upd_vpt pt s) (dom U) held' ∧ views_stay (dom U) (sview s) (upd_vpt pt s) ∧ regions_stay (dom U) s (upd_vpt pt s).
Proof.
  intros HI HG HR Hv Hown Hsub Hheld. split; [|split; [|done]].
  - exists c', U, Φ, F, G. split; [|done]. apply (inv_pt base n s c U Φ F G pt c' Φ HI HG); [by rewrite HR| |done|apply (vi_inj _ _ _ _ _ _ _ _ HI)].
    intros i t x v _ _ _ _ _ Hb. eapply backed_ext; [exact Hb|]. intros vp _. by rewrite Hv.
  - intros j vp _ _. unfold sview. cbn [vm_pt upd_vpt]. by rewrite Hv.
Qed.

Lemma take_meets s L held ord : vm_good s L held → 0 <= ord → vm_meets (VTake ord) s L held.
Proof using HL H48.
  intros (c & U & Φ & F & G & HI & -> & Hsub & Hheld) Ho. pose proof (vi_pt _ _ _ _ _ _ _ _ HI) as (T & HT & HR & Htlb). unfold vm_meets. cbn [run_vm].
  destruct (take_inv base n HL (vm_pt s) T _ ord HT Ho) as [E|(m & p & E & Hp & Hno & HT')]; rewrite E, some_bind; eexists _, _; (split; [done|]); cbn [live_after held_after vm_spec].
  - rewrite Z.eqb_refl. apply (frames_change s c U Φ F G _ c held HI); try done; [|apply (vi_own _ _ _ _ _ _ _ _ HI)]. exists T. by destruct (vm_pt s).
  - rewrite (proj2 (Z.eqb_neq _ _)) by done. apply (frames_change s c U Φ F G _ (Clients (c_roots c) (<[p := ord]> (c_others c)))); try done; cbn [c_others].
    + by exists T.
    + intros q vp f Hf%(vi_own _ _ _ _ _ _ _ _ HI). rewrite lookup_insert_ne; [done|congruence].
    + by apply insert_mono.
    + intros q vp f Hf. rewrite lookup_insert_ne; [by eapply Hheld|]. apply (vi_own _ _ _ _ _ _ _ _ HI) in Hf. congruence.
Qed.

Lemma give_meets s L held p ord : vm_good s L held → held !! p = Some ord → vm_meets (VGive p ord) s L held.
Proof using HL H48.
  intros (c & U & Φ & F & G & HI & -> & Hsub & Hheld) Hp. pose proof (vi_pt _ _ _ _ _ _ _ _ HI) as (T & HT & HR & Htlb). unfold vm_meets. cbn [run_vm].
  destruct (give_inv base n HL (vm_pt s) T _ p ord HT (lookup_weaken _ _ _ _ Hp Hsub)) as (m & E & HT'). rewrite E, some_bind. eexists _, _. split; [done|]. cbn [live_after held_after vm_spec].
  apply (frames_change s c U Φ F G _ (Clients (c_roots c) (delete p (c_others c)))); try done; cbn [c_others].
  - by exists T.
  - intros q vp f Hf. rewrite lookup_delete_ne; [by eapply (vi_own _ _ _ _ _ _ _ _ HI)|]. apply Hheld in Hf. congruence.
  - by apply delete_mono.
  - intros q vp f Hf. rewrite lookup_delete_ne; [by eapply Hheld|]. apply Hheld in Hf. congruence.
Qed.

Lemma fill_meets s L held asid i vp : vm_good s L held → i ∈ L → 0 <= vp < 2 ^ 36 → vm_meets (VFill asid i vp) s L held.
Proof using HL H48.
  intros (c & U & Φ & F & G & HI & -> & Hsub & Hheld) Hi Hvp. eexists _, _. split; [done|]. cbn [live_after held_after vm_spec].
  apply (frames_change s c U Φ F G _ c held HI); try done; [| |apply (vi_own _ _ _ _ _ _ _ _ HI)].
  - apply fill_good; [apply (vi_pt _ _ _ _ _ _ _ _ HI)|by eapply slot_root|done].
  - intros q v. unfold tlb_fill. by destruct (pt_view (vm_pt s) (pgd_of s i) vp).
Qed.

Lemma find_meets s L held i vaddr : vm_good s L held → i ∈ L → vm_meets (VFind i vaddr) s L held.
Proof using HL H48.
  intros HV Hi. pose proof HV as (c & U & Φ & F & G & HI & -> & _). apply elem_of_dom in Hi as [t Ui]. destruct (vi_space _ _ _ _ _ _ _ _ HI i t Ui) as [x Hx].
  destruct (find_run _ _ _ _ _ _ _ vaddr Hx) as (o & E & Ho). unfold vm_meets. cbn [run_vm]. rewrite E, some_bind. eexists _, _. split; [done|]. split; [done|]. split; [done|].
  rewrite (inv_regions _ _ _ _ _ _ _ _ _ _ HI Ui). destruct o as [v|]; cbn [default].
  - destruct Ho as [Hv Hc]. pose proof (sk_ids _ _ _ _ _ _ _ Hx v Hv). cbn. rewrite (proj2 (Z.eqb_neq v (-1))) by lia. split; [|exact Hc]. apply (list_elem_of_fmap_2 (region_at (s_vma_pool s))). exact Hv.
  - cbn. intros w (v & -> & Hv)%list_elem_of_fmap. by apply Ho.
Qed.

Lemma switch_meets s L held c i : vm_good s L held → i ∈ L → 0 <= c < CONFIG_MAX_CPUS → vm_meets (VSwitch c i) s L held.
Proof using HL H48.
  intros (cl & U & Φ & F & G & HI & -> & Hsub & Hheld) Hi Hc. pose proof Hi as [t Ui]%elem_of_dom. destruct (slot_pgd _ _ _ _ _ _ _ _ HI Ui) as (x & Hx & Epgd).
  destruct (vi_lengths _ _ _ _ _ _ _ _ HI) as (L1 & L2 & L3 & L4). unfold vm_meets. cbn [run_vm]. unfold vmspace_switch.
  rewrite zupdate_total, some_bind by lia. cbn [get_space s_space_pool upd_current]. rewrite (sk_x _ _ _ _ _ _ _ Hx), some_bind.
  assert (Hne : vs_pgd x ≠ 0).
  { pose proof (vi_pt _ _ _ _ _ _ _ _ HI) as (T & HT & HR & _). pose proof (proj1 (HR _) (sk_pgd _ _ _ _ _ _ _ Hx)) as Hr.
    by eapply (table_ne0 base n HL H48). }
  rewrite (proj2 (Z.eqb_neq _ _) Hne), zupdate_total, !some_bind by (cbn; lia). eexists _, _. split; [done|]. cbn [live_after held_after vm_spec]. split; [|split; [done|split; [done|split]]].
  - exists cl, U, Φ, F, G. split; [|done]. pose proof HI as [I1 I2 I3 I4 I5 I6 I7 I8 I9 I10 I11 I12 I13 I14 I15 I16]. split; try done.
    + intros j tj Uj. destruct (I2 j tj Uj) as [y Hy]. exists y. eapply space_ok_ext; [exact Hy|apply Hy|apply Hy|done|done].
    + cbn. rewrite !length_insert. done.
  - unfold vmspace_get_current. cbn. rewrite (proj2 (Z.ltb_lt _ _)) by lia. apply zlookup_insert_eq. lia.
  - cbn. rewrite zlookup_insert_eq, Epgd by lia. done.
Qed.

Lemma create_meets s L held : vm_good s L held → vm_meets VCreate s L held.
Proof using HL H48.
  intros (c & U & Φ & F & G & HI & -> & Hsub & Hheld). destruct (create_space_step base n HL H48 s c U Φ F G HI) as (s' & r & E & Hcase). unfold vm_meets. cbn [run_vm]. rewrite E, some_bind.
  assert (Hviews : unchanged (c_roots c) (pt_view (vm_pt s)) (pt_view (vm_pt s')) → (∀ j, is_Some (U !! j) → (s_space_pool s').[j] = (s_space_pool s).[j]) → views_stay (dom U) (sview s) s').
  { intros Hun Hsp j vp Hj Hvp. unfold sview, pgd_of. rewrite Hsp by (by apply elem_of_dom). apply Hun; [|done]. by eapply slot_root. }
  destruct Hcase as [(-> & HI' & Hpt & Hr)|(i & pgd & x & G' & -> & Ui & Hp & Ex & Epgd & HI' & Hun & Hnone & Hpool & Hsp)]; eexists _, _; (split; [done|]); cbn [live_after held_after vm_spec].
  - rewrite (proj2 (Z.leb_gt 0 (- ENOMEM))) by (change ENOMEM with 12; lia). split; [by exists c, U, Φ, F, G|].
    split; [apply Hviews; [by rewrite Hpt|intros j Uj; by apply Hr]|split; [|by left]]. intros j Hj%elem_of_dom. by apply Hr.
  - pose proof (zlookup_Some_lt _ _ _ Ex) as Hir. rewrite (proj2 (Z.leb_le 0 i)) by lia. split; [|split; [by apply Hviews|split]].
    + eexists _, _, Φ, F, G'. split; [exact HI'|]. split; [by rewrite dom_insert_L|done].
    + eapply stay_regions; [exact HI|exact HI'|]. intros j [t Uj]%elem_of_dom. exists t. rewrite lookup_insert_ne by congruence. by rewrite Hpool.
    + right. destruct (vi_lengths _ _ _ _ _ _ _ _ HI') as (_ & L2 & _). split; [by rewrite not_elem_of_dom|]. split; [lia|].
      split; [by rewrite (inv_regions _ _ _ _ _ _ _ _ _ _ HI' (lookup_insert_eq _ _ _))|]. split; [intros vp; unfold sview, pgd_of; rewrite Ex, Epgd; apply Hnone|].
      intros j y z [t Uj]%elem_of_dom Ey Ez. assert (Hji : i ≠ j) by congruence. assert (is_Some (<[i := Leaf]> U !! i) ∧ is_Some (<[i := Leaf]> U !! j)) as [Hi1 Hj1] by (rewrite lookup_insert_eq, lookup_insert_ne by done; eauto).
      split; intros Heq; apply Hji; [by eapply (vi_pgds _ _ _ _ _ _ _ _ HI')|by eapply (vi_asids _ _ _ _ _ _ _ _ HI')].
Qed.

Lemma run_vm_ok o s L held : vm_good s L held → vm_ok o s L held → vm_meets o s L held.
Proof using HL H48.
  intros HV. destruct o; intros Ho.
  - by apply create_meets.
  - by apply map_meets.
  - by apply unmap_meets.
  - by apply protect_meets.
  - by apply find_meets.
  - destruct Ho. by apply switch_meets.
  - destruct Ho. by apply fill_meets.
  - by apply take_meets.
  - by apply give_meets.
Qed.

Lemma countdown_ok k : 0 <= k → stack_ok (countdown k) k k (countdown k).
Proof.
  intros Hk. assert (Hl : Z.of_nat (length (countdown k)) = k) by (unfold countdown; rewrite length_fmap, length_seqZ; lia). split; [done|done|by apply firstn_all| |].
  - unfold countdown. apply NoDup_fmap_2; [intros x y; lia|apply NoDup_seqZ].
  - unfold countdown. intros x (y & -> & Hy%elem_of_seqZ)%list_elem_of_fmap. lia.
Qed.

Lemma vm_init_good s c : vm_static s → pt_good base n (vm_pt s) c → vm_good (vmspace_subsys_init s).1 ∅ (c_others c).
Proof.
  intros (H1 & H2 & H3) HG. exists c, ∅, (λ _ _, None), (countdown CONFIG_MAX_VMAS), (countdown CONFIG_MAX_VM_SPACES). split; [|split; [by rewrite dom_empty_L|done]].
  split; try done; try (intros *; rewrite lookup_empty; by intros ?).
  - by apply countdown_ok.
  - by apply countdown_ok.
Qed.

Lemma vm_reach_good s L held : vm_reach base n s L held → vm_good s L held.
Proof using HL H48.
  induction 1 as [s c Hst Hpt|s L held o s' r _ IH Ho E].
  - apply vm_init_good; [done|]. by apply pt_reach_good.
  - destruct (run_vm_ok o s L held IH Ho) as (s1 & r1 & E1 & HV & _). rewrite E in E1. by injection E1 as <- <-.
Qed.
End promises.
