(* ===== verification/VmSpaceTheorems.v ===== *)
(** * Address spaces: what they promise

    Address spaces implement a map from pages to descriptors and a sequence of
    disjoint regions each; anonymous pages share no frames; destruction fails. *)

From stdpp Require Import sorting.
From S2P Require Import Prelude KList PhysMem Buddy BuddyInv BuddyOps BuddyInit BuddyTheorems PageTable PageTableInv PageTableOps PageTableTheorems.
From S2P Require Import Rbtree RbtreeInv RbtreeSteps RbtreeInsert RbtreeWalk RbtreeDelete RbtreeTheorems VmSpace VmPages VmSpaceInv VmSpaceSteps VmSpaceCalls VmSpaceRuns.

Set Default Goal Selector "!".

#[local] Arguments Z.pow : simpl never.
#[local] Arguments Z.mul : simpl never.

(** ** The theorems *)

(** C8: Address spaces refine maps from pages to descriptors and sequences of
    disjoint regions.  In every state reached by creating spaces, mapping,
    unmapping, protecting, switching, cache loads and other clients taking and
    returning pages, every permitted call returns, leads to such a state, and
    changes the maps and the regions of the spaces as [vm_spec] says: a mapping adds
    one region with pages that were free and, when it is anonymous, frames that
    nobody has; it is refused only for a reason the specification names; all other
    spaces stay as they are.  Permitted ([vm_ok]) are calls on spaces in use and
    below 2^48; a region is unmapped whole, has its own frames, and its tree node
    is one that [rb_delete] can take out.  The memory starts at a multiple of 8 MB
    ([mem_layout]). *)
Theorem vmspace_refines (base n : Z) (s : vms) (L : gset Z) (held : gmap Z Z) (o : vm_op) :
  mem_layout base n → base + n * CONFIG_PAGE_SIZE <= 2 ^ 48 → vm_reach base n s L held → vm_ok o s L held →
  ∃ s' r, run_vm o s = Some (s', r) ∧ vm_reach base n s' (live_after o r L) (held_after o r held) ∧ vm_spec s L held o r s'.
Proof.
  intros HL H48 HR Ho. pose proof (vm_reach_good base n HL H48 s L held HR) as HG. destruct (run_vm_ok base n HL H48 o s L held HG Ho) as (s' & r & E & _ & Hsp).
  exists s', r. split; [done|]. split; [by eapply vm_step|done].
Qed.

(** C9: Isolation of address spaces.  In every state reached by permitted calls
    ([vm_ok]), on memory that starts at a multiple of 8 MB, the regions of a space are page-aligned,
    ordered and disjoint, and every page of a region is mapped.  An anonymous page
    has a frame to itself: no other anonymous page, of this space or another, is
    mapped to the same frame, and the frame is allocated, held by no other client
    of the page allocator and not in use as a page table.  A region is unmapped
    whole and with its own frames only: [vmspace_unmap] with a size past the end of
    its region unmaps pages of the next one and leaves that region without them,
    and on a region with a fixed physical address it frees frames the space does
    not own. *)
Theorem vm_frames_exclusive (base n : Z) (s : vms) (L : gset Z) (held : gmap Z Z) :
  mem_layout base n → base + n * CONFIG_PAGE_SIZE <= 2 ^ 48 → vm_reach base n s L held →
  (∀ i, i ∈ L → Forall region_ok (regions s i) ∧ StronglySorted (λ a b, vma_end a <= vma_start b) (regions s i)) ∧
  (∀ i r vp, i ∈ L → r ∈ regions s i → has_page r vp → ∃ d, sview s i vp = Some (LPage d)) ∧
  (∀ i j r r' vp vp' d d', i ∈ L → j ∈ L → r ∈ regions s i → r' ∈ regions s j → phys_base r = 0 → phys_base r' = 0 → has_page r vp → has_page r' vp' →
     sview s i vp = Some (LPage d) → sview s j vp' = Some (LPage d') → PTE_PADDR d = PTE_PADDR d' → i = j ∧ vp = vp') ∧
  ∃ T live, PageTableInv.tree (pt_mem (vm_pt s)) T ∧ pm_reach base n (pt_pm (vm_pt s)) live ∧
    ∀ f, anon_frame s L f → live !! f = Some 0 ∧ held !! f = None ∧ T !! phys_to_virt f = None.
Proof.
  intros HL H48 HR. destruct (vm_reach_good base n HL H48 s L held HR) as (c & U & Φ & F & G & HI & -> & Hsub & Hheld).
  assert (Hreg : ∀ i r, i ∈ dom U → r ∈ regions s i → ∃ t x v, space_ok (c_roots c) (pt_view (vm_pt s)) Φ s i t x ∧ pgd_of s i = vs_pgd x ∧ v ∈ inorder t ∧ r = region_at (s_vma_pool s) v ∧ U !! i = Some t).
  { intros i r [t Ui]%elem_of_dom. destruct (slot_pgd _ _ _ _ _ _ _ _ _ _ HI Ui) as (x & Hx & Ep). rewrite (inv_regions _ _ _ _ _ _ _ _ _ _ HI Ui). intros (v & -> & Hv)%list_elem_of_fmap. by exists t, x, v. }
  split; [|split; [|split]].
  - intros i [t Ui]%elem_of_dom. destruct (slot_pgd _ _ _ _ _ _ _ _ _ _ HI Ui) as (x & Hx & _). rewrite (inv_regions _ _ _ _ _ _ _ _ _ _ HI Ui). split.
    + apply Forall_fmap, Forall_forall. intros v Hv. by apply (sk_region _ _ _ _ _ _ _ Hx).
    + induction (sk_apart _ _ _ _ _ _ _ Hx) as [|v rest _ IH Hv]; constructor; [done|by apply Forall_fmap].
  - intros i r vp Hi Hr Hvp. destruct (Hreg i r Hi Hr) as (t & x & v & Hx & Ep & Hv & -> & _). destruct (sk_backed _ _ _ _ _ _ _ Hx v Hv vp Hvp) as (d & Ed & _). exists d. unfold sview. by rewrite Ep.
  - intros i j r r' vp vp' d d' Hi Hj Hr Hr' Hz Hz' Hvp Hvp' Ed Ed' Heq. destruct (Hreg i r Hi Hr) as (t & x & v & Hx & Ep & Hv & -> & Ui), (Hreg j r' Hj Hr') as (t' & x' & v' & Hx' & Ep' & Hv' & -> & Uj).
    destruct (sk_backed _ _ _ _ _ _ _ Hx v Hv vp Hvp) as (e & Ee & He), (sk_backed _ _ _ _ _ _ _ Hx' v' Hv' vp' Hvp') as (e' & Ee' & He'). unfold sview in Ed, Ed'. rewrite Ep, Ee in Ed. rewrite Ep', Ee' in Ed'.
    injection Ed as <-. injection Ed' as <-. pose proof (He Hz) as H1. pose proof (He' Hz') as H2. rewrite <- Heq in H2. destruct (vi_inj _ _ _ _ _ _ _ _ HI _ _ _ _ _ H1 H2) as [Hp ->]. split; [|done].
    eapply (vi_pgds _ _ _ _ _ _ _ _ HI); [eauto|eauto|apply Hx|apply Hx'|done].
  - pose proof (vi_pt _ _ _ _ _ _ _ _ HI) as (T & [HT (live & Hlive & Hol & Htab) _] & _). exists T, live. split; [done|]. split; [done|].
    intros f (q & vp & Hq)%(anon_owned _ _ _ _ _ _ _ _ _ HI). pose proof (vi_own _ _ _ _ _ _ _ _ HI _ _ _ Hq) as Ho. split; [by eapply lookup_weaken|]. split; [by eapply Hheld|].
    destruct (T !! phys_to_virt f) as [nd|] eqn:Et; [|done]. destruct (Htab _ _ Et) as (p & Ep & Hp & Hnone). apply phys_to_virt_inj in Ep; [congruence| |].
    + pose proof (page_range base n HL H48 _ _ f 0 Hlive (lookup_weaken _ _ _ _ Ho Hol)). lia.
    + pose proof (page_range base n HL H48 _ _ p 0 Hlive Hp). lia.
Qed.

(** A mapping whose first page is mapped already is refused and leaves every
    space as it was.  So a caller that maps pages itself can not register them as
    a region, and since the program break never moves the kernel chooses an
    address ([vaddr] 0) at most once per space. *)
Theorem vmspace_map_over_mapped (base n : Z) (s : vms) (L : gset Z) (held : gmap Z Z) (i vaddr size flags : Z) (type : vma_type_t) (paddr : Z) :
  mem_layout base n → base + n * CONFIG_PAGE_SIZE <= 2 ^ 48 → vm_reach base n s L held → vm_ok (VMap i vaddr size flags type paddr) s L held →
  is_Some (sview s i (first_page vaddr)) →
  ∃ s', vmspace_map (Some (PoolSpace i)) vaddr size flags type paddr s = Some (s', 0) ∧ views_stay L (sview s) s' ∧ regions_stay L s s'.
Proof.
  intros HL H48 HR Ho Hm. pose proof (vm_reach_good base n HL H48 s L held HR) as HG.
  destruct (run_vm_ok base n HL H48 _ s L held HG Ho) as (s' & r & E & _ & fs & Hv & Hfree & _ & Hcase). cbn [run_vm] in E.
  assert (fs = []) as ->. { destruct fs; [done|]. specialize (Hfree 0 ltac:(cbn; lia)). rewrite Z.add_0_r in Hfree. destruct Hm. congruence. }
  destruct Hcase as [(_ & HN & Hl & _)|(-> & _ & _ & Hr)]; [cbn in Hl; lia|]. exists s'. split; [done|]. split; [|done].
  intros j vp Hj Hvp. rewrite Hv by done. apply vmap_nil.
Qed.

(** C10: A space with regions can not be destroyed.  Whatever the regions are and
    however many turns the loop over them is given, [vmspace_destroy] does not
    return: it comes to the leftmost node of a red-black tree that has no children
    and is black, whose deletion dereferences NULL.  For a space with one region
    that is the first deletion. *)
Theorem vmspace_destroy_never_returns (base n : Z) (s : vms) (L : gset Z) (held : gmap Z Z) (i : Z) :
  mem_layout base n → base + n * CONFIG_PAGE_SIZE <= 2 ^ 48 → vm_reach base n s L held → i ∈ L → regions s i ≠ [] →
  (∀ fuel pgd, destroy_loop fuel (PoolSpace i) pgd (head (region_ids s i)) s = None) ∧ vmspace_destroy (Some (PoolSpace i)) s = None ∧
  ∀ v x, region_ids s i = [v] → (s_space_pool s).[i] = Some x → rb_delete (Some v) (tree_of x s) = None.
Proof.
  intros HL H48 HR Hi Hne. destruct (vm_reach_good base n HL H48 s L held HR) as (c & U & Φ & F & G & HI & -> & _). apply elem_of_dom in Hi as [t Ui].
  destruct (vi_space _ _ _ _ _ _ _ _ HI i t Ui) as [x Hx]. pose proof Hx as [Ex _ (Ht & Hrb & _) _ _ _ _ _ _ _]. unfold regions in Hne. rewrite (region_ids_tree _ _ _ _ _ _ _ Hx) in *.
  destruct (inorder t) as [|v rest] eqn:Et; [done|]. cbn [head].
  assert (Hstuck : ∀ fuel pgd, destroy_loop fuel (PoolSpace i) pgd (Some v) s = None) by (intros fuel pgd; by eapply destroy_stuck). split; [done|]. split.
  - cbn [vmspace_destroy get_space]. rewrite Ex, some_bind. unfold rb_first. pose proof Ht as (Hroot & _). rewrite Hroot. pose proof (tree_size _ _ Ht).
    rewrite (minimum_at _ t []) by (done || lia). rewrite Et, some_bind. cbn [head]. by rewrite Hstuck.
  - intros v' y [= -> ->] Ey. assert (y = x) as -> by congruence. destruct (leftmost_node t v' [] Hrb Et) as (k & cl & r & -> & _ & _ & [Hc|[_ Hn]]); [by apply Ht| |done].
    by eapply rb_delete_crash.
Qed.

(** ** A concrete run *)

(** The static data, on the 16 pages of the example for page tables. *)
Definition vm_demo0 : vms :=
  Vms pt_demo0 [] (replicate 64 (Vma 0 0 0 VMA_TYPE_ANONYMOUS 0 0)) (list_to_map ((λ i, (i, RbNode None None None RB_COLOR_RED)) <$> seqZ 0 64))
    [] 0 (VmSpaceT 0 0 0 None 0 0 0 0) [] [] [] 0 (replicate 8 0).

Definition vm_run1 (o : vm_op) (s : vms) : vms := default s (fst <$> run_vm o s).
Definition demo_rw : Z := Z.lor VMA_FLAG_READ VMA_FLAG_WRITE.
Definition demo_heap : vm_op := VMap 0 0x400000 0x1001 demo_rw VMA_TYPE_HEAP 0.
Definition demo_stack : vm_op := VMap 0 0x7F0000 0x1000 demo_rw VMA_TYPE_STACK 0.
Definition vm_demo1 : vms := (vmspace_subsys_init vm_demo0).1.
Definition vm_demo2 : vms := vm_run1 VCreate vm_demo1.
Definition vm_demo3 : vms := vm_run1 demo_heap vm_demo2.
Definition vm_demo4 : vms := vm_run1 demo_stack vm_demo3.

Lemma vm_run1_eq o s r : snd <$> run_vm o s = Some r → run_vm o s = Some (vm_run1 o s, r).
Proof. unfold vm_run1. destruct (run_vm o s) as [[x y]|]; [intros E; injection E as <-; reflexivity|discriminate 1]. Qed.

Lemma demo_static : vm_static vm_demo0.
Proof.
  split; [vm_compute; reflexivity|]. split; [vm_compute; reflexivity|]. intros v Hv. cbn [s_vma_nodes vm_demo0]. apply elem_of_dom. rewrite dom_list_to_map_L, <- list_fmap_compose. apply elem_of_list_to_set, list_elem_of_fmap.
  exists v. split; [done|]. apply elem_of_seqZ. change CONFIG_MAX_VMAS with 64 in Hv. lia.
Qed.

Lemma demo_space : 0 ∈ ({[0]} ∪ ∅ : gset Z).
Proof. set_solver. Qed.

Lemma vm_demo_reach1 : vm_reach demo_base 16 vm_demo1 ∅ ∅.
Proof. exact (vm_start demo_base 16 vm_demo0 (Clients ∅ ∅) demo_static demo_reach0). Qed.

Lemma vm_demo_reach2 : vm_reach demo_base 16 vm_demo2 ({[0]} ∪ ∅) ∅.
Proof. apply (vm_step demo_base 16 vm_demo1 ∅ ∅ VCreate vm_demo2 0 vm_demo_reach1 I). apply vm_run1_eq. vm_compute. reflexivity. Qed.

Lemma demo_heap_ok : vm_ok demo_heap vm_demo2 ({[0]} ∪ ∅) ∅.
Proof. split; [exact demo_space|]. split; [split; [discriminate|reflexivity]|]. split; [discriminate|]. vm_compute. discriminate. Qed.

Lemma vm_demo_reach3 : vm_reach demo_base 16 vm_demo3 ({[0]} ∪ ∅) ∅.
Proof. apply (vm_step demo_base 16 vm_demo2 _ ∅ demo_heap vm_demo3 0x400000 vm_demo_reach2 demo_heap_ok). apply vm_run1_eq. vm_compute. reflexivity. Qed.

Lemma demo_stack_ok : vm_ok demo_stack vm_demo3 ({[0]} ∪ ∅) ∅.
Proof. split; [exact demo_space|]. split; [split; [discriminate|reflexivity]|]. split; [discriminate|]. vm_compute. discriminate. Qed.

Lemma vm_demo_reach4 : vm_reach demo_base 16 vm_demo4 ({[0]} ∪ ∅) ∅.
Proof. apply (vm_step demo_base 16 vm_demo3 _ ∅ demo_stack vm_demo4 0x7F0000 vm_demo_reach3 demo_stack_ok). apply vm_run1_eq. vm_compute. reflexivity. Qed.

Definition demo_region_path : list (@frame Z) := [RightOf RB_COLOR_BLACK Leaf 0].

(** The stack is the red right child of the heap. *)
Lemma demo_unmap_ok : vm_ok (VUnmap 0 0x7F0000 0x1000) vm_demo4 ({[0]} ∪ ∅) ∅.
Proof.
  split; [exact demo_space|]. eexists _, demo_region_path, RB_COLOR_RED, Leaf, 1, Leaf. split; [vm_compute; reflexivity|]. split; [|vm_compute; split_and!; reflexivity].
  split; [vm_compute; reflexivity|]. split; [vm_compute; split_and!; done|]. apply (bool_decide_unpack _). vm_compute. exact I.
Qed.

Lemma vmspace_refines_witness :
  ∃ s' r, run_vm (VUnmap 0 0x7F0000 0x1000) vm_demo4 = Some (s', r) ∧ vm_reach demo_base 16 s' ({[0]} ∪ ∅) ∅ ∧
    vm_spec vm_demo4 ({[0]} ∪ ∅) ∅ (VUnmap 0 0x7F0000 0x1000) r s'.
Proof. exact (vmspace_refines demo_base 16 vm_demo4 ({[0]} ∪ ∅) ∅ (VUnmap 0 0x7F0000 0x1000) demo_pages demo_below vm_demo_reach4 demo_unmap_ok). Defined.

(** The two pages of the heap and the page of the stack have frames of their own. *)
Example demo_frames : (λ vp, match sview vm_demo4 0 vp with Some (LPage d) => PTE_PADDR d | _ => 0 end) <$> [0x400; 0x401; 0x402; 0x7F0] = [0x40801000; 0x40805000; 0; 0x40806000].
Proof. vm_compute. reflexivity. Qed.

Lemma vm_frames_exclusive_witness :
  ∃ T live, PageTableInv.tree (pt_mem (vm_pt vm_demo4)) T ∧ pm_reach demo_base 16 (pt_pm (vm_pt vm_demo4)) live ∧
    ∀ f, anon_frame vm_demo4 ({[0]} ∪ ∅) f → live !! f = Some 0 ∧ (∅ : gmap Z Z) !! f = None ∧ T !! phys_to_virt f = None.
Proof. exact (proj2 (proj2 (proj2 (vm_frames_exclusive demo_base 16 vm_demo4 ({[0]} ∪ ∅) ∅ demo_pages demo_below vm_demo_reach4)))). Defined.

(** One automatic mapping, then no more. *)
Definition vm_demo5 : vms := vm_run1 (VMap 0 0 0x1000 demo_rw VMA_TYPE_HEAP 0) vm_demo2.

Lemma demo_auto_ok s : vm_ok (VMap 0 0 0x1000 demo_rw VMA_TYPE_HEAP 0) s ({[0]} ∪ ∅) ∅.
Proof. split; [exact demo_space|]. split; [split; [discriminate|reflexivity]|]. split; [discriminate|]. vm_compute. discriminate. Qed.

Lemma vm_demo_reach5 : vm_reach demo_base 16 vm_demo5 ({[0]} ∪ ∅) ∅.
Proof. apply (vm_step demo_base 16 vm_demo2 _ ∅ (VMap 0 0 0x1000 demo_rw VMA_TYPE_HEAP 0) vm_demo5 0x1000 vm_demo_reach2 (demo_auto_ok _)). apply vm_run1_eq. vm_compute. reflexivity. Qed.

Lemma demo_first_mapped : is_Some (sview vm_demo5 0 (first_page 0)).
Proof. apply not_eq_None_Some. vm_compute. discriminate. Qed.

Lemma vmspace_map_over_mapped_witness :
  ∃ s', vmspace_map (Some (PoolSpace 0)) 0 0x1000 demo_rw VMA_TYPE_HEAP 0 vm_demo5 = Some (s', 0) ∧
    views_stay ({[0]} ∪ ∅) (sview vm_demo5) s' ∧ regions_stay ({[0]} ∪ ∅) vm_demo5 s'.
Proof.
  exact (vmspace_map_over_mapped demo_base 16 vm_demo5 ({[0]} ∪ ∅) ∅ 0 0 0x1000 demo_rw VMA_TYPE_HEAP 0
    demo_pages demo_below vm_demo_reach5 (demo_auto_ok _) demo_first_mapped).
Defined.

Lemma demo_has_regions : regions vm_demo4 0 ≠ [].
Proof. vm_compute. discriminate. Qed.

Lemma vmspace_destroy_never_returns_witness : vmspace_destroy (Some (PoolSpace 0)) vm_demo4 = None.
Proof. exact (proj1 (proj2 (vmspace_destroy_never_returns demo_base 16 vm_demo4 ({[0]} ∪ ∅) ∅ 0 demo_pages demo_below vm_demo_reach4 demo_space demo_has_regions))). Defined.

(** A mapping that meets a mapped page keeps the pages before it: they are mapped
    but belong to no region, so no call gives their frames back. *)
Example demo_partial_map :
  let o := VMap 0 0x7EF000 0x3000 demo_rw VMA_TYPE_HEAP 0 in
  snd <$> run_vm o vm_demo4 = Some 0 ∧ sview vm_demo4 0 0x7EF = None ∧
  (match sview (vm_run1 o vm_demo4) 0 0x7EF with Some (LPage d) => PTE_PADDR d | _ => 0 end) = 0x40808000 ∧
  regions (vm_run1 o vm_demo4) 0 = regions vm_demo4 0.
Proof. vm_compute. split_and!; reflexivity. Qed.

(** A space without regions is destroyed: slot, ASID and root are free again. *)
Example demo_destroy_empty :
  (λ s, (s_space_free_count s, s_asid_bitmap s, free_counts (pt_pm (vm_pt s)))) <$> vmspace_destroy (Some (PoolSpace 0)) vm_demo2 =
  Some (16, replicate 32 0, free_counts (pt_pm pt_demo0)).
Proof. vm_compute. reflexivity. Qed.
