(* ===== verification/KString.v ===== *)
(** * Kernel memory and string functions (lib/kernel_string.c, kernel/mm/uaccess.c)

    Memory is a map from addresses to bytes; an access to an address that is not
    in the map is undefined.  Pointers are addresses, NULL is 0.  Loops that run
    to a terminator take the number of mapped bytes as fuel: each round reads
    another mapped byte. *)

From S2P Require Import Prelude.

Set Default Goal Selector "!".

Notation mem := (gmap Z Z).

Definition ld (a : Z) (m : mem) : option Z := m !! a.
Definition st (a v : Z) (m : mem) : option mem := _ ← m !! a; Some (<[a := v]> m).

(** Words in little-endian order, [k] bytes. *)
Fixpoint ld_le (k : nat) (a : Z) (m : mem) : option Z :=
  match k with
  | O => Some 0
  | S k => b ← ld a m; v ← ld_le k (a + 1) m; Some (Z.lor b (Z.shiftl v 8))
  end.
Fixpoint st_le (k : nat) (a v : Z) (m : mem) : option mem :=
  match k with
  | O => Some m
  | S k => m ← st a (Z.land v 255) m; st_le k (a + 1) (Z.shiftr v 8) m
  end.

(** ** Copying *)

(** [while ((n >= 8) && ((d & 7) == (s & 7)))], up to an aligned address. *)
Fixpoint align_loop (fuel : nat) (d s n : Z) (m : mem) : option (Z * Z * Z * mem) :=
  if (n >=? 8) && (Z.land d 7 =? Z.land s 7) then
    if Z.land d 7 =? 0 then Some (d, s, n, m)
    else
      match fuel with
      | O => None
      | S fuel => b ← ld s m; m ← st d b m; align_loop fuel (d + 1) (s + 1) (n - 1) m
      end
  else Some (d, s, n, m).

(** [while (n >= 8)] *)
Fixpoint block_loop (fuel : nat) (d s n : Z) (m : mem) : option (Z * Z * Z * mem) :=
  if n >=? 8 then
    match fuel with
    | O => None
    | S fuel => val ← ld_le 8 s m; m ← st_le 8 d val m; block_loop fuel (d + 8) (s + 8) (n - 8) m
    end
  else Some (d, s, n, m).

(** [for (; i < n; i++) d[i] = s[i]], [k] rounds from [i] on. *)
Fixpoint copy_up (k : nat) (i d s : Z) (m : mem) : option mem :=
  match k with
  | O => Some m
  | S k => b ← ld (s + i) m; m ← st (d + i) b m; copy_up k (i + 1) d s m
  end.

(** [while (i > 0) { i--; d[i] = s[i]; }] from [i = k] *)
Fixpoint copy_down (k : nat) (d s : Z) (m : mem) : option mem :=
  match k with
  | O => Some m
  | S k => b ← ld (s + Z.of_nat k) m; m ← st (d + Z.of_nat k) b m; copy_down k d s m
  end.

Definition kernel_memcpy (dest src n : Z) (m : mem) : option (mem * Z) :=
  if (dest =? 0) || (src =? 0) then Some (m, dest)
  else
    '(d, s, n, m) ← align_loop 8 dest src n m;
    '(d, s, n, m) ← block_loop (Z.to_nat n) d s n m;
    m ← copy_up (Z.to_nat n) 0 d s m;
    Some (m, dest).

Definition kernel_memmove (dest src n : Z) (m : mem) : option (mem * Z) :=
  if (dest =? 0) || (src =? 0) then Some (m, dest)
  else if dest =? src then Some (m, dest)
  else
    m ← (if dest <? src then copy_up (Z.to_nat n) 0 dest src m else copy_down (Z.to_nat n) dest src m);
    Some (m, dest).

Fixpoint fill (k : nat) (i p val : Z) (m : mem) : option mem :=
  match k with O => Some m | S k => m ← st (p + i) val m; fill k (i + 1) p val m end.

Definition kernel_memset (s c n : Z) (m : mem) : option (mem * Z) :=
  if s =? 0 then Some (m, s)
  else
    let val := u8 (Z.land c 255) in
    m ← fill (Z.to_nat n) 0 s val m;
    Some (m, s).

Definition kernel_memzero (s n : Z) (m : mem) : option mem := '(m, _) ← kernel_memset s 0 n m; Some m.

(** ** Comparing and searching memory *)

Fixpoint memcmp_loop (k : nat) (i p1 p2 : Z) (m : mem) : option Z :=
  match k with
  | O => Some 0
  | S k =>
      a ← ld (p1 + i) m; b ← ld (p2 + i) m;
      let diff := a - b in
      if negb (diff =? 0) then Some diff else memcmp_loop k (i + 1) p1 p2 m
  end.

Definition kernel_memcmp (s1 s2 n : Z) (m : mem) : option Z :=
  if (s1 =? 0) && (s2 =? 0) then Some 0
  else if s1 =? 0 then Some (-1)
  else if s2 =? 0 then Some 1
  else memcmp_loop (Z.to_nat n) 0 s1 s2 m.

Fixpoint memchr_loop (k : nat) (i p val : Z) (m : mem) : option Z :=
  match k with
  | O => Some 0
  | S k => b ← ld (p + i) m; if b =? val then Some (p + i) else memchr_loop k (i + 1) p val m
  end.

Definition kernel_memchr (s c n : Z) (m : mem) : option Z :=
  if s =? 0 then Some 0
  else
    let val := u8 (Z.land c 255) in
    memchr_loop (Z.to_nat n) 0 s val m.

(** ** Strings *)

Fixpoint strlen_loop (fuel : nat) (s len : Z) (m : mem) : option Z :=
  b ← ld (s + len) m;
  if b =? 0 then Some len else match fuel with O => None | S fuel => strlen_loop fuel s (len + 1) m end.

Definition kernel_strlen (s : Z) (m : mem) : option Z := if s =? 0 then Some 0 else strlen_loop (size m) s 0 m.

Fixpoint strnlen_loop (k : nat) (s len : Z) (m : mem) : option Z :=
  match k with
  | O => Some len
  | S k => b ← ld (s + len) m; if b =? 0 then Some len else strnlen_loop k s (len + 1) m
  end.

Definition kernel_strnlen (s maxn : Z) (m : mem) : option Z := if s =? 0 then Some 0 else strnlen_loop (Z.to_nat maxn) s 0 m.

(** [while (src[i] != 0) { dest[i] = src[i]; i++; }], at [d = dest]; the value of [i]. *)
Fixpoint copy_string_loop (fuel : nat) (i d src : Z) (m : mem) : option (mem * Z) :=
  b ← ld (src + i) m;
  if b =? 0 then Some (m, i)
  else match fuel with O => None | S fuel => m ← st (d + i) b m; copy_string_loop fuel (i + 1) d src m end.

Definition kernel_strcpy (dest src : Z) (m : mem) : option (mem * Z) :=
  if (dest =? 0) || (src =? 0) then Some (m, dest)
  else
    '(m, i) ← copy_string_loop (size m) 0 dest src m;
    m ← st (dest + i) 0 m;
    Some (m, dest).

(** [for (i = 0; (i < n) && (src[i] != 0); i++) d[i] = src[i]] *)
Fixpoint strncpy_loop (k : nat) (i d src : Z) (m : mem) : option (mem * Z) :=
  match k with
  | O => Some (m, i)
  | S k => b ← ld (src + i) m; if b =? 0 then Some (m, i) else m ← st (d + i) b m; strncpy_loop k (i + 1) d src m
  end.

Definition kernel_strncpy (dest src n : Z) (m : mem) : option (mem * Z) :=
  if (dest =? 0) || (src =? 0) then Some (m, dest)
  else
    '(m, i) ← strncpy_loop (Z.to_nat n) 0 dest src m;
    m ← fill (Z.to_nat (n - i)) i dest 0 m;
    Some (m, dest).

Definition kernel_strcat (dest src : Z) (m : mem) : option (mem * Z) :=
  if (dest =? 0) || (src =? 0) then Some (m, dest)
  else
    dest_len ← kernel_strlen dest m;
    '(m, i) ← copy_string_loop (size m) 0 (dest + dest_len) src m;
    m ← st (dest + dest_len + i) 0 m;
    Some (m, dest).

Definition kernel_strncat (dest src n : Z) (m : mem) : option (mem * Z) :=
  if (dest =? 0) || (src =? 0) then Some (m, dest)
  else
    dest_len ← kernel_strlen dest m;
    '(m, i) ← strncpy_loop (Z.to_nat n) 0 (dest + dest_len) src m;
    m ← st (dest + dest_len + i) 0 m;
    Some (m, dest).

Fixpoint strcmp_loop (fuel : nat) (i s1 s2 : Z) (m : mem) : option Z :=
  c1 ← ld (s1 + i) m; c2 ← ld (s2 + i) m;
  if negb (c1 =? c2) then Some (c1 - c2)
  else if c1 =? 0 then Some 0
  else match fuel with O => None | S fuel => strcmp_loop fuel (i + 1) s1 s2 m end.

Definition kernel_strcmp (s1 s2 : Z) (m : mem) : option Z :=
  if (s1 =? 0) && (s2 =? 0) then Some 0
  else if s1 =? 0 then Some (-1)
  else if s2 =? 0 then Some 1
  else strcmp_loop (size m) 0 s1 s2 m.

Fixpoint strncmp_loop (k : nat) (i s1 s2 : Z) (m : mem) : option Z :=
  match k with
  | O => Some 0
  | S k =>
      c1 ← ld (s1 + i) m; c2 ← ld (s2 + i) m;
      if negb (c1 =? c2) then Some (c1 - c2) else if c1 =? 0 then Some 0 else strncmp_loop k (i + 1) s1 s2 m
  end.

Definition kernel_strncmp (s1 s2 n : Z) (m : mem) : option Z :=
  if n =? 0 then Some 0
  else if (s1 =? 0) && (s2 =? 0) then Some 0
  else if s1 =? 0 then Some (-1)
  else if s2 =? 0 then Some 1
  else strncmp_loop (Z.to_nat n) 0 s1 s2 m.

(** The pointer found, or the index of the terminator. *)
Fixpoint strchr_loop (fuel : nat) (i s val : Z) (m : mem) : option (Z + Z) :=
  b ← ld (s + i) m;
  if b =? 0 then Some (inr i)
  else if b =? val then Some (inl (s + i))
  else match fuel with O => None | S fuel => strchr_loop fuel (i + 1) s val m end.

Definition kernel_strchr (s c : Z) (m : mem) : option Z :=
  if s =? 0 then Some 0
  else
    let val := u8 (Z.land c 255) in
    r ← strchr_loop (size m) 0 s val m;
    match r with inl p => Some p | inr i => if val =? 0 then Some (s + i) else Some 0 end.

Fixpoint strrchr_loop (k : nat) (i s val result : Z) (m : mem) : option Z :=
  match k with
  | O => Some result
  | S k => b ← ld (s + i) m; strrchr_loop k (i + 1) s val (if b =? val then s + i else result) m
  end.

Definition kernel_strrchr (s c : Z) (m : mem) : option Z :=
  if s =? 0 then Some 0
  else
    let val := u8 (Z.land c 255) in
    len ← kernel_strlen s m;
    strrchr_loop (Z.to_nat (len + 1)) 0 s val 0 m.

(** The inner loop: whether all of the needle matches. *)
Fixpoint match_loop (k : nat) (j h needle : Z) (m : mem) : option bool :=
  match k with
  | O => Some true
  | S k => a ← ld (h + j) m; b ← ld (needle + j) m; if negb (a =? b) then Some false else match_loop k (j + 1) h needle m
  end.

Fixpoint strstr_loop (k : nat) (i haystack needle n_len : Z) (m : mem) : option Z :=
  match k with
  | O => Some 0
  | S k =>
      ok ← match_loop (Z.to_nat n_len) 0 (haystack + i) needle m;
      if (ok : bool) then Some (haystack + i) else strstr_loop k (i + 1) haystack needle n_len m
  end.

Definition kernel_strstr (haystack needle : Z) (m : mem) : option Z :=
  if (haystack =? 0) || (needle =? 0) then Some 0
  else
    n_len ← kernel_strlen needle m;
    if n_len =? 0 then Some haystack
    else
      h_len ← kernel_strlen haystack m;
      if n_len >? h_len then Some 0
      else strstr_loop (Z.to_nat (h_len - n_len + 1)) 0 haystack needle n_len m.

(** ** Numbers *)

Definition is_space (c : Z) : bool := (c =? 32) || (c =? 9) || (c =? 10) || (c =? 13) || (c =? 11) || (c =? 12).

Fixpoint skip_spaces (fuel : nat) (str : Z) (m : mem) : option Z :=
  c ← ld str m;
  if is_space c then match fuel with O => None | S fuel => skip_spaces fuel (str + 1) m end else Some str.

Definition char_to_digit (c base : Z) : Z :=
  let check val := if val >=? base then -1 else val in
  if (c >=? 48) && (c <=? 57) then check (c - 48)
  else if (c >=? 97) && (c <=? 122) then check (c - 97 + 10)
  else if (c >=? 65) && (c <=? 90) then check (c - 65 + 10)
  else -1.

(** Signed overflow is undefined. *)
Definition int32 (x : Z) : option Z := if (- 2 ^ 31 <=? x) && (x <? 2 ^ 31) then Some x else None.

(** [(int32_t)x] of a 32-bit word *)
Definition s32 (x : Z) : Z := if x <? 2 ^ 31 then x else x - 2 ^ 32.

(** The sign and what follows it. *)
Definition read_sign (p : Z) (m : mem) : option (bool * Z) :=
  c ← ld p m;
  Some (if c =? 45 then (true, p + 1) else if c =? 43 then (false, p + 1) else (false, p)).

Definition is_x (c : Z) : bool := (c =? 120) || (c =? 88).

(** The base to use and where the digits start. *)
Definition read_base (p base : Z) (m : mem) : option (Z * Z) :=
  if base =? 0 then
    c ← ld p m;
    if c =? 48 then c1 ← ld (p + 1) m; Some (if is_x c1 then (16, p + 2) else (8, p + 1))
    else Some (10, p)
  else if base =? 16 then
    c ← ld p m;
    if c =? 48 then c1 ← ld (p + 1) m; Some (if is_x c1 then (16, p + 2) else (16, p)) else Some (16, p)
  else Some (base, p).

(** The loop over digits; [acc] is the step of the accumulator. *)
Fixpoint digits_loop (acc : Z → Z → option Z) (fuel : nat) (base result p : Z) (m : mem) : option (Z * Z) :=
  c ← ld p m;
  if c =? 0 then Some (result, p)
  else
    let digit := char_to_digit c base in
    if digit <? 0 then Some (result, p)
    else
      match fuel with
      | O => None
      | S fuel => result ← acc result digit; digits_loop acc fuel base result (p + 1) m
      end.

(** [result = result * base + digit], on [int32_t] and on [uint32_t] *)
Definition acc_s (base result digit : Z) : option Z := r ← int32 (result * base); int32 (r + digit).
Definition acc_u (base result digit : Z) : option Z := Some (u32 (u64 (u64 (result * u64 base) + u64 digit))).

(** [endptr] says whether the output pointer is not NULL. *)
Definition kernel_strtol (nptr : Z) (endptr : bool) (base : Z) (m : mem) : option (Z * option Z) :=
  if nptr =? 0 then Some (0, if endptr then Some 0 else None)
  else
    p ← skip_spaces (size m) nptr m;
    '(negative, p) ← read_sign p m;
    '(base, p) ← read_base p base m;
    '(result, p) ← digits_loop (acc_s base) (size m) base 0 p m;
    result ← (if (negative : bool) then int32 (- result) else Some result);
    Some (result, if endptr then Some p else None).

Definition kernel_strtoul (nptr : Z) (endptr : bool) (base : Z) (m : mem) : option (Z * option Z) :=
  if nptr =? 0 then Some (0, if endptr then Some 0 else None)
  else
    p ← skip_spaces (size m) nptr m;
    '(negative, p) ← read_sign p m;
    '(base, p) ← read_base p base m;
    '(result, p) ← digits_loop (acc_u base) (size m) base 0 p m;
    result ← (if (negative : bool) then r ← int32 (- s32 result); Some (u32 r) else Some result);
    Some (result, if endptr then Some p else None).

(** ** The names that the compiler calls *)

Definition memset (s c n : Z) (m : mem) : option (mem * Z) := kernel_memset s c n m.
Definition memcpy (dest src n : Z) (m : mem) : option (mem * Z) := kernel_memcpy dest src n m.
Definition memmove (dest src n : Z) (m : mem) : option (mem * Z) := kernel_memmove dest src n m.
Definition memcmp (s1 s2 n : Z) (m : mem) : option Z := kernel_memcmp s1 s2 n m.

(** ** User memory (kernel/mm/uaccess.c) *)

Definition USER_ADDR_MAX : Z := 0xFFFF000000000000.

Definition access_ok (addr sz : Z) : bool :=
  if addr =? 0 then false
  else if addr >=? USER_ADDR_MAX then false
  else if sz >? 0 then
    let end_addr := u64 (addr + (sz - 1)) in
    if end_addr <? addr then false else if end_addr >=? USER_ADDR_MAX then false else true
  else true.

Definition copy_from_user (dst src n : Z) (m : mem) : option (mem * Z) :=
  if (dst =? 0) || (src =? 0) then Some (m, - EFAULT)
  else if n =? 0 then Some (m, 0)
  else if negb (access_ok src n) then Some (m, - EFAULT)
  else '(m, _) ← kernel_memmove dst src n m; Some (m, 0).

Definition copy_to_user (dst src n : Z) (m : mem) : option (mem * Z) :=
  if (dst =? 0) || (src =? 0) then Some (m, - EFAULT)
  else if n =? 0 then Some (m, 0)
  else if negb (access_ok dst n) then Some (m, - EFAULT)
  else '(m, _) ← kernel_memmove dst src n m; Some (m, 0).

(** [k] rounds from [i] on; the early result, or [None] inside at the end. *)
Fixpoint strncpy_user_loop (k : nat) (i dst src : Z) (m : mem) : option (mem * option Z) :=
  match k with
  | O => Some (m, None)
  | S k =>
      if negb (access_ok (src + i) 1) then Some (m, Some (- EFAULT))
      else
        b ← ld (src + i) m;
        m ← st (dst + i) b m;
        b ← ld (src + i) m;
        if b =? 0 then Some (m, Some (s32 i)) else strncpy_user_loop k (i + 1) dst src m
  end.

Definition strncpy_from_user (dst src maxlen : Z) (m : mem) : option (mem * Z) :=
  if (dst =? 0) || (src =? 0) || (maxlen =? 0) then Some (m, - EFAULT)
  else
    '(m, r) ← strncpy_user_loop (Z.to_nat maxlen) 0 dst src m;
    match r with
    | Some v => Some (m, v)
    | None => m ← st (dst + (maxlen - 1)) 0 m; Some (m, s32 (maxlen - 1))
    end.
