(* ===== verification/KStringSpec.v ===== *)
(** * Memory and strings as sequences of bytes

    [bytes_at m a l]: memory holds [l] from address [a] on; [cstr m a l]: it holds
    the string [l] with its terminator.  [put a l m] is memory with [l] written
    from [a] on: what a copy is compared with. *)

From S2P Require Import Prelude KString.

Set Default Goal Selector "!".

#[local] Arguments Z.pow : simpl never.
#[local] Arguments Z.mul : simpl never.

Implicit Types (m : mem) (l x y : list Z) (a d s p : Z).

(** ** Sequences in memory *)

Definition bytes_at m a l : Prop := ∀ j b, l !! j = Some b → m !! (a + Z.of_nat j) = Some b.
Definition mapped m a (n : Z) : Prop := ∀ p, a <= p < a + n → is_Some (m !! p).
Definition bytes_ok m : Prop := ∀ a b, m !! a = Some b → 0 <= b < 256.
Definition cstr m a l : Prop := bytes_at m a (l ++ [0]) ∧ 0 ∉ l.

Fixpoint put a l m : mem := match l with [] => m | b :: l => put (a + 1) l (<[a := b]> m) end.

Lemma put_lookup a l m p : put a l m !! p = if decide (a <= p < a + Z.of_nat (length l)) then l !! Z.to_nat (p - a) else m !! p.
Proof.
  revert a m. induction l as [|b l IH]; intros a m; cbn [put length]; [by rewrite decide_False by lia|]. rewrite IH. destruct (decide (p = a)) as [->|Hne].
  - rewrite decide_False, lookup_insert_eq, decide_True by lia. by replace (Z.to_nat (a - a)) with 0%nat by lia.
  - rewrite lookup_insert_ne by done. destruct (decide (a + 1 <= p < a + 1 + Z.of_nat (length l))) as [H|H].
    + rewrite decide_True by lia. by replace (Z.to_nat (p - a)) with (S (Z.to_nat (p - (a + 1)))) by lia.
    + by rewrite decide_False by lia.
Qed.

Lemma put_app a x y m : put a (x ++ y) m = put (a + Z.of_nat (length x)) y (put a x m).
Proof. revert a m. induction x as [|b x IH]; intros a m; cbn [put app length]; [by rewrite Z.add_0_r|]. rewrite IH. f_equal. lia. Qed.

Lemma put_snoc a x b m : put a (x ++ [b]) m = <[a + Z.of_nat (length x) := b]> (put a x m).
Proof. by rewrite put_app. Qed.

Lemma put_insert a l m p v : p < a ∨ a + Z.of_nat (length l) <= p → put a l (<[p := v]> m) = <[p := v]> (put a l m).
Proof.
  intros Hp. apply map_eq. intros q. rewrite put_lookup. destruct (decide (q = p)) as [->|Hne].
  - by rewrite decide_False, !lookup_insert_eq by lia.
  - by rewrite !lookup_insert_ne, put_lookup by done.
Qed.

Lemma put_same a l m : bytes_at m a l → put a l m = m.
Proof.
  intros Hb. apply map_eq. intros p. rewrite put_lookup. case_decide as Hp; [|done]. destruct (lookup_lt_is_Some_2 l (Z.to_nat (p - a))) as [b Eb]; [lia|].
  rewrite Eb. apply Hb in Eb. by replace (a + Z.of_nat (Z.to_nat (p - a))) with p in Eb by lia.
Qed.

Lemma put_bytes a l m : bytes_at (put a l m) a l.
Proof.
  intros j b Hj. pose proof (lookup_lt_Some _ _ _ Hj). rewrite put_lookup, decide_True by lia. by replace (Z.to_nat (a + Z.of_nat j - a)) with j by lia.
Qed.

Lemma put_dom a l m : mapped m a (Z.of_nat (length l)) → dom (put a l m) = dom m.
Proof.
  intros Hm. apply set_eq. intros p. rewrite !elem_of_dom, put_lookup. case_decide as Hp; [|done]. split; intros _; [by apply Hm|]. apply lookup_lt_is_Some_2. lia.
Qed.

Lemma bytes_at_app m a x y : bytes_at m a (x ++ y) ↔ bytes_at m a x ∧ bytes_at m (a + Z.of_nat (length x)) y.
Proof.
  split.
  - intros H. split; intros j b Hj; [apply H; by rewrite lookup_app_l by (by eapply lookup_lt_Some)|].
    replace (a + Z.of_nat (length x) + Z.of_nat j) with (a + Z.of_nat (length x + j)) by lia. apply H. by rewrite lookup_app_r, Nat.add_sub' by lia.
  - intros [H1 H2] j b [Hj|[Hlen Hj]]%lookup_app_Some; [by apply H1|]. apply H2 in Hj. by replace (a + Z.of_nat (length x) + Z.of_nat (j - length x)) with (a + Z.of_nat j) in Hj by lia.
Qed.

Lemma bytes_at_cons m a b l : bytes_at m a (b :: l) ↔ m !! a = Some b ∧ bytes_at m (a + 1) l.
Proof.
  change (b :: l) with ([b] ++ l). rewrite bytes_at_app. cbn [length]. change (Z.of_nat 1) with 1. split; intros [H1 H2]; (split; [|done]).
  - specialize (H1 0%nat b eq_refl). by rewrite Z.add_0_r in H1.
  - intros [|j] c Hj; [|done]. injection Hj as <-. by rewrite Z.add_0_r.
Qed.

Lemma bytes_at_mapped m a l : bytes_at m a l → mapped m a (Z.of_nat (length l)).
Proof.
  intros H p Hp. destruct (lookup_lt_is_Some_2 l (Z.to_nat (p - a))) as [b Eb]; [lia|]. apply H in Eb.
  replace (a + Z.of_nat (Z.to_nat (p - a))) with p in Eb by lia. by exists b.
Qed.

(** No sequence is longer than memory. *)
Lemma mapped_size m a (k : nat) : mapped m a (Z.of_nat k) → (k <= size m)%nat.
Proof.
  intros Hm. assert (list_to_set (seqZ a (Z.of_nat k)) ⊆ dom m) as Hsub.
  { intros p Hp. apply elem_of_list_to_set, elem_of_seqZ in Hp. apply elem_of_dom. apply Hm. lia. }
  apply subseteq_size in Hsub. rewrite size_list_to_set, length_seqZ, size_dom in Hsub by apply NoDup_seqZ. lia.
Qed.

Lemma bytes_at_size m a l : bytes_at m a l → (length l <= size m)%nat.
Proof. intros H. by eapply mapped_size, bytes_at_mapped. Qed.

Lemma size_put a l m : mapped m a (Z.of_nat (length l)) → size (put a l m) = size m.
Proof. intros Hm. by rewrite <- !size_dom, put_dom. Qed.

Lemma mapped_put m a l b n : mapped m b n → mapped m a (Z.of_nat (length l)) → mapped (put a l m) b n.
Proof. intros Hb Ha p Hp. rewrite <- elem_of_dom, put_dom by done. apply elem_of_dom. by apply Hb. Qed.

(** ** Copying upwards *)

(** Copying [n] bytes upwards from [s] to [d] overwrites no byte before it is
    read. *)
Definition fwd d s (n : Z) : Prop := d <= s ∨ s + n <= d.

Record ready d s l m : Prop := Ready {
  rd_bytes : bytes_at m s l;
  rd_mapped : mapped m d (Z.of_nat (length l));
  rd_fwd : fwd d s (Z.of_nat (length l))
}.

Lemma st_mapped m a v n : mapped m a n → 0 < n → st a v m = Some (<[a := v]> m).
Proof. intros Hm Hn. unfold st. destruct (Hm a) as [b ->]; [lia|]. done. Qed.

Lemma mapped_insert m a n p v : mapped m a n → mapped (<[p := v]> m) a n.
Proof. intros Hm q Hq. destruct (decide (q = p)) as [->|]; [rewrite lookup_insert_eq; eauto|rewrite lookup_insert_ne by done; by apply Hm]. Qed.

Lemma mapped_le m a n a' n' : mapped m a n → a <= a' → a' + n' <= a + n → mapped m a' n'.
Proof. intros Hm H1 H2 p Hp. apply Hm. lia. Qed.

(** The source behind a byte that is written. *)
Lemma bytes_behind m d s l v : bytes_at m (s + 1) l → fwd d s (Z.of_nat (S (length l))) → bytes_at (<[d := v]> m) (s + 1) l.
Proof. intros Hb Hf j b Hj. pose proof (lookup_lt_Some _ _ _ Hj). rewrite lookup_insert_ne; [by apply Hb|]. unfold fwd in Hf. lia. Qed.

Lemma ready_cons d s b l m : ready d s (b :: l) m → ld s m = Some b ∧ st d b m = Some (<[d := b]> m) ∧ ready (d + 1) (s + 1) l (<[d := b]> m).
Proof.
  intros [[Hb Hl]%bytes_at_cons Hm Hf]. cbn [length] in *. split; [done|]. split; [eapply st_mapped; [done|lia]|]. split.
  - by apply bytes_behind.
  - apply mapped_insert. eapply mapped_le; [done|lia|lia].
  - unfold fwd in *. lia.
Qed.

Lemma ready_app d s x y m : ready d s (x ++ y) m → ready (d + Z.of_nat (length x)) (s + Z.of_nat (length x)) y (put d x m).
Proof.
  revert d s m. induction x as [|b x IH]; intros d s m Hr; cbn [put length app] in *; [by rewrite !Z.add_0_r|].
  apply ready_cons in Hr as (_ & _ & Hr). apply IH in Hr. by replace (d + Z.of_nat (S (length x))) with (d + 1 + Z.of_nat (length x)) by lia; replace (s + Z.of_nat (S (length x))) with (s + 1 + Z.of_nat (length x)) by lia.
Qed.

Lemma copy_up_run l i d s m : ready (d + i) (s + i) l m → copy_up (length l) i d s m = Some (put (d + i) l m).
Proof.
  revert i m. induction l as [|b l IH]; intros i m Hr; [done|]. apply ready_cons in Hr as (E1 & E2 & Hr). cbn [copy_up length]. rewrite E1, some_bind, E2, some_bind.
  rewrite <- !Z.add_assoc in Hr. rewrite (IH (i + 1)) by done. cbn [put]. by rewrite Z.add_assoc.
Qed.

Lemma copy_down_run l d s m : bytes_at m s l → mapped m d (Z.of_nat (length l)) → s <= d → copy_down (length l) d s m = Some (put d l m).
Proof.
  revert m. induction l as [|b l IH] using rev_ind; intros m Hb Hm Hd; [done|]. rewrite length_app in *. cbn [length] in *. rewrite Nat.add_1_r in *. cbn [copy_down].
  apply bytes_at_app in Hb as [Hb [Hlast _]%bytes_at_cons]. unfold ld. rewrite Hlast, some_bind. erewrite st_mapped; [|by eapply (mapped_le _ _ _ _ 1); [exact Hm|lia|lia]|lia]. rewrite some_bind.
  rewrite IH; [| |apply mapped_insert; eapply mapped_le; [exact Hm|lia|lia]|done].
  - f_equal. rewrite put_insert by lia. by rewrite put_snoc.
  - intros j c Hj. pose proof (lookup_lt_Some _ _ _ Hj). rewrite lookup_insert_ne by lia. by apply Hb.
Qed.

(** ** Words *)

Definition le_word l : Z := foldr (λ b v, Z.lor b (Z.shiftl v 8)) 0 l.

Lemma ld_le_run l a m : bytes_at m a l → ld_le (length l) a m = Some (le_word l).
Proof. revert a. induction l as [|b l IH]; intros a Hb; [done|]. apply bytes_at_cons in Hb as [H1 H2]. cbn [ld_le length]. unfold ld. rewrite H1, some_bind. by rewrite (IH (a + 1)). Qed.

Lemma low_byte b v : 0 <= b < 256 → Z.land (Z.lor b (Z.shiftl v 8)) 255 = b ∧ Z.shiftr (Z.lor b (Z.shiftl v 8)) 8 = v.
Proof.
  intros Hb. change 255 with (Z.ones 8). assert (Hhigh : ∀ k, 8 <= k → Z.testbit b k = false).
  { intros k Hk. destruct (decide (b = 0)) as [->|]; [apply Z.bits_0|]. apply Z.bits_above_log2; [lia|]. apply Z.log2_lt_pow2; [lia|].
    apply Z.lt_le_trans with (2 ^ 8); [lia|]. apply Z.pow_le_mono_r; lia. }
  split; apply Z.bits_inj'; intros k Hk.
  - rewrite Z.land_spec, Z.lor_spec, Z.testbit_ones_nonneg by lia. destruct (Z.ltb_spec k 8); [|by rewrite andb_false_r, Hhigh by lia].
    rewrite Z.shiftl_spec_low by lia. by rewrite orb_false_r, andb_true_r.
  - rewrite Z.shiftr_spec, Z.lor_spec, Hhigh, Z.shiftl_spec by lia. cbn [orb]. f_equal. lia.
Qed.

Lemma st_le_run l a m : Forall (λ b, 0 <= b < 256) l → mapped m a (Z.of_nat (length l)) → st_le (length l) a (le_word l) m = Some (put a l m).
Proof.
  intros HF. revert a m. induction HF as [|b l Hb HF IH]; intros a m Hm; [done|]. cbn [st_le length le_word foldr put]. destruct (low_byte b (foldr (λ b v, Z.lor b (Z.shiftl v 8)) 0 l) Hb) as [-> ->].
  cbn [length] in Hm. rewrite (st_mapped m a b _ Hm), some_bind by lia. apply IH. apply mapped_insert. eapply mapped_le; [done|lia|lia].
Qed.

Lemma bytes_at_ok m a l : bytes_ok m → bytes_at m a l → Forall (λ b, 0 <= b < 256) l.
Proof. intros Hm Hb. apply Forall_lookup. intros j b Hj%Hb. by eapply Hm. Qed.

(** ** The loops of [kernel_memcpy] *)

Lemma low_bits d : Z.land d 7 = d mod 8.
Proof. change 7 with (Z.ones 3). by rewrite Z.land_ones. Qed.

Lemma align_run fuel d s l m : ready d s l m → (d mod 8 = 0 ∨ 8 - d mod 8 <= Z.of_nat fuel) →
  ∃ x y, l = x ++ y ∧ align_loop fuel d s (Z.of_nat (length l)) m = Some (d + Z.of_nat (length x), s + Z.of_nat (length x), Z.of_nat (length y), put d x m).
Proof.
  revert d s l m. induction fuel as [|fuel IH]; intros d s l m Hr Hf; cbn [align_loop]; rewrite !low_bits.
  all: destruct ((Z.of_nat (length l) >=? 8) && (d mod 8 =? s mod 8)) eqn:Hc; [|exists [], l; cbn; by rewrite !Z.add_0_r].
  all: destruct (Z.eqb_spec (d mod 8) 0) as [E|E]; [exists [], l; cbn; by rewrite !Z.add_0_r|].
  { pose proof (Z.mod_pos_bound d 8). lia. }
  zify_bool. destruct l as [|b l]; [cbn in *; lia|]. apply ready_cons in Hr as (E1 & E2 & Hr). rewrite E1, some_bind, E2, some_bind.
  assert ((d + 1) mod 8 = 0 ∨ (d + 1) mod 8 = d mod 8 + 1) as Hn by (clear; Z.to_euclidean_division_equations; lia).
  destruct (IH (d + 1) (s + 1) l _ Hr) as (x & y & -> & Ea); [lia|]. exists (b :: x), y. split; [done|].
  cbn [length put]. replace (Z.of_nat (S (length (x ++ y))) - 1) with (Z.of_nat (length (x ++ y))) by lia. rewrite Ea.
  by replace (d + Z.of_nat (S (length x))) with (d + 1 + Z.of_nat (length x)) by lia; replace (s + Z.of_nat (S (length x))) with (s + 1 + Z.of_nat (length x)) by lia.
Qed.

Lemma block_run fuel d s l m : ready d s l m → bytes_ok m → (length l <= fuel)%nat →
  ∃ x y, l = x ++ y ∧ block_loop fuel d s (Z.of_nat (length l)) m = Some (d + Z.of_nat (length x), s + Z.of_nat (length x), Z.of_nat (length y), put d x m).
Proof.
  revert d s l m. induction fuel as [|fuel IH]; intros d s l m Hr Hok Hf; cbn [block_loop].
  all: rewrite Z.geb_leb; destruct (Z.leb_spec 8 (Z.of_nat (length l))) as [Hc|Hc]; [|exists [], l; cbn; by rewrite !Z.add_0_r].
  { lia. }
  rewrite <- (take_drop 8 l) in Hr. set (x := take 8 l) in *. set (y := drop 8 l) in *. assert (Hx : length x = 8%nat) by (unfold x; rewrite length_take; lia).
  assert (Hl : Z.of_nat (length l) - 8 = Z.of_nat (length y)) by (unfold y; rewrite length_drop; lia).
  pose proof Hr as [[Hb _]%bytes_at_app Hm _]. rewrite length_app, Hx in Hm. assert (HF : Forall (λ b, 0 <= b < 256) x) by (by eapply bytes_at_ok).
  pose proof (ld_le_run x s m Hb) as E1. rewrite Hx in E1. rewrite E1, some_bind. pose proof (st_le_run x d m HF) as E2. rewrite Hx in E2.
  rewrite E2 by (eapply mapped_le; [done|lia|lia]). rewrite some_bind, Hl. apply ready_app in Hr. rewrite Hx in Hr. change (Z.of_nat 8) with 8 in Hr.
  destruct (IH (d + 8) (s + 8) y _ Hr) as (x1 & y1 & Ey & Eb).
  - intros p b. rewrite put_lookup. case_decide; [|by apply Hok]. intros Hp. rewrite Forall_lookup in HF. by eapply HF.
  - unfold y. rewrite length_drop. lia.
  - rewrite Eb. exists (x ++ x1), y1. split; [rewrite <- app_assoc, <- Ey; symmetry; apply take_drop|]. rewrite length_app, Hx, put_app, Hx.
    by replace (d + Z.of_nat (8 + length x1)) with (d + 8 + Z.of_nat (length x1)) by lia; replace (s + Z.of_nat (8 + length x1)) with (s + 8 + Z.of_nat (length x1)) by lia.
Qed.

Lemma memcpy_run d s l m : ready d s l m → bytes_ok m → d ≠ 0 → s ≠ 0 → kernel_memcpy d s (Z.of_nat (length l)) m = Some (put d l m, d).
Proof.
  intros Hr Hok Hd Hs. unfold kernel_memcpy. rewrite !(proj2 (Z.eqb_neq _ _)) by done. cbn [orb].
  destruct (align_run 8 d s l m Hr) as (x & y & -> & E1); [pose proof (Z.mod_pos_bound d 8); lia|]. rewrite E1, some_bind. pose proof Hr as [[Hb _]%bytes_at_app _ _]. apply ready_app in Hr.
  destruct (block_run (Z.to_nat (Z.of_nat (length y))) _ _ y _ Hr) as (x1 & y1 & -> & E2); [|lia|].
  { intros p b. rewrite put_lookup. case_decide; [|by apply Hok]. intros Hp. apply bytes_at_ok in Hb; [|done]. rewrite Forall_lookup in Hb. by eapply Hb. }
  rewrite E2, some_bind. apply ready_app in Hr. rewrite Nat2Z.id. rewrite (copy_up_run y1 0) by (by rewrite !Z.add_0_r). rewrite some_bind, Z.add_0_r. by rewrite !put_app.
Qed.

Lemma memmove_run d s l m : bytes_at m s l → mapped m d (Z.of_nat (length l)) → d ≠ 0 → s ≠ 0 → kernel_memmove d s (Z.of_nat (length l)) m = Some (put d l m, d).
Proof.
  intros Hb Hm Hd Hs. unfold kernel_memmove. rewrite !(proj2 (Z.eqb_neq _ 0)) by done. cbn [orb]. rewrite Nat2Z.id. destruct (Z.eqb_spec d s) as [->|Hne]; [by rewrite put_same|].
  destruct (Z.ltb_spec d s) as [Hlt|Hge].
  - rewrite (copy_up_run l 0), some_bind, Z.add_0_r; [done|]. rewrite !Z.add_0_r. split; [done|done|left; lia].
  - rewrite copy_down_run, some_bind; [done|done|done|lia].
Qed.

(** ** Filling, lengths *)

Lemma fill_run k i p v m : mapped m (p + i) (Z.of_nat k) → fill k i p v m = Some (put (p + i) (replicate k v) m).
Proof.
  revert i m. induction k as [|k IH]; intros i m Hm; [done|]. cbn [fill replicate put]. rewrite (st_mapped m (p + i) v _ Hm), some_bind by lia.
  rewrite IH; [by rewrite Z.add_assoc|]. apply mapped_insert. eapply mapped_le; [done|lia|lia].
Qed.

Lemma cstr_cons m a b l : cstr m a (b :: l) → m !! a = Some b ∧ b ≠ 0 ∧ cstr m (a + 1) l.
Proof. intros [[H1 H2]%bytes_at_cons [Hb Hl]%not_elem_of_cons]. done. Qed.

Lemma cstr_nil m a : cstr m a [] → m !! a = Some 0.
Proof. by intros [[H1 _]%bytes_at_cons _]. Qed.

Lemma cstr_size m a l : cstr m a l → (length l < size m)%nat.
Proof. intros [H%bytes_at_size _]. rewrite length_app in H. cbn in H. lia. Qed.

(** Simplification of a test on a byte that was read. *)
Lemma eqb_ne (a b : Z) : a ≠ b → (a =? b) = false.
Proof. apply Z.eqb_neq. Qed.

Lemma strlen_run fuel s len l m : cstr m (s + len) l → (length l <= fuel)%nat → strlen_loop fuel s len m = Some (len + Z.of_nat (length l)).
Proof.
  revert fuel len. induction l as [|b l IH]; intros fuel len Hc Hf.
  - apply cstr_nil in Hc. destruct fuel; cbn [strlen_loop]; unfold ld; rewrite Hc, some_bind; cbn; by rewrite Z.add_0_r.
  - apply cstr_cons in Hc as (E & Hb & Hc). cbn [length] in *. destruct fuel as [|fuel]; [lia|]. cbn [strlen_loop]. unfold ld. rewrite E, some_bind, eqb_ne by done.
    rewrite IH; [f_equal; lia|by rewrite Z.add_assoc|lia].
Qed.

Lemma strlen_cstr s l m : cstr m s l → s ≠ 0 → kernel_strlen s m = Some (Z.of_nat (length l)).
Proof. intros Hc Hs. unfold kernel_strlen. rewrite eqb_ne by done. pose proof (cstr_size _ _ _ Hc). rewrite (strlen_run _ s 0 l); [done|by rewrite Z.add_0_r|lia]. Qed.

Lemma strnlen_run k s len l m : cstr m (s + len) l → strnlen_loop k s len m = Some (len + Z.of_nat (k `min` length l)).
Proof.
  revert len l. induction k as [|k IH]; intros len l Hc; cbn [strnlen_loop]; [by rewrite Z.add_0_r|]. destruct l as [|b l].
  - apply cstr_nil in Hc. unfold ld. rewrite Hc, some_bind. cbn. by rewrite Z.add_0_r.
  - apply cstr_cons in Hc as (E & Hb & Hc). unfold ld. rewrite E, some_bind, eqb_ne by done. rewrite (IH _ l) by (by rewrite Z.add_assoc). f_equal. cbn. lia.
Qed.

(** ** Copying strings *)

(** The string behind a byte that is written. *)
Lemma cstr_behind m d s b l v : cstr m s (b :: l) → fwd d s (Z.of_nat (S (S (length l)))) → cstr (<[d := v]> m) (s + 1) l.
Proof.
  intros [[_ Hl]%bytes_at_cons [_ H0]%not_elem_of_cons] Hf. split; [|done]. apply bytes_behind; [done|]. rewrite length_app. cbn. by rewrite Nat.add_1_r.
Qed.

Lemma copy_string_loop_run fuel i d s l m : cstr m (s + i) l → mapped m (d + i) (Z.of_nat (S (length l))) → fwd d s (i + Z.of_nat (S (length l))) → 0 <= i → (length l <= fuel)%nat →
  copy_string_loop fuel i d s m = Some (put (d + i) l m, i + Z.of_nat (length l)) ∧ cstr (put (d + i) l m) (s + i + Z.of_nat (length l)) [].
Proof.
  revert fuel i m. induction l as [|b l IH]; intros fuel i m Hc Hm Hf Hi Hfuel.
  - pose proof (cstr_nil _ _ Hc) as E. split; [destruct fuel; cbn [copy_string_loop]; unfold ld; rewrite E, some_bind; cbn; by rewrite Z.add_0_r|]. cbn. by rewrite Z.add_0_r.
  - pose proof (cstr_cons _ _ _ _ Hc) as (E & Hb & _). cbn [length] in *. destruct fuel as [|fuel]; [lia|]. cbn [copy_string_loop put]. unfold ld. rewrite E, some_bind, eqb_ne by done.
    rewrite (st_mapped _ _ b _ Hm), some_bind by lia. rewrite <- Z.add_assoc in *. destruct (IH fuel (i + 1) (<[d + i := b]> m)) as [E1 E2]; [| | |lia|lia|].
    + rewrite Z.add_assoc. eapply cstr_behind; [done|]. unfold fwd in *. lia.
    + apply mapped_insert. eapply mapped_le; [done|lia|lia].
    + unfold fwd in *. lia.
    + rewrite E1. split; [by replace (i + Z.of_nat (S (length l))) with (i + 1 + Z.of_nat (length l)) by lia|]. by replace (s + i + Z.of_nat (S (length l))) with (s + (i + 1) + Z.of_nat (length l)) by lia.
Qed.

Lemma strncpy_loop_run k i d s l m : cstr m (s + i) l → mapped m (d + i) (Z.of_nat (k `min` length l)) → fwd d s (i + Z.of_nat (S (length l))) → 0 <= i →
  strncpy_loop k i d s m = Some (put (d + i) (take k l) m, i + Z.of_nat (k `min` length l)).
Proof.
  revert i l m. induction k as [|k IH]; intros i l m Hc Hm Hf Hi; cbn [strncpy_loop]; [by rewrite take_0, Z.add_0_r|]. destruct l as [|b l].
  - apply cstr_nil in Hc. unfold ld. rewrite Hc, some_bind. cbn. by rewrite Z.add_0_r.
  - pose proof (cstr_cons _ _ _ _ Hc) as (E & Hb & _). cbn [length] in *. unfold ld. rewrite E, some_bind, eqb_ne by done. rewrite (st_mapped _ _ b _ Hm), some_bind by lia.
    rewrite (IH (i + 1) l); [|rewrite Z.add_assoc; eapply cstr_behind; [done|unfold fwd in *; lia]|apply mapped_insert; eapply mapped_le; [done|lia|lia]|unfold fwd in *; lia|lia].
    cbn [take put]. rewrite Z.add_assoc. do 2 f_equal. cbn. lia.
Qed.

Lemma strcpy_run d s l m : cstr m s l → mapped m d (Z.of_nat (S (length l))) → fwd d s (Z.of_nat (S (length l))) → d ≠ 0 → s ≠ 0 →
  kernel_strcpy d s m = Some (put d (l ++ [0]) m, d).
Proof.
  intros Hc Hm Hf Hd Hs. unfold kernel_strcpy. rewrite !eqb_ne by done. cbn [orb]. pose proof (cstr_size _ _ _ Hc).
  destruct (copy_string_loop_run (size m) 0 d s l m) as [E _]; [by rewrite Z.add_0_r|by rewrite Z.add_0_r|done|done|lia|]. rewrite Z.add_0_r, Z.add_0_l in E. rewrite E, some_bind.
  rewrite (st_mapped _ _ 0 1); [by rewrite some_bind, put_snoc| |lia]. apply mapped_put; (eapply mapped_le; [done|lia|lia]).
Qed.

Lemma strncpy_run d s l m n : cstr m s l → 0 <= n → mapped m d n → fwd d s (Z.of_nat (S (length l))) → d ≠ 0 → s ≠ 0 →
  kernel_strncpy d s n m = Some (put d (take (Z.to_nat n) l ++ replicate (Z.to_nat n - length l) 0) m, d).
Proof.
  intros Hc Hn Hm Hf Hd Hs. unfold kernel_strncpy. rewrite !eqb_ne by done. cbn [orb].
  rewrite (strncpy_loop_run (Z.to_nat n) 0 d s l m); [|by rewrite Z.add_0_r|rewrite Z.add_0_r; eapply mapped_le; [done|lia|lia]|done|done]. rewrite Z.add_0_r, Z.add_0_l, some_bind.
  replace (Z.to_nat (n - Z.of_nat (Z.to_nat n `min` length l))) with (Z.to_nat n - length l)%nat by lia.
  rewrite fill_run; [by rewrite some_bind, put_app, length_take|].
  apply mapped_put; (eapply mapped_le; [done|lia|rewrite ?length_take; lia]).
Qed.

Lemma strcat_run d s l1 l2 m : cstr m d l1 → cstr m s l2 → mapped m (d + Z.of_nat (length l1)) (Z.of_nat (S (length l2))) → fwd (d + Z.of_nat (length l1)) s (Z.of_nat (S (length l2))) →
  d ≠ 0 → s ≠ 0 → kernel_strcat d s m = Some (put (d + Z.of_nat (length l1)) (l2 ++ [0]) m, d).
Proof.
  intros H1 H2 Hm Hf Hd Hs. unfold kernel_strcat. rewrite !eqb_ne by done. cbn [orb]. rewrite (strlen_cstr d l1 m H1 Hd), some_bind. pose proof (cstr_size _ _ _ H2).
  set (e := d + Z.of_nat (length l1)) in *. destruct (copy_string_loop_run (size m) 0 e s l2 m) as [E _]; [by rewrite Z.add_0_r|by rewrite Z.add_0_r|done|done|lia|].
  rewrite Z.add_0_r, Z.add_0_l in E. rewrite E, some_bind. rewrite (st_mapped _ _ 0 1); [by rewrite some_bind, put_snoc| |lia].
  apply mapped_put; (eapply mapped_le; [done|lia|lia]).
Qed.

Lemma strncat_run d s l1 l2 m n : cstr m d l1 → cstr m s l2 → 0 <= n →
  mapped m (d + Z.of_nat (length l1)) (Z.of_nat (S (Z.to_nat n `min` length l2))) → fwd (d + Z.of_nat (length l1)) s (Z.of_nat (S (length l2))) →
  d ≠ 0 → s ≠ 0 → kernel_strncat d s n m = Some (put (d + Z.of_nat (length l1)) (take (Z.to_nat n) l2 ++ [0]) m, d).
Proof.
  intros H1 H2 Hn Hm Hf Hd Hs. unfold kernel_strncat. rewrite !eqb_ne by done. cbn [orb]. rewrite (strlen_cstr d l1 m H1 Hd), some_bind. set (e := d + Z.of_nat (length l1)) in *.
  rewrite (strncpy_loop_run (Z.to_nat n) 0 e s l2 m); [|by rewrite Z.add_0_r|rewrite Z.add_0_r; eapply mapped_le; [done|lia|lia]|done|done]. rewrite Z.add_0_r, Z.add_0_l, some_bind.
  rewrite (st_mapped _ _ 0 1); [by rewrite some_bind, put_snoc, length_take| |lia]. apply mapped_put; (eapply mapped_le; [done|lia|rewrite ?length_take; lia]).
Qed.

(** ** Comparing *)

(** The order of strings. *)
Inductive str_lt : list Z → list Z → Prop :=
  | lt_end b y : str_lt [] (b :: y)
  | lt_here a b x y : a < b → str_lt (a :: x) (b :: y)
  | lt_next a x y : str_lt x y → str_lt (a :: x) (a :: y).

(** The first difference, with 0 behind the end. *)
Fixpoint lex (x y : list Z) : Z :=
  match x, y with
  | a :: x, b :: y => if a =? b then lex x y else a - b
  | [], b :: _ => 0 - b
  | a :: _, [] => a - 0
  | [], [] => 0
  end.

Lemma memcmp_run x y i p1 p2 m : bytes_at m (p1 + i) x → bytes_at m (p2 + i) y → length x = length y → memcmp_loop (length x) i p1 p2 m = Some (lex x y).
Proof.
  revert y i. induction x as [|a x IH]; intros [|b y] i Hx Hy Hl; try done. apply bytes_at_cons in Hx as [E1 Hx], Hy as [E2 Hy]. cbn [length memcmp_loop lex] in *. unfold ld.
  rewrite E1, some_bind, E2, some_bind. destruct (Z.eqb_spec a b) as [->|Hne].
  - rewrite Z.sub_diag. cbn. apply IH; [by rewrite Z.add_assoc|by rewrite Z.add_assoc|lia].
  - rewrite eqb_ne by lia. done.
Qed.

(** The first character of a string, or its terminator. *)
Lemma cstr_head m a l : cstr m a l → m !! a = Some (default 0 (head l)).
Proof. destruct l as [|b l]; [apply cstr_nil|]. by intros (E & _)%cstr_cons. Qed.

Lemma strcmp_run fuel x y i s1 s2 m : cstr m (s1 + i) x → cstr m (s2 + i) y → (length x <= fuel)%nat → strcmp_loop fuel i s1 s2 m = Some (lex x y).
Proof.
  revert fuel y i. induction x as [|a x IH]; intros fuel y i Hx Hy Hf.
  - pose proof (cstr_nil _ _ Hx) as E1. destruct y as [|b y]; [pose proof (cstr_nil _ _ Hy) as E2|pose proof (cstr_cons _ _ _ _ Hy) as (E2 & Hb & _)].
    + destruct fuel; cbn [strcmp_loop]; unfold ld; by rewrite E1, some_bind, E2, some_bind.
    + destruct fuel; cbn [strcmp_loop]; unfold ld; by rewrite E1, some_bind, E2, some_bind, (eqb_ne 0) by done.
  - apply cstr_cons in Hx as (E1 & Ha & Hx). cbn [length] in Hf. destruct fuel as [|fuel]; [lia|]. cbn [strcmp_loop lex]. unfold ld. rewrite E1, some_bind, (cstr_head _ _ _ Hy), some_bind.
    destruct y as [|b y]; cbn [head default from_option id]; [by rewrite eqb_ne|]. apply cstr_cons in Hy as (_ & _ & Hy). destruct (Z.eqb_spec a b) as [->|Hne]; cbn [negb]; [|done].
    rewrite eqb_ne by done. apply IH; [by rewrite Z.add_assoc|by rewrite Z.add_assoc|lia].
Qed.

Lemma strncmp_run k x y i s1 s2 m : cstr m (s1 + i) x → cstr m (s2 + i) y → strncmp_loop k i s1 s2 m = Some (lex (take k x) (take k y)).
Proof.
  revert x y i. induction k as [|k IH]; intros x y i Hx Hy; [done|]. cbn [strncmp_loop]. unfold ld. rewrite (cstr_head _ _ _ Hx), some_bind, (cstr_head _ _ _ Hy), some_bind.
  destruct x as [|a x].
  { destruct y as [|b y]; [done|]. apply cstr_cons in Hy as (_ & Hb & _). cbn [head default from_option id]. by rewrite (eqb_ne 0) by done. }
  apply cstr_cons in Hx as (_ & Ha & Hx). destruct y as [|b y]; cbn [head default from_option id take lex]; [by rewrite eqb_ne|]. apply cstr_cons in Hy as (_ & _ & Hy).
  destruct (Z.eqb_spec a b) as [->|Hne]; cbn [negb]; [|done]. rewrite eqb_ne by done. apply IH; by rewrite Z.add_assoc.
Qed.

(** A comparison that agrees with the order. *)
Definition orders (o : option Z) x y : Prop := ∃ r, o = Some r ∧ (r < 0 ↔ str_lt x y) ∧ (r = 0 ↔ x = y) ∧ (0 < r ↔ str_lt y x).

Lemma str_lt_cons a b x y : str_lt (a :: x) (b :: y) ↔ a < b ∨ (a = b ∧ str_lt x y).
Proof. split; [intros H; inversion H; auto|intros [H|[-> H]]; by constructor]. Qed.


(** Either both are strings, or both have the same length. *)
Definition comparable x y : Prop := (Forall (λ b, 0 < b) x ∧ Forall (λ b, 0 < b) y) ∨ length x = length y.

Lemma lex_orders x y : comparable x y → orders (Some (lex x y)) x y.
Proof.
  intros Hc. exists (lex x y). split; [done|]. revert y Hc. induction x as [|a x IH]; intros [|b y] Hc; cbn [lex].
  - split; [split; [lia|by inversion 1]|]. split; [done|]. split; [lia|by inversion 1].
  - destruct Hc as [[_ Hy]|?]; [|done]. apply Forall_cons in Hy as [Hb _]. split; [split; [constructor|lia]|]. split; [split; [lia|done]|]. split; [lia|by inversion 1].
  - destruct Hc as [[Hx _]|?]; [|done]. apply Forall_cons in Hx as [Ha _]. split; [split; [lia|by inversion 1]|]. split; [split; [lia|done]|]. split; [constructor|lia].
  - rewrite !str_lt_cons. destruct (Z.eqb_spec a b) as [->|Hne].
    + destruct (IH y) as (H1 & H2 & H3); [destruct Hc as [[Hx Hy]|Hl]; [left; by inversion Hx; inversion Hy|right; by injection Hl]|]. rewrite H1, H2, H3. intuition (subst; auto; try lia; congruence).
    + intuition (subst; auto; try lia; congruence).
Qed.

(** ** Searching *)

(** [o] points to the first, or the last, position from [lo] to before [hi] at
    which [P] holds; it is [none] when there is no such position. *)
Definition first_of (P : Z → Prop) (lo hi base : Z) (o : option Z) : Prop :=
  (∃ j, lo <= j < hi ∧ P j ∧ (∀ k, lo <= k < j → ¬ P k) ∧ o = Some (base + j)) ∨ ((∀ k, lo <= k < hi → ¬ P k) ∧ o = Some 0).
Definition last_of (P : Z → Prop) (lo hi base none : Z) (o : option Z) : Prop :=
  (∃ j, lo <= j < hi ∧ P j ∧ (∀ k, j < k < hi → ¬ P k) ∧ o = Some (base + j)) ∨ ((∀ k, lo <= k < hi → ¬ P k) ∧ o = Some none).

Lemma first_here (P : Z → Prop) lo hi base : P lo → lo < hi → first_of P lo hi base (Some (base + lo)).
Proof. intros HP Hlt. left. exists lo. split; [lia|]. split; [done|]. split; [lia|done]. Qed.

Lemma first_next (P : Z → Prop) lo hi base o : ¬ P lo → first_of P (lo + 1) hi base o → first_of P lo hi base o.
Proof.
  intros HP [(j & Hj & Hp & Hk & ->)|[Hk ->]]; [left; exists j; split; [lia|]; split; [done|]; split; [|done]|right; split; [|done]]; intros k Hlt.
  all: destruct (decide (k = lo)) as [->|]; [done|apply Hk; lia].
Qed.

Lemma first_none (P : Z → Prop) lo hi base : (∀ k, lo <= k < hi → ¬ P k) → first_of P lo hi base (Some 0).
Proof. intros H. by right. Qed.

Lemma first_extend (P : Z → Prop) lo hi hi' base o : hi <= hi' → (∀ k, hi <= k < hi' → ¬ P k) → first_of P lo hi base o → first_of P lo hi' base o.
Proof.
  intros Hle Hn [(j & Hj & Hp & Hk & ->)|[Hk ->]]; [left; exists j; split; [lia|]; split; [done|]; by split|right; split; [|done]]. intros k Hlt.
  destruct (decide (k < hi)); [apply Hk; lia|apply Hn; lia].
Qed.

Definition byte_at m base v (j : Z) : Prop := m !! (base + j) = Some v.

Lemma memchr_run k i p v m : mapped m (p + i) (Z.of_nat k) → first_of (byte_at m p v) i (i + Z.of_nat k) p (memchr_loop k i p v m).
Proof.
  revert i. induction k as [|k IH]; intros i Hm; cbn [memchr_loop]; [apply first_none; lia|]. destruct (Hm (p + i)) as [b Eb]; [lia|]. unfold ld. rewrite Eb, some_bind.
  destruct (Z.eqb_spec b v) as [->|Hne]; [apply first_here; [done|lia]|]. apply first_next; [unfold byte_at; congruence|].
  replace (i + Z.of_nat (S k)) with (i + 1 + Z.of_nat k) by lia. apply IH. eapply mapped_le; [done|lia|lia].
Qed.

Lemma strchr_run fuel i s v l m : cstr m (s + i) l → (length l <= fuel)%nat →
  first_of (byte_at m s v) i (i + Z.of_nat (length l) + 1) s (r ← strchr_loop fuel i s v m; match r with inl p => Some p | inr i => if v =? 0 then Some (s + i) else Some 0 end).
Proof.
  revert fuel i. induction l as [|b l IH]; intros fuel i Hc Hf.
  - apply cstr_nil in Hc. assert (strchr_loop fuel i s v m = Some (inr i)) as ->; [destruct fuel; cbn [strchr_loop]; unfold ld; by rewrite Hc|]. rewrite some_bind.
    destruct (Z.eqb_spec v 0) as [->|Hne]; [apply first_here; [done|cbn; lia]|]. apply first_none. intros k Hk. replace k with i by (cbn in Hk; lia). unfold byte_at. congruence.
  - apply cstr_cons in Hc as (E & Hb & Hc). cbn [length] in *. destruct fuel as [|fuel]; [lia|]. cbn [strchr_loop]. unfold ld. rewrite E, some_bind, (eqb_ne b) by done.
    destruct (Z.eqb_spec b v) as [->|Hne]; [rewrite some_bind; apply first_here; [done|lia]|]. apply first_next; [unfold byte_at; congruence|].
    replace (i + Z.of_nat (S (length l)) + 1) with (i + 1 + Z.of_nat (length l) + 1) by lia. apply IH; [by rewrite Z.add_assoc|lia].
Qed.

Lemma strrchr_run k i s v r m : mapped m (s + i) (Z.of_nat k) → last_of (byte_at m s v) i (i + Z.of_nat k) s r (strrchr_loop k i s v r m).
Proof.
  revert i r. induction k as [|k IH]; intros i r Hm; cbn [strrchr_loop]; [right; split; [lia|done]|]. destruct (Hm (s + i)) as [b Eb]; [lia|]. unfold ld. rewrite Eb, some_bind.
  replace (i + Z.of_nat (S k)) with (i + 1 + Z.of_nat k) by lia. destruct (IH (i + 1) (if b =? v then s + i else r)) as [(j & Hj & HP & Hk & ->)|[Hk ->]].
  - eapply mapped_le; [done|lia|lia].
  - left. exists j. split; [lia|]. done.
  - destruct (Z.eqb_spec b v) as [->|Hne]; [left; exists i; split; [lia|]; split; [done|]; split; [intros k' Hk'; apply Hk; lia|done]|].
    right. split; [|done]. intros k' Hk'. destruct (decide (k' = i)) as [->|]; [unfold byte_at; congruence|apply Hk; lia].
Qed.

Lemma match_run x y j h n m : bytes_at m (h + j) x → bytes_at m (n + j) y → (length y <= length x)%nat → match_loop (length y) j h n m = Some (bool_decide (y `prefix_of` x)).
Proof.
  revert x j. induction y as [|b y IH]; intros [|a x] j Hx Hy Hl; cbn [length] in *; [done|done|lia|]. apply bytes_at_cons in Hx as [E1 Hx], Hy as [E2 Hy]. cbn [match_loop]. unfold ld.
  rewrite E1, some_bind, E2, some_bind. destruct (Z.eqb_spec a b) as [->|Hne]; cbn [negb].
  - rewrite (IH x) by (rewrite ?Z.add_assoc; first [done|lia]). f_equal. apply bool_decide_ext. split; [apply prefix_cons|apply prefix_cons_inv_2].
  - rewrite bool_decide_false; [done|]. intros H. apply prefix_cons_inv_1 in H. congruence.
Qed.

Definition occurs y x (j : Z) : Prop := y `prefix_of` drop (Z.to_nat j) x.

Lemma bytes_at_drop m a x (i : Z) : bytes_at m a x → 0 <= i → bytes_at m (a + i) (drop (Z.to_nat i) x).
Proof. intros H Hi j b. rewrite lookup_drop. intros E%H. by replace (a + i + Z.of_nat j) with (a + Z.of_nat (Z.to_nat i + j)) by lia. Qed.

Lemma strstr_loop_run k i h n x y m : bytes_at m h x → bytes_at m n y → 0 <= i → i + Z.of_nat k + Z.of_nat (length y) <= Z.of_nat (length x) + 1 →
  first_of (occurs y x) i (i + Z.of_nat k) h (strstr_loop k i h n (Z.of_nat (length y)) m).
Proof.
  intros Hx Hy. revert i. induction k as [|k IH]; intros i Hi Hl; cbn [strstr_loop]; [apply first_none; lia|]. rewrite Nat2Z.id.
  rewrite (match_run (drop (Z.to_nat i) x)); [|rewrite Z.add_0_r; by apply bytes_at_drop|by rewrite Z.add_0_r|rewrite length_drop; lia]. rewrite some_bind. case_bool_decide as Hp.
  - apply first_here; [done|lia].
  - apply first_next; [done|]. replace (i + Z.of_nat (S k)) with (i + 1 + Z.of_nat k) by lia. apply IH; lia.
Qed.

Lemma strstr_run h n x y m : cstr m h x → cstr m n y → h ≠ 0 → n ≠ 0 → first_of (occurs y x) 0 (Z.of_nat (length x) + 1) h (kernel_strstr h n m).
Proof.
  intros Hx Hy Hh Hn. unfold kernel_strstr. rewrite !eqb_ne by done. cbn [orb]. rewrite (strlen_cstr n y), some_bind by done. destruct (Z.eqb_spec (Z.of_nat (length y)) 0) as [H0|H0].
  { destruct y; [|done]. replace h with (h + 0) at 2 by lia. apply first_here; [apply prefix_nil|lia]. }
  assert (Hlong : ∀ k, 0 <= k → Z.of_nat (length x) - Z.of_nat (length y) < k → ¬ occurs y x k).
  { intros k Hk Hlt Hp%prefix_length. rewrite length_drop in Hp. lia. }
  rewrite (strlen_cstr h x), some_bind by done. rewrite Z.gtb_ltb. destruct (Z.ltb_spec (Z.of_nat (length x)) (Z.of_nat (length y))) as [Hlt|Hge]; [apply first_none; intros k Hk; apply Hlong; lia|].
  destruct Hx as [[Hx _]%bytes_at_app _], Hy as [[Hy _]%bytes_at_app _].
  eapply (first_extend _ _ (0 + Z.of_nat (Z.to_nat (Z.of_nat (length x) - Z.of_nat (length y) + 1)))); [lia|intros k Hk; apply Hlong; lia|].
  apply strstr_loop_run; [done|done|lia|lia].
Qed.

(** ** Numbers *)

(** The digits of a character, in any base. *)
Inductive denotes (c d : Z) : Prop :=
  | den_decimal : 48 <= c <= 57 → d = c - 48 → denotes c d
  | den_lower : 97 <= c <= 122 → d = c - 97 + 10 → denotes c d
  | den_upper : 65 <= c <= 90 → d = c - 65 + 10 → denotes c d.

Definition digit (b c d : Z) : Prop := denotes c d ∧ d < b.

Definition value (b : Z) (ds : list Z) : Z := foldl (λ v d, v * b + d) 0 ds.

Definition starts (f : Z → bool) l : bool := match l with [] => false | c :: _ => f c end.
Definition is_sign (c : Z) : bool := (c =? 45) || (c =? 43).
Definition hex_prefix l : bool := match l with c :: c1 :: _ => (c =? 48) && is_x c1 | _ => false end.

Inductive sign : list Z → bool → list Z → Prop :=
  | sign_minus t : sign [45] true t
  | sign_plus t : sign [43] false t
  | sign_none t : starts is_sign t = false → sign [] false t.

(** [radix base pf b t]: with the argument [base] and the prefix [pf] before the
    text [t], the digits are of base [b]. *)
Inductive radix : Z → list Z → Z → list Z → Prop :=
  | radix_hex base c t : base = 0 ∨ base = 16 → is_x c = true → radix base [48; c] 16 t
  | radix_octal t : starts is_x t = false → radix 0 [48] 8 t
  | radix_decimal t : starts (Z.eqb 48) t = false → radix 0 [] 10 t
  | radix_16 t : hex_prefix t = false → radix 16 [] 16 t
  | radix_given base t : base ≠ 0 → base ≠ 16 → radix base [] base t.

(** [numeral base l neg v k]: the text [l] starts with a numeral of [k]
    characters, of sign [neg] and absolute value [v]; the digits are the longest
    run of them. *)
Inductive numeral (base : Z) : list Z → bool → Z → nat → Prop :=
  | Numeral sp sg pf dg rest neg b ds :
      Forall (λ c, is_space c = true) sp → starts is_space (sg ++ pf ++ dg ++ rest) = false →
      sign sg neg (pf ++ dg ++ rest) → radix base pf b (dg ++ rest) → Forall2 (digit b) dg ds → (∀ c d, head rest = Some c → ¬ digit b c d) →
      numeral base (sp ++ sg ++ pf ++ dg ++ rest) neg (value b ds) (length sp + length sg + length pf + length dg)%nat.

Lemma char_to_digit_spec c b : (∃ d, char_to_digit c b = d ∧ 0 <= d ∧ digit b c d) ∨ (char_to_digit c b = -1 ∧ ∀ d, ¬ digit b c d).
Proof.
  unfold char_to_digit, digit. rewrite !Z.geb_leb.
  destruct (Z.leb_spec 48 c), (Z.leb_spec c 57), (Z.leb_spec 97 c), (Z.leb_spec c 122), (Z.leb_spec 65 c), (Z.leb_spec c 90); cbn [andb]; rewrite ?Z.geb_leb; repeat case_match; zify_bool; try lia.
  all: first [left; eexists; split; [done|]; split; [lia|]; split; [first [by apply den_decimal|by apply den_lower|by apply den_upper]|lia]|right; split; [done|]; intros d [[] ?]; lia].
Qed.

Lemma denotes_fun c d d' : denotes c d → denotes c d' → d = d'.
Proof. intros [] []; lia. Qed.

Lemma digit_run b c d : digit b c d → char_to_digit c b = d ∧ 0 <= d < b ∧ c ≠ 0.
Proof.
  intros Hd. destruct (char_to_digit_spec c b) as [(d' & E & H0 & Hd')|[_ H]]; [|by destruct (H d)].
  rewrite E. destruct Hd as [Hd Hb], Hd' as [Hd' _]. pose proof (denotes_fun c d d' Hd Hd'). subst d'. split; [done|]. split; [lia|]. destruct Hd; lia.
Qed.

Lemma cstr_app m a x y : cstr m a (x ++ y) → cstr m (a + Z.of_nat (length x)) y.
Proof. intros [Hb H0]. rewrite <- app_assoc, bytes_at_app in Hb. rewrite elem_of_app in H0. split; [apply Hb|tauto]. Qed.

Lemma cstr_starts m a l (f : Z → bool) : cstr m a l → f 0 = false → starts f l = false → ∃ c, m !! a = Some c ∧ f c = false.
Proof. intros Hc H0 Hs. exists (default 0 (head l)). split; [by apply cstr_head|]. by destruct l. Qed.

Lemma skip_run fuel p sp l m : cstr m p (sp ++ l) → Forall (λ c, is_space c = true) sp → starts is_space l = false → (length sp <= fuel)%nat →
  skip_spaces fuel p m = Some (p + Z.of_nat (length sp)).
Proof.
  intros Hc HF Hl. revert fuel p Hc. induction HF as [|c sp Hsp HF IH]; intros fuel p Hc Hf.
  - destruct (cstr_starts m p l is_space) as (c & E & Ec); [done|done|done|]. destruct fuel; cbn [skip_spaces]; unfold ld; rewrite E, some_bind, Ec; cbn; by rewrite Z.add_0_r.
  - apply cstr_cons in Hc as (E & _ & Hc). cbn [length] in *. destruct fuel as [|fuel]; [lia|]. cbn [skip_spaces]. unfold ld. rewrite E, some_bind, Hsp. rewrite IH; [f_equal; lia|done|lia].
Qed.

Lemma sign_run p sg neg l m : cstr m p (sg ++ l) → sign sg neg l → read_sign p m = Some (neg, p + Z.of_nat (length sg)).
Proof.
  intros Hc Hs. unfold read_sign, ld. destruct Hs as [t|t|t Hs]; [by rewrite (cstr_head _ _ _ Hc)|by rewrite (cstr_head _ _ _ Hc)|].
  destruct (cstr_starts m p t is_sign) as (c & E & Ec); [done|done|done|]. rewrite E, some_bind. apply orb_false_iff in Ec as [-> ->]. cbn. by rewrite Z.add_0_r.
Qed.

Lemma base_run p base pf b l m : cstr m p (pf ++ l) → radix base pf b l → read_base p base m = Some (b, p + Z.of_nat (length pf)).
Proof.
  intros Hc Hr. unfold read_base, ld. destruct Hr as [base c t Hb Hx|t Ht|t Ht|t Ht|base t H0 H16].
  - apply cstr_cons in Hc as (E & _ & Hc). apply cstr_cons in Hc as (E1 & _ & _). rewrite E, !some_bind, E1. cbn [Z.eqb Pos.eqb]. rewrite !some_bind, Hx. by destruct Hb as [->| ->].
  - apply cstr_cons in Hc as (E & _ & Hc). destruct (cstr_starts m (p + 1) t is_x) as (c & E1 & Ec); [done|done|done|]. rewrite E, some_bind, E1. cbn [Z.eqb Pos.eqb]. by rewrite some_bind, Ec.
  - destruct (cstr_starts m p t (Z.eqb 48)) as (c & E & Ec); [done|done|done|]. rewrite E, some_bind. rewrite Z.eqb_sym in Ec. rewrite Ec. cbn. by rewrite Z.add_0_r.
  - assert (∃ c, m !! p = Some c ∧ (c = 48 → ∃ c1, m !! (p + 1) = Some c1 ∧ is_x c1 = false)) as (c & E & Ec).
    { destruct t as [|c t]; [exists 0; split; [by apply (cstr_head _ _ _ Hc)|done]|]. apply cstr_cons in Hc as (E & _ & Hc). exists c. split; [done|]. intros ->.
      exists (default 0 (head t)). split; [by apply cstr_head|]. destruct t; [done|]. by cbn in Ht. }
    cbn [Z.eqb Pos.eqb]. rewrite E, some_bind. cbn [length]. rewrite Z.add_0_r. destruct (Z.eqb_spec c 48) as [->|]; [|done]. destruct (Ec eq_refl) as (c1 & -> & Ec1). by rewrite some_bind, Ec1.
  - rewrite !eqb_ne by done. cbn. by rewrite Z.add_0_r.
Qed.

Fixpoint accum (acc : Z → Z → option Z) (r : Z) (ds : list Z) : option Z :=
  match ds with [] => Some r | d :: ds => r ← acc r d; accum acc r ds end.

Lemma digits_run acc fuel b r p dg ds rest m : cstr m p (dg ++ rest) → Forall2 (digit b) dg ds → (∀ c d, head rest = Some c → ¬ digit b c d) → (length dg <= fuel)%nat →
  digits_loop acc fuel b r p m = (v ← accum acc r ds; Some (v, p + Z.of_nat (length dg))).
Proof.
  intros Hc HF Hr. revert fuel r p Hc. induction HF as [|c d dg ds Hd HF IH]; intros fuel r p Hc Hf.
  - assert (digits_loop acc fuel b r p m = Some (r, p)) as ->; [|cbn [accum length]; by rewrite some_bind, Z.add_0_r]. pose proof (cstr_head _ _ _ Hc) as E. cbn [app] in *.
    destruct rest as [|c rest]; [destruct fuel; cbn [digits_loop]; unfold ld; by rewrite E|]. apply cstr_cons in Hc as (_ & Hc & _).
    destruct (char_to_digit_spec c b) as [(d & _ & _ & Hd)|[Ed _]]; [by destruct (Hr c d)|]. destruct fuel; cbn [digits_loop]; unfold ld; rewrite E, some_bind; cbn [head default from_option id]; by rewrite eqb_ne, Ed by done.
  - apply cstr_cons in Hc as (E & Hc0 & Hc). apply digit_run in Hd as (Ed & Hd & _). cbn [length] in *. destruct fuel as [|fuel]; [lia|]. cbn [digits_loop accum]. unfold ld. rewrite E, some_bind.
    rewrite (eqb_ne c) by done. rewrite Ed, (proj2 (Z.ltb_ge _ _)) by lia. destruct (acc r d) as [r'|]; [|done]. rewrite !some_bind, IH by first [done|lia]. by replace (p + Z.of_nat (S (length dg))) with (p + 1 + Z.of_nat (length dg)) by lia.
Qed.

(** *** The accumulators *)

Definition value_from (b v : Z) (ds : list Z) : Z := foldl (λ v d, v * b + d) v ds.

Definition digits_of_base b ds : Prop := Forall (λ d, 0 <= d < b) ds.

Lemma value_mono b v ds : digits_of_base b ds → 0 <= v → v <= value_from b v ds.
Proof.
  intros HF. revert v. induction HF as [|d ds Hd HF IH]; intros v Hv; [done|]. cbn [value_from foldl]. apply Z.le_trans with (v * b + d); [nia|]. apply IH. nia.
Qed.

Lemma digits_in_range b dg ds : Forall2 (digit b) dg ds → digits_of_base b ds.
Proof. induction 1 as [|c d dg ds Hd HF IH]; constructor; [by apply digit_run in Hd as (_ & ? & _)|done]. Qed.

Lemma int32_in (x : Z) : - 2 ^ 31 <= x < 2 ^ 31 → int32 x = Some x.
Proof. intros Hx. unfold int32. by rewrite (proj2 (Z.leb_le _ _)), (proj2 (Z.ltb_lt _ _)) by lia. Qed.

Lemma int32_over (x : Z) : 2 ^ 31 <= x → int32 x = None.
Proof. intros Hx. unfold int32. by rewrite (proj2 (Z.ltb_ge _ _)), andb_false_r by lia. Qed.

Lemma accum_s b v ds : digits_of_base b ds → 0 <= v < 2 ^ 31 → accum (acc_s b) v ds = int32 (value_from b v ds).
Proof.
  intros HF. revert v. induction HF as [|d ds Hd HF IH]; intros v Hv; cbn [accum value_from foldl]; [by rewrite int32_in by lia|]. pose proof (value_mono b (v * b + d) ds HF) as Hmono. unfold value_from in Hmono.
  destruct (decide (v * b + d < 2 ^ 31)) as [Hlt|Hge].
  - unfold acc_s. rewrite (int32_in (v * b)), some_bind, int32_in, some_bind by nia. apply IH. nia.
  - rewrite (int32_over (foldl _ _ _)) by nia. unfold acc_s. destruct (decide (v * b < 2 ^ 31)) as [Hm|Hm]; [by rewrite int32_in, some_bind, int32_over by nia|by rewrite int32_over by lia].
Qed.

Lemma acc_u_step b v d : 0 <= b < 2 ^ 32 → 0 <= v < 2 ^ 32 → 0 <= d < b → acc_u b v d = Some (u32 (v * b + d)).
Proof. intros Hb Hv Hd. unfold acc_u. rewrite (u64_small b), (u64_small d), (u64_small (v * b)), u64_small by nia. done. Qed.

Lemma u32_step (v b d : Z) : u32 (u32 v * b + d) = u32 (v * b + d).
Proof. unfold u32. by rewrite Z.add_mod, Z.mul_mod_idemp_l, <- Z.add_mod by lia. Qed.

Lemma value_wrap b v v' ds : u32 v = u32 v' → u32 (value_from b v ds) = u32 (value_from b v' ds).
Proof.
  revert v v'. induction ds as [|d ds IH]; intros v v' E; [done|]. cbn [value_from foldl]. apply IH. by rewrite <- (u32_step v), <- (u32_step v'), E.
Qed.

Lemma accum_u b v ds : digits_of_base b ds → b < 2 ^ 32 → 0 <= v < 2 ^ 32 → accum (acc_u b) v ds = Some (u32 (value_from b v ds)).
Proof.
  intros HF Hb. revert v. induction HF as [|d ds Hd HF IH]; intros v Hv; cbn [accum value_from foldl]; [by rewrite u32_small|].
  rewrite acc_u_step, some_bind, IH by first [lia|apply u32_range]. f_equal. apply value_wrap. unfold u32. by rewrite Z.mod_mod.
Qed.

(** *** The conversions *)

(** What the two conversions share: the spaces, the sign, the prefix, the digits. *)
Lemma numeral_scan p base l neg v k m : cstr m p l → numeral base l neg v k →
  ∃ b ds, digits_of_base b ds ∧ v = value b ds ∧ b <= Z.max 16 base ∧ ∀ A (acc : Z → Z → Z → option Z) (F : bool → Z → Z → option A),
    (p ← skip_spaces (size m) p m; '(negative, p) ← read_sign p m; '(base, p) ← read_base p base m; '(result, p) ← digits_loop (acc base) (size m) base 0 p m; F negative result p)
    = (result ← accum (acc b) 0 ds; F neg result (p + Z.of_nat k)).
Proof.
  intros Hc Hnum. pose proof (cstr_size _ _ _ Hc) as Hsz. destruct Hnum as [sp sg pf dg rest neg b ds Hsp Hs Hsg Hr Hd Hend]. rewrite !length_app in Hsz.
  exists b, ds. split; [by eapply digits_in_range|]. split; [done|]. split; [destruct Hr; lia|]. intros A acc F.
  rewrite (skip_run _ p sp (sg ++ pf ++ dg ++ rest)), some_bind by first [done|lia]. apply cstr_app in Hc. rewrite (sign_run _ sg neg (pf ++ dg ++ rest)), some_bind by done. apply cstr_app in Hc.
  rewrite (base_run _ base pf b (dg ++ rest)), some_bind by done. apply cstr_app in Hc. rewrite (digits_run _ _ b 0 _ dg ds rest) by first [done|lia]. destruct (accum (acc b) 0 ds) as [r|]; [|done]. rewrite !some_bind.
  by replace (p + Z.of_nat (length sp) + Z.of_nat (length sg) + Z.of_nat (length pf) + Z.of_nat (length dg)) with (p + Z.of_nat (length sp + length sg + length pf + length dg)) by lia.
Qed.

Lemma strtol_run p e base l neg v k m : cstr m p l → numeral base l neg v k → p ≠ 0 →
  kernel_strtol p e base m = (v ← int32 v; Some (if neg then - v else v, if e then Some (p + Z.of_nat k) else None)).
Proof.
  intros Hc Hnum Hp. destruct (numeral_scan _ _ _ _ _ _ _ Hc Hnum) as (b & ds & Hd & -> & _ & Hscan). unfold kernel_strtol. rewrite eqb_ne, (Hscan _ acc_s), (accum_s b 0 ds Hd) by done.
  pose proof (value_mono b 0 ds Hd) as Hv. change (value_from b 0 ds) with (value b ds) in *. destruct (decide (value b ds < 2 ^ 31)) as [Hlt|Hge]; [|by rewrite int32_over by lia].
  rewrite int32_in, !some_bind by lia. destruct neg; [by rewrite int32_in, some_bind by lia|done].
Qed.

Lemma neg_s32 (x : Z) : 0 <= x < 2 ^ 32 → x ≠ 2 ^ 31 → int32 (- s32 x) = Some (- s32 x) ∧ u32 (- s32 x) = u32 (- x).
Proof.
  intros Hx Hne. unfold s32. destruct (Z.ltb_spec x (2 ^ 31)); (split; [apply int32_in; lia|]); [done|]. unfold u32. replace (- (x - 2 ^ 32)) with (- x + 1 * 2 ^ 32) by lia. by rewrite Z.mod_add by lia.
Qed.

Lemma u32_opp (v : Z) : u32 (- u32 v) = u32 (- v).
Proof. unfold u32. rewrite <- (Z.mul_1_l (- (v mod 2 ^ 32))), <- (Z.mul_1_l (- v)), !Z.mul_opp_r, <- !Z.mul_opp_l, Z.mul_mod_idemp_r by lia. done. Qed.

Lemma strtoul_run p e base l neg v k m : cstr m p l → numeral base l neg v k → p ≠ 0 → base < 2 ^ 32 →
  kernel_strtoul p e base m =
    (if neg && (u32 v =? 2 ^ 31) then None else Some (u32 (if neg then - v else v), if e then Some (p + Z.of_nat k) else None)).
Proof.
  intros Hc Hnum Hp Hb. destruct (numeral_scan _ _ _ _ _ _ _ Hc Hnum) as (b & ds & Hd & -> & Hle & Hscan). unfold kernel_strtoul. rewrite eqb_ne, (Hscan _ acc_u), (accum_u b 0 ds Hd) by first [done|lia].
  change (value_from b 0 ds) with (value b ds). rewrite some_bind. set (v := value b ds). destruct neg; cbn [andb]; [|done]. destruct (Z.eqb_spec (u32 v) (2 ^ 31)) as [->|Hne]; [done|].
  destruct (neg_s32 (u32 v)) as [-> E]; [apply u32_range|done|]. rewrite !some_bind, E. by rewrite u32_opp.
Qed.

Lemma numeral_bounds base l neg v k : numeral base l neg v k → 0 <= v ∧ (k <= length l)%nat.
Proof.
  intros [sp sg pf dg rest b' b ds Hsp Hs Hsg Hr Hd Hend]. split; [apply (value_mono b 0 ds); [by eapply digits_in_range|done]|]. rewrite !length_app. lia.
Qed.

(** Every text starts with a numeral, possibly an empty one of value 0. *)
Lemma span_starts (f : Z → bool) l : ∃ x y, l = x ++ y ∧ Forall (λ c, f c = true) x ∧ starts f y = false.
Proof.
  induction l as [|c l (x & y & -> & Hx & Hy)]; [exists [], []; done|]. destruct (f c) eqn:E; [exists (c :: x), y; auto|exists [], (c :: x ++ y); auto].
Qed.

Lemma digits_span b l : ∃ dg ds rest, l = dg ++ rest ∧ Forall2 (digit b) dg ds ∧ ∀ c d, head rest = Some c → ¬ digit b c d.
Proof.
  induction l as [|c l (dg & ds & rest & -> & Hd & Hr)]; [exists [], [], []; by split|]. destruct (char_to_digit_spec c b) as [(d & _ & _ & H)|[_ H]].
  - exists (c :: dg), (d :: ds), rest. split; [done|]. split; [by constructor|done].
  - exists [], [], (c :: dg ++ rest). split; [done|]. split; [constructor|]. intros c' d [= <-]. apply H.
Qed.

Lemma radix_total base l : ∃ pf b t, l = pf ++ t ∧ radix base pf b t.
Proof.
  destruct (decide (base = 0)) as [->|H0]; [|destruct (decide (base = 16)) as [->|H16]].
  - destruct l as [|c l]; [exists [], 10, []; split; [done|by constructor]|]. destruct (Z.eqb_spec 48 c) as [<-|Hc]; [|exists [], 10, (c :: l); split; [done|constructor; by apply eqb_ne]].
    destruct l as [|c1 l]; [exists [48], 8, []; split; [done|by constructor]|]. destruct (is_x c1) eqn:E; [exists [48; c1], 16, l; split; [done|constructor; auto]|exists [48], 8, (c1 :: l); split; [done|by constructor]].
  - destruct (hex_prefix l) eqn:E; [|exists [], 16, l; split; [done|by constructor]]. destruct l as [|c [|c1 l]]; try done. cbn in E. apply andb_true_iff in E as [->%Z.eqb_eq E].
    exists [48; c1], 16, l. split; [done|constructor; auto].
  - exists [], base, l. split; [done|by constructor].
Qed.

Lemma sign_total l : ∃ sg neg t, l = sg ++ t ∧ sign sg neg t.
Proof.
  destruct (starts is_sign l) eqn:E; [|exists [], false, l; split; [done|by constructor]]. destruct l as [|c l]; [done|]. cbn in E. apply orb_true_iff in E as [->%Z.eqb_eq| ->%Z.eqb_eq].
  - exists [45], true, l. split; [done|constructor].
  - exists [43], false, l. split; [done|constructor].
Qed.

Lemma numeral_total base l : ∃ neg v k, numeral base l neg v k.
Proof.
  destruct (span_starts is_space l) as (sp & l1 & -> & Hsp & H1). destruct (sign_total l1) as (sg & neg & l2 & -> & Hsg). destruct (radix_total base l2) as (pf & b & l3 & -> & Hr).
  destruct (digits_span b l3) as (dg & ds & rest & -> & Hd & Hend). eexists _, _, _. by eapply (Numeral base sp sg pf dg rest neg b ds).
Qed.

(** *** Printing a number *)

Fixpoint digits_of (fuel : nat) (b v : Z) : list Z :=
  match fuel with O => [] | S fuel => if v <? b then [v] else digits_of fuel b (v / b) ++ [v mod b] end.

Definition to_char (d : Z) : Z := if d <? 10 then 48 + d else 97 + (d - 10).

(** The digits of [z] in base [b], after a minus sign when it is negative. *)
Definition print_number (b z : Z) : list Z :=
  (if z <? 0 then [45] else []) ++ map to_char (digits_of (S (Z.to_nat (Z.log2 (Z.abs z)))) b (Z.abs z)).

Lemma value_snoc b ds d : value b (ds ++ [d]) = value b ds * b + d.
Proof. unfold value. by rewrite foldl_app. Qed.

Lemma digits_of_run fuel b v : 2 <= b → 0 <= v < 2 ^ Z.of_nat fuel → value b (digits_of fuel b v) = v ∧ digits_of_base b (digits_of fuel b v).
Proof.
  intros Hb. revert v. induction fuel as [|fuel IH]; intros v Hv; cbn [digits_of]; [split; [cbn in *; lia|constructor]|].
  destruct (Z.ltb_spec v b) as [Hlt|Hge]; [split; [done|repeat constructor; lia]|]. rewrite Nat2Z.inj_succ, Z.pow_succ_r in Hv by lia.
  destruct (IH (v / b)) as [E HF]; [split; [apply Z.div_pos; lia|apply Z.div_lt_upper_bound; nia]|]. pose proof (Z.mod_pos_bound v b). split.
  - rewrite value_snoc, E. pose proof (Z.div_mod v b). lia.
  - apply Forall_app. split; [done|repeat constructor; lia].
Qed.

Lemma print_digits b z : 2 <= b → let ds := digits_of (S (Z.to_nat (Z.log2 (Z.abs z)))) b (Z.abs z) in value b ds = Z.abs z ∧ digits_of_base b ds.
Proof.
  intros Hb. apply digits_of_run; [done|]. split; [lia|]. rewrite Nat2Z.inj_succ, Z2Nat.id by apply Z.log2_nonneg. destruct (decide (z = 0)) as [->|]; [done|]. apply Z.log2_spec. lia.
Qed.

Lemma digit_to_char b d : b <= 36 → 0 <= d < b → digit b (to_char d) d.
Proof. intros Hb Hd. unfold to_char. split; [|lia]. destruct (Z.ltb_spec d 10); [apply den_decimal; lia|apply den_lower; lia]. Qed.

Lemma digits_chars b ds : b <= 36 → digits_of_base b ds → Forall2 (digit b) (map to_char ds) ds.
Proof. intros Hb. induction 1 as [|d ds Hd HF IH]; constructor; [by apply digit_to_char|done]. Qed.

(** A test that fails on every digit. *)
Lemma starts_chars f b ds : digits_of_base b ds → (∀ d, 0 <= d < b → f (to_char d) = false) → starts f (map to_char ds ++ []) = false.
Proof. intros HF Hf. rewrite app_nil_r. destruct HF as [|d ds Hd HF]; [done|]. by apply Hf. Qed.

Lemma char_tests d : 0 <= d < 36 → is_space (to_char d) = false ∧ is_sign (to_char d) = false ∧ (d < 16 → is_x (to_char d) = false) ∧ to_char d ≠ 0.
Proof. intros Hd. unfold to_char, is_space, is_sign, is_x. destruct (Z.ltb_spec d 10); (split; [|split; [|split; [intros ?|]]]); try lia; rewrite !eqb_ne by lia; done. Qed.

Lemma print_radix b ds : 2 <= b <= 36 → digits_of_base b ds → radix b [] b (map to_char ds ++ []).
Proof.
  intros Hb HF. destruct (decide (b = 16)) as [->|]; [|apply radix_given; lia]. apply radix_16. rewrite app_nil_r. destruct HF as [|d ds Hd HF]; [done|]. destruct HF as [|d1 ds Hd1 HF]; [done|].
  cbn [map hex_prefix]. destruct (char_tests d1) as (_ & _ & Hx & _); [lia|]. rewrite Hx by lia. apply andb_false_r.
Qed.

Lemma print_numeral b z : 2 <= b <= 36 → numeral b (print_number b z) (z <? 0) (Z.abs z) (length (print_number b z)).
Proof.
  intros Hb. unfold print_number. set (sg := if z <? 0 then [45] else []). destruct (print_digits b z) as [E HF]; [lia|].
  set (ds := digits_of _ _ _) in *. rewrite <- E. rewrite length_app, <- (app_nil_r (map to_char ds)) at 1. assert (Htest : ∀ f, (∀ d, 0 <= d < 36 → f (to_char d) = false) → starts f (map to_char ds ++ []) = false).
  { intros f Hf. eapply starts_chars; [done|]. intros d Hd. apply Hf. lia. }
  replace (length sg + length (map to_char ds))%nat with (0 + length sg + 0 + length (map to_char ds))%nat by lia.
  apply (Numeral b [] sg [] (map to_char ds) [] (z <? 0) b ds); cbn [app]; [constructor| | |by apply print_radix|apply digits_chars; [lia|done]|done].
  - unfold sg. destruct (z <? 0); [done|]. apply Htest. apply char_tests.
  - unfold sg. destruct (z <? 0); [constructor|]. constructor. apply Htest. apply char_tests.
Qed.

Lemma print_no_nul b z : 2 <= b <= 36 → 0 ∉ print_number b z.
Proof.
  intros Hb. unfold print_number. rewrite elem_of_app. intros [H|H]; [destruct (z <? 0); apply list_elem_of_In in H; cbn in H; lia|].
  apply list_elem_of_fmap in H as (d & E & Hd). destruct (print_digits b z) as [_ HF]; [lia|].
  unfold digits_of_base in HF. rewrite Forall_forall in HF. destruct (char_tests d) as (_ & _ & _ & Hne); [by pose proof (HF d Hd); lia|]. congruence.
Qed.

(** ** User memory *)

Definition user_range addr (n : Z) : Prop := 0 < addr ∧ addr + Z.max 1 n <= USER_ADDR_MAX.

Lemma access_ok_spec addr n : 0 <= addr < 2 ^ 64 → 0 <= n < 2 ^ 64 → access_ok addr n = true ↔ user_range addr n.
Proof.
  intros Ha Hn. unfold access_ok, user_range. rewrite !Z.geb_leb, Z.gtb_ltb. change USER_ADDR_MAX with 18446462598732840960. change (2 ^ 64) with 18446744073709551616 in *.
  destruct (Z.eqb_spec addr 0) as [->|]; [split; [done|lia]|]. destruct (Z.leb_spec 18446462598732840960 addr); [split; [done|lia]|]. destruct (Z.ltb_spec 0 n); [|split; [lia|done]].
  assert (u64 (addr + (n - 1)) = addr + (n - 1) ∨ u64 (addr + (n - 1)) = addr + (n - 1) - 18446744073709551616 ∧ 18446744073709551616 <= addr + (n - 1)) as Hu.
  { destruct (decide (addr + (n - 1) < 18446744073709551616)) as [Hlt|Hge]; [left; apply u64_small; lia|right]. split; [|lia]. unfold u64. change (2 ^ 64) with 18446744073709551616.
    symmetry. apply (Z.mod_unique _ _ 1); lia. }
  destruct (Z.ltb_spec (u64 (addr + (n - 1))) addr); [split; [done|lia]|]. destruct (Z.leb_spec 18446462598732840960 (u64 (addr + (n - 1)))); (split; [first [done|lia]|first [done|lia]]).
Qed.

Lemma access_ok_refused addr n : 0 <= addr < 2 ^ 64 → 0 <= n < 2 ^ 64 → ¬ user_range addr n → access_ok addr n = false.
Proof. intros Ha Hn H. apply not_true_iff_false. by rewrite access_ok_spec. Qed.


Lemma user_addr addr n : user_range addr n → 0 <= addr < 2 ^ 64 ∧ addr ≠ 0.
Proof. unfold user_range. change USER_ADDR_MAX with 18446462598732840960. change (2 ^ 64) with 18446744073709551616. lia. Qed.

(** The part of a string that is neither terminated nor outside user memory. *)
Lemma user_prefix x k i d s m : ready (d + i) (s + i) x m → 0 ∉ x → user_range (s + i) (Z.of_nat (length x)) →
  strncpy_user_loop (length x + k) i d s m = strncpy_user_loop k (i + Z.of_nat (length x)) d s (put (d + i) x m).
Proof.
  revert i m. induction x as [|b x IH]; intros i m Hr H0 Hu; [cbn; by rewrite Z.add_0_r|]. apply ready_cons in Hr as (E1 & E2 & Hr). apply not_elem_of_cons in H0 as [Hb H0].
  cbn [length Nat.add strncpy_user_loop put] in *. assert (Hr1 : user_range (s + i) 1) by (unfold user_range in *; lia). destruct (user_addr _ _ Hr1) as [Ha _].
  rewrite (proj2 (access_ok_spec (s + i) 1 Ha ltac:(lia)) Hr1). cbn [negb]. rewrite E1, some_bind, E2, some_bind.
  assert (ld (s + i) (<[d + i := b]> m) = Some b) as ->. { unfold ld in *. destruct (decide (s + i = d + i)) as [->|]; [apply lookup_insert_eq|by rewrite lookup_insert_ne]. }
  rewrite some_bind, eqb_ne by done. rewrite <- !Z.add_assoc in Hr. destruct x as [|c x]; [done|]. rewrite IH; [|done|done|unfold user_range in *; cbn [length] in *; lia].
  rewrite Z.add_assoc. f_equal. cbn [length]. lia.
Qed.

(** The whole of [strncpy_from_user], after its checks. *)
Definition user_result d maxlen (r : option (mem * option Z)) : option (mem * Z) :=
  '(m, r) ← r; match r with Some v => Some (m, v) | None => m ← st (d + (maxlen - 1)) 0 m; Some (m, s32 (maxlen - 1)) end.

Lemma strncpy_user_start x k d s m : ready d s x m → 0 ∉ x → user_range s (Z.of_nat (length x)) → d ≠ 0 → (0 < length x + k)%nat →
  strncpy_from_user d s (Z.of_nat (length x + k)) m = user_result d (Z.of_nat (length x + k)) (strncpy_user_loop k (Z.of_nat (length x)) d s (put d x m)).
Proof.
  intros Hr H0 Hu Hd Hk. destruct (user_addr _ _ Hu) as [_ Hs]. unfold strncpy_from_user. rewrite !eqb_ne by lia. cbn [orb]. rewrite Nat2Z.id.
  rewrite user_prefix by (rewrite ?Z.add_0_r; done). by rewrite !Z.add_0_r.
Qed.

Lemma s32_small (x : Z) : x < 2 ^ 31 → s32 x = x.
Proof. intros Hx. unfold s32. by rewrite (proj2 (Z.ltb_lt _ _)). Qed.

(** A string that fits. *)
Lemma strncpy_user_fits x n d s m : cstr m s x → mapped m d (Z.of_nat (length x) + 1) → fwd d s (Z.of_nat (length x) + 1) → user_range s (Z.of_nat (length x) + 1) → d ≠ 0 →
  Z.of_nat (length x) < n → Z.of_nat (length x) < 2 ^ 31 → strncpy_from_user d s n m = Some (put d (x ++ [0]) m, Z.of_nat (length x)).
Proof.
  intros [Hb H0] Hm Hf Hu Hd Hn Hlt. replace n with (Z.of_nat (length x + S (Z.to_nat (n - Z.of_nat (length x) - 1)))) by lia. assert (Hr : ready d s (x ++ [0]) m).
  { split; [done|rewrite length_app; eapply mapped_le; [done|lia|cbn; lia]|rewrite length_app; unfold fwd in *; cbn; lia]. }
  pose proof (ready_app _ _ _ _ _ Hr) as Hr0. apply ready_cons in Hr0 as (E1 & E2 & _).
  rewrite strncpy_user_start; [|split; [by apply bytes_at_app in Hb as [Hb _]|eapply mapped_le; [done|lia|lia]|unfold fwd in *; lia]|done|unfold user_range in *; lia|done|lia].
  cbn [strncpy_user_loop]. assert (Hr1 : user_range (s + Z.of_nat (length x)) 1) by (unfold user_range in *; lia). destruct (user_addr _ _ Hr1) as [Ha _].
  rewrite (proj2 (access_ok_spec _ 1 Ha ltac:(lia)) Hr1). cbn [negb]. rewrite E1, some_bind, E2, some_bind. unfold ld in *.
  assert (<[d + Z.of_nat (length x) := 0]> (put d x m) !! (s + Z.of_nat (length x)) = Some 0) as ->.
  { destruct (decide (s = d)) as [->|]; [apply lookup_insert_eq|by rewrite lookup_insert_ne by lia]. }
  rewrite some_bind. cbn [Z.eqb]. unfold user_result. by rewrite some_bind, put_snoc, s32_small.
Qed.

(** One that does not is cut. *)
Lemma strncpy_user_cut x d s m : bytes_at m s x → 0 ∉ x → x ≠ [] → mapped m d (Z.of_nat (length x)) → fwd d s (Z.of_nat (length x)) → user_range s (Z.of_nat (length x)) → d ≠ 0 →
  Z.of_nat (length x) < 2 ^ 31 → strncpy_from_user d s (Z.of_nat (length x)) m = Some (put d (take (length x - 1) x ++ [0]) m, Z.of_nat (length x) - 1).
Proof.
  intros Hb H0 Hx Hm Hf Hu Hd Hlt. destruct x as [|b x _] using rev_ind; [done|]. rewrite length_app in *. cbn [length] in *. replace (length x + 1 - 1)%nat with (length x) by lia. rewrite take_app_length.
  pose proof (strncpy_user_start (x ++ [b]) 0 d s m) as E. rewrite length_app, Nat.add_0_r in E. cbn [length] in E. rewrite E; [|split; [done|by rewrite length_app|by rewrite length_app]|done|done|done|lia].
  cbn [strncpy_user_loop]. unfold user_result. rewrite some_bind. rewrite (st_mapped _ _ 0 1); [| |lia].
  - rewrite some_bind, s32_small by lia. do 2 f_equal. rewrite !put_snoc. replace (d + (Z.of_nat (length x + 1) - 1)) with (d + Z.of_nat (length x)) by lia. apply insert_insert_eq.
  - apply mapped_put; [eapply mapped_le; [done|lia|lia]|rewrite length_app; exact Hm].
Qed.

(** One that reaches the kernel's addresses is refused there. *)
Lemma strncpy_user_fault x n d s m : bytes_at m s x → 0 ∉ x → x ≠ [] → mapped m d (Z.of_nat (length x)) → fwd d s (Z.of_nat (length x)) → 0 < s → s + Z.of_nat (length x) = USER_ADDR_MAX → d ≠ 0 →
  Z.of_nat (length x) < n → strncpy_from_user d s n m = Some (put d x m, - EFAULT).
Proof.
  intros Hb H0 Hx Hm Hf Hs Hmax Hd Hn. replace n with (Z.of_nat (length x + S (Z.to_nat (n - Z.of_nat (length x) - 1)))) by lia.
  assert (length x ≠ 0%nat) by (by destruct x). rewrite strncpy_user_start; [|by split|done|unfold user_range; lia|done|lia]. cbn [strncpy_user_loop]. by rewrite Hmax.
Qed.

(** The two copies of a range. *)
Lemma copy_user_cases d s l m : bytes_at m s l → mapped m d (Z.of_nat (length l)) → d ≠ 0 → s ≠ 0 → l ≠ [] →
  copy_from_user d s (Z.of_nat (length l)) m = Some (if access_ok s (Z.of_nat (length l)) then (put d l m, 0) else (m, - EFAULT)) ∧
  copy_to_user d s (Z.of_nat (length l)) m = Some (if access_ok d (Z.of_nat (length l)) then (put d l m, 0) else (m, - EFAULT)).
Proof.
  intros Hb Hm Hd Hs Hl. assert (length l ≠ 0%nat) by (by destruct l). unfold copy_from_user, copy_to_user. rewrite !eqb_ne by lia. cbn [orb].
  rewrite !memmove_run by done. split; [by destruct (access_ok s _)|by destruct (access_ok d _)].
Qed.

(** ** What the theorems use *)

(** [m'] is [m] with [l] at [a] and nothing else changed. *)
Definition written m a l m' : Prop :=
  bytes_at m' a l ∧ (∀ p, ¬ (a <= p < a + Z.of_nat (length l)) → m' !! p = m !! p) ∧ dom m' = dom m.

Lemma put_written m a l : mapped m a (Z.of_nat (length l)) → written m a l (put a l m).
Proof. intros Hm. split; [apply put_bytes|]. split; [intros p Hp; by rewrite put_lookup, decide_False|by apply put_dom]. Qed.

Lemma cstr_append m d x y : cstr m d x → 0 ∉ y → cstr (put (d + Z.of_nat (length x)) (y ++ [0]) m) d (x ++ y).
Proof.
  intros [[Hx _]%bytes_at_app H0] Hy. split; [|rewrite elem_of_app; tauto]. rewrite <- app_assoc. apply bytes_at_app. split; [|apply put_bytes]. intros j b Hj. pose proof (lookup_lt_Some _ _ _ Hj).
  rewrite put_lookup, decide_False by lia. by apply Hx.
Qed.

Lemma low_byte_arg (c : Z) : u8 (Z.land c 255) = c mod 256.
Proof. unfold u8. change 255 with (Z.ones 8). rewrite Z.land_ones by lia. by rewrite Z.mod_mod. Qed.

Lemma memset_run a c (k : nat) m : mapped m a (Z.of_nat k) → a ≠ 0 → kernel_memset a c (Z.of_nat k) m = Some (put a (replicate k (c mod 256)) m, a).
Proof. intros Hm Ha. unfold kernel_memset. rewrite eqb_ne by done. rewrite low_byte_arg, Nat2Z.id, fill_run by (by rewrite Z.add_0_r). by rewrite some_bind, Z.add_0_r. Qed.

(** The matches of a search, in memory and in the sequence. *)
Lemma byte_at_iff m a l v j : bytes_at m a l → 0 <= j < Z.of_nat (length l) → byte_at m a v j ↔ l !! Z.to_nat j = Some v.
Proof.
  intros Hb Hj. destruct (lookup_lt_is_Some_2 l (Z.to_nat j)) as [b Eb]; [lia|]. pose proof (Hb _ _ Eb) as E. rewrite Z2Nat.id in E by lia. unfold byte_at. rewrite E, Eb. done.
Qed.

Lemma first_ext (P Q : Z → Prop) lo hi base o : (∀ j, lo <= j < hi → P j ↔ Q j) → first_of P lo hi base o → first_of Q lo hi base o.
Proof.
  intros H [(j & Hj & HP & Hk & ->)|[Hk ->]]; [left; exists j; split; [done|]; split; [by apply H|]; split; [|done]|right; split; [|done]]; intros k Hlt; rewrite <- H by lia; by apply Hk.
Qed.

Lemma last_ext (P Q : Z → Prop) lo hi base none o : (∀ j, lo <= j < hi → P j ↔ Q j) → last_of P lo hi base none o → last_of Q lo hi base none o.
Proof.
  intros H [(j & Hj & HP & Hk & ->)|[Hk ->]]; [left; exists j; split; [done|]; split; [by apply H|]; split; [|done]|right; split; [|done]]; intros k Hlt; rewrite <- H by lia; by apply Hk.
Qed.

Lemma bytes_at_take m a l k : bytes_at m a l → bytes_at m a (take k l).
Proof. intros H. rewrite <- (take_drop k l), bytes_at_app in H. apply H. Qed.

Lemma cstr_positive m a l : bytes_ok m → cstr m a l → Forall (λ b, 0 < b) l.
Proof.
  intros Hok [[Hb _]%bytes_at_app H0]. pose proof (bytes_at_ok _ _ _ Hok Hb) as HF. rewrite Forall_forall in HF |- *. intros b Hin. specialize (HF b Hin). assert (b ≠ 0) by congruence. lia.
Qed.

(** Concrete memories. *)
Lemma bytes_at_nil m a : bytes_at m a [].
Proof. intros j b. by rewrite lookup_nil. Qed.

Lemma bytes_ok_check m : bool_decide (map_Forall (λ _ b, 0 <= b < 256) m) = true → bytes_ok m.
Proof. intros H%bool_decide_eq_true a b E. by apply (H a). Qed.

Ltac solve_bytes := repeat (apply bytes_at_cons; split; [vm_compute; reflexivity|]); apply bytes_at_nil.
