(* ===== verification/KStringTheorems.v ===== *)
(** * Theorems about the kernel's string library and its user copies *)

From S2P Require Import Prelude KString KStringSpec.

Set Default Goal Selector "!".

#[local] Arguments Z.pow : simpl never.
#[local] Arguments Z.mul : simpl never.

Implicit Types (m : mem) (l x y : list Z) (a d s p : Z).

(** C20: [kernel_memmove] copies any range of mapped bytes to any mapped range,
    overlapping in either direction or not, and changes nothing else.
    [kernel_memcpy], with its alignment loop, blocks of eight bytes and the rest,
    is the same function unless the destination starts inside the source.
    [kernel_memset] fills its range with the low byte of its argument. *)
Theorem memory_moves_correct m d s l :
  bytes_ok m → bytes_at m s l → mapped m d (Z.of_nat (length l)) → d ≠ 0 → s ≠ 0 →
  (∃ m', kernel_memmove d s (Z.of_nat (length l)) m = Some (m', d) ∧ written m d l m') ∧
  (d <= s ∨ s + Z.of_nat (length l) <= d → kernel_memcpy d s (Z.of_nat (length l)) m = kernel_memmove d s (Z.of_nat (length l)) m) ∧
  (∀ c, ∃ m', kernel_memset d c (Z.of_nat (length l)) m = Some (m', d) ∧ written m d (replicate (length l) (c mod 256)) m').
Proof.
  intros Hok Hb Hm Hd Hs. rewrite memmove_run by done. split; [exists (put d l m); split; [done|by apply put_written]|]. split.
  - intros Hf. by apply memcpy_run.
  - intros c. eexists. split; [|by apply put_written; rewrite length_replicate]. by apply memset_run.
Qed.

Definition demo_mem : mem := list_to_map (zip (seqZ 100 24) (seqZ 1 24)).

Lemma memory_moves_correct_witness :
  ∃ m', kernel_memmove 104 100 (Z.of_nat 10) demo_mem = Some (m', 104) ∧ written demo_mem 104 [1; 2; 3; 4; 5; 6; 7; 8; 9; 10] m'.
Proof.
  destruct (memory_moves_correct demo_mem 104 100 [1; 2; 3; 4; 5; 6; 7; 8; 9; 10]) as [H _]; [|solve_bytes|apply (bytes_at_mapped _ _ [5; 6; 7; 8; 9; 10; 11; 12; 13; 14]); solve_bytes|done|done|].
  - apply bytes_ok_check. vm_compute. reflexivity.
  - exact H.
Defined.

(** C21: [kernel_strcpy], [kernel_strncpy], [kernel_strcat] and [kernel_strncat]
    build the strings their names say in a buffer of [cap] bytes that is apart from
    the source, and change nothing else: the copy; the first [n] characters and
    zeros up to [n], which is no string when the source has [n] characters; the
    concatenation; the concatenation with the first [n] characters. *)
Theorem strings_built m d s l1 l2 cap n :
  cstr m s l2 → mapped m d cap → s + Z.of_nat (length l2) + 1 <= d ∨ d + cap <= s → d ≠ 0 → s ≠ 0 → 0 <= n →
  (Z.of_nat (length l2) < cap → ∃ m', kernel_strcpy d s m = Some (m', d) ∧ cstr m' d l2 ∧ written m d (l2 ++ [0]) m') ∧
  (n <= cap → ∃ m', kernel_strncpy d s n m = Some (m', d) ∧ written m d (take (Z.to_nat n) l2 ++ replicate (Z.to_nat n - length l2) 0) m') ∧
  (cstr m d l1 → Z.of_nat (length l1 + length l2) < cap →
    ∃ m', kernel_strcat d s m = Some (m', d) ∧ cstr m' d (l1 ++ l2) ∧ written m (d + Z.of_nat (length l1)) (l2 ++ [0]) m') ∧
  (cstr m d l1 → Z.of_nat (length l1 + Z.to_nat n `min` length l2) < cap →
    ∃ m', kernel_strncat d s n m = Some (m', d) ∧ cstr m' d (l1 ++ take (Z.to_nat n) l2) ∧ written m (d + Z.of_nat (length l1)) (take (Z.to_nat n) l2 ++ [0]) m').
Proof.
  intros Hc Hm Ha Hd Hs Hn. pose proof (proj2 Hc) as H0. split; [|split; [|split]].
  - intros Hcap. assert (mapped m d (Z.of_nat (S (length l2)))) as Hm' by (eapply mapped_le; [done|lia|lia]). rewrite (strcpy_run d s l2) by first [done|unfold fwd; lia].
    eexists. split; [done|]. split; [split; [apply put_bytes|done]|]. apply put_written. rewrite length_app. eapply mapped_le; [done|lia|cbn; lia].
  - intros Hcap. assert (mapped m d n) as Hm' by (eapply mapped_le; [done|lia|lia]).
    rewrite (strncpy_run d s l2) by first [done|unfold fwd; lia]. eexists. split; [done|]. apply put_written. rewrite length_app, length_take, length_replicate. eapply mapped_le; [done|lia|lia].
  - intros H1 Hcap. assert (mapped m (d + Z.of_nat (length l1)) (Z.of_nat (S (length l2)))) as Hm' by (eapply mapped_le; [done|lia|lia]). rewrite (strcat_run d s l1 l2) by first [done|unfold fwd; lia].
    eexists. split; [done|]. split; [by apply cstr_append|]. apply put_written. rewrite length_app. eapply mapped_le; [done|lia|cbn; lia].
  - intros H1 Hcap. assert (mapped m (d + Z.of_nat (length l1)) (Z.of_nat (S (Z.to_nat n `min` length l2)))) as Hm' by (eapply mapped_le; [done|lia|lia]). rewrite (strncat_run d s l1 l2) by first [done|unfold fwd; lia].
    eexists. split; [done|]. split; [apply cstr_append; [done|]|apply put_written; rewrite length_app, length_take; eapply mapped_le; [done|lia|cbn; lia]].
    intros (j & E & _)%elem_of_take. apply H0. by eapply list_elem_of_lookup_2.
Qed.

(** The string "ab" at 100 and "cd" at 110, ten bytes each. *)
Definition demo_str : mem := list_to_map (zip (seqZ 100 20) ([97; 98; 0] ++ replicate 7 0 ++ [99; 100; 0] ++ replicate 7 0)).

Lemma demo_ab : cstr demo_str 100 [97; 98].
Proof. split; [solve_bytes|]. rewrite list_elem_of_In. cbn. lia. Qed.
Lemma demo_cd : cstr demo_str 110 [99; 100].
Proof. split; [solve_bytes|]. rewrite list_elem_of_In. cbn. lia. Qed.

Lemma strings_built_witness : ∃ m', kernel_strcat 100 110 demo_str = Some (m', 100) ∧ cstr m' 100 [97; 98; 99; 100].
Proof.
  destruct (strings_built demo_str 100 110 [97; 98] [99; 100] 10 0) as (_ & _ & H & _); [apply demo_cd|apply (bytes_at_mapped _ _ ([97; 98; 0] ++ replicate 7 0)); solve_bytes|lia|done|done|done|].
  destruct H as (m' & E & Hc & _); [apply demo_ab|cbn; lia|]. by exists m'.
Defined.

(** C22: The comparisons agree with the order of strings, with the order of their
    first [n] characters and with the order of byte sequences of one length; the
    length is that of the string; searches return the first or last position that
    matches, the terminator counted as a character, or NULL when there is none. *)
Theorem string_queries_correct m s1 s2 l1 l2 :
  bytes_ok m → cstr m s1 l1 → cstr m s2 l2 → s1 ≠ 0 → s2 ≠ 0 →
  kernel_strlen s1 m = Some (Z.of_nat (length l1)) ∧
  (∀ n, 0 <= n → kernel_strnlen s1 n m = Some (Z.min n (Z.of_nat (length l1)))) ∧
  orders (kernel_strcmp s1 s2 m) l1 l2 ∧
  (∀ n, 0 <= n → orders (kernel_strncmp s1 s2 n m) (take (Z.to_nat n) l1) (take (Z.to_nat n) l2)) ∧
  (∀ n, 0 <= n <= Z.of_nat (length l1) → n <= Z.of_nat (length l2) → orders (kernel_memcmp s1 s2 n m) (take (Z.to_nat n) l1) (take (Z.to_nat n) l2)) ∧
  (∀ c, let at_c j := (l1 ++ [0]) !! Z.to_nat j = Some (c mod 256) in
    first_of at_c 0 (Z.of_nat (length l1) + 1) s1 (kernel_strchr s1 c m) ∧
    last_of at_c 0 (Z.of_nat (length l1) + 1) s1 0 (kernel_strrchr s1 c m) ∧
    ∀ n, 0 <= n <= Z.of_nat (length l1) + 1 → first_of at_c 0 n s1 (kernel_memchr s1 c n m)) ∧
  first_of (λ j, l2 `prefix_of` drop (Z.to_nat j) l1) 0 (Z.of_nat (length l1) + 1) s1 (kernel_strstr s1 s2 m).
Proof.
  intros Hok H1 H2 Hs1 Hs2. split; [by apply strlen_cstr|]. split; [|split; [|split; [|split; [|split]]]].
  - intros n Hn. unfold kernel_strnlen. rewrite eqb_ne, (strnlen_run _ _ 0 l1) by first [done|by rewrite Z.add_0_r]. f_equal. lia.
  - unfold kernel_strcmp. rewrite !eqb_ne by done. cbn [andb]. rewrite (strcmp_run _ l1 l2); [|by rewrite Z.add_0_r|by rewrite Z.add_0_r|apply cstr_size in H1; lia]. apply lex_orders. left. eauto using cstr_positive.
  - intros n Hn. unfold kernel_strncmp. destruct (Z.eqb_spec n 0) as [->|Hn0]; [by apply (lex_orders [] []); right|]. rewrite !eqb_ne by done. cbn [andb].
    rewrite (strncmp_run _ l1 l2) by (by rewrite Z.add_0_r). apply lex_orders. left. split; apply Forall_take; eauto using cstr_positive.
  - intros n Hn1 Hn2. unfold kernel_memcmp. rewrite !eqb_ne by done. cbn [andb]. destruct H1 as [[H1 _]%bytes_at_app _], H2 as [[H2 _]%bytes_at_app _].
    assert (length (take (Z.to_nat n) l1) = Z.to_nat n) as E1 by (rewrite length_take; lia). assert (length (take (Z.to_nat n) l2) = Z.to_nat n) as E2 by (rewrite length_take; lia). rewrite <- E1 at 1.
    rewrite (memcmp_run _ (take (Z.to_nat n) l2)); [apply lex_orders; right; congruence|rewrite Z.add_0_r; by apply bytes_at_take|rewrite Z.add_0_r; by apply bytes_at_take|congruence].
  - intros c. cbn zeta. destruct H1 as [Hb H0]. pose proof (bytes_at_mapped _ _ _ Hb) as Hm. rewrite length_app in Hm. cbn [length] in Hm. split; [|split].
    + unfold kernel_strchr. rewrite eqb_ne, low_byte_arg by done. eapply first_ext; [|apply (strchr_run (size m) 0 s1 (c mod 256) l1 m); [by rewrite Z.add_0_r|apply Nat.lt_le_incl, (cstr_size m s1 l1); done]].
      intros j Hj. apply byte_at_iff; [done|]. rewrite length_app. cbn. lia.
    + unfold kernel_strrchr. rewrite eqb_ne, low_byte_arg, (strlen_cstr s1 l1), some_bind by done.
      eapply last_ext; [|replace (Z.of_nat (length l1) + 1) with (0 + Z.of_nat (Z.to_nat (Z.of_nat (length l1) + 1))) at 1 by lia; apply strrchr_run; rewrite Z.add_0_r; eapply mapped_le; [done|lia|lia]].
      intros j Hj. apply byte_at_iff; [done|]. rewrite length_app. cbn. lia.
    + intros n Hn. unfold kernel_memchr. rewrite eqb_ne, low_byte_arg by done.
      eapply first_ext; [|replace n with (0 + Z.of_nat (Z.to_nat n)) at 1 by lia; apply memchr_run; rewrite Z.add_0_r; eapply mapped_le; [done|lia|lia]].
      intros j Hj. apply byte_at_iff; [done|]. rewrite length_app. cbn. lia.
  - by apply strstr_run.
Qed.

(** The bytes behind a hex number: "0x1F;" at 100 and "-42" at 110. *)
Definition demo_num : mem := list_to_map (zip (seqZ 100 20) ([48; 120; 49; 70; 59; 0] ++ replicate 4 0 ++ [45; 52; 50; 0] ++ replicate 6 0)).

Lemma string_queries_correct_witness :
  orders (kernel_strcmp 100 110 demo_str) [97; 98] [99; 100] ∧ str_lt [97; 98] [99; 100].
Proof.
  destruct (string_queries_correct demo_str 100 110 [97; 98] [99; 100]) as (_ & _ & H & _); [apply bytes_ok_check; vm_compute; reflexivity|apply demo_ab|apply demo_cd|done|done|].
  split; [exact H|apply lt_here; lia].
Defined.

(** C23: Every text starts with a numeral: spaces, a sign, a prefix that selects
    the base, and the longest run of digits.  [kernel_strtol] returns its value and
    where it ends if the absolute value is less than 2^31; otherwise the
    accumulator overflows, which is undefined.  [kernel_strtoul] returns it modulo
    2^32, except that the negation of 2^31 is undefined. *)
Theorem numbers_read m p l base (e : bool) :
  cstr m p l → p ≠ 0 → base < 2 ^ 31 →
  (∃ neg v k, numeral base l neg v k) ∧
  ∀ neg v k, numeral base l neg v k →
    let r := if neg then - v else v in
    let end_p := if e then Some (p + Z.of_nat k) else None in
    0 <= v ∧ (k <= length l)%nat ∧
    (v < 2 ^ 31 → kernel_strtol p e base m = Some (r, end_p)) ∧
    (2 ^ 31 <= v → kernel_strtol p e base m = None) ∧
    (neg = false ∨ v mod 2 ^ 32 ≠ 2 ^ 31 → kernel_strtoul p e base m = Some (r mod 2 ^ 32, end_p)) ∧
    (neg = true → v mod 2 ^ 32 = 2 ^ 31 → kernel_strtoul p e base m = None).
Proof.
  intros Hc Hp Hb. split; [apply numeral_total|]. intros neg v k Hnum. cbn zeta. pose proof (numeral_bounds _ _ _ _ _ Hnum) as [Hv Hk].
  rewrite (strtol_run p e base l neg v k), (strtoul_run p e base l neg v k) by first [done|lia]. split; [done|]. split; [done|]. split; [|split; [|split]].
  - intros Hlt. by rewrite int32_in, some_bind by lia.
  - intros Hge. by rewrite int32_over.
  - intros [->|Hne]; [done|]. destruct neg; [|done]. unfold u32. by rewrite eqb_ne.
  - intros -> E. unfold u32. by rewrite E.
Qed.

Lemma demo_hex : cstr demo_num 100 [48; 120; 49; 70; 59] ∧ numeral 0 [48; 120; 49; 70; 59] false 31 4.
Proof.
  split; [split; [solve_bytes|]; rewrite list_elem_of_In; cbn; lia|]. apply (Numeral 0 [] [] [48; 120] [49; 70] [59] false 16 [1; 15]); [constructor|done|by constructor|constructor; auto| |].
  - constructor; [split; [by apply den_decimal|lia]|]. constructor; [split; [by apply den_upper|lia]|constructor].
  - intros c d [= <-] [[]]; lia.
Qed.

Lemma numbers_read_witness : kernel_strtol 100 true 0 demo_num = Some (31, Some 104).
Proof.
  destruct (numbers_read demo_num 100 [48; 120; 49; 70; 59] 0 true) as [_ H]; [apply demo_hex|done|lia|].
  destruct (H false 31 4%nat) as (_ & _ & E & _); [apply demo_hex|]. apply E. lia.
Defined.

(** C24: Reading a printed number gives it back, in every base from 2 to 36, and
    ends where the text ends: [kernel_strtol] for the numbers of absolute value
    less than 2^31, [kernel_strtoul] for the unsigned ones of 32 bits. *)
Theorem printed_numbers_read_back m p b z :
  2 <= b <= 36 → cstr m p (print_number b z) → p ≠ 0 →
  (- 2 ^ 31 < z < 2 ^ 31 → kernel_strtol p true b m = Some (z, Some (p + Z.of_nat (length (print_number b z))))) ∧
  (0 <= z < 2 ^ 32 → kernel_strtoul p true b m = Some (z, Some (p + Z.of_nat (length (print_number b z))))).
Proof.
  intros Hb Hc Hp. pose proof (print_numeral b z Hb) as Hnum. split; intros Hz.
  - rewrite (strtol_run _ _ _ _ _ _ _ _ Hc Hnum Hp), int32_in, some_bind by lia. destruct (Z.ltb_spec z 0); [|by rewrite Z.abs_eq by lia]. by rewrite Z.abs_neq, Z.opp_involutive by lia.
  - rewrite (strtoul_run _ _ _ _ _ _ _ _ Hc Hnum Hp) by lia. rewrite (proj2 (Z.ltb_ge z 0)) by lia. cbn [andb]. by rewrite Z.abs_eq, u32_small by lia.
Qed.

Lemma printed_numbers_read_back_witness : print_number 10 (-42) = [45; 52; 50] ∧ kernel_strtol 110 true 10 demo_num = Some (-42, Some 113).
Proof.
  split; [reflexivity|]. destruct (printed_numbers_read_back demo_num 110 10 (-42)) as [H _]; [lia|split; [solve_bytes|apply print_no_nul; lia]|done|]. apply H. lia.
Defined.


(** C19: User copies stay off kernel memory.  [access_ok] accepts exactly the
    ranges that lie below the kernel's addresses, wrap-around included; a copy from
    or to a range that it accepts copies it exactly, one from or to any other range
    returns -EFAULT and changes nothing.  [strncpy_from_user] copies a string with
    its terminator, cuts one that does not fit so that it is terminated, and at the
    first address of the kernel returns -EFAULT without reading it. *)
Theorem user_copies_confined m :
  (∀ addr n, 0 <= addr < 2 ^ 64 → 0 < n < 2 ^ 64 → access_ok addr n = true ↔ 0 < addr ∧ addr + n <= USER_ADDR_MAX) ∧
  (∀ d s l, bytes_at m s l → mapped m d (Z.of_nat (length l)) → d ≠ 0 → s ≠ 0 → l ≠ [] →
    let n := Z.of_nat (length l) in
    (if access_ok s n then ∃ m', copy_from_user d s n m = Some (m', 0) ∧ written m d l m' else copy_from_user d s n m = Some (m, - EFAULT)) ∧
    (if access_ok d n then ∃ m', copy_to_user d s n m = Some (m', 0) ∧ written m d l m' else copy_to_user d s n m = Some (m, - EFAULT))) ∧
  (∀ d s l maxlen, bytes_at m s l → 0 ∉ l → l ≠ [] → mapped m d maxlen → s + maxlen <= d ∨ d + maxlen <= s → 0 < s → d ≠ 0 → Z.of_nat (length l) <= maxlen < 2 ^ 31 →
    let n := Z.of_nat (length l) in
    (m !! (s + n) = Some 0 → n < maxlen → s + n < USER_ADDR_MAX → ∃ m', strncpy_from_user d s maxlen m = Some (m', n) ∧ written m d (l ++ [0]) m') ∧
    (n = maxlen → s + n <= USER_ADDR_MAX → ∃ m', strncpy_from_user d s maxlen m = Some (m', n - 1) ∧ written m d (take (length l - 1) l ++ [0]) m') ∧
    (n < maxlen → s + n = USER_ADDR_MAX → ∃ m', strncpy_from_user d s maxlen m = Some (m', - EFAULT) ∧ written m d l m')).
Proof.
  split; [|split].
  - intros addr n Ha Hn. rewrite access_ok_spec by lia. unfold user_range. rewrite Z.max_r by lia. done.
  - intros d s l Hb Hm Hd Hs Hl. cbn zeta. destruct (copy_user_cases d s l m Hb Hm Hd Hs Hl) as [-> ->]. pose proof (put_written m d l Hm). split; [destruct (access_ok s _)|destruct (access_ok d _)]; eauto.
  - intros d s l maxlen Hb H0 Hl Hm Ha Hs Hd Hn. cbn zeta. assert (length l ≠ 0%nat) by (by destruct l). split; [|split].
    + intros Hz Hlt Hmax. eexists. split; [apply (strncpy_user_fits l)|apply put_written; rewrite length_app; eapply mapped_le; [done|lia|cbn; lia]]; [|eapply mapped_le; [done|lia|lia]|unfold fwd; lia|unfold user_range; lia|done|lia|lia].
      split; [|done]. apply bytes_at_app. split; [done|]. apply bytes_at_cons. split; [done|apply bytes_at_nil].
    + intros <- Hmax. eexists. split; [apply strncpy_user_cut; first [done|unfold fwd, user_range; lia]|]. apply put_written. rewrite length_app, length_take. eapply mapped_le; [done|lia|cbn; lia].
    + intros Hlt Hmax. assert (mapped m d (Z.of_nat (length l))) by (eapply mapped_le; [done|lia|lia]). eexists. split; [apply strncpy_user_fault; first [done|unfold fwd; lia]|]. by apply put_written.
Qed.

(** "cd" is copied from a user address; a range that ends in the kernel's is not. *)
Lemma user_copies_confined_witness :
  (∃ m', strncpy_from_user 100 110 8 demo_str = Some (m', 2) ∧ written demo_str 100 ([99; 100] ++ [0]) m') ∧ access_ok (USER_ADDR_MAX - 4) 5 = false.
Proof.
  destruct (user_copies_confined demo_str) as (Hok & _ & H). split.
  - destruct (H 100 110 [99; 100] 8) as [H1 _]; [solve_bytes|rewrite list_elem_of_In; cbn; lia|done| |lia|lia|done|cbn; lia|].
    + apply (bytes_at_mapped _ _ [97; 98; 0; 0; 0; 0; 0; 0]). solve_bytes.
    + apply H1; [vm_compute; reflexivity|cbn; lia|vm_compute; reflexivity].
  - apply not_true_iff_false. rewrite Hok by (unfold USER_ADDR_MAX; lia). lia.
Defined.
